(* ===== verification/_CoqProject ===== *)
-Q . S2P
Prelude.v
Tree234.v
Tree234Add.v
Tree234Del.v
Tree234Find.v
Tree234Spec.v
MpintCore.v
MpintArith.v
MpintMul.v
MpintShift.v
MpintConv.v
MpintDecimal.v
MpintInv.v
MpintRecip.v
MpintDiv.v
MpintMonty.v
MpintGcd.v
MpintSqrt.v
MpintRoot.v
MpintSpec.v
MpintModSpec.v
Callback.v
Bufchain.v
Marshal.v
Strbuf.v
MarshalMp.v
MarshalSpec.v
CmString.v
CmStringOps.v
CmStringSpec.v
Security.v
MemStream.v
FileBuffer.v
FileBufferSpec.v
Wildcard.v
WildcardSpec.v
Utf8.v
Utf8Spec.v
ConfData.v
Filename.v
Conf.v
ConfSerial.v
ConfInv.v
ConfSpec.v
ConfList.v
ConfWire.v
ConfTheorems.v
Lz77.v
Lz77Spec.v
Zlib.v
ZlibBits.v
ZlibCode.v
ZlibRun.v
ZlibSpec.v
ZlibSafe.v
ZlibHuff.v
Ptrlen.v
CertExpr.v
CertExprLex.v
CertExprSpec.v
CertExprParse.v
CertExprPolicy.v
CertExprTheorems.v
VerString.v
VerStringRun.v
VerStringBugs.v
VerStringSpec.v
VerStringFeed.v
VerStringTheorems.v
Packet.v
Bpp.v
BppBare.v
BppBareSpec.v
Bpp2.v
Bpp2Crypto.v
Bpp2Send.v
Bpp2Recv.v
Bpp2Safe.v
Bpp2Spec.v
Bpp2Theorems.v
