(* ===== verification/Prelude.v ===== *)
(** * A verification development of Far-NetBox

    Far-NetBox is a Far Manager plugin for SFTP, SCP, FTP, WebDAV and S3.  It is
    built from the engine of WinSCP (src/src/core, src/src/base), PuTTY's SSH
    implementation (src/libs/putty), FileZilla's FTP client (src/src/filezilla) and
    the plugin proper (src/src/NetBox).  This library models the parts of PuTTY and
    WinSCP that everything else stands on: containers, big numbers, the event
    queue, buffers and wire formats, strings, text conversion, stored secrets,
    settings, compression, the first exchange of an SSH connection and its packets.

    ** Parts and files

    - Counted 2-3-4 tree (putty utils/tree234.c): [Tree234] has the nodes and every
      operation as the code performs it on them, [Tree234Add] insertion,
      [Tree234Del] deletion, [Tree234Find] lookup and ordered search, [Tree234Spec]
      the properties.  A tree represents the list of its elements.
    - Multiprecision integers (crypto/mpint.c): numbers are lists of 32-bit words.
      [MpintCore] words and carries, [MpintArith] addition and comparison,
      [MpintMul] multiplication with Karatsuba, [MpintShift] shifts, [MpintConv] and
      [MpintDecimal] conversions, [MpintInv] inverses modulo powers of two,
      [MpintRecip] and [MpintDiv] division by reciprocal, [MpintMonty] Montgomery
      arithmetic, [MpintGcd] greatest common divisors, [MpintSqrt] modular square
      roots, [MpintRoot] integer roots, [MpintSpec] and [MpintModSpec] the
      properties.
    - Event queue (callback.c): [Callback].  The world is the callback sets and the
      idempotent callbacks; client callbacks are functions of the whole world.
    - Buffer chains (utils/bufchain.c): [Bufchain], on top of the event queue.
    - Marshalling (utils/marshal.c, marshal.h): [Marshal] has the class of sinks with
      its law, the put functions against it, and the get functions of sources with
      their error latch.  [Strbuf] models utils/memory.c and utils/strbuf.c and
      shows that string buffers are lawful sinks; [MarshalMp] the wire formats of
      numbers; [MarshalSpec] buffer chains and fixed buffers as sinks, and the
      properties.
    - Copy-on-write strings (include/nbstring.inl, nbcore/nbstring.cpp): [CmString]
      has the heap of reference-counted blocks and the member functions,
      [CmStringOps] their effect, [CmStringSpec] the refinement of a store of string
      values.
    - Stored passwords (core/WinSCPSecurity.cpp): [Security].
    - Memory streams and file buffers (base/Classes.cpp, base/FileBuffer.cpp):
      [MemStream], [FileBuffer], and in [FileBufferSpec] the loop of text uploads
      (core/ScpFileSystem.cpp) with its properties.
    - Wildcards (utils/wildcard.c): [Wildcard] and, with their grammar and meaning,
      [WildcardSpec].
    - UTF-8 (utils/decode_utf8.c, encode_utf8.c and the conversions of wide strings):
      [Utf8], over sources and sinks, and [Utf8Spec].
    - Configurations (utils/conf.c), the typed settings of a session: [ConfData] has
      the tables of options (conf.h, conf.winscp.h), [Filename] the compound values
      (windows/utils/filename.c, fontspec.c), [Conf] the operations over the 2-3-4
      tree, with pointer identity and the blocks of the entries, [ConfSerial] the
      wire format over sinks and sources.  [ConfInv] has the invariant, [ConfSpec],
      [ConfList] and [ConfWire] the effect of changing, reading and transmitting,
      [ConfTheorems] the properties.
    - Compression of SSH packets (ssh/zlib.c): [Lz77] the matcher with its window and
      hash chains, generic in the consumer of its output, [Zlib] the compressor, the
      decode tables and the state machine of the decompressor.  [Lz77Spec] has the
      chain invariant and the decoding of literals and matches, [ZlibBits] streams of
      bits, [ZlibCode] the symbols and their codes, [ZlibRun] the decompressor on
      them, [ZlibSpec] the round trip, [ZlibSafe] arbitrary input, [ZlibHuff]
      canonical Huffman codes.
    - Strings with lengths (utils/ptrlen.c): [Ptrlen], over a block of memory.
    - Certificate expressions (utils/cert-expr.c), the language that says for which
      hosts a certification authority is trusted: [CertExpr] has lexer, parser,
      evaluation and builder; [CertExprLex] what the lexer recognises, [CertExprSpec]
      the grammar, [CertExprParse] that the parser decides it, [CertExprPolicy] the
      formulas that expressions denote and the texts of the builder,
      [CertExprTheorems] the properties.
    - Version exchange (ssh/verstring.c), the first layer of an SSH connection:
      [VerString] has the state, the coroutine that handles input as rounds between
      its waits, and the detection of bugs, over buffer chains, string buffers,
      wildcards and configurations; [VerStringRun] the automaton on single bytes that
      the rounds follow, [VerStringBugs] version numbers and the table of bugs,
      [VerStringSpec] greetings, versions and decisions and the end of the greeting,
      [VerStringFeed] any split of the input, [VerStringTheorems] the
      properties.
    - Packets (ssh.h, ssh/common_p.c): [Packet] has outgoing packets as sinks and the
      queues of packets, [Bpp] what the packet layers share (ssh/bpp.h): message types,
      the answer to unknown ones, and coroutines whose waits are reads of whole numbers
      of bytes, which do not depend on how their input is split.
    - Bare packet protocol (ssh/bpp-bare.c), between processes that share a connection:
      [BppBare] and [BppBareSpec].
    - SSH-2 packet protocol (ssh/bpp2.c, crypto/mac.c): [Bpp2] has the state, the new
      keys, the coroutine with its three ways to read a packet, and the sending of the
      queue, over arbitrary tables of ciphers, message authentication codes and
      compression methods.  [Bpp2Crypto] has the laws of these tables as classes;
      [Bpp2Send] the packet that is sent, [Bpp2Recv] how it is read, [Bpp2Safe] that
      the reads end and arbitrary input, [Bpp2Spec] whole queues, new keys and the
      instance of the laws for ssh/zlib.c, [Bpp2Theorems] the properties, with an
      instance of the laws for a small cipher and code.

    ** Conventions

    C code that can fail is a function to [res]: it returns, or reads or writes out
    of bounds, fails an assertion, asks for too much memory, throws, or runs out of
    the fuel its loops are given.  Fuel is always computed from the sizes of the
    data at hand, and the theorems that say what a function returns show that it is
    enough.  Integers are [Z] with their wrap-around written where the code relies
    on it or can reach it.  Memory that was never written is [None].  Names are the
    ones of the source.

    ** What is shown

    - The tree operations act on the represented list as their comments promise and
      keep the balance and the counts; the one precondition the code does not check
      ([addpos234] past the end) loses data.  The one exception is the search for LE
      and GE where several elements compare equal, which returns any of them.
    - The arithmetic is exact, its loops end in the rounds they have, and no
      assertion fires; conversions round trip; random numbers are in range.
    - An idempotent callback is queued at most once, a scheduled callback is called,
      and so data added to a buffer chain is noticed: the function and the context that
      were attached are called.  Chains are queues of bytes.
    - Whatever is written to a lawful sink is read back; reading arbitrary bytes is
      memory safe.
    - Shared strings behave as values and leak nothing, for every sequence of
      operations; the two ways to break this are shown.
    - Passwords come back under their key; other keys are described.
    - A text is converted block by block as lists of bytes would be; that is the
      conversion of the whole for the texts that may be cut anywhere, and what happens
      to others is shown.
    - The wildcard matcher, which never backtracks, decides the meaning of
      wildcards.
    - The UTF-8 decoder accepts exactly the shortest encodings of scalar values; the
      string conversions are total, and inverse on well-formed strings.
    - A configuration is a finite map with typed keys and values, for every sequence
      of calls and every allocator; no union is read as the wrong member, no block
      is lost or freed twice; listings are sorted and complete; a configuration
      that was serialised is read back, and arbitrary bytes do no harm.  These
      theorems rest on those of the tree, the sinks and sources and UTF-8.
    - Packets that were compressed are decompressed unchanged, for every sequence of
      packets with the contexts kept between them; on arbitrary bytes the
      decompressor is safe, ends and bounds its output up to the first packet it
      rejects, and behind that one an assertion fails; its nested tables decode
      every canonical Huffman code, wait exactly while a code is incomplete and report
      what is no code; the matcher's output decodes to its input, and its hash chains
      are a function of the input.
    - The parser of certificate expressions always returns, accepts exactly the
      documented grammar and points inside the text where it does not; the decision
      about a host is the truth of the formula, through the meaning of wildcards; a
      malformed wildcard is the exception, and it trusts every host.
    - The version exchange does not depend on how the network splits its input: it
      finds the first line with the prefix, decides once, sends one line (or none, if
      it waited and there is no common protocol) and leaves the rest of the input; two
      ends decide the same; a connection that closes early is one error.
    - The packets that one end sends are the packets that the other end queues, in
      order, in every mode of the packet protocol, with or without compression, however
      the network splits the stream; the proof for compression is that of ssh/zlib.c.
      These are packets between the events of the protocol: NEWKEYS has its own
      theorem; EXT_INFO and USERAUTH_SUCCESS are modelled, and only the theorem on
      arbitrary bytes covers them; the start of a delayed compression is modelled, and no
      theorem is about it.
      Nothing is read behind a NEWKEYS packet before new keys are there, and with them
      both ends are in step again.  Arbitrary bytes are safe in two of the three modes;
      in the third one (the code covers the encrypted packet) the largest accepted
      length overruns the packet by four bytes, which is shown.

    ** Bounds

    Sizes are bounded where the code's own arithmetic is: strings up to 2^28
    characters (sizes in bytes are [int]), text uploads up to half a gigabyte (the
    code's limit), buffers below 2^64 bytes, numbers of up to 2^32 bits on the wire, packets of up
    to 2^28 bytes to compress and 2^17 to decompress (so that what they expand to fits
    the buffer).  A message fits into a packet if it and what compression can make of it
    stay 260 bytes below the limit of the receiver; 2^14 of them are sent at a time (so
    that the stream stays below 2^31 bytes).  The coroutines that read packets have fuel
    for three rounds for each byte of input and five more: a round reads, or follows at
    most three that do not.

    ** Not modelled

    The parent pointers of tree nodes (the way up is the path of the descent) and the
    width of counts that memory bounds (tree counts, references of a string).
    Memory that is freed or wiped in PuTTY's C code where no function reads it again
    (the entries of configurations are the exception), logging, printf-style formatting, Windows services (files, sockets, registry, code
    pages, certificates; the conversion through the code page is a parameter where it is
    used), threads, the user interface, ciphers and hashes (tables of functions with laws
    where the packets use them; the laws have the cipher and the code independent of each
    other, which excludes ChaCha20-Poly1305 and AES-GCM), the layers of SSH above the
    packets (key exchange, authentication, channels), SFTP, FTP, WebDAV and S3, the
    classes of WinSCP that run them, and vendored libraries.  Masks of file names, access
    rights and directory listings (core/FileMasks.cpp, core/RemoteFiles.cpp) are functions
    over lists and strings of the base library of which only the strings are modelled
    here.

    This file holds what the others share: results of C code, list and bit lemmas,
    congruences, and the automation. *)

From Stdlib Require Export ZArith Lia.
From stdpp Require Export base tactics numbers option sorting sets.
From stdpp Require Export list.

Declare Scope cmodel_scope.
Delimit Scope cmodel_scope with cmodel.

(** ** Results of C code *)

(** How a run of C code that does not return can end: a read or write through
    a bad pointer (or another undefined behaviour), an [assert] that fails,
    a request for more memory than the allocation wrappers accept, a C++
    exception, or a loop that the model cut short.  The last one is an artefact of
    fuel, and the theorems show that it does not occur. *)
Inductive failure := UndefinedBehaviour | AssertionFailed | OutOfMemory | Exception | OutOfFuel.

#[export] Instance failure_eq_dec : EqDecision failure.
Proof. solve_decision. Defined.

Inductive res (A : Type) :=
| Ok (a : A)
| Crash (f : failure).
Arguments Ok {A} a.
Arguments Crash {A} f.

Definition res_bind {A B} (x : res A) (k : A -> res B) : res B :=
  match x with Ok a => k a | Crash f => Crash f end.

Definition c_assert {A} (b : bool) (k : res A) : res A :=
  if b then k else Crash AssertionFailed.

Notation "'let!' x ':=' c 'in' k" := (res_bind c (fun x => k))
  (at level 10, x pattern, c at level 100, k at level 200,
   format "'let!'  x  ':='  c  'in' '//' k") : cmodel_scope.

Lemma res_bind_Ok {A B} (x : res A) (k : A -> res B) b :
  res_bind x k = Ok b <-> exists a, x = Ok a /\ k a = Ok b.
Proof. destruct x; naive_solver. Qed.

Lemma c_assert_true {A} b (k : res A) : b = true -> c_assert b k = k.
Proof. by intros ->. Qed.

(** ** Automation *)

Create HintDb cmodel.
#[export] Hint Extern 5 (_ <= _)%Z => lia : cmodel.
#[export] Hint Extern 5 (_ < _)%Z => lia : cmodel.
#[export] Hint Extern 5 (_ <= _)%nat => lia : cmodel.
#[export] Hint Extern 5 (_ < _)%nat => lia : cmodel.

(** Normalise list expressions: right-nested appends, no trailing [nil]. *)
Ltac list_norm :=
  repeat first
    [ progress cbn [app option_list option_rect from_option]
    | rewrite <-app_assoc
    | rewrite app_nil_r ].

(** Push [length] through list expressions. *)
Ltac len_norm :=
  repeat first
    [ progress cbn [length app option_list option_rect from_option]
    | rewrite length_app | rewrite length_take | rewrite length_drop ].

(** ** Lists *)

Section Lists.
Context {A : Type}.
Implicit Types l : list A.

Lemma take_app_mid l1 l2 l3 i :
  (i <= length l2)%nat -> take (length l1 + i) (l1 ++ l2 ++ l3) = l1 ++ take i l2.
Proof. intros. rewrite take_app_add. by rewrite take_app_le. Qed.

Lemma drop_app_mid l1 l2 l3 i :
  (i <= length l2)%nat -> drop (length l1 + i) (l1 ++ l2 ++ l3) = drop i l2 ++ l3.
Proof. intros. rewrite drop_app_add. by rewrite drop_app_le. Qed.

Lemma lookup_app_mid l1 l2 l3 i :
  (i < length l2)%nat -> (l1 ++ l2 ++ l3) !! (length l1 + i)%nat = l2 !! i.
Proof. intros. rewrite lookup_app_r, Nat.add_comm, Nat.add_sub by lia. by rewrite lookup_app_l. Qed.
End Lists.

(** ** Bits of bounded integers *)

Section Bits.
Local Open Scope Z_scope.

Lemma bits_high n x i : 0 <= x < 2 ^ n -> n <= i -> Z.testbit x i = false.
Proof.
  intros Hx Hi. destruct (Z.lt_ge_cases n 0); [rewrite Z.pow_neg_r in Hx; lia|].
  rewrite <-(Z.mod_small x (2 ^ n)) by done. by apply Z.mod_pow2_bits_high; lia.
Qed.

Lemma bits_bound n x : 0 <= n -> (forall i, n <= i -> Z.testbit x i = false) -> 0 <= x < 2 ^ n.
Proof.
  intros Hn H. assert (x = x mod 2 ^ n) as ->.
  - apply Z.bits_inj'. intros i Hi. destruct (Z.lt_ge_cases i n).
    + by rewrite Z.mod_pow2_bits_low by lia.
    + rewrite Z.mod_pow2_bits_high by lia. by apply H.
  - apply Z.mod_pos_bound. lia.
Qed.

Lemma land_bound_l n x y : 0 <= n -> 0 <= x < 2 ^ n -> 0 <= Z.land x y < 2 ^ n.
Proof.
  intros Hn Hx. apply bits_bound; [done|]. intros i Hi.
  by rewrite Z.land_spec, (bits_high n x) by done.
Qed.

Lemma land_bound_r n x y : 0 <= n -> 0 <= y < 2 ^ n -> 0 <= Z.land x y < 2 ^ n.
Proof. rewrite Z.land_comm. apply land_bound_l. Qed.

Lemma lor_bound n x y : 0 <= n -> 0 <= x < 2 ^ n -> 0 <= y < 2 ^ n -> 0 <= Z.lor x y < 2 ^ n.
Proof.
  intros Hn Hx Hy. apply bits_bound; [done|]. intros i Hi.
  by rewrite Z.lor_spec, !(bits_high n) by done.
Qed.

Lemma lxor_bound n x y : 0 <= n -> 0 <= x < 2 ^ n -> 0 <= y < 2 ^ n -> 0 <= Z.lxor x y < 2 ^ n.
Proof.
  intros Hn Hx Hy. apply bits_bound; [done|]. intros i Hi.
  by rewrite Z.lxor_spec, !(bits_high n) by done.
Qed.

Lemma land_ones_small n x : 0 <= x < 2 ^ n -> Z.land x (2 ^ n - 1) = x.
Proof.
  intros Hx. destruct (Z.lt_ge_cases n 0); [rewrite Z.pow_neg_r in Hx; lia|].
  replace (2 ^ n - 1) with (Z.ones n) by (rewrite Z.ones_equiv; lia).
  rewrite Z.land_ones by done. by apply Z.mod_small.
Qed.

(** Disjoint bits: [or] is addition. *)
Lemma lor_add n x y : 0 <= n -> 0 <= x < 2 ^ n -> Z.lor x (Z.shiftl y n) = x + y * 2 ^ n.
Proof.
  intros Hn Hx. rewrite <-Z.shiftl_mul_pow2 by done. symmetry. apply Z.add_nocarry_lor.
  apply Z.bits_inj'. intros i Hi. rewrite Z.land_spec, Z.bits_0, Z.shiftl_spec by done.
  destruct (Z.lt_ge_cases i n).
  - by rewrite (Z.testbit_neg_r y), andb_false_r by lia.
  - by rewrite (bits_high n x) by done.
Qed.
End Bits.

#[export] Hint Resolve land_bound_l lor_bound lxor_bound : cmodel.

(** ** Congruence *)

(** Equality modulo [m], with the instances that let [rewrite] work under
    sums and products. *)
Record cong (m x y : Z) : Prop := Cong { cong_eq : (x mod m = y mod m)%Z }.
Arguments cong_eq {m x y} _.

Section Congruence.
Local Open Scope Z_scope.

#[export] Instance cong_equiv m : Equivalence (cong m).
Proof.
  split; [done|by intros x y [H]; split|]. intros x y z [H1] [H2]. split. congruence.
Qed.

#[export] Instance cong_add m : Proper (cong m ==> cong m ==> cong m) Z.add.
Proof. intros x x' [Hx] y y' [Hy]. split. by rewrite Zplus_mod, Hx, Hy, <-Zplus_mod. Qed.

#[export] Instance cong_mul m : Proper (cong m ==> cong m ==> cong m) Z.mul.
Proof. intros x x' [Hx] y y' [Hy]. split. by rewrite Zmult_mod, Hx, Hy, <-Zmult_mod. Qed.

#[export] Instance cong_sub m : Proper (cong m ==> cong m ==> cong m) Z.sub.
Proof. intros x x' [Hx] y y' [Hy]. split. by rewrite Zminus_mod, Hx, Hy, <-Zminus_mod. Qed.

Lemma eq_cong m x y : x = y -> cong m x y.
Proof. by intros ->. Qed.

Lemma cong_mod m x : cong m (x mod m) x.
Proof. split. apply Zmod_mod. Qed.

Lemma cong_self m k : cong m (m * k) 0.
Proof. split. by rewrite Z.mul_comm, Z_mod_mult, Zmod_0_l. Qed.

(** A congruence modulo [m], scaled by [k], holds modulo [k m]. *)
Lemma cong_scale k m x y : cong m x y -> cong (k * m) (k * x) (k * y).
Proof. intros [E]. split. by rewrite !Zmult_mod_distr_l, E. Qed.

(** A congruence modulo [m] holds modulo a divisor of [m]. *)
Lemma cong_weaken m k x y : cong (m * k) x y -> cong m x y.
Proof.
  intros [E]. split. assert (m | m * k) as Hd by (exists k; lia).
  by rewrite <-(Z.mod_mod_divide x _ _ Hd), <-(Z.mod_mod_divide y _ _ Hd), E.
Qed.

Lemma cong_pow m x y n : cong m x y -> cong m (x ^ n) (y ^ n).
Proof.
  intros H. destruct (Z.neg_nonneg_cases n) as [Hn|Hn]; [by rewrite !Z.pow_neg_r|].
  revert n Hn. apply natlike_ind; [done|]. intros n Hn IH. rewrite !Z.pow_succ_r by done. by rewrite IH, H.
Qed.

(** Deciding a congruence. *)
Lemma cong_eqb m x y : (x mod m =? y mod m)%Z = true <-> cong m x y.
Proof. rewrite Z.eqb_eq. by split; [intros ?; split|intros [?]]. Qed.

Lemma cong_small m x y : 0 <= x < m -> cong m x y -> x = y mod m.
Proof. intros Hx [<-]. by rewrite Z.mod_small. Qed.
End Congruence.

(** ** Bytes *)

Definition is_byte (b : Z) : Prop := (0 <= b < 256)%Z.
Definition bytesOK (l : list Z) : Prop := Forall is_byte l.

Lemma bytesOK_app l l' : bytesOK (l ++ l') <-> bytesOK l /\ bytesOK l'.
Proof. apply Forall_app. Qed.

(** A property of all bytes, checked one by one. *)
Lemma byte_forall (P : Z -> bool) :
  forallb P (Z.of_nat <$> seq 0 256) = true -> forall c, is_byte c -> P c = true.
Proof.
  intros H c Hc. apply (proj1 (forallb_forall _ _) H). apply list_elem_of_In, list_elem_of_fmap.
  unfold is_byte in Hc. exists (Z.to_nat c). split; [lia|]. apply elem_of_seq. lia.
Qed.
