(* ===== verification/Tree234.v ===== *)
(** * Counted 2-3-4 trees ([libs/putty/utils/tree234.c]) *)

From S2P Require Import Prelude.

Local Open Scope Z_scope.

Section Nodes.
Context {A : Type}.

(** A node: four child slots, the element count of each child, three element
    slots.  A null pointer is [NULL] (children) or [None] (elements).  The parent
    pointers are not represented: where the code goes up, the model keeps the path of
    the descent.  A count is at most the number of elements in memory, so its [int] is
    a [Z]. *)
Inductive node234 :=
| NULL
| Node (k0 k1 k2 k3 : node234) (c0 c1 c2 c3 : Z) (e0 e1 e2 : option A).

Definition kid (n : node234) (i : nat) : node234 :=
  match n with
  | NULL => NULL
  | Node k0 k1 k2 k3 _ _ _ _ _ _ _ =>
      match i with 0 => k0 | 1 => k1 | 2 => k2 | _ => k3 end%nat
  end.

Definition count (n : node234) (i : nat) : Z :=
  match n with
  | NULL => 0
  | Node _ _ _ _ c0 c1 c2 c3 _ _ _ =>
      match i with 0 => c0 | 1 => c1 | 2 => c2 | _ => c3 end%nat
  end.

Definition elem (n : node234) (i : nat) : option A :=
  match n with
  | NULL => None
  | Node _ _ _ _ _ _ _ _ e0 e1 e2 =>
      match i with 0 => e0 | 1 => e1 | _ => e2 end%nat
  end.

Definition set_kid (n : node234) (i : nat) (k : node234) : node234 :=
  match n with
  | NULL => NULL
  | Node k0 k1 k2 k3 c0 c1 c2 c3 e0 e1 e2 =>
      match i with
      | 0 => Node k k1 k2 k3 c0 c1 c2 c3 e0 e1 e2
      | 1 => Node k0 k k2 k3 c0 c1 c2 c3 e0 e1 e2
      | 2 => Node k0 k1 k k3 c0 c1 c2 c3 e0 e1 e2
      | _ => Node k0 k1 k2 k c0 c1 c2 c3 e0 e1 e2
      end%nat
  end.

Definition set_count (n : node234) (i : nat) (c : Z) : node234 :=
  match n with
  | NULL => NULL
  | Node k0 k1 k2 k3 c0 c1 c2 c3 e0 e1 e2 =>
      match i with
      | 0 => Node k0 k1 k2 k3 c c1 c2 c3 e0 e1 e2
      | 1 => Node k0 k1 k2 k3 c0 c c2 c3 e0 e1 e2
      | 2 => Node k0 k1 k2 k3 c0 c1 c c3 e0 e1 e2
      | _ => Node k0 k1 k2 k3 c0 c1 c2 c e0 e1 e2
      end%nat
  end.

Definition set_elem (n : node234) (i : nat) (e : option A) : node234 :=
  match n with
  | NULL => NULL
  | Node k0 k1 k2 k3 c0 c1 c2 c3 e0 e1 e2 =>
      match i with
      | 0 => Node k0 k1 k2 k3 c0 c1 c2 c3 e e1 e2
      | 1 => Node k0 k1 k2 k3 c0 c1 c2 c3 e0 e e2
      | _ => Node k0 k1 k2 k3 c0 c1 c2 c3 e0 e1 e
      end%nat
  end.

Definition is_null (n : node234) : bool :=
  match n with NULL => true | _ => false end.

Definition isS (e : option A) : bool :=
  match e with Some _ => true | None => false end.

(** [countnode234]: the element count of a subtree from its root alone. *)
Definition countnode234 (n : node234) : Z :=
  match n with
  | NULL => 0
  | Node _ _ _ _ c0 c1 c2 c3 e0 e1 e2 =>
      c0 + c1 + c2 + c3
      + (if isS e0 then 1 else 0) + (if isS e1 then 1 else 0)
      + (if isS e2 then 1 else 0)
  end.

(** [elements234]: the number of element slots before the first empty one. *)
Definition elements234 (n : node234) : Z :=
  if isS (elem n 0) then
    if isS (elem n 1) then
      if isS (elem n 2) then 3 else 2
    else 1
  else 0.

(** A tree: its root and, when it is sorted, its comparison function. *)
Record tree234 := Tree { root : node234; cmp : option (A -> A -> Z) }.

Definition newtree234 (c : option (A -> A -> Z)) : tree234 := Tree NULL c.

Definition count234 (t : tree234) : Z :=
  match root t with NULL => 0 | n => countnode234 n end.

(** ** Insertion *)

(** The parent chain of a node: for each ancestor, nearest first, its contents
    and the index of the slot through which it points down.  The content of
    that slot in the stored ancestor is stale: the subtree being worked on is
    the current one. *)
Definition path := list (node234 * nat).

(** Where a descent by index goes: the child number and the index within that
    child.  A leaf takes the index as the child number without a range check,
    so the caller reads [kids[index]]; an inner node can run out of range. *)
Definition childnum_index (n : node234) (index : Z) : option (Z * Z) :=
  if is_null (kid n 0) then Some (index, index)
  else if index <=? count n 0 then Some (0, index)
  else let index := index - (count n 0 + 1) in
  if index <=? count n 1 then Some (1, index)
  else let index := index - (count n 1 + 1) in
  if index <=? count n 2 then Some (2, index)
  else let index := index - (count n 2 + 1) in
  if index <=? count n 3 then Some (3, index)
  else None.

(** Where a descent by comparison goes, or the element that compares equal.
    The first element slot of a node is passed to [cmp] unchecked. *)
Definition childnum_cmp (c : A -> A -> Z) (n : node234) (e : A) : res (A + Z) :=
  match elem n 0 with
  | None => Crash UndefinedBehaviour
  | Some x0 =>
      if c e x0 <? 0 then Ok (inr 0)
      else if c e x0 =? 0 then Ok (inl x0)
      else match elem n 1 with
      | None => Ok (inr 1)
      | Some x1 =>
          if c e x1 <? 0 then Ok (inr 1)
          else if c e x1 =? 0 then Ok (inl x1)
          else match elem n 2 with
          | None => Ok (inr 2)
          | Some x2 =>
              if c e x2 <? 0 then Ok (inr 2)
              else if c e x2 =? 0 then Ok (inl x2)
              else Ok (inr 3)
          end
      end
  end.

(** One iteration's choice: by index when [index >= 0], by comparison
    otherwise.  [inl] is an early return with that value ([None] for a null
    pointer), [inr] the slot to go down through and the new index. *)
Definition choose_child (c : option (A -> A -> Z)) (e : A) (n : node234) (index : Z)
    : res (option A + Z * Z) :=
  if 0 <=? index then
    match childnum_index n index with
    | None => Ok (inl None)
    | Some ci => Ok (inr ci)
    end
  else
    match c with
    | None => Crash UndefinedBehaviour
    | Some c =>
        match childnum_cmp c n e with
        | Crash f => Crash f
        | Ok (inl x) => Ok (inl (Some x))
        | Ok (inr childnum) => Ok (inr (childnum, index))
        end
    end.

(** The search loop of [add234_internal], down to a null slot: the result is
    an early return or the path to that slot, whose head is the node to insert
    in and the slot number [np - n->kids]. *)
Fixpoint add_descend (c : option (A -> A -> Z)) (e : A) (m : node234) (index : Z)
    (p : path) : res (option A + path) :=
  match m with
  | NULL => Ok (inr p)
  | Node k0 k1 k2 k3 _ _ _ _ _ _ _ =>
      match choose_child c e m index with
      | Crash f => Crash f
      | Ok (inl r) => Ok (inl r)
      | Ok (inr (childnum, index')) =>
          if (0 <=? childnum) && (childnum <? 4) then
            let i := Z.to_nat childnum in
            add_descend c e
              match i with 0 => k0 | 1 => k1 | 2 => k2 | _ => k3 end%nat
              index' ((m, i) :: p)
          else Crash UndefinedBehaviour
      end
  end.

(** Insertion of [left e right] at slot [np] of a 2-node. *)
Definition insert_2node (n : node234) (np : nat) (left : node234) (lcount : Z)
    (e : A) (right : node234) (rcount : Z) : node234 :=
  match n with
  | NULL => NULL
  | Node k0 k1 k2 k3 c0 c1 c2 c3 e0 e1 e2 =>
      match np with
      | 0 => Node left right k1 k3 lcount rcount c1 c3 (Some e) e0 e2
      | _ => Node k0 left right k3 c0 lcount rcount c3 e0 (Some e) e2
      end%nat
  end.

(** Insertion of [left e right] at slot [np] of a 3-node. *)
Definition insert_3node (n : node234) (np : nat) (left : node234) (lcount : Z)
    (e : A) (right : node234) (rcount : Z) : node234 :=
  match n with
  | NULL => NULL
  | Node k0 k1 k2 k3 c0 c1 c2 c3 e0 e1 e2 =>
      match np with
      | 0 => Node left right k1 k2 lcount rcount c1 c2 (Some e) e0 e1
      | 1 => Node k0 left right k2 c0 lcount rcount c2 e0 (Some e) e1
      | _ => Node k0 k1 left right c0 c1 lcount rcount e0 e1 (Some e)
      end%nat
  end.

(** Insertion into a 4-node: it splits into a new left 3-node [m], the element
    that moves up, and what remains of [n] as a 2-node. *)
Definition split_4node (n : node234) (np : nat) (left : node234) (lcount : Z)
    (e : A) (right : node234) (rcount : Z) : node234 * option A * node234 :=
  match n with
  | NULL => (NULL, Some e, NULL)
  | Node k0 k1 k2 k3 c0 c1 c2 c3 e0 e1 e2 =>
      match np with
      | 0 => (Node left right k1 NULL lcount rcount c1 0 (Some e) e0 None, e1,
              Node k2 k3 NULL NULL c2 c3 0 0 e2 None None)
      | 1 => (Node k0 left right NULL c0 lcount rcount 0 e0 (Some e) None, e1,
              Node k2 k3 NULL NULL c2 c3 0 0 e2 None None)
      | 2 => (Node k0 k1 left NULL c0 c1 lcount 0 e0 e1 None, Some e,
              Node right k3 NULL NULL rcount c3 0 0 e2 None None)
      | _ => (Node k0 k1 k2 NULL c0 c1 c2 0 e0 e1 None, e2,
              Node left right NULL NULL lcount rcount 0 0 (Some e) None None)
      end%nat
  end.

(** The final walk up the parent chain, recomputing each parent's count. *)
Fixpoint fix_counts (up : path) (n : node234) : node234 :=
  match up with
  | [] => n
  | (parent, childnum) :: up' =>
      fix_counts up' (set_count (set_kid parent childnum n) childnum (countnode234 n))
  end.

(** The insertion loop, up the parent chain until a node has room; past the
    root it makes a new root.  The result is the new root of the tree. *)
Fixpoint insert_up (p : path) (left : node234) (lcount : Z) (e : option A)
    (right : node234) (rcount : Z) : res node234 :=
  match e with
  | None => Crash UndefinedBehaviour
  | Some e =>
      match p with
      | [] => Ok (Node left right NULL NULL lcount rcount 0 0 (Some e) None None)
      | (n, np) :: up =>
          if negb (isS (elem n 1)) then
            Ok (fix_counts up (insert_2node n np left lcount e right rcount))
          else if negb (isS (elem n 2)) then
            Ok (fix_counts up (insert_3node n np left lcount e right rcount))
          else
            let '(m, e', n') := split_4node n np left lcount e right rcount in
            insert_up up m (countnode234 m) e' n' (countnode234 n')
      end
  end.

(** [add234_internal]: the returned pointer and the tree afterwards. *)
Definition add234_internal (t : tree234) (e : A) (index : Z)
    : res (option A * tree234) :=
  match root t with
  | NULL =>
      Ok (Some e, Tree (Node NULL NULL NULL NULL 0 0 0 0 (Some e) None None) (cmp t))
  | n =>
      match add_descend (cmp t) e n index [] with
      | Crash f => Crash f
      | Ok (inl r) => Ok (r, t)
      | Ok (inr p) =>
          match insert_up p NULL 0 (Some e) NULL 0 with
          | Crash f => Crash f
          | Ok n' => Ok (Some e, Tree n' (cmp t))
          end
      end
  end.

Definition add234 (t : tree234) (e : A) : res (option A * tree234) :=
  match cmp t with
  | None => Ok (None, t)
  | Some _ => add234_internal t e (-1)
  end.

Definition addpos234 (t : tree234) (e : A) (index : Z) : res (option A * tree234) :=
  if (index <? 0) || bool_decide (is_Some (cmp t)) then Ok (None, t)
  else add234_internal t e index.

(** ** Lookup by index *)

Fixpoint index_loop (n : node234) (index : Z) : option A :=
  match n with
  | NULL => None
  | Node k0 k1 k2 k3 c0 c1 c2 c3 e0 e1 e2 =>
      if index <? c0 then index_loop k0 index
      else let index := index - (c0 + 1) in
      if index <? 0 then e0
      else if index <? c1 then index_loop k1 index
      else let index := index - (c1 + 1) in
      if index <? 0 then e1
      else if index <? c2 then index_loop k2 index
      else let index := index - (c2 + 1) in
      if index <? 0 then e2
      else index_loop k3 index
  end.

Definition index234 (t : tree234) (index : Z) : option A :=
  match root t with
  | NULL => None
  | n => if (index <? 0) || (countnode234 n <=? index) then None
         else index_loop n index
  end.

(** ** Deletion *)

(** Where index [index] lies in a node: in child [ki], at an index within it,
    or at element [ei]. *)
Definition locate (n : node234) (index : Z) : nat * Z + nat :=
  if index <? count n 0 then inl (0%nat, index)
  else let index := index - (count n 0 + 1) in
  if index <? 0 then inr 0%nat
  else if index <? count n 1 then inl (1%nat, index)
  else let index := index - (count n 1 + 1) in
  if index <? 0 then inr 1%nat
  else if index <? count n 2 then inl (2%nat, index)
  else let index := index - (count n 2 + 1) in
  if index <? 0 then inr 2%nat
  else inl (3%nat, index).

(** Case 3a, left-handed: move a subtree from child [ki-1] to child [ki].
    The results of the case functions are the new [n], the child to go down
    to, and the index within it. *)
Definition case_3a_left (n : node234) (ki : nat) (index : Z)
    : node234 * node234 * Z :=
  let sub := kid n ki in
  let sib := kid n (ki - 1) in
  let lastelem := (if isS (elem sib 2) then 2 else if isS (elem sib 1) then 1 else 0)%nat in
  let sub' := Node (kid sib (lastelem + 1)) (kid sub 0) (kid sub 1) (kid sub 3)
                (count sib (lastelem + 1)) (count sub 0) (count sub 1) (count sub 3)
                (elem n (ki - 1)) (elem sub 0) (elem sub 2) in
  let n := set_elem n (ki - 1) (elem sib lastelem) in
  let sib' := set_elem (set_count (set_kid sib (lastelem + 1) NULL)
                          (lastelem + 1) 0) lastelem None in
  let n := set_count n ki (countnode234 sub') in
  let index := index + count n (ki - 1) in
  let n := set_count n (ki - 1) (countnode234 sib') in
  let index := index - count n (ki - 1) in
  (set_kid (set_kid n (ki - 1) sib') ki sub', sub', index).

(** The loop of case 3a (right-handed) that moves the sibling's contents down
    one place; [fuel] is the loop's own bound on [j]. *)
Fixpoint shift_sib (fuel : nat) (sib : node234) (j : nat) : node234 * nat :=
  match fuel with
  | O => (sib, j)
  | S fuel =>
      if isS (elem sib (j + 1)) then
        shift_sib fuel
          (set_elem (set_count (set_kid sib (j + 1) (kid sib (j + 2)))
                       (j + 1) (count sib (j + 2))) j (elem sib (j + 1))) (S j)
      else (sib, j)
  end.

(** Case 3a, right-handed: move a subtree from child [ki+1] to child [ki]. *)
Definition case_3a_right (n : node234) (ki : nat) (index : Z)
    : node234 * node234 * Z :=
  let sub := kid n ki in
  let sib := kid n (ki + 1) in
  let sub' := set_count (set_kid (set_elem sub 1 (elem n ki)) 2 (kid sib 0))
                2 (count sib 0) in
  let n := set_elem n ki (elem sib 0) in
  let sib := set_count (set_kid sib 0 (kid sib 1)) 0 (count sib 1) in
  let '(sib, j) := shift_sib 2 sib 0 in
  let sib' := set_elem (set_count (set_kid sib (j + 1) NULL) (j + 1) 0) j None in
  let n := set_count n ki (countnode234 sub') in
  let n := set_count n (ki + 1) (countnode234 sib') in
  (set_kid (set_kid n (ki + 1) sib') ki sub', sub', index).

(** The loop of case 3b that removes child [j] of [n], and what follows it. *)
Fixpoint remove_kid (fuel : nat) (n : node234) (j : nat) : node234 :=
  let stop := let n := set_count (set_kid n j NULL) j 0 in
              if (j <? 3)%nat then set_elem n j None else n in
  match fuel with
  | O => stop
  | S fuel =>
      if negb (is_null (kid n (j + 1))) then
        remove_kid fuel
          (set_elem (set_count (set_kid n j (kid n (j + 1))) j (count n (j + 1)))
             j (if (j <? 2)%nat then elem n (j + 1) else None)) (S j)
      else stop
  end.

(** Case 3b: merge child [ki] with a neighbour and an element of [n]. *)
Definition case_3b (n : node234) (ki : nat) (index : Z)
    : node234 * nat * node234 * Z :=
  let '(ki, index) :=
    (if (0 <? ki)%nat then ((ki - 1)%nat, index + (count n (ki - 1) + 1))
     else (ki, index)) in
  let sib := kid n ki in
  let sub := kid n (ki + 1) in
  let sub' := Node (kid sib 0) (kid sib 1) (kid sub 0) (kid sub 1)
                (count sib 0) (count sib 1) (count sub 0) (count sub 1)
                (elem sib 0) (elem n ki) (elem sub 0) in
  let n := set_kid (set_count n (ki + 1) (countnode234 sub')) (ki + 1) sub' in
  (remove_kid (3 - ki) n ki, ki, sub', index).

(** One step down of the deletion loop, to child [ki], making sure the child
    has more than one element.  The result is the new path, node and index. *)
Definition del_descend (p : path) (n : node234) (ki : nat) (index : Z)
    : res (path * node234 * Z) :=
  let sub := kid n ki in
  if is_null sub then Crash UndefinedBehaviour
  else if isS (elem sub 1) then Ok ((n, ki) :: p, sub, index)
  else if (0 <? ki)%nat && is_null (kid n (ki - 1)) then Crash UndefinedBehaviour
  else if (0 <? ki)%nat && isS (elem (kid n (ki - 1)) 1) then
    let '(n, sub, index) := case_3a_left n ki index in
    Ok ((n, ki) :: p, sub, index)
  else if (ki <? 3)%nat && negb (is_null (kid n (ki + 1)))
          && isS (elem (kid n (ki + 1)) 1) then
    let '(n, sub, index) := case_3a_right n ki index in
    Ok ((n, ki) :: p, sub, index)
  else if (ki =? 0)%nat && is_null (kid n 1) then Crash UndefinedBehaviour
  else
    let '(n, ki, sub, index) := case_3b n ki index in
    if isS (elem n 0) then Ok ((n, ki) :: p, sub, index)
    else Ok ([], sub, index).

(** Case 1: the loop that closes the gap at element [i] of a leaf. *)
Fixpoint remove_elem (fuel : nat) (n : node234) (i : nat) : node234 :=
  match fuel with
  | O => set_elem n i None
  | S fuel =>
      if isS (elem n (i + 1)) then
        remove_elem fuel (set_elem n i (elem n (i + 1))) (S i)
      else set_elem n i None
  end.

(** Case 1: the walk up that takes one off each ancestor's count. *)
Fixpoint dec_counts (up : path) (n : node234) : node234 :=
  match up with
  | [] => n
  | (parent, childnum) :: up' =>
      dec_counts up'
        (set_count (set_kid parent childnum n) childnum (count parent childnum - 1))
  end.

(** Case 2a: the last element of a subtree. *)
Fixpoint last_target (m : node234) : option A :=
  match m with
  | NULL => None
  | Node k0 k1 k2 k3 _ _ _ _ e0 e1 e2 =>
      match k0, k3, k2, k1 with
      | NULL, _, _, _ => if isS e2 then e2 else if isS e1 then e1 else e0
      | _, Node _ _ _ _ _ _ _ _ _ _ _, _, _ => last_target k3
      | _, NULL, Node _ _ _ _ _ _ _ _ _ _ _, _ => last_target k2
      | _, NULL, NULL, Node _ _ _ _ _ _ _ _ _ _ _ => last_target k1
      | _, NULL, NULL, NULL => last_target k0
      end
  end.

(** Case 2b: the first element of a subtree. *)
Fixpoint first_target (m : node234) : option A :=
  match m with
  | NULL => None
  | Node NULL _ _ _ _ _ _ _ e0 _ _ => e0
  | Node k0 _ _ _ _ _ _ _ _ _ _ => first_target k0
  end.

(** Case 2c: the loop that removes element [j] and child [j+1] of [n]. *)
Fixpoint remove_elem_kid (fuel : nat) (n : node234) (j : nat) : node234 :=
  let stop := set_count (set_kid (set_elem n j None) (j + 1) NULL) (j + 1) 0 in
  match fuel with
  | O => stop
  | S fuel =>
      if isS (elem n (j + 1)) then
        remove_elem_kid fuel
          (set_count (set_kid (set_elem n j (elem n (j + 1)))
                        (j + 1) (kid n (j + 2))) (j + 1) (count n (j + 2))) (S j)
      else stop
  end.

(** Case 2c: children [ei] and [ei+1] and element [ei] become one node. *)
Definition case_2c (n : node234) (ei : nat) : node234 * node234 * Z :=
  let a := kid n ei in
  let b := kid n (ei + 1) in
  let a' := Node (kid a 0) (kid a 1) (kid b 0) (kid b 1)
              (count a 0) (count a 1) (count b 0) (count b 1)
              (elem a 0) (elem n ei) (elem b 0) in
  let n := set_kid (set_count n ei (countnode234 a')) ei a' in
  (remove_elem_kid (2 - ei) n ei, a', count a' 0 + count a' 1 + 1).

(** [!n->parent]. *)
Definition no_parent (p : path) : bool :=
  match p with [] => true | _ => false end.

(** What [delpos234_internal] does once the element is found in node [n]:
    either the new root, or another round on a child. *)
Definition del_found (p : path) (n : node234) (ei : nat)
    : res (node234 + path * node234 * Z) :=
  if no_parent p && negb (isS (elem n 1)) && is_null (kid n 0) then
    Ok (inl NULL)
  else if is_null (kid n 0) && isS (elem n 1) then
    Ok (inl (dec_counts p (remove_elem (2 - ei) n ei)))
  else if is_null (kid n ei) then Crash UndefinedBehaviour
  else if isS (elem (kid n ei) 1) then
    let n' := set_elem n ei (last_target (kid n ei)) in
    Ok (inr ((n', ei) :: p, kid n' ei, count n' ei - 1))
  else if is_null (kid n (ei + 1)) then Crash UndefinedBehaviour
  else if isS (elem (kid n (ei + 1)) 1) then
    let n' := set_elem n ei (first_target (kid n (ei + 1))) in
    Ok (inr ((n', (ei + 1)%nat) :: p, kid n' (ei + 1), 0))
  else
    let '(n', a, index) := case_2c n ei in
    if isS (elem n' 0) then Ok (inr ((n', ei) :: p, a, index))
    else Ok (inr ([], a, index)).

(** The loops of [delpos234_internal].  Each round goes one level down, so the
    height of the tree bounds the rounds. *)
Fixpoint del_loop (fuel : nat) (p : path) (n : node234) (index : Z)
    (retval : option A) : res (option A * node234) :=
  match fuel with
  | O => Crash OutOfFuel
  | S fuel =>
      if is_null n then Crash UndefinedBehaviour else
      match locate n index with
      | inl (ki, index) =>
          match del_descend p n ki index with
          | Crash f => Crash f
          | Ok (p, sub, index) => del_loop fuel p sub index retval
          end
      | inr ei =>
          let retval := if isS retval then retval else elem n ei in
          match del_found p n ei with
          | Crash f => Crash f
          | Ok (inl r) => Ok (retval, r)
          | Ok (inr (p, n, index)) => del_loop fuel p n index retval
          end
      end
  end.

Fixpoint height (n : node234) : nat :=
  match n with
  | NULL => 0
  | Node k0 _ _ _ _ _ _ _ _ _ _ => S (height k0)
  end.

Definition delpos234_internal (t : tree234) (index : Z) : res (option A * tree234) :=
  match del_loop (height (root t)) [] (root t) index None with
  | Crash f => Crash f
  | Ok (r, n) => Ok (r, Tree n (cmp t))
  end.

Definition delpos234 (t : tree234) (index : Z) : res (option A * tree234) :=
  if (index <? 0) || (countnode234 (root t) <=? index) then Ok (None, t)
  else delpos234_internal t index.

(** ** Search *)

(** The state of a search: the current node, the range of its elements still
    in play, the element last looked at ([-1] on entry to a node), the index of
    the first element of the node's subtree, and the two public fields. *)
Record search234_state := SS {
  ss_node : node234; ss_lo : Z; ss_hi : Z; ss_last : Z; ss_base : Z;
  element : option A; index : Z }.

(** [for (i = 0; i < k; i++) ... counts[i]]. *)
Fixpoint sum_counts (n : node234) (k : nat) : Z :=
  match k with O => 0 | S k => sum_counts n k + count n k end.

(** The end of [search234_step]: the values the caller sees. *)
Definition search_emit (node : node234) (lo hi last base : Z) : search234_state :=
  if is_null node then SS node lo hi last base None base
  else
    let last := (lo + hi) / 2 in
    SS node lo hi last base (elem node (Z.to_nat last))
       (base + last + sum_counts node (Z.to_nat (last + 1))).

(** Entry to a node: everything in it is a viable answer. *)
Definition search_enter (node : node234) (base : Z) : search234_state :=
  search_emit node 0 (if is_null node then 0 else elements234 node - 1) (-1) base.

Definition search234_step (st : search234_state) (direction : Z)
    : res search234_state :=
  let node := ss_node st in
  if is_null node then
    Ok (SS node (ss_lo st) (ss_hi st) (ss_last st) (ss_base st) None 0)
  else if ss_last st =? -1 then Ok (search_enter node (ss_base st))
  else if direction =? 0 then Crash AssertionFailed
  else
    let lo := if 0 <? direction then ss_last st + 1 else ss_lo st in
    let hi := if 0 <? direction then ss_hi st else ss_last st - 1 in
    if hi <? lo then
      let base := ss_base st + (lo + sum_counts node (Z.to_nat lo)) in
      Ok (search_enter (kid node (Z.to_nat lo)) base)
    else Ok (search_emit node lo hi (ss_last st) (ss_base st)).

Definition search234_start (t : tree234) : res search234_state :=
  search234_step (SS (root t) 0 0 (-1) 0 None 0) 0.

Inductive relation234 := REL234_EQ | REL234_LT | REL234_LE | REL234_GT | REL234_GE.

Definition reldir (r : relation234) : Z :=
  match r with
  | REL234_LT | REL234_LE => -1
  | REL234_GT | REL234_GE => 1
  | REL234_EQ => 0
  end.

Definition equal_permitted (r : relation234) : bool :=
  match r with REL234_LT | REL234_GT => false | _ => true end.

(** The search loop of [findrelpos234]: [inl] is an element that compares
    equal, [inr] the index the query would have. *)
Fixpoint find_loop (fuel : nat) (cmpret : A -> res Z) (r : relation234)
    (ss : search234_state) : res (A * Z + Z) :=
  match fuel with
  | O => Crash OutOfFuel
  | S fuel =>
      match element ss with
      | None => Ok (inr (index ss))
      | Some x =>
          match cmpret x with
          | Crash f => Crash f
          | Ok c =>
              if (c =? 0) && equal_permitted r then Ok (inl (x, index ss))
              else
                let c := if c =? 0 then reldir r else c in
                match search234_step ss c with
                | Crash f => Crash f
                | Ok ss => find_loop fuel cmpret r ss
                end
          end
      end
  end.

(** [findrelpos234]: the element found and its index, or [None].  [e] is the
    query (a null pointer is [None]) and [c] the caller's comparison function. *)
Definition findrelpos234 (t : tree234) (e : option A) (c : option (A -> A -> Z))
    (relation : relation234) : res (option (A * Z)) :=
  if equal_permitted relation && negb (isS e) then Crash AssertionFailed else
  let c := match c with Some c => Some c | None => cmp t end in
  let cmpret := fun x =>
    match e, c with
    | None, _ => Ok (- reldir relation)
    | Some e, Some c => Ok (c e x)
    | Some _, None => Crash UndefinedBehaviour
    end in
  match search234_start t with
  | Crash f => Crash f
  | Ok ss =>
      match find_loop (S (3 * height (root t))) cmpret relation ss with
      | Crash f => Crash f
      | Ok (inl r) => Ok (Some r)
      | Ok (inr i) =>
          match relation with
          | REL234_EQ => Ok None
          | _ =>
              let i := match relation with
                       | REL234_LT | REL234_LE => i - 1 | _ => i end in
              Ok (match index234 t i with Some x => Some (x, i) | None => None end)
          end
      end
  end.

Definition findpos234 (t : tree234) (e : option A) (c : option (A -> A -> Z))
    : res (option (A * Z)) :=
  findrelpos234 t e c REL234_EQ.

Definition find234 (t : tree234) (e : option A) (c : option (A -> A -> Z))
    : res (option A) :=
  match findrelpos234 t e c REL234_EQ with
  | Crash f => Crash f
  | Ok r => Ok (fst <$> r)
  end.

Definition findrel234 (t : tree234) (e : option A) (c : option (A -> A -> Z))
    (relation : relation234) : res (option A) :=
  match findrelpos234 t e c relation with
  | Crash f => Crash f
  | Ok r => Ok (fst <$> r)
  end.

(** [del234]: find the element, then delete it by index. *)
Definition del234 (t : tree234) (e : A) : res (option A * tree234) :=
  match findrelpos234 t (Some e) None REL234_EQ with
  | Crash f => Crash f
  | Ok None => Ok (None, t)
  | Ok (Some (_, i)) => delpos234_internal t i
  end.

End Nodes.

Arguments node234 : clear implicits.
Arguments tree234 : clear implicits.
Arguments path : clear implicits.
