(* ===== verification/Tree234Add.v ===== *)
(** * 2-3-4 trees: the represented list, well-formedness, insertion, lookup *)

From S2P Require Import Prelude.
From S2P Require Import Tree234.

Local Open Scope Z_scope.

Section Repr.
Context {A : Type}.
Implicit Types (n k : node234 A) (p : path A) (l : list A) (t : tree234 A).

(** The list a tree represents: its elements from left to right. *)
Fixpoint to_list n : list A :=
  match n with
  | NULL => []
  | Node k0 k1 k2 k3 _ _ _ _ e0 e1 e2 =>
      to_list k0 ++ option_list e0 ++ to_list k1 ++ option_list e1
      ++ to_list k2 ++ option_list e2 ++ to_list k3
  end.

Definition size n : Z := Z.of_nat (length (to_list n)).

(** The tree invariant: every leaf at the same depth, one to three elements in
    the first slots of each node, one child more than elements (or none, in a
    leaf), and each stored count the size of its child. *)
Inductive wf : nat -> node234 A -> Prop :=
| wf_NULL : wf 0 NULL
| wf_2node h k0 k1 c0 c1 x0 :
    wf h k0 -> wf h k1 -> c0 = size k0 -> c1 = size k1 ->
    wf (S h) (Node k0 k1 NULL NULL c0 c1 0 0 (Some x0) None None)
| wf_3node h k0 k1 k2 c0 c1 c2 x0 x1 :
    wf h k0 -> wf h k1 -> wf h k2 -> c0 = size k0 -> c1 = size k1 -> c2 = size k2 ->
    wf (S h) (Node k0 k1 k2 NULL c0 c1 c2 0 (Some x0) (Some x1) None)
| wf_4node h k0 k1 k2 k3 c0 c1 c2 c3 x0 x1 x2 :
    wf h k0 -> wf h k1 -> wf h k2 -> wf h k3 ->
    c0 = size k0 -> c1 = size k1 -> c2 = size k2 -> c3 = size k3 ->
    wf (S h) (Node k0 k1 k2 k3 c0 c1 c2 c3 (Some x0) (Some x1) (Some x2)).

Definition wf_tree t : Prop := exists h, wf h (root t).

Lemma size_nonneg n : 0 <= size n.
Proof. unfold size. lia. Qed.

Lemma size_NULL : size NULL = 0.
Proof. done. Qed.

Lemma size_Node k0 k1 k2 k3 c0 c1 c2 c3 e0 e1 e2 :
  size (Node k0 k1 k2 k3 c0 c1 c2 c3 e0 e1 e2) =
  size k0 + size k1 + size k2 + size k3 +
  Z.of_nat (length (option_list e0) + length (option_list e1) + length (option_list e2)).
Proof. unfold size; simpl. rewrite !length_app. lia. Qed.

Lemma wf_count h n : wf h n -> countnode234 n = size n.
Proof. destruct 1; subst; simpl; rewrite ?size_Node, ?size_NULL; simpl; lia. Qed.

Lemma wf_0 n : wf 0 n -> n = NULL.
Proof. by inversion 1. Qed.

Lemma wf_S_not_null h n : wf (S h) n -> is_null n = false.
Proof. by inversion 1. Qed.

Lemma wf_null h n : wf h n -> is_null n = bool_decide (h = 0%nat).
Proof. by destruct 1. Qed.

Lemma wf_elem0 h n : wf (S h) n -> exists x, elem n 0 = Some x.
Proof. inversion 1; eauto. Qed.

Lemma wf_height h n : wf h n -> height n = h.
Proof. induction 1; simpl; congruence. Qed.

(** What lies left and right of slot [i] of a node. *)
Definition pre n (i : nat) : list A :=
  match n with
  | NULL => []
  | Node k0 k1 k2 k3 _ _ _ _ e0 e1 e2 =>
      match i with
      | 0 => []
      | 1 => to_list k0 ++ option_list e0
      | 2 => to_list k0 ++ option_list e0 ++ to_list k1 ++ option_list e1
      | _ => to_list k0 ++ option_list e0 ++ to_list k1 ++ option_list e1
             ++ to_list k2 ++ option_list e2
      end%nat
  end.

Definition post n (i : nat) : list A :=
  match n with
  | NULL => []
  | Node k0 k1 k2 k3 _ _ _ _ e0 e1 e2 =>
      match i with
      | 0 => option_list e0 ++ to_list k1 ++ option_list e1
             ++ to_list k2 ++ option_list e2 ++ to_list k3
      | 1 => option_list e1 ++ to_list k2 ++ option_list e2 ++ to_list k3
      | 2 => option_list e2 ++ to_list k3
      | _ => []
      end%nat
  end.

Fixpoint pre_path p : list A :=
  match p with [] => [] | (n, i) :: p => pre_path p ++ pre n i end.

Fixpoint post_path p : list A :=
  match p with [] => [] | (n, i) :: p => post n i ++ post_path p end.

(** A parent whose slot [i] may be filled with any well-formed subtree. *)
Definition frame_ok (h : nat) n (i : nat) : Prop :=
  is_null n = false /\ Z.of_nat i <= elements234 n /\ (i <= 3)%nat /\
  forall k, wf h k -> wf (S h) (set_count (set_kid n i k) i (size k)).

Fixpoint wf_path (h : nat) p : Prop :=
  match p with
  | [] => True
  | (n, i) :: p => frame_ok h n i /\ wf_path (S h) p
  end.

Lemma to_list_set_count n i c : to_list (set_count n i c) = to_list n.
Proof. by destruct n, i as [|[|[|]]]. Qed.

Lemma to_list_set_kid n i k :
  is_null n = false -> to_list (set_kid n i k) = pre n i ++ to_list k ++ post n i.
Proof. intros; destruct n; [done|]; destruct i as [|[|[|]]]; simpl; by rewrite <-?app_assoc, ?app_nil_r. Qed.

Lemma to_list_kid n i :
  is_null n = false -> to_list n = pre n i ++ to_list (kid n i) ++ post n i.
Proof. intros; destruct n; [done|]; destruct i as [|[|[|]]]; simpl; by rewrite <-?app_assoc, ?app_nil_r. Qed.

Lemma frame_ok_kid h n i :
  wf (S h) n -> Z.of_nat i <= elements234 n -> frame_ok h n i /\ wf h (kid n i).
Proof.
  intros Hwf Hi.
  assert (i <= 3)%nat.
  { unfold elements234 in Hi. repeat case_match; lia. }
  inversion Hwf; subst; cbn in Hi;
    (repeat split; [done|..|by destruct i as [|[|[|[|]]]]; try (exfalso; lia)]; try done);
    intros k Hk; destruct i as [|[|[|[|]]]]; try (exfalso; lia); simpl; by constructor.
Qed.

Lemma size_set_kid n i k :
  is_null n = false ->
  size (set_kid n i k) = size k + Z.of_nat (length (pre n i) + length (post n i)).
Proof. intros. unfold size. rewrite to_list_set_kid, !length_app by done. lia. Qed.

(** ** Insertion *)

Lemma fix_counts_ok p : forall h n,
  wf_path h p -> wf h n ->
  exists h', wf h' (fix_counts p n) /\
    to_list (fix_counts p n) = pre_path p ++ to_list n ++ post_path p.
Proof.
  induction p as [|[m i] p IH]; intros h n Hp Hn; simpl in *.
  - exists h. by rewrite app_nil_r.
  - destruct Hp as [(Hnull & _ & _ & Hfr) Hp].
    rewrite (wf_count _ _ Hn).
    destruct (IH _ _ Hp (Hfr _ Hn)) as (h' & Hwf & Hl).
    exists h'. split; [done|].
    by rewrite Hl, to_list_set_count, to_list_set_kid, <-!app_assoc.
Qed.

Ltac frame_cases Hfr Hi Hl n np :=
  destruct n as [|? ? ? ? ? ? ? ? ? ? ?]; [done|];
  specialize (Hfr _ Hl); cbn in Hi;
  destruct np as [|[|[|[|]]]]; cbn in Hfr |- *;
  inversion Hfr; subst; clear Hfr; cbn in Hi |- *; try done; try (exfalso; lia).

Lemma insert_2node_ok h n np left e right :
  frame_ok h n np -> elem n 1 = None -> wf h left -> wf h right ->
  let n' := insert_2node n np left (size left) e right (size right) in
  wf (S h) n' /\
  to_list n' = pre n np ++ to_list left ++ e :: to_list right ++ post n np.
Proof.
  intros (Hnull & Hi & Hle & Hfr) He Hl Hr.
  frame_cases Hfr Hi Hl n np; (split; [by constructor|]);
    cbn; by list_norm.
Qed.

Lemma insert_3node_ok h n np left e right :
  frame_ok h n np -> isS (elem n 1) = true -> elem n 2 = None ->
  wf h left -> wf h right ->
  let n' := insert_3node n np left (size left) e right (size right) in
  wf (S h) n' /\
  to_list n' = pre n np ++ to_list left ++ e :: to_list right ++ post n np.
Proof.
  intros (Hnull & Hi & Hle & Hfr) He1 He2 Hl Hr.
  frame_cases Hfr Hi Hl n np; (split; [by constructor|]);
    cbn; by list_norm.
Qed.

Lemma split_4node_ok h n np left e right :
  frame_ok h n np -> isS (elem n 1) = true -> isS (elem n 2) = true ->
  wf h left -> wf h right ->
  exists m x n',
    split_4node n np left (size left) e right (size right) = (m, Some x, n') /\
    wf (S h) m /\ wf (S h) n' /\
    to_list m ++ x :: to_list n' =
      pre n np ++ to_list left ++ e :: to_list right ++ post n np.
Proof.
  intros (Hnull & Hi & Hle & Hfr) He1 He2 Hl Hr.
  frame_cases Hfr Hi Hl n np; do 3 eexists; (split; [reflexivity|]);
    (split; [by constructor|]); (split; [by constructor|]);
    cbn; by list_norm.
Qed.

Lemma insert_up_ok p : forall h left e right,
  wf_path h p -> wf h left -> wf h right ->
  exists n', insert_up p left (size left) (Some e) right (size right) = Ok n' /\
    (exists h', wf h' n') /\
    to_list n' = pre_path p ++ to_list left ++ e :: to_list right ++ post_path p.
Proof.
  induction p as [|[n np] p IH]; intros h left e right Hp Hl Hr; simpl in *.
  - eexists; split; [done|]. split; [exists (S h); by constructor|].
    simpl. by rewrite !app_nil_r.
  - destruct Hp as [Hfr Hp].
    destruct (isS (elem n 1)) eqn:He1; simpl.
    1: destruct (isS (elem n 2)) eqn:He2; simpl.
    + destruct (split_4node_ok h n np left e right) as (m & x & n' & -> & Hm & Hn' & Heq); auto.
      rewrite (wf_count _ _ Hm), (wf_count _ _ Hn').
      destruct (IH _ m x n' Hp Hm Hn') as (r & -> & Hwf & Hlist).
      exists r. split; [done|]. split; [done|]. rewrite Hlist.
      rewrite (app_comm_cons (to_list n')), (app_assoc (to_list m)), Heq.
      by list_norm.
    + destruct (insert_3node_ok h n np left e right) as [Hwf Heq]; auto.
      { by destruct (elem n 2). }
      destruct (fix_counts_ok p _ _ Hp Hwf) as (h' & Hwf' & Hlist).
      eexists; split; [done|]. split; [eauto|]. rewrite Hlist, Heq.
      by list_norm.
    + destruct (insert_2node_ok h n np left e right) as [Hwf Heq]; auto.
      { by destruct (elem n 1). }
      destruct (fix_counts_ok p _ _ Hp Hwf) as (h' & Hwf' & Hlist).
      eexists; split; [done|]. split; [eauto|]. rewrite Hlist, Heq.
      by list_norm.
Qed.

(** The child a descent by index picks, and the index within it; in a leaf the
    slot is where the new element goes. *)
Lemma childnum_index_ok h n i :
  wf (S h) n -> 0 <= i <= size n ->
  exists (ki : nat) j, childnum_index n i = Some (Z.of_nat ki, j) /\
    Z.of_nat ki <= elements234 n /\ 0 <= j /\
    exists j' : nat, (h = 0%nat \/ j = Z.of_nat j') /\
      Z.of_nat j' <= size (kid n ki) /\ i = Z.of_nat (length (pre n ki) + j').
Proof.
  intros Hwf Hi. unfold childnum_index.
  destruct (wf_elem0 _ _ Hwf) as [x Hx].
  destruct h as [|h].
  - exists (Z.to_nat i), i. inversion Hwf; subst;
      repeat match goal with H : wf 0 ?k |- _ => apply wf_0 in H; subst k end;
      cbn in Hi |- *; rewrite Z2Nat.id by lia; unfold size in Hi; cbn in Hi;
      (split; [done|]); (split; [lia|]); (split; [lia|]); exists 0%nat;
      (split; [by left|]);
      destruct (Z.to_nat i) as [|[|[|[|]]]] eqn:E; try (exfalso; lia); cbn; rewrite ?size_NULL; split; lia.
  - inversion Hwf; subst;
    repeat match goal with
      H : wf (S h) ?k |- _ => pose proof (wf_S_not_null _ _ H); revert H end; intros;
    rewrite ?size_Node, ?size_NULL in Hi; cbn in Hi |- *;
    repeat match goal with H : is_null ?k = false |- _ => rewrite H; clear H end;
    repeat case_match; rewrite ?Z.leb_le, ?Z.leb_gt in *; try lia;
    match goal with
    | |- context [Some (0, _)] => exists 0%nat
    | |- context [Some (1, _)] => exists 1%nat
    | |- context [Some (2, _)] => exists 2%nat
    | |- context [Some (3, _)] => exists 3%nat
    end; eexists; (split; [done|]); cbn; (split; [lia|]);
    match goal with |- 0 <= ?j /\ _ =>
      (split; [unfold size in *; lia|]); exists (Z.to_nat j) end;
    len_norm; unfold size in *; (split; [right; lia|]); split; lia.
Qed.

Lemma choose_child_index c e n i :
  0 <= i -> choose_child c e n i =
  match childnum_index n i with None => Ok (inl None) | Some ci => Ok (inr ci) end.
Proof. intros. unfold choose_child. by rewrite (proj2 (Z.leb_le 0 i)). Qed.

Lemma add_descend_index h : forall n i p c e,
  wf h n -> wf_path h p -> 0 <= i -> (h = 0%nat \/ i <= size n) ->
  exists p', add_descend c e n i p = Ok (inr p') /\ wf_path 0 p' /\
    pre_path p' = pre_path p ++ take (Z.to_nat i) (to_list n) /\
    post_path p' = drop (Z.to_nat i) (to_list n) ++ post_path p.
Proof.
  induction h as [|h IH]; intros n i p c e Hwf Hp Hi0 Hi.
  - apply wf_0 in Hwf as ->. exists p. simpl. by rewrite take_nil, drop_nil, app_nil_r.
  - destruct Hi as [|Hi]; [done|].
    destruct (childnum_index_ok _ _ _ Hwf (conj Hi0 Hi))
      as (ki & j & Hci & Hki & Hj & j' & Hj' & Hsz & Hlen).
    destruct (frame_ok_kid _ _ _ Hwf Hki) as [Hfr Hkid].
    pose proof (wf_S_not_null _ _ Hwf) as Hnull.
    assert (add_descend c e n i p = add_descend c e (kid n ki) j ((n, ki) :: p)) as ->.
    { destruct n; [done|]. cbn [add_descend]. rewrite choose_child_index, Hci by done.
      destruct Hfr as (_ & _ & Hle & _).
      rewrite (proj2 (Z.leb_le 0 (Z.of_nat ki))), (proj2 (Z.ltb_lt (Z.of_nat ki) 4)) by lia.
      cbn [andb]. by rewrite Nat2Z.id. }
    destruct (IH (kid n ki) j ((n, ki) :: p) c e Hkid) as (p' & -> & Hp' & Hpre & Hpost).
    { done. } { done. } { unfold size in *. destruct Hj'; [by left|right; lia]. }
    exists p'. split; [done|]. split; [done|].
    rewrite Hpre, Hpost, (to_list_kid n ki Hnull). cbn [pre_path post_path].
    assert (take (Z.to_nat j) (to_list (kid n ki)) = take j' (to_list (kid n ki)) /\
            drop (Z.to_nat j) (to_list (kid n ki)) = drop j' (to_list (kid n ki))) as [-> ->].
    { destruct Hj' as [->| ->]; [|by rewrite Nat2Z.id].
      apply wf_0 in Hkid. rewrite Hkid. cbn. by rewrite !take_nil, !drop_nil. }
    rewrite Hlen, Nat2Z.id, take_app_mid, drop_app_mid by (unfold size in *; lia).
    by rewrite <-!app_assoc.
Qed.

(** ** Descent by comparison *)

(** Element [i] of a node, with what lies around it. *)
Lemma elem_split n i x :
  elem n i = Some x -> (i <= 2)%nat ->
  pre n (S i) = pre n i ++ to_list (kid n i) ++ [x] /\
  post n i = x :: to_list (kid n (S i)) ++ post n (S i) /\
  to_list n = (pre n i ++ to_list (kid n i)) ++ x :: to_list (kid n (S i)) ++ post n (S i).
Proof.
  destruct n; [done|]. intros Hx Hi.
  destruct i as [|[|[|]]]; cbn in Hx |- *; try lia; subst;
    by list_norm.
Qed.

Lemma wf_no_elem h n i :
  wf (S h) n -> elem n i = None -> (i <= 2)%nat -> Z.of_nat i <= elements234 n ->
  post n i = [].
Proof.
  inversion 1; subst; cbn; intros; destruct i as [|[|[|]]]; cbn in *; done || lia.
Qed.

(** The sign of the comparison with a query never grows along the list. *)
Definition mono (f : A -> Z) l : Prop :=
  StronglySorted (fun x y => Z.sgn (f y) <= Z.sgn (f x)) l.

Notation pos f := (fun x => 0 < f x).
Notation neg f := (fun x => f x < 0).

Lemma mono_app f l1 l2 :
  mono f (l1 ++ l2) ->
  mono f l1 /\ mono f l2 /\
  forall x y, x ∈ l1 -> y ∈ l2 -> Z.sgn (f y) <= Z.sgn (f x).
Proof.
  unfold mono. rewrite StronglySorted_app. naive_solver.
Qed.

Lemma mono_neg f l1 x l2 :
  mono f (l1 ++ x :: l2) -> f x < 0 -> Forall (neg f) (x :: l2).
Proof.
  intros (_ & H & _)%mono_app Hx. apply StronglySorted_inv in H as [_ H].
  constructor; [done|]. eapply Forall_impl; [exact H|]. cbn. lia.
Qed.

Lemma mono_pos f l1 x l2 :
  mono f (l1 ++ x :: l2) -> 0 < f x -> Forall (pos f) (l1 ++ [x]).
Proof.
  intros (_ & _ & H)%mono_app Hx. apply Forall_app. split; [|by constructor].
  apply Forall_forall. intros y Hy. specialize (H y x Hy). cbn in *.
  assert (x ∈ x :: l2) by (left; done). specialize (H ltac:(done)). lia.
Qed.

Lemma post_neg f n i x :
  elem n i = Some x -> (i <= 2)%nat -> mono f (to_list n) -> f x < 0 ->
  Forall (neg f) (post n i).
Proof.
  intros Hx Hi Hm Hf. destruct (elem_split _ _ _ Hx Hi) as (_ & -> & Heq).
  rewrite Heq in Hm. by eapply mono_neg.
Qed.

Lemma pre_pos f n i x :
  elem n i = Some x -> (i <= 2)%nat -> mono f (to_list n) -> 0 < f x ->
  Forall (pos f) (pre n (S i)).
Proof.
  intros Hx Hi Hm Hf. destruct (elem_split _ _ _ Hx Hi) as (-> & _ & Heq).
  rewrite Heq in Hm. apply mono_pos in Hm; [|done]. by rewrite <-app_assoc in Hm.
Qed.

Lemma elem_in n i x : elem n i = Some x -> (i <= 2)%nat -> x ∈ to_list n.
Proof.
  intros Hx Hi. destruct (elem_split _ _ _ Hx Hi) as (_ & _ & ->). set_solver.
Qed.

Lemma mono_kid f n i :
  is_null n = false -> mono f (to_list n) -> mono f (to_list (kid n i)).
Proof.
  intros Hn. rewrite (to_list_kid n i Hn).
  intros (_ & (H & _)%mono_app & _)%mono_app. done.
Qed.

Lemma childnum_cmp_ok h n c e :
  wf (S h) n -> mono (c e) (to_list n) ->
  (exists x, childnum_cmp c n e = Ok (inl x) /\ x ∈ to_list n /\ c e x = 0) \/
  (exists ki : nat, childnum_cmp c n e = Ok (inr (Z.of_nat ki)) /\
     Z.of_nat ki <= elements234 n /\
     Forall (pos (c e)) (pre n ki) /\ Forall (neg (c e)) (post n ki)).
Proof.
  intros Hwf Hm. unfold childnum_cmp.
  destruct (wf_elem0 _ _ Hwf) as [x0 E0]. rewrite E0.
  destruct (Z.ltb_spec (c e x0) 0).
  { right. exists 0%nat. split; [done|]. unfold elements234. rewrite E0. cbn [isS].
    split; [repeat case_match; lia|].
    split; [by destruct n; constructor|]. eapply post_neg; eauto with cmodel. }
  destruct (Z.eqb_spec (c e x0) 0); [left; eauto using elem_in with cmodel|].
  destruct (elem n 1) as [x1|] eqn:E1; cycle 1.
  { right. exists 1%nat. unfold elements234. rewrite E0, E1. cbn [isS].
    split; [done|]. split; [done|]. split; [eapply pre_pos; eauto with cmodel|].
    erewrite wf_no_elem; [by constructor|eauto|eauto|lia|].
    unfold elements234. by rewrite E0, E1. }
  destruct (Z.ltb_spec (c e x1) 0).
  { right. exists 1%nat. split; [done|]. unfold elements234. rewrite E0, E1. cbn [isS].
    split; [repeat case_match; lia|].
    split; [eapply pre_pos; eauto with cmodel|eapply post_neg; eauto with cmodel]. }
  destruct (Z.eqb_spec (c e x1) 0); [left; eauto using elem_in with cmodel|].
  destruct (elem n 2) as [x2|] eqn:E2; cycle 1.
  { right. exists 2%nat. unfold elements234. rewrite E0, E1, E2. cbn [isS].
    split; [done|]. split; [done|]. split; [eapply pre_pos; eauto with cmodel|].
    erewrite wf_no_elem; [by constructor|eauto|eauto|lia|].
    unfold elements234. by rewrite E0, E1, E2. }
  unfold elements234. rewrite E0, E1, E2. cbn [isS].
  destruct (Z.ltb_spec (c e x2) 0).
  { right. exists 2%nat. split; [done|]. split; [done|].
    split; [eapply pre_pos; eauto with cmodel|eapply post_neg; eauto with cmodel]. }
  destruct (Z.eqb_spec (c e x2) 0); [left; eauto using elem_in with cmodel|].
  right. exists 3%nat. split; [done|]. split; [done|].
  split; [eapply pre_pos; eauto with cmodel|]. by destruct n; constructor.
Qed.

Lemma add_descend_cmp h : forall n i p c e,
  wf h n -> wf_path h p -> i < 0 -> mono (c e) (to_list n) ->
  (exists x, add_descend (Some c) e n i p = Ok (inl (Some x)) /\
     x ∈ to_list n /\ c e x = 0) \/
  (exists p' l1 l2, add_descend (Some c) e n i p = Ok (inr p') /\ wf_path 0 p' /\
    to_list n = l1 ++ l2 /\ Forall (pos (c e)) l1 /\ Forall (neg (c e)) l2 /\
    pre_path p' = pre_path p ++ l1 /\ post_path p' = l2 ++ post_path p).
Proof.
  induction h as [|h IH]; intros n i p c e Hwf Hp Hi Hm.
  - apply wf_0 in Hwf as ->. right. exists p, [], []. simpl. by rewrite app_nil_r.
  - pose proof (wf_S_not_null _ _ Hwf) as Hnull.
    assert (choose_child (Some c) e n i = match childnum_cmp c n e with
        | Crash f => Crash f | Ok (inl x) => Ok (inl (Some x))
        | Ok (inr k) => Ok (inr (k, i)) end) as Hch.
    { unfold choose_child. by rewrite (proj2 (Z.leb_gt 0 i)). }
    destruct (childnum_cmp_ok _ _ _ _ Hwf Hm) as [(x & Hx & ? & ?)|(ki & Hk & Hki & Hpre & Hpost)].
    { left. exists x. split; [|done]. destruct n; [done|]. cbn [add_descend].
      by rewrite Hch, Hx. }
    destruct (frame_ok_kid _ _ _ Hwf Hki) as [Hfr Hkid].
    assert (add_descend (Some c) e n i p =
            add_descend (Some c) e (kid n ki) i ((n, ki) :: p)) as ->.
    { destruct n; [done|]. cbn [add_descend]. rewrite Hch, Hk.
      destruct Hfr as (_ & _ & Hle & _).
      rewrite (proj2 (Z.leb_le 0 (Z.of_nat ki))), (proj2 (Z.ltb_lt (Z.of_nat ki) 4)) by lia.
      cbn [andb]. by rewrite Nat2Z.id. }
    destruct (IH (kid n ki) i ((n, ki) :: p) c e Hkid) as
      [(x & -> & Hx & Hc)|(p' & l1 & l2 & -> & Hp' & Heq & H1 & H2 & Hpre' & Hpost')];
      [done|done|by apply mono_kid|..].
    + left. exists x. split; [done|]. split; [|done].
      rewrite (to_list_kid n ki Hnull). set_solver.
    + right. exists p', (pre n ki ++ l1), (l2 ++ post n ki).
      rewrite (to_list_kid n ki Hnull), Heq, Hpre', Hpost'. cbn [pre_path post_path].
      list_norm. by rewrite !Forall_app.
Qed.

(** ** The public operations *)

Definition elements t : list A := to_list (root t).

Lemma count234_elements t : wf_tree t -> count234 t = Z.of_nat (length (elements t)).
Proof.
  intros [h Hwf]. unfold count234, elements.
  rewrite <-(wf_count _ _ Hwf : countnode234 (root t) = Z.of_nat _). by destruct (root t).
Qed.

Lemma index_loop_locate n i :
  is_null n = false ->
  index_loop n i = match locate n i with
                   | inl (ki, j) => index_loop (kid n ki) j
                   | inr ei => elem n ei
                   end.
Proof. destruct n; [done|]. intros _. unfold locate. cbn. by repeat case_match. Qed.

(** Where an index lies in a well-formed node. *)
Lemma locate_ok h n i :
  wf (S h) n -> 0 <= i < size n ->
  (exists (ki : nat) j, locate n i = inl (ki, j) /\ Z.of_nat ki <= elements234 n /\
     0 <= j < size (kid n ki) /\ i = Z.of_nat (length (pre n ki)) + j) \/
  (exists ei x, locate n i = inr ei /\ (ei <= 2)%nat /\ elem n ei = Some x /\
     i = Z.of_nat (length (pre n ei)) + size (kid n ei)).
Proof.
  intros Hwf Hi. unfold locate.
  inversion Hwf; subst; rewrite ?size_Node, ?size_NULL in Hi; cbn in Hi |- *;
    repeat case_match; rewrite ?Z.ltb_lt, ?Z.ltb_ge in *; try (unfold size in *; lia);
    simplify_eq;
    first
      [ left; do 2 eexists; (split; [reflexivity|]); cbn; len_norm; unfold size in *;
        split; [lia|]; split; lia
      | right; do 2 eexists; (split; [reflexivity|]); cbn; len_norm; unfold size in *;
        split; [lia|]; split; [reflexivity|]; lia ].
Qed.

Lemma index_loop_ok h : forall n i,
  wf h n -> 0 <= i < size n -> index_loop n i = to_list n !! Z.to_nat i.
Proof.
  induction h as [|h IH]; intros n i Hwf Hi.
  { apply wf_0 in Hwf as ->. unfold size in Hi. cbn in Hi. lia. }
  pose proof (wf_S_not_null _ _ Hwf) as Hnull.
  rewrite index_loop_locate by done.
  destruct (locate_ok _ _ _ Hwf Hi)
    as [(ki & j & -> & Hki & Hj & ->)|(ei & x & -> & Hei & Hx & ->)].
  - destruct (frame_ok_kid _ _ _ Hwf Hki) as [_ Hkid].
    rewrite (IH _ _ Hkid Hj), (to_list_kid n ki Hnull).
    rewrite Z2Nat.inj_add, Nat2Z.id, lookup_app_mid by (unfold size in *; lia). done.
  - destruct (elem_split _ _ _ Hx Hei) as (_ & _ & ->). rewrite Hx.
    symmetry. apply list_lookup_middle. rewrite length_app. unfold size. lia.
Qed.

Lemma index234_unfold t i :
  index234 t i = if (i <? 0) || (countnode234 (root t) <=? i) then None
                 else index_loop (root t) i.
Proof. unfold index234. destruct (root t); [by case_match|done]. Qed.

Lemma index234_ok t i :
  wf_tree t ->
  index234 t i = if decide (0 <= i) then elements t !! Z.to_nat i else None.
Proof.
  intros [h Hwf]. rewrite index234_unfold, (wf_count _ _ Hwf). unfold elements, size.
  case_decide; [|by rewrite (proj2 (Z.ltb_lt i 0)) by lia].
  rewrite (proj2 (Z.ltb_ge i 0)) by lia. cbn [orb].
  destruct (Z.leb_spec (Z.of_nat (length (to_list (root t)))) i).
  - rewrite lookup_ge_None_2; [done|lia].
  - apply (index_loop_ok h); [done|]. unfold size. lia.
Qed.

Lemma addpos234_ok t e i :
  wf_tree t -> cmp t = None -> 0 <= i <= count234 t ->
  exists t', addpos234 t e i = Ok (Some e, t') /\ wf_tree t' /\ cmp t' = None /\
    elements t' = take (Z.to_nat i) (elements t) ++ e :: drop (Z.to_nat i) (elements t).
Proof.
  intros Ht Hcmp Hi. pose proof (count234_elements t Ht) as Hc. destruct Ht as [h Hwf].
  unfold addpos234, add234_internal, elements in *.
  rewrite (proj2 (Z.ltb_ge i 0)), Hcmp by lia. cbn -[insert_up add_descend].
  destruct (root t) as [|] eqn:E.
  - cbn in *. replace i with 0 by lia. eexists; split; [done|].
    split; [|done]. exists 1%nat. by apply wf_2node; try constructor.
  - rewrite <-E in *. clear E. rewrite Hc in Hi.
    destruct (add_descend_index h (root t) i [] None e Hwf) as (p & -> & Hp & Hpre & Hpost);
      [done|lia|right; unfold size; lia|].
    destruct (insert_up_ok p 0 NULL e NULL Hp) as (n' & Heq & Hwf' & Hl); [constructor..|].
    rewrite size_NULL in Heq. rewrite Heq.
    eexists; split; [done|]. split; [done|]. split; [done|].
    cbn. rewrite Hl, Hpre, Hpost. by list_norm.
Qed.

(** ** Sorted trees *)

(** What a comparison function of a sorted tree must satisfy. *)
Class Comparator (c : A -> A -> Z) : Prop := {
  cmp_flip x y : Z.sgn (c y x) = - Z.sgn (c x y);
  cmp_trans x y z : c x y <= 0 -> c y z <= 0 -> c x z <= 0 }.

(** Strictly increasing, so no two elements compare equal. *)
Definition sorted_by (c : A -> A -> Z) l : Prop :=
  StronglySorted (fun x y => c x y < 0) l.

Section Cmp.
Context (c : A -> A -> Z) `{!Comparator c}.

Lemma cmp_lt_trans x y z : c x y < 0 -> c y z <= 0 -> c x z < 0.
Proof.
  intros H1 H2. destruct (Z.lt_ge_cases (c x z) 0) as [|H3]; [done|].
  pose proof (cmp_flip x z). pose proof (cmp_flip x y).
  pose proof (cmp_trans y z x H2). lia.
Qed.

Lemma cmp_le_lt_trans x y z : c x y <= 0 -> c y z < 0 -> c x z < 0.
Proof.
  intros H1 H2. destruct (Z.lt_ge_cases (c x z) 0) as [|H3]; [done|].
  pose proof (cmp_flip x z). pose proof (cmp_flip y z).
  pose proof (cmp_trans z x y). lia.
Qed.

Lemma sorted_mono e l : sorted_by c l -> mono (c e) l.
Proof.
  induction 1 as [|x l Hs IH Hx]; constructor; [done|].
  eapply Forall_impl; [exact Hx|]. cbn. intros y Hxy.
  destruct (Z.lt_trichotomy (c e x) 0) as [H|[H|H]].
  - pose proof (cmp_lt_trans e x y). lia.
  - pose proof (cmp_le_lt_trans e x y). lia.
  - lia.
Qed.

Lemma sorted_insert e l1 l2 :
  sorted_by c (l1 ++ l2) -> Forall (fun x => 0 < c e x) l1 ->
  Forall (fun x => c e x < 0) l2 -> sorted_by c (l1 ++ e :: l2).
Proof.
  unfold sorted_by. rewrite !StronglySorted_app, !Forall_forall.
  intros (H12 & H1 & H2) Hpos Hneg. split; [|split; [done|]].
  - intros x y Hx [->|Hy]%elem_of_cons; [|by apply H12].
    pose proof (cmp_flip e x). specialize (Hpos x Hx). lia.
  - constructor; [done|]. by apply Forall_forall.
Qed.

Lemma add234_ok t e :
  wf_tree t -> cmp t = Some c -> sorted_by c (elements t) ->
  (exists x, add234 t e = Ok (Some x, t) /\ x ∈ elements t /\ c e x = 0) \/
  (exists t' l1 l2, add234 t e = Ok (Some e, t') /\ wf_tree t' /\ cmp t' = Some c /\
     elements t = l1 ++ l2 /\ elements t' = l1 ++ e :: l2 /\
     sorted_by c (elements t') /\ (forall x, x ∈ elements t -> c e x <> 0)).
Proof.
  intros [h Hwf] Hc Hs. unfold add234, add234_internal. rewrite Hc. unfold elements in *.
  destruct (root t) as [|] eqn:E.
  - right. eexists _, [], []. split; [done|]. cbn.
    split; [exists 1%nat; by apply wf_2node; try constructor|].
    split; [done|]. split; [done|]. split; [done|].
    split; [repeat constructor|]. set_solver.
  - rewrite <-E in *. clear E.
    destruct (add_descend_cmp h (root t) (-1) [] c e Hwf) as
      [(x & -> & Hx & H0)|(p & l1 & l2 & -> & Hp & Heq & H1 & H2 & Hpre & Hpost)];
      [done|lia|by apply sorted_mono|..].
    + left. exists x. by destruct t.
    + right. destruct (insert_up_ok p 0 NULL e NULL Hp) as (n' & Hup & Hwf' & Hl);
        [constructor..|].
      rewrite size_NULL in Hup. rewrite Hup.
      assert (to_list n' = l1 ++ e :: l2) as Hn'.
      { rewrite Hl, Hpre, Hpost. by list_norm. }
      eexists _, l1, l2. split; [done|]. cbn. rewrite Hn'.
      repeat (split; [done|]). split.
      * apply sorted_insert; [by rewrite <-Heq|done|done].
      * rewrite Heq. rewrite !Forall_forall in *. intros x [Hx|Hx]%elem_of_app;
          [specialize (H1 x Hx)|specialize (H2 x Hx)]; cbn in *; lia.
Qed.
End Cmp.

(** ** The height is logarithmic *)

Lemma wf_size_bounds h n :
  wf h n -> 2 ^ Z.of_nat h <= size n + 1 <= 4 ^ Z.of_nat h.
Proof.
  induction 1; rewrite ?size_Node, ?size_NULL, ?Nat2Z.inj_succ, ?Z.pow_succ_r by lia;
    cbn; lia.
Qed.

(** ** An index past the end *)

(** A child slot that holds null in an inner node is taken for an insertion
    point: at index [count + 1] of a tree whose root is a 2-node with children,
    the new element overwrites the right child. *)
Lemma addpos234_past_end_ok h t e k0 k1 c0 c1 x :
  wf (S h) (root t) -> h <> 0%nat -> cmp t = None ->
  root t = Node k0 k1 NULL NULL c0 c1 0 0 (Some x) None None ->
  exists t', addpos234 t e (count234 t + 1) = Ok (Some e, t') /\
    elements t = to_list k0 ++ x :: to_list k1 /\
    elements t' = to_list k0 ++ [x; e].
Proof.
  intros Hwf Hh Hcmp Hr.
  pose proof (count234_elements t (ex_intro _ _ Hwf)) as Hcount.
  unfold addpos234, add234_internal, elements in *. rewrite Hcmp, Hcount. rewrite Hr in *.
  inversion Hwf as [|? ? ? ? ? ? Hk0 Hk1| |]; subst.
  destruct h as [|h]; [done|].
  pose proof (wf_S_not_null _ _ Hk0). pose proof (wf_S_not_null _ _ Hk1).
  cbn [to_list option_list app]. len_norm.
  rewrite (proj2 (Z.ltb_ge _ 0)) by lia. cbn [orb bool_decide].
  cbn [add_descend]. rewrite choose_child_index by lia.
  match goal with |- context [childnum_index ?n ?i] =>
    assert (childnum_index n i = Some (2, 0)) as -> end.
  { unfold childnum_index. cbn [kid count]. rewrite H. unfold size.
    repeat case_match; rewrite ?Z.leb_le, ?Z.leb_gt in *; try lia. do 2 f_equal. lia. }
  eexists. split; [done|]. split; by cbn; list_norm.
Qed.
End Repr.

(** Compute the size of explicit nodes. *)
Ltac size_norm :=
  repeat first
    [ rewrite size_Node
    | match goal with |- context [@size ?T (@NULL ?T)] => change (@size T (@NULL T)) with 0%Z end ];
  cbn.
