(* ===== verification/Tree234Del.v ===== *)
(** * 2-3-4 trees: deletion *)

From S2P Require Import Prelude.
From S2P Require Import Tree234 Tree234Add.

Local Open Scope Z_scope.

Section Del.
Context {A : Type}.
Implicit Types (n k : node234 A) (p : path A) (l : list A) (t : tree234 A).

(** The counts stored along a path above a subtree of size [s]. *)
Fixpoint path_cnt (s : Z) p : Prop :=
  match p with
  | [] => True
  | (n, i) :: p =>
      count n i = s /\ path_cnt (s + Z.of_nat (length (pre n i) + length (post n i))) p
  end.

Lemma wf_count_kid h n i :
  wf (S h) n -> Z.of_nat i <= elements234 n -> count n i = size (kid n i).
Proof.
  inversion 1; subst; cbn; intros; destruct i as [|[|[|[|]]]]; cbn; done || lia.
Qed.

Lemma push_ok h n ki p :
  wf (S h) n -> Z.of_nat ki <= elements234 n -> wf_path (S h) p -> path_cnt (size n) p ->
  wf h (kid n ki) /\ wf_path h ((n, ki) :: p) /\ path_cnt (size (kid n ki)) ((n, ki) :: p) /\
  pre_path ((n, ki) :: p) ++ to_list (kid n ki) ++ post_path ((n, ki) :: p) =
    pre_path p ++ to_list n ++ post_path p.
Proof.
  intros Hwf Hki Hp Hc. destruct (frame_ok_kid _ _ _ Hwf Hki) as [Hfr Hk].
  pose proof (wf_S_not_null _ _ Hwf) as Hnull.
  split; [done|]. split; [done|]. split.
  - split; [by eapply wf_count_kid|].
    replace (size (kid n ki) + _) with (size n); [done|].
    unfold size. rewrite (to_list_kid n ki Hnull) at 1. rewrite !length_app. lia.
  - cbn. rewrite (to_list_kid n ki Hnull). by list_norm.
Qed.

Lemma dec_counts_ok p : forall h n,
  wf_path h p -> wf h n -> path_cnt (size n + 1) p ->
  exists h', wf h' (dec_counts p n) /\
    to_list (dec_counts p n) = pre_path p ++ to_list n ++ post_path p.
Proof.
  induction p as [|[m i] p IH]; intros h n Hp Hn Hc; simpl in *.
  - exists h. by rewrite app_nil_r.
  - destruct Hp as [(Hnull & _ & _ & Hfr) Hp]. destruct Hc as [Hci Hc].
    replace (count m i - 1) with (size n) by lia.
    destruct (IH _ _ Hp (Hfr _ Hn)) as (h' & Hwf & Hl).
    { unfold size at 1. rewrite to_list_set_count.
      fold (size (set_kid m i n)). rewrite size_set_kid by done.
      by replace (size n + _ + 1) with
        (size n + 1 + Z.of_nat (length (pre m i) + length (post m i))) by lia. }
    exists h'. split; [done|].
    by rewrite Hl, to_list_set_count, to_list_set_kid, <-!app_assoc.
Qed.

(** Prove [wf] of an explicit node whose parts are known. *)
Ltac solve_count := cbn; size_norm; lia.
Ltac solve_wf :=
  first [ by eauto
        | eapply wf_2node; [solve_wf|solve_wf|solve_count|solve_count]
        | eapply wf_3node; [solve_wf|solve_wf|solve_wf|solve_count|solve_count|solve_count]
        | eapply wf_4node; [solve_wf|solve_wf|solve_wf|solve_wf|
                            solve_count|solve_count|solve_count|solve_count] ].

(** Case analysis on the shape of a well-formed node. *)
Ltac wf_cases H := inversion H; subst; clear H; cbn [kid elem count is_null isS] in *; try done.

Lemma case_3a_left_ok h n ki j :
  wf (S (S h)) n -> (0 < ki)%nat -> Z.of_nat ki <= elements234 n ->
  elem (kid n ki) 1 = None -> isS (elem (kid n (ki - 1)) 1) = true ->
  exists n' sub j', case_3a_left n ki j = (n', sub, j') /\
    wf (S (S h)) n' /\ sub = kid n' ki /\ Z.of_nat ki <= elements234 n' /\
    isS (elem sub 1) = true /\ to_list n' = to_list n /\
    Z.of_nat (length (pre n' ki)) + j' = Z.of_nat (length (pre n ki)) + j /\
    j <= j' /\ j' - j = size sub - size (kid n ki).
Proof.
  intros Hwf Hki Hel Hsub Hsib. wf_cases Hwf; cbn in Hel;
    destruct ki as [|[|[|[|]]]]; try lia; cbn [kid Nat.sub] in Hsub, Hsib;
    repeat match goal with H : wf (S h) ?k |- _ =>
      match goal with _ : context [elem k 1] |- _ => wf_cases H end end;
    do 3 eexists; (split; [reflexivity|]); cbn -[countnode234];
    (split; [solve_wf|]); (split; [reflexivity|]); (split; [lia|]);
    (split; [reflexivity|]); (split; [cbn; by list_norm|]);
    cbn; size_norm; unfold size; len_norm; repeat split; lia.
Qed.

Lemma case_3a_right_ok h n ki j :
  wf (S (S h)) n -> Z.of_nat (S ki) <= elements234 n ->
  elem (kid n ki) 1 = None -> isS (elem (kid n (S ki)) 1) = true ->
  exists n' sub j', case_3a_right n ki j = (n', sub, j') /\
    wf (S (S h)) n' /\ sub = kid n' ki /\ Z.of_nat ki <= elements234 n' /\
    isS (elem sub 1) = true /\ to_list n' = to_list n /\
    Z.of_nat (length (pre n' ki)) + j' = Z.of_nat (length (pre n ki)) + j /\
    j = j' /\ size (kid n ki) <= size sub.
Proof.
  intros Hwf Hel Hsub Hsib. wf_cases Hwf; cbn in Hel;
    destruct ki as [|[|[|[|]]]]; try lia; cbn [kid Nat.sub] in Hsub, Hsib;
    repeat match goal with H : wf (S h) ?k |- _ =>
      match goal with _ : context [elem k 1] |- _ => wf_cases H end end;
    do 3 eexists; (split; [reflexivity|]); cbn -[countnode234];
    (split; [solve_wf|]); (split; [reflexivity|]); (split; [lia|]);
    (split; [reflexivity|]); (split; [cbn; by list_norm|]);
    cbn; size_norm; unfold size; len_norm; repeat split; lia.
Qed.

(** After case 3b the merged child is in slot [ki'] of the new node, or the
    node has been emptied. *)
Lemma case_3b_ok h n ki j :
  wf (S (S h)) n -> Z.of_nat ki <= elements234 n -> 0 <= j < size (kid n ki) ->
  elem (kid n ki) 1 = None ->
  ((0 < ki)%nat -> isS (elem (kid n (ki - 1)) 1) = false) ->
  (ki = 0%nat -> isS (elem (kid n 1) 1) = false) ->
  exists n' ki' sub j', case_3b n ki j = (n', ki', sub, j') /\
    isS (elem sub 1) = true /\ wf (S h) sub /\ 0 <= j' < size sub /\
    if isS (elem n' 0) then
      wf (S (S h)) n' /\ sub = kid n' ki' /\ Z.of_nat ki' <= elements234 n' /\
      to_list n' = to_list n /\
      Z.of_nat (length (pre n' ki')) + j' = Z.of_nat (length (pre n ki)) + j
    else
      isS (elem n 1) = false /\ to_list sub = to_list n /\
      j' = Z.of_nat (length (pre n ki)) + j.
Proof.
  intros Hwf Hel Hj Hsub Hl Hr. wf_cases Hwf; cbn in Hel;
    destruct ki as [|[|[|[|]]]]; try lia; cbn [kid Nat.sub] in *;
    try specialize (Hl ltac:(lia)); try specialize (Hr eq_refl);
    repeat match goal with H : wf (S h) ?k |- _ =>
      match goal with _ : context [elem k 1] |- _ => wf_cases H end end;
    repeat match goal with H : wf (S h) ?k |- _ =>
      lazymatch k with
      | Node _ _ _ _ _ _ _ _ _ _ _ => fail
      | _ => pose proof (wf_S_not_null _ _ H); revert H
      end end; intros.
  all: do 4 eexists; (split; [cbn -[countnode234]; repeat match goal with
      H : is_null ?k = false |- _ => rewrite H end; reflexivity|]).
  all: revert Hj; size_norm; intros Hj.
  all: (split; [reflexivity|]); (split; [solve_wf|]);
    (split; [size_norm; unfold size in *; lia|]).
  all: repeat match goal with |- _ /\ _ => split end;
    first [reflexivity | solve_wf | by list_norm | unfold size; len_norm; lia].
Qed.

(** One step down keeps the invariant of the deletion loop: the represented
    list and the position to delete are unchanged, and the new node has at
    least two elements. *)
Lemma del_descend_ok h p n ki j :
  wf (S h) n -> wf_path (S h) p -> path_cnt (size n) p ->
  (p = [] \/ isS (elem n 1) = true) ->
  Z.of_nat ki <= elements234 n -> 0 <= j < size (kid n ki) ->
  exists p' sub j', del_descend p n ki j = Ok (p', sub, j') /\
    wf h sub /\ wf_path h p' /\ path_cnt (size sub) p' /\ isS (elem sub 1) = true /\
    0 <= j' < size sub /\
    pre_path p' ++ to_list sub ++ post_path p' = pre_path p ++ to_list n ++ post_path p /\
    Z.of_nat (length (pre_path p')) + j' =
      Z.of_nat (length (pre_path p)) + (Z.of_nat (length (pre n ki)) + j).
Proof.
  intros Hwf Hp Hc Hbig Hki Hj. unfold del_descend.
  destruct (frame_ok_kid _ _ _ Hwf Hki) as [(_ & _ & Hle & _) Hkid].
  destruct h as [|h]; [apply wf_0 in Hkid; rewrite Hkid in Hj; unfold size in Hj; cbn in Hj; lia|].
  rewrite (wf_S_not_null _ _ Hkid).
  (* what every case ends with *)
  assert (forall n' ki' sub j', wf (S (S h)) n' -> sub = kid n' ki' ->
    Z.of_nat ki' <= elements234 n' -> isS (elem sub 1) = true -> 0 <= j' < size sub ->
    to_list n' = to_list n ->
    Z.of_nat (length (pre n' ki')) + j' = Z.of_nat (length (pre n ki)) + j ->
    exists p' sub0 j'0, Ok ((n', ki') :: p, sub, j') = Ok (p', sub0, j'0) /\
      wf (S h) sub0 /\ wf_path (S h) p' /\ path_cnt (size sub0) p' /\
      isS (elem sub0 1) = true /\ 0 <= j'0 < size sub0 /\
      pre_path p' ++ to_list sub0 ++ post_path p' = pre_path p ++ to_list n ++ post_path p /\
      Z.of_nat (length (pre_path p')) + j'0 =
        Z.of_nat (length (pre_path p)) + (Z.of_nat (length (pre n ki)) + j)) as Hpush.
  { intros n' ki' sub j' Hwf' -> Hki' He Hj' Hl Hpos.
    destruct (push_ok _ _ _ p Hwf' Hki' Hp) as (H1 & H2 & H3 & H4).
    { unfold size. by rewrite Hl. }
    do 3 eexists. split; [done|]. rewrite H4, Hl. cbn [pre_path]. rewrite length_app.
    repeat (split; [done|]). lia. }
  destruct (isS (elem (kid n ki) 1)) eqn:He; [by apply Hpush|].
  assert (elem (kid n ki) 1 = None) as He' by by destruct (elem (kid n ki) 1).
  assert ((0 <? ki)%nat && is_null (kid n (ki - 1)) = false) as ->.
  { apply andb_false_intro2. apply (wf_S_not_null h).
    apply (frame_ok_kid _ _ (ki - 1)); [done|lia]. }
  destruct ((0 <? ki)%nat && isS (elem (kid n (ki - 1)) 1)) eqn:Hleft.
  { apply andb_true_iff in Hleft as [H0%Nat.ltb_lt H1].
    destruct (case_3a_left_ok h n ki j)
      as (n' & sub & j' & -> & ? & -> & ? & ? & ? & ? & ? & ?); auto.
    apply Hpush; try done. lia. }
  destruct ((ki <? 3)%nat && negb (is_null (kid n (ki + 1)))
            && isS (elem (kid n (ki + 1)) 1)) eqn:Hright.
  { rewrite !andb_true_iff, negb_true_iff, Nat.ltb_lt, Nat.add_1_r in Hright.
    destruct Hright as [[H0 H1] H2].
    destruct (case_3a_right_ok h n ki j)
      as (n' & sub & j' & -> & ? & -> & ? & ? & ? & ? & -> & ?); auto.
    { revert H1 H0. clear -Hwf Hki. inversion Hwf; subst; cbn in *;
        destruct ki as [|[|[|]]]; cbn in *; intros; done || lia. }
    apply Hpush; try done. lia. }
  assert ((ki =? 0)%nat && is_null (kid n 1) = false) as ->.
  { apply andb_false_intro2. by inversion Hwf; subst; eapply wf_S_not_null. }
  destruct (case_3b_ok h n ki j) as (n' & ki' & sub & j' & -> & Hsub & Hwfs & Hj' & Hrest); auto.
  { intros. apply andb_false_iff in Hleft as [?%Nat.ltb_ge|]; [lia|done]. }
  { intros ->. cbn in Hright. inversion Hwf; subst; cbn in *;
      by erewrite (wf_S_not_null _ k1) in Hright. }
  destruct (isS (elem n' 0)) eqn:He0.
  - destruct Hrest as (? & -> & ? & ? & ?). by apply Hpush.
  - destruct Hrest as (Hone & Hl & ->).
    assert (p = []) as -> by (destruct Hbig; congruence).
    do 3 eexists. split; [done|]. rewrite Hl. cbn. repeat (split; [done|]). lia.
Qed.

Lemma last_target_ok h : forall k, wf (S h) k ->
  exists K y, last_target k = Some y /\ to_list k = K ++ [y].
Proof.
  induction h as [|h IH]; intros k Hk; inversion Hk; subst.
  1-3: repeat match goal with H : wf 0 ?k |- _ => apply wf_0 in H; subst k end; cbn.
  - by exists [], x0.
  - by exists [x0], x1.
  - by exists [x0; x1], x2.
  - destruct (IH k1) as (K & y & Hy & Hl); [done|].
    exists (to_list k0 ++ x0 :: K), y. cbn [last_target to_list]. rewrite Hy, Hl.
    split; [|by list_norm]. by inversion H0; inversion H1.
  - destruct (IH k2) as (K & y & Hy & Hl); [done|].
    exists (to_list k0 ++ x0 :: to_list k1 ++ x1 :: K), y.
    cbn [last_target to_list]. rewrite Hy, Hl.
    split; [|by list_norm]. by inversion H0; inversion H2.
  - destruct (IH k3) as (K & y & Hy & Hl); [done|].
    exists (to_list k0 ++ x0 :: to_list k1 ++ x1 :: to_list k2 ++ x2 :: K), y.
    cbn [last_target to_list]. rewrite Hy, Hl.
    split; [|by list_norm]. by inversion H0; inversion H3.
Qed.

Lemma first_target_ok h : forall k, wf (S h) k ->
  exists K y, first_target k = Some y /\ to_list k = y :: K.
Proof.
  induction h as [|h IH]; intros k Hk.
  - inversion Hk; subst;
      repeat match goal with H : wf 0 ?k |- _ => apply wf_0 in H; subst k end; cbn; eauto.
  - assert (wf (S h) (kid k 0)) as Hk0 by (inversion Hk; subst; done).
    destruct (IH _ Hk0) as (K & y & Hy & Hl).
    exists (K ++ post k 0), y.
    rewrite (to_list_kid k 0 (wf_S_not_null _ _ Hk)), Hl.
    split; [|by inversion Hk; subst].
    inversion Hk; subst; cbn [kid first_target] in *; by inversion Hk0; subst.
Qed.

(** Replacing an element keeps the shape. *)
Lemma set_elem_ok h n i x y :
  wf (S h) n -> (i <= 2)%nat -> elem n i = Some x ->
  wf (S h) (set_elem n i (Some y)) /\
  elem (set_elem n i (Some y)) i = Some y /\
  elements234 (set_elem n i (Some y)) = elements234 n /\
  pre (set_elem n i (Some y)) i = pre n i /\
  kid (set_elem n i (Some y)) i = kid n i /\
  kid (set_elem n i (Some y)) (S i) = kid n (S i) /\
  post (set_elem n i (Some y)) (S i) = post n (S i).
Proof.
  intros Hwf Hi Hx. inversion Hwf; subst; destruct i as [|[|[|]]]; cbn in Hx |- *;
    try done; try lia; repeat (split; [by constructor|]); done.
Qed.

Lemma remove_elem_ok n i x :
  wf 1 n -> (i <= 2)%nat -> elem n i = Some x -> isS (elem n 1) = true ->
  wf 1 (remove_elem (2 - i) n i) /\
  to_list (remove_elem (2 - i) n i) = pre n i ++ post n (S i).
Proof.
  intros Hwf Hi Hx H1. inversion Hwf; subst;
    repeat match goal with H : wf 0 ?k |- _ => apply wf_0 in H; subst k end;
    destruct i as [|[|[|]]]; cbn in Hx, H1 |- *; try done; try lia;
    (split; [by repeat constructor|done]).
Qed.

Lemma case_2c_ok h n i x :
  wf (S (S h)) n -> (i <= 2)%nat -> elem n i = Some x ->
  isS (elem (kid n i) 1) = false -> isS (elem (kid n (S i)) 1) = false ->
  exists n' a j, case_2c n i = (n', a, j) /\
    isS (elem a 1) = true /\ wf (S h) a /\ 0 <= j < size a /\ j = size (kid n i) /\
    if isS (elem n' 0) then
      wf (S (S h)) n' /\ a = kid n' i /\ Z.of_nat i <= elements234 n' /\
      to_list n' = to_list n /\ pre n' i = pre n i
    else isS (elem n 1) = false /\ to_list a = to_list n /\ pre n i = [].
Proof.
  intros Hwf Hi Hx H0 H1. wf_cases Hwf; destruct i as [|[|[|]]]; try lia; try done;
    cbn [kid] in *;
    repeat match goal with H : wf (S h) ?k |- _ =>
      match goal with _ : context [elem k 1] |- _ => wf_cases H end end;
    do 3 eexists; (split; [reflexivity|]);
    repeat match goal with |- _ /\ _ => split end; cbn -[countnode234];
    repeat match goal with |- _ /\ _ => split end;
    first [reflexivity | solve_wf | by list_norm
          | size_norm; unfold size; len_norm; lia].
Qed.

(** The state of the deletion loop at node [n]: the whole tree represents
    [X ++ x :: Y] and the element to go is [x], at [index] within [n]. *)
Definition del_inv (h : nat) p n (index : Z) (X : list A) (x : A) (Y : list A) : Prop :=
  wf h n /\ wf_path h p /\ path_cnt (size n) p /\
  (p = [] \/ isS (elem n 1) = true) /\ 0 <= index < size n /\
  pre_path p ++ to_list n ++ post_path p = X ++ x :: Y /\
  Z.of_nat (length X) = Z.of_nat (length (pre_path p)) + index.

Lemma found_split p n ei x :
  elem n ei = Some x -> (ei <= 2)%nat ->
  pre_path p ++ to_list n ++ post_path p =
  (pre_path p ++ pre n ei ++ to_list (kid n ei)) ++
    x :: to_list (kid n (S ei)) ++ post n (S ei) ++ post_path p.
Proof.
  intros Hx Hei. destruct (elem_split _ _ _ Hx Hei) as (_ & _ & ->). by list_norm.
Qed.

Lemma found_pos h p n ei x X y Y :
  del_inv (S h) p n (Z.of_nat (length (pre n ei)) + size (kid n ei)) X y Y ->
  elem n ei = Some x -> (ei <= 2)%nat ->
  X = pre_path p ++ pre n ei ++ to_list (kid n ei) /\ y = x /\
  Y = to_list (kid n (S ei)) ++ post n (S ei) ++ post_path p.
Proof.
  intros (_ & _ & _ & _ & _ & Heq & Hlen) Hx Hei.
  rewrite (found_split p n ei x Hx Hei) in Heq.
  apply app_inj_1 in Heq as [-> [= -> ->]]; [done|].
  len_norm. unfold size in Hlen. lia.
Qed.

Lemma leaf_found h p n ei x :
  wf (S h) n -> is_null (kid n 0) = true -> elem n ei = Some x -> (ei <= 2)%nat ->
  to_list n = pre n ei ++ x :: post n (S ei) /\ kid n ei = NULL /\ kid n (S ei) = NULL /\
  h = 0%nat.
Proof.
  intros Hwf Hk Hx Hei.
  assert (h = 0%nat) as ->.
  { destruct h; [done|]. inversion Hwf; subst; cbn in Hk;
      by erewrite wf_S_not_null in Hk. }
  destruct (elem_split _ _ _ Hx Hei) as (_ & _ & ->).
  inversion Hwf; subst;
    repeat match goal with H : wf 0 ?k |- _ => apply wf_0 in H; subst k end;
    destruct ei as [|[|[|]]]; cbn in Hx |- *; try done; lia.
Qed.

Lemma del_found_ok h p n ei x X Y :
  del_inv (S h) p n (Z.of_nat (length (pre n ei)) + size (kid n ei)) X x Y ->
  elem n ei = Some x -> (ei <= 2)%nat ->
  (exists r h', del_found p n ei = Ok (inl r) /\ wf h' r /\ to_list r = X ++ Y) \/
  (exists p' n' j X' x' Y', del_found p n ei = Ok (inr (p', n', j)) /\
     del_inv h p' n' j X' x' Y' /\ X' ++ Y' = X ++ Y).
Proof.
  intros Hinv Hx Hei.
  destruct (found_pos _ _ _ _ _ _ _ _ Hinv Hx Hei) as (HX & _ & HY).
  destruct Hinv as (Hwf & Hp & Hc & Hbig & _ & _ & _).
  unfold del_found.
  destruct (is_null (kid n 0)) eqn:Hleaf.
  { (* a leaf *)
    destruct (leaf_found _ p _ _ _ Hwf Hleaf Hx Hei) as (Hl & Hk & HSk & ->). left.
    rewrite Hk in HX. rewrite HSk in HY. cbn in HX, HY.
    destruct (isS (elem n 1)) eqn:H1; rewrite ?andb_false_r; cbn [negb andb].
    - destruct (remove_elem_ok _ _ _ Hwf Hei Hx H1) as [Hwf' Hl'].
      destruct (dec_counts_ok p _ _ Hp Hwf') as (h' & Hw & Hlist).
      { replace (size _ + 1) with (size n); [done|]. unfold size.
        rewrite Hl', Hl. len_norm. lia. }
      eexists _, h'. split; [done|]. split; [done|].
      rewrite Hlist, Hl', HX, HY. by list_norm.
    - destruct Hbig as [->|]; [|done]. exists NULL, 0%nat. cbn.
      split; [done|]. split; [constructor|].
      inversion Hwf; subst; try done. by destruct ei as [|[|[|]]]. }
  rewrite !andb_false_r. cbn [andb].
  destruct h as [|h].
  { exfalso. inversion Hwf; subst; cbn in Hleaf;
      repeat match goal with H : wf 0 ?k |- _ => apply wf_0 in H; subst k end; done. }
  assert (Z.of_nat (S ei) <= elements234 n) as Hki.
  { inversion Hwf; subst; destruct ei as [|[|[|]]]; cbn in *; try done; lia. }
  destruct (frame_ok_kid _ _ ei Hwf) as [_ Hk]; [lia|].
  destruct (frame_ok_kid _ _ (S ei) Hwf) as [_ HSk]; [lia|].
  rewrite (wf_S_not_null _ _ Hk), Nat.add_1_r, (wf_S_not_null _ _ HSk).
  (* what the three cases end with *)
  assert (forall n' ki j X' x' Y', wf (S (S h)) n' -> Z.of_nat ki <= elements234 n' ->
    size n' = size n -> isS (elem (kid n' ki) 1) = true -> 0 <= j < size (kid n' ki) ->
    pre_path p ++ to_list n' ++ post_path p = X' ++ x' :: Y' ->
    Z.of_nat (length X') = Z.of_nat (length (pre_path p) + length (pre n' ki)) + j ->
    del_inv (S h) ((n', ki) :: p) (kid n' ki) j X' x' Y') as Hpush.
  { intros n' ki j X' x' Y' Hw Hi Hsz H1 Hj Heq Hlen.
    destruct (push_ok _ _ _ p Hw Hi Hp) as (Ha & Hb & Hd & He); [by rewrite Hsz|].
    unfold del_inv. rewrite He. cbn [pre_path]. rewrite length_app.
    repeat (split; [done|]). split; [by right|]. repeat (split; [done|]). lia. }
  right. destruct (isS (elem (kid n ei) 1)) eqn:H2a.
  - (* case 2a *)
    destruct (last_target_ok _ _ Hk) as (K & y & Hy & HK). rewrite Hy.
    destruct (set_elem_ok _ _ _ _ y Hwf Hei Hx) as (Hw & He & Hel & Hpre & Hki' & Hki2 & Hpost).
    pose proof (wf_count_kid _ _ ei Hw ltac:(rewrite Hel; lia)) as Hcnt.
    rewrite Hcnt.
    exists ((set_elem n ei (Some y), ei) :: p), (kid (set_elem n ei (Some y)) ei),
      (size (kid (set_elem n ei (Some y)) ei) - 1),
      (pre_path p ++ pre n ei ++ K), y, (y :: to_list (kid n (S ei)) ++ post n (S ei) ++ post_path p).
    split; [done|].
    assert (size (kid n ei) = Z.of_nat (length K) + 1) as Hsz by (unfold size; rewrite HK; len_norm; lia).
    split; [|rewrite HX, HY, HK; by list_norm].
    apply Hpush; rewrite ?Hki', ?Hel; try done; try lia.
    + destruct (elem_split _ _ _ He Hei) as (_ & _ & E1).
      destruct (elem_split _ _ _ Hx Hei) as (_ & _ & E2).
      unfold size. rewrite E1, E2, Hpre, Hki', Hki2, Hpost. by len_norm.
    + rewrite (found_split p _ _ _ He Hei), Hpre, Hki', Hki2, Hpost, HK. by list_norm.
    + rewrite Hpre. len_norm. lia.
  - destruct (isS (elem (kid n (S ei)) 1)) eqn:H2b.
    + (* case 2b *)
      destruct (first_target_ok _ _ HSk) as (K & y & Hy & HK). rewrite Hy.
      destruct (set_elem_ok _ _ _ _ y Hwf Hei Hx) as (Hw & He & Hel & Hpre & Hki' & Hki2 & Hpost).
      exists ((set_elem n ei (Some y), S ei) :: p), (kid (set_elem n ei (Some y)) (S ei)), 0,
        (pre_path p ++ pre n ei ++ to_list (kid n ei) ++ [y]), y, (K ++ post n (S ei) ++ post_path p).
      split; [done|].
      split; [|rewrite HX, HY, HK; by list_norm].
      apply Hpush; rewrite ?Hki2, ?Hel; try done; try lia.
      * destruct (elem_split _ _ _ He Hei) as (_ & _ & E1).
        destruct (elem_split _ _ _ Hx Hei) as (_ & _ & E2).
        unfold size. rewrite E1, E2, Hpre, Hki', Hki2, Hpost. by len_norm.
      * unfold size. rewrite HK. cbn. lia.
      * rewrite (found_split p _ _ _ He Hei), Hpre, Hki', Hki2, Hpost, HK. by list_norm.
      * destruct (elem_split _ _ _ He Hei) as (-> & _ & _). rewrite Hpre, Hki'. len_norm. lia.
    + (* case 2c *)
      destruct (case_2c_ok _ _ _ _ Hwf Hei Hx H2a H2b)
        as (n' & a & j & -> & Ha1 & Hwa & Hj & -> & Hrest).
      assert (pre_path p ++ to_list n ++ post_path p = X ++ x :: Y) as HL.
      { rewrite HX, HY. by apply found_split. }
      destruct (isS (elem n' 0)) eqn:E0.
      * destruct Hrest as (Hw & -> & Hel & Hl & Hpre).
        eexists _, _, _, X, x, Y. split; [done|]. split; [|done].
        apply Hpush; try done; rewrite ?Hl; try done.
        -- unfold size. by rewrite Hl.
        -- rewrite HX, Hpre. unfold size. len_norm. lia.
      * destruct Hrest as (Hone & Hl & Hpre).
        assert (p = []) as -> by (destruct Hbig; congruence).
        eexists _, _, _, X, x, Y. split; [done|]. split; [|done].
        unfold del_inv. cbn. rewrite Hl. cbn in HL.
        repeat (split; [done|]). split; [by left|]. split; [done|]. split; [done|].
        rewrite HX, Hpre. unfold size. cbn. lia.
Qed.

Lemma del_loop_ok fuel : forall h p n index retval X x Y,
  (h <= fuel)%nat -> del_inv h p n index X x Y ->
  exists r h', del_loop fuel p n index retval =
                 Ok (if isS retval then retval else Some x, r) /\
    wf h' r /\ to_list r = X ++ Y.
Proof.
  induction fuel as [|fuel IH]; intros h p n index retval X x Y Hf Hinv;
    pose proof Hinv as (Hwf & Hp & Hc & Hbig & Hi & Heq & Hlen).
  { replace h with 0%nat in * by lia. apply wf_0 in Hwf as ->.
    unfold size in Hi. cbn in Hi. lia. }
  destruct h as [|h].
  { apply wf_0 in Hwf as ->. unfold size in Hi. cbn in Hi. lia. }
  cbn [del_loop]. rewrite (wf_S_not_null _ _ Hwf).
  destruct (locate_ok _ _ _ Hwf Hi)
    as [(ki & j & -> & Hki & Hj & ->)|(ei & y & -> & Hei & Hy & ->)].
  - destruct (del_descend_ok _ p _ ki j Hwf Hp Hc Hbig Hki Hj)
      as (p' & sub & j' & -> & H1 & H2 & H3 & H4 & H5 & H6 & H7).
    apply (IH h); [lia|]. unfold del_inv. rewrite H6.
    repeat (split; [done|]). split; [by right|]. repeat (split; [done|]). lia.
  - destruct (found_pos _ _ _ _ _ _ _ _ Hinv Hy Hei) as (_ & -> & _).
    destruct (del_found_ok _ _ _ _ _ _ _ Hinv Hy Hei)
      as [(r & h' & -> & Hw & Hl)|(p' & n' & j & X' & x' & Y' & -> & Hinv' & <-)].
    + exists r, h'. rewrite Hy. by destruct retval.
    + destruct (IH h _ _ _ (if isS retval then retval else elem n ei) _ _ _ ltac:(lia) Hinv')
        as (r & h' & -> & Hw & Hl).
      exists r, h'. rewrite Hy. by destruct retval.
Qed.

Lemma delpos234_internal_ok t X x Y :
  wf_tree t -> elements t = X ++ x :: Y ->
  exists t', delpos234_internal t (Z.of_nat (length X)) = Ok (Some x, t') /\
    wf_tree t' /\ cmp t' = cmp t /\ elements t' = X ++ Y.
Proof.
  intros [h Hwf] Heq. unfold delpos234_internal, elements in *.
  rewrite (wf_height _ _ Hwf).
  destruct (del_loop_ok h h [] (root t) (Z.of_nat (length X)) None X x Y)
    as (r & h' & -> & Hw & Hl); [lia| |].
  - unfold del_inv. cbn. rewrite app_nil_r. repeat (split; [done|]). split; [by left|].
    split; [|by split]. unfold size. rewrite Heq. len_norm. lia.
  - eexists. split; [done|]. split; [by exists h'|]. done.
Qed.
End Del.
