(* ===== verification/Tree234Find.v ===== *)
(** * 2-3-4 trees: search, and deletion by value *)

From S2P Require Import Prelude.
From S2P Require Import Tree234 Tree234Add Tree234Del.

Local Open Scope Z_scope.

Section Find.
Context {A : Type}.
Implicit Types (n k : node234 A) (l : list A) (t : tree234 A) (st : search234_state (A:=A)).

(** The sum that a search adds to [_base] is the number of elements to the
    left of the slot it goes down through. *)
Lemma sum_counts_pre h n (i : nat) :
  wf (S h) n -> Z.of_nat i <= elements234 n ->
  Z.of_nat i + sum_counts n i = Z.of_nat (length (pre n i)).
Proof.
  inversion 1; subst; cbn; intros; destruct i as [|[|[|[|]]]]; cbn [pre sum_counts count];
    try lia; len_norm; unfold size; lia.
Qed.

Lemma elements234_elem h n (i : nat) :
  wf (S h) n -> Z.of_nat i < elements234 n -> exists x, elem n i = Some x /\ (i <= 2)%nat.
Proof.
  inversion 1; subst; cbn; intros; destruct i as [|[|[|]]]; cbn;
    solve [lia | eexists; split; [reflexivity|lia]].
Qed.

Lemma elements234_range h n : wf (S h) n -> 1 <= elements234 n <= 3.
Proof. inversion 1; subst; cbn; lia. Qed.

Lemma post_elements h n : wf (S h) n -> post n (Z.to_nat (elements234 n)) = [].
Proof. by inversion 1. Qed.

Section Query.
(** [f] is the comparison with the query, [r] the relation asked for; [s] is
    the sign the search acts on. *)
Context (f : A -> Z) (r : relation234).
Definition eff (x : A) : Z := if f x =? 0 then if equal_permitted r then 0 else reldir r else f x.
Notation pos := (fun x => 0 < eff x).
Notation neg := (fun x => eff x < 0).

Lemma mono_eff l : mono f l -> mono eff l.
Proof.
  induction 1 as [|x l Hl IH Hx]; constructor; [done|].
  eapply Forall_impl; [exact Hx|]. cbn. unfold eff. intros y.
  destruct (Z.eqb_spec (f x) 0), (Z.eqb_spec (f y) 0), r; cbn; lia.
Qed.

(** The invariant of a search in a tree that represents [L], at a node of
    height [h]; [m] bounds the rounds left. *)
Definition find_inv (L : list A) (h : nat) (m : nat) st : Prop :=
  exists BL AL, L = BL ++ to_list (ss_node st) ++ AL /\ Forall pos BL /\ Forall neg AL /\
  wf h (ss_node st) /\
  match h with
  | O => element st = None /\ index st = Z.of_nat (length BL) /\ m = 0%nat
  | S h' =>
      exists lo hi last : nat, ss_base st = Z.of_nat (length BL) /\
      ss_lo st = Z.of_nat lo /\ ss_hi st = Z.of_nat hi /\ ss_last st = Z.of_nat last /\
      (lo <= last <= hi)%nat /\ Z.of_nat hi < elements234 (ss_node st) /\
      Forall pos (pre (ss_node st) lo) /\ Forall neg (post (ss_node st) (S hi)) /\
      (exists x, elem (ss_node st) last = Some x /\ element st = Some x) /\
      index st = Z.of_nat (length (BL ++ pre (ss_node st) last ++ to_list (kid (ss_node st) last))) /\
      (m = 3 * h' + (hi + 1 - lo))%nat
  end.

Lemma search_emit_ok L h n (lo hi : nat) last0 BL AL :
  L = BL ++ to_list n ++ AL -> Forall pos BL -> Forall neg AL -> wf (S h) n ->
  (lo <= hi)%nat -> Z.of_nat hi < elements234 n ->
  Forall pos (pre n lo) -> Forall neg (post n (S hi)) ->
  find_inv L (S h) (3 * h + (hi + 1 - lo))
    (search_emit n (Z.of_nat lo) (Z.of_nat hi) last0 (Z.of_nat (length BL))).
Proof.
  intros HL HB HA Hwf Hlo Hhi Hpre Hpost. unfold search_emit.
  rewrite (wf_S_not_null _ _ Hwf).
  exists BL, AL. cbn [ss_node]. do 4 (split; [done|]).
  set (last := ((lo + hi) / 2)%nat).
  assert ((Z.of_nat lo + Z.of_nat hi) / 2 = Z.of_nat last) as ->.
  { unfold last. rewrite Nat2Z.inj_div. f_equal. lia. }
  assert (lo <= last <= hi)%nat.
  { unfold last. pose proof (Nat.div_mod_eq (lo + hi) 2).
    pose proof (Nat.mod_upper_bound (lo + hi) 2). lia. }
  destruct (elements234_elem _ _ last Hwf ltac:(lia)) as (x & Hx & Hle).
  exists lo, hi, last. cbn [ss_base ss_lo ss_hi ss_last element index].
  rewrite Nat2Z.id. do 4 (split; [done|]). do 4 (split; [done|]).
  split; [eauto|]. split; [|done].
  replace (Z.of_nat last + 1) with (Z.of_nat (S last)) by lia. rewrite Nat2Z.id. cbn [sum_counts].
  rewrite (wf_count_kid _ _ last Hwf) by lia.
  pose proof (sum_counts_pre _ _ last Hwf ltac:(lia)). len_norm. unfold size. lia.
Qed.

Lemma search_enter_ok L h n BL AL :
  L = BL ++ to_list n ++ AL -> Forall pos BL -> Forall neg AL -> wf h n ->
  exists m, (m <= 3 * h)%nat /\
    find_inv L h m (search_enter n (Z.of_nat (length BL))).
Proof.
  intros HL HB HA Hwf. destruct h as [|h].
  { exists 0%nat. split; [lia|]. pose proof Hwf as ->%wf_0. by exists BL, AL. }
  pose proof (elements234_range _ _ Hwf) as Hr.
  unfold search_enter. rewrite (wf_S_not_null _ _ Hwf).
  set (hi := Z.to_nat (elements234 n - 1)).
  replace (elements234 n - 1) with (Z.of_nat hi) by lia.
  exists (3 * h + (hi + 1 - 0))%nat. split; [lia|].
  apply (search_emit_ok L h n 0 hi (-1) BL AL); try done; try lia.
  - by destruct n; constructor.
  - replace (S hi) with (Z.to_nat (elements234 n)) by lia.
    rewrite (post_elements _ _ Hwf). constructor.
Qed.

Lemma mono_node l1 n l2 : mono f (l1 ++ to_list n ++ l2) -> mono eff (to_list n).
Proof. intros (_ & (H & _)%mono_app & _)%mono_app. by apply mono_eff. Qed.

(** One step of the search keeps the invariant and uses up a round. *)
Lemma search234_step_ok L h m st x :
  mono f L -> find_inv L h m st -> element st = Some x -> eff x <> 0 ->
  exists st' h' m', search234_step st (eff x) = Ok st' /\ (m' < m)%nat /\ find_inv L h' m' st'.
Proof.
  intros Hm (BL & AL & HL & HB & HA & Hwf & Hst) Hx Hs.
  destruct h as [|h]; [destruct Hst as (? & _); congruence|].
  destruct Hst as (lo & hi & last & Hb & Hlo & Hhi & Hla & Hr & Hel & Hpre & Hpost
    & (x' & Hx' & Hx'') & _ & Hmm).
  assert (x' = x) as -> by congruence. clear Hx''.
  unfold search234_step. rewrite (wf_S_not_null _ _ Hwf), Hla, Hlo, Hhi, Hb.
  rewrite (proj2 (Z.eqb_neq (Z.of_nat last) (-1))), (proj2 (Z.eqb_neq (eff x) 0)) by lia.
  assert (mono eff (to_list (ss_node st))) as Hmn by (rewrite HL in Hm; by eapply mono_node).
  assert (last <= 2)%nat as Hle2 by (pose proof (elements234_range _ _ Hwf); lia).
  (* going down through slot [i] *)
  assert (forall i : nat, Z.of_nat i <= elements234 (ss_node st) ->
    Forall pos (pre (ss_node st) i) -> Forall neg (post (ss_node st) i) ->
    exists st' h' m', Ok (search_enter (kid (ss_node st) (Z.to_nat (Z.of_nat i)))
       (Z.of_nat (length BL) + (Z.of_nat i + sum_counts (ss_node st) (Z.to_nat (Z.of_nat i))))) = Ok st' /\
      (m' < m)%nat /\ find_inv L h' m' st') as Hdown.
  { intros i Hi Hp Hq. rewrite Nat2Z.id, (sum_counts_pre _ _ _ Hwf Hi).
    rewrite <-Nat2Z.inj_add, <-length_app.
    destruct (frame_ok_kid _ _ _ Hwf Hi) as [_ Hkid].
    destruct (search_enter_ok L h (kid (ss_node st) i) (BL ++ pre (ss_node st) i)
      (post (ss_node st) i ++ AL)) as (m' & Hm' & Hinv); try (by apply Forall_app); try done.
    { rewrite HL, (to_list_kid _ i (wf_S_not_null _ _ Hwf)). by list_norm. }
    eexists _, h, m'. split; [done|]. split; [lia|done]. }
  destruct (Z.ltb_spec 0 (eff x)) as [Hpos|Hneg].
  - replace (Z.of_nat last + 1) with (Z.of_nat (S last)) by lia.
    assert (Forall pos (pre (ss_node st) (S last))) by (by eapply pre_pos).
    destruct (Z.ltb_spec (Z.of_nat hi) (Z.of_nat (S last))).
    + apply Hdown; [lia|done|]. by replace (S last) with (S hi) by lia.
    + eexists _, (S h), _. split; [done|]. split; cycle 1.
      * eapply search_emit_ok; try done. lia.
      * lia.
  - assert (Forall neg (post (ss_node st) last)) by (eapply post_neg; eauto; cbn; lia).
    replace (Z.of_nat last - 1 <? Z.of_nat lo) with (bool_decide (last = lo)) by
      (case_bool_decide; symmetry; [apply Z.ltb_lt|apply Z.ltb_ge]; lia).
    case_bool_decide as Hll.
    + subst last. apply Hdown; [lia|done|done].
    + replace (Z.of_nat last - 1) with (Z.of_nat (last - 1)) by lia.
      eexists _, (S h), _. split; [done|]. split; cycle 1.
      * eapply search_emit_ok; try done; try lia. by replace (S (last - 1)) with last by lia.
      * lia.
Qed.

Lemma find_loop_ok cmpret L : forall fuel h m st,
  (forall x, cmpret x = Ok (f x)) -> mono f L -> find_inv L h m st -> (m < fuel)%nat ->
  (exists x (i : nat), find_loop fuel cmpret r st = Ok (inl (x, Z.of_nat i)) /\
     L !! i = Some x /\ f x = 0 /\ equal_permitted r = true) \/
  (exists l1 l2, find_loop fuel cmpret r st = Ok (inr (Z.of_nat (length l1))) /\
     L = l1 ++ l2 /\ Forall pos l1 /\ Forall neg l2).
Proof.
  induction fuel as [|fuel IH]; intros h m st Hf Hm Hinv Hfuel; [lia|].
  cbn [find_loop]. destruct (element st) as [x|] eqn:Hx; cycle 1.
  { right. destruct Hinv as (BL & AL & HL & HB & HA & Hwf & Hst). destruct h as [|h].
    - apply wf_0 in Hwf. destruct Hst as (_ & -> & _). exists BL, AL.
      rewrite HL, Hwf. done.
    - destruct Hst as (? & ? & ? & _ & _ & _ & _ & _ & _ & _ & _ & (? & ? & ?) & _). congruence. }
  rewrite Hf. destruct ((f x =? 0) && equal_permitted r) eqn:Heq.
  { left. apply andb_true_iff in Heq as [H0%Z.eqb_eq Hp].
    destruct Hinv as (BL & AL & HL & HB & HA & Hwf & Hst).
    destruct h as [|h]; [destruct Hst as (? & _); congruence|].
    destruct Hst as (lo & hi & last & _ & _ & _ & _ & Hr & Hel & _ & _ & (x' & Hx' & Hx'') & Hi & _).
    assert (x' = x) as -> by congruence.
    eexists x, _. rewrite Hi. split; [done|]. split; [|done].
    assert (last <= 2)%nat as Hle2 by (pose proof (elements234_range _ _ Hwf); lia).
    destruct (elem_split _ _ _ Hx' Hle2) as (_ & _ & E). rewrite HL, E.
    list_norm. rewrite (app_assoc (pre _ _)), (app_assoc BL (_ ++ _) (_ :: _)).
    by apply list_lookup_middle. }
  assert (eff x <> 0) as Hne.
  { unfold eff. apply andb_false_iff in Heq. destruct (Z.eqb_spec (f x) 0); [|done].
    destruct Heq as [|Heq]; [done|]. rewrite Heq. by destruct r. }
  assert ((if f x =? 0 then reldir r else f x) = eff x) as ->.
  { unfold eff. apply andb_false_iff in Heq. destruct (f x =? 0) eqn:E; [|done].
    destruct Heq as [| ->]; done. }
  destruct (search234_step_ok _ _ _ _ _ Hm Hinv Hx Hne) as (st' & h' & m' & -> & Hlt & Hinv').
  by apply (IH h' m'); [| |done|lia].
Qed.
End Query.

(** ** What each relation returns *)

(** The comparison of the query with each element. *)
Definition query (e : option A) (c : A -> A -> Z) (r : relation234) (x : A) : Z :=
  match e with Some e => c e x | None => - reldir r end.

(** What [findrelpos234] returns on the represented list [l]: for LE and GE an
    element that compares equal, any one if there are several, and otherwise the
    last element below or the first element above the query. *)
Definition find_spec (l : list A) (f : A -> Z) (r : relation234)
    (res : option (A * Z)) : Prop :=
  match res with
  | None =>
      forall x, x ∈ l -> match r with
        | REL234_EQ => f x <> 0 | REL234_LT => f x <= 0 | REL234_LE => f x < 0
        | REL234_GT => 0 <= f x | REL234_GE => 0 < f x end
  | Some (x, i) =>
      exists l1 l2, l = l1 ++ x :: l2 /\ i = Z.of_nat (length l1) /\
        match r with
        | REL234_EQ => f x = 0
        | REL234_LT => 0 < f x /\ forall y, y ∈ l2 -> f y <= 0
        | REL234_LE => f x = 0 \/ 0 < f x /\ forall y, y ∈ l2 -> f y < 0
        | REL234_GT => f x < 0 /\ forall y, y ∈ l1 -> 0 <= f y
        | REL234_GE => f x = 0 \/ f x < 0 /\ forall y, y ∈ l1 -> 0 < f y
        end
  end.

Lemma findrelpos234_ok t e c0 c r :
  wf_tree t -> (e <> None \/ equal_permitted r = false) ->
  (match c0 with Some c' => Some c' | None => cmp t end) = Some c ->
  mono (query e c r) (elements t) ->
  exists out, findrelpos234 t e c0 r = Ok out /\ find_spec (elements t) (query e c r) r out.
Proof.
  intros Ht He Hc Hm. pose proof Ht as [h Hwf]. unfold findrelpos234.
  replace (equal_permitted r && negb (isS e)) with false by
    (destruct e, r; naive_solver).
  set (f := query e c r) in *.
  match goal with |- context [find_loop _ ?g r] => set (cmpret := g) end.
  assert (forall x, cmpret x = Ok (f x)) as Hcr.
  { intros x. unfold cmpret, f, query. rewrite Hc. by destruct e. }
  assert (search234_start t = Ok (search_enter (root t) 0)) as ->.
  { unfold search234_start, search234_step. cbn.
    destruct (root t) as [|]; by cbn. }
  rewrite (wf_height _ _ Hwf).
  destruct (search_enter_ok f r (elements t) h (root t) [] []) as (m & Hmle & Hinv);
    [unfold elements; by list_norm|constructor|constructor|done|].
  destruct (find_loop_ok f r cmpret (elements t) (S (3 * h)) h m _ Hcr Hm Hinv ltac:(lia))
    as [(x & i & Heq & Hi & H0 & Hp)|(l1 & l2 & Heq & HL & H1 & H2)];
    cbn [length] in Heq; change (Z.of_nat 0) with 0 in Heq; rewrite Heq.
  { eexists. split; [done|]. apply list_elem_of_split_length in Hi as (l1 & l2 & -> & ->).
    exists l1, l2. split; [done|]. split; [done|]. destruct r; naive_solver. }
  rewrite !Forall_forall in H1, H2. unfold eff in H1, H2.
  assert (l1 = [] /\ index234 t (Z.of_nat (length l1) - 1) = None \/
    exists l1' x, l1 = l1' ++ [x] /\ Z.of_nat (length l1) - 1 = Z.of_nat (length l1') /\
      index234 t (Z.of_nat (length l1) - 1) = Some x) as Hleft.
  { rewrite index234_ok, HL by done. destruct l1 as [|x l1' _] using rev_ind; [by left|right].
    exists l1', x. split; [done|]. rewrite decide_True by (len_norm; lia).
    replace (Z.of_nat (length (l1' ++ [x])) - 1) with (Z.of_nat (length l1')) by (len_norm; lia).
    split; [done|]. rewrite Nat2Z.id. list_norm. by apply list_lookup_middle. }
  assert (index234 t (Z.of_nat (length l1)) = head l2) as Hright.
  { rewrite index234_ok, HL, decide_True, Nat2Z.id by (done || lia).
    destruct l2; [rewrite app_nil_r; by apply lookup_ge_None_2|by apply list_lookup_middle]. }
  rewrite HL. cbn in H1, H2.
  assert (forall x, x ∈ l1 -> if equal_permitted r then 0 < f x else if f x =? 0 then 0 < reldir r else 0 < f x) as H1'.
  { intros x Hx. specialize (H1 x Hx). cbn in H1. destruct (Z.eqb_spec (f x) 0), r; cbn in *; lia. }
  assert (forall x, x ∈ l2 -> if equal_permitted r then f x < 0 else if f x =? 0 then reldir r < 0 else f x < 0) as H2'.
  { intros x Hx. specialize (H2 x Hx). cbn in H2. destruct (Z.eqb_spec (f x) 0), r; cbn in *; lia. }
  clear H1 H2.
  assert (forall x, x ∈ l1 ++ l2 -> x ∈ l1 \/ x ∈ l2) as Happ by (intros x; apply elem_of_app).
  assert (forall x, x ∈ l1 -> 0 < f x \/ r = REL234_GT /\ f x = 0) as Hpos.
  { intros x Hx%H1'. destruct r, (Z.eqb_spec (f x) 0); cbn in *; lia || naive_solver lia. }
  assert (forall x, x ∈ l2 -> f x < 0 \/ r = REL234_LT /\ f x = 0) as Hneg.
  { intros x Hx%H2'. destruct r, (Z.eqb_spec (f x) 0); cbn in *; lia || naive_solver lia. }
  clear H1' H2'.
  destruct r.
  - exists None. split; [done|]. cbn. intros x [[? |[? _]]%Hpos|[?|[? _]]%Hneg]%Happ; done || lia.
  - destruct Hleft as [[-> ->]|(l' & x & -> & Hlen & ->)]; eexists; (split; [done|]).
    + cbn. intros x [?|[_ ?]]%Hneg; lia.
    + exists l', l2. split; [by list_norm|]. split; [done|].
      split; [|intros y [?|[_ ?]]%Hneg; lia].
      destruct (Hpos x) as [?|[? _]]; [set_solver|done|done].
  - destruct Hleft as [[-> ->]|(l' & x & -> & Hlen & ->)]; eexists; (split; [done|]).
    + cbn. intros x [?|[? _]]%Hneg; done.
    + exists l', l2. split; [by list_norm|]. split; [done|]. right.
      split; [|intros y [?|[? _]]%Hneg; done].
      destruct (Hpos x) as [?|[? _]]; [set_solver|done|done].
  - rewrite Hright. destruct l2 as [|x l2]; eexists; (split; [done|]).
    + cbn. rewrite app_nil_r. intros x [?|[_ ?]]%Hpos; lia.
    + exists l1, l2. split; [done|]. split; [done|].
      split; [|intros y [?|[_ ?]]%Hpos; lia].
      destruct (Hneg x) as [?|[? _]]; [set_solver|done|done].
  - rewrite Hright. destruct l2 as [|x l2]; eexists; (split; [done|]).
    + cbn. rewrite app_nil_r. intros x [?|[? _]]%Hpos; done.
    + exists l1, l2. split; [done|]. split; [done|]. right.
      split; [|intros y [?|[? _]]%Hpos; done].
      destruct (Hneg x) as [?|[? _]]; [set_solver|done|done].
Qed.

(** The relation of the element looked for to the query, which is compared with
    it as the first argument. *)
Definition admits (r : relation234) (v : Z) : Prop :=
  match r with
  | REL234_EQ => v = 0 | REL234_LT => 0 < v | REL234_LE => 0 <= v
  | REL234_GT => v < 0 | REL234_GE => v <= 0
  end.

(** The contract of tree234.h: for LT and LE the greatest element in the relation,
    for GT and GE the smallest one, for EQ one that compares equal, with its index;
    null where no element is in the relation. *)
Definition documented (l : list A) (f : A -> Z) (r : relation234)
    (res : option (A * Z)) : Prop :=
  match res with
  | None => forall x, x ∈ l -> ~ admits r (f x)
  | Some (x, i) =>
      exists l1 l2, l = l1 ++ x :: l2 /\ i = Z.of_nat (length l1) /\ admits r (f x) /\
        match r with
        | REL234_EQ => True
        | REL234_LT | REL234_LE => forall y, y ∈ l2 -> ~ admits r (f y)
        | REL234_GT | REL234_GE => forall y, y ∈ l1 -> ~ admits r (f y)
        end
  end.

Definition one_equal (f : A -> Z) (l : list A) : Prop :=
  forall l1 x l2, l = l1 ++ x :: l2 -> f x = 0 -> forall y, y ∈ l1 ++ l2 -> f y <> 0.

(** Where at most one element compares equal, or the relation excludes it or asks
    for one, the contract is met. *)
Lemma find_spec_documented l f r out :
  mono f l -> find_spec l f r out ->
  one_equal f l \/ equal_permitted r = false \/ r = REL234_EQ -> documented l f r out.
Proof.
  intros Hm Hs Hone. destruct out as [[x i]|]; cycle 1.
  { intros y Hy. specialize (Hs y Hy). destruct r; cbn; lia. }
  destruct Hs as (l1 & l2 & -> & -> & Hr). exists l1, l2. split; [done|]. split; [done|].
  assert (Huniq : equal_permitted r = true -> r <> REL234_EQ -> f x = 0 ->
    forall y, y ∈ l1 ++ l2 -> f y <> 0) by (destruct Hone as [Ho|[|]]; [eauto|congruence|done]).
  apply mono_app in Hm as (_ & Hm2 & Hm12). apply StronglySorted_inv in Hm2 as [_ Hm2].
  rewrite Forall_forall in Hm2. destruct r; cbn in *; (split; [lia|]).
  - done.
  - intros y Hy. destruct Hr as [_ Hr]. specialize (Hr y Hy). lia.
  - intros y Hy. destruct Hr as [H0|[_ Hr]]; [|specialize (Hr y Hy); lia].
    specialize (Hm2 y Hy). pose proof (Huniq eq_refl ltac:(done) H0 y ltac:(set_solver)). lia.
  - intros y Hy. destruct Hr as [_ Hr]. specialize (Hr y Hy). lia.
  - intros y Hy. destruct Hr as [H0|[_ Hr]]; [|specialize (Hr y Hy); lia].
    specialize (Hm12 y x Hy ltac:(set_solver)).
    pose proof (Huniq eq_refl ltac:(done) H0 y ltac:(set_solver)). lia.
Qed.

(** In a tree sorted by the comparison at most one element compares equal. *)
Lemma sorted_one_equal c `{!Comparator c} e l : sorted_by c l -> one_equal (c e) l.
Proof.
  intros Hs l1 x l2 -> Hx y Hy Hy0. unfold sorted_by in Hs.
  apply StronglySorted_app in Hs as (H12 & _ & [_ H2]%StronglySorted_inv).
  rewrite Forall_forall in H2.
  pose proof (cmp_flip x e). pose proof (cmp_flip y e). pose proof (cmp_flip x y).
  apply elem_of_app in Hy as [Hy|Hy].
  - specialize (H12 y x Hy ltac:(set_solver)). pose proof (cmp_trans x e y). lia.
  - specialize (H2 y Hy). pose proof (cmp_trans y e x). lia.
Qed.

Lemma del234_ok t c `{!Comparator c} e :
  wf_tree t -> cmp t = Some c -> sorted_by c (elements t) ->
  (exists X x Y t', elements t = X ++ x :: Y /\ c e x = 0 /\
     del234 t e = Ok (Some x, t') /\ wf_tree t' /\ cmp t' = Some c /\
     elements t' = X ++ Y) \/
  (del234 t e = Ok (None, t) /\ forall x, x ∈ elements t -> c e x <> 0).
Proof.
  intros Ht Hc Hs. unfold del234.
  destruct (findrelpos234_ok t (Some e) None c REL234_EQ Ht) as (out & -> & Hout);
    [by left|done|by apply (sorted_mono c e)|].
  destruct out as [[x i]|]; [|by right]. left.
  destruct Hout as (X & Y & HL & -> & H0).
  destruct (delpos234_internal_ok _ _ _ _ Ht HL) as (t' & Hd & Hw & Hcmp & Hl).
  exists X, x, Y, t'. split; [done|]. split; [done|]. by rewrite Hcmp.
Qed.
End Find.
