(* ===== verification/Tree234Spec.v ===== *)
(** * 2-3-4 trees: the theorems *)

From S2P Require Import Prelude.
From S2P Require Import Tree234 Tree234Add Tree234Del Tree234Find.

Local Open Scope Z_scope.

(** ** Concrete trees for the witnesses *)

(** The tree that a sequence of [addpos234] at the end builds. *)
Fixpoint build (l : list Z) (t : tree234 Z) : tree234 Z :=
  match l with
  | [] => t
  | x :: l =>
      match addpos234 t x (count234 t) with
      | Ok (_, t') => build l t'
      | Crash _ => t
      end
  end.

Definition sample_list : list Z := [10; 20; 30; 40; 50; 60; 70; 80; 90; 100; 110].
Definition sample : tree234 Z := Eval vm_compute in build sample_list (newtree234 None).
Definition sample_sorted : tree234 Z := Tree (root sample) (Some Z.sub).

Lemma sample_wf : wf_tree sample.
Proof. exists 2%nat. repeat constructor. Qed.

Lemma sample_sorted_wf : wf_tree sample_sorted.
Proof. exists 2%nat. repeat constructor. Qed.

#[export] Instance Zsub_comparator : Comparator Z.sub.
Proof. split; intros; lia. Qed.

Lemma sample_sorted_by : sorted_by Z.sub (elements sample_sorted).
Proof. repeat constructor. Qed.

(** ** Insertion *)

(** C22. On a well-formed unsorted tree, [addpos234] at any index from 0 to the
    element count succeeds: it returns the new element, keeps the tree
    well-formed, and the represented list is the old one with the element
    inserted at that index. *)
Theorem addpos234_inserts {A} (t : tree234 A) e i :
  wf_tree t -> cmp t = None -> 0 <= i <= count234 t ->
  exists t', addpos234 t e i = Ok (Some e, t') /\ wf_tree t' /\ cmp t' = None /\
    elements t' = take (Z.to_nat i) (elements t) ++ e :: drop (Z.to_nat i) (elements t).
Proof. apply addpos234_ok. Qed.

Lemma addpos234_inserts_witness :
  exists t', addpos234 sample 35 3 = Ok (Some 35, t') /\ wf_tree t' /\ cmp t' = None /\
    elements t' = [10; 20; 30; 35; 40; 50; 60; 70; 80; 90; 100; 110].
Proof.
  apply (addpos234_inserts sample 35 3); [apply sample_wf|reflexivity|].
  vm_compute; split; discriminate.
Defined.

(** C23. On a well-formed sorted tree, [add234] either finds an element that
    compares equal and returns it with the tree unchanged, or inserts the new
    element so that the tree stays well-formed and strictly sorted. *)
Theorem add234_sorted {A} (c : A -> A -> Z) `{!Comparator c} (t : tree234 A) e :
  wf_tree t -> cmp t = Some c -> sorted_by c (elements t) ->
  (exists x, add234 t e = Ok (Some x, t) /\ x ∈ elements t /\ c e x = 0) \/
  (exists t' l1 l2, add234 t e = Ok (Some e, t') /\ wf_tree t' /\ cmp t' = Some c /\
     elements t = l1 ++ l2 /\ elements t' = l1 ++ e :: l2 /\
     sorted_by c (elements t') /\ (forall x, x ∈ elements t -> c e x <> 0)).
Proof. by apply add234_ok. Qed.

Lemma add234_sorted_witness :
  (exists x, add234 sample_sorted 45 = Ok (Some x, sample_sorted) /\
     x ∈ elements sample_sorted /\ 45 - x = 0) \/
  (exists t' l1 l2, add234 sample_sorted 45 = Ok (Some 45, t') /\ wf_tree t' /\
     cmp t' = Some Z.sub /\ elements sample_sorted = l1 ++ l2 /\
     elements t' = l1 ++ 45 :: l2 /\ sorted_by Z.sub (elements t') /\
     (forall x, x ∈ elements sample_sorted -> 45 - x <> 0)).
Proof.
  apply (add234_sorted Z.sub sample_sorted 45);
    [apply sample_sorted_wf|reflexivity|apply sample_sorted_by].
Defined.

(** ** Lookup and count *)

(** [count234] is the length of the represented list and [index234] reads
    it: the element at the index when it is in range, null otherwise. *)
Theorem index234_reads {A} (t : tree234 A) i :
  wf_tree t ->
  count234 t = Z.of_nat (length (elements t)) /\
  index234 t i = if decide (0 <= i) then elements t !! Z.to_nat i else None.
Proof. split; [by apply count234_elements|by apply index234_ok]. Qed.

Lemma index234_reads_witness :
  count234 sample = 11 /\ index234 sample 4 = Some 50.
Proof. apply (index234_reads sample 4). apply sample_wf. Defined.

(** ** Deletion *)

(** C24. On a well-formed tree, [delpos234] at an index in range always
    succeeds: it returns the element at that index, keeps the tree well-formed
    and removes exactly that element from the represented list. *)
Theorem delpos234_removes {A} (t : tree234 A) i :
  wf_tree t -> 0 <= i < count234 t ->
  exists x t', elements t !! Z.to_nat i = Some x /\
    delpos234 t i = Ok (Some x, t') /\ wf_tree t' /\ cmp t' = cmp t /\
    elements t' = delete (Z.to_nat i) (elements t).
Proof.
  intros Ht Hi. pose proof Ht as [h Hwf]. unfold delpos234.
  rewrite count234_elements in Hi by done.
  rewrite (wf_count _ _ Hwf : _ = Z.of_nat (length (elements t))).
  rewrite (proj2 (Z.ltb_ge i 0)), (proj2 (Z.leb_gt _ _)) by lia. cbn [orb].
  destruct (lookup_lt_is_Some_2 (elements t) (Z.to_nat i)) as [x Hx]; [lia|].
  pose proof (list_elem_of_split_length _ _ _ Hx) as (X & Y & HL & HX).
  destruct (delpos234_internal_ok _ _ _ _ Ht HL) as (t' & Hd & Hw & Hc & Hl).
  rewrite <-HX, Z2Nat.id in Hd by lia.
  exists x, t'. repeat (split; [done|]). by rewrite Hl, HL, HX, delete_middle.
Qed.

Lemma delpos234_removes_witness :
  exists x t', elements sample !! 3%nat = Some x /\
    delpos234 sample 3 = Ok (Some x, t') /\ wf_tree t' /\ cmp t' = cmp sample /\
    elements t' = [10; 20; 30; 50; 60; 70; 80; 90; 100; 110].
Proof.
  apply (delpos234_removes sample 3); [apply sample_wf|].
  vm_compute; split; [discriminate|reflexivity].
Defined.

(** ** Search *)

(** C25. [findrelpos234] returns what tree234.h documents, with the index, where at
    most one element compares equal to the query, as in a tree sorted by the
    comparison, and for EQ, LT and GT in any case: the greatest element in the
    relation for LT and LE, the smallest for GT and GE, an equal one for EQ, and null
    when there is none; a null query with LT or GT gives the last or the first
    element.  The comparison may be asymmetric, but its sign never grows along the
    tree.  Where several elements compare equal, LE and GE return one of them, not
    necessarily the greatest or the smallest as documented.  The search always
    terminates. *)
Theorem findrelpos234_contract {A} (t : tree234 A) e c0 c r :
  wf_tree t -> (e <> None \/ equal_permitted r = false) ->
  (match c0 with Some c' => Some c' | None => cmp t end) = Some c ->
  mono (query e c r) (elements t) ->
  exists out, findrelpos234 t e c0 r = Ok out /\
    find_spec (elements t) (query e c r) r out /\
    (one_equal (query e c r) (elements t) \/ equal_permitted r = false \/ r = REL234_EQ ->
     documented (elements t) (query e c r) r out).
Proof.
  intros Ht He Hc Hm. destruct (findrelpos234_ok t e c0 c r Ht He Hc Hm) as (out & E & Hs).
  exists out. split; [done|]. split; [done|]. by apply find_spec_documented.
Qed.

Lemma findrelpos234_contract_witness :
  exists out, findrelpos234 sample_sorted (Some 45) None REL234_GE = Ok out /\
    documented (elements sample_sorted) (query (Some 45) Z.sub REL234_GE) REL234_GE out.
Proof.
  destruct (findrelpos234_contract sample_sorted (Some 45) None Z.sub REL234_GE)
    as (out & E & _ & Hd); [apply sample_sorted_wf|left; discriminate|reflexivity| |].
  - repeat constructor; discriminate.
  - exists out. split; [exact E|]. apply Hd. left.
    apply (sorted_one_equal Z.sub 45). apply sample_sorted_by.
Defined.

(** A comparison with a range of numbers, for which several elements are equal. *)
Definition cmp_range (e x : Z) : Z := if x <? e then 1 else if x <=? e + 30 then 0 else -1.

(** 40, 50, 60 and 70 compare equal; neither LE nor GE finds the one documented. *)
Example several_equal_elements :
  findrelpos234 sample_sorted (Some 40) (Some cmp_range) REL234_LE = Ok (Some (60, 5)) /\
  findrelpos234 sample_sorted (Some 40) (Some cmp_range) REL234_GE = Ok (Some (60, 5)) /\
  mono (query (Some 40) cmp_range REL234_LE) (elements sample_sorted) /\
  cmp_range 40 40 = 0 /\ cmp_range 40 70 = 0.
Proof. split_and!; try (vm_compute; reflexivity). repeat constructor; apply Z.leb_le; vm_compute; reflexivity. Qed.

(** On a well-formed sorted tree, [del234] removes exactly the element that
    compares equal to its argument and returns it, or returns null and leaves
    the tree alone when no element does. *)
Theorem del234_removes {A} (c : A -> A -> Z) `{!Comparator c} (t : tree234 A) e :
  wf_tree t -> cmp t = Some c -> sorted_by c (elements t) ->
  (exists X x Y t', elements t = X ++ x :: Y /\ c e x = 0 /\
     del234 t e = Ok (Some x, t') /\ wf_tree t' /\ cmp t' = Some c /\
     elements t' = X ++ Y) \/
  (del234 t e = Ok (None, t) /\ forall x, x ∈ elements t -> c e x <> 0).
Proof. by apply del234_ok. Qed.

Lemma del234_removes_witness :
  (exists X x Y t', elements sample_sorted = X ++ x :: Y /\ 60 - x = 0 /\
     del234 sample_sorted 60 = Ok (Some x, t') /\ wf_tree t' /\ cmp t' = Some Z.sub /\
     elements t' = X ++ Y) \/
  (del234 sample_sorted 60 = Ok (None, sample_sorted) /\
     forall x, x ∈ elements sample_sorted -> 60 - x <> 0).
Proof.
  apply (del234_removes Z.sub sample_sorted 60);
    [apply sample_sorted_wf|reflexivity|apply sample_sorted_by].
Defined.

(** The height of a well-formed tree is logarithmic: [2^h - 1] to [4^h - 1]
    elements at height [h], so a descent takes at most [log2 (count + 1)]
    steps. *)
Theorem height_logarithmic {A} (t : tree234 A) :
  wf_tree t ->
  2 ^ Z.of_nat (height (root t)) <= count234 t + 1 <= 4 ^ Z.of_nat (height (root t)).
Proof.
  intros Ht. rewrite count234_elements by done. destruct Ht as [h Hwf].
  rewrite (wf_height _ _ Hwf). by apply wf_size_bounds.
Qed.

Lemma height_logarithmic_witness :
  2 ^ Z.of_nat (height (root sample)) <= count234 sample + 1
    <= 4 ^ Z.of_nat (height (root sample)).
Proof. apply (height_logarithmic sample). apply sample_wf. Defined.

(** The upper bound on the index of [addpos234] is not checked: one past
    the last valid index, on a tree whose root is a 2-node with children, the
    call reports success but the whole right subtree is lost from the tree. *)
Theorem addpos234_past_end_drops_subtree {A} h (t : tree234 A) e k0 k1 c0 c1 x :
  wf (S h) (root t) -> h <> 0%nat -> cmp t = None ->
  root t = Node k0 k1 NULL NULL c0 c1 0 0 (Some x) None None ->
  exists t', addpos234 t e (count234 t + 1) = Ok (Some e, t') /\
    elements t = to_list k0 ++ x :: to_list k1 /\
    elements t' = to_list k0 ++ [x; e].
Proof. apply addpos234_past_end_ok. Qed.

Definition sample_2node : tree234 Z := Eval vm_compute in build [10; 20; 30; 40] (newtree234 None).

Lemma addpos234_past_end_witness :
  exists t', addpos234 sample_2node 99 (count234 sample_2node + 1) = Ok (Some 99, t') /\
    elements sample_2node = [10; 20; 30; 40] /\ elements t' = [10; 20; 30; 99].
Proof.
  apply (addpos234_past_end_drops_subtree 1 sample_2node 99
    (kid (root sample_2node) 0) (kid (root sample_2node) 1) 2 1 30);
    [repeat constructor|discriminate|reflexivity|reflexivity].
Defined.
