(* ===== verification/MpintCore.v ===== *)
(** * Multiprecision integers: representation and basic operations
    ([libs/putty/crypto/mpint.c], [mpint_i.h]) *)

From S2P Require Import Prelude.

Local Open Scope Z_scope.

(** ** Machine words *)

(** The build defines [MPEXT], so [mpint_i.h] selects the 32-bit [BignumInt]
    with a 64-bit [BignumDblInt]. *)
Definition BIGNUM_INT_BITS_BITS : Z := 5.
Definition BIGNUM_INT_BITS : Z := 32.
Definition BIGNUM_INT_BYTES : Z := 4.
Notation B := (2 ^ 32).
Definition BIGNUM_INT_MASK : Z := B - 1.

Definition w32 (x : Z) : Z := x mod 2 ^ 32.
Definition w64 (x : Z) : Z := x mod 2 ^ 64.

Definition is_word (x : Z) : Prop := 0 <= x < B.

(** [BignumADC(ret, retc, a, b, c)]: the pair [(ret, retc)]. *)
Definition BignumADC (a b c : Z) : Z * Z :=
  let ADC_temp := w64 (w64 (a + b) + c) in
  (w32 ADC_temp, w32 (Z.shiftr ADC_temp BIGNUM_INT_BITS)).

(** [BignumMULADD(rh, rl, a, b, addend)]: the pair [(rh, rl)]. *)
Definition BignumMULADD (a b addend : Z) : Z * Z :=
  let MUL_temp := w64 (w64 (a * b) + addend) in
  (w32 (Z.shiftr MUL_temp BIGNUM_INT_BITS), w32 MUL_temp).

(** [BignumMULADD2(rh, rl, a, b, addend1, addend2)]: the pair [(rh, rl)]. *)
Definition BignumMULADD2 (a b addend1 addend2 : Z) : Z * Z :=
  let MUL_temp := w64 (w64 (w64 (a * b) + addend1) + addend2) in
  (w32 (Z.shiftr MUL_temp BIGNUM_INT_BITS), w32 MUL_temp).

(** ** Numbers *)

(** An [mp_int]: its words, least significant first.  [nw] is the length. *)
Abbreviation mp_int := (list Z).

Definition mp_word (x : mp_int) (i : nat) : Z := default 0 (x !! i).

(** A loop [for (i = 0; i < nw; i++) w[i] = f(i)]. *)
Definition fill (nw : nat) (f : nat -> Z) : mp_int := f <$> seq 0 nw.

Definition mp_make_sized (nw : nat) : res mp_int :=
  c_assert (0 <? nw)%nat (Ok (replicate nw 0)).

Definition mp_new (maxbits : Z) : res mp_int :=
  mp_make_sized (Z.to_nat ((maxbits + BIGNUM_INT_BITS - 1) / BIGNUM_INT_BITS)).

(** [uintmax_t] is 64 bits wide: two words. *)
Definition mp_from_integer (n : Z) : mp_int :=
  fill 2 (fun i => w32 (Z.shiftr n (Z.of_nat i * BIGNUM_INT_BITS))).

Definition mp_max_bytes (x : mp_int) : Z := Z.of_nat (length x) * BIGNUM_INT_BYTES.
Definition mp_max_bits (x : mp_int) : Z := Z.of_nat (length x) * BIGNUM_INT_BITS.

(** [mp_copy_into(dest, src)], for a destination of [nw] words. *)
Definition mp_copy_into (nw : nat) (src : mp_int) : mp_int :=
  let copy_nw := (nw `min` length src)%nat in
  take copy_nw src ++ replicate (nw - copy_nw) 0.

Definition mp_resize (mp : mp_int) (newmaxbits : Z) : res mp_int :=
  match mp_new newmaxbits with
  | Crash f => Crash f
  | Ok copy => Ok (mp_copy_into (length copy) mp)
  end.

(** [shift_right_by_one_word] and [shift_left_by_one_word] on [uintmax_t]. *)
Definition shift_right_by_one_word (n : Z) : Z := Z.shiftr n BIGNUM_INT_BITS.
Definition shift_left_by_one_word (n : Z) : Z := w64 (Z.shiftl n BIGNUM_INT_BITS).

Fixpoint mp_copy_integer_into (nw : nat) (n : Z) : mp_int :=
  match nw with
  | O => []
  | S nw => w32 n :: mp_copy_integer_into nw (shift_right_by_one_word n)
  end.

(** [-(BignumInt)(1 & which)]: all ones or all zeroes. *)
Definition mask_of (which : Z) : Z := w32 (- Z.land 1 which).

Definition mp_select_into (nw : nat) (src0 src1 : mp_int) (which : Z) : mp_int :=
  fill nw (fun i =>
    let srcword0 := mp_word src0 i in
    let srcword1 := mp_word src1 i in
    Z.lxor srcword0 (Z.land (Z.lxor srcword1 srcword0) (mask_of which))).

(** [mp_cond_swap]: the pair of the two numbers afterwards. *)
Definition mp_cond_swap (x0 x1 : mp_int) (swap : Z) : res (mp_int * mp_int) :=
  c_assert (length x0 =? length x1)%nat
  (Ok (let diff i := Z.land (Z.lxor (mp_word x0 i) (mp_word x1 i)) (mask_of swap) in
       (fill (length x0) (fun i => Z.lxor (mp_word x0 i) (diff i)),
        fill (length x0) (fun i => Z.lxor (mp_word x1 i) (diff i))))).

Definition mp_clear (x : mp_int) : mp_int := replicate (length x) 0.

Definition mp_cond_clear (x : mp_int) (clear : Z) : mp_int :=
  let mask := w32 (Z.lnot (mask_of clear)) in
  (fun w => Z.land w mask) <$> x.

Definition mp_get_byte (x : mp_int) (byte : nat) : Z :=
  Z.land 255 (Z.shiftr (mp_word x (byte / 4)) (8 * Z.of_nat (byte mod 4))).

Definition mp_get_bit (x : mp_int) (bit : nat) : Z :=
  Z.land 1 (Z.shiftr (mp_word x (bit / 32)) (Z.of_nat (bit mod 32))).

Definition mp_get_integer (x : mp_int) : Z :=
  fold_right (fun w toret => Z.lor (shift_left_by_one_word toret) w) 0 x.

Definition mp_set_bit (x : mp_int) (bit : nat) (val : Z) : res mp_int :=
  let word := (bit / 32)%nat in
  c_assert (word <? length x)%nat
  (Ok (let shift := Z.of_nat (bit mod 32) in
       let w := Z.land (mp_word x word) (w32 (Z.lnot (Z.shiftl 1 shift))) in
       <[word := Z.lor w (w32 (Z.shiftl (Z.land val 1) shift))]> x)).

Definition normalise_to_1 (n : Z) : Z :=
  let n := Z.lor (Z.shiftr n 1) (Z.land n 1) in
  Z.shiftr (w32 (- n)) (BIGNUM_INT_BITS - 1).

(** ** The value of a number *)

Fixpoint val (x : mp_int) : Z :=
  match x with [] => 0 | w :: x => w + B * val x end.

Definition wordsOK (x : mp_int) : Prop := Forall is_word x.

(** [B ^ n]. *)
Notation Bp n := (2 ^ (32 * Z.of_nat n)).

Lemma Bp_S n : Bp (S n) = B * Bp n.
Proof. rewrite <-Z.pow_add_r by lia. f_equal. lia. Qed.

Lemma Bp_pos n : 0 < Bp n.
Proof. apply Z.pow_pos_nonneg; lia. Qed.

(** [lia] with the positivity of the powers of [B] in sight. *)
Ltac bp_facts :=
  repeat match goal with
  | |- context [2 ^ (32 * Z.of_nat ?n)] =>
      lazymatch goal with H : 0 < 2 ^ (32 * Z.of_nat n) |- _ => fail | _ => pose proof (Bp_pos n) end
  | _ : context [2 ^ (32 * Z.of_nat ?n)] |- _ =>
      lazymatch goal with H : 0 < 2 ^ (32 * Z.of_nat n) |- _ => fail | _ => pose proof (Bp_pos n) end
  end.
Ltac bplia := bp_facts; lia.
Ltac bpnia := bp_facts; nia.

Lemma Bp_add n m : Bp (n + m) = Bp n * Bp m.
Proof. rewrite <-Z.pow_add_r by lia. f_equal. lia. Qed.

#[export] Hint Resolve Bp_pos : cmodel.

Lemma w32_range x : is_word (w32 x).
Proof. unfold is_word, w32. by apply Z.mod_pos_bound. Qed.

Lemma w32_small x : is_word x -> w32 x = x.
Proof. unfold is_word, w32. intros. apply Z.mod_small. lia. Qed.

Lemma w64_small x : 0 <= x < 2 ^ 64 -> w64 x = x.
Proof. apply Z.mod_small. Qed.

Lemma BignumADC_spec a b c :
  is_word a -> is_word b -> 0 <= c <= 1 ->
  exists r c', BignumADC a b c = (r, c') /\ is_word r /\ 0 <= c' <= 1 /\
    r + B * c' = a + b + c.
Proof.
  unfold BignumADC, is_word. intros Ha Hb Hc.
  rewrite (w64_small (a + b)), w64_small by lia. unfold w32, BIGNUM_INT_BITS.
  rewrite Z.shiftr_div_pow2 by lia.
  do 2 eexists. split; [done|]. Z.div_mod_to_equations. lia.
Qed.

Lemma BignumMULADD2_spec a b c d :
  is_word a -> is_word b -> is_word c -> is_word d ->
  exists h l, BignumMULADD2 a b c d = (h, l) /\ is_word h /\ is_word l /\
    l + B * h = a * b + c + d.
Proof.
  unfold BignumMULADD2, is_word. intros Ha Hb Hc Hd.
  assert (0 <= a * b <= (2 ^ 32 - 1) * (2 ^ 32 - 1)) by nia.
  rewrite (w64_small (a * b)), (w64_small (a * b + c)), w64_small by lia.
  unfold w32, BIGNUM_INT_BITS. rewrite Z.shiftr_div_pow2 by lia.
  do 2 eexists. split; [done|].
  pose proof (Z.div_mod (a * b + c + d) (2 ^ 32)).
  pose proof (Z.mod_pos_bound (a * b + c + d) (2 ^ 32)).
  assert (0 <= (a * b + c + d) / 2 ^ 32 < 2 ^ 32) by (split; [apply Z.div_pos|apply Z.div_lt_upper_bound]; lia).
  rewrite (Z.mod_small (_ / _)) by lia. lia.
Qed.

Lemma BignumMULADD_spec a b c :
  is_word a -> is_word b -> is_word c ->
  exists h l, BignumMULADD a b c = (h, l) /\ is_word h /\ is_word l /\
    l + B * h = a * b + c.
Proof.
  intros Ha Hb Hc. destruct (BignumMULADD2_spec a b c 0) as (h & l & E & H1 & H2 & H3);
    [done..|unfold is_word; lia|].
  exists h, l. split; [|split; [done|split; [done|lia]]].
  unfold BignumMULADD2, BignumMULADD in *. rewrite <-E. unfold w64.
  by rewrite Z.add_0_r, Z.mod_mod by lia.
Qed.

(** ** Values *)

Lemma val_app x y : val (x ++ y) = val x + Bp (length x) * val y.
Proof.
  induction x as [|w x IH]; cbn [val app length]; [lia|]. rewrite IH, Bp_S. lia.
Qed.

Lemma val_bound x : wordsOK x -> 0 <= val x < Bp (length x).
Proof.
  induction 1 as [|w x Hw _ IH]; cbn [val length]; [done|].
  rewrite Bp_S. unfold is_word in Hw. bpnia.
Qed.

Lemma val_replicate_0 n : val (replicate n 0) = 0.
Proof. induction n; cbn; lia. Qed.

Lemma wordsOK_replicate_0 n : wordsOK (replicate n 0).
Proof. apply Forall_replicate. unfold is_word. lia. Qed.

Lemma wordsOK_app x y : wordsOK (x ++ y) <-> wordsOK x /\ wordsOK y.
Proof. apply Forall_app. Qed.

Lemma wordsOK_take n x : wordsOK x -> wordsOK (take n x).
Proof. apply Forall_take. Qed.

Lemma wordsOK_drop n x : wordsOK x -> wordsOK (drop n x).
Proof. apply Forall_drop. Qed.

Lemma mp_word_range x i : wordsOK x -> is_word (mp_word x i).
Proof.
  intros Hx. unfold mp_word. destruct (x !! i) as [w|] eqn:E; cbn; [|unfold is_word; lia].
  by eapply (proj1 (Forall_lookup _ _) Hx).
Qed.

#[export] Hint Resolve w32_range wordsOK_replicate_0 wordsOK_take wordsOK_drop mp_word_range : cmodel.

Lemma length_fill n f : length (fill n f) = n.
Proof. unfold fill. by rewrite length_fmap, length_seq. Qed.

Lemma fill_S n f : fill (S n) f = f 0%nat :: fill n (fun i => f (S i)).
Proof. unfold fill. cbn. f_equal. rewrite <-fmap_S_seq, <-list_fmap_compose. done. Qed.

Lemma fill_snoc n f : fill (S n) f = fill n f ++ [f n].
Proof. unfold fill. rewrite seq_S, fmap_app. done. Qed.

Lemma fill_ext n f g : (forall i, (i < n)%nat -> f i = g i) -> fill n f = fill n g.
Proof.
  intros H. unfold fill. apply list_fmap_ext. intros i x Hx.
  apply lookup_seq in Hx as [-> ?]. by apply H.
Qed.

Lemma lookup_fill n f i : (i < n)%nat -> fill n f !! i = Some (f i).
Proof. intros. unfold fill. rewrite list_lookup_fmap, lookup_seq_lt by done. done. Qed.

Lemma mp_word_fill n f i : mp_word (fill n f) i = if decide (i < n)%nat then f i else 0.
Proof.
  unfold mp_word. case_decide; [by rewrite lookup_fill|].
  by rewrite lookup_ge_None_2 by (rewrite length_fill; lia).
Qed.

Lemma wordsOK_fill n f : (forall i, (i < n)%nat -> is_word (f i)) -> wordsOK (fill n f).
Proof.
  intros H. apply Forall_forall. intros w Hw. unfold fill in Hw.
  apply list_elem_of_fmap in Hw as (i & -> & Hi%elem_of_seq). apply H. lia.
Qed.

Lemma fill_words x : fill (length x) (mp_word x) = x.
Proof.
  induction x as [|w x IH]; [done|]. cbn [length]. rewrite fill_S. cbn. f_equal. exact IH.
Qed.

(** Reading the first [n] words of a number, zero past its end, is reduction
    modulo [B^n]. *)
Lemma val_fill_words n : forall x, wordsOK x -> val (fill n (mp_word x)) = val x mod Bp n.
Proof.
  induction n as [|n IH]; intros x Hx; [cbn; by rewrite Z.mod_1_r|].
  rewrite fill_S, Bp_S. cbn [val].
  destruct x as [|w x].
  - rewrite (fill_ext n _ (mp_word [])) by done. rewrite IH by constructor. cbn [val].
    rewrite !Z.mod_0_l by bplia. done.
  - rewrite (fill_ext n _ (mp_word x)) by done.
    inversion Hx as [|? ? Hw Hx']; subst. rewrite IH by done. cbn [val].
    rewrite Z.rem_mul_r by bplia. unfold is_word in Hw.
    change (mp_word (w :: x) 0) with w.
    rewrite (Z.mul_comm (2 ^ 32) (val x)), Z.mod_add, Z.div_add by lia.
    by rewrite (Z.mod_small w), (Z.div_small w), Z.add_0_l by lia.
Qed.

Lemma val_inj x : forall y, wordsOK x -> wordsOK y -> length x = length y -> val x = val y -> x = y.
Proof.
  induction x as [|w x IH]; intros [|w' y] Hx Hy Hl Hv; try done.
  inversion Hx; inversion Hy; subst. cbn [val] in Hv. unfold is_word in *.
  assert (w = w' /\ val x = val y) as [-> ?] by (pose proof (Z.mod_add w (val x) B); nia).
  f_equal. apply IH; auto.
Qed.

Lemma val_fill_ge n x : wordsOK x -> (length x <= n)%nat -> val (fill n (mp_word x)) = val x.
Proof.
  intros Hx Hn. rewrite val_fill_words by done. apply Z.mod_small.
  pose proof (val_bound x Hx). split; [lia|].
  apply Z.lt_le_trans with (Bp (length x)); [lia|]. apply Z.pow_le_mono_r; lia.
Qed.

Lemma val_take_mod n x : wordsOK x -> val (take n x) = val x mod Bp n.
Proof.
  intros Hx. destruct (Nat.le_gt_cases n (length x)) as [Hn|Hn].
  - rewrite <-(take_drop n x) at 2. rewrite val_app, length_take_le by done.
    rewrite Z.mul_comm, Z.mod_add by bplia. rewrite Z.mod_small; [done|].
    pose proof (val_bound (take n x) ltac:(auto with cmodel)). rewrite length_take_le in H by done. lia.
  - rewrite take_ge by lia. rewrite Z.mod_small; [done|].
    pose proof (val_bound x Hx). split; [lia|].
    apply Z.lt_le_trans with (Bp (length x)); [lia|]. apply Z.pow_le_mono_r; lia.
Qed.

Lemma val_drop_div n x : wordsOK x -> val (drop n x) = val x / Bp n.
Proof.
  intros Hx. pose proof (Z.div_mod (val x) (Bp n)) as Hd.
  rewrite <-val_take_mod in Hd by done.
  destruct (Nat.le_gt_cases n (length x)) as [Hn|Hn].
  - rewrite <-(take_drop n x) in Hd at 1. rewrite val_app, length_take_le in Hd by done. bpnia.
  - rewrite drop_ge, take_ge in * by lia. cbn. bpnia.
Qed.

Lemma mp_word_val x i : wordsOK x -> mp_word x i = (val x / Bp i) mod B.
Proof.
  intros Hx. rewrite <-val_drop_div by done.
  assert (mp_word x i = mp_word (drop i x) 0) as ->.
  { unfold mp_word. by rewrite lookup_drop, Nat.add_0_r. }
  assert (wordsOK (drop i x)) as Hd by auto with cmodel.
  destruct (drop i x) as [|w y]; [done|]. cbn [val mp_word].
  inversion Hd; subst. change (mp_word (w :: y) 0) with w.
  unfold is_word in *. rewrite Z.mul_comm, Z.mod_add, Z.mod_small by lia. done.
Qed.

(** Bit [32 i + j] of the value is bit [j] of word [i]. *)
Lemma val_testbit x i j : wordsOK x -> 0 <= j < 32 ->
  Z.testbit (val x) (32 * Z.of_nat i + j) = Z.testbit (mp_word x i) j.
Proof.
  intros Hx Hj. rewrite mp_word_val, Z.mod_pow2_bits_low by (done || lia).
  rewrite Z.div_pow2_bits by lia. f_equal. lia.
Qed.

(** ** Updating a word *)

Lemma val_insert x k v : (k < length x)%nat -> val (<[k := v]> x) = val x + Bp k * (v - mp_word x k).
Proof.
  revert k. induction x as [|w x IH]; intros k Hk; cbn [length] in Hk; [lia|].
  destruct k as [|k].
  - change (<[0%nat := v]> (w :: x)) with (v :: x). cbn [val]. change (mp_word (w :: x) 0) with w.
    change (Bp 0) with 1. lia.
  - change (<[S k := v]> (w :: x)) with (w :: <[k := v]> x). cbn [val]. rewrite IH, Bp_S by lia.
    change (mp_word (w :: x) (S k)) with (mp_word x k). lia.
Qed.

Lemma wordsOK_insert x k v : wordsOK x -> is_word v -> wordsOK (<[k := v]> x).
Proof. intros Hx Hv. by apply Forall_insert. Qed.

(** ** Masks, selection and swapping *)

Lemma land_1_odd x : Z.land 1 x = if Z.odd x then 1 else 0.
Proof.
  rewrite Z.land_comm. change 1 with (Z.ones 1) at 1. rewrite Z.land_ones by lia.
  rewrite Zmod_odd. by destruct (Z.odd x).
Qed.

Lemma mask_of_odd which : mask_of which = if Z.odd which then B - 1 else 0.
Proof. unfold mask_of. rewrite land_1_odd. by destruct (Z.odd which). Qed.

Lemma land_mask w which : is_word w ->
  Z.land w (mask_of which) = if Z.odd which then w else 0.
Proof.
  intros Hw. rewrite mask_of_odd. destruct (Z.odd which); [|apply Z.land_0_r].
  by apply land_ones_small.
Qed.

Lemma is_word_lxor x y : is_word x -> is_word y -> is_word (Z.lxor x y).
Proof. apply lxor_bound. lia. Qed.

Lemma is_word_land x y : is_word x -> is_word (Z.land x y).
Proof. apply land_bound_l. lia. Qed.

Lemma is_word_lor x y : is_word x -> is_word y -> is_word (Z.lor x y).
Proof. apply lor_bound. lia. Qed.

Lemma is_word_mask which : is_word (mask_of which).
Proof. apply w32_range. Qed.

#[export] Hint Resolve is_word_lxor is_word_land is_word_lor is_word_mask : cmodel.

(** Masked selection is selection. *)
Lemma select_word a b which : is_word a -> is_word b ->
  Z.lxor a (Z.land (Z.lxor b a) (mask_of which)) = if Z.odd which then b else a.
Proof.
  intros Ha Hb. rewrite land_mask by auto with cmodel. destruct (Z.odd which).
  - by rewrite Z.lxor_comm, Z.lxor_assoc, Z.lxor_nilpotent, Z.lxor_0_r.
  - apply Z.lxor_0_r.
Qed.

Lemma mp_select_into_eq nw src0 src1 which :
  wordsOK src0 -> wordsOK src1 ->
  mp_select_into nw src0 src1 which = fill nw (mp_word (if Z.odd which then src1 else src0)).
Proof.
  intros H0 H1. apply fill_ext. intros i _. rewrite select_word by auto with cmodel.
  by destruct (Z.odd which).
Qed.

Lemma mp_cond_swap_eq x0 x1 swap :
  wordsOK x0 -> wordsOK x1 -> length x0 = length x1 ->
  mp_cond_swap x0 x1 swap = Ok (if Z.odd swap then (x1, x0) else (x0, x1)).
Proof.
  intros H0 H1 Hl. unfold mp_cond_swap. rewrite Hl, Nat.eqb_refl. cbn [c_assert].
  f_equal.
  assert (forall i, Z.lxor (mp_word x0 i) (Z.land (Z.lxor (mp_word x0 i) (mp_word x1 i)) (mask_of swap))
    = mp_word (if Z.odd swap then x1 else x0) i) as E0.
  { intros i. rewrite (Z.lxor_comm (mp_word x0 i) (mp_word x1 i)).
    rewrite select_word by auto with cmodel. by destruct (Z.odd swap). }
  assert (forall i, Z.lxor (mp_word x1 i) (Z.land (Z.lxor (mp_word x0 i) (mp_word x1 i)) (mask_of swap))
    = mp_word (if Z.odd swap then x0 else x1) i) as E1.
  { intros i. rewrite select_word by auto with cmodel. by destruct (Z.odd swap). }
  rewrite (fill_ext _ _ _ (fun i _ => E0 i)), (fill_ext _ _ _ (fun i _ => E1 i)).
  destruct (Z.odd swap); f_equal; rewrite <-?Hl; try apply fill_words;
    rewrite ?Hl; apply fill_words.
Qed.

Lemma mp_cond_clear_eq x clear :
  wordsOK x -> mp_cond_clear x clear = if Z.odd clear then replicate (length x) 0 else x.
Proof.
  intros Hx. unfold mp_cond_clear. rewrite mask_of_odd.
  destruct (Z.odd clear).
  - change (w32 (Z.lnot (B - 1))) with 0. rewrite <-const_fmap with (f := fun _ => 0) by done.
    apply list_fmap_ext. intros. apply Z.land_0_r.
  - change (w32 (Z.lnot 0)) with (B - 1).
    rewrite <-(list_fmap_id x) at 2. apply list_fmap_ext. intros i w Hw. cbn.
    apply (land_ones_small 32). by eapply (proj1 (Forall_lookup _ _) Hx).
Qed.

Lemma mp_copy_into_eq nw src : mp_copy_into nw src = fill nw (mp_word src).
Proof.
  unfold mp_copy_into. apply list_eq. intros i.
  destruct (Nat.lt_ge_cases i nw) as [Hi|Hi].
  - rewrite lookup_fill by done. unfold mp_word.
    destruct (Nat.lt_ge_cases i (length src)) as [Hs|Hs].
    + rewrite lookup_app_l by (rewrite length_take; lia). rewrite lookup_take_lt by lia.
      destruct (lookup_lt_is_Some_2 src i Hs) as [w ->]. done.
    + rewrite lookup_app_r by (rewrite length_take; lia).
      rewrite lookup_replicate_2 by (rewrite length_take; lia).
      by rewrite lookup_ge_None_2 by done.
  - rewrite !lookup_ge_None_2; [done|rewrite length_fill; lia|].
    rewrite length_app, length_take, length_replicate. lia.
Qed.

Lemma normalise_to_1_spec n : is_word n -> normalise_to_1 n = if n =? 0 then 0 else 1.
Proof.
  intros Hn. unfold normalise_to_1, is_word, BIGNUM_INT_BITS, w32 in *.
  set (m := Z.lor (Z.shiftr n 1) (Z.land n 1)).
  assert (0 <= m < 2 ^ 31) as Hm.
  { apply lor_bound; [lia| |].
    - rewrite Z.shiftr_div_pow2 by lia. Z.div_mod_to_equations. lia.
    - rewrite Z.land_comm, land_1_odd. destruct (Z.odd n); lia. }
  assert (m = 0 <-> n = 0) as Hiff.
  { unfold m. rewrite Z.lor_eq_0_iff, Z.land_comm, land_1_odd.
    rewrite Z.shiftr_div_pow2 by lia. change (2 ^ 1) with 2.
    pose proof (Z.div_mod n 2). pose proof (Zmod_odd n). destruct (Z.odd n); lia. }
  change (32 - 1) with 31. rewrite Z.shiftr_div_pow2 by lia.
  destruct (Z.eqb_spec n 0) as [Hn0|Hn0].
  - by replace m with 0 by (symmetry; by apply Hiff).
  - rewrite Z_mod_nz_opp_full by (rewrite Z.mod_small; lia).
    rewrite (Z.mod_small m) by lia. symmetry. apply Z.div_unique with (2 ^ 31 - m); lia.
Qed.
