(* ===== verification/MpintArith.v ===== *)
(** * Multiprecision integers: addition, subtraction, comparison, bitwise
    operations, multiplication ([libs/putty/crypto/mpint.c]) *)

From S2P Require Import Prelude MpintCore.

Local Open Scope Z_scope.
Local Open Scope cmodel_scope.

(** ** Addition with masks *)

(** [mp_add_masked_into]: the words written and the final carry.  [n] words
    are left, starting at index [i]. *)
Fixpoint mp_add_masked_loop (n i : nat) (a b : mp_int) (b_and b_xor carry : Z)
    : mp_int * Z :=
  match n with
  | O => ([], carry)
  | S n =>
      let aword := mp_word a i in
      let bword := Z.lxor (Z.land (mp_word b i) b_and) b_xor in
      let '(out, carry) := BignumADC aword bword carry in
      let '(rest, carry) := mp_add_masked_loop n (S i) a b b_and b_xor carry in
      (out :: rest, carry)
  end.

Definition mp_add_masked_into (rw : nat) (a b : mp_int) (b_and b_xor carry : Z) : mp_int * Z :=
  mp_add_masked_loop rw 0 a b b_and b_xor carry.

(** [~(BignumInt)0]. *)
Definition ones : Z := w32 (Z.lnot 0).

(** The destination of the [_into] functions has [nw] words; it may be the
    same object as an operand, because each round reads the operands' words at
    its index before it writes that index. *)
Definition mp_add_into_internal (nw : nat) (a b : mp_int) : mp_int * Z :=
  mp_add_masked_into nw a b ones 0 0.

Definition mp_add_into (nw : nat) (a b : mp_int) : mp_int :=
  fst (mp_add_into_internal nw a b).

Definition mp_sub_into (nw : nat) (a b : mp_int) : mp_int :=
  fst (mp_add_masked_into nw a b ones ones 1).

Definition mp_cond_add_into (nw : nat) (a b : mp_int) (yes : Z) : mp_int :=
  fst (mp_add_masked_into nw a b (mask_of yes) 0 0).

Definition mp_cond_sub_into (nw : nat) (a b : mp_int) (yes : Z) : mp_int :=
  fst (mp_add_masked_into nw a b (mask_of yes) (mask_of yes) (Z.land 1 (mask_of yes))).

Definition mp_cmp_hs (a b : mp_int) : Z :=
  snd (mp_add_masked_into (length a `max` length b) a b ones ones 1).

Definition mp_neg_into (nw : nat) (a : mp_int) : mp_int := mp_sub_into nw [] a.

Definition mp_add (x y : mp_int) : res mp_int :=
  let! r := mp_make_sized (length x `max` length y + 1) in
  Ok (mp_add_into (length r) x y).

Definition mp_sub (x y : mp_int) : res mp_int :=
  let! r := mp_make_sized (length x `max` length y) in
  Ok (mp_sub_into (length r) x y).

(** ** Bitwise operations *)

Definition mp_and_into (nw : nat) (a b : mp_int) : mp_int :=
  fill nw (fun i => Z.land (mp_word a i) (mp_word b i)).
Definition mp_or_into (nw : nat) (a b : mp_int) : mp_int :=
  fill nw (fun i => Z.lor (mp_word a i) (mp_word b i)).
Definition mp_xor_into (nw : nat) (a b : mp_int) : mp_int :=
  fill nw (fun i => Z.lxor (mp_word a i) (mp_word b i)).
Definition mp_bic_into (nw : nat) (a b : mp_int) : mp_int :=
  fill nw (fun i => Z.land (mp_word a i) (w32 (Z.lnot (mp_word b i)))).

(** [mp_cond_negate(r, x, yes)] for [yes] 0 or 1. *)
Fixpoint mp_cond_negate_loop (n i : nat) (x : mp_int) (flip carry : Z) : mp_int :=
  match n with
  | O => []
  | S n =>
      let xword := Z.lxor (mp_word x i) flip in
      let '(out, carry) := BignumADC 0 xword carry in
      out :: mp_cond_negate_loop n (S i) x flip carry
  end.

Definition mp_cond_negate (nw : nat) (x : mp_int) (yes : Z) : mp_int :=
  mp_cond_negate_loop nw 0 x (w32 (- yes)) yes.

(** ** Operations with a C integer *)

Fixpoint mp_add_masked_integer_loop (n i : nat) (a : mp_int) (b b_and b_xor carry : Z)
    : mp_int * Z :=
  match n with
  | O => ([], carry)
  | S n =>
      let aword := mp_word a i in
      let bword := Z.land (Z.lxor (w32 b) b_xor) b_and in
      let b := shift_right_by_one_word b in
      let '(out, carry) := BignumADC aword bword carry in
      let '(rest, carry) := mp_add_masked_integer_loop n (S i) a b b_and b_xor carry in
      (out :: rest, carry)
  end.

Definition mp_add_integer_into (nw : nat) (a : mp_int) (n : Z) : mp_int :=
  fst (mp_add_masked_integer_loop nw 0 a n ones 0 0).

Definition mp_sub_integer_into (nw : nat) (a : mp_int) (n : Z) : mp_int :=
  fst (mp_add_masked_integer_loop nw 0 a n ones ones 1).

(** [mp_add_integer_into_shifted_by_words]: [a + (n << 32 word_index)].  The
    argument of [normalise_to_1] is a [size_t] cut to a [BignumInt]. *)
Fixpoint mp_add_shifted_loop (k i : nat) (a : mp_int) (n word_index indicator carry : Z) : mp_int :=
  match k with
  | O => []
  | S k =>
      let indicator :=
        Z.lor indicator (Z.lxor 1 (normalise_to_1 (w32 (Z.lxor (Z.of_nat i) word_index)))) in
      let bword := w32 (Z.land n (w32 (- indicator))) in
      let new_n := shift_right_by_one_word n in
      let n := Z.lxor n (Z.land (Z.lxor n new_n) (w64 (- indicator))) in
      let '(out, carry) := BignumADC (mp_word a i) bword carry in
      out :: mp_add_shifted_loop k (S i) a n word_index indicator carry
  end.

Definition mp_add_integer_into_shifted_by_words (nw : nat) (a : mp_int) (n word_index : Z) : mp_int :=
  mp_add_shifted_loop nw 0 a n word_index 0 0.

(** [mp_hs_integer]: is [x >= n]?  [n] takes two words. *)
Fixpoint mp_hs_integer_loop (k i : nat) (x : mp_int) (n carry : Z) : Z :=
  match k with
  | O => carry
  | S k =>
      let nword := w32 n in
      let '(_, carry) := BignumADC (mp_word x i) (w32 (Z.lnot nword)) carry in
      mp_hs_integer_loop k (S i) x (shift_right_by_one_word n) carry
  end.

Definition mp_hs_integer (x : mp_int) (n : Z) : Z :=
  mp_hs_integer_loop (length x `max` 2) 0 x n 1.

Definition mp_cmp_eq (a b : mp_int) : Z :=
  let diff := fold_left (fun diff i => Z.lor diff (Z.lxor (mp_word a i) (mp_word b i)))
                (seq 0 (length a `max` length b)) 0 in
  Z.lxor 1 (normalise_to_1 diff).

Fixpoint mp_eq_integer_loop (k i : nat) (x : mp_int) (n diff : Z) : Z :=
  match k with
  | O => diff
  | S k =>
      mp_eq_integer_loop k (S i) x (shift_right_by_one_word n)
        (Z.lor diff (Z.lxor (mp_word x i) (w32 n)))
  end.

Definition mp_eq_integer (x : mp_int) (n : Z) : Z :=
  Z.lxor 1 (normalise_to_1 (mp_eq_integer_loop (length x `max` 2) 0 x n 0)).

(** [mp_mul_integer_into], whose final [assert] is that nothing is carried off
    the top. *)
Fixpoint mp_mul_integer_loop (k i : nat) (a : mp_int) (mult carry : Z) : mp_int * Z :=
  match k with
  | O => ([], carry)
  | S k =>
      let '(carry, out) := BignumMULADD (mp_word a i) mult carry in
      let '(rest, carry) := mp_mul_integer_loop k (S i) a mult carry in
      (out :: rest, carry)
  end.

Definition mp_mul_integer_into (nw : nat) (a : mp_int) (n : Z) : res mp_int :=
  let '(r, carry) := mp_mul_integer_loop nw 0 a n 0 in
  c_assert (carry =? 0) (Ok r).

(** ** Simple multiplication *)

(** The inner loops of [mp_mul_add_simple], on the words of [r] from [rp] on:
    multiply and accumulate one word of [a], then propagate the carry. *)
Fixpoint mul_add_row (rq : mp_int) (adata : Z) (b : mp_int) (carry : Z) : mp_int :=
  match rq with
  | [] => []
  | w :: rq =>
      match b with
      | bdata :: b =>
          let '(carry, out) := BignumMULADD2 adata bdata w carry in
          out :: mul_add_row rq adata b carry
      | [] =>
          let '(out, carry) := BignumADC carry w 0 in
          out :: mul_add_row rq adata [] carry
      end
  end.

(** [mp_mul_add_simple]: [r + a * b], for each word of [a] at its place. *)
Fixpoint mp_mul_add_simple (r a b : mp_int) : mp_int :=
  match a with
  | [] => r
  | adata :: a =>
      match mul_add_row r adata b 0 with
      | [] => []
      | w :: r => w :: mp_mul_add_simple r a b
      end
  end.

(** ** The carry chain *)

(** All the additive loops are one chain of [BignumADC] over two streams of
    words. *)
Fixpoint adc_chain (n : nat) (f g : nat -> Z) (carry : Z) : mp_int * Z :=
  match n with
  | O => ([], carry)
  | S n =>
      let '(out, carry) := BignumADC (f 0%nat) (g 0%nat) carry in
      let '(rest, carry) := adc_chain n (fun i => f (S i)) (fun i => g (S i)) carry in
      (out :: rest, carry)
  end.

Lemma adc_chain_spec n : forall f g c,
  (forall i, is_word (f i)) -> (forall i, is_word (g i)) -> 0 <= c <= 1 ->
  exists r c', adc_chain n f g c = (r, c') /\ length r = n /\ wordsOK r /\ 0 <= c' <= 1 /\
    val r + Bp n * c' = val (fill n f) + val (fill n g) + c.
Proof.
  induction n as [|n IH]; intros f g c Hf Hg Hc; cbn [adc_chain].
  - exists [], c. split_and!; [done|done|constructor|lia|lia|]. cbn. lia.
  - destruct (BignumADC_spec (f 0%nat) (g 0%nat) c) as (w & c1 & -> & Hw & Hc1 & E1); [done..|].
    destruct (IH (fun i => f (S i)) (fun i => g (S i)) c1) as (r & c' & -> & Hl & Hr & Hc' & E);
      [done..|].
    exists (w :: r), c'. cbn [length val]. rewrite !fill_S, Bp_S. cbn [val].
    repeat split; try done; try lia. by constructor.
Qed.

(** What a chain computes, as quotient and remainder. *)
Lemma adc_chain_val n f g c :
  (forall i, is_word (f i)) -> (forall i, is_word (g i)) -> 0 <= c <= 1 ->
  let s := val (fill n f) + val (fill n g) + c in
  let '(r, c') := adc_chain n f g c in
  length r = n /\ wordsOK r /\ val r = s mod Bp n /\ c' = s / Bp n.
Proof.
  intros Hf Hg Hc s. destruct (adc_chain_spec n f g c) as (r & c' & -> & Hl & Hr & Hc' & E); [done..|].
  fold s in E. pose proof (val_bound r Hr) as Hb. rewrite Hl in Hb.
  split_and!; [done|done| |].
  - apply Z.mod_unique_pos with c'; lia.
  - apply Z.div_unique_pos with (val r); lia.
Qed.

Lemma adc_chain_ext n : forall f g f' g' c,
  (forall i, f i = f' i) -> (forall i, g i = g' i) -> adc_chain n f g c = adc_chain n f' g' c.
Proof.
  induction n as [|n IH]; intros f g f' g' c Hf Hg; cbn [adc_chain]; [done|].
  rewrite Hf, Hg. destruct (BignumADC _ _ _) as [out c1].
  by rewrite (IH _ _ (fun i => f' (S i)) (fun i => g' (S i))) by done.
Qed.

Lemma mp_add_masked_chain n : forall i a b b_and b_xor c,
  mp_add_masked_loop n i a b b_and b_xor c =
  adc_chain n (fun j => mp_word a (i + j)) (fun j => Z.lxor (Z.land (mp_word b (i + j)) b_and) b_xor) c.
Proof.
  induction n as [|n IH]; intros; cbn [mp_add_masked_loop adc_chain]; [done|].
  rewrite !Nat.add_0_r. destruct (BignumADC _ _ _) as [out c1]. rewrite IH.
  rewrite (adc_chain_ext n _ _ (fun j => mp_word a (i + S j))
    (fun j => Z.lxor (Z.land (mp_word b (i + S j)) b_and) b_xor)); [done|..];
    intros j; by rewrite Nat.add_succ_r.
Qed.

Lemma int_word_shift n i :
  w32 (Z.shiftr (shift_right_by_one_word n) (32 * Z.of_nat i)) = w32 (Z.shiftr n (32 * Z.of_nat (S i))).
Proof.
  unfold shift_right_by_one_word, BIGNUM_INT_BITS. rewrite Z.shiftr_shiftr by lia.
  do 2 f_equal. lia.
Qed.

Lemma mp_add_masked_integer_chain k : forall i a n b_and b_xor c,
  mp_add_masked_integer_loop k i a n b_and b_xor c =
  adc_chain k (fun j => mp_word a (i + j))
    (fun j => Z.land (Z.lxor (w32 (Z.shiftr n (32 * Z.of_nat j))) b_xor) b_and) c.
Proof.
  induction k as [|k IH]; intros; cbn [mp_add_masked_integer_loop adc_chain]; [done|].
  rewrite !Nat.add_0_r. rewrite Z.shiftr_0_r. destruct (BignumADC _ _ _) as [out c1]. rewrite IH.
  rewrite (adc_chain_ext k _ _ (fun j => mp_word a (i + S j))
    (fun j => Z.land (Z.lxor (w32 (Z.shiftr n (32 * Z.of_nat (S j)))) b_xor) b_and)); [done|..];
    intros j; by rewrite ?int_word_shift, ?Nat.add_succ_r.
Qed.

Lemma mp_hs_integer_chain k : forall i x n c,
  mp_hs_integer_loop k i x n c =
  snd (adc_chain k (fun j => mp_word x (i + j))
    (fun j => w32 (Z.lnot (w32 (Z.shiftr n (32 * Z.of_nat j))))) c).
Proof.
  induction k as [|k IH]; intros; cbn [mp_hs_integer_loop adc_chain]; [done|].
  rewrite !Nat.add_0_r, Z.shiftr_0_r. destruct (BignumADC _ _ _) as [out c1]. rewrite IH.
  rewrite (adc_chain_ext k _ _ (fun j => mp_word x (i + S j))
    (fun j => w32 (Z.lnot (w32 (Z.shiftr n (32 * Z.of_nat (S j)))))));
    [by destruct (adc_chain _ _ _ _)|..];
    intros j; by rewrite ?int_word_shift, ?Nat.add_succ_r.
Qed.

Lemma mp_cond_negate_chain k : forall i x flip c,
  mp_cond_negate_loop k i x flip c =
  fst (adc_chain k (fun _ => 0) (fun j => Z.lxor (mp_word x (i + j)) flip) c).
Proof.
  induction k as [|k IH]; intros; cbn [mp_cond_negate_loop adc_chain]; [done|].
  rewrite Nat.add_0_r. destruct (BignumADC _ _ _) as [out c1]. rewrite IH.
  rewrite (adc_chain_ext k _ _ (fun _ => 0) (fun j => Z.lxor (mp_word x (i + S j)) flip));
    [by destruct (adc_chain _ _ _ _)|..]; intros j; by rewrite ?Nat.add_succ_r.
Qed.

(** ** Streams of words *)

(** Flipping every word of a stream is subtraction from [B^n - 1]. *)
Lemma lxor_ones w : is_word w -> Z.lxor w (B - 1) = B - 1 - w.
Proof.
  intros Hw. unfold is_word in Hw.
  assert (Z.lxor w (B - 1) = Z.ldiff (B - 1) w) as ->.
  { apply Z.bits_inj'. intros i Hi. rewrite Z.lxor_spec, Z.ldiff_spec.
    change (B - 1) with (Z.ones 32). destruct (Z.lt_ge_cases i 32).
    - rewrite Z.ones_spec_low by lia. by destruct (Z.testbit w i).
    - rewrite Z.ones_spec_high by lia. by rewrite (bits_high 32) by lia. }
  symmetry. rewrite <-Z.sub_nocarry_ldiff; [lia|].
  apply Z.bits_inj'. intros i Hi. rewrite Z.ldiff_spec, Z.bits_0.
  change (B - 1) with (Z.ones 32). destruct (Z.lt_ge_cases i 32).
  - rewrite Z.ones_spec_low by lia. by rewrite andb_false_r.
  - by rewrite (bits_high 32) by lia.
Qed.

Lemma w32_lnot w : is_word w -> w32 (Z.lnot w) = B - 1 - w.
Proof.
  intros Hw. unfold w32, is_word, Z.lnot in *.
  symmetry. apply Z.mod_unique_pos with (-1); lia.
Qed.

Lemma val_fill_flip n : forall f, val (fill n (fun i => B - 1 - f i)) = Bp n - 1 - val (fill n f).
Proof.
  induction n as [|n IH]; intros f; [done|]. rewrite !fill_S, Bp_S. cbn [val].
  rewrite (IH (fun i => f (S i))). lia.
Qed.

Lemma val_fill_0 n : val (fill n (fun _ => 0)) = 0.
Proof. induction n as [|n IH]; [done|]. rewrite fill_S. cbn [val]. rewrite IH. lia. Qed.

(** The words of a C integer. *)
Lemma val_fill_int k : forall n, 0 <= n ->
  val (fill k (fun j => w32 (Z.shiftr n (32 * Z.of_nat j)))) = n mod Bp k.
Proof.
  induction k as [|k IH]; intros n Hn; [cbn; by rewrite Z.mod_1_r|].
  rewrite fill_S. cbn [val]. rewrite Z.shiftr_0_r.
  rewrite (fill_ext k _ (fun j => w32 (Z.shiftr (shift_right_by_one_word n) (32 * Z.of_nat j))))
    by (intros; by rewrite int_word_shift).
  unfold shift_right_by_one_word, BIGNUM_INT_BITS.
  rewrite IH by (by apply Z.shiftr_nonneg).
  rewrite Bp_S, Z.rem_mul_r, Z.shiftr_div_pow2 by bplia. done.
Qed.

(** ** Addition and subtraction *)

(** The stream of [b] seen through the masks. *)
Definition masked (yes : bool) (flip : bool) (w : Z) : Z :=
  let w := if yes then w else 0 in if flip then B - 1 - w else w.

Lemma val_masked n b (yes flip : bool) : wordsOK b ->
  val (fill n (fun i => masked yes flip (mp_word b i))) =
  let v := if yes then val b mod Bp n else 0 in if flip then Bp n - 1 - v else v.
Proof.
  intros Hb. unfold masked. destruct flip.
  - rewrite (val_fill_flip n (fun i => if yes then mp_word b i else 0)).
    destruct yes; [by rewrite val_fill_words|by rewrite val_fill_0].
  - destruct yes; [by rewrite val_fill_words|by rewrite val_fill_0].
Qed.

Lemma masked_word yes flip w : is_word w -> is_word (masked yes flip w).
Proof. unfold masked, is_word. destruct yes, flip; lia. Qed.

#[export] Hint Resolve masked_word : cmodel.

(** The loop with a mask pair that stands for a conditional addition
    ([b_and] all ones or zero, [b_xor] likewise). *)
Lemma mp_add_masked_val n a b b_and b_xor (yes flip : bool) c :
  wordsOK a -> wordsOK b -> 0 <= c <= 1 ->
  b_and = (if yes then B - 1 else 0) -> b_xor = (if flip then B - 1 else 0) ->
  let v := if yes then val b mod Bp n else 0 in
  let s := val a mod Bp n + (if flip then Bp n - 1 - v else v) + c in
  let '(r, c') := mp_add_masked_into n a b b_and b_xor c in
  length r = n /\ wordsOK r /\ val r = s mod Bp n /\ c' = s / Bp n.
Proof.
  intros Ha Hb Hc -> ->. unfold mp_add_masked_into. rewrite mp_add_masked_chain.
  assert (forall i, Z.lxor (Z.land (mp_word b (0 + i)) (if yes then B - 1 else 0)) (if flip then B - 1 else 0)
    = masked yes flip (mp_word b i)) as E.
  { intros i. assert (is_word (mp_word b i)) as Hw by auto with cmodel. unfold masked.
    destruct yes; [rewrite (land_ones_small 32) by done|rewrite Z.land_0_r];
    (destruct flip; [rewrite lxor_ones by (done || by unfold is_word)|rewrite Z.lxor_0_r]); done. }
  rewrite (adc_chain_ext n _ _ (mp_word a) (fun i => masked yes flip (mp_word b i))) by done.
  pose proof (adc_chain_val n (mp_word a) (fun i => masked yes flip (mp_word b i)) c) as H.
  rewrite val_masked, val_fill_words in H by done. apply H; auto with cmodel.
Qed.

Ltac masked_spec n a b bn bx yes flip c :=
  let H := fresh "H" in
  pose proof (mp_add_masked_val n a b bn bx yes flip c) as H; cbn zeta in H;
  destruct (mp_add_masked_into n a b bn bx c) as [r c']; cbn [fst snd] in *.

Lemma ones_eq : ones = B - 1.
Proof. done. Qed.

Lemma mp_add_into_spec nw a b : wordsOK a -> wordsOK b ->
  length (mp_add_into nw a b) = nw /\ wordsOK (mp_add_into nw a b) /\
  val (mp_add_into nw a b) = (val a + val b) mod Bp nw.
Proof.
  intros Ha Hb. unfold mp_add_into, mp_add_into_internal.
  masked_spec nw a b ones 0 true false 0. destruct H as (? & ? & E & _); [done..|lia|done|done|].
  split_and!; [done|done|]. rewrite E, Z.add_0_r, <-Zplus_mod. done.
Qed.

(** The carry out of the internal addition is what does not fit. *)
Lemma mp_add_into_internal_carry nw a b : wordsOK a -> wordsOK b ->
  val a < Bp nw -> val b < Bp nw ->
  snd (mp_add_into_internal nw a b) = (val a + val b) / Bp nw.
Proof.
  intros Ha Hb La Lb. unfold mp_add_into_internal.
  masked_spec nw a b ones 0 true false 0. destruct H as (? & ? & _ & E); [done..|lia|done|done|].
  pose proof (val_bound a Ha). pose proof (val_bound b Hb).
  rewrite E, Z.add_0_r, !Z.mod_small by lia. done.
Qed.

Lemma sub_mod_lemma a b p : 0 < p -> (a mod p + (p - 1 - b mod p) + 1) mod p = (a - b) mod p.
Proof.
  intros Hp. replace (a mod p + (p - 1 - b mod p) + 1) with (a mod p - b mod p + 1 * p) by lia.
  rewrite Z.mod_add by lia. by rewrite <-Zminus_mod.
Qed.

Lemma mp_sub_into_spec nw a b : wordsOK a -> wordsOK b ->
  length (mp_sub_into nw a b) = nw /\ wordsOK (mp_sub_into nw a b) /\
  val (mp_sub_into nw a b) = (val a - val b) mod Bp nw.
Proof.
  intros Ha Hb. unfold mp_sub_into.
  masked_spec nw a b ones ones true true 1. destruct H as (? & ? & E & _); [done..|lia|done|done|].
  split_and!; [done|done|]. rewrite E. apply sub_mod_lemma. bplia.
Qed.

Lemma mp_cond_add_into_spec nw a b yes : wordsOK a -> wordsOK b ->
  length (mp_cond_add_into nw a b yes) = nw /\ wordsOK (mp_cond_add_into nw a b yes) /\
  val (mp_cond_add_into nw a b yes) = (val a + if Z.odd yes then val b else 0) mod Bp nw.
Proof.
  intros Ha Hb. unfold mp_cond_add_into.
  masked_spec nw a b (mask_of yes) 0 (Z.odd yes) false 0.
  destruct H as (? & ? & E & _); [done..|lia|apply mask_of_odd|done|].
  split_and!; [done|done|]. rewrite E, Z.add_0_r. destruct (Z.odd yes).
  - by rewrite <-Zplus_mod.
  - by rewrite !Z.add_0_r, Z.mod_mod by bplia.
Qed.

Lemma mp_cond_sub_into_spec nw a b yes : wordsOK a -> wordsOK b ->
  length (mp_cond_sub_into nw a b yes) = nw /\ wordsOK (mp_cond_sub_into nw a b yes) /\
  val (mp_cond_sub_into nw a b yes) = (val a - if Z.odd yes then val b else 0) mod Bp nw.
Proof.
  intros Ha Hb. unfold mp_cond_sub_into. rewrite mask_of_odd.
  destruct (Z.odd yes).
  - change (Z.land 1 (B - 1)) with 1.
    masked_spec nw a b (B - 1) (B - 1) true true 1. destruct H as (? & ? & E & _); [done..|lia|done|done|].
    split_and!; [done|done|]. rewrite E. apply sub_mod_lemma. bplia.
  - change (Z.land 1 0) with 0.
    masked_spec nw a b 0 0 false false 0. destruct H as (? & ? & E & _); [done..|lia|done|done|].
    split_and!; [done|done|]. by rewrite E, !Z.add_0_r, Z.sub_0_r, Z.mod_mod by bplia.
Qed.

Lemma mp_neg_into_spec nw a : wordsOK a ->
  length (mp_neg_into nw a) = nw /\ wordsOK (mp_neg_into nw a) /\ val (mp_neg_into nw a) = (- val a) mod Bp nw.
Proof. intros Ha. apply (mp_sub_into_spec nw [] a); [constructor|done]. Qed.

Lemma Bp_mono n m : (n <= m)%nat -> Bp n <= Bp m.
Proof. intros. apply Z.pow_le_mono_r; lia. Qed.

Lemma val_bound_le x n : wordsOK x -> (length x <= n)%nat -> 0 <= val x < Bp n.
Proof. intros Hx Hn. pose proof (val_bound x Hx). pose proof (Bp_mono _ _ Hn). lia. Qed.

Lemma mp_cmp_hs_spec a b : wordsOK a -> wordsOK b ->
  mp_cmp_hs a b = if val b <=? val a then 1 else 0.
Proof.
  intros Ha Hb. unfold mp_cmp_hs. set (n := (length a `max` length b)%nat).
  masked_spec n a b ones ones true true 1. destruct H as (? & ? & _ & ->); [done..|lia|done|done|].
  pose proof (val_bound_le a n Ha ltac:(lia)). pose proof (val_bound_le b n Hb ltac:(lia)).
  rewrite !Z.mod_small by lia. destruct (Z.leb_spec (val b) (val a)); symmetry.
  - apply Z.div_unique_pos with (val a - val b); lia.
  - apply Z.div_unique_pos with (Bp n + val a - val b); lia.
Qed.

(** [mp_add] never loses a carry. *)
Lemma mp_add_spec x y : wordsOK x -> wordsOK y ->
  exists r, mp_add x y = Ok r /\ length r = (length x `max` length y + 1)%nat /\ wordsOK r /\
    val r = val x + val y.
Proof.
  intros Hx Hy. unfold mp_add, mp_make_sized.
  set (n := (length x `max` length y)%nat).
  replace (0 <? n + 1)%nat with true by (symmetry; apply Nat.ltb_lt; lia).
  cbn [c_assert res_bind]. rewrite length_replicate.
  destruct (mp_add_into_spec (n + 1) x y Hx Hy) as (? & ? & E).
  eexists. split_and!; [done..|]. rewrite E. apply Z.mod_small.
  pose proof (val_bound_le x n Hx ltac:(lia)). pose proof (val_bound_le y n Hy ltac:(lia)).
  rewrite Bp_add. change (Bp 1) with B. lia.
Qed.

Lemma mp_sub_spec x y : wordsOK x -> wordsOK y -> (0 < length x `max` length y)%nat ->
  exists r, mp_sub x y = Ok r /\ length r = (length x `max` length y)%nat /\ wordsOK r /\
    val r = (val x - val y) mod Bp (length x `max` length y).
Proof.
  intros Hx Hy Hn. unfold mp_sub, mp_make_sized. apply Nat.ltb_lt in Hn. rewrite Hn.
  cbn [c_assert res_bind]. rewrite length_replicate.
  destruct (mp_sub_into_spec (length x `max` length y) x y Hx Hy) as (? & ? & E).
  eexists. split_and!; done.
Qed.

(** ** C integers *)

Definition is_uintmax (n : Z) : Prop := 0 <= n < 2 ^ 64.

Lemma val_fill_uintmax k n : is_uintmax n -> (2 <= k)%nat ->
  val (fill k (fun j => w32 (Z.shiftr n (32 * Z.of_nat j)))) = n.
Proof.
  unfold is_uintmax. intros Hn Hk. rewrite val_fill_int by lia. apply Z.mod_small.
  pose proof (Bp_mono 2 k Hk) as H. change (Bp 2) with (2 ^ 64) in H. lia.
Qed.

Lemma mp_add_integer_into_spec nw a n : wordsOK a -> is_uintmax n ->
  length (mp_add_integer_into nw a n) = nw /\ wordsOK (mp_add_integer_into nw a n) /\
  val (mp_add_integer_into nw a n) = (val a + n) mod Bp nw.
Proof.
  intros Ha [Hn _]. unfold mp_add_integer_into. rewrite mp_add_masked_integer_chain.
  rewrite (adc_chain_ext nw _ _ (mp_word a) (fun j => w32 (Z.shiftr n (32 * Z.of_nat j)))).
  2: done.
  2: { intros i. rewrite Z.lxor_0_r. apply (land_ones_small 32), w32_range. }
  pose proof (adc_chain_val nw (mp_word a) (fun j => w32 (Z.shiftr n (32 * Z.of_nat j))) 0) as H.
  cbn zeta in H. destruct (adc_chain _ _ _ _) as [r c']. cbn [fst].
  destruct H as (? & ? & E & _); [auto with cmodel..|lia|].
  split_and!; [done..|]. by rewrite E, val_fill_words, val_fill_int, Z.add_0_r, <-Zplus_mod by done.
Qed.

Lemma mp_sub_integer_into_spec nw a n : wordsOK a -> is_uintmax n ->
  length (mp_sub_integer_into nw a n) = nw /\ wordsOK (mp_sub_integer_into nw a n) /\
  val (mp_sub_integer_into nw a n) = (val a - n) mod Bp nw.
Proof.
  intros Ha [Hn _]. unfold mp_sub_integer_into. rewrite mp_add_masked_integer_chain.
  rewrite (adc_chain_ext nw _ _ (mp_word a) (fun j => B - 1 - w32 (Z.shiftr n (32 * Z.of_nat j)))).
  2: done.
  2: { intros i. rewrite ones_eq, lxor_ones by apply w32_range. apply (land_ones_small 32).
       pose proof (w32_range (Z.shiftr n (32 * Z.of_nat i))) as Hw. unfold is_word in Hw. lia. }
  pose proof (adc_chain_val nw (mp_word a) (fun j => B - 1 - w32 (Z.shiftr n (32 * Z.of_nat j))) 1) as H.
  cbn zeta in H. destruct (adc_chain _ _ _ _) as [r c']. cbn [fst].
  destruct H as (? & ? & E & _); [auto with cmodel| |lia|].
  { intros i. pose proof (w32_range (Z.shiftr n (32 * Z.of_nat i))) as Hw. unfold is_word in *. lia. }
  split_and!; [done..|].
  rewrite E, val_fill_words, val_fill_flip, val_fill_int by done. apply sub_mod_lemma. bplia.
Qed.

Lemma mp_hs_integer_spec x n : wordsOK x -> is_uintmax n ->
  mp_hs_integer x n = if n <=? val x then 1 else 0.
Proof.
  intros Hx Hn. unfold mp_hs_integer. set (k := (length x `max` 2)%nat).
  rewrite mp_hs_integer_chain.
  rewrite (adc_chain_ext k _ _ (mp_word x) (fun j => B - 1 - w32 (Z.shiftr n (32 * Z.of_nat j)))).
  2: done.
  2: { intros i. by rewrite w32_lnot by apply w32_range. }
  pose proof (adc_chain_val k (mp_word x) (fun j => B - 1 - w32 (Z.shiftr n (32 * Z.of_nat j))) 1) as H.
  cbn zeta in H. destruct (adc_chain _ _ _ _) as [r c']. cbn [snd].
  destruct H as (? & ? & _ & ->); [auto with cmodel| |lia|].
  { intros i. pose proof (w32_range (Z.shiftr n (32 * Z.of_nat i))) as Hw. unfold is_word in *. lia. }
  rewrite val_fill_flip, val_fill_uintmax, val_fill_ge by (done || lia).
  pose proof (val_bound_le x k Hx ltac:(lia)).
  pose proof (Bp_mono 2 k ltac:(lia)) as HB. change (Bp 2) with (2 ^ 64) in HB. unfold is_uintmax in Hn.
  destruct (Z.leb_spec n (val x)); symmetry.
  - apply Z.div_unique_pos with (val x - n); lia.
  - apply Z.div_unique_pos with (Bp k + val x - n); lia.
Qed.

(** ** Equality *)

Lemma lor_fold_zero (f : nat -> Z) l : forall d, is_word d -> (forall i, is_word (f i)) ->
  let r := fold_left (fun d i => Z.lor d (f i)) l d in
  is_word r /\ (r = 0 <-> d = 0 /\ Forall (fun i => f i = 0) l).
Proof.
  induction l as [|i l IH]; intros d Hd Hf; cbn zeta; cbn [fold_left].
  - split; [done|]. split; [intros ->; split; [done|constructor]|tauto].
  - destruct (IH (Z.lor d (f i))) as [Hr ->]; [auto with cmodel|done|]. split; [done|].
    rewrite Z.lor_eq_0_iff, Forall_cons. tauto.
Qed.

Lemma fill_eq_iff n f g : fill n f = fill n g <-> Forall (fun i => Z.lxor (f i) (g i) = 0) (seq 0 n).
Proof.
  rewrite Forall_forall. split.
  - intros E i Hi%elem_of_seq. apply Z.lxor_eq_0_iff.
    assert (fill n f !! i = fill n g !! i) as E' by by rewrite E.
    rewrite !lookup_fill in E' by lia. congruence.
  - intros H. apply fill_ext. intros i Hi. apply Z.lxor_eq_0_iff, H, elem_of_seq. lia.
Qed.

(** Two word streams agree exactly when their values do. *)
Lemma fill_val_iff n f g : (forall i, is_word (f i)) -> (forall i, is_word (g i)) ->
  (fill n f = fill n g <-> val (fill n f) = val (fill n g)).
Proof.
  intros Hf Hg. split; [by intros ->|]. intros E.
  apply val_inj; [by apply wordsOK_fill..| |done]. by rewrite !length_fill.
Qed.

Lemma lxor_normalise d : is_word d -> Z.lxor 1 (normalise_to_1 d) = if d =? 0 then 1 else 0.
Proof. intros Hd. rewrite normalise_to_1_spec by done. by destruct (d =? 0). Qed.

Lemma mp_cmp_eq_spec a b : wordsOK a -> wordsOK b ->
  mp_cmp_eq a b = if val a =? val b then 1 else 0.
Proof.
  intros Ha Hb. unfold mp_cmp_eq. set (n := (length a `max` length b)%nat).
  destruct (lor_fold_zero (fun i => Z.lxor (mp_word a i) (mp_word b i)) (seq 0 n) 0)
    as [Hr Hz]; [done|auto with cmodel|].
  rewrite lxor_normalise by done. rewrite <-fill_eq_iff, fill_val_iff in Hz by auto with cmodel.
  rewrite !val_fill_ge in Hz by (done || lia).
  destruct (Z.eqb_spec (val a) (val b)) as [E|E].
  - rewrite (proj2 Hz); done.
  - destruct (Z.eqb_spec (fold_left (fun d i => Z.lor d (Z.lxor (mp_word a i) (mp_word b i))) (seq 0 n) 0) 0); tauto.
Qed.

Lemma mp_eq_integer_fold k : forall i x n d,
  mp_eq_integer_loop k i x n d =
  fold_left (fun d j => Z.lor d (Z.lxor (mp_word x (i + j)) (w32 (Z.shiftr n (32 * Z.of_nat j))))) (seq 0 k) d.
Proof.
  induction k as [|k IH]; intros; cbn [mp_eq_integer_loop]; [done|].
  rewrite IH. cbn [seq fold_left]. rewrite Nat.add_0_r, Z.shiftr_0_r.
  rewrite <-fmap_S_seq. generalize (Z.lor d (Z.lxor (mp_word x i) (w32 n))). generalize (seq 0 k).
  induction l as [|j l IHl]; intros d'; [done|]. cbn [fold_left fmap list_fmap].
  rewrite Nat.add_succ_r. rewrite <-int_word_shift. apply IHl.
Qed.

Lemma mp_eq_integer_spec x n : wordsOK x -> is_uintmax n ->
  mp_eq_integer x n = if val x =? n then 1 else 0.
Proof.
  intros Hx Hn. unfold mp_eq_integer. set (k := (length x `max` 2)%nat).
  rewrite mp_eq_integer_fold. cbn [plus].
  set (g j := w32 (Z.shiftr n (32 * Z.of_nat j))).
  destruct (lor_fold_zero (fun i => Z.lxor (mp_word x i) (g i)) (seq 0 k) 0)
    as [Hr Hz]; [done|unfold g; auto with cmodel|].
  rewrite lxor_normalise by done. rewrite <-fill_eq_iff, fill_val_iff in Hz by (unfold g; auto with cmodel).
  unfold g in Hz. rewrite val_fill_uintmax, val_fill_ge in Hz by (done || lia). fold g in Hz.
  destruct (Z.eqb_spec (val x) n) as [E|E].
  - by rewrite (proj2 Hz).
  - case_match eqn:Eq; [|done]. apply Z.eqb_eq in Eq. tauto.
Qed.

(** ** Multiplication by a small integer *)

Lemma mp_mul_integer_loop_spec k : forall i a mult c,
  wordsOK a -> is_word mult -> is_word c ->
  exists r c', mp_mul_integer_loop k i a mult c = (r, c') /\ length r = k /\ wordsOK r /\ is_word c' /\
    val r + Bp k * c' = val (fill k (fun j => mp_word a (i + j))) * mult + c.
Proof.
  induction k as [|k IH]; intros i a mult c Ha Hm Hc; cbn [mp_mul_integer_loop].
  - exists [], c. split_and!; [done|done|constructor|done|]. cbn. lia.
  - destruct (BignumMULADD_spec (mp_word a i) mult c) as (h & l & -> & Hh & Hl & E1); [auto with cmodel..|].
    destruct (IH (S i) a mult h) as (r & c' & -> & Hlen & Hr & Hc' & E); [done..|].
    exists (l :: r), c'. split_and!; [done|cbn; lia|by constructor|done|].
    rewrite fill_S, Bp_S. cbn [val]. rewrite Nat.add_0_r.
    rewrite (fill_ext k _ (fun j => mp_word a (S i + j))) by (intros; f_equal; lia). lia.
Qed.

(** The product, unless the final assertion says it does not fit. *)
Lemma mp_mul_integer_into_spec nw a n :
  wordsOK a -> (length a <= nw)%nat -> 0 <= n < 2 ^ 16 ->
  if val a * n <? Bp nw
  then exists r, mp_mul_integer_into nw a n = Ok r /\ length r = nw /\ wordsOK r /\ val r = val a * n
  else mp_mul_integer_into nw a n = Crash AssertionFailed.
Proof.
  intros Ha Hl Hn. unfold mp_mul_integer_into.
  destruct (mp_mul_integer_loop_spec nw 0 a n 0) as (r & c' & -> & Hlen & Hr & Hc & E);
    [done|unfold is_word; lia..|].
  cbn [plus] in E. rewrite val_fill_ge, Z.add_0_r in E by (done || lia).
  pose proof (val_bound r Hr) as Hb. rewrite Hlen in Hb. unfold is_word in Hc.
  destruct (Z.ltb_spec (val a * n) (Bp nw)).
  - assert (c' = 0) as -> by nia. exists r. split_and!; [done..|lia].
  - assert ((c' =? 0) = false) as -> by (apply Z.eqb_neq; nia). done.
Qed.

(** ** Bitwise operations and conditional negation *)

(** A bit position, as a word and a bit within it. *)
Lemma bit_split k : 0 <= k -> exists (i : nat) j, k = 32 * Z.of_nat i + j /\ 0 <= j < 32.
Proof.
  intros Hk. exists (Z.to_nat (k / 32)), (k mod 32).
  rewrite Z2Nat.id by (apply Z.div_pos; lia).
  split; [apply Z.div_mod; lia|apply Z.mod_pos_bound; lia].
Qed.

Lemma val_fill_bitop (op : Z -> Z -> Z) nw a b k :
  wordsOK a -> wordsOK b ->
  (forall x y, is_word x -> is_word y -> is_word (op x y)) ->
  forall bop : bool -> bool -> bool,
  (forall x y j, is_word x -> is_word y -> 0 <= j < 32 ->
     Z.testbit (op x y) j = bop (Z.testbit x j) (Z.testbit y j)) ->
  0 <= k < 32 * Z.of_nat nw ->
  Z.testbit (val (fill nw (fun i => op (mp_word a i) (mp_word b i)))) k =
  bop (Z.testbit (val a) k) (Z.testbit (val b) k).
Proof.
  intros Ha Hb Hop bop Hbit Hk.
  destruct (bit_split k) as (i & j & -> & Hj); [lia|].
  rewrite !val_testbit by (done || apply wordsOK_fill; auto with cmodel).
  rewrite mp_word_fill. rewrite decide_True by lia. apply Hbit; auto with cmodel.
Qed.

Lemma mp_bitops_spec nw a b k : wordsOK a -> wordsOK b -> 0 <= k < 32 * Z.of_nat nw ->
  Z.testbit (val (mp_and_into nw a b)) k = Z.testbit (val a) k && Z.testbit (val b) k /\
  Z.testbit (val (mp_or_into nw a b)) k = Z.testbit (val a) k || Z.testbit (val b) k /\
  Z.testbit (val (mp_xor_into nw a b)) k = xorb (Z.testbit (val a) k) (Z.testbit (val b) k) /\
  Z.testbit (val (mp_bic_into nw a b)) k = Z.testbit (val a) k && negb (Z.testbit (val b) k).
Proof.
  intros Ha Hb Hk. split_and!.
  - apply (val_fill_bitop Z.land _ _ _ _ Ha Hb ltac:(auto with cmodel) andb); [|done].
    intros. apply Z.land_spec.
  - apply (val_fill_bitop Z.lor _ _ _ _ Ha Hb ltac:(auto with cmodel) orb); [|done].
    intros. apply Z.lor_spec.
  - apply (val_fill_bitop Z.lxor _ _ _ _ Ha Hb ltac:(auto with cmodel) xorb); [|done].
    intros. apply Z.lxor_spec.
  - apply (val_fill_bitop (fun x y => Z.land x (w32 (Z.lnot y))) _ _ _ _ Ha Hb ltac:(intros; cbn; auto with cmodel)
      (fun x y => x && negb y)); [|done].
    intros x y j ? ? ?. rewrite Z.land_spec. unfold w32.
    by rewrite Z.mod_pow2_bits_low, Z.lnot_spec by lia.
Qed.

Lemma mp_cond_negate_spec nw x (yes : bool) : wordsOK x ->
  length (mp_cond_negate nw x (Z.b2z yes)) = nw /\ wordsOK (mp_cond_negate nw x (Z.b2z yes)) /\
  val (mp_cond_negate nw x (Z.b2z yes)) = (if yes then - val x else val x) mod Bp nw.
Proof.
  intros Hx. unfold mp_cond_negate. rewrite mp_cond_negate_chain.
  rewrite (adc_chain_ext nw _ _ (fun _ => 0) (fun i => masked true yes (mp_word x i))).
  2: done.
  2: { intros i. cbn [plus]. unfold masked. destruct yes; cbn.
       - change (w32 (-1)) with (B - 1). apply lxor_ones. auto with cmodel.
       - change (w32 (-0)) with 0. apply Z.lxor_0_r. }
  pose proof (adc_chain_val nw (fun _ => 0) (fun i => masked true yes (mp_word x i)) (Z.b2z yes)) as H.
  cbn zeta in H. destruct (adc_chain _ _ _ _) as [r c']. cbn [fst].
  destruct H as (? & ? & E & _); [done|auto with cmodel|destruct yes; cbn; lia|].
  split_and!; [done..|]. rewrite E, val_fill_0, val_masked by done. destruct yes; cbn zeta; cbn [Z.b2z].
  - replace (- val x) with (0 - val x) by lia. rewrite <-sub_mod_lemma by bplia.
    by rewrite Z.mod_0_l by bplia.
  - rewrite Z.add_0_r, Z.add_0_l, Z.mod_mod by bplia. done.
Qed.

(** ** Simple multiplication *)

Lemma mul_add_row_nil rq : forall c adata, wordsOK rq -> is_word c ->
  length (mul_add_row rq adata [] c) = length rq /\ wordsOK (mul_add_row rq adata [] c) /\
  val (mul_add_row rq adata [] c) = (val rq + c) mod Bp (length rq).
Proof.
  induction rq as [|w rq IH]; intros c adata Hr Hc; cbn [mul_add_row length].
  - split_and!; [done|done|]. cbn. by rewrite Z.mod_1_r.
  - inversion Hr as [|? ? Hw Hr']; subst.
    destruct (BignumADC_spec c w 0) as (out & c' & -> & Ho & Hc' & E); [done..|lia|].
    destruct (IH c' adata Hr') as (Hl & Hok & Hv); [unfold is_word; lia|].
    cbn [length val]. split_and!; [lia|by constructor|]. rewrite Hv, Bp_S.
    rewrite Z.rem_mul_r by bplia. unfold is_word in *.
    assert ((w + B * val rq + c) = out + (val rq + c') * B) as -> by lia.
    rewrite Z.mod_add, Z.div_add, (Z.mod_small out), (Z.div_small out) by lia. f_equal.
Qed.

Lemma mul_add_row_spec rq : forall b adata c, wordsOK rq -> wordsOK b -> is_word adata -> is_word c ->
  length (mul_add_row rq adata b c) = length rq /\ wordsOK (mul_add_row rq adata b c) /\
  val (mul_add_row rq adata b c) = (val rq + adata * val b + c) mod Bp (length rq).
Proof.
  induction rq as [|w rq IH]; intros b adata c Hr Hb Ha Hc.
  - cbn. split_and!; [done|constructor|]. by rewrite Z.mod_1_r.
  - destruct b as [|bd b].
    + destruct (mul_add_row_nil (w :: rq) c adata Hr Hc) as (? & ? & ->).
      split_and!; [done..|]. f_equal. cbn [val]. lia.
    + cbn [mul_add_row length]. inversion Hr; inversion Hb; subst.
      destruct (BignumMULADD2_spec adata bd w c) as (h & l & -> & Hh & Hl & E); [done..|].
      destruct (IH b adata h) as (Hlen & Hok & Hv); [done..|].
      cbn [length val]. split_and!; [lia|by constructor|]. rewrite Hv, Bp_S.
      rewrite Z.rem_mul_r by bplia. unfold is_word in *.
      assert (w + B * val rq + adata * (bd + B * val b) + c = l + (val rq + adata * val b + h) * B)
        as -> by lia.
      rewrite Z.mod_add, Z.div_add, (Z.mod_small l), (Z.div_small l) by lia. f_equal.
Qed.

Lemma mp_mul_add_simple_spec a : forall r b, wordsOK r -> wordsOK a -> wordsOK b ->
  length (mp_mul_add_simple r a b) = length r /\ wordsOK (mp_mul_add_simple r a b) /\
  val (mp_mul_add_simple r a b) = (val r + val a * val b) mod Bp (length r).
Proof.
  induction a as [|ad a IH]; intros r b Hr Ha Hb; cbn [mp_mul_add_simple].
  - split_and!; [done..|]. cbn [val]. rewrite Z.mul_0_l, Z.add_0_r, Z.mod_small; [done|].
    by apply val_bound.
  - inversion Ha; subst.
    destruct (mul_add_row_spec r b ad 0) as (Hl & Hok & Hv); [done..|].
    destruct (mul_add_row r ad b 0) as [|w r']; cbn [length] in *.
    + split_and!; [done..|]. rewrite <-Hl. cbn. by rewrite Z.mod_1_r.
    + inversion Hok; subst. destruct (IH r' b) as (Hl' & Hok' & Hv'); [done..|].
      split_and!; [lia|by constructor|]. cbn [val]. rewrite Hv'. rewrite <-Hl in Hv |- *.
      cbn [val] in Hv. unfold is_word in *.
      rewrite Z.add_0_r in Hv.
      transitivity ((w + B * (val r' + val a * val b)) mod Bp (S (length r'))).
      * rewrite Bp_S, Z.rem_mul_r by bplia.
        rewrite (Z.mul_comm B (val r' + _)), Z.mod_add, Z.div_add, (Z.mod_small w), (Z.div_small w) by lia.
        f_equal.
      * replace (w + B * (val r' + val a * val b)) with (w + B * val r' + B * (val a * val b)) by lia.
        rewrite Hv, Zplus_mod_idemp_l. f_equal. lia.
Qed.

(** ** Adding a shifted integer *)

(** Before the indicator rises the loop adds nothing; from then on it adds the
    words of [n]. *)
Lemma mp_add_shifted_on k : forall i a n wi c,
  is_uintmax n ->
  mp_add_shifted_loop k i a n wi 1 c =
  fst (adc_chain k (fun j => mp_word a (i + j)) (fun j => w32 (Z.shiftr n (32 * Z.of_nat j))) c).
Proof.
  induction k as [|k IH]; intros i a n wi c Hn; cbn [mp_add_shifted_loop adc_chain]; [done|].
  set (ind := Z.lor 1 _).
  assert (ind = 1) as ->.
  { unfold ind. rewrite lxor_normalise by apply w32_range. by case_match. }
  rewrite Nat.add_0_r, Z.shiftr_0_r. unfold is_uintmax in Hn.
  change (w32 (Z.opp 1)) with (2 ^ 32 - 1). change (w64 (Z.opp 1)) with (2 ^ 64 - 1).
  assert (w32 (Z.land n (2 ^ 32 - 1)) = w32 n) as ->.
  { change (2 ^ 32 - 1) with (Z.ones 32). rewrite Z.land_ones by lia. unfold w32. by rewrite Z.mod_mod by lia. }
  assert (0 <= shift_right_by_one_word n < 2 ^ 64) as Hs.
  { unfold shift_right_by_one_word, BIGNUM_INT_BITS. rewrite Z.shiftr_div_pow2 by lia.
    Z.div_mod_to_equations. lia. }
  rewrite land_ones_small by (apply lxor_bound; lia).
  rewrite <-Z.lxor_assoc, Z.lxor_nilpotent, Z.lxor_0_l.
  destruct (BignumADC _ _ _) as [out c1]. rewrite IH by done.
  rewrite (adc_chain_ext k _ _ (fun j => mp_word a (i + S j))
    (fun j => w32 (Z.shiftr n (32 * Z.of_nat (S j)))));
    [by destruct (adc_chain _ _ _ _)|..]; intros j; by rewrite ?int_word_shift, ?Nat.add_succ_r.
Qed.

Lemma mp_add_shifted_chain k : forall i a n wi c,
  is_uintmax n -> (i <= wi)%nat -> Z.of_nat wi < B ->
  mp_add_shifted_loop k i a n (Z.of_nat wi) 0 c =
  fst (adc_chain k (fun j => mp_word a (i + j))
         (fun j => if decide (i + j < wi)%nat then 0 else w32 (Z.shiftr n (32 * Z.of_nat (i + j - wi)))) c).
Proof.
  induction k as [|k IH]; intros i a n wi c Hn Hi Hw; [done|].
  destruct (decide (i = wi)) as [-> |Hne].
  - transitivity (mp_add_shifted_loop (S k) wi a n (Z.of_nat wi) 1 c).
    { cbn [mp_add_shifted_loop]. rewrite Z.lxor_nilpotent. done. }
    rewrite mp_add_shifted_on by done. f_equal. apply adc_chain_ext; [done|].
    intros j. rewrite decide_False by lia. do 4 f_equal. lia.
  - cbn [mp_add_shifted_loop adc_chain].
    set (ind := Z.lor 0 _).
    assert (ind = 0) as ->.
    { unfold ind. rewrite lxor_normalise by apply w32_range.
      rewrite w32_small by (apply lxor_bound; lia).
      destruct (Z.eqb_spec (Z.lxor (Z.of_nat i) (Z.of_nat wi)) 0) as [E|]; [|done].
      apply (proj1 (Z.lxor_eq_0_iff _ _)) in E. lia. }
    change (w32 (Z.opp 0)) with 0. change (w64 (Z.opp 0)) with 0. rewrite !Z.land_0_r, Z.lxor_0_r.
    rewrite Nat.add_0_r, decide_True by lia. change (w32 0) with 0.
    destruct (BignumADC _ _ _) as [out c1]. rewrite IH by (done || lia).
    rewrite (adc_chain_ext k _ _ (fun j => mp_word a (i + S j))
      (fun j => if decide (i + S j < wi)%nat then 0 else w32 (Z.shiftr n (32 * Z.of_nat (i + S j - wi)))));
      [by destruct (adc_chain _ _ _ _)|..]; intros j; by rewrite ?Nat.add_succ_r.
Qed.

Lemma val_fill_shift k : forall wi f,
  val (fill k (fun j => if decide (j < wi)%nat then 0 else f (j - wi)%nat)) =
  (Bp wi * val (fill (k - wi) f)).
Proof.
  induction k as [|k IH]; intros wi f.
  - change (0 = Bp wi * 0). lia.
  - rewrite fill_S. cbn [val]. destruct wi as [|wi].
    + rewrite decide_False by lia. replace (S k - 0)%nat with (S k) by lia. rewrite fill_S. cbn [val].
      rewrite (fill_ext k _ (fun i => f (S i))) by (intros; by rewrite decide_False by lia).
      change (Bp 0) with 1. cbn [Nat.sub]. lia.
    + rewrite decide_True by lia. replace (S k - S wi)%nat with (k - wi)%nat by lia.
      rewrite Bp_S, <-Z.mul_assoc, <-IH. rewrite Z.add_0_l. f_equal. f_equal. apply fill_ext.
      intros i _. destruct (decide (S i < S wi)%nat), (decide (i < wi)%nat); try lia; done.
Qed.

Lemma mp_add_integer_into_shifted_by_words_spec nw a n wi :
  wordsOK a -> is_uintmax n -> Z.of_nat wi < B ->
  let r := mp_add_integer_into_shifted_by_words nw a n (Z.of_nat wi) in
  length r = nw /\ wordsOK r /\ val r = (val a + n * Bp wi) mod Bp nw.
Proof.
  intros Ha Hn Hw. unfold mp_add_integer_into_shifted_by_words.
  rewrite mp_add_shifted_chain by (done || lia). cbn [plus].
  set (g j := if decide (j < wi)%nat then 0 else w32 (Z.shiftr n (32 * Z.of_nat (j - wi)))).
  pose proof (adc_chain_val nw (mp_word a) g 0) as H.
  cbn zeta in *. destruct (adc_chain _ _ _ _) as [r c']. cbn [fst].
  destruct H as (? & ? & E & _); [auto with cmodel| |lia|].
  { intros i. unfold g. case_decide; [done|apply w32_range]. }
  split_and!; [done..|]. rewrite E, val_fill_words by done. unfold g.
  rewrite (val_fill_shift nw wi (fun j => w32 (Z.shiftr n (32 * Z.of_nat j)))).
  destruct Hn as [Hn _]. rewrite val_fill_int, Z.add_0_r by done.
  rewrite Zplus_mod_idemp_l.
  destruct (Nat.le_gt_cases wi nw) as [Hle|Hgt].
  - replace nw with (wi + (nw - wi))%nat at 2 by lia. replace nw with (wi + (nw - wi))%nat at 3 by lia.
    rewrite Bp_add, <-(Z.mul_mod_distr_l n) by bplia.
    rewrite Zplus_mod_idemp_r. f_equal. lia.
  - replace (nw - wi)%nat with 0%nat by lia. change (Bp 0) with 1. rewrite Z.mod_1_r.
    replace wi with (nw + (wi - nw))%nat by lia. rewrite Bp_add.
    replace (n * (Bp nw * Bp (wi - nw))) with (n * Bp (wi - nw) * Bp nw) by lia.
    rewrite Z.mod_add by bplia. f_equal. lia.
Qed.
