(* ===== verification/MpintMul.v ===== *)
(** * Multiprecision integers: Karatsuba multiplication
    ([libs/putty/crypto/mpint.c], [mp_make_alias] to [mp_mul]) *)

From S2P Require Import Prelude MpintCore MpintArith.

Local Open Scope Z_scope.
Local Open Scope cmodel_scope.

(** ** Aliases *)

(** [mp_make_alias]: the offset and the length of the words the alias
    addresses, cut to the number it is taken of. *)
Definition alias_range (nw offset len : nat) : nat * nat :=
  let offset := if (nw <? offset)%nat then nw else offset in
  let len := if (nw - offset <? len)%nat then (nw - offset)%nat else len in
  (offset, len).

Definition mp_make_alias (x : mp_int) (offset len : nat) : mp_int :=
  let '(offset, len) := alias_range (length x) offset len in take len (drop offset x).

(** The number after the words an alias addresses have become [y]. *)
Definition write_alias (x : mp_int) (offset : nat) (y : mp_int) : mp_int :=
  let '(offset, _) := alias_range (length x) offset 0 in
  take offset x ++ y ++ drop (offset + length y) x.

(** [mp_alloc_from_scratch]: the alias and the pool afterwards.  The model
    does not carry what is written to an alias back into the pool: the
    theorems hold whatever words the pool holds. *)
Definition mp_alloc_from_scratch (pool : mp_int) (len : nat) : res (mp_int * mp_int) :=
  c_assert (len <=? length pool)%nat
  (Ok (mp_make_alias pool 0 len, mp_make_alias pool len (length pool))).

(** ** Karatsuba *)

Definition KARATSUBA_THRESHOLD : nat := 24.

Definition mp_mul_scratchspace_unary (n : nat) : nat := (n * 6)%nat.

Definition mul_inlen (rw aw bw : nat) : nat := (rw `min` (aw `max` bw))%nat.

Definition mp_mul_scratchspace (rw aw bw : nat) : nat :=
  mp_mul_scratchspace_unary (mul_inlen rw aw bw).

(** The two ways [mp_mul_internal] adds in the middle terms, for a recursive
    call [mul].  [r] holds the two outer products.  First, where [r] is too
    short for the whole product: *)
Definition add_middle_products (mul : mp_int -> mp_int -> mp_int -> mp_int -> res mp_int)
    (r a0 a1 b0 b1 : mp_int) (botlen toplen : nat) (scratch : mp_int) : res mp_int :=
  let r1 := mp_make_alias r botlen (length r) in
  let! (s, scratch) := mp_alloc_from_scratch scratch ((botlen + toplen) `min` length r1) in
  let! s := mul s a0 b1 scratch in
  let r1 := mp_add_into (length r1) r1 s in
  let! s := mul s a1 b0 scratch in
  let r1 := mp_add_into (length r1) r1 s in
  Ok (write_alias r botlen r1).

(** and where it is not, Karatsuba's single product of the sums: *)
Definition add_karatsuba_product (mul : mp_int -> mp_int -> mp_int -> mp_int -> res mp_int)
    (r a0 a1 b0 b1 : mp_int) (botlen : nat) (scratch : mp_int) : res mp_int :=
  let r0 := mp_make_alias r 0 (botlen * 2) in
  let r1 := mp_make_alias r botlen (length r) in
  let r2 := mp_make_alias r (botlen * 2) (length r) in
  let! (asum, scratch) := mp_alloc_from_scratch scratch (botlen + 1) in
  let! (bsum, scratch) := mp_alloc_from_scratch scratch (botlen + 1) in
  let asum := mp_add_into (length asum) a0 a1 in
  let bsum := mp_add_into (length bsum) b0 b1 in
  let! (product, scratch) := mp_alloc_from_scratch scratch (botlen * 2 + 1) in
  let! product := mul product asum bsum scratch in
  let product := mp_sub_into (length product) product r0 in
  let product := mp_sub_into (length product) product r2 in
  let r1 := mp_add_into (length r1) r1 product in
  Ok (write_alias r botlen r1).

(** The recursion of [mp_mul_internal(r, a, b, scratch)]: [r] afterwards.  The
    fuel is its depth. *)
Fixpoint mp_mul_rec (fuel : nat) (r a b scratch : mp_int) : res mp_int :=
  match fuel with
  | O => Crash OutOfFuel
  | S fuel =>
      let inlen := mul_inlen (length r) (length a) (length b) in
      c_assert (mp_mul_scratchspace_unary inlen <=? length scratch)%nat
      (let r := mp_clear r in
       if (inlen <? KARATSUBA_THRESHOLD)%nat || (length a =? 0)%nat || (length b =? 0)%nat
       then Ok (mp_mul_add_simple r a b)
       else
         let toplen := (inlen / 2)%nat in
         let botlen := (inlen - toplen)%nat in
         let a0 := mp_make_alias a 0 botlen in
         let b0 := mp_make_alias b 0 botlen in
         let a1 := mp_make_alias a botlen toplen in
         let b1 := mp_make_alias b botlen toplen in
         let! r0 := mp_mul_rec fuel (mp_make_alias r 0 (botlen * 2)) a0 b0 scratch in
         let r := write_alias r 0 r0 in
         let! r2 := mp_mul_rec fuel (mp_make_alias r (botlen * 2) (length r)) a1 b1 scratch in
         let r := write_alias r (botlen * 2) r2 in
         if (length r <? inlen * 2)%nat
         then add_middle_products (mp_mul_rec fuel) r a0 a1 b0 b1 botlen toplen scratch
         else add_karatsuba_product (mp_mul_rec fuel) r a0 a1 b0 b1 botlen scratch)
  end.

(** The length of the operands bounds the depth of the recursion. *)
Definition mp_mul_internal (r a b scratch : mp_int) : res mp_int :=
  mp_mul_rec (S (mul_inlen (length r) (length a) (length b))) r a b scratch.

Definition mp_mul_into (r a b : mp_int) : res mp_int :=
  let! scratch := mp_make_sized (mp_mul_scratchspace (length r) (length a) (length b)) in
  mp_mul_internal r a b scratch.

Definition mp_mul (x y : mp_int) : res mp_int :=
  let! r := mp_make_sized (length x + length y) in
  mp_mul_into r x y.

(** ** Aliases are slices *)

Lemma mp_make_alias_eq x offset len : mp_make_alias x offset len = take len (drop offset x).
Proof.
  unfold mp_make_alias, alias_range.
  destruct (Nat.ltb_spec (length x) offset) as [H|H].
  - rewrite !drop_ge by lia. by rewrite !take_nil.
  - destruct (Nat.ltb_spec (length x - offset) len); [|done].
    rewrite !take_ge; [done|rewrite length_drop; lia..].
Qed.

Lemma length_mp_make_alias x offset len :
  length (mp_make_alias x offset len) = (len `min` (length x - offset))%nat.
Proof. by rewrite mp_make_alias_eq, length_take, length_drop. Qed.

Lemma mp_make_alias_ok x offset len : wordsOK x -> wordsOK (mp_make_alias x offset len).
Proof. rewrite mp_make_alias_eq. auto with cmodel. Qed.

Lemma val_mp_make_alias x offset len : wordsOK x ->
  val (mp_make_alias x offset len) = (val x / Bp offset) mod Bp len.
Proof. intros Hx. by rewrite mp_make_alias_eq, val_take_mod, val_drop_div by auto with cmodel. Qed.

#[export] Hint Resolve mp_make_alias_ok : cmodel.

Lemma write_alias_eq x offset y : (offset + length y <= length x)%nat ->
  write_alias x offset y = take offset x ++ y ++ drop (offset + length y) x.
Proof.
  intros H. unfold write_alias, alias_range.
  destruct (Nat.ltb_spec (length x) offset); [lia|done].
Qed.

Lemma mp_alloc_from_scratch_ok pool len : (len <= length pool)%nat ->
  exists s pool', mp_alloc_from_scratch pool len = Ok (s, pool') /\
    length s = len /\ length pool' = (length pool - len)%nat.
Proof.
  intros H. unfold mp_alloc_from_scratch. rewrite (proj2 (Nat.leb_le _ _)) by done.
  cbn [c_assert]. do 2 eexists. split; [done|]. rewrite !length_mp_make_alias. lia.
Qed.

(** ** Correctness of the recursion *)

(** Adding [x] into the words from [off] on adds [B^off x]. *)
Lemma val_splice r r1 off x : wordsOK r -> (off <= length r)%nat ->
  val r1 = (val (drop off r) + x) mod Bp (length r - off) ->
  cong (Bp (length r)) (val (take off r ++ r1)) (val r + Bp off * x).
Proof.
  intros Hr Ho E. rewrite val_app, length_take_le, E by done.
  replace (val r) with (val (take off r) + Bp off * val (drop off r))
    by (rewrite <-(take_drop off r) at 3; by rewrite val_app, length_take_le by done).
  rewrite <-Z.add_assoc, <-Z.mul_add_distr_l. f_equiv.
  replace (length r) with (off + (length r - off))%nat at 1 by lia. rewrite Bp_add.
  apply cong_scale. apply cong_mod.
Qed.

(** A product cut to [n] words, at offset [off] of a number of [m] words. *)
Lemma cong_offset m n off x : (m <= off + n)%nat -> cong (Bp m) (Bp off * (x mod Bp n)) (Bp off * x).
Proof.
  intros H. apply cong_weaken with (Bp (off + n - m)). rewrite <-Bp_add.
  replace (m + (off + n - m))%nat with (off + n)%nat by lia. rewrite Bp_add.
  apply cong_scale. apply cong_mod.
Qed.

(** Cutting an operand to the length that matters. *)
Lemma cong_inlen n l x : wordsOK x -> (n <= l \/ length x <= l)%nat ->
  cong (Bp n) (val x mod Bp l) (val x).
Proof.
  intros Hx [H|H].
  - pose proof (cong_offset n l 0 (val x) H) as E. change (Bp 0) with 1 in E. by rewrite !Z.mul_1_l in E.
  - by rewrite Z.mod_small by (by apply val_bound_le).
Qed.

(** The two digits of an operand. *)
Lemma digits x p q :
  x mod Bp p + Bp p * ((x / Bp p) mod Bp q) = x mod Bp (p + q).
Proof. by rewrite Bp_add, Z.rem_mul_r by bplia. Qed.

Lemma product_bound p q x y : 0 <= x < Bp p -> 0 <= y < Bp q -> 0 <= x * y < Bp (p + q).
Proof. intros. rewrite Bp_add. nia. Qed.

(** What a call promises. *)
Definition mul_post (r a b r' : mp_int) : Prop :=
  length r' = length r /\ wordsOK r' /\ val r' = (val a * val b) mod Bp (length r).

Lemma alias0 x bot : wordsOK x -> val (mp_make_alias x 0 bot) = val x mod Bp bot.
Proof. intros Hx. rewrite val_mp_make_alias by done. change (Bp 0) with 1. by rewrite Z.div_1_r. Qed.

Lemma low_bound x bot : wordsOK x -> 0 <= val (mp_make_alias x 0 bot) < Bp bot.
Proof. intros Hx. rewrite alias0 by done. apply Z.mod_pos_bound. bplia. Qed.

Lemma high_bound x bot top : wordsOK x -> 0 <= val (mp_make_alias x bot top) < Bp top.
Proof. intros Hx. rewrite val_mp_make_alias by done. apply Z.mod_pos_bound. bplia. Qed.

Section Karatsuba.
Context (a b : mp_int) (n bot top : nat).
Context (Ha : wordsOK a) (Hb : wordsOK b) (Htop : (top <= bot)%nat).
Context (Hcut : (n <= bot + top \/ length a <= bot + top)%nat)
        (Hcut' : (n <= bot + top \/ length b <= bot + top)%nat).
Let a0 := mp_make_alias a 0 bot.
Let b0 := mp_make_alias b 0 bot.
Let a1 := mp_make_alias a bot top.
Let b1 := mp_make_alias b bot top.

(** The product of the operands, in the digits. *)
Lemma karatsuba_cong :
  cong (Bp n) (val a0 * val b0 + Bp (bot * 2) * (val a1 * val b1)
               + Bp bot * (val a0 * val b1 + val a1 * val b0)) (val a * val b).
Proof.
  rewrite <-(cong_inlen n _ a Ha Hcut), <-(cong_inlen n _ b Hb Hcut').
  rewrite <-!digits. unfold a0, b0, a1, b1. rewrite !alias0, !val_mp_make_alias by done.
  replace (bot * 2)%nat with (bot + bot)%nat by lia. rewrite Bp_add.
  apply reflexive_eq. ring.
Qed.

(** The words after the two outer products have been written. *)
Lemma outer_write z r0 r2 : length z = n ->
  mul_post (mp_make_alias z 0 (bot * 2)) a0 b0 r0 ->
  length r2 = (n - bot * 2)%nat ->
  write_alias (write_alias z 0 r0) (bot * 2) r2 = r0 ++ r2.
Proof.
  intros Hz (Hl0 & _ & _) Hl2. rewrite length_mp_make_alias in Hl0.
  rewrite (write_alias_eq z) by lia. rewrite take_0. cbn [plus app].
  unfold write_alias, alias_range. rewrite length_app, length_drop.
  destruct (Nat.ltb_spec (length r0 + (length z - length r0)) (bot * 2)) as [H|H].
  - destruct r2 as [|]; [|cbn in Hl2; lia]. rewrite (drop_ge z) by lia.
    rewrite !app_nil_r. cbn [app length]. by rewrite Nat.add_0_r, take_drop.
  - replace (bot * 2)%nat with (length r0) by lia. rewrite take_app_length. f_equal.
    rewrite (drop_ge (r0 ++ _)), app_nil_r; [done|]. rewrite length_app, length_drop. lia.
Qed.

Lemma outer_cong z z' r0 r2 : length z = n -> length z' = (n - bot * 2)%nat ->
  mul_post (mp_make_alias z 0 (bot * 2)) a0 b0 r0 ->
  mul_post z' a1 b1 r2 ->
  wordsOK (r0 ++ r2) /\ length (r0 ++ r2) = n /\
  cong (Bp n) (val (r0 ++ r2)) (val a0 * val b0 + Bp (bot * 2) * (val a1 * val b1)).
Proof.
  intros Hz Hz' (Hl0 & Hr0 & E0) (Hl2 & Hr2 & E2).
  rewrite length_mp_make_alias in Hl0, E0. rewrite Hz' in Hl2, E2.
  split_and!; [by apply wordsOK_app|rewrite length_app; lia|].
  rewrite val_app, E0, E2, Hl0, Hz, Nat.sub_0_r.
  destruct (Nat.le_gt_cases (bot * 2) n) as [H|H].
  - replace ((bot * 2) `min` n)%nat with (bot * 2)%nat by lia.
    rewrite cong_offset by lia. rewrite (Z.mod_small (val a0 * val b0)); [done|].
    replace (bot * 2)%nat with (bot + bot)%nat by lia.
    apply product_bound; by apply low_bound.
  - replace ((bot * 2) `min` n)%nat with n by lia.
    rewrite cong_mod, (cong_self (Bp n)). replace (bot * 2)%nat with (n + (bot * 2 - n))%nat by lia.
    by rewrite Bp_add, <-Z.mul_assoc, (cong_self (Bp n)).
Qed.
End Karatsuba.

(** The scratch space and the depth of the recursion suffice at every stage. *)
Lemma half_lengths l : (24 <= l)%nat ->
  (l / 2 <= l - l / 2 /\ l - l / 2 + l / 2 = l /\ l - l / 2 + 1 < l /\ 2 * (l - l / 2) <= l + 1)%nat.
Proof. intros H. pose proof (Nat.div_mod l 2). pose proof (Nat.mod_upper_bound l 2). lia. Qed.

Definition mul_pre (fuel : nat) (r a b scratch : mp_int) : Prop :=
  wordsOK a /\ wordsOK b /\ (mul_inlen (length r) (length a) (length b) < fuel)%nat /\
  (6 * mul_inlen (length r) (length a) (length b) <= length scratch)%nat.

Ltac inlen_lia := unfold mul_inlen; rewrite ?length_mp_make_alias, ?length_replicate; lia.

(** The middle terms, added in with the right offset. *)
Lemma middle_write r r1 x bot n : wordsOK r -> length r = n -> (bot <= n)%nat ->
  length r1 = (n - bot)%nat -> wordsOK r1 ->
  val r1 = (val (drop bot r) + x) mod Bp (n - bot) ->
  length (write_alias r bot r1) = n /\ wordsOK (write_alias r bot r1) /\
  cong (Bp n) (val (write_alias r bot r1)) (val r + Bp bot * x).
Proof.
  intros Hr <- Hb Hl Hr1 E. rewrite write_alias_eq by lia.
  rewrite (drop_ge r), app_nil_r by lia.
  split_and!; [rewrite length_app, length_take; lia|apply wordsOK_app; auto with cmodel|].
  by apply val_splice.
Qed.

Lemma add_offset r s1 s2 n bot (m : nat) x y :
  (n <= bot + m)%nat -> s1 = x mod Bp m -> s2 = y mod Bp m ->
  cong (Bp n) (r + Bp bot * (s1 + s2)) (r + Bp bot * (x + y)).
Proof.
  intros Hm -> ->. f_equiv. rewrite !Z.mul_add_distr_l. f_equiv; by apply cong_offset.
Qed.

(** A product stored in [p `min` k] words, where it would fit in [p]: the same
    as the product stored in [k] words. *)
Lemma fit_mod p k x : 0 <= x < Bp p -> x mod Bp (p `min` k) = x mod Bp k.
Proof.
  intros Hx. destruct (Nat.le_gt_cases p k).
  - replace (p `min` k)%nat with p by lia. pose proof (Bp_mono p k ltac:(done)).
    by rewrite !Z.mod_small by lia.
  - by replace (p `min` k)%nat with k by lia.
Qed.

(** What is left of the product of the sums once the outer products are
    subtracted. *)
Lemma karatsuba_middle bot top x0 x1 y0 y1 :
  0 <= x0 < Bp bot -> 0 <= x1 < Bp top -> 0 <= y0 < Bp bot -> 0 <= y1 < Bp top -> (top <= bot)%nat ->
  ((((x0 + x1) mod Bp (bot + 1) * ((y0 + y1) mod Bp (bot + 1))) mod Bp (bot * 2 + 1) - x0 * y0)
     mod Bp (bot * 2 + 1) - x1 * y1) mod Bp (bot * 2 + 1) = x0 * y1 + x1 * y0.
Proof.
  intros Hx0 Hx1 Hy0 Hy1 Hle. pose proof (Bp_mono _ _ Hle) as Hm.
  rewrite (Bp_add bot 1), (Z.mod_small (x0 + x1)), (Z.mod_small (y0 + y1)) by (change (Bp 1) with B; lia).
  rewrite Zminus_mod_idemp_l, <-Z.sub_add_distr, Zminus_mod_idemp_l. rewrite Z.mod_small; [ring|].
  replace (bot * 2 + 1)%nat with (bot + bot + 1)%nat by lia. rewrite !Bp_add. change (Bp 1) with B.
  assert (0 <= x0 * y1 < Bp bot * Bp bot) by nia. assert (0 <= x1 * y0 < Bp bot * Bp bot) by nia.
  lia.
Qed.

Lemma alloc_step {A} pool len (k : mp_int * mp_int -> res A) (P : A -> Prop) :
  (len <= length pool)%nat ->
  (forall s pool', length s = len -> length pool' = (length pool - len)%nat ->
     exists x, k (s, pool') = Ok x /\ P x) ->
  exists x, res_bind (mp_alloc_from_scratch pool len) k = Ok x /\ P x.
Proof.
  intros H Hk. destruct (mp_alloc_from_scratch_ok pool len H) as (s & pool' & -> & Hs & Hp).
  by apply Hk.
Qed.

Section Step.
Context (fuel : nat).
Hypothesis IH : forall r a b scratch, mul_pre fuel r a b scratch ->
  exists r', mp_mul_rec fuel r a b scratch = Ok r' /\ mul_post r a b r'.

Lemma mul_step {A} r a b scratch (k : mp_int -> res A) (P : A -> Prop) :
  mul_pre fuel r a b scratch ->
  (forall r', mul_post r a b r' -> exists x, k r' = Ok x /\ P x) ->
  exists x, res_bind (mp_mul_rec fuel r a b scratch) k = Ok x /\ P x.
Proof. intros H Hk. destruct (IH _ _ _ _ H) as (r' & -> & Hr). by apply Hk. Qed.

Context (a b : mp_int) (n bot top : nat) (r : mp_int).
Context (Ha : wordsOK a) (Hb : wordsOK b) (Hr : wordsOK r) (Hn : length r = n).
Context (Htop : (top <= bot)%nat) (Hbn : (bot <= n)%nat) (Hbig : (bot + 1 < bot + top)%nat).
Context (Hcut : (n <= bot + top \/ length a <= bot + top)%nat)
        (Hcut' : (n <= bot + top \/ length b <= bot + top)%nat).
Let a0 := mp_make_alias a 0 bot.
Let b0 := mp_make_alias b 0 bot.
Let a1 := mp_make_alias a bot top.
Let b1 := mp_make_alias b bot top.
Context (Hout : cong (Bp n) (val r) (val a0 * val b0 + Bp (bot * 2) * (val a1 * val b1))).

Definition result_ok (r' : mp_int) : Prop :=
  length r' = n /\ wordsOK r' /\ val r' = (val a * val b) mod Bp n.

Lemma result_from_cong r' : length r' = n -> wordsOK r' ->
  cong (Bp n) (val r') (val r + Bp bot * (val a0 * val b1 + val a1 * val b0)) -> result_ok r'.
Proof.
  intros Hl Hok E. split_and!; [done..|]. apply cong_small; [rewrite <-Hl; by apply val_bound|].
  rewrite E, Hout. by apply karatsuba_cong.
Qed.

Lemma add_middle_products_ok scratch :
  (bot < fuel)%nat -> (6 * (bot + top) <= length scratch)%nat ->
  (2 * bot <= bot + top + 1)%nat ->
  exists r', add_middle_products (mp_mul_rec fuel) r a0 a1 b0 b1 bot top scratch = Ok r' /\ result_ok r'.
Proof.
  intros Hfuel Hscr Hhalf. unfold add_middle_products. rewrite length_mp_make_alias.
  replace (length r `min` (length r - bot))%nat with (n - bot)%nat by lia.
  apply alloc_step; [lia|]. intros s pool Hs Hpool.
  assert (mul_pre fuel s a0 b1 pool /\ forall s', length s' = length s -> mul_pre fuel s' a1 b0 pool)
    as [Hpre1 Hpre2].
  { unfold a0, b0, a1, b1.
    split; [|intros s' Hs']; (split_and!; [auto with cmodel..| |]); inlen_lia. }
  apply mul_step; [done|].
  intros s1 (Hl1 & Hok1 & E1). rewrite mp_make_alias_eq.
  rewrite (take_ge (drop bot r)) by (rewrite length_drop; lia).
  destruct (mp_add_into_spec (n - bot) (drop bot r) s1) as (Hla & Hoka & Ea); [auto with cmodel..|].
  apply mul_step; [by apply Hpre2|].
  intros s2 (Hl2 & Hok2 & E2). rewrite Hla.
  destruct (mp_add_into_spec (n - bot) (mp_add_into (n - bot) (drop bot r) s1) s2)
    as (Hlb & Hokb & Eb); [done..|].
  rewrite Ea, Zplus_mod_idemp_l, <-Z.add_assoc in Eb.
  destruct (middle_write r _ _ bot n Hr Hn Hbn Hlb Hokb Eb) as (H1 & H2 & H3).
  eexists. split; [done|]. apply result_from_cong; [done..|]. rewrite H3.
  apply (add_offset _ _ _ _ _ (n - bot)); [lia|..].
  - rewrite E1, Hs. apply fit_mod. apply product_bound; [by apply low_bound|by apply high_bound].
  - rewrite E2, Hl1, Hs. apply fit_mod. rewrite Nat.add_comm.
    apply product_bound; [by apply high_bound|by apply low_bound].
Qed.

(** With room for the whole product, the outer products are there in full. *)
Lemma outer_exact : (2 * (bot + top) <= n)%nat ->
  val (mp_make_alias r 0 (bot * 2)) = val a0 * val b0 /\
  val (mp_make_alias r (bot * 2) (length r)) = val a1 * val b1.
Proof.
  intros Hfull.
  pose proof (product_bound _ _ _ _ (low_bound a bot Ha) (low_bound b bot Hb)) as H0.
  pose proof (product_bound _ _ _ _ (high_bound a bot top Ha) (high_bound b bot top Hb)) as H1.
  fold a0 b0 in H0. fold a1 b1 in H1. replace (bot + bot)%nat with (bot * 2)%nat in H0 by lia.
  assert (val r = val a0 * val b0 + Bp (bot * 2) * (val a1 * val b1)) as E.
  { destruct Hout as [E]. rewrite !Z.mod_small in E; [done| |rewrite <-Hn; by apply val_bound].
    pose proof (Bp_mono _ _ Hfull) as Hm.
    replace (2 * (bot + top))%nat with (bot * 2 + (top + top))%nat in Hm by lia.
    rewrite Bp_add in Hm. nia. }
  rewrite alias0, val_mp_make_alias, E, (Z.mul_comm (Bp (bot * 2))) by done.
  rewrite Z.mod_add, Z.div_add, (Z.mod_small (_ * _)), Z.div_small by bplia.
  split; [done|]. apply Z.mod_small.
  pose proof (Bp_mono (top + top) (length r) ltac:(lia)). lia.
Qed.

Lemma add_karatsuba_product_ok scratch :
  (bot + 1 < fuel)%nat -> (6 * (bot + top) <= length scratch)%nat ->
  (2 * bot <= bot + top + 1)%nat -> (24 <= bot + top)%nat -> (2 * (bot + top) <= n)%nat ->
  exists r', add_karatsuba_product (mp_mul_rec fuel) r a0 a1 b0 b1 bot scratch = Ok r' /\ result_ok r'.
Proof.
  intros Hfuel Hscr Hhalf H24 Hfull. unfold add_karatsuba_product.
  destruct (outer_exact Hfull) as [E0 E2].
  set (r0 := mp_make_alias r 0 (bot * 2)) in *. set (r2 := mp_make_alias r (bot * 2) (length r)) in *.
  assert (wordsOK r0 /\ wordsOK r2) as [Hr0 Hr2] by (unfold r0, r2; auto with cmodel).
  assert (wordsOK a0 /\ wordsOK a1 /\ wordsOK b0 /\ wordsOK b1) as (Ha0 & Ha1 & Hb0 & Hb1)
    by (unfold a0, a1, b0, b1; auto with cmodel).
  rewrite length_mp_make_alias, mp_make_alias_eq.
  replace (length r `min` (length r - bot))%nat with (n - bot)%nat by lia.
  rewrite (take_ge (drop bot r)) by (rewrite length_drop; lia).
  apply alloc_step; [lia|]. intros asum pool1 Hla Hp1.
  apply alloc_step; [lia|]. intros bsum pool2 Hlb Hp2. rewrite Hla, Hlb.
  destruct (mp_add_into_spec (bot + 1) a0 a1) as (Hlas & Hoka & Ea); [done..|].
  destruct (mp_add_into_spec (bot + 1) b0 b1) as (Hlbs & Hokb & Eb); [done..|].
  apply alloc_step; [lia|]. intros product pool3 Hlp Hp3.
  apply mul_step.
  { split_and!; [done..| |]; unfold mul_inlen; lia. }
  intros p1 (Hl1 & Hok1 & E1). rewrite Hl1, Hlp.
  destruct (mp_sub_into_spec (bot * 2 + 1) p1 r0) as (Hl2 & Hok2 & E2'); [done..|].
  destruct (mp_sub_into_spec (bot * 2 + 1) (mp_sub_into (bot * 2 + 1) p1 r0) r2) as (Hl3 & Hok3 & E3); [done..|].
  rewrite Hl2. set (p3 := mp_sub_into (bot * 2 + 1) (mp_sub_into (bot * 2 + 1) p1 r0) r2) in *.
  destruct (mp_add_into_spec (n - bot) (drop bot r) p3) as (Hl4 & Hok4 & E4); [auto with cmodel|done|].
  destruct (middle_write r _ _ bot n Hr Hn Hbn Hl4 Hok4 E4) as (H1 & H2 & H3).
  eexists. split; [done|]. apply result_from_cong; [done..|]. rewrite H3.
  apply reflexive_eq. do 2 f_equal.
  rewrite E3, E2', E1, E0, E2, Hlp, Ea, Eb. apply (karatsuba_middle bot top);
    [by apply low_bound|by apply high_bound|by apply low_bound|by apply high_bound|done].
Qed.
End Step.

Lemma mp_mul_rec_ok fuel : forall r a b scratch, mul_pre fuel r a b scratch ->
  exists r', mp_mul_rec fuel r a b scratch = Ok r' /\ mul_post r a b r'.
Proof.
  induction fuel as [|fuel IH]; intros r a b scratch (Ha & Hb & Hf & Hs); [lia|].
  cbn [mp_mul_rec]. set (inlen := mul_inlen _ _ _) in *.
  rewrite c_assert_true by (apply Nat.leb_le; unfold mp_mul_scratchspace_unary; lia).
  set (z := mp_clear r). assert (length z = length r) as Hz by apply length_replicate.
  destruct (_ || _) eqn:Esmall.
  - eexists. split; [done|]. unfold mul_post. rewrite <-Hz.
    destruct (mp_mul_add_simple_spec a z b) as (? & ? & E); [apply wordsOK_replicate_0|done..|].
    split_and!; [done..|]. rewrite E. unfold z, mp_clear. by rewrite val_replicate_0.
  - apply orb_false_elim in Esmall as [[Hbig%Nat.ltb_ge _]%orb_false_elim _].
    unfold KARATSUBA_THRESHOLD in Hbig. destruct (half_lengths inlen Hbig) as (Hh1 & Hh2 & Hh3 & Hh4).
    set (top := (inlen / 2)%nat) in *. set (bot := (inlen - top)%nat) in *.
    assert (inlen = mul_inlen (length r) (length a) (length b)) as Hin by done. clearbody top bot.
    unfold mul_inlen in Hin.
    apply (mul_step fuel IH); [split_and!; [auto with cmodel..| |]; inlen_lia|].
    intros r0 P0. apply (mul_step fuel IH); [split_and!; [auto with cmodel..| |]; inlen_lia|].
    intros r2 P2.
    assert (length (write_alias z 0 r0) = length r) as Hw.
    { destruct P0 as (Hl0 & _). rewrite length_mp_make_alias in Hl0. rewrite write_alias_eq by lia.
      rewrite !length_app, length_drop, take_0. cbn. lia. }
    assert (length r2 = (length r - bot * 2)%nat) as Hl2.
    { destruct P2 as (-> & _). rewrite length_mp_make_alias, Hw. lia. }
    assert (length r <= bot + top \/ length a <= bot + top)%nat as Hca by lia.
    assert (length r <= bot + top \/ length b <= bot + top)%nat as Hcb by lia.
    rewrite (outer_write a b (length r) bot top Hh1 Hca Hcb z r0 r2) by done.
    destruct (outer_cong a b (length r) bot top Ha Hb Hh1 Hca Hcb
      z (mp_make_alias (write_alias z 0 r0) (bot * 2) (length (write_alias z 0 r0))) r0 r2)
      as (Hok & Hlen & Hcong); [done|by rewrite length_mp_make_alias, Hw; lia|done|done|].
    rewrite Hlen. destruct (Nat.ltb_spec (length r) (inlen * 2)).
    + apply (add_middle_products_ok fuel IH a b (length r)); (done || lia).
    + apply (add_karatsuba_product_ok fuel IH a b (length r) bot top); (done || lia).
Qed.

Lemma mp_mul_internal_ok r a b scratch : wordsOK a -> wordsOK b ->
  (6 * mul_inlen (length r) (length a) (length b) <= length scratch)%nat ->
  exists r', mp_mul_internal r a b scratch = Ok r' /\ mul_post r a b r'.
Proof. intros Ha Hb Hs. apply mp_mul_rec_ok. split_and!; [done..|lia|done]. Qed.

Lemma mp_mul_into_spec r a b :
  wordsOK a -> wordsOK b -> (0 < length r)%nat -> (0 < length a \/ 0 < length b)%nat ->
  exists r', mp_mul_into r a b = Ok r' /\ mul_post r a b r'.
Proof.
  intros Ha Hb Hr Hab. unfold mp_mul_into, mp_make_sized, mp_mul_scratchspace, mp_mul_scratchspace_unary.
  rewrite c_assert_true by (apply Nat.ltb_lt; unfold mul_inlen; lia). cbn [res_bind].
  apply mp_mul_internal_ok; [done..|rewrite length_replicate; lia].
Qed.

(** The whole product. *)
Lemma mp_mul_spec x y : wordsOK x -> wordsOK y -> (0 < length x)%nat ->
  exists r, mp_mul x y = Ok r /\ length r = (length x + length y)%nat /\ wordsOK r /\
    val r = val x * val y.
Proof.
  intros Hx Hy Hl. unfold mp_mul, mp_make_sized.
  rewrite c_assert_true by (apply Nat.ltb_lt; lia). cbn [res_bind].
  destruct (mp_mul_into_spec (replicate (length x + length y) 0) x y) as (r & -> & Hlr & Hr & E);
    [done..|rewrite length_replicate; lia|lia|].
  rewrite length_replicate in Hlr, E. exists r. split_and!; [done..|]. rewrite E. apply Z.mod_small.
  apply product_bound; by apply val_bound.
Qed.
