(* ===== verification/MpintShift.v ===== *)
(** * Multiprecision integers: shifts and reduction modulo a power of two
    ([libs/putty/crypto/mpint.c], [mp_lshift_fixed_into] to
    [mp_reduce_mod_2to]) *)

From S2P Require Import Prelude MpintCore MpintArith.

Local Open Scope Z_scope.
Local Open Scope cmodel_scope.

(** ** Shifts by a public amount *)

(** The loop runs downwards, so that [r] may be the same object as [a]: the
    words it reads, at [i - words] and below, have not been written yet. *)
Definition mp_lshift_fixed_into (nw : nat) (a : mp_int) (bits : nat) : mp_int :=
  let words := (bits / 32)%nat in
  let bitoff := Z.of_nat (bits mod 32) in
  fill nw (fun i =>
    if (i <? words)%nat then 0
    else
      let w := mp_word a (i - words) in
      if bitoff =? 0 then w
      else
        let w := w32 (Z.shiftl w bitoff) in
        if (words <? i)%nat
        then Z.lor w (Z.shiftr (mp_word a (i - words - 1)) (BIGNUM_INT_BITS - bitoff))
        else w).

(** Upwards: the words read, at [i + words] and above, have not been written. *)
Definition mp_rshift_fixed_into (nw : nat) (a : mp_int) (bits : nat) : mp_int :=
  let words := (bits / 32)%nat in
  let bitoff := Z.of_nat (bits mod 32) in
  fill nw (fun i =>
    let w := mp_word a (i + words) in
    if bitoff =? 0 then w
    else Z.lor (Z.shiftr w bitoff)
           (w32 (Z.shiftl (mp_word a (i + words + 1)) (BIGNUM_INT_BITS - bitoff)))).

Definition mp_lshift_fixed (x : mp_int) (bits : nat) : res mp_int :=
  let words := ((bits + 32 - 1) / 32)%nat in
  let! r := mp_make_sized (length x + words) in
  Ok (mp_lshift_fixed_into (length r) x bits).

Definition mp_rshift_fixed (x : mp_int) (bits : nat) : res mp_int :=
  let words := (bits / 32)%nat in
  let nw := (length x - length x `min` words)%nat in
  let! r := mp_make_sized (nw `max` 1) in
  Ok (mp_rshift_fixed_into (length r) x bits).

(** ** Shifts by a secret amount *)

(** The values of [bit] for which a loop [for (bit = 0; n >> bit; bit++)]
    runs are those below [bit_count n]. *)
Definition bit_count (n : nat) : nat := match n with O => O | _ => S (Nat.log2 n) end.

(** [(nw - wordshift) >> (CHAR_BIT * sizeof(size_t) - 1)], on a 64-bit
    [size_t]. *)
Definition shift_clears (nw wordshift : nat) : Z :=
  Z.shiftr (w64 (Z.of_nat nw - Z.of_nat wordshift)) 63.

Definition cond_word (w new mask : Z) : Z := Z.lxor w (Z.land (Z.lxor w new) mask).

(** One round of the shift by words, and one of the shift by bits. *)
Definition rshift_words_round (wordshift : nat) (r : mp_int) (bit : nat) : mp_int :=
  let word_offset := (2 ^ bit)%nat in
  let mask := mask_of (Z.shiftr (Z.of_nat wordshift) (Z.of_nat bit)) in
  fill (length r) (fun i => cond_word (mp_word r i) (mp_word r (i + word_offset)) mask).

Definition rshift_bits_round (bitshift : nat) (r : mp_int) (bit : nat) : mp_int :=
  let shift := Z.of_nat (2 ^ bit) in
  let upshift := BIGNUM_INT_BITS - shift in
  let mask := mask_of (Z.shiftr (Z.of_nat bitshift) (Z.of_nat bit)) in
  fill (length r) (fun i =>
    cond_word (mp_word r i)
      (Z.lor (Z.shiftr (mp_word r i) shift) (w32 (Z.shiftl (mp_word r (i + 1)) upshift))) mask).

Definition mp_rshift_safe_in_place (r : mp_int) (bits : nat) : mp_int :=
  let wordshift := (bits / 32)%nat in
  let bitshift := (bits mod 32)%nat in
  let r := mp_cond_clear r (shift_clears (length r) wordshift) in
  let r := fold_left (rshift_words_round wordshift) (seq 0 (bit_count (length r))) r in
  fold_left (rshift_bits_round bitshift) (seq 0 5) r.

(** [mp_from_words]: a fresh number holding [nw] words. *)
Definition mp_from_words (nw : nat) (w : list Z) : res mp_int :=
  let! x := mp_make_sized nw in Ok (take (length x) w).

Definition mp_copy (x : mp_int) : res mp_int := mp_from_words (length x) x.

Definition mp_rshift_safe (x : mp_int) (bits : nat) : res mp_int :=
  let! r := mp_copy x in Ok (mp_rshift_safe_in_place r bits).

Definition mp_rshift_safe_into (nw : nat) (x : mp_int) (bits : nat) : mp_int :=
  mp_rshift_safe_in_place (mp_copy_into nw x) bits.

(** [mp_word(r, i - word_offset)] reads zero when the [size_t] wraps. *)
Definition mp_word_below (r : mp_int) (i off : nat) : Z :=
  if (i <? off)%nat then 0 else mp_word r (i - off).

Definition lshift_words_round (wordshift : nat) (r : mp_int) (bit : nat) : mp_int :=
  let word_offset := (2 ^ bit)%nat in
  let mask := mask_of (Z.shiftr (Z.of_nat wordshift) (Z.of_nat bit)) in
  fill (length r) (fun i => cond_word (mp_word r i) (mp_word_below r i word_offset) mask).

Definition mp_lshift_safe_in_place (r : mp_int) (bits : nat) : mp_int :=
  let wordshift := (bits / 32)%nat in
  let bitshift := Z.of_nat (bits mod 32) in
  let r := mp_cond_clear r (shift_clears (length r) wordshift) in
  let r := fold_left (lshift_words_round wordshift) (seq 0 (bit_count (length r))) r in
  let downshift := BIGNUM_INT_BITS - bitshift in
  let no_shift := Z.shiftr downshift BIGNUM_INT_BITS_BITS in
  let downshift := Z.land downshift (w64 (Z.lnot (w64 (- no_shift)))) in
  let downshifted_mask := w32 (Z.lnot (w32 (- no_shift))) in
  fill (length r) (fun i =>
    Z.lor (w32 (Z.shiftl (mp_word r i) bitshift))
      (Z.land (Z.shiftr (mp_word_below r i 1) downshift) downshifted_mask)).

Definition mp_lshift_safe_into (nw : nat) (x : mp_int) (bits : nat) : mp_int :=
  mp_lshift_safe_in_place (mp_copy_into nw x) bits.

(** [mp_reduce_mod_2to]: the mask applies to the word that holds bit [p], and
    the words above it are cleared. *)
Definition mp_reduce_mod_2to (x : mp_int) (p : nat) : mp_int :=
  let word := (p / 32)%nat in
  let mask := 2 ^ Z.of_nat (p mod 32) - 1 in
  fill (length x) (fun i =>
    if (i <? word)%nat then mp_word x i
    else if (i =? word)%nat then Z.land (mp_word x i) mask
    else Z.land (mp_word x i) 0).

(** ** Bit by bit *)

(** A number is determined by the bits of its words. *)
Lemma val_bits x v n : wordsOK x -> length x = n -> 0 <= v ->
  (forall i j, (i < n)%nat -> 0 <= j < 32 ->
     Z.testbit (mp_word x i) j = Z.testbit v (32 * Z.of_nat i + j)) ->
  val x = v mod Bp n.
Proof.
  intros Hx Hl Hv H. apply Z.bits_inj'. intros k Hk.
  destruct (Z.lt_ge_cases k (32 * Z.of_nat n)).
  - rewrite Z.mod_pow2_bits_low by done. destruct (bit_split k Hk) as (i & j & -> & Hj).
    rewrite val_testbit by done. apply H; lia.
  - rewrite Z.mod_pow2_bits_high by lia. apply (bits_high (32 * Z.of_nat n)); [|done].
    rewrite <-Hl. by apply val_bound.
Qed.

Lemma w32_testbit x j : 0 <= j < 32 -> Z.testbit (w32 x) j = Z.testbit x j.
Proof. intros. apply Z.mod_pow2_bits_low. lia. Qed.

Lemma is_word_shiftr w k : is_word w -> 0 <= k -> is_word (Z.shiftr w k).
Proof.
  unfold is_word. intros Hw Hk. rewrite Z.shiftr_div_pow2 by done.
  pose proof (Z.pow_pos_nonneg 2 k). split; [apply Z.div_pos; lia|].
  apply Z.div_lt_upper_bound; [lia|]. nia.
Qed.

#[export] Hint Resolve is_word_shiftr : cmodel.

Lemma mp_word_high x i j : wordsOK x -> 32 <= j -> Z.testbit (mp_word x i) j = false.
Proof. intros Hx Hj. apply (bits_high 32); [|done]. by apply mp_word_range. Qed.

(** The two halves of a word shifted across a word boundary. *)
Lemma lshift_word_bits x i off j : wordsOK x -> 0 < off < 32 -> 0 <= j < 32 ->
  Z.testbit (Z.lor (w32 (Z.shiftl (mp_word x (S i)) off)) (Z.shiftr (mp_word x i) (32 - off))) j =
  Z.testbit (val x) (32 * Z.of_nat (S i) + j - off).
Proof.
  intros Hx Ho Hj. rewrite Z.lor_spec, w32_testbit, Z.shiftl_spec, Z.shiftr_spec by lia.
  destruct (Z.lt_ge_cases j off).
  - rewrite (Z.testbit_neg_r _ (j - off)) by lia. cbn [orb].
    rewrite <-val_testbit by lia || done. f_equal. lia.
  - rewrite (mp_word_high x i) by (done || lia). rewrite orb_false_r.
    rewrite <-val_testbit by lia || done. f_equal. lia.
Qed.

Lemma rshift_word_bits x i off j : wordsOK x -> 0 < off < 32 -> 0 <= j < 32 ->
  Z.testbit (Z.lor (Z.shiftr (mp_word x i) off) (w32 (Z.shiftl (mp_word x (S i)) (32 - off)))) j =
  Z.testbit (val x) (32 * Z.of_nat i + j + off).
Proof.
  intros Hx Ho Hj. rewrite Z.lor_comm.
  pose proof (lshift_word_bits x i (32 - off) j Hx ltac:(lia) Hj) as H.
  replace (32 - (32 - off)) with off in H by lia. rewrite H. f_equal. lia.
Qed.

Lemma nat_bits_split bits : Z.of_nat bits = 32 * Z.of_nat (bits / 32) + Z.of_nat (bits mod 32) /\
  0 <= Z.of_nat (bits mod 32) < 32.
Proof.
  pose proof (Nat.div_mod bits 32). pose proof (Nat.mod_upper_bound bits 32). lia.
Qed.

Lemma mp_lshift_fixed_into_spec nw a bits : wordsOK a ->
  length (mp_lshift_fixed_into nw a bits) = nw /\ wordsOK (mp_lshift_fixed_into nw a bits) /\
  val (mp_lshift_fixed_into nw a bits) = (val a * 2 ^ Z.of_nat bits) mod Bp nw.
Proof.
  intros Ha. destruct (nat_bits_split bits) as [Hb Hoff].
  unfold mp_lshift_fixed_into, BIGNUM_INT_BITS.
  set (words := (bits / 32)%nat) in *. set (off := Z.of_nat (bits mod 32)) in *.
  assert (wordsOK (mp_lshift_fixed_into nw a bits)) as Hok.
  { apply wordsOK_fill. intros i Hi. fold words off. unfold BIGNUM_INT_BITS.
    repeat case_match; auto with cmodel; unfold is_word; lia. }
  split_and!; [apply length_fill|done|]. rewrite <-Z.shiftl_mul_pow2 by lia.
  apply val_bits; [done|apply length_fill|by apply Z.shiftl_nonneg, val_bound|].
  intros i j Hi Hj. rewrite mp_word_fill, decide_True, Z.shiftl_spec by lia.
  destruct (Nat.ltb_spec i words).
  { rewrite Z.bits_0. symmetry. apply Z.testbit_neg_r. lia. }
  replace (32 * Z.of_nat i + j - Z.of_nat bits) with (32 * Z.of_nat (i - words) + j - off) by lia.
  destruct (Z.eqb_spec off 0) as [-> |Hne].
  { rewrite Z.sub_0_r. by rewrite val_testbit. }
  destruct (Nat.ltb_spec words i).
  - destruct (i - words)%nat as [|m] eqn:Em; [lia|]. replace (S m - 1)%nat with m by lia.
    apply lshift_word_bits; lia || done.
  - replace (i - words)%nat with 0%nat by lia. rewrite w32_testbit, Z.shiftl_spec by lia.
    destruct (Z.lt_ge_cases j off).
    + by rewrite !Z.testbit_neg_r by lia.
    + rewrite <-val_testbit by (done || lia). f_equal; lia.
Qed.

Lemma mp_rshift_fixed_into_spec nw a bits : wordsOK a ->
  length (mp_rshift_fixed_into nw a bits) = nw /\ wordsOK (mp_rshift_fixed_into nw a bits) /\
  val (mp_rshift_fixed_into nw a bits) = (val a / 2 ^ Z.of_nat bits) mod Bp nw.
Proof.
  intros Ha. destruct (nat_bits_split bits) as [Hb Hoff].
  unfold mp_rshift_fixed_into, BIGNUM_INT_BITS.
  set (words := (bits / 32)%nat) in *. set (off := Z.of_nat (bits mod 32)) in *.
  assert (wordsOK (mp_rshift_fixed_into nw a bits)) as Hok.
  { apply wordsOK_fill. intros i Hi. fold words off. unfold BIGNUM_INT_BITS.
    repeat case_match; auto with cmodel. }
  split_and!; [apply length_fill|done|]. rewrite <-Z.shiftr_div_pow2 by lia.
  apply val_bits; [done|apply length_fill|by apply Z.shiftr_nonneg, val_bound|].
  intros i j Hi Hj. rewrite mp_word_fill, decide_True, Z.shiftr_spec by lia.
  replace (32 * Z.of_nat i + j + Z.of_nat bits) with (32 * Z.of_nat (i + words) + j + off) by lia.
  destruct (Z.eqb_spec off 0) as [-> |Hne].
  { rewrite Z.add_0_r. by rewrite val_testbit. }
  rewrite Nat.add_1_r. apply rshift_word_bits; done || lia.
Qed.

(** [mp_lshift_fixed] keeps every bit. *)
Lemma mp_lshift_fixed_spec x bits : wordsOK x -> (0 < length x)%nat ->
  exists r, mp_lshift_fixed x bits = Ok r /\ wordsOK r /\ val r = val x * 2 ^ Z.of_nat bits.
Proof.
  intros Hx Hl. unfold mp_lshift_fixed, mp_make_sized.
  rewrite c_assert_true by (apply Nat.ltb_lt; lia). cbn [res_bind]. rewrite length_replicate.
  set (words := ((bits + 32 - 1) / 32)%nat).
  destruct (mp_lshift_fixed_into_spec (length x + words) x bits Hx) as (_ & ? & E).
  eexists. split_and!; [done..|]. rewrite E. apply Z.mod_small.
  assert (2 ^ Z.of_nat bits <= Bp words).
  { apply Z.pow_le_mono_r; [lia|]. unfold words.
    pose proof (Nat.div_mod (bits + 32 - 1) 32). pose proof (Nat.mod_upper_bound (bits + 32 - 1) 32). lia. }
  pose proof (val_bound x Hx). rewrite Bp_add. pose proof (Z.pow_pos_nonneg 2 (Z.of_nat bits)). nia.
Qed.

Lemma mp_rshift_fixed_spec x bits : wordsOK x ->
  exists r, mp_rshift_fixed x bits = Ok r /\ (0 < length r)%nat /\ wordsOK r /\ val r = val x / 2 ^ Z.of_nat bits.
Proof.
  intros Hx. unfold mp_rshift_fixed, mp_make_sized.
  rewrite c_assert_true by (apply Nat.ltb_lt; lia). cbn [res_bind]. rewrite length_replicate.
  set (nw := (_ `max` 1)%nat).
  destruct (mp_rshift_fixed_into_spec nw x bits Hx) as (Hl & ? & E).
  eexists. split_and!; [done|unfold nw in *; lia|done|]. rewrite E. apply Z.mod_small.
  pose proof (val_bound x Hx). split; [apply Z.div_pos; [lia|apply Z.pow_pos_nonneg; lia]|].
  apply Z.div_lt_upper_bound; [apply Z.pow_pos_nonneg; lia|].
  rewrite <-Z.pow_add_r by lia.
  apply Z.lt_le_trans with (Bp (length x)); [lia|]. apply Z.pow_le_mono_r; [lia|].
  destruct (nat_bits_split bits). unfold nw. lia.
Qed.

Lemma mp_reduce_mod_2to_spec x p : wordsOK x ->
  length (mp_reduce_mod_2to x p) = length x /\ wordsOK (mp_reduce_mod_2to x p) /\
  val (mp_reduce_mod_2to x p) = val x mod 2 ^ Z.of_nat p.
Proof.
  intros Hx. destruct (nat_bits_split p) as [Hb Hoff]. pose proof (val_bound x Hx) as Hbd.
  set (word := (p / 32)%nat) in *. set (off := Z.of_nat (p mod 32)) in *.
  assert (wordsOK (mp_reduce_mod_2to x p)) as Hok.
  { apply wordsOK_fill. intros i Hi. repeat case_match; auto with cmodel. }
  split_and!; [apply length_fill|done|].
  assert (0 <= val x mod 2 ^ Z.of_nat p <= val x).
  { split; [apply Z.mod_pos_bound, Z.pow_pos_nonneg; lia|].
    apply Z.mod_le; [lia|apply Z.pow_pos_nonneg; lia]. }
  rewrite <-(Z.mod_small (val x mod _) (Bp (length x))) by lia.
  apply val_bits; [done|apply length_fill|lia|].
  intros i j Hi Hj. unfold mp_reduce_mod_2to. rewrite mp_word_fill, decide_True by lia.
  fold word off. destruct (Z.lt_ge_cases (32 * Z.of_nat i + j) (Z.of_nat p)) as [Hlt|Hge].
  - rewrite Z.mod_pow2_bits_low, val_testbit by (done || lia).
    destruct (Nat.ltb_spec i word); [done|]. destruct (Nat.eqb_spec i word); [|lia].
    rewrite Z.land_spec, Z.sub_1_r, <-Z.ones_equiv, Z.ones_spec_low by lia. apply andb_true_r.
  - rewrite Z.mod_pow2_bits_high by lia. destruct (Nat.ltb_spec i word); [lia|].
    destruct (Nat.eqb_spec i word).
    + rewrite Z.land_spec, Z.sub_1_r, <-Z.ones_equiv, Z.ones_spec_high by lia. apply andb_false_r.
    + by rewrite Z.land_0_r, Z.bits_0.
Qed.

(** ** The rounds of the safe shifts *)

Lemma cond_word_eq w new s : is_word w -> is_word new ->
  cond_word w new (mask_of s) = if Z.odd s then new else w.
Proof. intros. unfold cond_word. rewrite (Z.lxor_comm w new). by apply select_word. Qed.

Lemma odd_shiftr s b : Z.odd (Z.shiftr (Z.of_nat s) (Z.of_nat b)) = Z.testbit (Z.of_nat s) (Z.of_nat b).
Proof. by rewrite Z.testbit_odd. Qed.

Lemma fill_same n f r : length r = n ->
  (forall i, (i < n)%nat -> f i = mp_word r i) ->
  fill n f = r.
Proof. intros <- H. rewrite (fill_ext _ _ _ H). apply fill_words. Qed.

(** Each round shifts by [32 * 2^bit] or [2^bit] bits, if its bit is set. *)
Lemma rshift_words_round_eq ws r bit : wordsOK r ->
  rshift_words_round ws r bit =
  if Z.testbit (Z.of_nat ws) (Z.of_nat bit) then mp_rshift_fixed_into (length r) r (32 * 2 ^ bit) else r.
Proof.
  intros Hr. unfold rshift_words_round, mp_rshift_fixed_into.
  rewrite (Nat.mul_comm 32 (2 ^ bit)), Nat.div_mul, Nat.Div0.mod_mul by lia. cbn [Z.of_nat Z.eqb].
  destruct (Z.testbit _ _) eqn:E.
  - apply fill_ext. intros i Hi. by rewrite cond_word_eq, odd_shiftr, E by auto with cmodel.
  - apply fill_same; [done|]. intros i Hi.
    by rewrite cond_word_eq, odd_shiftr, E by auto with cmodel.
Qed.

Lemma rshift_bits_round_eq bs r bit : wordsOK r -> (bit < 5)%nat ->
  rshift_bits_round bs r bit =
  if Z.testbit (Z.of_nat bs) (Z.of_nat bit) then mp_rshift_fixed_into (length r) r (2 ^ bit) else r.
Proof.
  intros Hr Hbit. unfold rshift_bits_round, mp_rshift_fixed_into.
  assert (2 ^ bit < 32 /\ 0 < 2 ^ bit)%nat as [H32 H0].
  { split; [|by apply Nat.neq_0_lt_0, Nat.pow_nonzero]. change 32%nat with (2 ^ 5)%nat.
    apply Nat.pow_lt_mono_r; lia. }
  rewrite Nat.div_small, Nat.mod_small by done. rewrite (proj2 (Z.eqb_neq _ 0)) by lia.
  destruct (Z.testbit _ _) eqn:E.
  - apply fill_ext. intros i Hi. rewrite Nat.add_0_r.
    by rewrite cond_word_eq, odd_shiftr, E by auto with cmodel.
  - apply fill_same; [done|]. intros i Hi.
    by rewrite cond_word_eq, odd_shiftr, E by auto with cmodel.
Qed.

Lemma lshift_words_round_eq ws r bit : wordsOK r ->
  lshift_words_round ws r bit =
  if Z.testbit (Z.of_nat ws) (Z.of_nat bit) then mp_lshift_fixed_into (length r) r (32 * 2 ^ bit) else r.
Proof.
  intros Hr. unfold lshift_words_round, mp_lshift_fixed_into, mp_word_below.
  rewrite (Nat.mul_comm 32 (2 ^ bit)), Nat.div_mul, Nat.Div0.mod_mul by lia. cbn [Z.of_nat Z.eqb].
  assert (forall i, is_word (if (i <? 2 ^ bit)%nat then 0 else mp_word r (i - 2 ^ bit))) as Hw.
  { intros i. case_match; [unfold is_word; lia|auto with cmodel]. }
  destruct (Z.testbit _ _) eqn:E.
  - apply fill_ext. intros i Hi. by rewrite cond_word_eq, odd_shiftr, E by auto with cmodel.
  - apply fill_same; [done|]. intros i Hi.
    by rewrite cond_word_eq, odd_shiftr, E by auto with cmodel.
Qed.

(** The low [k + 1] bits of a number: the low [k] and bit [k]. *)
Lemma mod_pow2_S s k : 0 <= s -> s mod 2 ^ (Z.of_nat (S k)) =
  s mod 2 ^ Z.of_nat k + 2 ^ Z.of_nat k * Z.b2z (Z.testbit s (Z.of_nat k)).
Proof.
  intros Hs. rewrite Nat2Z.inj_succ, Z.pow_succ_r, (Z.mul_comm 2) by lia.
  rewrite Z.rem_mul_r by (pose proof (Z.pow_pos_nonneg 2 (Z.of_nat k)); lia).
  by rewrite Z.testbit_spec' by lia.
Qed.

(** [k] rounds shift by the low [k] bits of the count, in units of [u] bits. *)
Lemma rshift_rounds (round : mp_int -> nat -> mp_int) (s u : nat) k : forall r, wordsOK r ->
  (forall r bit, wordsOK r -> (bit < k)%nat -> round r bit =
     if Z.testbit (Z.of_nat s) (Z.of_nat bit) then mp_rshift_fixed_into (length r) r (u * 2 ^ bit) else r) ->
  let r' := fold_left round (seq 0 k) r in
  length r' = length r /\ wordsOK r' /\
  val r' = val r / 2 ^ (Z.of_nat u * (Z.of_nat s mod 2 ^ Z.of_nat k)).
Proof.
  induction k as [|k IH]; intros r Hr Hround.
  - cbn [seq fold_left]. change (2 ^ Z.of_nat 0) with 1. rewrite Z.mod_1_r, Z.mul_0_r, Z.div_1_r. done.
  - cbn zeta. rewrite seq_S, fold_left_app. cbn [fold_left plus].
    destruct (IH r Hr) as (Hl & Hok & Hv); [intros; apply Hround; lia || done|].
    cbn zeta in *. set (r1 := fold_left round (seq 0 k) r) in *.
    rewrite Hround, mod_pow2_S by (done || lia).
    destruct (Z.testbit (Z.of_nat s) (Z.of_nat k)); cbn [Z.b2z].
    + destruct (mp_rshift_fixed_into_spec (length r1) r1 (u * 2 ^ k) Hok) as (Hl' & Hok' & Hv').
      split_and!; [congruence|done|]. rewrite Hv', Hv.
      assert (0 < 2 ^ Z.of_nat k) by (apply Z.pow_pos_nonneg; lia).
      assert (0 <= Z.of_nat s mod 2 ^ Z.of_nat k) by (by apply Z.mod_pos_bound).
      rewrite Z.mod_small.
      * rewrite Z.div_div by (apply Z.pow_nonzero || apply Z.pow_pos_nonneg; lia).
        rewrite <-Z.pow_add_r by lia. do 2 f_equal. rewrite Nat2Z.inj_mul, Nat2Z.inj_pow. lia.
      * rewrite <-Hv. pose proof (val_bound r1 Hok) as Hbd.
        assert (0 < 2 ^ Z.of_nat (u * 2 ^ k)) by (apply Z.pow_pos_nonneg; lia).
        split; [apply Z.div_pos; lia|]. apply Z.div_lt_upper_bound; [done|]. nia.
    + rewrite Z.mul_0_r, Z.add_0_r. done.
Qed.

Lemma lshift_rounds (round : mp_int -> nat -> mp_int) (s u : nat) k : forall r, wordsOK r ->
  (forall r bit, wordsOK r -> (bit < k)%nat -> round r bit =
     if Z.testbit (Z.of_nat s) (Z.of_nat bit) then mp_lshift_fixed_into (length r) r (u * 2 ^ bit) else r) ->
  let r' := fold_left round (seq 0 k) r in
  length r' = length r /\ wordsOK r' /\
  val r' = (val r * 2 ^ (Z.of_nat u * (Z.of_nat s mod 2 ^ Z.of_nat k))) mod Bp (length r).
Proof.
  induction k as [|k IH]; intros r Hr Hround.
  - cbn [seq fold_left]. change (2 ^ Z.of_nat 0) with 1. rewrite Z.mod_1_r, Z.mul_0_r, Z.mul_1_r.
    split_and!; [done..|]. symmetry. apply Z.mod_small. by apply val_bound.
  - cbn zeta. rewrite seq_S, fold_left_app. cbn [fold_left plus].
    destruct (IH r Hr) as (Hl & Hok & Hv); [intros; apply Hround; lia || done|].
    cbn zeta in *. set (r1 := fold_left round (seq 0 k) r) in *.
    rewrite Hround, mod_pow2_S by (done || lia).
    destruct (Z.testbit (Z.of_nat s) (Z.of_nat k)); cbn [Z.b2z].
    + destruct (mp_lshift_fixed_into_spec (length r1) r1 (u * 2 ^ k) Hok) as (Hl' & Hok' & Hv').
      split_and!; [congruence|done|]. rewrite Hv', Hv, Hl.
      assert (0 < 2 ^ Z.of_nat k) by (apply Z.pow_pos_nonneg; lia).
      assert (0 <= Z.of_nat s mod 2 ^ Z.of_nat k) by (by apply Z.mod_pos_bound).
      rewrite Zmult_mod_idemp_l, <-Z.mul_assoc, <-Z.pow_add_r by lia.
      do 3 f_equal. rewrite Nat2Z.inj_mul, Nat2Z.inj_pow. lia.
    + rewrite Z.mul_0_r, Z.add_0_r. done.
Qed.

(** ** The safe shifts *)

(** Which rounds run. *)
Lemma bit_count_spec n bit : (Nat.shiftr n bit <> 0 <-> bit < bit_count n)%nat.
Proof.
  rewrite Nat.shiftr_div_pow2. destruct n as [|n].
  - cbn [bit_count]. rewrite Nat.Div0.div_0_l. lia.
  - cbn [bit_count]. assert (0 < S n)%nat as Hn by lia. pose proof (Nat.log2_spec (S n) Hn) as [H1 H2].
    rewrite Nat.div_small_iff by (by apply Nat.pow_nonzero).
    assert (2 ^ bit <= S n <-> bit < S (Nat.log2 (S n)))%nat; [|lia]. split; intros H.
    + apply Nat.log2_le_mono in H. rewrite Nat.log2_pow2 in H by lia. lia.
    + apply Nat.le_trans with (2 ^ Nat.log2 (S n))%nat; [|done]. apply Nat.pow_le_mono_r; lia.
Qed.

Lemma bit_count_bound n : (n < 2 ^ bit_count n)%nat.
Proof.
  destruct n as [|n]; [cbn; lia|]. cbn [bit_count]. apply Nat.log2_spec. lia.
Qed.

Definition is_size (n : nat) : Prop := Z.of_nat n < 2 ^ 63.

Lemma shift_clears_spec nw ws : is_size nw -> is_size ws ->
  shift_clears nw ws = if (nw <? ws)%nat then 1 else 0.
Proof.
  unfold is_size, shift_clears, w64. intros Hn Hw. rewrite Z.shiftr_div_pow2 by lia.
  destruct (Nat.ltb_spec nw ws).
  - replace ((Z.of_nat nw - Z.of_nat ws) mod 2 ^ 64) with (Z.of_nat nw - Z.of_nat ws + 2 ^ 64).
    + symmetry. apply Z.div_unique_pos with (Z.of_nat nw - Z.of_nat ws + 2 ^ 63); lia.
    + apply Z.mod_unique_pos with (-1); lia.
  - rewrite Z.mod_small, Z.div_small by lia. done.
Qed.

(** The number after the conditional clear: an excessive shift leaves zero. *)
Lemma cleared r bits : wordsOK r -> is_size (length r) -> is_size (bits / 32) ->
  let r' := mp_cond_clear r (shift_clears (length r) (bits / 32)) in
  length r' = length r /\ wordsOK r' /\
  val r' = if (length r <? bits / 32)%nat then 0 else val r.
Proof.
  intros Hr Hl Hb. cbn zeta. rewrite shift_clears_spec, mp_cond_clear_eq by done.
  destruct (_ <? _)%nat; cbn [Z.odd]; rewrite ?length_replicate, ?val_replicate_0; auto with cmodel.
Qed.

Lemma shift_total bits : 32 * Z.of_nat (bits / 32) + 1 * Z.of_nat (bits mod 32) = Z.of_nat bits.
Proof. destruct (nat_bits_split bits). lia. Qed.

Lemma word_rounds_total n s : (s <= n)%nat -> Z.of_nat s mod 2 ^ Z.of_nat (bit_count n) = Z.of_nat s.
Proof.
  intros H. apply Z.mod_small. split; [lia|]. pose proof (bit_count_bound n).
  change 2 with (Z.of_nat 2). rewrite <-Nat2Z.inj_pow. lia.
Qed.

(** The right shift in place divides, for every shift count. *)
Lemma mp_rshift_safe_in_place_spec r bits : wordsOK r -> is_size (length r) -> is_size (bits / 32) ->
  let r' := mp_rshift_safe_in_place r bits in
  length r' = length r /\ wordsOK r' /\ val r' = val r / 2 ^ Z.of_nat bits.
Proof.
  intros Hr Hl Hb. unfold mp_rshift_safe_in_place. cbn zeta.
  destruct (cleared r bits Hr Hl Hb) as (Hl0 & Hok0 & Hv0). cbn zeta in *.
  set (r0 := mp_cond_clear r _) in *. rewrite Hl0.
  destruct (rshift_rounds (rshift_words_round (bits / 32)) (bits / 32) 32 (bit_count (length r)) r0 Hok0)
    as (Hl1 & Hok1 & Hv1); [intros; by apply rshift_words_round_eq|].
  cbn zeta in *. set (r1 := fold_left _ _ r0) in *.
  destruct (rshift_rounds (rshift_bits_round (bits mod 32)) (bits mod 32) 1 5 r1 Hok1)
    as (Hl2 & Hok2 & Hv2); [intros; rewrite Nat.mul_1_l; by apply rshift_bits_round_eq|].
  cbn zeta in *. split_and!; [congruence|done|]. rewrite Hv2, Hv1, Hv0.
  destruct (nat_bits_split bits) as [Hbits Hoff]. pose proof (val_bound r Hr) as Hbd.
  rewrite (Z.mod_small (Z.of_nat (bits mod 32))) by done.
  destruct (Nat.ltb_spec (length r) (bits / 32)).
  - rewrite !Zdiv_0_l. symmetry. apply Z.div_small. split; [lia|].
    apply Z.lt_le_trans with (Bp (length r)); [lia|]. apply Z.pow_le_mono_r; lia.
  - rewrite word_rounds_total by done. rewrite Z.div_div by (apply Z.pow_nonzero || apply Z.pow_pos_nonneg; lia).
    rewrite <-Z.pow_add_r by lia. by rewrite shift_total.
Qed.

(** The final step of the left shift in place is a fixed left shift. *)
Lemma lshift_bits_step r bs : wordsOK r -> (bs < 32)%nat ->
  let bitshift := Z.of_nat bs in
  let downshift := BIGNUM_INT_BITS - bitshift in
  let no_shift := Z.shiftr downshift BIGNUM_INT_BITS_BITS in
  let downshift := Z.land downshift (w64 (Z.lnot (w64 (- no_shift)))) in
  let downshifted_mask := w32 (Z.lnot (w32 (- no_shift))) in
  fill (length r) (fun i =>
    Z.lor (w32 (Z.shiftl (mp_word r i) bitshift))
      (Z.land (Z.shiftr (mp_word_below r i 1) downshift) downshifted_mask))
  = mp_lshift_fixed_into (length r) r bs.
Proof.
  intros Hr Hbs. unfold BIGNUM_INT_BITS, BIGNUM_INT_BITS_BITS, mp_lshift_fixed_into. cbn zeta.
  rewrite Nat.div_small, Nat.mod_small by done. apply fill_ext. intros i Hi. cbn [Nat.ltb Nat.leb].
  rewrite Nat.sub_0_r. assert (is_word (mp_word r i)) as Hw by auto with cmodel.
  destruct (Z.eqb_spec (Z.of_nat bs) 0) as [E|E].
  - rewrite E. change (w32 (Z.lnot (w32 (Z.opp (Z.shiftr (32 - 0) 5))))) with 0.
    by rewrite Z.land_0_r, Z.lor_0_r, Z.shiftl_0_r, w32_small.
  - assert (Z.shiftr (32 - Z.of_nat bs) 5 = 0) as ->.
    { rewrite Z.shiftr_div_pow2 by lia. apply Z.div_small. lia. }
    change (w64 (Z.lnot (w64 (Z.opp 0)))) with (2 ^ 64 - 1). change (w32 (Z.lnot (w32 (Z.opp 0)))) with (B - 1).
    rewrite (land_ones_small 64) by lia. unfold mp_word_below. destruct i as [|i]; cbn [Nat.ltb Nat.leb].
    + by rewrite Z.shiftr_0_l, Z.land_0_l, Z.lor_0_r.
    + rewrite (land_ones_small 32) by (apply is_word_shiftr; auto with cmodel; lia). done.
Qed.

(** The left shift in place multiplies, modulo what the number can hold. *)
Lemma mp_lshift_safe_in_place_spec r bits : wordsOK r -> is_size (length r) -> is_size (bits / 32) ->
  let r' := mp_lshift_safe_in_place r bits in
  length r' = length r /\ wordsOK r' /\ val r' = (val r * 2 ^ Z.of_nat bits) mod Bp (length r).
Proof.
  intros Hr Hl Hb. unfold mp_lshift_safe_in_place. cbn zeta.
  destruct (cleared r bits Hr Hl Hb) as (Hl0 & Hok0 & Hv0). cbn zeta in *.
  set (r0 := mp_cond_clear r _) in *. rewrite Hl0.
  destruct (lshift_rounds (lshift_words_round (bits / 32)) (bits / 32) 32 (bit_count (length r)) r0 Hok0)
    as (Hl1 & Hok1 & Hv1); [intros; by apply lshift_words_round_eq|].
  cbn zeta in *. set (r1 := fold_left _ _ r0) in *.
  pose proof (Nat.mod_upper_bound bits 32 ltac:(lia)) as Hbs.
  pose proof (lshift_bits_step r1 (bits mod 32) Hok1 Hbs) as E. cbn zeta in E. rewrite E.
  destruct (mp_lshift_fixed_into_spec (length r1) r1 (bits mod 32) Hok1) as (Hl2 & Hok2 & Hv2).
  split_and!; [congruence|done|]. rewrite Hv2, Hv1, Hv0, Hl1, Hl0.
  destruct (nat_bits_split bits) as [Hbits Hoff].
  destruct (Nat.ltb_spec (length r) (bits / 32)).
  - repeat first [rewrite Z.mul_0_l|rewrite Zmod_0_l].
    replace (Z.of_nat bits) with (32 * Z.of_nat (length r) + (Z.of_nat bits - 32 * Z.of_nat (length r))) by lia.
    rewrite Z.pow_add_r by lia. symmetry.
    replace (val r * (Bp (length r) * 2 ^ (Z.of_nat bits - 32 * Z.of_nat (length r))))
      with (Bp (length r) * (val r * 2 ^ (Z.of_nat bits - 32 * Z.of_nat (length r)))) by lia.
    rewrite (cong_eq (cong_self _ _)). apply Zmod_0_l.
  - rewrite word_rounds_total by done.
    rewrite Zmult_mod_idemp_l, <-Z.mul_assoc, <-Z.pow_add_r by lia.
    do 3 f_equal. lia.
Qed.

Lemma mp_copy_spec x : (0 < length x)%nat -> mp_copy x = Ok x.
Proof.
  intros Hl. unfold mp_copy, mp_from_words, mp_make_sized.
  rewrite c_assert_true by (by apply Nat.ltb_lt). cbn [res_bind]. by rewrite length_replicate, take_ge.
Qed.
