(* ===== verification/MpintConv.v ===== *)
(** * Multiprecision integers: bytes, hexadecimal, bit length
    ([libs/putty/crypto/mpint.c], [mp_from_bytes_int] to
    [mp_get_hex_uppercase]) *)

From S2P Require Import Prelude MpintCore MpintArith MpintShift.

Local Open Scope Z_scope.
Local Open Scope cmodel_scope.

(** ** Reading bytes *)

(** [n->w[i / per] |= digit << (d * (i % per))], for digits of [d] bits,
    [per] to a word. *)
Definition or_digit (per d : nat) (n : mp_int) (i : nat) (digit : Z) : mp_int :=
  <[ (i / per)%nat := Z.lor (mp_word n (i / per)) (Z.shiftl digit (Z.of_nat (d * (i mod per)))) ]> n.

(** [mp_from_bytes_int(bytes, m, c)]: byte [i] of the result is the input's
    byte [m*i + c], an index computed in [size_t]. *)
Fixpoint mp_from_bytes_loop (k i : nat) (bytes : list Z) (m c : Z) (n : mp_int) : res mp_int :=
  match k with
  | O => Ok n
  | S k =>
      match bytes !! Z.to_nat (w64 (m * Z.of_nat i + c)) with
      | None => Crash UndefinedBehaviour
      | Some b => mp_from_bytes_loop k (S i) bytes m c (or_digit 4 8 n i b)
      end
  end.

Definition mp_from_bytes_int (bytes : list Z) (m c : Z) : res mp_int :=
  let nw := ((length bytes + 4 - 1) / 4)%nat in
  let nw := (nw `max` 1)%nat in
  let! n := mp_make_sized nw in
  mp_from_bytes_loop (length bytes) 0 bytes m c n.

Definition mp_from_bytes_le (bytes : list Z) : res mp_int := mp_from_bytes_int bytes 1 0.
Definition mp_from_bytes_be (bytes : list Z) : res mp_int :=
  mp_from_bytes_int bytes (w64 (-1)) (w64 (Z.of_nat (length bytes) - 1)).

(** ** Reading hexadecimal *)

(** [(BignumInt)(const char)]: the plain [char] is signed. *)
Definition char_word (c : Z) : Z := w32 (if c <? 128 then c else c - 256).

Definition hex_mask (digit lo hi : Z) : Z :=
  w32 (Z.lnot (w32 (- Z.shiftr (Z.lor (w32 (digit - lo)) (w32 (hi - digit))) (BIGNUM_INT_BITS - 1)))).

Definition hex_digitval (c : Z) : Z :=
  let digit := char_word c in
  let lmask := hex_mask digit 97 102 in
  let umask := hex_mask digit 65 70 in
  let digitval := w32 (digit - 48) in
  let digitval := Z.lxor digitval (Z.land (Z.lxor digitval (w32 (digit - 97 + 10))) lmask) in
  let digitval := Z.lxor digitval (Z.land (Z.lxor digitval (w32 (digit - 65 + 10))) umask) in
  Z.land digitval 15.

Definition SIZE_MAX : Z := 2 ^ 64 - 1.

Fixpoint mp_from_hex_loop (k nibble : nat) (hex : list Z) (x : mp_int) : res mp_int :=
  match k with
  | O => Ok x
  | S k =>
      match hex !! (length hex - 1 - nibble)%nat with
      | None => Crash UndefinedBehaviour
      | Some c => mp_from_hex_loop k (S nibble) hex (or_digit 8 4 x nibble (hex_digitval c))
      end
  end.

Definition mp_from_hex_pl (hex : list Z) : res mp_int :=
  c_assert (Z.of_nat (length hex) <=? SIZE_MAX / 4)
  (let bits := (length hex * 4)%nat in
   let words := ((bits + 32 - 1) / 32)%nat in
   let words := (words `max` 1)%nat in
   let! x := mp_make_sized words in
   mp_from_hex_loop (length hex) 0 hex x).

(** ** The highest nonzero word *)

Record word_pair := WordPair { wp_index : Z; wp_hi : Z; wp_lo : Z }.

Definition normalise_to_1_u64 (n : Z) : Z :=
  let n := Z.lor (Z.shiftr n 1) (Z.land n 1) in
  Z.shiftr (w64 (- n)) 63.

(** [*p ^= (new ^ *p) & -(uint64_t)indicator]. *)
Definition cond_u64 (p new indicator : Z) : Z :=
  Z.lxor p (Z.land (Z.lxor new p) (w64 (- indicator))).

Fixpoint find_pair_loop (x : mp_int) (shift_wanted curr_index curr_hi curr_lo : Z) (out : word_pair)
    : word_pair :=
  match x with
  | [] => out
  | curr_word :: x =>
      let indicator := normalise_to_1 curr_word in
      let curr_lo := Z.lor (Z.shiftr curr_lo BIGNUM_INT_BITS)
                           (w64 (Z.shiftl curr_hi (64 - BIGNUM_INT_BITS))) in
      let curr_hi := Z.lor (Z.shiftr curr_hi BIGNUM_INT_BITS)
                           (w64 (Z.shiftl curr_word shift_wanted)) in
      find_pair_loop x shift_wanted (curr_index + 1) curr_hi curr_lo
        {| wp_index := cond_u64 (wp_index out) curr_index indicator;
           wp_hi := cond_u64 (wp_hi out) curr_hi indicator;
           wp_lo := cond_u64 (wp_lo out) curr_lo indicator |}
  end.

(** [mp_find_highest_nonzero_word_pair], the passed-by-reference variables as
    a record that is updated.  (A null pointer leaves out one of the three
    updates, which do not depend on each other.) *)
Definition mp_find_highest_nonzero_word_pair (x : mp_int) (shift_wanted : Z) (out : word_pair) : word_pair :=
  find_pair_loop x shift_wanted 0 0 0 out.

(** One round of the search for the highest bit in a word. *)
Definition hibit_round (st : Z * Z) (i : Z) : Z * Z :=
  let '(hiword, hibit_index) := st in
  let shifted_word := Z.shiftr hiword i in
  let indicator := Z.shiftr (w32 (- shifted_word)) (BIGNUM_INT_BITS - 1) in
  (Z.lxor hiword (Z.land (Z.lxor shifted_word hiword) (w32 (- indicator))),
   w32 (hibit_index + Z.land i (w64 (- indicator)))).

Definition mp_get_nbits (x : mp_int) : Z :=
  let out := mp_find_highest_nonzero_word_pair x 0
               {| wp_index := w64 (-1); wp_hi := ones; wp_lo := 0 |} in
  let hiword := w32 (wp_hi out) in
  let '(_, hibit_index) := fold_left hibit_round [16; 8; 4; 2; 1] (hiword, 0) in
  w64 (w64 (Z.shiftl (wp_index out) BIGNUM_INT_BITS_BITS) + hibit_index + 1).

(** ** Trimming leading zeroes *)

(** The search for the first character that is not ['0'], from [pos - 1]
    down. *)
Fixpoint trim_search (pos : nat) (buf : list Z) (trim : Z) : res Z :=
  match pos with
  | O => Ok trim
  | S pos =>
      match buf !! pos with
      | None => Crash UndefinedBehaviour
      | Some ch =>
          let diff := Z.lxor ch 48 in
          let mask := w64 (- Z.shiftr (w64 (diff - 1)) 63) in
          trim_search pos buf
            (Z.lxor trim (Z.land (Z.lxor trim (Z.of_nat pos)) (w64 (Z.lnot mask))))
      end
  end.

(** One pass: a conditional exchange of [ubuf[i]] and [ubuf[i+d]] for each [i]
    upwards. *)
Fixpoint swap_pass (k i d : nat) (mask : Z) (ubuf : list Z) : list Z :=
  match k with
  | O => ubuf
  | S k =>
      let x := default 0 (ubuf !! i) in
      let y := default 0 (ubuf !! (i + d)%nat) in
      let diff := Z.land mask (Z.lxor x y) in
      swap_pass k (S i) d mask
        (<[(i + d)%nat := Z.lxor y diff]> (<[i := Z.lxor x diff]> ubuf))
  end.

Definition trim_pass (trim : Z) (ubuf : list Z) (logd : nat) : list Z :=
  let mask := Z.modulo (- Z.land (Z.shiftr trim (Z.of_nat logd)) 1) 256 in
  let d := (2 ^ logd)%nat in
  swap_pass (length ubuf - d) 0 d mask ubuf.

(** [trim_leading_zeroes(buf, bufsize, maxtrim)], [bufsize] being the length of
    [buf]. *)
Definition trim_leading_zeroes (buf : list Z) (maxtrim : nat) : res (list Z) :=
  let! trim := trim_search maxtrim buf (Z.of_nat maxtrim) in
  Ok (fold_left (trim_pass trim) (seq 0 (bit_count (length buf))) buf).

(** ** Writing hexadecimal *)

Definition hex_digit (letter_offset digitval : Z) : Z :=
  let mask := Z.modulo (- Z.shiftr (digitval + 6) 4) 256 in
  digitval + 48 + Z.land letter_offset mask.

(** The string that a C reader sees in a buffer: up to the first NUL. *)
Fixpoint c_string (buf : list Z) : list Z :=
  match buf with
  | [] => []
  | c :: buf => if c =? 0 then [] else c :: c_string buf
  end.

Definition mp_get_hex_internal (x : mp_int) (letter_offset : Z) : res (list Z) :=
  let nibbles := (length x * 4 * 2)%nat in
  let digit nibble :=
    hex_digit letter_offset
      (Z.land 15 (Z.shiftr (mp_word x (nibble / 8)) (Z.of_nat (nibble mod 8 * 4)))) in
  let outbuf := fill nibbles (fun pos => digit (nibbles - 1 - pos)%nat) ++ [0] in
  trim_leading_zeroes outbuf (nibbles - 1).

Definition mp_get_hex (x : mp_int) : res (list Z) := mp_get_hex_internal x 39.
Definition mp_get_hex_uppercase (x : mp_int) : res (list Z) := mp_get_hex_internal x 7.

(** ** Digits *)

(** The value of a list of [d]-bit digits, least significant first. *)
Fixpoint digits_val (d : nat) (l : list Z) : Z :=
  match l with [] => 0 | b :: l => b + 2 ^ Z.of_nat d * digits_val d l end.

Definition is_digit (d : nat) (b : Z) : Prop := 0 <= b < 2 ^ Z.of_nat d.

Lemma digits_val_snoc d l b :
  digits_val d (l ++ [b]) = digits_val d l + 2 ^ Z.of_nat (d * length l) * b.
Proof.
  induction l as [|a l IH]; cbn [digits_val app length].
  - rewrite Nat.mul_0_r. change (2 ^ Z.of_nat 0) with 1. lia.
  - rewrite IH. replace (Z.of_nat (d * S (length l))) with (Z.of_nat d + Z.of_nat (d * length l)) by lia.
    rewrite Z.pow_add_r by lia. ring.
Qed.

Lemma digits_val_bound d l : Forall (is_digit d) l -> 0 <= digits_val d l < 2 ^ Z.of_nat (d * length l).
Proof.
  induction 1 as [|b l Hb _ IH]; cbn [digits_val length].
  - rewrite Nat.mul_0_r. cbn. lia.
  - unfold is_digit in Hb. replace (Z.of_nat (d * S (length l))) with (Z.of_nat d + Z.of_nat (d * length l)) by lia.
    rewrite Z.pow_add_r by lia. nia.
Qed.

(** Or-ing in a digit above all that has been written adds it. *)
Lemma or_digit_spec per d x i v : wordsOK x -> (per * d = 32)%nat -> is_digit d v ->
  (i / per < length x)%nat -> val x < 2 ^ Z.of_nat (d * i) ->
  length (or_digit per d x i v) = length x /\ wordsOK (or_digit per d x i v) /\
  val (or_digit per d x i v) = val x + 2 ^ Z.of_nat (d * i) * v.
Proof.
  intros Hx Hper Hv Hi Hval. unfold or_digit.
  assert (per <> 0)%nat as Hp by lia.
  pose proof (Nat.div_mod i per Hp) as Hdm. pose proof (Nat.mod_upper_bound i per Hp) as Hmod.
  set (k := (i / per)%nat) in *. set (j := (i mod per)%nat) in *.
  assert (d * i = 32 * k + d * j)%nat as Hdi by nia.
  assert (Z.of_nat (d * j) + Z.of_nat d <= 32) as Hjd by nia.
  assert (2 ^ Z.of_nat (d * i) = Bp k * 2 ^ Z.of_nat (d * j)) as Hpow.
  { rewrite <-Z.pow_add_r by lia. f_equal. lia. }
  assert (0 <= mp_word x k < 2 ^ Z.of_nat (d * j)) as Hw.
  { rewrite mp_word_val by done. rewrite Z.mod_small.
    - pose proof (val_bound x Hx). split; [apply Z.div_pos; bplia|].
      apply Z.div_lt_upper_bound; [bplia|]. lia.
    - pose proof (val_bound x Hx). split; [apply Z.div_pos; bplia|].
      apply Z.div_lt_upper_bound; [bplia|].
      apply Z.lt_le_trans with (2 ^ Z.of_nat (d * i)); [done|]. rewrite Hpow.
      apply Z.mul_le_mono_nonneg_l; [bplia|]. apply Z.pow_le_mono_r; lia. }
  assert (is_word (Z.lor (mp_word x k) (Z.shiftl v (Z.of_nat (d * j))))) as Hnew.
  { apply is_word_lor; [auto with cmodel|]. unfold is_word, is_digit in *.
    rewrite Z.shiftl_mul_pow2 by lia. split; [apply Z.mul_nonneg_nonneg; [lia|apply Z.pow_nonneg; lia]|].
    apply Z.lt_le_trans with (2 ^ Z.of_nat d * 2 ^ Z.of_nat (d * j)).
    - apply Z.mul_lt_mono_pos_r; [apply Z.pow_pos_nonneg; lia|lia].
    - rewrite <-Z.pow_add_r by lia. apply Z.pow_le_mono_r; lia. }
  split_and!; [apply length_insert|by apply wordsOK_insert|].
  rewrite val_insert by done. rewrite lor_add by (done || lia). rewrite Hpow. ring.
Qed.

(** ** Bytes *)

Lemma mp_from_bytes_loop_spec k : forall i bytes m c x (bs : list Z),
  wordsOK x -> length bs = (i + k)%nat -> Forall (is_digit 8) bs ->
  (i + k <= 4 * length x)%nat ->
  (forall j, (j < i + k)%nat -> bytes !! Z.to_nat (w64 (m * Z.of_nat j + c)) = bs !! j) ->
  val x = digits_val 8 (take i bs) ->
  exists r, mp_from_bytes_loop k i bytes m c x = Ok r /\ length r = length x /\ wordsOK r /\
    val r = digits_val 8 bs.
Proof.
  induction k as [|k IH]; intros i bytes m c x bs Hx Hl Hbs Hroom Hread Hval; cbn [mp_from_bytes_loop].
  - exists x. split_and!; [done..|]. by rewrite Hval, take_ge by lia.
  - rewrite Hread by lia. destruct (lookup_lt_is_Some_2 bs i ltac:(lia)) as [b Hb]. rewrite Hb.
    assert (is_digit 8 b) as Hd by (by eapply (proj1 (Forall_lookup _ _) Hbs)).
    assert (length (take i bs) = i) as Hli by (rewrite length_take; lia).
    destruct (or_digit_spec 4 8 x i b) as (Hl' & Hok' & Hv'); [done|done|done| | |].
    { apply Nat.Div0.div_lt_upper_bound. lia. }
    { rewrite Hval. rewrite <-Hli at 2. apply digits_val_bound. by apply Forall_take. }
    destruct (IH (S i) bytes m c (or_digit 4 8 x i b) bs) as (r & -> & Hlr & Hr & E);
      [done|lia|done|lia|intros; apply Hread; lia| |].
    { rewrite Hv', (take_S_r _ _ _ Hb), digits_val_snoc, Hli, Hval. done. }
    exists r. split_and!; [done|congruence|done..].
Qed.

Lemma bytesOK_digits l : bytesOK l -> Forall (is_digit 8) l.
Proof. exact (fun H => H). Qed.

Lemma mp_from_bytes_int_spec bytes m c bs :
  length bs = length bytes -> bytesOK bs ->
  (forall j, (j < length bytes)%nat -> bytes !! Z.to_nat (w64 (m * Z.of_nat j + c)) = bs !! j) ->
  exists r, mp_from_bytes_int bytes m c = Ok r /\ length r = (((length bytes + 4 - 1) / 4) `max` 1)%nat /\ wordsOK r /\ val r = digits_val 8 bs.
Proof.
  intros Hl Hbs Hread. unfold mp_from_bytes_int, mp_make_sized.
  rewrite c_assert_true by (apply Nat.ltb_lt; lia). cbn [res_bind].
  destruct (mp_from_bytes_loop_spec (length bytes) 0 bytes m c
    (replicate (((length bytes + 4 - 1) / 4) `max` 1) 0) bs) as (r & -> & Hlr & Hr & E);
    [auto with cmodel|done|by apply bytesOK_digits| |done|by rewrite val_replicate_0|].
  - rewrite length_replicate. pose proof (Nat.div_mod (length bytes + 4 - 1) 4).
    pose proof (Nat.mod_upper_bound (length bytes + 4 - 1) 4). lia.
  - rewrite length_replicate in Hlr. exists r. split_and!; [done|done|done..].
Qed.

Lemma mp_from_bytes_le_spec bytes : bytesOK bytes -> is_size (length bytes) ->
  exists r, mp_from_bytes_le bytes = Ok r /\ length r = (((length bytes + 4 - 1) / 4) `max` 1)%nat /\ wordsOK r /\ val r = digits_val 8 bytes.
Proof.
  unfold is_size. intros Hb Hl. apply mp_from_bytes_int_spec; [done|done|]. intros j Hj.
  rewrite w64_small by lia. f_equal. lia.
Qed.

Lemma mp_from_bytes_be_spec bytes : bytesOK bytes -> is_size (length bytes) ->
  exists r, mp_from_bytes_be bytes = Ok r /\ length r = (((length bytes + 4 - 1) / 4) `max` 1)%nat /\ wordsOK r /\
    val r = digits_val 8 (reverse bytes).
Proof.
  unfold is_size. intros Hb Hl. apply mp_from_bytes_int_spec.
  - apply length_reverse.
  - unfold bytesOK. by rewrite Forall_reverse.
  - intros j Hj. rewrite reverse_lookup by lia. f_equal.
    transitivity (Z.to_nat (Z.of_nat (length bytes - S j))); [f_equal|lia].
    unfold w64. symmetry. rewrite Z.add_mod_idemp_r by lia.
    apply Z.mod_unique_pos with (Z.of_nat j); [lia|].
    change ((-1) mod 2 ^ 64) with (2 ^ 64 - 1). lia.
Qed.

(** ** Hexadecimal input *)

(** The value of a hexadecimal digit. *)
Definition hex_value (c : Z) : option Z :=
  if (48 <=? c) && (c <=? 57) then Some (c - 48)
  else if (97 <=? c) && (c <=? 102) then Some (c - 87)
  else if (65 <=? c) && (c <=? 70) then Some (c - 55)
  else None.

Lemma hex_digitval_spec c : is_byte c ->
  0 <= hex_digitval c < 16 /\ (forall v, hex_value c = Some v -> hex_digitval c = v).
Proof.
  intros Hc.
  pose (P := fun c => (0 <=? hex_digitval c) && (hex_digitval c <? 16) &&
    match hex_value c with Some v => hex_digitval c =? v | None => true end).
  assert (P c = true) as H by (apply byte_forall; [by vm_compute|done]).
  unfold P in H. apply andb_true_iff in H as [[H1%Z.leb_le H2%Z.ltb_lt]%andb_true_iff H3].
  split; [done|]. intros v Hv. rewrite Hv in H3. by apply Z.eqb_eq.
Qed.

Lemma mp_from_hex_loop_spec k : forall i hex x (ds : list Z),
  wordsOK x -> length ds = (i + k)%nat -> length hex = length ds -> Forall (is_digit 4) ds ->
  (i + k <= 8 * length x)%nat ->
  (forall j, (j < i + k)%nat -> hex_digitval <$> hex !! (length hex - 1 - j)%nat = ds !! j) ->
  val x = digits_val 4 (take i ds) ->
  exists r, mp_from_hex_loop k i hex x = Ok r /\ length r = length x /\ wordsOK r /\
    val r = digits_val 4 ds.
Proof.
  induction k as [|k IH]; intros i hex x ds Hx Hl Hlh Hds Hroom Hread Hval; cbn [mp_from_hex_loop].
  - exists x. split_and!; [done..|]. by rewrite Hval, take_ge by lia.
  - destruct (lookup_lt_is_Some_2 ds i ltac:(lia)) as [b Hb].
    pose proof (Hread i ltac:(lia)) as Hri. rewrite Hb in Hri.
    destruct (hex !! (length hex - 1 - i)%nat) as [ch|]; [|done]. cbn in Hri. injection Hri as ->.
    assert (is_digit 4 b) as Hd by (by eapply (proj1 (Forall_lookup _ _) Hds)).
    assert (length (take i ds) = i) as Hli by (rewrite length_take; lia).
    destruct (or_digit_spec 8 4 x i b) as (Hl' & Hok' & Hv'); [done|done|done| | |].
    { apply Nat.Div0.div_lt_upper_bound. lia. }
    { rewrite Hval. rewrite <-Hli at 2. apply digits_val_bound. by apply Forall_take. }
    destruct (IH (S i) hex (or_digit 8 4 x i b) ds) as (r & -> & Hlr & Hr & E);
      [done|lia|done|done|lia|intros; apply Hread; lia| |].
    { rewrite Hv', (take_S_r _ _ _ Hb), digits_val_snoc, Hli, Hval. done. }
    exists r. split_and!; [done|congruence|done..].
Qed.

(** The value of a hexadecimal string, most significant digit first. *)
Definition hex_string_val (hex : list Z) : Z := digits_val 4 (reverse (hex_digitval <$> hex)).

Lemma mp_from_hex_pl_spec hex : bytesOK hex -> Z.of_nat (length hex) <= SIZE_MAX / 4 ->
  exists r, mp_from_hex_pl hex = Ok r /\ (0 < length r)%nat /\ wordsOK r /\ val r = hex_string_val hex.
Proof.
  intros Hb Hlen. unfold mp_from_hex_pl, mp_make_sized.
  rewrite c_assert_true by (by apply Z.leb_le).
  rewrite c_assert_true by (apply Nat.ltb_lt; lia). cbn [res_bind].
  destruct (mp_from_hex_loop_spec (length hex) 0 hex
    (replicate (((length hex * 4 + 32 - 1) / 32) `max` 1) 0) (reverse (hex_digitval <$> hex)))
    as (r & -> & Hlr & Hr & E).
  - auto with cmodel.
  - by rewrite length_reverse, length_fmap.
  - by rewrite length_reverse, length_fmap.
  - rewrite Forall_reverse, Forall_fmap. eapply Forall_impl; [exact Hb|]. intros c Hc.
    by apply hex_digitval_spec.
  - rewrite length_replicate. pose proof (Nat.div_mod (length hex * 4 + 32 - 1) 32).
    pose proof (Nat.mod_upper_bound (length hex * 4 + 32 - 1) 32). lia.
  - intros j Hj. rewrite reverse_lookup, length_fmap, list_lookup_fmap by (rewrite length_fmap; lia).
    do 2 f_equal. lia.
  - by rewrite val_replicate_0.
  - rewrite length_replicate in Hlr. exists r. split_and!; [done|lia|done..].
Qed.

(** ** Trimming *)

Fixpoint lead (pos : nat) (buf : list Z) (t : nat) : nat :=
  match pos with
  | O => t
  | S pos => lead pos buf (if decide (buf !! pos = Some 48) then t else pos)
  end.

Lemma is_byte_lxor a b : is_byte a -> is_byte b -> is_byte (Z.lxor a b).
Proof. apply (lxor_bound 8). lia. Qed.

Lemma trim_mask ch (t pos : Z) : is_byte ch -> 0 <= t < 2 ^ 64 -> 0 <= pos < 2 ^ 64 ->
  Z.lxor t (Z.land (Z.lxor t pos)
    (w64 (Z.lnot (w64 (- Z.shiftr (w64 (Z.lxor ch 48 - 1)) 63))))) = if ch =? 48 then t else pos.
Proof.
  intros Hc Ht Hp. assert (is_byte (Z.lxor ch 48)) as Hd by (by apply is_byte_lxor).
  assert (Z.lxor ch 48 = 0 <-> ch = 48) as Hz by apply Z.lxor_eq_0_iff.
  unfold is_byte in Hd. destruct (Z.eqb_spec ch 48) as [-> |Hne].
  - change (w64 (Z.lnot _)) with 0. by rewrite Z.land_0_r, Z.lxor_0_r.
  - assert (0 < Z.lxor ch 48) by lia. rewrite (w64_small (_ - 1)) by lia.
    rewrite Z.shiftr_div_pow2, Z.div_small by lia.
    change (w64 (Z.lnot _)) with (2 ^ 64 - 1).
    rewrite land_ones_small by (apply lxor_bound; lia).
    by rewrite <-Z.lxor_assoc, Z.lxor_nilpotent, Z.lxor_0_l.
Qed.

Lemma trim_search_lead pos : forall buf t, bytesOK buf -> (pos <= length buf)%nat ->
  Z.of_nat t < 2 ^ 64 -> Z.of_nat (length buf) < 2 ^ 64 ->
  trim_search pos buf (Z.of_nat t) = Ok (Z.of_nat (lead pos buf t)).
Proof.
  induction pos as [|pos IH]; intros buf t Hb Hl Ht Hlb; cbn [trim_search lead]; [done|].
  destruct (lookup_lt_is_Some_2 buf pos ltac:(lia)) as [ch Hch]. rewrite Hch.
  assert (is_byte ch) as Hc by (by eapply (proj1 (Forall_lookup _ _) Hb)).
  rewrite trim_mask by (done || lia). destruct (Z.eqb_spec ch 48) as [-> |Hne].
  - rewrite decide_True by done. apply IH; done || lia.
  - rewrite decide_False by congruence. apply IH; done || lia.
Qed.

(** The leading zeroes, and the first character that is not one. *)
Lemma lead_spec pos buf t :
  (forall p, (p < pos)%nat -> (p < lead pos buf t)%nat -> buf !! p = Some 48) /\
  (lead pos buf t = t \/ ((lead pos buf t < pos)%nat /\ buf !! lead pos buf t <> Some 48)).
Proof.
  revert t. induction pos as [|pos IH]; intros t; cbn [lead]; [split; [lia|by left]|].
  case_decide as Hd; destruct (IH (if decide (buf !! pos = Some 48) then t else pos)) as [H1 H2];
    [rewrite decide_True in * by done|rewrite decide_False in * by done].
  - split; [|destruct H2 as [?|[? ?]]; [by left|right; split; [lia|done]]].
    intros p Hp Hlt. destruct (decide (p = pos)) as [-> |]; [done|]. apply H1; lia.
  - split.
    + intros p Hp Hlt. destruct (decide (p = pos)) as [-> |]; [|apply H1; lia].
      destruct H2 as [E|[? ?]]; [rewrite E in Hlt|]; lia.
    + right. destruct H2 as [-> |[? ?]]; [split; [lia|done]|split; [lia|done]].
Qed.

Lemma lead_le pos buf t : (pos <= t)%nat -> (lead pos buf t <= t)%nat.
Proof. intros H. destruct (lead_spec pos buf t) as [_ [?|[? _]]]; lia. Qed.

Lemma swap_words x y (b : bool) : is_byte x -> is_byte y ->
  let diff := Z.land (if b then 255 else 0) (Z.lxor x y) in
  Z.lxor x diff = (if b then y else x) /\ Z.lxor y diff = (if b then x else y).
Proof.
  intros Hx Hy. cbn zeta. destruct b.
  - rewrite Z.land_comm, (land_ones_small 8) by (by apply is_byte_lxor).
    split; [by rewrite <-Z.lxor_assoc, Z.lxor_nilpotent, Z.lxor_0_l|].
    by rewrite (Z.lxor_comm x y), <-Z.lxor_assoc, Z.lxor_nilpotent, Z.lxor_0_l.
  - by rewrite Z.land_0_l, !Z.lxor_0_r.
Qed.

Lemma swap_pass_off k : forall i d buf, bytesOK buf -> (i + k + d <= length buf)%nat ->
  swap_pass k i d 0 buf = buf.
Proof.
  induction k as [|k IH]; intros i d buf Hb Hl; cbn [swap_pass]; [done|].
  rewrite Z.land_0_l, !Z.lxor_0_r.
  destruct (lookup_lt_is_Some_2 buf i ltac:(lia)) as [x Hx].
  destruct (lookup_lt_is_Some_2 buf (i + d) ltac:(lia)) as [y Hy]. rewrite Hx, Hy. change (default 0 (Some x)) with x. change (default 0 (Some y)) with y.
  rewrite (list_insert_id buf i x Hx), (list_insert_id buf (i + d) y Hy). apply IH; done || lia.
Qed.

(** A pass that exchanges moves everything from [i] on down by [d]. *)
Lemma swap_pass_on k : forall i d buf, bytesOK buf -> (0 < d)%nat -> (i + k + d <= length buf)%nat ->
  bytesOK (swap_pass k i d 255 buf) /\ length (swap_pass k i d 255 buf) = length buf /\
  (forall j, (j < i)%nat -> swap_pass k i d 255 buf !! j = buf !! j) /\
  (forall j, (i <= j < i + k)%nat -> swap_pass k i d 255 buf !! j = buf !! (j + d)%nat).
Proof.
  induction k as [|k IH]; intros i d buf Hb Hd Hl; cbn [swap_pass]; [split_and!; [done..|lia]|].
  destruct (lookup_lt_is_Some_2 buf i ltac:(lia)) as [x Hx].
  destruct (lookup_lt_is_Some_2 buf (i + d) ltac:(lia)) as [y Hy]. rewrite Hx, Hy. change (default 0 (Some x)) with x. change (default 0 (Some y)) with y.
  assert (is_byte x /\ is_byte y) as [Hbx Hby] by (split; by eapply (proj1 (Forall_lookup _ _) Hb)).
  destruct (swap_words x y true Hbx Hby) as [-> ->].
  set (buf' := <[(i + d)%nat := x]> (<[i := y]> buf)).
  assert (length buf' = length buf) as Hl' by (unfold buf'; by rewrite !length_insert).
  destruct (IH (S i) d buf') as (Hb2 & Hl2 & Hlow & Hmid); [|done|lia|].
  { by apply Forall_insert, Hbx; apply Forall_insert. }
  split_and!; [done|congruence|..].
  - intros j Hj. rewrite Hlow by lia. unfold buf'. by rewrite !list_lookup_insert_ne by lia.
  - intros j Hj. destruct (decide (j = i)) as [-> |Hne].
    + rewrite Hlow by lia. unfold buf'.
      rewrite list_lookup_insert_ne by lia. rewrite list_lookup_insert_eq by lia. done.
    + rewrite Hmid by lia. unfold buf'. by rewrite !list_lookup_insert_ne by lia.
Qed.

(** [buf'] holds, at the front, what [buf] holds from [t] on. *)
Definition shifted_down (t : nat) (buf buf' : list Z) : Prop :=
  bytesOK buf' /\ length buf' = length buf /\
  forall j, (j + t < length buf)%nat -> buf' !! j = buf !! (j + t)%nat.

Lemma trim_pass_spec t buf logd : bytesOK buf -> (2 ^ logd <= length buf)%nat ->
  shifted_down (if Z.testbit (Z.of_nat t) (Z.of_nat logd) then 2 ^ logd else 0) buf
    (trim_pass (Z.of_nat t) buf logd).
Proof.
  intros Hb Hd. unfold trim_pass. rewrite Z.land_comm, land_1_odd, odd_shiftr.
  assert (0 < 2 ^ logd)%nat by (apply Nat.neq_0_lt_0, Nat.pow_nonzero; lia).
  destruct (Z.testbit _ _).
  - change (Z.modulo (Z.opp 1) 256) with 255.
    destruct (swap_pass_on (length buf - 2 ^ logd) 0 (2 ^ logd) buf) as (? & ? & _ & Hmid); [done|done|lia|].
    split_and!; [done..|]. intros j Hj. apply Hmid. lia.
  - change (Z.modulo (Z.opp 0) 256) with 0. rewrite swap_pass_off by (done || lia).
    split_and!; [done..|]. intros j Hj. by rewrite Nat.add_0_r.
Qed.

Lemma shifted_down_trans s t buf buf1 buf2 :
  shifted_down s buf buf1 -> shifted_down t buf1 buf2 -> shifted_down (s + t) buf buf2.
Proof.
  intros (_ & Hl1 & H1) (Hb2 & Hl2 & H2). split_and!; [done|congruence|].
  intros j Hj. rewrite H2 by lia. rewrite H1 by lia. f_equal. lia.
Qed.

Lemma nat_mod_pow2_S t k :
  (t mod 2 ^ S k = t mod 2 ^ k + if Z.testbit (Z.of_nat t) (Z.of_nat k) then 2 ^ k else 0)%nat.
Proof.
  apply Nat2Z.inj. pose proof (mod_pow2_S (Z.of_nat t) k ltac:(lia)) as E.
  rewrite Nat2Z.inj_add, !Nat2Z.inj_mod, !Nat2Z.inj_pow.
  change (Z.of_nat 2) with 2. rewrite E. destruct (Z.testbit _ _); cbn [Z.b2z]; [|lia].
  rewrite Nat2Z.inj_pow. change (Z.of_nat 2) with 2. lia.
Qed.

Lemma trim_passes t buf k : bytesOK buf -> (k <= bit_count (length buf))%nat ->
  shifted_down (t mod 2 ^ k) buf (fold_left (trim_pass (Z.of_nat t)) (seq 0 k) buf).
Proof.
  intros Hb. induction k as [|k IH]; intros Hk.
  - cbn [seq fold_left]. change (2 ^ 0)%nat with 1%nat. rewrite Nat.mod_1_r.
    split_and!; [done..|]. intros j Hj. by rewrite Nat.add_0_r.
  - rewrite seq_S, fold_left_app. cbn [fold_left plus]. rewrite nat_mod_pow2_S.
    pose proof (IH ltac:(lia)) as H1. destruct H1 as (Hb1 & Hl1 & H1).
    eapply shifted_down_trans; [split_and!; [exact Hb1|exact Hl1|exact H1]|].
    apply trim_pass_spec; [done|]. rewrite Hl1.
    pose proof (proj2 (bit_count_spec (length buf) k) ltac:(lia)) as Hs.
    rewrite Nat.shiftr_div_pow2, Nat.div_small_iff in Hs by (by apply Nat.pow_nonzero). lia.
Qed.

(** What a trimmed string should be. *)
Fixpoint strip_zeroes (s : list Z) : list Z :=
  match s with
  | [] => []
  | c :: s' => match s' with [] => [c] | _ => if c =? 48 then strip_zeroes s' else s end
  end.

Lemma strip_zeroes_drop s t : (t < length s)%nat ->
  (forall p, (p < t)%nat -> s !! p = Some 48) ->
  (S t = length s \/ s !! t <> Some 48) -> strip_zeroes s = drop t s.
Proof.
  revert t. induction s as [|c s IH]; intros t Hl Hz He; cbn [length] in *; [lia|].
  destruct t as [|t].
  - cbn [drop strip_zeroes]. destruct s as [|c' s]; [done|].
    destruct He as [|He]; [cbn in *; lia|]. destruct (Z.eqb_spec c 48) as [-> |]; [by destruct He|done].
  - pose proof (Hz 0%nat ltac:(lia)) as H0. cbn in H0. injection H0 as ->.
    cbn [drop]. rewrite <-(IH t).
    + cbn [strip_zeroes]. destruct s; [cbn in *; lia|done].
    + lia.
    + intros p Hp. apply (Hz (S p)). lia.
    + destruct He as [He|He]; [left; lia|by right].
Qed.

Lemma c_string_app s rest : Forall (fun c => c <> 0) s -> c_string (s ++ 0 :: rest) = s.
Proof.
  induction 1 as [|c s Hc _ IH]; cbn [c_string app]; [done|].
  rewrite (proj2 (Z.eqb_neq c 0)) by done. by rewrite IH.
Qed.

Lemma trim_leading_zeroes_spec ds : bytesOK ds -> Forall (fun c => c <> 0) ds -> (0 < length ds)%nat ->
  Z.of_nat (length ds) + 1 < 2 ^ 64 ->
  exists out, trim_leading_zeroes (ds ++ [0]) (length ds - 1) = Ok out /\
    length out = S (length ds) /\ c_string out = strip_zeroes ds.
Proof.
  intros Hb Hnz Hl Hsz. unfold trim_leading_zeroes. set (buf := ds ++ [0]).
  assert (bytesOK buf) as Hbuf.
  { apply Forall_app. split; [done|]. constructor; [unfold is_byte; lia|constructor]. }
  assert (length buf = S (length ds)) as Hlb by (unfold buf; rewrite length_app; cbn; lia).
  rewrite trim_search_lead by (done || lia). cbn [res_bind].
  set (m := (length ds - 1)%nat). pose proof (lead_le m buf m ltac:(lia)) as Hle.
  destruct (lead_spec m buf m) as [Hz He]. set (t := lead m buf m) in *.
  destruct (trim_passes t buf (bit_count (length buf)) Hbuf ltac:(lia)) as (_ & Hlo & Hsh).
  rewrite Nat.mod_small in Hsh by (pose proof (bit_count_bound (length buf)); lia).
  eexists. split_and!; [done|congruence|]. set (out := fold_left _ _ _) in *.
  assert (strip_zeroes ds = drop t ds) as ->.
  { apply strip_zeroes_drop; [lia| |].
    - intros p Hp. rewrite <-(Hz p) by lia. unfold buf. by rewrite lookup_app_l by lia.
    - destruct He as [He|[Hlt Hne]]; [left; lia|right]. unfold buf in Hne.
      by rewrite lookup_app_l in Hne by lia. }
  assert (out = drop t ds ++ 0 :: drop (S (length ds) - t) out) as ->.
  { rewrite <-(take_drop (S (length ds) - t) out) at 1. rewrite cons_middle, app_assoc. f_equal.
    apply list_eq_same_length with (n := (S (length ds) - t)%nat); [|rewrite length_take; lia|].
    { rewrite length_app, length_drop. cbn. lia. }
    intros i x y Hi Hx Hy. rewrite lookup_take_lt in Hx by done. rewrite Hsh in Hx by lia.
    replace (drop t ds ++ [0]) with (drop t buf) in Hy by (unfold buf; by rewrite drop_app_le by lia).
    rewrite lookup_drop in Hy. rewrite Nat.add_comm in Hx. congruence. }
  apply c_string_app. by apply Forall_drop.
Qed.

(** ** The bit length *)

Lemma cond_u64_eq p new (b : bool) : 0 <= p < 2 ^ 64 -> 0 <= new < 2 ^ 64 ->
  cond_u64 p new (if b then 0 else 1) = if b then p else new.
Proof.
  intros Hp Hn. unfold cond_u64. destruct b.
  - change (w64 (Z.opp 0)) with 0. by rewrite Z.land_0_r, Z.lxor_0_r.
  - change (w64 (Z.opp 1)) with (2 ^ 64 - 1). rewrite land_ones_small by (apply lxor_bound; lia).
    by rewrite Z.lxor_comm, Z.lxor_assoc, Z.lxor_nilpotent, Z.lxor_0_r.
Qed.

Definition u64 (x : Z) : Prop := 0 <= x < 2 ^ 64.

Lemma cond_u64_0 p new : cond_u64 p new 0 = p.
Proof. unfold cond_u64. change (w64 (Z.opp 0)) with 0. by rewrite Z.land_0_r, Z.lxor_0_r. Qed.

Lemma cond_u64_1 p new : u64 p -> u64 new -> cond_u64 p new 1 = new.
Proof. intros Hp Hn. by apply (cond_u64_eq p new false). Qed.

(** The loop leaves alone what it was given for a zero number; otherwise it
    finds the top word [w], at index [k]. *)
Lemma find_pair_spec x : forall i curr_hi curr_lo out,
  wordsOK x -> 0 <= i -> i + Z.of_nat (length x) < 2 ^ 64 -> is_word curr_hi ->
  u64 (wp_index out) -> u64 (wp_hi out) ->
  let out' := find_pair_loop x 0 i curr_hi curr_lo out in
  (val x = 0 /\ wp_index out' = wp_index out /\ wp_hi out' = wp_hi out) \/
  exists (k : nat) w, (k < length x)%nat /\ wp_index out' = i + Z.of_nat k /\ wp_hi out' = w /\
    0 < w < B /\ Bp k * w <= val x < Bp k * (w + 1).
Proof.
  induction x as [|w0 x IH]; intros i hi lo out Hx Hi Hl Hhi Ho1 Ho2; [by left|].
  cbn [find_pair_loop length] in *. inversion Hx as [|? ? Hw0 Hx']; subst.
  rewrite normalise_to_1_spec by done. unfold BIGNUM_INT_BITS.
  unfold u64, is_word in *.
  assert (Z.lor (Z.shiftr hi 32) (w64 (Z.shiftl w0 0)) = w0) as ->.
  { rewrite Z.shiftr_div_pow2, Z.div_small, Z.lor_0_l, Z.shiftl_0_r by lia. apply w64_small. lia. }
  rewrite !cond_u64_eq by lia. set (lo' := Z.lor _ _).
  destruct (IH (i + 1) w0 lo'
    {| wp_index := if w0 =? 0 then wp_index out else i; wp_hi := if w0 =? 0 then wp_hi out else w0;
       wp_lo := cond_u64 (wp_lo out) lo' (if w0 =? 0 then 0 else 1) |})
    as [(Hv & E1 & E2)|(k & w & Hk & E1 & E2 & Hw & Hv)]; try done; try lia.
  - cbn. case_match; lia.
  - cbn. case_match; lia.
  - cbn [wp_index wp_hi] in E1, E2. cbn [val]. rewrite Hv.
    destruct (Z.eqb_spec w0 0) as [-> |Hne]; [left; split_and!; [lia|done..]|].
    right. exists 0%nat, w0. change (Bp 0) with 1. split_and!; try done; lia.
  - right. exists (S k), w. rewrite Bp_S. cbn [val]. split_and!; [lia|lia|done|lia|lia|nia|nia].
Qed.

(** One round of the binary search, for a word below [2 ^ (2 s)]. *)
Lemma hibit_round_spec s w idx : 0 < s <= 16 -> 0 < w < 2 ^ (2 * s) -> 0 <= idx -> idx + s < B ->
  exists w' idx', hibit_round (w, idx) s = (w', idx') /\ 0 < w' < 2 ^ s /\ idx <= idx' <= idx + s /\
    idx' + Z.log2 w' = idx + Z.log2 w.
Proof.
  intros Hs Hw Hidx Hb. unfold hibit_round, BIGNUM_INT_BITS.
  assert (2 ^ (2 * s) = 2 ^ s * 2 ^ s) as Hpow by (rewrite <-Z.pow_add_r by lia; f_equal; lia).
  assert (0 < 2 ^ s) by (apply Z.pow_pos_nonneg; lia).
  assert (2 ^ s <= 2 ^ 16) by (apply Z.pow_le_mono_r; lia).
  set (sw := Z.shiftr w s). assert (sw = w / 2 ^ s) as Esw by (unfold sw; by rewrite Z.shiftr_div_pow2 by lia).
  assert (0 <= sw < 2 ^ s) as Hsw.
  { rewrite Esw. split; [apply Z.div_pos; lia|apply Z.div_lt_upper_bound; lia]. }
  assert (w < B) as HwB by nia.
  destruct (Z.eq_dec sw 0) as [E0|Hne].
  - rewrite E0. change (Z.shiftr (w32 (Z.opp 0)) (32 - 1)) with 0.
    change (w32 (Z.opp 0)) with 0. change (w64 (Z.opp 0)) with 0.
    rewrite !Z.land_0_r, Z.lxor_0_r, Z.add_0_r, w32_small by (unfold is_word; lia).
    exists w, idx. assert (w < 2 ^ s) by (rewrite Esw in E0; apply Z.div_small_iff in E0; lia).
    split_and!; [done|lia..].
  - assert (Z.shiftr (w32 (- sw)) (32 - 1) = 1) as ->.
    { unfold w32. rewrite Z_mod_nz_opp_full by (rewrite Z.mod_small; lia).
      rewrite (Z.mod_small sw) by lia. rewrite Z.shiftr_div_pow2 by lia. symmetry.
      apply Z.div_unique with (2 ^ 31 - sw); lia. }
    change (w32 (Z.opp 1)) with (2 ^ 32 - 1). change (w64 (Z.opp 1)) with (2 ^ 64 - 1).
    rewrite (land_ones_small 32) by (apply lxor_bound; lia).
    rewrite (land_ones_small 64) by lia.
    rewrite (Z.lxor_comm sw w), <-Z.lxor_assoc, Z.lxor_nilpotent, Z.lxor_0_l.
    rewrite w32_small by (unfold is_word; lia).
    exists sw, (idx + s). split_and!; [done|lia..|].
    unfold sw. rewrite Z.log2_shiftr by lia.
    assert (s <= Z.log2 w); [|lia]. apply Z.log2_le_pow2; [lia|].
    rewrite Esw in Hne. destruct (Z.lt_ge_cases w (2 ^ s)); [|done]. rewrite Z.div_small in Hne; lia.
Qed.

Lemma hibit_search w : 0 < w < B -> snd (fold_left hibit_round [16; 8; 4; 2; 1] (w, 0)) = Z.log2 w.
Proof.
  intros Hw. cbn [fold_left].
  destruct (hibit_round_spec 16 w 0) as (w1 & i1 & -> & ? & ? & ?); [lia|done|lia|lia|].
  destruct (hibit_round_spec 8 w1 i1) as (w2 & i2 & -> & ? & ? & ?); [lia|done|lia|lia|].
  destruct (hibit_round_spec 4 w2 i2) as (w3 & i3 & -> & ? & ? & ?); [lia|done|lia|lia|].
  destruct (hibit_round_spec 2 w3 i3) as (w4 & i4 & -> & ? & ? & ?); [lia|done|lia|lia|].
  destruct (hibit_round_spec 1 w4 i4) as (w5 & i5 & -> & ? & ? & ?); [lia|done|lia|lia|].
  cbn [snd]. assert (w5 = 1) as -> by lia. change (Z.log2 1) with 0 in *. lia.
Qed.

(** The bit length of a number. *)
Definition bitlen (v : Z) : Z := if v =? 0 then 0 else Z.log2 v + 1.

Lemma mp_get_nbits_spec x : wordsOK x -> Z.of_nat (length x) < 2 ^ 58 -> mp_get_nbits x = bitlen (val x).
Proof.
  intros Hx Hl. unfold mp_get_nbits, mp_find_highest_nonzero_word_pair, bitlen, BIGNUM_INT_BITS_BITS.
  set (out0 := {| wp_index := _; wp_hi := _; wp_lo := _ |}).
  destruct (find_pair_spec x 0 0 0 out0) as [(Hv & E1 & E2)|(k & w & Hk & E1 & E2 & Hw & Hv)];
    try done; try lia; unfold is_word; try lia; set (out := find_pair_loop _ _ _ _ _ _) in *.
  - rewrite E1, E2, Hv. by vm_compute.
  - rewrite E1, E2. rewrite w32_small by (unfold is_word; lia).
    pose proof (hibit_search w Hw) as Hb. destruct (fold_left _ _ _) as [hw hb]. cbn [snd] in Hb. subst hb.
    pose proof (Z.log2_spec w ltac:(lia)) as [Hlo Hhi].
    assert (0 <= Z.log2 w) by apply Z.log2_nonneg.
    assert (Z.log2 w < 32) by (apply Z.log2_lt_pow2; lia).
    assert (val x <> 0) by bpnia. rewrite (proj2 (Z.eqb_neq _ 0)) by done.
    rewrite Z.shiftl_mul_pow2 by lia. rewrite (w64_small (_ * _)), w64_small by lia.
    assert (Z.log2 (val x) = 32 * Z.of_nat k + Z.log2 w); [|lia].
    apply Z.log2_unique; [lia|]. rewrite Z.pow_succ_r, Z.pow_add_r by lia.
    rewrite Z.pow_succ_r in Hhi by lia. bpnia.
Qed.

(** ** Hexadecimal output *)

Lemma digits_val_fill d v k : 0 <= v ->
  digits_val d (fill k (fun i => (v / 2 ^ Z.of_nat (d * i)) mod 2 ^ Z.of_nat d)) = v mod 2 ^ Z.of_nat (d * k).
Proof.
  intros Hv. induction k as [|k IH].
  - rewrite Nat.mul_0_r. cbn. by rewrite Z.mod_1_r.
  - rewrite fill_snoc, digits_val_snoc, length_fill, IH.
    replace (Z.of_nat (d * S k)) with (Z.of_nat (d * k) + Z.of_nat d) by lia.
    assert (0 < 2 ^ Z.of_nat (d * k) /\ 0 < 2 ^ Z.of_nat d) as [? ?] by (split; apply Z.pow_pos_nonneg; lia).
    rewrite Z.pow_add_r, Z.rem_mul_r by lia. done.
Qed.

Lemma nibble_val x i : wordsOK x ->
  Z.land 15 (Z.shiftr (mp_word x (i / 8)) (Z.of_nat (i mod 8 * 4))) = (val x / 2 ^ Z.of_nat (4 * i)) mod 2 ^ 4.
Proof.
  intros Hx. rewrite Z.land_comm. change 15 with (Z.ones 4). rewrite Z.land_ones by lia.
  pose proof (Nat.div_mod i 8 ltac:(lia)) as Hd. pose proof (Nat.mod_upper_bound i 8 ltac:(lia)).
  apply Z.bits_inj'. intros j Hj. destruct (Z.lt_ge_cases j 4).
  - rewrite !Z.mod_pow2_bits_low, Z.shiftr_spec, Z.div_pow2_bits by lia.
    rewrite <-val_testbit by (done || lia). f_equal. lia.
  - by rewrite !Z.mod_pow2_bits_high by lia.
Qed.

(** Digits are written as the reader reads them, for both alphabets. *)
Lemma hex_digit_roundtrip off v : off = 39 \/ off = 7 -> 0 <= v < 16 ->
  is_byte (hex_digit off v) /\ hex_digit off v <> 0 /\ hex_digitval (hex_digit off v) = v /\
  hex_value (hex_digit off v) = Some v /\ (hex_digit off v = 48 <-> v = 0).
Proof.
  intros Hoff Hv.
  pose (P := fun off v => (0 <=? hex_digit off v) && (hex_digit off v <? 256) && negb (hex_digit off v =? 0) &&
    (hex_digitval (hex_digit off v) =? v) && bool_decide (hex_value (hex_digit off v) = Some v) &&
    Bool.eqb (hex_digit off v =? 48) (v =? 0)).
  assert (P off v = true) as H.
  { assert (In v (fill 16 Z.of_nat)) as Hin.
    { apply list_elem_of_In, list_elem_of_lookup. exists (Z.to_nat v). rewrite lookup_fill by lia. f_equal. lia. }
    revert v Hv Hin. destruct Hoff as [-> | ->]; intros v _; revert v; apply forallb_forall; by vm_compute. }
  unfold P in H. rewrite !andb_true_iff, negb_true_iff, bool_decide_eq_true, eqb_true_iff in H.
  destruct H as [[[[[H1%Z.leb_le H2%Z.ltb_lt] H3%Z.eqb_neq] H4%Z.eqb_eq] H5] H6].
  split; [unfold is_byte; lia|]. split_and!; [done..|].
  destruct (Z.eqb_spec (hex_digit off v) 48), (Z.eqb_spec v 0); done || tauto.
Qed.

Lemma hex_string_val_zero s : hex_string_val (48 :: s) = hex_string_val s.
Proof.
  unfold hex_string_val. cbn [fmap list_fmap]. rewrite reverse_cons, digits_val_snoc.
  change (hex_digitval 48) with 0. lia.
Qed.

Lemma strip_zeroes_val s : hex_string_val (strip_zeroes s) = hex_string_val s.
Proof.
  induction s as [|c s IH]; [done|]. cbn [strip_zeroes]. destruct s as [|c' s]; [done|].
  destruct (Z.eqb_spec c 48) as [-> |]; [|done]. by rewrite hex_string_val_zero.
Qed.

(** No leading zero, except that zero itself is one digit. *)
Definition canonical (s : list Z) : Prop :=
  s <> [] /\ (head s = Some 48 -> s = [48]).

Lemma strip_zeroes_canonical s : s <> [] -> canonical (strip_zeroes s).
Proof.
  induction s as [|c s IH]; [done|]. intros _. cbn [strip_zeroes]. destruct s as [|c' s].
  - split; [done|]. cbn. congruence.
  - destruct (Z.eqb_spec c 48); [by apply IH|]. split; [done|]. cbn. congruence.
Qed.

Lemma strip_zeroes_Forall (P : Z -> Prop) s : Forall P s -> Forall P (strip_zeroes s).
Proof.
  induction 1 as [|c s Hc Hs IH]; [constructor|]. cbn [strip_zeroes].
  destruct s; [by constructor|]. case_match; [done|by constructor].
Qed.

Lemma strip_zeroes_length s : (length (strip_zeroes s) <= length s)%nat.
Proof.
  induction s as [|c s IH]; [done|]. cbn [strip_zeroes]. destruct s; [done|].
  case_match; [|done]. cbn [length] in *. lia.
Qed.

Definition hex_digits (off : Z) (x : mp_int) : list Z :=
  let nibbles := (length x * 4 * 2)%nat in
  fill nibbles (fun pos => hex_digit off (Z.land 15
    (Z.shiftr (mp_word x ((nibbles - 1 - pos) / 8)) (Z.of_nat ((nibbles - 1 - pos) mod 8 * 4))))).

Lemma hex_nibble x i : wordsOK x ->
  0 <= Z.land 15 (Z.shiftr (mp_word x (i / 8)) (Z.of_nat (i mod 8 * 4))) < 16.
Proof. intros Hx. rewrite nibble_val by done. by apply Z.mod_pos_bound. Qed.

Lemma hex_digits_val off x : off = 39 \/ off = 7 -> wordsOK x -> hex_string_val (hex_digits off x) = val x.
Proof.
  intros Hoff Hx. unfold hex_string_val, hex_digits. set (n := (length x * 4 * 2)%nat).
  transitivity (digits_val 4 (fill n (fun i => (val x / 2 ^ Z.of_nat (4 * i)) mod 2 ^ Z.of_nat 4))).
  - f_equal. apply list_eq_same_length with (n := n).
    + apply length_fill.
    + by rewrite length_reverse, length_fmap, length_fill.
    + intros i a b Hi Ha Hb. rewrite reverse_lookup, length_fmap, length_fill, list_lookup_fmap in Ha
        by (rewrite length_fmap, length_fill; lia).
      rewrite lookup_fill in Ha, Hb by lia. cbn [fmap option_fmap option_map] in Ha.
      apply (inj Some) in Ha, Hb. subst a b.
      replace (n - 1 - (n - S i))%nat with i by lia.
      rewrite (proj1 (proj2 (proj2 (hex_digit_roundtrip off _ Hoff (hex_nibble x i Hx))))).
      by apply nibble_val.
  - pose proof (val_bound x Hx). rewrite digits_val_fill by lia. apply Z.mod_small.
    split; [lia|]. replace (Z.of_nat (4 * n)) with (32 * Z.of_nat (length x)) by (unfold n; lia). lia.
Qed.

Lemma Forall_fill (P : Z -> Prop) n f : (forall i, (i < n)%nat -> P (f i)) -> Forall P (fill n f).
Proof.
  intros H. apply Forall_forall. intros v Hv. unfold fill in Hv.
  apply list_elem_of_fmap in Hv as (i & -> & Hi%elem_of_seq). apply H. lia.
Qed.

(** The output is the canonical hexadecimal form of the number. *)
Lemma mp_get_hex_internal_spec off x : off = 39 \/ off = 7 ->
  wordsOK x -> (0 < length x)%nat -> Z.of_nat (length x) < 2 ^ 58 ->
  exists out, mp_get_hex_internal x off = Ok out /\
    let s := c_string out in
    canonical s /\ bytesOK s /\ Forall (fun c => is_Some (hex_value c)) s /\
    (length s <= length x * 8)%nat /\ hex_string_val s = val x.
Proof.
  intros Hoff Hx Hl Hsz.
  assert (Forall (fun c => is_byte c /\ c <> 0 /\ is_Some (hex_value c)) (hex_digits off x)) as Hall.
  { apply Forall_fill. intros i Hi.
    destruct (hex_digit_roundtrip off _ Hoff (hex_nibble x (length x * 4 * 2 - 1 - i) Hx)) as (? & ? & _ & -> & _).
    by split_and!; [..|eexists]. }
  assert (length (hex_digits off x) = length x * 8)%nat as Hlen
    by (unfold hex_digits; rewrite length_fill; lia).
  destruct (trim_leading_zeroes_spec (hex_digits off x)) as (out & Eout & _ & Hs).
  - eapply Forall_impl; [exact Hall|]. by intros c (? & ? & ?).
  - eapply Forall_impl; [exact Hall|]. by intros c (? & ? & ?).
  - lia.
  - lia.
  - exists out. split.
    { unfold mp_get_hex_internal. rewrite <-Eout. f_equal. rewrite Hlen. lia. }
    cbn zeta. rewrite Hs. pose proof (strip_zeroes_length (hex_digits off x)).
    split_and!; [| | |lia|by rewrite strip_zeroes_val, hex_digits_val].
    + apply strip_zeroes_canonical. intros E. rewrite E in Hlen. cbn in Hlen. lia.
    + apply strip_zeroes_Forall. eapply Forall_impl; [exact Hall|]. by intros c (? & ? & ?).
    + apply strip_zeroes_Forall. eapply Forall_impl; [exact Hall|]. by intros c (? & ? & ?).
Qed.
