(* ===== verification/MpintDecimal.v ===== *)
(** * Multiprecision integers: decimal conversion
    ([libs/putty/crypto/mpint.c], [mp_from_decimal_pl], [mp_get_decimal]) *)

From S2P Require Import Prelude MpintCore MpintArith MpintMul MpintShift MpintConv.

Local Open Scope Z_scope.
Local Open Scope cmodel_scope.

(** ** Reading decimal *)

(** [((const char * )decimal.ptr)[i] - '0'], converted to [uintmax_t]. *)
Definition decimal_digit (c : Z) : Z := w64 ((if c <? 128 then c else c - 256) - 48).

Fixpoint mp_from_decimal_loop (decimal : list Z) (x : mp_int) : res mp_int :=
  match decimal with
  | [] => Ok x
  | c :: decimal =>
      let x := mp_add_integer_into (length x) x (decimal_digit c) in
      match decimal with
      | [] => Ok x
      | _ => let! x := mp_mul_integer_into (length x) x 10 in mp_from_decimal_loop decimal x
      end
  end.

Definition mp_from_decimal_pl (decimal : list Z) : res mp_int :=
  c_assert (Z.of_nat (length decimal) <? SIZE_MAX / 196)
  (let bits := (196 * length decimal / 59)%nat in
   let words := (bits / 32 + 1)%nat in
   let! x := mp_make_sized words in
   mp_from_decimal_loop decimal x).

(** ** Writing decimal *)

Definition UINT32_MAX : Z := 2 ^ 32 - 1.

(** The residue of a number modulo 10, before its final reduction: the
    accumulator, the bound kept beside it, and the multiplier of the next
    byte. *)
Record low_digit_st := LowDigit { ld_low : Z; ld_max : Z; ld_mult : Z }.

Definition low_digit_byte (w : Z) (st : low_digit_st) (j : Z) : low_digit_st :=
  {| ld_low := w32 (ld_low st + w32 (ld_mult st * Z.land 255 (Z.shiftr w (8 * j))));
     ld_max := w32 (ld_max st + w32 (ld_mult st * 255));
     ld_mult := 6 |}.

Definition low_digit_fold (st : low_digit_st) : low_digit_st :=
  if UINT32_MAX - 6 * 255 * BIGNUM_INT_BYTES <? ld_max st then
    {| ld_low := w32 (Z.land (ld_low st) 65535 + w32 (6 * Z.shiftr (ld_low st) 16));
       ld_max := w32 (Z.land (ld_max st) 65535 + w32 (6 * Z.shiftr (ld_max st) 16));
       ld_mult := ld_mult st |}
  else st.

Definition low_digit_word (st : low_digit_st) (w : Z) : low_digit_st :=
  low_digit_fold (fold_left (low_digit_byte w) [0; 1; 2; 3] st).

Definition low_digit_reduce (low_digit : Z) : Z :=
  let low_digit := w32 (w64 (low_digit - w64 (10 * Z.shiftr (w64 (429496729 * low_digit)) 32))) in
  w32 (low_digit - w32 (10 * Z.shiftr (w32 (low_digit + 6)) 4)).

Definition low_digit (x : mp_int) : Z :=
  low_digit_reduce (ld_low (fold_left low_digit_word x {| ld_low := 0; ld_max := 0; ld_mult := 1 |})).

(** The loop over [pos], downwards; [outbuf] is what has been written from
    [pos] on. *)
Fixpoint mp_get_decimal_loop (pos : nat) (x inv5 : mp_int) (outbuf : list Z) : res (list Z) :=
  match pos with
  | O => Ok outbuf
  | S pos =>
      let d := low_digit x in
      c_assert (d <? 10)
      (let outbuf := 48 + d :: outbuf in
       let x := mp_sub_integer_into (length x) x d in
       let y := mp_rshift_fixed_into (length x) x 1 in
       let! x := mp_mul_into x y inv5 in
       mp_get_decimal_loop pos x inv5 outbuf)
  end.

(** The inverse of 5 modulo [B^nw]. *)
Definition make_inv5 (nw : nat) : mp_int :=
  let inv5 := fill nw (fun _ => BIGNUM_INT_MASK / 5 * 4) in
  <[0%nat := w32 (mp_word inv5 0 + 1)]> inv5.

Definition mp_get_decimal (x_orig : mp_int) : res (list Z) :=
  let! x := mp_copy x_orig in
  let inv5 := make_inv5 (length x) in
  c_assert (Z.of_nat (length x) <? (SIZE_MAX - 1) / (146 * BIGNUM_INT_BITS))
  (let bufsize := ((length x * (146 * 32) / 485) `max` 1 + 2)%nat in
   let! outbuf := mp_get_decimal_loop (bufsize - 1) x inv5 [0] in
   trim_leading_zeroes outbuf (bufsize - 2)).

(** ** The value of a decimal string *)

Definition dec_val (s : list Z) : Z := fold_left (fun v c => 10 * v + (c - 48)) s 0.

Definition is_dec_char (c : Z) : Prop := 48 <= c <= 57.

Lemma dec_val_snoc s c : dec_val (s ++ [c]) = 10 * dec_val s + (c - 48).
Proof. unfold dec_val. by rewrite fold_left_app. Qed.

Lemma dec_val_bound s : Forall is_dec_char s -> 0 <= dec_val s < 10 ^ Z.of_nat (length s).
Proof.
  induction s as [|c s IH] using rev_ind; [cbn; lia|].
  rewrite Forall_app, Forall_singleton. intros [Hs Hc]. specialize (IH Hs). unfold is_dec_char in Hc.
  rewrite dec_val_snoc, length_app. cbn [length]. rewrite Nat2Z.inj_add, Z.pow_add_r by lia.
  change (10 ^ Z.of_nat 1) with 10. lia.
Qed.

Lemma decimal_digit_spec c : is_dec_char c -> decimal_digit c = c - 48.
Proof.
  unfold is_dec_char, decimal_digit. intros Hc. rewrite (proj2 (Z.ltb_lt c 128)) by lia.
  apply w64_small. lia.
Qed.

(** 196/59 is an upper bound for log2(10). *)
Lemma decimal_room n : 10 ^ Z.of_nat n <= Bp (196 * n / 59 / 32 + 1).
Proof.
  set (w := (196 * n / 59 / 32 + 1)%nat).
  assert (196 * n <= 59 * (32 * w))%nat as Hw.
  { unfold w. pose proof (Nat.div_mod (196 * n) 59). pose proof (Nat.mod_upper_bound (196 * n) 59).
    pose proof (Nat.div_mod (196 * n / 59) 32). pose proof (Nat.mod_upper_bound (196 * n / 59) 32). lia. }
  apply (Z.pow_le_mono_l_iff _ _ 59); [apply Z.pow_nonneg; lia..|lia|].
  rewrite <-!Z.pow_mul_r by lia.
  transitivity ((10 ^ 59) ^ Z.of_nat n); [rewrite <-Z.pow_mul_r by lia; apply Z.pow_le_mono_r; lia|].
  transitivity ((2 ^ 196) ^ Z.of_nat n); [apply Z.pow_le_mono_l; split; [lia|by vm_compute]|].
  rewrite <-Z.pow_mul_r by lia. apply Z.pow_le_mono_r; lia.
Qed.

Lemma mp_from_decimal_loop_spec s : forall p x, wordsOK x -> Forall is_dec_char s -> s <> [] ->
  Forall is_dec_char p -> val x = 10 * dec_val p -> 10 ^ Z.of_nat (length (p ++ s)) <= Bp (length x) ->
  exists r, mp_from_decimal_loop s x = Ok r /\ length r = length x /\ wordsOK r /\ val r = dec_val (p ++ s).
Proof.
  induction s as [|c s IH]; intros p x Hx Hs Hne Hp Hv Hroom; [done|]. cbn [mp_from_decimal_loop].
  inversion Hs as [|? ? Hc Hs']; subst. rewrite decimal_digit_spec by done.
  unfold is_dec_char in Hc. rewrite cons_middle, app_assoc in Hroom |- *.
  assert (Forall is_dec_char (p ++ [c])) as Hpc by (apply Forall_app; split; [done|by constructor]).
  pose proof (dec_val_bound _ Hpc) as Hb.
  assert (10 ^ Z.of_nat (length (p ++ [c])) <= 10 ^ Z.of_nat (length ((p ++ [c]) ++ s))) as Hm
    by (apply Z.pow_le_mono_r; [lia|rewrite (length_app (p ++ [c])); lia]).
  destruct (mp_add_integer_into_spec (length x) x (c - 48)) as (Hl1 & Hok1 & Hv1);
    [done|unfold is_uintmax; lia|].
  rewrite Hv, <-dec_val_snoc, Z.mod_small in Hv1 by lia.
  destruct s as [|c' s].
  - eexists. split_and!; [done..|]. by rewrite app_nil_r.
  - pose proof (mp_mul_integer_into_spec (length x) _ 10 Hok1 ltac:(lia) ltac:(lia)) as Hmul.
    rewrite Hv1 in Hmul. rewrite (proj2 (Z.ltb_lt _ _)) in Hmul.
    2: { rewrite length_app in Hroom. cbn [length] in Hroom.
         replace (Z.of_nat (length (p ++ [c]) + S (length s)))
           with (Z.of_nat (length (p ++ [c])) + 1 + Z.of_nat (length s)) in Hroom by lia.
         rewrite !Z.pow_add_r in Hroom by lia. pose proof (Z.pow_pos_nonneg 10 (Z.of_nat (length s))). nia. }
    destruct Hmul as (x2 & E & Hl2 & Hok2 & Hv2). rewrite Hl1, E. cbn [res_bind].
    destruct (IH (p ++ [c]) x2) as (r & Er & Hlr & Hr & Hvr); [done..|lia|by rewrite Hl2|].
    exists r. split_and!; [done|congruence|done..].
Qed.

Lemma mp_from_decimal_pl_spec s : Forall is_dec_char s -> Z.of_nat (length s) < SIZE_MAX / 196 ->
  exists r, mp_from_decimal_pl s = Ok r /\ (0 < length r)%nat /\ wordsOK r /\ val r = dec_val s.
Proof.
  intros Hs Hlen. unfold mp_from_decimal_pl, mp_make_sized.
  rewrite c_assert_true by (by apply Z.ltb_lt).
  rewrite c_assert_true by (apply Nat.ltb_lt; lia). cbn [res_bind].
  set (words := (196 * length s / 59 / 32 + 1)%nat).
  destruct s as [|c s].
  - exists (replicate words 0). split_and!; [done|rewrite length_replicate; unfold words; lia|auto with cmodel|].
    apply val_replicate_0.
  - destruct (mp_from_decimal_loop_spec (c :: s) [] (replicate words 0)) as (r & E & Hl & Hr & Hv);
      [auto with cmodel|done|done|constructor|by rewrite val_replicate_0| |].
    + rewrite length_replicate. apply decimal_room.
    + exists r. rewrite length_replicate in Hl. split_and!; [done|unfold words in *; lia|done..].
Qed.

(** ** The residue modulo 10 *)

Lemma byte_of w j : 0 <= w -> 0 <= j -> Z.land 255 (Z.shiftr w (8 * j)) = (w / 2 ^ (8 * j)) mod 256.
Proof.
  intros Hw Hj. rewrite Z.land_comm. change 255 with (Z.ones 8).
  by rewrite Z.land_ones, Z.shiftr_div_pow2 by lia.
Qed.

Lemma word_bytes w : is_word w ->
  exists b0 b1 b2 b3, is_byte b0 /\ is_byte b1 /\ is_byte b2 /\ is_byte b3 /\
    w = b0 + 256 * b1 + 65536 * b2 + 16777216 * b3 /\
    forall j, In j [0; 1; 2; 3] ->
      Z.land 255 (Z.shiftr w (8 * j)) = (if j =? 0 then b0 else if j =? 1 then b1 else if j =? 2 then b2 else b3).
Proof.
  unfold is_word, is_byte. intros Hw.
  exists (w mod 256), ((w / 256) mod 256), ((w / 256 / 256) mod 256), (w / 256 / 256 / 256).
  assert (0 <= w / 256 / 256 / 256 < 256) as H3 by (Z.div_mod_to_equations; lia).
  split_and!; try (apply Z.mod_pos_bound; lia); try (Z.div_mod_to_equations; lia).
  intros j [<-|[<-|[<-|[<-|[]]]]]; rewrite byte_of, ?Z.div_div by lia.
  - change (2 ^ (8 * 0)) with 1. by rewrite Z.div_1_r.
  - done.
  - done.
  - rewrite !Z.div_div in H3 by lia. by apply Z.mod_small.
Qed.

(** The four bytes of a word, while nothing overflows: the accumulator grows by
    something congruent to the word times the multiplier of its first byte. *)
Lemma low_digit_bytes w low mx mult : is_word w -> 0 <= low -> 0 <= mx -> mult = 1 \/ mult = 6 ->
  low + 6120 < B -> mx + 6120 < B ->
  exists add, fold_left (low_digit_byte w) [0; 1; 2; 3] {| ld_low := low; ld_max := mx; ld_mult := mult |} =
    {| ld_low := low + add; ld_max := mx + 255 * mult + 4590; ld_mult := 6 |} /\
    0 <= add <= 255 * mult + 4590 /\ cong 10 add (mult * w).
Proof.
  intros Hw Hlow Hmx Hmult H1 H2.
  destruct (word_bytes w Hw) as (b0 & b1 & b2 & b3 & Hb0 & Hb1 & Hb2 & Hb3 & E & Hbyte).
  unfold is_byte in *. exists (mult * b0 + 6 * b1 + 6 * b2 + 6 * b3).
  assert (0 <= mult * b0 <= mult * 255 /\ mult * 255 = 255 * mult) as [Hmb Hm255]
    by (destruct Hmult as [-> | ->]; lia).
  split_and!.
  - cbn [fold_left]. unfold low_digit_byte. cbn [ld_low ld_max ld_mult].
    rewrite !Hbyte by (cbn; tauto). cbn [Z.eqb Pos.eqb].
    rewrite (w32_small (mult * b0)), (w32_small (mult * 255)), (w32_small (6 * b1)), (w32_small (6 * b2)),
      (w32_small (6 * b3)), (w32_small (6 * 255)) by (unfold is_word; lia).
    rewrite (w32_small (low + mult * b0)), (w32_small (low + mult * b0 + 6 * b1)),
      (w32_small (low + mult * b0 + 6 * b1 + 6 * b2)), (w32_small (mx + mult * 255)),
      (w32_small (mx + mult * 255 + 6 * 255)), (w32_small (mx + mult * 255 + 6 * 255 + 6 * 255)),
      !w32_small by (unfold is_word; lia).
    f_equal; lia.
  - lia.
  - lia.
  - split. rewrite E. destruct Hmult as [-> | ->].
    + replace (1 * (b0 + 256 * b1 + 65536 * b2 + 16777216 * b3))
        with (1 * b0 + 6 * b1 + 6 * b2 + 6 * b3 + (25 * b1 + 6553 * b2 + 1677721 * b3) * 10) by lia.
      by rewrite Z_mod_plus_full.
    + replace (6 * (b0 + 256 * b1 + 65536 * b2 + 16777216 * b3))
        with (6 * b0 + 6 * b1 + 6 * b2 + 6 * b3 + (153 * b1 + 39321 * b2 + 10066329 * b3) * 10) by lia.
      by rewrite Z_mod_plus_full.
Qed.

(** Folding the top half of the accumulator into the bottom half. *)
Lemma fold_half v : is_word v ->
  w32 (Z.land v 65535 + w32 (6 * Z.shiftr v 16)) = v mod 65536 + 6 * (v / 65536) /\
  cong 10 (v mod 65536 + 6 * (v / 65536)) v.
Proof.
  unfold is_word. intros Hv. change 65535 with (Z.ones 16). rewrite Z.land_ones, Z.shiftr_div_pow2 by lia.
  change (2 ^ 16) with 65536. split.
  - rewrite !w32_small; [done|..]; unfold is_word; try rewrite w32_small; unfold is_word;
      Z.div_mod_to_equations; lia.
  - split. rewrite (Z.div_mod v 65536) at 3 by lia.
    replace (65536 * (v / 65536) + v mod 65536) with (v mod 65536 + 6 * (v / 65536) + (6553 * (v / 65536)) * 10) by lia.
    by rewrite Z_mod_plus_full.
Qed.

(** The state after [n] words.  The bound [maxval] is exact; it first passes
    the limit at word 701792, where the accumulator is folded.  After that the
    accumulator can exceed it, by at most 1524. *)
Definition low_digit_inv (n : Z) (v : Z) (st : low_digit_st) : Prop :=
  cong 10 (ld_low st) v /\ 0 <= ld_low st /\
  ( (n = 0 /\ ld_low st = 0 /\ ld_max st = 0 /\ ld_mult st = 1)
  \/ (1 <= n <= 701791 /\ ld_mult st = 6 /\ ld_max st = 6120 * n - 1275 /\ ld_low st <= ld_max st)
  \/ (701792 <= n <= 1403508 /\ ld_mult st = 6 /\ ld_max st = 457215 + 6120 * (n - 701792)
      /\ ld_low st <= ld_max st + 1524)).

Lemma Bp_mod10 n : cong 10 (Bp (S n)) 6.
Proof.
  induction n as [|n IH]; [done|]. rewrite Bp_S, IH. done.
Qed.

Lemma low_digit_word_step n v st w : low_digit_inv (Z.of_nat n) v st -> is_word w -> Z.of_nat n < 1403508 ->
  low_digit_inv (Z.of_nat (S n)) (v + Bp n * w) (low_digit_word st w).
Proof.
  intros (Hc & H0 & Hcase) Hw Hn.
  assert (ld_mult st = (if decide (n = 0)%nat then 1 else 6)) as Hmult by (case_decide; lia).
  assert (cong 10 (ld_mult st * w) (Bp n * w)) as Hm.
  { rewrite Hmult. case_decide as Hd; [by subst n|].
    destruct n as [|n]; [done|]. by rewrite (Bp_mod10 n). }
  destruct st as [low mx mult]. cbn [ld_low ld_max ld_mult] in *.
  destruct (low_digit_bytes w low mx mult) as (add & E & Hadd & Hcadd); [done|lia|lia| |lia|lia|].
  { rewrite Hmult. case_decide; tauto. }
  assert (cong 10 (low + add) (v + Bp n * w)) as Hsum by by rewrite Hc, Hcadd, Hm.
  unfold low_digit_word. rewrite E. unfold low_digit_fold, UINT32_MAX, BIGNUM_INT_BYTES. cbn [ld_low ld_max ld_mult].
  destruct (Z.ltb_spec (2 ^ 32 - 1 - 6 * 255 * 4) (mx + 255 * mult + 4590)) as [Hbig|Hsmall].
  - assert (Z.of_nat n = 701791 /\ mult = 6) as [Hn' ->] by lia.
    assert (mx + 255 * 6 + 4590 = 4294965765) as -> by lia.
    destruct (fold_half (low + add)) as [E1 E2]; [unfold is_word; lia|].
    unfold low_digit_inv. cbn [ld_low ld_max ld_mult]. rewrite E1. split; [by rewrite E2|].
    change (w32 (Z.land 4294965765 65535 + w32 (6 * Z.shiftr 4294965765 16))) with 457215.
    split; [Z.div_mod_to_equations; lia|]. right. right.
    split_and!; [lia|lia|done|lia|]. Z.div_mod_to_equations. lia.
  - unfold low_digit_inv. cbn [ld_low ld_max ld_mult]. split; [done|]. split; [lia|].
    destruct Hcase as [?|[?|?]]; [right; left|right; left|right; right]; lia.
Qed.

Lemma low_digit_words x : forall n v st, wordsOK x -> low_digit_inv (Z.of_nat n) v st ->
  Z.of_nat (n + length x) <= 1403508 ->
  low_digit_inv (Z.of_nat (n + length x)) (v + Bp n * val x) (fold_left low_digit_word x st).
Proof.
  induction x as [|w x IH]; intros n v st Hx Hi Hn; cbn [fold_left length val] in *.
  - rewrite Nat.add_0_r, Z.mul_0_r, Z.add_0_r. done.
  - inversion Hx; subst. rewrite Nat.add_succ_r.
    replace (v + Bp n * (w + B * val x)) with (v + Bp n * w + Bp (S n) * val x) by (rewrite Bp_S; lia).
    apply (IH (S n)); [done| |lia]. by apply low_digit_word_step; [..|lia].
Qed.

Lemma low_digit_reduce_spec v : is_word v -> low_digit_reduce v = v mod 10.
Proof.
  unfold is_word. intros Hv. unfold low_digit_reduce. rewrite !Z.shiftr_div_pow2 by lia.
  rewrite (w64_small (429496729 * v)) by lia.
  set (q := 429496729 * v / 2 ^ 32).
  assert (10 * q <= v < 10 * q + 16 /\ 0 <= q) as [Hq Hq0] by (unfold q; Z.div_mod_to_equations; lia).
  rewrite (w64_small (10 * q)), (w64_small (v - 10 * q)) by lia.
  rewrite (w32_small (v - 10 * q)) by (unfold is_word; lia).
  set (r := v - 10 * q). rewrite (w32_small (r + 6)) by (unfold is_word; lia).
  change (2 ^ 4) with 16.
  assert (0 <= (r + 6) / 16 <= 1) by (Z.div_mod_to_equations; lia).
  rewrite (w32_small (10 * _)) by (unfold is_word; lia).
  rewrite w32_small by (unfold is_word; Z.div_mod_to_equations; lia).
  apply Z.mod_unique_pos with (q + (r + 6) / 16); [|unfold r; lia]. Z.div_mod_to_equations. lia.
Qed.

(** Numbers of up to 1403508 words (44.9 million bits). *)
Definition decimal_size (x : mp_int) : Prop := Z.of_nat (length x) <= 1403508.

Lemma low_digit_spec x : wordsOK x -> decimal_size x -> low_digit x = val x mod 10.
Proof.
  intros Hx Hl. unfold low_digit.
  assert (low_digit_inv (Z.of_nat 0) 0 {| ld_low := 0; ld_max := 0; ld_mult := 1 |}) as H0.
  { split; [done|]. split; [done|]. by left. }
  destruct (low_digit_words x 0 0 _ Hx H0 Hl) as (Hc & Hge & Hcase).
  change (Bp 0) with 1 in Hc. rewrite Z.add_0_l, Z.mul_1_l in Hc.
  rewrite low_digit_reduce_spec; [apply Hc|]. unfold is_word. lia.
Qed.

(** ** Division by 10 *)

Lemma val_fill_const n c : val (fill n (fun _ => c)) * (B - 1) = c * (Bp n - 1).
Proof.
  induction n as [|n IH]; [cbn; lia|]. rewrite fill_S, Bp_S. cbn [val].
  rewrite Z.mul_add_distr_r, <-Z.mul_assoc, IH. ring.
Qed.

Lemma make_inv5_spec nw : (0 < nw)%nat ->
  length (make_inv5 nw) = nw /\ wordsOK (make_inv5 nw) /\ 5 * val (make_inv5 nw) = 4 * Bp nw + 1.
Proof.
  intros Hn. unfold make_inv5. set (c := BIGNUM_INT_MASK / 5 * 4).
  rewrite mp_word_fill, decide_True by done. change (w32 (c + 1)) with (c + 1).
  split_and!.
  - by rewrite length_insert, length_fill.
  - apply wordsOK_insert; [apply wordsOK_fill|]; by intros.
  - rewrite val_insert by (by rewrite length_fill). rewrite mp_word_fill, decide_True by done.
    change (Bp 0) with 1. pose proof (val_fill_const nw c) as E. change c with 3435973836 in *. bplia.
Qed.

(** Exact division by 10: halve, then multiply by the inverse of 5. *)
Lemma div10_spec x : wordsOK x -> (0 < length x)%nat -> decimal_size x ->
  exists r, mp_mul_into (mp_sub_integer_into (length x) x (low_digit x))
      (mp_rshift_fixed_into (length x) (mp_sub_integer_into (length x) x (low_digit x)) 1)
      (make_inv5 (length x)) = Ok r /\
    length r = length x /\ wordsOK r /\ val r = val x / 10.
Proof.
  intros Hx Hl Hsz. rewrite low_digit_spec by done.
  pose proof (val_bound x Hx) as Hb. pose proof (Z.mod_pos_bound (val x) 10 ltac:(lia)) as Hm.
  pose proof (Z.div_mod (val x) 10 ltac:(lia)) as Hdm.
  assert (0 <= val x / 10) by (apply Z.div_pos; lia).
  destruct (mp_sub_integer_into_spec (length x) x (val x mod 10)) as (Hl1 & Hok1 & Hv1);
    [done|unfold is_uintmax; lia|].
  rewrite (Z.mod_small (val x - _)) in Hv1 by lia. set (x1 := mp_sub_integer_into _ _ _) in *.
  destruct (mp_rshift_fixed_into_spec (length x) x1 1 Hok1) as (Hl2 & Hok2 & Hv2).
  change (2 ^ Z.of_nat 1) with 2 in Hv2.
  assert (val x1 / 2 = 5 * (val x / 10)) as Hhalf by (symmetry; apply Z.div_unique with 0; lia).
  rewrite Hhalf, Z.mod_small in Hv2 by lia. set (y := mp_rshift_fixed_into _ _ _) in *.
  destruct (make_inv5_spec (length x) Hl) as (Hl5 & Hok5 & Hv5).
  destruct (mp_mul_into_spec x1 y (make_inv5 (length x)) Hok2 Hok5) as (r & -> & Hlr & Hr & Hvr); [lia..|].
  exists r. split_and!; [done|lia|done|]. rewrite Hvr, Hv2, Hl1.
  replace (5 * (val x / 10) * val (make_inv5 (length x)))
    with (val x / 10 + 4 * (val x / 10) * Bp (length x)) by nia.
  rewrite Z_mod_plus_full. apply Z.mod_small. lia.
Qed.

Lemma mod_pow10_S v k : 0 <= v -> v mod 10 ^ Z.of_nat (S k) = 10 * ((v / 10) mod 10 ^ Z.of_nat k) + v mod 10.
Proof.
  intros Hv. rewrite Nat2Z.inj_succ, Z.pow_succ_r by lia.
  rewrite Z.rem_mul_r by (pose proof (Z.pow_pos_nonneg 10 (Z.of_nat k)); lia). lia.
Qed.

Lemma mp_get_decimal_loop_spec k : forall x acc n, wordsOK x -> length x = n -> (0 < n)%nat -> decimal_size x ->
  exists ds, mp_get_decimal_loop k x (make_inv5 n) acc = Ok (ds ++ acc) /\ length ds = k /\
    Forall is_dec_char ds /\ dec_val ds = val x mod 10 ^ Z.of_nat k.
Proof.
  induction k as [|k IH]; intros x acc n Hx <- Hl Hsz; cbn [mp_get_decimal_loop].
  - exists []. split_and!; [done|done|constructor|]. cbn. by rewrite Z.mod_1_r.
  - pose proof (Z.mod_pos_bound (val x) 10 ltac:(lia)) as Hm. pose proof (val_bound x Hx).
    rewrite c_assert_true by (rewrite low_digit_spec by done; apply Z.ltb_lt; lia).
    destruct (mp_sub_integer_into_spec (length x) x (low_digit x)) as (Hl1 & _ & _);
      [done|rewrite low_digit_spec by done; unfold is_uintmax; lia|]. rewrite Hl1.
    destruct (div10_spec x Hx Hl Hsz) as (r & -> & Hlr & Hr & Hvr). cbn [res_bind].
    destruct (IH r (48 + low_digit x :: acc) (length x)) as (ds & E & Hld & Hds & Hv);
      [done|done|done|unfold decimal_size in *; lia|].
    exists (ds ++ [48 + low_digit x]). rewrite low_digit_spec in * by done. split_and!.
    + rewrite E. by rewrite <-app_assoc.
    + rewrite length_app. cbn. lia.
    + apply Forall_app. split; [done|]. constructor; [unfold is_dec_char; lia|constructor].
    + rewrite dec_val_snoc, Hv, Hvr, mod_pow10_S by lia. lia.
Qed.

(** 146/485 is an upper bound for log10(2). *)
Lemma decimal_digits_room n : Bp n <= 10 ^ Z.of_nat (n * (146 * 32) / 485 + 1).
Proof.
  set (k := (n * (146 * 32) / 485 + 1)%nat).
  assert (146 * (32 * n) <= 485 * k)%nat as Hk.
  { unfold k. pose proof (Nat.div_mod (n * (146 * 32)) 485). pose proof (Nat.mod_upper_bound (n * (146 * 32)) 485). lia. }
  apply (Z.pow_le_mono_l_iff _ _ 485); [apply Z.pow_nonneg; lia..|lia|].
  rewrite <-!Z.pow_mul_r by lia.
  transitivity ((2 ^ 485) ^ (32 * Z.of_nat n)); [rewrite <-Z.pow_mul_r by lia; apply Z.pow_le_mono_r; lia|].
  transitivity ((10 ^ 146) ^ (32 * Z.of_nat n)); [apply Z.pow_le_mono_l; split; [lia|by vm_compute]|].
  rewrite <-Z.pow_mul_r by lia. apply Z.pow_le_mono_r; lia.
Qed.

Lemma dec_val_app_zero p s : dec_val p = 0 -> dec_val (p ++ s) = dec_val s.
Proof. intros H. unfold dec_val in *. by rewrite fold_left_app, H. Qed.

Lemma strip_zeroes_dec_val s : dec_val (strip_zeroes s) = dec_val s.
Proof.
  induction s as [|c s IH]; [done|]. cbn [strip_zeroes]. destruct s as [|c' s]; [done|].
  destruct (Z.eqb_spec c 48) as [-> |]; [|done]. rewrite IH. symmetry. by apply (dec_val_app_zero [48]).
Qed.

Lemma is_dec_char_byte s : Forall is_dec_char s -> bytesOK s /\ Forall (fun c => c <> 0) s.
Proof.
  intros H. split; (eapply Forall_impl; [exact H|]); unfold is_dec_char, is_byte; intros; lia.
Qed.

(** The output is the canonical decimal form of the number. *)
Lemma mp_get_decimal_spec x : wordsOK x -> (0 < length x)%nat -> decimal_size x ->
  exists out, mp_get_decimal x = Ok out /\
    let s := c_string out in
    canonical s /\ Forall is_dec_char s /\ dec_val s = val x /\
    Z.of_nat (length s) < SIZE_MAX / 196.
Proof.
  intros Hx Hl Hsz. unfold mp_get_decimal. rewrite mp_copy_spec by done. cbn [res_bind].
  unfold decimal_size in Hsz.
  rewrite c_assert_true by (apply Z.ltb_lt; unfold SIZE_MAX, BIGNUM_INT_BITS; Z.div_mod_to_equations; lia).
  set (k := ((length x * (146 * 32) / 485) `max` 1 + 2)%nat).
  destruct (mp_get_decimal_loop_spec (k - 1) x [0] (length x) Hx eq_refl Hl Hsz) as (ds & -> & Hld & Hds & Hv).
  cbn [res_bind]. destruct (is_dec_char_byte ds Hds) as [Hb Hnz].
  destruct (trim_leading_zeroes_spec ds Hb Hnz) as (out & E & _ & Hs).
  - unfold k in *. lia.
  - rewrite Hld. unfold k. pose proof (Nat.Div0.div_le_upper_bound (length x * (146 * 32)) 485 (length x * (146 * 32))). lia.
  - exists out. split; [rewrite <-E; f_equal; lia|]. cbn zeta. rewrite Hs.
    assert (k <= length x * (146 * 32) + 3)%nat as Hk
      by (unfold k; pose proof (Nat.Div0.div_le_upper_bound (length x * (146 * 32)) 485 (length x * (146 * 32))); lia).
    split_and!; [|by apply strip_zeroes_Forall| |].
    + apply strip_zeroes_canonical. intros ->. cbn in Hld. unfold k in Hld. lia.
    + rewrite strip_zeroes_dec_val, Hv. apply Z.mod_small. pose proof (val_bound x Hx).
      split; [lia|]. apply Z.lt_le_trans with (Bp (length x)); [lia|].
      etransitivity; [apply decimal_digits_room|]. apply Z.pow_le_mono_r; [lia|unfold k; lia].
    + pose proof (strip_zeroes_length ds). unfold SIZE_MAX. Z.div_mod_to_equations. lia.
Qed.
