(* ===== verification/MpintInv.v ===== *)
(** * Multiprecision integers: inversion modulo a power of two
    ([libs/putty/crypto/mpint.c], [mp_invert_mod_2to]) *)

From S2P Require Import Prelude MpintCore MpintArith MpintMul MpintShift.

Local Open Scope Z_scope.
Local Open Scope cmodel_scope.

(** One round takes the inverse [r] modulo [2^b] to the inverse modulo
    [2^(2b)].  First the upper half [r1] of the new inverse, with the space of
    [K], which is used again.  [pool] is the scratch space of the round. *)
Definition invert_r1 (x r : mp_int) (b : nat) (mul_scratch pool : mp_int) : res (mp_int * mp_int) :=
  let Bw := ((b + 32 - 1) / 32)%nat in
  let B2w := ((2 * b + 32 - 1) / 32)%nat in
  let! (x0, pool) := mp_alloc_from_scratch pool Bw in
  let x0 := mp_copy_into (length x0) x in
  let x0 := mp_reduce_mod_2to x0 b in
  let r0 := mp_make_alias r 0 Bw in
  let! (Kshift, pool) := mp_alloc_from_scratch pool B2w in
  let! Kshift := mp_mul_internal Kshift x0 r0 mul_scratch in
  let! (K, pool) := mp_alloc_from_scratch pool Bw in
  let K := mp_rshift_fixed_into (length K) Kshift b in
  let! (x1, pool) := mp_alloc_from_scratch pool Bw in
  let x1 := mp_rshift_fixed_into (length x1) x b in
  let x1 := mp_reduce_mod_2to x1 b in
  let r0x1 := mp_make_alias Kshift 0 Bw in
  let! r0x1 := mp_mul_internal r0x1 r0 x1 mul_scratch in
  let r0x1 := mp_add_into (length r0x1) r0x1 K in
  let r0x1 := mp_neg_into (length r0x1) r0x1 in
  let! (r1, pool) := mp_alloc_from_scratch pool Bw in
  let! r1 := mp_mul_internal r1 r0 r0x1 mul_scratch in
  Ok (mp_reduce_mod_2to r1 b, K).

(** Then [r1] is added on to [r] at bit [b]. *)
Definition invert_round (x r : mp_int) (b : nat) (mul_scratch pool : mp_int) : res mp_int :=
  let B2w := ((2 * b + 32 - 1) / 32)%nat in
  let! (r1, K) := invert_r1 x r b mul_scratch pool in
  let K := mp_lshift_fixed_into (length K) r1 (b mod 32) in
  let Bpos := (b / 32)%nat in
  let r1_position := mp_make_alias r Bpos (B2w - Bpos) in
  let r1_position := mp_add_into (length r1_position) r1_position K in
  Ok (write_alias r Bpos r1_position).

(** [for (b = 1; b < p; b <<= 1)]: the counter doubles, so [p] rounds are more
    than enough. *)
Fixpoint invert_loop (fuel : nat) (x r : mp_int) (b p : nat) (mul_scratch pool : mp_int) : res mp_int :=
  if (b <? p)%nat then
    match fuel with
    | O => Crash OutOfFuel
    | S fuel =>
        let! r := invert_round x r b mul_scratch pool in
        invert_loop fuel x r (2 * b) p mul_scratch pool
    end
  else Ok r.

Definition mp_invert_mod_2to (x : mp_int) (p : nat) : res mp_int :=
  c_assert (0 <? length x)%nat
  (c_assert (negb (Z.land (mp_word x 0) 1 =? 0))
  (c_assert (0 <? p)%nat
  (let rw := ((p + 32 - 1) / 32)%nat in
   let rw := (rw `max` 1)%nat in
   let! r := mp_make_sized rw in
   let mul_scratchsize := mp_mul_scratchspace (2 * rw) rw rw in
   let! scratch_orig := mp_make_sized (6 * rw + mul_scratchsize) in
   let! (mul_scratch, scratch_per_iter) := mp_alloc_from_scratch scratch_orig mul_scratchsize in
   let r := <[0%nat := 1]> r in
   let! r := invert_loop p x r 1 p mul_scratch scratch_per_iter in
   Ok (mp_reduce_mod_2to r p)))).

(** ** Correctness *)

(** Arithmetic on lengths, with the facts about values out of the way. *)
Ltac size_lia :=
  repeat match goal with H : context [val _] |- _ => clear H end;
  unfold mul_inlen; rewrite ?length_mp_make_alias; lia.

(** The number of words that hold [b] bits. *)
Lemma words_for b : let w := ((b + 32 - 1) / 32)%nat in (b <= 32 * w /\ 32 * w <= b + 31)%nat.
Proof.
  cbn zeta. pose proof (Nat.div_mod (b + 32 - 1) 32). pose proof (Nat.mod_upper_bound (b + 32 - 1) 32). lia.
Qed.

Lemma pow_le_Bp b w : (b <= 32 * w)%nat -> 2 ^ Z.of_nat b <= Bp w.
Proof. intros. apply Z.pow_le_mono_r; lia. Qed.

(** A residue modulo [2^b] of a residue modulo more than that. *)
Lemma mod_mod_pow v b w : (b <= 32 * w)%nat -> (v mod Bp w) mod 2 ^ Z.of_nat b = v mod 2 ^ Z.of_nat b.
Proof.
  intros H. apply Z.mod_mod_divide. exists (2 ^ (32 * Z.of_nat w - Z.of_nat b)).
  rewrite <-Z.pow_add_r by lia. f_equal. lia.
Qed.

Lemma digit2_bound M a c : 0 <= a < M -> 0 <= c < M -> 0 <= a + M * c < M * M.
Proof. nia. Qed.

Lemma prod_bound M a c : 0 <= a < M -> 0 <= c < M -> 0 <= a * c < M * M.
Proof. nia. Qed.

(** The algebra of a round. *)
Lemma invert_algebra M X r0 K x0 x1 r1 k : 0 < M ->
  x0 * r0 = K * M + 1 -> X = x0 + M * x1 + M * M * k ->
  cong M r1 (r0 * (- (r0 * x1 + K))) ->
  cong (M * M) (X * (r0 + M * r1)) 1.
Proof.
  intros HM HK -> Hr1.
  assert (cong M (x0 * r1) (- (r0 * x1 + K))) as Hx.
  { rewrite Hr1, Z.mul_assoc, HK, Z.mul_add_distr_r, (Z.mul_comm K M), <-Z.mul_assoc, (cong_self M).
    by rewrite Z.add_0_l, Z.mul_1_l. }
  replace ((x0 + M * x1 + M * M * k) * (r0 + M * r1))
    with (x0 * r0 + M * (x1 * r0 + x0 * r1) + M * M * (x1 * r1 + k * (r0 + M * r1))) by ring.
  rewrite (cong_self (M * M)), Z.add_0_r, HK.
  assert (cong (M * M) (M * (x1 * r0 + x0 * r1)) (M * (- K))) as ->.
  { apply cong_scale. rewrite Hx. apply reflexive_eq. ring. }
  apply reflexive_eq. ring.
Qed.

(** Adding into the words [off .. off+len-1] of a number that is zero above
    them. *)
Lemma add_into_alias r off len y : wordsOK r -> wordsOK y -> (off <= length r)%nat -> val r < Bp (off + len) ->
  let a := mp_make_alias r off len in
  let r' := write_alias r off (mp_add_into (length a) a y) in
  length r' = length r /\ wordsOK r' /\
  val r' = (val r + Bp off * val y) mod Bp ((off + len) `min` length r).
Proof.
  intros Hr Hy Ho Hsmall. cbn zeta. set (a := mp_make_alias r off len).
  assert (length a = (len `min` (length r - off))%nat) as Hla by apply length_mp_make_alias.
  assert (wordsOK a) as Ha by (unfold a; auto with cmodel).
  destruct (mp_add_into_spec (length a) a y Ha Hy) as (Hl & Hok & Hv).
  set (s := mp_add_into (length a) a y) in *. set (L := length a) in *.
  rewrite write_alias_eq by lia. rewrite Hl.
  pose proof (val_bound r Hr) as Hrb.
  assert (val (drop (off + L) r) = 0) as Hz.
  { rewrite val_drop_div by done. apply Z.div_small. split; [lia|].
    destruct (Nat.le_gt_cases len (length r - off)).
    - replace (off + L)%nat with (off + len)%nat by lia. done.
    - replace (off + L)%nat with (length r) by lia. lia. }
  split_and!.
  - rewrite !length_app, length_take, length_drop. lia.
  - apply wordsOK_app. split; [auto with cmodel|]. apply wordsOK_app. auto with cmodel.
  - rewrite !val_app, Hz, Z.mul_0_r, Z.add_0_r, length_take_le, Hv by lia.
    replace ((off + len) `min` length r)%nat with (off + L)%nat by lia.
    assert (val a = val (drop off r)) as ->.
    { unfold a. rewrite mp_make_alias_eq.
      rewrite <-(take_drop len (drop off r)) at 2. rewrite val_app, drop_drop.
      destruct (Nat.le_gt_cases len (length r - off)).
      - replace (off + len)%nat with (off + L)%nat by lia. by rewrite Hz, Z.mul_0_r, Z.add_0_r.
      - rewrite (drop_ge r (off + len)) by lia. cbn [val]. by rewrite Z.mul_0_r, Z.add_0_r. }
    rewrite <-(take_drop off r) at 3. rewrite val_app, length_take_le by done.
    rewrite <-Z.add_assoc, <-Z.mul_add_distr_l. apply cong_small.
    + rewrite Bp_add. pose proof (val_bound (take off r) (wordsOK_take off r Hr)) as Ht.
      rewrite length_take_le in Ht by done.
      pose proof (Z.mod_pos_bound (val (drop off r) + val y) (Bp L) (Bp_pos L)). nia.
    + f_equiv. rewrite Bp_add. apply cong_scale, cong_mod.
Qed.

(** The bit counts of the rounds: within a word, or whole words. *)
Definition round_bits (b : nat) : Prop := (0 < b)%nat /\ ((2 * b <= 32)%nat \/ (b mod 32 = 0)%nat).

Section Round.
Context (x : mp_int) (rw b : nat) (Hx : wordsOK x).
Context (Hb : round_bits b) (Hbw : (b <= 32 * rw)%nat).
Let M := 2 ^ Z.of_nat b.
Let Bw := ((b + 32 - 1) / 32)%nat.
Let B2w := ((2 * b + 32 - 1) / 32)%nat.

Lemma round_pos : 0 < M.
Proof. apply Z.pow_pos_nonneg; lia. Qed.

Lemma round_words : (b <= 32 * Bw /\ 2 * b <= 32 * B2w /\ Bw <= rw /\ B2w <= 2 * Bw /\ 0 < Bw /\ b / 32 <= Bw /\
  b / 32 <= B2w /\ Bw <= B2w)%nat.
Proof.
  destruct Hb as [H0 _]. pose proof (words_for b) as H1. pose proof (words_for (2 * b)) as H2. cbn zeta in *.
  fold Bw in H1. fold B2w in H2. pose proof (Nat.div_mod b 32). pose proof (Nat.mod_upper_bound b 32). lia.
Qed.

Lemma M_le : M <= Bp Bw /\ M * M <= Bp B2w.
Proof.
  destruct round_words as (H1 & H2 & _). split; [by apply pow_le_Bp|].
  unfold M. rewrite <-Z.pow_add_r by lia.
  replace (Z.of_nat b + Z.of_nat b) with (Z.of_nat (2 * b)) by lia. by apply pow_le_Bp.
Qed.

(** Where [r1] goes: [K] at word [b / 32] is [r1] at bit [b]. *)
Lemma round_position r1 : wordsOK r1 -> val r1 < M ->
  let K := mp_lshift_fixed_into Bw r1 (b mod 32) in
  wordsOK K /\ Bp (b / 32) * val K = M * val r1.
Proof.
  intros Hr1 Hlt. cbn zeta. destruct (mp_lshift_fixed_into_spec Bw r1 (b mod 32) Hr1) as (_ & Hok & ->).
  split; [done|]. pose proof (val_bound r1 Hr1) as Hr. destruct M_le as [HM HMM]. pose proof round_pos as HM0.
  assert (Bp (b / 32) * 2 ^ Z.of_nat (b mod 32) = M) as HMeq.
  { unfold M. rewrite <-Z.pow_add_r by lia. f_equal. destruct (nat_bits_split b). lia. }
  rewrite Z.mod_small; [nia|].
  destruct Hb as [H0 [H|H]].
  - rewrite Nat.mod_small by lia. fold M.
    assert (M * M <= Bp Bw); [|nia].
    unfold M. rewrite <-Z.pow_add_r by lia. apply Z.pow_le_mono_r; [lia|].
    destruct round_words. lia.
  - rewrite H. change (2 ^ Z.of_nat 0) with 1. lia.
Qed.

(** What a round leaves in [r]: the inverse modulo [M^2], cut to the length of
    [r]. *)
Definition round_post (r' : mp_int) : Prop :=
  length r' = rw /\ wordsOK r' /\
  exists v, val r' = v mod Bp rw /\ 0 <= v < M * M /\ cong (M * M) (val x * v) 1.

Lemma round_inverse r0 K x0 x1 r1 k :
  cong M (val x * r0) 1 -> x0 = val x mod M -> x1 = (val x / M) mod M ->
  K = x0 * r0 / M -> k = val x / M / M ->
  cong M r1 (r0 * (- (r0 * x1 + K))) ->
  cong (M * M) (val x * (r0 + M * r1)) 1.
Proof.
  intros Hinv -> -> -> -> Hr1. pose proof round_pos as HM0.
  eapply (invert_algebra M (val x) r0 _ (val x mod M) ((val x / M) mod M) r1 (val x / M / M)); [done| | |exact Hr1].
  - rewrite (Z.div_mod (val x mod M * r0) M) at 1 by lia.
    assert ((val x mod M * r0) mod M = 1) as ->; [|ring].
    rewrite Zmult_mod_idemp_l. destruct Hinv as [->]. apply Z.mod_small.
    unfold M. destruct Hb as [Hb0 _]. pose proof (Z.pow_le_mono_r 2 1 (Z.of_nat b)). lia.
  - rewrite (Z.div_mod (val x) M) at 1 by lia. rewrite (Z.div_mod (val x / M) M) at 1 by lia. ring.
Qed.

Lemma invert_r1_ok r mul_scratch pool :
  wordsOK r -> length r = rw -> val r < M -> cong M (val x * val r) 1 ->
  (6 * rw <= length mul_scratch)%nat -> (6 * rw <= length pool)%nat ->
  exists p, invert_r1 x r b mul_scratch pool = Ok p /\ wordsOK (fst p) /\ length (snd p) = Bw /\
    0 <= val (fst p) < M /\ cong (M * M) (val x * (val r + M * val (fst p))) 1.
Proof.
  intros Hr Hl Hlt Hinv Hms Hpool. unfold invert_r1. fold Bw B2w.
  destruct round_words as (W1 & W2 & W3 & W4 & W5 & W6 & W7 & W8). destruct M_le as [HM HMM].
  pose proof round_pos as HM0. pose proof (val_bound r Hr) as Hrb.
  set (r0 := mp_make_alias r 0 Bw). assert (wordsOK r0) as Hr0 by (unfold r0; auto with cmodel).
  assert (length r0 = Bw) as Hlr0 by (unfold r0; rewrite length_mp_make_alias; lia).
  assert (val r0 = val r) as Hvr0.
  { unfold r0. rewrite alias0 by done. apply Z.mod_small. lia. }
  apply alloc_step; [lia|]. intros x0m p1 -> Hp1. rewrite mp_copy_into_eq.
  destruct (mp_reduce_mod_2to_spec (fill Bw (mp_word x)) b) as (Hlx0 & Hx0 & Hvx0);
    [apply wordsOK_fill; auto with cmodel|].
  rewrite length_fill in Hlx0. rewrite val_fill_words, mod_mod_pow in Hvx0 by done. fold M in Hvx0.
  set (x0 := mp_reduce_mod_2to _ _) in *.
  apply alloc_step; [lia|]. intros Ksm p2 HKs Hp2.
  destruct (mp_mul_internal_ok Ksm x0 r0 mul_scratch) as (Ks & -> & HlKs & HKsok & HvKs);
    [done|done|unfold mul_inlen; lia|]. cbn [res_bind].
  rewrite HKs in HlKs, HvKs. rewrite Hvr0, Hvx0 in HvKs.
  pose proof (Z.mod_pos_bound (val x) M HM0) as Hmx.
  pose proof (prod_bound M (val x mod M) (val r) Hmx ltac:(lia)) as Hprod.
  rewrite Z.mod_small in HvKs by lia.
  apply alloc_step; [lia|]. intros Km p3 -> Hp3.
  destruct (mp_rshift_fixed_into_spec Bw Ks b HKsok) as (HlK & HKok & HvK). fold M in HvK.
  set (K := mp_rshift_fixed_into Bw Ks b) in *.
  rewrite HvKs, Z.mod_small in HvK.
  2: { split; [apply Z.div_pos; lia|]. apply Z.lt_le_trans with M; [|done].
       apply Z.div_lt_upper_bound; lia. }
  apply alloc_step; [size_lia|]. intros x1m p4 -> Hp4.
  destruct (mp_rshift_fixed_into_spec Bw x b Hx) as (Hlx1' & Hx1' & Hvx1'). fold M in Hvx1'.
  destruct (mp_reduce_mod_2to_spec (mp_rshift_fixed_into Bw x b) b Hx1') as (Hlx1 & Hx1 & Hvx1).
  rewrite Hvx1', mod_mod_pow in Hvx1 by done. fold M in Hvx1.
  set (x1 := mp_reduce_mod_2to (mp_rshift_fixed_into Bw x b) b) in *.
  assert (length (mp_make_alias Ks 0 Bw) = Bw) as Hla by size_lia.
  destruct (mp_mul_internal_ok (mp_make_alias Ks 0 Bw) r0 x1 mul_scratch) as (rx & -> & Hlrx & Hrx & Hvrx);
    [done|done|size_lia|]. cbn [res_bind]. rewrite Hla in Hlrx, Hvrx. rewrite Hlrx.
  destruct (mp_add_into_spec Bw rx K Hrx HKok) as (Hls & Hs & Hvs).
  set (s := mp_add_into Bw rx K) in *. rewrite Hls.
  destruct (mp_neg_into_spec Bw s Hs) as (Hln & Hn & Hvn). set (ng := mp_neg_into Bw s) in *.
  apply alloc_step; [size_lia|]. intros r1m p5 Hr1m Hp5.
  destruct (mp_mul_internal_ok r1m r0 ng mul_scratch) as (r1' & -> & Hlr1' & Hr1' & Hvr1');
    [done|done|size_lia|]. cbn [res_bind]. rewrite Hr1m in Hlr1', Hvr1'.
  destruct (mp_reduce_mod_2to_spec r1' b Hr1') as (Hlr1 & Hr1 & Hvr1). fold M in Hvr1.
  eexists. split; [done|]. cbn [fst snd]. split_and!; [done|done|..].
  1, 2: rewrite Hvr1; apply Z.mod_pos_bound; exact HM0.
  apply (round_inverse (val r) (val K) (val x mod M) ((val x / M) mod M) _ (val x / M / M));
    [done|done|done|done|done|].
  assert (forall v, cong M (v mod Bp Bw) v) as Hdown by (intros v; split; by apply mod_mod_pow).
  rewrite Hvr1, (cong_mod M), Hvr1', Hvr0, Hdown, Hvn, Hdown.
  rewrite <-(Z.sub_0_l (val s)), <-(Z.sub_0_l (_ + val K)), Hvs, Hdown, Hvrx, Hdown, Hvr0, Hvx1. done.
Qed.

Lemma invert_round_ok r mul_scratch pool :
  wordsOK r -> length r = rw -> val r < M -> cong M (val x * val r) 1 ->
  (6 * rw <= length mul_scratch)%nat -> (6 * rw <= length pool)%nat ->
  exists r', invert_round x r b mul_scratch pool = Ok r' /\ round_post r'.
Proof.
  intros Hr Hl Hlt Hinv Hms Hpool. unfold invert_round.
  destruct (invert_r1_ok r mul_scratch pool) as ([r1 K] & -> & Hr1 & HlK & Hb1 & Hc); [done..|].
  cbn [res_bind fst snd] in *. rewrite HlK. fold B2w.
  destruct round_words as (W1 & W2 & W3 & W4 & W5 & W6 & W7 & W8). destruct M_le as [HM HMM].
  pose proof (val_bound r Hr) as Hrb.
  assert (b / 32 + (B2w - b / 32) = B2w)%nat as Hpos by lia.
  pose proof (digit2_bound M (val r) (val r1) ltac:(lia) Hb1) as Hv.
  destruct (round_position r1 Hr1) as [HK2ok HK2]; [lia|].
  destruct (add_into_alias r (b / 32) (B2w - b / 32) _ Hr HK2ok) as (Hlf & Hf & Hvf); [lia| |].
  { rewrite Hpos. nia. }
  eexists. split; [done|]. split_and!; [congruence|done|]. cbn zeta in Hvf. rewrite HK2, Hpos, Hl in Hvf.
  exists (val r + M * val r1). split_and!; [|lia|lia|done].
  etransitivity; [exact Hvf|]. apply fit_mod. lia.
Qed.
End Round.

Lemma round_bits_pow i : round_bits (2 ^ i).
Proof.
  split; [apply Nat.neq_0_lt_0, Nat.pow_nonzero; lia|].
  destruct (Nat.le_gt_cases i 4) as [H|H].
  - left. change 32%nat with (2 * 2 ^ 4)%nat. pose proof (Nat.pow_le_mono_r 2 i 4). lia.
  - right. replace i with (5 + (i - 5))%nat by lia. rewrite Nat.pow_add_r. change (2 ^ 5)%nat with 32%nat.
    rewrite Nat.mul_comm. apply Nat.Div0.mod_mul.
Qed.

(** [r] is the inverse of [x] modulo [2^b], or modulo all that [r] can hold if
    that is less. *)
Definition partial_inverse (x r : mp_int) (b : nat) : Prop :=
  wordsOK r /\ exists v, val r = v mod Bp (length r) /\ 0 <= v < 2 ^ Z.of_nat b /\
    cong (2 ^ Z.of_nat b) (val x * v) 1.

Lemma invert_loop_ok x p rw mul_scratch pool :
  wordsOK x -> (p <= 32 * rw)%nat ->
  (6 * rw <= length mul_scratch)%nat -> (6 * rw <= length pool)%nat ->
  forall fuel i r, length r = rw -> partial_inverse x r (2 ^ i) -> (p <= 2 ^ i + fuel)%nat ->
  exists r' j, invert_loop fuel x r (2 ^ i) p mul_scratch pool = Ok r' /\ length r' = rw /\
    (p <= 2 ^ j)%nat /\ partial_inverse x r' (2 ^ j).
Proof.
  intros Hx Hp Hms Hpool. induction fuel as [|fuel IH]; intros i r Hl Hr Hf; cbn [invert_loop].
  - rewrite (proj2 (Nat.ltb_ge _ _)) by lia. exists r, i. split_and!; [done..|lia|done].
  - destruct (Nat.ltb_spec (2 ^ i) p) as [Hlt|Hge]; [|by exists r, i].
    destruct Hr as (Hok & v & Hv & Hvb & Hc).
    pose proof (pow_le_Bp (2 ^ i) rw ltac:(lia)) as HB. rewrite Hl, Z.mod_small in Hv by lia. subst v.
    destruct (invert_round_ok x rw (2 ^ i) Hx (round_bits_pow i) ltac:(lia) r mul_scratch pool)
      as (r' & -> & Hl' & Hok' & v' & Hv' & Hvb' & Hc'); [done|done|lia|done..|].
    cbn [res_bind]. replace (2 * 2 ^ i)%nat with (2 ^ S i)%nat by (cbn; lia).
    assert (2 ^ Z.of_nat (2 ^ S i) = 2 ^ Z.of_nat (2 ^ i) * 2 ^ Z.of_nat (2 ^ i)) as HS.
    { rewrite <-Z.pow_add_r by lia. f_equal. cbn. lia. }
    apply IH; [done| |].
    + split; [done|]. exists v'. rewrite HS, Hl'. done.
    + cbn. pose proof (Nat.pow_nonzero 2 i). lia.
Qed.

Lemma mp_invert_mod_2to_spec x p : wordsOK x -> Z.odd (val x) = true -> (0 < p)%nat ->
  exists r, mp_invert_mod_2to x p = Ok r /\ length r = ((p + 32 - 1) / 32)%nat /\ wordsOK r /\
    0 <= val r < 2 ^ Z.of_nat p /\ cong (2 ^ Z.of_nat p) (val x * val r) 1.
Proof.
  intros Hx Hodd Hp. unfold mp_invert_mod_2to, mp_make_sized.
  assert (0 < length x)%nat as Hlx by (destruct x; [done|cbn; lia]).
  rewrite c_assert_true by (by apply Nat.ltb_lt).
  assert (Z.odd (mp_word x 0) = true) as Hodd0.
  { rewrite <-Hodd, <-!Z.bit0_odd. symmetry. apply (val_testbit x 0 0); [done|lia]. }
  rewrite c_assert_true by (rewrite Z.land_comm, land_1_odd, Hodd0; done).
  rewrite c_assert_true by (by apply Nat.ltb_lt).
  pose proof (words_for p) as Hw. cbn zeta in Hw. set (rw' := ((p + 32 - 1) / 32)%nat) in *.
  replace (rw' `max` 1)%nat with rw' by lia.
  rewrite c_assert_true by (apply Nat.ltb_lt; lia). cbn [res_bind].
  rewrite c_assert_true by (apply Nat.ltb_lt; lia). cbn [res_bind].
  unfold mp_mul_scratchspace, mp_mul_scratchspace_unary.
  replace (mul_inlen (2 * rw') rw' rw') with rw' by (unfold mul_inlen; lia).
  destruct (mp_alloc_from_scratch_ok (replicate (6 * rw' + rw' * 6) 0) (rw' * 6)) as (ms & pool & -> & Hms & Hpool);
    [rewrite length_replicate; lia|]. cbn [res_bind]. rewrite length_replicate in Hpool.
  assert (0 < rw')%nat as Hrw by lia. set (r := <[0%nat := 1]> (replicate rw' 0)).
  assert (length r = rw') as Hlr by (unfold r; by rewrite length_insert, length_replicate).
  assert (val r = 1) as Hvr.
  { unfold r. rewrite val_insert, val_replicate_0 by (by rewrite length_replicate).
    unfold mp_word. rewrite lookup_replicate_2 by done. done. }
  destruct (invert_loop_ok x p rw' ms pool Hx ltac:(lia) ltac:(lia) ltac:(lia) p 0 r) as (r' & j & E & Hl' & Hj & Hr').
  - done.
  - split; [apply wordsOK_insert; [auto with cmodel|by unfold is_word]|]. exists 1. rewrite Hvr.
    split_and!; [|done|done|].
    + rewrite Z.mod_small; [done|]. split; [lia|]. apply Z.pow_gt_1; lia.
    + split. change (2 ^ Z.of_nat (2 ^ 0)) with 2. rewrite Z.mul_1_r, !Zmod_odd. by rewrite Hodd.
  - lia.
  - change (2 ^ 0)%nat with 1%nat in E. rewrite E. cbn [res_bind].
    destruct Hr' as (Hok' & v & Hv & Hvb & Hc).
    destruct (mp_reduce_mod_2to_spec r' p Hok') as (Hlf & Hf & Hvf).
    eexists. split; [done|]. split_and!; [congruence|done|..].
    1, 2: rewrite Hvf; apply Z.mod_pos_bound, Z.pow_pos_nonneg; lia.
    rewrite Hvf, (cong_mod (2 ^ Z.of_nat p)), Hv, Hl'.
    assert (cong (2 ^ Z.of_nat p) (v mod Bp rw') v) as -> by (split; apply mod_mod_pow; lia).
    apply cong_weaken with (2 ^ (Z.of_nat (2 ^ j) - Z.of_nat p)).
    rewrite <-Z.pow_add_r by lia. by replace (Z.of_nat p + (Z.of_nat (2 ^ j) - Z.of_nat p)) with (Z.of_nat (2 ^ j)) by lia.
Qed.
