(* ===== verification/MpintRecip.v ===== *)
(** * Multiprecision integers: the initial reciprocal of division
    ([libs/putty/crypto/mpint.c], [recip_approx_32])

    The code evaluates a degree-8 polynomial in fixed point and states that
    exhaustive iteration shows its error to be below 1687.  Here a bound that
    is strong enough for the division is proved: the polynomial is expanded
    around the centre of each of 1024 intervals, and the rounding of the eight
    steps is bounded separately. *)

From S2P Require Import Prelude MpintCore.

Local Open Scope Z_scope.

(** One step [r = c - ((r*x) >> s)] on [uint64_t]. *)
Definition recip_step (x : Z) (r : Z) (cs : Z * Z) : Z :=
  w64 (fst cs - Z.shiftr (w64 (r * x)) (snd cs)).

Definition recip_coeffs : list (Z * Z) :=
  [ (0xf63e71ea, 34); (0xb63721e8, 34); (0x9c2da00e, 33); (0xaada0bb8, 32);
    (0xf75cd403, 31); (0xecf97a41, 31); (0x90d876cd, 31); (0x6682799a0, 26) ].

Definition recip_approx_32 (x : Z) : Z :=
  w32 (fold_left (recip_step x) recip_coeffs 0x92db03d6).

(** ** Polynomials *)

Fixpoint peval (p : list Z) (x : Z) : Z :=
  match p with [] => 0 | a :: p => a + x * peval p x end.

Fixpoint padd (p q : list Z) : list Z :=
  match p, q with
  | [], q => q
  | p, [] => p
  | a :: p, b :: q => a + b :: padd p q
  end.

Definition pscale (c : Z) (p : list Z) : list Z := Z.mul c <$> p.

(** [p (c + t)] as a polynomial in [t]. *)
Fixpoint pshift (p : list Z) (c : Z) : list Z :=
  match p with
  | [] => []
  | a :: p => let q := pshift p c in padd [a] (padd (pscale c q) (0 :: q))
  end.

Lemma peval_padd p q x : peval (padd p q) x = peval p x + peval q x.
Proof.
  revert q. induction p as [|a p IH]; intros [|b q]; cbn [padd peval]; rewrite ?IH; lia.
Qed.

Lemma peval_pscale c p x : peval (pscale c p) x = c * peval p x.
Proof. induction p as [|a p IH]; cbn [pscale fmap list_fmap peval] in *; [lia|]. unfold pscale in IH. rewrite IH. lia. Qed.

Lemma peval_pshift p c t : peval (pshift p c) t = peval p (c + t).
Proof.
  induction p as [|a p IH]; cbn [pshift]; [done|].
  rewrite !peval_padd, peval_pscale. cbn [peval]. rewrite IH. lia.
Qed.

Lemma peval_abs p t rho : Z.abs t <= rho -> Z.abs (peval p t) <= peval (Z.abs <$> p) rho.
Proof.
  intros Ht. induction p as [|a p IH]; cbn [peval fmap list_fmap]; [lia|].
  pose proof (Z.abs_triangle a (t * peval p t)) as H. rewrite Z.abs_mul in H.
  pose proof (Z.abs_nonneg (peval p t)). pose proof (Z.abs_nonneg t). nia.
Qed.

(** ** The exact polynomial and the rounding error *)

(** The steps without wrapping. *)
Definition zstep (x : Z) (r : Z) (cs : Z * Z) : Z := fst cs - Z.shiftr (r * x) (snd cs).

(** The exact value of the steps is [peval p x / 2^S]; the integer steps are
    between [L / 2^S] below it and [U / 2^S] above it, for arguments up to
    [X]. *)
Record enclosure := Encl { en_p : list Z; en_S : Z; en_L : Z; en_U : Z }.

Definition enclosure_step (X : Z) (e : enclosure) (cs : Z * Z) : enclosure :=
  let S' := en_S e + snd cs in
  {| en_p := padd [fst cs * 2 ^ S'] (0 :: pscale (-1) (en_p e));
     en_S := S'; en_L := en_U e * X; en_U := en_L e * X + 2 ^ S' |}.

Definition encloses (x r : Z) (e : enclosure) : Prop :=
  0 <= en_S e /\ 0 <= en_L e /\ 0 <= en_U e /\
  peval (en_p e) x - en_L e <= r * 2 ^ en_S e <= peval (en_p e) x + en_U e.

Lemma encloses_step X x r e cs : 0 <= x <= X -> 0 <= snd cs -> encloses x r e ->
  encloses x (zstep x r cs) (enclosure_step X e cs).
Proof.
  intros Hx Hs (HS & HL & HU & Hr). destruct cs as [c s]. cbn [fst snd] in *.
  unfold encloses, enclosure_step, zstep. cbn [en_p en_S en_L en_U fst snd].
  rewrite peval_padd. cbn [peval]. rewrite peval_pscale, Z.pow_add_r by lia.
  rewrite Z.shiftr_div_pow2 by done.
  assert (0 < 2 ^ en_S e) by (apply Z.pow_pos_nonneg; lia).
  assert (0 < 2 ^ s) by (apply Z.pow_pos_nonneg; lia).
  pose proof (Z.div_mod (r * x) (2 ^ s) ltac:(lia)) as Hd.
  pose proof (Z.mod_pos_bound (r * x) (2 ^ s) ltac:(lia)) as Hm.
  set (q := r * x / 2 ^ s) in *. set (f := (r * x) mod 2 ^ s) in *.
  split_and!; [lia|nia|nia|..].
  - assert (q * (2 ^ en_S e * 2 ^ s) <= x * (r * 2 ^ en_S e)) by nia.
    assert (x * (r * 2 ^ en_S e) <= x * (peval (en_p e) x + en_U e)) by nia. nia.
  - assert (x * (r * 2 ^ en_S e) - 2 ^ en_S e * 2 ^ s <= q * (2 ^ en_S e * 2 ^ s)) by nia.
    assert (x * (peval (en_p e) x - en_L e) <= x * (r * 2 ^ en_S e)) by nia. nia.
Qed.

Definition enclosure_of (X : Z) : enclosure :=
  fold_left (enclosure_step X) recip_coeffs {| en_p := [0x92db03d6]; en_S := 0; en_L := 0; en_U := 0 |}.

Lemma recip_encloses X x : 0 <= x <= X ->
  encloses x (fold_left (zstep x) recip_coeffs 0x92db03d6) (enclosure_of X).
Proof.
  intros Hx. unfold enclosure_of.
  assert (forall l r e, Forall (fun cs => 0 <= snd cs) l -> encloses x r e ->
    encloses x (fold_left (zstep x) l r) (fold_left (enclosure_step X) l e)) as H.
  { induction l as [|cs l IH]; intros r e Hl He; [done|]. inversion Hl; subst. cbn [fold_left].
    apply IH; [done|]. by apply encloses_step. }
  apply H; [repeat constructor; cbn; lia|]. unfold encloses. cbn. lia.
Qed.

(** ** The error of the exact polynomial *)

(** [x p(x) - 2^63], scaled by [2^252]. *)
Definition recip_error : list Z := Eval vm_compute in padd [- 2 ^ (63 + 252)] (0 :: en_p (enclosure_of 0)).

Lemma recip_error_eq X x :
  en_S (enclosure_of X) = 252 /\ peval recip_error x = x * peval (en_p (enclosure_of X)) x - 2 ^ 63 * 2 ^ 252.
Proof.
  split; [reflexivity|].
  change (en_p (enclosure_of X)) with (en_p (enclosure_of 0)).
  change recip_error with (padd [- 2 ^ (63 + 252)] (0 :: en_p (enclosure_of 0))).
  rewrite peval_padd. cbn [peval]. rewrite Z.pow_add_r by lia. lia.
Qed.

(** The centre of interval [k] of 1024, each of width [2^21]. *)
Definition centre (k : nat) : Z := 2 ^ 31 + (2 * Z.of_nat k + 1) * 2 ^ 20.

Definition error_limit : Z := 1150 * 2 ^ 32 * 2 ^ 252.

Definition error_ok (k : nat) : bool :=
  peval (Z.abs <$> pshift recip_error (centre k)) (2 ^ 20) <=? error_limit.

(** The intermediate values over an interval stay in 32 bits. *)
Definition range_step (xlo xhi : Z) (b : option (Z * Z)) (cs : Z * Z) : option (Z * Z) :=
  match b with
  | Some (lo, hi) =>
      let lo' := fst cs - Z.shiftr (hi * xhi) (snd cs) in
      let hi' := fst cs - Z.shiftr (lo * xlo) (snd cs) in
      if (0 <=? lo') && (hi' <? 2 ^ 32) then Some (lo', hi') else None
  | None => None
  end.

Definition range_ok (k : nat) : bool :=
  match fold_left (range_step (centre k - 2 ^ 20) (centre k + 2 ^ 20)) (take 7 recip_coeffs)
          (Some (0x92db03d6, 0x92db03d6)) with
  | Some _ => true | None => false end.

Lemma intervals_ok : forallb (fun k => error_ok k && range_ok k) (seq 0 1024) = true.
Proof. vm_compute. reflexivity. Qed.

(** Near the lower end, where the true reciprocal is almost [2^32], the value
    is below it. *)
Definition near_top : Z := 2 ^ 31 + 4096.

Lemma near_ok :
  match pshift recip_error (2 ^ 31 + 2048) with
  | a0 :: rest => a0 + 2048 * peval (Z.abs <$> rest) 2048 + near_top * en_U (enclosure_of near_top) <? 0
  | [] => false
  end = true.
Proof. vm_compute. reflexivity. Qed.

(** ** Conclusions *)

Lemma interval_of x : 2 ^ 31 <= x < 2 ^ 32 -> exists k, (k < 1024)%nat /\ Z.abs (x - centre k) <= 2 ^ 20.
Proof.
  intros Hx. exists (Z.to_nat ((x - 2 ^ 31) / 2 ^ 21)).
  assert (0 <= (x - 2 ^ 31) / 2 ^ 21 < 1024) as H by (Z.div_mod_to_equations; lia).
  split; [lia|]. unfold centre. rewrite Z2Nat.id by lia. Z.div_mod_to_equations. lia.
Qed.

Lemma interval_ok k : (k < 1024)%nat -> error_ok k = true /\ range_ok k = true.
Proof.
  intros Hk. apply andb_true_iff. apply (proj1 (forallb_forall _ _) intervals_ok k). apply in_seq. lia.
Qed.

Lemma recip_error_bound x : 2 ^ 31 <= x < 2 ^ 32 -> Z.abs (peval recip_error x) <= error_limit.
Proof.
  intros Hx. destruct (interval_of x Hx) as (k & Hk & Hd). destruct (interval_ok k Hk) as [He%Z.leb_le _].
  etransitivity; [|exact He]. replace x with (centre k + (x - centre k)) by lia.
  rewrite <-peval_pshift. by apply peval_abs.
Qed.

Lemma recip_error_near x : 2 ^ 31 <= x <= near_top ->
  peval recip_error x + x * en_U (enclosure_of near_top) < 0.
Proof.
  intros Hx. pose proof near_ok as H. unfold near_top in Hx.
  assert (peval recip_error x = peval (pshift recip_error (2 ^ 31 + 2048)) (x - (2 ^ 31 + 2048))) as ->
    by (rewrite peval_pshift; f_equal; lia).
  destruct (pshift recip_error (2 ^ 31 + 2048)) as [|a0 rest]; [done|].
  apply Z.ltb_lt in H. cbn [peval]. set (t := x - (2 ^ 31 + 2048)).
  assert (Z.abs t <= 2048) as Ht by (unfold t; lia).
  pose proof (peval_abs rest t 2048 Ht) as Hr. pose proof (Z.abs_nonneg (peval rest t)).
  assert (t * peval rest t <= 2048 * peval (Z.abs <$> rest) 2048) by nia.
  assert (0 <= en_U (enclosure_of near_top)) by (vm_compute; done).
  assert (x * en_U (enclosure_of near_top) <= near_top * en_U (enclosure_of near_top))
    by (apply Z.mul_le_mono_nonneg_r; unfold near_top in *; lia).
  lia.
Qed.

(** The steps of the code do not wrap. *)
Lemma range_steps x xlo xhi l : forall r lo hi b,
  0 <= xlo -> xlo <= x <= xhi -> x < 2 ^ 32 -> Forall (fun cs => 0 <= snd cs) l ->
  0 <= lo -> lo <= r <= hi -> hi < 2 ^ 32 ->
  fold_left (range_step xlo xhi) l (Some (lo, hi)) = Some b ->
  fold_left (recip_step x) l r = fold_left (zstep x) l r /\
  0 <= fold_left (zstep x) l r < 2 ^ 32.
Proof.
  induction l as [|[c s] l IH]; intros r lo hi b Hlo0 Hx Hx32 Hs Hlo Hr Hhi Hb; cbn [fold_left] in *; [split; [done|lia]|].
  inversion Hs as [|? ? Hs0 Hs']; subst. cbn [snd] in Hs0. unfold range_step at 2 in Hb. cbn [fst snd] in Hb.
  destruct ((0 <=? _) && _) eqn:E.
  2: { exfalso. clear -Hb. induction l as [|cs l IH]; [done|]. by apply IH. }
  apply andb_true_iff in E as [E1%Z.leb_le E2%Z.ltb_lt].
  rewrite !Z.shiftr_div_pow2 in * by done. assert (0 < 2 ^ s) by (apply Z.pow_pos_nonneg; lia).
  assert (lo * xlo / 2 ^ s <= r * x / 2 ^ s <= hi * xhi / 2 ^ s) as Hq by (split; apply Z.div_le_mono; nia).
  assert (recip_step x r (c, s) = zstep x r (c, s)) as ->.
  { unfold recip_step, zstep. cbn [fst snd]. rewrite (w64_small (r * x)) by nia.
    rewrite Z.shiftr_div_pow2 by done. apply w64_small. lia. }
  eapply IH; [exact Hlo0|done|done|done|exact E1| |exact E2|exact Hb].
  unfold zstep. cbn [fst snd]. rewrite Z.shiftr_div_pow2 by done. lia.
Qed.

(** The approximation: within [2^-20 - 2^-31] of the reciprocal, relatively,
    and never 33 bits long. *)
Lemma recip_approx_32_spec x : 2 ^ 31 <= x < 2 ^ 32 ->
  0 <= recip_approx_32 x < 2 ^ 32 /\
  Z.abs (x * recip_approx_32 x - 2 ^ 63) <= 2 ^ 43 - 2 ^ 32.
Proof.
  intros Hx. unfold recip_approx_32. set (z := fold_left (zstep x) recip_coeffs 0x92db03d6).
  assert (Z.abs (x * z - 2 ^ 63) <= 2 ^ 43 - 2 ^ 32) as Hz.
  { destruct (recip_encloses (2 ^ 32) x ltac:(lia)) as (_ & _ & _ & Hr). fold z in Hr.
    destruct (recip_error_eq (2 ^ 32) x) as [ES Ee]. rewrite ES in Hr.
    pose proof (recip_error_bound x Hx) as Hb. rewrite Ee in Hb. unfold error_limit in Hb.
    assert (en_L (enclosure_of (2 ^ 32)) <= 897 * 2 ^ 252 /\ en_U (enclosure_of (2 ^ 32)) <= 897 * 2 ^ 252) as [HL HU]
      by (split; by vm_compute).
    set (P := peval _ x) in *. set (T := 2 ^ 252) in *. assert (0 < T) by (unfold T; lia). clearbody T P z.
    assert (Z.abs (x * z - 2 ^ 63) * T <= (2 ^ 43 - 2 ^ 32) * T); [|nia].
    rewrite <-(Z.abs_eq T) at 1 by lia. rewrite <-Z.abs_mul. nia. }
  assert (0 <= z < 2 ^ 32) as Hz32.
  { split; [nia|]. destruct (Z.le_gt_cases x near_top) as [Hn|Hn]; [|unfold near_top in Hn; nia].
    destruct (recip_encloses near_top x ltac:(lia)) as (_ & _ & _ & Hr). fold z in Hr.
    destruct (recip_error_eq near_top x) as [ES Ee]. rewrite ES in Hr.
    pose proof (recip_error_near x ltac:(lia)) as Hb. rewrite Ee in Hb.
    set (P := peval _ x) in *. set (T := 2 ^ 252) in *. set (U := en_U _) in *.
    assert (0 < T) by (unfold T; lia). clearbody T P U z.
    assert (x * z * T < 2 ^ 63 * T) by nia. nia. }
  assert (fold_left (recip_step x) recip_coeffs 0x92db03d6 = z) as ->.
  { destruct (interval_of x Hx) as (k & Hk & Hd). destruct (interval_ok k Hk) as [_ Hrg].
    unfold range_ok in Hrg. destruct (fold_left (range_step _ _) _ _) as [b|] eqn:Eb; [|done].
    assert (0 <= centre k - 2 ^ 20) by (unfold centre; lia).
    destruct (range_steps x (centre k - 2 ^ 20) (centre k + 2 ^ 20) (take 7 recip_coeffs) 0x92db03d6 0x92db03d6 0x92db03d6 b)
      as [E7 H7]; [done|lia|lia|repeat constructor; cbn; lia|lia|lia|lia|exact Eb|].
    assert (forall (f : Z -> Z * Z -> Z) r, fold_left f recip_coeffs r = f (fold_left f (take 7 recip_coeffs) r) (0x6682799a0, 26))
      as Hlast by reflexivity.
    unfold z in *. rewrite Hlast in Hz32. rewrite !Hlast, E7. clear Hz E7 Eb Hlast. revert H7 Hz32.
    generalize (fold_left (zstep x) (take 7 recip_coeffs) 0x92db03d6). intros r7 H7 Hz32.
    unfold recip_step, zstep in *. cbn [fst snd] in *.
    rewrite (w64_small (r7 * x)) by nia. apply w64_small. lia. }
  rewrite w32_small by done. done.
Qed.
