(* ===== verification/MpintDiv.v ===== *)
(** * Multiprecision integers: division
    ([libs/putty/crypto/mpint.c], [mp_divmod_into], [mp_div], [mp_mod],
    [mp_mod_known_integer]) *)

From S2P Require Import Prelude MpintCore MpintArith MpintMul MpintShift MpintConv MpintRecip.

Local Open Scope Z_scope.
Local Open Scope cmodel_scope.

(** ** The code *)

(** The pair of 64-bit variables [hibits], [lobits] with the shift count. *)
Record hilo := HiLo { hibits : Z; lobits : Z; shift_up : Z }.

(** The pair shifted left by [sl] bits, [sr] being [64 - sl]. *)
Definition shifted_hi (st : hilo) (sl : Z) : Z :=
  Z.lor (w64 (Z.shiftl (hibits st) sl)) (Z.shiftr (lobits st) (64 - sl)).
Definition shifted_lo (st : hilo) (sl : Z) : Z := w64 (Z.shiftl (lobits st) sl).

(** One round of the loop that moves the topmost bit to bit 63. *)
Definition normalise_round (st : hilo) (i : Z) : hilo :=
  let sl := Z.shiftl 1 i in
  let sr := 64 - sl in
  let indicator := Z.lxor 1 (normalise_to_1_u64 (Z.shiftr (hibits st) sr)) in
  {| hibits := cond_u64 (hibits st) (shifted_hi st sl) indicator;
     lobits := cond_u64 (lobits st) (shifted_lo st sl) indicator;
     shift_up := cond_u64 (shift_up st) (shift_up st + sl) indicator |}.

(** One round of the loop that shifts the reciprocal up by [shift_up]. *)
Definition unshift_round (st : hilo) (i : Z) : hilo :=
  let sl := Z.shiftl 1 i in
  let indicator := Z.land 1 (Z.shiftr (shift_up st) i) in
  {| hibits := cond_u64 (hibits st) (shifted_hi st sl) indicator;
     lobits := cond_u64 (lobits st) (shifted_lo st sl) indicator;
     shift_up := shift_up st |}.

Definition bit_rounds : list Z := [4; 3; 2; 1; 0].

(** The 128-bit starting approximation of the reciprocal of [d], and the index
    of the highest nonzero word of [d]. *)
Definition recip_start (d : mp_int) : Z * hilo :=
  let out := mp_find_highest_nonzero_word_pair d (64 - BIGNUM_INT_BITS)
               {| wp_index := 0; wp_hi := 0; wp_lo := 0 |} in
  let st := fold_left normalise_round bit_rounds
              {| hibits := wp_hi out; lobits := wp_lo out; shift_up := 0 |} in
  let st := {| hibits := 0;
               lobits := w64 (Z.shiftl (recip_approx_32 (w32 (Z.shiftr (hibits st) 32))) 32);
               shift_up := shift_up st |} in
  (wp_index out, fold_left unshift_round bit_rounds st).

(** [log2_R]: [(x + 31) & ~31] rounds up to a multiple of 32. *)
Definition div_log2_R (nn dn : nat) : nat :=
  let max_log2_n := ((nn + dn) * 32)%nat in
  let log2_R := (max_log2_n + 3)%nat in
  let log2_R := (log2_R - 191 `min` log2_R)%nat in
  let log2_R := ((log2_R + 32 - 1) / 32 * 32)%nat in
  (log2_R + 191)%nat.

(** The full-sized starting approximation, in [rw] words. *)
Definition recip_place (d : mp_int) (log2_R rw : nat) : res mp_int :=
  let '(hiword_index, st) := recip_start d in
  let! r_approx := mp_make_sized rw in
  let input_bit_index := w64 (w64 (hiword_index * BIGNUM_INT_BITS) - (128 - BIGNUM_INT_BITS)) in
  let output_bit_index := w64 (Z.of_nat log2_R - 191 - input_bit_index) in
  c_assert (output_bit_index mod BIGNUM_INT_BITS =? 0)
  (let output_word_index := output_bit_index / BIGNUM_INT_BITS in
   let r_approx := mp_add_integer_into_shifted_by_words (length r_approx) r_approx (lobits st) output_word_index in
   let r_approx := mp_add_integer_into_shifted_by_words (length r_approx) r_approx (hibits st)
                     (output_word_index + 64 / BIGNUM_INT_BITS) in
   Ok r_approx).

(** One Newton-Raphson iteration.  [dr], [diff] and [product] are buffers that
    are overwritten in full; only their lengths matter. *)
Definition newton_round (d two_R dr diff product scratch : mp_int) (log2_R : nat) (r_approx : mp_int)
    : res mp_int :=
  let! dr := mp_mul_internal dr r_approx d scratch in
  let diff := mp_sub_into (length diff) two_R dr in
  let! product := mp_mul_internal product r_approx diff scratch in
  let product_shifted := mp_make_alias product (log2_R / 32) (length product) in
  Ok (mp_rshift_fixed_into (length r_approx) product_shifted (log2_R mod 32)).

(** [while (good_bits < good_bits_needed)]: the estimate grows in every round,
    so [good_bits_needed] rounds are more than enough. *)
Fixpoint newton_loop (fuel : nat) (round : mp_int -> res mp_int) (r_approx : mp_int)
    (good_bits good_bits_needed : nat) : res mp_int :=
  if (good_bits <? good_bits_needed)%nat then
    match fuel with
    | O => Crash OutOfFuel
    | S fuel =>
        let! r_approx := round r_approx in
        newton_loop fuel round r_approx (good_bits * 2 - 1) good_bits_needed
    end
  else Ok r_approx.

(** The reciprocal of [d], scaled by [2^log2_R]. *)
Definition div_reciprocal (n d : mp_int) (log2_R : nat) : res mp_int :=
  let rw := ((log2_R + 2 + 32 - 1) / 32)%nat in
  let! r_approx := recip_place d log2_R rw in
  let! two_R := mp_make_sized rw in
  let top_word := w32 (Z.shiftl 1 (Z.of_nat ((log2_R + 1) mod 32))) in
  let two_R := mp_add_integer_into_shifted_by_words (length two_R) two_R top_word
                 (Z.of_nat ((log2_R + 1) / 32)) in
  let! dr := mp_make_sized (rw + length d) in
  let! diff := mp_make_sized (rw `max` length dr) in
  let! product := mp_make_sized (rw + length diff) in
  let scratchsize := (mp_mul_scratchspace (length dr) (length r_approx) (length d)
                      `max` mp_mul_scratchspace (length product) (length r_approx) (length diff))%nat in
  let! scratch := mp_make_sized scratchsize in
  let good_bits := (31 - 11)%nat in
  let good_bits_needed := (32 * length n + 4)%nat in
  newton_loop good_bits_needed (newton_round d two_R dr diff product scratch log2_R)
    r_approx good_bits good_bits_needed.

(** One of the two final conditional subtractions. *)
Definition correct_round (d : mp_int) (st : mp_int * Z) : mp_int * Z :=
  let '(remainder, q_correction) := st in
  let need_correction := mp_cmp_hs remainder d in
  (mp_cond_sub_into (length remainder) remainder d need_correction, q_correction + need_correction).

(** The body of [mp_divmod_into]: the quotient and the remainder. *)
Definition mp_divmod (n d : mp_int) : res (mp_int * mp_int) :=
  c_assert (mp_eq_integer d 0 =? 0)
  (let log2_R := div_log2_R (length n) (length d) in
   let! r_approx := div_reciprocal n d log2_R in
   let! quotient_full := mp_mul r_approx n in
   let quotient_alias := mp_make_alias quotient_full (log2_R / 32) (length quotient_full) in
   let! quotient := mp_make_sized (length n) in
   let quotient := mp_rshift_fixed_into (length quotient) quotient_alias (log2_R mod 32) in
   let! remainder := mp_make_sized (length d) in
   let! remainder := mp_mul_into remainder quotient d in
   let remainder := mp_sub_into (length remainder) n remainder in
   let '(remainder, q_correction) := correct_round d (correct_round d (remainder, 0)) in
   let quotient := mp_add_integer_into (length quotient) quotient q_correction in
   c_assert (mp_cmp_hs remainder d =? 0) (Ok (quotient, remainder))).

(** [mp_divmod_into(n, d, q_out, r_out)]: what is copied into the outputs that
    are wanted, given by their lengths. *)
Definition mp_divmod_into (n d : mp_int) (q_out r_out : option nat) : res (option mp_int * option mp_int) :=
  let! (quotient, remainder) := mp_divmod n d in
  Ok ((fun nw => mp_copy_into nw quotient) <$> q_out, (fun nw => mp_copy_into nw remainder) <$> r_out).

Definition mp_div (n d : mp_int) : res mp_int :=
  let! q := mp_make_sized (length n) in
  let! (q, _) := mp_divmod_into n d (Some (length q)) None in
  Ok (default [] q).

Definition mp_mod (n d : mp_int) : res mp_int :=
  let! r := mp_make_sized (length d) in
  let! (_, r) := mp_divmod_into n d None (Some (length r)) in
  Ok (default [] r).

(** [mp_mod_known_integer]: the loop over the bytes, from the top; [i] bytes
    are left. *)
Definition reduce_byte (reciprocal m accumulator : Z) : Z :=
  let unshifted_quot := w64 (accumulator * reciprocal) in
  let quot := Z.shiftr unshifted_quot 48 in
  w64 (accumulator - w64 (quot * m)).

Fixpoint mod_known_loop (i : nat) (x : mp_int) (reciprocal m accumulator : Z) : Z :=
  match i with
  | O => accumulator
  | S i =>
      mod_known_loop i x reciprocal m
        (reduce_byte reciprocal m (w64 (w64 (256 * accumulator) + mp_get_byte x i)))
  end.

Definition mp_mod_known_integer (x : mp_int) (m : Z) : res Z :=
  let reciprocal := Z.shiftl 1 48 / m in
  let accumulator := mod_known_loop (length x * 4) x reciprocal m 0 in
  let result := w32 accumulator in
  let reduced := w32 (result - m) in
  let select := w32 (- Z.shiftr reduced 31) in
  let result := Z.lxor reduced (Z.land (Z.lxor result reduced) select) in
  c_assert (result <? m) (Ok result).

(** ** The starting approximation *)

Lemma normalise_to_1_u64_spec n : u64 n -> normalise_to_1_u64 n = if n =? 0 then 0 else 1.
Proof.
  unfold normalise_to_1_u64, u64, w64. intros Hn.
  set (m := Z.lor (Z.shiftr n 1) (Z.land n 1)).
  assert (0 <= m < 2 ^ 63) as Hm.
  { apply lor_bound; [lia| |].
    - rewrite Z.shiftr_div_pow2 by lia. Z.div_mod_to_equations. lia.
    - rewrite Z.land_comm, land_1_odd. destruct (Z.odd n); lia. }
  assert (m = 0 <-> n = 0) as Hiff.
  { unfold m. rewrite Z.lor_eq_0_iff, Z.land_comm, land_1_odd.
    rewrite Z.shiftr_div_pow2 by lia. change (2 ^ 1) with 2.
    pose proof (Z.div_mod n 2). pose proof (Zmod_odd n). destruct (Z.odd n); lia. }
  rewrite Z.shiftr_div_pow2 by lia. destruct (Z.eqb_spec n 0) as [Hn0|Hn0].
  - by replace m with 0 by (symmetry; by apply Hiff).
  - rewrite Z_mod_nz_opp_full by (rewrite Z.mod_small; lia).
    rewrite (Z.mod_small m) by lia. symmetry. apply Z.div_unique with (2 ^ 63 - m); lia.
Qed.

(** Shifting a pair whose upper half has room. *)
Lemma shifted_hi_eq st sl : 0 < sl < 64 -> u64 (lobits st) -> 0 <= hibits st -> hibits st * 2 ^ sl < 2 ^ 64 ->
  shifted_hi st sl = hibits st * 2 ^ sl + lobits st / 2 ^ (64 - sl) /\
  0 <= lobits st / 2 ^ (64 - sl) < 2 ^ sl.
Proof.
  unfold u64. intros Hsl Hlo Hhi Hroom.
  assert (0 < 2 ^ sl) by (apply Z.pow_pos_nonneg; lia).
  assert (0 <= lobits st / 2 ^ (64 - sl) < 2 ^ sl) as Hb.
  { assert (0 < 2 ^ (64 - sl)) by (apply Z.pow_pos_nonneg; lia).
    split; [apply Z.div_pos; lia|]. apply Z.div_lt_upper_bound; [lia|].
    rewrite <-Z.pow_add_r by lia. replace (64 - sl + sl) with 64 by lia. lia. }
  split; [|done]. unfold shifted_hi. rewrite w64_small by (rewrite Z.shiftl_mul_pow2 by lia; nia).
  rewrite Z.lor_comm, Z.shiftr_div_pow2, lor_add by lia. lia.
Qed.

Lemma shifted_lo_u64 st sl : u64 (shifted_lo st sl).
Proof. apply Z.mod_pos_bound. lia. Qed.

Lemma pow2_bounds i : 0 <= i <= 4 -> 0 < 2 ^ 2 ^ i /\ 1 <= 2 ^ i <= 16 /\ 2 ^ (i + 1) = 2 * 2 ^ i.
Proof.
  intros Hi. assert (1 <= 2 ^ i <= 16).
  { change 1 with (2 ^ 0). change 16 with (2 ^ 4). split; apply Z.pow_le_mono_r; lia. }
  split_and!; [apply Z.pow_pos_nonneg|..]; try lia. rewrite Z.pow_add_r by lia. lia.
Qed.

(** The state of the normalising loop before the round for bit [i - 1]: the
    upper half is the original one shifted up, with bits of the lower half
    below, and its top bit is among the highest [2^i]. *)
Definition normal_inv (h0 i : Z) (st : hilo) : Prop :=
  u64 (lobits st) /\ 2 ^ (64 - 2 ^ i) <= hibits st < 2 ^ 64 /\ 0 <= shift_up st /\ shift_up st + 2 ^ i <= 32 /\
  exists junk, 0 <= junk < 2 ^ shift_up st /\ hibits st = h0 * 2 ^ shift_up st + junk.

Lemma normalise_round_inv h0 i st : 0 <= i <= 4 -> normal_inv h0 (i + 1) st -> normal_inv h0 i (normalise_round st i).
Proof.
  intros Hi (Hlo & Hhi & Hs0 & Hs & junk & Hj & E). unfold normalise_round. rewrite Z.shiftl_1_l.
  destruct (pow2_bounds i Hi) as (_ & H16 & H2). rewrite H2 in *.
  set (sl := 2 ^ i) in *. assert (0 < 2 ^ sl) by (apply Z.pow_pos_nonneg; lia).
  assert (0 < 2 ^ (64 - sl)) by (apply Z.pow_pos_nonneg; lia).
  assert (2 ^ (64 - sl) * 2 ^ sl = 2 ^ 64) as H64 by (rewrite <-Z.pow_add_r by lia; f_equal; lia).
  assert (2 ^ (64 - 2 * sl) * 2 ^ sl = 2 ^ (64 - sl)) as H64' by (rewrite <-Z.pow_add_r by lia; f_equal; lia).
  assert (0 < 2 ^ (64 - 2 * sl)) by (apply Z.pow_pos_nonneg; lia).
  rewrite Z.shiftr_div_pow2 by lia.
  rewrite normalise_to_1_u64_spec.
  2: { unfold u64. split; [apply Z.div_pos; lia|]. apply Z.div_lt_upper_bound; nia. }
  destruct (Z.eqb_spec (hibits st / 2 ^ (64 - sl)) 0) as [Ez|Enz]; cbn [Z.lxor Pos.lxor].
  - assert (hibits st < 2 ^ (64 - sl)) as Hsmall by (apply Z.div_small_iff in Ez; lia).
    assert (hibits st * 2 ^ sl < 2 ^ 64) as Hroom by nia.
    destruct (shifted_hi_eq st sl ltac:(lia) Hlo ltac:(lia) Hroom) as [Eh Hb].
    assert (u64 (shifted_hi st sl)) as Hsh by (unfold u64; rewrite Eh; nia).
    rewrite !cond_u64_1 by (done || apply shifted_lo_u64 || (unfold u64; lia)).
    unfold normal_inv. cbn [hibits lobits shift_up]. rewrite Z.pow_add_r by lia.
    assert (2 ^ (64 - 2 * sl) * 2 ^ sl <= hibits st * 2 ^ sl) by (apply Z.mul_le_mono_nonneg_r; lia).
    unfold u64 in Hsh. split; [apply shifted_lo_u64|]. fold sl. split; [lia|]. split; [lia|]. split; [lia|].
    exists (junk * 2 ^ sl + lobits st / 2 ^ (64 - sl)). rewrite Eh, E. nia.
  - rewrite !cond_u64_0. unfold normal_inv. cbn [hibits lobits shift_up].
    split; [done|]. fold sl. split; [|split; [lia|split; [lia|by exists junk]]]. split; [|lia].
    destruct (Z.lt_ge_cases (hibits st) (2 ^ (64 - sl))); [|done]. rewrite Z.div_small in Enz; lia.
Qed.

Lemma normalise_rounds h0 lo : 2 ^ 32 <= h0 < 2 ^ 64 -> u64 lo ->
  normal_inv h0 0 (fold_left normalise_round bit_rounds {| hibits := h0; lobits := lo; shift_up := 0 |}).
Proof.
  intros Hh Hlo. unfold bit_rounds. cbn [fold_left].
  do 5 (apply normalise_round_inv; [lia|]). cbn [Z.add Pos.add Pos.succ].
  split; [done|]. cbn [hibits lobits shift_up]. change (2 ^ (64 - 2 ^ (4 + 1))) with (2 ^ 32).
  split; [done|]. split; [lia|]. split; [by vm_compute|]. exists 0. split; [done|lia].
Qed.

(** The 128-bit number in the pair. *)
Definition pair_val (st : hilo) : Z := hibits st * 2 ^ 64 + lobits st.

Lemma shifted_pair st sl : 0 < sl < 64 -> u64 (lobits st) -> 0 <= hibits st -> hibits st * 2 ^ sl < 2 ^ 64 ->
  shifted_hi st sl * 2 ^ 64 + shifted_lo st sl = pair_val st * 2 ^ sl.
Proof.
  intros Hsl Hlo Hhi Hroom. destruct (shifted_hi_eq st sl Hsl Hlo Hhi Hroom) as [-> _].
  unfold shifted_lo, pair_val, w64. rewrite Z.shiftl_mul_pow2 by lia.
  assert (2 ^ 64 = 2 ^ (64 - sl) * 2 ^ sl) as H64 by (rewrite <-Z.pow_add_r by lia; f_equal; lia).
  assert (0 < 2 ^ sl) by (apply Z.pow_pos_nonneg; lia).
  assert (0 < 2 ^ (64 - sl)) by (apply Z.pow_pos_nonneg; lia).
  rewrite H64 at 2. rewrite Zmult_mod_distr_r.
  rewrite (Z.div_mod (lobits st) (2 ^ (64 - sl))) at 3 by lia. rewrite H64. ring.
Qed.

(** Before the round for bit [i - 1], the pair has been shifted by the bits of
    the count from [i] up. *)
Definition unshift_inv (v0 s : Z) (i : nat) (st : hilo) : Prop :=
  u64 (lobits st) /\ 0 <= hibits st < 2 ^ (s - s mod 2 ^ Z.of_nat i) /\ shift_up st = s /\
  pair_val st = v0 * 2 ^ (s - s mod 2 ^ Z.of_nat i).

Lemma unshift_round_inv v0 s (i : nat) st : (i <= 4)%nat -> 0 <= s < 32 ->
  unshift_inv v0 s (S i) st -> unshift_inv v0 s i (unshift_round st (Z.of_nat i)).
Proof.
  intros Hi Hs (Hlo & Hhi & Hsu & Hv). unfold unshift_round. rewrite Z.shiftl_1_l, Hsu.
  rewrite land_1_odd, <-Z.testbit_odd. rewrite mod_pow2_S in Hhi, Hv by lia.
  destruct (pow2_bounds (Z.of_nat i) ltac:(lia)) as (_ & H16 & _). set (sl := 2 ^ Z.of_nat i) in *.
  pose proof (Z.mod_pos_bound s sl ltac:(lia)) as Hm. pose proof (Z.mod_le s sl ltac:(lia) ltac:(lia)) as Hml.
  destruct (Z.testbit s (Z.of_nat i)) eqn:Eb; cbn [Z.b2z] in *.
  - assert (s mod sl + sl <= s) as Hle.
    { pose proof (mod_pow2_S s i ltac:(lia)) as E. rewrite Eb in E. cbn [Z.b2z] in E. fold sl in E.
      rewrite Z.mul_1_r in E. rewrite <-E. apply Z.mod_le; [lia|]. apply Z.pow_pos_nonneg; lia. }
    rewrite Z.mul_1_r in *. set (k := s - (s mod sl + sl)) in *.
    assert (s - s mod sl = k + sl) as Ek by (unfold k; lia).
    assert (hibits st * 2 ^ sl < 2 ^ 64) as Hroom.
    { apply Z.lt_le_trans with (2 ^ k * 2 ^ sl); [apply Z.mul_lt_mono_pos_r; [apply Z.pow_pos_nonneg|]; lia|].
      rewrite <-Z.pow_add_r by lia. apply Z.pow_le_mono_r; lia. }
    destruct (shifted_hi_eq st sl ltac:(lia) Hlo ltac:(lia) Hroom) as [Eh Hb].
    assert (0 < 2 ^ sl) by (apply Z.pow_pos_nonneg; lia).
    assert (0 < 2 ^ k) by (apply Z.pow_pos_nonneg; lia).
    assert (u64 (shifted_hi st sl)) as Hsh.
    { unfold u64. rewrite Eh. split; [nia|]. assert (2 ^ 64 = 2 ^ (64 - sl) * 2 ^ sl) as H64
        by (rewrite <-Z.pow_add_r by lia; f_equal; lia). nia. }
    rewrite !cond_u64_1 by (done || apply shifted_lo_u64 || (unfold u64; split; [lia|];
      apply Z.lt_le_trans with (2 ^ k); [lia|apply Z.pow_le_mono_r; lia])).
    unfold unshift_inv. cbn [hibits lobits shift_up]. fold sl. rewrite Ek.
    split; [apply shifted_lo_u64|]. split; [rewrite Eh, Z.pow_add_r by lia; nia|]. split; [done|].
    unfold pair_val at 1. cbn [hibits lobits]. rewrite shifted_pair, Hv, Z.pow_add_r by (done || lia). ring.
  - rewrite !cond_u64_0. rewrite Z.mul_0_r, Z.add_0_r in Hhi, Hv.
    unfold unshift_inv. fold sl. cbn [hibits lobits shift_up].
    split; [done|]. split; [done|]. split; [done|]. exact Hv.
Qed.

Lemma unshift_rounds v0 s : u64 v0 -> 0 <= s < 32 ->
  let st := fold_left unshift_round bit_rounds {| hibits := 0; lobits := v0; shift_up := s |} in
  u64 (lobits st) /\ 0 <= hibits st < 2 ^ 32 /\ pair_val st = v0 * 2 ^ s.
Proof.
  intros Hv Hs. cbn zeta.
  assert (unshift_inv v0 s 5 {| hibits := 0; lobits := v0; shift_up := s |}) as H.
  { unfold unshift_inv, pair_val. cbn [hibits lobits shift_up]. change (2 ^ Z.of_nat 5) with 32.
    rewrite (Z.mod_small s) by lia. rewrite Z.sub_diag. split; [done|]. split; [lia|]. split; [done|lia]. }
  do 5 apply unshift_round_inv in H; try lia.
  destruct H as (Hlo & Hhi & _ & Hp). change (2 ^ Z.of_nat 0) with 1 in *. rewrite Z.mod_1_r, Z.sub_0_r in *.
  split; [exact Hlo|]. split; [|exact Hp]. destruct Hhi as [H1 H2]. split; [exact H1|].
  eapply Z.lt_le_trans; [exact H2|]. apply Z.pow_le_mono_r; lia.
Qed.

(** The highest nonzero word [k] and the word below it, as a 64-bit number; [p]
    is the word below the list. *)
Lemma find_pair32_spec x : forall i p curr_hi curr_lo out,
  wordsOK x -> is_word p -> 0 <= i -> i + Z.of_nat (length x) < 2 ^ 64 ->
  u64 curr_hi -> curr_hi / 2 ^ 32 = p -> u64 curr_lo ->
  u64 (wp_index out) -> u64 (wp_hi out) -> u64 (wp_lo out) ->
  let out' := find_pair_loop x 32 i curr_hi curr_lo out in
  (val x = 0 /\ out' = out) \/
  exists k : nat, (k < length x)%nat /\ wp_index out' = i + Z.of_nat k /\ u64 (wp_lo out') /\
    2 ^ 32 <= wp_hi out' < 2 ^ 64 /\
    wp_hi out' * Bp k <= p + B * val x < (wp_hi out' + 1) * Bp k.
Proof.
  induction x as [|w0 x IH]; intros i p hi lo out Hx Hp Hi Hl Hhi Ehi Hlo Ho1 Ho2 Ho3; [by left|].
  cbn [find_pair_loop length] in *. inversion Hx as [|? ? Hw0 Hx']; subst x0 l.
  rewrite normalise_to_1_spec by done. unfold BIGNUM_INT_BITS. change (64 - 32) with 32.
  unfold u64, is_word in *. rewrite !Z.shiftr_div_pow2, !Z.shiftl_mul_pow2, Ehi by lia.
  assert (Z.lor p (w64 (w0 * 2 ^ 32)) = p + w0 * 2 ^ 32) as ->.
  { rewrite w64_small by lia. rewrite <-(Z.shiftl_mul_pow2 w0) at 1 by lia. by apply lor_add. }
  set (lo' := Z.lor _ _). assert (u64 lo') as Hlo'.
  { apply (lor_bound 64); [lia|split; [apply Z.div_pos|apply Z.div_lt_upper_bound]; lia|apply Z.mod_pos_bound; lia]. }
  set (out1 := {| wp_index := _; wp_hi := _; wp_lo := _ |}).
  assert (out1 = if w0 =? 0 then out else {| wp_index := i; wp_hi := p + w0 * 2 ^ 32; wp_lo := lo' |}) as Eout.
  { unfold out1. destruct (Z.eqb_spec w0 0).
    - rewrite !cond_u64_0. by destruct out.
    - by rewrite !cond_u64_1 by (unfold u64 in *; lia). }
  destruct (IH (i + 1) w0 (p + w0 * 2 ^ 32) lo' out1) as [[Hv E]|(k & Hk & E1 & E2 & E3 & E4)];
    try (unfold u64 in *; lia); try done.
  - symmetry. apply Z.div_unique with p; lia.
  - rewrite Eout. case_match; cbn; lia.
  - rewrite Eout. case_match; cbn; unfold is_word in *; lia.
  - rewrite Eout. case_match; cbn; [done|apply Hlo'].
  - rewrite E, Eout. cbn [val]. rewrite Hv. destruct (Z.eqb_spec w0 0) as [-> |Hne]; [by left|right].
    exists 0%nat. cbn [wp_index wp_hi wp_lo]. change (Bp 0) with 1.
    split; [lia|]. split; [lia|]. split; [apply Hlo'|]. lia.
  - right. exists (S k). rewrite Bp_S. cbn [val]. split; [lia|]. split; [lia|]. split; [exact E2|].
    split; [exact E3|]. set (h := wp_hi _) in *. nia.
Qed.

(** The starting approximation: [X] is the top 32 bits of [d], at bit
    [32 k - s]. *)
Lemma recip_start_spec d : wordsOK d -> 0 < val d -> Z.of_nat (length d) < 2 ^ 58 ->
  exists (k : nat) s X st, recip_start d = (Z.of_nat k, st) /\ (k < length d)%nat /\ 0 <= s < 32 /\
    2 ^ 31 <= X < 2 ^ 32 /\ X * Bp k <= val d * 2 ^ s < (X + 1) * Bp k /\
    u64 (lobits st) /\ 0 <= hibits st < 2 ^ 32 /\ pair_val st = recip_approx_32 X * 2 ^ 32 * 2 ^ s.
Proof.
  intros Hd Hpos Hlen. unfold recip_start, mp_find_highest_nonzero_word_pair, BIGNUM_INT_BITS.
  change (64 - 32) with 32. set (out0 := {| wp_index := 0; wp_hi := 0; wp_lo := 0 |}).
  assert (u64 0) as H0 by (unfold u64; lia).
  destruct (find_pair32_spec d 0 0 0 0 out0) as [[Hz _]|(k & Hk & Ek & Hlo & Hhi & Hb)];
    [done|by unfold is_word|lia|lia|done|done|done|done|done|done|lia|].
  set (out := find_pair_loop _ _ _ _ _ _) in *. rewrite Z.add_0_l in Ek, Hb.
  destruct (normalise_rounds (wp_hi out) (wp_lo out) Hhi Hlo) as (_ & Hh & Hs0 & Hs & junk & Hj & Eh).
  set (st1 := fold_left normalise_round _ _) in *. change (2 ^ 0) with 1 in *.
  set (s := shift_up st1) in *. set (X := hibits st1 / 2 ^ 32).
  assert (2 ^ 31 <= X < 2 ^ 32) as HX by (unfold X; Z.div_mod_to_equations; lia).
  rewrite w32_small by (rewrite Z.shiftr_div_pow2 by lia; fold X; unfold is_word; lia).
  rewrite Z.shiftr_div_pow2 by lia. fold X. destruct (recip_approx_32_spec X HX) as [Hr _].
  rewrite Z.shiftl_mul_pow2, w64_small by lia.
  destruct (unshift_rounds (recip_approx_32 X * 2 ^ 32) s) as (Hlo2 & Hhi2 & Hp2); [unfold u64; lia|lia|].
  exists k, s, X. eexists. split; [by rewrite Ek|]. split; [done|]. split; [lia|]. split; [done|].
  split; [|done].
  assert (X * 2 ^ 32 <= hibits st1 < (X + 1) * 2 ^ 32) as HXb by (unfold X; Z.div_mod_to_equations; lia).
  assert (2 ^ 32 = 2 ^ (32 - s) * 2 ^ s) as H32 by (rewrite <-Z.pow_add_r by lia; f_equal; lia).
  assert (0 < 2 ^ s) by (apply Z.pow_pos_nonneg; lia).
  assert (0 < 2 ^ (32 - s)) by (apply Z.pow_pos_nonneg; lia).
  pose proof (Bp_pos k) as HBk.
  assert (X * 2 ^ (32 - s) <= wp_hi out < (X + 1) * 2 ^ (32 - s)) as Hw by (rewrite Eh, H32 in HXb; nia).
  split.
  - assert (X * Bp k * 2 ^ (32 - s) <= val d * 2 ^ s * 2 ^ (32 - s)); [|nia].
    rewrite H32 in Hb. nia.
  - assert (val d * 2 ^ s * 2 ^ (32 - s) < (X + 1) * Bp k * 2 ^ (32 - s)); [|nia].
    rewrite H32 in Hb. nia.
Qed.

(** [log2_R] is 31 modulo 32, and large enough. *)
Lemma div_log2_R_spec nn dn : exists kk : nat,
  div_log2_R nn dn = (32 * kk + 31)%nat /\ (nn + dn <= kk <= nn + dn + 6)%nat /\ (5 <= kk)%nat.
Proof.
  unfold div_log2_R. set (l := ((nn + dn) * 32 + 3)%nat).
  set (m := (l - 191 `min` l)%nat). exists ((m + 32 - 1) / 32 + 5)%nat.
  pose proof (Nat.div_mod (m + 32 - 1) 32). pose proof (Nat.mod_upper_bound (m + 32 - 1) 32). lia.
Qed.

(** The relative error at the start is at most [2^-20]. *)
Lemma recip_initial_error d r (kk k : nat) s X (o : nat) : 2 ^ 31 <= X < 2 ^ 32 -> 0 <= s < 32 ->
  X * Bp k <= d * 2 ^ s < (X + 1) * Bp k -> r = recip_approx_32 X * 2 ^ 32 * 2 ^ s * Bp o ->
  (k + o + 2 = kk)%nat ->
  Z.abs (d * r - 2 ^ Z.of_nat (32 * kk + 31)) * 2 ^ 20 <= 2 ^ Z.of_nat (32 * kk + 31).
Proof.
  intros HX Hs Hb -> <-. destruct (recip_approx_32_spec X HX) as [Hrc Herr].
  generalize dependent (recip_approx_32 X). intros c Hrc Herr. set (T := Bp (k + o + 1)).
  assert (2 ^ Z.of_nat (32 * (k + o + 2) + 31) = 2 ^ 63 * T) as ->.
  { unfold T. rewrite <-Z.pow_add_r by lia. f_equal. lia. }
  assert (T = Bp k * (2 ^ 32 * Bp o)) as HT by (unfold T; rewrite !Bp_add; change (Bp 1) with (2 ^ 32); ring).
  assert (0 < 2 ^ 32 * Bp o) as HQ by bplia. assert (0 < T) as HT0 by (unfold T; bplia).
  assert (forall u v w, d * (c * u * v * w) = d * v * (u * w) * c) as -> by (clear; intros; ring).
  set (Q := 2 ^ 32 * Bp o) in *. set (P := d * 2 ^ s) in *. set (K := Bp k) in *. clearbody T Q P K.
  assert (X * T <= P * Q <= (X + 1) * T) as HY by (subst T; nia).
  assert (X * c * T <= P * Q * c <= (X * c + c) * T) as HYc by nia.
  apply Z.abs_le in Herr.
  assert (- (2 ^ 43 * T) <= P * Q * c - 2 ^ 63 * T <= 2 ^ 43 * T) as He by nia.
  apply Z.abs_le in He. lia.
Qed.

Lemma recip_place_spec d (kk : nat) : wordsOK d -> 0 < val d -> Z.of_nat (length d) < 2 ^ 58 ->
  (length d + 1 <= kk)%nat -> (5 <= kk)%nat -> Z.of_nat kk < 2 ^ 30 ->
  exists r, recip_place d (32 * kk + 31) (kk + 2) = Ok r /\ length r = (kk + 2)%nat /\ wordsOK r /\
    Z.abs (val d * val r - 2 ^ Z.of_nat (32 * kk + 31)) * 2 ^ 20 <= 2 ^ Z.of_nat (32 * kk + 31).
Proof.
  intros Hd Hpos Hlen Hk1 Hk5 Hkb. unfold recip_place, mp_make_sized, BIGNUM_INT_BITS.
  destruct (recip_start_spec d Hd Hpos Hlen) as (k & s & X & st & -> & Hk & Hs & HX & Hb & Hlo & Hhi & Hv).
  rewrite c_assert_true by (apply Nat.ltb_lt; lia). cbn [res_bind].
  assert (w64 (Z.of_nat (32 * kk + 31) - 191 - w64 (w64 (Z.of_nat k * 32) - (128 - 32)))
    = 32 * Z.of_nat (kk - 2 - k)) as ->.
  { rewrite (w64_small (Z.of_nat k * 32)) by lia. unfold w64. rewrite Zminus_mod_idemp_r.
    symmetry. apply Z.mod_unique_pos with 0; lia. }
  rewrite c_assert_true by (apply Z.eqb_eq; rewrite Z.mul_comm; apply Z_mod_mult).
  assert (32 * Z.of_nat (kk - 2 - k) / 32 = Z.of_nat (kk - 2 - k)) as -> by (rewrite Z.mul_comm; apply Z.div_mul; lia).
  set (o := (kk - 2 - k)%nat). change (64 / 32) with 2. rewrite length_replicate.
  destruct (mp_add_integer_into_shifted_by_words_spec (kk + 2) (replicate (kk + 2) 0) (lobits st) o)
    as (Hl1 & Hok1 & Hv1); [auto with cmodel|done|lia|].
  rewrite Hl1. replace (Z.of_nat o + 2) with (Z.of_nat (o + 2)) by lia.
  destruct (mp_add_integer_into_shifted_by_words_spec (kk + 2) _ (hibits st) (o + 2) Hok1)
    as (Hl2 & Hok2 & Hv2); [unfold is_uintmax; lia|lia|].
  eexists. split; [done|]. split; [done|]. split; [done|]. set (r := mp_add_integer_into_shifted_by_words _ _ (hibits st) _) in *.
  destruct (recip_approx_32_spec X HX) as [Hrc Herr].
  assert (val r = recip_approx_32 X * 2 ^ 32 * 2 ^ s * Bp o) as Hvr.
  { rewrite Hv2, Hv1, val_replicate_0, Z.add_0_l, Zplus_mod_idemp_l, Bp_add.
    change (Bp 2) with (2 ^ 64). rewrite <-Hv. unfold pair_val.
    replace (lobits st * Bp o + hibits st * (Bp o * 2 ^ 64)) with ((hibits st * 2 ^ 64 + lobits st) * Bp o) by ring.
    apply Z.mod_small. unfold u64 in Hlo. split; [pose proof (Bp_pos o); nia|].
    apply Z.lt_le_trans with (Bp 3 * Bp o).
    - apply Z.mul_lt_mono_pos_r; [bplia|]. change (Bp 3) with (2 ^ 96). lia.
    - rewrite <-Bp_add. apply Bp_mono. lia. }
  apply recip_initial_error with k s X o; try done. unfold o. lia.
Qed.

(** ** The Newton-Raphson iteration *)

Section Newton.
Context (d : mp_int) (kk : nat) (Hd : wordsOK d) (Hpos : 0 < val d).
Let log2_R := (32 * kk + 31)%nat.
Let R := 2 ^ Z.of_nat log2_R.
Let rw := (kk + 2)%nat.
Context (HdR : 4 * val d <= R).

Lemma R_pos : 0 < R.
Proof. apply Z.pow_pos_nonneg; lia. Qed.

Lemma R_words : R * 2 ^ 33 = Bp rw.
Proof. unfold R, rw, log2_R. rewrite <-Z.pow_add_r by lia. f_equal. lia. Qed.

Lemma log2_R_split : (log2_R / 32 = kk /\ log2_R mod 32 = 31)%nat.
Proof.
  unfold log2_R. rewrite (Nat.mul_comm 32 kk). split.
  - rewrite Nat.div_add_l by lia. cbn. lia.
  - rewrite Nat.add_comm, Nat.Div0.mod_add. done.
Qed.

(** Dropping [log2_R] bits of a number of any length. *)
Lemma shift_by_R nw x : wordsOK x ->
  let r := mp_rshift_fixed_into nw (mp_make_alias x (log2_R / 32) (length x)) (log2_R mod 32) in
  length r = nw /\ wordsOK r /\ val r = (val x / R) mod Bp nw.
Proof.
  intros Hx. cbn zeta. destruct log2_R_split as [-> ->].
  destruct (mp_rshift_fixed_into_spec nw (mp_make_alias x kk (length x)) 31) as (Hl & Hok & Hv);
    [auto with cmodel|].
  split_and!; [done..|]. rewrite Hv. f_equal.
  rewrite mp_make_alias_eq, take_ge by (rewrite length_drop; lia). rewrite val_drop_div by done.
  rewrite Z.div_div by bplia. f_equal. unfold R, log2_R. rewrite <-Z.pow_add_r by lia. f_equal. lia.
Qed.

Definition newton_err (r : mp_int) : Z := val d * val r - R.

Lemma newton_round_spec two_R dr diff product scratch r :
  wordsOK two_R -> val two_R = 2 * R ->
  length dr = (rw + length d)%nat -> length diff = (rw + length d)%nat ->
  length product = (rw + length diff)%nat ->
  (mp_mul_scratchspace (length dr) rw (length d) <= length scratch)%nat ->
  (mp_mul_scratchspace (length product) rw (length diff) <= length scratch)%nat ->
  wordsOK r -> length r = rw -> newton_err r <= R ->
  exists r', newton_round d two_R dr diff product scratch log2_R r = Ok r' /\ length r' = rw /\ wordsOK r' /\
    val r' = val r * (R - newton_err r) / R.
Proof.
  intros H2R E2R Hldr Hldiff Hlpr Hs1 Hs2 Hr Hlr He. unfold newton_round, mp_mul_scratchspace, mp_mul_scratchspace_unary in *.
  pose proof R_pos as HR. pose proof R_words as HRw. pose proof (val_bound r Hr) as Hrb. rewrite Hlr in Hrb.
  unfold newton_err in *. pose proof (val_bound d Hd) as Hdb.
  destruct (mp_mul_internal_ok dr r d scratch Hr Hd) as (dr' & -> & Hl1 & Hok1 & Hv1); [rewrite Hlr; lia|].
  cbn [res_bind]. rewrite Hldr, Bp_add, Z.mod_small in Hv1 by nia.
  destruct (mp_sub_into_spec (length diff) two_R dr' H2R Hok1) as (Hl2 & Hok2 & Hv2).
  assert (val r <= 2 * R) as Hr2 by nia.
  assert (Bp rw <= Bp (length diff)) as Hmono by (apply Bp_mono; lia).
  rewrite E2R, Hv1, Z.mod_small in Hv2 by nia.
  destruct (mp_mul_internal_ok product r (mp_sub_into (length diff) two_R dr') scratch Hr Hok2)
    as (p & -> & Hl3 & Hok3 & Hv3); [rewrite Hlr, Hl2; lia|].
  cbn [res_bind]. rewrite Hlpr, Bp_add, Hv2, Z.mod_small in Hv3 by nia.
  destruct (shift_by_R (length r) p Hok3) as (Hl4 & Hok4 & Hv4).
  eexists. split; [done|]. split; [congruence|]. split; [done|].
  cbn zeta in Hv4. rewrite Hv4, Hv3, Hlr. replace (2 * R - val r * val d) with (R - (val d * val r - R)) by ring.
  apply Z.mod_small. split; [apply Z.div_pos; nia|]. apply Z.div_lt_upper_bound; [lia|].
  apply Z.le_lt_trans with (2 * R * (2 * R)); [nia|]. rewrite <-HRw. nia.
Qed.

(** The error squares, up to rounding, and is never positive afterwards. *)
Lemma newton_err_step r r' : val r' = val r * (R - newton_err r) / R ->
  newton_err r' <= 0 /\ R * - newton_err r' < newton_err r * newton_err r + val d * R.
Proof.
  intros E. unfold newton_err in *. set (e := val d * val r - R) in *. pose proof R_pos as HR.
  pose proof (Z.div_mod (val r * (R - e)) R ltac:(lia)) as Hdm.
  pose proof (Z.mod_pos_bound (val r * (R - e)) R HR) as Hm. rewrite <-E in Hdm.
  set (f := (val r * (R - e)) mod R) in *.
  assert (R * (val d * val r') = (R + e) * (R - e) - val d * f) as H.
  { replace (R + e) with (val d * val r) by (unfold e; ring). nia. }
  nia.
Qed.

(** [g] bits of the reciprocal are right, or all that can be. *)
Definition good (g : Z) (r : mp_int) : Prop :=
  Z.abs (newton_err r) * 2 ^ g <= R \/ Z.abs (newton_err r) <= 2 * val d.

Lemma good_err g r : 0 <= g -> good g r -> newton_err r <= R.
Proof.
  intros Hg [H|H]; [|lia]. pose proof (Z.pow_pos_nonneg 2 g). pose proof R_pos. nia.
Qed.

Lemma good_step g r r' : 1 <= g -> good g r -> val r' = val r * (R - newton_err r) / R -> good (2 * g - 1) r'.
Proof.
  intros Hg Hgood E. destruct (newton_err_step r r' E) as [Hneg Hlt]. pose proof R_pos as HR.
  unfold good in *. set (e := newton_err r) in *. set (e' := newton_err r') in *.
  rewrite (Z.abs_neq e') by done.
  destruct Hgood as [H|H].
  - assert (0 < 2 ^ g) by (apply Z.pow_pos_nonneg; lia).
    assert (e * e * (2 ^ g * 2 ^ g) <= R * R) as Hsq.
    { rewrite <-Z.abs_square. pose proof (Z.abs_nonneg e). nia. }
    assert (2 ^ (2 * g - 1) * 2 = 2 ^ g * 2 ^ g) as Hp.
    { change 2 with (2 ^ 1) at 3. rewrite <-!Z.pow_add_r by lia. f_equal. lia. }
    assert (0 < 2 ^ (2 * g - 1)) by (apply Z.pow_pos_nonneg; lia).
    destruct (Z.le_gt_cases (val d * (2 ^ g * 2 ^ g)) R) as [Hd'|Hd'].
    + left. set (G := 2 ^ g * 2 ^ g) in *.
      assert (R * (- e' * G) <= R * (2 * R)) by nia. nia.
    + right. set (G := 2 ^ g * 2 ^ g) in *. assert (e * e * G < R * val d * G) by nia.
      assert (e * e < R * val d) by nia. nia.
  - right. assert (e * e <= R * val d); [|nia]. rewrite <-Z.abs_square. pose proof (Z.abs_nonneg e). nia.
Qed.

Lemma good_mono g g' r : 0 <= g' <= g -> good g r -> good g' r.
Proof.
  intros Hg [H|H]; [left|by right]. pose proof (Z.pow_le_mono_r 2 g' g ltac:(lia) ltac:(lia)).
  pose proof (Z.abs_nonneg (newton_err r)). nia.
Qed.
End Newton.

(** The loop: each round preserves the invariant, and enough rounds are made. *)
Lemma newton_loop_ok (d : mp_int) (kk : nat) (round : mp_int -> res mp_int) (need : nat) :
  wordsOK d -> 0 < val d -> 4 * val d <= 2 ^ Z.of_nat (32 * kk + 31) ->
  (forall r, wordsOK r -> length r = (kk + 2)%nat -> newton_err d kk r <= 2 ^ Z.of_nat (32 * kk + 31) ->
    exists r', round r = Ok r' /\ length r' = (kk + 2)%nat /\ wordsOK r' /\
      val r' = val r * (2 ^ Z.of_nat (32 * kk + 31) - newton_err d kk r) / 2 ^ Z.of_nat (32 * kk + 31)) ->
  forall fuel g r, (20 <= g)%nat -> (need <= g + fuel)%nat ->
  wordsOK r -> length r = (kk + 2)%nat -> good d kk (Z.of_nat g) r ->
  (g < need)%nat \/ newton_err d kk r <= 0 ->
  exists r', newton_loop fuel round r g need = Ok r' /\ length r' = (kk + 2)%nat /\ wordsOK r' /\
    newton_err d kk r' <= 0 /\ good d kk (Z.of_nat need) r'.
Proof.
  intros Hd Hpos HdR Hround. induction fuel as [|fuel IH]; intros g r Hg Hf Hr Hl Hgood Hneg; cbn [newton_loop].
  - rewrite (proj2 (Nat.ltb_ge _ _)) by lia. exists r. split_and!; [done|done|done|lia|].
    eapply good_mono; [|exact Hgood]. lia.
  - destruct (Nat.ltb_spec g need) as [Hlt|Hge].
    + destruct (Hround r Hr Hl) as (r' & -> & Hl' & Hr' & Hv'); [by apply (good_err d kk Hpos HdR (Z.of_nat g)); [lia|]|].
      cbn [res_bind]. destruct (newton_err_step d kk Hpos HdR r r' Hv') as [Hneg' _].
      apply IH; [lia|lia|done|done| |by right].
      replace (Z.of_nat (g * 2 - 1)) with (2 * Z.of_nat g - 1) by lia.
      apply (good_step d kk Hpos HdR (Z.of_nat g) r); [lia|done|done].
    + exists r. split_and!; [done|done|done|lia|]. eapply good_mono; [|exact Hgood]. lia.
Qed.

(** Sizes that a 64-bit program can have. *)
Definition div_size (n d : mp_int) : Prop := Z.of_nat (length n + length d) < 2 ^ 29.

Section Division.
Context (n d : mp_int) (Hn : wordsOK n) (Hd : wordsOK d) (Hpos : 0 < val d).
Context (Hln : (0 < length n)%nat) (Hsz : div_size n d).
Context (kk : nat) (Hkk : (length n + length d <= kk <= length n + length d + 6)%nat) (Hk5 : (5 <= kk)%nat).
Let log2_R := (32 * kk + 31)%nat.
Let R := 2 ^ Z.of_nat log2_R.

Lemma d_nonempty : (0 < length d)%nat.
Proof. destruct d; [done|cbn; lia]. Qed.

Lemma R_large : 4 * (Bp (length n) * Bp (length d)) <= R.
Proof.
  unfold R, log2_R. rewrite <-Bp_add. change 4 with (2 ^ 2). rewrite <-Z.pow_add_r by lia.
  apply Z.pow_le_mono_r; lia.
Qed.

Lemma d_le_R : 4 * val d <= R.
Proof. pose proof R_large. pose proof (val_bound d Hd). pose proof (Bp_pos (length n)). nia. Qed.

Lemma div_reciprocal_spec :
  exists r, div_reciprocal n d log2_R = Ok r /\ length r = (kk + 2)%nat /\ wordsOK r /\
    newton_err d kk r <= 0 /\ good d kk (Z.of_nat (32 * length n + 4)) r.
Proof.
  unfold div_reciprocal, div_size in *. pose proof d_nonempty as Hld.
  assert ((log2_R + 2 + 32 - 1) / 32 = kk + 2)%nat as ->.
  { unfold log2_R. replace (32 * kk + 31 + 2 + 32 - 1)%nat with ((kk + 2) * 32 + 0)%nat by lia.
    rewrite Nat.div_add_l by lia. cbn. lia. }
  destruct (recip_place_spec d kk Hd Hpos) as (r0 & E0 & Hl0 & Hok0 & Herr0); [lia..|].
  fold log2_R in E0. rewrite E0.
  cbn [res_bind]. unfold mp_make_sized. rewrite c_assert_true by (apply Nat.ltb_lt; lia). cbn [res_bind].
  assert (((log2_R + 1) / 32 = kk + 1) /\ (log2_R + 1) mod 32 = 0)%nat as [-> ->].
  { unfold log2_R. replace (32 * kk + 31 + 1)%nat with ((kk + 1) * 32)%nat by lia.
    by rewrite Nat.div_mul, Nat.Div0.mod_mul by lia. }
  change (w32 (Z.shiftl 1 (Z.of_nat 0))) with 1. rewrite length_replicate.
  destruct (mp_add_integer_into_shifted_by_words_spec (kk + 2) (replicate (kk + 2) 0) 1 (kk + 1))
    as (Hl2 & Hok2 & Hv2); [auto with cmodel|unfold is_uintmax; lia|lia|].
  set (two_R := mp_add_integer_into_shifted_by_words _ _ 1 _) in *.
  assert (val two_R = 2 * R) as HvR.
  { rewrite Hv2, val_replicate_0, Z.add_0_l, Z.mul_1_l. rewrite Z.mod_small.
    - unfold R, log2_R. rewrite <-Z.pow_succ_r by lia. f_equal. lia.
    - split; [bplia|]. apply Z.pow_lt_mono_r; lia. }
  rewrite !c_assert_true by (apply Nat.ltb_lt; rewrite ?length_replicate; lia). cbn [res_bind].
  rewrite c_assert_true by (apply Nat.ltb_lt; rewrite ?length_replicate; lia). cbn [res_bind].
  rewrite c_assert_true by (apply Nat.ltb_lt; rewrite ?length_replicate; lia). cbn [res_bind].
  rewrite !length_replicate, Hl0. replace ((kk + 2) `max` (kk + 2 + length d))%nat with (kk + 2 + length d)%nat by lia.
  rewrite c_assert_true.
  2: { apply Nat.ltb_lt. unfold mp_mul_scratchspace, mp_mul_scratchspace_unary, mul_inlen. lia. }
  cbn [res_bind]. pose proof d_le_R as HdR. fold log2_R R in Herr0.
  eapply (newton_loop_ok d kk); [done|done|done| |lia|lia|done|done| |left; lia].
  - intros r Hr Hlr He. apply newton_round_spec; try done; rewrite ?length_replicate; try lia.
  - left. exact Herr0.
Qed.

(** The quotient that the reciprocal gives is right, except that it is one too
    small for some exact multiples. *)
Lemma quotient_estimate r : wordsOK r -> newton_err d kk r <= 0 -> good d kk (Z.of_nat (32 * length n + 4)) r ->
  let q := val n * val r / R in
  q = val n / val d \/ (q = val n / val d - 1 /\ val n mod val d = 0 /\ 0 < val n).
Proof.
  intros Hr Hneg Hgood. cbn zeta. pose proof (val_bound n Hn) as Hnb. pose proof (val_bound d Hd) as Hdb.
  pose proof R_large as HRl. pose proof (val_bound r Hr) as Hrb.
  assert (0 < R) as HR by (apply Z.pow_pos_nonneg; lia).
  unfold good, newton_err in *. fold log2_R in Hneg, Hgood. fold R in Hneg, Hgood. set (e := val d * val r - R) in *.
  assert (val n * - e < R) as Hsmall.
  { rewrite (Z.abs_neq e) in Hgood by done. destruct Hgood as [H|H].
    - replace (Z.of_nat (32 * length n + 4)) with (32 * Z.of_nat (length n) + 4) in H by lia.
      rewrite Z.pow_add_r in H by lia. nia.
    - nia. }
  pose proof (Z.div_mod (val n) (val d) ltac:(lia)) as Hdm. pose proof (Z.mod_pos_bound (val n) (val d) Hpos) as Hm.
  set (Q := val n / val d) in *. set (rho := val n mod val d) in *. set (eps := val n * - e) in *.
  assert (val d * (val n * val r) = val n * R - eps) as Hk by (unfold eps, e; ring).
  assert (0 <= eps) as Heps by (unfold eps; nia).
  assert (0 <= Q) as HQ by (apply Z.div_pos; lia).
  destruct (Z.eq_dec rho 0) as [Hz|Hnz].
  - destruct (Z.eq_dec eps 0) as [He0|He0].
    + left. symmetry. apply Z.div_unique_pos with 0; [lia|]. nia.
    + right. split; [|split; [done|nia]]. symmetry. apply Z.div_unique_pos with (val n * val r - (Q - 1) * R); nia.
  - left. symmetry. apply Z.div_unique_pos with (val n * val r - Q * R); [|lia]. nia.
Qed.
End Division.

(** ** The whole division *)

Lemma correct_round_spec d r c : wordsOK d -> wordsOK r -> length r = length d ->
  exists r', correct_round d (r, c) = (r', c + if val d <=? val r then 1 else 0) /\
    wordsOK r' /\ length r' = length d /\ val r' = val r - if val d <=? val r then val d else 0.
Proof.
  intros Hd Hr Hl. unfold correct_round. rewrite mp_cmp_hs_spec by done.
  destruct (mp_cond_sub_into_spec (length r) r d (if val d <=? val r then 1 else 0) Hr Hd) as (Hl' & Hok' & Hv').
  eexists. split; [done|]. split_and!; [done|congruence|]. rewrite Hv'.
  pose proof (val_bound r Hr). pose proof (val_bound d Hd).
  destruct (Z.leb_spec (val d) (val r)); cbn [Z.odd]; apply Z.mod_small; lia.
Qed.

(** From the estimate of the quotient to the exact quotient and remainder. *)
Lemma divmod_finish n d q : wordsOK n -> wordsOK d -> 0 < val d -> (0 < length n)%nat ->
  wordsOK q -> length q = length n ->
  val q = val n / val d \/ (val q = val n / val d - 1 /\ val n mod val d = 0 /\ 0 < val n) ->
  exists r0 q' r', mp_mul_into (replicate (length d) 0) q d = Ok r0 /\
    correct_round d (correct_round d (mp_sub_into (length r0) n r0, 0)) = (r', val n / val d - val q) /\
    q' = mp_add_integer_into (length q) q (val n / val d - val q) /\
    length q' = length n /\ wordsOK q' /\ val q' = val n / val d /\
    length r' = length d /\ wordsOK r' /\ val r' = val n mod val d.
Proof.
  intros Hn Hd Hpos Hln Hq Hlq Hest. pose proof (val_bound n Hn) as Hnb. pose proof (val_bound d Hd) as Hdb.
  assert (0 < length d)%nat as Hld by (destruct d; [done|cbn; lia]).
  destruct (mp_mul_into_spec (replicate (length d) 0) q d Hq Hd) as (r0 & E0 & Hl0 & Hok0 & Hv0);
    [rewrite length_replicate; lia|lia|].
  rewrite length_replicate in Hl0, Hv0.
  pose proof (Z.div_mod (val n) (val d) ltac:(lia)) as Hdm. pose proof (Z.mod_pos_bound (val n) (val d) Hpos) as Hm.
  assert (0 <= val n / val d <= val n) as HQ.
  { split; [apply Z.div_pos; lia|]. apply Z.div_le_upper_bound; [lia|]. nia. }
  destruct (mp_sub_into_spec (length r0) n r0 Hn Hok0) as (Hl1 & Hok1 & Hv1).
  set (Q := val n / val d) in *. set (rho := val n mod val d) in *.
  assert (val (mp_sub_into (length r0) n r0) = rho + (Q - val q) * val d) as Hv1'.
  { rewrite Hv1, Hv0, Hl0, Zminus_mod_idemp_r.
    replace (val n - val q * val d) with (rho + (Q - val q) * val d) by lia.
    apply Z.mod_small. destruct Hest as [-> |(-> & Hz & _)]; [lia|]. rewrite Hz. lia. }
  destruct (correct_round_spec d (mp_sub_into (length r0) n r0) 0 Hd Hok1 ltac:(lia)) as (r1 & E1 & Hok2 & Hl2 & Hv2).
  destruct (correct_round_spec d r1 (0 + if val d <=? val (mp_sub_into (length r0) n r0) then 1 else 0) Hd Hok2 Hl2)
    as (r2 & E2 & Hok3 & Hl3 & Hv3).
  rewrite Hv1' in E1, E2, Hv2.
  assert (0 <= Q - val q <= 1) as Hc by lia.
  destruct (mp_add_integer_into_spec (length q) q (Q - val q) Hq) as (Hl4 & Hok4 & Hv4); [unfold is_uintmax; lia|].
  exists r0, (mp_add_integer_into (length q) q (Q - val q)), r2.
  split; [done|]. rewrite E1, E2.
  assert ((val q + (Q - val q)) mod Bp (length q) = Q) as Hq4.
  { rewrite Hlq. replace (val q + (Q - val q)) with Q by lia. apply Z.mod_small. lia. }
  assert ((rho + (Q - val q) * val d) = rho /\ Q = val q \/ rho + (Q - val q) * val d = val d /\ rho = 0 /\ Q = val q + 1)
    as Hcase by (destruct Hest as [-> |(-> & Hz & _)]; [left; lia|right; lia]).
  split_and!; [|done|congruence|done|congruence|done|done|].
  - f_equal. destruct Hcase as [[E Hq0]|(E & Hr0 & Hq1)]; rewrite E, Hv2, E.
    + destruct (Z.leb_spec (val d) rho); [lia|]. rewrite Z.sub_0_r. destruct (Z.leb_spec (val d) rho); lia.
    + rewrite Z.leb_refl. destruct (Z.leb_spec (val d) (val d - val d)); lia.
  - rewrite Hv3, Hv2. destruct Hcase as [[-> Hq0]|(-> & Hr0 & Hq1)].
    + destruct (Z.leb_spec (val d) rho); [lia|]. rewrite Z.sub_0_r. destruct (Z.leb_spec (val d) rho); lia.
    + rewrite Z.leb_refl. destruct (Z.leb_spec (val d) (val d - val d)); lia.
Qed.

Lemma mp_divmod_spec n d : wordsOK n -> wordsOK d -> (0 < length n)%nat -> 0 < val d -> div_size n d ->
  exists q r, mp_divmod n d = Ok (q, r) /\ length q = length n /\ length r = length d /\ wordsOK q /\ wordsOK r /\
    val q = val n / val d /\ val r = val n mod val d.
Proof.
  intros Hn Hd Hln Hpos Hsz. unfold mp_divmod.
  rewrite c_assert_true by (rewrite mp_eq_integer_spec by (done || unfold is_uintmax; lia);
    rewrite (proj2 (Z.eqb_neq (val d) 0)) by lia; done).
  destruct (div_log2_R_spec (length n) (length d)) as (kk & -> & Hkk & Hk5).
  destruct (div_reciprocal_spec n d Hd Hpos Hln Hsz kk Hkk Hk5) as (ra & -> & Hla & Hra & Hneg & Hgood).
  cbn [res_bind]. destruct (mp_mul_spec ra n Hra Hn) as (qf & -> & _ & Hqf & Hvf); [lia|]. cbn [res_bind].
  assert (0 < length d)%nat as Hld by (destruct d; [done|cbn; lia]).
  unfold mp_make_sized. rewrite !c_assert_true by (apply Nat.ltb_lt; lia). cbn [res_bind].
  rewrite length_replicate.
  destruct (shift_by_R kk (length n) qf Hqf) as (Hlq & Hq & Hvq). cbn zeta in *.
  set (q := mp_rshift_fixed_into (length n) _ _) in *.
  pose proof (quotient_estimate n d Hn Hd Hpos Hln kk Hkk Hk5 ra Hra Hneg Hgood) as Hest. cbn zeta in Hest.
  rewrite Hvf, (Z.mul_comm (val ra)) in Hvq. rewrite Z.mod_small in Hvq.
  2: { pose proof (val_bound n Hn). pose proof (Z.div_mod (val n) (val d) ltac:(lia)).
       assert (0 <= val n / val d <= val n) by (split; [apply Z.div_pos; lia|apply Z.div_le_upper_bound; nia]).
       pose proof (Z.mod_pos_bound (val n) (val d) Hpos). destruct Hest as [-> |(-> & ? & ?)]; nia. }
  rewrite <-Hvq in Hest.
  destruct (divmod_finish n d q Hn Hd Hpos Hln Hq Hlq Hest)
    as (r0 & q' & r' & -> & E & Eq' & Hlq' & Hq' & Hvq' & Hlr' & Hr' & Hvr').
  cbn [res_bind]. rewrite E. cbn beta iota zeta. rewrite mp_cmp_hs_spec by done.
  pose proof (Z.mod_pos_bound (val n) (val d) Hpos).
  rewrite (proj2 (Z.leb_gt (val d) (val r'))) by lia. cbn [Z.eqb c_assert].
  exists q', r'. rewrite <-Eq'. by split_and!.
Qed.

Lemma mp_copy_into_same x : mp_copy_into (length x) x = x.
Proof. rewrite mp_copy_into_eq. apply fill_words. Qed.

Lemma mp_div_spec n d : wordsOK n -> wordsOK d -> (0 < length n)%nat -> 0 < val d -> div_size n d ->
  exists q, mp_div n d = Ok q /\ length q = length n /\ wordsOK q /\ val q = val n / val d.
Proof.
  intros Hn Hd Hln Hpos Hsz. unfold mp_div, mp_divmod_into, mp_make_sized.
  rewrite c_assert_true by (apply Nat.ltb_lt; lia). cbn [res_bind].
  destruct (mp_divmod_spec n d Hn Hd Hln Hpos Hsz) as (q & r & -> & Hlq & _ & Hq & _ & Hv & _).
  cbn [res_bind fmap option_fmap option_map default from_option id]. rewrite length_replicate, <-Hlq, mp_copy_into_same.
  exists q. split_and!; done.
Qed.

Lemma mp_mod_spec n d : wordsOK n -> wordsOK d -> (0 < length n)%nat -> 0 < val d -> div_size n d ->
  exists r, mp_mod n d = Ok r /\ length r = length d /\ wordsOK r /\ val r = val n mod val d.
Proof.
  intros Hn Hd Hln Hpos Hsz. unfold mp_mod, mp_divmod_into, mp_make_sized.
  assert (0 < length d)%nat as Hld by (destruct d; [done|cbn; lia]).
  rewrite c_assert_true by (apply Nat.ltb_lt; lia). cbn [res_bind].
  destruct (mp_divmod_spec n d Hn Hd Hln Hpos Hsz) as (q & r & -> & _ & Hlr & _ & Hr & _ & Hv).
  cbn [res_bind fmap option_fmap option_map default from_option id]. rewrite length_replicate, <-Hlr, mp_copy_into_same.
  exists r. split_and!; done.
Qed.

(** ** Reduction modulo a known small integer *)

Lemma mp_get_byte_val x i : wordsOK x -> mp_get_byte x i = (val x / 2 ^ (8 * Z.of_nat i)) mod 256.
Proof.
  intros Hx. unfold mp_get_byte. rewrite Z.land_comm. change 255 with (Z.ones 8). rewrite Z.land_ones by lia.
  pose proof (Nat.div_mod i 4 ltac:(lia)) as Hd. pose proof (Nat.mod_upper_bound i 4 ltac:(lia)).
  change 256 with (2 ^ 8). apply Z.bits_inj'. intros j Hj. destruct (Z.lt_ge_cases j 8).
  - rewrite !Z.mod_pow2_bits_low, Z.shiftr_spec, Z.div_pow2_bits by lia.
    rewrite <-val_testbit by (done || lia). f_equal. lia.
  - by rewrite !Z.mod_pow2_bits_high by lia.
Qed.

Lemma reduce_byte_spec m A : 0 < m < 2 ^ 32 -> 0 <= A < 512 * m ->
  0 <= reduce_byte (2 ^ 48 / m) m A < 2 * m /\ cong m (reduce_byte (2 ^ 48 / m) m A) A.
Proof.
  intros Hm HA. unfold reduce_byte. rewrite Z.shiftr_div_pow2 by lia.
  pose proof (Z.div_mod (2 ^ 48) m ltac:(lia)) as H1. pose proof (Z.mod_pos_bound (2 ^ 48) m ltac:(lia)) as H2.
  set (rc := 2 ^ 48 / m) in *. set (rho := 2 ^ 48 mod m) in *.
  assert (0 <= rc) as Hrc by (apply Z.div_pos; lia).
  assert (0 <= A * rc < 2 ^ 64) as Hprod by nia. rewrite (w64_small (A * rc)) by done.
  pose proof (Z.div_mod (A * rc) (2 ^ 48) ltac:(lia)) as H3. pose proof (Z.mod_pos_bound (A * rc) (2 ^ 48) ltac:(lia)) as H4.
  set (q := A * rc / 2 ^ 48) in *. set (f := (A * rc) mod 2 ^ 48) in *.
  assert (0 <= q) as Hq by (apply Z.div_pos; lia).
  assert (2 ^ 48 * (A - q * m) = A * rho + f * m) as Hkey by nia.
  assert (0 <= A - q * m < 2 * m) as HR by nia.
  rewrite (w64_small (q * m)), w64_small by lia. split; [done|].
  split. replace (A - q * m) with (A + - q * m) by ring. apply Z_mod_plus_full.
Qed.

Lemma mod_known_loop_spec x m : wordsOK x -> 0 < m < 2 ^ 32 -> forall i acc,
  0 <= acc < 2 * m -> cong m acc (val x / 2 ^ (8 * Z.of_nat i)) ->
  0 <= mod_known_loop i x (2 ^ 48 / m) m acc < 2 * m /\ cong m (mod_known_loop i x (2 ^ 48 / m) m acc) (val x).
Proof.
  intros Hx Hm. induction i as [|i IH]; intros acc Hacc Hc; cbn [mod_known_loop].
  - change (2 ^ (8 * Z.of_nat 0)) with 1 in Hc. by rewrite Z.div_1_r in Hc.
  - rewrite mp_get_byte_val by done.
    pose proof (Z.mod_pos_bound (val x / 2 ^ (8 * Z.of_nat i)) 256 ltac:(lia)) as Hb.
    rewrite (w64_small (256 * acc)), w64_small by lia.
    destruct (reduce_byte_spec m (256 * acc + (val x / 2 ^ (8 * Z.of_nat i)) mod 256) Hm ltac:(lia)) as [H1 H2].
    apply IH; [done|]. rewrite H2, Hc.
    replace (8 * Z.of_nat (S i)) with (8 * Z.of_nat i + 8) by lia. rewrite Z.pow_add_r by lia.
    rewrite <-Z.div_div by (apply Z.pow_nonzero || lia; lia). change (2 ^ 8) with 256.
    apply reflexive_eq. symmetry. apply Z.div_mod. lia.
Qed.

Lemma mp_mod_known_integer_spec x m : wordsOK x -> 0 < m <= 2 ^ 31 ->
  mp_mod_known_integer x m = Ok (val x mod m).
Proof.
  intros Hx Hm. unfold mp_mod_known_integer. rewrite Z.shiftl_1_l.
  pose proof (val_bound x Hx) as Hb.
  destruct (mod_known_loop_spec x m Hx ltac:(lia) (length x * 4) 0) as [H1 H2]; [lia| |].
  { rewrite Z.div_small; [done|]. replace (8 * Z.of_nat (length x * 4)) with (32 * Z.of_nat (length x)) by lia. done. }
  set (acc := mod_known_loop _ _ _ _ _) in *. rewrite (w32_small acc) by (unfold is_word; lia).
  destruct (Z.le_gt_cases m acc) as [Hge|Hlt].
  - assert (acc - m = val x mod m) as E.
    { apply cong_small; [lia|]. rewrite <-H2. split. replace (acc - m) with (acc + -1 * m) by ring. apply Z_mod_plus_full. }
    rewrite (w32_small (acc - m)) by (unfold is_word; lia). rewrite Z.shiftr_div_pow2, (Z.div_small (acc - m)) by lia.
    change (w32 (Z.opp 0)) with 0. rewrite Z.land_0_r, Z.lxor_0_r.
    rewrite c_assert_true by (apply Z.ltb_lt; lia). by rewrite E.
  - assert (acc = val x mod m) as E by (apply cong_small; [lia|done]).
    assert (w32 (acc - m) = acc - m + 2 ^ 32) as -> by (symmetry; apply Z.mod_unique_pos with (-1); lia).
    assert (Z.shiftr (acc - m + 2 ^ 32) 31 = 1) as ->.
    { rewrite Z.shiftr_div_pow2 by lia. symmetry. apply Z.div_unique_pos with (acc - m + 2 ^ 31); lia. }
    change (w32 (Z.opp 1)) with (2 ^ 32 - 1). rewrite (land_ones_small 32) by (apply lxor_bound; lia).
    rewrite (Z.lxor_comm acc), <-Z.lxor_assoc, Z.lxor_nilpotent, Z.lxor_0_l.
    rewrite c_assert_true by (apply Z.ltb_lt; lia). by rewrite E.
Qed.
