(* ===== verification/MpintMonty.v ===== *)
(** * Multiprecision integers: modular arithmetic and Montgomery multiplication
    ([libs/putty/crypto/mpint.c], [monty_new] to [mp_modpow], [mp_modmul] to
    [mp_power_2]; [struct MontyContext] of [mpint_i.h]) *)

From S2P Require Import Prelude MpintCore MpintArith MpintMul MpintShift MpintConv MpintInv MpintDiv.

Local Open Scope Z_scope.
Local Open Scope cmodel_scope.

(** ** Modular operations by division *)

Definition mp_modmul (x y modulus : mp_int) : res mp_int :=
  let! product := mp_mul x y in mp_mod product modulus.

Definition mp_modadd (x y modulus : mp_int) : res mp_int :=
  let! sum := mp_add x y in mp_mod sum modulus.

Definition mp_modsub (x y modulus : mp_int) : res mp_int :=
  let! diff := mp_make_sized (length x `max` length y) in
  let diff := mp_sub_into (length diff) x y in
  let negate := mp_cmp_hs y x in
  let diff := mp_cond_negate (length diff) diff negate in
  let! residue := mp_mod diff modulus in
  let residue := mp_cond_negate (length residue) residue negate in
  let make_positive := Z.land negate (w32 (Z.lnot (mp_eq_integer residue 0))) in
  Ok (mp_cond_add_into (length residue) residue modulus make_positive).

Definition mp_modadd_in_range (x y modulus : mp_int) : res mp_int :=
  let! sum := mp_make_sized (length modulus) in
  let '(sum, carry) := mp_add_into_internal (length sum) x y in
  Ok (mp_cond_sub_into (length sum) sum modulus (Z.lor carry (mp_cmp_hs sum modulus))).

Definition mp_modsub_in_range (x y modulus : mp_int) : res mp_int :=
  let! diff := mp_make_sized (length modulus) in
  let diff := mp_sub_into (length diff) x y in
  Ok (mp_cond_add_into (length diff) diff modulus (Z.lxor 1 (mp_cmp_hs x y))).

(** ** Montgomery contexts *)

(** [struct MontyContext].  [rbits] is [rw * BIGNUM_INT_BITS]. *)
Record MontyContext := Monty {
  mc_m : mp_int; mc_rbits : nat; mc_rw : nat; mc_pw : nat;
  mc_minus_minv_mod_r : mp_int;
  mc_powers_of_r_mod_m : list mp_int;
  mc_scratch : mp_int }.

Definition monty_scratch_size (rw pw : nat) : nat := (3 * rw + pw + mp_mul_scratchspace pw rw rw)%nat.

Definition monty_new (modulus : mp_int) : res MontyContext :=
  let rw := length modulus in
  let rbits := (rw * 32)%nat in
  let pw := (rw * 2 + 1)%nat in
  let! m := mp_copy modulus in
  let! minv := mp_invert_mod_2to m rbits in
  let minus_minv_mod_r := mp_neg_into (length minv) minv in
  let! r := mp_make_sized (rw + 1) in
  let r := <[rw := 1]> r in
  let! power0 := mp_mod r m in
  let! power1 := mp_modmul power0 power0 m in
  let! power2 := mp_modmul power0 power1 m in
  let! scratch := mp_make_sized (monty_scratch_size rw pw) in
  Ok (Monty m rbits rw pw minus_minv_mod_r [power0; power1; power2] scratch).

Definition monty_identity (mc : MontyContext) : mp_int := default [] (mc_powers_of_r_mod_m mc !! 0%nat).
Definition monty_modulus (mc : MontyContext) : mp_int := mc_m mc.

(** [monty_reduce_internal(mc, x, scratch)].  The alias [x_lo] is given the
    length [rbits], in words. *)
Definition monty_reduce_internal (mc : MontyContext) (x scratch : mp_int) : res mp_int :=
  let x_lo := mp_make_alias x 0 (mc_rbits mc) in
  let! (k, scratch) := mp_alloc_from_scratch scratch (mc_rw mc) in
  let! k := mp_mul_internal k x_lo (mc_minus_minv_mod_r mc) scratch in
  let! (mk, scratch) := mp_alloc_from_scratch scratch (mc_pw mc) in
  let! mk := mp_mul_internal mk (mc_m mc) k scratch in
  let mk := mp_add_into (length mk) x mk in
  let toret := mp_make_alias mk (mc_rw mc) (length mk - mc_rw mc) in
  Ok (mp_cond_sub_into (length toret) toret (mc_m mc) (mp_cmp_hs toret (mc_m mc))).

(** [monty_mul_into(mc, r, x, y)] for a destination of [nw] words.  [r] may be
    the same object as [x] or [y]: it is written last.  The scratch space of
    the context is cleared afterwards; its contents are never read. *)
Definition monty_mul_into (mc : MontyContext) (nw : nat) (x y : mp_int) : res mp_int :=
  c_assert (length x <=? mc_rw mc)%nat
  (c_assert (length y <=? mc_rw mc)%nat
  (let! (tmp, scratch) := mp_alloc_from_scratch (mc_scratch mc) (2 * mc_rw mc) in
   let! tmp := mp_mul_into tmp x y in
   let! reduced := monty_reduce_internal mc tmp scratch in
   Ok (mp_copy_into nw reduced))).

Definition monty_mul (mc : MontyContext) (x y : mp_int) : res mp_int :=
  let! toret := mp_make_sized (mc_rw mc) in
  monty_mul_into mc (length toret) x y.

Definition monty_import (mc : MontyContext) (x : mp_int) : res mp_int :=
  mp_modmul x (monty_identity mc) (mc_m mc).

Definition monty_import_into (mc : MontyContext) (nw : nat) (x : mp_int) : res mp_int :=
  let! imported := monty_import mc x in Ok (mp_copy_into nw imported).

Definition monty_export_into (mc : MontyContext) (nw : nat) (x : mp_int) : res mp_int :=
  c_assert (length x <=? 2 * mc_rw mc)%nat
  (let! reduced := monty_reduce_internal mc x (mc_scratch mc) in
   Ok (mp_copy_into nw reduced)).

Definition monty_export (mc : MontyContext) (x : mp_int) : res mp_int :=
  let! toret := mp_make_sized (mc_rw mc) in
  monty_export_into mc (length toret) x.

Definition monty_add (mc : MontyContext) (x y : mp_int) : res mp_int := mp_modadd_in_range x y (mc_m mc).
Definition monty_sub (mc : MontyContext) (x y : mp_int) : res mp_int := mp_modsub_in_range x y (mc_m mc).

(** ** Exponentiation *)

Definition MODPOW_LOG2_WINDOW_SIZE : nat := 5.
Definition MODPOW_WINDOW_SIZE : nat := 32.

(** The powers of the base from [prev] on: [k] more entries of the table. *)
Fixpoint pow_table (mc : MontyContext) (base prev : mp_int) (k : nat) : res (list mp_int) :=
  match k with
  | O => Ok []
  | S k =>
      let! next := monty_mul mc prev base in
      let! rest := pow_table mc base next k in
      Ok (next :: rest)
  end.

(** The table index for the chunk at bit [i]. *)
Definition table_index (exponent : mp_int) (i : nat) : Z :=
  fold_left (fun t j => Z.lor t (Z.shiftl (mp_get_bit exponent (i + j)) (Z.of_nat j)))
    (seq 0 MODPOW_LOG2_WINDOW_SIZE) 0.

(** The lookup that reads every entry. *)
Definition table_select (table : list mp_int) (rw : nat) (index : Z) : mp_int :=
  fold_left (fun entry j =>
      let not_this_one := Z.shiftr (Z.lxor index (Z.of_nat j) + 32 - 1) (Z.of_nat MODPOW_LOG2_WINDOW_SIZE) in
      mp_select_into rw (default [] (table !! j)) entry not_this_one)
    (seq 1 (MODPOW_WINDOW_SIZE - 1)) (mp_copy_into rw (default [] (table !! 0%nat))).

(** Squaring [k] times. *)
Fixpoint monty_square_times (mc : MontyContext) (k : nat) (out : mp_int) : res mp_int :=
  match k with
  | O => Ok out
  | S k => let! out := monty_mul_into mc (length out) out out in monty_square_times mc k out
  end.

(** The main loop, for the chunk of bits at [5 c]. *)
Fixpoint monty_pow_loop (mc : MontyContext) (table : list mp_int) (exponent : mp_int) (c : nat)
    (first_iteration : bool) (out : mp_int) : res mp_int :=
  let i := (c * MODPOW_LOG2_WINDOW_SIZE)%nat in
  let table_entry := table_select table (mc_rw mc) (table_index exponent i) in
  let! out := (if first_iteration then Ok (mp_copy_into (length out) table_entry)
               else monty_mul_into mc (length out) out table_entry) in
  match c with
  | O => Ok out
  | S c =>
      let! out := monty_square_times mc MODPOW_LOG2_WINDOW_SIZE out in
      monty_pow_loop mc table exponent c false out
  end.

Definition monty_pow (mc : MontyContext) (base exponent : mp_int) : res mp_int :=
  let! table0 := mp_copy (monty_identity mc) in
  let! rest := pow_table mc base table0 (MODPOW_WINDOW_SIZE - 1) in
  let! out := mp_make_sized (mc_rw mc) in
  let out := mp_copy_into (length out) (monty_identity mc) in
  let i := (length exponent * 32 - 1)%nat in
  monty_pow_loop mc (table0 :: rest) exponent (i / MODPOW_LOG2_WINDOW_SIZE) true out.

Definition mp_modpow (base exponent modulus : mp_int) : res mp_int :=
  c_assert (0 <? length modulus)%nat
  (c_assert (negb (Z.land (mp_word modulus 0) 1 =? 0))
  (let! mc := monty_new modulus in
   let! m_base := monty_import mc base in
   let! m_out := monty_pow mc m_base exponent in
   monty_export mc m_out)).

(** ** Minimum, maximum, powers of two *)

Definition mp_min_into (nw : nat) (x y : mp_int) : mp_int := mp_select_into nw x y (mp_cmp_hs x y).
Definition mp_max_into (nw : nat) (x y : mp_int) : mp_int := mp_select_into nw y x (mp_cmp_hs x y).
Definition mp_min (x y : mp_int) : res mp_int :=
  let! r := mp_make_sized (length x `min` length y) in Ok (mp_min_into (length r) x y).
Definition mp_max (x y : mp_int) : res mp_int :=
  let! r := mp_make_sized (length x `max` length y) in Ok (mp_max_into (length r) x y).
Definition mp_power_2 (power : nat) : res mp_int :=
  let! x := mp_new (Z.of_nat power + 1) in mp_set_bit x power 1.

(** ** Modular operations by division *)

Definition small_len (x : mp_int) : Prop := (0 < length x)%nat /\ Z.of_nat (length x) < 2 ^ 26.

Lemma mp_modmul_spec x y m : wordsOK x -> wordsOK y -> wordsOK m -> small_len x -> small_len y -> small_len m -> 0 < val m ->
  exists r, mp_modmul x y m = Ok r /\ length r = length m /\ wordsOK r /\ val r = (val x * val y) mod val m.
Proof.
  intros Hx Hy Hm [Lx Lx'] [Ly Ly'] [Lm Lm'] Hpos. unfold mp_modmul.
  destruct (mp_mul_spec x y Hx Hy Lx) as (p & -> & Hl & Hp & Hv). cbn [res_bind].
  destruct (mp_mod_spec p m) as (r & -> & Hlr & Hr & Hvr); [done|done|lia|done|unfold div_size; lia|].
  exists r. split_and!; [done..|]. by rewrite Hvr, Hv.
Qed.

Lemma mp_modadd_spec x y m : wordsOK x -> wordsOK y -> wordsOK m -> small_len x -> small_len y -> small_len m -> 0 < val m ->
  exists r, mp_modadd x y m = Ok r /\ length r = length m /\ wordsOK r /\ val r = (val x + val y) mod val m.
Proof.
  intros Hx Hy Hm [Lx Lx'] [Ly Ly'] [Lm Lm'] Hpos. unfold mp_modadd.
  destruct (mp_add_spec x y Hx Hy) as (p & -> & Hl & Hp & Hv). cbn [res_bind].
  destruct (mp_mod_spec p m) as (r & -> & Hlr & Hr & Hvr); [done|done|lia|done|unfold div_size; lia|].
  exists r. split_and!; [done..|]. by rewrite Hvr, Hv.
Qed.

Lemma odd_b2z b : Z.odd (Z.b2z b) = b.
Proof. by destruct b. Qed.

(** [negate & ~(residue == 0)]. *)
Lemma make_positive_eq (neg : bool) r : wordsOK r ->
  Z.odd (Z.land (Z.b2z neg) (w32 (Z.lnot (mp_eq_integer r 0)))) = neg && negb (val r =? 0).
Proof.
  intros Hr. rewrite mp_eq_integer_spec by (done || unfold is_uintmax; lia).
  destruct neg, (Z.eqb_spec (val r) 0); reflexivity.
Qed.

Lemma mp_modsub_spec x y m : wordsOK x -> wordsOK y -> wordsOK m -> small_len x -> small_len y -> small_len m -> 0 < val m ->
  exists r, mp_modsub x y m = Ok r /\ length r = length m /\ wordsOK r /\ val r = (val x - val y) mod val m.
Proof.
  intros Hx Hy Hm [Lx Lx'] [Ly Ly'] [Lm Lm'] Hpos. unfold mp_modsub, mp_make_sized.
  rewrite c_assert_true by (apply Nat.ltb_lt; lia). cbn [res_bind]. rewrite length_replicate.
  set (n := (length x `max` length y)%nat).
  destruct (mp_sub_into_spec n x y Hx Hy) as (Hl1 & Hok1 & Hv1). rewrite Hl1.
  rewrite mp_cmp_hs_spec by done. set (neg := val x <=? val y).
  replace (if neg then 1 else 0) with (Z.b2z neg) by (by destruct neg).
  destruct (mp_cond_negate_spec n _ neg Hok1) as (Hl2 & Hok2 & Hv2).
  pose proof (val_bound_le x n Hx ltac:(lia)) as Hxb. pose proof (val_bound_le y n Hy ltac:(lia)) as Hyb.
  assert (val (mp_cond_negate n (mp_sub_into n x y) (Z.b2z neg)) = Z.abs (val x - val y)) as Habs.
  { rewrite Hv2, Hv1. unfold neg. destruct (Z.leb_spec (val x) (val y)).
    - rewrite <-(Z.sub_0_l (_ mod _)), Zminus_mod_idemp_r, Z.mod_small by lia. lia.
    - rewrite Zmod_mod, Z.mod_small by lia. lia. }
  destruct (mp_mod_spec (mp_cond_negate n (mp_sub_into n x y) (Z.b2z neg)) m) as (r & -> & Hlr & Hr & Hvr);
    [done|done|lia|done|unfold div_size; lia|]. cbn [res_bind].
  destruct (mp_cond_negate_spec (length r) r neg Hr) as (Hl3 & Hok3 & Hv3).
  destruct (mp_cond_add_into_spec (length (mp_cond_negate (length r) r (Z.b2z neg))) _ m
    (Z.land (Z.b2z neg) (w32 (Z.lnot (mp_eq_integer (mp_cond_negate (length r) r (Z.b2z neg)) 0)))) Hok3 Hm)
    as (Hl4 & Hok4 & Hv4).
  eexists. split; [done|]. split_and!; [congruence|done|]. rewrite Hv4, make_positive_eq by done.
  rewrite !Hv3, Hl3, Hlr, Hvr, Habs. clear Hv4 Hv3 Hl4 Hl3 Hvr Hv2.
  pose proof (val_bound m Hm) as Hmb. pose proof (Z.mod_pos_bound (Z.abs (val x - val y)) (val m) Hpos) as Hm0.
  unfold neg. destruct (Z.leb_spec (val x) (val y)) as [Hle|Hgt].
  - rewrite (Z.abs_neq (val x - val y)) in * by lia. set (a := - (val x - val y)) in *.
    replace (val x - val y) with (- a) by (unfold a; lia).
    destruct (Z.eq_dec (a mod val m) 0) as [Ez|Enz].
    + rewrite Ez, Z.opp_0, Zmod_0_l. cbn [Z.eqb negb andb]. symmetry. by apply Z_mod_zero_opp_full.
    + rewrite (proj2 (Z.eqb_neq ((- (a mod val m)) mod Bp (length m)) 0)).
      2: { rewrite Z_mod_nz_opp_full by (rewrite Z.mod_small; lia). rewrite Z.mod_small; lia. }
      cbn [andb negb]. rewrite Zplus_mod_idemp_l, Z.mod_small by lia. rewrite Z_mod_nz_opp_full by done. lia.
  - rewrite (Z.abs_eq (val x - val y)) in * by lia. cbn [andb]. rewrite Z.add_0_r, Zmod_mod. apply Z.mod_small. lia.
Qed.

(** For operands already reduced, without division. *)
Lemma mp_modadd_in_range_spec x y m : wordsOK x -> wordsOK y -> wordsOK m -> (0 < length m)%nat ->
  val x < val m -> val y < val m ->
  exists r, mp_modadd_in_range x y m = Ok r /\ length r = length m /\ wordsOK r /\ val r = (val x + val y) mod val m.
Proof.
  intros Hx Hy Hm Lm Bx By. unfold mp_modadd_in_range, mp_make_sized.
  rewrite c_assert_true by (apply Nat.ltb_lt; lia). cbn [res_bind]. rewrite length_replicate.
  pose proof (val_bound x Hx). pose proof (val_bound y Hy). pose proof (val_bound m Hm) as Hmb.
  destruct (mp_add_into_spec (length m) x y Hx Hy) as (Hl & Hok & Hv).
  pose proof (mp_add_into_internal_carry (length m) x y Hx Hy ltac:(lia) ltac:(lia)) as Hc. unfold mp_add_into in *.
  destruct (mp_add_into_internal (length m) x y) as [s c]. cbn [fst snd] in *. subst c.
  rewrite mp_cmp_hs_spec by done.
  destruct (mp_cond_sub_into_spec (length s) s m (Z.lor ((val x + val y) / Bp (length m)) (if val m <=? val s then 1 else 0)) Hok Hm)
    as (Hl2 & Hok2 & Hv2).
  eexists. split; [done|]. split_and!; [congruence|done|]. rewrite Hv2, Hl, Hv.
  destruct (Z.lt_ge_cases (val x + val y) (Bp (length m))) as [Hlt|Hge].
  - rewrite (Z.div_small (val x + val y)), (Z.mod_small (val x + val y) (Bp _)), Z.lor_0_l by lia.
    destruct (Z.leb_spec (val m) (val x + val y)); cbn [Z.odd].
    + rewrite Z.mod_small by lia. apply Z.mod_unique_pos with 1; lia.
    + rewrite Z.sub_0_r, !Z.mod_small by lia. done.
  - assert ((val x + val y) / Bp (length m) = 1) as ->.
    { symmetry. apply Z.div_unique_pos with (val x + val y - Bp (length m)); lia. }
    assert (forall b : bool, Z.odd (Z.lor 1 (if b then 1 else 0)) = true) as -> by (by intros []).
    rewrite Zminus_mod_idemp_l, (Z.mod_small (_ - _)) by lia. apply Z.mod_unique_pos with 1; lia.
Qed.

Lemma mp_modsub_in_range_spec x y m : wordsOK x -> wordsOK y -> wordsOK m -> (0 < length m)%nat ->
  val x < val m -> val y < val m ->
  exists r, mp_modsub_in_range x y m = Ok r /\ length r = length m /\ wordsOK r /\ val r = (val x - val y) mod val m.
Proof.
  intros Hx Hy Hm Lm Bx By. unfold mp_modsub_in_range, mp_make_sized.
  rewrite c_assert_true by (apply Nat.ltb_lt; lia). cbn [res_bind]. rewrite length_replicate.
  pose proof (val_bound x Hx). pose proof (val_bound y Hy). pose proof (val_bound m Hm) as Hmb.
  destruct (mp_sub_into_spec (length m) x y Hx Hy) as (Hl & Hok & Hv).
  destruct (mp_cond_add_into_spec (length (mp_sub_into (length m) x y)) _ m (Z.lxor 1 (mp_cmp_hs x y)) Hok Hm)
    as (Hl2 & Hok2 & Hv2).
  eexists. split; [done|]. split_and!; [congruence|done|]. rewrite Hv2, mp_cmp_hs_spec, Hl, Hv, Zplus_mod_idemp_l by done.
  destruct (Z.leb_spec (val y) (val x)).
  - change (Z.odd (Z.lxor 1 1)) with false. cbn iota. by rewrite Z.add_0_r, !Z.mod_small by lia.
  - change (Z.odd (Z.lxor 1 0)) with true. cbn iota. rewrite (Z.mod_small (_ + _)) by lia.
    apply Z.mod_unique_pos with (-1); lia.
Qed.

(** ** The invariant of a context *)

Lemma val_copy_into nw x : wordsOK x ->
  length (mp_copy_into nw x) = nw /\ wordsOK (mp_copy_into nw x) /\ val (mp_copy_into nw x) = val x mod Bp nw.
Proof.
  intros Hx. rewrite mp_copy_into_eq, length_fill. split_and!; [done| |by apply val_fill_words].
  apply wordsOK_fill. auto with cmodel.
Qed.

Definition power_ok (mc : MontyContext) (j : nat) : Prop :=
  exists p, mc_powers_of_r_mod_m mc !! j = Some p /\ wordsOK p /\ length p = mc_rw mc /\
    val p = Bp (mc_rw mc) ^ (Z.of_nat j + 1) mod val (mc_m mc).

Record monty_ok (mc : MontyContext) : Prop := MontyOk {
  mo_m : wordsOK (mc_m mc);
  mo_small : small_len (mc_m mc);
  mo_odd : Z.odd (val (mc_m mc)) = true;
  mo_rw : mc_rw mc = length (mc_m mc);
  mo_rbits : mc_rbits mc = (mc_rw mc * 32)%nat;
  mo_pw : mc_pw mc = (mc_rw mc * 2 + 1)%nat;
  mo_minv : wordsOK (mc_minus_minv_mod_r mc);
  mo_minv_len : length (mc_minus_minv_mod_r mc) = mc_rw mc;
  mo_minv_val : cong (Bp (mc_rw mc)) (val (mc_m mc) * val (mc_minus_minv_mod_r mc)) (-1);
  mo_powers : forall j, (j < 3)%nat -> power_ok mc j;
  mo_scratch : length (mc_scratch mc) = monty_scratch_size (mc_rw mc) (mc_pw mc) }.

(** The value of the modulus of a context: positive, and below [r]. *)
Lemma mo_m_bound mc : monty_ok mc -> 0 < val (mc_m mc) < Bp (mc_rw mc).
Proof.
  intros H. rewrite (mo_rw _ H). pose proof (val_bound _ (mo_m _ H)). pose proof (mo_odd _ H) as Ho.
  destruct (Z.eq_dec (val (mc_m mc)) 0) as [E|]; [|lia]. by rewrite E in Ho.
Qed.

Lemma mo_rw_pos mc : monty_ok mc -> (0 < mc_rw mc)%nat.
Proof. intros H. rewrite (mo_rw _ H). apply (mo_small _ H). Qed.

Lemma monty_new_ok m : wordsOK m -> small_len m -> Z.odd (val m) = true ->
  exists mc, monty_new m = Ok mc /\ monty_ok mc /\ mc_m mc = m.
Proof.
  intros Hm [Lm Lm'] Ho. unfold monty_new. rewrite mp_copy_spec by done. cbn [res_bind].
  remember (length m) as n eqn:En. assert (2 ^ Z.of_nat (n * 32) = Bp n) as Er by (f_equal; lia).
  assert (0 < val m) as Hpos. { pose proof (val_bound m Hm). destruct (Z.eq_dec (val m) 0) as [E|]; [by rewrite E in Ho|lia]. }
  destruct (mp_invert_mod_2to_spec m (n * 32) Hm Ho ltac:(lia)) as (i & -> & Hli & Hi & Hvi & Hci).
  rewrite Er in *. cbn [res_bind]. destruct (mp_neg_into_spec (length i) i Hi) as (Hln & Hnok & Hnv).
  assert (length i = n) as Eli. { rewrite Hli. symmetry. apply Nat.div_unique with 31%nat; lia. }
  unfold mp_make_sized at 1. rewrite c_assert_true by (apply Nat.ltb_lt; lia). cbn [res_bind].
  set (r := <[n := 1]> (replicate (n + 1) 0)).
  assert (wordsOK r) as Hr by (apply wordsOK_insert; [auto with cmodel|unfold is_word; lia]).
  assert (length r = (n + 1)%nat) as Hlr by (unfold r; by rewrite length_insert, length_replicate).
  assert (val r = Bp n) as Hvr.
  { unfold r. rewrite val_insert by (rewrite length_replicate; lia). rewrite val_replicate_0. unfold mp_word.
    rewrite lookup_replicate_2 by lia. change (default 0 (Some 0)) with 0. lia. }
  destruct (mp_mod_spec r m Hr Hm ltac:(lia) Hpos ltac:(unfold div_size; lia)) as (p0 & -> & Hl0 & Hp0 & Hv0).
  cbn [res_bind]. rewrite Hvr in Hv0. assert (small_len m) as Sm by (unfold small_len; lia).
  destruct (mp_modmul_spec p0 p0 m) as (p1 & -> & Hl1 & Hp1 & Hv1); [first [done|unfold small_len; lia]..|].
  cbn [res_bind]. rewrite !Hv0, <-Zmult_mod in Hv1.
  destruct (mp_modmul_spec p0 p1 m) as (p2 & -> & Hl2 & Hp2 & Hv2); [first [done|unfold small_len; lia]..|].
  cbn [res_bind]. rewrite Hv0, Hv1, <-Zmult_mod in Hv2.
  unfold mp_make_sized. rewrite c_assert_true by (apply Nat.ltb_lt; unfold monty_scratch_size; lia). cbn [res_bind].
  eexists. split; [done|]. split; [|done].
  constructor; cbn [mc_m mc_rw mc_rbits mc_pw mc_minus_minv_mod_r mc_scratch]; try done.
  - lia.
  - rewrite Hnv, Eli. rewrite (cong_mod (Bp n)). split.
    rewrite Z.mul_opp_r, <-!(Z.sub_0_l (_ * _)), <-Zminus_mod_idemp_r, (cong_eq Hci), Zminus_mod_idemp_r. done.
  - intros j Hj. unfold power_ok. cbn [mc_m mc_rw mc_powers_of_r_mod_m].
    destruct j as [|[|[|]]]; [eexists; split_and!; [done|done|congruence|]|eexists; split_and!; [done|done|congruence|]|eexists; split_and!; [done|done|congruence|]|lia].
    + rewrite Hv0. f_equal. rewrite Z.pow_1_r. done.
    + rewrite Hv1. f_equal. change (Z.of_nat 1 + 1) with 2. ring.
    + rewrite Hv2. f_equal. change (Z.of_nat 2 + 1) with 3. ring.
  - apply length_replicate.
Qed.

(** ** Montgomery reduction *)

(** With [mi = -m^{-1} mod r], adding [m (x mi mod r)] to [x] makes it a
    multiple of [r]. *)
Lemma monty_multiple r m mi x k : cong r (m * mi) (-1) -> cong r k (x * mi) -> cong r (x + m * k) 0.
Proof.
  intros Hmi Hk. rewrite Hk. replace (x + m * (x * mi)) with (x + x * (m * mi)) by ring.
  rewrite Hmi. by replace (x + x * -1) with 0 by ring.
Qed.

(** The quotient by [r] of such a multiple, reduced by one trial subtraction. *)
Lemma monty_quotient r m x k : 0 < r -> 0 < m -> 0 <= x < m * r -> 0 <= k < r -> cong r (x + m * k) 0 ->
  let t := (x + m * k) / r in
  0 <= t < 2 * m /\ cong m (t * r) x.
Proof.
  intros Hr Hm Hx Hk [Hc] t. rewrite Zmod_0_l in Hc.
  assert (t * r = x + m * k) as Et. { unfold t. pose proof (Z_div_mod_eq_full (x + m * k) r). lia. }
  split; [nia|]. rewrite Et, (cong_self m k). by rewrite Z.add_0_r.
Qed.

Lemma monty_reduce_internal_spec mc x scratch :
  monty_ok mc -> wordsOK x -> (length x <= 2 * mc_rw mc)%nat -> (9 * mc_rw mc + 1 <= length scratch)%nat ->
  val x < val (mc_m mc) * Bp (mc_rw mc) ->
  exists t, monty_reduce_internal mc x scratch = Ok t /\ wordsOK t /\
    0 <= val t < val (mc_m mc) /\ cong (val (mc_m mc)) (val t * Bp (mc_rw mc)) (val x).
Proof.
  intros Hmc Hx Hlx Hs Hvx. pose proof (mo_m_bound mc Hmc) as Hm. pose proof (mo_rw_pos mc Hmc) as Hn.
  unfold monty_reduce_internal. rewrite (mo_rbits _ Hmc), (mo_pw _ Hmc).
  pose proof (mo_minv_len _ Hmc) as Hli. pose proof (mo_rw _ Hmc) as Hlm. pose proof (val_bound x Hx) as Hx0.
  set (n := mc_rw mc) in *. assert (0 < Bp n) as Hr by apply Bp_pos.
  apply alloc_step; [lia|]. intros k0 pool Hlk Hlp.
  rewrite mp_make_alias_eq, drop_0. set (x_lo := take (n * 32) x).
  destruct (mp_mul_internal_ok k0 x_lo (mc_minus_minv_mod_r mc) pool) as (k & -> & Hlk' & Hk & Hvk);
    [apply wordsOK_take, Hx|apply (mo_minv _ Hmc)|unfold mul_inlen; lia|]. cbn [res_bind].
  apply alloc_step; [lia|]. intros mk0 pool' Hlmk Hlp'.
  destruct (mp_mul_internal_ok mk0 (mc_m mc) k pool') as (mk & -> & Hlmk' & Hmk & Hvmk);
    [apply (mo_m _ Hmc)|done|unfold mul_inlen; lia|]. cbn [res_bind].
  destruct (mp_add_into_spec (length mk) x mk Hx Hmk) as (Hls & Hsum & Hvs).
  set (sum := mp_add_into (length mk) x mk) in *. rewrite mp_make_alias_eq.
  rewrite (take_ge (drop n sum)) by (rewrite length_drop; lia).
  set (t := drop n sum). assert (wordsOK t) as Ht by (by apply wordsOK_drop).
  assert (cong (Bp n) (val k) (val x * val (mc_minus_minv_mod_r mc))) as Hck.
  { rewrite Hvk, Hlk. rewrite (cong_mod (Bp n)). unfold x_lo. rewrite val_take_mod by done.
    apply cong_mul; [|done]. replace (Bp (n * 32)) with (Bp n * Bp (n * 31)) by (rewrite <-Bp_add; do 3 f_equal; lia).
    eapply cong_weaken, cong_mod. }
  assert (0 <= val k < Bp n) as Hkb by (rewrite Hvk, Hlk; by apply Z.mod_pos_bound).
  pose proof (monty_multiple _ _ _ _ _ (mo_minv_val _ Hmc) Hck) as Hmul.
  destruct (monty_quotient (Bp n) (val (mc_m mc)) (val x) (val k)) as [Hq1 Hq2]; [lia|lia|lia|lia|exact Hmul|].
  assert (Bp (n * 2 + 1) = Bp n * Bp n * B) as Epw.
  { rewrite <-!Bp_add, (Z.mul_comm _ B), <-Bp_S. do 3 f_equal. lia. }
  assert (val sum = val x + val (mc_m mc) * val k) as Esum.
  { rewrite Hvs, Hvmk, Hlmk', Hlmk, Epw, Zplus_mod_idemp_r. apply Z.mod_small. nia. }
  assert (val t = (val x + val (mc_m mc) * val k) / Bp n) as Evt.
  { unfold t. by rewrite val_drop_div, Esum. }
  destruct (mp_cond_sub_into_spec (length t) t (mc_m mc) (mp_cmp_hs t (mc_m mc)) Ht (mo_m _ Hmc)) as (Hl3 & Hok3 & Hv3).
  eexists. split; [done|]. split; [done|]. rewrite Hv3, mp_cmp_hs_spec by (done || apply (mo_m _ Hmc)).
  pose proof (val_bound t Ht) as Htb. rewrite <-Evt in Hq1, Hq2.
  destruct (Z.leb_spec (val (mc_m mc)) (val t)); cbn [Z.odd].
  - rewrite Z.mod_small by lia. split; [lia|]. rewrite <-Hq2.
    replace ((val t - val (mc_m mc)) * Bp n) with (val t * Bp n - val (mc_m mc) * Bp n) by ring.
    rewrite (cong_self (val (mc_m mc))). by rewrite Z.sub_0_r.
  - rewrite Z.sub_0_r, Z.mod_small by lia. split; [lia|done].
Qed.

(** ** Numbers in Montgomery form *)

(** [a] represents [A]: it is [A r mod m]. *)
Definition mont (mc : MontyContext) (a : mp_int) (A : Z) : Prop :=
  wordsOK a /\ length a = mc_rw mc /\ val a < val (mc_m mc) /\ cong (val (mc_m mc)) (val a) (A * Bp (mc_rw mc)).

(** [r] is invertible modulo [m]. *)
Lemma monty_unit mc : monty_ok mc -> exists z, cong (val (mc_m mc)) (Bp (mc_rw mc) * z) 1.
Proof.
  intros Hmc. destruct (mo_minv_val _ Hmc) as [E].
  set (m := val (mc_m mc)) in *. set (r := Bp (mc_rw mc)) in *. set (mi := val (mc_minus_minv_mod_r mc)) in *.
  exists ((m * mi + 1) / r). assert (r * ((m * mi + 1) / r) = m * mi + 1) as ->.
  { symmetry. apply Z_div_exact_full_2; [unfold r; bplia|]. by rewrite Zplus_mod, E, <-Zplus_mod. }
  by rewrite (cong_self m).
Qed.

Lemma monty_cancel mc u v : monty_ok mc ->
  cong (val (mc_m mc)) (u * Bp (mc_rw mc)) (v * Bp (mc_rw mc)) -> cong (val (mc_m mc)) u v.
Proof.
  intros Hmc H. destruct (monty_unit mc Hmc) as [z Hz].
  rewrite <-(Z.mul_1_r u), <-(Z.mul_1_r v), <-Hz, !Z.mul_assoc, H. done.
Qed.

(** Only the residue of the number represented matters. *)
Lemma mont_cong mc a A A' : cong (val (mc_m mc)) A A' -> mont mc a A -> mont mc a A'.
Proof. intros H (Ha & Hl & Hlt & Hc). split_and!; try done. by rewrite <-H. Qed.

Lemma mont_val mc a A : monty_ok mc -> mont mc a A -> val a = (A * Bp (mc_rw mc)) mod val (mc_m mc).
Proof.
  intros Hmc (Ha & _ & Hlt & Hc). pose proof (val_bound a Ha). apply cong_small; [lia|done].
Qed.

(** A reduced result copied to a destination of [rw] words. *)
Lemma mont_copy mc t A : monty_ok mc -> wordsOK t -> 0 <= val t < val (mc_m mc) ->
  cong (val (mc_m mc)) (val t) (A * Bp (mc_rw mc)) -> mont mc (mp_copy_into (mc_rw mc) t) A.
Proof.
  intros Hmc Ht Hv Hc. destruct (val_copy_into (mc_rw mc) t Ht) as (Hl & Hok & E).
  pose proof (mo_m_bound _ Hmc). rewrite Z.mod_small in E by lia.
  split_and!; [done|done|lia|by rewrite E].
Qed.

Lemma monty_mul_into_spec mc x y X Y : monty_ok mc -> mont mc x X -> mont mc y Y ->
  exists r, monty_mul_into mc (mc_rw mc) x y = Ok r /\ mont mc r (X * Y).
Proof.
  intros Hmc (Hx & Hlx & Bx & Cx) (Hy & Hly & By & Cy). pose proof (mo_rw_pos _ Hmc) as Hn.
  pose proof (mo_scratch _ Hmc) as Hs. rewrite (mo_pw _ Hmc) in Hs.
  unfold monty_scratch_size, mp_mul_scratchspace, mp_mul_scratchspace_unary, mul_inlen in Hs.
  unfold monty_mul_into. rewrite !c_assert_true by (apply Nat.leb_le; lia).
  apply alloc_step; [lia|]. intros tmp0 pool Hlt Hlp.
  destruct (mp_mul_into_spec tmp0 x y Hx Hy ltac:(lia) ltac:(lia)) as (tmp & -> & Hltmp & Htmp & Hv). cbn [res_bind].
  pose proof (val_bound x Hx). pose proof (val_bound y Hy). pose proof (mo_m_bound _ Hmc) as Hm.
  assert (val tmp = val x * val y) as Ev.
  { rewrite Hv, Hlt. replace (2 * mc_rw mc)%nat with (mc_rw mc + mc_rw mc)%nat by lia. rewrite Bp_add. apply Z.mod_small. nia. }
  destruct (monty_reduce_internal_spec mc tmp pool) as (t & -> & Ht & Bt & Ct); [done|done|lia|lia|nia|]. cbn [res_bind].
  eexists. split; [done|]. apply mont_copy; [done..|]. apply (monty_cancel mc); [done|].
  rewrite Ct, Ev, Cx, Cy. apply eq_cong. ring.
Qed.

Lemma monty_mul_spec mc x y X Y : monty_ok mc -> mont mc x X -> mont mc y Y ->
  exists r, monty_mul mc x y = Ok r /\ mont mc r (X * Y).
Proof.
  intros Hmc Hx Hy. unfold monty_mul, mp_make_sized. pose proof (mo_rw_pos _ Hmc).
  rewrite c_assert_true by (by apply Nat.ltb_lt). cbn [res_bind]. rewrite length_replicate.
  by apply monty_mul_into_spec.
Qed.

Lemma monty_identity_spec mc : monty_ok mc -> mont mc (monty_identity mc) 1.
Proof.
  intros Hmc. destruct (mo_powers _ Hmc 0) as (p & E & Hp & Hl & Hv); [lia|]. unfold monty_identity. rewrite E.
  change (default [] (Some p)) with p. pose proof (mo_m_bound _ Hmc). rewrite Z.add_0_l, Z.pow_1_r in Hv.
  split_and!; [done|done| |].
  - rewrite Hv. apply Z.mod_pos_bound. lia.
  - rewrite Hv, Z.mul_1_l. apply cong_mod.
Qed.

Lemma monty_import_spec mc x : monty_ok mc -> wordsOK x -> small_len x ->
  exists r, monty_import mc x = Ok r /\ mont mc r (val x).
Proof.
  intros Hmc Hx Lx. destruct (monty_identity_spec mc Hmc) as (Hi & Hli & Bi & Ci).
  pose proof (mo_m_bound _ Hmc). pose proof (mo_small _ Hmc) as Sm. pose proof (mo_rw _ Hmc) as Erw.
  unfold monty_import. destruct (mp_modmul_spec x (monty_identity mc) (mc_m mc)) as (r & E & Hl & Hr & Hv);
    [done|done|apply (mo_m _ Hmc)|done|unfold small_len in *; by rewrite Hli, Erw|done|lia|].
  exists r. split; [done|]. split_and!; [done|congruence| |].
  - rewrite Hv. apply Z.mod_pos_bound. lia.
  - rewrite Hv, (cong_mod (val (mc_m mc))), Ci. apply eq_cong. ring.
Qed.

(** Export takes a number in Montgomery form back to the one it represents. *)
Lemma monty_export_spec mc x X : monty_ok mc -> mont mc x X ->
  exists r, monty_export mc x = Ok r /\ wordsOK r /\ length r = mc_rw mc /\ val r = X mod val (mc_m mc).
Proof.
  intros Hmc (Hx & Hl & Bx & Cx). unfold monty_export, mp_make_sized, monty_export_into. pose proof (mo_rw_pos _ Hmc) as Hn.
  rewrite c_assert_true by (by apply Nat.ltb_lt). cbn [res_bind]. rewrite length_replicate.
  rewrite c_assert_true by (apply Nat.leb_le; lia).
  pose proof (mo_scratch _ Hmc) as Hs. rewrite (mo_pw _ Hmc) in Hs.
  unfold monty_scratch_size, mp_mul_scratchspace, mp_mul_scratchspace_unary, mul_inlen in Hs.
  pose proof (mo_m_bound _ Hmc) as Hm. pose proof (val_bound x Hx).
  destruct (monty_reduce_internal_spec mc x (mc_scratch mc)) as (t & -> & Ht & Bt & Ct); [done|done|lia|lia|nia|]. cbn [res_bind].
  destruct (val_copy_into (mc_rw mc) t Ht) as (Hl2 & Hok2 & Hv2).
  eexists. split; [done|]. split_and!; [done|done|]. rewrite Hv2, Z.mod_small by lia.
  apply cong_small; [lia|]. apply (monty_cancel mc); [done|]. by rewrite Ct, Cx.
Qed.

(** Addition and subtraction work on Montgomery forms as they are. *)
Lemma monty_add_spec mc x y X Y : monty_ok mc -> mont mc x X -> mont mc y Y ->
  exists r, monty_add mc x y = Ok r /\ mont mc r (X + Y).
Proof.
  intros Hmc (Hx & Hlx & Bx & Cx) (Hy & Hly & By & Cy). pose proof (mo_m_bound _ Hmc). pose proof (mo_rw _ Hmc) as Erw.
  destruct (mp_modadd_in_range_spec x y (mc_m mc)) as (r & E & Hl & Hr & Hv);
    [done|done|apply (mo_m _ Hmc)|apply (mo_small _ Hmc)|done|done|].
  exists r. split; [done|]. split_and!; [done|congruence|rewrite Hv; apply Z.mod_pos_bound; lia|].
  rewrite Hv, (cong_mod (val (mc_m mc))), Cx, Cy. apply eq_cong. ring.
Qed.

Lemma monty_sub_spec mc x y X Y : monty_ok mc -> mont mc x X -> mont mc y Y ->
  exists r, monty_sub mc x y = Ok r /\ mont mc r (X - Y).
Proof.
  intros Hmc (Hx & Hlx & Bx & Cx) (Hy & Hly & By & Cy). pose proof (mo_m_bound _ Hmc). pose proof (mo_rw _ Hmc) as Erw.
  destruct (mp_modsub_in_range_spec x y (mc_m mc)) as (r & E & Hl & Hr & Hv);
    [done|done|apply (mo_m _ Hmc)|apply (mo_small _ Hmc)|done|done|].
  exists r. split; [done|]. split_and!; [done|congruence|rewrite Hv; apply Z.mod_pos_bound; lia|].
  rewrite Hv, (cong_mod (val (mc_m mc))), Cx, Cy. apply eq_cong. ring.
Qed.

(** ** Exponentiation *)

Lemma mp_get_bit_spec x i : wordsOK x -> mp_get_bit x i = Z.b2z (Z.testbit (val x) (Z.of_nat i)).
Proof.
  intros Hx. unfold mp_get_bit. pose proof (Nat.div_mod_eq i 32). pose proof (Nat.mod_upper_bound i 32 ltac:(lia)).
  replace (Z.of_nat i) with (32 * Z.of_nat (i / 32) + Z.of_nat (i mod 32)) by lia.
  rewrite val_testbit by (done || lia). rewrite land_1_odd, <-Z.bit0_odd, Z.shiftr_spec, Z.add_0_l by lia.
  by destruct (Z.testbit _ _).
Qed.

(** The window read at bit [i] is [(val e / 2^i) mod 32]. *)
Lemma window_fold e i k : wordsOK e ->
  fold_left (fun t j => Z.lor t (Z.shiftl (mp_get_bit e (i + j)) (Z.of_nat j))) (seq 0 k) 0
  = (val e / 2 ^ Z.of_nat i) mod 2 ^ Z.of_nat k.
Proof.
  intros He. induction k as [|k IH].
  - by rewrite Z.mod_1_r.
  - rewrite seq_S, fold_left_app, IH. cbn [fold_left]. rewrite Nat.add_0_l, mp_get_bit_spec by done.
    rewrite lor_add by (try lia; apply Z.mod_pos_bound; lia).
    rewrite (mod_pow2_S (val e / _)) by (apply Z.div_pos; [by apply val_bound|lia]). rewrite Z.div_pow2_bits by lia.
    rewrite Nat2Z.inj_add, (Z.add_comm (Z.of_nat k)). lia.
Qed.

Lemma table_index_spec e i : wordsOK e -> table_index e i = (val e / 2 ^ Z.of_nat i) mod 32.
Proof. apply (window_fold e i 5). Qed.

(** The constant-time lookup selects the entry of the index. *)
Lemma not_this_one_odd idx j : 0 <= idx < 32 -> 0 <= j < 32 ->
  Z.odd (Z.shiftr (Z.lxor idx j + 32 - 1) 5) = negb (idx =? j).
Proof.
  intros Hi Hj. pose proof (lxor_bound 5 idx j ltac:(lia) Hi Hj) as Hx. rewrite Z.shiftr_div_pow2 by lia.
  destruct (Z.eqb_spec idx j) as [->|Hne].
  - by rewrite Z.lxor_nilpotent.
  - assert (Z.lxor idx j <> 0) by (by rewrite Z.lxor_eq_0_iff).
    replace ((Z.lxor idx j + 32 - 1) / 2 ^ 5) with 1; [done|]. apply Z.div_unique_pos with (Z.lxor idx j - 1); lia.
Qed.

Lemma table_select_fold (table : list mp_int) rw idx l : forall entry,
  Forall (fun x => wordsOK x /\ length x = rw) table -> length table = MODPOW_WINDOW_SIZE ->
  (idx < 32)%nat -> Forall (fun j => j < 32)%nat l -> wordsOK entry -> length entry = rw ->
  fold_left (fun entry j =>
      mp_select_into rw (default [] (table !! j)) entry
        (Z.shiftr (Z.lxor (Z.of_nat idx) (Z.of_nat j) + 32 - 1) 5)) l entry
  = if decide (idx ∈ l) then default [] (table !! idx) else entry.
Proof.
  induction l as [|j l IH]; intros entry Ht Hlt Hi Hl He Hle; [done|]. cbn [fold_left].
  apply Forall_cons in Hl as [Hj Hl].
  destruct (lookup_lt_is_Some_2 table j ltac:(rewrite Hlt; exact Hj)) as [x Hx].
  destruct (proj1 (Forall_lookup _ _) Ht j x Hx) as [Hxok Hxl].
  rewrite Hx. change (default [] (Some x)) with x. rewrite mp_select_into_eq by done. rewrite (not_this_one_odd (Z.of_nat idx) (Z.of_nat j)) by lia.
  assert (fill rw (mp_word (if negb (Z.of_nat idx =? Z.of_nat j) then entry else x))
    = if decide (idx = j) then x else entry) as ->.
  { destruct (decide (idx = j)) as [->|Hne].
    - rewrite Z.eqb_refl. cbn [negb]. rewrite <-Hxl. apply fill_words.
    - rewrite (proj2 (Z.eqb_neq _ _)) by lia. cbn [negb]. rewrite <-Hle. apply fill_words. }
  rewrite IH; [|done|done|done|done|destruct (decide (idx = j)); assumption|destruct (decide (idx = j)); assumption].
  destruct (decide (idx = j)) as [->|Hne].
  - rewrite (decide_True (P := j ∈ j :: l)) by set_solver. by destruct (decide _); rewrite ?Hx.
  - by destruct (decide (idx ∈ l)), (decide (idx ∈ j :: l)); set_solver.
Qed.

Lemma table_select_spec table rw idx entry :
  Forall (fun x => wordsOK x /\ length x = rw) table -> length table = MODPOW_WINDOW_SIZE ->
  table !! idx = Some entry -> table_select table rw (Z.of_nat idx) = entry.
Proof.
  intros Ht Hl He. unfold table_select. assert (idx < 32)%nat as Hi by (apply lookup_lt_Some in He; by rewrite Hl in He).
  destruct (lookup_lt_is_Some_2 table 0 ltac:(rewrite Hl; unfold MODPOW_WINDOW_SIZE; lia)) as [x0 Hx0].
  destruct (proj1 (Forall_lookup _ _) Ht 0%nat x0 Hx0) as [Hok0 Hl0].
  rewrite Hx0. change (default [] (Some x0)) with x0. replace (mp_copy_into rw x0) with x0 by (rewrite <-Hl0; symmetry; apply mp_copy_into_same).
  change (Z.of_nat MODPOW_LOG2_WINDOW_SIZE) with 5. rewrite table_select_fold; [|done..| |done|done].
  - rewrite He. destruct (decide _) as [|Hn]; [done|]. destruct idx as [|idx]; [congruence|].
    destruct Hn. apply elem_of_seq. unfold MODPOW_WINDOW_SIZE. lia.
  - apply Forall_seq. unfold MODPOW_WINDOW_SIZE. lia.
Qed.

Section Power.
Context (mc : MontyContext) (base e : mp_int) (A : Z).
Context (Hmc : monty_ok mc) (Hbase : mont mc base A) (He : wordsOK e).

Lemma pow_table_spec k : forall prev i, 0 <= i -> mont mc prev (A ^ i) ->
  exists l, pow_table mc base prev k = Ok l /\ length l = k /\
    forall j x, l !! j = Some x -> mont mc x (A ^ (i + 1 + Z.of_nat j)).
Proof.
  induction k as [|k IH]; intros prev i Hi Hp; cbn [pow_table].
  - exists []. split_and!; [done..|]. intros j x. by rewrite lookup_nil.
  - destruct (monty_mul_spec mc prev base _ _ Hmc Hp Hbase) as (next & -> & Hnext). cbn [res_bind].
    rewrite Z.mul_comm, <-Z.pow_succ_r, <-Z.add_1_r in Hnext by done.
    destruct (IH next (i + 1) ltac:(lia) Hnext) as (l & -> & Hl & Hx). cbn [res_bind].
    exists (next :: l). split_and!; [done|cbn; lia|]. intros [|j] x; cbn [lookup list_lookup].
    + intros [= <-]. by rewrite Z.add_0_r.
    + intros Hj. replace (i + 1 + Z.of_nat (S j)) with (i + 1 + 1 + Z.of_nat j) by lia. by apply Hx.
Qed.

(** The table holds the first 32 powers of the base. *)
Definition table_ok (table : list mp_int) : Prop :=
  length table = MODPOW_WINDOW_SIZE /\ forall j x, table !! j = Some x -> mont mc x (A ^ Z.of_nat j).

Lemma table_entry_spec table idx : table_ok table -> 0 <= idx < 32 ->
  mont mc (table_select table (mc_rw mc) idx) (A ^ idx).
Proof.
  intros [Hl Ht] Hi. destruct (lookup_lt_is_Some_2 table (Z.to_nat idx)) as [x Hx].
  { rewrite Hl. unfold MODPOW_WINDOW_SIZE. lia. }
  pose proof (Ht _ _ Hx) as Hm. rewrite Z2Nat.id in Hm by lia.
  replace (table_select table (mc_rw mc) idx) with x; [done|]. symmetry.
  rewrite <-(Z2Nat.id idx) by lia. apply table_select_spec; [|done|done].
  apply Forall_lookup. intros j y Hy. destruct (Ht j y Hy) as (? & ? & _). done.
Qed.

Lemma monty_square_times_spec k : forall out X, mont mc out X ->
  exists r, monty_square_times mc k out = Ok r /\ mont mc r (X ^ 2 ^ Z.of_nat k).
Proof.
  induction k as [|k IH]; intros out X Ho; cbn [monty_square_times].
  - exists out. split; [done|]. by rewrite Z.pow_1_r.
  - assert (length out = mc_rw mc) as -> by apply Ho.
    destruct (monty_mul_into_spec mc out out X X Hmc Ho Ho) as (r & -> & Hr). cbn [res_bind].
    destruct (IH r _ Hr) as (r' & -> & Hr'). exists r'. split; [done|].
    rewrite Nat2Z.inj_succ, Z.pow_succ_r, Z.pow_mul_r, Z.pow_2_r by lia. done.
Qed.

(** The exponent from bit [5 c] up. *)
Definition prefix (c : nat) : Z := val e / 2 ^ (5 * Z.of_nat c).

Lemma prefix_S c : prefix c = 32 * prefix (S c) + table_index e (c * MODPOW_LOG2_WINDOW_SIZE).
Proof.
  rewrite table_index_spec by done. unfold prefix, MODPOW_LOG2_WINDOW_SIZE.
  replace (Z.of_nat (c * 5)) with (5 * Z.of_nat c) by lia.
  replace (5 * Z.of_nat (S c)) with (5 * Z.of_nat c + 5) by lia.
  rewrite Z.pow_add_r, <-Z.div_div by lia. apply Z.div_mod. lia.
Qed.

Lemma prefix_nonneg c : 0 <= prefix c.
Proof. apply Z.div_pos; [by apply val_bound|lia]. Qed.

Lemma table_index_range i : 0 <= table_index e i < 32.
Proof. rewrite table_index_spec by done. apply Z.mod_pos_bound. lia. Qed.

(** What multiplying in (or, the first time, copying) a table entry gives. *)
Lemma pow_step table c (first : bool) out : table_ok table -> length out = mc_rw mc ->
  (if first then prefix (S c) = 0 else mont mc out (A ^ (32 * prefix (S c)))) ->
  let entry := table_select table (mc_rw mc) (table_index e (c * MODPOW_LOG2_WINDOW_SIZE)) in
  exists r, (if first then Ok (mp_copy_into (length out) entry) else monty_mul_into mc (length out) out entry) = Ok r /\
    mont mc r (A ^ prefix c).
Proof.
  intros Ht Hl Hinv entry. pose proof (table_entry_spec table _ Ht (table_index_range (c * MODPOW_LOG2_WINDOW_SIZE))) as Hent.
  fold entry in Hent. pose proof (prefix_nonneg (S c)). pose proof (table_index_range (c * MODPOW_LOG2_WINDOW_SIZE)).
  rewrite Hl, prefix_S. destruct first.
  - assert (mp_copy_into (mc_rw mc) entry = entry) as ->.
    { destruct Hent as (_ & <- & _). apply mp_copy_into_same. }
    exists entry. by rewrite Hinv.
  - rewrite Z.pow_add_r by lia. by apply monty_mul_into_spec.
Qed.

Lemma monty_pow_loop_spec table : table_ok table -> forall c (first : bool) out,
  length out = mc_rw mc ->
  (if first then prefix (S c) = 0 else mont mc out (A ^ (32 * prefix (S c)))) ->
  exists r, monty_pow_loop mc table e c first out = Ok r /\ mont mc r (A ^ val e).
Proof.
  intros Ht. induction c as [|c IH]; intros first out Hl Hinv; cbn [monty_pow_loop];
    destruct (pow_step table _ first out Ht Hl Hinv) as (o & -> & Ho); cbn [res_bind].
  - exists o. split; [done|]. unfold prefix in Ho. by rewrite Z.div_1_r in Ho.
  - destruct (monty_square_times_spec MODPOW_LOG2_WINDOW_SIZE o _ Ho) as (r & -> & Hr). cbn [res_bind].
    apply IH; [apply Hr|]. rewrite <-Z.pow_mul_r, Z.mul_comm in Hr by (apply prefix_nonneg || lia). done.
Qed.

Lemma monty_pow_spec : (0 < length e)%nat -> exists r, monty_pow mc base e = Ok r /\ mont mc r (A ^ val e).
Proof.
  intros Hle. unfold monty_pow. pose proof (monty_identity_spec mc Hmc) as Hid. pose proof (mo_rw_pos _ Hmc) as Hrw.
  assert (length (monty_identity mc) = mc_rw mc) as Hlid by apply Hid.
  rewrite mp_copy_spec by lia. cbn [res_bind].
  destruct (pow_table_spec (MODPOW_WINDOW_SIZE - 1) _ 0 ltac:(lia) Hid) as (l & -> & Hl & Hx). cbn [res_bind].
  unfold mp_make_sized. rewrite c_assert_true by (by apply Nat.ltb_lt). cbn [res_bind]. rewrite length_replicate.
  apply monty_pow_loop_spec.
  - split; [cbn [length]; by rewrite Hl|]. intros [|j] x; cbn [lookup list_lookup]; [by intros [= <-]|]. intros Hj.
    rewrite Nat2Z.inj_succ, <-Z.add_1_l. by apply (Hx j).
  - apply (val_copy_into (mc_rw mc)), Hid.
  - unfold prefix. apply Z.div_small. pose proof (val_bound e He) as Hv. split; [lia|].
    eapply Z.lt_le_trans; [apply Hv|]. apply Z.pow_le_mono_r; [lia|].
    pose proof (Nat.div_mod_eq (length e * 32 - 1) MODPOW_LOG2_WINDOW_SIZE) as Hd.
    pose proof (Nat.mod_upper_bound (length e * 32 - 1) MODPOW_LOG2_WINDOW_SIZE ltac:(done)).
    unfold MODPOW_LOG2_WINDOW_SIZE in *. lia.
Qed.
End Power.

Lemma mp_word_0_odd m : wordsOK m -> Z.land (mp_word m 0) 1 = Z.b2z (Z.odd (val m)).
Proof.
  intros Hm. rewrite Z.land_comm, land_1_odd. rewrite <-!Z.bit0_odd. rewrite <-(val_testbit m 0 0) by (done || lia).
  by destruct (Z.testbit (val m) _).
Qed.

Lemma mp_modpow_spec base e m : wordsOK base -> wordsOK e -> wordsOK m ->
  small_len base -> (0 < length e)%nat -> small_len m -> Z.odd (val m) = true ->
  exists r, mp_modpow base e m = Ok r /\ length r = length m /\ wordsOK r /\
    val r = (val base ^ val e) mod val m.
Proof.
  intros Hb He Hm Lb Le Lm Ho. unfold mp_modpow. rewrite c_assert_true by (apply Nat.ltb_lt, Lm).
  rewrite c_assert_true by (by rewrite mp_word_0_odd, Ho).
  destruct (monty_new_ok m Hm Lm Ho) as (mc & -> & Hmc & Em). cbn [res_bind].
  destruct (monty_import_spec mc base Hmc Hb Lb) as (mb & -> & Hmb). cbn [res_bind].
  destruct (monty_pow_spec mc mb e _ Hmc Hmb He Le) as (mo & -> & Hmo). cbn [res_bind].
  destruct (monty_export_spec mc mo _ Hmc Hmo) as (r & -> & Hr & Hl & Hv). rewrite Em in Hv.
  exists r. split_and!; [done| |done|done]. by rewrite Hl, (mo_rw _ Hmc), Em.
Qed.

(** With an even modulus the assertion fires. *)
Lemma mp_modpow_even base e m : wordsOK m -> Z.odd (val m) = false -> mp_modpow base e m = Crash AssertionFailed.
Proof.
  intros Hm Ho. unfold mp_modpow. destruct (0 <? length m)%nat; [|done]. cbn [c_assert].
  by rewrite mp_word_0_odd, Ho.
Qed.
