(* ===== verification/MpintGcd.v ===== *)
(** * Multiprecision integers: greatest common divisors and inverses
    ([libs/putty/crypto/mpint.c], [mp_bezout_into] to [mp_coprime],
    [monty_invert]) *)

From S2P Require Import Prelude MpintCore MpintArith MpintMul MpintShift MpintConv MpintMonty.

Local Open Scope Z_scope.
Local Open Scope cmodel_scope.

(** ** The adapted binary algorithm *)

(** One round of the reduction: the numbers afterwards, [both_odd] and [swap]. *)
Definition bezout_reduce_step (a b : mp_int) : res (mp_int * mp_int * Z * Z) :=
  let swap_if_both_odd := mp_cmp_hs b a in
  let swap_if_one_even := Z.land (mp_word a 0) 1 in
  let both_odd := Z.land (Z.land (mp_word a 0) (mp_word b 0)) 1 in
  let swap := Z.lxor swap_if_one_even (Z.land (Z.lxor swap_if_both_odd swap_if_one_even) both_odd) in
  let! (a, b) := mp_cond_swap a b swap in
  let a := mp_cond_sub_into (length a) a b both_odd in
  let a := mp_rshift_fixed_into (length a) a 1 in
  Ok (a, b, both_odd, swap).

(** The reduction loop from round [step] on, for [k] rounds. *)
Fixpoint bezout_reduce (k step : nat) (a b record : mp_int) : res (mp_int * mp_int * mp_int) :=
  match k with
  | O => Ok (a, b, record)
  | S k =>
      let! (a, b, both_odd, swap) := bezout_reduce_step a b in
      let! record := mp_set_bit record (step * 2) both_odd in
      let! record := mp_set_bit record (step * 2 + 1) swap in
      bezout_reduce k (S step) a b record
  end.

(** The registers of the unwinding loop. *)
Record bezout_state := Bezout { bz_a : mp_int; bz_b : mp_int; bz_ac : mp_int; bz_bc : mp_int; bz_minus_d : Z }.

Definition bezout_unwind_step (both_odd swap : Z) (st : bezout_state) : res bezout_state :=
  let '(Bezout a b ac bc minus_d) := st in
  let adjust := Z.land (mp_word ac 0) 1 in
  let ac := mp_cond_add_into (length ac) ac b adjust in
  let bc := mp_cond_add_into (length bc) bc a adjust in
  let ac := mp_rshift_fixed_into (length ac) ac 1 in
  let bc := mp_cond_add_into (length bc) bc ac both_odd in
  let a := mp_lshift_fixed_into (length a) a 1 in
  let a := mp_cond_add_into (length a) a b both_odd in
  let! (a, b) := mp_cond_swap a b swap in
  let! (ac, bc) := mp_cond_swap ac bc swap in
  Ok (Bezout a b ac bc (Z.lxor minus_d swap)).

(** [for (step = steps; step-- > 0 ;)] *)
Fixpoint bezout_unwind (record : mp_int) (step : nat) (st : bezout_state) : res bezout_state :=
  match step with
  | O => Ok st
  | S step =>
      let both_odd := mp_get_bit record (step * 2) in
      let swap := mp_get_bit record (step * 2 + 1) in
      let! st := bezout_unwind_step both_odd swap st in
      bezout_unwind record step st
  end.

(** What [mp_bezout_into] does once it has reduced the numbers: the two
    coefficients. *)
Definition bezout_coefficients (nw steps : nat) (a b record : mp_int) : res (mp_int * mp_int) :=
  let! ac := mp_make_sized (nw + 1) in
  let! bc := mp_make_sized (nw + 1) in
  let ac := <[0%nat := mp_get_bit a 0]> ac in
  let bc := <[0%nat := mp_get_bit b 0]> bc in
  let a := mp_copy_into (length a) ac in
  let b := mp_copy_into (length b) bc in
  let! st := bezout_unwind record steps (Bezout a b ac bc (mp_word b 0)) in
  let '(Bezout a b ac bc minus_d) := st in
  let tmp := mp_sub_into nw b ac in
  let ac := mp_select_into (length ac) ac tmp minus_d in
  let tmp := mp_sub_into nw a bc in
  let bc := mp_select_into (length bc) bc tmp minus_d in
  Ok (ac, bc).

(** [mp_bezout_into]: each output is wanted when the size of its destination
    is given, and absent when the pointer is [NULL]. *)
Definition mp_bezout_into (a_coeff_out b_coeff_out gcd_out : option nat) (a_in b_in : mp_int)
    : res (option mp_int * option mp_int * option mp_int) :=
  let nw := (1 `max` (length a_in `max` length b_in))%nat in
  let a := mp_copy_into nw a_in in
  let b := mp_copy_into nw b_in in
  let steps := (2 * nw * 32)%nat in
  let! record := mp_make_sized ((steps * 2 + 32 - 1) / 32) in
  let! (a, b, record) := bezout_reduce steps 0 a b record in
  let gcd := (fun ng => mp_add_into ng a b) <$> gcd_out in
  match a_coeff_out, b_coeff_out with
  | None, None => Ok (None, None, gcd)
  | _, _ =>
      let! (ac, bc) := bezout_coefficients nw steps a b record in
      Ok ((fun na => mp_copy_into na ac) <$> a_coeff_out, (fun nb => mp_copy_into nb bc) <$> b_coeff_out, gcd)
  end.

Definition mp_invert (x m : mp_int) : res mp_int :=
  let! result := mp_make_sized (length m) in
  let! (a_coeff, _, _) := mp_bezout_into (Some (length result)) None None x m in
  Ok (default result a_coeff).

(** [tmp->w[i] &= negw] over the whole of [tmp]. *)
Fixpoint isolate_low_bit (tmp : mp_int) (carry : Z) : mp_int :=
  match tmp with
  | [] => []
  | w :: tmp =>
      let '(negw, carry) := BignumADC 0 (w32 (Z.lnot w)) carry in
      Z.land w negw :: isolate_low_bit tmp carry
  end.

(** [shift] wraps to the largest [size_t] when both numbers are zero. *)
Definition mp_gcd_into (a b : mp_int) (gcd A B : option nat) : res (option mp_int * option mp_int * option mp_int) :=
  let! tmp := mp_make_sized (length a `max` length b) in
  let tmp := fill (length tmp) (fun i => Z.lor (mp_word a i) (mp_word b i)) in
  let tmp := isolate_low_bit tmp 1 in
  let shift := Z.to_nat (w64 (mp_get_nbits tmp - 1)) in
  let! as_ := mp_rshift_safe a shift in
  let! bs := mp_rshift_safe b shift in
  let! (ra, rb, rg) := mp_bezout_into A B gcd as_ bs in
  Ok (ra, rb, (fun g => mp_lshift_safe_in_place g shift) <$> rg).

Definition mp_gcd (a b : mp_int) : res mp_int :=
  let! gcd := mp_make_sized (length a `min` length b) in
  let! (_, _, g) := mp_gcd_into a b (Some (length gcd)) None None in
  Ok (default gcd g).

Definition mp_coprime (a b : mp_int) : res Z :=
  let! gcd := mp_gcd a b in
  Ok (mp_eq_integer gcd 1).

Definition monty_invert (mc : MontyContext) (x : mp_int) : res mp_int :=
  let! tmp := mp_invert x (mc_m mc) in
  monty_mul mc tmp (default [] (mc_powers_of_r_mod_m mc !! 2%nat)).

(** ** The same reduction on integers *)

Definition both_odd_of (p : Z * Z) : bool := Z.odd p.1 && Z.odd p.2.
Definition swap_of (p : Z * Z) : bool := if both_odd_of p then p.1 <=? p.2 else Z.odd p.1.
Definition swap_pair {A} (swap : bool) (p : A * A) : A * A := if swap then (p.2, p.1) else p.

Definition zstep (p : Z * Z) : Z * Z :=
  let q := swap_pair (swap_of p) p in
  ((q.1 - (if both_odd_of p then q.2 else 0)) / 2, q.2).

(** Undoing a step, from the two recorded bits. *)
Definition zunstep (both_odd swap : bool) (p : Z * Z) : Z * Z :=
  swap_pair swap (2 * p.1 + (if both_odd then p.2 else 0), p.2).

(** Not both even, and non-negative. *)
Definition reducible (p : Z * Z) : Prop := 0 <= p.1 /\ 0 <= p.2 /\ Z.odd p.1 || Z.odd p.2 = true.

Lemma even_half x : Z.odd x = false -> 2 * (x / 2) = x.
Proof. intros H. pose proof (Z.div_mod x 2 ltac:(lia)) as E. rewrite Zmod_odd, H in E. lia. Qed.

(** The shape of a step: the other number is odd, and the first is twice the
    new one, plus the other if both were odd. *)
Lemma zstep_shape p : reducible p ->
  let q := zstep p in
  Z.odd q.2 = true /\ 0 <= q.1 /\ 0 < q.2 /\ p = zunstep (both_odd_of p) (swap_of p) q.
Proof.
  destruct p as [a b]. intros (Ha & Hb & Hodd). cbn [fst snd] in *.
  unfold zstep, zunstep, swap_of, both_odd_of, swap_pair. cbn [fst snd].
  destruct (Z.odd a) eqn:Oa, (Z.odd b) eqn:Ob; try discriminate; cbn [andb fst snd].
  - assert (Z.odd (b - a) = false) as O1 by (by rewrite Z.odd_sub, Oa, Ob).
    assert (Z.odd (a - b) = false) as O2 by (by rewrite Z.odd_sub, Oa, Ob).
    assert (a <> 0) by (by intros ->). assert (b <> 0) by (by intros ->).
    destruct (Z.leb_spec a b); cbn [fst snd]; split_and!; try done; try lia.
    all: try (apply Z.div_pos; lia). all: rewrite even_half by done; f_equal; lia.
  - assert (a <> 0) by (by intros ->). rewrite Z.sub_0_r, even_half by done.
    split_and!; [done|apply Z.div_pos; lia|lia|f_equal; lia].
  - assert (b <> 0) by (by intros ->). rewrite Z.sub_0_r, even_half by done.
    split_and!; [done|apply Z.div_pos; lia|lia|f_equal; lia].
Qed.

Lemma odd_coprime_2 q b : Z.odd b = true -> (q | b) -> Z.gcd q 2 = 1.
Proof.
  intros Hb Hq. pose proof (Z.gcd_nonneg q 2). pose proof (Z.gcd_divide_r q 2) as H2.
  assert (Z.gcd q 2 <= 2) by (apply Z.divide_pos_le; [lia|done]).
  assert (Z.gcd q 2 <> 0) by (intros E; apply Z.gcd_eq_0 in E; lia).
  destruct (Z.eq_dec (Z.gcd q 2) 2) as [E|]; [|lia].
  assert (2 | b) as [c Hc] by (rewrite <-E; etransitivity; [apply Z.gcd_divide_l|done]).
  rewrite Hc, Z.odd_mul, andb_false_r in Hb. done.
Qed.

Lemma gcd_double a b : Z.odd b = true -> Z.gcd (2 * a) b = Z.gcd a b.
Proof.
  intros Hb. apply Z.gcd_unique; [apply Z.gcd_nonneg|apply Z.divide_mul_r, Z.gcd_divide_l|apply Z.gcd_divide_r|].
  intros q Hq Hqb. apply Z.gcd_greatest; [|done]. apply Z.gauss with 2; [done|]. by apply odd_coprime_2 with b.
Qed.

Lemma zstep_gcd p : reducible p -> Z.gcd (zstep p).1 (zstep p).2 = Z.gcd p.1 p.2.
Proof.
  intros Hp. destruct (zstep_shape p Hp) as (Ho & _ & _ & E). set (q := zstep p) in *. clearbody q.
  rewrite E. destruct q as [a b]. cbn [fst snd] in *. unfold zunstep, swap_pair. cbn [fst snd].
  rewrite <-gcd_double by done.
  destruct (swap_of p), (both_odd_of p); cbn [fst snd]; rewrite ?Z.add_0_r, ?(Z.gcd_comm b); try done.
  all: rewrite (Z.gcd_comm (2 * a + b)), Z.gcd_add_diag_r; apply Z.gcd_comm.
Qed.

(** *** Termination: the measure of the source's comment, with sizes in bits *)

Lemma bitlen_pow2 s : 0 <= s -> bitlen (2 ^ s) = s + 1.
Proof. intros Hs. unfold bitlen. rewrite (proj2 (Z.eqb_neq _ _)) by lia. by rewrite Z.log2_pow2. Qed.

Lemma size_double x : 0 < x -> bitlen (2 * x) = bitlen x + 1.
Proof.
  intros H. unfold bitlen. rewrite !(proj2 (Z.eqb_neq _ _)) by lia. rewrite Z.log2_double by done. lia.
Qed.

Lemma size_mono x y : 0 <= x <= y -> bitlen x <= bitlen y.
Proof.
  intros H. unfold bitlen. destruct (Z.eqb_spec x 0), (Z.eqb_spec y 0); try lia.
  - pose proof (Z.log2_nonneg y). lia.
  - pose proof (Z.log2_le_mono x y). lia.
Qed.

Lemma size_pos x : 0 < x -> 0 < bitlen x.
Proof. intros H. unfold bitlen. rewrite (proj2 (Z.eqb_neq _ _)) by lia. pose proof (Z.log2_nonneg x). lia. Qed.

Lemma size_bound x n : 0 <= n -> 0 <= x < 2 ^ n -> bitlen x <= n.
Proof.
  intros Hn Hx. unfold bitlen. destruct (Z.eqb_spec x 0); [done|].
  assert (Z.log2 x < n) by (apply Z.log2_lt_pow2; lia). lia.
Qed.

Lemma zstep_size p : reducible p ->
  (zstep p).1 = 0 \/ bitlen (zstep p).1 + bitlen (zstep p).2 <= bitlen p.1 + bitlen p.2 - 1.
Proof.
  intros Hp. destruct (zstep_shape p Hp) as (Ho & Hq1 & Hq2 & E). set (q := zstep p) in *. clearbody q.
  destruct (Z.eq_dec q.1 0) as [|Hne]; [by left|right]. rewrite E. destruct q as [a b]. cbn [fst snd] in *.
  pose proof (size_double a ltac:(lia)). pose proof (size_mono (2 * a) (2 * a + b) ltac:(lia)).
  unfold zunstep, swap_pair. destruct (swap_of p), (both_odd_of p); cbn [fst snd]; rewrite ?Z.add_0_r; lia.
Qed.

Lemma zstep_reducible p : reducible p -> reducible (zstep p).
Proof.
  intros Hp. destruct (zstep_shape p Hp) as (Ho & Hq1 & Hq2 & _). split_and!; [done|lia|]. by rewrite Ho, orb_true_r.
Qed.

(** Once the even number is zero it stays so. *)
Lemma zstep_zero p : reducible p -> p.1 = 0 -> (zstep p).1 = 0.
Proof.
  destruct p as [a b]. intros Hp E. cbn [fst snd] in *. subst a. unfold zstep, swap_of, both_odd_of, swap_pair. cbn.
  done.
Qed.

Definition zrun (n : nat) (p : Z * Z) : Z * Z := Nat.iter n zstep p.

Lemma zrun_S n p : zrun (S n) p = zstep (zrun n p).
Proof. done. Qed.

Lemma zrun_reducible n p : reducible p -> reducible (zrun n p).
Proof. intros Hp. induction n as [|n IH]; [done|]. rewrite zrun_S. by apply zstep_reducible. Qed.

Lemma zrun_gcd n p : reducible p -> Z.gcd (zrun n p).1 (zrun n p).2 = Z.gcd p.1 p.2.
Proof.
  intros Hp. induction n as [|n IH]; [done|]. rewrite zrun_S.
  by rewrite zstep_gcd by (by apply zrun_reducible).
Qed.

Lemma zrun_size n p : reducible p ->
  (zrun n p).1 = 0 \/ bitlen (zrun n p).1 + bitlen (zrun n p).2 <= bitlen p.1 + bitlen p.2 - Z.of_nat n.
Proof.
  intros Hp. induction n as [|n IH]; [right; cbn; lia|]. pose proof (zrun_reducible n p Hp) as Hr.
  rewrite zrun_S. destruct IH as [IH|IH].
  - left. by apply zstep_zero.
  - destruct (zstep_size _ Hr); [by left|right; lia].
Qed.

(** The numbers never grow. *)
Lemma zrun_bound n p : reducible p -> forall m, p.1 < m -> p.2 < m -> (zrun n p).1 < m /\ (zrun n p).2 < m.
Proof.
  intros Hp m H1 H2. induction n as [|n IH]; [done|]. rewrite zrun_S.
  destruct (zstep_shape (zrun n p) (zrun_reducible n p Hp)) as (_ & Hq1 & Hq2 & E).
  rewrite E in IH. revert IH. generalize (zstep (zrun n p)) Hq1 Hq2. intros [a b]. unfold zunstep, swap_pair.
  destruct (swap_of _), (both_odd_of _); cbn [fst snd]; lia.
Qed.

(** [2n] steps are enough for numbers of [n] bits. *)
Lemma zrun_end n p (k : nat) : reducible p -> p.1 < 2 ^ n -> p.2 < 2 ^ n -> 0 <= n -> 2 * n <= Z.of_nat k -> (0 < k)%nat ->
  zrun k p = (0, Z.gcd p.1 p.2).
Proof.
  intros Hp H1 H2 Hn Hk Hk0. pose proof (zrun_gcd k p Hp) as Hg. pose proof (zrun_reducible k p Hp) as (Hr1 & Hr2 & _).
  assert (0 < (zrun k p).2) as Hpos.
  { destruct k as [|k]; [lia|]. apply (zstep_shape (zrun k p)). by apply zrun_reducible. }
  destruct Hp as (Hp1 & Hp2 & Ho).
  assert ((zrun k p).1 = 0) as E1.
  { destruct (zrun_size k p) as [|Hs]; [by split_and!|done|]. pose proof (size_bound p.1 n Hn ltac:(lia)).
    pose proof (size_bound p.2 n Hn ltac:(lia)). pose proof (size_pos _ Hpos).
    pose proof (size_mono 0 (zrun k p).1 ltac:(lia)) as Hs0. change (bitlen 0) with 0 in Hs0. lia. }
  rewrite E1, Z.gcd_0_l, Z.abs_eq in Hg by lia. rewrite <-Hg, <-E1. by destruct (zrun k p).
Qed.

(** ** The record *)

Lemma mp_word_insert x k v i : (k < length x)%nat -> mp_word (<[k := v]> x) i = if decide (i = k) then v else mp_word x i.
Proof.
  intros Hk. unfold mp_word. destruct (decide (i = k)) as [->|Hne].
  - by rewrite list_lookup_insert_eq.
  - by rewrite list_lookup_insert_ne.
Qed.

(** Clearing and setting bit [s] of a word. *)
Lemma set_bit_word w s k v : is_word w -> 0 <= s < 32 -> 0 <= k < 32 ->
  Z.testbit (Z.lor (Z.land w (w32 (Z.lnot (Z.shiftl 1 s)))) (w32 (Z.shiftl (Z.land v 1) s))) k
  = if k =? s then Z.odd v else Z.testbit w k.
Proof.
  intros Hw Hs Hk. unfold w32. rewrite Z.lor_spec, Z.land_spec, !Z.mod_pow2_bits_low by lia.
  rewrite Z.lnot_spec, !Z.shiftl_spec, Z.land_comm, land_1_odd by lia.
  destruct (Z.eqb_spec k s) as [->|Hne].
  - rewrite Z.sub_diag. cbn. rewrite andb_false_r. by destruct (Z.odd v).
  - assert (forall b : bool, Z.testbit (if b then 1 else 0) (k - s) = false) as Hz.
    { intros []; [|apply Z.bits_0]. destruct (Z.lt_ge_cases k s); [by apply Z.testbit_neg_r; lia|].
      apply (Z.bits_above_log2 1); [lia|cbn; lia]. }
    rewrite Hz, (Hz true). by rewrite orb_false_r, andb_true_r.
Qed.

Lemma mp_get_bit_word x i : mp_get_bit x i = Z.b2z (Z.testbit (mp_word x (i / 32)) (Z.of_nat (i mod 32))).
Proof.
  unfold mp_get_bit. rewrite land_1_odd, <-Z.bit0_odd, Z.shiftr_spec, Z.add_0_l by lia. by destruct (Z.testbit _ _).
Qed.

Lemma mp_set_bit_spec x i v : wordsOK x -> (i < 32 * length x)%nat ->
  exists x', mp_set_bit x i v = Ok x' /\ wordsOK x' /\ length x' = length x /\
    forall j, mp_get_bit x' j = if decide (j = i) then Z.b2z (Z.odd v) else mp_get_bit x j.
Proof.
  intros Hx Hi. unfold mp_set_bit. assert (i / 32 < length x)%nat as Hw by (apply Nat.Div0.div_lt_upper_bound; lia).
  rewrite c_assert_true by (by apply Nat.ltb_lt). eexists. split; [done|]. cbn zeta.
  pose proof (Nat.mod_upper_bound i 32 ltac:(lia)) as Hm.
  split_and!.
  - apply wordsOK_insert; [done|]. apply is_word_lor; [|apply w32_range]. by apply is_word_land, mp_word_range.
  - apply length_insert.
  - intros j. pose proof (Nat.mod_upper_bound j 32 ltac:(lia)) as Hmj. rewrite !mp_get_bit_word.
    rewrite mp_word_insert by done. destruct (decide (j / 32 = i / 32)%nat) as [E|Hne].
    + rewrite set_bit_word by (try lia; by apply mp_word_range).
      destruct (decide (j = i)) as [->|Hji]; [by rewrite Z.eqb_refl|].
      rewrite (proj2 (Z.eqb_neq _ _)); [by rewrite E|]. intros E2.
      apply Hji. rewrite (Nat.div_mod_eq j 32), (Nat.div_mod_eq i 32). lia.
    + destruct (decide (j = i)) as [->|]; [done|]. done.
Qed.

(** ** The loops on multiprecision numbers *)

Lemma b2z_lor_land (so oe bo : bool) :
  Z.lxor (Z.b2z oe) (Z.land (Z.lxor (Z.b2z so) (Z.b2z oe)) (Z.b2z bo)) = Z.b2z (if bo then so else oe).
Proof. by destruct so, oe, bo. Qed.

Lemma low_bits_land a b : wordsOK a -> wordsOK b ->
  Z.land (Z.land (mp_word a 0) (mp_word b 0)) 1 = Z.b2z (Z.odd (val a) && Z.odd (val b)).
Proof.
  intros Ha Hb. rewrite Z.land_comm, land_1_odd, <-Z.bit0_odd, Z.land_spec.
  rewrite <-(val_testbit a 0 0), <-(val_testbit b 0 0) by (done || lia). cbn [Z.of_nat Z.mul Z.add].
  rewrite !Z.bit0_odd. by destruct (Z.odd (val a)), (Z.odd (val b)).
Qed.

(** Two registers of [nw] words. *)
Definition regs (nw : nat) (a b : mp_int) (p : Z * Z) : Prop :=
  wordsOK a /\ wordsOK b /\ length a = nw /\ length b = nw /\ p = (val a, val b).

Lemma bezout_reduce_step_spec nw a b p : regs nw a b p -> reducible p ->
  exists a' b', bezout_reduce_step a b = Ok (a', b', Z.b2z (both_odd_of p), Z.b2z (swap_of p)) /\ regs nw a' b' (zstep p).
Proof.
  intros (Ha & Hb & Hla & Hlb & ->) Hr. unfold bezout_reduce_step.
  rewrite mp_cmp_hs_spec by done. rewrite mp_word_0_odd, low_bits_land by done.
  replace (if val a <=? val b then 1 else 0) with (Z.b2z (val a <=? val b)) by (by destruct (val a <=? val b)).
  rewrite b2z_lor_land. change (Z.odd (val a) && Z.odd (val b)) with (both_odd_of (val a, val b)).
  change (if both_odd_of (val a, val b) then val a <=? val b else Z.odd (val a)) with (swap_of (val a, val b)).
  rewrite mp_cond_swap_eq by congruence. rewrite odd_b2z. cbn [res_bind].
  set (sw := swap_of _). set (bo := both_odd_of _).
  destruct (zstep_shape _ Hr) as (_ & Hq1 & _ & _). unfold zstep in Hq1. fold sw bo in Hq1.
  assert (exists a1 b1, (if sw then (b, a) else (a, b)) = (a1, b1) /\ regs nw a1 b1 (swap_pair sw (val a, val b))) as (a1 & b1 & -> & H1).
  { unfold swap_pair. destruct sw; eexists _, _; (split; [done|]); by split_and!. }
  destruct H1 as (Ha1 & Hb1 & Hla1 & Hlb1 & E1). rewrite E1 in Hq1. cbn [fst snd] in Hq1.
  destruct (mp_cond_sub_into_spec (length a1) a1 b1 (Z.b2z bo) Ha1 Hb1) as (Hl2 & Hok2 & Hv2).
  set (a2 := mp_cond_sub_into _ _ _ _) in *. rewrite odd_b2z in Hv2.
  destruct (mp_rshift_fixed_into_spec (length a2) a2 1 Hok2) as (Hl3 & Hok3 & Hv3).
  eexists _, _. split; [done|]. split_and!; [done|done|lia|done|].
  unfold zstep. fold sw bo. rewrite E1. cbn [fst snd]. f_equal.
  pose proof (val_bound a1 Ha1) as Hba. pose proof (val_bound b1 Hb1).
  set (diff := val a1 - (if bo then val b1 else 0)) in *.
  assert (0 <= diff) by (pose proof (Z.div_mod diff 2 ltac:(lia)); pose proof (Z.mod_pos_bound diff 2 ltac:(lia)); lia).
  assert (diff <= val a1) by (unfold diff; destruct bo; lia).
  rewrite Hv3, Hv2, Hl2. fold diff. rewrite (Z.mod_small diff) by lia. change (2 ^ Z.of_nat 1) with 2.
  rewrite Z.mod_small; [done|]. split; [apply Z.div_pos; lia|]. apply Z.div_lt_upper_bound; lia.
Qed.

(** The bits recorded for the rounds before [n]. *)
Definition recorded (p : Z * Z) (n : nat) (record : mp_int) : Prop :=
  forall i, (i < n)%nat ->
    mp_get_bit record (i * 2) = Z.b2z (both_odd_of (zrun i p)) /\
    mp_get_bit record (i * 2 + 1) = Z.b2z (swap_of (zrun i p)).

Lemma bezout_reduce_spec nw p k : reducible p -> forall step a b record,
  regs nw a b (zrun step p) -> recorded p step record -> wordsOK record -> (2 * (step + k) <= 32 * length record)%nat ->
  exists a' b' record', bezout_reduce k step a b record = Ok (a', b', record') /\
    regs nw a' b' (zrun (step + k) p) /\ recorded p (step + k) record'.
Proof.
  intros Hp. induction k as [|k IH]; intros step a b record Hregs Hrec Hok Hl; cbn [bezout_reduce].
  - exists a, b, record. by rewrite Nat.add_0_r.
  - destruct (bezout_reduce_step_spec nw a b _ Hregs (zrun_reducible step p Hp)) as (a' & b' & -> & Hregs'). cbn [res_bind].
    destruct (mp_set_bit_spec record (step * 2) (Z.b2z (both_odd_of (zrun step p))) Hok ltac:(lia)) as (r1 & -> & Hok1 & Hl1 & Hb1).
    cbn [res_bind].
    destruct (mp_set_bit_spec r1 (step * 2 + 1) (Z.b2z (swap_of (zrun step p))) Hok1 ltac:(lia)) as (r2 & -> & Hok2 & Hl2 & Hb2).
    cbn [res_bind]. rewrite <-Nat.add_succ_comm. apply IH; [done| |done|lia].
    intros i Hi. rewrite !Hb2, !Hb1. rewrite !odd_b2z.
    destruct (decide (i = step)) as [->|Hne].
    + rewrite (decide_False (P := step * 2 = step * 2 + 1)%nat), !decide_True by lia. done.
    + rewrite !decide_False by lia. apply Hrec. lia.
Qed.

(** ** Unwinding: the coefficients *)

(** [u a - v b] is [1], or [-1] when [s] is set; and the coefficients are
    bounded by the numbers, unless one of these is zero. *)
Definition coeffs (a b u v : Z) (s : bool) : Prop :=
  (if s then v * b - u * a = 1 else u * a - v * b = 1) /\
  ((0 <= u <= b /\ 0 <= v <= a) \/ (a = 0 /\ b = 1 /\ u = 0 /\ v = 1) \/ (a = 1 /\ b = 0 /\ u = 1 /\ v = 0)).

Lemma coeffs_swap a b u v s : coeffs a b u v s -> coeffs b a v u (negb s).
Proof. unfold coeffs. destruct s; cbn [negb]; intros [H1 H2]; (split; [lia|]); naive_solver. Qed.

(** The unwound coefficients: the halving, then the subtraction. *)
Definition unwind_u (b u : Z) : Z := (u + (if Z.odd u then b else 0)) / 2.
Definition unwind_v (a b u v : Z) (bo : bool) : Z :=
  v + (if Z.odd u then a else 0) + (if bo then unwind_u b u else 0).

Lemma unwind_u_double b u : Z.odd b = true -> 2 * unwind_u b u = u + (if Z.odd u then b else 0).
Proof.
  intros Hb. apply even_half. rewrite Z.odd_add. destruct (Z.odd u) eqn:E; by rewrite ?E, ?Hb.
Qed.

Lemma coeffs_unwind a b u v s (bo : bool) : Z.odd b = true -> 0 <= a -> coeffs a b u v s ->
  coeffs (2 * a + (if bo then b else 0)) b (unwind_u b u) (unwind_v a b u v bo) s.
Proof.
  intros Hb Ha [Heq Hbd]. pose proof (unwind_u_double b u Hb) as Hu. unfold unwind_v.
  set (u' := unwind_u b u) in *. clearbody u'.
  assert (b <> 0) as Hb0 by (by intros ->).
  split.
  - destruct (Z.odd u), bo, s; nia.
  - destruct Hbd as [[Hb1 Hb2]|[(-> & -> & -> & ->)|(-> & -> & _)]]; [| |done].
    + left. destruct (Z.odd u), bo; lia.
    + assert (u' = 0) as -> by (cbn in Hu; lia). destruct bo; [left|right; left]; cbn; lia.
Qed.

(** The registers while unwinding, where the numbers are those of [p]
    divided by [d]. *)
Definition unwinding (nw : nat) (d : Z) (p : Z * Z) (st : bezout_state) : Prop :=
  exists a b s, regs nw (bz_a st) (bz_b st) (a, b) /\ p = (d * a, d * b) /\
    wordsOK (bz_ac st) /\ wordsOK (bz_bc st) /\ length (bz_ac st) = (nw + 1)%nat /\ length (bz_bc st) = (nw + 1)%nat /\
    bz_minus_d st = Z.b2z s /\ coeffs a b (val (bz_ac st)) (val (bz_bc st)) s.

(** Bounds that keep every intermediate value within its register. *)
Lemma unwind_bounds nw a b u v s : Z.odd b = true -> 0 <= a < Bp nw -> 0 <= b < Bp nw -> coeffs a b u v s ->
  0 <= u <= Bp nw /\ 0 <= v <= Bp nw /\ 0 <= unwind_u b u <= Bp nw /\
  0 <= u + (if Z.odd u then b else 0) < Bp (nw + 1) /\ 0 <= v + (if Z.odd u then a else 0) < Bp (nw + 1) /\
  v + (if Z.odd u then a else 0) + Bp nw < Bp (nw + 1).
Proof.
  intros Hb Ha Hb0 [_ Hbd]. pose proof (unwind_u_double b u Hb) as Hu. rewrite Nat.add_1_r, Bp_S.
  assert (1 <= Bp nw) by (pose proof (Bp_pos nw); lia). set (P := Bp nw) in *. clearbody P.
  assert (0 <= u <= P /\ 0 <= v <= P /\ u <= b) as (Hub & Hvb & Hle).
  { assert (b <> 0) by (by intros ->). lia. }
  destruct (Z.odd u); split_and!; lia.
Qed.

(** The coefficient registers after one round, before the swap. *)
Lemma unwind_coeff_regs nw a b ac bc s (bo : bool) :
  wordsOK a -> wordsOK b -> wordsOK ac -> wordsOK bc -> length a = nw -> length b = nw ->
  length ac = (nw + 1)%nat -> length bc = (nw + 1)%nat -> Z.odd (val b) = true ->
  coeffs (val a) (val b) (val ac) (val bc) s ->
  let adjust := Z.land (mp_word ac 0) 1 in
  let ac1 := mp_cond_add_into (length ac) ac b adjust in
  let bc1 := mp_cond_add_into (length bc) bc a adjust in
  let ac2 := mp_rshift_fixed_into (length ac1) ac1 1 in
  let bc2 := mp_cond_add_into (length bc1) bc1 ac2 (Z.b2z bo) in
  regs (nw + 1) ac2 bc2 (unwind_u (val b) (val ac), unwind_v (val a) (val b) (val ac) (val bc) bo).
Proof.
  intros Ha Hb Hac Hbc Hla Hlb Hlac Hlbc Hodd Hco. cbn zeta.
  pose proof (val_bound a Ha) as Ba. pose proof (val_bound b Hb) as Bb. rewrite Hla in Ba. rewrite Hlb in Bb.
  destruct (unwind_bounds nw _ _ _ _ s Hodd Ba Bb Hco) as (Hu & Hv & Hu' & Hs1 & Hs2 & Hs3).
  rewrite mp_word_0_odd by done. set (ou := Z.odd (val ac)) in *.
  destruct (mp_cond_add_into_spec (length ac) ac b (Z.b2z ou) Hac Hb) as (Hl1 & Hok1 & Hv1).
  destruct (mp_cond_add_into_spec (length bc) bc a (Z.b2z ou) Hbc Ha) as (Hl2 & Hok2 & Hv2).
  set (ac1 := mp_cond_add_into (length ac) _ _ _) in *. set (bc1 := mp_cond_add_into (length bc) _ _ _) in *.
  rewrite odd_b2z, Hlac in Hv1. rewrite odd_b2z, Hlbc in Hv2. rewrite Z.mod_small in Hv1 by done. rewrite Z.mod_small in Hv2 by done.
  destruct (mp_rshift_fixed_into_spec (length ac1) ac1 1 Hok1) as (Hl3 & Hok3 & Hv3).
  set (ac2 := mp_rshift_fixed_into _ _ _) in *.
  assert (val ac2 = unwind_u (val b) (val ac)) as Eac.
  { rewrite Hv3, Hv1, Hl1, Hlac. change (2 ^ Z.of_nat 1) with 2. fold (unwind_u (val b) (val ac)).
    apply Z.mod_small. lia. }
  destruct (mp_cond_add_into_spec (length bc1) bc1 ac2 (Z.b2z bo) Hok2 Hok3) as (Hl4 & Hok4 & Hv4).
  split_and!; [done|done|congruence|congruence|]. f_equal; [done|].
  rewrite Hv4, odd_b2z, Hl2, Hlbc, Hv2, Eac. unfold unwind_v. fold ou. symmetry. apply Z.mod_small.
  destruct bo; lia.
Qed.

(** The numbers after one round, before the swap. *)
Lemma unwind_number_reg nw a b (bo : bool) : wordsOK a -> wordsOK b -> length a = nw ->
  2 * val a + (if bo then val b else 0) < Bp nw ->
  let a1 := mp_lshift_fixed_into (length a) a 1 in
  let a2 := mp_cond_add_into (length a1) a1 b (Z.b2z bo) in
  wordsOK a2 /\ length a2 = nw /\ val a2 = 2 * val a + (if bo then val b else 0).
Proof.
  intros Ha Hb Hl Hlt. cbn zeta. pose proof (val_bound a Ha). pose proof (val_bound b Hb).
  destruct (mp_lshift_fixed_into_spec (length a) a 1 Ha) as (Hl1 & Hok1 & Hv1).
  set (a1 := mp_lshift_fixed_into _ _ _) in *. change (2 ^ Z.of_nat 1) with 2 in Hv1.
  rewrite Hl in Hv1. rewrite Z.mod_small in Hv1 by (destruct bo; lia).
  destruct (mp_cond_add_into_spec (length a1) a1 b (Z.b2z bo) Hok1 Hb) as (Hl2 & Hok2 & Hv2).
  split_and!; [done|congruence|]. rewrite Hv2, odd_b2z, Hl1, Hl, Hv1, Z.mod_small by (destruct bo; lia). lia.
Qed.

Lemma bezout_unwind_step_spec nw d p st : reducible p -> p.1 < Bp nw -> p.2 < Bp nw -> 0 < d ->
  unwinding nw d (zstep p) st ->
  exists st', bezout_unwind_step (Z.b2z (both_odd_of p)) (Z.b2z (swap_of p)) st = Ok st' /\ unwinding nw d p st'.
Proof.
  intros Hp Hp1 Hp2 Hd (a & b & s & Hregs & Eq & Hac & Hbc & Hlac & Hlbc & Hmd & Hco).
  destruct (zstep_shape p Hp) as (Ho & _ & _ & E). rewrite Eq in E, Ho. cbn [snd] in Ho.
  destruct st as [ra rb ac bc md]. cbn [bz_a bz_b bz_ac bz_bc bz_minus_d] in *.
  destruct Hregs as (Hra & Hrb & Hla & Hlb & [= -> ->]).
  assert (Z.odd (val rb) = true) as Hodd by (rewrite Z.odd_mul in Ho; by apply andb_prop in Ho as [_ Ho]).
  unfold bezout_unwind_step. set (bo := both_odd_of p) in *. set (sw := swap_of p) in *.
  pose proof (val_bound ra Hra) as Ba. pose proof (val_bound rb Hrb) as Bb.
  assert (2 * val ra + (if bo then val rb else 0) < Bp nw) as Hfit.
  { assert (d * (2 * val ra + (if bo then val rb else 0)) < Bp nw); [|nia].
    unfold zunstep, swap_pair in E. destruct sw; rewrite E in Hp1, Hp2; cbn [fst snd] in *; destruct bo; lia. }
  destruct (unwind_number_reg nw ra rb bo Hra Hrb Hla Hfit) as (Hok2 & Hl2 & Hv2).
  pose proof (unwind_coeff_regs nw ra rb ac bc s bo Hra Hrb Hac Hbc Hla Hlb Hlac Hlbc Hodd Hco) as Hcr.
  cbn zeta in *. set (a2 := mp_cond_add_into _ (mp_lshift_fixed_into _ _ _) _ _) in *.
  set (ac1 := mp_cond_add_into (length ac) ac rb _) in *. set (ac2 := mp_rshift_fixed_into (length ac1) ac1 1) in *.
  set (bc2 := mp_cond_add_into _ _ ac2 _) in *.
  destruct Hcr as (Hac2 & Hbc2 & Hlac2 & Hlbc2 & [= Eu Ev]).
  rewrite !mp_cond_swap_eq by congruence. cbn [res_bind]. rewrite odd_b2z.
  pose proof (coeffs_unwind _ _ _ _ s bo Hodd (proj1 Ba) Hco) as Hco'. rewrite <-Hv2 in Hco'.
  rewrite Eu, Ev in Hco'. subst md. unfold zunstep, swap_pair in E. cbn [fst snd] in E.
  assert (d * val a2 = 2 * (d * val ra) + (if bo then d * val rb else 0)) as Ed by (rewrite Hv2; destruct bo; ring).
  destruct sw; cbn [res_bind]; eexists; (split; [done|]).
  - exists (val rb), (val a2), (negb s). cbn [bz_a bz_b bz_ac bz_bc bz_minus_d].
    split; [by split_and!|]. split; [by rewrite E, Ed|]. split_and!; try done; [by destruct s|]. by apply coeffs_swap.
  - exists (val a2), (val rb), s. cbn [bz_a bz_b bz_ac bz_bc bz_minus_d].
    split; [by split_and!|]. split; [by rewrite E, Ed|]. split_and!; try done. by destruct s.
Qed.

Lemma bezout_unwind_spec nw d p record : reducible p -> p.1 < Bp nw -> p.2 < Bp nw -> 0 < d -> forall step st,
  recorded p step record -> unwinding nw d (zrun step p) st ->
  exists st', bezout_unwind record step st = Ok st' /\ unwinding nw d p st'.
Proof.
  intros Hp Hp1 Hp2 Hd. induction step as [|step IH]; intros st Hrec Hst; cbn [bezout_unwind].
  - by exists st.
  - destruct (Hrec step ltac:(lia)) as [-> ->].
    destruct (zrun_bound step p Hp (Bp nw) Hp1 Hp2) as [B1 B2].
    destruct (bezout_unwind_step_spec nw d (zrun step p) st) as (st' & -> & Hst'); [by apply zrun_reducible|done..|].
    cbn [res_bind]. apply IH; [|done]. intros i Hi. apply Hrec. lia.
Qed.

(** ** The coefficients and the greatest common divisor *)

(** What the outputs of [mp_bezout_into] promise for the numbers [x], [y] of
    greatest common divisor [d]. *)
Definition bezout_pair (x y d A C : Z) : Prop :=
  A * x - C * y = d /\ 0 <= A <= y / d /\ 0 <= C < x / d /\ (1 < y / d -> A < y / d).

Lemma bezout_pair_intro x y d a b u v : 0 < d -> x = d * a -> y = d * b -> 0 < a -> 0 < b ->
  u * a - v * b = 1 -> 0 <= u <= b -> 0 <= v <= a -> bezout_pair x y d u v.
Proof.
  intros Hd -> -> Ha Hb E Hu Hv. unfold bezout_pair. rewrite !(Z.mul_comm d), !Z.div_mul by lia.
  split; [transitivity (d * (u * a - v * b)); [ring|rewrite E; ring]|]. split; [done|]. split.
  - split; [lia|]. destruct (Z.eq_dec v a) as [->|]; [|lia]. assert (a * (u - b) = 1) by lia. nia.
  - intros H1. destruct (Z.eq_dec u b) as [->|]; [|lia]. assert (b * (a - v) = 1) by lia.
    assert (a - v <= 0 \/ 1 <= a - v) as [|] by lia; nia.
Qed.

Lemma unwind_start nw a b d : regs nw a b (0, d) -> (0 < nw)%nat -> Z.odd d = true ->
  let ac := <[0%nat := mp_get_bit a 0]> (replicate (nw + 1) 0) in
  let bc := <[0%nat := mp_get_bit b 0]> (replicate (nw + 1) 0) in
  let a' := mp_copy_into (length a) ac in
  let b' := mp_copy_into (length b) bc in
  unwinding nw d (0, d) (Bezout a' b' ac bc (mp_word b' 0)).
Proof.
  intros (Ha & Hb & Hla & Hlb & [= Ea Eb]) Hnw Hd. cbn zeta.
  rewrite !mp_get_bit_spec, <-Ea, <-Eb by done. change (Z.testbit 0 _) with false. change (Z.of_nat 0) with 0.
  rewrite Z.bit0_odd, Hd. cbn [Z.b2z].
  assert (forall w, is_word w -> let x := <[0%nat := w]> (replicate (nw + 1) 0) in wordsOK x /\ val x = w /\ length x = (nw + 1)%nat) as Hx.
  { intros w Hw. cbn zeta. split_and!.
    - by apply wordsOK_insert; [apply wordsOK_replicate_0|].
    - rewrite val_insert by (rewrite length_replicate; lia). rewrite val_replicate_0. unfold mp_word.
      rewrite lookup_replicate_2 by lia. change (default 0 (Some 0)) with 0. change (Bp 0) with 1. lia.
    - by rewrite length_insert, length_replicate. }
  destruct (Hx 0 ltac:(unfold is_word; lia)) as (Hok0 & Hv0 & Hl0). destruct (Hx 1 ltac:(unfold is_word; lia)) as (Hok1 & Hv1 & Hl1).
  set (ac := <[0%nat := 0]> _) in *. set (bc := <[0%nat := 1]> _) in *. cbn zeta in *.
  destruct (val_copy_into (length a) ac Hok0) as (Hl2 & Hok2 & Hv2). destruct (val_copy_into (length b) bc Hok1) as (Hl3 & Hok3 & Hv3).
  rewrite Hv0, Zmod_0_l in Hv2. rewrite Hv1, Z.mod_small in Hv3.
  2: { rewrite Hlb. destruct nw; [lia|]. rewrite Bp_S. pose proof (Bp_pos nw). lia. }
  exists 0, 1, true. cbn [bz_a bz_b bz_ac bz_bc bz_minus_d]. split_and!; try done.
  - split_and!; try done; [congruence..|by rewrite Hv2, Hv3].
  - f_equal; lia.
  - rewrite mp_word_val, Hv3 by done. done.
  - rewrite Hv0, Hv1. split; [done|]. by right; left.
Qed.

Lemma bezout_coefficients_spec nw p steps a b record d : reducible p -> 0 < p.1 < Bp nw -> 0 < p.2 < Bp nw -> (0 < nw)%nat ->
  0 < d -> Z.odd d = true -> zrun steps p = (0, d) -> regs nw a b (0, d) -> recorded p steps record ->
  exists ac bc, bezout_coefficients nw steps a b record = Ok (ac, bc) /\ wordsOK ac /\ wordsOK bc /\
    bezout_pair p.1 p.2 d (val ac) (val bc).
Proof.
  intros Hp Hp1 Hp2 Hnw Hd Hod Hrun Hregs Hrec. unfold bezout_coefficients, mp_make_sized.
  rewrite !c_assert_true by (apply Nat.ltb_lt; lia). cbn [res_bind].
  pose proof (unwind_start nw a b d Hregs Hnw Hod) as Hst. rewrite <-Hrun in Hst. cbn zeta in Hst.
  destruct (bezout_unwind_spec nw d p record Hp ltac:(lia) ltac:(lia) Hd steps _ Hrec Hst) as (st & -> & Hfin).
  cbn [res_bind]. destruct st as [ra rb ac bc md]. destruct Hfin as (va & vb & s & Hr & E & Hac & Hbc & Hlac & Hlbc & Hmd & Hco).
  cbn [bz_a bz_b bz_ac bz_bc bz_minus_d] in *. destruct Hr as (Hra & Hrb & Hlra & Hlrb & [= -> ->]). subst md p. cbn [fst snd] in *.
  assert (0 < val ra /\ 0 < val rb) as [Hpa Hpb] by nia.
  destruct Hco as [Heq [[Hu Hv]|[(E0 & _)|(_ & E0 & _)]]]; [|lia|lia].
  eexists _, _. split; [done|].
  destruct (mp_sub_into_spec nw rb ac Hrb Hac) as (Hl1 & Hok1 & Hv1). destruct (mp_sub_into_spec nw ra bc Hra Hbc) as (Hl2 & Hok2 & Hv2).
  pose proof (val_bound ra Hra) as Ba. pose proof (val_bound rb Hrb) as Bb. rewrite Hlra in Ba. rewrite Hlrb in Bb.
  pose proof (Bp_mono nw (nw + 1) ltac:(lia)) as Hmono.
  rewrite !mp_select_into_eq, odd_b2z by done.
  split_and!; [apply wordsOK_fill; intros; apply mp_word_range; by destruct s..|].
  rewrite !val_fill_words by (by destruct s). rewrite Hlac, Hlbc. destruct s.
  - rewrite Hv1, Hv2, !Z.mod_small by (rewrite ?Z.mod_small; lia).
    apply bezout_pair_intro with (val ra) (val rb); try done; lia.
  - rewrite !Z.mod_small by lia. by apply bezout_pair_intro with (val ra) (val rb).
Qed.

Lemma copy_pair nw x y : wordsOK x -> wordsOK y -> (length x <= nw)%nat -> (length y <= nw)%nat ->
  regs nw (mp_copy_into nw x) (mp_copy_into nw y) (val x, val y).
Proof.
  intros Hx Hy Hlx Hly. destruct (val_copy_into nw x Hx) as (Hl1 & Hok1 & Hv1). destruct (val_copy_into nw y Hy) as (Hl2 & Hok2 & Hv2).
  pose proof (val_bound_le x nw Hx Hlx). pose proof (val_bound_le y nw Hy Hly).
  split_and!; try done. by rewrite Hv1, Hv2, !Z.mod_small by lia.
Qed.

Lemma gcd_odd x y : Z.odd x || Z.odd y = true -> Z.odd (Z.gcd x y) = true.
Proof.
  intros H. destruct (Z.gcd_divide_l x y) as [u Hu], (Z.gcd_divide_r x y) as [v Hv].
  revert Hu Hv. generalize (Z.gcd x y). intros g -> ->. rewrite !Z.odd_mul in H.
  destruct (Z.odd g); [done|]. by rewrite !andb_false_r in H.
Qed.

(** The reduction of two numbers that are not both even. *)
Lemma bezout_reduce_all nw x y : wordsOK x -> wordsOK y -> nw = (1 `max` (length x `max` length y))%nat ->
  Z.odd (val x) || Z.odd (val y) = true ->
  let steps := (2 * nw * 32)%nat in
  let p := (val x, val y) in
  exists a b record, bezout_reduce steps 0 (mp_copy_into nw x) (mp_copy_into nw y) (replicate ((steps * 2 + 32 - 1) / 32) 0)
      = Ok (a, b, record) /\
    reducible p /\ zrun steps p = (0, Z.gcd (val x) (val y)) /\ regs nw a b (0, Z.gcd (val x) (val y)) /\ recorded p steps record.
Proof.
  intros Hx Hy Hnw Ho steps p. pose proof (val_bound_le x nw Hx ltac:(lia)) as Bx. pose proof (val_bound_le y nw Hy ltac:(lia)) as By.
  assert (reducible p) as Hp by (split_and!; [apply Bx|apply By|done]).
  assert (zrun steps p = (0, Z.gcd (val x) (val y))) as Hrun.
  { apply (zrun_end (32 * Z.of_nat nw)); try done; unfold p, steps; cbn [fst snd]; lia. }
  destruct (bezout_reduce_spec nw p steps Hp 0 (mp_copy_into nw x) (mp_copy_into nw y) (replicate ((steps * 2 + 32 - 1) / 32) 0))
    as (a & b & record & E & Hregs & Hrec); [apply copy_pair; (done || lia)|by intros i Hi; lia|apply wordsOK_replicate_0| |].
  { rewrite length_replicate. unfold steps. replace (2 * nw * 32 * 2 + 32 - 1)%nat with (31 + 4 * nw * 32)%nat by lia.
    rewrite Nat.div_add by lia. cbn. lia. }
  exists a, b, record. cbn [Nat.add] in *. rewrite Hrun in Hregs. by split_and!.
Qed.

(** An optional output of a given size holds [v]. *)
Definition out_is (o : option nat) (r : option mp_int) (v : Z) : Prop :=
  match o, r with
  | Some n, Some x => wordsOK x /\ length x = n /\ val x = v mod Bp n
  | None, None => True
  | _, _ => False
  end.

Lemma out_copy o x : wordsOK x -> out_is o ((fun n => mp_copy_into n x) <$> o) (val x).
Proof. intros Hx. destruct o as [n|]; cbn; [|done]. by destruct (val_copy_into n x Hx) as (? & ? & ?). Qed.

Lemma mp_bezout_into_spec oa ob og x y : wordsOK x -> wordsOK y -> Z.odd (val x) || Z.odd (val y) = true ->
  (oa = None /\ ob = None \/ 0 < val x /\ 0 < val y) ->
  exists ra rb rg A C, mp_bezout_into oa ob og x y = Ok (ra, rb, rg) /\
    out_is oa ra A /\ out_is ob rb C /\ out_is og rg (Z.gcd (val x) (val y)) /\
    (0 < val x -> 0 < val y -> bezout_pair (val x) (val y) (Z.gcd (val x) (val y)) A C).
Proof.
  intros Hx Hy Ho Hco. unfold mp_bezout_into. remember (1 `max` (length x `max` length y))%nat as nw eqn:Hnw.
  destruct (bezout_reduce_all nw x y Hx Hy Hnw Ho) as (a & b & record & Er & Hp & Hrun & Hregs & Hrec). cbn zeta in *.
  unfold mp_make_sized at 1. rewrite c_assert_true.
  2: { apply Nat.ltb_lt. replace (2 * nw * 32 * 2 + 32 - 1)%nat with (31 + 4 * nw * 32)%nat by lia. rewrite Nat.div_add by lia. cbn. lia. }
  cbn [res_bind]. rewrite Er. cbn [res_bind].
  set (d := Z.gcd (val x) (val y)) in *.
  assert (out_is og ((fun ng => mp_add_into ng a b) <$> og) d) as Hog.
  { destruct og as [ng|]; cbn; [|done]. destruct Hregs as (Ha & Hb & _ & _ & [= E1 E2]).
    destruct (mp_add_into_spec ng a b Ha Hb) as (? & ? & ->). by rewrite <-E1, <-E2. }
  assert (0 < d) as Hd.
  { pose proof (Z.gcd_nonneg (val x) (val y)) as Hn. fold d in Hn. pose proof (gcd_odd _ _ Ho) as Hod. fold d in Hod.
    destruct (Z.eq_dec d 0) as [E|]; [by rewrite E in Hod|lia]. }
  assert (0 < val x -> 0 < val y -> exists ac bc, bezout_coefficients nw (2 * nw * 32) a b record = Ok (ac, bc) /\ wordsOK ac /\ wordsOK bc /\
    bezout_pair (val x) (val y) d (val ac) (val bc)) as Hcf.
  { intros Hx0 Hy0. pose proof (val_bound_le x nw Hx ltac:(lia)). pose proof (val_bound_le y nw Hy ltac:(lia)).
    apply (bezout_coefficients_spec nw (val x, val y)); try done; cbn [fst snd]; try lia. by apply gcd_odd. }
  destruct Hco as [[-> ->]|[Hx0 Hy0]].
  - destruct (Z.lt_ge_cases 0 (val x)) as [Hx0|], (Z.lt_ge_cases 0 (val y)) as [Hy0|].
    1: destruct (Hcf Hx0 Hy0) as (ac & bc & _ & _ & _ & Hbz); eexists _, _, _, (val ac), (val bc); by split_and!.
    all: eexists _, _, _, 0, 0; split_and!; [done..|intros; lia].
  - destruct (Hcf Hx0 Hy0) as (ac & bc & E & Hac & Hbc & Hbz). rewrite E. cbn [res_bind].
    exists ((fun na => mp_copy_into na ac) <$> oa), ((fun nb => mp_copy_into nb bc) <$> ob), ((fun ng => mp_add_into ng a b) <$> og), (val ac), (val bc).
    split; [by destruct oa, ob|]. split_and!; [by apply out_copy..|done|done].
Qed.

Lemma mp_invert_spec x m : wordsOK x -> wordsOK m -> 0 < val x -> 1 < val m -> Z.gcd (val x) (val m) = 1 ->
  exists r, mp_invert x m = Ok r /\ length r = length m /\ wordsOK r /\ 0 <= val r < val m /\ (val x * val r) mod val m = 1.
Proof.
  intros Hx Hm Px Pm Hg. unfold mp_invert, mp_make_sized. pose proof (val_bound m Hm) as Bm.
  assert (0 < length m)%nat as Hl by (destruct m; [done|cbn; lia]). rewrite c_assert_true by (by apply Nat.ltb_lt).
  cbn [res_bind]. rewrite length_replicate.
  assert (Z.odd (val x) || Z.odd (val m) = true) as Ho.
  { destruct (Z.odd (val x)) eqn:E1, (Z.odd (val m)) eqn:E2; try done. exfalso.
    assert (2 | 1) as H2; [|apply Z.divide_pos_le in H2; lia]. rewrite <-Hg.
    apply Z.gcd_greatest; [exists (val x / 2)|exists (val m / 2)]; rewrite Z.mul_comm, even_half; done. }
  destruct (mp_bezout_into_spec (Some (length m)) None None x m Hx Hm Ho ltac:(right; lia)) as (ra & rb & rg & A & C & -> & Ha & _ & _ & Hbz).
  cbn [res_bind]. destruct ra as [r|]; [|done]. destruct Ha as (Hr & Hlr & Hv).
  destruct (Hbz Px ltac:(lia)) as (E & HA & HC & HA1). rewrite Hg, Z.div_1_r in *.
  exists r. change (default _ (Some r)) with r. rewrite Z.mod_small in Hv by lia. split_and!; [done..|lia|lia|].
  rewrite Hv. replace (val x * A) with (1 + C * val m) by lia. rewrite Z.mod_add by lia. apply Z.mod_small. lia.
Qed.

Lemma cong_1_coprime m a b : cong m (a * b) 1 -> Z.gcd a m = 1.
Proof.
  intros [E]. apply Z.bezout_1_gcd. exists b, ((1 - a * b) / m). 
  assert (m | 1 - a * b) as [q Hq].
  { destruct (Z.eq_dec m 0) as [->|Hm]; [rewrite !Zmod_0_r in E; exists 0; lia|].
    apply Z.mod_divide; [done|]. by rewrite Zminus_mod, E, Z.sub_diag, Zmod_0_l. }
  destruct (Z.eq_dec m 0) as [->|Hm]; [lia|]. rewrite Hq, Z.div_mul by done. lia.
Qed.

(** Montgomery form is preserved by inversion. *)
Lemma monty_invert_spec mc x X Y : monty_ok mc -> mont mc x X -> 1 < val (mc_m mc) -> 0 < val x ->
  cong (val (mc_m mc)) (X * Y) 1 ->
  exists r, monty_invert mc x = Ok r /\ mont mc r Y.
Proof.
  intros Hmc Hx Hm1 Hx0 HXY. pose proof Hx as (Hxok & Hlx & Bx & Cx). pose proof (mo_rw _ Hmc) as Erw.
  set (m := val (mc_m mc)) in *. set (r := Bp (mc_rw mc)) in *.
  assert (Z.gcd (val x) m = 1) as Hg.
  { destruct (monty_unit mc Hmc) as [z Hz]. fold m r in Hz.
    assert (cong m (val x * (Y * z)) 1) as E1.
    { rewrite Cx. transitivity ((X * Y) * (r * z)); [apply eq_cong; ring|]. by rewrite HXY, Hz. }
    by apply cong_1_coprime with (Y * z). }
  destruct (mp_invert_spec x (mc_m mc) Hxok (mo_m _ Hmc) Hx0 Hm1 Hg) as (t & Et & Hlt & Ht & Bt & Ct). fold m in Bt, Ct.
  destruct (monty_unit mc Hmc) as [z Hz]. fold m r in Hz. destruct (mo_powers _ Hmc 2) as (p2 & Ep & Hp2 & Hlp & Hvp); [lia|]. fold m r in Hvp.
  assert (cong m (val x * val t) 1) as Ctc by (split; rewrite Ct, Z.mod_small by lia; done).
  assert (mont mc t (Y * z * z)) as Hmt.
  { split_and!; [done|congruence|lia|]. fold m r.
    transitivity (val t * ((X * Y) * (r * z))); [by rewrite HXY, Hz, !Z.mul_1_r|].
    transitivity ((val x * val t) * (Y * z)); [rewrite Cx; apply eq_cong; ring|]. rewrite Ctc.
    transitivity (Y * z * (r * z)); [rewrite Hz|]; apply eq_cong; ring. }
  assert (mont mc p2 (r * r)) as Hmp.
  { split_and!; [done|done| |]; fold m r; rewrite Hvp; [apply Z.mod_pos_bound; lia|]. rewrite (cong_mod m). apply eq_cong.
    change (Z.of_nat 2 + 1) with 3. ring. }
  unfold monty_invert. rewrite Et. cbn [res_bind]. rewrite Ep. change (default [] (Some p2)) with p2.
  destruct (monty_mul_spec mc t p2 _ _ Hmc Hmt Hmp) as (q & -> & Hq). exists q. split; [done|].
  eapply mont_cong; [|exact Hq]. fold m. transitivity (Y * ((r * z) * (r * z))); [apply eq_cong; ring|].
  rewrite Hz. apply eq_cong. ring.
Qed.

(** ** Shared factors of two *)

Lemma odd_part w : 0 < w -> exists s u, 0 <= s /\ Z.odd u = true /\ w = 2 ^ s * u.
Proof.
  intros Hw. assert (0 <= w) as H0 by lia. revert w H0 Hw.
  apply (Zlt_0_ind (fun w => 0 < w -> exists s u, 0 <= s /\ Z.odd u = true /\ w = 2 ^ s * u)).
  intros w IH _ Hw. destruct (Z.odd w) eqn:E.
  - exists 0, w. split_and!; [lia|done|]. by rewrite Z.mul_1_l.
  - pose proof (even_half w E) as Hh. destruct (IH (w / 2)) as (s & u & Hs & Hu & Ew); [lia|lia|].
    exists (s + 1), u. split_and!; [lia|done|]. rewrite Z.pow_add_r by lia. change (2 ^ 1) with 2. lia.
Qed.

Lemma land_opp_odd u : Z.odd u = true -> Z.land u (- u) = 1.
Proof.
  intros Hu. assert (u = 2 * (u / 2) + 1) as E.
  { pose proof (Z.div_mod u 2 ltac:(lia)) as H. rewrite Zmod_odd, Hu in H. done. }
  set (v := u / 2) in *. clearbody v. subst u. replace (- (2 * v + 1)) with (2 * Z.lnot v + 1) by (unfold Z.lnot; lia).
  apply Z.bits_inj_iff'. intros n Hn. rewrite Z.land_spec. destruct (Z.eq_dec n 0) as [->|].
  - rewrite !Z.bit0_odd, !Z.odd_add, !Z.odd_mul. done.
  - replace n with (Z.succ (n - 1)) by lia. rewrite !Z.testbit_odd_succ by lia. rewrite Z.lnot_spec by lia.
    rewrite andb_negb_r. symmetry. apply (Z.bits_above_log2 1); [lia|cbn; lia].
Qed.

Lemma land_opp s u : 0 <= s -> Z.odd u = true -> Z.land (2 ^ s * u) (- (2 ^ s * u)) = 2 ^ s.
Proof.
  intros Hs Hu. rewrite <-Z.mul_opp_r, !(Z.mul_comm (2 ^ s)), <-!Z.shiftl_mul_pow2, <-Z.shiftl_land by done.
  by rewrite land_opp_odd, Z.shiftl_mul_pow2, Z.mul_1_l by done.
Qed.

Lemma isolate_done tmp : wordsOK tmp -> isolate_low_bit tmp 0 = replicate (length tmp) 0.
Proof.
  induction tmp as [|w tmp IH]; intros Ht; [done|]. apply Forall_cons in Ht as [Hw Ht]. cbn [isolate_low_bit length replicate].
  rewrite w32_lnot by done. unfold is_word in Hw.
  destruct (BignumADC_spec 0 (B - 1 - w) 0) as (negw & c & -> & Hn & Hc & Hs); [unfold is_word; lia..|]. unfold is_word in Hn. assert (c = 0) as -> by nia.
  rewrite IH by done. f_equal. assert (negw = Z.lxor w (B - 1)) as -> by (rewrite lxor_ones by done; lia).
  apply Z.bits_inj_iff'. intros n Hn0. rewrite Z.land_spec, Z.lxor_spec, Z.bits_0.
  destruct (Z.lt_ge_cases n 32).
  - change (B - 1) with (Z.ones 32). rewrite Z.ones_spec_low by lia. by destruct (Z.testbit w n).
  - by rewrite (bits_high 32 w) by done.
Qed.

Lemma isolate_word s u : 0 <= s -> Z.odd u = true -> is_word (2 ^ s * u) -> 0 < 2 ^ s * u ->
  Z.land (2 ^ s * u) (B - 2 ^ s * u) = 2 ^ s.
Proof.
  intros Hs Hu Hw Hp. etransitivity; [|by apply (land_opp s u)]. set (w := 2 ^ s * u) in *. unfold is_word in Hw.
  replace (B - w) with ((- w) mod 2 ^ 32).
  2: { symmetry. apply Z.mod_unique_pos with (-1); lia. }
  rewrite <-Z.land_ones by lia. rewrite (Z.land_comm (- w)), Z.land_assoc. f_equal. by apply (land_ones_small 32).
Qed.

(** The lowest set bit of a number, alone. *)
Lemma isolate_low_bit_spec tmp : wordsOK tmp ->
  wordsOK (isolate_low_bit tmp 1) /\ length (isolate_low_bit tmp 1) = length tmp /\
  (val tmp = 0 /\ val (isolate_low_bit tmp 1) = 0 \/
   exists s u, 0 <= s /\ Z.odd u = true /\ val tmp = 2 ^ s * u /\ val (isolate_low_bit tmp 1) = 2 ^ s).
Proof.
  induction tmp as [|w tmp IH]; intros Ht; [by split_and!; [constructor|done|left]|]. apply Forall_cons in Ht as [Hw Ht].
  destruct (IH Ht) as (Hok & Hl & Hv). cbn [isolate_low_bit val]. rewrite w32_lnot by done.
  unfold is_word in Hw.
  destruct (BignumADC_spec 0 (B - 1 - w) 1) as (negw & c & -> & Hn & Hc & Hs); [unfold is_word; lia..|]. unfold is_word in Hn.
  destruct (Z.eq_dec w 0) as [->|Hne].
  - assert (c = 1 /\ negw = 0) as [-> ->] by nia. cbn [length val]. rewrite Z.land_0_l, Z.add_0_l.
    split_and!; [by constructor|lia|]. destruct Hv as [[Hv1 Hv2]|(s & u & Hs0 & Hu & Hv1 & Hv2)]; [left; lia|right].
    exists (32 + s), u. rewrite Hv1, Hv2, Z.pow_add_r by lia. split_and!; [lia|done|lia|lia].
  - assert (c = 0 /\ negw = B - w) as [-> ->] by nia. rewrite isolate_done by done. cbn [length val].
    rewrite length_replicate, val_replicate_0.
    destruct (odd_part w ltac:(lia)) as (s & u & Hs0 & Hu & ->).
    rewrite isolate_word by (done || lia).
    assert (s < 32) as Hs32. { apply (Z.pow_lt_mono_r_iff 2); [lia|lia|]. assert (0 < u) by nia. nia. }
    split_and!; [constructor; [unfold is_word; split; [lia|apply Z.pow_lt_mono_r; lia]|apply wordsOK_replicate_0]|lia|right].
    exists s, (u + 2 ^ (32 - s) * val tmp). split_and!; [lia| | |lia].
    + rewrite Z.odd_add, Hu, Z.odd_mul, Z.odd_pow by lia. done.
    + rewrite Z.mul_add_distr_l, Z.mul_assoc, <-Z.pow_add_r by lia. do 3 f_equal. lia.
Qed.

Lemma val_or_words nw a b : wordsOK a -> wordsOK b -> (length a <= nw)%nat -> (length b <= nw)%nat ->
  wordsOK (mp_or_into nw a b) /\ val (mp_or_into nw a b) = Z.lor (val a) (val b).
Proof.
  intros Ha Hb Hla Hlb. assert (wordsOK (mp_or_into nw a b)) as Hok.
  { apply wordsOK_fill. intros i _. auto with cmodel. }
  split; [done|]. pose proof (val_bound _ Hok) as Bo. unfold mp_or_into in Bo at 3. rewrite length_fill in Bo.
  pose proof (val_bound_le a nw Ha Hla). pose proof (val_bound_le b nw Hb Hlb).
  apply Z.bits_inj_iff'. intros k Hk. rewrite Z.lor_spec. destruct (Z.lt_ge_cases k (32 * Z.of_nat nw)).
  - by apply mp_bitops_spec.
  - by rewrite !(bits_high (32 * Z.of_nat nw)) by done.
Qed.

(** Dividing off the factors of two two numbers share. *)
Lemma lor_factor a b s u : 0 <= s -> Z.odd u = true -> Z.lor a b = 2 ^ s * u ->
  a = 2 ^ s * (a / 2 ^ s) /\ b = 2 ^ s * (b / 2 ^ s) /\ Z.odd (a / 2 ^ s) || Z.odd (b / 2 ^ s) = true.
Proof.
  intros Hs Hu E. assert (Z.lor (a mod 2 ^ s) (b mod 2 ^ s) = 0) as E0.
  { rewrite <-!Z.land_ones, <-Z.land_lor_distr_l, E, Z.land_ones, Z.mul_comm by done. apply Z_mod_mult. }
  apply Z.lor_eq_0_iff in E0 as [Ea Eb].
  split_and!; [by apply Z_div_exact_full_2; [lia|]|by apply Z_div_exact_full_2; [lia|]|].
  rewrite <-!Z.shiftr_div_pow2 by done. rewrite <-!Z.bit0_odd, <-Z.lor_spec, <-Z.shiftr_lor, E, Z.mul_comm, Z.bit0_odd.
  by rewrite Z.shiftr_div_pow2, Z.div_mul by lia.
Qed.

Lemma bezout_pair_scale k x y A C : 0 < k -> Z.gcd x y <> 0 ->
  bezout_pair x y (Z.gcd x y) A C -> bezout_pair (k * x) (k * y) (Z.gcd (k * x) (k * y)) A C.
Proof.
  intros Hk Hg (E & H). rewrite Z.gcd_mul_mono_l_nonneg by lia. unfold bezout_pair.
  rewrite !Z.div_mul_cancel_l by lia. split; [|done]. rewrite <-E. ring.
Qed.

Definition gcd_size (x : mp_int) : Prop := (0 < length x)%nat /\ Z.of_nat (length x) < 2 ^ 57.

Lemma mp_rshift_safe_spec x bits : wordsOK x -> gcd_size x -> is_size bits ->
  exists r, mp_rshift_safe x bits = Ok r /\ wordsOK r /\ length r = length x /\ val r = val x / 2 ^ Z.of_nat bits.
Proof.
  intros Hx [Hl0 Hl] Hb. unfold mp_rshift_safe. rewrite mp_copy_spec by done. cbn [res_bind].
  pose proof (Nat.div_le_upper_bound bits 32 bits ltac:(lia) ltac:(lia)).
  destruct (mp_rshift_safe_in_place_spec x bits Hx) as (H1 & H2 & H3); [unfold is_size; lia|unfold is_size in *; lia|].
  eexists. by split_and!.
Qed.

Lemma mp_gcd_into_spec a b og oa ob : wordsOK a -> wordsOK b -> gcd_size a -> gcd_size b -> 0 < val a + val b ->
  (forall ng, og = Some ng -> Z.of_nat ng < 2 ^ 57) ->
  (oa = None /\ ob = None \/ 0 < val a /\ 0 < val b) ->
  exists ra rb rg A C, mp_gcd_into a b og oa ob = Ok (ra, rb, rg) /\
    out_is oa ra A /\ out_is ob rb C /\ out_is og rg (Z.gcd (val a) (val b)) /\
    (0 < val a -> 0 < val b -> bezout_pair (val a) (val b) (Z.gcd (val a) (val b)) A C).
Proof.
  intros Ha Hb Sa Sb Hpos Hng Hco. pose proof Sa as [La0 La]. pose proof Sb as [Lb0 Lb].
  unfold mp_gcd_into, mp_make_sized. rewrite c_assert_true by (apply Nat.ltb_lt; lia). cbn [res_bind]. rewrite length_replicate.
  set (n := (length a `max` length b)%nat). change (fill n _) with (mp_or_into n a b).
  destruct (val_or_words n a b Ha Hb ltac:(lia) ltac:(lia)) as [Hok Hv].
  assert (length (mp_or_into n a b) = n) as Hlor by apply length_fill.
  destruct (isolate_low_bit_spec _ Hok) as (Hok1 & Hl1 & Hiso). set (iso := isolate_low_bit _ 1) in *.
  pose proof (val_bound a Ha) as Ba. pose proof (val_bound b Hb) as Bb.
  destruct Hiso as [[E0 _]|(s & u & Hs & Hu & Ev & Eiso)].
  { rewrite Hv in E0. apply Z.lor_eq_0_iff in E0. lia. }
  assert (s < 32 * Z.of_nat n) as Hsn.
  { apply (Z.pow_lt_mono_r_iff 2); [lia|lia|]. rewrite <-Eiso, <-Hlor, <-Hl1. by apply val_bound. }
  rewrite mp_get_nbits_spec by (done || lia). rewrite Eiso, bitlen_pow2 by done.
  replace (s + 1 - 1) with s by lia. rewrite w64_small by lia. set (shift := Z.to_nat s).
  assert (Z.of_nat shift = s) as Eshift by (unfold shift; lia). assert (is_size shift) as Hsz by (unfold is_size; lia).
  rewrite Hv in Ev. destruct (lor_factor _ _ s u Hs Hu Ev) as (Ea & Eb & Ho).
  destruct (mp_rshift_safe_spec a shift Ha Sa Hsz) as (as_ & -> & Has & _ & Hva). cbn [res_bind].
  destruct (mp_rshift_safe_spec b shift Hb Sb Hsz) as (bs & -> & Hbs & _ & Hvb). cbn [res_bind].
  rewrite Eshift in Hva, Hvb. rewrite <-Hva in Ea, Ho. rewrite <-Hvb in Eb, Ho.
  assert (0 < 2 ^ s) as Hp2 by lia. set (P := 2 ^ s) in *.
  assert (forall x y, 0 < x -> x = P * y -> 0 < y) as Hdiv by (intros; nia).
  destruct (mp_bezout_into_spec oa ob og as_ bs Has Hbs Ho) as (ra & rb & rg & A & C & -> & Hra & Hrb & Hrg & Hbz).
  { destruct Hco as [Hn|[Pa Pb]]; [by left|right]. split; [by apply (Hdiv (val a))|by apply (Hdiv (val b))]. }
  cbn [res_bind]. exists ra, rb. eexists _, A, C. split; [done|]. split_and!; [done..| |].
  - destruct og as [ng|], rg as [g|]; cbn in Hrg |- *; try done. destruct Hrg as (Hg & Hlg & Hvg). specialize (Hng ng eq_refl).
    pose proof (Nat.div_le_upper_bound shift 32 shift ltac:(lia) ltac:(lia)).
    destruct (mp_lshift_safe_in_place_spec g shift Hg) as (H1 & H2 & H3); [unfold is_size; lia|unfold is_size in *; lia|].
    split_and!; [done|congruence|]. rewrite H3, Hlg, Hvg, Eshift, Zmult_mod_idemp_l. fold P.
    rewrite Ea, Eb, Z.gcd_mul_mono_l_nonneg by lia. f_equal. ring.
  - intros Pa Pb. rewrite Ea, Eb. apply bezout_pair_scale; [done| |].
    + pose proof (gcd_odd _ _ Ho) as Hod. intros E. by rewrite E in Hod.
    + apply Hbz; [by apply (Hdiv (val a))|by apply (Hdiv (val b))].
Qed.

Lemma mp_gcd_spec a b : wordsOK a -> wordsOK b -> gcd_size a -> gcd_size b -> 0 < val a + val b ->
  exists r, mp_gcd a b = Ok r /\ wordsOK r /\ length r = (length a `min` length b)%nat /\
    val r = Z.gcd (val a) (val b) mod Bp (length a `min` length b).
Proof.
  intros Ha Hb Sa Sb Hpos. pose proof Sa as [La0 La]. pose proof Sb as [Lb0 Lb]. unfold mp_gcd, mp_make_sized.
  rewrite c_assert_true by (apply Nat.ltb_lt; lia). cbn [res_bind]. rewrite length_replicate.
  destruct (mp_gcd_into_spec a b (Some (length a `min` length b)%nat) None None Ha Hb Sa Sb Hpos)
    as (ra & rb & rg & A & C & -> & _ & _ & Hg & _); [intros ng [= <-]; lia|by left|]. cbn [res_bind].
  destruct rg as [g|]; [|done]. exists g. destruct Hg as (? & ? & ?). by split_and!.
Qed.

(** The result has room for the divisor of two positive numbers. *)
Lemma mp_gcd_positive a b : wordsOK a -> wordsOK b -> gcd_size a -> gcd_size b -> 0 < val a -> 0 < val b ->
  exists r, mp_gcd a b = Ok r /\ wordsOK r /\ val r = Z.gcd (val a) (val b).
Proof.
  intros Ha Hb Sa Sb Pa Pb. destruct (mp_gcd_spec a b Ha Hb Sa Sb ltac:(lia)) as (r & E & Hr & _ & Hv).
  exists r. split_and!; [done|done|]. rewrite Hv. apply Z.mod_small. pose proof (Z.gcd_nonneg (val a) (val b)).
  pose proof (Z.divide_pos_le _ _ Pa (Z.gcd_divide_l (val a) (val b))). pose proof (Z.divide_pos_le _ _ Pb (Z.gcd_divide_r (val a) (val b))).
  pose proof (val_bound a Ha). pose proof (val_bound b Hb).
  destruct (Nat.min_spec (length a) (length b)) as [[_ ->]|[_ ->]]; lia.
Qed.

Lemma mp_coprime_spec a b : wordsOK a -> wordsOK b -> gcd_size a -> gcd_size b -> 0 < val a -> 0 < val b ->
  mp_coprime a b = Ok (if Z.gcd (val a) (val b) =? 1 then 1 else 0).
Proof.
  intros Ha Hb Sa Sb Pa Pb. unfold mp_coprime. destruct (mp_gcd_positive a b Ha Hb Sa Sb Pa Pb) as (r & -> & Hr & Hv).
  cbn [res_bind]. by rewrite mp_eq_integer_spec, Hv by (done || unfold is_uintmax; lia).
Qed.
