(* ===== verification/MpintSqrt.v ===== *)
(** * Multiprecision integers: modular square roots and random numbers
    ([libs/putty/crypto/mpint.c], [modsqrt_new] to [mp_random_in_range_fn]) *)

From Stdlib Require Import Znumtheory.
From S2P Require Import Prelude MpintCore MpintArith MpintMul MpintShift MpintConv MpintDiv MpintMonty MpintGcd.

Local Open Scope Z_scope.
Local Open Scope cmodel_scope.

(** ** Square roots *)

(** [struct ModsqrtContext]; [zk] is [NULL] until it is needed. *)
Record ModsqrtContext := Modsqrt {
  sc_p : mp_int; sc_mc : MontyContext; sc_e : nat; sc_k : mp_int; sc_km1o2 : mp_int;
  sc_z : mp_int; sc_zk : option mp_int }.

(** The search for the lowest set bit of [p - 1], from bit [e]: [fuel] bits are
    left below the size of [p]. *)
Fixpoint modsqrt_find_e (p : mp_int) (fuel e : nat) : nat :=
  match fuel with
  | O => e
  | S fuel => if mp_get_bit p e =? 0 then modsqrt_find_e p fuel (S e) else e
  end.

Definition modsqrt_new (p any_nonsquare_mod_p : mp_int) : res ModsqrtContext :=
  let! scp := mp_copy p in
  let! mc := monty_new scp in
  let! z := monty_import mc any_nonsquare_mod_p in
  let e := modsqrt_find_e p (32 * length p - 1) 1 in
  let! k := mp_rshift_fixed p e in
  let! km1o2 := mp_rshift_fixed k 1 in
  Ok (Modsqrt scp mc e k km1o2 z None).

Definition modsqrt_lazy_setup (sc : ModsqrtContext) : res (ModsqrtContext * mp_int) :=
  match sc_zk sc with
  | Some zk => Ok (sc, zk)
  | None =>
      let! zk := monty_pow (sc_mc sc) (sc_z sc) (sc_k sc) in
      Ok (Modsqrt (sc_p sc) (sc_mc sc) (sc_e sc) (sc_k sc) (sc_km1o2 sc) (sc_z sc) (Some zk), zk)
  end.

(** The registers of the loop of [monty_modsqrt]; [success] is [None] until it
    is assigned. *)
Record modsqrt_state := SqrtState {
  ss_toret : mp_int; ss_xk : mp_int; ss_power_of_zk : mp_int; ss_success : option Z }.

(** The loop body for the subgroup [i] of [e]. *)
Definition modsqrt_round (mc : MontyContext) (x : mp_int) (e i : nat) (st : modsqrt_state) : res modsqrt_state :=
  let '(SqrtState toret xk power_of_zk success) := st in
  let rw := mc_rw mc in
  let! tmp := monty_square_times mc (e - (i + 1)) (mp_copy_into rw xk) in
  let eq1 := mp_cmp_eq tmp (monty_identity mc) in
  if (i =? 0)%nat then
    Ok (SqrtState toret xk power_of_zk (Some (Z.lor eq1 (mp_eq_integer x 0))))
  else
    let! tmp := monty_mul_into mc rw toret power_of_zk in
    let toret := mp_select_into (length toret) tmp toret eq1 in
    let! power_of_zk := monty_mul_into mc rw power_of_zk power_of_zk in
    let! tmp := monty_mul_into mc rw xk power_of_zk in
    let xk := mp_select_into rw tmp xk eq1 in
    Ok (SqrtState toret xk power_of_zk success).

(** The rounds from [i] on, [k] of them. *)
Fixpoint modsqrt_loop (mc : MontyContext) (x : mp_int) (e k i : nat) (st : modsqrt_state) : res modsqrt_state :=
  match k with
  | O => Ok st
  | S k => let! st := modsqrt_round mc x e i st in modsqrt_loop mc x e k (S i) st
  end.

Definition monty_modsqrt (sc : ModsqrtContext) (x : mp_int) : res (mp_int * option Z * ModsqrtContext) :=
  let! (sc, zk) := modsqrt_lazy_setup sc in
  let mc := sc_mc sc in
  let rw := mc_rw mc in
  let! toret := monty_pow mc x (sc_km1o2 sc) in
  let xk := mp_copy_into rw toret in
  let! toret := monty_mul_into mc (length toret) toret x in
  let! xk := monty_mul_into mc rw toret xk in
  let power_of_zk := mp_copy_into rw zk in
  let! st := modsqrt_loop mc x (sc_e sc) (sc_e sc) 0 (SqrtState toret xk power_of_zk None) in
  Ok (ss_toret st, ss_success st, sc).

Definition mp_modsqrt (sc : ModsqrtContext) (x : mp_int) : res (mp_int * option Z * ModsqrtContext) :=
  let! mx := monty_import (sc_mc sc) x in
  let! (mroot, success, sc) := monty_modsqrt sc mx in
  let! root := monty_export (sc_mc sc) mroot in
  Ok (root, success, sc).

(** ** Random numbers *)

(** [random_read] fills a buffer of the given size. *)
Definition mp_random_bits_fn (bits : nat) (random_read : nat -> list Z) : res mp_int :=
  let bytes := ((bits + 7) / 8)%nat in
  let randbuf := random_read bytes in
  let randbuf := if (bytes =? 0)%nat then randbuf
                 else alter (fun b => Z.land b (Z.shiftl 2 (Z.of_nat ((bits - 1) mod 8)) - 1)) 0%nat randbuf in
  mp_from_bytes_be randbuf.

Definition mp_random_upto_fn (limit : mp_int) (rf : nat -> list Z) : res mp_int :=
  let! unreduced := mp_random_bits_fn (length limit * 32 + 128) rf in
  mp_mod unreduced limit.

Definition mp_random_in_range_fn (lo hi : mp_int) (rf : nat -> list Z) : res mp_int :=
  let! n_outcomes := mp_sub hi lo in
  let! addend := mp_random_upto_fn n_outcomes rf in
  let! result := mp_make_sized (length hi) in
  Ok (mp_add_into (length result) addend lo).

(** ** Correctness of the square root *)

(** The exponent of two in [p - 1] and its odd cofactor. *)
Lemma modsqrt_find_e_spec p : wordsOK p -> 1 < val p -> forall fuel e,
  (e + fuel = 32 * length p)%nat -> val p / 2 ^ Z.of_nat e * 2 ^ Z.of_nat e = val p - 1 ->
  let e' := modsqrt_find_e p fuel e in
  (e <= e')%nat /\ val p / 2 ^ Z.of_nat e' * 2 ^ Z.of_nat e' = val p - 1 /\ Z.odd (val p / 2 ^ Z.of_nat e') = true.
Proof.
  intros Hp Hp1. induction fuel as [|fuel IH]; intros e Hf Hinv; cbn [modsqrt_find_e].
  - pose proof (val_bound p Hp) as Hb. rewrite Z.div_small in Hinv; [lia|].
    replace (Z.of_nat e) with (32 * Z.of_nat (length p)) by lia. done.
  - assert (Z.testbit (val p) (Z.of_nat e) = Z.odd (val p / 2 ^ Z.of_nat e)) as Hbit.
    { by rewrite <-Z.bit0_odd, Z.div_pow2_bits by lia. }
    rewrite mp_get_bit_spec, Hbit by done.
    destruct (Z.odd (val p / 2 ^ Z.of_nat e)) eqn:E; cbn [Z.b2z Z.eqb]; [done|].
    destruct (IH (S e) ltac:(lia)) as (H1 & H2 & H3); [|by split_and!; [lia|..]].
    rewrite <-Hinv, Nat2Z.inj_succ, Z.pow_succ_r, (Z.mul_comm 2), <-Z.div_div by lia.
    rewrite <-(even_half _ E) at 2. ring.
Qed.

(** A context for the prime [p], its nonsquare [z] and [p - 1 = 2^e K]. *)
Record modsqrt_ok (sc : ModsqrtContext) (p z K : Z) : Prop := ModsqrtOk {
  so_mc : monty_ok (sc_mc sc);
  so_p : val (mc_m (sc_mc sc)) = p;
  so_e : (0 < sc_e sc)%nat;
  so_K : 2 ^ Z.of_nat (sc_e sc) * K = p - 1;
  so_K_odd : Z.odd K = true;
  so_k : wordsOK (sc_k sc) /\ (0 < length (sc_k sc))%nat /\ val (sc_k sc) = K;
  so_km1o2 : wordsOK (sc_km1o2 sc) /\ (0 < length (sc_km1o2 sc))%nat /\ val (sc_km1o2 sc) = K / 2;
  so_z : mont (sc_mc sc) (sc_z sc) z;
  so_zk : forall zk, sc_zk sc = Some zk -> mont (sc_mc sc) zk (z ^ K) }.

Lemma modsqrt_new_ok p z : wordsOK p -> wordsOK z -> small_len p -> small_len z -> Z.odd (val p) = true -> 1 < val p ->
  exists sc K, modsqrt_new p z = Ok sc /\ modsqrt_ok sc (val p) (val z) K.
Proof.
  intros Hp Hz Lp Lz Ho Hp1. unfold modsqrt_new. pose proof Lp as [Lp0 _]. rewrite mp_copy_spec by done. cbn [res_bind].
  destruct (monty_new_ok p Hp Lp Ho) as (mc & -> & Hmc & Em). cbn [res_bind].
  destruct (monty_import_spec mc z Hmc Hz Lz) as (mz & -> & Hmz). cbn [res_bind].
  destruct (modsqrt_find_e_spec p Hp Hp1 (32 * length p - 1) 1) as (He & Hpe & HKo); [lia| |].
  { change (2 ^ Z.of_nat 1) with 2. pose proof (Z.div_mod (val p) 2 ltac:(lia)) as E. rewrite Zmod_odd, Ho in E. lia. }
  set (e := modsqrt_find_e _ _ _) in *.
  destruct (mp_rshift_fixed_spec p e Hp) as (k & -> & Hlk & Hk & Hvk). cbn [res_bind].
  destruct (mp_rshift_fixed_spec k 1 Hk) as (k2 & -> & Hlk2 & Hk2 & Hvk2). cbn [res_bind].
  eexists _, (val k). split; [done|]. constructor; cbn; try done; try lia.
  - by rewrite Em.
  - by rewrite Hvk, Z.mul_comm.
  - by rewrite Hvk.
Qed.

(** Comparing with the identity tests for [1]. *)
Lemma mont_is_one mc t Y : monty_ok mc -> mont mc t Y ->
  mp_cmp_eq t (monty_identity mc) = Z.b2z (Y mod val (mc_m mc) =? 1 mod val (mc_m mc)).
Proof.
  intros Hmc Ht. pose proof (monty_identity_spec mc Hmc) as Hi. rewrite mp_cmp_eq_spec by (apply Ht || apply Hi).
  rewrite (mont_val _ _ _ Hmc Ht), (mont_val _ _ _ Hmc Hi).
  destruct (Z.eqb_spec ((Y * Bp (mc_rw mc)) mod val (mc_m mc)) ((1 * Bp (mc_rw mc)) mod val (mc_m mc))) as [E|E];
    destruct (Z.eqb_spec (Y mod val (mc_m mc)) (1 mod val (mc_m mc))) as [E'|E']; try done; exfalso.
  - apply E'. apply (cong_eq (m := val (mc_m mc))), (monty_cancel mc _ _ Hmc). by split.
  - apply E. assert (cong (val (mc_m mc)) Y 1) as Hc by (by split). apply (cong_eq (m := val (mc_m mc))). by rewrite Hc.
Qed.

Lemma mont_is_zero mc x X : monty_ok mc -> mont mc x X -> mp_eq_integer x 0 = Z.b2z (X mod val (mc_m mc) =? 0).
Proof.
  intros Hmc Hx. pose proof Hx as (Hxok & _). rewrite mp_eq_integer_spec by (done || unfold is_uintmax; lia).
  rewrite (mont_val _ _ _ Hmc Hx). pose proof (mo_m_bound _ Hmc) as Hm.
  destruct (Z.eqb_spec ((X * Bp (mc_rw mc)) mod val (mc_m mc)) 0) as [E|E];
    destruct (Z.eqb_spec (X mod val (mc_m mc)) 0) as [E'|E']; try done; exfalso.
  - apply E'. rewrite <-(Zmod_0_l (val (mc_m mc))). apply (cong_eq (m := val (mc_m mc))), (monty_cancel mc _ _ Hmc).
    split. by rewrite E, Z.mul_0_l, Zmod_0_l.
  - apply E. by rewrite <-Zmult_mod_idemp_l, E', Z.mul_0_l, Zmod_0_l.
Qed.

Lemma mont_select mc a b A B (c : bool) : mont mc a A -> mont mc b B ->
  mont mc (mp_select_into (mc_rw mc) a b (Z.b2z c)) (if c then B else A).
Proof.
  intros Ha Hb. rewrite mp_select_into_eq, odd_b2z by (apply Ha || apply Hb).
  destruct c; [pose proof Hb as (_ & E & _)|pose proof Ha as (_ & E & _)]; rewrite <-E, fill_words; done.
Qed.

(** A square root of one modulo a prime. *)
Lemma root_of_one p y : prime p -> cong p (y * y) 1 -> cong p y 1 \/ cong p y (-1).
Proof.
  intros Hp [E]. assert (p | (y - 1) * (y + 1)) as Hd.
  { pose proof (prime_ge_2 p Hp). apply Z.mod_divide; [lia|]. replace ((y - 1) * (y + 1)) with (y * y - 1) by ring.
    by rewrite Zminus_mod, E, Z.sub_diag, Zmod_0_l. }
  apply prime_mult in Hd as [[q Hq]|[q Hq]]; [left|right|done].
  - replace y with (p * q + 1) by lia. by rewrite (cong_self p).
  - replace y with (p * q + -1) by lia. by rewrite (cong_self p).
Qed.

(** ** The loop *)

Section Sqrt.
Context (mc : MontyContext) (p X ZK : Z) (e : nat) (x : mp_int).
Context (Hmc : monty_ok mc) (Ep : val (mc_m mc) = p) (Hprime : prime p) (Hx : mont mc x X).
Context (He : (0 < e)%nat) (HZ : cong p (ZK ^ 2 ^ (Z.of_nat e - 1)) (-1)).

(** [XK] is [x^K] when the loop starts; [x] is a square when its power
    [2^(e-1)] is one. *)
Context (XK : Z).
Definition is_residue : bool := XK ^ 2 ^ (Z.of_nat e - 1) mod p =? 1 mod p.

(** What holds before round [i] > 0. *)
Definition sqrt_inv (i : nat) (st : modsqrt_state) : Prop := exists T Y W,
  mont mc (ss_toret st) T /\ mont mc (ss_xk st) Y /\ mont mc (ss_power_of_zk st) W /\
  cong p (T * T) (X * Y) /\ cong p W (ZK ^ 2 ^ (Z.of_nat i - 1)) /\
  (is_residue = true -> cong p (Y ^ 2 ^ (Z.of_nat e - Z.of_nat i)) 1) /\
  ss_success st = Some (Z.b2z (is_residue || (X mod p =? 0))).

Lemma mont_copy_same a A : mont mc a A -> mp_copy_into (mc_rw mc) a = a.
Proof. intros (_ & <- & _). apply mp_copy_into_same. Qed.

Lemma modsqrt_round_0 T W toret xk pz s0 : mont mc toret T -> mont mc xk XK -> mont mc pz W ->
  cong p (T * T) (X * XK) -> cong p W ZK ->
  exists st, modsqrt_round mc x e 0 (SqrtState toret xk pz s0) = Ok st /\ sqrt_inv 1 st.
Proof.
  intros HT HY HW Hsq Hw. unfold modsqrt_round. rewrite (mont_copy_same _ _ HY).
  destruct (monty_square_times_spec mc Hmc (e - (0 + 1)) xk XK HY) as (tmp & -> & Ht). cbn [res_bind Nat.eqb].
  replace (Z.of_nat (e - (0 + 1))) with (Z.of_nat e - 1) in Ht by lia.
  eexists. split; [done|]. exists T, XK, W. cbn [ss_toret ss_xk ss_power_of_zk ss_success]. split_and!; try done.
  - by rewrite Z.pow_1_r.
  - intros Hr. by apply cong_eqb in Hr.
  - rewrite (mont_is_one mc tmp _ Hmc Ht), (mont_is_zero mc x X Hmc Hx), Ep. fold is_residue.
    by destruct is_residue, (X mod p =? 0).
Qed.

(** The adjustment of round [i]. *)
Lemma adjust_power i Y : (0 < i < e)%nat -> cong p (Y ^ 2 ^ (Z.of_nat e - Z.of_nat i)) 1 ->
  let y := Y ^ 2 ^ (Z.of_nat e - Z.of_nat (S i)) in
  cong p (if y mod p =? 1 mod p then y else (Y * ZK ^ 2 ^ Z.of_nat i) ^ 2 ^ (Z.of_nat e - Z.of_nat (S i))) 1.
Proof.
  intros Hi H y. destruct (y mod p =? 1 mod p) eqn:E; [by apply cong_eqb|].
  assert (cong p (y * y) 1) as Hyy.
  { unfold y. rewrite <-Z.pow_add_r by lia. rewrite <-H. apply eq_cong. f_equal.
    replace (Z.of_nat e - Z.of_nat i) with (Z.succ (Z.of_nat e - Z.of_nat (S i))) by lia. rewrite Z.pow_succ_r by lia. lia. }
  destruct (root_of_one p y Hprime Hyy) as [Hy|Hy]; [apply cong_eqb in Hy; congruence|].
  rewrite Z.pow_mul_l. fold y. rewrite Hy, <-Z.pow_mul_r, <-Z.pow_add_r by lia.
  replace (Z.of_nat i + (Z.of_nat e - Z.of_nat (S i))) with (Z.of_nat e - 1) by lia. by rewrite HZ.
Qed.

Lemma modsqrt_round_S i st : (0 < i < e)%nat -> sqrt_inv i st ->
  exists st', modsqrt_round mc x e i st = Ok st' /\ sqrt_inv (S i) st'.
Proof.
  intros Hi (T & Y & W & HT & HY & HW & Hsq & Hw & Hres & Hs). destruct st as [toret xk pz s].
  cbn [ss_toret ss_xk ss_power_of_zk ss_success] in *. unfold modsqrt_round. rewrite (mont_copy_same _ _ HY).
  destruct (monty_square_times_spec mc Hmc (e - (i + 1)) xk Y HY) as (tmp & -> & Ht). cbn [res_bind].
  replace (Z.of_nat (e - (i + 1))) with (Z.of_nat e - Z.of_nat (S i)) in Ht by lia.
  rewrite (mont_is_one mc tmp _ Hmc Ht), Ep. set (eq1 := _ =? 1 mod p). rewrite (proj2 (Nat.eqb_neq i 0)) by lia.
  destruct (monty_mul_into_spec mc toret pz T W Hmc HT HW) as (t1 & -> & Ht1). cbn [res_bind].
  destruct (monty_mul_into_spec mc pz pz W W Hmc HW HW) as (pz' & -> & Hpz'). cbn [res_bind].
  destruct (monty_mul_into_spec mc xk pz' Y (W * W) Hmc HY Hpz') as (t2 & -> & Ht2). cbn [res_bind].
  replace (length toret) with (mc_rw mc) by (symmetry; apply HT).
  eexists. split; [done|]. exists (if eq1 then T else T * W), (if eq1 then Y else Y * (W * W)), (W * W).
  cbn [ss_toret ss_xk ss_power_of_zk ss_success].
  assert (cong p (W * W) (ZK ^ 2 ^ Z.of_nat i)) as Hww.
  { rewrite Hw, <-Z.pow_add_r by lia. apply eq_cong. f_equal.
    replace (Z.of_nat i) with (Z.succ (Z.of_nat i - 1)) at 3 by lia. rewrite Z.pow_succ_r by lia. lia. }
  split_and!; [by apply mont_select..|done| | | |done].
  - destruct eq1; [done|]. transitivity ((T * T) * (W * W)); [apply eq_cong; ring|]. rewrite Hsq. apply eq_cong. ring.
  - replace (Z.of_nat (S i) - 1) with (Z.of_nat i) by lia. done.
  - intros Hr. pose proof (adjust_power i Y Hi (Hres Hr)) as Ha. cbn zeta in Ha. fold eq1 in Ha.
    destruct eq1; [done|]. rewrite <-Ha. apply cong_pow. by rewrite Hww.
Qed.

Lemma modsqrt_loop_spec k : forall i st, (0 < i)%nat -> (i + k = e)%nat -> sqrt_inv i st ->
  exists st', modsqrt_loop mc x e k i st = Ok st' /\ sqrt_inv e st'.
Proof.
  induction k as [|k IH]; intros i st Hi Hk Hst; cbn [modsqrt_loop].
  - exists st. replace e with i by lia. done.
  - destruct (modsqrt_round_S i st ltac:(lia) Hst) as (st' & -> & Hst'). cbn [res_bind]. apply IH; (done || lia).
Qed.

Lemma modsqrt_loop_all T W toret xk pz : mont mc toret T -> mont mc xk XK -> mont mc pz W ->
  cong p (T * T) (X * XK) -> cong p W ZK ->
  exists st, modsqrt_loop mc x e e 0 (SqrtState toret xk pz None) = Ok st /\ sqrt_inv e st.
Proof.
  intros HT HY HW Hsq Hw. enough (forall k, k = e -> exists st, modsqrt_loop mc x e k 0 (SqrtState toret xk pz None) = Ok st /\ sqrt_inv e st)
    as H by (by apply H).
  intros [|k] Hk; [lia|]. cbn [modsqrt_loop].
  destruct (modsqrt_round_0 T W toret xk pz None HT HY HW Hsq Hw) as (st & -> & Hst). cbn [res_bind].
  apply modsqrt_loop_spec; (done || lia).
Qed.
End Sqrt.

Lemma half_order p K e : (0 < e)%nat -> 2 ^ Z.of_nat e * K = p - 1 -> K * 2 ^ (Z.of_nat e - 1) = (p - 1) / 2.
Proof.
  intros He <-. replace (Z.of_nat e) with (1 + (Z.of_nat e - 1)) at 2 by lia. rewrite Z.pow_add_r by lia.
  change (2 ^ 1) with 2. rewrite <-Z.mul_assoc, (Z.mul_comm 2), Z.div_mul by lia. ring.
Qed.

Lemma modsqrt_lazy_setup_spec sc p z K : modsqrt_ok sc p z K ->
  exists sc' zk, modsqrt_lazy_setup sc = Ok (sc', zk) /\ modsqrt_ok sc' p z K /\ mont (sc_mc sc') zk (z ^ K) /\
    sc_mc sc' = sc_mc sc.
Proof.
  intros H. unfold modsqrt_lazy_setup. destruct (sc_zk sc) as [zk|] eqn:E.
  - exists sc, zk. split_and!; try done. by apply (so_zk _ _ _ _ H).
  - destruct (so_k _ _ _ _ H) as (Hk & Hlk & Hvk).
    destruct (monty_pow_spec (sc_mc sc) (sc_z sc) (sc_k sc) z (so_mc _ _ _ _ H) (so_z _ _ _ _ H) Hk Hlk) as (zk & -> & Hz).
    rewrite Hvk in Hz. cbn [res_bind]. eexists _, zk. split_and!; [done| |done|done].
    destruct H. constructor; cbn [sc_mc sc_e sc_k sc_km1o2 sc_z sc_zk]; try done. by intros zk' [= <-].
Qed.

(** The success flag says whether [x] is zero or of power [(p-1)/2] equal to
    one; and then the result is a square root. *)
Lemma monty_modsqrt_spec sc p z K x X : modsqrt_ok sc p z K -> prime p -> cong p (z ^ ((p - 1) / 2)) (-1) ->
  mont (sc_mc sc) x X ->
  exists r sc' R (ok : bool), monty_modsqrt sc x = Ok (r, Some (Z.b2z ok), sc') /\ modsqrt_ok sc' p z K /\
    sc_mc sc' = sc_mc sc /\ mont (sc_mc sc) r R /\
    ok = ((X ^ ((p - 1) / 2)) mod p =? 1 mod p) || (X mod p =? 0) /\ (ok = true -> cong p (R * R) X).
Proof.
  intros Hsc Hp Hz Hx. unfold monty_modsqrt.
  destruct (modsqrt_lazy_setup_spec sc p z K Hsc) as (sc' & zk & -> & Hsc' & Hzk & Emc). cbn [res_bind].
  pose proof (so_mc _ _ _ _ Hsc') as Hmc. pose proof (so_e _ _ _ _ Hsc') as He. pose proof (so_p _ _ _ _ Hsc') as Ep.
  pose proof (so_K _ _ _ _ Hsc') as HK. pose proof (half_order p K _ He HK) as Hhalf.
  destruct (so_km1o2 _ _ _ _ Hsc') as (Hk2 & Hlk2 & Hvk2). rewrite <-Emc in *. set (mc := sc_mc sc') in *. set (e := sc_e sc') in *.
  pose proof (prime_ge_2 p Hp) as Hp2. assert (0 < K) as HK0. { pose proof (so_K_odd _ _ _ _ Hsc'). assert (0 < 2 ^ Z.of_nat e) by lia. nia. }
  assert (2 * (K / 2) + 1 = K) as EK. { pose proof (Z.div_mod K 2 ltac:(lia)) as E. rewrite Zmod_odd, (so_K_odd _ _ _ _ Hsc') in E. done. }
  assert (0 <= K / 2) as HK2 by lia.
  destruct (monty_pow_spec mc x (sc_km1o2 sc') X Hmc Hx Hk2 Hlk2) as (t0 & -> & Ht0). rewrite Hvk2 in Ht0. cbn [res_bind].
  rewrite (mont_copy_same mc _ _ Ht0), (mont_copy_same mc _ _ Hzk). replace (length t0) with (mc_rw mc) by (symmetry; apply Ht0).
  destruct (monty_mul_into_spec mc t0 x _ _ Hmc Ht0 Hx) as (t1 & -> & Ht1). cbn [res_bind].
  destruct (monty_mul_into_spec mc t1 t0 _ _ Hmc Ht1 Ht0) as (xk & -> & Hxk). cbn [res_bind].
  assert (X ^ (K / 2) * X * X ^ (K / 2) = X ^ K) as EX.
  { replace (X ^ K) with (X ^ (2 * (K / 2) + 1)) by (by rewrite EK). rewrite Z.pow_add_r, Z.pow_1_r, Z.pow_mul_r, Z.pow_2_r, Z.pow_mul_l by lia. ring. }
  rewrite EX in Hxk.
  assert (cong p ((z ^ K) ^ 2 ^ (Z.of_nat e - 1)) (-1)) as HZ by (rewrite <-Z.pow_mul_r, Hhalf by lia; done).
  destruct (modsqrt_loop_all mc p X (z ^ K) e x Hmc Ep Hp Hx He HZ (X ^ K) (X ^ (K / 2) * X) (z ^ K) t1 xk zk)
    as (st & -> & T & Y & W & HT & _ & _ & Hsq & _ & Hres & Hs); try done.
  { rewrite <-EX. apply eq_cong. ring. }
  cbn [res_bind]. rewrite Hs. eexists _, _, T, _. split; [done|]. split_and!; try done.
  - unfold is_residue. by rewrite <-Z.pow_mul_r, Hhalf by lia.
  - intros [Hr|Hr]%orb_prop.
    + specialize (Hres Hr). rewrite Z.sub_diag, Z.pow_1_r in Hres. by rewrite Hsq, Hres, Z.mul_1_r.
    + assert (cong p X 0) as H0 by (split; apply Z.eqb_eq in Hr; by rewrite Hr, Zmod_0_l).
      by rewrite Hsq, H0.
Qed.

Lemma mp_modsqrt_spec sc p z K x : modsqrt_ok sc p z K -> prime p -> cong p (z ^ ((p - 1) / 2)) (-1) ->
  wordsOK x -> small_len x ->
  exists r sc' (ok : bool), mp_modsqrt sc x = Ok (r, Some (Z.b2z ok), sc') /\ modsqrt_ok sc' p z K /\
    wordsOK r /\ 0 <= val r < p /\
    ok = ((val x ^ ((p - 1) / 2)) mod p =? 1 mod p) || (val x mod p =? 0) /\
    (ok = true -> (val r * val r) mod p = val x mod p).
Proof.
  intros Hsc Hp Hz Hx Lx. unfold mp_modsqrt. pose proof (so_mc _ _ _ _ Hsc) as Hmc.
  destruct (monty_import_spec (sc_mc sc) x Hmc Hx Lx) as (mx & -> & Hmx). cbn [res_bind].
  destruct (monty_modsqrt_spec sc p z K mx _ Hsc Hp Hz Hmx) as (r & sc' & R & ok & -> & Hsc' & Emc & Hr & Hok & Hsq). cbn [res_bind].
  rewrite Emc. destruct (monty_export_spec (sc_mc sc) r R Hmc Hr) as (root & -> & Hroot & _ & Hv). cbn [res_bind].
  rewrite (so_p _ _ _ _ Hsc) in Hv. pose proof (prime_ge_2 p Hp).
  exists root, sc', ok. split; [done|]. split_and!; try done.
  - rewrite Hv. apply Z.mod_pos_bound. lia.
  - rewrite Hv. apply Z.mod_pos_bound. lia.
  - intros Ho. rewrite Hv, <-Zmult_mod. by apply cong_eq, Hsq.
Qed.

(** ** Random numbers *)

Section Random.
Context (random_read : nat -> list Z).
(** [random_read] fills the whole buffer, with bytes. *)
Context (Hread : forall n, length (random_read n) = n /\ bytesOK (random_read n)).

Lemma digits_be_bound d b l : is_digit d b -> Forall (is_digit d) l -> forall k, 0 <= k -> b < 2 ^ k ->
  0 <= digits_val d (reverse (b :: l)) < 2 ^ (k + Z.of_nat (d * length l)).
Proof.
  intros Hb Hl k Hk Hbk. rewrite reverse_cons, digits_val_snoc, length_reverse.
  assert (Forall (is_digit d) (reverse l)) as Hr by (by apply Forall_reverse).
  pose proof (digits_val_bound d (reverse l) Hr) as Hd. rewrite length_reverse in Hd. rewrite Z.pow_add_r by lia.
  unfold is_digit in Hb. nia.
Qed.

Lemma mp_random_bits_fn_spec bits : is_size bits ->
  exists r, mp_random_bits_fn bits random_read = Ok r /\ (0 < length r <= bits / 32 + 2)%nat /\ wordsOK r /\ 0 <= val r < 2 ^ Z.of_nat bits.
Proof.
  unfold is_size. intros Hs. unfold mp_random_bits_fn. remember ((bits + 7) / 8)%nat as n eqn:En.
  destruct (Hread n) as [Hl Hb].
  pose proof (Nat.div_mod_eq (bits + 7) 8) as Hdm. pose proof (Nat.mod_upper_bound (bits + 7) 8 ltac:(lia)) as Hmb. rewrite <-En in Hdm.
  destruct (random_read n) as [|b l] eqn:E.
  - cbn in Hl. rewrite <-Hl. cbn [Nat.eqb]. destruct (mp_from_bytes_be_spec [] (Forall_nil_2 _) ltac:(unfold is_size; cbn; lia)) as (r & -> & H1 & H2 & H3).
    exists r. cbn in H1, H3. rewrite H3. split_and!; try done; lia.
  - cbn [length] in Hl. rewrite (proj2 (Nat.eqb_neq n 0)) by lia. change (alter ?f 0%nat (b :: l)) with (f b :: l).
    apply Forall_cons in Hb as [Hb Hbl].
    set (s := ((bits - 1) mod 8)%nat). assert (bits = s + 1 + 8 * length l)%nat as Ebits.
    { pose proof (Nat.div_mod_eq (bits - 1) 8) as Hd1. fold s in Hd1.
      assert (s < 8)%nat by (apply Nat.mod_upper_bound; lia). assert ((bits - 1) / 8 = length l)%nat; [|lia].
      symmetry. apply Nat.div_unique with s; [done|]. lia. }
    set (b' := Z.land b (Z.shiftl 2 (Z.of_nat s) - 1)).
    assert (0 <= b' < 2 ^ (Z.of_nat s + 1)) as Hb'.
    { unfold b'. rewrite Z.shiftl_mul_pow2, <-Z.pow_succ_r, Z.sub_1_r, <-Z.ones_equiv, Z.land_ones by lia. apply Z.mod_pos_bound. lia. }
    assert (is_byte b') as Hbb by (apply (land_bound_l 8); [lia|done]).
    destruct (mp_from_bytes_be_spec (b' :: l)) as (r & -> & H1 & H2 & H3); [by constructor|unfold is_size; cbn [length]; lia|].
    assert (length r <= bits / 32 + 2)%nat as Hlr.
    { rewrite H1. cbn [length]. apply Nat.max_lub; [|lia].
      apply Nat.Div0.div_le_upper_bound. pose proof (Nat.div_mod_eq bits 32). pose proof (Nat.mod_upper_bound bits 32 ltac:(lia)). lia. }
    exists r. split; [done|]. split; [lia|]. split; [done|]. rewrite H3. pose proof (digits_be_bound 8 b' l Hbb (bytesOK_digits _ Hbl) (Z.of_nat s + 1) ltac:(lia) ltac:(lia)) as Hd.
    rewrite Ebits. replace (Z.of_nat (s + 1 + 8 * length l)) with (Z.of_nat s + 1 + Z.of_nat (8 * length l)) by lia. lia.
Qed.

Lemma mp_random_upto_fn_spec limit : wordsOK limit -> small_len limit -> 0 < val limit ->
  exists r, mp_random_upto_fn limit random_read = Ok r /\ length r = length limit /\ wordsOK r /\ 0 <= val r < val limit.
Proof.
  intros Hlim [L0 L1] Hpos. unfold mp_random_upto_fn.
  destruct (mp_random_bits_fn_spec (length limit * 32 + 128)) as (u & -> & Hlu & Hu & Hbu); [unfold is_size; lia|]. cbn [res_bind].
  replace (length limit * 32 + 128)%nat with ((length limit + 4) * 32)%nat in Hlu by lia. rewrite Nat.div_mul in Hlu by lia.
  destruct (mp_mod_spec u limit) as (r & -> & Hl & Hr & Hv); [done|done|lia|done|unfold div_size; lia|].
  exists r. split_and!; try done; rewrite Hv; by apply Z.mod_pos_bound.
Qed.

Lemma mp_random_in_range_fn_spec lo hi : wordsOK lo -> wordsOK hi -> small_len lo -> small_len hi -> val lo < val hi ->
  exists r, mp_random_in_range_fn lo hi random_read = Ok r /\ length r = length hi /\ wordsOK r /\ val lo <= val r < val hi.
Proof.
  intros Hlo Hhi [Ll0 Ll] [Lh0 Lh] Hlt. unfold mp_random_in_range_fn. pose proof (val_bound lo Hlo). pose proof (val_bound hi Hhi) as Bh.
  destruct (mp_sub_spec hi lo Hhi Hlo ltac:(lia)) as (d & -> & Hld & Hd & Hvd). cbn [res_bind].
  pose proof (Bp_mono (length hi) (length hi `max` length lo) ltac:(lia)) as Hmono. rewrite Z.mod_small in Hvd by lia.
  destruct (mp_random_upto_fn_spec d) as (r & -> & Hlr & Hr & Br); [done|unfold small_len; lia|lia|]. cbn [res_bind].
  unfold mp_make_sized. rewrite c_assert_true by (by apply Nat.ltb_lt). cbn [res_bind]. rewrite length_replicate.
  destruct (mp_add_into_spec (length hi) r lo Hr Hlo) as (H1 & H2 & H3).
  eexists. split; [done|]. split_and!; try done; rewrite H3, Z.mod_small by lia; lia.
Qed.
End Random.
