(* ===== verification/MpintRoot.v ===== *)
(** * Multiprecision integers: integer roots
    ([libs/putty/crypto/mpint.c], [mp_nthroot]) *)

From S2P Require Import Prelude MpintCore MpintArith MpintMul MpintShift MpintDiv MpintMonty.

Local Open Scope Z_scope.
Local Open Scope cmodel_scope.

Definition power_at (powers : list mp_int) (j : nat) : mp_int := default [] (powers !! j).

(** The terms from [j] on, [k] of them, of the expansion of [(x+b)^i].
    [binom] is a [uint16_t], its product a [uint32_t]. *)
Fixpoint nthroot_terms (powers : list mp_int) (nw s i k j : nat) (binom : Z) (acc : mp_int) : res mp_int :=
  match k with
  | O => Ok acc
  | S k =>
      let! scratch := mp_mul_integer_into nw (power_at powers j) binom in
      let scratch := mp_lshift_fixed_into nw scratch ((i - j) * s) in
      let acc := mp_add_into (length acc) acc scratch in
      let binom_mul := w32 (binom * Z.of_nat (i - j)) in
      let binom_mul := binom_mul / Z.of_nat (j + 1) in
      c_assert (binom_mul <? 65536)
      (nthroot_terms powers nw s i k (S j) binom_mul acc)
  end.

(** [newpowers[i]]. *)
Definition nthroot_newpower (powers : list mp_int) (nw s i : nat) : res mp_int :=
  nthroot_terms powers nw s i i 0 1 (mp_copy_into nw (power_at powers i)).

(** [newpowers] from entry [i] on, [k] entries. *)
Fixpoint nthroot_newpowers (powers : list mp_int) (nw s k i : nat) : res (list mp_int) :=
  match k with
  | O => Ok []
  | S k =>
      let! p := nthroot_newpower powers nw s i in
      let! rest := nthroot_newpowers powers nw s k (S i) in
      Ok (p :: rest)
  end.

(** [for (s = ...; s-- > 0 ;)] *)
Fixpoint nthroot_loop (y : mp_int) (nw n s : nat) (powers : list mp_int) : res (list mp_int) :=
  match s with
  | O => Ok powers
  | S s =>
      let! newpowers := nthroot_newpowers powers nw s (n + 1) 0 in
      let newbit := mp_cmp_hs y (power_at newpowers n) in
      let powers := (fun i => mp_select_into nw (power_at powers i) (power_at newpowers i) newbit) <$> seq 0 (n + 1) in
      nthroot_loop y nw n s powers
  end.

(** [mp_nthroot(y, n, remainder_out)]: the root, and the remainder when a
    destination for it is given by its size. *)
Definition mp_nthroot (y : mp_int) (n : nat) (remainder_out : option nat) : res (mp_int * option mp_int) :=
  let nw := (length y + 1)%nat in
  let powers := mp_copy_integer_into nw 1 :: replicate n (replicate nw 0) in
  if (n =? 0)%nat then Crash UndefinedBehaviour else
  let! powers := nthroot_loop y nw n (32 * length y / n + 1) powers in
  let remainder := (fun nr => mp_sub_into nr y (power_at powers n)) <$> remainder_out in
  let! root := mp_new (Z.of_nat (32 * length y / n)) in
  Ok (mp_copy_into (length root) (power_at powers 1), remainder).

(** ** Binomial coefficients *)

Fixpoint choose (n k : nat) : Z :=
  match n, k with
  | _, O => 1
  | O, S _ => 0
  | S n, S k => choose n k + choose n (S k)
  end.

Lemma choose_0 n : choose n 0 = 1.
Proof. by destruct n. Qed.

Lemma choose_over n : forall k, (n < k)%nat -> choose n k = 0.
Proof.
  induction n as [|n IH]; intros [|k] H; try lia; [done|]. cbn [choose]. rewrite !IH by lia. done.
Qed.

(** The recurrence the code steps along a row with. *)
Lemma choose_step n : forall k, Z.of_nat (S k) * choose n (S k) = (Z.of_nat n - Z.of_nat k) * choose n k.
Proof.
  induction n as [|n IH]; intros k.
  - destruct k; cbn [choose]; lia.
  - destruct k as [|k]; cbn [choose].
    + pose proof (IH 0%nat) as H. rewrite choose_0 in *. lia.
    + pose proof (IH k) as H1. pose proof (IH (S k)) as H2. nia.
Qed.

Lemma choose_nonneg n : forall k, 0 <= choose n k.
Proof. induction n as [|n IH]; intros [|k]; cbn [choose]; try lia. pose proof (IH k). pose proof (IH (S k)). lia. Qed.

(** The terms of [(x+b)^n] with an exponent of [x] below [k]. *)
Fixpoint binom_sum (n : nat) (x b : Z) (k : nat) : Z :=
  match k with
  | O => 0
  | S k => binom_sum n x b k + choose n k * x ^ Z.of_nat k * b ^ Z.of_nat (n - k)
  end.

Lemma binom_sum_S n x b k : (k <= n)%nat ->
  binom_sum (S n) x b (S k) = b * binom_sum n x b (S k) + x * binom_sum n x b k.
Proof.
  induction k as [|k IH]; intros Hk.
  - cbn [binom_sum]. rewrite !choose_0. replace (S n - 0)%nat with (S n) by lia. rewrite Nat.sub_0_r, Nat2Z.inj_succ, Z.pow_succ_r by lia. lia.
  - change (binom_sum (S n) x b (S (S k))) with (binom_sum (S n) x b (S k) + choose (S n) (S k) * x ^ Z.of_nat (S k) * b ^ Z.of_nat (S n - S k)).
    rewrite IH by lia. cbn [choose].
    change (binom_sum n x b (S (S k))) with (binom_sum n x b (S k) + choose n (S k) * x ^ Z.of_nat (S k) * b ^ Z.of_nat (n - S k)).
    change (binom_sum n x b (S k)) with (binom_sum n x b k + choose n k * x ^ Z.of_nat k * b ^ Z.of_nat (n - k)).
    replace (S n - S k)%nat with (n - k)%nat by lia.
    replace (b ^ Z.of_nat (n - k)) with (b * b ^ Z.of_nat (n - S k)) by (rewrite <-Z.pow_succ_r by lia; f_equal; lia).
    rewrite Nat2Z.inj_succ, Z.pow_succ_r by lia. ring.
Qed.

(** The binomial theorem. *)
Lemma binomial n x b : binom_sum n x b (S n) = (x + b) ^ Z.of_nat n.
Proof.
  induction n as [|n IH]; [done|].
  change (binom_sum (S n) x b (S (S n))) with (binom_sum (S n) x b (S n) + choose (S n) (S n) * x ^ Z.of_nat (S n) * b ^ Z.of_nat (S n - S n)).
  rewrite binom_sum_S, Nat.sub_diag by lia. cbn [choose]. rewrite (choose_over n (S n)) by lia.
  rewrite Nat2Z.inj_succ, !Z.pow_succ_r, <-IH by lia. cbn [binom_sum]. rewrite Nat.sub_diag. cbn [Z.of_nat]. rewrite Z.pow_0_r. ring.
Qed.

Lemma binom_sum_mono n x b k : 0 <= x -> 0 <= b -> forall j, 0 <= binom_sum n x b k <= binom_sum n x b (k + j).
Proof.
  intros Hx Hb. assert (forall k, 0 <= choose n k * x ^ Z.of_nat k * b ^ Z.of_nat (n - k)) as Ht.
  { intros i. pose proof (choose_nonneg n i). apply Z.mul_nonneg_nonneg; [apply Z.mul_nonneg_nonneg; [done|]|]; by apply Z.pow_nonneg. }
  assert (0 <= binom_sum n x b k) as H0 by (induction k; cbn [binom_sum]; [done|specialize (Ht k); lia]).
  intros j. split; [done|]. induction j as [|j IH]; [by rewrite Nat.add_0_r|]. rewrite Nat.add_succ_r. cbn [binom_sum].
  specialize (Ht (k + j)%nat). lia.
Qed.

(** Up to the eighteenth row the coefficients fit a [uint16_t]. *)
Lemma choose_16 i j : (i <= 18)%nat -> choose i j < 65536.
Proof.
  intros Hi. destruct (Nat.le_gt_cases j 18) as [Hj|Hj]; [|rewrite choose_over by lia; lia].
  assert (forallb (fun i => forallb (fun j => choose i j <? 65536) (seq 0 19)) (seq 0 19) = true) as H by (by vm_compute).
  rewrite forallb_forall in H. specialize (H i). rewrite in_seq in H. specialize (H ltac:(lia)).
  rewrite forallb_forall in H. specialize (H j). rewrite in_seq in H. specialize (H ltac:(lia)). by apply Z.ltb_lt.
Qed.

(** The code's step from one coefficient to the next. *)
Lemma binom_step i j : (j < i <= 18)%nat ->
  w32 (choose i j * Z.of_nat (i - j)) / Z.of_nat (j + 1) = choose i (S j).
Proof.
  intros Hij. pose proof (choose_16 i j ltac:(lia)). pose proof (choose_nonneg i j).
  rewrite w32_small by (unfold is_word; nia). pose proof (choose_step i j) as Hs.
  replace (choose i j * Z.of_nat (i - j)) with (choose i (S j) * Z.of_nat (j + 1)) by nia.
  apply Z.div_mul. lia.
Qed.

Lemma choose_diag n : choose n n = 1.
Proof. induction n as [|n IH]; [done|]. cbn [choose]. by rewrite IH, choose_over by lia. Qed.

Lemma binom_split i x b : x ^ Z.of_nat i + binom_sum i x b i = (x + b) ^ Z.of_nat i.
Proof. rewrite <-binomial. cbn [binom_sum]. rewrite choose_diag, Nat.sub_diag, Z.pow_0_r. ring. Qed.

(** ** The loops *)

(** The powers [x^0] to [x^n]. *)
Definition powers_ok (n nw : nat) (x : Z) (powers : list mp_int) : Prop :=
  forall i, (i <= n)%nat -> wordsOK (power_at powers i) /\ length (power_at powers i) = nw /\ val (power_at powers i) = x ^ Z.of_nat i.

Lemma nthroot_terms_spec n nw s x powers i : powers_ok n nw x powers -> (i <= n <= 18)%nat -> 0 <= x ->
  (x + 2 ^ Z.of_nat s) ^ Z.of_nat i < Bp nw -> forall k j acc, (j + k = i)%nat ->
  wordsOK acc -> length acc = nw -> val acc = x ^ Z.of_nat i + binom_sum i x (2 ^ Z.of_nat s) j ->
  exists r, nthroot_terms powers nw s i k j (choose i j) acc = Ok r /\ wordsOK r /\ length r = nw /\
    val r = (x + 2 ^ Z.of_nat s) ^ Z.of_nat i.
Proof.
  intros Hpow Hi Hx Hfit. set (b := 2 ^ Z.of_nat s) in *. assert (1 <= b) as Hb by (unfold b; lia).
  induction k as [|k IH]; intros j acc Hj Hok Hl Hv; cbn [nthroot_terms].
  - exists acc. split_and!; try done. replace j with i in Hv by lia. by rewrite Hv, binom_split.
  - destruct (Hpow j ltac:(lia)) as (Hpj & Hlpj & Hvpj).
    pose proof (choose_16 i j ltac:(lia)) as Hc16. pose proof (choose_nonneg i j) as Hc0.
    pose proof (binom_sum_mono i x b j Hx ltac:(lia) 0) as [Hs0 _].
    pose proof (binom_sum_mono i x b (S j) Hx ltac:(lia) k) as [_ Hs1]. replace (S j + k)%nat with i in Hs1 by lia.
    pose proof (binom_split i x b) as Hsplit. cbn [binom_sum] in Hs1.
    assert (0 <= x ^ Z.of_nat i) as Hxi by (by apply Z.pow_nonneg). assert (0 <= x ^ Z.of_nat j) as Hxj by (by apply Z.pow_nonneg).
    set (term := choose i j * x ^ Z.of_nat j * b ^ Z.of_nat (i - j)) in *.
    assert (1 <= b ^ Z.of_nat (i - j)) as Hbp. { rewrite <-(Z.pow_1_l (Z.of_nat (i - j))) by lia. apply Z.pow_le_mono_l. lia. }
    assert (0 <= choose i j * x ^ Z.of_nat j) as Hcx by (by apply Z.mul_nonneg_nonneg).
    assert (choose i j * x ^ Z.of_nat j <= term) as Hct by (unfold term; nia).
    pose proof (mp_mul_integer_into_spec nw (power_at powers j) (choose i j) Hpj ltac:(lia) ltac:(lia)) as Hmul.
    rewrite Hvpj, (proj2 (Z.ltb_lt _ _)) in Hmul by lia. destruct Hmul as (scr & -> & Hlscr & Hscr & Hvscr). cbn [res_bind].
    destruct (mp_lshift_fixed_into_spec nw scr ((i - j) * s) Hscr) as (Hl1 & Hok1 & Hv1).
    set (scr1 := mp_lshift_fixed_into _ _ _) in *.
    assert (2 ^ Z.of_nat ((i - j) * s) = b ^ Z.of_nat (i - j)) as Eb.
    { unfold b. rewrite <-Z.pow_mul_r by lia. f_equal. lia. }
    assert (val scr1 = term) as Hv1'.
    { rewrite Hv1, Hvscr, Eb. unfold term. rewrite (Z.mul_comm (x ^ _) (choose i j)). fold term. apply Z.mod_small. lia. }
    destruct (mp_add_into_spec (length acc) acc scr1 Hok Hok1) as (Hl2 & Hok2 & Hv2).
    rewrite binom_step by lia. rewrite c_assert_true by (apply Z.ltb_lt, choose_16; lia).
    apply IH; [lia|done|congruence|]. rewrite Hv2, Hv, Hv1', Hl. cbn [binom_sum]. fold term.
    rewrite Z.mod_small by lia. lia.
Qed.

Lemma nthroot_newpower_spec n nw s x powers i : powers_ok n nw x powers -> (i <= n <= 18)%nat -> 0 <= x ->
  (x + 2 ^ Z.of_nat s) ^ Z.of_nat i < Bp nw ->
  exists r, nthroot_newpower powers nw s i = Ok r /\ wordsOK r /\ length r = nw /\ val r = (x + 2 ^ Z.of_nat s) ^ Z.of_nat i.
Proof.
  intros Hpow Hi Hx Hfit. unfold nthroot_newpower. rewrite <-(choose_0 i).
  destruct (Hpow i ltac:(lia)) as (Hp & Hl & Hv). assert (mp_copy_into nw (power_at powers i) = power_at powers i) as -> by (rewrite <-Hl; apply mp_copy_into_same).
  eapply nthroot_terms_spec; try done. cbn [binom_sum]. lia.
Qed.

Lemma nthroot_newpowers_spec n nw s x powers k : powers_ok n nw x powers -> (n <= 18)%nat -> 0 <= x ->
  (forall i, (i <= n)%nat -> (x + 2 ^ Z.of_nat s) ^ Z.of_nat i < Bp nw) -> forall i, (i + k <= n + 1)%nat ->
  exists l, nthroot_newpowers powers nw s k i = Ok l /\ length l = k /\
    forall j, (j < k)%nat -> wordsOK (power_at l j) /\ length (power_at l j) = nw /\
      val (power_at l j) = (x + 2 ^ Z.of_nat s) ^ Z.of_nat (i + j).
Proof.
  intros Hpow Hn Hx Hfit. induction k as [|k IH]; intros i Hi; cbn [nthroot_newpowers].
  - exists []. split_and!; [done..|lia].
  - destruct (nthroot_newpower_spec n nw s x powers i Hpow ltac:(lia) Hx (Hfit i ltac:(lia))) as (p & -> & Hp & Hl & Hv). cbn [res_bind].
    destruct (IH (S i) ltac:(lia)) as (l & -> & Hll & Hlj). cbn [res_bind]. exists (p :: l). split_and!; [done|cbn; lia|].
    intros [|j] Hj; [by rewrite Nat.add_0_r|]. replace (i + S j)%nat with (S i + j)%nat by lia. apply (Hlj j). lia.
Qed.

(** The next candidate's powers fit: it is at most twice the current root, or
    the first bit to be tried. *)
Lemma candidate_fits (n len s : nat) x v : (0 < n <= 18)%nat -> 0 <= x -> x ^ Z.of_nat n <= v -> v < Bp len ->
  (x = 0 \/ 2 ^ Z.of_nat s <= x) -> (n * s <= 32 * len)%nat ->
  forall i, (i <= n)%nat -> (x + 2 ^ Z.of_nat s) ^ Z.of_nat i < Bp (len + 1).
Proof.
  intros Hn Hx Hxv Hv Hxs Hs i Hi. set (b := 2 ^ Z.of_nat s) in *. assert (1 <= b) as Hb by (unfold b; lia).
  apply Z.le_lt_trans with ((x + b) ^ Z.of_nat n); [apply Z.pow_le_mono_r; lia|]. rewrite Nat.add_1_r, Bp_S.
  destruct Hxs as [->|Hxb].
  - rewrite Z.add_0_l. unfold b. rewrite <-Z.pow_mul_r by lia.
    assert (2 ^ (Z.of_nat s * Z.of_nat n) <= Bp len) by (apply Z.pow_le_mono_r; lia). pose proof (Bp_pos len). lia.
  - apply Z.le_lt_trans with ((2 * x) ^ Z.of_nat n); [apply Z.pow_le_mono_l; lia|]. rewrite Z.pow_mul_l.
    assert (0 < 2 ^ Z.of_nat n <= 2 ^ 18) by (split; [lia|apply Z.pow_le_mono_r; lia]).
    assert (0 <= x ^ Z.of_nat n) by (by apply Z.pow_nonneg). pose proof (Bp_pos len). nia.
Qed.

Lemma power_at_fmap (f : nat -> mp_int) n i : (i < n)%nat -> power_at (f <$> seq 0 n) i = f i.
Proof. intros Hi. unfold power_at. by rewrite list_lookup_fmap, lookup_seq_lt by done. Qed.

Section Root.
Context (y : mp_int) (n : nat) (Hy : wordsOK y) (Hly : (0 < length y)%nat) (Hn : (0 < n <= 18)%nat).
Let nw := (length y + 1)%nat.

(** Before the bit [s - 1] is tried. *)
Definition root_inv (s : nat) (x : Z) (powers : list mp_int) : Prop :=
  powers_ok n nw x powers /\ 0 <= x /\ (2 ^ Z.of_nat s | x) /\
  x ^ Z.of_nat n <= val y < (x + 2 ^ Z.of_nat s) ^ Z.of_nat n.

Lemma select_powers x x' powers newpowers (c : bool) : powers_ok n nw x powers -> powers_ok n nw x' newpowers ->
  powers_ok n nw (if c then x' else x)
    ((fun i => mp_select_into nw (power_at powers i) (power_at newpowers i) (Z.b2z c)) <$> seq 0 (n + 1)).
Proof.
  intros H1 H2 i Hi. destruct (H1 i Hi) as (Hok1 & Hl1 & Hv1). destruct (H2 i Hi) as (Hok2 & Hl2 & Hv2).
  rewrite power_at_fmap by lia. rewrite mp_select_into_eq by done. rewrite odd_b2z.
  destruct c; [rewrite <-Hl2|rewrite <-Hl1]; rewrite fill_words; by split_and!.
Qed.

Lemma nthroot_loop_spec s : forall x powers, (n * s <= 32 * length y + n)%nat -> root_inv s x powers ->
  exists powers' x', nthroot_loop y nw n s powers = Ok powers' /\ root_inv 0 x' powers'.
Proof.
  induction s as [|s IH]; intros x powers Hs (Hpow & Hx & [q Hq] & Hlo & Hhi); cbn [nthroot_loop].
  - exists powers, x. split; [done|]. split_and!; try done. by exists q.
  - pose proof (val_bound y Hy) as By. set (b := 2 ^ Z.of_nat s) in *.
    assert (2 ^ Z.of_nat (S s) = 2 * b) as E2 by (rewrite Nat2Z.inj_succ, Z.pow_succ_r by lia; done). rewrite E2 in *.
    assert (1 <= b) as Hb by (unfold b; lia).
    assert (forall i, (i <= n)%nat -> (x + b) ^ Z.of_nat i < Bp nw) as Hfit.
    { apply candidate_fits with (val y); try done; [apply By| |nia]. destruct (Z.eq_dec q 0) as [->|]; [left; lia|right].
      assert (1 <= q) by nia. fold b. nia. }
    destruct (nthroot_newpowers_spec n nw s x powers (n + 1) Hpow ltac:(lia) Hx Hfit 0 ltac:(lia)) as (l & -> & Hll & Hlj). cbn [res_bind].
    assert (powers_ok n nw (x + b) l) as Hl by (intros i Hi; destruct (Hlj i ltac:(lia)) as (? & ? & ?); by split_and!).
    destruct (Hl n ltac:(lia)) as (Hln & _ & Hvn). rewrite mp_cmp_hs_spec by done. rewrite Hvn.
    set (c := (x + b) ^ Z.of_nat n <=? val y). replace (if c then 1 else 0) with (Z.b2z c) by (by destruct c).
    apply (IH (if c then x + b else x)); [lia|]. unfold root_inv. split; [by apply select_powers|].
    unfold c. destruct (Z.leb_spec ((x + b) ^ Z.of_nat n) (val y)).
    + split_and!; [lia|exists (2 * q + 1); fold b; lia|done|]. fold b. by replace (x + b + b) with (x + 2 * b) by lia.
    + split_and!; [done|exists (2 * q); fold b; lia|done|done].
Qed.

Lemma val_copy_integer_1 k : (0 < k)%nat -> wordsOK (mp_copy_integer_into k 1) /\ length (mp_copy_integer_into k 1) = k /\ val (mp_copy_integer_into k 1) = 1.
Proof.
  assert (forall j, mp_copy_integer_into j 0 = replicate j 0) as H0.
  { induction j as [|j IH]; [done|]. cbn [mp_copy_integer_into replicate]. change (shift_right_by_one_word 0) with 0. by rewrite IH. }
  destruct k as [|k]; [lia|]. intros _. cbn [mp_copy_integer_into]. change (shift_right_by_one_word 1) with 0. rewrite H0. cbn [val length].
  rewrite length_replicate, val_replicate_0. split_and!; [|done|done]. constructor; [apply w32_range|apply wordsOK_replicate_0].
Qed.

Lemma root_start : root_inv (32 * length y / n + 1) 0 (mp_copy_integer_into nw 1 :: replicate n (replicate nw 0)).
Proof.
  pose proof (val_bound y Hy) as By. destruct (val_copy_integer_1 nw ltac:(unfold nw; lia)) as (H1 & H2 & H3).
  split_and!.
  - intros [|i] Hi; [by split_and!|]. unfold power_at. change ((mp_copy_integer_into nw 1 :: replicate n (replicate nw 0)) !! S i) with (replicate n (replicate nw 0) !! i).
    rewrite lookup_replicate_2 by lia. change (default [] (Some (replicate nw 0))) with (replicate nw 0). rewrite length_replicate, val_replicate_0. split_and!; [apply wordsOK_replicate_0|done|].
    symmetry. apply Z.pow_0_l. lia.
  - done.
  - exists 0. lia.
  - rewrite Z.pow_0_l by lia. lia.
  - rewrite Z.add_0_l, <-Z.pow_mul_r by lia. eapply Z.lt_le_trans; [apply By|]. apply Z.pow_le_mono_r; [lia|].
    pose proof (Nat.div_mod_eq (32 * length y) n). pose proof (Nat.mod_upper_bound (32 * length y) n ltac:(lia)). nia.
Qed.

(** The root fits the number allocated for it. *)
Lemma root_fits x : 0 <= x -> x ^ Z.of_nat n <= val y ->
  x < Bp (Z.to_nat ((Z.of_nat (32 * length y / n) + 32 - 1) / 32)).
Proof.
  intros Hx Hxn. pose proof (val_bound y Hy) as By.
  pose proof (Nat.div_mod_eq (32 * length y) n) as Hd. pose proof (Nat.mod_upper_bound (32 * length y) n ltac:(lia)) as Hm.
  set (q := (32 * length y / n)%nat) in *. set (w := Z.to_nat ((Z.of_nat q + 32 - 1) / 32)).
  assert (32 * Z.of_nat w >= Z.of_nat q) as Hw.
  { unfold w. pose proof (Z.div_mod (Z.of_nat q + 32 - 1) 32 ltac:(lia)). pose proof (Z.mod_pos_bound (Z.of_nat q + 32 - 1) 32 ltac:(lia)). lia. }
  assert (length y <= w * n)%nat as Hwn. { assert (n * q <= 32 * w * n)%nat by nia. lia. }
  apply Z.nle_gt. intros Hge. assert (Bp w ^ Z.of_nat n <= x ^ Z.of_nat n) as Hp by (apply Z.pow_le_mono_l; pose proof (Bp_pos w); lia).
  rewrite <-Z.pow_mul_r in Hp by lia.
  assert (Bp (length y) <= 2 ^ (32 * Z.of_nat w * Z.of_nat n)) by (apply Z.pow_le_mono_r; lia). lia.
Qed.

Lemma mp_nthroot_spec remainder_out :
  exists r rem, mp_nthroot y n remainder_out = Ok (r, rem) /\ wordsOK r /\
    val r ^ Z.of_nat n <= val y < (val r + 1) ^ Z.of_nat n /\
    forall nr, remainder_out = Some nr -> exists d, rem = Some d /\ wordsOK d /\ length d = nr /\
      val d = (val y - val r ^ Z.of_nat n) mod Bp nr.
Proof.
  unfold mp_nthroot. rewrite (proj2 (Nat.eqb_neq n 0)) by lia. fold nw.
  pose proof (Nat.div_mod_eq (32 * length y) n) as Hd.
  destruct (nthroot_loop_spec (32 * length y / n + 1) 0 _ ltac:(lia) root_start) as (powers & x & -> & Hpow & Hx & _ & Hlo & Hhi).
  cbn [res_bind]. unfold mp_new, mp_make_sized, BIGNUM_INT_BITS. pose proof (root_fits x Hx Hlo) as Hfit.
  set (w := Z.to_nat _) in *. assert (0 < w)%nat as Hw.
  { unfold w. assert (1 <= 32 * length y / n)%nat by (apply Nat.div_le_lower_bound; lia).
    assert (1 <= (Z.of_nat (32 * length y / n) + 32 - 1) / 32) by (apply Z.div_le_lower_bound; lia). lia. }
  rewrite c_assert_true by (by apply Nat.ltb_lt). cbn [res_bind]. rewrite length_replicate.
  destruct (Hpow 1%nat ltac:(lia)) as (Hp1 & _ & Hv1). rewrite Z.pow_1_r in Hv1.
  destruct (val_copy_into w _ Hp1) as (Hlr & Hokr & Hvr). rewrite Hv1, Z.mod_small in Hvr by lia.
  eexists _, _. split; [done|]. rewrite Hvr. split_and!; [done..|].
  intros nr ->. cbn. destruct (Hpow n ltac:(lia)) as (Hpn & _ & Hvn).
  destruct (mp_sub_into_spec nr y _ Hy Hpn) as (H1 & H2 & H3). eexists. split; [done|]. split_and!; [done|done|]. by rewrite H3, Hvn.
Qed.
End Root.
