(* ===== verification/MpintSpec.v ===== *)
(** * Multiprecision integers: the theorems

    Numbers are read through [val]; [wordsOK] says that every word is one of
    32 bits. *)

From S2P Require Import Prelude MpintCore MpintArith MpintMul MpintShift MpintConv MpintDecimal.

Local Open Scope Z_scope.

Ltac words_ok := repeat (apply Forall_cons; split; [unfold is_word; lia|]); apply Forall_nil; exact I.

(** Concrete numbers for the witnesses: 30 words, so that multiplication takes
    the Karatsuba path, and a few words. *)
Definition big30 : mp_int := replicate 30 4294967295.
Definition small3 : mp_int := [4000000000; 7; 1].

Lemma big30_ok : wordsOK big30.
Proof. apply Forall_replicate. unfold is_word. lia. Qed.

Lemma small3_ok : wordsOK small3.
Proof. words_ok. Qed.

(** ** Arithmetic *)

(** C28. [mp_mul_into] computes the product of its operands modulo what the
    destination can hold, for every combination of lengths: on the simple path,
    on the Karatsuba path and on the path for a short destination.  No
    assertion fires (in particular the claim that [6 n] words of scratch space
    suffice at every stage of the recursion), and the recursion ends. *)
Theorem mp_mul_into_product r a b :
  wordsOK a -> wordsOK b -> (0 < length r)%nat -> (0 < length a \/ 0 < length b)%nat ->
  exists r', mp_mul_into r a b = Ok r' /\ length r' = length r /\ wordsOK r' /\
    val r' = (val a * val b) mod Bp (length r).
Proof. apply mp_mul_into_spec. Qed.

Lemma mp_mul_into_product_witness :
  exists r', mp_mul_into (replicate 70 0) big30 big30 = Ok r' /\ length r' = 70%nat /\ wordsOK r' /\
    val r' = (val big30 * val big30) mod Bp 70.
Proof.
  apply (mp_mul_into_product (replicate 70 0) big30 big30);
    [apply big30_ok|apply big30_ok|simpl; lia|left; simpl; lia].
Defined.

(** [mp_add] returns the exact sum (it has a word for the carry), and
    [mp_sub], [mp_cond_add_into] and [mp_cond_sub_into] the sum or difference
    modulo what the destination can hold, the conditional ones only if the low
    bit of the condition is set. *)
Theorem mp_add_sub_exact x y nw yes :
  wordsOK x -> wordsOK y -> (0 < length x)%nat ->
  (exists r, mp_add x y = Ok r /\ length r = (length x `max` length y + 1)%nat /\ wordsOK r /\
     val r = val x + val y) /\
  (exists r, mp_sub x y = Ok r /\ wordsOK r /\ val r = (val x - val y) mod Bp (length x `max` length y)) /\
  (wordsOK (mp_cond_add_into nw x y yes) /\
     val (mp_cond_add_into nw x y yes) = (val x + if Z.odd yes then val y else 0) mod Bp nw) /\
  (wordsOK (mp_cond_sub_into nw x y yes) /\
     val (mp_cond_sub_into nw x y yes) = (val x - if Z.odd yes then val y else 0) mod Bp nw).
Proof.
  intros Hx Hy Hl. split; [by apply mp_add_spec|]. split; [|split].
  - destruct (mp_sub_spec x y Hx Hy ltac:(lia)) as (r & ? & _ & ? & ?). by exists r.
  - by apply mp_cond_add_into_spec.
  - by apply mp_cond_sub_into_spec.
Qed.

Lemma mp_add_sub_exact_witness :
  (exists r, mp_add small3 big30 = Ok r /\ length r = 31%nat /\ wordsOK r /\
     val r = val small3 + val big30) /\
  (exists r, mp_sub small3 big30 = Ok r /\ wordsOK r /\ val r = (val small3 - val big30) mod Bp 30) /\
  (wordsOK (mp_cond_add_into 4 small3 big30 1) /\
     val (mp_cond_add_into 4 small3 big30 1) = (val small3 + val big30) mod Bp 4) /\
  (wordsOK (mp_cond_sub_into 4 small3 big30 1) /\
     val (mp_cond_sub_into 4 small3 big30 1) = (val small3 - val big30) mod Bp 4).
Proof.
  apply (mp_add_sub_exact small3 big30 4 1); [apply small3_ok|apply big30_ok|simpl; lia].
Defined.

(** The comparisons return 1 or 0 according to the order of the values, for
    numbers of any lengths and for 64-bit integers. *)
Theorem mp_comparisons a b n :
  wordsOK a -> wordsOK b -> is_uintmax n ->
  mp_cmp_hs a b = (if val b <=? val a then 1 else 0) /\
  mp_cmp_eq a b = (if val a =? val b then 1 else 0) /\
  mp_hs_integer a n = (if n <=? val a then 1 else 0) /\
  mp_eq_integer a n = (if val a =? n then 1 else 0).
Proof.
  intros Ha Hb Hn. split_and!;
    [by apply mp_cmp_hs_spec|by apply mp_cmp_eq_spec|by apply mp_hs_integer_spec|by apply mp_eq_integer_spec].
Qed.

Lemma mp_comparisons_witness :
  mp_cmp_hs small3 big30 = (if val big30 <=? val small3 then 1 else 0) /\
  mp_cmp_eq small3 big30 = (if val small3 =? val big30 then 1 else 0) /\
  mp_hs_integer small3 (2 ^ 63) = (if 2 ^ 63 <=? val small3 then 1 else 0) /\
  mp_eq_integer small3 (2 ^ 63) = (if val small3 =? 2 ^ 63 then 1 else 0).
Proof.
  apply (mp_comparisons small3 big30 (2 ^ 63)); [apply small3_ok|apply big30_ok|unfold is_uintmax; lia].
Defined.

(** [mp_mul_integer_into] returns the product when it fits in the
    destination, and otherwise stops at its assertion: it never returns a
    truncated product. *)
Theorem mp_mul_integer_into_checks nw a n :
  wordsOK a -> (length a <= nw)%nat -> 0 <= n < 2 ^ 16 ->
  if val a * n <? Bp nw
  then exists r, mp_mul_integer_into nw a n = Ok r /\ length r = nw /\ wordsOK r /\ val r = val a * n
  else mp_mul_integer_into nw a n = Crash AssertionFailed.
Proof. apply mp_mul_integer_into_spec. Qed.

Lemma mp_mul_integer_into_checks_witness : mp_mul_integer_into 1 [4000000000] 10 = Crash AssertionFailed.
Proof.
  apply (mp_mul_integer_into_checks 1 [4000000000] 10); [words_ok|simpl; lia|lia].
Defined.

(** ** Shifts *)

(** The safe shifts, whose running time does not depend on the shift count,
    agree with the shifts by a public count: both divide or multiply by the
    power of two, for every count, including one larger than the number. *)
Theorem safe_shifts_are_shifts x nw bits :
  wordsOK x -> is_size (length x) -> is_size nw -> is_size (bits / 32) ->
  mp_rshift_safe_into nw x bits = mp_rshift_fixed_into nw (mp_copy_into nw x) bits /\
  val (mp_rshift_safe_into (length x) x bits) = val x / 2 ^ Z.of_nat bits /\
  mp_lshift_safe_into nw x bits = mp_lshift_fixed_into nw x bits /\
  val (mp_lshift_safe_into nw x bits) = (val x * 2 ^ Z.of_nat bits) mod Bp nw.
Proof.
  intros Hx Hl Hn Hb. unfold mp_rshift_safe_into, mp_lshift_safe_into. rewrite !mp_copy_into_eq.
  assert (forall k, wordsOK (fill k (mp_word x))) as Hf by (intros; apply wordsOK_fill; auto with cmodel).
  destruct (mp_rshift_safe_in_place_spec (fill nw (mp_word x)) bits) as (Hl1 & Hok1 & Hv1);
    [done|by rewrite length_fill|done|].
  destruct (mp_rshift_fixed_into_spec nw (fill nw (mp_word x)) bits (Hf nw)) as (Hl2 & Hok2 & Hv2).
  destruct (mp_rshift_safe_in_place_spec (fill (length x) (mp_word x)) bits) as (_ & _ & Hv3);
    [done|by rewrite length_fill|done|].
  destruct (mp_lshift_safe_in_place_spec (fill nw (mp_word x)) bits) as (Hl4 & Hok4 & Hv4);
    [done|by rewrite length_fill|done|].
  destruct (mp_lshift_fixed_into_spec nw x bits Hx) as (Hl5 & Hok5 & Hv5).
  rewrite length_fill in Hl1, Hl4, Hv4. rewrite fill_words in Hv3.
  rewrite val_fill_words, Zmult_mod_idemp_l in Hv4 by done.
  split_and!; [|by rewrite fill_words| |done].
  - apply val_inj; [done|done|congruence|]. rewrite Hv1, Hv2. symmetry. apply Z.mod_small.
    pose proof (val_bound _ (Hf nw)) as Hbd. rewrite length_fill in Hbd.
    pose proof (Z.pow_pos_nonneg 2 (Z.of_nat bits)).
    split; [apply Z.div_pos; lia|]. apply Z.div_lt_upper_bound; [lia|]. nia.
  - apply val_inj; [done|done|congruence|]. by rewrite Hv4, Hv5.
Qed.

Lemma safe_shifts_are_shifts_witness :
  mp_rshift_safe_into 3 small3 45 = mp_rshift_fixed_into 3 (mp_copy_into 3 small3) 45 /\
  val (mp_rshift_safe_into 3 small3 45) = val small3 / 2 ^ 45 /\
  mp_lshift_safe_into 3 small3 45 = mp_lshift_fixed_into 3 small3 45 /\
  val (mp_lshift_safe_into 3 small3 45) = (val small3 * 2 ^ 45) mod Bp 3.
Proof.
  apply (safe_shifts_are_shifts small3 3 45); [apply small3_ok|unfold is_size; simpl; lia..].
Defined.

(** ** Conversion *)

(** [mp_get_nbits] is the bit length: 0 for zero, and otherwise one more
    than the integer logarithm. *)
Theorem mp_get_nbits_bitlen x :
  wordsOK x -> Z.of_nat (length x) < 2 ^ 58 ->
  mp_get_nbits x = if val x =? 0 then 0 else Z.log2 (val x) + 1.
Proof. apply mp_get_nbits_spec. Qed.

Lemma mp_get_nbits_bitlen_witness :
  mp_get_nbits small3 = if val small3 =? 0 then 0 else Z.log2 (val small3) + 1.
Proof. apply (mp_get_nbits_bitlen small3); [apply small3_ok|simpl; lia]. Defined.

(** [mp_get_hex] and [mp_get_hex_uppercase] print hexadecimal digits with no
    leading zero (zero prints as one digit), and [mp_from_hex] reads the number
    back. *)
Theorem hex_roundtrip x off :
  off = 39 \/ off = 7 -> wordsOK x -> (0 < length x)%nat -> Z.of_nat (length x) < 2 ^ 58 ->
  exists out r, mp_get_hex_internal x off = Ok out /\ canonical (c_string out) /\
    Forall (fun c => is_Some (hex_value c)) (c_string out) /\
    mp_from_hex_pl (c_string out) = Ok r /\ wordsOK r /\ val r = val x.
Proof.
  intros Hoff Hx Hl Hsz. destruct (mp_get_hex_internal_spec off x Hoff Hx Hl Hsz) as (out & E & Hs).
  cbn zeta in Hs. destruct Hs as (Hc & Hb & Hh & Hlen & Hv).
  destruct (mp_from_hex_pl_spec (c_string out) Hb) as (r & Er & _ & Hr & Hvr).
  { unfold SIZE_MAX. Z.div_mod_to_equations. lia. }
  exists out, r. split_and!; [done..|congruence].
Qed.

Lemma hex_roundtrip_witness :
  exists out r, mp_get_hex_internal small3 39 = Ok out /\ canonical (c_string out) /\
    Forall (fun c => is_Some (hex_value c)) (c_string out) /\
    mp_from_hex_pl (c_string out) = Ok r /\ wordsOK r /\ val r = val small3.
Proof. apply (hex_roundtrip small3 39); [by left|apply small3_ok|simpl; lia|simpl; lia]. Defined.

(** C29. [mp_get_decimal] prints decimal digits with no leading zero (zero prints
    as one digit) and [mp_from_decimal] reads the number back; the estimates of
    the buffer sizes by 146/485 and 196/59 are sufficient and no assertion
    fires.  For numbers of up to 1403508 words. *)
Theorem decimal_roundtrip x :
  wordsOK x -> (0 < length x)%nat -> Z.of_nat (length x) <= 1403508 ->
  exists out r, mp_get_decimal x = Ok out /\ canonical (c_string out) /\
    Forall is_dec_char (c_string out) /\ dec_val (c_string out) = val x /\
    mp_from_decimal_pl (c_string out) = Ok r /\ wordsOK r /\ val r = val x.
Proof.
  intros Hx Hl Hsz. destruct (mp_get_decimal_spec x Hx Hl Hsz) as (out & E & Hs). cbn zeta in Hs.
  destruct Hs as (Hc & Hd & Hv & Hlen).
  destruct (mp_from_decimal_pl_spec _ Hd Hlen) as (r & Er & _ & Hr & Hvr).
  exists out, r. split_and!; [done..|congruence].
Qed.

Lemma decimal_roundtrip_witness :
  exists out r, mp_get_decimal small3 = Ok out /\ canonical (c_string out) /\
    Forall is_dec_char (c_string out) /\ dec_val (c_string out) = val small3 /\
    mp_from_decimal_pl (c_string out) = Ok r /\ wordsOK r /\ val r = val small3.
Proof. apply (decimal_roundtrip small3); [apply small3_ok|simpl; lia|simpl; lia]. Defined.

(** The bound that [mp_get_decimal] keeps beside its accumulator, to fold
    the accumulator before it can overflow, stops being a bound once a fold has
    happened: an accumulator within the bound can exceed it afterwards. *)
Theorem low_digit_fold_exceeds_bound :
  exists st, 0 <= ld_low st <= ld_max st /\ ld_max st < 2 ^ 32 /\
    ld_max (low_digit_fold st) < ld_low (low_digit_fold st).
Proof.
  exists {| ld_low := 4294901759; ld_max := 4294965765; ld_mult := 6 |}.
  split; [simpl; lia|]. split; [simpl; lia|]. by vm_compute.
Qed.
