(* ===== verification/MpintModSpec.v ===== *)
(** * Multiprecision integers: the theorems on division, modular arithmetic,
    greatest common divisors and roots

    [small_len x] bounds the number by [2^26] words, so that the sizes the
    division computes stay within a [size_t]. *)

From Stdlib Require Import Znumtheory.
From S2P Require Import Prelude MpintCore MpintArith MpintShift MpintConv MpintInv MpintDiv MpintMonty MpintGcd MpintSqrt MpintRoot MpintSpec.

Local Open Scope Z_scope.
Local Open Scope cmodel_scope.

Ltac small_ok := split; simpl; lia.

(** Concrete numbers for the witnesses. *)
Definition num7 : mp_int := [7; 3].
Definition odd2 : mp_int := [4294967291; 2].

Lemma num7_ok : wordsOK num7.
Proof. words_ok. Qed.

Lemma odd2_ok : wordsOK odd2.
Proof. words_ok. Qed.

(** ** Division *)

(** C36. [mp_div] and [mp_mod] return the quotient and the remainder, for every
    dividend and every nonzero divisor: the Newton iteration for the reciprocal
    gets close enough in the rounds it is given, the quotient estimate is within
    reach of the two final corrections, and no assertion fires. *)
Theorem mp_div_mod_exact n d :
  wordsOK n -> wordsOK d -> (0 < length n)%nat -> 0 < val d -> Z.of_nat (length n + length d) < 2 ^ 29 ->
  (exists q, mp_div n d = Ok q /\ length q = length n /\ wordsOK q /\ val q = val n / val d) /\
  (exists r, mp_mod n d = Ok r /\ length r = length d /\ wordsOK r /\ val r = val n mod val d).
Proof. intros Hn Hd Hl Hp Hs. split; [by apply mp_div_spec|by apply mp_mod_spec]. Qed.

Lemma mp_div_mod_exact_witness :
  (exists q, mp_div big30 num7 = Ok q /\ length q = 30%nat /\ wordsOK q /\ val q = val big30 / val num7) /\
  (exists r, mp_mod big30 num7 = Ok r /\ length r = 2%nat /\ wordsOK r /\ val r = val big30 mod val num7).
Proof. apply (mp_div_mod_exact big30 num7); [apply big30_ok|apply num7_ok|simpl; lia|simpl; lia|simpl; lia]. Defined.

(** [mp_mod_known_integer] returns the residue for every number and every
    modulus up to [2^31]: the accumulator stays below twice the modulus, no
    multiplication overflows and the last assertion holds. *)
Theorem mp_mod_known_integer_residue x m :
  wordsOK x -> 0 < m <= 2 ^ 31 -> mp_mod_known_integer x m = Ok (val x mod m).
Proof. apply mp_mod_known_integer_spec. Qed.

Lemma mp_mod_known_integer_residue_witness : mp_mod_known_integer big30 65521 = Ok (val big30 mod 65521).
Proof. apply (mp_mod_known_integer_residue big30 65521); [apply big30_ok|lia]. Defined.

(** For a modulus above [2^31] the final trial subtraction of
    [mp_mod_known_integer] can go the wrong way: reducing 1 modulo [2^32 - 5]
    gives 6, and the assertion that follows accepts it. *)
Theorem mp_mod_known_integer_large_modulus :
  mp_mod_known_integer [1] (2 ^ 32 - 5) = Ok 6 /\ val [1] mod (2 ^ 32 - 5) = 1.
Proof. split; by vm_compute. Qed.

(** ** Inversion modulo a power of two *)

(** [mp_invert_mod_2to] returns the inverse of an odd number modulo [2^p],
    reduced, for every [p > 0]. *)
Theorem mp_invert_mod_2to_inverse x p :
  wordsOK x -> Z.odd (val x) = true -> (0 < p)%nat ->
  exists r, mp_invert_mod_2to x p = Ok r /\ wordsOK r /\ 0 <= val r < 2 ^ Z.of_nat p /\
    (val x * val r) mod 2 ^ Z.of_nat p = 1 mod 2 ^ Z.of_nat p.
Proof.
  intros Hx Ho Hp. destruct (mp_invert_mod_2to_spec x p Hx Ho Hp) as (r & E & _ & Hr & Hb & [Hc]). by exists r.
Qed.

Lemma mp_invert_mod_2to_inverse_witness :
  exists r, mp_invert_mod_2to num7 75 = Ok r /\ wordsOK r /\ 0 <= val r < 2 ^ Z.of_nat 75 /\
    (val num7 * val r) mod 2 ^ Z.of_nat 75 = 1 mod 2 ^ Z.of_nat 75.
Proof. apply (mp_invert_mod_2to_inverse num7 75); [apply num7_ok|reflexivity|lia]. Defined.

(** ** Modular arithmetic *)

(** [mp_modadd], [mp_modsub] and [mp_modmul] return the reduced residue of
    the sum, the difference (also when it is negative) and the product. *)
Theorem mp_modular_residues x y m :
  wordsOK x -> wordsOK y -> wordsOK m -> small_len x -> small_len y -> small_len m -> 0 < val m ->
  (exists r, mp_modadd x y m = Ok r /\ length r = length m /\ wordsOK r /\ val r = (val x + val y) mod val m) /\
  (exists r, mp_modsub x y m = Ok r /\ length r = length m /\ wordsOK r /\ val r = (val x - val y) mod val m) /\
  (exists r, mp_modmul x y m = Ok r /\ length r = length m /\ wordsOK r /\ val r = (val x * val y) mod val m).
Proof. intros. split_and!; [by apply mp_modadd_spec|by apply mp_modsub_spec|by apply mp_modmul_spec]. Qed.

Lemma mp_modular_residues_witness :
  (exists r, mp_modadd small3 num7 odd2 = Ok r /\ length r = 2%nat /\ wordsOK r /\ val r = (val small3 + val num7) mod val odd2) /\
  (exists r, mp_modsub small3 num7 odd2 = Ok r /\ length r = 2%nat /\ wordsOK r /\ val r = (val small3 - val num7) mod val odd2) /\
  (exists r, mp_modmul small3 num7 odd2 = Ok r /\ length r = 2%nat /\ wordsOK r /\ val r = (val small3 * val num7) mod val odd2).
Proof.
  apply (mp_modular_residues small3 num7 odd2);
    [apply small3_ok|apply num7_ok|apply odd2_ok|small_ok|small_ok|small_ok|simpl; lia].
Defined.

(** C37. [mp_modpow] returns the power of the base reduced modulo an odd modulus,
    for every base (also one larger than the modulus) and every exponent: the
    Montgomery representation, the window table, its constant-time lookup and
    the squarings compose to exponentiation.  For an even modulus its assertion
    fires. *)
Theorem mp_modpow_power base e m :
  wordsOK base -> wordsOK e -> wordsOK m -> small_len base -> (0 < length e)%nat -> small_len m ->
  if Z.odd (val m)
  then exists r, mp_modpow base e m = Ok r /\ length r = length m /\ wordsOK r /\ val r = (val base ^ val e) mod val m
  else mp_modpow base e m = Crash AssertionFailed.
Proof.
  intros Hb He Hm Lb Le Lm. destruct (Z.odd (val m)) eqn:E; [by apply mp_modpow_spec|by apply mp_modpow_even].
Qed.

Lemma mp_modpow_power_witness :
  exists r, mp_modpow small3 num7 odd2 = Ok r /\ length r = 2%nat /\ wordsOK r /\ val r = (val small3 ^ val num7) mod val odd2.
Proof.
  apply (mp_modpow_power small3 num7 odd2);
    [apply small3_ok|apply num7_ok|apply odd2_ok|small_ok|simpl; lia|small_ok].
Defined.

(** Numbers in Montgomery form: importing, multiplying, adding, subtracting,
    inverting and exporting act on the represented residues; [monty_new]
    establishes the context invariant for every odd modulus. *)
Theorem monty_form_arithmetic modulus x y :
  wordsOK modulus -> small_len modulus -> Z.odd (val modulus) = true ->
  wordsOK x -> small_len x -> wordsOK y -> small_len y ->
  exists mc mx my mp ms md p s d,
    monty_new modulus = Ok mc /\ monty_ok mc /\ monty_modulus mc = modulus /\
    monty_import mc x = Ok mx /\ monty_import mc y = Ok my /\
    monty_mul mc mx my = Ok mp /\ monty_add mc mx my = Ok ms /\ monty_sub mc mx my = Ok md /\
    monty_export mc mp = Ok p /\ monty_export mc ms = Ok s /\ monty_export mc md = Ok d /\
    val p = (val x * val y) mod val modulus /\ val s = (val x + val y) mod val modulus /\
    val d = (val x - val y) mod val modulus.
Proof.
  intros Hm Lm Ho Hx Lx Hy Ly. destruct (monty_new_ok modulus Hm Lm Ho) as (mc & E & Hmc & Em).
  destruct (monty_import_spec mc x Hmc Hx Lx) as (mx & Ex & Hmx). destruct (monty_import_spec mc y Hmc Hy Ly) as (my & Ey & Hmy).
  destruct (monty_mul_spec mc mx my _ _ Hmc Hmx Hmy) as (mp & Emp & Hmp).
  destruct (monty_add_spec mc mx my _ _ Hmc Hmx Hmy) as (ms & Ems & Hms).
  destruct (monty_sub_spec mc mx my _ _ Hmc Hmx Hmy) as (md & Emd & Hmd).
  destruct (monty_export_spec mc mp _ Hmc Hmp) as (p & Ep & _ & _ & Hp).
  destruct (monty_export_spec mc ms _ Hmc Hms) as (s & Es & _ & _ & Hs).
  destruct (monty_export_spec mc md _ Hmc Hmd) as (d & Ed & _ & _ & Hd). rewrite Em in Hp, Hs, Hd.
  exists mc, mx, my, mp, ms, md, p, s, d. by split_and!.
Qed.

Lemma monty_form_arithmetic_witness :
  exists mc mx my mp ms md p s d,
    monty_new odd2 = Ok mc /\ monty_ok mc /\ monty_modulus mc = odd2 /\
    monty_import mc small3 = Ok mx /\ monty_import mc num7 = Ok my /\
    monty_mul mc mx my = Ok mp /\ monty_add mc mx my = Ok ms /\ monty_sub mc mx my = Ok md /\
    monty_export mc mp = Ok p /\ monty_export mc ms = Ok s /\ monty_export mc md = Ok d /\
    val p = (val small3 * val num7) mod val odd2 /\ val s = (val small3 + val num7) mod val odd2 /\
    val d = (val small3 - val num7) mod val odd2.
Proof.
  apply (monty_form_arithmetic odd2 small3 num7);
    [apply odd2_ok|small_ok|reflexivity|apply small3_ok|small_ok|apply num7_ok|small_ok].
Defined.

(** ** Greatest common divisors and inverses *)

(** C38. [mp_gcd_into] computes the greatest common divisor of two positive
    numbers and the Bezout coefficients [A], [C] with [A a - C b] the divisor
    and [0 <= A <= b/d], [0 <= C < a/d]; [2 n] rounds for [n] bits suffice.
    [mp_gcd] has room for the divisor, and [mp_coprime] tests it against one. *)
Theorem mp_gcd_bezout a b na nb ng :
  wordsOK a -> wordsOK b -> gcd_size a -> gcd_size b -> 0 < val a -> 0 < val b -> Z.of_nat ng < 2 ^ 57 ->
  let d := Z.gcd (val a) (val b) in
  (exists A C g va vb, mp_gcd_into a b (Some ng) (Some na) (Some nb) = Ok (Some A, Some C, Some g) /\
     val A = va mod Bp na /\ val C = vb mod Bp nb /\ val g = d mod Bp ng /\
     va * val a - vb * val b = d /\ 0 <= va <= val b / d /\ 0 <= vb < val a / d) /\
  (exists g, mp_gcd a b = Ok g /\ val g = d) /\
  mp_coprime a b = Ok (if d =? 1 then 1 else 0).
Proof.
  intros Ha Hb Sa Sb Pa Pb Hng d. split_and!.
  - destruct (mp_gcd_into_spec a b (Some ng) (Some na) (Some nb) Ha Hb Sa Sb ltac:(lia)) as (ra & rb & rg & A & C & E & H1 & H2 & H3 & H4);
      [by intros ? [= <-]|by right|].
    destruct ra as [ra|], rb as [rb|], rg as [rg|]; try done. destruct (H4 Pa Pb) as (E1 & B1 & B2 & _).
    exists ra, rb, rg, A, C. split_and!; [done|apply H1|apply H2|apply H3|exact E1|apply B1|apply B1|apply B2|apply B2].
  - destruct (mp_gcd_positive a b Ha Hb Sa Sb Pa Pb) as (g & E & _ & Hv). by exists g.
  - by apply mp_coprime_spec.
Qed.

Lemma mp_gcd_bezout_witness :
  (exists A C g va vb, mp_gcd_into small3 num7 (Some 2%nat) (Some 3%nat) (Some 3%nat) = Ok (Some A, Some C, Some g) /\
     val A = va mod Bp 3 /\ val C = vb mod Bp 3 /\ val g = Z.gcd (val small3) (val num7) mod Bp 2 /\
     va * val small3 - vb * val num7 = Z.gcd (val small3) (val num7) /\
     0 <= va <= val num7 / Z.gcd (val small3) (val num7) /\ 0 <= vb < val small3 / Z.gcd (val small3) (val num7)) /\
  (exists g, mp_gcd small3 num7 = Ok g /\ val g = Z.gcd (val small3) (val num7)) /\
  mp_coprime small3 num7 = Ok (if Z.gcd (val small3) (val num7) =? 1 then 1 else 0).
Proof.
  apply (mp_gcd_bezout small3 num7 3 3 2); [apply small3_ok|apply num7_ok|small_ok|small_ok|simpl; lia|simpl; lia|simpl; lia].
Defined.

(** [mp_invert] returns the reduced inverse of a number coprime to the
    modulus, also for an even modulus. *)
Theorem mp_invert_inverse x m :
  wordsOK x -> wordsOK m -> 0 < val x -> 1 < val m -> Z.gcd (val x) (val m) = 1 ->
  exists r, mp_invert x m = Ok r /\ length r = length m /\ wordsOK r /\ 0 <= val r < val m /\
    (val x * val r) mod val m = 1.
Proof. apply mp_invert_spec. Qed.

Lemma mp_invert_inverse_witness :
  exists r, mp_invert small3 odd2 = Ok r /\ length r = 2%nat /\ wordsOK r /\ 0 <= val r < val odd2 /\
    (val small3 * val r) mod val odd2 = 1.
Proof. apply (mp_invert_inverse small3 odd2); [apply small3_ok|apply odd2_ok|simpl; lia|simpl; lia|by vm_compute]. Defined.

(** The comment on [mp_bezout_into] promises [0 <= A < b/d]; when [b]
    divides [a] the coefficient is [b/d] itself. *)
Theorem mp_bezout_coefficient_reaches_bound :
  mp_bezout_into (Some 1%nat) (Some 1%nat) (Some 1%nat) [5] [1] = Ok (Some [1], Some [4], Some [1]).
Proof. by vm_compute. Qed.

(** ** Roots *)

(** C39. [mp_modsqrt], for an odd prime [p] and a [z] whose power [(p-1)/2] is
    [-1]: the success flag is set exactly when [x] is zero modulo [p] or its
    power [(p-1)/2] is one, and then the result is a reduced square root of
    [x]. *)
Theorem mp_modsqrt_root p z x :
  wordsOK p -> wordsOK z -> wordsOK x -> small_len p -> small_len z -> small_len x ->
  prime (val p) -> Z.odd (val p) = true -> (val z ^ ((val p - 1) / 2)) mod val p = (-1) mod val p ->
  exists sc r sc' (ok : bool), modsqrt_new p z = Ok sc /\ mp_modsqrt sc x = Ok (r, Some (Z.b2z ok), sc') /\
    0 <= val r < val p /\
    ok = ((val x ^ ((val p - 1) / 2)) mod val p =? 1 mod val p) || (val x mod val p =? 0) /\
    (ok = true -> (val r * val r) mod val p = val x mod val p).
Proof.
  intros Hp Hz Hx Lp Lz Lx Hpr Ho Hnr. pose proof (prime_ge_2 _ Hpr).
  destruct (modsqrt_new_ok p z Hp Hz Lp Lz Ho ltac:(lia)) as (sc & K & Esc & Hsc).
  destruct (mp_modsqrt_spec sc (val p) (val z) K x Hsc Hpr) as (r & sc' & ok & E & _ & _ & Hb & Hok & Hsq); [by split|done|done|].
  exists sc, r, sc', ok. split_and!; try done; apply Hb.
Qed.

Lemma prime_13 : prime 13.
Proof.
  apply prime_alt. split; [lia|]. intros n Hn [q Hq]. assert (q < 13) by nia.
  assert (n = 2 \/ n = 3 \/ n = 4 \/ n = 5 \/ n = 6 \/ n = 7 \/ n = 8 \/ n = 9 \/ n = 10 \/ n = 11 \/ n = 12) as Hc by lia.
  repeat (destruct Hc as [->|Hc]; [lia|]). subst. lia.
Qed.

Lemma mp_modsqrt_root_witness :
  exists sc r sc' (ok : bool), modsqrt_new [13] [2] = Ok sc /\ mp_modsqrt sc [10] = Ok (r, Some (Z.b2z ok), sc') /\
    0 <= val r < val [13] /\
    ok = ((val [10] ^ ((val [13] - 1) / 2)) mod val [13] =? 1 mod val [13]) || (val [10] mod val [13] =? 0) /\
    (ok = true -> (val r * val r) mod val [13] = val [10] mod val [13]).
Proof.
  apply (mp_modsqrt_root [13] [2] [10]); [words_ok|words_ok|words_ok|small_ok|small_ok|small_ok|exact prime_13|reflexivity|reflexivity].
Defined.

(** [mp_nthroot] returns the integer root, rounded down, and the remainder,
    for every exponent from 1 to 18: the binomial coefficients fit the 16 bits
    the code checks for, and the candidate powers fit one word more than the
    number. *)
Theorem mp_nthroot_floor y n nr :
  wordsOK y -> (0 < length y)%nat -> (0 < n <= 18)%nat ->
  exists r d, mp_nthroot y n (Some nr) = Ok (r, Some d) /\ wordsOK r /\
    val r ^ Z.of_nat n <= val y < (val r + 1) ^ Z.of_nat n /\
    val d = (val y - val r ^ Z.of_nat n) mod Bp nr.
Proof.
  intros Hy Hl Hn. destruct (mp_nthroot_spec y n Hy Hl Hn (Some nr)) as (r & rem & E & Hr & Hb & Hrem).
  destruct (Hrem nr eq_refl) as (d & -> & _ & _ & Hv). by exists r, d.
Qed.

Lemma mp_nthroot_floor_witness :
  exists r d, mp_nthroot small3 3 (Some 3%nat) = Ok (r, Some d) /\ wordsOK r /\
    val r ^ Z.of_nat 3 <= val small3 < (val r + 1) ^ Z.of_nat 3 /\ val d = (val small3 - val r ^ Z.of_nat 3) mod Bp 3.
Proof. apply (mp_nthroot_floor small3 3 3); [apply small3_ok|simpl; lia|lia]. Defined.

(** ** Random numbers *)

(** [mp_random_in_range_fn] returns a number of [[lo, hi)], whatever bytes
    the random source supplies. *)
Theorem mp_random_in_range_bounds rf lo hi :
  (forall n, length (rf n) = n /\ bytesOK (rf n)) ->
  wordsOK lo -> wordsOK hi -> small_len lo -> small_len hi -> val lo < val hi ->
  exists r, mp_random_in_range_fn lo hi rf = Ok r /\ length r = length hi /\ wordsOK r /\ val lo <= val r < val hi.
Proof. intros Hrf. by apply mp_random_in_range_fn_spec. Qed.

Lemma mp_random_in_range_bounds_witness :
  exists r, mp_random_in_range_fn num7 small3 (fun n => replicate n 200) = Ok r /\ length r = 3%nat /\ wordsOK r /\
    val num7 <= val r < val small3.
Proof.
  apply (mp_random_in_range_bounds (fun n => replicate n 200) num7 small3);
    [|apply num7_ok|apply small3_ok|small_ok|small_ok|simpl; lia].
  intros n. split; [apply length_replicate|]. apply Forall_replicate. unfold is_byte. lia.
Defined.
