(* ===== verification/Callback.v ===== *)
(** * The queue of top-level callbacks (putty callback.c)

    Each SSH session has a [callback_set]: a queue of pairs of a function and a
    context, run one at a time from the event loop, and the callback being run
    at the moment.  An [IdempotentCallback] is an object that puts itself in
    the queue of its set at most once.

    Pointers are numbers.  The memory the functions of callback.c reach is the
    record [world]: the callback sets, the idempotent callback objects, and
    whatever state the callbacks themselves work on (type [U]).  The callbacks
    are functions of other parts of the program, so what calling one does is
    the parameter [exec].  The singly linked list from [cbhead] to [cbtail] is
    the list [cbqueue]; both pointers are null exactly when it is empty. *)

From stdpp Require Import gmap.
From S2P Require Import Prelude.
Local Open Scope cmodel_scope.

Inductive toplevel_callback_fn :=
| Run_idempotent_callback
| Client_fn (f : nat).

#[export] Instance toplevel_callback_fn_eq_dec : EqDecision toplevel_callback_fn.
Proof. solve_decision. Defined.

Record callback := Callback { cb_fn : toplevel_callback_fn; cb_ctx : nat }.

#[export] Instance callback_eq_dec : EqDecision callback.
Proof. solve_decision. Defined.

Record callback_set := CallbackSet {
  cbcurr : option callback;
  cbqueue : list callback
}.

(** [ic_set] is [None] for a null pointer. *)
Record IdempotentCallback := IdempotentCb {
  ic_fn : nat;
  ic_ctx : nat;
  ic_queued : bool;
  ic_set : option nat
}.

Record world (U : Type) := World {
  w_sets : gmap nat callback_set;
  w_ics : gmap nat IdempotentCallback;
  w_user : U
}.
Arguments World {U} _ _ _.
Arguments w_sets {U} _.
Arguments w_ics {U} _.
Arguments w_user {U} _.

(** ** Operations *)

Section operations.
  Context {U : Type}.
  Implicit Types w : world U.

Definition put_set (s : nat) (cs : callback_set) w : world U :=
  World (<[s := cs]> (w_sets w)) (w_ics w) (w_user w).

Definition put_ic (p : nat) (ic : IdempotentCallback) w : world U :=
  World (w_sets w) (<[p := ic]> (w_ics w)) (w_user w).

(** Follow a pointer to an object; a pointer to nothing is undefined. *)
Definition deref {A} (m : gmap nat A) (p : nat) : res A :=
  match m !! p with Some a => Ok a | None => Crash UndefinedBehaviour end.

Definition queue_toplevel_callback (s : nat) (fn : toplevel_callback_fn) (ctx : nat) w
  : res (world U) :=
  let! cs := deref (w_sets w) s in
  Ok (put_set s (CallbackSet (cbcurr cs) (cbqueue cs ++ [Callback fn ctx])) w).

Definition with_queued (b : bool) (ic : IdempotentCallback) : IdempotentCallback :=
  IdempotentCb (ic_fn ic) (ic_ctx ic) b (ic_set ic).

Definition queue_idempotent_callback (p : nat) w : res (world U) :=
  let! ic := deref (w_ics w) p in
  if ic_queued ic then Ok w
  else
    let w := put_ic p (with_queued true ic) w in
    match ic_set ic with
    | None => Crash AssertionFailed
    | Some s => queue_toplevel_callback s Run_idempotent_callback p w
    end.

(** The loop of [delete_callbacks]: [kept] is the new list from [newhead] to
    [newtail]. *)
Fixpoint delete_loop (delete_this_one : callback -> world U -> res bool)
    (todo kept : list callback) w : res (list callback) :=
  match todo with
  | [] => Ok kept
  | cb :: todo =>
      let! d := delete_this_one cb w in
      if d then delete_loop delete_this_one todo kept w
      else delete_loop delete_this_one todo (kept ++ [cb]) w
  end.

Definition delete_callbacks (s : nat) (delete_this_one : callback -> world U -> res bool) w
  : res (world U) :=
  let! cs := deref (w_sets w) s in
  let! kept := delete_loop delete_this_one (cbqueue cs) [] w in
  Ok (put_set s (CallbackSet (cbcurr cs) kept) w).

Definition callback_is_for_context (predicate_ctx : nat) (cb : callback) w : res bool :=
  if decide (cb_ctx cb = predicate_ctx) then Ok true
  else if decide (cb_fn cb = Run_idempotent_callback) then
    let! ic := deref (w_ics w) (cb_ctx cb) in
    Ok (bool_decide (ic_ctx ic = predicate_ctx))
  else Ok false.

Definition delete_callbacks_for_context (s : nat) (ctx : nat) w : res (world U) :=
  delete_callbacks s (callback_is_for_context ctx) w.

Definition toplevel_callback_pending (s : nat) w : res bool :=
  let! cs := deref (w_sets w) s in
  Ok (bool_decide (cbcurr cs <> None) || bool_decide (cbqueue cs <> [])).

Definition is_idempotent_callback_pending (s : nat) (p : nat) w : res bool :=
  let! cs := deref (w_sets w) s in
  Ok (match cbqueue cs with
      | [] => false
      | cb :: _ =>
          bool_decide (cb_fn cb = Run_idempotent_callback) && bool_decide (cb_ctx cb = p)
      end).

  (** What calling a client's callback function with a context does. *)
  Variable exec : nat -> nat -> world U -> res (world U).

Definition run_idempotent_callback (p : nat) w : res (world U) :=
  let! ic := deref (w_ics w) p in
  let w := put_ic p (with_queued false ic) w in
  exec (ic_fn ic) (ic_ctx ic) w.

Definition call_toplevel (cb : callback) w : res (world U) :=
  match cb_fn cb with
  | Run_idempotent_callback => run_idempotent_callback (cb_ctx cb) w
  | Client_fn f => exec f (cb_ctx cb) w
  end.

Definition run_toplevel_callbacks (s : nat) w : res (bool * world U) :=
  let! cs := deref (w_sets w) s in
  match cbqueue cs with
  | [] => Ok (false, w)
  | cb :: rest =>
      let w := put_set s (CallbackSet (Some cb) rest) w in
      let! w := call_toplevel cb w in
      let! cs := deref (w_sets w) s in
      Ok (true, put_set s (CallbackSet None (cbqueue cs)) w)
  end.

(** The event loop's calls of [run_toplevel_callbacks]. *)
Fixpoint run_times (n : nat) (s : nat) w : res (world U) :=
  match n with
  | O => Ok w
  | S n =>
      let! r := run_toplevel_callbacks s w in
      run_times n s r.2
  end.

End operations.

(** ** The queue as a state machine *)

(** What a client may do with the queues outside [run_toplevel_callbacks]:
    schedule callbacks and change its own state. *)
Inductive client_step {U} : world U -> world U -> Prop :=
| step_queue s f ctx w w' :
    queue_toplevel_callback s (Client_fn f) ctx w = Ok w' -> client_step w w'
| step_queue_idempotent p w w' :
    queue_idempotent_callback p w = Ok w' -> client_step w w'
| step_user u w :
    client_step w (World (w_sets w) (w_ics w) u).

(** The event loop's steps: the client's, and running a callback. *)
Inductive loop_step {U} (exec : nat -> nat -> world U -> res (world U))
  : world U -> world U -> Prop :=
| step_client w w' : client_step w w' -> loop_step exec w w'
| step_run s b w w' :
    run_toplevel_callbacks exec s w = Ok (b, w') -> loop_step exec w w'.

(** Occurrences of an idempotent callback in a queue. *)
Definition occ (p : nat) (q : list callback) : nat :=
  length (filter (.= Callback Run_idempotent_callback p) q).
Arguments occ : simpl never.

Definition expected_occ {U} (w : world U) (s p : nat) : nat :=
  match w_ics w !! p with
  | Some ic => if ic_queued ic && bool_decide (ic_set ic = Some s) then 1 else 0
  | None => 0
  end.

(** An idempotent callback is in the queue of its set once if it is marked as
    queued, and in no queue otherwise; no queue holds a dangling one. *)
Definition queued_once {U} (w : world U) : Prop :=
  forall s cs p, w_sets w !! s = Some cs -> occ p (cbqueue cs) = expected_occ w s p.

(** Nothing is scheduled yet. *)
Definition initial {U} (w : world U) : Prop :=
  map_Forall (fun _ cs => cbqueue cs = []) (w_sets w) /\
  map_Forall (fun _ ic => ic_queued ic = false) (w_ics w).

Lemma occ_app p q q' : occ p (q ++ q') = (occ p q + occ p q')%nat.
Proof. unfold occ. by rewrite filter_app, length_app. Qed.

Lemma occ_cons p cb q :
  occ p (cb :: q) = (occ p [cb] + occ p q)%nat.
Proof. apply (occ_app p [cb]). Qed.

Lemma occ_client p f ctx : occ p [Callback (Client_fn f) ctx] = 0%nat.
Proof. unfold occ. rewrite filter_cons_False; naive_solver. Qed.

Lemma occ_self p : occ p [Callback Run_idempotent_callback p] = 1%nat.
Proof. unfold occ. by rewrite filter_cons_True. Qed.

Lemma occ_other p p' : p <> p' -> occ p [Callback Run_idempotent_callback p'] = 0%nat.
Proof. intros. unfold occ. rewrite filter_cons_False; naive_solver. Qed.

Lemma occ_pos_elem p q :
  occ p q <> 0%nat <-> Callback Run_idempotent_callback p ∈ q.
Proof.
  unfold occ. split.
  - intros H. destruct (filter _ q) as [|c l] eqn:E; [done|].
    assert (Hc : c ∈ filter (.= Callback Run_idempotent_callback p) q)
      by (rewrite E; left).
    apply list_elem_of_filter in Hc. naive_solver.
  - intros H Hz. apply length_zero_iff_nil in Hz.
    apply (filter_nil_not_elem_of _ _ _ Hz eq_refl H).
Qed.

Lemma deref_Ok {A} (m : gmap nat A) p a : deref m p = Ok a <-> m !! p = Some a.
Proof. unfold deref. destruct (m !! p); naive_solver. Qed.

#[export] Hint Rewrite @occ_app @occ_client @occ_self : callback.

Lemma initial_queued_once {U} (w : world U) : initial w -> queued_once w.
Proof.
  intros [Hq Hi] s cs p Hs. rewrite (Hq s cs Hs). unfold expected_occ.
  destruct (w_ics w !! p) eqn:E; [|done]. by rewrite (Hi _ _ E).
Qed.

(** Appending a client's callback. *)
Lemma queue_client_once {U} s f ctx (w w' : world U) :
  queue_toplevel_callback s (Client_fn f) ctx w = Ok w' ->
  queued_once w -> queued_once w'.
Proof.
  unfold queue_toplevel_callback. intros (cs & Hcs & [= <-])%res_bind_Ok Hinv.
  apply deref_Ok in Hcs. intros s' cs' p. cbn.
  destruct (decide (s' = s)) as [->|]; simplify_map_eq; [|by apply Hinv].
  intros [= <-]. cbn. autorewrite with callback.
  rewrite (Hinv s cs p Hcs). unfold expected_occ. cbn. lia.
Qed.

Lemma queue_idempotent_once {U} p (w w' : world U) :
  queue_idempotent_callback p w = Ok w' -> queued_once w -> queued_once w'.
Proof.
  unfold queue_idempotent_callback. intros (ic & Hic & Hq)%res_bind_Ok Hinv.
  apply deref_Ok in Hic. destruct (ic_queued ic) eqn:Eq; [by simplify_eq|].
  destruct (ic_set ic) as [s|] eqn:Es; [|done].
  unfold queue_toplevel_callback in Hq. apply res_bind_Ok in Hq as (cs & Hcs & [= <-]).
  apply deref_Ok in Hcs. cbn in Hcs.
  intros s' cs' p'. cbn. unfold expected_occ. cbn.
  assert (Hfree : forall s cs, w_sets w !! s = Some cs -> occ p (cbqueue cs) = 0%nat).
  { intros s0 cs0 Hs0. rewrite (Hinv _ _ p Hs0). unfold expected_occ.
    by rewrite Hic, Eq. }
  destruct (decide (p' = p)) as [->|Hp]; simplify_map_eq.
  - destruct (decide (s' = s)) as [->|]; simplify_map_eq.
    + intros [= <-]. cbn. autorewrite with callback.
      rewrite (Hfree _ _ Hcs), Es. by rewrite bool_decide_true.
    + intros Hs'. rewrite (Hfree _ _ Hs'), Es. by rewrite bool_decide_false by naive_solver.
  - destruct (decide (s' = s)) as [->|]; simplify_map_eq.
    + intros [= <-]. cbn. autorewrite with callback.
      rewrite occ_other by done. rewrite (Hinv _ _ p' Hcs). unfold expected_occ. lia.
    + intros Hs'. apply (Hinv _ _ p' Hs').
Qed.

Lemma client_step_once {U} (w w' : world U) :
  client_step w w' -> queued_once w -> queued_once w'.
Proof.
  intros [s f ctx w0 w0' H|p w0 w0' H|u w0];
    eauto using queue_client_once, queue_idempotent_once.
Qed.

Lemma client_steps_once {U} (w w' : world U) :
  rtc client_step w w' -> queued_once w -> queued_once w'.
Proof. induction 1; eauto using client_step_once. Qed.

Lemma put_set_lookup {U} s cs (w : world U) s' cs' :
  w_sets (put_set s cs w) !! s' = Some cs' ->
  (s' = s /\ cs' = cs) \/ (s' <> s /\ w_sets w !! s' = Some cs').
Proof. cbn. rewrite lookup_insert_Some. naive_solver. Qed.

(** Taking a client's callback off the front of a queue. *)
Lemma dequeue_client_once {U} s cs f ctx rest (w : world U) c :
  w_sets w !! s = Some cs -> cbqueue cs = Callback (Client_fn f) ctx :: rest ->
  queued_once w -> queued_once (put_set s (CallbackSet c rest) w).
Proof.
  intros Hs Hq Hinv s' cs' p [[-> ->]|[Hn H]]%put_set_lookup; [|by apply Hinv].
  specialize (Hinv s cs p Hs). rewrite Hq, occ_cons, occ_client in Hinv. apply Hinv.
Qed.

(** Taking an idempotent callback off the front of a queue: it was there once,
    and clearing its mark restores the invariant. *)
Lemma dequeue_idempotent_once {U} s cs p rest (w : world U) c :
  w_sets w !! s = Some cs ->
  cbqueue cs = Callback Run_idempotent_callback p :: rest ->
  queued_once w ->
  exists ic, w_ics w !! p = Some ic /\ ic_queued ic = true /\ ic_set ic = Some s /\
    queued_once (put_ic p (with_queued false ic) (put_set s (CallbackSet c rest) w)).
Proof.
  intros Hs Hq Hinv. pose proof (Hinv s cs p Hs) as Hp.
  rewrite Hq, occ_cons, occ_self in Hp. unfold expected_occ in Hp.
  destruct (w_ics w !! p) as [ic|] eqn:Hic; [|lia]. exists ic.
  destruct (ic_queued ic) eqn:Eq; [|cbn in Hp; lia].
  destruct (decide (ic_set ic = Some s)) as [Es|Es];
    [|rewrite bool_decide_false in Hp by done; cbn in Hp; lia].
  split_and!; [done..|]. intros s' cs' p' H. unfold expected_occ. cbn.
  destruct (decide (p' = p)) as [->|Hne].
  - rewrite lookup_insert_eq. cbn.
    apply put_set_lookup in H as [[-> ->]|[Hn H]]; cbn.
    + rewrite bool_decide_true in Hp by done. cbn in Hp. lia.
    + rewrite (Hinv _ _ p H). unfold expected_occ. rewrite Hic, Eq, Es.
      by rewrite bool_decide_false by naive_solver.
  - rewrite lookup_insert_ne by done.
    apply put_set_lookup in H as [[-> ->]|[Hn H]]; [|apply (Hinv _ _ p' H)].
    specialize (Hinv s cs p' Hs). by rewrite Hq, occ_cons, occ_other in Hinv.
Qed.

Lemma put_set_same_queue {U} s cs (w : world U) c :
  w_sets w !! s = Some cs -> queued_once w ->
  queued_once (put_set s (CallbackSet c (cbqueue cs)) w).
Proof.
  intros Hs Hinv s' cs' p [[-> ->]|[Hn H]]%put_set_lookup.
  - apply (Hinv s cs p Hs).
  - apply (Hinv s' cs' p H).
Qed.

(** ** The event loop *)

Section event_loop.
  Context {U : Type} (exec : nat -> nat -> world U -> res (world U)).

  (** A callback schedules callbacks and changes its own state. *)
  Hypothesis exec_client : forall f ctx w w', exec f ctx w = Ok w' -> rtc client_step w w'.

Lemma run_toplevel_once s b (w w' : world U) :
  run_toplevel_callbacks exec s w = Ok (b, w') -> queued_once w -> queued_once w'.
Proof using exec_client.
  unfold run_toplevel_callbacks. intros (cs & Hcs%deref_Ok & Hr)%res_bind_Ok Hinv.
  destruct (cbqueue cs) as [|cb rest] eqn:Hq; [by simplify_eq|].
  apply res_bind_Ok in Hr as (w1 & Hcall & (cs1 & Hcs1%deref_Ok & [= <- <-])%res_bind_Ok).
  apply put_set_same_queue; [done|]. unfold call_toplevel in Hcall.
  destruct cb as [[|f] ctx]; cbn in Hcall.
  - destruct (dequeue_idempotent_once s cs ctx rest w
                (Some (Callback Run_idempotent_callback ctx)) Hcs Hq Hinv)
      as (ic & Hic & _ & _ & Hinv').
    unfold run_idempotent_callback in Hcall. cbn in Hcall.
    apply res_bind_Ok in Hcall as (ic' & Hic'%deref_Ok & Hcall). cbn in Hic'. simplify_eq.
    eauto using client_steps_once.
  - eauto using client_steps_once, dequeue_client_once.
Qed.

Lemma loop_steps_once (w w' : world U) :
  rtc (loop_step exec) w w' -> queued_once w -> queued_once w'.
Proof using exec_client.
  induction 1 as [|w1 w2 w3 [] _ IH]; eauto using client_step_once, run_toplevel_once.
Qed.

(** No object is freed, and none changes but for its mark. *)
Definition same_objects (w w' : world U) : Prop :=
  forall p ic, w_ics w !! p = Some ic -> exists b, w_ics w' !! p = Some (with_queued b ic).

Lemma with_queued_same ic : with_queued (ic_queued ic) ic = ic.
Proof using Type. by destruct ic. Qed.

Lemma same_objects_refl w w' : w_ics w' = w_ics w -> same_objects w w'.
Proof using Type.
  intros E p ic H. exists (ic_queued ic). by rewrite E, with_queued_same.
Qed.

Lemma same_objects_trans w1 w2 w3 :
  same_objects w1 w2 -> same_objects w2 w3 -> same_objects w1 w3.
Proof using Type.
  intros H1 H2 p ic [b Hb]%H1. destruct (H2 _ _ Hb) as [b' Hb']. by exists b'.
Qed.

(** What clients do only makes a queue longer, and keeps the objects. *)
Definition extends (w w' : world U) : Prop :=
  (forall s cs, w_sets w !! s = Some cs ->
     exists cs' more, w_sets w' !! s = Some cs' /\ cbcurr cs' = cbcurr cs /\
       cbqueue cs' = cbqueue cs ++ more) /\
  same_objects w w'.

Lemma extends_refl w : extends w w.
Proof using Type.
  split; [|by apply same_objects_refl]. intros s cs H. exists cs, []. by rewrite app_nil_r.
Qed.

Lemma extends_trans w1 w2 w3 : extends w1 w2 -> extends w2 w3 -> extends w1 w3.
Proof using Type.
  intros [A1 B1] [A2 B2]. split; [|by eapply same_objects_trans]. intros s cs H.
  destruct (A1 s cs H) as (cs' & m1 & H' & Hc' & Hq').
  destruct (A2 s cs' H') as (cs'' & m2 & H'' & Hc'' & Hq'').
  exists cs'', (m1 ++ m2). by rewrite app_assoc, <-Hq', Hc''.
Qed.

Lemma queue_toplevel_extends s fn ctx w w' :
  queue_toplevel_callback s fn ctx w = Ok w' -> extends w w'.
Proof using Type.
  unfold queue_toplevel_callback. intros (cs & Hcs%deref_Ok & [= <-])%res_bind_Ok.
  split; [|by apply same_objects_refl]. intros s' cs' H. cbn. destruct (decide (s' = s)) as [->|].
  - rewrite lookup_insert_eq. simplify_eq. by eexists _, [_].
  - rewrite lookup_insert_ne by done. exists cs', []. by rewrite app_nil_r.
Qed.

Lemma put_ic_extends p ic b w :
  w_ics w !! p = Some ic -> extends w (put_ic p (with_queued b ic) w).
Proof using Type.
  intros Hic. split; [intros s cs H; exists cs, []; by rewrite app_nil_r|].
  intros p' ic' H. cbn. destruct (decide (p' = p)) as [->|].
  - exists b. rewrite lookup_insert_eq. by simplify_eq.
  - exists (ic_queued ic'). by rewrite lookup_insert_ne, with_queued_same.
Qed.

Lemma client_step_extends w w' : client_step w w' -> extends w w'.
Proof using Type.
  intros [s f ctx w0 w0' H|p w0 w0' H|u w0]; [by eapply queue_toplevel_extends| |].
  - unfold queue_idempotent_callback in H. apply res_bind_Ok in H as (ic & Hic%deref_Ok & H).
    destruct (ic_queued ic); [simplify_eq; apply extends_refl|].
    destruct (ic_set ic) as [s|]; [|done].
    eauto using extends_trans, put_ic_extends, queue_toplevel_extends.
  - apply (extends_refl w0).
Qed.

Lemma client_steps_extend w w' : rtc client_step w w' -> extends w w'.
Proof using Type.
  induction 1; eauto using extends_refl, extends_trans, client_step_extends.
Qed.

  (** Every callback returns. *)
  Hypothesis exec_returns : forall f ctx w, exists w', exec f ctx w = Ok w'.

(** The object of a scheduled callback exists. *)
Definition live_cb (w : world U) (cb : callback) : Prop :=
  cb_fn cb = Run_idempotent_callback -> is_Some (w_ics w !! cb_ctx cb).

Lemma live_cb_extends w w' cb : extends w w' -> live_cb w cb -> live_cb w' cb.
Proof using Type.
  intros [_ H] Hl Hf. destruct (Hl Hf) as [ic Hic].
  destruct (H _ _ Hic) as [b Hb]. by eexists.
Qed.

Lemma call_toplevel_extends cb w :
  live_cb w cb -> exists w', call_toplevel exec cb w = Ok w' /\ extends w w'.
Proof using exec_client exec_returns.
  intros Hl. unfold call_toplevel. destruct cb as [[|f] ctx]; cbn.
  - destruct (Hl eq_refl) as [ic Hic]. cbn in Hic. unfold run_idempotent_callback.
    unfold deref. rewrite Hic. cbn.
    destruct (exec_returns (ic_fn ic) (ic_ctx ic) (put_ic ctx (with_queued false ic) w))
      as [w' Hw']. exists w'. split; [done|].
    eauto using extends_trans, put_ic_extends, client_steps_extend.
  - destruct (exec_returns f ctx w) as [w' Hw']. eauto using client_steps_extend.
Qed.

(** One run takes the front callback and leaves the rest in order, with what
    the callback scheduled behind it. *)
Lemma run_toplevel_front s w cs cb rest :
  w_sets w !! s = Some cs -> cbqueue cs = cb :: rest -> live_cb w cb ->
  exists w1 cs1 more,
    call_toplevel exec cb (put_set s (CallbackSet (Some cb) rest) w) = Ok w1 /\
    w_sets w1 !! s = Some cs1 /\ cbqueue cs1 = rest ++ more /\
    run_toplevel_callbacks exec s w =
      Ok (true, put_set s (CallbackSet None (cbqueue cs1)) w1) /\
    same_objects w w1.
Proof using exec_client exec_returns.
  intros Hs Hq Hl.
  destruct (call_toplevel_extends cb (put_set s (CallbackSet (Some cb) rest) w) Hl)
    as (w1 & Hcall & Hsets & Hics).
  destruct (Hsets s (CallbackSet (Some cb) rest)) as (cs1 & more & Hs1 & _ & Hq1);
    [apply lookup_insert_eq|]. cbn in Hq1.
  exists w1, cs1, more. unfold run_toplevel_callbacks, deref.
  rewrite Hs. cbn. rewrite Hq, Hcall. cbn. by rewrite Hs1.
Qed.

Lemma run_times_front pre s w cs cb post :
  w_sets w !! s = Some cs -> cbqueue cs = pre ++ cb :: post ->
  Forall (live_cb w) (pre ++ [cb]) ->
  exists w' cs' more, run_times exec (length pre) s w = Ok w' /\
    w_sets w' !! s = Some cs' /\ cbqueue cs' = cb :: post ++ more /\ live_cb w' cb /\
    same_objects w w'.
Proof using exec_client exec_returns.
  revert w cs post. induction pre as [|c pre IH]; intros w cs post Hs Hq Hl; cbn in *.
  - exists w, cs, []. rewrite app_nil_r. apply Forall_cons in Hl as [Hl _].
    split_and!; try done. by apply same_objects_refl.
  - apply Forall_cons in Hl as [Hc Hl].
    destruct (run_toplevel_front s w cs c _ Hs Hq Hc)
      as (w1 & cs1 & more & _ & _ & Hq1 & Hrun & Hics).
    rewrite Hrun. cbn.
    destruct (IH (put_set s (CallbackSet None (cbqueue cs1)) w1)
                (CallbackSet None (cbqueue cs1)) (post ++ more))
      as (w2 & cs2 & more2 & Hr2 & Hs2 & Hq2 & Hl2 & Hi2).
    + apply lookup_insert_eq.
    + cbn. by rewrite Hq1, <-app_assoc.
    + eapply Forall_impl; [done|]. intros x Hx Hf. destruct (Hx Hf) as [ic Hic].
      destruct (Hics _ _ Hic) as [b Hb]. by eexists.
    + exists w2, cs2, (more ++ more2). rewrite app_assoc. split_and!; try done.
      by eapply same_objects_trans.
Qed.

Lemma run_times_once n s (w w' : world U) :
  run_times exec n s w = Ok w' -> queued_once w -> queued_once w'.
Proof using exec_client.
  revert w. induction n as [|n IH]; intros w H Hinv; cbn in H; [by simplify_eq|].
  apply res_bind_Ok in H as ([b w1] & H1 & H). eauto using run_toplevel_once.
Qed.

End event_loop.

(** ** Deleting callbacks *)

Lemma delete_loop_filter {U} (P : callback -> bool) d todo kept (w : world U) :
  (forall cb, cb ∈ todo -> d cb w = Ok (P cb)) ->
  delete_loop d todo kept w = Ok (kept ++ filter (fun cb => P cb = false) todo).
Proof.
  revert kept. induction todo as [|cb todo IH]; intros kept Hd; cbn [delete_loop].
  - by rewrite app_nil_r.
  - rewrite Hd by left. cbn [res_bind]. destruct (P cb) eqn:E.
    + rewrite filter_cons_False by congruence. apply IH. intros. apply Hd. by right.
    + rewrite filter_cons_True by done. rewrite IH by (intros; apply Hd; by right).
      by rewrite <-app_assoc.
Qed.

(** Does a callback belong to a context: directly, or as the context of the
    idempotent callback it runs. *)
Definition belongs {U} (ctx : nat) (w : world U) (cb : callback) : bool :=
  bool_decide (cb_ctx cb = ctx) ||
  bool_decide (cb_fn cb = Run_idempotent_callback /\
               ic_ctx <$> w_ics w !! cb_ctx cb = Some ctx).

Lemma callback_is_for_context_belongs {U} ctx cb (w : world U) :
  live_cb w cb -> callback_is_for_context ctx cb w = Ok (belongs ctx w cb).
Proof.
  intros Hl. unfold callback_is_for_context, belongs.
  destruct (decide (cb_ctx cb = ctx)) as [E|E];
    [by rewrite bool_decide_true|rewrite (bool_decide_false (cb_ctx cb = ctx)) by done].
  cbn [orb]. destruct (decide (cb_fn cb = Run_idempotent_callback)) as [Ef|Ef].
  - destruct (Hl Ef) as [ic Hic]. unfold deref. rewrite Hic. cbn. f_equal.
    apply bool_decide_ext. naive_solver.
  - by rewrite bool_decide_false by naive_solver.
Qed.

Lemma queued_once_live {U} (w : world U) s cs cb :
  queued_once w -> w_sets w !! s = Some cs -> cb ∈ cbqueue cs -> live_cb w cb.
Proof.
  intros Hinv Hs Hcb Hf. destruct cb as [fn p]. cbn in *. subst.
  apply occ_pos_elem in Hcb. rewrite (Hinv s cs p Hs) in Hcb. unfold expected_occ in Hcb.
  by destruct (w_ics w !! p).
Qed.

Lemma delete_for_context_filter {U} s ctx (w : world U) cs :
  queued_once w -> w_sets w !! s = Some cs ->
  delete_callbacks_for_context s ctx w =
    Ok (put_set s (CallbackSet (cbcurr cs)
          (filter (fun cb => belongs ctx w cb = false) (cbqueue cs))) w).
Proof.
  intros Hinv Hs. unfold delete_callbacks_for_context, delete_callbacks, deref.
  rewrite Hs. cbn [res_bind].
  rewrite (delete_loop_filter (belongs ctx w)); [done|].
  intros cb Hcb. eauto using callback_is_for_context_belongs, queued_once_live.
Qed.

(** ** Theorems *)

(** C35. Whatever sequence of scheduling calls and runs of the event loop follows
    an initial state, an idempotent callback is in the queue of its set exactly
    once while its [queued] mark is set and in no queue otherwise, provided the
    callbacks do nothing with the queues but schedule. *)
Theorem idempotent_callback_queued_once {U}
    (exec : nat -> nat -> world U -> res (world U)) w w' :
  (forall f ctx w1 w2, exec f ctx w1 = Ok w2 -> rtc client_step w1 w2) ->
  initial w -> rtc (loop_step exec) w w' -> queued_once w'.
Proof. eauto using loop_steps_once, initial_queued_once. Qed.

(** No callback starves: with [length pre] callbacks ahead of it, a scheduled
    callback is called by the next run of the event loop after that many runs,
    whatever the callbacks schedule meanwhile, if they return and only schedule. *)
Theorem scheduled_callback_runs {U}
    (exec : nat -> nat -> world U -> res (world U)) pre s w cs cb post :
  (forall f ctx w1 w2, exec f ctx w1 = Ok w2 -> rtc client_step w1 w2) ->
  (forall f ctx w1, exists w2, exec f ctx w1 = Ok w2) ->
  queued_once w ->
  w_sets w !! s = Some cs -> cbqueue cs = pre ++ cb :: post ->
  exists w1 cs1 rest w2 cs2,
    run_times exec (length pre) s w = Ok w1 /\
    w_sets w1 !! s = Some cs1 /\ cbqueue cs1 = cb :: rest /\
    call_toplevel exec cb (put_set s (CallbackSet (Some cb) rest) w1) = Ok w2 /\
    w_sets w2 !! s = Some cs2 /\
    run_toplevel_callbacks exec s w1 =
      Ok (true, put_set s (CallbackSet None (cbqueue cs2)) w2).
Proof.
  intros Hc Hr Hinv Hs Hq.
  destruct (run_times_front exec Hc Hr pre s w cs cb post Hs Hq)
    as (w1 & cs1 & more & Hrun & Hs1 & Hq1 & Hl1 & _).
  { apply Forall_forall. intros x Hx. apply (queued_once_live w s cs x Hinv Hs).
    rewrite Hq. set_solver. }
  destruct (run_toplevel_front exec Hc Hr s w1 cs1 cb _ Hs1 Hq1 Hl1)
    as (w2 & cs2 & more2 & Hcall & Hs2 & _ & Hrun2 & _).
  by exists w1, cs1, (post ++ more), w2, cs2.
Qed.

(** [delete_callbacks_for_context] removes from the queue exactly the
    callbacks of the context and keeps the order of the others; but it leaves
    the mark of an idempotent callback it removed, and from then on scheduling
    that callback does nothing. *)
Theorem deleted_idempotent_callback_is_dead {U} (w : world U) s cs p ic :
  queued_once w -> w_sets w !! s = Some cs ->
  w_ics w !! p = Some ic -> ic_queued ic = true -> ic_set ic = Some s ->
  exists w', delete_callbacks_for_context s (ic_ctx ic) w = Ok w' /\
    w_sets w' !! s = Some (CallbackSet (cbcurr cs)
      (filter (fun cb => belongs (ic_ctx ic) w cb = false) (cbqueue cs))) /\
    Callback Run_idempotent_callback p ∈ cbqueue cs /\
    (forall s' cs', w_sets w' !! s' = Some cs' ->
       Callback Run_idempotent_callback p ∉ cbqueue cs') /\
    queue_idempotent_callback p w' = Ok w'.
Proof.
  intros Hinv Hs Hic Hqd Hset. eexists.
  split; [by apply delete_for_context_filter|].
  split; [apply lookup_insert_eq|].
  split; [|split].
  - apply occ_pos_elem. rewrite (Hinv s cs p Hs). unfold expected_occ.
    rewrite Hic, Hqd. by rewrite bool_decide_true.
  - intros s' cs' [[-> ->]|[Hn H]]%put_set_lookup; cbn.
    + rewrite list_elem_of_filter. intros [Hb _]. unfold belongs in Hb.
      apply orb_false_iff in Hb as [_ Hb%bool_decide_eq_false]. cbn in Hb.
      rewrite Hic in Hb. naive_solver.
    + rewrite <-occ_pos_elem. rewrite (Hinv s' cs' p H). unfold expected_occ.
      rewrite Hic, Hset. rewrite bool_decide_false by naive_solver.
      rewrite andb_false_r. by intros [].
  - unfold queue_idempotent_callback, deref. cbn. rewrite Hic. cbn. by rewrite Hqd.
Qed.

(** *** Witnesses *)

(** Callbacks that log their call. *)
Definition log_exec (f ctx : nat) (w : world (list (nat * nat))) : res (world (list (nat * nat))) :=
  Ok (World (w_sets w) (w_ics w) (w_user w ++ [(f, ctx)])).

Lemma log_exec_client f ctx w1 w2 : log_exec f ctx w1 = Ok w2 -> rtc client_step w1 w2.
Proof. intros [= <-]. eapply rtc_once, step_user. Qed.

Lemma log_exec_returns f ctx w1 : exists w2, log_exec f ctx w1 = Ok w2.
Proof. by eexists. Qed.

Definition sample_world : world (list (nat * nat)) :=
  World {[ 1%nat := CallbackSet None [] ]}
        {[ 5%nat := IdempotentCb 7 8 false (Some 1%nat) ]} [].

Definition sample_queued : world (list (nat * nat)) :=
  World {[ 1%nat := CallbackSet None [Callback (Client_fn 3) 4;
                                      Callback Run_idempotent_callback 5] ]}
        {[ 5%nat := IdempotentCb 7 8 true (Some 1%nat) ]} [].

Lemma sample_initial : initial sample_world.
Proof. split; apply map_Forall_singleton; done. Qed.

Lemma sample_reaches_queued : rtc (loop_step log_exec) sample_world sample_queued.
Proof.
  eapply rtc_l; [apply step_client, (step_queue 1 3 4); reflexivity|].
  eapply rtc_l; [apply step_client, (step_queue_idempotent 5); reflexivity|].
  apply rtc_refl.
Qed.

Lemma sample_queued_once : queued_once sample_queued.
Proof.
  apply (loop_steps_once log_exec log_exec_client sample_world);
    auto using sample_reaches_queued, initial_queued_once, sample_initial.
Qed.

Lemma idempotent_callback_queued_once_witness : queued_once sample_queued.
Proof.
  apply (idempotent_callback_queued_once log_exec sample_world).
  - exact log_exec_client.
  - exact sample_initial.
  - exact sample_reaches_queued.
Defined.

Lemma scheduled_callback_runs_witness :
  exists w1 cs1 rest w2 cs2,
    run_times log_exec 1 1 sample_queued = Ok w1 /\
    w_sets w1 !! 1%nat = Some cs1 /\ cbqueue cs1 = Callback Run_idempotent_callback 5 :: rest /\
    call_toplevel log_exec (Callback Run_idempotent_callback 5)
      (put_set 1 (CallbackSet (Some (Callback Run_idempotent_callback 5)) rest) w1) = Ok w2 /\
    w_sets w2 !! 1%nat = Some cs2 /\
    run_toplevel_callbacks log_exec 1 w1 =
      Ok (true, put_set 1 (CallbackSet None (cbqueue cs2)) w2).
Proof.
  apply (scheduled_callback_runs log_exec [Callback (Client_fn 3) 4] 1 sample_queued
           (CallbackSet None [Callback (Client_fn 3) 4; Callback Run_idempotent_callback 5])
           (Callback Run_idempotent_callback 5) []).
  - exact log_exec_client.
  - exact log_exec_returns.
  - exact sample_queued_once.
  - reflexivity.
  - reflexivity.
Defined.

Lemma deleted_idempotent_callback_is_dead_witness :
  exists w', delete_callbacks_for_context 1 8 sample_queued = Ok w' /\
    w_sets w' !! 1%nat = Some (CallbackSet None [Callback (Client_fn 3) 4]) /\
    queue_idempotent_callback 5 w' = Ok w'.
Proof.
  destruct (deleted_idempotent_callback_is_dead sample_queued 1
    (CallbackSet None [Callback (Client_fn 3) 4; Callback Run_idempotent_callback 5])
    5 (IdempotentCb 7 8 true (Some 1%nat))) as (w' & H1 & H2 & _ & _ & H3).
  - exact sample_queued_once.
  - reflexivity.
  - reflexivity.
  - reflexivity.
  - reflexivity.
  - exists w'. split; [exact H1|]. split; [|exact H3]. rewrite H2. reflexivity.
Defined.
