(* ===== verification/Bufchain.v ===== *)
(** * Buffer chains (putty utils/bufchain.c)

    The send and receive buffers of sockets and SSH channels: a linked list of
    blocks ("granules") with bytes added at the back and taken from the front.
    Adding data schedules an idempotent callback (file Callback) if one is
    attached.

    A granule is modelled by the bytes from the start of its data area up to
    [bufend], the offset of [bufpos] in them, and the size of the data area
    ([bufmax]).  The list from [head] to [tail] is a list.  [size_t] is 64 bits
    wide and [int] 32, as on the 64-bit Windows the plugin is built for. *)

From stdpp Require Import gmap.
From S2P Require Import Prelude Callback.
Local Open Scope cmodel_scope.
Local Open Scope Z_scope.

Definition SIZE_T : Z := 2 ^ 64.
Definition wrap_size (x : Z) : Z := x mod SIZE_T.

(** Conversion of a [size_t] to [int]. *)
Definition to_int (x : Z) : Z := (x + 2 ^ 31) mod 2 ^ 32 - 2 ^ 31.

Definition BUFFER_MIN_GRANULE : Z := 512 * 2 * 32.
(** [sizeof(struct bufchain_granule)]: four pointers. *)
Definition sizeof_granule : Z := 32.

Record bufchain_granule := Granule {
  g_bytes : list Z;
  g_pos : Z;
  g_max : Z
}.

Record bufchain (U : Type) := Bufchain {
  bc_granules : list bufchain_granule;
  bc_buffersize : Z;
  bc_queue_idempotent_callback : nat -> world U -> res (world U);
  bc_ic : option nat
}.
Arguments Bufchain {U} _ _ _ _.
Arguments bc_granules {U} _.
Arguments bc_buffersize {U} _.
Arguments bc_queue_idempotent_callback {U} _.
Arguments bc_ic {U} _.

(** [bufend - bufpos] *)
Definition g_avail (g : bufchain_granule) : Z := Z.of_nat (length (g_bytes g)) - g_pos g.

(** The bytes from [bufpos] to [bufend]. *)
Definition g_data (g : bufchain_granule) : list Z := drop (Z.to_nat (g_pos g)) (g_bytes g).

Section operations.
  Context {U : Type}.
  Implicit Types (ch : bufchain U) (w : world U).

Definition uninitialised_queue_idempotent_callback (p : nat) w : res (world U) :=
  Crash AssertionFailed.

Definition bufchain_init : bufchain U :=
  Bufchain [] 0 uninitialised_queue_idempotent_callback None.

Definition bufchain_clear ch : bufchain U :=
  Bufchain [] 0 (bc_queue_idempotent_callback ch) (bc_ic ch).

Definition bufchain_size ch : Z := bc_buffersize ch.

Definition bufchain_set_callback_inner ch (ic : option nat)
    (queue : nat -> world U -> res (world U)) : bufchain U :=
  Bufchain (bc_granules ch) (bc_buffersize ch) queue ic.

Definition bufchain_set_callback ch (ic : option nat) : bufchain U :=
  bufchain_set_callback_inner ch ic queue_idempotent_callback.

(** Copy what fits behind the data of the last granule; the rest is returned. *)
Fixpoint fill_tail (gs : list bufchain_granule) (data : list Z)
  : list bufchain_granule * list Z :=
  match gs with
  | [] => ([], data)
  | [g] =>
      let room := g_max g - Z.of_nat (length (g_bytes g)) in
      if 0 <? room then
        let copylen := Z.to_nat (Z.min (Z.of_nat (length data)) room) in
        ([Granule (g_bytes g ++ take copylen data) (g_pos g) (g_max g)],
         drop copylen data)
      else ([g], data)
  | g :: gs =>
      let '(gs, data) := fill_tail gs data in
      (g :: gs, data)
  end.

Definition new_granule (len : Z) : bufchain_granule :=
  let grainlen := Z.max (wrap_size (sizeof_granule + len)) BUFFER_MIN_GRANULE in
  Granule [] 0 (grainlen - sizeof_granule).

Fixpoint bufchain_add_loop (fuel : nat) (gs : list bufchain_granule) (data : list Z)
  : res (list bufchain_granule) :=
  match data with
  | [] => Ok gs
  | _ =>
      match fuel with
      | O => Crash OutOfFuel
      | S fuel =>
          let '(gs, data) := fill_tail gs data in
          let gs :=
            if 0 <? Z.of_nat (length data) then gs ++ [new_granule (Z.of_nat (length data))]
            else gs in
          bufchain_add_loop fuel gs data
      end
  end.

Definition bufchain_add ch (data : list Z) w : res (bufchain U * world U) :=
  let len := Z.of_nat (length data) in
  if len =? 0 then Ok (ch, w)
  else
    let buffersize := wrap_size (bc_buffersize ch + len) in
    let! gs := bufchain_add_loop (S (S (length data))) (bc_granules ch) data in
    let ch := Bufchain gs buffersize (bc_queue_idempotent_callback ch) (bc_ic ch) in
    match bc_ic ch with
    | None => Ok (ch, w)
    | Some p =>
        let! w := bc_queue_idempotent_callback ch p w in
        Ok (ch, w)
    end.

(** The loop of [bufchain_consume], over the list of granules, [buffersize]
    and [len].  Moving [bufpos] out of the granule's data is undefined. *)
Fixpoint bufchain_consume_loop (fuel : nat) (gs : list bufchain_granule)
    (buffersize len : Z) : res (list bufchain_granule * Z) :=
  if 0 <? len then
    match fuel with
    | O => Crash OutOfFuel
    | S fuel =>
        let remlen := to_int len in
        match gs with
        | [] => Crash AssertionFailed
        | g :: gs' =>
            if g_avail g <=? remlen then
              let remlen := g_avail g in
              bufchain_consume_loop fuel gs'
                (wrap_size (buffersize - remlen)) (wrap_size (len - remlen))
            else if g_pos g + remlen <? 0 then Crash UndefinedBehaviour
            else
              bufchain_consume_loop fuel
                (Granule (g_bytes g) (g_pos g + remlen) (g_max g) :: gs')
                (wrap_size (buffersize - remlen)) (wrap_size (len - remlen))
        end
    end
  else Ok (gs, buffersize).

Definition bufchain_consume ch (len : Z) : res (bufchain U) :=
  c_assert (len <=? bc_buffersize ch) (
    let! r := bufchain_consume_loop (S (length (bc_granules ch)))
                (bc_granules ch) (bc_buffersize ch) len in
    Ok (Bufchain r.1 r.2 (bc_queue_idempotent_callback ch) (bc_ic ch))).

Definition bufchain_prefix ch : res (list Z) :=
  match bc_granules ch with
  | [] => Crash UndefinedBehaviour
  | g :: _ => Ok (g_data g)
  end.

(** The loop of [bufchain_fetch]; [memcpy] of a negative number of bytes, or
    of more than the granule holds, is undefined. *)
Fixpoint bufchain_fetch_loop (fuel : nat) (gs : list bufchain_granule) (len : Z)
    (acc : list Z) : res (list Z) :=
  if 0 <? len then
    match fuel with
    | O => Crash OutOfFuel
    | S fuel =>
        match gs with
        | [] => Crash AssertionFailed
        | g :: gs =>
            let remlen := to_int len in
            let remlen := if g_avail g <=? remlen then g_avail g else remlen in
            if remlen <? 0 then Crash UndefinedBehaviour
            else bufchain_fetch_loop fuel gs (wrap_size (len - remlen))
                   (acc ++ take (Z.to_nat remlen) (g_data g))
        end
    end
  else Ok acc.

Definition bufchain_fetch ch (len : Z) : res (list Z) :=
  c_assert (len <=? bc_buffersize ch)
    (bufchain_fetch_loop (S (length (bc_granules ch))) (bc_granules ch) len []).

Definition bufchain_fetch_consume ch (len : Z) : res (list Z * bufchain U) :=
  let! data := bufchain_fetch ch len in
  let! ch := bufchain_consume ch len in
  Ok (data, ch).

Definition bufchain_try_fetch ch (len : Z) : res (option (list Z)) :=
  if len <=? bc_buffersize ch then
    let! data := bufchain_fetch ch len in Ok (Some data)
  else Ok None.

Definition bufchain_try_consume ch (len : Z) : res (bool * bufchain U) :=
  if len <=? bc_buffersize ch then
    let! ch := bufchain_consume ch len in Ok (true, ch)
  else Ok (false, ch).

Definition bufchain_try_fetch_consume ch (len : Z) : res (option (list Z) * bufchain U) :=
  if len <=? bc_buffersize ch then
    let! r := bufchain_fetch_consume ch len in Ok (Some r.1, r.2)
  else Ok (None, ch).

Definition bufchain_fetch_consume_up_to ch (len : Z) : res (list Z * bufchain U) :=
  let len := if bc_buffersize ch <? len then bc_buffersize ch else len in
  if len =? 0 then Ok ([], ch) else bufchain_fetch_consume ch len.

End operations.

(** ** Representation *)

(** A granule in a chain holds at least one unread byte. *)
Definition granule_ok (g : bufchain_granule) : Prop :=
  0 <= g_pos g < Z.of_nat (length (g_bytes g)) /\ Z.of_nat (length (g_bytes g)) <= g_max g.

Definition chain_data (gs : list bufchain_granule) : list Z := concat (map g_data gs).

(** The chain holds the bytes [bytes]; the count is kept modulo 2^64. *)
Definition chain_holds {U} (ch : bufchain U) (bytes : list Z) : Prop :=
  Forall granule_ok (bc_granules ch) /\
  chain_data (bc_granules ch) = bytes /\
  bc_buffersize ch = wrap_size (Z.of_nat (length bytes)).

Lemma length_g_data g : granule_ok g -> Z.of_nat (length (g_data g)) = g_avail g.
Proof. unfold granule_ok, g_data, g_avail. rewrite length_drop. lia. Qed.

Lemma granule_ok_avail g : granule_ok g -> 0 < g_avail g.
Proof. unfold granule_ok, g_avail. lia. Qed.

Lemma wrap_size_small x : 0 <= x < SIZE_T -> wrap_size x = x.
Proof. apply Z.mod_small. Qed.

Lemma wrap_size_range x : 0 <= wrap_size x < SIZE_T.
Proof. apply Z.mod_pos_bound. done. Qed.

Lemma wrap_size_add_l x y : wrap_size (wrap_size x + y) = wrap_size (x + y).
Proof. apply Zplus_mod_idemp_l. Qed.

Lemma wrap_size_sub_l x y : wrap_size (wrap_size x - y) = wrap_size (x - y).
Proof. apply Zminus_mod_idemp_l. Qed.

Lemma to_int_small x : 0 <= x < 2 ^ 31 -> to_int x = x.
Proof. unfold to_int. intros. rewrite Z.mod_small; lia. Qed.

Lemma chain_data_cons g gs : chain_data (g :: gs) = g_data g ++ chain_data gs.
Proof. done. Qed.

Lemma chain_data_app gs gs' : chain_data (gs ++ gs') = chain_data gs ++ chain_data gs'.
Proof. unfold chain_data. by rewrite map_app, concat_app. Qed.

Lemma sizeof_room len : 0 < g_max (new_granule len).
Proof. unfold new_granule, BUFFER_MIN_GRANULE, sizeof_granule. cbn [g_max]. lia. Qed.

Lemma granules_snoc gs g :
  Forall granule_ok gs -> granule_ok g -> Forall granule_ok (gs ++ [g]).
Proof. intros. apply Forall_app. split; [done|]. by apply Forall_singleton. Qed.

(** ** Adding data *)

Lemma fill_tail_snoc gs g data :
  fill_tail (gs ++ [g]) data =
    (gs ++ (fill_tail [g] data).1, (fill_tail [g] data).2).
Proof.
  induction gs as [|g0 gs IH]; [cbn [app]; apply surjective_pairing|].
  cbn [app]. destruct (gs ++ [g]) as [|g1 gs1] eqn:E; [by destruct gs|].
  change (fill_tail (g0 :: g1 :: gs1) data) with
    (let '(l, d) := fill_tail (g1 :: gs1) data in (g0 :: l, d)).
  by rewrite IH.
Qed.

(** Copying into a last granule that has room takes at least one byte. *)
Lemma fill_tail_room g data :
  0 <= g_pos g <= Z.of_nat (length (g_bytes g)) ->
  Z.of_nat (length (g_bytes g)) < g_max g -> data <> [] ->
  exists g' rest, fill_tail [g] data = ([g'], rest) /\ granule_ok g' /\
    g_data g' ++ rest = g_data g ++ data /\ (length rest < length data)%nat.
Proof.
  intros Hpos Hroom Hne. assert (0 < length data)%nat by (destruct data; cbn; [done|lia]).
  unfold fill_tail. rewrite (proj2 (Z.ltb_lt _ _)) by lia.
  set (k := Z.to_nat (Z.min _ _)). assert (Hk : (0 < k <= length data)%nat) by lia.
  assert (Hkm : Z.of_nat k <= g_max g - Z.of_nat (length (g_bytes g))) by lia.
  clearbody k. eexists _, _. split; [done|]. unfold granule_ok, g_data.
  cbn [g_bytes g_pos g_max]. rewrite length_app, length_take, length_drop.
  split; [lia|]. split; [|lia].
  rewrite drop_app_le by lia. by rewrite <-app_assoc, take_drop.
Qed.

Lemma add_loop_nil fuel gs : bufchain_add_loop fuel gs [] = Ok gs.
Proof. by destruct fuel. Qed.

Lemma add_loop_step fuel gs data gs' rest :
  data <> [] -> fill_tail gs data = (gs', rest) ->
  bufchain_add_loop (S fuel) gs data =
    bufchain_add_loop fuel
      (if decide (rest = []) then gs' else gs' ++ [new_granule (Z.of_nat (length rest))]) rest.
Proof.
  intros Hne Hf. destruct data as [|b data]; [done|].
  cbn [bufchain_add_loop]. rewrite Hf. f_equal.
  destruct rest; cbn [length]; [done|]. by rewrite (proj2 (Z.ltb_lt _ _)) by lia.
Qed.

Lemma add_loop_fresh fuel gs n data :
  Forall granule_ok gs -> data <> [] -> (length data <= fuel)%nat ->
  exists gs', bufchain_add_loop fuel (gs ++ [new_granule n]) data = Ok gs' /\
    Forall granule_ok gs' /\ chain_data gs' = chain_data gs ++ data.
Proof.
  revert gs n data. induction fuel as [|fuel IH]; intros gs n data Hok Hne Hfuel.
  { destruct data; cbn in *; [done|lia]. }
  destruct (fill_tail_room (new_granule n) data) as (g' & rest & Hf & Hg' & Hdata & Hlt);
    [done|apply sizeof_room|done|].
  erewrite add_loop_step; [|done|by rewrite fill_tail_snoc, Hf]. cbn [fst snd].
  assert (Hok' : Forall granule_ok (gs ++ [g'])) by (by apply granules_snoc).
  assert (Hcd : chain_data (gs ++ [g']) ++ rest = chain_data gs ++ data).
  { rewrite chain_data_app, <-app_assoc. f_equal. unfold chain_data. cbn [map concat].
    by rewrite app_nil_r, Hdata. }
  destruct (decide (rest = [])) as [->|Hr].
  - rewrite app_nil_r in Hcd. rewrite add_loop_nil. eauto.
  - rewrite <-Hcd. apply IH; [done|done|lia].
Qed.

Lemma add_loop_spec gs data :
  Forall granule_ok gs ->
  exists gs', bufchain_add_loop (S (S (length data))) gs data = Ok gs' /\
    Forall granule_ok gs' /\ chain_data gs' = chain_data gs ++ data.
Proof.
  intros Hok. destruct (decide (data = [])) as [->|Hne].
  { exists gs. by rewrite add_loop_nil, app_nil_r. }
  assert (Hfresh : forall gs, Forall granule_ok gs -> fill_tail gs data = (gs, data) ->
    exists gs', bufchain_add_loop (S (S (length data))) gs data = Ok gs' /\
      Forall granule_ok gs' /\ chain_data gs' = chain_data gs ++ data).
  { intros gs0 Hok0 Hf. erewrite add_loop_step by done.
    rewrite decide_False by done. apply add_loop_fresh; [done|done|lia]. }
  induction gs as [|g gs _] using rev_ind; [by apply Hfresh|].
  apply Forall_app in Hok as Hok2. destruct Hok2 as [Hgs Hg]. apply Forall_cons in Hg as [Hg _].
  destruct (decide (Z.of_nat (length (g_bytes g)) < g_max g)) as [Hroom|Hroom].
  - destruct (fill_tail_room g data) as (g' & rest & Hf & Hg' & Hdata & Hlt);
      [unfold granule_ok in Hg; lia|done|done|].
    erewrite add_loop_step; [|done|by rewrite fill_tail_snoc, Hf]. cbn [fst snd].
    assert (Hok' : Forall granule_ok (gs ++ [g'])) by (by apply granules_snoc).
    assert (Hcd : chain_data (gs ++ [g']) ++ rest = chain_data (gs ++ [g]) ++ data).
    { rewrite !chain_data_app, <-!app_assoc. f_equal. unfold chain_data. cbn [map concat].
      by rewrite !app_nil_r. }
    rewrite <-Hcd. destruct (decide (rest = [])) as [->|Hr].
    + rewrite add_loop_nil, app_nil_r. eauto.
    + apply add_loop_fresh; [done|done|lia].
  - apply Hfresh; [done|]. rewrite fill_tail_snoc. unfold fill_tail.
    by rewrite (proj2 (Z.ltb_ge _ _)) by lia.
Qed.

(** ** Consuming and fetching *)

Lemma g_data_take_drop g k :
  0 <= g_pos g -> 0 <= k ->
  g_data (Granule (g_bytes g) (g_pos g + k) (g_max g)) = drop (Z.to_nat k) (g_data g).
Proof.
  intros. unfold g_data. cbn [g_bytes g_pos]. rewrite drop_drop. f_equal. lia.
Qed.

Lemma consume_loop_spec fuel gs bs len :
  Forall granule_ok gs -> (length gs < fuel)%nat ->
  0 <= len < 2 ^ 31 -> len <= Z.of_nat (length (chain_data gs)) ->
  exists gs', bufchain_consume_loop fuel gs bs len =
      Ok (gs', if len =? 0 then bs else wrap_size (bs - len)) /\
    Forall granule_ok gs' /\ chain_data gs' = drop (Z.to_nat len) (chain_data gs).
Proof.
  revert gs bs len. induction fuel as [|fuel IH]; [lia|].
  intros gs bs len Hok Hfuel Hlen Hle. cbn [bufchain_consume_loop].
  destruct (Z.ltb_spec 0 len) as [Hpos|Hz].
  2:{ replace len with 0 by lia. exists gs. by rewrite drop_0. }
  rewrite (proj2 (Z.eqb_neq len 0)) by lia.
  destruct gs as [|g gs]; [cbn in Hle; lia|].
  apply Forall_cons in Hok as [Hg Hgs]. rewrite chain_data_cons in *.
  rewrite length_app, Nat2Z.inj_add, length_g_data in Hle by done.
  pose proof (granule_ok_avail g Hg) as Hav. cbn [length] in Hfuel.
  rewrite to_int_small by lia. destruct (Z.leb_spec (g_avail g) len) as [Ha|Ha].
  - rewrite (wrap_size_small (len - _)) by (unfold SIZE_T; lia).
    destruct (IH gs (wrap_size (bs - g_avail g)) (len - g_avail g))
      as (gs' & Hr & Hok' & Hd); [done|lia|lia|lia|].
    exists gs'. rewrite Hr, Hd. split; [|split; [done|]].
    + f_equal. f_equal. destruct (Z.eqb_spec (len - g_avail g) 0); [f_equal; lia|].
      rewrite wrap_size_sub_l. f_equal. lia.
    + rewrite drop_app_ge by (pose proof (length_g_data g Hg); lia).
      f_equal. pose proof (length_g_data g Hg). lia.
  - unfold granule_ok in Hg. rewrite (proj2 (Z.ltb_ge _ _)) by lia.
    rewrite (wrap_size_small (len - len)) by (unfold SIZE_T; lia). rewrite Z.sub_diag.
    eexists. split; [by destruct fuel|]. split.
    + apply Forall_cons. split; [|done]. unfold granule_ok, g_avail in *.
      cbn [g_pos g_bytes g_max]. lia.
    + rewrite chain_data_cons, g_data_take_drop by lia.
      rewrite drop_app_le; [done|]. unfold g_data, g_avail in *. rewrite length_drop. lia.
Qed.

Lemma fetch_loop_spec fuel gs len acc :
  Forall granule_ok gs -> (length gs < fuel)%nat ->
  0 <= len < 2 ^ 31 -> len <= Z.of_nat (length (chain_data gs)) ->
  bufchain_fetch_loop fuel gs len acc = Ok (acc ++ take (Z.to_nat len) (chain_data gs)).
Proof.
  revert gs len acc. induction fuel as [|fuel IH]; [lia|].
  intros gs len acc Hok Hfuel Hlen Hle. cbn [bufchain_fetch_loop].
  destruct (Z.ltb_spec 0 len) as [Hpos|Hz].
  2:{ replace len with 0 by lia. by rewrite app_nil_r. }
  destruct gs as [|g gs]; [cbn in Hle; lia|].
  apply Forall_cons in Hok as [Hg Hgs]. rewrite chain_data_cons in *.
  pose proof (length_g_data g Hg) as Hl. rewrite length_app in Hle.
  pose proof (granule_ok_avail g Hg) as Hav. cbn [length] in Hfuel.
  rewrite to_int_small by lia. destruct (Z.leb_spec (g_avail g) len) as [Ha|Ha].
  - rewrite (proj2 (Z.ltb_ge _ _)) by lia.
    rewrite (wrap_size_small (len - _)) by (unfold SIZE_T; lia).
    rewrite IH by (done || lia). rewrite <-app_assoc. do 2 f_equal.
    rewrite (take_ge (g_data g)) by lia. rewrite take_app_ge by lia. do 2 f_equal. lia.
  - rewrite (proj2 (Z.ltb_ge _ _)) by lia.
    rewrite (wrap_size_small (len - len)) by (unfold SIZE_T; lia). rewrite Z.sub_diag.
    rewrite take_app_le by lia. by destruct fuel.
Qed.

(** ** The chain as a queue of bytes *)

Section queue.
  Context {U : Type} (ch : bufchain U) (bytes : list Z).
  Hypothesis Hch : chain_holds ch bytes.

Lemma chain_size : Z.of_nat (length bytes) < SIZE_T -> bufchain_size ch = Z.of_nat (length bytes).
Proof using Hch.
  destruct Hch as (_ & _ & Hs). intros. unfold bufchain_size.
  rewrite Hs. apply wrap_size_small. lia.
Qed.

Lemma chain_prefix :
  bytes <> [] ->
  exists p rest, bufchain_prefix ch = Ok p /\ p <> [] /\ bytes = p ++ rest.
Proof using Hch.
  destruct Hch as (Hok & Hd & _). intros Hne. unfold bufchain_prefix.
  destruct (bc_granules ch) as [|g gs]; [by subst|].
  apply Forall_cons in Hok as [Hg _]. exists (g_data g), (chain_data gs).
  split; [done|]. split; [|done]. intros E.
  pose proof (length_g_data g Hg). pose proof (granule_ok_avail g Hg).
  rewrite E in *. cbn in *. lia.
Qed.

Lemma chain_consume len :
  Z.of_nat (length bytes) < SIZE_T ->
  0 <= len < 2 ^ 31 -> len <= Z.of_nat (length bytes) ->
  exists ch', bufchain_consume ch len = Ok ch' /\
    chain_holds ch' (drop (Z.to_nat len) bytes) /\
    bc_queue_idempotent_callback ch' = bc_queue_idempotent_callback ch /\
    bc_ic ch' = bc_ic ch.
Proof using Hch.
  destruct Hch as (Hok & Hd & Hs). intros Hsz Hlen Hle.
  destruct (consume_loop_spec (S (length (bc_granules ch))) (bc_granules ch)
              (bc_buffersize ch) len) as (gs' & Hr & Hok' & Hd');
    [done|lia|done|by rewrite Hd|].
  eexists. unfold bufchain_consume. rewrite c_assert_true, Hr;
    [split; [done|]|apply Z.leb_le; rewrite Hs, wrap_size_small; lia].
  split; [|done]. split; [done|]. cbn [bc_granules bc_buffersize fst snd].
  split; [by rewrite Hd', Hd|]. rewrite length_drop, Hs.
  destruct (Z.eqb_spec len 0) as [->|]; [f_equal; lia|].
  rewrite wrap_size_sub_l. f_equal. lia.
Qed.

Lemma chain_fetch len :
  Z.of_nat (length bytes) < SIZE_T ->
  0 <= len < 2 ^ 31 -> len <= Z.of_nat (length bytes) ->
  bufchain_fetch ch len = Ok (take (Z.to_nat len) bytes).
Proof using Hch.
  destruct Hch as (Hok & Hd & Hs). intros Hsz Hlen Hle. unfold bufchain_fetch.
  rewrite c_assert_true by (apply Z.leb_le; rewrite Hs, wrap_size_small; lia).
  rewrite fetch_loop_spec by (done || lia || by rewrite Hd). by rewrite Hd.
Qed.

Lemma chain_too_short len :
  Z.of_nat (length bytes) < SIZE_T -> Z.of_nat (length bytes) < len ->
  bufchain_consume ch len = Crash AssertionFailed /\
  bufchain_fetch ch len = Crash AssertionFailed /\
  bufchain_fetch_consume ch len = Crash AssertionFailed /\
  bufchain_try_fetch ch len = Ok None /\
  bufchain_try_consume ch len = Ok (false, ch) /\
  bufchain_try_fetch_consume ch len = Ok (None, ch).
Proof using Hch.
  intros Hsz Hlt. pose proof (chain_size Hsz) as Hs. unfold bufchain_size in Hs.
  unfold bufchain_try_consume, bufchain_try_fetch, bufchain_try_fetch_consume.
  unfold bufchain_fetch_consume, bufchain_consume, bufchain_fetch.
  by rewrite (proj2 (Z.leb_gt _ _)) by lia.
Qed.

(** The combinations of fetching and consuming bytes that are there. *)
Lemma chain_take_all len :
  Z.of_nat (length bytes) < SIZE_T ->
  0 <= len < 2 ^ 31 -> len <= Z.of_nat (length bytes) ->
  bufchain_try_fetch ch len = Ok (Some (take (Z.to_nat len) bytes)) /\
  exists ch', bufchain_consume ch len = Ok ch' /\
    chain_holds ch' (drop (Z.to_nat len) bytes) /\
    bufchain_fetch_consume ch len = Ok (take (Z.to_nat len) bytes, ch') /\
    bufchain_try_consume ch len = Ok (true, ch') /\
    bufchain_try_fetch_consume ch len = Ok (Some (take (Z.to_nat len) bytes), ch').
Proof using Hch.
  intros Hsz Hlen Hle. pose proof (chain_size Hsz) as Hs. unfold bufchain_size in Hs.
  destruct (chain_consume len Hsz Hlen Hle) as (ch' & Hc & Hh & _).
  unfold bufchain_try_consume, bufchain_try_fetch, bufchain_try_fetch_consume,
    bufchain_fetch_consume.
  rewrite (proj2 (Z.leb_le _ _)), (chain_fetch len) by lia. cbn [res_bind]. rewrite Hc.
  split; [done|]. by exists ch'.
Qed.

Lemma chain_fetch_consume_up_to n :
  Z.of_nat (length bytes) < SIZE_T -> 0 <= n -> Z.min n (Z.of_nat (length bytes)) < 2 ^ 31 ->
  exists ch', bufchain_fetch_consume_up_to ch n = Ok (take (Z.to_nat n) bytes, ch') /\
    chain_holds ch' (drop (Z.to_nat n) bytes).
Proof using Hch.
  intros Hsz Hn Hmin. pose proof (chain_size Hsz) as Hs. unfold bufchain_size in Hs.
  unfold bufchain_fetch_consume_up_to, bufchain_fetch_consume.
  set (len := if _ <? _ then _ else _).
  assert (Hlen : len = Z.min n (Z.of_nat (length bytes))).
  { subst len. rewrite Hs. destruct (Z.ltb_spec (Z.of_nat (length bytes)) n); lia. }
  assert (Ht : take (Z.to_nat n) bytes = take (Z.to_nat len) bytes).
  { destruct (decide (n <= Z.of_nat (length bytes))); [f_equal; lia|].
    by rewrite !take_ge by lia. }
  assert (Hdr : drop (Z.to_nat n) bytes = drop (Z.to_nat len) bytes).
  { destruct (decide (n <= Z.of_nat (length bytes))); [f_equal; lia|].
    by rewrite !drop_ge by lia. }
  rewrite Ht, Hdr. clearbody len. destruct (Z.eqb_spec len 0) as [->|Hz].
  - by exists ch.
  - rewrite chain_fetch by lia. cbn [res_bind].
    destruct (chain_consume len) as (ch' & -> & Hh & _); [lia..|]. by exists ch'.
Qed.

End queue.

Lemma chain_init {U} : chain_holds (U := U) bufchain_init [].
Proof. repeat split; constructor. Qed.

Lemma chain_clear {U} (ch : bufchain U) : chain_holds (bufchain_clear ch) [].
Proof. repeat split; constructor. Qed.

Lemma chain_add {U} (ch : bufchain U) bytes data w :
  chain_holds ch bytes ->
  exists gs bs,
    bufchain_add ch data w =
      (let ch' := Bufchain gs bs (bc_queue_idempotent_callback ch) (bc_ic ch) in
       match bc_ic ch with
       | Some p =>
           if decide (data = []) then Ok (ch', w)
           else let! w' := bc_queue_idempotent_callback ch p w in Ok (ch', w')
       | None => Ok (ch', w)
       end) /\
    chain_holds (Bufchain gs bs (bc_queue_idempotent_callback ch) (bc_ic ch)) (bytes ++ data).
Proof.
  intros (Hok & Hd & Hs). unfold bufchain_add.
  destruct (decide (data = [])) as [->|Hne].
  - exists (bc_granules ch), (bc_buffersize ch). rewrite app_nil_r. cbn [length].
    split; [|done]. destruct ch as [gs bs q [p|]]; done.
  - destruct (add_loop_spec (bc_granules ch) data Hok) as (gs' & Hr & Hok' & Hd').
    exists gs', (wrap_size (bc_buffersize ch + Z.of_nat (length data))).
    rewrite (proj2 (Z.eqb_neq _ _)) by (destruct data; cbn; [done|lia]).
    rewrite Hr. split; [done|]. split; [done|]. cbn [bc_granules bc_buffersize].
    split; [by rewrite Hd', Hd|]. rewrite Hs, wrap_size_add_l, length_app. f_equal. lia.
Qed.

(** ** Consuming 2^31 bytes or more *)

Lemma to_int_cases len :
  0 <= len < 2 ^ 63 ->
  (to_int len = len mod 2 ^ 32 /\ len mod 2 ^ 32 < 2 ^ 31) \/
  (to_int len = len mod 2 ^ 32 - 2 ^ 32 /\ 2 ^ 31 <= len mod 2 ^ 32 < 2 ^ 32).
Proof.
  intros Hlen. unfold to_int.
  pose proof (Z.mod_pos_bound len (2 ^ 32) ltac:(lia)) as Hr.
  pose proof (Z.div_mod len (2 ^ 32) ltac:(lia)) as Hdm.
  remember (len / 2 ^ 32) as q eqn:Eq. remember (len mod 2 ^ 32) as r eqn:Er. clear Eq Er.
  destruct (decide (r < 2 ^ 31)).
  - left. split; [|done]. rewrite Hdm.
    rewrite <-(Z.mod_unique (2 ^ 32 * q + r + 2 ^ 31) (2 ^ 32) q (r + 2 ^ 31)); lia.
  - right. split; [|lia]. rewrite Hdm.
    rewrite <-(Z.mod_unique (2 ^ 32 * q + r + 2 ^ 31) (2 ^ 32) (q + 1) (r - 2 ^ 31)); lia.
Qed.

(** What is left to consume never falls below 2^31. *)
Lemma consume_rem_large len k :
  2 ^ 31 <= len <= 2 ^ 63 - 2 ^ 32 -> (0 <= k \/ k = to_int len) -> k <= to_int len ->
  2 ^ 31 <= len - k <= 2 ^ 63 - 2 ^ 32.
Proof.
  intros Hlen Hk Hle. pose proof (Z.div_mod len (2 ^ 32) ltac:(lia)) as Hdm.
  pose proof (Z.mod_pos_bound len (2 ^ 32) ltac:(lia)) as Hr.
  destruct (to_int_cases len ltac:(lia)) as [[E Hs]|[E Hs]]; rewrite E in *; lia.
Qed.

Lemma consume_loop_large fuel gs bs len r :
  2 ^ 31 <= len <= 2 ^ 63 - 2 ^ 32 -> Forall (fun g => 0 <= g_avail g) gs ->
  bufchain_consume_loop fuel gs bs len <> Ok r.
Proof.
  revert gs bs len. induction fuel as [|fuel IH]; intros gs bs len Hlen Hok;
    cbn [bufchain_consume_loop]; rewrite (proj2 (Z.ltb_lt _ _)) by lia; [done|].
  destruct gs as [|g gs]; [done|]. apply Forall_cons in Hok as [Hg Hgs].
  destruct (Z.leb_spec (g_avail g) (to_int len)) as [Ha|Ha].
  - pose proof (consume_rem_large len (g_avail g) Hlen ltac:(lia) Ha).
    rewrite (wrap_size_small (len - _)) by (unfold SIZE_T; lia). by apply IH.
  - destruct (Z.ltb_spec (g_pos g + to_int len) 0); [done|].
    pose proof (consume_rem_large len (to_int len) Hlen ltac:(lia) ltac:(lia)).
    rewrite (wrap_size_small (len - _)) by (unfold SIZE_T; lia).
    apply IH; [done|]. apply Forall_cons. split; [|done].
    unfold g_avail in *. cbn [g_bytes g_pos]. lia.
Qed.

(** ** Adding data wakes the reader *)

(** The attached callback object exists and belongs to an existing set. *)
Definition wired {U} (ch : bufchain U) (w : world U) (p s : nat) : Prop :=
  bc_ic ch = Some p /\
  bc_queue_idempotent_callback ch = queue_idempotent_callback /\
  is_Some (w_sets w !! s) /\
  exists ic, w_ics w !! p = Some ic /\ ic_set ic = Some s.

Lemma queue_idempotent_queues {U} (w : world U) p s ic :
  queued_once w -> is_Some (w_sets w !! s) -> w_ics w !! p = Some ic -> ic_set ic = Some s ->
  exists w' cs', queue_idempotent_callback p w = Ok w' /\ queued_once w' /\
    w_sets w' !! s = Some cs' /\ Callback Run_idempotent_callback p ∈ cbqueue cs' /\
    w_ics w' !! p = Some (with_queued true ic).
Proof.
  intros Hinv [cs Hs] Hic Hset.
  assert (exists w' cs', queue_idempotent_callback p w = Ok w' /\
    w_sets w' !! s = Some cs' /\ Callback Run_idempotent_callback p ∈ cbqueue cs' /\
    w_ics w' !! p = Some (with_queued true ic))
    as (w' & cs' & Hq & Hs' & Hin & Hobj).
  { unfold queue_idempotent_callback, queue_toplevel_callback, deref. rewrite Hic.
    cbn [res_bind]. destruct (ic_queued ic) eqn:Eq.
    - exists w, cs. split; [done|]. split; [done|].
      split; [|by rewrite <-Eq, with_queued_same]. apply occ_pos_elem.
      rewrite (Hinv s cs p Hs). unfold expected_occ. rewrite Hic, Eq, Hset.
      by rewrite bool_decide_true.
    - rewrite Hset. cbn. rewrite Hs. cbn. eexists _, _. split; [done|].
      cbn. split; [apply lookup_insert_eq|]. split; [cbn; set_solver|].
      apply lookup_insert_eq. }
  exists w', cs'. split_and!; eauto using queue_idempotent_once.
Qed.

(** An idempotent callback in the queue comes to the front, with its function
    and context, and the next run of the event loop calls it. *)
Lemma queued_reader_runs {U} (exec : nat -> nat -> world U -> res (world U))
    (exec_client : forall f ctx w1 w2, exec f ctx w1 = Ok w2 -> rtc client_step w1 w2)
    (exec_returns : forall f ctx w1, exists w2, exec f ctx w1 = Ok w2) w s cs p ic :
  queued_once w -> w_sets w !! s = Some cs ->
  Callback Run_idempotent_callback p ∈ cbqueue cs -> w_ics w !! p = Some ic ->
  exists n w1 cs1 rest w2 cs2,
    run_times exec n s w = Ok w1 /\
    w_sets w1 !! s = Some cs1 /\ cbqueue cs1 = Callback Run_idempotent_callback p :: rest /\
    w_ics w1 !! p = Some (with_queued true ic) /\
    exec (ic_fn ic) (ic_ctx ic)
      (put_ic p (with_queued false ic)
         (put_set s (CallbackSet (Some (Callback Run_idempotent_callback p)) rest) w1))
      = Ok w2 /\
    w_sets w2 !! s = Some cs2 /\
    run_toplevel_callbacks exec s w1 =
      Ok (true, put_set s (CallbackSet None (cbqueue cs2)) w2).
Proof.
  intros Hinv Hs (pre & post & Hcs)%list_elem_of_split Hic.
  destruct (run_times_front exec exec_client exec_returns pre s w cs _ post Hs Hcs)
    as (w1 & cs1 & more & Hrun & Hs1 & Hq1 & Hl1 & Hobj).
  { apply Forall_forall. intros x Hx. apply (queued_once_live w s cs x Hinv Hs).
    rewrite Hcs. set_solver. }
  pose proof (run_times_once exec exec_client _ _ _ _ Hrun Hinv) as Hinv1.
  destruct (dequeue_idempotent_once s cs1 p _ w1 None Hs1 Hq1 Hinv1)
    as (ic1 & Hic1 & Hqd & _ & _).
  destruct (Hobj p ic Hic) as [b Hb]. rewrite Hb in Hic1. injection Hic1 as <-.
  cbn in Hqd. subst b.
  destruct (run_toplevel_front exec exec_client exec_returns s w1 cs1 _ _ Hs1 Hq1 Hl1)
    as (w2 & cs2 & more2 & Hcall & Hs2 & _ & Hrun2 & _).
  unfold call_toplevel, run_idempotent_callback, deref in Hcall. cbn in Hcall.
  rewrite Hb in Hcall. by exists (length pre), w1, cs1, (post ++ more), w2, cs2.
Qed.

(** ** Theorems *)

(** C32. A buffer chain is a queue of bytes: for up to 2^31 - 1 bytes that are
    there, fetching returns the first bytes, consuming removes them, and
    [bufchain_fetch_consume] and the three try variants do both or either, all
    with the same result; the prefix is a non-empty beginning of the data; asked
    for more than there is, the plain variants fail their assertion and the three
    try variants report failure and change nothing; and the size is the number
    of bytes. *)
Theorem bufchain_is_byte_queue {U} (ch : bufchain U) bytes len :
  chain_holds ch bytes -> Z.of_nat (length bytes) < SIZE_T -> 0 <= len < 2 ^ 31 ->
  bufchain_size ch = Z.of_nat (length bytes) /\
  (bytes <> [] ->
     exists p rest, bufchain_prefix ch = Ok p /\ p <> [] /\ bytes = p ++ rest) /\
  (len <= Z.of_nat (length bytes) ->
     bufchain_fetch ch len = Ok (take (Z.to_nat len) bytes) /\
     bufchain_try_fetch ch len = Ok (Some (take (Z.to_nat len) bytes)) /\
     exists ch', bufchain_consume ch len = Ok ch' /\
       chain_holds ch' (drop (Z.to_nat len) bytes) /\
       bufchain_fetch_consume ch len = Ok (take (Z.to_nat len) bytes, ch') /\
       bufchain_try_consume ch len = Ok (true, ch') /\
       bufchain_try_fetch_consume ch len = Ok (Some (take (Z.to_nat len) bytes), ch')) /\
  (exists ch', bufchain_fetch_consume_up_to ch len = Ok (take (Z.to_nat len) bytes, ch') /\
     chain_holds ch' (drop (Z.to_nat len) bytes)) /\
  (Z.of_nat (length bytes) < len ->
     bufchain_consume ch len = Crash AssertionFailed /\
     bufchain_fetch ch len = Crash AssertionFailed /\
     bufchain_fetch_consume ch len = Crash AssertionFailed /\
     bufchain_try_fetch ch len = Ok None /\
     bufchain_try_consume ch len = Ok (false, ch) /\
     bufchain_try_fetch_consume ch len = Ok (None, ch)).
Proof.
  intros Hch Hsz Hlen. split; [by apply chain_size|].
  split; [by apply chain_prefix|]. split.
  { intros Hle. split; [by apply chain_fetch|by apply chain_take_all]. }
  split; [apply chain_fetch_consume_up_to; (done || lia)|].
  intros. by apply (chain_too_short ch bytes).
Qed.

(** C33. Adding data to a chain with an attached callback appends the data and
    guarantees that the callback is called: after finitely many runs of the event
    loop the attached object is at the front of the queue of its set, still marked
    as queued and with its function and context, and the next run takes it off,
    clears the mark and calls exactly that function with that context, whatever
    else the callbacks schedule meanwhile.  The callbacks are assumed to return
    and to do nothing with the queues but schedule. *)
Theorem bufchain_add_wakes_reader {U} (exec : nat -> nat -> world U -> res (world U))
    (ch : bufchain U) bytes data w p s ic :
  (forall f ctx w1 w2, exec f ctx w1 = Ok w2 -> rtc client_step w1 w2) ->
  (forall f ctx w1, exists w2, exec f ctx w1 = Ok w2) ->
  chain_holds ch bytes -> wired ch w p s -> w_ics w !! p = Some ic ->
  queued_once w -> data <> [] ->
  exists ch' w', bufchain_add ch data w = Ok (ch', w') /\
    chain_holds ch' (bytes ++ data) /\
    exists n w1 cs1 rest w2 cs2,
      run_times exec n s w' = Ok w1 /\
      w_sets w1 !! s = Some cs1 /\ cbqueue cs1 = Callback Run_idempotent_callback p :: rest /\
      w_ics w1 !! p = Some (with_queued true ic) /\
      exec (ic_fn ic) (ic_ctx ic)
        (put_ic p (with_queued false ic)
           (put_set s (CallbackSet (Some (Callback Run_idempotent_callback p)) rest) w1))
        = Ok w2 /\
      w_sets w2 !! s = Some cs2 /\
      run_toplevel_callbacks exec s w1 =
        Ok (true, put_set s (CallbackSet None (cbqueue cs2)) w2).
Proof.
  intros Hc Hr Hch (Hic & Hqf & Hs & ic0 & Hp0 & Hset) Hp Hinv Hne.
  assert (ic0 = ic) as -> by congruence.
  destruct (chain_add ch bytes data w Hch) as (gs & bs & Hadd & Hholds).
  destruct (queue_idempotent_queues w p s ic Hinv Hs Hp Hset)
    as (w' & cs' & Hq & Hinv' & Hs' & Hin & Hobj).
  exists (Bufchain gs bs (bc_queue_idempotent_callback ch) (bc_ic ch)), w'.
  cbv zeta in Hadd. rewrite Hadd, Hic, Hqf, decide_False, Hq by done. rewrite Hqf, Hic in Hholds.
  split; [done|]. split; [done|].
  destruct (queued_reader_runs exec Hc Hr w' s cs' p _ Hinv' Hs' Hin Hobj)
    as (n & w1 & cs1 & rest & w2 & cs2 & H). by exists n, w1, cs1, rest, w2, cs2.
Qed.

(** C34. [bufchain_consume] keeps the length in a [size_t] but each step of its
    loop in an [int]: asked to consume 2^31 bytes or more, which the chain
    holds, it never returns: however many rounds the loop is given, it is still
    running, has left the granule, or has failed its assertion. *)
Theorem bufchain_consume_huge_never_returns {U} (ch : bufchain U) bytes len :
  chain_holds ch bytes -> 2 ^ 31 <= len <= 2 ^ 63 - 2 ^ 32 -> len <= Z.of_nat (length bytes) ->
  forall fuel r, bufchain_consume_loop fuel (bc_granules ch) (bc_buffersize ch) len <> Ok r.
Proof.
  intros (Hok & _) Hlen _ fuel r. apply consume_loop_large; [done|].
  eapply Forall_impl; [done|]. intros g Hg. apply Z.lt_le_incl, granule_ok_avail, Hg.
Qed.

(** *** Witnesses *)

Definition sample_chain : bufchain (list (nat * nat)) :=
  bufchain_set_callback
    (Bufchain [Granule [1; 2; 3] 1 3; Granule [4; 5] 0 100] 4
       uninitialised_queue_idempotent_callback None) (Some 5%nat).

Lemma sample_chain_holds : chain_holds sample_chain [2; 3; 4; 5].
Proof.
  split; [|done]. unfold sample_chain. cbn.
  repeat (apply Forall_cons; split; [unfold granule_ok; cbn; lia|]). constructor.
Qed.

Lemma sample_wired : wired sample_chain sample_world 5 1.
Proof. split_and!; [done|done|by eexists|by eexists]. Qed.

Lemma bufchain_is_byte_queue_witness :
  bufchain_fetch sample_chain 3 = Ok [2; 3; 4] /\
  bufchain_try_fetch sample_chain 3 = Ok (Some [2; 3; 4]).
Proof.
  destruct (bufchain_is_byte_queue sample_chain [2; 3; 4; 5] 3)
    as (_ & _ & H & _).
  - exact sample_chain_holds.
  - reflexivity.
  - split; [discriminate|reflexivity].
  - destruct (H ltac:(discriminate)) as (Hf & Ht & _). split; [exact Hf|exact Ht].
Defined.

Lemma bufchain_add_wakes_reader_witness :
  exists ch' w' n w1 w3, bufchain_add sample_chain [6] sample_world = Ok (ch', w') /\
    chain_holds ch' [2; 3; 4; 5; 6] /\ run_times log_exec n 1 w' = Ok w1 /\
    run_toplevel_callbacks log_exec 1 w1 = Ok (true, w3) /\
    w_user w3 = w_user w1 ++ [(7%nat, 8%nat)].
Proof.
  destruct (bufchain_add_wakes_reader log_exec sample_chain [2; 3; 4; 5] [6] sample_world 5 1
              (IdempotentCb 7 8 false (Some 1%nat)))
    as (ch' & w' & Ha & Hh & n & w1 & cs1 & rest & w2 & cs2 & Hn & _ & _ & _ & He & _ & Hr).
  - exact log_exec_client.
  - exact log_exec_returns.
  - exact sample_chain_holds.
  - exact sample_wired.
  - reflexivity.
  - exact (initial_queued_once _ sample_initial).
  - discriminate.
  - exists ch', w', n, w1, (put_set 1 (CallbackSet None (cbqueue cs2)) w2).
    split; [exact Ha|]. split; [exact Hh|]. split; [exact Hn|]. split; [exact Hr|].
    injection He as <-. reflexivity.
Defined.

(** A chain of one granule of 2^31 bytes. *)
Definition huge_chain : bufchain unit :=
  Bufchain [Granule (replicate (Z.to_nat (2 ^ 31)) 0) 0 (2 ^ 31)] (2 ^ 31)
    queue_idempotent_callback None.

Lemma huge_chain_holds :
  chain_holds huge_chain (replicate (Z.to_nat (2 ^ 31)) 0).
Proof.
  unfold huge_chain. split; [|split]; cbn [bc_granules bc_buffersize].
  - apply Forall_singleton. unfold granule_ok. cbn [g_pos g_bytes g_max].
    rewrite length_replicate. lia.
  - unfold chain_data. cbn [map concat]. apply app_nil_r.
  - rewrite length_replicate. unfold wrap_size, SIZE_T. rewrite Z.mod_small; lia.
Qed.

Lemma bufchain_consume_huge_never_returns_witness :
  chain_holds huge_chain (replicate (Z.to_nat (2 ^ 31)) 0) /\
  forall fuel r,
    bufchain_consume_loop fuel (bc_granules huge_chain) (bc_buffersize huge_chain) (2 ^ 31) <> Ok r.
Proof.
  split; [exact huge_chain_holds|].
  apply (bufchain_consume_huge_never_returns huge_chain (replicate (Z.to_nat (2 ^ 31)) 0)).
  - exact huge_chain_holds.
  - lia.
  - rewrite length_replicate. lia.
Defined.

(** ** Chains that are connected *)

Section ready.
  Context {U : Type}.
  Implicit Types (ch : bufchain U) (w : world U).

(** Nobody is to be notified of new data, or somebody who exists. *)
Definition ready ch w : Prop := bc_ic ch = None \/ exists p s, wired ch w p s.

Lemma queue_wired w p ic s :
  w_ics w !! p = Some ic -> ic_set ic = Some s -> is_Some (w_sets w !! s) ->
  exists w', queue_idempotent_callback p w = Ok w' /\
    (forall q i, w_ics w !! q = Some i -> exists i', w_ics w' !! q = Some i' /\ ic_set i' = ic_set i) /\
    (forall t, is_Some (w_sets w !! t) -> is_Some (w_sets w' !! t)).
Proof.
  intros Hic Hset [cs Hs]. unfold queue_idempotent_callback, queue_toplevel_callback, deref.
  rewrite Hic. cbn [res_bind]. destruct (ic_queued ic).
  { exists w. split_and!; eauto. }
  rewrite Hset. cbn. rewrite Hs. cbn. eexists. split; [done|]. cbn. split.
  - intros q i Hq. destruct (decide (p = q)) as [<-|Hne].
    + rewrite lookup_insert_eq. eexists. split; [done|]. cbn. congruence.
    + rewrite lookup_insert_ne by done. eauto.
  - intros t Ht. destruct (decide (s = t)) as [<-|Hne]; [by rewrite lookup_insert_eq|].
    by rewrite lookup_insert_ne.
Qed.

(** Adding to one chain keeps it and every other one connected. *)
Lemma ready_add ch bytes data w :
  chain_holds ch bytes -> ready ch w ->
  exists ch' w', bufchain_add ch data w = Ok (ch', w') /\ chain_holds ch' (bytes ++ data) /\
    ready ch' w' /\ (forall ch2, ready ch2 w -> ready ch2 w').
Proof.
  intros Hch Hr. destruct (chain_add ch bytes data w Hch) as (gs & bs & E & Hh). cbv zeta in E.
  destruct Hr as [Hn|(p & s & Hic & Hq & Hs & ic & Hp & Hset)].
  - rewrite Hn in *. rewrite E. do 2 eexists. split_and!; [done|done|by left|done].
  - rewrite Hic in *. rewrite E, Hq.
    destruct (queue_wired w p ic s Hp Hset Hs) as (w' & Hw' & Hics & Hsets).
    assert (Hmono : forall ch2, ready ch2 w -> ready ch2 w').
    { intros ch2 [?|(p2 & s2 & ? & ? & ? & ic2 & H2 & ?)]; [by left|]. right.
      destruct (Hics _ _ H2) as (ic2' & ? & ?). exists p2, s2. split_and!; try done; [by apply Hsets|].
      exists ic2'. split; congruence. }
    destruct (decide (data = [])).
    + do 2 eexists. split_and!; [done|by rewrite Hq in Hh| |done]. right. exists p, s. split_and!; eauto.
    + rewrite Hw'. cbn [res_bind]. do 2 eexists. split_and!; [done|by rewrite Hq in Hh| |done].
      apply Hmono. right. exists p, s. split_and!; eauto.
Qed.

End ready.

(** Who is notified of new data, and how. *)
Definition notify {U} (ch : bufchain U) := (bc_queue_idempotent_callback ch, bc_ic ch).

Lemma ready_notify {U} (ch ch2 : bufchain U) w : notify ch2 = notify ch -> ready ch w -> ready ch2 w.
Proof. intros [= Hq Hi]. unfold ready, wired. by rewrite Hq, Hi. Qed.
