(* ===== verification/Marshal.v ===== *)
(** * Marshalling of SSH binary data (putty utils/marshal.c, marshal.h)

    A [BinarySink] is anything that bytes can be written to, an interface that
    marshal.h builds from a structure with a function pointer; here it is a
    type class with the one method, and [LawfulSink] states what a sink
    promises.  The functions [put_...] are written, and proved, against the
    interface.  A [BinarySource] is a block of bytes with a position and an
    error that sticks; the functions [get_...] read from it.

    Every read of the block goes through [read_at], which is undefined out of
    bounds, so the theorems that no [get_...] crashes are memory safety. *)

From S2P Require Import Prelude Bufchain.
Local Open Scope cmodel_scope.
Local Open Scope Z_scope.

(** ** Sinks *)

Class BinarySink (S : Type) := bs_write : S -> list Z -> res S.

(** [(uint8_t)x] *)
Definition u8 (x : Z) : Z := x mod 256.

(** A C string is the memory it starts at. *)
Fixpoint strlen (str : list Z) : res nat :=
  match str with
  | [] => Crash UndefinedBehaviour
  | c :: str => if c =? 0 then Ok O else let! n := strlen str in Ok (S n)
  end.

Definition PUT_16BIT_MSB_FIRST (value : Z) : list Z :=
  [u8 (Z.shiftr value 8); u8 value].

Definition PUT_32BIT_MSB_FIRST (value : Z) : list Z :=
  [u8 (Z.shiftr value 24); u8 (Z.shiftr value 16); u8 (Z.shiftr value 8); u8 value].

Definition PUT_64BIT_MSB_FIRST (value : Z) : list Z :=
  [u8 (Z.shiftr value 56); u8 (Z.shiftr value 48); u8 (Z.shiftr value 40);
   u8 (Z.shiftr value 32); u8 (Z.shiftr value 24); u8 (Z.shiftr value 16);
   u8 (Z.shiftr value 8); u8 value].

Section puts.
  Context {S : Type} `{BinarySink S}.
  Implicit Types bs : S.

Definition BinarySink_put_data bs (data : list Z) : res S := bs_write bs data.

Definition BinarySink_put_datapl bs (pl : list Z) : res S := BinarySink_put_data bs pl.

Fixpoint put_padding_loop (fuel : nat) bs (len : Z) (padbyte : Z) : res S :=
  if 0 <? len then
    match fuel with
    | O => Crash OutOfFuel
    | Datatypes.S fuel =>
        let thislen := if len <? 16 then len else 16 in
        let! bs := bs_write bs (replicate (Z.to_nat thislen) padbyte) in
        put_padding_loop fuel bs (len - thislen) padbyte
    end
  else Ok bs.

Definition BinarySink_put_padding bs (len : Z) (padbyte : Z) : res S :=
  put_padding_loop (Z.to_nat len) bs len padbyte.

Definition BinarySink_put_byte bs (val : Z) : res S := bs_write bs [u8 val].

Definition BinarySink_put_bool bs (val : bool) : res S :=
  let cval := if val then 1 else 0 in
  bs_write bs [cval].

Definition BinarySink_put_uint16 bs (val : Z) : res S :=
  bs_write bs (PUT_16BIT_MSB_FIRST val).

Definition BinarySink_put_uint32 bs (val : Z) : res S :=
  bs_write bs (PUT_32BIT_MSB_FIRST val).

Definition BinarySink_put_uint64 bs (val : Z) : res S :=
  bs_write bs (PUT_64BIT_MSB_FIRST val).

Definition BinarySink_put_string bs (data : list Z) : res S :=
  let len := Z.of_nat (length data) in
  c_assert (Z.shiftr len 31 <? 2) (
    let! bs := BinarySink_put_uint32 bs len in
    bs_write bs data).

Definition BinarySink_put_stringpl bs (pl : list Z) : res S := BinarySink_put_string bs pl.

Definition BinarySink_put_stringz bs (str : list Z) : res S :=
  let! n := strlen str in
  BinarySink_put_string bs (take n str).

Definition BinarySink_put_asciz bs (str : list Z) : res S :=
  let! n := strlen str in
  bs_write bs (take (n + 1) str).

Definition BinarySink_put_pstring bs (str : list Z) : res (bool * S) :=
  let! n := strlen str in
  if 255 <? Z.of_nat n then Ok (false, bs)
  else
    let! bs := BinarySink_put_byte bs (Z.of_nat n) in
    let! bs := bs_write bs (take n str) in
    Ok (true, bs).

End puts.

(** ** Sources *)

Inductive BinarySourceError := BSE_NO_ERROR | BSE_OUT_OF_DATA | BSE_INVALID.

#[export] Instance BinarySourceError_eq_dec : EqDecision BinarySourceError.
Proof. solve_decision. Defined.

Record BinarySource := BSource {
  src_data : list Z;
  src_pos : Z;
  src_err : BinarySourceError
}.

Definition src_len (src : BinarySource) : Z := Z.of_nat (length (src_data src)).

Definition BinarySource_INIT (data : list Z) : BinarySource := BSource data 0 BSE_NO_ERROR.

Definition set_err (src : BinarySource) (e : BinarySourceError) : BinarySource :=
  BSource (src_data src) (src_pos src) e.

Definition advance (src : BinarySource) (dist : Z) : BinarySource :=
  BSource (src_data src) (wrap_size (src_pos src + dist)) (src_err src).

(** The [n] bytes of the block from offset [pos]. *)
Definition read_at (data : list Z) (pos n : Z) : res (list Z) :=
  if (0 <=? pos) && (0 <=? n) && (pos + n <=? Z.of_nat (length data))
  then Ok (take (Z.to_nat n) (drop (Z.to_nat pos) data))
  else Crash UndefinedBehaviour.

Definition get_avail (src : BinarySource) : Z := wrap_size (src_len src - src_pos src).

Definition BinarySource_data_avail (src : BinarySource) (wanted : Z) : bool * BinarySource :=
  if decide (src_err src = BSE_NO_ERROR) then
    if wanted <=? get_avail src then (true, src)
    else (false, set_err src BSE_OUT_OF_DATA)
  else (false, src).

(** [consume(dist)], with the bytes it steps over. *)
Definition consume (src : BinarySource) (dist : Z) : res (list Z * BinarySource) :=
  let! bytes := read_at (src_data src) (src_pos src) dist in
  Ok (bytes, advance src dist).

Definition BinarySource_get_data (src : BinarySource) (wanted : Z)
  : res (list Z * BinarySource) :=
  let '(avail, src) := BinarySource_data_avail src wanted in
  if avail then consume src wanted else Ok ([], src).

(** Read [n] bytes and compute a value from them; [dflt] if they are not there. *)
Definition get_fixed {A} (n : Z) (dflt : A) (decode : list Z -> A) (src : BinarySource)
  : res (A * BinarySource) :=
  let '(avail, src) := BinarySource_data_avail src n in
  if avail then
    let! r := consume src n in
    Ok (decode r.1, r.2)
  else Ok (dflt, src).

Definition GET_16BIT_MSB_FIRST (p : list Z) : Z :=
  Z.lor (nth 1 p 0) (Z.shiftl (nth 0 p 0) 8).

Definition GET_32BIT_MSB_FIRST (p : list Z) : Z :=
  Z.lor (Z.lor (Z.lor (nth 3 p 0) (Z.shiftl (nth 2 p 0) 8))
    (Z.shiftl (nth 1 p 0) 16)) (Z.shiftl (nth 0 p 0) 24).

Definition GET_64BIT_MSB_FIRST (p : list Z) : Z :=
  Z.lor (Z.lor (Z.lor (Z.lor (Z.lor (Z.lor (Z.lor
    (nth 7 p 0) (Z.shiftl (nth 6 p 0) 8))
    (Z.shiftl (nth 5 p 0) 16)) (Z.shiftl (nth 4 p 0) 24))
    (Z.shiftl (nth 3 p 0) 32)) (Z.shiftl (nth 2 p 0) 40))
    (Z.shiftl (nth 1 p 0) 48)) (Z.shiftl (nth 0 p 0) 56).

Definition BinarySource_get_byte : BinarySource -> res (Z * BinarySource) :=
  get_fixed 1 0 (fun p => nth 0 p 0).

Definition BinarySource_get_bool : BinarySource -> res (bool * BinarySource) :=
  get_fixed 1 false (fun p => negb (nth 0 p 0 =? 0)).

Definition BinarySource_get_uint16 : BinarySource -> res (Z * BinarySource) :=
  get_fixed 2 0 GET_16BIT_MSB_FIRST.

Definition BinarySource_get_uint32 : BinarySource -> res (Z * BinarySource) :=
  get_fixed 4 0 GET_32BIT_MSB_FIRST.

Definition BinarySource_get_uint64 : BinarySource -> res (Z * BinarySource) :=
  get_fixed 8 0 GET_64BIT_MSB_FIRST.

Definition BinarySource_get_string (src : BinarySource) : res (list Z * BinarySource) :=
  let '(avail, src) := BinarySource_data_avail src 4 in
  if avail then
    let! r := consume src 4 in
    let len := GET_32BIT_MSB_FIRST r.1 in
    let '(avail, src) := BinarySource_data_avail r.2 len in
    if avail then consume src len else Ok ([], src)
  else Ok ([], src).

Definition BinarySource_get_pstring (src : BinarySource) : res (list Z * BinarySource) :=
  let '(avail, src) := BinarySource_data_avail src 1 in
  if avail then
    let! r := consume src 1 in
    let len := nth 0 r.1 0 in
    let '(avail, src) := BinarySource_data_avail r.2 len in
    if avail then consume src len else Ok ([], src)
  else Ok ([], src).

(** [memchr]: the offset of the first [c] *)
Fixpoint memchr (bytes : list Z) (c : Z) : option nat :=
  match bytes with
  | [] => None
  | b :: bytes => if b =? c then Some O else S <$> memchr bytes c
  end.

(** The result is the string without its terminator. *)
Definition BinarySource_get_asciz (src : BinarySource) : res (list Z * BinarySource) :=
  if decide (src_err src = BSE_NO_ERROR) then
    let! rest := read_at (src_data src) (src_pos src) (get_avail src) in
    match memchr rest 0 with
    | None => Ok ([], set_err src BSE_OUT_OF_DATA)
    | Some n => Ok (take n rest, advance src (Z.of_nat n + 1))
    end
  else Ok ([], src).

(** [strchr(set, c) != NULL]: the terminator of [set] counts as a member. *)
Definition in_charset (set : list Z) (c : Z) : bool :=
  bool_decide (c ∈ set) || (c =? 0).

Fixpoint get_chars_loop (fuel : nat) (src : BinarySource) (set : list Z) (include : bool)
    (acc : list Z) : res (list Z * BinarySource) :=
  match fuel with
  | O => Crash OutOfFuel
  | S fuel =>
      let '(avail, src) := BinarySource_data_avail src 1 in
      if avail then
        let! p := read_at (src_data src) (src_pos src) 1 in
        let c := nth 0 p 0 in
        if eqb (in_charset set c) include then
          get_chars_loop fuel (advance src 1) set include (acc ++ [c])
        else Ok (acc, src)
      else Ok (acc, src)
  end.

Definition BinarySource_get_chars_internal (src : BinarySource) (set : list Z) (include : bool)
  : res (list Z * BinarySource) :=
  get_chars_loop (S (length (src_data src))) src set include [].

Definition BinarySource_get_chars (src : BinarySource) (include_set : list Z) :=
  BinarySource_get_chars_internal src include_set true.

Definition BinarySource_get_nonchars (src : BinarySource) (exclude_set : list Z) :=
  BinarySource_get_chars_internal src exclude_set false.

Definition chomp_byte (c : Z) (line : list Z) : list Z :=
  if decide (last line = Some c) then take (length line - 1) line else line.

Definition BinarySource_get_chomped_line (src : BinarySource) : res (list Z * BinarySource) :=
  if decide (src_err src = BSE_NO_ERROR) then
    let! rest := read_at (src_data src) (src_pos src) (get_avail src) in
    let dist := match memchr rest 10 with
                | Some n => Z.of_nat n + 1
                | None => get_avail src
                end in
    let! line := read_at (src_data src) (src_pos src) dist in
    Ok (chomp_byte 13 (chomp_byte 10 line), advance src dist)
  else Ok ([], src).

Definition BinarySource_REWIND_TO (src : BinarySource) (pos : Z) : BinarySource :=
  if pos <=? src_len src then BSource (src_data src) pos BSE_NO_ERROR
  else BSource (src_data src) (src_len src) BSE_OUT_OF_DATA.

(** ** What a sink promises *)

(** [sink_holds s c]: the bytes written to [s] so far are [c].  Writing appends,
    as long as the total stays within the limit of the kind of sink. *)
Class LawfulSink (S : Type) `{BinarySink S} := {
  sink_limit : Z;
  sink_holds : S -> list Z -> Prop;
  sink_write s c d :
    sink_holds s c -> Z.of_nat (length (c ++ d)) <= sink_limit ->
    exists s', bs_write s d = Ok s' /\ sink_holds s' (c ++ d)
}.

(** An operation that appends [enc] to whatever sink it is given. *)
Definition appends {S} `{LawfulSink S} (op : S -> res S) (enc : list Z) : Prop :=
  forall s c, sink_holds s c -> Z.of_nat (length (c ++ enc)) <= sink_limit ->
    exists s', op s = Ok s' /\ sink_holds s' (c ++ enc).

Section put_laws.
  Context {S : Type} `{LawfulSink S}.

Lemma appends_write d : appends (fun s : S => bs_write s d) d.
Proof. intros s c. apply sink_write. Qed.

Lemma appends_nil : appends (fun s : S => Ok s) [].
Proof. intros s c Hc _. rewrite app_nil_r. eauto. Qed.

Lemma appends_seq (op1 op2 : S -> res S) e1 e2 :
  appends op1 e1 -> appends op2 e2 ->
  appends (fun s => let! s := op1 s in op2 s) (e1 ++ e2).
Proof.
  intros H1 H2 s c Hc Hl. rewrite app_assoc in Hl.
  destruct (H1 s c Hc) as (s1 & -> & Hc1).
  { rewrite length_app in Hl. lia. }
  destruct (H2 s1 _ Hc1 Hl) as (s2 & E & Hc2). exists s2.
  cbn [res_bind]. by rewrite app_assoc.
Qed.

Lemma appends_ext (op op' : S -> res S) e :
  (forall s, op s = op' s) -> appends op' e -> appends op e.
Proof. intros E Hop s c Hc Hl. rewrite E. by apply Hop. Qed.

Lemma appends_byte v : appends (fun s : S => BinarySink_put_byte s v) [u8 v].
Proof. apply appends_write. Qed.

Lemma put_padding_loop_appends fuel len b :
  (Z.to_nat len <= fuel)%nat ->
  appends (fun s : S => put_padding_loop fuel s len b) (replicate (Z.to_nat len) b).
Proof.
  revert len. induction fuel as [|fuel IH]; intros len Hf; cbn [put_padding_loop].
  - rewrite (proj2 (Z.ltb_ge _ _)) by lia. replace (Z.to_nat len) with O by lia.
    apply appends_nil.
  - destruct (Z.ltb_spec 0 len) as [Hpos|Hz].
    + set (k := if len <? 16 then len else 16).
      assert (0 < k <= len) by (unfold k; destruct (Z.ltb_spec len 16); lia). clearbody k.
      replace (Z.to_nat len) with (Z.to_nat k + Z.to_nat (len - k))%nat by lia.
      rewrite replicate_add. apply appends_seq; [apply appends_write|apply IH; lia].
    + replace (Z.to_nat len) with O by lia. apply appends_nil.
Qed.

Lemma put_padding_appends len b :
  appends (fun s : S => BinarySink_put_padding s len b) (replicate (Z.to_nat len) b).
Proof. by apply put_padding_loop_appends. Qed.

Lemma put_string_appends d :
  Z.of_nat (length d) < 2 ^ 32 ->
  appends (fun s : S => BinarySink_put_string s d)
    (PUT_32BIT_MSB_FIRST (Z.of_nat (length d)) ++ d).
Proof.
  intros Hl. unfold BinarySink_put_string. eapply appends_ext.
  { intros s. apply c_assert_true. apply Z.ltb_lt.
    rewrite Z.shiftr_div_pow2 by lia. apply Z.div_lt_upper_bound; lia. }
  apply appends_seq; apply appends_write.
Qed.

End put_laws.

(** ** C strings *)

Lemma strlen_app s rest : 0 ∉ s -> strlen (s ++ 0 :: rest) = Ok (length s).
Proof.
  induction s as [|c s IH]; intros Hn; [done|]. cbn [app strlen].
  apply not_elem_of_cons in Hn as [Hc Hn]. rewrite (proj2 (Z.eqb_neq c 0)) by congruence.
  by rewrite IH.
Qed.

Lemma memchr_app s c rest : c ∉ s -> memchr (s ++ c :: rest) c = Some (length s).
Proof.
  induction s as [|b s IH]; intros Hn; cbn [app memchr].
  - by rewrite Z.eqb_refl.
  - apply not_elem_of_cons in Hn as [Hc Hn]. rewrite (proj2 (Z.eqb_neq b c)) by congruence.
    by rewrite IH.
Qed.

Lemma memchr_lt bytes c n : memchr bytes c = Some n -> (n < length bytes)%nat.
Proof.
  revert n. induction bytes as [|b bytes IH]; intros n; cbn [memchr length]; [done|].
  destruct (b =? c); [intros [= <-]; lia|].
  destruct (memchr bytes c); [|done]. intros [= <-]. specialize (IH _ eq_refl). lia.
Qed.

(** ** Integers on the wire *)

Lemma u8_range x : 0 <= u8 x < 256.
Proof. apply Z.mod_pos_bound. lia. Qed.

Lemma u8_small x : 0 <= x < 256 -> u8 x = x.
Proof. apply Z.mod_small. Qed.

(** One more byte of a number put together from its bytes. *)
Lemma lor_next_byte v k :
  0 <= k -> Z.lor (v mod 2 ^ k) (Z.shiftl (u8 (Z.shiftr v k)) k) = v mod 2 ^ (k + 8).
Proof.
  intros Hk. assert (0 < 2 ^ k) by (apply Z.pow_pos_nonneg; lia).
  rewrite lor_add by (try apply Z.mod_pos_bound; lia).
  rewrite Z.pow_add_r, Z.rem_mul_r by lia. unfold u8.
  rewrite Z.shiftr_div_pow2 by lia. change (2 ^ 8) with 256. ring.
Qed.

Lemma get_put_16 v : GET_16BIT_MSB_FIRST (PUT_16BIT_MSB_FIRST v) = v mod 2 ^ 16.
Proof.
  unfold GET_16BIT_MSB_FIRST, PUT_16BIT_MSB_FIRST. cbn [nth].
  change (u8 v) with (v mod 2 ^ 8). by rewrite lor_next_byte by lia.
Qed.

Lemma get_put_32 v : GET_32BIT_MSB_FIRST (PUT_32BIT_MSB_FIRST v) = v mod 2 ^ 32.
Proof.
  unfold GET_32BIT_MSB_FIRST, PUT_32BIT_MSB_FIRST. cbn [nth].
  change (u8 v) with (v mod 2 ^ 8). rewrite !lor_next_byte by lia. done.
Qed.

Lemma get_put_64 v : GET_64BIT_MSB_FIRST (PUT_64BIT_MSB_FIRST v) = v mod 2 ^ 64.
Proof.
  unfold GET_64BIT_MSB_FIRST, PUT_64BIT_MSB_FIRST. cbn [nth].
  change (u8 v) with (v mod 2 ^ 8). rewrite !lor_next_byte by lia. done.
Qed.

Lemma GET_32_range p : bytesOK p -> 0 <= GET_32BIT_MSB_FIRST p < 2 ^ 32.
Proof.
  intros Hp. assert (Hn : forall i, 0 <= nth i p 0 < 256).
  { intros i. destruct (nth_in_or_default i p 0) as [Hi| ->]; [|lia].
    apply list_elem_of_In in Hi. by apply (proj1 (Forall_forall _ _) Hp). }
  unfold GET_32BIT_MSB_FIRST.
  pose proof (Hn 0%nat). pose proof (Hn 1%nat). pose proof (Hn 2%nat). pose proof (Hn 3%nat).
  rewrite (lor_add 8), (lor_add 16), (lor_add 24) by lia. lia.
Qed.

(** ** Reading is safe and errors stick *)

Definition src_wf (src : BinarySource) : Prop :=
  0 <= src_pos src <= src_len src /\ src_len src < SIZE_T /\ bytesOK (src_data src).

(** From a well-formed source the getter returns, the source stays well-formed
    over the same data, the position never moves back, and once there has been
    an error nothing changes and the default is returned. *)
Definition safe_getter {A} (dflt : A) (get : BinarySource -> res (A * BinarySource)) : Prop :=
  forall src, src_wf src ->
    exists a src', get src = Ok (a, src') /\ src_wf src' /\
      src_data src' = src_data src /\ src_pos src <= src_pos src' /\
      (src_err src <> BSE_NO_ERROR -> a = dflt /\ src' = src).

Lemma get_avail_wf src : src_wf src -> get_avail src = src_len src - src_pos src.
Proof. intros (? & ? & ?). unfold get_avail. rewrite wrap_size_small; lia. Qed.

Lemma data_avail_cases src n :
  src_wf src ->
  (src_err src = BSE_NO_ERROR /\ n <= src_len src - src_pos src /\
     BinarySource_data_avail src n = (true, src)) \/
  (exists src', BinarySource_data_avail src n = (false, src') /\ src_wf src' /\
     src_data src' = src_data src /\ src_pos src' = src_pos src /\
     src_err src' <> BSE_NO_ERROR /\ (src_err src <> BSE_NO_ERROR -> src' = src)).
Proof.
  intros Hwf. unfold BinarySource_data_avail. rewrite get_avail_wf by done.
  destruct (decide (src_err src = BSE_NO_ERROR)) as [He|He]; [|right; eauto 10].
  destruct (Z.leb_spec n (src_len src - src_pos src)); [by left|].
  right. eexists. by repeat split; try apply Hwf.
Qed.

Lemma read_at_wf src n :
  src_wf src -> 0 <= n <= src_len src - src_pos src ->
  read_at (src_data src) (src_pos src) n =
    Ok (take (Z.to_nat n) (drop (Z.to_nat (src_pos src)) (src_data src))).
Proof.
  intros (Hp & _) Hn. unfold read_at, src_len in *.
  rewrite !(proj2 (Z.leb_le _ _)) by lia. done.
Qed.

Lemma advance_wf src n :
  src_wf src -> 0 <= n <= src_len src - src_pos src ->
  src_wf (advance src n) /\ src_pos (advance src n) = src_pos src + n.
Proof.
  intros (Hp & Hl & Hb) Hn. unfold src_wf, src_len, advance in *. cbn [src_pos src_data].
  rewrite wrap_size_small by lia. repeat split; (done || lia).
Qed.

Lemma consume_wf src n :
  src_wf src -> 0 <= n <= src_len src - src_pos src ->
  exists bytes, consume src n = Ok (bytes, advance src n) /\
    length bytes = Z.to_nat n /\ bytesOK bytes.
Proof.
  intros Hwf Hn. unfold consume. rewrite read_at_wf by done. eexists. split; [done|].
  destruct Hwf as (Hp & Hl & Hb). unfold src_len in *. split.
  - rewrite length_take, length_drop. lia.
  - by apply Forall_take, Forall_drop.
Qed.

(** Close a goal of [safe_getter] whose result is known. *)
Ltac getter_done :=
  eexists _, _; split; [eassumption || reflexivity|];
  split; [done|]; split; [cbn in *; congruence|]; split; [cbn in *; lia|];
  intros ?; first [done|split; auto].

Lemma get_fixed_safe {A} n (dflt : A) decode :
  0 <= n -> safe_getter dflt (get_fixed n dflt decode).
Proof.
  intros Hn src Hwf. unfold get_fixed.
  destruct (data_avail_cases src n Hwf) as [(He & Hle & ->)|(src' & -> & Hwf' & Hd & Hp & _ & Hs)].
  - destruct (consume_wf src n Hwf) as (bytes & -> & _); [lia|].
    destruct (advance_wf src n Hwf) as [Hwf' Hp']; [lia|].
    getter_done.
  - getter_done.
Qed.

Lemma get_data_safe wanted : 0 <= wanted -> safe_getter [] (fun src => BinarySource_get_data src wanted).
Proof.
  intros Hn src Hwf. unfold BinarySource_get_data.
  destruct (data_avail_cases src wanted Hwf)
    as [(He & Hle & ->)|(src' & -> & Hwf' & Hd & Hp & _ & Hs)].
  - destruct (consume_wf src wanted Hwf) as (bytes & -> & _); [lia|].
    destruct (advance_wf src wanted Hwf) as [Hwf' Hp']; [lia|].
    getter_done.
  - getter_done.
Qed.

(** A prefix of fixed size that gives the length of the string behind it. *)
Definition get_prefixed (n : Z) (len_of : list Z -> Z) (src : BinarySource)
  : res (list Z * BinarySource) :=
  let '(avail, src) := BinarySource_data_avail src n in
  if avail then
    let! r := consume src n in
    let len := len_of r.1 in
    let '(avail, src) := BinarySource_data_avail r.2 len in
    if avail then consume src len else Ok ([], src)
  else Ok ([], src).

Lemma get_prefixed_safe n len_of :
  0 <= n -> (forall p, bytesOK p -> 0 <= len_of p) -> safe_getter [] (get_prefixed n len_of).
Proof.
  intros Hn Hlen src Hwf. unfold get_prefixed.
  destruct (data_avail_cases src n Hwf) as [(He & Hle & ->)|(src' & -> & Hwf' & Hd & Hp & _ & Hs)].
  2:{ getter_done. }
  destruct (consume_wf src n Hwf) as (p & -> & _ & Hp); [lia|]. cbn [res_bind fst snd].
  destruct (advance_wf src n Hwf) as [Hwf1 Hp1]; [lia|].
  destruct (get_data_safe (len_of p) (Hlen p Hp) (advance src n) Hwf1)
    as (a & src' & Hget & Hwf' & Hd' & Hp' & _).
  getter_done.
Qed.

Lemma get_string_safe : safe_getter [] BinarySource_get_string.
Proof. apply get_prefixed_safe; [done|]. intros p Hp. apply GET_32_range, Hp. Qed.

Lemma get_pstring_safe : safe_getter [] BinarySource_get_pstring.
Proof.
  apply (get_prefixed_safe 1 (fun p => nth 0 p 0)); [done|]. intros p Hp.
  destruct p as [|b p]; [done|]. apply Forall_cons in Hp as [Hb _]. apply Hb.
Qed.

Lemma get_asciz_safe : safe_getter [] BinarySource_get_asciz.
Proof.
  intros src Hwf. unfold BinarySource_get_asciz.
  destruct (decide _) as [He|He]; [|getter_done].
  rewrite get_avail_wf, read_at_wf by (try done; destruct Hwf; lia). cbn [res_bind].
  destruct (memchr _ 0) as [n|] eqn:Hm.
  - apply memchr_lt in Hm. rewrite length_take, length_drop in Hm.
    destruct (advance_wf src (Z.of_nat n + 1) Hwf) as [Hwf' Hp'];
      [destruct Hwf; unfold src_len in *; lia|].
    getter_done.
  - getter_done.
Qed.

Lemma get_chomped_line_safe : safe_getter [] BinarySource_get_chomped_line.
Proof.
  intros src Hwf. unfold BinarySource_get_chomped_line.
  destruct (decide _) as [He|He]; [|getter_done].
  rewrite get_avail_wf, read_at_wf by (try done; destruct Hwf; lia). cbn [res_bind].
  set (dist := match memchr _ 10 with Some n => _ | None => _ end).
  assert (Hdist : 0 <= dist <= src_len src - src_pos src).
  { unfold dist. destruct (memchr _ 10) as [n|] eqn:Hm; [|destruct Hwf; lia].
    apply memchr_lt in Hm. rewrite length_take, length_drop in Hm.
    destruct Hwf. unfold src_len in *. lia. }
  clearbody dist. rewrite read_at_wf by done. cbn [res_bind].
  destruct (advance_wf src dist Hwf Hdist) as [Hwf' Hp'].
  getter_done.
Qed.

Lemma get_chars_loop_safe fuel src set include acc :
  src_wf src -> (Z.to_nat (src_len src - src_pos src) < fuel)%nat ->
  exists a src', get_chars_loop fuel src set include acc = Ok (a, src') /\ src_wf src' /\
    src_data src' = src_data src /\ src_pos src <= src_pos src' /\
    (src_err src <> BSE_NO_ERROR -> a = acc /\ src' = src).
Proof.
  revert src acc. induction fuel as [|fuel IH]; intros src acc Hwf Hf; [lia|].
  cbn [get_chars_loop].
  destruct (data_avail_cases src 1 Hwf) as [(He & Hle & ->)|(src' & -> & Hwf' & Hd & Hp & _ & Hs)].
  2:{ getter_done. }
  rewrite read_at_wf by (done || lia). cbn [res_bind].
  destruct (eqb _ _).
  - destruct (advance_wf src 1 Hwf) as [Hwf1 Hp1]; [lia|].
    destruct (IH (advance src 1) (acc ++ [nth 0 (take (Z.to_nat 1)
                (drop (Z.to_nat (src_pos src)) (src_data src))) 0]) Hwf1)
      as (a & src' & -> & Hwf' & Hd' & Hp' & _).
    { change (src_len (advance src 1)) with (src_len src). rewrite Hp1. lia. }
    getter_done.
  - getter_done.
Qed.

Lemma get_chars_safe set include :
  safe_getter [] (fun src => BinarySource_get_chars_internal src set include).
Proof.
  intros src Hwf. apply get_chars_loop_safe; [done|].
  destruct Hwf. unfold src_len in *. lia.
Qed.

(** ** Round trips *)

(** A source that has read [pre] and has [rest] in front of it. *)
Definition source_at (pre rest : list Z) : BinarySource :=
  BSource (pre ++ rest) (Z.of_nat (length pre)) BSE_NO_ERROR.

Lemma source_at_wf pre rest :
  Z.of_nat (length (pre ++ rest)) < SIZE_T -> bytesOK (pre ++ rest) ->
  src_wf (source_at pre rest).
Proof.
  intros Hl Hb. unfold src_wf, src_len, source_at. cbn [src_pos src_data].
  rewrite length_app in *. repeat split; (done || lia).
Qed.

Section reading.
  Context (pre rest : list Z).

Lemma data_avail_at d n :
  Z.of_nat (length (pre ++ d ++ rest)) < SIZE_T -> n = Z.of_nat (length d) ->
  BinarySource_data_avail (source_at pre (d ++ rest)) n = (true, source_at pre (d ++ rest)).
Proof.
  intros Hl ->. unfold BinarySource_data_avail, get_avail, src_len, source_at.
  cbn [src_err src_data src_pos]. rewrite decide_True by done.
  rewrite !length_app in *. rewrite wrap_size_small by lia.
  by rewrite (proj2 (Z.leb_le _ _)) by lia.
Qed.

Lemma advance_at d n :
  Z.of_nat (length (pre ++ d ++ rest)) < SIZE_T -> n = Z.of_nat (length d) ->
  advance (source_at pre (d ++ rest)) n = source_at (pre ++ d) rest.
Proof.
  intros Hl ->. unfold advance, source_at. cbn [src_data src_pos src_err].
  rewrite !length_app in *. rewrite wrap_size_small by lia.
  f_equal; [by rewrite app_assoc|lia].
Qed.

Lemma read_at_at d n :
  n = Z.of_nat (length d) ->
  read_at (pre ++ d ++ rest) (Z.of_nat (length pre)) n = Ok d.
Proof.
  intros ->. unfold read_at. rewrite !length_app.
  rewrite !(proj2 (Z.leb_le _ _)) by lia. cbn [andb]. rewrite !Nat2Z.id.
  by rewrite drop_app_length, take_app_length.
Qed.

Lemma consume_at d n :
  Z.of_nat (length (pre ++ d ++ rest)) < SIZE_T -> n = Z.of_nat (length d) ->
  consume (source_at pre (d ++ rest)) n = Ok (d, source_at (pre ++ d) rest).
Proof.
  intros Hl Hn. unfold consume. cbn [src_data src_pos source_at].
  rewrite read_at_at by done. cbn [res_bind]. by rewrite advance_at.
Qed.

Lemma get_data_at d n :
  Z.of_nat (length (pre ++ d ++ rest)) < SIZE_T -> n = Z.of_nat (length d) ->
  BinarySource_get_data (source_at pre (d ++ rest)) n = Ok (d, source_at (pre ++ d) rest).
Proof.
  intros Hl Hn. unfold BinarySource_get_data. by rewrite data_avail_at, consume_at.
Qed.

Lemma get_fixed_at {A} n (dflt : A) decode d :
  Z.of_nat (length (pre ++ d ++ rest)) < SIZE_T -> n = Z.of_nat (length d) ->
  get_fixed n dflt decode (source_at pre (d ++ rest)) = Ok (decode d, source_at (pre ++ d) rest).
Proof.
  intros Hl Hn. unfold get_fixed. by rewrite data_avail_at, consume_at.
Qed.

Lemma read_rest_at :
  Z.of_nat (length (pre ++ rest)) < SIZE_T ->
  read_at (pre ++ rest) (Z.of_nat (length pre)) (get_avail (source_at pre rest)) = Ok rest.
Proof.
  intros Hl. unfold get_avail, src_len, read_at. cbn [src_data src_pos source_at].
  rewrite length_app in *. rewrite wrap_size_small by lia.
  rewrite !(proj2 (Z.leb_le _ _)) by lia. cbn [andb].
  by rewrite Nat2Z.id, drop_app_length, take_ge by lia.
Qed.

End reading.

Lemma get_asciz_at pre rest s :
  Z.of_nat (length (pre ++ (s ++ [0]) ++ rest)) < SIZE_T -> 0 ∉ s ->
  BinarySource_get_asciz (source_at pre ((s ++ [0]) ++ rest)) =
    Ok (s, source_at (pre ++ s ++ [0]) rest).
Proof.
  intros Hl Hs. unfold BinarySource_get_asciz. rewrite decide_True by done.
  cbn [src_data src_pos source_at]. rewrite read_rest_at by done. cbn [res_bind].
  assert (memchr ((s ++ [0]) ++ rest) 0 = Some (length s)) as ->
    by (rewrite <-app_assoc; by apply memchr_app).
  rewrite advance_at by (done || rewrite length_app; cbn; lia).
  by rewrite <-app_assoc, take_app_length.
Qed.

Lemma get_prefixed_at pre rest n len_of hdr d :
  Z.of_nat (length (pre ++ (hdr ++ d) ++ rest)) < SIZE_T ->
  n = Z.of_nat (length hdr) -> len_of hdr = Z.of_nat (length d) ->
  get_prefixed n len_of (source_at pre ((hdr ++ d) ++ rest)) =
    Ok (d, source_at (pre ++ hdr ++ d) rest).
Proof.
  intros Hl Hn Hd. unfold get_prefixed. rewrite <-!app_assoc in *.
  rewrite data_avail_at, consume_at by done. cbn [res_bind fst snd].
  rewrite app_assoc in Hl. rewrite data_avail_at, consume_at by done.
  by rewrite <-app_assoc.
Qed.

(** The kinds of values of the SSH wire format, and the functions that write
    and read each. *)
Inductive field :=
| F_byte (v : Z)
| F_bool (v : bool)
| F_uint16 (v : Z)
| F_uint32 (v : Z)
| F_uint64 (v : Z)
| F_data (d : list Z)
| F_string (d : list Z)
| F_pstring (d : list Z)
| F_asciz (d : list Z).

Definition put_field {S} `{BinarySink S} (bs : S) (f : field) : res S :=
  match f with
  | F_byte v => BinarySink_put_byte bs v
  | F_bool v => BinarySink_put_bool bs v
  | F_uint16 v => BinarySink_put_uint16 bs v
  | F_uint32 v => BinarySink_put_uint32 bs v
  | F_uint64 v => BinarySink_put_uint64 bs v
  | F_data d => BinarySink_put_data bs d
  | F_string d => BinarySink_put_string bs d
  | F_pstring d => let! r := BinarySink_put_pstring bs (d ++ [0]) in Ok r.2
  | F_asciz d => BinarySink_put_asciz bs (d ++ [0])
  end.

Fixpoint put_fields {S} `{BinarySink S} (bs : S) (fs : list field) : res S :=
  match fs with
  | [] => Ok bs
  | f :: fs => let! bs := put_field bs f in put_fields bs fs
  end.

(** Read a value of the same kind as [f] (of the same length, for raw data). *)
Definition get_field (f : field) (src : BinarySource) : res (field * BinarySource) :=
  match f with
  | F_byte _ => let! r := BinarySource_get_byte src in Ok (F_byte r.1, r.2)
  | F_bool _ => let! r := BinarySource_get_bool src in Ok (F_bool r.1, r.2)
  | F_uint16 _ => let! r := BinarySource_get_uint16 src in Ok (F_uint16 r.1, r.2)
  | F_uint32 _ => let! r := BinarySource_get_uint32 src in Ok (F_uint32 r.1, r.2)
  | F_uint64 _ => let! r := BinarySource_get_uint64 src in Ok (F_uint64 r.1, r.2)
  | F_data d => let! r := BinarySource_get_data src (Z.of_nat (length d)) in Ok (F_data r.1, r.2)
  | F_string _ => let! r := BinarySource_get_string src in Ok (F_string r.1, r.2)
  | F_pstring _ => let! r := BinarySource_get_pstring src in Ok (F_pstring r.1, r.2)
  | F_asciz _ => let! r := BinarySource_get_asciz src in Ok (F_asciz r.1, r.2)
  end.

Fixpoint get_fields (fs : list field) (src : BinarySource) : res (list field * BinarySource) :=
  match fs with
  | [] => Ok ([], src)
  | f :: fs =>
      let! r := get_field f src in
      let! r' := get_fields fs r.2 in
      Ok (r.1 :: r'.1, r'.2)
  end.

(** The values that fit the wire format. *)
Definition field_ok (f : field) : Prop :=
  match f with
  | F_byte v => 0 <= v < 2 ^ 8
  | F_bool _ => True
  | F_uint16 v => 0 <= v < 2 ^ 16
  | F_uint32 v => 0 <= v < 2 ^ 32
  | F_uint64 v => 0 <= v < 2 ^ 64
  | F_data d => True
  | F_string d => Z.of_nat (length d) < 2 ^ 32
  | F_pstring d => Z.of_nat (length d) <= 255 /\ 0 ∉ d
  | F_asciz d => 0 ∉ d
  end.

Definition encode_field (f : field) : list Z :=
  match f with
  | F_byte v => [v]
  | F_bool v => [if v then 1 else 0]
  | F_uint16 v => PUT_16BIT_MSB_FIRST v
  | F_uint32 v => PUT_32BIT_MSB_FIRST v
  | F_uint64 v => PUT_64BIT_MSB_FIRST v
  | F_data d => d
  | F_string d => PUT_32BIT_MSB_FIRST (Z.of_nat (length d)) ++ d
  | F_pstring d => [Z.of_nat (length d)] ++ d
  | F_asciz d => d ++ [0]
  end.

Definition encode_fields (fs : list field) : list Z := concat (map encode_field fs).

Lemma put_field_appends {S} `{LawfulSink S} f :
  field_ok f -> appends (fun s : S => put_field s f) (encode_field f).
Proof.
  destruct f as [v|v|v|v|v|d|d|d|d]; cbn [field_ok put_field encode_field]; intros Hok;
    try apply appends_write.
  - rewrite <-(u8_small v) at 1 by lia. apply appends_byte.
  - by apply put_string_appends.
  - destruct Hok as [Hl Hz].
    apply appends_ext with (fun s => let! s := BinarySink_put_byte s (Z.of_nat (length d)) in
                                     bs_write s d).
    + intros s. unfold BinarySink_put_pstring. rewrite strlen_app by done. cbn [res_bind].
      rewrite (proj2 (Z.ltb_ge _ _)) by lia. rewrite take_app_length.
      destruct (BinarySink_put_byte s _) as [s1|]; [|done]. cbn [res_bind].
      by destruct (bs_write s1 d).
    + apply appends_seq; [|apply appends_write].
      rewrite <-(u8_small (Z.of_nat (length d))) at 1 by lia. apply appends_byte.
  - eapply appends_ext; [|apply appends_write]. intros s. unfold BinarySink_put_asciz.
    rewrite strlen_app by done. cbn [res_bind]. f_equal. apply take_ge.
    rewrite length_app. cbn. lia.
Qed.

Lemma get_field_at pre rest f :
  Z.of_nat (length (pre ++ encode_field f ++ rest)) < SIZE_T -> field_ok f ->
  get_field f (source_at pre (encode_field f ++ rest)) =
    Ok (f, source_at (pre ++ encode_field f) rest).
Proof.
  intros Hl Hok. destruct f as [v|v|v|v|v|d|d|d|d]; cbn [field_ok get_field encode_field] in *.
  - unfold BinarySource_get_byte. by rewrite get_fixed_at.
  - unfold BinarySource_get_bool. rewrite get_fixed_at by done. by destruct v.
  - unfold BinarySource_get_uint16. rewrite get_fixed_at by done.
    rewrite get_put_16. by rewrite Z.mod_small.
  - unfold BinarySource_get_uint32. rewrite get_fixed_at by done.
    rewrite get_put_32. by rewrite Z.mod_small.
  - unfold BinarySource_get_uint64. rewrite get_fixed_at by done.
    rewrite get_put_64. by rewrite Z.mod_small.
  - by rewrite get_data_at.
  - change BinarySource_get_string with (get_prefixed 4 GET_32BIT_MSB_FIRST).
    rewrite get_prefixed_at; [done|done|done|].
    rewrite get_put_32. apply Z.mod_small. lia.
  - change BinarySource_get_pstring with (get_prefixed 1 (fun p => nth 0 p 0)).
    by rewrite (get_prefixed_at pre rest 1 (fun p => nth 0 p 0) [Z.of_nat (length d)] d).
  - by rewrite get_asciz_at.
Qed.

Lemma put_fields_appends {S} `{LawfulSink S} fs :
  Forall field_ok fs -> appends (fun s : S => put_fields s fs) (encode_fields fs).
Proof.
  induction 1 as [|f fs Hf _ IH]; [apply appends_nil|].
  apply appends_seq; [by apply put_field_appends|done].
Qed.

Lemma get_fields_at fs pre rest :
  Z.of_nat (length (pre ++ encode_fields fs ++ rest)) < SIZE_T -> Forall field_ok fs ->
  get_fields fs (source_at pre (encode_fields fs ++ rest)) =
    Ok (fs, source_at (pre ++ encode_fields fs) rest).
Proof.
  intros Hl Hok. revert pre Hl. induction Hok as [|f fs Hf _ IH]; intros pre Hl.
  { cbn. by rewrite app_nil_r. }
  change (encode_fields (f :: fs)) with (encode_field f ++ encode_fields fs) in *.
  rewrite <-app_assoc in *. cbn [get_fields]. rewrite get_field_at by done.
  cbn [res_bind fst snd]. rewrite app_assoc in Hl. rewrite IH by done.
  cbn [res_bind fst snd]. by rewrite <-app_assoc.
Qed.
