(* ===== verification/Strbuf.v ===== *)
(** * Growing arrays and string buffers (putty utils/memory.c, utils/strbuf.c)

    Memory is a list of bytes, [None] for a byte that nobody has written yet.
    [safegrowarray] is the routine under all the program's growing arrays, a
    [strbuf] the growing string under most of its marshalling.  The allocator
    itself succeeds within the limits the wrappers check; past them the
    wrappers end the program ([OutOfMemory]). *)

From S2P Require Import Prelude Bufchain Marshal.
Local Open Scope cmodel_scope.
Local Open Scope Z_scope.

Notation memory := (list (option Z)).

Definition INT_MAX : Z := 2 ^ 31 - 1.

(** ** The allocation wrappers *)

Definition safemalloc (factor1 factor2 addend : Z) : res memory :=
  if (SIZE_T - 1) / factor2 <? factor1 then Crash OutOfMemory
  else
    let product := wrap_size (factor1 * factor2) in
    if SIZE_T - 1 <? addend then Crash OutOfMemory
    else if SIZE_T - 1 - addend <? product then Crash OutOfMemory
    else
      let size := wrap_size (product + addend) in
      let size := if size =? 0 then 1 else size in
      Ok (replicate (Z.to_nat size) (Some 0)).

Definition saferealloc (ptr : memory) (n size : Z) : res memory :=
  if INT_MAX / size <? n then Crash OutOfMemory
  else
    let size := Z.to_nat (wrap_size (size * n)) in
    Ok (take size ptr ++ replicate (size - length ptr) None).

(** [memcpy(dst + off, src, length src)] *)
Definition memcpy (dst : memory) (off : Z) (src : memory) : res memory :=
  if (0 <=? off) && (off + Z.of_nat (length src) <=? Z.of_nat (length dst))
  then Ok (take (Z.to_nat off) dst ++ src ++ drop (Z.to_nat off + length src) dst)
  else Crash UndefinedBehaviour.

Definition safegrowarray (ptr : memory) (allocated eltsize oldlen extralen : Z) (secret : bool)
  : res (memory * Z) :=
  c_assert (0 <? eltsize) (
    let maxsize := (SIZE_T - 1) / eltsize in
    let oldsize := allocated in
    c_assert (oldsize <=? maxsize) (
    c_assert (oldlen <=? maxsize) (
    c_assert (extralen <=? maxsize - oldlen) (
      if oldlen + extralen <? oldsize then Ok (ptr, allocated)
      else
        let increment := oldlen + extralen - oldsize in
        let increment := if increment <? 256 / eltsize then 256 / eltsize else increment in
        let increment := if increment <? oldsize / 16 then oldsize / 16 else increment in
        let maxincr := maxsize - oldsize in
        let increment := if maxincr <? increment then maxincr else increment in
        let newsize := oldsize + increment in
        let! toret :=
          if secret then
            let! toret := safemalloc newsize eltsize 0 in
            if oldsize =? 0 then Ok toret
            else if Z.of_nat (length ptr) <? oldsize * eltsize then Crash UndefinedBehaviour
            else memcpy toret 0 (take (Z.to_nat (oldsize * eltsize)) ptr)
          else saferealloc ptr newsize eltsize in
        Ok (toret, newsize))))).

(** ** String buffers *)

Record strbuf := Strbuf {
  sb_s : memory;
  sb_len : Z;
  sb_size : Z;
  sb_nm : bool
}.

Definition strbuf_new_general (nm : bool) : res strbuf :=
  let! s := safemalloc 512 1 0 in
  let! s := memcpy s 0 [Some 0] in
  Ok (Strbuf s 0 512 nm).

Definition strbuf_new : res strbuf := strbuf_new_general false.
Definition strbuf_new_nm : res strbuf := strbuf_new_general true.

(** The pointer returned is the offset of the appended space. *)
Definition strbuf_append (buf : strbuf) (len : Z) : res (Z * strbuf) :=
  let! g := safegrowarray (sb_s buf) (sb_size buf) 1 (wrap_size (sb_len buf + 1)) len (sb_nm buf) in
  let '(s, size) := g in
  let toret := sb_len buf in
  let newlen := wrap_size (sb_len buf + len) in
  let! s := memcpy s newlen [Some 0] in
  Ok (toret, Strbuf s newlen size (sb_nm buf)).

Definition strbuf_shrink_to (buf : strbuf) (new_len : Z) : res strbuf :=
  c_assert (new_len <=? sb_len buf) (
    let! s := memcpy (sb_s buf) new_len [Some 0] in
    Ok (Strbuf s new_len (sb_size buf) (sb_nm buf))).

Definition strbuf_shrink_by (buf : strbuf) (amount_to_remove : Z) : res strbuf :=
  c_assert (amount_to_remove <=? sb_len buf) (
    let newlen := sb_len buf - amount_to_remove in
    let! s := memcpy (sb_s buf) newlen [Some 0] in
    Ok (Strbuf s newlen (sb_size buf) (sb_nm buf))).

Definition strbuf_chomp (buf : strbuf) (char_to_remove : Z) : res (bool * strbuf) :=
  if 0 <? sb_len buf then
    match sb_s buf !! Z.to_nat (sb_len buf - 1) with
    | Some (Some c) =>
        if c =? char_to_remove then
          let! buf := strbuf_shrink_by buf 1 in Ok (true, buf)
        else Ok (false, buf)
    | _ => Crash UndefinedBehaviour
    end
  else Ok (false, buf).

Definition strbuf_BinarySink_write (buf : strbuf) (data : list Z) : res strbuf :=
  let! r := strbuf_append buf (Z.of_nat (length data)) in
  let '(off, buf) := r in
  let! s := memcpy (sb_s buf) off (Some <$> data) in
  Ok (Strbuf s (sb_len buf) (sb_size buf) (sb_nm buf)).

#[export] Instance strbuf_sink : BinarySink strbuf := strbuf_BinarySink_write.

Definition strbuf_dup (string : list Z) : res strbuf :=
  let! buf := strbuf_new in BinarySink_put_datapl buf string.

Definition strbuf_dup_nm (string : list Z) : res strbuf :=
  let! buf := strbuf_new_nm in BinarySink_put_datapl buf string.

(** The bytes [buf->u[0 .. buf->len]]; undefined if one was never written. *)
Definition strbuf_contents (buf : strbuf) : res (list Z) :=
  if Z.of_nat (length (sb_s buf)) <? sb_len buf then Crash UndefinedBehaviour
  else match mapM id (take (Z.to_nat (sb_len buf)) (sb_s buf)) with
       | Some bytes => Ok bytes
       | None => Crash UndefinedBehaviour
       end.

(** Writes the contents as an SSH string; the buffer itself is freed. *)
Definition BinarySink_put_stringsb {S} `{BinarySink S} (bs : S) (buf : strbuf) : res S :=
  let! bytes := strbuf_contents buf in
  BinarySink_put_string bs bytes.

Definition strbuf_new_for_agent_query : res strbuf :=
  let! buf := strbuf_new in
  let! r := strbuf_append buf 4 in
  Ok r.2.

Definition strbuf_finalise_agent_query (buf : strbuf) : res strbuf :=
  c_assert (5 <=? sb_len buf) (
    let! s := memcpy (sb_s buf) 0 (Some <$> PUT_32BIT_MSB_FIRST (sb_len buf - 4)) in
    Ok (Strbuf s (sb_len buf) (sb_size buf) (sb_nm buf))).

Lemma rev_ind_or_nil {A} (l : list A) : l = [] \/ exists l' x, l = l' ++ [x].
Proof. induction l using rev_ind; eauto. Qed.

(** ** Growing *)

Lemma memcpy_ok (dst : memory) off (src : memory) :
  0 <= off -> off + Z.of_nat (length src) <= Z.of_nat (length dst) ->
  memcpy dst off src =
    Ok (take (Z.to_nat off) dst ++ src ++ drop (Z.to_nat off + length src) dst).
Proof. intros. unfold memcpy. by rewrite !(proj2 (Z.leb_le _ _)) by lia. Qed.

Lemma length_memcpy (dst : memory) off (src : memory) :
  0 <= off -> off + Z.of_nat (length src) <= Z.of_nat (length dst) ->
  length (take (Z.to_nat off) dst ++ src ++ drop (Z.to_nat off + length src) dst) = length dst.
Proof. intros. rewrite !length_app, length_take, length_drop. lia. Qed.

(** The new size [safegrowarray] chooses when it grows. *)
Definition grown_size (oldsize eltsize need : Z) : Z :=
  Z.min ((SIZE_T - 1) / eltsize)
    (oldsize + Z.max (Z.max (need - oldsize) (256 / eltsize)) (oldsize / 16)).

Section growing.
  Context (ptr : memory) (oldsize eltsize oldlen extralen : Z) (secret : bool).
  Hypothesis Helt : 0 < eltsize.
  Hypothesis Hsize : 0 <= oldsize.
  Hypothesis Hptr : Z.of_nat (length ptr) = oldsize * eltsize.
  Hypothesis Hneed : 0 <= oldlen /\ 0 <= extralen /\ 0 < oldlen + extralen.
  (** The new block stays below what [realloc] is asked for at most. *)
  Hypothesis Hmax : grown_size oldsize eltsize (oldlen + extralen) * eltsize <= INT_MAX.
  Hypothesis Hold : oldsize * eltsize <= INT_MAX.
  Hypothesis Hfit : (oldlen + extralen) * eltsize <= INT_MAX.

Lemma safemalloc_ok n : 0 < n -> n * eltsize <= INT_MAX ->
  safemalloc n eltsize 0 = Ok (replicate (Z.to_nat (n * eltsize)) (Some 0)).
Proof using Helt.
  clear -Helt. intros Hn Hm. unfold safemalloc, INT_MAX in *.
  assert (n <= (SIZE_T - 1) / eltsize) by (apply Z.div_le_lower_bound; unfold SIZE_T; lia).
  rewrite (proj2 (Z.ltb_ge _ _)) by lia.
  assert (0 < n * eltsize < SIZE_T) by (unfold SIZE_T; nia).
  rewrite (wrap_size_small (n * eltsize)) by lia. change (SIZE_T - 1 <? 0) with false.
  rewrite (proj2 (Z.ltb_ge _ _)) by lia. rewrite Z.add_0_r, wrap_size_small by lia.
  by rewrite (proj2 (Z.eqb_neq _ _)) by nia.
Qed.

Lemma saferealloc_ok n : 0 <= n -> n * eltsize <= INT_MAX ->
  saferealloc ptr n eltsize =
    Ok (take (Z.to_nat (n * eltsize)) ptr ++
        replicate (Z.to_nat (n * eltsize) - length ptr) None).
Proof using Helt ptr.
  clear -Helt. intros Hn Hm. unfold saferealloc.
  assert (n <= INT_MAX / eltsize) by (apply Z.div_le_lower_bound; lia).
  rewrite (proj2 (Z.ltb_ge _ _)) by lia. unfold INT_MAX in *.
  rewrite wrap_size_small by (unfold SIZE_T; nia). by rewrite (Z.mul_comm eltsize).
Qed.

Lemma div_step : (SIZE_T - 1) / eltsize >= INT_MAX / eltsize.
Proof using Helt. clear -Helt. apply Z.le_ge, Z.div_le_mono; [lia|]. by unfold SIZE_T, INT_MAX. Qed.

(** [safegrowarray] leaves the array large enough and keeps its contents. *)
Lemma safegrowarray_ok :
  exists mem size, safegrowarray ptr oldsize eltsize oldlen extralen secret = Ok (mem, size) /\
    Z.of_nat (length mem) = size * eltsize /\ oldlen + extralen <= size /\
    take (length ptr) mem = ptr /\
    (size = oldsize \/
     (oldsize <= oldlen + extralen /\ size = grown_size oldsize eltsize (oldlen + extralen))).
Proof using All.
  pose proof div_step as Hd.
  assert (oldsize <= INT_MAX / eltsize) by (apply Z.div_le_lower_bound; lia).
  assert (oldlen + extralen <= INT_MAX / eltsize) by (apply Z.div_le_lower_bound; lia).
  unfold safegrowarray. rewrite c_assert_true by (apply Z.ltb_lt; lia).
  rewrite !c_assert_true by (apply Z.leb_le; lia).
  destruct (Z.ltb_spec (oldlen + extralen) oldsize) as [Hlt|Hge].
  { exists ptr, oldsize. rewrite take_ge by lia. split_and!; (done || lia || auto). }
  set (incr := if _ <? (if _ <? _ then _ else _) then _ else _).
  assert (Hincr : oldsize + incr = grown_size oldsize eltsize (oldlen + extralen)).
  { unfold incr, grown_size.
    destruct (Z.ltb_spec (oldlen + extralen - oldsize) (256 / eltsize)) as [?|?];
    match goal with |- context [if ?a <? oldsize / 16 then _ else _] =>
      destruct (Z.ltb_spec a (oldsize / 16)) end;
    match goal with |- context [if ?a <? ?b then ?a else _] =>
      destruct (Z.ltb_spec a b) end; lia. }
  clearbody incr.
  assert (oldlen + extralen <= oldsize + incr) by (rewrite Hincr; unfold grown_size; lia).
  rewrite <-Hincr in Hmax.
  assert (Hmono : oldsize * eltsize <= (oldsize + incr) * eltsize) by nia.
  enough (exists mem, (if secret then
      let! toret := safemalloc (oldsize + incr) eltsize 0 in
      if oldsize =? 0 then Ok toret
      else if Z.of_nat (length ptr) <? oldsize * eltsize then Crash UndefinedBehaviour
      else memcpy toret 0 (take (Z.to_nat (oldsize * eltsize)) ptr)
    else saferealloc ptr (oldsize + incr) eltsize) = Ok mem /\
    Z.of_nat (length mem) = (oldsize + incr) * eltsize /\ take (length ptr) mem = ptr)
    as (mem & -> & Hl & Ht).
  { exists mem, (oldsize + incr). cbn [res_bind]. split_and!; (done || lia || auto). }
  destruct secret.
  - rewrite safemalloc_ok by lia. cbn [res_bind].
    destruct (Z.eqb_spec oldsize 0) as [Hz|Hnz].
    + assert (ptr = []) as -> by (apply length_zero_iff_nil; lia).
      eexists. split; [done|]. rewrite length_replicate. split; [lia|done].
    + rewrite (proj2 (Z.ltb_ge _ _)) by lia. rewrite take_ge by lia.
      rewrite memcpy_ok by (rewrite ?length_replicate; lia). eexists. split; [done|].
      rewrite length_memcpy by (rewrite ?length_replicate; lia).
      rewrite length_replicate. split; [lia|].
      change (Z.to_nat 0) with O. rewrite take_0. cbn [app]. by rewrite take_app_length.
  - rewrite saferealloc_ok by lia. eexists. split; [done|].
    rewrite take_ge by lia. rewrite length_app, length_replicate, take_app_length.
    split; [lia|done].
Qed.

End growing.

(** ** A string buffer is a sink *)

Definition strbuf_limit : Z := 2 ^ 30.

(** The buffer holds the bytes [c], with a terminator behind them. *)
Definition strbuf_holds (buf : strbuf) (c : list Z) : Prop :=
  sb_len buf = Z.of_nat (length c) /\
  sb_size buf = Z.of_nat (length (sb_s buf)) /\
  sb_size buf <= strbuf_limit + 2 ^ 27 /\
  exists tail, sb_s buf = (Some <$> c) ++ Some 0 :: tail.

Lemma small_growth size need :
  0 <= size <= 2 ^ 30 + 2 ^ 27 -> need <= 2 ^ 30 + 1 -> grown_size size 1 need * 1 <= INT_MAX.
Proof.
  intros Hs Hn. unfold grown_size, INT_MAX. rewrite !Z.div_1_r, Z.mul_1_r.
  pose proof (Z.div_le_upper_bound size 16 (2 ^ 27) ltac:(lia) ltac:(lia)). lia.
Qed.

Lemma growth_bound size need :
  0 <= size <= need -> need <= 2 ^ 30 + 1 -> grown_size size 1 need <= 2 ^ 30 + 2 ^ 27.
Proof.
  intros Hs Hn. unfold grown_size. rewrite !Z.div_1_r.
  pose proof (Z.div_le_upper_bound size 16 (2 ^ 26 + 1) ltac:(lia) ltac:(lia)). lia.
Qed.

Lemma strbuf_append_ok buf c n :
  strbuf_holds buf c -> 0 <= n -> Z.of_nat (length c) + n <= strbuf_limit ->
  exists mid tail size,
    let s := (Some <$> c) ++ mid ++ Some 0 :: tail in
    strbuf_append buf n =
      Ok (Z.of_nat (length c), Strbuf s (Z.of_nat (length c) + n) size (sb_nm buf)) /\
    Z.of_nat (length mid) = n /\ size = Z.of_nat (length s) /\ size <= strbuf_limit + 2 ^ 27.
Proof.
  intros (Hlen & Hsize & Hb & tail & Hs) Hn Hl. unfold strbuf_limit in *.
  unfold strbuf_append. rewrite Hlen, !wrap_size_small by (unfold SIZE_T; lia).
  destruct (safegrowarray_ok (sb_s buf) (sb_size buf) 1 (Z.of_nat (length c) + 1) n (sb_nm buf))
    as (mem & size & -> & Hm & Hneed & Ht & Hsz);
    [lia|lia|lia|lia|apply small_growth; lia|unfold INT_MAX; lia..|].
  rewrite Z.mul_1_r in Hm. cbn [res_bind].
  rewrite memcpy_ok by (cbn [length]; lia). cbn [res_bind length].
  assert (Hmem : mem = (Some <$> c) ++ drop (length c) mem).
  { rewrite <-(take_drop (length c) mem) at 1. f_equal.
    rewrite Hs, length_app, length_fmap in Ht.
    rewrite <-(take_app_length' (Some <$> c) (Some 0 :: tail) (length c)) by (by rewrite length_fmap).
    rewrite <-Ht, take_take. f_equal. cbn [length]. lia. }
  set (d := drop (length c) mem) in *.
  assert (Hd : (length d = length mem - length c)%nat) by apply length_drop. clearbody d.
  exists (take (Z.to_nat n) d), (drop (Z.to_nat n + 1) d), size.
  assert (E : take (Z.to_nat (Z.of_nat (length c) + n)) mem ++
              [Some 0] ++ drop (Z.to_nat (Z.of_nat (length c) + n) + 1) mem =
              (Some <$> c) ++ take (Z.to_nat n) d ++ Some 0 :: drop (Z.to_nat n + 1) d).
  { rewrite Hmem. rewrite take_app_ge, drop_app_ge by (rewrite length_fmap; lia).
    rewrite length_fmap, <-app_assoc. cbn [app]. do 2 f_equal; [f_equal; lia|].
    do 2 f_equal. lia. }
  rewrite <-E. split; [done|]. rewrite length_take.
  split; [lia|]. split.
  - rewrite !length_app, length_take, length_drop. cbn [length]. lia.
  - destruct Hsz as [->|[Hle ->]]; [lia|]. apply growth_bound; lia.
Qed.

Lemma strbuf_write_ok buf c d :
  strbuf_holds buf c -> Z.of_nat (length (c ++ d)) <= strbuf_limit ->
  exists buf', strbuf_BinarySink_write buf d = Ok buf' /\ strbuf_holds buf' (c ++ d).
Proof.
  intros Hc Hl. rewrite length_app in Hl. unfold strbuf_BinarySink_write.
  destruct (strbuf_append_ok buf c (Z.of_nat (length d)) Hc)
    as (mid & tail & size & -> & Hm & Hs & Hb); [lia|lia|].
  cbn [res_bind sb_s sb_len sb_size sb_nm].
  rewrite memcpy_ok by (rewrite ?length_app, ?length_fmap; lia).
  cbn [res_bind]. eexists. split; [done|].
  rewrite Nat2Z.id, length_fmap.
  rewrite take_app_length' by (by rewrite length_fmap).
  rewrite drop_app_ge by (rewrite length_fmap; lia).
  rewrite length_fmap, drop_app_length' by lia.
  split; [cbn; rewrite length_app; lia|].
  split; [cbn [sb_size sb_s]; rewrite Hs, !length_app, !length_fmap; cbn [length]; lia|].
  split; [done|]. exists tail. cbn [sb_s]. by rewrite fmap_app, <-app_assoc.
Qed.

#[export] Instance strbuf_lawful : LawfulSink strbuf := {|
  sink_limit := strbuf_limit;
  sink_holds := strbuf_holds;
  sink_write := strbuf_write_ok
|}.

Lemma strbuf_new_holds nm : exists buf, strbuf_new_general nm = Ok buf /\ strbuf_holds buf [].
Proof.
  unfold strbuf_new_general. eexists. split; [vm_compute; reflexivity|].
  unfold strbuf_holds, strbuf_limit. cbn [sb_len sb_size sb_s length fmap list_fmap app].
  split_and!; [done|done|lia|]. eexists. vm_compute. reflexivity.
Qed.

Lemma strbuf_contents_holds buf c : strbuf_holds buf c -> strbuf_contents buf = Ok c.
Proof.
  intros (Hl & Hs & _ & tail & E). unfold strbuf_contents. rewrite E, Hl.
  rewrite length_app, length_fmap. cbn [length]. rewrite (proj2 (Z.ltb_ge _ _)) by lia.
  rewrite Nat2Z.id, take_app_length' by (by rewrite length_fmap).
  clear. assert (mapM id (Some <$> c) = Some c) as ->; [|done].
  induction c as [|x c IH]; [done|]. cbn. by rewrite IH.
Qed.

Lemma strbuf_shrink_to_ok buf c n :
  strbuf_holds buf c -> 0 <= n <= Z.of_nat (length c) ->
  exists buf', strbuf_shrink_to buf n = Ok buf' /\ strbuf_holds buf' (take (Z.to_nat n) c).
Proof.
  intros (Hl & Hs & Hb & tail & E) Hn. unfold strbuf_shrink_to.
  rewrite c_assert_true by (apply Z.leb_le; lia).
  rewrite memcpy_ok by (rewrite ?E, ?length_app, ?length_fmap; cbn [length]; lia).
  cbn [res_bind]. eexists. split; [done|].
  assert (length (take (Z.to_nat n) c) = Z.to_nat n) as Hlt by (rewrite length_take; lia).
  split; [cbn; rewrite Hlt; lia|]. split.
  { cbn [sb_size sb_s]. rewrite length_memcpy; [done|lia|].
    rewrite E, length_app, length_fmap. cbn [length]. lia. }
  split; [done|]. eexists. cbn [sb_s]. rewrite E.
  rewrite take_app_le by (rewrite length_fmap; lia). by rewrite fmap_take.
Qed.

Lemma strbuf_shrink_by_to buf n :
  0 <= n <= sb_len buf -> strbuf_shrink_by buf n = strbuf_shrink_to buf (sb_len buf - n).
Proof.
  intros Hn. unfold strbuf_shrink_by, strbuf_shrink_to.
  by rewrite !c_assert_true by (apply Z.leb_le; lia).
Qed.

Lemma strbuf_chomp_ok buf c ch :
  strbuf_holds buf c ->
  exists b buf', strbuf_chomp buf ch = Ok (b, buf') /\ strbuf_holds buf' (chomp_byte ch c) /\
    b = bool_decide (last c = Some ch).
Proof.
  intros Hc. pose proof Hc as (Hl & Hs & Hb & tail & E). unfold strbuf_chomp, chomp_byte.
  destruct (rev_ind_or_nil c) as [->|(c' & x & ->)].
  { exists false, buf. by rewrite Hl. }
  rewrite last_snoc. rewrite length_app in Hl. cbn [length] in Hl.
  rewrite (proj2 (Z.ltb_lt _ _)) by lia.
  rewrite E, Hl, fmap_app. rewrite <-app_assoc.
  rewrite lookup_app_r by (rewrite length_fmap; lia).
  replace (Z.to_nat _ - _)%nat with O by (rewrite length_fmap; lia). cbn [fmap list_fmap app lookup list_lookup].
  destruct (Z.eqb_spec x ch) as [->|Hne].
  - rewrite decide_True, bool_decide_true by done.
    rewrite strbuf_shrink_by_to by lia.
    destruct (strbuf_shrink_to_ok buf (c' ++ [ch]) (sb_len buf - 1) Hc) as (buf' & -> & Hh).
    { rewrite length_app. cbn [length]. lia. }
    exists true, buf'. split; [done|]. split; [|done].
    replace (length (c' ++ [ch]) - 1)%nat with (Z.to_nat (sb_len buf - 1)); [done|].
    rewrite length_app. cbn [length]. lia.
  - rewrite decide_False, bool_decide_false by congruence. by exists false, buf.
Qed.
