(* ===== verification/MarshalMp.v ===== *)
(** * Multiprecision integers on the wire (putty crypto/mpint.c)

    The SSH-1 and SSH-2 encodings of a multiprecision integer, written to any
    sink and read from a source.  SSH-1 has a bit count of 16 bits, SSH-2 a
    length in bytes and a leading byte that keeps the sign bit clear. *)

From S2P Require Import Prelude MpintCore MpintShift MpintConv MpintDiv Bufchain Marshal.
Local Open Scope cmodel_scope.
Local Open Scope Z_scope.

(** [lia] may use the equations of division by a constant. *)
#[local] Ltac Zify.zify_post_hook ::= Z.div_mod_to_equations.

(** [for (i = bytes; i-- > 0 ;) put_byte(bs, mp_get_byte(x, i));] *)
Fixpoint put_mp_bytes {S} `{BinarySink S} (bs : S) (x : mp_int) (i : nat) : res S :=
  match i with
  | O => Ok bs
  | Datatypes.S i =>
      let! bs := BinarySink_put_byte bs (mp_get_byte x i) in
      put_mp_bytes bs x i
  end.

Definition BinarySink_put_mp_ssh1 {S} `{BinarySink S} (bs : S) (x : mp_int) : res S :=
  let bits := mp_get_nbits x in
  let bytes := wrap_size (bits + 7) / 8 in
  c_assert (bits <? 65536) (
    let! bs := BinarySink_put_uint16 bs bits in
    put_mp_bytes bs x (Z.to_nat bytes)).

Definition BinarySink_put_mp_ssh2 {S} `{BinarySink S} (bs : S) (x : mp_int) : res S :=
  let bytes := wrap_size (mp_get_nbits x + 8) / 8 in
  let! bs := BinarySink_put_uint32 bs bytes in
  put_mp_bytes bs x (Z.to_nat bytes).

Definition BinarySource_get_mp_ssh1 (src : BinarySource) : res (mp_int * BinarySource) :=
  let! r := BinarySource_get_uint16 src in
  let '(bitc, src) := r in
  let! r := BinarySource_get_data src ((bitc + 7) / 8) in
  let '(bytes, src) := r in
  if decide (src_err src = BSE_NO_ERROR) then
    let! toret := mp_from_bytes_be bytes in
    if bitc <? mp_get_nbits toret then Ok (mp_from_integer 0, set_err src BSE_INVALID)
    else Ok (toret, src)
  else Ok (mp_from_integer 0, src).

(** The encodings [get_mp_ssh2] refuses: negative, or with a superfluous
    leading zero byte. *)
Definition ssh2_invalid (bytes : list Z) : bool :=
  (0 <? Z.of_nat (length bytes)) &&
  (negb (Z.land (nth 0 bytes 0) 128 =? 0) ||
   (nth 0 bytes 0 =? 0) &&
   ((Z.of_nat (length bytes) <=? 1) || (Z.land (nth 1 bytes 0) 128 =? 0))).

Definition BinarySource_get_mp_ssh2 (src : BinarySource) : res (mp_int * BinarySource) :=
  let! r := BinarySource_get_string src in
  let '(bytes, src) := r in
  if decide (src_err src = BSE_NO_ERROR) then
    if ssh2_invalid bytes then Ok (mp_from_integer 0, set_err src BSE_INVALID)
    else let! toret := mp_from_bytes_be bytes in Ok (toret, src)
  else Ok (mp_from_integer 0, src).

(** ** The bytes written *)

(** The [n] low bytes of [v], most significant first. *)
Definition be_bytes (v : Z) (n : nat) : list Z :=
  reverse (fill n (fun i => (v / 2 ^ Z.of_nat (8 * i)) mod 2 ^ Z.of_nat 8)).

Lemma length_be_bytes v n : length (be_bytes v n) = n.
Proof. unfold be_bytes. by rewrite length_reverse, length_fill. Qed.

Lemma be_bytes_S v n :
  be_bytes v (S n) = (v / 2 ^ Z.of_nat (8 * n)) mod 256 :: be_bytes v n.
Proof. unfold be_bytes. by rewrite fill_snoc, reverse_snoc. Qed.

Lemma be_bytes_ok v n : bytesOK (be_bytes v n).
Proof.
  induction n as [|n IH]; [by constructor|]. rewrite be_bytes_S.
  constructor; [|done]. unfold is_byte. apply Z.mod_pos_bound. lia.
Qed.

Lemma mp_from_be_bytes v n :
  0 <= v -> is_size n ->
  exists r, mp_from_bytes_be (be_bytes v n) = Ok r /\
    length r = (((n + 4 - 1) / 4) `max` 1)%nat /\ wordsOK r /\ val r = v mod 2 ^ Z.of_nat (8 * n).
Proof.
  intros Hv Hn. destruct (mp_from_bytes_be_spec (be_bytes v n)) as (r & E & Hl & Hr & Hval).
  - apply be_bytes_ok.
  - by rewrite length_be_bytes.
  - exists r. rewrite length_be_bytes in Hl. split_and!; [done..|].
    rewrite Hval. unfold be_bytes. rewrite reverse_involutive. by apply digits_val_fill.
Qed.

Lemma put_mp_bytes_appends {S} `{LawfulSink S} x n :
  wordsOK x -> appends (fun s : S => put_mp_bytes s x n) (be_bytes (val x) n).
Proof.
  intros Hx. induction n as [|n IH]; [apply appends_nil|].
  rewrite be_bytes_S. cbn [put_mp_bytes]. rewrite mp_get_byte_val by done.
  apply (appends_seq (fun s => BinarySink_put_byte s _) _ [_]); [|done].
  replace (8 * Z.of_nat n) with (Z.of_nat (8 * n)) by lia.
  rewrite <-(u8_small (_ mod 256)) at 1 by (apply Z.mod_pos_bound; lia). apply appends_byte.
Qed.

Lemma bitlen_bounds v : 0 < v -> 0 < bitlen v /\ 2 ^ (bitlen v - 1) <= v < 2 ^ bitlen v.
Proof.
  intros Hv. unfold bitlen. rewrite (proj2 (Z.eqb_neq v 0)) by lia.
  pose proof (Z.log2_spec v Hv). pose proof (Z.log2_nonneg v).
  replace (Z.log2 v + 1 - 1) with (Z.log2 v) by lia. rewrite Z.add_1_r. lia.
Qed.

Lemma bitlen_nonneg v : 0 <= bitlen v.
Proof. unfold bitlen. pose proof (Z.log2_nonneg v). destruct (v =? 0); lia. Qed.

Lemma bitlen_lt v : 0 <= v -> v < 2 ^ bitlen v.
Proof.
  intros Hv. destruct (decide (v = 0)) as [->|]; [done|]. apply bitlen_bounds. lia.
Qed.

Lemma bitlen_le v n : 0 <= v < 2 ^ n -> 0 <= n -> bitlen v <= n.
Proof.
  intros Hv Hn. unfold bitlen. destruct (Z.eqb_spec v 0); [done|].
  assert (Z.log2 v < n); [|lia]. apply Z.log2_lt_pow2; lia.
Qed.

Lemma mod_above_bitlen v n : 0 <= v -> bitlen v <= n -> v mod 2 ^ n = v.
Proof.
  intros Hv Hn. apply Z.mod_small. split; [done|].
  pose proof (bitlen_lt v Hv). pose proof (bitlen_nonneg v).
  pose proof (Z.pow_le_mono_r 2 (bitlen v) n). lia.
Qed.

(** ** SSH-1 *)

Definition ssh1_bytes (v : Z) : list Z :=
  PUT_16BIT_MSB_FIRST (bitlen v) ++ be_bytes v (Z.to_nat ((bitlen v + 7) / 8)).

(** Numbers of up to 2^32 bits. *)
Definition wire_size (x : mp_int) : Prop := Z.of_nat (length x) <= 2 ^ 27.

Lemma wire_bitlen x : wordsOK x -> wire_size x -> 0 <= bitlen (val x) <= 2 ^ 32.
Proof.
  intros Hx Hs. split; [apply bitlen_nonneg|].
  pose proof (val_bound x Hx) as Hv.
  etransitivity; [apply (bitlen_le (val x) (32 * Z.of_nat (length x))); [done|lia]|].
  unfold wire_size in Hs. lia.
Qed.

Lemma put_mp_ssh1_appends {S} `{LawfulSink S} x :
  wordsOK x -> wire_size x -> bitlen (val x) < 65536 ->
  appends (fun s : S => BinarySink_put_mp_ssh1 s x) (ssh1_bytes (val x)).
Proof.
  intros Hx Hs Hb. unfold BinarySink_put_mp_ssh1.
  pose proof (wire_bitlen x Hx Hs). unfold wire_size in Hs.
  rewrite mp_get_nbits_spec by (done || lia).
  eapply appends_ext; [intros s; apply c_assert_true; apply Z.ltb_lt; lia|].
  rewrite wrap_size_small by (unfold SIZE_T; lia).
  apply appends_seq; [apply appends_write|by apply put_mp_bytes_appends].
Qed.

Lemma get_mp_ssh1_at pre rest v :
  0 <= v -> bitlen v < 65536 -> Z.of_nat (length (pre ++ ssh1_bytes v ++ rest)) < SIZE_T ->
  exists r, BinarySource_get_mp_ssh1 (source_at pre (ssh1_bytes v ++ rest)) =
      Ok (r, source_at (pre ++ ssh1_bytes v) rest) /\ wordsOK r /\ val r = v.
Proof.
  intros Hv Hb Hl. pose proof (bitlen_nonneg v). unfold ssh1_bytes in *.
  set (n := Z.to_nat ((bitlen v + 7) / 8)) in *.
  assert (Hn : bitlen v <= Z.of_nat (8 * n)).
  { unfold n. lia. }
  assert (Hnb : (bitlen v + 7) / 8 = Z.of_nat n) by (unfold n; lia).
  assert (Hn2 : Z.of_nat n <= 65536) by lia. clearbody n.
  unfold BinarySource_get_mp_ssh1, BinarySource_get_uint16. rewrite <-app_assoc in *.
  rewrite get_fixed_at by done. cbn [res_bind]. rewrite get_put_16, Z.mod_small by lia.
  rewrite app_assoc in Hl.
  rewrite get_data_at by (rewrite ?length_be_bytes; done). cbn [res_bind src_err source_at].
  rewrite decide_True by done.
  destruct (mp_from_be_bytes v n Hv) as (r & -> & Hlr & Hr & Hval); [unfold is_size; lia|].
  rewrite mod_above_bitlen in Hval by done. cbn [res_bind].
  pose proof (Nat.Div0.div_le_upper_bound (n + 4 - 1) 4 (n + 3) ltac:(lia)).
  rewrite mp_get_nbits_spec by (done || lia). rewrite Hval, Z.ltb_irrefl.
  exists r. by rewrite <-app_assoc.
Qed.

(** ** SSH-2 *)

Definition ssh2_body (v : Z) : list Z := be_bytes v (Z.to_nat ((bitlen v + 8) / 8)).

Definition ssh2_bytes (v : Z) : list Z :=
  PUT_32BIT_MSB_FIRST (Z.of_nat (length (ssh2_body v))) ++ ssh2_body v.

Lemma put_mp_ssh2_appends {S} `{LawfulSink S} x :
  wordsOK x -> wire_size x ->
  appends (fun s : S => BinarySink_put_mp_ssh2 s x) (ssh2_bytes (val x)).
Proof.
  intros Hx Hs. unfold BinarySink_put_mp_ssh2, ssh2_bytes, ssh2_body.
  pose proof (wire_bitlen x Hx Hs). unfold wire_size in Hs.
  rewrite mp_get_nbits_spec by (done || lia).
  rewrite wrap_size_small by (unfold SIZE_T; lia). rewrite length_be_bytes, Z2Nat.id by lia.
  apply appends_seq; [apply appends_write|by apply put_mp_bytes_appends].
Qed.

Lemma land_128 b : is_byte b -> (Z.land b 128 =? 0) = (b <? 128).
Proof.
  intros Hb. pose proof (byte_forall (fun b => eqb (Z.land b 128 =? 0) (b <? 128))) as H.
  apply eqb_prop, (H eq_refl b Hb).
Qed.

(** The bytes [put_mp_ssh2] writes for a positive number are accepted. *)
Lemma ssh2_body_valid v : 0 < v -> ssh2_invalid (ssh2_body v) = false.
Proof.
  intros Hv. destruct (bitlen_bounds v Hv) as (Hbpos & Hlo & Hhi). unfold ssh2_body.
  set (b := bitlen v) in *. clearbody b.
  destruct (Z.to_nat ((b + 8) / 8)) as [|n] eqn:En; [lia|].
  assert (Hb : 8 * Z.of_nat n <= b < 8 * Z.of_nat n + 8) by lia. clear En.
  assert (Hbyte : 0 <= v / 2 ^ Z.of_nat (8 * n) < 128).
  { split; [apply Z.div_pos; lia|]. apply Z.div_lt_upper_bound; [lia|].
    change 128 with (2 ^ 7). rewrite <-Z.pow_add_r by lia.
    eapply Z.lt_le_trans; [done|]. apply Z.pow_le_mono_r; lia. }
  pose proof (be_bytes_ok v (S n)) as Hok. rewrite be_bytes_S in *.
  unfold ssh2_invalid. cbn [nth].
  rewrite Z.mod_small in * by lia. rewrite land_128 by (unfold is_byte; lia).
  rewrite (proj2 (Z.ltb_lt _ 128)) by lia. cbn [negb orb].
  destruct (Z.eqb_spec (v / 2 ^ Z.of_nat (8 * n)) 0) as [Hz|Hz]; [|by rewrite andb_false_r].
  assert (Hv2 : v < 2 ^ Z.of_nat (8 * n)) by (apply Z.div_small_iff in Hz; lia).
  assert (Hb8 : b = 8 * Z.of_nat n).
  { destruct (decide (b - 1 < 8 * Z.of_nat n)); [lia|].
    pose proof (Z.pow_le_mono_r 2 (Z.of_nat (8 * n)) (b - 1) ltac:(lia) ltac:(lia)). lia. }
  destruct n as [|n]; [lia|]. rewrite be_bytes_S in *. cbn [length nth].
  rewrite (proj2 (Z.leb_gt _ _)) by lia.
  apply Forall_cons in Hok as [_ [Hb1 _]%Forall_cons]. rewrite land_128 by done.
  assert (H128 : 128 <= v / 2 ^ Z.of_nat (8 * n) < 256).
  { split.
    - apply Z.div_le_lower_bound; [lia|]. change 128 with (2 ^ 7).
      rewrite <-Z.pow_add_r by lia. etransitivity; [|exact Hlo].
      apply Z.pow_le_mono_r; lia.
    - apply Z.div_lt_upper_bound; [lia|]. change 256 with (2 ^ 8).
      rewrite <-Z.pow_add_r by lia. eapply Z.lt_le_trans; [exact Hhi|].
      apply Z.pow_le_mono_r; lia. }
  rewrite Z.mod_small by lia. rewrite (proj2 (Z.ltb_ge _ 128)) by lia.
  by rewrite andb_false_r.
Qed.

Lemma get_mp_ssh2_at pre rest v :
  0 < v -> bitlen v <= 2 ^ 32 -> Z.of_nat (length (pre ++ ssh2_bytes v ++ rest)) < SIZE_T ->
  exists r, BinarySource_get_mp_ssh2 (source_at pre (ssh2_bytes v ++ rest)) =
      Ok (r, source_at (pre ++ ssh2_bytes v) rest) /\ wordsOK r /\ val r = v.
Proof.
  intros Hv Hb Hl. unfold BinarySource_get_mp_ssh2.
  assert (Hn : Z.of_nat (length (ssh2_body v)) < 2 ^ 32 /\
               bitlen v <= Z.of_nat (8 * length (ssh2_body v))).
  { unfold ssh2_body. rewrite length_be_bytes. pose proof (bitlen_nonneg v). lia. }
  change BinarySource_get_string with (get_prefixed 4 GET_32BIT_MSB_FIRST).
  unfold ssh2_bytes in *. rewrite get_prefixed_at; [|done|done|].
  2:{ rewrite get_put_32. apply Z.mod_small. lia. }
  cbn [res_bind src_err source_at]. rewrite decide_True by done. rewrite ssh2_body_valid by done.
  unfold ssh2_body in *. rewrite length_be_bytes in Hn.
  destruct (mp_from_be_bytes v (Z.to_nat ((bitlen v + 8) / 8)))
    as (r & -> & _ & Hr & Hval); [lia|unfold is_size; lia|].
  rewrite mod_above_bitlen in Hval by lia. exists r. done.
Qed.
