(* ===== verification/MarshalSpec.v ===== *)
(** * The sinks of marshal.c, and the theorems on marshalling

    Two of the sinks of marshal.c, one in front of a buffer chain and one in
    front of a buffer of fixed size, with the proof that they keep the promise
    of [LawfulSink]; then the round trips of the wire format over any lawful
    sink, and the safety of reading arbitrary data. *)

From stdpp Require Import gmap.
From S2P Require Import Prelude Callback MpintCore MpintShift MpintConv MpintDiv Bufchain Marshal Strbuf MarshalMp.
Local Open Scope cmodel_scope.
Local Open Scope Z_scope.

(** ** A sink in front of a buffer chain *)

Record bufchain_sink (U : Type) := BufchainSink {
  bcs_ch : bufchain U;
  bcs_world : world U
}.
Arguments BufchainSink {U} _ _.
Arguments bcs_ch {U} _.
Arguments bcs_world {U} _.

Definition bufchain_sink_write {U} (sink : bufchain_sink U) (data : list Z)
  : res (bufchain_sink U) :=
  let! r := bufchain_add (bcs_ch sink) data (bcs_world sink) in
  Ok (BufchainSink r.1 r.2).

#[export] Instance bufchain_sink_sink {U} : BinarySink (bufchain_sink U) := bufchain_sink_write.

(** The callback of the chain, if it has one, can be scheduled. *)
Definition wakeable {U} (ch : bufchain U) (w : world U) : Prop :=
  bc_ic ch = None \/ exists p s, wired ch w p s.

Definition bufchain_sink_holds {U} (sink : bufchain_sink U) (c : list Z) : Prop :=
  chain_holds (bcs_ch sink) c /\ queued_once (bcs_world sink) /\
  wakeable (bcs_ch sink) (bcs_world sink).

Lemma queue_idempotent_keeps_set {U} (w w' : world U) p ic :
  w_ics w !! p = Some ic -> queue_idempotent_callback p w = Ok w' ->
  exists ic', w_ics w' !! p = Some ic' /\ ic_set ic' = ic_set ic.
Proof.
  intros Hic. unfold queue_idempotent_callback, queue_toplevel_callback, deref. rewrite Hic.
  cbn [res_bind]. destruct (ic_queued ic); [intros [= <-]; eauto|].
  destruct (ic_set ic) as [s|] eqn:Es; [|done]. cbn.
  destruct (w_sets w !! s); [|done]. cbn. intros [= <-]. cbn.
  rewrite lookup_insert_eq. eauto.
Qed.

Lemma bufchain_sink_write_ok {U} (sink : bufchain_sink U) c d :
  bufchain_sink_holds sink c -> Z.of_nat (length (c ++ d)) <= 2 ^ 63 ->
  exists sink', bufchain_sink_write sink d = Ok sink' /\ bufchain_sink_holds sink' (c ++ d).
Proof.
  intros (Hc & Hq & Hw) _. destruct sink as [ch w]. cbn [bcs_ch bcs_world] in *.
  unfold bufchain_sink_write. cbn [bcs_ch bcs_world].
  destruct (chain_add ch c d w Hc) as (gs & bs & -> & Hh).
  unfold bufchain_sink_holds. destruct Hw as [Hn|(p & s & Hp & Hf & Hs & ic & Hic & Hset)].
  - rewrite Hn in *. eexists. split; [done|]. cbn. split; [done|]. split; [done|]. by left.
  - rewrite Hp in *. destruct (decide (d = [])).
    + eexists. split; [done|]. cbn. split; [done|]. split; [done|].
      right. exists p, s. split_and!; eauto.
    + destruct (queue_idempotent_queues w p s ic Hq Hs Hic Hset)
        as (w' & cs' & Hqi & Hq' & Hs' & _).
      destruct (queue_idempotent_keeps_set w w' p ic Hic Hqi) as (ic' & Hic' & Es).
      rewrite Hf, Hqi in *. eexists. split; [done|]. cbn. split; [done|]. split; [done|].
      right. exists p, s. split_and!; [done..|by eexists|]. exists ic'. by rewrite Es.
Qed.

#[export] Instance bufchain_sink_lawful {U} : LawfulSink (bufchain_sink U) := {|
  sink_limit := 2 ^ 63;
  sink_holds := bufchain_sink_holds;
  sink_write := bufchain_sink_write_ok
|}.

(** ** A sink in front of a fixed buffer *)

(** [out] is the offset of the pointer in the buffer. *)
Record buffer_sink := BufferSink {
  bfs_buffer : memory;
  bfs_out : Z;
  bfs_space : Z;
  bfs_overflowed : bool
}.

Definition buffer_sink_init (buffer : memory) : buffer_sink :=
  BufferSink buffer 0 (Z.of_nat (length buffer)) false.

Definition buffer_sink_write (sink : buffer_sink) (data : list Z) : res buffer_sink :=
  let len := Z.of_nat (length data) in
  let '(len, overflowed) :=
    if bfs_space sink <? len then (bfs_space sink, true) else (len, bfs_overflowed sink) in
  let! buffer := memcpy (bfs_buffer sink) (bfs_out sink) (Some <$> take (Z.to_nat len) data) in
  Ok (BufferSink buffer (bfs_out sink + len) (bfs_space sink - len) overflowed).

#[export] Instance buffer_sink_sink : BinarySink buffer_sink := buffer_sink_write.

(** Of the bytes [c] written, the buffer holds as many as fit. *)
Definition buffer_sink_holds (sink : buffer_sink) (c : list Z) : Prop :=
  let cap := length (bfs_buffer sink) in
  bfs_out sink = Z.of_nat (length c `min` cap) /\
  bfs_space sink = Z.of_nat cap - bfs_out sink /\
  take (length c) (bfs_buffer sink) = Some <$> take cap c /\
  bfs_overflowed sink = (cap <? length c)%nat.

Lemma buffer_sink_write_ok sink c d :
  buffer_sink_holds sink c -> Z.of_nat (length (c ++ d)) <= 2 ^ 63 ->
  exists sink', buffer_sink_write sink d = Ok sink' /\ buffer_sink_holds sink' (c ++ d).
Proof.
  intros (Ho & Hs & Hd & Hv) _. destruct sink as [mem out space ov].
  cbn [bfs_buffer bfs_out bfs_space bfs_overflowed] in *. unfold buffer_sink_write.
  cbn [bfs_buffer bfs_out bfs_space bfs_overflowed].
  set (len := Z.min (Z.of_nat (length d)) space).
  assert (Hlen : (if space <? Z.of_nat (length d) then (space, true)
                  else (Z.of_nat (length d), ov)) = (len, ov || (space <? Z.of_nat (length d)))).
  { unfold len. destruct (Z.ltb_spec space (Z.of_nat (length d))).
    - rewrite orb_true_r. f_equal. lia.
    - rewrite orb_false_r. f_equal. lia. }
  rewrite Hlen. assert (El : len = Z.min (Z.of_nat (length d)) space) by done.
  clearbody len. clear Hlen. assert (Hl : 0 <= len /\ out + len <= Z.of_nat (length mem)) by lia.
  rewrite memcpy_ok by (rewrite ?length_fmap, ?length_take; lia). cbn [res_bind].
  eexists. split; [done|]. unfold buffer_sink_holds.
  cbn [bfs_buffer bfs_out bfs_space bfs_overflowed].
  rewrite length_memcpy by (rewrite ?length_fmap, ?length_take; lia).
  rewrite length_app. split; [lia|]. split; [lia|]. split.
  - rewrite length_fmap, length_take. rewrite Ho, Nat2Z.id.
    destruct (decide (length c <= length mem)%nat) as [Hc|Hc].
    + rewrite (Nat.min_l (length c)) by lia. rewrite (take_ge c) in Hd by lia.
      rewrite Hd, take_app_ge by (rewrite length_fmap; lia). rewrite length_fmap.
      rewrite (take_app_ge c) by lia. rewrite fmap_app. f_equal.
      replace (length c + length d - length c)%nat with (length d) by lia.
      destruct (decide (length d <= length mem - length c)%nat) as [Hf|Hf].
      * rewrite !(take_ge d) by lia. by rewrite take_app_length' by (by rewrite length_fmap).
      * rewrite take_ge; [rewrite drop_ge by lia; rewrite app_nil_r; do 2 f_equal; lia|].
        rewrite length_app, length_fmap, length_take, length_drop. lia.
    + rewrite (Nat.min_r (length c)) by lia. rewrite firstn_all.
      assert (len = 0) as Hl0 by lia. rewrite Hl0. cbn [Z.to_nat take fmap list_fmap app length].
      rewrite Nat.min_0_l, Nat.add_0_r, drop_all, app_nil_r.
      rewrite (take_app_le c), (take_ge mem) by lia. rewrite take_ge in Hd by lia. exact Hd.
  - rewrite Hv. destruct (Z.ltb_spec space (Z.of_nat (length d))) as [Hf|Hf];
      rewrite ?orb_true_r, ?orb_false_r; symmetry.
    + apply Nat.ltb_lt. lia.
    + destruct (Nat.ltb_spec (length mem) (length c)); [apply Nat.ltb_lt|apply Nat.ltb_ge]; lia.
Qed.

#[export] Instance buffer_sink_lawful : LawfulSink buffer_sink := {|
  sink_limit := 2 ^ 63;
  sink_holds := buffer_sink_holds;
  sink_write := buffer_sink_write_ok
|}.

Lemma buffer_sink_init_holds buffer : buffer_sink_holds (buffer_sink_init buffer) [].
Proof.
  unfold buffer_sink_holds, buffer_sink_init. cbn. rewrite take_nil. split_and!; (done || lia).
Qed.

(** ** Reading multiprecision integers is safe *)

Lemma read_at_bytes data pos n bytes :
  read_at data pos n = Ok bytes -> bytesOK data ->
  bytesOK bytes /\ (length bytes <= length data)%nat.
Proof.
  unfold read_at. destruct (_ && _); [|done]. intros [= <-] Hb. split.
  - by apply Forall_take, Forall_drop.
  - rewrite length_take, length_drop. lia.
Qed.

Lemma get_data_bytes src n bytes src' :
  BinarySource_get_data src n = Ok (bytes, src') -> bytesOK (src_data src) ->
  bytesOK bytes /\ (length bytes <= length (src_data src))%nat.
Proof.
  unfold BinarySource_get_data, BinarySource_data_avail, consume. intros H Hb.
  destruct (decide _); [destruct (_ <=? _)|]; simplify_eq; try (split; [constructor|cbn; lia]).
  apply res_bind_Ok in H as (b & Hr & [= <- _]). by eapply read_at_bytes.
Qed.

Lemma get_prefixed_bytes k len_of src bytes src' :
  get_prefixed k len_of src = Ok (bytes, src') -> bytesOK (src_data src) ->
  bytesOK bytes /\ (length bytes <= length (src_data src))%nat.
Proof.
  unfold get_prefixed, BinarySource_data_avail at 1, consume at 1. intros H Hb.
  destruct (decide _); [destruct (_ <=? _)|]; simplify_eq; try (split; [constructor|cbn; lia]).
  apply res_bind_Ok in H as (r & (b & Hr & [= <-])%res_bind_Ok & H). cbn [fst snd] in H.
  change (BinarySource_get_data (advance src k) (len_of b) = Ok (bytes, src')) in H.
  by apply get_data_bytes in H.
Qed.

Lemma mp_from_source_bytes (data bytes : list Z) :
  Z.of_nat (length data) < 2 ^ 63 -> bytesOK bytes -> (length bytes <= length data)%nat ->
  exists r, mp_from_bytes_be bytes = Ok r.
Proof.
  intros Hd Hb Hl. destruct (mp_from_bytes_be_spec bytes Hb) as (r & E & _); [|eauto].
  unfold is_size. lia.
Qed.

Lemma get_mp_ssh2_safe src :
  src_wf src -> src_len src < 2 ^ 63 ->
  exists r src', BinarySource_get_mp_ssh2 src = Ok (r, src') /\ src_wf src' /\
    (src_err src' <> BSE_NO_ERROR -> r = mp_from_integer 0).
Proof.
  intros Hwf Hl. unfold BinarySource_get_mp_ssh2.
  destruct (get_string_safe src Hwf) as (bytes & src1 & Hg & Hwf1 & Hd1 & _).
  rewrite Hg. cbn [res_bind]. destruct (decide _) as [He|He]; [|by eexists _, _].
  destruct (ssh2_invalid bytes); [by eexists _, _|].
  destruct (get_prefixed_bytes 4 GET_32BIT_MSB_FIRST src bytes src1 Hg) as [Hb Hlen];
    [apply Hwf|].
  destruct (mp_from_source_bytes (src_data src) bytes Hl Hb Hlen) as [r ->].
  by exists r, src1.
Qed.

Lemma get_mp_ssh1_safe src :
  src_wf src -> src_len src < 2 ^ 63 ->
  exists r src', BinarySource_get_mp_ssh1 src = Ok (r, src') /\ src_wf src' /\
    (src_err src' <> BSE_NO_ERROR -> r = mp_from_integer 0).
Proof.
  intros Hwf Hl. unfold BinarySource_get_mp_ssh1.
  assert (Hpos : exists bitc src1, BinarySource_get_uint16 src = Ok (bitc, src1) /\
    src_wf src1 /\ src_data src1 = src_data src /\ 0 <= bitc).
  { destruct (get_fixed_safe 2 0 GET_16BIT_MSB_FIRST ltac:(lia) src Hwf)
      as (bitc & src1 & Hg & Hwf1 & Hd1 & _).
    exists bitc, src1. split_and!; try done.
    unfold get_fixed in Hg.
    destruct (data_avail_cases src 2 Hwf) as [(_ & Hle & E)|(src2 & E & _)]; rewrite E in Hg.
    - destruct (consume_wf src 2 Hwf ltac:(lia)) as (p & E2 & _ & Hp). rewrite E2 in Hg.
      cbn in Hg. simplify_eq. unfold GET_16BIT_MSB_FIRST.
      assert (Hn : forall i, 0 <= nth i p 0).
      { intros i. destruct (nth_in_or_default i p 0) as [Hi| ->]; [|lia].
        apply list_elem_of_In in Hi. by apply (proj1 (Forall_forall _ _) Hp). }
      apply Z.lor_nonneg. split; [apply Hn|]. apply Z.shiftl_nonneg, Hn.
    - by simplify_eq. }
  destruct Hpos as (bitc & src1 & -> & Hwf1 & Hd1 & Hbit). cbn [res_bind].
  assert (Hw : 0 <= (bitc + 7) / 8) by (apply Z.div_pos; lia).
  destruct (get_data_safe _ Hw src1 Hwf1) as (bytes & src2 & Hg & Hwf2 & Hd2 & _).
  rewrite Hg. cbn [res_bind]. destruct (decide _) as [He|He]; [|by eexists _, _].
  destruct (get_data_bytes _ _ _ _ Hg) as [Hb Hlen]; [apply Hwf1|]. rewrite Hd1 in Hlen.
  destruct (mp_from_source_bytes (src_data src) bytes Hl Hb Hlen) as [r ->].
  cbn [res_bind]. destruct (_ <? _); by eexists _, _.
Qed.

(** ** Theorems *)

(** C27. Whatever values that fit the wire format are written to a sink that keeps
    its promise, in whatever order, the sink ends up with their encodings behind
    what it held, and reading the same kinds of values from those bytes gives
    the values back, leaving the source just behind them without an error. *)
Theorem marshal_roundtrip {S} `{LawfulSink S} (s : S) c fs rest :
  sink_holds s c -> Forall field_ok fs ->
  Z.of_nat (length (c ++ encode_fields fs)) <= sink_limit ->
  Z.of_nat (length (c ++ encode_fields fs ++ rest)) < SIZE_T ->
  exists s', put_fields s fs = Ok s' /\ sink_holds s' (c ++ encode_fields fs) /\
    get_fields fs (source_at c (encode_fields fs ++ rest)) =
      Ok (fs, source_at (c ++ encode_fields fs) rest).
Proof.
  intros Hc Hok Hlim Hl. destruct (put_fields_appends fs Hok s c Hc Hlim) as (s' & E & Hs').
  exists s'. split; [done|]. split; [done|]. by apply get_fields_at.
Qed.

(** C26. Reading arbitrary bytes is memory safe: from a well-formed source every
    getter returns, reads nothing outside the block, leaves the source
    well-formed with its position not moved back, and after an error returns
    its default and changes nothing. *)
Theorem binary_source_safe :
  (forall n, 0 <= n -> safe_getter [] (fun src => BinarySource_get_data src n)) /\
  safe_getter 0 BinarySource_get_byte /\
  safe_getter false BinarySource_get_bool /\
  safe_getter 0 BinarySource_get_uint16 /\
  safe_getter 0 BinarySource_get_uint32 /\
  safe_getter 0 BinarySource_get_uint64 /\
  safe_getter [] BinarySource_get_string /\
  safe_getter [] BinarySource_get_pstring /\
  safe_getter [] BinarySource_get_asciz /\
  safe_getter [] BinarySource_get_chomped_line /\
  (forall set, safe_getter [] (fun src => BinarySource_get_chars src set)) /\
  (forall set, safe_getter [] (fun src => BinarySource_get_nonchars src set)).
Proof.
  repeat split; auto using get_data_safe, get_string_safe, get_pstring_safe, get_asciz_safe,
    get_chomped_line_safe.
  all: try (apply get_fixed_safe; lia).
  - intros set. apply (get_chars_safe set true).
  - intros set. apply (get_chars_safe set false).
Qed.

(** A number of up to 2^32 bits written in the SSH-1 format (up to 65535 bits)
    or, if it is positive, in the SSH-2 format, to any lawful sink, is read back
    as the same number. *)
Theorem mp_wire_roundtrip {S} `{LawfulSink S} (s : S) c x rest :
  sink_holds s c -> wordsOK x -> wire_size x ->
  Z.of_nat (length (c ++ ssh2_bytes (val x) ++ ssh1_bytes (val x) ++ rest)) < SIZE_T ->
  Z.of_nat (length (c ++ ssh2_bytes (val x))) <= sink_limit ->
  Z.of_nat (length (c ++ ssh1_bytes (val x))) <= sink_limit ->
  (0 < val x ->
   exists s' r, BinarySink_put_mp_ssh2 s x = Ok s' /\ sink_holds s' (c ++ ssh2_bytes (val x)) /\
     BinarySource_get_mp_ssh2 (source_at c (ssh2_bytes (val x) ++ rest)) =
       Ok (r, source_at (c ++ ssh2_bytes (val x)) rest) /\ val r = val x) /\
  (bitlen (val x) < 65536 ->
   exists s' r, BinarySink_put_mp_ssh1 s x = Ok s' /\ sink_holds s' (c ++ ssh1_bytes (val x)) /\
     BinarySource_get_mp_ssh1 (source_at c (ssh1_bytes (val x) ++ rest)) =
       Ok (r, source_at (c ++ ssh1_bytes (val x)) rest) /\ val r = val x) /\
  (65536 <= bitlen (val x) -> BinarySink_put_mp_ssh1 s x = Crash AssertionFailed).
Proof.
  intros Hc Hx Hs Hl Hlim2 Hlim1. rewrite !length_app in Hl.
  pose proof (wire_bitlen x Hx Hs) as Hbl. split; [|split].
  - intros Hv. destruct (put_mp_ssh2_appends x Hx Hs s c Hc Hlim2) as (s' & Hput & Hs').
    destruct (get_mp_ssh2_at c rest (val x)) as (r & Hget & _ & Hr);
      [done|lia|rewrite !length_app; lia|].
    by exists s', r.
  - intros Hb. destruct (put_mp_ssh1_appends x Hx Hs Hb s c Hc Hlim1) as (s' & Hput & Hs').
    destruct (get_mp_ssh1_at c rest (val x)) as (r & Hget & _ & Hr);
      [apply val_bound, Hx|done|rewrite !length_app; lia|].
    by exists s', r.
  - intros Hb. unfold BinarySink_put_mp_ssh1.
    rewrite mp_get_nbits_spec by (done || unfold wire_size in Hs; lia).
    by rewrite (proj2 (Z.ltb_ge _ _)) by lia.
Qed.

(** Zero does not survive the SSH-2 format: [put_mp_ssh2] writes it as one
    zero byte, and [get_mp_ssh2] refuses exactly that encoding as invalid (the
    format has zero as the empty string, which it does accept). *)
Theorem mp_ssh2_zero_refused {S} `{LawfulSink S} (s : S) c x rest :
  sink_holds s c -> wordsOK x -> wire_size x -> val x = 0 ->
  Z.of_nat (length (c ++ [0; 0; 0; 1; 0])) <= sink_limit ->
  Z.of_nat (length (c ++ [0; 0; 0; 1; 0] ++ rest)) < SIZE_T ->
  (exists s', BinarySink_put_mp_ssh2 s x = Ok s' /\ sink_holds s' (c ++ [0; 0; 0; 1; 0])) /\
  BinarySource_get_mp_ssh2 (source_at c ([0; 0; 0; 1; 0] ++ rest)) =
    Ok (mp_from_integer 0, set_err (source_at (c ++ [0; 0; 0; 1; 0]) rest) BSE_INVALID) /\
  exists r, BinarySource_get_mp_ssh2 (source_at c ([0; 0; 0; 0] ++ 0 :: rest)) =
    Ok (r, source_at (c ++ [0; 0; 0; 0]) (0 :: rest)) /\ val r = 0.
Proof.
  intros Hc Hx Hs Hv Hlim Hl. split; [|split].
  - pose proof (put_mp_ssh2_appends x Hx Hs) as Hp. rewrite Hv in Hp. by apply (Hp s c Hc).
  - unfold BinarySource_get_mp_ssh2.
    change BinarySource_get_string with (get_prefixed 4 GET_32BIT_MSB_FIRST).
    change [0; 0; 0; 1; 0] with ([0; 0; 0; 1] ++ [0]) in *.
    by rewrite get_prefixed_at.
  - unfold BinarySource_get_mp_ssh2.
    change BinarySource_get_string with (get_prefixed 4 GET_32BIT_MSB_FIRST).
    change [0; 0; 0; 0] with ([0; 0; 0; 0] ++ []).
    rewrite get_prefixed_at; [|rewrite !length_app in *; cbn in *; lia|done|done].
    cbn [res_bind src_err source_at]. rewrite decide_True by done.
    by eexists.
Qed.

(** *** Witnesses *)

Definition sample_fields : list field :=
  [F_byte 20; F_uint32 70000; F_bool true; F_string [104; 105]; F_asciz [120]; F_uint64 (2 ^ 40)].

Lemma sample_fields_ok : Forall field_ok sample_fields.
Proof.
  unfold sample_fields. repeat (apply Forall_cons; split); try apply Forall_nil; try done; cbn;
    try lia. set_solver.
Qed.

Lemma marshal_roundtrip_witness :
  exists s s', strbuf_new = Ok s /\ put_fields s sample_fields = Ok s' /\
    strbuf_holds s' (encode_fields sample_fields) /\
    get_fields sample_fields (BinarySource_INIT (encode_fields sample_fields)) =
      Ok (sample_fields, source_at (encode_fields sample_fields) []).
Proof.
  destruct (strbuf_new_holds false) as (s & Hs & Hh).
  destruct (marshal_roundtrip s [] sample_fields []) as (s' & Hp & Hh' & Hg).
  - exact Hh.
  - exact sample_fields_ok.
  - cbn. unfold strbuf_limit. lia.
  - reflexivity.
  - exists s, s'. split; [exact Hs|]. split; [exact Hp|]. split; [exact Hh'|].
    rewrite app_nil_r in Hg. exact Hg.
Defined.

Definition sample_mp : mp_int := [2 ^ 31 + 5; 1].

Lemma sample_mp_ok : wordsOK sample_mp /\ wire_size sample_mp.
Proof.
  split; [|unfold wire_size; cbn; lia].
  unfold sample_mp. repeat (apply Forall_cons; split); try apply Forall_nil; unfold is_word; cbn; lia.
Qed.

Lemma mp_wire_roundtrip_witness :
  exists s s' r, strbuf_new = Ok s /\ BinarySink_put_mp_ssh2 s sample_mp = Ok s' /\
    BinarySource_get_mp_ssh2 (source_at [] (ssh2_bytes (val sample_mp) ++ [])) =
      Ok (r, source_at ([] ++ ssh2_bytes (val sample_mp)) []) /\ val r = val sample_mp.
Proof.
  destruct (strbuf_new_holds false) as (s & Hs & Hh).
  destruct (mp_wire_roundtrip s [] sample_mp []) as (H & _).
  - exact Hh.
  - apply sample_mp_ok.
  - apply sample_mp_ok.
  - vm_compute. reflexivity.
  - vm_compute. discriminate.
  - vm_compute. discriminate.
  - destruct H as (s' & r & H1 & _ & H2 & H3); [reflexivity|].
    exists s, s', r. split; [exact Hs|]. split; [exact H1|]. split; [exact H2|exact H3].
Defined.

Lemma mp_ssh2_zero_refused_witness :
  exists s s', strbuf_new = Ok s /\ BinarySink_put_mp_ssh2 s [0] = Ok s' /\
    strbuf_holds s' [0; 0; 0; 1; 0].
Proof.
  destruct (strbuf_new_holds false) as (s & Hs & Hh).
  destruct (mp_ssh2_zero_refused s [] [0] []) as ((s' & H1 & H2) & _).
  - exact Hh.
  - apply Forall_cons; split; [unfold is_word; lia|apply Forall_nil_2].
  - unfold wire_size. cbn. lia.
  - reflexivity.
  - cbn. unfold strbuf_limit. lia.
  - reflexivity.
  - exists s, s'. split; [exact Hs|]. split; [exact H1|exact H2].
Defined.
