(* ===== verification/CmString.v ===== *)
(** * Copy-on-write strings (src/include/nbstring.inl, src/nbcore/nbstring.cpp)

    Every string of the plugin ([UnicodeString], [UTF8String],
    [RawByteString]) is a [CMStringT]: a pointer to the characters of a
    reference-counted block that several strings may share until one of them
    writes.

    The model is the heap of blocks and the table of string objects.  A block
    has the fields of [CMStringData] and its characters, [nAllocLength + 1] of
    them, [None] where nothing was written.  The object [v] holds the block its
    [m_pszData] points behind.  A function that reads or writes through a
    dangling pointer, or outside a block, is undefined ([UndefinedBehaviour]),
    and so is a signed overflow.  Memory can always be allocated. *)

From stdpp Require Import gmap.
From S2P Require Import Prelude Strbuf.
Local Open Scope cmodel_scope.
Local Open Scope Z_scope.

(** [nRefs] counts string objects that exist, so its [long] is a [Z]. *)
Record CMStringData := MkData {
  nRefs : Z;
  nDataLength : Z;
  nAllocLength : Z;
  achData : memory
}.

Record heap := Heap {
  h_blocks : gmap nat CMStringData;
  h_strs : gmap nat nat
}.

(** ** State and errors *)

Definition M (A : Type) := heap -> res (A * heap).
Definition ret {A} (a : A) : M A := fun h => Ok (a, h).
Definition fail {A} (f : failure) : M A := fun _ => Crash f.
Definition bind {A B} (m : M A) (k : A -> M B) : M B :=
  fun h => match m h with Ok (a, h) => k a h | Crash f => Crash f end.
Notation "'do!' x ':=' c 'in' k" := (bind c (fun x => k))
  (at level 10, x pattern, c at level 100, k at level 200,
   format "'do!'  x  ':='  c  'in' '//' k") : cmodel_scope.
Notation "c ;* k" := (bind c (fun _ => k))
  (at level 100, k at level 200, right associativity) : cmodel_scope.
Definition lift {A} (r : res A) : M A :=
  fun h => match r with Ok a => Ok (a, h) | Crash f => Crash f end.

(** Signed addition of [int]s. *)
Definition int_add (a b : Z) : M Z :=
  if (- 2 ^ 31 <=? a + b) && (a + b <? 2 ^ 31) then ret (a + b) else fail UndefinedBehaviour.

Definition get_block (b : nat) : M CMStringData :=
  fun h => match h_blocks h !! b with Some d => Ok (d, h) | None => Crash UndefinedBehaviour end.

Definition put_block (b : nat) (d : CMStringData) : M unit :=
  fun h => Ok (tt, Heap (<[b := d]> (h_blocks h)) (h_strs h)).

Definition drop_block (b : nat) : M unit :=
  fun h => Ok (tt, Heap (delete b (h_blocks h)) (h_strs h)).

(** [GetData()]: the block of a string object. *)
Definition GetData (v : nat) : M (nat * CMStringData) :=
  fun h => match h_strs h !! v with
           | Some b => (do! d := get_block b in ret (b, d)) h
           | None => Crash UndefinedBehaviour
           end.

Definition Attach (v b : nat) : M unit :=
  fun h => Ok (tt, Heap (h_blocks h) (<[v := b]> (h_strs h))).

(** ** Blocks *)

(** The block of the empty string; it starts with two references. *)
Definition nil_block : nat := 0.

Definition IsLocked (d : CMStringData) : bool := nRefs d <? 0.
Definition IsShared (d : CMStringData) : bool := 1 <? nRefs d.

Definition with_refs (d : CMStringData) (n : Z) : CMStringData :=
  MkData n (nDataLength d) (nAllocLength d) (achData d).

Definition AddRef (b : nat) : M unit :=
  do! d := get_block b in put_block b (with_refs d (nRefs d + 1)).

(** The size in bytes is computed in [int]; a character has at most two. *)
Definition nbstr_allocate (nChars : Z) : M nat :=
  fun h =>
    if (nChars + 1 <=? 0) || (2 ^ 31 <=? 2 * (nChars + 1)) then Crash UndefinedBehaviour
    else
      let b := fresh (dom (h_blocks h)) in
      Ok (b, Heap (<[b := MkData 1 0 nChars (replicate (Z.to_nat (nChars + 1)) None)]> (h_blocks h))
                  (h_strs h)).

Definition nbstr_free (b : nat) : M unit := drop_block b.

(** The block may move. *)
Definition nbstr_realloc (b : nat) (nChars : Z) : M nat :=
  fun h =>
    if (nChars + 1 <=? 0) || (2 ^ 31 <=? 2 * (nChars + 1)) then Crash UndefinedBehaviour
    else
      match h_blocks h !! b with
      | None => Crash UndefinedBehaviour
      | Some d =>
          let b' := fresh (dom (h_blocks h)) in
          let n := Z.to_nat (nChars + 1) in
          let chars := take n (achData d) ++ replicate (n - length (achData d)) None in
          Ok (b', Heap (<[b' := MkData (nRefs d) (nDataLength d) nChars chars]>
                          (delete b (h_blocks h))) (h_strs h))
      end.

Definition nbstr_getNil : M nat := AddRef nil_block ;* ret nil_block.

Definition nbstr_lock (b : nat) : M unit :=
  do! d := get_block b in
  let n := nRefs d - 1 in
  put_block b (with_refs d (if n =? 0 then -1 else n)).

Definition nbstr_release (b : nat) : M unit :=
  do! d := get_block b in
  put_block b (with_refs d (nRefs d - 1)) ;*
  if nRefs d - 1 <=? 0 then nbstr_free b else ret tt.

Definition nbstr_unlock (b : nat) : M unit :=
  do! d := get_block b in
  if IsLocked d then
    let n := nRefs d + 1 in
    put_block b (with_refs d (if n =? 0 then 1 else n))
  else ret tt.

(** ** CMSimpleStringT *)

(** [None] is the null pointer. *)
Definition CloneData (b : nat) : M (option nat) :=
  do! d := get_block b in
  if IsLocked d then ret None else AddRef b ;* ret (Some b).

(** Attaching a null pointer gives a string whose block is not in the heap. *)
Definition attach_clone (v : nat) (c : option nat) : M unit :=
  match c with
  | Some b => Attach v b
  | None => fun h => Attach v (fresh (dom (h_blocks h))) h
  end.

(** Write to the characters of a block. *)
Definition CopyChars (b : nat) (off : Z) (src : memory) : M unit :=
  do! d := get_block b in
  do! chars := lift (memcpy (achData d) off src) in
  put_block b (MkData (nRefs d) (nDataLength d) (nAllocLength d) chars).

(** Read [n] characters of a block. *)
Definition ReadChars (b : nat) (off n : Z) : M memory :=
  do! d := get_block b in
  if (0 <=? off) && (0 <=? n) && (off + n <=? Z.of_nat (length (achData d)))
  then ret (take (Z.to_nat n) (drop (Z.to_nat off) (achData d)))
  else fail UndefinedBehaviour.

Definition SetLength (v : nat) (nLength : Z) : M unit :=
  do! (b, d) := GetData v in
  put_block b (MkData (nRefs d) nLength (nAllocLength d) (achData d)) ;*
  CopyChars b nLength [Some 0].

Definition Fork (v : nat) (nLength : Z) : M unit :=
  do! (b, d) := GetData v in
  let nOldLength := nDataLength d in
  do! b' := nbstr_allocate nLength in
  let nCharsToCopy := (if nOldLength <? nLength then nOldLength else nLength) + 1 in
  do! chars := ReadChars b 0 nCharsToCopy in
  CopyChars b' 0 chars ;*
  do! d' := get_block b' in
  put_block b' (MkData (nRefs d') nOldLength (nAllocLength d') (achData d')) ;*
  nbstr_release b ;*
  Attach v b'.

Definition Reallocate (v : nat) (nLength : Z) : M unit :=
  do! (b, d) := GetData v in
  if (nLength <=? nAllocLength d) || (nLength <=? 0) then ret tt
  else do! b' := nbstr_realloc b nLength in Attach v b'.

Definition PrepareWrite2 (v : nat) (nLength : Z) : M unit :=
  do! (b, d) := GetData v in
  let nLength := if nLength <? nDataLength d then nDataLength d else nLength in
  if IsShared d then Fork v nLength
  else if nAllocLength d <? nLength then
    let nNewLength := nAllocLength d in
    let nNewLength := if 1024 <? nNewLength then nNewLength + 1024 else nNewLength * 2 in
    let nNewLength := if nNewLength <? nLength then nLength else nNewLength in
    Reallocate v nNewLength
  else ret tt.

(** [GetBuffer(nLength)]; the result is the block that may be written to. *)
Definition PrepareWrite (v : nat) (nLength : Z) : M nat :=
  do! (_, d) := GetData v in
  let nShared := 1 - nRefs d in
  let nTooShort := nAllocLength d - nLength in
  (if (nShared <? 0) || (nTooShort <? 0) then PrepareWrite2 v nLength else ret tt) ;*
  do! (b, _) := GetData v in
  ret b.

(** [GetBuffer()] *)
Definition GetBuffer (v : nat) : M nat :=
  do! (_, d) := GetData v in
  (if IsShared d then Fork v (nDataLength d) else ret tt) ;*
  do! (b, _) := GetData v in
  ret b.

Definition GetBufferSetLength (v : nat) (nLength : Z) : M nat :=
  do! b := PrepareWrite v nLength in
  SetLength v nLength ;* ret b.

Definition LockBuffer (v : nat) : M unit :=
  do! (_, d) := GetData v in
  (if IsShared d then Fork v (nDataLength d) else ret tt) ;*
  do! (b, _) := GetData v in
  nbstr_lock b.

Definition UnlockBuffer (v : nat) : M unit :=
  do! (b, _) := GetData v in nbstr_unlock b.

Definition Truncate (v : nat) (nNewLength : Z) : M unit :=
  do! _ := PrepareWrite v nNewLength in
  SetLength v nNewLength.

Definition Empty (v : nat) : M unit :=
  do! (b, d) := GetData v in
  if nDataLength d =? 0 then ret tt
  else if IsLocked d then SetLength v 0
  else
    nbstr_release b ;*
    do! n := nbstr_getNil in
    Attach v n.

Definition FreeExtra (v : nat) : M unit :=
  do! (b, d) := GetData v in
  let nLength := nDataLength d in
  if nAllocLength d =? nLength then ret tt
  else if IsLocked d then ret tt
  else
    do! b' := nbstr_allocate nLength in
    do! chars := ReadChars b 0 nLength in
    CopyChars b' 0 chars ;*
    nbstr_release b ;*
    Attach v b' ;*
    SetLength v nLength.

(** Constructors, the destructor and assignment. *)
Definition ctor_nil (v : nat) : M unit := do! n := nbstr_getNil in Attach v n.

Definition ctor_copy (v src : nat) : M unit :=
  do! (b, _) := GetData src in
  do! c := CloneData b in
  attach_clone v c.

(** The defaulted move constructor copies the pointer. *)
Definition ctor_move (v src : nat) : M unit :=
  do! (b, _) := GetData src in Attach v b.

Definition ctor_chars (v : nat) (pch : list Z) : M unit :=
  let nLength := Z.of_nat (length pch) in
  do! b := nbstr_allocate nLength in
  Attach v b ;*
  SetLength v nLength ;*
  CopyChars b 0 (Some <$> pch).

Definition dtor (v : nat) : M unit :=
  do! (b, _) := GetData v in
  nbstr_release b ;*
  (fun h => Ok (tt, Heap (h_blocks h) (delete v (h_strs h)))).

(** [SetString] from memory outside the string's own block. *)
Definition SetString (v : nat) (pszSrc : list Z) : M unit :=
  let nLength := Z.of_nat (length pszSrc) in
  if nLength =? 0 then Empty v
  else
    do! b := PrepareWrite v nLength in
    CopyChars b 0 (Some <$> pszSrc) ;*
    SetLength v nLength.

(** The initialised characters of a piece of memory. *)
Definition defined (m : memory) : M (list Z) :=
  match mapM id m with Some l => ret l | None => fail UndefinedBehaviour end.

Definition operator_assign (v src : nat) : M unit :=
  do! (bsrc, dsrc) := GetData src in
  do! (bold, dold) := GetData v in
  if decide (bsrc = bold) then ret tt
  else if IsLocked dold then
    do! chars := ReadChars bsrc 0 (nDataLength dsrc) in
    do! l := defined chars in
    SetString v l
  else
    do! c := CloneData bsrc in
    nbstr_release bold ;*
    attach_clone v c.

Definition AppendChar (v : nat) (ch : Z) : M unit :=
  do! (_, d) := GetData v in
  let nOldLength := nDataLength d in
  do! nNewLength := int_add nOldLength 1 in
  do! b := PrepareWrite v nNewLength in
  CopyChars b nOldLength [Some ch] ;*
  SetLength v nNewLength.

(** The characters up to the terminator. *)
Fixpoint until_nul (l : list Z) : list Z :=
  match l with [] => [] | c :: l => if c =? 0 then [] else c :: until_nul l end.

(** [Append(strSrc)] of another string object, or of the string itself.  The
    source is cut at its first NUL. *)
Definition Append (v src : nat) : M unit :=
  do! (bsrc, dsrc) := GetData src in
  do! (bold, d) := GetData v in
  let nOldLength := nDataLength d in
  do! chars := ReadChars bsrc 0 (nDataLength dsrc) in
  do! l := defined chars in
  let nLength := Z.of_nat (length (until_nul l)) in
  do! nNewLength := int_add nOldLength nLength in
  do! b := PrepareWrite v nNewLength in
  do! srcchars := ReadChars (if decide (bsrc = bold) then b else bsrc) 0 nLength in
  CopyChars b nOldLength srcchars ;*
  SetLength v nNewLength.

Definition SetAt (v : nat) (iChar : Z) (ch : Z) : M unit :=
  do! (_, d) := GetData v in
  let nLength := nDataLength d in
  do! b := GetBuffer v in
  CopyChars b iChar [Some ch] ;*
  SetLength v nLength.

(** ** CMStringT *)

Definition Delete (v : nat) (iIndex nCount : Z) : M Z :=
  let iIndex := if iIndex <? 0 then 0 else iIndex in
  let nCount := if nCount <? 0 then 0 else nCount in
  do! (_, d) := GetData v in
  let nLength := nDataLength d in
  do! sum := int_add nCount iIndex in
  let nCount := if nLength <? sum then nLength - iIndex else nCount in
  (if 0 <? nCount then
     let nNewLength := nLength - nCount in
     let nXCHARsToCopy := nLength - (iIndex + nCount) + 1 in
     do! b := GetBuffer v in
     do! chars := ReadChars b (iIndex + nCount) nXCHARsToCopy in
     CopyChars b iIndex chars ;*
     SetLength v nNewLength
   else ret tt) ;*
  do! (_, d) := GetData v in
  ret (nDataLength d).

Definition InsertChar (v : nat) (iIndex : Z) (ch : Z) : M Z :=
  do! (_, d) := GetData v in
  let iIndex := if iIndex <? 0 then 0 else iIndex in
  let iIndex := if nDataLength d <? iIndex then nDataLength d else iIndex in
  do! nNewLength := int_add (nDataLength d) 1 in
  do! b := PrepareWrite v nNewLength in
  do! chars := ReadChars b iIndex (nNewLength - iIndex) in
  CopyChars b (iIndex + 1) chars ;*
  CopyChars b iIndex [Some ch] ;*
  SetLength v nNewLength ;*
  ret nNewLength.

(** [Insert] of characters outside the string's own block, up to their NUL. *)
Definition Insert (v : nat) (iIndex : Z) (psz : list Z) : M Z :=
  let psz := until_nul psz in
  do! (_, d) := GetData v in
  let iIndex := if iIndex <? 0 then 0 else iIndex in
  let iIndex := if nDataLength d <? iIndex then nDataLength d else iIndex in
  let nInsertLength := Z.of_nat (length psz) in
  if 0 <? nInsertLength then
    do! nNewLength := int_add (nDataLength d) nInsertLength in
    do! b := PrepareWrite v nNewLength in
    do! chars := ReadChars b iIndex (nNewLength - iIndex - nInsertLength + 1) in
    CopyChars b (iIndex + nInsertLength) chars ;*
    CopyChars b iIndex (Some <$> psz) ;*
    SetLength v nNewLength ;*
    ret nNewLength
  else ret (nDataLength d).

(** [Mid(iFirst, nCount)] into a new string [r]. *)
Definition Mid (r v : nat) (iFirst nCount : Z) : M unit :=
  do! (b, d) := GetData v in
  let iFirst := if iFirst <? 0 then 0 else iFirst in
  let nCount := if nCount <? 0 then 0 else nCount in
  do! sum := int_add iFirst nCount in
  let nCount := if nDataLength d <? sum then nDataLength d - iFirst else nCount in
  let nCount := if nDataLength d <? iFirst then 0 else nCount in
  if (iFirst =? 0) && (iFirst + nCount =? nDataLength d) then ctor_copy r v
  else
    do! chars := ReadChars b (if nDataLength d <? iFirst then 0 else iFirst) nCount in
    do! l := defined chars in
    ctor_chars r l.

(** ** Reference counts *)

(** The string objects that point to a block. *)
Definition refcount (b : nat) (strs : gmap nat nat) : nat :=
  length (filter (.= b) (map_to_list strs).*2).

Definition pointing (b b' : nat) : nat := if decide (b' = b) then 1 else 0.

Lemma refcount_perm b (l l' : list nat) :
  l ≡ₚ l' -> length (filter (.= b) l) = length (filter (.= b) l').
Proof. intros H. by rewrite H. Qed.

Lemma refcount_cons b x l :
  length (filter (.= b) (x :: l)) = (pointing b x + length (filter (.= b) l))%nat.
Proof.
  unfold pointing. destruct (decide (x = b)).
  - by rewrite filter_cons_True.
  - by rewrite filter_cons_False.
Qed.

Lemma refcount_delete strs v x b :
  strs !! v = Some x -> refcount b strs = (pointing b x + refcount b (delete v strs))%nat.
Proof.
  intros H. unfold refcount. rewrite <-refcount_cons. apply refcount_perm.
  rewrite <-(map_to_list_delete strs v x H). done.
Qed.

Lemma refcount_insert strs v x b :
  refcount b (<[v := x]> strs) = (pointing b x + refcount b (delete v strs))%nat.
Proof.
  rewrite (refcount_delete _ v x) by apply lookup_insert_eq. by rewrite delete_insert_eq.
Qed.

Lemma refcount_zero strs b :
  refcount b strs = 0%nat <-> forall v, strs !! v <> Some b.
Proof.
  unfold refcount. split.
  - intros Hz v Hv. apply length_zero_iff_nil in Hz.
    apply (filter_nil_not_elem_of _ _ b Hz eq_refl).
    apply list_elem_of_fmap. exists (v, b). split; [done|]. by apply elem_of_map_to_list.
  - intros Hn. destruct (filter _ _) as [|x l] eqn:E; [done|].
    assert (x ∈ filter (.= b) (map_to_list strs).*2) as Hx by (rewrite E; left).
    apply list_elem_of_filter in Hx as [-> Hx].
    apply list_elem_of_fmap in Hx as ([v b'] & -> & Hx). apply elem_of_map_to_list in Hx.
    by destruct (Hn v).
Qed.

(** ** Well-formed heaps *)

(** The characters of a block: the string, a terminator, unused space. *)
Definition block_holds (d : CMStringData) (cs : list Z) : Prop :=
  nDataLength d = Z.of_nat (length cs) /\
  Z.of_nat (length (achData d)) = nAllocLength d + 1 /\
  exists tail, achData d = (Some <$> cs) ++ Some 0 :: tail.

(** A block counts the objects that point to it, two more for the empty
    string's, and there is at least one.  Locked blocks, whose count is
    negative, are not in a well-formed heap. *)
Definition refs_ok (b : nat) (d : CMStringData) (n : nat) : Prop :=
  0 < nRefs d /\ nRefs d = Z.of_nat n + (if decide (b = nil_block) then 2 else 0).

Record heap_ok (h : heap) : Prop := {
  heap_ptrs : forall v b, h_strs h !! v = Some b -> is_Some (h_blocks h !! b);
  heap_blocks : forall b d, h_blocks h !! b = Some d ->
    (exists cs, block_holds d cs) /\ refs_ok b d (refcount b (h_strs h));
  heap_nil : exists d, h_blocks h !! nil_block = Some d /\ block_holds d []
}.

(** The value of a string object. *)
Definition holds (h : heap) (v : nat) (cs : list Z) : Prop :=
  exists b d, h_strs h !! v = Some b /\ h_blocks h !! b = Some d /\ block_holds d cs.

(** No object but [v] changes its block or value, appears or disappears. *)
Definition others_keep (v : nat) (h h' : heap) : Prop :=
  forall u, u <> v ->
    h_strs h !! u = h_strs h' !! u /\ forall cs, holds h u cs <-> holds h' u cs.

Lemma block_holds_inj d cs cs' : block_holds d cs -> block_holds d cs' -> cs = cs'.
Proof.
  intros (H1 & _ & t1 & E1) (H2 & _ & t2 & E2).
  assert (Some <$> cs = Some <$> cs') as E.
  { rewrite E1 in E2. apply app_inj_1 in E2 as [E _]; [done|]. rewrite !length_fmap. lia. }
  by apply (inj (fmap Some)) in E.
Qed.

Lemma refs_pos b d n : refs_ok b d n -> b <> nil_block -> (0 < n)%nat.
Proof.
  intros [H1 H2] Hb. rewrite decide_False in H2 by done. lia.
Qed.

(** An object has a block to itself when the block is not shared. *)
Lemma not_shared b d n :
  refs_ok b d n -> (0 < n)%nat -> IsShared d = false -> n = 1%nat /\ b <> nil_block.
Proof.
  unfold IsShared. intros [H1 H2] Hn Hs%Z.ltb_ge.
  destruct (decide (b = nil_block)); [lia|]. split; [lia|done].
Qed.

Lemma heap_ok_value h v b :
  heap_ok h -> h_strs h !! v = Some b ->
  exists d cs, h_blocks h !! b = Some d /\ block_holds d cs /\
    refs_ok b d (refcount b (h_strs h)) /\ (0 < refcount b (h_strs h))%nat.
Proof.
  intros Hok Hv. destruct (heap_ptrs h Hok v b Hv) as [d Hd].
  destruct (heap_blocks h Hok b d Hd) as [[cs Hcs] Hr]. exists d, cs. split_and!; try done.
  rewrite (refcount_delete _ v b) by done. unfold pointing. rewrite decide_True by done. lia.
Qed.

(** ** Access to a block of the heap *)

Section block_access.
  Context (bs : gmap nat CMStringData) (ss : gmap nat nat) (v b : nat) (d : CMStringData).

Lemma get_block_own : get_block b (Heap (<[b := d]> bs) ss) = Ok (d, Heap (<[b := d]> bs) ss).
Proof. unfold get_block. cbn. by rewrite lookup_insert_eq. Qed.

Lemma GetData_own : ss !! v = Some b -> GetData v (Heap (<[b := d]> bs) ss) = Ok ((b, d), Heap (<[b := d]> bs) ss).
Proof. intros Hv. unfold GetData, bind. cbn. rewrite Hv, get_block_own. done. Qed.

Lemma put_block_own d' :
  put_block b d' (Heap (<[b := d]> bs) ss) = Ok (tt, Heap (<[b := d']> bs) ss).
Proof. unfold put_block. cbn. by rewrite insert_insert_eq. Qed.

Lemma CopyChars_own off src :
  0 <= off -> off + Z.of_nat (length src) <= Z.of_nat (length (achData d)) ->
  CopyChars b off src (Heap (<[b := d]> bs) ss) =
    Ok (tt, Heap (<[b := MkData (nRefs d) (nDataLength d) (nAllocLength d)
                     (take (Z.to_nat off) (achData d) ++ src ++
                      drop (Z.to_nat off + length src) (achData d))]> bs) ss).
Proof.
  intros H1 H2. unfold CopyChars, bind. rewrite get_block_own. unfold lift.
  rewrite memcpy_ok by done. apply put_block_own.
Qed.

Lemma ReadChars_own off n :
  0 <= off -> 0 <= n -> off + n <= Z.of_nat (length (achData d)) ->
  ReadChars b off n (Heap (<[b := d]> bs) ss) =
    Ok (take (Z.to_nat n) (drop (Z.to_nat off) (achData d)), Heap (<[b := d]> bs) ss).
Proof.
  intros H1 H2 H3. unfold ReadChars, bind. rewrite get_block_own.
  by rewrite !(proj2 (Z.leb_le _ _)) by lia.
Qed.

End block_access.

(** ** Writing to a block of one's own *)

Section own.
  Context (bs : gmap nat CMStringData) (ss : gmap nat nat) (v b : nat) (d : CMStringData).
  Hypothesis Hok : heap_ok (Heap (<[b := d]> bs) ss).
  Hypothesis Hv : ss !! v = Some b.
  Hypothesis Hown : refcount b ss = 1%nat.
  Hypothesis Hnil : b <> nil_block.

Lemma own_unique u : u <> v -> ss !! u <> Some b.
Proof using Hv Hown Hnil.
  intros Hu Hub. rewrite (refcount_delete ss v b) in Hown by done.
  unfold pointing in Hown. rewrite decide_True in Hown by done.
  assert (refcount b (delete v ss) = 0%nat) as Hz by lia.
  apply (proj1 (refcount_zero _ _) Hz u). by rewrite lookup_delete_ne.
Qed.

(** Changing the characters of the block changes the value of [v] only. *)
Lemma own_write d' cs :
  nRefs d' = nRefs d -> block_holds d' cs ->
  heap_ok (Heap (<[b := d']> bs) ss) /\ holds (Heap (<[b := d']> bs) ss) v cs /\
  others_keep v (Heap (<[b := d]> bs) ss) (Heap (<[b := d']> bs) ss).
Proof using All.
  intros Hr Hd'. split; [split|split]; cbn [h_blocks h_strs].
  - intros u x Hu. destruct (decide (x = b)) as [->|]; [by rewrite lookup_insert_eq|].
    rewrite lookup_insert_ne by done. apply (heap_ptrs _ Hok) in Hu. cbn in Hu.
    by rewrite lookup_insert_ne in Hu.
  - intros x e. destruct (decide (x = b)) as [->|Hx].
    + rewrite lookup_insert_eq. intros [= <-]. split; [eauto|].
      destruct (heap_blocks _ Hok b d) as [_ H]; [apply lookup_insert_eq|].
      cbn in H. unfold refs_ok in *. by rewrite Hr.
    + rewrite lookup_insert_ne by done. intros He.
      apply (heap_blocks _ Hok x e). cbn. by rewrite lookup_insert_ne.
  - destruct (heap_nil _ Hok) as (e & He & Hh). cbn in He. exists e.
    rewrite lookup_insert_ne in * by done. done.
  - exists b, d'. cbn [h_blocks h_strs]. by rewrite lookup_insert_eq.
  - intros u Hu. split; [done|]. intros c. unfold holds. cbn. pose proof (own_unique u Hu).
    split; intros (x & e & H1 & H2 & H3); exists x, e;
      rewrite lookup_insert_ne in * by congruence; done.
Qed.

End own.

Lemma bind_Ok {A B} (m : M A) (k : A -> M B) h a h' :
  m h = Ok (a, h') -> bind m k h = k a h'.
Proof. unfold bind. by intros ->. Qed.

Lemma SetLength_own bs ss v b d n :
  ss !! v = Some b -> 0 <= n -> n + 1 <= Z.of_nat (length (achData d)) ->
  SetLength v n (Heap (<[b := d]> bs) ss) =
    Ok (tt, Heap (<[b := MkData (nRefs d) n (nAllocLength d)
                     (take (Z.to_nat n) (achData d) ++ [Some 0] ++
                      drop (Z.to_nat n + 1) (achData d))]> bs) ss).
Proof.
  intros Hv Hn Hl. unfold SetLength.
  erewrite bind_Ok by (by apply GetData_own). cbv beta iota.
  erewrite bind_Ok by apply put_block_own. apply CopyChars_own; cbn; lia.
Qed.

(** ** Moving an object to another block *)

Definition released (b : nat) (d : CMStringData) (bs : gmap nat CMStringData)
  : gmap nat CMStringData :=
  if 1 <? nRefs d then <[b := with_refs d (nRefs d - 1)]> bs else delete b bs.

Lemma nbstr_release_eq bs ss b d :
  bs !! b = Some d -> nbstr_release b (Heap bs ss) = Ok (tt, Heap (released b d bs) ss).
Proof.
  intros Hb. unfold nbstr_release, released, nbstr_free, drop_block, put_block, get_block, bind.
  cbn. rewrite Hb. cbn. destruct (Z.ltb_spec 1 (nRefs d)) as [Hl|Hl].
  - by rewrite (proj2 (Z.leb_gt _ _)) by lia.
  - rewrite (proj2 (Z.leb_le _ _)) by lia. cbn. by rewrite delete_insert_eq.
Qed.

Lemma released_ne b d bs x : x <> b -> released b d bs !! x = bs !! x.
Proof.
  intros Hx. unfold released.
  destruct (1 <? nRefs d); by rewrite ?lookup_insert_ne, ?lookup_delete_ne.
Qed.

Section reseat.
  Context (bs bs' : gmap nat CMStringData) (ss : gmap nat nat) (v b b' : nat).
  Context (d d' : CMStringData) (cs : list Z).
  Hypothesis Hok : heap_ok (Heap bs ss).
  Hypothesis Hv : ss !! v = Some b.
  Hypothesis Hb : bs !! b = Some d.
  Hypothesis Hne : b <> b'.
  Hypothesis Hb' : bs' !! b' = Some d'.
  Hypothesis Hd' : block_holds d' cs.
  Hypothesis Hr' : refs_ok b' d' (1 + refcount b' (delete v ss)).
  Hypothesis Hold : bs' !! b = released b d bs !! b.
  Hypothesis Hrest : forall x, x <> b -> x <> b' -> bs' !! x = bs !! x.
  Hypothesis Hsame : forall e, bs !! b' = Some e -> forall c, block_holds e c -> block_holds d' c.

Lemma old_refs : refs_ok b d (1 + refcount b (delete v ss)).
Proof using All.
  destruct (heap_blocks _ Hok b d Hb) as [_ H]. cbn in H.
  rewrite (refcount_delete ss v b) in H by done. unfold pointing in H.
  by rewrite decide_True in H.
Qed.

Lemma old_freed u : u <> v -> ss !! u = Some b -> 1 < nRefs d.
Proof using All.
  intros Hu Hub. pose proof old_refs as Hr.
  assert (refcount b (delete v ss) <> 0%nat) as Hn.
  { intros Hz. apply (proj1 (refcount_zero _ _) Hz u). by rewrite lookup_delete_ne. }
  destruct Hr as [H1 H2]. destruct (decide _); lia.
Qed.

Lemma old_kept : 1 < nRefs d -> bs' !! b = Some (with_refs d (nRefs d - 1)).
Proof using All.
  intros H. rewrite Hold. unfold released. rewrite (proj2 (Z.ltb_lt _ _)) by done.
  apply lookup_insert_eq.
Qed.

Lemma old_deleted : ~ 1 < nRefs d -> bs' !! b = None.
Proof using All.
  intros H. rewrite Hold. unfold released. rewrite (proj2 (Z.ltb_ge _ _)) by lia.
  apply lookup_delete_eq.
Qed.

Lemma reseat_refs x e :
  bs' !! x = Some e ->
  (exists c, block_holds e c) /\ refs_ok x e (refcount x (<[v := b']> ss)).
Proof using All.
  intros He. rewrite refcount_insert. unfold pointing.
  destruct (decide (b' = x)) as [<-|Hx].
  { rewrite Hb' in He. simplify_eq. eauto. }
  destruct (decide (x = b)) as [->|Hxb].
  - pose proof old_refs as Hr. destruct (decide (1 < nRefs d)) as [Hs|Hs].
    + rewrite old_kept in He by done. simplify_eq.
      destruct (heap_blocks _ Hok b d Hb) as [[c Hc] _]. split; [by exists c|].
      unfold refs_ok in *. cbn. lia.
    + by rewrite old_deleted in He.
  - rewrite Hrest in He by done.
    destruct (heap_blocks _ Hok x e He) as [Hc Hr]. split; [done|]. cbn in Hr.
    rewrite (refcount_delete ss v b) in Hr by done. unfold pointing in Hr.
    by rewrite decide_False in Hr by done.
Qed.

Lemma reseat_lookup x e c :
  bs !! x = Some e -> block_holds e c -> (x = b -> 1 < nRefs d) ->
  exists e', bs' !! x = Some e' /\ block_holds e' c.
Proof using All.
  intros He Hc Hx. destruct (decide (x = b')) as [->|]; [eauto|].
  destruct (decide (x = b)) as [->|].
  - simplify_eq. exists (with_refs d (nRefs d - 1)). by rewrite old_kept by auto.
  - exists e. by rewrite Hrest.
Qed.

Lemma reseat_ok : heap_ok (Heap bs' (<[v := b']> ss)).
Proof using All.
  split; cbn [h_blocks h_strs].
  - intros u x. destruct (decide (u = v)) as [->|Hu].
    { rewrite lookup_insert_eq. intros [= <-]. eauto. }
    rewrite lookup_insert_ne by done. intros Hux.
    destruct (heap_ptrs _ Hok u x Hux) as [e He].
    destruct (heap_blocks _ Hok x e He) as [[c Hc] _].
    destruct (reseat_lookup x e c He Hc) as (e' & -> & _); [|eauto].
    intros ->. by apply (old_freed u).
  - apply reseat_refs.
  - destruct (heap_nil _ Hok) as (e & He & Hc). apply (reseat_lookup _ e []); [done..|].
    intros E. destruct old_refs as [H1 H2].
    rewrite decide_True in H2 by done. lia.
Qed.

Lemma reseat_holds : holds (Heap bs' (<[v := b']> ss)) v cs.
Proof using All. exists b', d'. cbn. by rewrite lookup_insert_eq. Qed.

Lemma reseat_others : others_keep v (Heap bs ss) (Heap bs' (<[v := b']> ss)).
Proof using All.
  intros u Hu. cbn. rewrite lookup_insert_ne by done. split; [done|].
  intros c. unfold holds. cbn. rewrite lookup_insert_ne by done. split.
  - intros (x & e & H1 & H2 & H3). exists x.
    destruct (reseat_lookup x e c H2 H3) as (e' & H4 & H5); [|eauto].
    intros ->. by apply (old_freed u).
  - intros (x & e' & H1 & H2 & H3). destruct (heap_ptrs _ Hok u x H1) as [e He]. cbn in He.
    exists x, e. split_and!; try done.
    destruct (heap_blocks _ Hok x e He) as [[c0 Hc0] _].
    destruct (reseat_lookup x e c0 He Hc0) as (e2 & H4 & H5).
    { intros ->. by apply (old_freed u). }
    simplify_eq. by rewrite (block_holds_inj _ _ _ H3 H5).
Qed.

End reseat.

(** ** Preparing to write *)

Lemma GetData_at bs ss v b d :
  ss !! v = Some b -> bs !! b = Some d ->
  GetData v (Heap bs ss) = Ok ((b, d), Heap bs ss).
Proof. intros Hv Hb. unfold GetData, get_block, bind. cbn. rewrite Hv. cbn. by rewrite Hb. Qed.

Lemma ReadChars_at bs ss b d off n :
  bs !! b = Some d -> 0 <= off -> 0 <= n -> off + n <= Z.of_nat (length (achData d)) ->
  ReadChars b off n (Heap bs ss) =
    Ok (take (Z.to_nat n) (drop (Z.to_nat off) (achData d)), Heap bs ss).
Proof. intros Hb. rewrite <-(insert_id bs b d Hb). apply ReadChars_own. Qed.

Lemma nbstr_allocate_eq n bs ss :
  0 <= n -> 2 * (n + 1) < 2 ^ 31 ->
  nbstr_allocate n (Heap bs ss) =
    Ok (fresh (dom bs), Heap (<[fresh (dom bs) :=
      MkData 1 0 n (replicate (Z.to_nat (n + 1)) None)]> bs) ss).
Proof.
  intros H1 H2. unfold nbstr_allocate.
  by rewrite (proj2 (Z.leb_gt _ _)), (proj2 (Z.leb_gt _ _)) by lia.
Qed.

Lemma fresh_block (bs : gmap nat CMStringData) : bs !! fresh (dom bs) = None.
Proof. apply not_elem_of_dom. apply is_fresh. Qed.

(** Nothing points to a block that does not exist. *)
Lemma no_pointers h b : heap_ok h -> h_blocks h !! b = None -> refcount b (h_strs h) = 0%nat.
Proof.
  intros Hok Hb. apply refcount_zero. intros v Hv.
  destruct (heap_ptrs h Hok v b Hv) as [d Hd]. congruence.
Qed.

Lemma refcount_delete_le strs v b : (refcount b (delete v strs) <= refcount b strs)%nat.
Proof.
  destruct (strs !! v) as [x|] eqn:E.
  - rewrite (refcount_delete strs v x b E). lia.
  - by rewrite delete_id.
Qed.

(** [v] owns the block [b], which has room for [n] characters and holds [cs];
    the values of all other objects are as before. *)
Definition prepared (h : heap) (v : nat) (cs : list Z) (n : Z) (h' : heap) (b : nat)
    (d : CMStringData) : Prop :=
  exists bs ss, h' = Heap (<[b := d]> bs) ss /\ heap_ok h' /\ ss !! v = Some b /\
    refcount b ss = 1%nat /\ b <> nil_block /\ block_holds d cs /\ n <= nAllocLength d /\
    others_keep v h h'.

Lemma others_keep_refl v h : others_keep v h h.
Proof. done. Qed.

Lemma others_keep_trans v h1 h2 h3 :
  others_keep v h1 h2 -> others_keep v h2 h3 -> others_keep v h1 h3.
Proof.
  intros H1 H2 u Hu. destruct (H1 u Hu) as [E1 F1]. destruct (H2 u Hu) as [E2 F2].
  split; [congruence|]. intros cs. by rewrite F1.
Qed.

(** A block no other object shares is prepared for what it has room for. *)
Lemma prepared_here bs ss v b d cs n :
  heap_ok (Heap bs ss) -> ss !! v = Some b -> bs !! b = Some d -> block_holds d cs ->
  IsShared d = false -> n <= nAllocLength d ->
  prepared (Heap bs ss) v cs n (Heap bs ss) b d.
Proof.
  intros Hok Hv Hb Hd Hs Hn. destruct (heap_ok_value _ v b Hok Hv) as (d1 & c1 & E & _ & Hr & Hpos).
  cbn in E. simplify_eq. destruct (not_shared b d _ Hr Hpos Hs) as [H1 H2].
  exists bs, ss. rewrite (insert_id bs b d) by done. by split_and!.
Qed.

(** Moving [v] to a new block. *)
Lemma prepared_fresh bs ss v b d b' d' bs' cs n :
  heap_ok (Heap bs ss) -> ss !! v = Some b -> bs !! b = Some d -> bs !! b' = None ->
  block_holds d' cs -> nRefs d' = 1 -> n <= nAllocLength d' ->
  bs' = <[b' := d']> (released b d bs) ->
  prepared (Heap bs ss) v cs n (Heap bs' (<[v := b']> ss)) b' d'.
Proof.
  intros Hok Hv Hb Hb' Hd' Hr Hn ->.
  assert (b <> b') as Hne by congruence.
  assert (Hnil : b' <> nil_block).
  { intros ->. destruct (heap_nil _ Hok) as (e & He & _). cbn in He. congruence. }
  assert (Hz : refcount b' (delete v ss) = 0%nat).
  { pose proof (no_pointers _ b' Hok Hb') as Hz. pose proof (refcount_delete_le ss v b').
    cbn in Hz. lia. }
  assert (Hrefs : refs_ok b' d' (1 + refcount b' (delete v ss))).
  { unfold refs_ok. rewrite Hz, Hr, decide_False by done. lia. }
  assert (Hlook : <[b' := d']> (released b d bs) !! b = released b d bs !! b)
    by (by rewrite lookup_insert_ne).
  assert (Hrest : forall x, x <> b -> x <> b' -> <[b' := d']> (released b d bs) !! x = bs !! x).
  { intros x H1 H2. by rewrite lookup_insert_ne, released_ne. }
  assert (Hsame : forall e, bs !! b' = Some e -> forall c, block_holds e c -> block_holds d' c)
    by congruence.
  exists (released b d bs), (<[v := b']> ss). split; [done|].
  split; [by eapply (reseat_ok bs _ ss v b b' d d' cs); try done; apply lookup_insert_eq|].
  split; [apply lookup_insert_eq|].
  split. { rewrite refcount_insert, Hz. unfold pointing. by rewrite decide_True. }
  split; [done|]. split; [done|]. split; [done|].
  by eapply (reseat_others bs _ ss v b b' d d' cs); try done; apply lookup_insert_eq.
Qed.

Lemma Fork_ok bs ss v b d cs n :
  heap_ok (Heap bs ss) -> ss !! v = Some b -> bs !! b = Some d -> block_holds d cs ->
  Z.of_nat (length cs) <= n -> 2 * (n + 1) < 2 ^ 31 ->
  exists h' b' d', Fork v n (Heap bs ss) = Ok (tt, h') /\ prepared (Heap bs ss) v cs n h' b' d'.
Proof.
  intros Hok Hv Hb Hd Hlen Hmax. pose proof Hd as (Hdl & Hal & tail & Hch).
  set (b' := fresh (dom bs)). assert (Hb' : bs !! b' = None) by apply fresh_block.
  assert (Hne : b <> b') by congruence. unfold Fork.
  erewrite bind_Ok by (by apply GetData_at). cbv beta iota.
  erewrite bind_Ok by (apply nbstr_allocate_eq; lia). fold b'.
  assert (Hcopy : (if nDataLength d <? n then nDataLength d else n) + 1 =
                  Z.of_nat (length cs) + 1).
  { rewrite Hdl. destruct (Z.ltb_spec (Z.of_nat (length cs)) n); lia. }
  rewrite Hcopy.
  erewrite bind_Ok; [|apply (ReadChars_at _ _ b d); [by rewrite lookup_insert_ne|lia|lia|]].
  2:{ rewrite Hch, length_app, length_fmap. cbn. lia. }
  assert (Hread : take (Z.to_nat (Z.of_nat (length cs) + 1)) (drop (Z.to_nat 0) (achData d)) =
                  (Some <$> cs) ++ [Some 0]).
  { change (Z.to_nat 0) with O. rewrite drop_0, Hch. rewrite (cons_middle _ (Some <$> cs)).
    rewrite app_assoc. apply take_app_length'. rewrite length_app, length_fmap. cbn. lia. }
  rewrite Hread.
  erewrite bind_Ok; [|apply CopyChars_own; [lia|]].
  2:{ cbn [achData]. rewrite length_app, length_fmap, length_replicate. cbn. lia. }
  erewrite bind_Ok by apply get_block_own.
  erewrite bind_Ok by apply put_block_own. cbn [nRefs nDataLength nAllocLength achData].
  erewrite bind_Ok by (apply nbstr_release_eq; by rewrite lookup_insert_ne).
  unfold Attach. cbn [h_blocks h_strs].
  set (chars := take _ _ ++ _).
  eexists _, b', (MkData 1 (nDataLength d) n chars). split; [done|].
  assert (Hchars : chars = (Some <$> cs) ++ Some 0 ::
            drop (length cs + 1) (replicate (Z.to_nat (n + 1)) None)).
  { unfold chars. change (Z.to_nat 0) with O. rewrite take_0. cbn [app].
    rewrite <-app_assoc. cbn [app]. do 2 f_equal. rewrite length_app, length_fmap. done. }
  apply (prepared_fresh bs ss v b d); try done.
  - split; [done|]. cbn [achData nAllocLength]. split; [|eauto].
    rewrite Hchars, length_app, length_fmap. cbn [length].
    rewrite length_drop, length_replicate. lia.
  - unfold released. destruct (1 <? nRefs d).
    + by rewrite insert_insert_ne.
    + by rewrite delete_insert_ne.
Qed.

Lemma Reallocate_ok bs ss v b d cs n :
  heap_ok (Heap bs ss) -> ss !! v = Some b -> bs !! b = Some d -> block_holds d cs ->
  IsShared d = false -> nAllocLength d < n -> 2 * (n + 1) < 2 ^ 31 ->
  exists h' b' d', Reallocate v n (Heap bs ss) = Ok (tt, h') /\
    prepared (Heap bs ss) v cs n h' b' d'.
Proof.
  intros Hok Hv Hb Hd Hs Hn Hmax. pose proof Hd as (Hdl & Hal & tail & Hch).
  assert (0 <= nAllocLength d).
  { rewrite Hch, length_app in Hal. cbn in Hal. lia. }
  unfold Reallocate. erewrite bind_Ok by (by apply GetData_at). cbv beta iota.
  rewrite (proj2 (Z.leb_gt n _)), (proj2 (Z.leb_gt n 0)) by lia. cbn [orb].
  unfold nbstr_realloc, Attach, bind.
  rewrite (proj2 (Z.leb_gt _ 0)), (proj2 (Z.leb_gt (2 ^ 31) _)) by lia. cbn. rewrite Hb. cbn.
  set (b' := fresh (dom bs)). assert (Hb' : bs !! b' = None) by apply fresh_block.
  set (chars := take _ _ ++ _). eexists _, b', (MkData (nRefs d) (nDataLength d) n chars).
  split; [done|]. apply (prepared_fresh bs ss v b d); try done.
  - split; [done|]. cbn [achData nAllocLength]. unfold chars. split.
    + rewrite length_app, length_take, length_replicate. lia.
    + rewrite take_ge by lia. rewrite Hch, <-app_assoc. eauto.
  - cbn. destruct (heap_ok_value _ v b Hok Hv) as (d1 & c1 & E & _ & Hr & Hpos).
    cbn in E. simplify_eq. destruct Hr as [H1 _].
    unfold IsShared in Hs. apply Z.ltb_ge in Hs. lia.
  - unfold released, IsShared in *. by rewrite Hs.
Qed.

(** Sizes up to which the size computations stay within [int]. *)
Definition small (n : Z) : Prop := 0 <= n <= 2 ^ 28.

Lemma PrepareWrite2_ok bs ss v b d cs n :
  heap_ok (Heap bs ss) -> ss !! v = Some b -> bs !! b = Some d -> block_holds d cs ->
  small (Z.of_nat (length cs)) -> small n ->
  exists h' b' d', PrepareWrite2 v n (Heap bs ss) = Ok (tt, h') /\
    prepared (Heap bs ss) v cs n h' b' d'.
Proof.
  unfold small. intros Hok Hv Hb Hd Hc Hn. pose proof Hd as (Hdl & Hal & _).
  unfold PrepareWrite2. erewrite bind_Ok by (by apply GetData_at). cbv beta iota.
  set (m := if n <? nDataLength d then nDataLength d else n).
  assert (Hm : n <= m <= 2 ^ 28 /\ nDataLength d <= m)
    by (unfold m; destruct (Z.ltb_spec n (nDataLength d)); lia).
  clearbody m. assert (Hweak : forall h' b' d', prepared (Heap bs ss) v cs m h' b' d' ->
                          prepared (Heap bs ss) v cs n h' b' d').
  { intros h' b' d' (bs' & ss' & H). exists bs', ss'. naive_solver lia. }
  destruct (IsShared d) eqn:Hs.
  - destruct (Fork_ok bs ss v b d cs m) as (h' & b' & d' & HF & HP); [done..|lia|lia|]. eauto 6.
  - destruct (Z.ltb_spec (nAllocLength d) m) as [Hlt|Hge].
    + set (k := if _ <? m then m else _).
      assert (Hk : m <= k < 2 ^ 30 - 1 /\ nAllocLength d < k).
      { unfold k. destruct (Z.ltb_spec 1024 (nAllocLength d));
        match goal with |- context [if ?a <? m then _ else _] =>
          destruct (Z.ltb_spec a m) end; lia. }
      clearbody k.
      destruct (Reallocate_ok bs ss v b d cs k) as (h' & b' & d' & HF & HP);
        [done..|lia|lia|]. exists h', b', d'. split; [done|].
      apply Hweak. destruct HP as (bs' & ss' & H). exists bs', ss'. naive_solver lia.
    + exists (Heap bs ss), b, d. split; [done|]. apply Hweak. by apply prepared_here.
Qed.

Lemma PrepareWrite_ok h v cs n :
  heap_ok h -> holds h v cs -> small (Z.of_nat (length cs)) -> small n ->
  exists h' b' d', PrepareWrite v n h = Ok (b', h') /\ prepared h v cs n h' b' d'.
Proof.
  intros Hok (b & d & Hv & Hb & Hd) Hc Hn. destruct h as [bs ss]. cbn in *.
  unfold PrepareWrite. erewrite bind_Ok by (by apply GetData_at). cbv beta iota.
  enough (exists h' b' d', (if (1 - nRefs d <? 0) || (nAllocLength d - n <? 0)
      then PrepareWrite2 v n else ret tt) (Heap bs ss) = Ok (tt, h') /\
      prepared (Heap bs ss) v cs n h' b' d') as (h' & b' & d' & HP & Hprep).
  { exists h', b', d'. erewrite bind_Ok by exact HP.
    split; [|done]. destruct Hprep as (bs' & ss' & -> & _ & Hv' & _).
    by erewrite bind_Ok by (by apply GetData_own). }
  destruct ((1 - nRefs d <? 0) || (nAllocLength d - n <? 0)) eqn:E.
  - by apply (PrepareWrite2_ok bs ss v b d).
  - apply orb_false_iff in E as [E1%Z.ltb_ge E2%Z.ltb_ge].
    exists (Heap bs ss), b, d. split; [done|]. apply prepared_here; try done; [|lia].
    unfold IsShared. apply Z.ltb_ge. lia.
Qed.

Lemma GetBuffer_ok h v cs :
  heap_ok h -> holds h v cs -> small (Z.of_nat (length cs)) ->
  exists h' b' d', GetBuffer v h = Ok (b', h') /\
    prepared h v cs (Z.of_nat (length cs)) h' b' d'.
Proof.
  unfold small. intros Hok (b & d & Hv & Hb & Hd) Hc. destruct h as [bs ss]. cbn in *.
  pose proof Hd as (Hdl & Hal & tail & Hch).
  unfold GetBuffer. erewrite bind_Ok by (by apply GetData_at). cbv beta iota.
  enough (exists h' b' d', (if IsShared d then Fork v (nDataLength d) else ret tt)
      (Heap bs ss) = Ok (tt, h') /\
      prepared (Heap bs ss) v cs (Z.of_nat (length cs)) h' b' d') as (h' & b' & d' & HP & Hprep).
  { exists h', b', d'. erewrite bind_Ok by exact HP.
    split; [|done]. destruct Hprep as (bs' & ss' & -> & _ & Hv' & _).
    by erewrite bind_Ok by (by apply GetData_own). }
  rewrite Hdl. destruct (IsShared d) eqn:Hs.
  - apply (Fork_ok bs ss v b d); (done || lia).
  - exists (Heap bs ss), b, d. split; [done|]. apply prepared_here; try done.
    rewrite Hch, length_app, length_fmap in Hal. cbn in Hal. lia.
Qed.
