(* ===== verification/CmStringOps.v ===== *)
(** * The operations on copy-on-write strings

    What each operation of [CMStringT] does to the value of its string, and that
    no other string is affected.  The theorems are in CmStringSpec. *)

From stdpp Require Import gmap.
From S2P Require Import Prelude Strbuf CmString.
Local Open Scope cmodel_scope.
Local Open Scope Z_scope.

(** [m] succeeds from [h], sets the value of [v] to [cs] and changes no other
    object. *)
Definition updates {A} (m : M A) (h : heap) (v : nat) (cs : list Z) : Prop :=
  exists a h', m h = Ok (a, h') /\ heap_ok h' /\ holds h' v cs /\ others_keep v h h'.

(** ** The characters of a block *)

Section chars.
  Context (d : CMStringData) (cs : list Z).
  Hypothesis Hd : block_holds d cs.

Lemma take_chars k : (k <= length cs)%nat -> take k (achData d) = Some <$> take k cs.
Proof using Hd.
  destruct Hd as (_ & _ & tail & ->). intros Hk.
  rewrite take_app_le by (by rewrite length_fmap). by rewrite fmap_take.
Qed.

Lemma drop_chars k :
  (k <= length cs)%nat ->
  exists tail, drop k (achData d) = (Some <$> drop k cs) ++ Some 0 :: tail.
Proof using Hd.
  destruct Hd as (_ & _ & tail & ->). intros Hk. exists tail.
  rewrite drop_app_le by (by rewrite length_fmap). by rewrite fmap_drop.
Qed.

Lemma read_chars k n :
  (k + n <= length cs)%nat -> take n (drop k (achData d)) = Some <$> take n (drop k cs).
Proof using Hd.
  intros Hk. destruct (drop_chars k) as (tail & ->); [lia|].
  rewrite take_app_le by (rewrite length_fmap, length_drop; lia). by rewrite fmap_take.
Qed.

Lemma read_to_end k :
  (k <= length cs)%nat ->
  take (length cs - k + 1) (drop k (achData d)) = (Some <$> drop k cs) ++ [Some 0].
Proof using Hd.
  intros Hk. destruct (drop_chars k) as (tail & ->); [lia|].
  rewrite cons_middle, app_assoc. apply take_app_length'.
  rewrite length_app, length_fmap, length_drop. cbn. lia.
Qed.

Lemma alloc_ge : Z.of_nat (length cs) <= nAllocLength d.
Proof using Hd.
  destruct Hd as (_ & Hal & tail & E). rewrite E, length_app, length_fmap in Hal.
  cbn in Hal. lia.
Qed.

End chars.

Lemma length_write (X src : memory) off :
  (off + length src <= length X)%nat ->
  length (take off X ++ src ++ drop (off + length src) X) = length X.
Proof. intros. rewrite !length_app, length_take, length_drop. lia. Qed.

(** ** Finishing a write *)

(** After characters were written into the block [b] of [v], setting the length
    makes the string what the characters say. *)
Lemma finish_write h v bs ss b d r l X cs' :
  heap_ok (Heap (<[b := d]> bs) ss) -> ss !! v = Some b -> refcount b ss = 1%nat ->
  b <> nil_block -> others_keep v h (Heap (<[b := d]> bs) ss) ->
  r = nRefs d -> Z.of_nat (length X) = nAllocLength d + 1 ->
  Z.of_nat (length cs') <= nAllocLength d -> take (length cs') X = Some <$> cs' ->
  exists h', SetLength v (Z.of_nat (length cs'))
               (Heap (<[b := MkData r l (nAllocLength d) X]> bs) ss) = Ok (tt, h') /\
    heap_ok h' /\ holds h' v cs' /\ others_keep v h h'.
Proof.
  intros Hok Hv Hown Hnil Hkeep -> Hl Hc Ht.
  rewrite SetLength_own by (done || cbn; lia). cbn [achData nRefs nAllocLength].
  rewrite Nat2Z.id.
  destruct (own_write bs ss v b d Hok Hv Hown Hnil
              (MkData (nRefs d) (Z.of_nat (length cs')) (nAllocLength d)
                 (take (length cs') X ++ [Some 0] ++ drop (length cs' + 1) X)) cs')
    as (H1 & H2 & H3); [done| |].
  - split; [done|]. cbn [achData nAllocLength]. split.
    + rewrite (length_write X [Some 0]); [done|]. cbn. lia.
    + exists (drop (length cs' + 1) X). by rewrite Ht.
  - eexists. split; [done|]. split_and!; [done|done|]. by eapply others_keep_trans.
Qed.

Lemma defined_ok (l : list Z) h : defined (Some <$> l) h = Ok (l, h).
Proof.
  unfold defined. assert (mapM id (Some <$> l) = Some l) as ->; [|done].
  induction l as [|x l IH]; [done|]. cbn. by rewrite IH.
Qed.

Lemma holds_block h v b d cs :
  h_strs h !! v = Some b -> h_blocks h !! b = Some d -> holds h v cs -> block_holds d cs.
Proof. intros Hv Hb (b' & d' & Hv' & Hb' & H). congruence. Qed.

Lemma int_add_ok a b h :
  - 2 ^ 31 <= a + b < 2 ^ 31 -> int_add a b h = Ok (a + b, h).
Proof.
  intros H. unfold int_add. by rewrite (proj2 (Z.leb_le _ _)), (proj2 (Z.ltb_lt _ _)) by lia.
Qed.

Section ops.
  Context (h : heap) (v : nat) (cs : list Z).
  Hypothesis Hok : heap_ok h.
  Hypothesis Hcs : holds h v cs.
  Hypothesis Hsmall : small (Z.of_nat (length cs)).

Lemma AppendChar_ok ch :
  small (Z.of_nat (length cs) + 1) -> updates (AppendChar v ch) h v (cs ++ [ch]).
Proof using All.
  intros Hn. destruct (PrepareWrite_ok h v cs (Z.of_nat (length cs) + 1) Hok Hcs Hsmall Hn)
    as (h' & b & d & HP & bs & ss & -> & Hok' & Hv & Hown & Hnil & Hd & Hroom & Hkeep).
  unfold updates, AppendChar. destruct Hcs as (b0 & d0 & Hv0 & Hb0 & Hd0).
  destruct h as [bs0 ss0]. cbn in Hv0, Hb0.
  erewrite bind_Ok by (by apply GetData_at). cbv beta iota.
  pose proof Hd0 as (-> & _). unfold small in *.
  erewrite bind_Ok by (apply int_add_ok; lia). erewrite bind_Ok by exact HP.
  pose proof Hd as (_ & Hal & _).
  erewrite bind_Ok by (apply CopyChars_own; cbn; lia). rewrite Nat2Z.id.
  replace (Z.of_nat (length cs) + 1) with (Z.of_nat (length (cs ++ [ch])))
    by (rewrite length_app; cbn; lia).
  destruct (finish_write (Heap bs0 ss0) v bs ss b d (nRefs d) (nDataLength d)
    (take (length cs) (achData d) ++ [Some ch] ++ drop (length cs + 1) (achData d))
    (cs ++ [ch])) as (h2 & HS & H); try done.
  - rewrite (length_write _ [Some ch]) by (cbn; lia). done.
  - rewrite length_app. cbn. lia.
  - rewrite (take_chars d cs Hd), (take_ge cs) by lia.
    rewrite app_assoc, fmap_app. apply take_app_length'. by rewrite !length_app, !length_fmap.
  - eauto.
Qed.

Lemma Truncate_ok n :
  0 <= n <= Z.of_nat (length cs) -> updates (Truncate v n) h v (take (Z.to_nat n) cs).
Proof using All.
  intros Hn. destruct (PrepareWrite_ok h v cs n Hok Hcs Hsmall)
    as (h' & b & d & HP & bs & ss & -> & Hok' & Hv & Hown & Hnil & Hd & Hroom & Hkeep).
  { unfold small in *. lia. }
  unfold updates, Truncate. erewrite bind_Ok by exact HP.
  pose proof Hd as (_ & Hal & _). pose proof (alloc_ge d cs Hd) as Hge.
  destruct (finish_write h v bs ss b d (nRefs d) (nDataLength d) (achData d)
              (take (Z.to_nat n) cs)) as (h2 & HS & H); try done.
  - rewrite length_take. lia.
  - rewrite length_take, Nat.min_l by lia. rewrite (take_chars d cs Hd) by lia. done.
  - exists tt, h2. split; [|done]. rewrite <-HS. destruct d. f_equal. rewrite length_take. lia.
Qed.

Lemma SetAt_ok i ch :
  0 <= i < Z.of_nat (length cs) -> updates (SetAt v i ch) h v (<[Z.to_nat i := ch]> cs).
Proof using All.
  intros Hi. destruct (GetBuffer_ok h v cs Hok Hcs Hsmall)
    as (h' & b & d & HP & bs & ss & -> & Hok' & Hv & Hown & Hnil & Hd & Hroom & Hkeep).
  unfold updates, SetAt. destruct Hcs as (b0 & d0 & Hv0 & Hb0 & Hd0).
  destruct h as [bs0 ss0]. cbn in Hv0, Hb0.
  erewrite bind_Ok by (by apply GetData_at). cbv beta iota.
  erewrite bind_Ok by exact HP. pose proof Hd0 as (-> & _). pose proof Hd as (_ & Hal & _).
  erewrite bind_Ok by (apply CopyChars_own; cbn; lia).
  rewrite <-(length_insert cs (Z.to_nat i) ch).
  destruct (finish_write (Heap bs0 ss0) v bs ss b d (nRefs d) (nDataLength d)
    (take (Z.to_nat i) (achData d) ++ [Some ch] ++ drop (Z.to_nat i + 1) (achData d))
    (<[Z.to_nat i := ch]> cs)) as (h2 & HS & H); try done.
  - rewrite (length_write _ [Some ch]) by (cbn; lia). done.
  - by rewrite length_insert.
  - rewrite length_insert. rewrite (take_chars d cs Hd) by lia.
    destruct (drop_chars d cs Hd (Z.to_nat i + 1)) as (tail & ->); [lia|].
    rewrite insert_take_drop by lia. rewrite !fmap_app, !fmap_cons. cbn [app].
    replace (S (Z.to_nat i)) with (Z.to_nat i + 1)%nat by lia.
    rewrite !app_comm_cons, app_assoc. apply take_app_length'.
    rewrite length_app. cbn [length]. rewrite !length_fmap, length_take, length_drop. lia.
  - eauto.
Qed.

Lemma Delete_ok i n :
  Z.max 0 n + Z.max 0 i < 2 ^ 31 ->
  updates (Delete v i n) h v
    (take (Z.to_nat i) cs ++ drop (Z.to_nat i + Z.to_nat n) cs).
Proof using All.
  intros Hsum. unfold updates, Delete. pose proof Hcs as (b0 & d0 & Hv0 & Hb0 & Hd0).
  destruct h as [bs0 ss0]. cbn in Hv0, Hb0.
  erewrite bind_Ok by (by apply GetData_at). cbv beta iota.
  set (i0 := if i <? 0 then 0 else i). set (n0 := if n <? 0 then 0 else n).
  assert (Hi0 : i0 = Z.max 0 i) by (unfold i0; destruct (Z.ltb_spec i 0); lia).
  assert (Hn0 : n0 = Z.max 0 n) by (unfold n0; destruct (Z.ltb_spec n 0); lia).
  clearbody i0 n0. erewrite bind_Ok by (apply int_add_ok; lia).
  pose proof Hd0 as (Hdl & _). rewrite Hdl.
  set (n1 := if _ <? n0 + i0 then _ else _).
  assert (Hn1 : n1 = Z.min n0 (Z.of_nat (length cs) - i0)).
  { unfold n1. destruct (Z.ltb_spec (Z.of_nat (length cs)) (n0 + i0)); lia. }
  clearbody n1. destruct (Z.ltb_spec 0 n1) as [Hpos|Hz].
  2:{ erewrite bind_Ok by reflexivity. erewrite bind_Ok by (by apply GetData_at).
      eexists _, (Heap bs0 ss0). split; [done|]. split; [done|]. split; [|done].
      replace (take _ _ ++ drop _ _) with cs; [done|].
      destruct (decide (i0 < Z.of_nat (length cs))) as [Hle|Hgt].
      - replace (Z.to_nat i + Z.to_nat n)%nat with (Z.to_nat i) by lia. by rewrite take_drop.
      - by rewrite take_ge, drop_ge, app_nil_r by lia. }
  destruct (GetBuffer_ok (Heap bs0 ss0) v cs Hok Hcs Hsmall)
    as (h' & b & d & HP & bs & ss & -> & Hok' & Hv & Hown & Hnil & Hd & Hroom & Hkeep).
  pose proof Hd as (_ & Hal & _).
  set (cs' := take (Z.to_nat i0) cs ++ drop (Z.to_nat (i0 + n1)) cs).
  assert (Hcs' : length cs' = Z.to_nat (Z.of_nat (length cs) - n1)).
  { unfold cs'. rewrite length_app, length_take, length_drop. lia. }
  assert (Hread : take (Z.to_nat (Z.of_nat (length cs) - (i0 + n1) + 1))
                    (drop (Z.to_nat (i0 + n1)) (achData d)) =
                  (Some <$> drop (Z.to_nat (i0 + n1)) cs) ++ [Some 0]).
  { rewrite <-(read_to_end d cs Hd) by lia. f_equal. lia. }
  set (src := (Some <$> drop (Z.to_nat (i0 + n1)) cs) ++ [Some 0]) in *.
  assert (Hsrc : length src = (length cs - Z.to_nat (i0 + n1) + 1)%nat).
  { unfold src. rewrite length_app, length_fmap, length_drop. done. }
  destruct (finish_write (Heap bs0 ss0) v bs ss b d (nRefs d) (nDataLength d)
    (take (Z.to_nat i0) (achData d) ++ src ++ drop (Z.to_nat i0 + length src) (achData d))
    cs') as (h2 & HS & H); try done.
  - rewrite length_write by lia. done.
  - lia.
  - unfold src, cs'. rewrite (take_chars d cs Hd), fmap_app, <-app_assoc by lia.
    rewrite app_assoc. apply take_app_length'.
    rewrite !length_app, !length_fmap. done.
  - destruct H as (Hok2 & Hh2 & Hk2). pose proof Hh2 as (b2 & d2 & Hv2 & Hb2 & Hd2).
    destruct h2 as [bs2 ss2]. cbn in Hv2, Hb2.
    exists (nDataLength d2), (Heap bs2 ss2). split.
    + erewrite (bind_Ok _ _ _ tt (Heap bs2 ss2)).
      { erewrite bind_Ok by (by apply GetData_at). done. }
      erewrite bind_Ok by exact HP.
      erewrite bind_Ok by (apply ReadChars_own; lia). rewrite Hread.
      erewrite bind_Ok by (apply CopyChars_own; lia).
      rewrite <-HS. f_equal. lia.
    + split; [done|]. split; [|done].
      replace (take (Z.to_nat i) cs ++ drop (Z.to_nat i + Z.to_nat n) cs) with cs'; [done|].
      unfold cs'. replace (Z.to_nat i0) with (Z.to_nat i) by lia. f_equal.
      destruct (decide (n0 <= Z.of_nat (length cs) - i0)); [f_equal; lia|].
      by rewrite !drop_ge by lia.
Qed.

End ops.

(** ** Writing one run of characters *)

Lemma write_finish h v cs n h' b d off src cs' :
  prepared h v cs n h' b d -> 0 <= off ->
  off + Z.of_nat (length src) <= nAllocLength d + 1 ->
  Z.of_nat (length cs') <= nAllocLength d ->
  take (length cs') (take (Z.to_nat off) (achData d) ++ src ++
                     drop (Z.to_nat off + length src) (achData d)) = Some <$> cs' ->
  exists h2, (CopyChars b off src ;* SetLength v (Z.of_nat (length cs'))) h' = Ok (tt, h2) /\
    heap_ok h2 /\ holds h2 v cs' /\ others_keep v h h2.
Proof.
  intros (bs & ss & -> & Hok' & Hv & Hown & Hnil & Hd & _ & Hkeep) Ho Hs Hc Ht.
  pose proof Hd as (_ & Hal & _).
  erewrite bind_Ok by (apply CopyChars_own; lia).
  apply (finish_write h v bs ss b d); try done. rewrite length_write by lia. done.
Qed.

(** ** Sharing a block *)

(** Moving [v] to the block of another object, or to the empty string's. *)
Lemma share_block bs ss v b d b' d0 cs :
  heap_ok (Heap bs ss) -> ss !! v = Some b -> bs !! b = Some d -> b <> b' ->
  bs !! b' = Some d0 -> block_holds d0 cs ->
  let h' := Heap (<[b' := with_refs d0 (nRefs d0 + 1)]> (released b d bs)) (<[v := b']> ss) in
  heap_ok h' /\ holds h' v cs /\ others_keep v (Heap bs ss) h'.
Proof.
  intros Hok Hv Hb Hne Hb' Hd0. cbn zeta.
  set (bs' := <[b' := _]> _).
  assert (H1 : bs' !! b' = Some (with_refs d0 (nRefs d0 + 1))) by apply lookup_insert_eq.
  assert (H2 : block_holds (with_refs d0 (nRefs d0 + 1)) cs) by exact Hd0.
  assert (H3 : refs_ok b' (with_refs d0 (nRefs d0 + 1)) (1 + refcount b' (delete v ss))).
  { destruct (heap_blocks _ Hok b' d0 Hb') as [_ [Hr1 Hr2]]. cbn in Hr2.
    rewrite (refcount_delete ss v b) in Hr2 by done. unfold pointing in Hr2.
    rewrite decide_False in Hr2 by done. unfold refs_ok. cbn [nRefs with_refs]. lia. }
  assert (H4 : bs' !! b = released b d bs !! b) by (unfold bs'; by rewrite lookup_insert_ne).
  assert (H5 : forall x, x <> b -> x <> b' -> bs' !! x = bs !! x).
  { intros x Hx Hx'. unfold bs'. by rewrite lookup_insert_ne, released_ne. }
  assert (H6 : forall e, bs !! b' = Some e -> forall c, block_holds e c ->
                 block_holds (with_refs d0 (nRefs d0 + 1)) c).
  { intros e He c Hc. by simplify_eq. }
  clearbody bs'. split_and!.
  - by eapply (reseat_ok bs bs' ss v b b').
  - by eapply reseat_holds.
  - by eapply (reseat_others bs bs' ss v b b').
Qed.

(** A new object in a block that exists. *)
Lemma new_sharer bs ss r b' d0 cs :
  heap_ok (Heap bs ss) -> ss !! r = None -> bs !! b' = Some d0 -> block_holds d0 cs ->
  let h' := Heap (<[b' := with_refs d0 (nRefs d0 + 1)]> bs) (<[r := b']> ss) in
  heap_ok h' /\ holds h' r cs /\ others_keep r (Heap bs ss) h'.
Proof.
  intros Hok Hr Hb' Hd0. cbn zeta.
  assert (Hcount : forall x, refcount x (<[r := b']> ss) = (pointing x b' + refcount x ss)%nat).
  { intros x. by rewrite refcount_insert, delete_id. }
  split; [split|split]; cbn [h_blocks h_strs].
  - intros u x Hu. destruct (decide (x = b')) as [->|]; [by rewrite lookup_insert_eq|].
    rewrite lookup_insert_ne by done. apply (heap_ptrs _ Hok u). cbn.
    destruct (decide (u = r)) as [->|]; [by rewrite lookup_insert_eq in Hu; simplify_eq|].
    by rewrite lookup_insert_ne in Hu.
  - intros x e He. rewrite Hcount. unfold pointing.
    destruct (decide (b' = x)) as [<-|Hx].
    + rewrite lookup_insert_eq in He. simplify_eq. split; [by exists cs|].
      destruct (heap_blocks _ Hok b' d0 Hb') as [_ [H1 H2]]. unfold refs_ok. cbn in *. lia.
    + rewrite lookup_insert_ne in He by done. by apply (heap_blocks _ Hok x e).
  - destruct (heap_nil _ Hok) as (e & He & Hc). cbn in He.
    destruct (decide (b' = nil_block)) as [->|]; [|by exists e; rewrite lookup_insert_ne].
    exists (with_refs d0 (nRefs d0 + 1)). rewrite lookup_insert_eq. by simplify_eq.
  - exists b', (with_refs d0 (nRefs d0 + 1)). cbn. by rewrite !lookup_insert_eq.
  - intros u Hu. cbn. rewrite lookup_insert_ne by done. split; [done|].
    intros c. unfold holds. cbn. rewrite lookup_insert_ne by done.
    split; intros (x & e & H1 & H2 & H3); exists x.
    + destruct (decide (x = b')) as [->|]; [|exists e; by rewrite lookup_insert_ne].
      exists (with_refs d0 (nRefs d0 + 1)). rewrite lookup_insert_eq. by simplify_eq.
    + destruct (decide (x = b')) as [->|].
      * exists d0. rewrite lookup_insert_eq in H2. by simplify_eq.
      * exists e. by rewrite lookup_insert_ne in H2.
Qed.

(** A new object in a new block. *)
Lemma new_owner bs ss r b' d' cs :
  heap_ok (Heap bs ss) -> ss !! r = None -> bs !! b' = None -> nRefs d' = 1 ->
  block_holds d' cs ->
  let h' := Heap (<[b' := d']> bs) (<[r := b']> ss) in
  heap_ok h' /\ holds h' r cs /\ others_keep r (Heap bs ss) h'.
Proof.
  intros Hok Hr Hb' Hd1 Hd'. cbn zeta.
  pose proof (no_pointers _ b' Hok Hb') as Hz. cbn in Hz.
  assert (Hcount : forall x, refcount x (<[r := b']> ss) = (pointing x b' + refcount x ss)%nat).
  { intros x. by rewrite refcount_insert, delete_id. }
  destruct (heap_nil _ Hok) as (e0 & He0 & Hc0). cbn in He0.
  assert (Hnil : b' <> nil_block) by congruence.
  split; [split|split]; cbn [h_blocks h_strs].
  - intros u x Hu. destruct (decide (x = b')) as [->|]; [by rewrite lookup_insert_eq|].
    rewrite lookup_insert_ne by done. apply (heap_ptrs _ Hok u). cbn.
    destruct (decide (u = r)) as [->|]; [by rewrite lookup_insert_eq in Hu; simplify_eq|].
    by rewrite lookup_insert_ne in Hu.
  - intros x e He. rewrite Hcount. unfold pointing.
    destruct (decide (b' = x)) as [<-|Hx].
    + rewrite lookup_insert_eq in He. simplify_eq. split; [by exists cs|].
      unfold refs_ok. rewrite Hz, decide_False by done. cbn. lia.
    + rewrite lookup_insert_ne in He by done. by apply (heap_blocks _ Hok x e).
  - exists e0. by rewrite lookup_insert_ne.
  - exists b', d'. cbn. by rewrite !lookup_insert_eq.
  - intros u Hu. cbn. rewrite lookup_insert_ne by done. split; [done|].
    intros c. unfold holds. cbn. rewrite lookup_insert_ne by done.
    split; intros (x & e & H1 & H2 & H3); exists x, e;
      (assert (x <> b') by (intros ->; by apply (proj1 (refcount_zero ss b') Hz u)));
      rewrite lookup_insert_ne in * by done; done.
Qed.

(** ** Constructors, destructor, assignment *)

Lemma AddRef_eq bs ss b d :
  bs !! b = Some d ->
  AddRef b (Heap bs ss) = Ok (tt, Heap (<[b := with_refs d (nRefs d + 1)]> bs) ss).
Proof. intros Hb. unfold AddRef, get_block, put_block, bind. cbn. by rewrite Hb. Qed.

Lemma unlocked h b d : heap_ok h -> h_blocks h !! b = Some d -> IsLocked d = false.
Proof.
  intros Hok Hb. destruct (heap_blocks _ Hok b d Hb) as [_ [Hr _]]. unfold IsLocked.
  apply Z.ltb_ge. lia.
Qed.

Lemma ctor_nil_ok h r : heap_ok h -> h_strs h !! r = None -> updates (ctor_nil r) h r [].
Proof.
  intros Hok Hr. destruct h as [bs ss]. destruct (heap_nil _ Hok) as (d & Hb & Hd). cbn in *.
  exists tt. eexists. split; [|by eapply (new_sharer bs ss r nil_block d)].
  unfold ctor_nil, nbstr_getNil. unfold bind at 1. erewrite bind_Ok by (by apply AddRef_eq). done.
Qed.

Lemma ctor_copy_ok h r src cs :
  heap_ok h -> h_strs h !! r = None -> holds h src cs -> updates (ctor_copy r src) h r cs.
Proof.
  intros Hok Hr (b & d & Hv & Hb & Hd). destruct h as [bs ss]. cbn in *.
  exists tt. eexists. split; [|by eapply (new_sharer bs ss r b d)].
  unfold ctor_copy. erewrite bind_Ok by (by apply GetData_at). cbv beta iota.
  unfold CloneData, get_block, bind at 1 2. cbn. rewrite Hb.
  erewrite (unlocked (Heap bs ss)) by done.
  erewrite bind_Ok by (by apply AddRef_eq). done.
Qed.

Lemma ctor_chars_ok h r l :
  heap_ok h -> h_strs h !! r = None -> small (Z.of_nat (length l)) ->
  updates (ctor_chars r l) h r l.
Proof.
  intros Hok Hr Hl. destruct h as [bs ss]. cbn in Hr. unfold small in Hl.
  set (b := fresh (dom bs)). assert (Hb : bs !! b = None) by apply fresh_block.
  exists tt, (Heap (<[b := MkData 1 (Z.of_nat (length l)) (Z.of_nat (length l))
                             ((Some <$> l) ++ [Some 0])]> bs) (<[r := b]> ss)).
  split.
  - unfold ctor_chars. erewrite bind_Ok by (apply nbstr_allocate_eq; lia). fold b.
    erewrite bind_Ok by reflexivity. cbn [h_blocks h_strs].
    erewrite bind_Ok; [|apply SetLength_own; [apply lookup_insert_eq|lia|]].
    2:{ cbn [achData]. rewrite length_replicate. lia. }
    rewrite CopyChars_own; [|lia|].
    2:{ cbn [achData]. rewrite !length_app, length_take, length_drop, length_replicate, length_fmap.
        cbn [length]. lia. }
    cbn [nRefs nDataLength nAllocLength achData]. do 5 f_equal.
    change (Z.to_nat 0) with O. rewrite take_0. cbn [app Nat.add]. f_equal.
    rewrite length_fmap, Nat2Z.id. rewrite take_replicate, drop_replicate.
    rewrite drop_app_ge by (rewrite length_replicate; lia). rewrite length_replicate.
    replace (length l - _)%nat with O by lia. rewrite drop_0.
    replace (Z.to_nat _ - _)%nat with O by lia. done.
  - apply (new_owner bs ss r b); try done.
    split; [done|]. cbn [achData nAllocLength]. rewrite length_app, length_fmap. cbn [length].
    split; [lia|]. by exists [].
Qed.

Lemma operator_assign_ok h v src cs cs0 :
  heap_ok h -> holds h v cs0 -> holds h src cs -> updates (operator_assign v src) h v cs.
Proof.
  intros Hok (b & d & Hv & Hb & Hd) (bsrc & dsrc & Hvs & Hbs & Hds). destruct h as [bs ss]. cbn in *.
  unfold updates, operator_assign. erewrite bind_Ok by (by apply GetData_at). cbv beta iota.
  erewrite bind_Ok by (by apply GetData_at). cbv beta iota.
  destruct (decide (bsrc = b)) as [->|Hne].
  { simplify_eq. exists tt, (Heap bs ss). split; [done|]. split; [done|]. split; [|done].
    exists b, d. done. }
  erewrite (unlocked (Heap bs ss)) by done.
  unfold CloneData, get_block, bind at 1 2. cbn. rewrite Hbs.
  erewrite (unlocked (Heap bs ss)) by done.
  erewrite bind_Ok by (by apply AddRef_eq). cbn.
  erewrite bind_Ok by (apply nbstr_release_eq; by rewrite lookup_insert_ne).
  unfold Attach. cbn. exists tt. eexists. split; [done|].
  replace (released b d (<[bsrc := with_refs dsrc (nRefs dsrc + 1)]> bs))
    with (<[bsrc := with_refs dsrc (nRefs dsrc + 1)]> (released b d bs)).
  { by apply share_block. }
  unfold released. destruct (1 <? nRefs d).
  - by rewrite insert_insert_ne.
  - by rewrite delete_insert_ne.
Qed.

Lemma dtor_ok h v cs :
  heap_ok h -> holds h v cs ->
  exists h', dtor v h = Ok (tt, h') /\ heap_ok h' /\ h_strs h' !! v = None /\
    others_keep v h h'.
Proof.
  intros Hok (b & d & Hv & Hb & Hd). destruct h as [bs ss]. cbn in Hv, Hb.
  exists (Heap (released b d bs) (delete v ss)).
  assert (Hr : refs_ok b d (1 + refcount b (delete v ss))).
  { destruct (heap_blocks _ Hok b d Hb) as [_ H]. cbn in H.
    rewrite (refcount_delete ss v b) in H by done. unfold pointing in H.
    by rewrite decide_True in H. }
  assert (Hpos : forall u, u <> v -> ss !! u = Some b -> 1 < nRefs d).
  { intros u Hu Hub. assert (refcount b (delete v ss) <> 0%nat) as Hn.
    { intros Hz. apply (proj1 (refcount_zero _ _) Hz u). by rewrite lookup_delete_ne. }
    destruct Hr as [H1 H2]. destruct (decide _); lia. }
  assert (Hlook : forall x e, bs !! x = Some e -> (x = b -> 1 < nRefs d) ->
    exists e', released b d bs !! x = Some e' /\ forall c, block_holds e' c <-> block_holds e c).
  { intros x e He Hx. destruct (decide (x = b)) as [->|Hne].
    - unfold released. rewrite (proj2 (Z.ltb_lt _ _)) by auto. rewrite lookup_insert_eq.
      simplify_eq. by eexists.
    - rewrite released_ne by done. eauto. }
  split.
  { unfold dtor. erewrite bind_Ok by (by apply GetData_at). cbv beta iota.
    by erewrite bind_Ok by (by apply nbstr_release_eq). }
  split; [split|split]; cbn [h_blocks h_strs].
  - intros u x [Hu Hx]%lookup_delete_Some. destruct (heap_ptrs _ Hok u x Hx) as [e He].
    destruct (Hlook x e He) as (e' & -> & _); [|eauto]. intros ->. by apply (Hpos u).
  - intros x e He. destruct (decide (x = b)) as [->|Hne].
    + unfold released in He. destruct (Z.ltb_spec 1 (nRefs d)) as [Hs|Hs].
      * rewrite lookup_insert_eq in He. simplify_eq. split; [by exists cs|].
        unfold refs_ok in *. cbn. lia.
      * by rewrite lookup_delete_eq in He.
    + rewrite released_ne in He by done. destruct (heap_blocks _ Hok x e He) as [Hc Hx].
      split; [done|]. cbn in Hx. rewrite (refcount_delete ss v b) in Hx by done.
      unfold pointing in Hx. by rewrite decide_False in Hx by done.
  - destruct (heap_nil _ Hok) as (e & He & Hc). cbn in He.
    destruct (Hlook nil_block e He) as (e' & He' & Hiff).
    + intros E. destruct Hr as [H1 H2]. rewrite decide_True in H2 by done. lia.
    + exists e'. split; [done|]. by apply Hiff.
  - apply lookup_delete_eq.
  - intros u Hu. cbn. rewrite lookup_delete_ne by done. split; [done|].
    intros c. unfold holds. cbn. rewrite lookup_delete_ne by done.
    split; intros (x & e & H1 & H2 & H3); exists x.
    + destruct (Hlook x e H2) as (e' & He' & Hiff); [intros ->; by apply (Hpos u)|].
      exists e'. split_and!; [done|done|]. by apply Hiff.
    + destruct (heap_ptrs _ Hok u x H1) as [e0 He0]. cbn in He0. exists e0.
      destruct (Hlook x e0 He0) as (e' & He' & Hiff); [intros ->; by apply (Hpos u)|].
      simplify_eq. split_and!; [done|done|]. by apply Hiff.
Qed.

Section more_ops.
  Context (h : heap) (v : nat) (cs : list Z).
  Hypothesis Hok : heap_ok h.
  Hypothesis Hcs : holds h v cs.
  Hypothesis Hsmall : small (Z.of_nat (length cs)).

Lemma Empty_ok : updates (Empty v) h v [].
Proof using All.
  destruct Hcs as (b & d & Hv & Hb & Hd). destruct h as [bs ss]. cbn in Hv, Hb.
  unfold updates, Empty. erewrite bind_Ok by (by apply GetData_at). cbv beta iota.
  pose proof Hd as (Hdl & _). destruct (Z.eqb_spec (nDataLength d) 0) as [Hz|Hnz].
  { exists tt, (Heap bs ss). split; [done|]. split; [done|]. split; [|done].
    exists b, d. destruct cs; [done|cbn in Hdl; lia]. }
  erewrite (unlocked (Heap bs ss)) by done.
  erewrite bind_Ok by (by apply nbstr_release_eq).
  destruct (heap_nil _ Hok) as (d0 & Hb0 & Hd0). cbn in Hb0.
  assert (Hne : b <> nil_block).
  { intros ->. simplify_eq. destruct Hd0 as (H0 & _). cbn in H0. lia. }
  unfold nbstr_getNil, bind at 1. erewrite bind_Ok.
  2:{ apply AddRef_eq. rewrite released_ne by done. exact Hb0. }
  cbn. unfold Attach. cbn. exists tt. eexists. split; [done|]. by apply share_block.
Qed.

Lemma SetString_ok l :
  small (Z.of_nat (length l)) -> updates (SetString v l) h v l.
Proof using All.
  intros Hl. unfold updates, SetString. destruct (Z.eqb_spec (Z.of_nat (length l)) 0) as [Hz|Hz].
  { assert (l = []) as -> by (apply length_zero_iff_nil; lia). apply Empty_ok. }
  destruct (PrepareWrite_ok h v cs _ Hok Hcs Hsmall Hl) as (h' & b & d & HP & Hprep).
  erewrite bind_Ok by exact HP.
  destruct (write_finish _ _ _ _ _ _ _ 0 (Some <$> l) l Hprep) as (h2 & HW & H); try lia.
  - destruct Hprep as (? & ? & ? & ? & ? & ? & ? & Hd & Hroom & ?).
    rewrite length_fmap. lia.
  - by destruct Hprep as (? & ? & ? & ? & ? & ? & ? & Hd & Hroom & ?).
  - change (Z.to_nat 0) with O. rewrite take_0. cbn [app].
    apply take_app_length'. by rewrite length_fmap.
  - by exists tt, h2.
Qed.

Lemma Append_ok src l :
  holds h src l -> small (Z.of_nat (length l)) ->
  small (Z.of_nat (length cs) + Z.of_nat (length (until_nul l))) ->
  updates (Append v src) h v (cs ++ until_nul l).
Proof using All.
  intros Hsrc Hl Hsum. assert (Hpre : exists rest, l = until_nul l ++ rest).
  { clear. induction l as [|c l [r IH]]; [by exists []|]. cbn. destruct (c =? 0); [by eexists|].
    exists r. cbn. by rewrite <-IH. }
  set (t := until_nul l) in *. destruct Hpre as [rest El].
  unfold updates, Append. pose proof Hsrc as (bsrc & dsrc & Hvs & Hbs & Hds).
  pose proof Hcs as (b0 & d0 & Hv0 & Hb0 & Hd0). destruct h as [bs0 ss0]. cbn in Hvs, Hbs, Hv0, Hb0.
  erewrite bind_Ok by (by apply GetData_at). cbv beta iota.
  erewrite bind_Ok by (by apply GetData_at). cbv beta iota.
  pose proof Hds as (Hsl & Hsal & _). pose proof (alloc_ge dsrc l Hds).
  erewrite bind_Ok by (apply (ReadChars_at _ _ bsrc dsrc); [done|lia..]).
  rewrite (read_chars dsrc l Hds) by (rewrite Hsl; lia).
  change (Z.to_nat 0) with O. rewrite drop_0, take_ge by (rewrite Hsl; lia).
  erewrite bind_Ok by apply defined_ok. fold t.
  pose proof Hd0 as (-> & _). unfold small in Hsum.
  erewrite bind_Ok by (apply int_add_ok; lia).
  destruct (PrepareWrite_ok (Heap bs0 ss0) v cs (Z.of_nat (length cs) + Z.of_nat (length t))
              Hok Hcs Hsmall) as (h' & b & d & HP & Hprep); [unfold small; lia|].
  erewrite bind_Ok by exact HP.
  assert (Hread : ReadChars (if decide (bsrc = b0) then b else bsrc) 0 (Z.of_nat (length t)) h' =
                  Ok (Some <$> t, h')).
  { assert (Hlt : (length t <= length l)%nat) by (rewrite El, length_app; lia).
    assert (Htl : Some <$> t = take (length t) (Some <$> l)).
    { rewrite <-fmap_take, El. f_equal. by rewrite take_app_length. }
    destruct Hprep as (bs & ss & -> & Hok' & Hv & Hown & Hnil & Hd & Hroom & Hkeep).
    destruct (decide (bsrc = b0)) as [->|Hne].
    - simplify_eq. assert (cs = l) as -> by exact (block_holds_inj _ _ _ Hd0 Hds).
      rewrite ReadChars_own; [|lia|lia|destruct Hd as (_ & Hal & _); lia].
      rewrite (read_chars d l Hd) by lia. by rewrite drop_0, Nat2Z.id, Htl, fmap_take.
    - assert (src <> v) as Hsv by congruence.
      destruct (Hkeep src Hsv) as [Hp Hval]. cbn in Hp.
      destruct (proj1 (Hval l) Hsrc) as (b1 & d1 & Hv1 & Hb1 & Hd1). cbn in Hv1, Hb1.
      assert (b1 = bsrc) as -> by congruence.
      rewrite (ReadChars_at _ _ bsrc d1); [|done|lia|lia|].
      + rewrite (read_chars d1 l Hd1) by lia. by rewrite drop_0, Nat2Z.id, Htl, fmap_take.
      + pose proof (alloc_ge d1 l Hd1). destruct Hd1 as (_ & Hal & _). lia. }
  erewrite bind_Ok by exact Hread.
  destruct (write_finish _ _ _ _ _ _ _ (Z.of_nat (length cs)) (Some <$> t) (cs ++ t) Hprep)
    as (h2 & HW & H2); try lia.
  - destruct Hprep as (? & ? & ? & ? & ? & ? & ? & Hd & Hroom & ?). rewrite length_fmap. lia.
  - destruct Hprep as (? & ? & ? & ? & ? & ? & ? & Hd & Hroom & ?). rewrite length_app. lia.
  - destruct Hprep as (? & ? & ? & ? & ? & ? & ? & Hd & Hroom & ?). rewrite Nat2Z.id.
    rewrite (take_chars d cs Hd), (take_ge cs) by lia.
    rewrite app_assoc, <-fmap_app. apply take_app_length'. by rewrite length_fmap.
  - exists tt, h2. split; [|done]. rewrite <-HW. rewrite length_app, Nat2Z.inj_add. done.
Qed.

End more_ops.

(** ** Insertion *)

Lemma insert_write h v cs n h' b d i psz :
  prepared h v cs n h' b d -> n = Z.of_nat (length cs) + Z.of_nat (length psz) ->
  0 <= i <= Z.of_nat (length cs) ->
  exists h2,
    (do! chars := ReadChars b i (Z.of_nat (length cs) - i + 1) in
     CopyChars b (i + Z.of_nat (length psz)) chars ;*
     CopyChars b i (Some <$> psz) ;*
     SetLength v n) h' = Ok (tt, h2) /\
    heap_ok h2 /\ holds h2 v (take (Z.to_nat i) cs ++ psz ++ drop (Z.to_nat i) cs) /\
    others_keep v h h2.
Proof.
  intros (bs & ss & -> & Hok' & Hv & Hown & Hnil & Hd & Hroom & Hkeep) -> Hi.
  pose proof Hd as (_ & Hal & _).
  erewrite bind_Ok by (apply ReadChars_own; lia).
  replace (Z.to_nat (Z.of_nat (length cs) - i + 1)) with (length cs - Z.to_nat i + 1)%nat by lia.
  rewrite (read_to_end d cs Hd) by lia.
  set (src := (Some <$> drop (Z.to_nat i) cs) ++ [Some 0]).
  assert (Hsrc : length src = (length cs - Z.to_nat i + 1)%nat).
  { unfold src. rewrite length_app, length_fmap, length_drop. done. }
  erewrite bind_Ok by (apply CopyChars_own; lia).
  set (k := Z.to_nat (i + Z.of_nat (length psz))).
  set (X1 := take k (achData d) ++ src ++ drop (k + length src) (achData d)).
  assert (HX1 : length X1 = length (achData d)) by (unfold X1; apply length_write; lia).
  erewrite bind_Ok by (apply CopyChars_own; cbn [achData]; rewrite ?length_fmap; lia).
  cbn [nRefs nDataLength nAllocLength achData].
  set (cs' := take (Z.to_nat i) cs ++ psz ++ drop (Z.to_nat i) cs).
  assert (Hcs' : Z.of_nat (length cs') = Z.of_nat (length cs) + Z.of_nat (length psz)).
  { unfold cs'. rewrite !length_app, length_take, length_drop. lia. }
  rewrite <-Hcs'. apply (finish_write h v bs ss b d); try done; [|lia|].
  { rewrite length_write by (rewrite length_fmap; lia). lia. }
  assert (H1 : take (Z.to_nat i) X1 = Some <$> take (Z.to_nat i) cs).
  { unfold X1. rewrite take_app_le by (rewrite length_take; lia).
    rewrite take_take, Nat.min_l by lia. apply (take_chars d cs Hd). lia. }
  assert (H2 : drop (Z.to_nat i + length (Some <$> psz)) X1 =
               src ++ drop (k + length src) (achData d)).
  { unfold X1. rewrite length_fmap. rewrite drop_app_ge by (rewrite length_take; lia).
    rewrite length_take. replace (_ - _)%nat with O by lia. done. }
  rewrite H1, H2. unfold src, cs'. rewrite !fmap_app, <-!app_assoc.
  rewrite (app_assoc (Some <$> psz)), (app_assoc (Some <$> take _ cs)).
  apply take_app_length'. rewrite !length_app, !length_fmap. done.
Qed.

Lemma clamp_index i (n : Z) :
  0 <= n ->
  (let i := if i <? 0 then 0 else i in if n <? i then n else i) = Z.min n (Z.max 0 i).
Proof.
  intros Hn. cbv zeta. destruct (Z.ltb_spec i 0) as [H|H].
  - destruct (Z.ltb_spec n 0); lia.
  - destruct (Z.ltb_spec n i); lia.
Qed.

(** Inserting at [i] splits the string there; out of range counts as the end. *)
Definition splice (i : Z) (psz cs : list Z) : list Z :=
  take (Z.to_nat i) cs ++ psz ++ drop (Z.to_nat i) cs.

Lemma splice_clamp i psz cs :
  splice (Z.min (Z.of_nat (length cs)) (Z.max 0 i)) psz cs = splice i psz cs.
Proof.
  unfold splice. destruct (decide (i <= Z.of_nat (length cs))).
  - replace (Z.to_nat (Z.min _ _)) with (Z.to_nat i) by lia. done.
  - by rewrite !take_ge, !drop_ge by lia.
Qed.

Section inserting.
  Context (h : heap) (v : nat) (cs : list Z).
  Hypothesis Hok : heap_ok h.
  Hypothesis Hcs : holds h v cs.
  Hypothesis Hsmall : small (Z.of_nat (length cs)).

Lemma Insert_ok i src :
  small (Z.of_nat (length cs) + Z.of_nat (length (until_nul src))) ->
  updates (Insert v i src) h v (splice i (until_nul src) cs).
Proof using All.
  unfold updates, Insert. cbv zeta. generalize (until_nul src). intros psz Hn. pose proof Hcs as (b0 & d0 & Hv0 & Hb0 & Hd0).
  destruct h as [bs0 ss0]. cbn in Hv0, Hb0.
  erewrite bind_Ok by (by apply GetData_at). cbv beta iota. pose proof Hd0 as (-> & _).
  destruct (Z.ltb_spec 0 (Z.of_nat (length psz))) as [Hpos|Hz].
  2:{ assert (psz = []) as -> by (apply length_zero_iff_nil; lia).
      eexists _, (Heap bs0 ss0). split; [done|]. split; [done|]. split; [|done].
      unfold splice. cbn. by rewrite take_drop. }
  rewrite clamp_index by lia.
  set (i1 := Z.min _ (Z.max 0 i)). assert (Hi1 : 0 <= i1 <= Z.of_nat (length cs)) by lia.
  unfold small in Hn. erewrite bind_Ok by (apply int_add_ok; lia).
  destruct (PrepareWrite_ok (Heap bs0 ss0) v cs _ Hok Hcs Hsmall Hn) as (h' & b & d & HP & Hprep).
  erewrite bind_Ok by exact HP.
  destruct (insert_write _ _ _ _ _ _ _ i1 psz Hprep eq_refl Hi1) as (h2 & HW & H2).
  exists (Z.of_nat (length cs) + Z.of_nat (length psz)), h2. split.
  - replace (Z.of_nat (length cs) + Z.of_nat (length psz) - i1 - Z.of_nat (length psz) + 1)
      with (Z.of_nat (length cs) - i1 + 1) by lia.
    revert HW. unfold bind. destruct (ReadChars _ _ _ h') as [[c hc]|]; [|done].
    destruct (CopyChars _ _ c hc) as [[u1 hu]|]; [|done].
    destruct (CopyChars _ _ _ hu) as [[u2 hu2]|]; [|done]. by intros ->.
  - change (heap_ok h2 /\ holds h2 v (splice i1 psz cs) /\
            others_keep v (Heap bs0 ss0) h2) in H2. unfold i1 in H2. by rewrite splice_clamp in H2.
Qed.

Lemma InsertChar_ok i ch :
  small (Z.of_nat (length cs) + 1) -> updates (InsertChar v i ch) h v (splice i [ch] cs).
Proof using All.
  intros Hn. unfold updates, InsertChar. pose proof Hcs as (b0 & d0 & Hv0 & Hb0 & Hd0).
  destruct h as [bs0 ss0]. cbn in Hv0, Hb0.
  erewrite bind_Ok by (by apply GetData_at). cbv beta iota. pose proof Hd0 as (-> & _).
  rewrite clamp_index by lia.
  set (i1 := Z.min _ (Z.max 0 i)). assert (Hi1 : 0 <= i1 <= Z.of_nat (length cs)) by lia.
  unfold small in Hn. erewrite bind_Ok by (apply int_add_ok; lia).
  destruct (PrepareWrite_ok (Heap bs0 ss0) v cs _ Hok Hcs Hsmall Hn) as (h' & b & d & HP & Hprep).
  erewrite bind_Ok by exact HP.
  destruct (insert_write _ _ _ _ _ _ _ i1 [ch] Hprep eq_refl Hi1) as (h2 & HW & H2).
  exists (Z.of_nat (length cs) + 1), h2. split.
  - replace (Z.of_nat (length cs) + 1 - i1) with (Z.of_nat (length cs) - i1 + 1) by lia.
    revert HW. unfold bind. destruct (ReadChars _ _ _ h') as [[c hc]|]; [|done].
    change (Z.of_nat (length [ch])) with 1.
    destruct (CopyChars _ _ c hc) as [[u1 hu]|]; [|done].
    change (Some <$> [ch]) with [Some ch].
    destruct (CopyChars _ _ _ hu) as [[u2 hu2]|]; [|done]. by intros ->.
  - change (heap_ok h2 /\ holds h2 v (splice i1 [ch] cs) /\
            others_keep v (Heap bs0 ss0) h2) in H2. unfold i1 in H2. by rewrite splice_clamp in H2.
Qed.

(** [Mid] makes a new string of the characters asked for that there are. *)
Lemma Mid_ok r i n :
  h_strs h !! r = None -> Z.max 0 i + Z.max 0 n < 2 ^ 31 ->
  updates (Mid r v i n) h r (take (Z.to_nat n) (drop (Z.to_nat i) cs)).
Proof using All.
  intros Hr Hsum. unfold Mid. pose proof Hcs as (b0 & d0 & Hv0 & Hb0 & Hd0).
  unfold updates. destruct h as [bs0 ss0]. cbn in Hv0, Hb0.
  erewrite bind_Ok by (by apply GetData_at). cbv beta iota. pose proof Hd0 as (-> & Hal & _).
  set (i0 := if i <? 0 then 0 else i). set (n0 := if n <? 0 then 0 else n).
  assert (Hi0 : i0 = Z.max 0 i) by (unfold i0; destruct (Z.ltb_spec i 0); lia).
  assert (Hn0 : n0 = Z.max 0 n) by (unfold n0; destruct (Z.ltb_spec n 0); lia).
  clearbody i0 n0. erewrite bind_Ok by (apply int_add_ok; lia).
  set (n1 := if Z.of_nat (length cs) <? i0 then 0 else _).
  assert (Hn1 : n1 = Z.max 0 (Z.min n0 (Z.of_nat (length cs) - i0))).
  { unfold n1. destruct (Z.ltb_spec (Z.of_nat (length cs)) i0); [lia|].
    destruct (Z.ltb_spec (Z.of_nat (length cs)) (i0 + n0)); lia. }
  clearbody n1.
  assert (Htd : take (Z.to_nat n) (drop (Z.to_nat i) cs) =
                take (Z.to_nat n1) (drop (Z.to_nat i0) cs)).
  { replace (Z.to_nat i0) with (Z.to_nat i) by lia.
    destruct (decide (n0 <= Z.of_nat (length cs) - i0)); [f_equal; lia|].
    by rewrite !take_ge by (rewrite length_drop; lia). }
  rewrite Htd. destruct ((i0 =? 0) && (i0 + n1 =? Z.of_nat (length cs))) eqn:E.
  - apply andb_true_iff in E as [E1%Z.eqb_eq E2%Z.eqb_eq]. rewrite E1. change (Z.to_nat 0) with O. rewrite drop_0, take_ge by lia.
    by apply ctor_copy_ok.
  - set (i1 := if Z.of_nat (length cs) <? i0 then 0 else i0).
    assert (Hi1 : 0 <= i1 /\ i1 + n1 <= Z.of_nat (length cs) /\
                  take (Z.to_nat n1) (drop (Z.to_nat i1) cs) =
                  take (Z.to_nat n1) (drop (Z.to_nat i0) cs)).
    { unfold i1. destruct (Z.ltb_spec (Z.of_nat (length cs)) i0); [|split_and!; [lia|lia|done]].
      replace n1 with 0 by lia. split_and!; [lia|lia|done]. }
    clearbody i1. destruct Hi1 as (Hi1 & Hi2 & <-). pose proof (alloc_ge d0 cs Hd0).
    erewrite bind_Ok by (apply (ReadChars_at _ _ b0 d0); [done|lia..]).
    rewrite (read_chars d0 cs Hd0) by lia. erewrite bind_Ok by apply defined_ok.
    apply ctor_chars_ok; [done|done|]. rewrite length_take, length_drop. unfold small in *. lia.
Qed.

End inserting.
