(* ===== verification/CmStringSpec.v ===== *)
(** * Copy-on-write strings are values

    A program with string objects is a sequence of commands, each one call of a
    member of [CMStringT].  Its abstract meaning is a store that maps each
    object to its characters.  The theorem says that the heap of shared blocks
    implements the store, and that no block is ever leaked. *)

From stdpp Require Import gmap.
From S2P Require Import Prelude Strbuf CmString CmStringOps.
Local Open Scope cmodel_scope.
Local Open Scope Z_scope.

Inductive cmd :=
| C_nil (r : nat)
| C_copy (r src : nat)
| C_chars (r : nat) (l : list Z)
| C_destroy (v : nat)
| C_assign (v src : nat)
| C_set (v : nat) (l : list Z)
| C_empty (v : nat)
| C_append (v src : nat)
| C_append_char (v : nat) (ch : Z)
| C_set_at (v : nat) (i ch : Z)
| C_truncate (v : nat) (n : Z)
| C_delete (v : nat) (i n : Z)
| C_insert (v : nat) (i : Z) (l : list Z)
| C_insert_char (v : nat) (i ch : Z)
| C_mid (r v : nat) (i n : Z).

Definition discard {A} (m : M A) : M unit := do! _ := m in ret tt.

Definition exec_cmd (c : cmd) : M unit :=
  match c with
  | C_nil r => ctor_nil r
  | C_copy r src => ctor_copy r src
  | C_chars r l => ctor_chars r l
  | C_destroy v => dtor v
  | C_assign v src => operator_assign v src
  | C_set v l => SetString v l
  | C_empty v => Empty v
  | C_append v src => Append v src
  | C_append_char v ch => AppendChar v ch
  | C_set_at v i ch => SetAt v i ch
  | C_truncate v n => Truncate v n
  | C_delete v i n => discard (Delete v i n)
  | C_insert v i l => discard (Insert v i l)
  | C_insert_char v i ch => discard (InsertChar v i ch)
  | C_mid r v i n => Mid r v i n
  end.

Fixpoint exec_cmds (cs : list cmd) : M unit :=
  match cs with
  | [] => ret tt
  | c :: cs => exec_cmd c ;* exec_cmds cs
  end.

(** ** The abstract store *)

Notation store := (gmap nat (list Z)).

Definition smallb (n : Z) : bool := (0 <=? n) && (n <=? 2 ^ 28).
Definition len (l : list Z) : Z := Z.of_nat (length l).

(** Define a new object. *)
Definition define (st : store) (r : nat) (l : list Z) : option store :=
  match st !! r with Some _ => None | None => Some (<[r := l]> st) end.

(** Change the value of an object of acceptable length. *)
Definition change_to (st : store) (v : nat) (ok : list Z -> bool) (f : list Z -> list Z)
  : option store :=
  cs ← st !! v;
  if smallb (len cs) && ok cs then Some (<[v := f cs]> st) else None.

(** The meaning of a command, [None] outside its contract. *)
Definition step_cmd (c : cmd) (st : store) : option store :=
  match c with
  | C_nil r => define st r []
  | C_copy r src => cs ← st !! src; define st r cs
  | C_chars r l => if smallb (len l) then define st r l else None
  | C_destroy v => cs ← st !! v; Some (delete v st)
  | C_assign v src => cs ← st !! src; change_to st v (fun _ => true) (fun _ => cs)
  | C_set v l => change_to st v (fun _ => smallb (len l)) (fun _ => l)
  | C_empty v => change_to st v (fun _ => true) (fun _ => [])
  | C_append v src =>
      l ← st !! src;
      change_to st v (fun cs => smallb (len l) && smallb (len cs + len (until_nul l)))
        (fun cs => cs ++ until_nul l)
  | C_append_char v ch => change_to st v (fun cs => smallb (len cs + 1)) (fun cs => cs ++ [ch])
  | C_set_at v i ch =>
      change_to st v (fun cs => (0 <=? i) && (i <? len cs)) (fun cs => <[Z.to_nat i := ch]> cs)
  | C_truncate v n =>
      change_to st v (fun cs => (0 <=? n) && (n <=? len cs)) (fun cs => take (Z.to_nat n) cs)
  | C_delete v i n =>
      change_to st v (fun _ => Z.max 0 n + Z.max 0 i <? 2 ^ 31)
        (fun cs => take (Z.to_nat i) cs ++ drop (Z.to_nat i + Z.to_nat n) cs)
  | C_insert v i l =>
      change_to st v (fun cs => smallb (len cs + len (until_nul l))) (splice i (until_nul l))
  | C_insert_char v i ch => change_to st v (fun cs => smallb (len cs + 1)) (splice i [ch])
  | C_mid r v i n =>
      cs ← st !! v;
      if smallb (len cs) && (Z.max 0 i + Z.max 0 n <? 2 ^ 31)
      then define st r (take (Z.to_nat n) (drop (Z.to_nat i) cs)) else None
  end.

Fixpoint step_cmds (cs : list cmd) (st : store) : option store :=
  match cs with
  | [] => Some st
  | c :: cs => st ← step_cmd c st; step_cmds cs st
  end.

(** ** Refinement *)

Definition represents (h : heap) (st : store) : Prop :=
  heap_ok h /\ forall v cs, holds h v cs <-> st !! v = Some cs.

(** Every block but the empty string's belongs to an object. *)
Definition no_leak (h : heap) : Prop :=
  forall b, is_Some (h_blocks h !! b) -> b = nil_block \/ exists v, h_strs h !! v = Some b.

Lemma heap_ok_no_leak h : heap_ok h -> no_leak h.
Proof.
  intros Hok b [d Hb]. destruct (decide (b = nil_block)) as [->|Hne]; [by left|right].
  destruct (heap_blocks h Hok b d Hb) as [_ Hr].
  pose proof (refs_pos b d _ Hr Hne) as Hpos.
  destruct (decide (Exists (fun p => p.2 = b) (map_to_list (h_strs h)))) as [He|He].
  - apply Exists_exists in He as ([v x] & Hin & Hx). cbn in Hx. subst.
    exists v. by apply elem_of_map_to_list.
  - assert (refcount b (h_strs h) = 0%nat); [|lia]. apply refcount_zero. intros v Hv.
    apply He, Exists_exists. exists (v, b). split; [|done]. by apply elem_of_map_to_list.
Qed.

Lemma holds_inj h v cs cs' : holds h v cs -> holds h v cs' -> cs = cs'.
Proof.
  intros (b & d & H1 & H2 & H3) (b' & d' & H1' & H2' & H3'). simplify_eq.
  by eapply block_holds_inj.
Qed.

Lemma smallb_spec n : smallb n = true -> small n.
Proof. unfold smallb, small. rewrite andb_true_iff, !Z.leb_le. done. Qed.

Lemma represents_new h st r : represents h st -> st !! r = None -> h_strs h !! r = None.
Proof.
  intros [Hok Hrep] Hr. destruct (h_strs h !! r) as [b|] eqn:E; [|done].
  destruct (heap_ok_value h r b Hok E) as (d & cs & Hb & Hd & _).
  assert (holds h r cs) as Hh by (exists b, d; done). apply Hrep in Hh. congruence.
Qed.

Lemma updates_represents {A} (m : M A) h st v cs :
  represents h st -> updates m h v cs ->
  exists h', discard m h = Ok (tt, h') /\ represents h' (<[v := cs]> st).
Proof.
  intros [_ Hrep] (a & h' & Hm & Hok' & Hh & Hkeep). exists h'. split.
  { unfold discard. by erewrite bind_Ok by exact Hm. }
  split; [done|]. intros u c. destruct (decide (u = v)) as [->|Hu].
  - rewrite lookup_insert_eq. split; [|intros [= <-]; done].
    intros H. by rewrite (holds_inj _ _ _ _ H Hh).
  - rewrite lookup_insert_ne by done. destruct (Hkeep u Hu) as [_ Hiff].
    by rewrite <-Hiff.
Qed.

Lemma discard_unit (m : M unit) h : discard m h = m h.
Proof. unfold discard, bind. by destruct (m h) as [[[] h']|]. Qed.

(** The two shapes of commands: defining an object and changing one. *)
Lemma define_refines (m : M unit) h st r l st' :
  represents h st -> define st r l = Some st' ->
  (h_strs h !! r = None -> updates m h r l) ->
  exists h', m h = Ok (tt, h') /\ represents h' st'.
Proof.
  intros Hrep Hdef Hm. unfold define in Hdef. destruct (st !! r) eqn:E; [done|]. simplify_eq.
  destruct (updates_represents m h st r l Hrep) as (h' & Hd & H).
  { apply Hm. by eapply represents_new. }
  exists h'. by rewrite <-discard_unit.
Qed.

Lemma change_refines {A} (m : M A) h st v ok f st' :
  represents h st -> change_to st v ok f = Some st' ->
  (forall cs, holds h v cs -> small (Z.of_nat (length cs)) -> ok cs = true ->
     updates m h v (f cs)) ->
  exists h', discard m h = Ok (tt, h') /\ represents h' st'.
Proof.
  intros Hrep Hch Hm. unfold change_to in Hch. destruct (st !! v) as [cs|] eqn:E; [|done].
  cbn in Hch. destruct (smallb (len cs) && ok cs) eqn:Eb; [|done]. simplify_eq.
  apply andb_true_iff in Eb as [Hs Hk]. apply updates_represents; [done|].
  apply Hm; [by apply Hrep|by apply smallb_spec|done].
Qed.

Lemma destroy_refines h st v cs :
  represents h st -> st !! v = Some cs ->
  exists h', dtor v h = Ok (tt, h') /\ represents h' (delete v st).
Proof.
  intros [Hok Hrep] Hv. destruct (dtor_ok h v cs Hok) as (h' & Hd & Hok' & Hnone & Hkeep).
  { by apply Hrep. }
  exists h'. split; [done|]. split; [done|]. intros u c.
  destruct (decide (u = v)) as [->|Hu].
  - rewrite lookup_delete_eq. split; [|done]. intros (b & d & H & _). congruence.
  - rewrite lookup_delete_ne by done. destruct (Hkeep u Hu) as [_ Hiff]. by rewrite <-Hiff.
Qed.

Lemma step_cmd_refines c h st st' :
  represents h st -> step_cmd c st = Some st' ->
  exists h', exec_cmd c h = Ok (tt, h') /\ represents h' st'.
Proof.
  intros Hrep Hstep. pose proof Hrep as [Hok Hst]. destruct c; cbn [exec_cmd step_cmd] in *.
  - eapply define_refines; eauto using ctor_nil_ok.
  - apply bind_Some in Hstep as (cs & Hsrc & Hstep). apply Hst in Hsrc.
    eapply define_refines; eauto using ctor_copy_ok.
  - destruct (smallb (len l)) eqn:E; [|done]. apply smallb_spec in E.
    eapply define_refines; eauto using ctor_chars_ok.
  - apply bind_Some in Hstep as (cs & Hv & [= <-]). eauto using destroy_refines.
  - apply bind_Some in Hstep as (cs & Hsrc & Hstep). apply Hst in Hsrc.
    rewrite <-discard_unit. eapply change_refines; [done..|].
    intros. by eapply operator_assign_ok.
  - rewrite <-discard_unit. eapply change_refines; [done..|]. cbn.
    intros cs Hcs Hs Hl. apply (SetString_ok h v cs); auto using smallb_spec.
  - rewrite <-discard_unit. eapply change_refines; [done..|].
    intros cs Hcs Hs _. by apply (Empty_ok h v cs).
  - apply bind_Some in Hstep as (l & Hsrc & Hstep). apply Hst in Hsrc.
    rewrite <-discard_unit. eapply change_refines; [done..|]. cbn.
    intros cs Hcs Hs [H1%smallb_spec H2%smallb_spec]%andb_true_iff. by apply Append_ok.
  - rewrite <-discard_unit. eapply change_refines; [done..|]. cbn.
    intros cs Hcs Hs Hl%smallb_spec. by apply AppendChar_ok.
  - rewrite <-discard_unit. eapply change_refines; [done..|]. cbn.
    intros cs Hcs Hs [H1%Z.leb_le H2%Z.ltb_lt]%andb_true_iff. by apply SetAt_ok.
  - rewrite <-discard_unit. eapply change_refines; [done..|]. cbn.
    intros cs Hcs Hs [H1%Z.leb_le H2%Z.leb_le]%andb_true_iff. by apply Truncate_ok.
  - eapply change_refines; [done..|]. cbn. intros cs Hcs Hs Hl%Z.ltb_lt. by apply Delete_ok.
  - eapply change_refines; [done..|]. cbn. intros cs Hcs Hs Hl%smallb_spec. by apply Insert_ok.
  - eapply change_refines; [done..|]. cbn.
    intros cs Hcs Hs Hl%smallb_spec. by apply InsertChar_ok.
  - apply bind_Some in Hstep as (cs & Hv & Hstep). apply Hst in Hv.
    destruct (smallb (len cs) && _) eqn:E; [|done].
    apply andb_true_iff in E as [H1%smallb_spec H2%Z.ltb_lt].
    eapply define_refines; [done..|]. intros Hr. by apply Mid_ok.
Qed.

(** The heap when the program starts: the empty string. *)
Definition initial_heap : heap := Heap {[ nil_block := MkData 2 0 0 [Some 0] ]} ∅.

Lemma initial_represents : represents initial_heap ∅.
Proof.
  split.
  - split; cbn.
    + intros v b H. by rewrite lookup_empty in H.
    + intros b d [<- <-]%lookup_singleton_Some. split.
      * exists []. split; [done|]. split; [done|]. by exists [].
      * split; [done|]. rewrite decide_True by done. done.
    + exists (MkData 2 0 0 [Some 0]). split; [done|].
      split; [done|]. split; [done|]. by exists [].
  - intros v cs. rewrite lookup_empty. split; [|done].
    intros (b & d & H & _). cbn in H. by rewrite lookup_empty in H.
Qed.

(** ** Theorems *)

(** C15. A heap of shared, reference-counted blocks implements string values: for
    every sequence of operations within their contracts, running the member
    functions succeeds without touching freed or foreign memory, ends with every
    object holding exactly the value of the abstract store, so that a write to
    one string never shows in another, and leaves no block without an owner. *)
Theorem cow_strings_are_values cs h st st' :
  represents h st -> step_cmds cs st = Some st' ->
  exists h', exec_cmds cs h = Ok (tt, h') /\ represents h' st' /\ no_leak h'.
Proof.
  revert h st. induction cs as [|c cs IH]; intros h st Hrep Hstep; cbn in *.
  - simplify_eq. exists h. split; [done|]. split; [done|]. apply heap_ok_no_leak, Hrep.
  - apply bind_Some in Hstep as (st1 & H1 & H2).
    destruct (step_cmd_refines c h st st1 Hrep H1) as (h1 & He & Hr1).
    destruct (IH h1 st1 Hr1 H2) as (h2 & He2 & H). exists h2.
    by erewrite bind_Ok by exact He.
Qed.

(** Copying a string whose buffer is locked succeeds but yields a string that
    points nowhere: [CloneData] returns a null pointer and the copy constructor
    attaches it.  Whatever is then done to the copy is undefined. *)
Theorem copy_of_locked_dangles h src r cs b d :
  heap_ok h -> h_strs h !! src = Some b -> h_blocks h !! b = Some d -> nRefs d = 1 ->
  holds h src cs -> r <> src ->
  exists h1 h2, LockBuffer src h = Ok (tt, h1) /\ ctor_copy r src h1 = Ok (tt, h2) /\
    GetData r h2 = Crash UndefinedBehaviour.
Proof.
  intros Hok Hv Hb Hr Hcs Hne. destruct h as [bs ss]. cbn in Hv, Hb.
  exists (Heap (<[b := with_refs d (-1)]> bs) ss).
  exists (Heap (<[b := with_refs d (-1)]> bs)
            (<[r := fresh (dom (<[b := with_refs d (-1)]> bs))]> ss)).
  split; [|split].
  - unfold LockBuffer. erewrite bind_Ok by (by apply GetData_at). cbv beta iota.
    unfold IsShared. rewrite Hr. cbn [Z.ltb Z.compare Pos.compare Pos.compare_cont].
    erewrite bind_Ok by reflexivity. erewrite bind_Ok by (by apply GetData_at). cbv beta iota.
    unfold nbstr_lock, get_block, put_block, bind. cbn. rewrite Hb. by rewrite Hr.
  - unfold ctor_copy. erewrite bind_Ok by (by apply GetData_own). cbv beta iota.
    unfold CloneData. unfold bind at 1 2. by rewrite get_block_own.
  - unfold GetData. cbn. rewrite lookup_insert_eq. unfold bind, get_block. cbn.
    by rewrite fresh_block.
Qed.

(** The defaulted move constructor of [CMSimpleStringT] copies the pointer
    without counting it: when the source, the only owner of its block, is then
    destroyed, the destructor of the moved-to string works on freed memory. *)
Theorem moved_string_double_free h src r cs b d :
  heap_ok h -> h_strs h !! src = Some b -> h_blocks h !! b = Some d -> nRefs d = 1 ->
  holds h src cs -> r <> src ->
  exists h1 h2, ctor_move r src h = Ok (tt, h1) /\ dtor src h1 = Ok (tt, h2) /\
    dtor r h2 = Crash UndefinedBehaviour.
Proof.
  intros Hok Hv Hb Hr Hcs Hne. destruct h as [bs ss]. cbn in Hv, Hb.
  exists (Heap bs (<[r := b]> ss)), (Heap (delete b bs) (delete src (<[r := b]> ss))).
  split; [|split].
  - unfold ctor_move. by erewrite bind_Ok by (by apply GetData_at).
  - unfold dtor. erewrite bind_Ok by (apply GetData_at; [by rewrite lookup_insert_ne|done]).
    cbv beta iota. erewrite bind_Ok by (by apply nbstr_release_eq).
    unfold released. by rewrite Hr.
  - unfold dtor, GetData, bind, get_block. cbn. rewrite lookup_delete_ne by done.
    rewrite lookup_insert_eq. cbn. by rewrite lookup_delete_eq.
Qed.

(** *** Witnesses *)

Lemma cow_strings_are_values_witness :
  exists h', exec_cmds [C_chars 1 [97; 98]; C_copy 2 1; C_append_char 1 99; C_mid 4 1 1 2;
                        C_destroy 2] initial_heap = Ok (tt, h') /\
    represents h' (<[4%nat := [98; 99]]> {[ 1%nat := [97; 98; 99] ]}) /\ no_leak h'.
Proof.
  apply (cow_strings_are_values _ initial_heap ∅).
  - exact initial_represents.
  - vm_compute. reflexivity.
Defined.

Definition one_string : heap :=
  Heap (<[1%nat := MkData 1 1 1 [Some 97; Some 0]]> {[ nil_block := MkData 2 0 0 [Some 0] ]})
       {[ 7%nat := 1%nat ]}.

Lemma one_string_holds : represents one_string {[ 7%nat := [97] ]}.
Proof.
  destruct (step_cmd_refines (C_chars 7 [97]) initial_heap ∅ {[ 7%nat := [97] ]})
    as (h' & He & Hrep); [exact initial_represents|reflexivity|].
  vm_compute in He. injection He as <-. exact Hrep.
Qed.

Lemma copy_of_locked_dangles_witness :
  exists h1 h2, LockBuffer 7 one_string = Ok (tt, h1) /\ ctor_copy 8 7 h1 = Ok (tt, h2) /\
    GetData 8 h2 = Crash UndefinedBehaviour.
Proof.
  apply (copy_of_locked_dangles one_string 7 8 [97] 1 (MkData 1 1 1 [Some 97; Some 0])).
  - apply one_string_holds.
  - reflexivity.
  - reflexivity.
  - reflexivity.
  - apply one_string_holds. reflexivity.
  - discriminate.
Defined.

Lemma moved_string_double_free_witness :
  exists h1 h2, ctor_move 8 7 one_string = Ok (tt, h1) /\ dtor 7 h1 = Ok (tt, h2) /\
    dtor 8 h2 = Crash UndefinedBehaviour.
Proof.
  apply (moved_string_double_free one_string 7 8 [97] 1 (MkData 1 1 1 [Some 97; Some 0])).
  - apply one_string_holds.
  - reflexivity.
  - reflexivity.
  - reflexivity.
  - apply one_string_holds. reflexivity.
  - discriminate.
Defined.
