(* ===== verification/Security.v ===== *)
(** * Stored passwords (src/core/WinSCPSecurity.cpp, part of src/base/Common.cpp)

    Passwords in the configuration are scrambled: each byte is written as two
    hexadecimal digits of its masked value, with a header, a random number of
    random bytes in front, and random bytes behind up to a minimum length.  The
    key (user and host name) is put in front of the password and checked when
    the password is read.

    Strings are lists of bytes, [UnicodeString]s lists of UTF-16 units.  The
    conversions between the two are Windows' and are parameters, and so is the
    random device.  Operations of the string class that matter here are taken
    as they are implemented: appending a string cuts it at its first NUL,
    comparison stops at a NUL, and [UTF8String::SubString] reads as many bytes
    as it is asked for, whether or not the string has them. *)

From S2P Require Import Prelude Marshal Strbuf CmString.
Local Open Scope cmodel_scope.
Local Open Scope Z_scope.

Definition PWALG_SIMPLE_MAGIC : Z := 163.
Definition PWALG_SIMPLE_MAXLEN : Z := 50.
Definition PWALG_SIMPLE_FLAG : Z := 255.
Definition PWALG_SIMPLE_INTERNAL : Z := 0.
Definition PWALG_SIMPLE_EXTERNAL : Z := 1.
Definition PWALG_SIMPLE_INTERNAL2 : Z := 2.

(** ["0123456789ABCDEF"] *)
Definition PWALG_SIMPLE_STRING : list Z :=
  [48; 49; 50; 51; 52; 53; 54; 55; 56; 57; 65; 66; 67; 68; 69; 70].

(** [Pos]: the 1-based position of a character, 0 if there is none.  A NUL is
    found at the terminator. *)
Definition Pos (s : list Z) (ch : Z) : Z :=
  match memchr (s ++ [0]) ch with Some n => Z.of_nat n + 1 | None => 0 end.

Definition SimpleEncryptChar (Ch : Z) : list Z :=
  let Ch := u8 (Z.lxor (Z.lnot Ch) PWALG_SIMPLE_MAGIC) in
  [nth (Z.to_nat (Z.shiftr (Z.land Ch 240) 4)) PWALG_SIMPLE_STRING 0;
   nth (Z.to_nat (Z.land Ch 15)) PWALG_SIMPLE_STRING 0].

Definition SimpleDecryptNextChar (Str : list Z) : Z * list Z :=
  match Str with
  | a :: b :: rest =>
      let x := Z.shiftl (Pos PWALG_SIMPLE_STRING a - 1) 4 + (Pos PWALG_SIMPLE_STRING b - 1) in
      (u8 (Z.lnot (Z.lxor x PWALG_SIMPLE_MAGIC)), rest)
  | _ => (0, Str)
  end.

(** [Random]: [d] is what the uniform distribution over [0 .. INT_MAX] gave. *)
Definition Random (d Max : Z) : Z := d / (INT_MAX / Max).

Section security.
  (** The state of the random device, and a draw. *)
  Context {G : Type} (draw : G -> Z * G).
  (** [UTF8String(UnicodeString)] and [UnicodeString(UTF8String)]. *)
  Context (to_utf8 : list Z -> list Z) (of_utf8 : list Z -> list Z).

Definition RandomG (Max : Z) (g : G) : Z * G :=
  let '(d, g) := draw g in (Random d Max, g).

(** [n] characters, each encrypting a random byte. *)
Fixpoint random_chars (n : nat) (g : G) : list Z * G :=
  match n with
  | O => ([], g)
  | S n =>
      let '(r, g) := RandomG 256 g in
      let '(rest, g) := random_chars n g in
      (SimpleEncryptChar (u8 r) ++ rest, g)
  end.

(** [while (Result.Length() < PWALG_SIMPLE_MAXLEN * 2)] *)
Fixpoint pad_loop (fuel : nat) (Result : list Z) (g : G) : res (list Z * G) :=
  if Z.of_nat (length Result) <? PWALG_SIMPLE_MAXLEN * 2 then
    match fuel with
    | O => Crash OutOfFuel
    | S fuel =>
        let '(r, g) := RandomG 256 g in
        pad_loop fuel (Result ++ SimpleEncryptChar (u8 r)) g
    end
  else Ok (Result, g).

Definition EncryptPassword (UnicodePassword UnicodeKey : list Z) (g : G) : res (list Z * G) :=
  let Key := to_utf8 UnicodeKey in
  let Password := Key ++ until_nul (to_utf8 UnicodePassword) in
  let Result := SimpleEncryptChar PWALG_SIMPLE_FLAG in
  let Len := Z.of_nat (length Password) in
  let Result :=
    if 255 <? Len then
      Result ++ SimpleEncryptChar PWALG_SIMPLE_INTERNAL2 ++
      SimpleEncryptChar (u8 (Z.shiftr Len 8)) ++ SimpleEncryptChar (u8 (Z.land Len 255))
    else Result ++ SimpleEncryptChar PWALG_SIMPLE_INTERNAL ++ SimpleEncryptChar (u8 Len) in
  let DataLen := Z.of_nat (length Result) / 2 + 1 + Len in
  let '(Shift, g) :=
    if DataLen <? PWALG_SIMPLE_MAXLEN then RandomG (PWALG_SIMPLE_MAXLEN - DataLen) g else (0, g) in
  let Result := Result ++ SimpleEncryptChar (u8 Shift) in
  let '(noise, g) := random_chars (Z.to_nat Shift) g in
  let Result := Result ++ noise in
  let Result := Result ++ concat (map (fun c => SimpleEncryptChar (u8 c)) Password) in
  pad_loop (Z.to_nat PWALG_SIMPLE_MAXLEN) Result g.

(** [UTF8String::SubString(1, Len)]: the characters are copied from the string's
    buffer, [Len] of them. *)
Definition SubString_1 (s : list Z) (Len : Z) : res (list Z) :=
  if Len <=? Z.of_nat (length s) + 1 then Ok (take (Z.to_nat Len) (s ++ [0]))
  else Crash UndefinedBehaviour.

(** [a != b] of strings. *)
Definition differs (a b : list Z) : bool := bool_decide (until_nul a <> until_nul b).

(** [n] decrypted characters. *)
Fixpoint decrypt_chars (n : nat) (Password : list Z) : list Z :=
  match n with
  | O => []
  | S n => let '(c, rest) := SimpleDecryptNextChar Password in c :: decrypt_chars n rest
  end.

(** [left_first] says in which order the compiler evaluates the two operands of
    the addition that puts a length of two bytes together; the language leaves
    it open. *)
Definition DecryptPassword (left_first : bool) (APassword UnicodeKey : list Z)
  : res (list Z) :=
  let '(Flag, Password) := SimpleDecryptNextChar APassword in
  let '(Length, Password) :=
    if Flag =? PWALG_SIMPLE_FLAG then
      let '(Version, Password) := SimpleDecryptNextChar Password in
      if Version =? PWALG_SIMPLE_INTERNAL then SimpleDecryptNextChar Password
      else if Version =? PWALG_SIMPLE_INTERNAL2 then
        let '(c1, Password) := SimpleDecryptNextChar Password in
        let '(c2, Password) := SimpleDecryptNextChar Password in
        ((if left_first then Z.shiftl c1 8 + c2 else Z.shiftl c2 8 + c1), Password)
      else (-1, Password)
    else (Flag, Password) in
  if 0 <=? Length then
    let '(shift, Password) := SimpleDecryptNextChar Password in
    let Password := drop (Z.to_nat (shift * 2)) Password in
    let Result := decrypt_chars (Z.to_nat Length) Password in
    if Flag =? PWALG_SIMPLE_FLAG then
      let Key := to_utf8 UnicodeKey in
      let! prefix := SubString_1 Result (Z.of_nat (length Key)) in
      if differs prefix Key then Ok (of_utf8 []) else Ok (of_utf8 (drop (length Key) Result))
    else Ok (of_utf8 Result)
  else Ok (of_utf8 []).

End security.

(** ** Hexadecimal strings *)

Definition ByteToHex (B : Z) (UpperCase : bool) : list Z :=
  let digit n := if UpperCase then nth (Z.to_nat n) PWALG_SIMPLE_STRING 0
                 else nth (Z.to_nat n) [48; 49; 50; 51; 52; 53; 54; 55; 56; 57;
                                        97; 98; 99; 100; 101; 102] 0 in
  [digit (Z.shiftr (Z.land B 240) 4); digit (Z.land B 15)].

Fixpoint BytesToHex (B : list Z) (UpperCase : bool) (Separator : Z) : list Z :=
  match B with
  | [] => []
  | [b] => ByteToHex b UpperCase
  | b :: B =>
      ByteToHex b UpperCase ++ (if Separator =? 0 then [] else [Separator]) ++
      BytesToHex B UpperCase Separator
  end.

(** [towupper] on ASCII; other characters are never digits. *)
Definition UpCase (Ch : Z) : Z := if (97 <=? Ch) && (Ch <=? 122) then Ch - 32 else Ch.

Fixpoint HexToBytes_loop (Hex : list Z) (Result : list Z) : list Z :=
  match Hex with
  | h1 :: h2 :: Hex =>
      let P1 := Pos PWALG_SIMPLE_STRING (UpCase h1) in
      let P2 := Pos PWALG_SIMPLE_STRING (UpCase h2) in
      if (P1 <=? 0) || (P2 <=? 0) then []
      else HexToBytes_loop Hex (Result ++ [u8 ((P1 - 1) * 16 + P2 - 1)])
  | _ => Result
  end.

Definition HexToBytes (Hex : list Z) : list Z :=
  if Nat.even (length Hex) then HexToBytes_loop Hex [] else [].

Definition SetExternalEncryptedPassword (to_utf8 : list Z -> list Z) (Password : list Z) : list Z :=
  SimpleEncryptChar PWALG_SIMPLE_FLAG ++ SimpleEncryptChar PWALG_SIMPLE_EXTERNAL ++
  until_nul (to_utf8 (BytesToHex Password true 0)).

Definition GetExternalEncryptedPassword (of_utf8 : list Z -> list Z) (AEncrypted : list Z)
  : option (list Z) :=
  let '(Flag, Encrypted) := SimpleDecryptNextChar AEncrypted in
  if Flag =? PWALG_SIMPLE_FLAG then
    let '(Version, Encrypted) := SimpleDecryptNextChar Encrypted in
    if Version =? PWALG_SIMPLE_EXTERNAL then Some (HexToBytes (of_utf8 Encrypted)) else None
  else None.

(** ** Characters *)

Lemma decrypt_encrypt_char c rest :
  is_byte c -> SimpleDecryptNextChar (SimpleEncryptChar c ++ rest) = (c, rest).
Proof.
  intros Hc. unfold SimpleEncryptChar. cbn [app SimpleDecryptNextChar]. f_equal.
  pose proof (byte_forall (fun c =>
    fst (SimpleDecryptNextChar (SimpleEncryptChar c ++ [])) =? c) eq_refl c Hc) as H.
  apply Z.eqb_eq in H. exact H.
Qed.

Lemma is_byte_dec c : (0 <=? c) && (c <? 256) = true -> is_byte c.
Proof. unfold is_byte. lia. Qed.

Lemma length_encrypt_char c : length (SimpleEncryptChar c) = 2%nat.
Proof. done. Qed.

(** The characters a scrambled password is made of. *)
Definition is_hex_digit (c : Z) : Prop := c ∈ PWALG_SIMPLE_STRING.

Lemma nth_hex_digit n : 0 <= n < 16 -> is_hex_digit (nth (Z.to_nat n) PWALG_SIMPLE_STRING 0).
Proof. intros Hn. apply list_elem_of_In, nth_In. cbn. lia. Qed.

Lemma ByteToHex_digits b : Forall is_hex_digit (ByteToHex b true).
Proof.
  apply Forall_cons. split; [|apply Forall_cons; split; [|apply Forall_nil_2]]; apply nth_hex_digit.
  - rewrite Z.shiftr_div_pow2 by lia.
    pose proof (land_bound_r 8 b 240 ltac:(lia) ltac:(lia)).
    pose proof (Z.div_lt_upper_bound (Z.land b 240) (2 ^ 4) 16 ltac:(lia) ltac:(lia)).
    pose proof (Z.div_pos (Z.land b 240) (2 ^ 4) ltac:(lia) ltac:(lia)). lia.
  - pose proof (land_bound_r 4 b 15 ltac:(lia) ltac:(lia)). lia.
Qed.

Lemma encrypt_char_digits c : Forall is_hex_digit (SimpleEncryptChar c).
Proof. apply (ByteToHex_digits (u8 (Z.lxor (Z.lnot c) PWALG_SIMPLE_MAGIC))). Qed.

Definition encrypt_bytes (l : list Z) : list Z := concat (map (fun c => SimpleEncryptChar (u8 c)) l).

Lemma length_encrypt_bytes l : length (encrypt_bytes l) = (2 * length l)%nat.
Proof. unfold encrypt_bytes. induction l as [|c l IH]; [done|]. cbn in *. lia. Qed.

Lemma decrypt_encrypt_bytes l rest :
  bytesOK l -> decrypt_chars (length l) (encrypt_bytes l ++ rest) = l.
Proof.
  unfold encrypt_bytes. induction 1 as [|c l Hc _ IH]; [done|].
  cbn [map concat length decrypt_chars]. rewrite <-app_assoc.
  rewrite decrypt_encrypt_char by apply u8_range. rewrite IH. by rewrite u8_small.
Qed.

Lemma encrypt_bytes_digits l : Forall is_hex_digit (encrypt_bytes l).
Proof.
  unfold encrypt_bytes. induction l as [|c l IH]; [by constructor|].
  cbn [map concat]. apply Forall_app. split; [apply encrypt_char_digits|done].
Qed.

Lemma until_nul_id l : 0 ∉ l -> until_nul l = l.
Proof.
  induction l as [|c l IH]; [done|]. intros [Hc Hl]%not_elem_of_cons. cbn.
  rewrite (proj2 (Z.eqb_neq c 0)) by congruence. by rewrite IH.
Qed.

(** ** The random device *)

Lemma Random_range d Max :
  0 <= d <= INT_MAX -> 1 <= Max <= 256 -> 0 <= Random d Max <= Max.
Proof.
  intros Hd Hm. unfold Random. set (q := INT_MAX / Max).
  assert (Hq : 0 < q) by (unfold q, INT_MAX; apply Z.div_str_pos; lia).
  split; [apply Z.div_pos; lia|].
  apply Z.lt_succ_r, Z.div_lt_upper_bound; [done|].
  pose proof (Z.div_mod INT_MAX Max ltac:(lia)) as Hdm. fold q in Hdm.
  pose proof (Z.mod_pos_bound INT_MAX Max ltac:(lia)).
  assert (257 <= q) by (unfold q, INT_MAX; apply Z.div_le_lower_bound; lia). nia.
Qed.

Section roundtrip.
  Context {G : Type} (draw : G -> Z * G).
  Hypothesis draw_range : forall g, 0 <= fst (draw g) <= INT_MAX.

Lemma random_chars_length n g : length (fst (random_chars draw n g)) = (2 * n)%nat.
Proof using Type.
  revert g. induction n as [|n IH]; intros g; [done|]. cbn [random_chars].
  destruct (RandomG draw 256 g) as [r g1]. specialize (IH g1).
  destruct (random_chars draw n g1) as [l g2]. cbn [fst] in *.
  rewrite length_app, length_encrypt_char. lia.
Qed.

Lemma random_chars_digits n g : Forall is_hex_digit (fst (random_chars draw n g)).
Proof using Type.
  revert g. induction n as [|n IH]; intros g; [by constructor|]. cbn [random_chars].
  destruct (RandomG draw 256 g) as [r g1]. specialize (IH g1).
  destruct (random_chars draw n g1) as [l g2]. cbn [fst] in *.
  apply Forall_app. split; [apply encrypt_char_digits|done].
Qed.

(** The padding only appends, up to the minimum length. *)
Lemma pad_loop_ok fuel Result g :
  100 <= Z.of_nat (length Result) + 2 * Z.of_nat fuel ->
  exists pad g', pad_loop draw fuel Result g = Ok (Result ++ pad, g') /\
    100 <= Z.of_nat (length (Result ++ pad)) /\
    Z.of_nat (length (Result ++ pad)) <= Z.max (Z.of_nat (length Result)) 101 /\
    Forall is_hex_digit pad /\ (exists n, length pad = 2 * n)%nat.
Proof using Type.
  revert Result g. induction fuel as [|fuel IH]; intros Result g Hf; cbn [pad_loop];
    unfold PWALG_SIMPLE_MAXLEN; destruct (Z.ltb_spec (Z.of_nat (length Result)) (50 * 2)).
  - lia.
  - exists [], g. rewrite app_nil_r. split_and!; [done|lia|lia|constructor|by exists 0%nat].
  - destruct (RandomG draw 256 g) as [r g1].
    destruct (IH (Result ++ SimpleEncryptChar (u8 r)) g1) as (pad & g' & E & H1 & H2 & H3 & n & Hn).
    { rewrite length_app, length_encrypt_char. lia. }
    exists (SimpleEncryptChar (u8 r) ++ pad), g'. rewrite app_assoc.
    split_and!; [done|done| | |].
    + rewrite (length_app Result), length_encrypt_char in H2. lia.
    + apply Forall_app. split; [apply encrypt_char_digits|done].
    + exists (S n). rewrite length_app, length_encrypt_char. lia.
  - exists [], g. rewrite app_nil_r. split_and!; [done|lia|lia|constructor|by exists 0%nat].
Qed.

Context (to_utf8 of_utf8 : list Z -> list Z).

(** The header before the noise. *)
Definition header (Len : Z) : list Z :=
  SimpleEncryptChar PWALG_SIMPLE_FLAG ++
  (if 255 <? Len then
     SimpleEncryptChar PWALG_SIMPLE_INTERNAL2 ++
     SimpleEncryptChar (u8 (Z.shiftr Len 8)) ++ SimpleEncryptChar (u8 (Z.land Len 255))
   else SimpleEncryptChar PWALG_SIMPLE_INTERNAL ++ SimpleEncryptChar (u8 Len)).

(** What a scrambled password looks like. *)
Lemma EncryptPassword_shape p k g :
  exists Shift noise pad g',
    let Password := to_utf8 k ++ until_nul (to_utf8 p) in
    let Len := Z.of_nat (length Password) in
    EncryptPassword draw to_utf8 p k g =
      Ok (header Len ++ SimpleEncryptChar (u8 Shift) ++ noise ++ encrypt_bytes Password ++ pad, g') /\
    0 <= Shift <= 50 /\ length noise = (2 * Z.to_nat Shift)%nat /\
    Forall is_hex_digit noise /\ Forall is_hex_digit pad /\
    (100 <= length (header Len ++ SimpleEncryptChar (u8 Shift) ++ noise ++
                    encrypt_bytes Password ++ pad))%nat /\
    (Z.of_nat (length (header Len)) / 2 + 1 + Len <= 50 ->
     length (header Len ++ SimpleEncryptChar (u8 Shift) ++ noise ++ encrypt_bytes Password ++ pad)
       = 100%nat).
Proof using draw_range.
  cbn zeta. set (Password := to_utf8 k ++ until_nul (to_utf8 p)).
  set (Len := Z.of_nat (length Password)). unfold EncryptPassword. cbv zeta.
  fold Password. fold Len.
  replace (if 255 <? Len then _ else _) with (header Len)
    by (unfold header; by destruct (255 <? Len)).
  set (DataLen := Z.of_nat (length (header Len)) / 2 + 1 + Len).
  assert (HDL : 4 <= DataLen).
  { assert (Hh : 6 <= Z.of_nat (length (header Len))).
    { unfold header. destruct (255 <? Len); rewrite !length_app, !length_encrypt_char; lia. }
    pose proof (Z.div_le_lower_bound (Z.of_nat (length (header Len))) 2 3 ltac:(lia) ltac:(lia)).
    unfold DataLen. lia. }
  destruct (if DataLen <? PWALG_SIMPLE_MAXLEN then _ else _) as [Shift g1] eqn:ES.
  assert (HS : 0 <= Shift <= Z.max 0 (50 - DataLen)).
  { unfold PWALG_SIMPLE_MAXLEN in ES. destruct (Z.ltb_spec DataLen 50); [|simplify_eq; lia].
    unfold RandomG in ES. pose proof (draw_range g) as Hd.
    destruct (draw g) as [d g2]. simplify_eq. cbn [fst] in Hd.
    pose proof (Random_range d (50 - DataLen) Hd ltac:(lia)). lia. }
  pose proof (random_chars_length (Z.to_nat Shift) g1) as Hnl.
  pose proof (random_chars_digits (Z.to_nat Shift) g1) as Hnd.
  destruct (random_chars draw (Z.to_nat Shift) g1) as [noise g2]. cbn [fst] in Hnl, Hnd.
  fold (encrypt_bytes Password).
  destruct (pad_loop_ok (Z.to_nat PWALG_SIMPLE_MAXLEN)
    (((header Len ++ SimpleEncryptChar (u8 Shift)) ++ noise) ++ encrypt_bytes Password) g2)
    as (pad & g' & E & H1 & H2 & H3 & np & Hnp); [unfold PWALG_SIMPLE_MAXLEN; lia|].
  exists Shift, noise, pad, g'.
  split_and!; [rewrite E; by rewrite <-!app_assoc|lia|lia|lia|done|done| |];
    rewrite !length_app in *; rewrite !length_encrypt_bytes, !length_encrypt_char in *; [lia|].
  intros Hfit.
  assert (Z.of_nat (length (header Len)) = 2 * (Z.of_nat (length (header Len)) / 2)).
  { unfold header. by destruct (255 <? Len). }
  lia.
Qed.

Lemma decrypt_header left_first Len rest k :
  0 <= Len <= 65535 -> (left_first = true \/ Len <= 255) ->
  DecryptPassword to_utf8 of_utf8 left_first (header Len ++ rest) k =
    let '(shift, Password) := SimpleDecryptNextChar rest in
    let Password := drop (Z.to_nat (shift * 2)) Password in
    let Result := decrypt_chars (Z.to_nat Len) Password in
    let Key := to_utf8 k in
    let! prefix := SubString_1 Result (Z.of_nat (length Key)) in
    if differs prefix Key then Ok (of_utf8 []) else Ok (of_utf8 (drop (length Key) Result)).
Proof using Type.
  intros HL Hord. unfold DecryptPassword, header. rewrite <-app_assoc.
  rewrite decrypt_encrypt_char by (unfold is_byte, PWALG_SIMPLE_FLAG; lia).
  rewrite Z.eqb_refl. destruct (Z.ltb_spec 255 Len) as [Hl|Hl].
  - rewrite <-!app_assoc. rewrite decrypt_encrypt_char by (unfold is_byte, PWALG_SIMPLE_INTERNAL2; lia).
    cbn [PWALG_SIMPLE_INTERNAL2 PWALG_SIMPLE_INTERNAL Z.eqb].
    rewrite !decrypt_encrypt_char by apply u8_range. destruct Hord as [->|]; [|lia].
    assert (Z.shiftl (u8 (Z.shiftr Len 8)) 8 + u8 (Z.land Len 255) = Len) as ->.
    { change 255 with (Z.ones 8). rewrite Z.land_ones, Z.shiftr_div_pow2, Z.shiftl_mul_pow2 by lia.
      unfold u8. change 256 with (2 ^ 8) at 1 2. rewrite Z.mod_mod by lia.
      rewrite (Z.mod_small (Len / 2 ^ 8)).
      - pose proof (Z.div_mod Len (2 ^ 8) ltac:(lia)). lia.
      - split; [apply Z.div_pos; lia|apply Z.div_lt_upper_bound; lia]. }
    rewrite ?Pos.eqb_refl. cbv beta iota zeta. by rewrite (proj2 (Z.leb_le 0 Len)) by lia.
  - rewrite <-app_assoc. rewrite !decrypt_encrypt_char
      by (apply u8_range || unfold is_byte, PWALG_SIMPLE_INTERNAL; lia).
    cbn [PWALG_SIMPLE_INTERNAL Z.eqb]. rewrite u8_small by lia.
    rewrite ?Pos.eqb_refl. cbv beta iota zeta. by rewrite (proj2 (Z.leb_le 0 Len)) by lia.
Qed.

(** Reading a scrambled password with any key. *)
Lemma decrypt_encrypted left_first p k k' g :
  let Password := to_utf8 k ++ until_nul (to_utf8 p) in
  bytesOK Password -> Z.of_nat (length Password) <= 65535 ->
  (left_first = true \/ Z.of_nat (length Password) <= 255) ->
  exists e g', EncryptPassword draw to_utf8 p k g = Ok (e, g') /\
    Forall is_hex_digit e /\ (100 <= length e)%nat /\
    DecryptPassword to_utf8 of_utf8 left_first e k' =
      (let! prefix := SubString_1 Password (Z.of_nat (length (to_utf8 k'))) in
       if differs prefix (to_utf8 k') then Ok (of_utf8 [])
       else Ok (of_utf8 (drop (length (to_utf8 k')) Password))).
Proof using draw_range.
  intros Password HP HL Hord.
  destruct (EncryptPassword_shape p k g) as (Shift & noise & pad & g' & E & HS & Hn & Hd1 & Hd2 & H100 & _).
  fold Password in E, H100. eexists _, g'. split; [exact E|]. split; [|split].
  - pose proof (encrypt_bytes_digits Password). unfold header.
    destruct (255 <? _); rewrite !Forall_app; auto 20 using encrypt_char_digits.
  - done.
  - rewrite decrypt_header by (done || lia).
    rewrite decrypt_encrypt_char by apply u8_range. rewrite u8_small by lia.
    cbv beta iota zeta. replace (Z.to_nat (Shift * 2)) with (length noise) by lia.
    rewrite drop_app_length, Nat2Z.id, decrypt_encrypt_bytes by done. done.
Qed.

End roundtrip.

(** ** Hexadecimal round trip *)

Lemma hex_digits_pos b rest Result :
  is_byte b ->
  HexToBytes_loop (ByteToHex b true ++ rest) Result = HexToBytes_loop rest (Result ++ [b]).
Proof.
  intros Hb. pose proof (byte_forall (fun b =>
    bool_decide (HexToBytes_loop (ByteToHex b true) [] = [b])) eq_refl b Hb) as H.
  apply bool_decide_eq_true in H. unfold ByteToHex in *. cbn [app HexToBytes_loop] in *.
  destruct (_ || _); [discriminate|]. cbn [app] in H. set (x := u8 _) in *. clearbody x.
  by injection H as ->.
Qed.

Lemma BytesToHex_cons b l :
  BytesToHex (b :: l) true 0 = ByteToHex b true ++ BytesToHex l true 0.
Proof. destruct l; [by rewrite app_nil_r|done]. Qed.

Lemma HexToBytes_loop_BytesToHex l Result :
  bytesOK l -> HexToBytes_loop (BytesToHex l true 0) Result = Result ++ l.
Proof.
  intros Hl. revert Result. induction Hl as [|b l Hb _ IH]; intros Result; [by rewrite app_nil_r|].
  rewrite BytesToHex_cons, hex_digits_pos by done. rewrite IH. by rewrite <-app_assoc.
Qed.

Lemma BytesToHex_digits l : Forall is_hex_digit (BytesToHex l true 0).
Proof.
  induction l as [|b l IH]; [by constructor|]. rewrite BytesToHex_cons.
  apply Forall_app. split; [|done]. apply ByteToHex_digits.
Qed.

Lemma digits_no_nul l : Forall is_hex_digit l -> 0 ∉ l.
Proof.
  intros Hl H0. rewrite Forall_forall in Hl. specialize (Hl 0 H0).
  unfold is_hex_digit, PWALG_SIMPLE_STRING in Hl. set_solver.
Qed.

Lemma length_BytesToHex l : length (BytesToHex l true 0) = (2 * length l)%nat.
Proof.
  induction l as [|b l IH]; [done|]. rewrite BytesToHex_cons, length_app, IH. cbn. lia.
Qed.

Lemma HexToBytes_BytesToHex l : bytesOK l -> HexToBytes (BytesToHex l true 0) = l.
Proof.
  intros Hl. unfold HexToBytes. rewrite length_BytesToHex, Nat.even_mul.
  cbn [Nat.even orb]. by apply HexToBytes_loop_BytesToHex.
Qed.

Lemma until_nul_app l rest : 0 ∉ l -> until_nul (l ++ 0 :: rest) = l.
Proof.
  induction l as [|c l IH]; [done|]. intros [Hc Hl]%not_elem_of_cons. cbn.
  rewrite (proj2 (Z.eqb_neq c 0)) by congruence. by rewrite IH.
Qed.

(** The hypotheses on concrete passwords. *)
Ltac solve_password_hyps :=
  unfold bytesOK, is_byte;
  match goal with
  | |- forall _, _ => intros []; cbn; unfold INT_MAX; lia
  | |- Forall _ _ => repeat (constructor; [cbn; lia|]); constructor
  | |- _ ∉ _ => cbn; rewrite ?not_elem_of_cons; split_and?; try lia; apply not_elem_of_nil
  | |- _ => cbn; lia
  end.

Lemma differs_refl s : differs s s = false.
Proof. unfold differs. by rewrite bool_decide_eq_false_2 by tauto. Qed.

(** C40. A scrambled password is made of hexadecimal digits, at least a hundred of
    them whatever the password (so that the length of a short one does not show),
    and gives back the password it was made from when it is read with the same
    key, whatever the random device gave.  The password has no NUL, it and the key
    are at most 65535 bytes together, and where they are more than 255 the
    compiler has to evaluate the operands of an addition from left to right. *)
Theorem password_roundtrip {G : Type} (draw : G -> Z * G) (to_utf8 of_utf8 : list Z -> list Z)
    left_first p k g
    (Hdraw : forall g, 0 <= fst (draw g) <= INT_MAX)
    (Hutf : of_utf8 (to_utf8 p) = p)
    (Hbytes : bytesOK (to_utf8 p) /\ bytesOK (to_utf8 k))
    (Hnul : 0 ∉ to_utf8 p)
    (Hlen : Z.of_nat (length (to_utf8 k ++ to_utf8 p)) <= 65535)
    (Hord : left_first = true \/ Z.of_nat (length (to_utf8 k ++ to_utf8 p)) <= 255) :
  exists e g', EncryptPassword draw to_utf8 p k g = Ok (e, g') /\
    Forall is_hex_digit e /\ (100 <= length e)%nat /\
    DecryptPassword to_utf8 of_utf8 left_first e k = Ok p.
Proof.
  destruct (decrypt_encrypted draw Hdraw to_utf8 of_utf8 left_first p k k g)
    as (e & g' & E & H1 & H2 & H3); rewrite until_nul_id in * by done;
    [apply bytesOK_app; tauto|done|done|].
  exists e, g'. split_and!; [done..|]. rewrite H3. unfold SubString_1.
  rewrite length_app, (proj2 (Z.leb_le _ _)) by lia. cbn [res_bind].
  rewrite Nat2Z.id, <-app_assoc, take_app_length, differs_refl, drop_app_length. by rewrite Hutf.
Qed.

Lemma password_roundtrip_witness :
  exists e g', EncryptPassword (fun _ : unit => (INT_MAX, tt)) id [112; 119] [117] tt = Ok (e, g') /\
    Forall is_hex_digit e /\ (100 <= length e)%nat /\
    DecryptPassword id id false e [117] = Ok [112; 119].
Proof.
  apply (password_roundtrip (fun _ : unit => (INT_MAX, tt)) id id false [112; 119] [117] tt).
  - intros []. cbn. unfold INT_MAX. lia.
  - reflexivity.
  - unfold bytesOK, is_byte. split; repeat constructor; cbn; lia.
  - cbn. rewrite !not_elem_of_cons. split_and!; [lia|lia|apply not_elem_of_nil].
  - cbn. lia.
  - right. cbn. lia.
Defined.

(** Where the key that is compared is not longer than the string. *)
Lemma key_check P K :
  0 ∉ P -> 0 ∉ K -> (length K <= length P + 1)%nat ->
  exists prefix, SubString_1 P (Z.of_nat (length K)) = Ok prefix /\
    differs prefix K = bool_decide (~ K `prefix_of` P).
Proof.
  intros HP HK HL. unfold SubString_1. rewrite (proj2 (Z.leb_le _ _)) by lia.
  rewrite Nat2Z.id. eexists. split; [done|]. unfold differs. apply bool_decide_ext.
  rewrite (until_nul_id K) by done. f_equiv.
  destruct (decide (length K = length P + 1)%nat) as [El|Hl].
  - rewrite take_ge by (rewrite length_app; cbn; lia). rewrite until_nul_app by done.
    split; [intros <-; done|]. intros [x Hx]. apply (f_equal length) in Hx.
    rewrite length_app in Hx. lia.
  - rewrite take_app_le by lia. rewrite until_nul_id.
    + split; [intros E; exists (drop (length K) P); rewrite <-E at 1; by rewrite take_drop|].
      intros [x ->]. by rewrite take_app_length.
    + intros H. apply HP. rewrite <-(take_drop (length K) P). apply elem_of_app. by left.
Qed.

(** Reading a password with any key, the one it was scrambled with or another:
    a key that is no prefix of what was stored gives the empty password, a prefix
    of it gives the rest (the key is not delimited), and a key longer by two bytes
    than all that was stored makes the check read beyond the end of the buffer. *)
Theorem password_any_key {G : Type} (draw : G -> Z * G) (to_utf8 of_utf8 : list Z -> list Z)
    left_first p k k' g
    (Hdraw : forall g, 0 <= fst (draw g) <= INT_MAX)
    (Hbytes : bytesOK (to_utf8 k ++ to_utf8 p))
    (Hnul : 0 ∉ to_utf8 k ++ to_utf8 p) (Hnul' : 0 ∉ to_utf8 k')
    (Hlen : Z.of_nat (length (to_utf8 k ++ to_utf8 p)) <= 255) :
  exists e g', EncryptPassword draw to_utf8 p k g = Ok (e, g') /\
    DecryptPassword to_utf8 of_utf8 left_first e k' =
      let P := to_utf8 k ++ to_utf8 p in
      if decide (length P + 1 < length (to_utf8 k'))%nat then Crash UndefinedBehaviour
      else if decide (to_utf8 k' `prefix_of` P) then Ok (of_utf8 (drop (length (to_utf8 k')) P))
      else Ok (of_utf8 []).
Proof.
  assert (Hp : 0 ∉ to_utf8 p) by (intros H; apply Hnul, elem_of_app; by right).
  destruct (decrypt_encrypted draw Hdraw to_utf8 of_utf8 left_first p k k' g)
    as (e & g' & E & H1 & H2 & H3); rewrite until_nul_id in * by done; [done|lia|by right|].
  exists e, g'. split; [done|]. rewrite H3. cbn zeta. case_decide as Hl.
  - unfold SubString_1. by rewrite (proj2 (Z.leb_gt _ _)) by lia.
  - destruct (key_check _ _ Hnul Hnul' ltac:(lia)) as (x & -> & Hd). cbn [res_bind]. rewrite Hd.
    case_decide; by rewrite ?bool_decide_eq_true_2, ?bool_decide_eq_false_2 by tauto.
Qed.

Lemma password_any_key_witness :
  (exists e g', EncryptPassword (fun _ : unit => (INT_MAX, tt)) id [112] [117; 118] tt = Ok (e, g') /\
     DecryptPassword id id true e [117] = Ok [118; 112]) /\
  (exists e g', EncryptPassword (fun _ : unit => (INT_MAX, tt)) id [112] [117; 118] tt = Ok (e, g') /\
     DecryptPassword id id true e [120] = Ok []) /\
  (exists e g', EncryptPassword (fun _ : unit => (INT_MAX, tt)) id [112] [117; 118] tt = Ok (e, g') /\
     DecryptPassword id id true e [117; 118; 112; 112; 112] = Crash UndefinedBehaviour).
Proof.
  split_and!.
  - apply (password_any_key (fun _ : unit => (INT_MAX, tt)) id id true [112] [117; 118] [117] tt);
      solve_password_hyps.
  - apply (password_any_key (fun _ : unit => (INT_MAX, tt)) id id true [112] [117; 118] [120] tt);
      solve_password_hyps.
  - apply (password_any_key (fun _ : unit => (INT_MAX, tt)) id id true [112] [117; 118]
      [117; 118; 112; 112; 112] tt); solve_password_hyps.
Defined.

(** A password scrambled with a master password is stored as hexadecimal
    behind a header of its own: it is read back as it was, any string of bytes,
    it is not taken for an ordinary scrambled password (reading it as one gives
    the empty password), and an ordinary one is not taken for it. *)
Theorem external_password_roundtrip {G : Type} (draw : G -> Z * G)
    (to_utf8 of_utf8 : list Z -> list Z) left_first Password p k g
    (Hdraw : forall g, 0 <= fst (draw g) <= INT_MAX)
    (Hascii : forall s, Forall is_hex_digit s -> to_utf8 s = s /\ of_utf8 s = s)
    (Hbytes : bytesOK Password) :
  GetExternalEncryptedPassword of_utf8 (SetExternalEncryptedPassword to_utf8 Password)
    = Some Password /\
  DecryptPassword to_utf8 of_utf8 left_first (SetExternalEncryptedPassword to_utf8 Password) k
    = Ok (of_utf8 []) /\
  exists e g', EncryptPassword draw to_utf8 p k g = Ok (e, g') /\
    GetExternalEncryptedPassword of_utf8 e = None.
Proof.
  destruct (Hascii _ (BytesToHex_digits Password)) as [E1 E2].
  unfold SetExternalEncryptedPassword. rewrite E1, until_nul_id
    by (apply digits_no_nul, BytesToHex_digits). split_and!.
  - unfold GetExternalEncryptedPassword.
    rewrite !decrypt_encrypt_char by (by apply is_byte_dec).
    cbn [Z.eqb Pos.eqb PWALG_SIMPLE_FLAG PWALG_SIMPLE_EXTERNAL].
    by rewrite E2, HexToBytes_BytesToHex.
  - unfold DecryptPassword. by rewrite !decrypt_encrypt_char by (by apply is_byte_dec).
  - destruct (EncryptPassword_shape draw Hdraw to_utf8 p k g)
      as (Shift & noise & pad & g' & E & _).
    eexists _, g'. split; [exact E|]. unfold GetExternalEncryptedPassword, header.
    destruct (255 <? _); rewrite <-!app_assoc;
      by rewrite !decrypt_encrypt_char by (apply u8_range || (by apply is_byte_dec)).
Qed.

Lemma external_password_roundtrip_witness :
  GetExternalEncryptedPassword id (SetExternalEncryptedPassword id [0; 255; 16])
    = Some [0; 255; 16].
Proof.
  apply (external_password_roundtrip (fun _ : unit => (INT_MAX, tt)) id id true [0; 255; 16] [] [] tt).
  - solve_password_hyps.
  - by intros s _.
  - solve_password_hyps.
Defined.

(** Where the operands are evaluated from right to left, a long password is not
    read back. *)
Example password_order_matters :
  exists e g', EncryptPassword (fun _ : unit => (INT_MAX, tt)) id (repeat 97 257) [117] tt = Ok (e, g') /\
    DecryptPassword id id true e [117] = Ok (repeat 97 257) /\
    DecryptPassword id id false e [117] <> Ok (repeat 97 257).
Proof. eexists _, tt. split; [vm_compute; reflexivity|]. by vm_compute. Qed.

(** [Random(Max)] reaches [Max] at the end of the distribution. *)
Example Random_reaches_Max : Random INT_MAX 256 = 256.
Proof. reflexivity. Qed.
