(* ===== verification/MemStream.v ===== *)
(** * Memory streams (src/base/Classes.cpp)

    [TMemoryStream] keeps a block of memory that grows in steps of 8192 bytes, the
    size of its contents and a position.  A byte of memory is [None] until
    something is written to it.  Sizes and positions are 64-bit integers in the
    code and [Z] here: none of the functions can reach 2^63 from sizes that fit
    in memory.  Memory can always be allocated. *)

From S2P Require Import Prelude Strbuf.
Local Open Scope cmodel_scope.
Local Open Scope Z_scope.

Record TMemoryStream := MemStream {
  FMemory : memory;
  FSize : Z;
  FCapacity : Z;
  FPosition : Z
}.

Inductive TSeekOrigin := soBeginning | soCurrent | soEnd.

Definition MemoryDelta : Z := 8192.

(** The default values of the fields. *)
Definition new_stream : TMemoryStream := MemStream [] 0 0 0.

Definition Seek (s : TMemoryStream) (Offset : Z) (Origin : TSeekOrigin) : Z * TMemoryStream :=
  let pos := match Origin with
             | soBeginning => Offset
             | soCurrent => FPosition s + Offset
             | soEnd => FSize s + Offset
             end in
  (pos, MemStream (FMemory s) (FSize s) (FCapacity s) pos).

Definition GetPosition (s : TMemoryStream) : Z := (Seek s 0 soCurrent).1.

Definition GetSize (s : TMemoryStream) : Z := FSize s.

(** The capacity that is taken and the block of memory.  A negative capacity is
    a huge [size_t], which no allocation satisfies. *)
Definition Realloc (s : TMemoryStream) (NewCapacity : Z) : res (Z * memory) :=
  let NewCapacity :=
    if (0 <? NewCapacity) && negb (NewCapacity =? FSize s)
    then Z.land (NewCapacity + (MemoryDelta - 1)) (Z.lnot (MemoryDelta - 1))
    else NewCapacity in
  if NewCapacity =? FCapacity s then Ok (NewCapacity, FMemory s)
  else if NewCapacity =? 0 then Ok (NewCapacity, [])
  else if NewCapacity <? 0 then Crash OutOfMemory
  else if FCapacity s =? 0 then Ok (NewCapacity, replicate (Z.to_nat NewCapacity) (Some 0))
  else
    let n := Z.to_nat NewCapacity in
    Ok (NewCapacity, take n (FMemory s) ++ replicate (n - length (FMemory s)) None).

Definition SetPointer (s : TMemoryStream) (Ptr : memory) (ASize : Z) : TMemoryStream :=
  MemStream Ptr ASize (FCapacity s) (FPosition s).

Definition SetCapacity (s : TMemoryStream) (NewCapacity : Z) : res TMemoryStream :=
  let! (cap, mem) := Realloc s NewCapacity in
  let s := SetPointer s mem (FSize s) in
  Ok (MemStream (FMemory s) (FSize s) cap (FPosition s)).

Definition SetSize (s : TMemoryStream) (NewSize : Z) : res TMemoryStream :=
  let OldPosition := FPosition s in
  let! s := SetCapacity s NewSize in
  let s := MemStream (FMemory s) NewSize (FCapacity s) (FPosition s) in
  Ok (if NewSize <? OldPosition then (Seek s 0 soEnd).2 else s).

Definition Clear (s : TMemoryStream) : res TMemoryStream :=
  let! s := SetCapacity s 0 in
  Ok (MemStream (FMemory s) 0 (FCapacity s) 0).

(** [n] bytes of memory from [off] on. *)
Definition mem_read (m : memory) (off n : Z) : res memory :=
  if (0 <=? off) && (0 <=? n) && (off + n <=? Z.of_nat (length m))
  then Ok (take (Z.to_nat n) (drop (Z.to_nat off) m))
  else Crash UndefinedBehaviour.

(** The bytes that go to the caller's buffer; their number is the result. *)
Definition ms_Read (s : TMemoryStream) (Count : Z) : res (memory * TMemoryStream) :=
  if (0 <=? FPosition s) && (0 <=? Count) then
    let Result := FSize s - FPosition s in
    if 0 <? Result then
      let Result := if Count <? Result then Count else Result in
      let! bytes := mem_read (FMemory s) (FPosition s) Result in
      Ok (bytes, MemStream (FMemory s) (FSize s) (FCapacity s) (FPosition s + Result))
    else Ok ([], s)
  else Ok ([], s).

Definition ms_Write (s : TMemoryStream) (Buffer : memory) : res (Z * TMemoryStream) :=
  let Count := Z.of_nat (length Buffer) in
  if (0 <=? FPosition s) && (0 <=? Count) then
    let Pos := FPosition s + Count in
    if 0 <? Pos then
      let! s :=
        (if FSize s <? Pos then
           let! s := (if FCapacity s <? Pos then SetCapacity s Pos else Ok s) in
           Ok (MemStream (FMemory s) Pos (FCapacity s) (FPosition s))
         else Ok s) in
      let! mem := memcpy (FMemory s) (FPosition s) Buffer in
      Ok (Count, MemStream mem (FSize s) (FCapacity s) Pos)
    else Ok (0, s)
  else Ok (0, s).

(** ** The invariant and what a stream holds *)

Record stream_ok (s : TMemoryStream) : Prop := {
  so_length : Z.of_nat (length (FMemory s)) = FCapacity s;
  so_size : 0 <= FSize s <= FCapacity s
}.

(** The contents; a byte may be undefined. *)
Definition contents (s : TMemoryStream) : memory := take (Z.to_nat (FSize s)) (FMemory s).

Definition stream_holds (s : TMemoryStream) (bytes : list Z) : Prop :=
  stream_ok s /\ contents s = Some <$> bytes.

Lemma GetSize_eq s : GetSize s = FSize s.
Proof. done. Qed.

Lemma GetPosition_eq s : GetPosition s = FPosition s.
Proof. unfold GetPosition, Seek. cbn. lia. Qed.

Lemma length_contents s : stream_ok s -> Z.of_nat (length (contents s)) = FSize s.
Proof. intros [H1 H2]. unfold contents. rewrite length_take. lia. Qed.

Lemma holds_size s bytes : stream_holds s bytes -> FSize s = Z.of_nat (length bytes).
Proof. intros [Hok Hc]. rewrite <-length_contents, Hc, length_fmap by done. done. Qed.

(** The memory is the contents and something behind them. *)
Lemma memory_split s :
  stream_ok s -> exists rest, FMemory s = contents s ++ rest /\
    Z.of_nat (length rest) = FCapacity s - FSize s.
Proof.
  intros [H1 H2]. exists (drop (Z.to_nat (FSize s)) (FMemory s)).
  unfold contents. rewrite take_drop. split; [done|]. rewrite length_drop. lia.
Qed.

Lemma round_up_spec n :
  n <= Z.land (n + (MemoryDelta - 1)) (Z.lnot (MemoryDelta - 1)) < n + MemoryDelta.
Proof.
  unfold MemoryDelta. change (8192 - 1) with (Z.ones 13). rewrite <-Z.ldiff_land.
  rewrite Z.ldiff_ones_r, Z.shiftl_mul_pow2, Z.shiftr_div_pow2 by lia.
  change (Z.ones 13) with (8192 - 1). change (2 ^ 13) with 8192.
  pose proof (Z.div_mod (n + (8192 - 1)) 8192 ltac:(lia)).
  pose proof (Z.mod_pos_bound (n + (8192 - 1)) 8192 ltac:(lia)). lia.
Qed.

(** Changing the capacity keeps what fits. *)
Lemma Realloc_ok s n :
  stream_ok s -> 0 <= n ->
  exists cap mem, Realloc s n = Ok (cap, mem) /\ n <= cap /\ (n = 0 -> cap = 0) /\
    Z.of_nat (length mem) = cap /\
    take (Z.to_nat (Z.min n (FSize s))) mem = take (Z.to_nat n) (contents s).
Proof.
  intros Hok Hn. unfold Realloc. set (n1 := if _ && _ then _ else n).
  assert (Hn1 : n <= n1 /\ (n = 0 -> n1 = 0)).
  { unfold n1. destruct (Z.ltb_spec 0 n); cbn [andb]; [|lia].
    destruct (n =? FSize s); cbn [negb]; [lia|]. pose proof (round_up_spec n). lia. }
  clearbody n1. destruct Hn1 as [Hle H0].
  assert (Hcont : forall rest, take (Z.to_nat (Z.min n (FSize s))) (contents s ++ rest)
                               = take (Z.to_nat n) (contents s)).
  { intros rest. pose proof (length_contents s Hok). rewrite take_app_le by lia.
    destruct (Z.le_gt_cases n (FSize s)); [by rewrite Z.min_l by lia|].
    rewrite Z.min_r by lia. by rewrite !take_ge by lia. }
  destruct (memory_split s Hok) as (rest & Em & Hrest). pose proof Hok as [Hl Hs].
  destruct (Z.eqb_spec n1 (FCapacity s)) as [->|Hc].
  { exists (FCapacity s), (FMemory s). split_and!; [done|lia|lia|done|]. by rewrite Em. }
  destruct (Z.eqb_spec n1 0) as [->|Hz].
  { exists 0, []. replace n with 0 by lia. cbn. split_and!; [done|lia|lia|done|].
    by rewrite Z.min_l by lia. }
  rewrite (proj2 (Z.ltb_ge _ _)) by lia.
  destruct (Z.eqb_spec (FCapacity s) 0) as [Hc0|Hc0].
  - eexists _, _. split_and!; [done|lia|lia|rewrite length_replicate; lia|].
    assert (contents s = []) as ->.
    { apply length_zero_iff_nil. pose proof (length_contents s Hok). lia. }
    rewrite take_nil. rewrite Z.min_r by lia. replace (FSize s) with 0 by lia. done.
  - eexists _, _. split_and!; [done|lia|lia| |].
    + rewrite length_app, length_take, length_replicate. lia.
    + rewrite take_app_le by (rewrite length_take; lia). rewrite take_take, Nat.min_l by lia.
      by rewrite Em.
Qed.

Lemma SetCapacity_ok s n :
  stream_ok s -> 0 <= n ->
  exists mem cap, SetCapacity s n = Ok (MemStream mem (FSize s) cap (FPosition s)) /\
    n <= cap /\ (n = 0 -> cap = 0) /\ Z.of_nat (length mem) = cap /\
    exists junk, mem = take (Z.to_nat n) (contents s) ++ junk.
Proof.
  intros Hok Hn. destruct (Realloc_ok s n Hok Hn) as (cap & mem & E & H1 & H2 & H3 & H4).
  exists mem, cap. unfold SetCapacity. rewrite E. cbn [res_bind]. split_and!; [done..|].
  rewrite <-H4. eexists. by rewrite take_drop.
Qed.

(** Changing the size keeps the contents that remain; what is added is
    undefined. *)
Lemma SetSize_ok s n :
  stream_ok s -> 0 <= n ->
  exists s', SetSize s n = Ok s' /\ stream_ok s' /\
    FPosition s' = (if n <? FPosition s then n else FPosition s) /\ FSize s' = n /\
    exists junk, contents s' = take (Z.to_nat n) (contents s) ++ junk.
Proof.
  intros Hok Hn. destruct (SetCapacity_ok s n Hok Hn) as (mem & cap & E & H1 & H2 & H3 & junk & Em).
  unfold SetSize. rewrite E. cbn [res_bind FSize FMemory FCapacity FPosition].
  eexists. split; [done|]. pose proof (length_contents s Hok) as Hlc.
  assert (Hc : exists junk', take (Z.to_nat n) mem = take (Z.to_nat n) (contents s) ++ junk').
  { rewrite Em, take_app. rewrite take_take, Nat.min_id. by eexists. }
  destruct (n <? FPosition s); cbn; (split; [split; cbn; lia|]); (split; [lia|]); by split.
Qed.

Lemma SetSize_shrink s n bytes :
  stream_holds s bytes -> 0 <= n <= Z.of_nat (length bytes) ->
  exists s', SetSize s n = Ok s' /\ stream_holds s' (take (Z.to_nat n) bytes) /\
    FPosition s' = (if n <? FPosition s then n else FPosition s).
Proof.
  intros [Hok Hc] Hn. destruct (SetSize_ok s n Hok ltac:(lia)) as (s' & E & Hok' & Hp & Hs & junk & Hj).
  exists s'. split; [done|]. split; [|done]. split; [done|].
  rewrite Hc, <-fmap_take in Hj. rewrite Hj.
  assert (junk = []) as ->; [|by rewrite app_nil_r].
  apply (f_equal length) in Hj. pose proof (length_contents s' Hok').
  rewrite length_app, length_fmap, length_take in Hj. apply length_zero_iff_nil. lia.
Qed.

(** Overwriting inside the contents. *)
Lemma memcpy_contents s off src s' :
  stream_ok s -> 0 <= off -> off + Z.of_nat (length src) <= FSize s ->
  FSize s' = FSize s -> FCapacity s' = FCapacity s ->
  memcpy (FMemory s) off src = Ok (FMemory s') ->
  stream_ok s' /\
  contents s' = take (Z.to_nat off) (contents s) ++ src ++
                drop (Z.to_nat off + length src) (contents s).
Proof.
  intros Hok Ho Hs E1 E2 E. pose proof (length_contents s Hok) as Hl.
  destruct (memory_split s Hok) as (rest & Em & Hr). destruct Hok as [H1 H2].
  rewrite memcpy_ok in E by lia. injection E as E. rewrite Em in E.
  rewrite take_app_le, drop_app_le in E by lia. split.
  - split; [|lia]. rewrite <-E, E2. rewrite !length_app, length_take, length_drop. lia.
  - unfold contents at 1. rewrite <-E, E1. rewrite !app_assoc, take_app_le.
    + rewrite take_ge; [done|]. rewrite !length_app, length_take, length_drop. lia.
    + rewrite !length_app, length_take, length_drop. lia.
Qed.

Lemma mem_read_contents s off n :
  stream_ok s -> 0 <= off -> 0 <= n -> off + n <= FSize s ->
  mem_read (FMemory s) off n = Ok (take (Z.to_nat n) (drop (Z.to_nat off) (contents s))).
Proof.
  intros Hok Ho Hn Hs. pose proof (length_contents s Hok).
  destruct (memory_split s Hok) as (rest & Em & Hr). destruct Hok as [H1 H2].
  unfold mem_read. rewrite !(proj2 (Z.leb_le _ _)) by lia. cbn [andb]. f_equal.
  rewrite Em, drop_app_le, take_app_le by (rewrite ?length_drop; lia). done.
Qed.

(** ** Reading and writing *)

(** What a client of a stream relies on: [Read] copies the next bytes to the
    caller and returns fewer than asked for only at the end. *)
Class TStream (S : Type) := Read : S -> Z -> res (memory * S).
Class LawfulStream (S : Type) `{TStream S} := {
  remaining : S -> list Z -> Prop;
  Read_remaining : forall s bytes n, remaining s bytes -> 0 <= n ->
    exists s', Read s n = Ok (Some <$> take (Z.to_nat n) bytes, s') /\
      remaining s' (drop (Z.to_nat n) bytes)
}.

#[export] Instance memory_stream : TStream TMemoryStream := ms_Read.

Lemma ms_Read_ok s bytes n :
  stream_holds s bytes -> 0 <= FPosition s -> 0 <= n ->
  exists s', ms_Read s n = Ok (Some <$> take (Z.to_nat n) (drop (Z.to_nat (FPosition s)) bytes), s') /\
    stream_holds s' bytes /\
    FPosition s' = FPosition s + Z.max 0 (Z.min n (Z.of_nat (length bytes) - FPosition s)).
Proof.
  intros Hs Hp Hn. pose proof (holds_size s bytes Hs) as Hsz. pose proof Hs as [Hok Hc].
  unfold ms_Read. rewrite !(proj2 (Z.leb_le _ _)) by lia. cbn [andb].
  destruct (Z.ltb_spec 0 (FSize s - FPosition s)) as [Hpos|Hend].
  - set (k := if n <? _ then _ else _).
    assert (Hk : k = Z.min n (FSize s - FPosition s)) by (unfold k; destruct (Z.ltb_spec n (FSize s - FPosition s)); lia).
    clearbody k. rewrite mem_read_contents by (done || lia). cbn [res_bind]. eexists. split; [|split].
    + rewrite Hc, <-fmap_drop, <-fmap_take. f_equal. f_equal. f_equal.
      destruct (Z.le_gt_cases n (FSize s - FPosition s)); [by rewrite Hk, Z.min_l by lia|].
      rewrite !take_ge by (rewrite length_drop; lia). done.
    + split; [by destruct Hok; split|done].
    + cbn [FPosition]. lia.
  - exists s. rewrite drop_ge by lia. rewrite take_nil. split_and!; [done|done|lia].
Qed.

(** What is left to read. *)
Definition ms_remaining (s : TMemoryStream) (bytes : list Z) : Prop :=
  exists all, stream_holds s all /\ 0 <= FPosition s /\ bytes = drop (Z.to_nat (FPosition s)) all.

#[export] Instance memory_stream_lawful : LawfulStream TMemoryStream.
Proof.
  refine {| remaining := ms_remaining |}. intros s bytes n (all & Hs & Hp & ->) Hn.
  destruct (ms_Read_ok s all n Hs Hp Hn) as (s' & E & Hs' & Hp'). exists s'. split; [exact E|].
  exists all. split; [done|]. split; [lia|]. rewrite drop_drop, Hp'.
  destruct (Z.le_gt_cases (FPosition s + n) (Z.of_nat (length all))); [f_equal; lia|].
  by rewrite !drop_ge by lia.
Defined.

(** The growth before a write. *)
Lemma Write_grows s bytes Pos :
  stream_holds s bytes -> 0 <= Pos ->
  exists s1, (if FSize s <? Pos then
       let! s := (if FCapacity s <? Pos then SetCapacity s Pos else Ok s) in
       Ok (MemStream (FMemory s) Pos (FCapacity s) (FPosition s)) else Ok s) = Ok s1 /\
     stream_ok s1 /\ FPosition s1 = FPosition s /\ FSize s1 = Z.max Pos (FSize s) /\
     exists junk, contents s1 = (Some <$> bytes) ++ junk.
Proof.
  intros Hs HPos. pose proof (holds_size s bytes Hs) as Hsz. pose proof Hs as [Hok Hc].
  destruct (Z.ltb_spec (FSize s) Pos).
    2:{ exists s. split_and!; [done..|lia|]. exists []. by rewrite app_nil_r. }
    destruct (memory_split s Hok) as (rest & Em & Hr). destruct (Z.ltb_spec (FCapacity s) Pos).
    - destruct (SetCapacity_ok s Pos Hok ltac:(lia)) as (mem & cap & E & H1 & H2 & H3 & junk & Hj).
      rewrite E. cbn [res_bind]. eexists. split; [done|]. split; [split; cbn; lia|].
      split; [done|]. split; [cbn; lia|]. unfold contents at 1. cbn. rewrite Hj, Hc.
      rewrite (take_ge (Some <$> bytes)) by (rewrite length_fmap; lia).
      rewrite take_app. rewrite take_ge by (rewrite length_fmap; lia). by eexists.
    - cbn [res_bind]. eexists. split; [done|]. split; [destruct Hok; split; cbn; lia|].
      split; [done|]. split; [cbn; lia|]. unfold contents at 1. cbn. rewrite Em, Hc, take_app.
      rewrite take_ge by (rewrite length_fmap; lia). by eexists.
Qed.

Lemma ms_Write_ok s bytes data :
  stream_holds s bytes -> 0 <= FPosition s <= Z.of_nat (length bytes) ->
  exists s', ms_Write s (Some <$> data) = Ok (Z.of_nat (length data), s') /\
    stream_holds s' (take (Z.to_nat (FPosition s)) bytes ++ data ++
                     drop (Z.to_nat (FPosition s) + length data) bytes) /\
    FPosition s' = FPosition s + Z.of_nat (length data).
Proof.
  intros Hs Hp. pose proof (holds_size s bytes Hs) as Hsz. pose proof Hs as [Hok Hc].
  unfold ms_Write. rewrite length_fmap, !(proj2 (Z.leb_le _ _)) by lia. cbn [andb].
  set (Pos := FPosition s + Z.of_nat (length data)).
  destruct (Z.ltb_spec 0 Pos) as [HPos|HPos].
  2:{ exists s. assert (data = []) as -> by (apply length_zero_iff_nil; lia).
      replace (FPosition s) with 0 by lia. rewrite take_0, drop_0. cbn. split_and!; [done..|lia]. }
  destruct (Write_grows s bytes Pos Hs ltac:(lia)) as (s1 & -> & Hok1 & Hp1 & Hs1 & junk & Hj).
  cbn [res_bind].
  assert (Hl1 : length (FMemory s1) = Z.to_nat (FCapacity s1)) by (destruct Hok1; lia).
  pose proof Hok1 as [H1a H1b].
  rewrite memcpy_ok by (rewrite ?length_fmap; lia). cbn [res_bind]. eexists. split; [done|].
  split; [|cbn; lia].
  assert (Hw : memcpy (FMemory s1) (FPosition s1) (Some <$> data) = Ok (FMemory
    (MemStream (take (Z.to_nat (FPosition s1)) (FMemory s1) ++ (Some <$> data) ++
       drop (Z.to_nat (FPosition s1) + length (Some <$> data)) (FMemory s1))
       (FSize s1) (FCapacity s1) Pos))) by (by rewrite memcpy_ok by (rewrite ?length_fmap; lia)).
  eapply memcpy_contents in Hw as [Hok2 Hc2]; [|done|lia|rewrite length_fmap; lia|done|done].
  split; [done|]. rewrite Hc2, Hj, Hp1, length_fmap.
  rewrite take_app_le by (rewrite length_fmap; lia). rewrite !fmap_app, fmap_take, fmap_drop.
  do 2 f_equal. pose proof (length_contents s1 Hok1) as Hlj. rewrite Hj, length_app, length_fmap in Hlj.
  rewrite drop_app. rewrite (drop_ge junk); [by rewrite app_nil_r|]. rewrite length_fmap. lia.
Qed.

Lemma Clear_ok s : stream_ok s -> exists s', Clear s = Ok s' /\ stream_holds s' [] /\ FPosition s' = 0.
Proof.
  intros Hok. destruct (SetCapacity_ok s 0 Hok ltac:(lia)) as (mem & cap & E & H1 & H2 & H3 & _).
  unfold Clear. rewrite E. eexists. split; [done|]. cbn. split; [|done].
  specialize (H2 eq_refl). subst cap. split; [split; cbn; lia|]. unfold contents. cbn. done.
Qed.

Lemma new_stream_holds : stream_holds new_stream [].
Proof. split; [split; cbn; lia|done]. Qed.

(** A memory stream behaves as a file of bytes with a position: writing at a
    position within the contents overwrites and extends them, reading returns the
    bytes at the position, fewer only at the end, truncating keeps the beginning
    and moves a position beyond it to the end, and clearing frees everything; the
    memory is never left and keeps its capacity above the size. *)
Theorem memory_stream_is_file s bytes :
  stream_holds s bytes -> 0 <= FPosition s <= Z.of_nat (length bytes) ->
  (forall data, exists s', ms_Write s (Some <$> data) = Ok (Z.of_nat (length data), s') /\
     stream_holds s' (take (Z.to_nat (FPosition s)) bytes ++ data ++
                      drop (Z.to_nat (FPosition s) + length data) bytes) /\
     FPosition s' = FPosition s + Z.of_nat (length data)) /\
  (forall n, 0 <= n -> exists s',
     ms_Read s n = Ok (Some <$> take (Z.to_nat n) (drop (Z.to_nat (FPosition s)) bytes), s') /\
     stream_holds s' bytes /\
     FPosition s' = Z.min (FPosition s + n) (Z.of_nat (length bytes))) /\
  (forall n, 0 <= n <= Z.of_nat (length bytes) -> exists s',
     SetSize s n = Ok s' /\ stream_holds s' (take (Z.to_nat n) bytes) /\
     FPosition s' = Z.min n (FPosition s)) /\
  (exists s', Clear s = Ok s' /\ stream_holds s' [] /\ FCapacity s' = 0 /\ FPosition s' = 0).
Proof.
  intros Hs Hp. split_and!.
  - intros data. by apply ms_Write_ok.
  - intros n Hn. destruct (ms_Read_ok s bytes n Hs ltac:(lia) Hn) as (s' & E & Hs' & Hp').
    exists s'. split_and!; [done..|lia].
  - intros n Hn. destruct (SetSize_shrink s n bytes Hs Hn) as (s' & E & Hs' & Hp').
    exists s'. split_and!; [done..|]. rewrite Hp'. destruct (Z.ltb_spec n (FPosition s)); lia.
  - destruct (SetCapacity_ok s 0 (proj1 Hs) ltac:(lia)) as (mem & cap & E & _ & H0 & H1 & _).
    specialize (H0 eq_refl). subst cap. unfold Clear. rewrite E. eexists. split; [done|].
    split; [|done]. split; [split; cbn; lia|done].
Qed.

Lemma memory_stream_is_file_witness :
  exists s', ms_Write (MemStream (Some <$> [1; 2; 3]) 3 3 2) (Some <$> [7; 8; 9]) = Ok (3, s') /\
    stream_holds s' [1; 2; 7; 8; 9] /\ FPosition s' = 5.
Proof.
  apply (memory_stream_is_file (MemStream (Some <$> [1; 2; 3]) 3 3 2) [1; 2; 3]).
  - split; [split; cbn; lia|done].
  - cbn. lia.
Defined.
