(* ===== verification/FileBuffer.v ===== *)
(** * Text conversion of file buffers (src/base/FileBuffer.cpp)

    A transfer in text mode reads the file block by block into a [TFileBuffer],
    converts the line ends of the block in place, and sends or stores it.
    [Convert] has a token that carries over whether a block ended between the
    two characters of a line end.

    A [TFileBuffer] has one field, its memory stream; the functions here work on
    that stream.  Indexes into the buffer are [int32_t] in the code; buffers are
    blocks of a file, far below 2^31 bytes. *)

From S2P Require Import Prelude Marshal Strbuf MemStream.
Local Open Scope cmodel_scope.
Local Open Scope Z_scope.

Inductive TEOLType := eolLF | eolCRLF | eolCR.

#[export] Instance TEOLType_eq_dec : EqDecision TEOLType.
Proof. solve_decision. Defined.

Definition LF : Z := 10.
Definition CR : Z := 13.

(** The characters without the terminator. *)
Definition EOLToStr (EOLType : TEOLType) : list Z :=
  match EOLType with eolLF => [LF] | eolCRLF => [CR; LF] | eolCR => [CR] end.

Definition cpRemoveCtrlZ : Z := 1.
Definition cpRemoveBOM : Z := 2.
Definition FLAGSET (SET FLAG : Z) : bool := Z.land SET FLAG =? FLAG.
Definition CONST_BOM : list Z := [239; 187; 191].

(** ** The buffer *)

Definition fb_SetSize (s : TMemoryStream) (Value : Z) : res TMemoryStream :=
  if GetSize s =? Value then Ok s else SetSize s Value.

(** [*(GetData() + Index)]; a read of a byte that was never written is
    undefined. *)
Definition char_at (s : TMemoryStream) (Index : Z) : res Z :=
  let! m := mem_read (FMemory s) Index 1 in
  match m with [Some c] => Ok c | _ => Crash UndefinedBehaviour end.

(** Write to the buffer's memory. *)
Definition poke (s : TMemoryStream) (Index : Z) (src : memory) : res TMemoryStream :=
  let! mem := memcpy (FMemory s) Index src in
  Ok (MemStream mem (FSize s) (FCapacity s) (FPosition s)).

Definition fb_Insert (s : TMemoryStream) (Index : Z) (Buf : list Z) : res TMemoryStream :=
  let Len := Z.of_nat (length Buf) in
  let! s := fb_SetSize s (GetSize s + Len) in
  let! moved := mem_read (FMemory s) Index (GetSize s - Index - Len) in
  let! s := poke s (Index + Len) moved in
  poke s Index (Some <$> Buf).

Definition fb_Delete (s : TMemoryStream) (Index Len : Z) : res TMemoryStream :=
  let! moved := mem_read (FMemory s) (Index + Len) (GetSize s - Index - Len) in
  let! s := poke s Index moved in
  fb_SetSize s (GetSize s - Len).

Definition NeedSpace (s : TMemoryStream) (Len : Z) : res TMemoryStream :=
  fb_SetSize s (GetPosition s + Len).

Definition ProcessRead (s : TMemoryStream) (Len Result : Z) : res TMemoryStream :=
  let! s := (if negb (Result =? Len) then fb_SetSize s (GetSize s - Len + Result) else Ok s) in
  Ok (Seek s Result soCurrent).2.

(** Not enough data where all of it is required is an exception. *)
Definition ReadStream {S} `{TStream S} (s : TMemoryStream) (Stream : S) (Len : Z) (ForceLen : bool)
  : res (Z * TMemoryStream * S) :=
  let! s := NeedSpace s Len in
  let! (bytes, Stream) := (if ForceLen && (Len =? 0) then Ok ([], Stream) else Read Stream Len) in
  let! s := poke s (GetPosition s) bytes in
  let n := Z.of_nat (length bytes) in
  if ForceLen && negb (n =? Len) then Crash Exception
  else
    let Result := if ForceLen then Len else n in
    let! s := ProcessRead s Len (Result mod 2 ^ 32) in
    Ok (Result, s, Stream).

Definition LoadStream {S} `{TStream S} (s : TMemoryStream) (Stream : S) (Len : Z) (ForceLen : bool)
  : res (Z * TMemoryStream * S) :=
  ReadStream (Seek s 0 soBeginning).2 Stream Len ForceLen.

(** ** The conversion *)

Section loops.
  (** [Source[0]], [Source[1]], [Dest[0]] and [Dest[1]]. *)
  Context (Source0 Source1 Dest0 Dest1 : Z).

(** The loop for a line end of one character. *)
Fixpoint convert1_loop (fuel : nat) (PrevToken Token : bool) (Index : Z) (s : TMemoryStream)
  : res (bool * TMemoryStream) :=
  if Index <? GetSize s then
    match fuel with
    | O => Crash OutOfFuel
    | S fuel =>
        let! c := char_at s Index in
        let! already :=
          (if (Index <? GetSize s - 1) && (c =? Dest0)
           then let! c1 := char_at s (Index + 1) in Ok (c1 =? Dest1) else Ok false) in
        if already then convert1_loop fuel PrevToken Token (Index + 2) s
        else if (Index =? 0) && PrevToken && (c =? Dest1) then
          let! s := fb_Delete s Index 1 in
          convert1_loop fuel PrevToken Token Index s
        else if (c =? Dest0) && (Index =? GetSize s - 1) && negb (Dest1 =? 0) then
          let! s := fb_Insert s (Index + 1) [Dest1] in
          convert1_loop fuel PrevToken true (Index + 2) s
        else if c =? Source0 then
          let! s := poke s Index [Some Dest0] in
          if negb (Dest1 =? 0) then
            let! s := fb_Insert s (Index + 1) [Dest1] in
            convert1_loop fuel PrevToken Token (Index + 2) s
          else convert1_loop fuel PrevToken Token (Index + 1) s
        else convert1_loop fuel PrevToken Token (Index + 1) s
    end
  else Ok (Token, s).

(** The loop for a line end of two characters; the index it ends with. *)
Fixpoint convert2_loop (fuel : nat) (Index : Z) (s : TMemoryStream) : res (Z * TMemoryStream) :=
  if Index <? GetSize s - 1 then
    match fuel with
    | O => Crash OutOfFuel
    | S fuel =>
        let! c := char_at s Index in
        let! c1 := char_at s (Index + 1) in
        if (c =? Source0) && (c1 =? Source1) then
          let! s := poke s Index [Some Dest0] in
          if negb (Dest1 =? 0) then
            let! s := poke s (Index + 1) [Some Dest1] in
            convert2_loop fuel (Index + 2) s
          else
            let! s := fb_Delete s (Index + 1) 1 in
            convert2_loop fuel (Index + 1) s
        else convert2_loop fuel (Index + 1) s
    end
  else Ok (Index, s).

End loops.

(** The removal of a byte order mark in front and of a control-Z behind. *)
Definition remove_marks (s : TMemoryStream) (Params : Z) : res TMemoryStream :=
  let! s :=
    (if FLAGSET Params cpRemoveBOM && (3 <=? GetSize s) then
       let! m := mem_read (FMemory s) 0 3 in
       if decide (m = Some <$> CONST_BOM) then fb_Delete s 0 3 else Ok s
     else Ok s) in
  if FLAGSET Params cpRemoveCtrlZ && (0 <? GetSize s) then
    let! c := char_at s (GetSize s - 1) in
    if c =? 26 then fb_Delete s (GetSize s - 1) 1 else Ok s
  else Ok s.

(** The loops take one step for a character at most. *)
Definition Convert (s : TMemoryStream) (Source Dest : list Z) (Params : Z) (Token : bool)
  : res (bool * TMemoryStream) :=
  let! s := remove_marks s Params in
  if decide (Source = Dest) then Ok (Token, s)
  else
    let fuel := Z.to_nat (GetSize s) in
    let Source0 := nth 0 Source 0 in
    let Source1 := nth 1 Source 0 in
    let Dest0 := nth 0 Dest 0 in
    let Dest1 := nth 1 Dest 0 in
    if Source1 =? 0 then
      convert1_loop Source0 Dest0 Dest1 fuel Token false 0 s
    else
      let! (Index, s) := convert2_loop Source0 Source1 Dest0 Dest1 fuel 0 s in
      let! last :=
        (if Index <? GetSize s then let! c := char_at s Index in Ok (c =? Source0) else Ok false) in
      let! s := (if last then fb_Delete s Index 1 else Ok s) in
      Ok (Token, s).

(** ** The buffer's operations on its bytes *)

Lemma poke_ok s off src :
  stream_ok s -> 0 <= off -> off + Z.of_nat (length src) <= FSize s ->
  exists s', poke s off src = Ok s' /\ stream_ok s' /\ FPosition s' = FPosition s /\
    FSize s' = FSize s /\
    contents s' = take (Z.to_nat off) (contents s) ++ src ++
                  drop (Z.to_nat off + length src) (contents s).
Proof.
  intros Hok Ho Hs. pose proof Hok as [H1 H2]. unfold poke.
  destruct (memcpy (FMemory s) off src) as [mem|f] eqn:E;
    [|by rewrite memcpy_ok in E by lia].
  eexists. split; [done|].
  destruct (memcpy_contents s off src (MemStream mem (FSize s) (FCapacity s) (FPosition s))
    Hok Ho Hs eq_refl eq_refl E) as [H3 H4]. done.
Qed.

Section buffer.
  Context (s : TMemoryStream) (l1 l2 : list Z).

Lemma char_at_ok c :
  stream_holds s (l1 ++ c :: l2) -> char_at s (Z.of_nat (length l1)) = Ok c.
Proof.
  intros Hs. pose proof (holds_size _ _ Hs) as Hz. destruct Hs as [Hok Hc].
  rewrite length_app in Hz. cbn [length] in Hz.
  unfold char_at. rewrite mem_read_contents by (done || lia). cbn [res_bind].
  rewrite Hc, Nat2Z.id, <-fmap_drop, drop_app_length. done.
Qed.

Lemma poke_char_ok c d :
  stream_holds s (l1 ++ c :: l2) ->
  exists s', poke s (Z.of_nat (length l1)) [Some d] = Ok s' /\ stream_holds s' (l1 ++ d :: l2).
Proof.
  intros Hs. pose proof (holds_size _ _ Hs) as Hz. destruct Hs as [Hok Hc].
  rewrite length_app in Hz. cbn [length] in Hz.
  destruct (poke_ok s (Z.of_nat (length l1)) [Some d] Hok) as (s' & E & Hok' & _ & _ & Hc');
    [lia|cbn; lia|]. exists s'. split; [done|]. split; [done|]. rewrite Hc', Hc, Nat2Z.id.
  rewrite <-fmap_take, <-fmap_drop, take_app_length. cbn [length]. rewrite drop_app_add. cbn [drop].
  by rewrite fmap_app, fmap_cons.
Qed.

Lemma fb_Delete_ok mid :
  mid <> [] -> stream_holds s (l1 ++ mid ++ l2) ->
  exists s', fb_Delete s (Z.of_nat (length l1)) (Z.of_nat (length mid)) = Ok s' /\
    stream_holds s' (l1 ++ l2).
Proof.
  intros Hne Hs. pose proof (holds_size _ _ Hs) as Hz. pose proof Hs as [Hok Hc].
  rewrite !length_app in Hz. assert (0 < length mid)%nat by (destruct mid; cbn; [done|lia]).
  unfold fb_Delete. rewrite GetSize_eq, mem_read_contents by (done || lia). cbn [res_bind].
  rewrite Hc, <-fmap_drop, app_assoc. rewrite drop_app_length' by (rewrite length_app; lia).
  rewrite take_ge by (rewrite length_fmap; lia).
  destruct (poke_ok s (Z.of_nat (length l1)) (Some <$> l2) Hok) as (s' & -> & Hok' & _ & Hz' & Hc');
    [lia|rewrite length_fmap; lia|]. cbn [res_bind].
  unfold fb_SetSize. rewrite !GetSize_eq, Hz', Hz.
  rewrite (proj2 (Z.eqb_neq _ _)) by lia.
  rewrite Hc, Nat2Z.id, length_fmap, <-fmap_take, <-fmap_drop, take_app_length in Hc'.
  destruct (SetSize_shrink s' (Z.of_nat (length l1 + (length mid + length l2)) - Z.of_nat (length mid))
    (l1 ++ l2 ++ drop (length l1 + length l2) (l1 ++ mid ++ l2))) as (s2 & -> & Hs2 & _).
  { split; [done|]. by rewrite Hc', !fmap_app. }
  { rewrite !length_app. lia. }
  exists s2. split; [done|]. rewrite app_assoc, take_app_length' in Hs2; [done|].
  rewrite length_app. lia.
Qed.

Lemma fb_Insert_ok buf :
  buf <> [] -> stream_holds s (l1 ++ l2) ->
  exists s', fb_Insert s (Z.of_nat (length l1)) buf = Ok s' /\ stream_holds s' (l1 ++ buf ++ l2).
Proof.
  intros Hne Hs. pose proof (holds_size _ _ Hs) as Hz. pose proof Hs as [Hok Hc].
  rewrite length_app in Hz. assert (0 < length buf)%nat by (destruct buf; cbn; [done|lia]).
  unfold fb_Insert, fb_SetSize. rewrite GetSize_eq, (proj2 (Z.eqb_neq _ _)) by lia.
  destruct (SetSize_ok s (FSize s + Z.of_nat (length buf)) Hok ltac:(lia))
    as (s1 & -> & Hok1 & _ & Hz1 & junk & Hj). cbn [res_bind].
  rewrite take_ge in Hj by (rewrite Hc, length_fmap, length_app; lia). rewrite Hc in Hj.
  assert (Hlj : length junk = length buf).
  { pose proof (length_contents s1 Hok1) as Hl. rewrite Hj, length_app, length_fmap, length_app in Hl. lia. }
  rewrite GetSize_eq, mem_read_contents by (done || lia). cbn [res_bind].
  assert (Hm : take (Z.to_nat (FSize s1 - Z.of_nat (length l1) - Z.of_nat (length buf)))
             (drop (Z.to_nat (Z.of_nat (length l1))) (contents s1)) = Some <$> l2).
  { rewrite Hj, fmap_app, <-app_assoc, Nat2Z.id, drop_app_length' by (by rewrite length_fmap).
    apply take_app_length'. rewrite length_fmap. lia. }
  rewrite Hm. clear Hm.
  destruct (poke_ok s1 (Z.of_nat (length l1) + Z.of_nat (length buf)) (Some <$> l2) Hok1)
    as (s2 & -> & Hok2 & _ & Hz2 & Hc2); [lia|rewrite length_fmap; lia|]. cbn [res_bind].
  destruct (poke_ok s2 (Z.of_nat (length l1)) (Some <$> buf) Hok2)
    as (s3 & -> & Hok3 & _ & Hz3 & Hc3); [lia|rewrite length_fmap; lia|].
  exists s3. split; [done|]. split; [done|]. rewrite Hc3, Hc2, Hj, length_fmap.
  rewrite (drop_ge ((_ <$> _) ++ junk)) by (rewrite length_app, !length_fmap, length_app; lia).
  rewrite app_nil_r. rewrite !fmap_app, <-app_assoc.
  rewrite take_app_le by (rewrite length_take, !length_app, !length_fmap; lia).
  rewrite take_take, Nat.min_l by lia. rewrite take_app_length' by (rewrite length_fmap; lia).
  f_equal. f_equal.
  rewrite drop_app_length'; [done|]. rewrite length_take, !length_app, !length_fmap. lia.
Qed.
End buffer.

(** ** What the loops do to the bytes *)

Section passes.
  Context (Source0 Source1 Dest0 Dest1 : Z).

Definition dest : list Z := Dest0 :: (if Dest1 =? 0 then [] else [Dest1]).

(** One pass of the first loop: the result and the token. *)
Fixpoint pass1 (l : list Z) : list Z * bool :=
  match l with
  | [] => ([], false)
  | c :: t =>
      match t with
      | [] =>
          if (c =? Dest0) && negb (Dest1 =? 0) then ([c; Dest1], true)
          else ((if c =? Source0 then dest else [c]), false)
      | c1 :: t' =>
          if (c =? Dest0) && (c1 =? Dest1) then ([c; c1] ++ (pass1 t').1, (pass1 t').2)
          else ((if c =? Source0 then dest else [c]) ++ (pass1 t).1, (pass1 t).2)
      end
  end.

(** The second loop with what follows it. *)
Fixpoint pass2 (l : list Z) : list Z :=
  match l with
  | [] => []
  | c :: t =>
      match t with
      | [] => if c =? Source0 then [] else [c]
      | c1 :: t' =>
          if (c =? Source0) && (c1 =? Source1) then dest ++ pass2 t' else c :: pass2 t
      end
  end.

(** Characters that the next block has to drop. *)
Fixpoint strip (l : list Z) : list Z :=
  match l with [] => [] | c :: t => if c =? Dest1 then strip t else l end.

(** The steps of the loops on the bytes, for the cases below. *)
Lemma convert1_loop_nil fuel prev tok pre s :
  stream_holds s pre ->
  convert1_loop Source0 Dest0 Dest1 fuel prev tok (Z.of_nat (length pre)) s = Ok (tok, s).
Proof.
  intros Hs. pose proof (holds_size _ _ Hs).
  destruct fuel; cbn [convert1_loop]; by rewrite GetSize_eq, (proj2 (Z.ltb_ge _ _)) by lia.
Qed.

(** Whether the line end is already in the format of the destination. *)
Lemma convert1_already s pre c t :
  stream_holds s (pre ++ c :: t) ->
  (let! c0 := char_at s (Z.of_nat (length pre)) in
   if (Z.of_nat (length pre) <? GetSize s - 1) && (c0 =? Dest0)
   then let! c1 := char_at s (Z.of_nat (length pre) + 1) in Ok (c1 =? Dest1) else Ok false)
  = Ok (match t with c1 :: _ => (c =? Dest0) && (c1 =? Dest1) | [] => false end).
Proof.
  intros Hs. pose proof (holds_size _ _ Hs) as Hz. rewrite length_app in Hz. cbn [length] in Hz.
  rewrite (char_at_ok _ _ _ _ Hs). cbn [res_bind]. rewrite GetSize_eq.
  destruct t as [|c1 t]; cbn [length] in Hz.
  - by rewrite (proj2 (Z.ltb_ge _ _)) by lia.
  - rewrite (proj2 (Z.ltb_lt _ _)) by lia. cbn [andb]. destruct (c =? Dest0); [|done]. cbn [andb].
    replace (Z.of_nat (length pre) + 1) with (Z.of_nat (length (pre ++ [c])))
      by (rewrite length_app; cbn; lia).
    replace (pre ++ c :: c1 :: t) with ((pre ++ [c]) ++ c1 :: t) in Hs by (by rewrite <-app_assoc).
    by rewrite (char_at_ok _ _ _ _ Hs).
Qed.

(** Writing the destination's line end over a character. *)
Lemma put_dest {A} s pre c t (k : Z -> TMemoryStream -> res A) :
  stream_holds s (pre ++ c :: t) ->
  exists s', stream_holds s' (pre ++ dest ++ t) /\
    (let! s := poke s (Z.of_nat (length pre)) [Some Dest0] in
     if negb (Dest1 =? 0) then
       let! s := fb_Insert s (Z.of_nat (length pre) + 1) [Dest1] in
       k (Z.of_nat (length pre) + 2) s
     else k (Z.of_nat (length pre) + 1) s) = k (Z.of_nat (length (pre ++ dest))) s'.
Proof.
  intros Hs. destruct (poke_char_ok _ _ _ _ Dest0 Hs) as (s1 & -> & H1). cbn [res_bind].
  unfold dest. destruct (Dest1 =? 0) eqn:E; cbn [negb].
  - exists s1. split; [done|]. rewrite length_app. cbn. f_equal. lia.
  - replace (pre ++ Dest0 :: t) with ((pre ++ [Dest0]) ++ t) in H1 by (by rewrite <-app_assoc).
    destruct (fb_Insert_ok s1 (pre ++ [Dest0]) t [Dest1] ltac:(done) H1) as (s2 & E2 & H2).
    replace (Z.of_nat (length pre) + 1) with (Z.of_nat (length (pre ++ [Dest0])))
      by (rewrite length_app; cbn; lia).
    rewrite E2. exists s2. split; [by rewrite <-app_assoc in H2|]. cbn [res_bind].
    rewrite length_app. cbn. f_equal. lia.
Qed.

(** A character that is no part of a line end of the destination. *)
Lemma convert1_char {A} s pre c t (k : Z -> TMemoryStream -> res A) :
  stream_holds s (pre ++ c :: t) ->
  let out := if c =? Source0 then dest else [c] in
  exists s', stream_holds s' ((pre ++ out) ++ t) /\
    (if c =? Source0 then
       let! s := poke s (Z.of_nat (length pre)) [Some Dest0] in
       if negb (Dest1 =? 0) then
         let! s := fb_Insert s (Z.of_nat (length pre) + 1) [Dest1] in
         k (Z.of_nat (length pre) + 2) s
       else k (Z.of_nat (length pre) + 1) s
     else k (Z.of_nat (length pre) + 1) s) = k (Z.of_nat (length (pre ++ out))) s'.
Proof.
  intros Hs. cbn zeta. rewrite <-app_assoc. destruct (c =? Source0).
  - by apply put_dest with (c := c).
  - exists s. split; [done|]. rewrite length_app. cbn. f_equal. lia.
Qed.

Lemma convert1_loop_ok n : forall todo pre fuel s prev tok,
  (length todo <= n)%nat -> (length todo <= fuel)%nat ->
  (pre <> [] \/ prev = false \/ forall t, todo <> Dest1 :: t) ->
  stream_holds s (pre ++ todo) ->
  exists s', convert1_loop Source0 Dest0 Dest1 fuel prev tok (Z.of_nat (length pre)) s
             = Ok (tok || (pass1 todo).2, s') /\ stream_holds s' (pre ++ (pass1 todo).1).
Proof.
  induction n as [|n IH]; intros todo pre fuel s prev tok Hn Hf Hd Hs;
    (destruct todo as [|c t];
     [exists s; cbn [pass1 fst snd]; rewrite orb_false_r; rewrite app_nil_r in *;
      split; [by apply convert1_loop_nil|done]|]); cbn [length] in *; [lia|].
  pose proof (holds_size _ _ Hs) as Hz. rewrite length_app in Hz. cbn [length] in Hz.
  destruct fuel as [|fuel]; [lia|]. cbn [convert1_loop].
  rewrite GetSize_eq, (proj2 (Z.ltb_lt _ _)) by lia.
  pose proof (convert1_already s pre c t Hs) as Ha. rewrite GetSize_eq in Ha.
  rewrite (char_at_ok _ _ _ _ Hs) in Ha |- *. cbn [res_bind] in Ha |- *. rewrite Ha. cbn [res_bind].
  assert (Hskip : (Z.of_nat (length pre) =? 0) && prev && (c =? Dest1) = false).
  { destruct (Z.eqb_spec c Dest1) as [->|]; [|by rewrite !andb_false_r].
    destruct prev; [|by rewrite andb_false_r]. rewrite (proj2 (Z.eqb_neq _ _)); [done|].
    destruct Hd as [Hd|[?|Hd]]; [destruct pre; cbn; [done|lia]|done|by destruct (Hd t)]. }
  assert (Hplain : exists s', (if c =? Source0 then
       let! s := poke s (Z.of_nat (length pre)) [Some Dest0] in
       if negb (Dest1 =? 0) then
         let! s := fb_Insert s (Z.of_nat (length pre) + 1) [Dest1] in
         convert1_loop Source0 Dest0 Dest1 fuel prev tok (Z.of_nat (length pre) + 2) s
       else convert1_loop Source0 Dest0 Dest1 fuel prev tok (Z.of_nat (length pre) + 1) s
     else convert1_loop Source0 Dest0 Dest1 fuel prev tok (Z.of_nat (length pre) + 1) s)
     = Ok (tok || (pass1 t).2, s') /\
     stream_holds s' (pre ++ (if c =? Source0 then dest else [c]) ++ (pass1 t).1)).
  { destruct (convert1_char s pre c t (convert1_loop Source0 Dest0 Dest1 fuel prev tok) Hs)
      as (s1 & Hs1 & E1). rewrite E1, app_assoc.
    apply IH; [lia|lia| |done]. left. destruct (c =? Source0); by destruct pre. }
  destruct t as [|c1 t]; cbn [length pass1] in *.
  - rewrite Hskip. destruct (c =? Dest0) eqn:Ec; cbn [andb].
    + rewrite (proj2 (Z.eqb_eq (Z.of_nat (length pre)) (FSize s - 1))) by lia. cbn [andb].
      destruct (negb (Dest1 =? 0)) eqn:E1; [|by rewrite app_nil_r in Hplain].
      replace (Z.of_nat (length pre) + 1) with (Z.of_nat (length (pre ++ [c])))
        by (rewrite length_app; cbn; lia).
      rewrite <-(app_nil_r (pre ++ [c])) in Hs.
      destruct (fb_Insert_ok s _ [] [Dest1] ltac:(done) Hs) as (s1 & -> & Hs1).
      cbn [res_bind]. exists s1. cbn [fst snd]. rewrite orb_true_r. rewrite <-!app_assoc in Hs1. cbn in Hs1.
      replace (Z.of_nat (length pre) + 2) with (Z.of_nat (length (pre ++ [c; Dest1])))
        by (rewrite length_app; cbn; lia).
      split; [|done]. by apply convert1_loop_nil.
    + by rewrite app_nil_r in Hplain.
  - destruct ((c =? Dest0) && (c1 =? Dest1)) eqn:E.
    + replace (Z.of_nat (length pre) + 2) with (Z.of_nat (length (pre ++ [c; c1])))
        by (rewrite length_app; cbn; lia).
      replace (pre ++ c :: c1 :: t) with ((pre ++ [c; c1]) ++ t) in Hs by (by rewrite <-app_assoc).
      cbn [fst snd]. rewrite app_assoc. apply IH; [lia|lia| |done]. left. by destruct pre.
    + rewrite Hskip. rewrite (proj2 (Z.eqb_neq (Z.of_nat (length pre)) (FSize s - 1))) by lia.
      rewrite andb_false_r. exact Hplain.
Qed.

(** The block, with the token of the block before. *)
Lemma convert1_ok todo fuel s (prev : bool) :
  Dest0 <> Dest1 -> (length todo <= fuel)%nat -> stream_holds s todo ->
  let todo' := if prev then strip todo else todo in
  exists s', convert1_loop Source0 Dest0 Dest1 fuel prev false 0 s = Ok ((pass1 todo').2, s') /\
    stream_holds s' (pass1 todo').1.
Proof.
  intros Hne Hf Hs. cbn zeta. revert fuel s Hf Hs.
  induction todo as [|c t IH]; intros fuel s Hf Hs.
  { replace (if prev then strip [] else []) with (@nil Z) by (by destruct prev).
    exists s. split; [|done]. apply (convert1_loop_nil fuel prev false [] s Hs). }
  assert (Hmain : (prev = false \/ forall t', c :: t <> Dest1 :: t') ->
    exists s', convert1_loop Source0 Dest0 Dest1 fuel prev false 0 s = Ok ((pass1 (c :: t)).2, s') /\
    stream_holds s' (pass1 (c :: t)).1).
  { intros Hd. destruct (convert1_loop_ok (length (c :: t)) (c :: t) [] fuel s prev false)
      as (s' & E & H'); [done|done|by right|done|]. exists s'. by split. }
  destruct prev; [|apply Hmain; by left]. cbn [strip].
  destruct (Z.eqb_spec c Dest1) as [->|Hc]; [|apply Hmain; right; congruence].
  cbn [length] in Hf. destruct fuel as [|fuel]; [lia|].
  pose proof (holds_size _ _ Hs) as Hz. cbn [length] in Hz. cbn [convert1_loop].
  rewrite GetSize_eq, (proj2 (Z.ltb_lt _ _)) by lia.
  pose proof (char_at_ok s [] t Dest1 Hs) as Hch. change (char_at s 0 = Ok Dest1) in Hch. rewrite Hch. cbn [res_bind].
  rewrite (proj2 (Z.eqb_neq Dest1 Dest0)) by congruence. rewrite andb_false_r. cbn [res_bind].
  rewrite !Z.eqb_refl. cbn [andb].
  destruct (fb_Delete_ok s [] t [Dest1] ltac:(done) Hs) as (s1 & E1 & Hs1).
  change (fb_Delete s 0 1 = Ok s1) in E1. rewrite E1.
  cbn [res_bind]. apply IH; [lia|done].
Qed.

(** The second loop and the removal of half a line end at the end. *)
Definition convert2 (fuel : nat) (Index : Z) (s : TMemoryStream) : res TMemoryStream :=
  let! (Index, s) := convert2_loop Source0 Source1 Dest0 Dest1 fuel Index s in
  let! last :=
    (if Index <? GetSize s then let! c := char_at s Index in Ok (c =? Source0) else Ok false) in
  if last then fb_Delete s Index 1 else Ok s.

Lemma convert2_ok n : forall todo pre fuel s,
  (length todo <= n)%nat -> (length todo <= fuel)%nat -> stream_holds s (pre ++ todo) ->
  exists s', convert2 fuel (Z.of_nat (length pre)) s = Ok s' /\ stream_holds s' (pre ++ pass2 todo).
Proof.
  induction n as [|n IH]; intros todo pre fuel s Hn Hf Hs;
    pose proof (holds_size _ _ Hs) as Hz; rewrite length_app in Hz;
    (destruct todo as [|c [|c1 t]]; cbn [length pass2] in *; [|try lia|try lia]).
  1,2: exists s; rewrite app_nil_r in *; split; [|done]; unfold convert2;
    destruct fuel; cbn [convert2_loop]; rewrite GetSize_eq, (proj2 (Z.ltb_ge _ _)) by lia;
    cbn [res_bind]; by rewrite GetSize_eq, (proj2 (Z.ltb_ge _ _)) by lia.
  - assert (E : convert2 fuel (Z.of_nat (length pre)) s
      = if c =? Source0 then fb_Delete s (Z.of_nat (length pre)) 1 else Ok s).
    { unfold convert2. destruct fuel; cbn [convert2_loop];
        rewrite GetSize_eq, (proj2 (Z.ltb_ge _ _)) by lia; cbn [res_bind];
        rewrite GetSize_eq, (proj2 (Z.ltb_lt _ _)) by lia;
        rewrite (char_at_ok _ _ _ _ Hs); cbn [res_bind]; done. }
    rewrite E. destruct (c =? Source0); [|by exists s].
    apply (fb_Delete_ok s pre [] [c] ltac:(done) Hs).
  - destruct fuel as [|fuel]; [lia|].
    assert (Hs1 : stream_holds s ((pre ++ [c]) ++ c1 :: t)) by (by rewrite <-app_assoc).
    unfold convert2. cbn [convert2_loop]. rewrite GetSize_eq, (proj2 (Z.ltb_lt _ _)) by lia.
    rewrite (char_at_ok _ _ _ _ Hs). cbn [res_bind].
    replace (Z.of_nat (length pre) + 1) with (Z.of_nat (length (pre ++ [c])))
      by (rewrite length_app; cbn; lia).
    rewrite (char_at_ok _ _ _ _ Hs1). cbn [res_bind].
    destruct ((c =? Source0) && (c1 =? Source1)) eqn:E.
    2:{ fold (convert2 fuel (Z.of_nat (length (pre ++ [c]))) s).
        destruct (IH (c1 :: t) (pre ++ [c]) fuel s) as (s' & E' & H'); [cbn; lia|cbn; lia|done|].
        exists s'. split; [exact E'|]. rewrite <-app_assoc in H'. exact H'. }
    destruct (poke_char_ok s pre _ c Dest0 Hs) as (s1 & -> & H1). cbn [res_bind].
    replace (pre ++ Dest0 :: c1 :: t) with ((pre ++ [Dest0]) ++ [c1] ++ t) in H1
      by (by rewrite <-app_assoc).
    replace (length (pre ++ [c])) with (length (pre ++ [Dest0])) by (by rewrite !length_app).
    unfold dest. destruct (Dest1 =? 0); cbn [negb].
    + destruct (fb_Delete_ok s1 (pre ++ [Dest0]) t [c1] ltac:(done) H1) as (s2 & E2 & H2).
      change (Z.of_nat (length [c1])) with 1 in E2. rewrite E2. cbn [res_bind].
      fold (convert2 fuel (Z.of_nat (length (pre ++ [Dest0]))) s2).
      rewrite app_assoc. apply IH; [lia|lia|done].
    + destruct (poke_char_ok s1 (pre ++ [Dest0]) t c1 Dest1 H1) as (s2 & -> & H2). cbn [res_bind].
      replace (Z.of_nat (length pre) + 2) with (Z.of_nat (length (pre ++ [Dest0; Dest1])))
        by (rewrite length_app; cbn; lia).
      fold (convert2 fuel (Z.of_nat (length (pre ++ [Dest0; Dest1]))) s2).
      rewrite app_assoc. apply IH; [lia|lia|]. by rewrite <-app_assoc in H2 |- *.
Qed.
End passes.

(** ** Whole blocks *)

Definition eol0 (t : TEOLType) : Z := nth 0 (EOLToStr t) 0.
Definition eol1 (t : TEOLType) : Z := nth 1 (EOLToStr t) 0.

(** What [Convert] does to the bytes of a block and to the token. *)
Definition convert_bytes (src dst : TEOLType) (Token : bool) (l : list Z) : bool * list Z :=
  if decide (src = dst) then (Token, l)
  else if eol1 src =? 0 then
    let r := pass1 (eol0 src) (eol0 dst) (eol1 dst) (if Token then strip (eol1 dst) l else l) in
    (r.2, r.1)
  else (Token, pass2 (eol0 src) (eol1 src) (eol0 dst) (eol1 dst) l).

(** The bytes without the marks. *)
Definition remove_bom (l : list Z) : list Z :=
  if decide (take 3 l = CONST_BOM) then drop 3 l else l.
Definition remove_ctrlz (l : list Z) : list Z :=
  match last l with Some c => if c =? 26 then take (length l - 1) l else l | None => l end.
Definition unmarked (Params : Z) (l : list Z) : list Z :=
  let l := if FLAGSET Params cpRemoveBOM then remove_bom l else l in
  if FLAGSET Params cpRemoveCtrlZ then remove_ctrlz l else l.

Lemma remove_bom_ok s l :
  stream_holds s l ->
  exists s', (if 3 <=? GetSize s then
       let! m := mem_read (FMemory s) 0 3 in
       if decide (m = Some <$> CONST_BOM) then fb_Delete s 0 3 else Ok s
     else Ok s) = Ok s' /\ stream_holds s' (remove_bom l).
Proof.
  intros Hs. pose proof (holds_size _ _ Hs) as Hz. pose proof Hs as [Hok Hc].
  rewrite GetSize_eq. unfold remove_bom. destruct (Z.leb_spec 3 (FSize s)) as [H3|H3].
  2:{ exists s. split; [done|]. rewrite decide_False; [done|]. intros E.
      apply (f_equal length) in E. rewrite length_take in E.
      change (length CONST_BOM) with 3%nat in E. lia. }
  rewrite mem_read_contents by (done || lia). cbn [res_bind]. rewrite Hc, drop_0, <-fmap_take.
  change (Z.to_nat 3) with 3%nat. destruct (decide (take 3 l = CONST_BOM)) as [E|E].
  - rewrite decide_True by (by rewrite E).
    apply (fb_Delete_ok s [] (drop 3 l) CONST_BOM ltac:(done)). cbn [app].
    rewrite <-E at 1. by rewrite take_drop.
  - rewrite decide_False; [by exists s|]. intros E'. apply E.
    by apply (inj (fmap Some)) in E'.
Qed.

Lemma remove_ctrlz_ok s l :
  stream_holds s l ->
  exists s', (if 0 <? GetSize s then
       let! c := char_at s (GetSize s - 1) in
       if c =? 26 then fb_Delete s (GetSize s - 1) 1 else Ok s
     else Ok s) = Ok s' /\ stream_holds s' (remove_ctrlz l).
Proof.
  intros Hs. pose proof (holds_size _ _ Hs) as Hz. rewrite GetSize_eq. unfold remove_ctrlz.
  induction l as [|c l _] using rev_ind; cbn [length] in Hz.
  { rewrite (proj2 (Z.ltb_ge _ _)) by (cbn in Hz; lia). by exists s. }
  rewrite length_app in Hz. cbn [length] in Hz. rewrite (proj2 (Z.ltb_lt _ _)) by lia.
  replace (FSize s - 1) with (Z.of_nat (length l)) by lia.
  rewrite (char_at_ok _ _ _ _ Hs). cbn [res_bind]. rewrite last_snoc.
  destruct (c =? 26); [|by exists s].
  destruct (fb_Delete_ok s l [] [c] ltac:(done) Hs) as (s' & E & H'). exists s'. split; [done|].
  rewrite length_app, take_app_length' by (cbn; lia). by rewrite app_nil_r in H'.
Qed.

Lemma remove_marks_ok s l Params :
  stream_holds s l ->
  exists s', remove_marks s Params = Ok s' /\ stream_holds s' (unmarked Params l).
Proof.
  intros Hs. unfold remove_marks, unmarked.
  assert (H1 : exists s1, (if FLAGSET Params cpRemoveBOM && (3 <=? GetSize s) then
       let! m := mem_read (FMemory s) 0 3 in
       if decide (m = Some <$> CONST_BOM) then fb_Delete s 0 3 else Ok s else Ok s) = Ok s1 /\
     stream_holds s1 (if FLAGSET Params cpRemoveBOM then remove_bom l else l)).
  { destruct (FLAGSET Params cpRemoveBOM); [by apply remove_bom_ok|by exists s]. }
  destruct H1 as (s1 & -> & Hs1). cbn [res_bind]. cbv zeta.
  destruct (FLAGSET Params cpRemoveCtrlZ); [by apply remove_ctrlz_ok|by exists s1].
Qed.

Lemma Convert_ok s src dst Params Token l :
  stream_holds s l ->
  let r := convert_bytes src dst Token (unmarked Params l) in
  exists s', Convert s (EOLToStr src) (EOLToStr dst) Params Token = Ok (r.1, s') /\
    stream_holds s' r.2.
Proof.
  intros Hs. cbn zeta. unfold Convert, convert_bytes.
  destruct (remove_marks_ok s l Params Hs) as (s1 & -> & Hs1). cbn [res_bind].
  generalize dependent (unmarked Params l). clear s l Hs. intros l Hs.
  pose proof (holds_size _ _ Hs) as Hz.
  assert (Hf : Z.to_nat (GetSize s1) = length l) by (rewrite GetSize_eq; lia). rewrite Hf.
  destruct (decide (src = dst)) as [->|Hne].
  { rewrite decide_True by done. by exists s1. }
  rewrite decide_False by (by destruct src, dst). unfold eol0, eol1.
  destruct (nth 1 (EOLToStr src) 0 =? 0) eqn:E1.
  - apply convert1_ok; [by destruct dst|done|done].
  - destruct (convert2_ok (nth 0 (EOLToStr src) 0) (nth 1 (EOLToStr src) 0) (nth 0 (EOLToStr dst) 0)
      (nth 1 (EOLToStr dst) 0) (length l) l [] (length l) s1 ltac:(done) ltac:(done) Hs)
      as (s2 & E2 & Hs2). unfold convert2 in E2. change (Z.of_nat (length [])) with 0 in E2.
    exists s2. split; [|done].
    destruct (convert2_loop _ _ _ _ _ _ _) as [[Index s3]|]; [|done]. cbn [res_bind] in *.
    destruct (if Index <? GetSize s3 then _ else _) as [[]|]; cbn [res_bind] in *;
      [by rewrite E2|by simplify_eq|done].
Qed.
