(* ===== verification/FileBufferSpec.v ===== *)
(** * Text transfers (src/core/ScpFileSystem.cpp over src/base/FileBuffer.cpp)

    The loop of an upload in text mode over [TFileBuffer], the conversion of line
    ends of a whole text, and the theorems that the loop, block by block, computes
    the conversion of the whole. *)

From S2P Require Import Prelude Marshal Strbuf MemStream FileBuffer.
Local Open Scope cmodel_scope.
Local Open Scope Z_scope.

(** ** The upload loop *)

Section upload.
  Context {S : Type} `{TStream S}.

(** One pass of the loop of [TSCPFileSystem::Source]: a block of the file is
    loaded, converted, and added to the buffer of the whole file. *)
Definition ascii_block (LocalEOL RemoteEOL : TEOLType) (ConvertParams : Z) (BlockSize : Z)
    (ConvertToken : bool) (AsciiBuf : TMemoryStream) (Stream : S)
  : res (bool * TMemoryStream * S) :=
  let! (_, BlockBuf, Stream) := LoadStream new_stream Stream BlockSize true in
  let! (ConvertToken, BlockBuf) :=
    Convert BlockBuf (EOLToStr LocalEOL) (EOLToStr RemoteEOL) ConvertParams ConvertToken in
  let BlockBuf := (Seek BlockBuf 0 soBeginning).2 in
  let! (_, AsciiBuf, BlockBuf) := ReadStream AsciiBuf BlockBuf (GetSize BlockBuf) true in
  let! _ := Clear BlockBuf in
  Ok (ConvertToken, AsciiBuf, Stream).

(** The passes, with the block sizes that the progress object asked for. *)
Fixpoint ascii_blocks (LocalEOL RemoteEOL : TEOLType) (ConvertParams : Z) (sizes : list Z)
    (ConvertToken : bool) (AsciiBuf : TMemoryStream) (Stream : S)
  : res (bool * TMemoryStream * S) :=
  match sizes with
  | [] => Ok (ConvertToken, AsciiBuf, Stream)
  | n :: sizes =>
      let! (ConvertToken, AsciiBuf, Stream) :=
        ascii_block LocalEOL RemoteEOL ConvertParams n ConvertToken AsciiBuf Stream in
      ascii_blocks LocalEOL RemoteEOL ConvertParams sizes ConvertToken AsciiBuf Stream
  end.

End upload.

(** ** Reading into a buffer *)

Lemma ReadStream_ok {S} `{LawfulStream S} (s : TMemoryStream) l (Stream : S) bytes Len :
  stream_holds s l -> 0 <= FPosition s <= Z.of_nat (length l) ->
  remaining Stream bytes -> 0 <= Len <= Z.of_nat (length bytes) -> Len < 2 ^ 32 ->
  exists s' Stream', ReadStream s Stream Len true = Ok (Len, s', Stream') /\
    stream_holds s' (take (Z.to_nat (FPosition s)) l ++ take (Z.to_nat Len) bytes) /\
    FPosition s' = FPosition s + Len /\ remaining Stream' (drop (Z.to_nat Len) bytes).
Proof.
  intros Hs Hp Hr HL H32. pose proof (holds_size _ _ Hs) as Hz. pose proof Hs as [Hok Hc].
  unfold ReadStream, NeedSpace, fb_SetSize. rewrite GetSize_eq, GetPosition_eq.
  assert (Hneed : exists s1, (if FSize s =? FPosition s + Len then Ok s
       else SetSize s (FPosition s + Len)) = Ok s1 /\ stream_ok s1 /\ FPosition s1 = FPosition s /\
       FSize s1 = FPosition s + Len /\
       exists junk, contents s1 = take (Z.to_nat (FPosition s)) (Some <$> l) ++ junk).
  { destruct (Z.eqb_spec (FSize s) (FPosition s + Len)).
    - exists s. split_and!; [done..|]. eexists. by rewrite Hc, take_drop.
    - destruct (SetSize_ok s (FPosition s + Len) Hok ltac:(lia)) as (s1 & -> & Hok1 & Hp1 & Hz1 & junk & Hj).
      exists s1. rewrite (proj2 (Z.ltb_ge _ _)) in Hp1 by lia. split_and!; [done..|].
      rewrite Hc in Hj. replace (Z.to_nat (FPosition s + Len))
        with (Z.to_nat (FPosition s) + Z.to_nat Len)%nat in Hj by lia.
      rewrite <-(take_take_drop (Some <$> l)), <-app_assoc in Hj. by eexists. }
  destruct Hneed as (s1 & -> & Hok1 & Hp1 & Hz1 & junk & Hj). cbn [res_bind andb].
  assert (Hread : exists Stream', (if Len =? 0 then Ok ([], Stream) else Read Stream Len)
     = Ok (Some <$> take (Z.to_nat Len) bytes, Stream') /\ remaining Stream' (drop (Z.to_nat Len) bytes)).
  { destruct (Z.eqb_spec Len 0) as [->|]; [exists Stream; by rewrite take_0, drop_0|].
    apply Read_remaining; [done|lia]. }
  destruct Hread as (Stream' & -> & Hr'). cbn [res_bind].
  assert (Hlen : Z.of_nat (length (Some <$> take (Z.to_nat Len) bytes)) = Len)
    by (rewrite length_fmap, length_take; lia).
  destruct (poke_ok s1 (GetPosition s1) (Some <$> take (Z.to_nat Len) bytes) Hok1)
    as (s2 & -> & Hok2 & Hp2 & Hz2 & Hc2); [rewrite GetPosition_eq; lia|rewrite GetPosition_eq; lia|].
  cbn [res_bind]. rewrite Hlen, Z.eqb_refl. cbn [negb].
  rewrite Z.mod_small by lia. unfold ProcessRead. rewrite Z.eqb_refl. cbn [negb res_bind].
  eexists _, Stream'. split; [done|]. split; [|split; [cbn; lia|done]].
  split; [by destruct Hok2; split|]. change (contents _) with (contents s2).
  rewrite Hc2, GetPosition_eq, Hp1. pose proof (length_contents s1 Hok1) as Hl1.
  rewrite (drop_ge (contents s1)) by lia. rewrite app_nil_r, fmap_app. f_equal.
  rewrite Hj, take_app_length'; [by rewrite fmap_take|].
  rewrite length_take, length_fmap. lia.
Qed.

(** ** The loop on the bytes *)

(** A buffer that is being filled: the position is at the end. *)
Definition filling (s : TMemoryStream) (acc : list Z) : Prop :=
  stream_holds s acc /\ FPosition s = Z.of_nat (length acc).

Lemma filling_new : filling new_stream [].
Proof. split; [apply new_stream_holds|done]. Qed.

(** Blocks of bytes converted one after the other. *)
Fixpoint convert_chunks (src dst : TEOLType) (Params : Z) (Token : bool) (chunks : list (list Z))
  : bool * list Z :=
  match chunks with
  | [] => (Token, [])
  | c :: chunks =>
      let r := convert_bytes src dst Token (unmarked Params c) in
      let r' := convert_chunks src dst Params r.1 chunks in
      (r'.1, r.2 ++ r'.2)
  end.

Section upload_ok.
  Context {S : Type} `{LawfulStream S}.
  Context (src dst : TEOLType) (Params : Z).

Lemma ReadStream_filling {S'} `{LawfulStream S'} s acc (Stream : S') bytes :
  filling s acc -> remaining Stream bytes -> Z.of_nat (length bytes) < 2 ^ 32 ->
  exists s' Stream', ReadStream s Stream (Z.of_nat (length bytes)) true
      = Ok (Z.of_nat (length bytes), s', Stream') /\
    filling s' (acc ++ bytes) /\ remaining Stream' [].
Proof.
  intros [Hs Hp] Hr Hl.
  destruct (ReadStream_ok s acc Stream bytes (Z.of_nat (length bytes)) Hs) as
    (s' & Stream' & E & Hs' & Hp' & Hr'); [lia|done|lia|lia|].
  exists s', Stream'. rewrite Nat2Z.id, drop_all in Hr'. rewrite Hp, !Nat2Z.id, !firstn_all in Hs'.
  split_and!; [done| |done]. split; [done|]. rewrite length_app. lia.
Qed.


Lemma ascii_block_ok c rest (Stream : S) Token AsciiBuf acc :
  filling AsciiBuf acc -> remaining Stream (c ++ rest) ->
  let r := convert_bytes src dst Token (unmarked Params c) in
  Z.of_nat (length c) < 2 ^ 32 -> Z.of_nat (length r.2) < 2 ^ 32 ->
  exists AsciiBuf' Stream',
    ascii_block src dst Params (Z.of_nat (length c)) Token AsciiBuf Stream
      = Ok (r.1, AsciiBuf', Stream') /\
    filling AsciiBuf' (acc ++ r.2) /\ remaining Stream' rest.
Proof.
  intros Ha Hr r Hl1 Hl2. unfold ascii_block, LoadStream.
  destruct (ReadStream_ok (Seek new_stream 0 soBeginning).2 [] Stream (c ++ rest)
    (Z.of_nat (length c))) as (b & Stream' & -> & Hb & Hpb & Hr');
    [apply new_stream_holds|cbn; lia|done|rewrite length_app; lia|lia|]. cbn [res_bind].
  rewrite Nat2Z.id, take_nil, take_app_length in Hb. rewrite Nat2Z.id, drop_app_length in Hr'.
  destruct (Convert_ok b src dst Params Token c Hb) as (b1 & -> & Hb1). cbn [res_bind].
  fold r in Hb1 |- *.
  assert (Hrem : remaining (Seek b1 0 soBeginning).2 r.2).
  { exists r.2. split_and!; [by destruct Hb1 as [[] ?]; split; [split|]|cbn; lia|].
    change (FPosition (Seek b1 0 soBeginning).2) with 0. by rewrite drop_0. }
  assert (Hsz : GetSize (Seek b1 0 soBeginning).2 = Z.of_nat (length r.2)).
  { rewrite GetSize_eq. by apply (holds_size b1). }
  rewrite Hsz. destruct (ReadStream_filling AsciiBuf acc _ r.2 Ha Hrem Hl2)
    as (a' & b2 & -> & Ha' & (all & [Hok2 _] & _)). cbn [res_bind].
  destruct (Clear_ok b2 Hok2) as (b3 & -> & _). cbn [res_bind]. eauto.
Qed.

Lemma ascii_blocks_ok chunks : forall rest (Stream : S) Token AsciiBuf acc,
  filling AsciiBuf acc -> remaining Stream (concat chunks ++ rest) ->
  let r := convert_chunks src dst Params Token chunks in
  Z.of_nat (length (concat chunks)) < 2 ^ 32 -> Z.of_nat (length r.2) < 2 ^ 32 ->
  exists AsciiBuf' Stream',
    ascii_blocks src dst Params (Z.of_nat ∘ length <$> chunks) Token AsciiBuf Stream
      = Ok (r.1, AsciiBuf', Stream') /\
    filling AsciiBuf' (acc ++ r.2) /\ remaining Stream' rest.
Proof.
  induction chunks as [|c chunks IH]; intros rest Stream Token AsciiBuf acc Ha Hr r Hl1 Hl2.
  { exists AsciiBuf, Stream. cbn. by rewrite app_nil_r. }
  cbn [concat] in *. rewrite length_app in Hl1. rewrite <-app_assoc in Hr.
  cbn [convert_chunks snd] in r. subst r. cbn [fst snd] in *. rewrite length_app in Hl2.
  destruct (ascii_block_ok c _ Stream Token AsciiBuf acc Ha Hr) as (a1 & St1 & E1 & Ha1 & Hr1); [lia|lia|].
  destruct (IH rest St1 (convert_bytes src dst Token (unmarked Params c)).1 a1 _ Ha1 Hr1) as (a2 & St2 & E2 & Ha2 & Hr2); [lia|lia|].
  exists a2, St2. rewrite <-app_assoc in Ha2. split; [|done].
  cbn [fmap list_fmap ascii_blocks compose]. unfold compose. rewrite E1. cbn [res_bind]. exact E2.
Qed.

End upload_ok.

(** ** The conversion of a whole text *)

(** To line ends of two characters: those that are there already stay. *)
Fixpoint to_crlf (s0 : Z) (l : list Z) : list Z :=
  match l with
  | [] => []
  | c :: t =>
      match t with
      | [] => if c =? s0 then [CR; LF] else [c]
      | c1 :: t' =>
          if (c =? CR) && (c1 =? LF) then [CR; LF] ++ to_crlf s0 t'
          else (if c =? s0 then [CR; LF] else [c]) ++ to_crlf s0 t
      end
  end.

Fixpoint from_crlf (d0 : Z) (l : list Z) : list Z :=
  match l with
  | [] => []
  | c :: t =>
      match t with
      | [] => [c]
      | c1 :: t' => if (c =? CR) && (c1 =? LF) then d0 :: from_crlf d0 t' else c :: from_crlf d0 t
      end
  end.

Definition replace_char (a b : Z) (l : list Z) : list Z :=
  (fun c => if c =? a then b else c) <$> l.

Definition eol_text (src dst : TEOLType) (l : list Z) : list Z :=
  match src, dst with
  | eolLF, eolCRLF => to_crlf LF l
  | eolCR, eolCRLF => to_crlf CR l
  | eolCRLF, eolLF => from_crlf LF l
  | eolCRLF, eolCR => from_crlf CR l
  | eolLF, eolCR => replace_char LF CR l
  | eolCR, eolLF => replace_char CR LF l
  | _, _ => l
  end.

(** Every CR is followed by a LF. *)
Fixpoint crs_paired (l : list Z) : bool :=
  match l with
  | [] => true
  | c :: t => (if c =? CR then bool_decide (head t = Some LF) else true) && crs_paired t
  end.

(** No CR LF is followed by a LF. *)
Fixpoint no_crlflf (l : list Z) : bool :=
  match l with
  | [] => true
  | c :: t => negb ((c =? CR) && bool_decide (take 2 t = [LF; LF])) && no_crlflf t
  end.

(** The texts that may be cut into blocks anywhere. *)
Definition blockwise (src dst : TEOLType) (l : list Z) : bool :=
  match src, dst with
  | eolLF, eolCRLF => crs_paired l && no_crlflf l
  | eolCR, eolCRLF => no_crlflf l
  | eolCRLF, eolLF => crs_paired l
  | eolCRLF, eolCR => bool_decide (CR ∉ l)
  | _, _ => true
  end.

Lemma crs_paired_drop l1 l2 : crs_paired (l1 ++ l2) = true -> crs_paired l2 = true.
Proof. induction l1 as [|c l1 IH]; [done|]. cbn. intros [_ H]%andb_true_iff. auto. Qed.

Lemma no_crlflf_drop l1 l2 : no_crlflf (l1 ++ l2) = true -> no_crlflf l2 = true.
Proof. induction l1 as [|c l1 IH]; [done|]. cbn. intros [_ H]%andb_true_iff. auto. Qed.

(** Induction on a list by one or two elements. *)
Lemma list_ind2 {A} (P : list A -> Prop) :
  P [] -> (forall c, P [c]) -> (forall c c1 t, P t -> P (c1 :: t) -> P (c :: c1 :: t)) ->
  forall l, P l.
Proof.
  intros H0 H1 H2 l. enough (P l /\ forall c, P (c :: l)) by tauto.
  induction l as [|c l [IH1 IH2]]; split; auto.
Qed.

Lemma to_crlf_cons2 s0 c c1 t :
  to_crlf s0 (c :: c1 :: t) =
    if (c =? CR) && (c1 =? LF) then [CR; LF] ++ to_crlf s0 t
    else (if c =? s0 then [CR; LF] else [c]) ++ to_crlf s0 (c1 :: t).
Proof. done. Qed.

Lemma from_crlf_cons2 d0 c c1 t :
  from_crlf d0 (c :: c1 :: t) =
    if (c =? CR) && (c1 =? LF) then d0 :: from_crlf d0 t else c :: from_crlf d0 (c1 :: t).
Proof. done. Qed.

Lemma pass1_cons2 s0 d0 d1 c c1 t :
  pass1 s0 d0 d1 (c :: c1 :: t) =
    if (c =? d0) && (c1 =? d1) then ([c; c1] ++ (pass1 s0 d0 d1 t).1, (pass1 s0 d0 d1 t).2)
    else ((if c =? s0 then dest d0 d1 else [c]) ++ (pass1 s0 d0 d1 (c1 :: t)).1,
          (pass1 s0 d0 d1 (c1 :: t)).2).
Proof. done. Qed.

Lemma pass2_cons2 s0 s1 d0 d1 c c1 t :
  pass2 s0 s1 d0 d1 (c :: c1 :: t) =
    if (c =? s0) && (c1 =? s1) then dest d0 d1 ++ pass2 s0 s1 d0 d1 t
    else c :: pass2 s0 s1 d0 d1 (c1 :: t).
Proof. done. Qed.

(** *** To two characters *)

Section to_two.
  Context (s0 : Z).
  Hypothesis Hs0 : s0 = LF \/ s0 = CR.

Let pass := pass1 s0 CR LF.

(** A block gives what it contributes to the whole; where it ends with a CR, the
    LF behind it is written with it. *)
Lemma pass_to_crlf c : forall r,
  (s0 = CR \/ crs_paired (c ++ r) = true) -> no_crlflf (c ++ r) = true ->
  to_crlf s0 (c ++ r) = (pass c).1 ++ to_crlf s0 (if (pass c).2 then strip LF r else r) /\
  ((pass c).2 = true -> exists x, c = x ++ [CR]).
Proof.
  induction c as [|c|c c1 t IH1 IH2] using list_ind2; intros r Hp Hn.
  - done.
  - unfold pass. cbn [pass1]. change (negb (LF =? 0)) with true. rewrite andb_true_r.
    destruct (Z.eqb_spec c CR) as [->|Hc]; cbn [fst snd].
    + split; [|by exists []]. destruct r as [|d r]; [by destruct Hs0 as [->| ->]; destruct Hp|].
      cbn [app] in *. cbn [strip]. destruct (Z.eqb_spec d LF) as [->|Hd].
      * destruct r as [|e r]; [done|]. cbn in Hn. destruct (Z.eqb_spec e LF) as [->|He]; [done|].
        cbn [strip]. by rewrite (proj2 (Z.eqb_neq e LF)).
      * destruct Hp as [->|Hp]; [|cbn in Hp; by rewrite bool_decide_eq_false_2 in Hp by congruence].
        cbn [to_crlf]. rewrite (proj2 (Z.eqb_neq d LF)) by done. done.
    + split; [|done]. cbn [app]. destruct r as [|d r]; [cbn; by rewrite app_nil_r|].
      cbn [to_crlf]. rewrite (proj2 (Z.eqb_neq c CR)) by done. done.
  - unfold pass in *. change ((c :: c1 :: t) ++ r) with (c :: c1 :: (t ++ r)).
    rewrite to_crlf_cons2, pass1_cons2. change (c1 :: t ++ r) with ((c1 :: t) ++ r).
    destruct ((c =? CR) && (c1 =? LF)) eqn:E; cbn [fst snd].
    + apply andb_true_iff in E as [->%Z.eqb_eq ->%Z.eqb_eq].
      destruct (IH1 r) as [E1 E2].
      { destruct Hp; [by left|right]. by apply (crs_paired_drop [CR; LF]). }
      { by apply (no_crlflf_drop [CR; LF]). }
      rewrite E1. split; [done|]. intros H. destruct (E2 H) as [x ->]. by exists (CR :: LF :: x).
    + destruct (IH2 r) as [E1 E2].
      { destruct Hp; [by left|right]. by apply (crs_paired_drop [c]). }
      { by apply (no_crlflf_drop [c]). }
      rewrite E1, app_assoc. split; [done|].
      intros H. destruct (E2 H) as [x Ex]. exists (c :: x). cbn. by rewrite Ex.
Qed.

(** The rest of a text behind a block that ended with a CR. *)
Definition after_cr (r : list Z) : Prop := (s0 = CR \/ head r = Some LF) /\ take 2 r <> [LF; LF].

Lemma after_cr_intro x r :
  (s0 = CR \/ crs_paired ((x ++ [CR]) ++ r) = true) -> no_crlflf ((x ++ [CR]) ++ r) = true ->
  after_cr r.
Proof.
  rewrite <-app_assoc. intros Hp Hn%no_crlflf_drop. split.
  - destruct Hp as [|Hp%crs_paired_drop]; [by left|right]. cbn in Hp.
    apply andb_true_iff in Hp as [Hp _]. by apply bool_decide_eq_true in Hp.
  - cbn [app no_crlflf] in Hn. apply andb_true_iff in Hn as [Hn _]. cbn in Hn.
    intros E. by rewrite bool_decide_eq_true_2 in Hn.
Qed.

Lemma strip_app c r :
  c <> [] -> take 2 (c ++ r) <> [LF; LF] -> strip LF (c ++ r) = strip LF c ++ r.
Proof.
  destruct c as [|d c]; [done|]. intros _ H. cbn [app strip].
  destruct (Z.eqb_spec d LF) as [->|]; [|done].
  assert (Hn : forall l, head l <> Some LF -> strip LF l = l).
  { intros [|e l]; [done|]. cbn. intros He. rewrite (proj2 (Z.eqb_neq e LF)); [done|]. by intros ->. }
  rewrite Hn by (intros Hh; apply H; destruct (c ++ r) as [|e l] eqn:E; cbn in *; [done|];
    rewrite E; by simplify_eq/=).
  destruct c as [|e c]; [done|]. rewrite Hn; [done|]. intros [= ->]. by apply H.
Qed.

Lemma strip_suffix l : exists x, l = x ++ strip LF l.
Proof.
  induction l as [|c l [x Hx]]; [by exists []|]. cbn.
  destruct (c =? LF); [exists (c :: x); by rewrite Hx at 1|by exists []].
Qed.

Lemma chunks_to_crlf src chunks : forall tok,
  src <> eolCRLF -> s0 = eol0 src ->
  Forall (fun c => c <> []) chunks ->
  (s0 = CR \/ crs_paired (concat chunks) = true) -> no_crlflf (concat chunks) = true ->
  (tok = true -> after_cr (concat chunks)) ->
  (convert_chunks src eolCRLF 0 tok chunks).2 =
    to_crlf s0 (if tok then strip LF (concat chunks) else concat chunks).
Proof using Hs0.
  induction chunks as [|c chunks IH]; intros tok Hsrc Es Hne Hp Hn Htok; [by destruct tok|].
  apply Forall_cons in Hne as [Hc Hne]. cbn [concat] in *. set (r := concat chunks) in *.
  set (c' := if tok then strip LF c else c).
  assert (Ec : (if tok then strip LF (c ++ r) else c ++ r) = c' ++ r).
  { unfold c'. destruct tok; [|done]. apply strip_app; [done|]. by apply Htok. }
  assert (Hsuf : exists x, c ++ r = x ++ (c' ++ r)).
  { rewrite <-Ec. destruct tok; [apply strip_suffix|by exists []]. }
  destruct Hsuf as [x Hx]. rewrite Hx in Hp, Hn. rewrite Ec.
  assert (Hp' : s0 = CR \/ crs_paired (c' ++ r) = true) by (destruct Hp as [|?%crs_paired_drop]; auto).
  apply no_crlflf_drop in Hn. destruct (pass_to_crlf c' r Hp' Hn) as [-> Hcr].
  cbn [convert_chunks snd]. change (unmarked 0 c) with c.
  assert (E : convert_bytes src eolCRLF tok c = ((pass c').2, (pass c').1)).
  { unfold convert_bytes, pass. rewrite decide_False by done. rewrite Es. by destruct src. }
  rewrite E. cbn [fst snd]. f_equal. apply IH; [done|done|done| | |].
  - destruct Hp' as [|?%crs_paired_drop]; auto.
  - by apply no_crlflf_drop in Hn.
  - intros Ht. destruct (Hcr Ht) as [y Ey]. rewrite Ey in Hp', Hn. by eapply after_cr_intro.
Qed.
End to_two.

(** *** From two characters, and between single ones *)

Lemma pass2_from_crlf c : forall r,
  crs_paired (c ++ r) = true ->
  from_crlf LF (c ++ r) = pass2 CR LF LF 0 c ++ from_crlf LF r.
Proof.
  induction c as [|c|c c1 t IH1 IH2] using list_ind2; intros r Hp.
  - done.
  - cbn [pass2 app]. destruct (Z.eqb_spec c CR) as [->|Hc].
    + cbn in Hp. destruct r as [|d r]; [done|]. cbn in Hp. destruct (Z.eqb_spec d LF) as [->|]; [|].
      * rewrite from_crlf_cons2. change ((CR =? CR) && (LF =? LF)) with true. cbv iota.
        destruct r as [|e r]; [done|]. rewrite from_crlf_cons2. done.
      * rewrite bool_decide_eq_false_2 in Hp; [done|congruence].
    + destruct r as [|d r]; [done|]. rewrite from_crlf_cons2, (proj2 (Z.eqb_neq c CR)) by done. done.
  - change ((c :: c1 :: t) ++ r) with (c :: c1 :: (t ++ r)) in *. rewrite from_crlf_cons2, pass2_cons2.
    destruct ((c =? CR) && (c1 =? LF)).
    + rewrite IH1 by (by apply (crs_paired_drop [c; c1])). done.
    + change (c1 :: t ++ r) with ((c1 :: t) ++ r).
      rewrite IH2 by (by apply (crs_paired_drop [c])). done.
Qed.

Lemma chunks_from_crlf chunks tok :
  crs_paired (concat chunks) = true ->
  (convert_chunks eolCRLF eolLF 0 tok chunks).2 = from_crlf LF (concat chunks).
Proof.
  revert tok. induction chunks as [|c chunks IH]; intros tok Hp; [done|]. cbn [concat] in *.
  rewrite pass2_from_crlf by done. cbn [convert_chunks snd]. change (unmarked 0 c) with c.
  change (convert_bytes eolCRLF eolLF tok c) with (tok, pass2 CR LF LF 0 c). cbn [fst snd].
  rewrite IH; [done|]. by apply crs_paired_drop in Hp.
Qed.

Lemma pass1_replace s0 d0 c :
  s0 <> d0 -> s0 <> 0 -> pass1 s0 d0 0 c = (replace_char s0 d0 c, false).
Proof.
  intros Hne H0. induction c as [|c|c c1 t IH1 IH2] using list_ind2; [done| |].
  - cbn. rewrite andb_false_r. unfold dest. cbn. by destruct (c =? s0).
  - rewrite pass1_cons2. destruct ((c =? d0) && (c1 =? 0)) eqn:E.
    + apply andb_true_iff in E as [->%Z.eqb_eq ->%Z.eqb_eq]. rewrite IH1. unfold replace_char.
      rewrite !fmap_cons. cbn [fst snd app]. rewrite (proj2 (Z.eqb_neq d0 s0)) by congruence.
      by rewrite (proj2 (Z.eqb_neq 0 s0)) by congruence.
    + rewrite IH2. cbn. unfold dest. cbn. by destruct (c =? s0).
Qed.

Lemma replace_char_app a b l1 l2 :
  replace_char a b (l1 ++ l2) = replace_char a b l1 ++ replace_char a b l2.
Proof. apply fmap_app. Qed.

Lemma chunks_replace src dst chunks :
  (src = eolLF /\ dst = eolCR) \/ (src = eolCR /\ dst = eolLF) ->
  (convert_chunks src dst 0 false chunks).2 = replace_char (eol0 src) (eol0 dst) (concat chunks).
Proof.
  intros H. induction chunks as [|c chunks IH]; [done|]. cbn [concat convert_chunks snd].
  change (unmarked 0 c) with c.
  assert (E : convert_bytes src dst false c = (false, replace_char (eol0 src) (eol0 dst) c)).
  { unfold convert_bytes.
    destruct H as [[-> ->]|[-> ->]]; rewrite decide_False by done; cbn [eol0 eol1 EOLToStr nth Z.eqb];
      by rewrite pass1_replace. }
  rewrite E. cbn [fst snd]. by rewrite IH, replace_char_app.
Qed.

Lemma pass2_no_cr d0 c : CR ∉ c -> pass2 CR LF d0 0 c = c.
Proof.
  induction c as [|c|c c1 t IH1 IH2] using list_ind2; [done| |]; intros Hc.
  - cbn. rewrite (proj2 (Z.eqb_neq c CR)) by set_solver. done.
  - rewrite pass2_cons2, (proj2 (Z.eqb_neq c CR)) by set_solver. cbn [andb].
    by rewrite IH2 by set_solver.
Qed.

Lemma from_crlf_no_cr d0 c : CR ∉ c -> from_crlf d0 c = c.
Proof.
  induction c as [|c|c c1 t IH1 IH2] using list_ind2; [done|done|]; intros Hc.
  rewrite from_crlf_cons2, (proj2 (Z.eqb_neq c CR)) by set_solver. cbn [andb].
  by rewrite IH2 by set_solver.
Qed.

Lemma chunks_same src chunks tok : (convert_chunks src src 0 tok chunks).2 = concat chunks.
Proof.
  revert tok. induction chunks as [|c chunks IH]; intros tok; [done|].
  cbn [convert_chunks concat snd]. change (unmarked 0 c) with c.
  unfold convert_bytes. rewrite decide_True by done. cbn [fst snd]. by rewrite IH.
Qed.

Lemma chunks_no_cr chunks tok :
  CR ∉ concat chunks -> (convert_chunks eolCRLF eolCR 0 tok chunks).2 = concat chunks.
Proof.
  revert tok. induction chunks as [|c chunks IH]; intros tok Hc; [done|].
  cbn [convert_chunks concat snd] in *. change (unmarked 0 c) with c.
  change (convert_bytes eolCRLF eolCR tok c) with (tok, pass2 CR LF CR 0 c). cbn [fst snd].
  rewrite IH, pass2_no_cr by set_solver. done.
Qed.

(** Block by block is the whole. *)
Lemma convert_chunks_text src dst chunks :
  Forall (fun c => c <> []) chunks -> blockwise src dst (concat chunks) = true ->
  (convert_chunks src dst 0 false chunks).2 = eol_text src dst (concat chunks).
Proof.
  intros Hne Hb. destruct src, dst; cbn [blockwise eol_text] in *;
    try apply chunks_same; try (apply andb_true_iff in Hb as [Hb Hb2]).
  - rewrite (chunks_to_crlf LF (or_introl eq_refl) eolLF); auto; done.
  - rewrite chunks_replace; auto.
  - by apply chunks_from_crlf.
  - apply bool_decide_eq_true in Hb. rewrite from_crlf_no_cr by done. by apply chunks_no_cr.
  - rewrite chunks_replace; auto.
  - rewrite (chunks_to_crlf CR (or_intror eq_refl) eolCR); auto; done.
Qed.








Lemma to_crlf_length s0 l : (length (to_crlf s0 l) <= 2 * length l)%nat.
Proof.
  induction l as [|c|c c1 t IH1 IH2] using list_ind2; [done| |].
  - cbn. destruct (c =? s0); cbn; lia.
  - rewrite to_crlf_cons2. destruct (_ && _); cbn [length app]; [lia|].
    rewrite length_app. cbn [length] in IH2. destruct (c =? s0); cbn [length]; lia.
Qed.

(** Texts without CR, there and back. *)
Lemma to_crlf_no_cr c t : CR ∉ c :: t ->
  to_crlf LF (c :: t) = (if c =? LF then [CR; LF] else [c]) ++ to_crlf LF t.
Proof.
  intros Hc. destruct t as [|c1 t]; [cbn; by rewrite app_nil_r|].
  by rewrite to_crlf_cons2, (proj2 (Z.eqb_neq c CR)) by set_solver.
Qed.

Lemma from_crlf_skip d0 c l : c <> CR -> from_crlf d0 (c :: l) = c :: from_crlf d0 l.
Proof.
  intros Hc. destruct l as [|c1 l]; [done|].
  by rewrite from_crlf_cons2, (proj2 (Z.eqb_neq c CR)) by done.
Qed.

Lemma from_to_crlf l : CR ∉ l -> from_crlf LF (to_crlf LF l) = l.
Proof.
  induction l as [|c l IH]; [done|]. intros Hc. rewrite to_crlf_no_cr by done.
  destruct (Z.eqb_spec c LF) as [->|Hl]; cbn [app].
  - rewrite from_crlf_cons2. change ((CR =? CR) && (LF =? LF)) with true. cbv iota.
    by rewrite IH by set_solver.
  - rewrite from_crlf_skip by set_solver. by rewrite IH by set_solver.
Qed.

Lemma crs_paired_no_cr l : CR ∉ l -> crs_paired l = true.
Proof.
  induction l as [|c l IH]; [done|]. intros Hc. cbn.
  rewrite (proj2 (Z.eqb_neq c CR)) by set_solver. by rewrite IH by set_solver.
Qed.

Lemma no_crlflf_no_cr l : CR ∉ l -> no_crlflf l = true.
Proof.
  induction l as [|c l IH]; [done|]. intros Hc. cbn [no_crlflf].
  rewrite (proj2 (Z.eqb_neq c CR)) by set_solver. by rewrite IH by set_solver.
Qed.

Lemma to_crlf_paired l : CR ∉ l -> crs_paired (to_crlf LF l) = true.
Proof.
  induction l as [|c l IH]; [done|]. intros Hc. rewrite to_crlf_no_cr by done.
  specialize (IH ltac:(set_solver)). destruct (c =? LF); cbn; rewrite IH; [done|].
  by rewrite (proj2 (Z.eqb_neq c CR)) by set_solver.
Qed.

(** ** The properties *)



(** A text with LF line ends that is transferred in text mode to a system with
    CR LF line ends and back, in blocks of whatever sizes each way, comes back as
    it was. *)
Theorem text_transfer_roundtrip text chunks1 chunks2 :
  CR ∉ text -> Z.of_nat (length text) <= 256 * 1024 * 1024 ->
  Forall (fun c => c <> []) chunks1 -> concat chunks1 = text ->
  Forall (fun c => c <> []) chunks2 -> concat chunks2 = eol_text eolLF eolCRLF text ->
  exists tok1 there Stream1 tok2 back Stream2,
    ascii_blocks eolLF eolCRLF 0 (Z.of_nat ∘ length <$> chunks1) false new_stream
      (MemStream (Some <$> text) (Z.of_nat (length text)) (Z.of_nat (length text)) 0)
      = Ok (tok1, there, Stream1) /\
    ascii_blocks eolCRLF eolLF 0 (Z.of_nat ∘ length <$> chunks2) false new_stream
      (Seek there 0 soBeginning).2 = Ok (tok2, back, Stream2) /\
    stream_holds back text.
Proof.
  intros Hcr Hl Hne1 E1 Hne2 E2. cbn [eol_text] in E2.
  pose proof (to_crlf_length LF text) as Hl2.
  assert (Hb1 : blockwise eolLF eolCRLF text = true).
  { cbn. by rewrite crs_paired_no_cr, no_crlflf_no_cr. }
  pose proof (convert_chunks_text eolLF eolCRLF chunks1 Hne1 ltac:(by rewrite E1)) as C1.
  pose proof (convert_chunks_text eolCRLF eolLF chunks2 Hne2
    ltac:(rewrite E2; by apply to_crlf_paired)) as C2.
  cbn [eol_text] in C1, C2. rewrite E1 in C1. rewrite E2, from_to_crlf in C2 by done.
  set (file := MemStream _ _ _ 0).
  assert (Hr1 : remaining file (concat chunks1 ++ [])).
  { exists text. rewrite app_nil_r, E1. split_and!; [|done|done].
    split; [split; cbn; rewrite ?length_fmap; lia|]. unfold contents. cbn.
    by rewrite Nat2Z.id, take_ge by (by rewrite length_fmap). }
  destruct (ascii_blocks_ok eolLF eolCRLF 0 chunks1 [] file false new_stream [] filling_new Hr1)
    as (there & Stream1 & R1 & [[Hok Hc] _] & _); [rewrite E1; lia|rewrite C1; lia|].
  rewrite C1 in Hc. cbn [app] in Hc.
  destruct (ascii_blocks_ok eolCRLF eolLF 0 chunks2 [] (Seek there 0 soBeginning).2 false new_stream
    [] filling_new) as (back & Stream2 & R2 & [Hback _] & _); [|rewrite E2; lia|rewrite C2; lia|].
  { exists (to_crlf LF text). rewrite app_nil_r, E2. split_and!; [|done|done].
    split; [by destruct Hok; split|done]. }
  rewrite C2 in Hback. eauto 10.
Qed.

Lemma text_transfer_roundtrip_witness :
  exists tok1 there Stream1 tok2 back Stream2,
    ascii_blocks eolLF eolCRLF 0 [1; 2] false new_stream
      (MemStream (Some <$> [LF; LF; 97]) 3 3 0) = Ok (tok1, there, Stream1) /\
    ascii_blocks eolCRLF eolLF 0 [3; 2] false new_stream
      (Seek there 0 soBeginning).2 = Ok (tok2, back, Stream2) /\
    stream_holds back [LF; LF; 97].
Proof.
  apply (text_transfer_roundtrip [LF; LF; 97] [[LF]; [LF; 97]] [[CR; LF; CR]; [LF; 97]]).
  - unfold CR, LF. set_solver.
  - cbn. lia.
  - repeat constructor; done.
  - reflexivity.
  - repeat constructor; done.
  - reflexivity.
Defined.

(** Where a block ends between the CR and the LF of a line end and empty lines
    follow, all of them are lost: the next block drops every LF at its
    beginning, not only the one that belongs to the CR.  Converted in one block,
    the same text keeps its lines. *)
Theorem split_line_end_loses_lines {S} `{LawfulStream S} (Stream : S) k c :
  remaining Stream ([CR] ++ repeat LF (1 + k) ++ [c]) -> c <> CR -> c <> LF ->
  Z.of_nat k < 2 ^ 20 ->
  (exists tok AsciiBuf Stream',
    ascii_blocks eolLF eolCRLF 0 [1; Z.of_nat k + 2] false new_stream Stream
      = Ok (tok, AsciiBuf, Stream') /\ stream_holds AsciiBuf [CR; LF; c]) /\
  eol_text eolLF eolCRLF ([CR] ++ repeat LF (1 + k) ++ [c])
    = [CR; LF] ++ concat (repeat [CR; LF] k) ++ [c].
Proof.
  intros Hr Hc1 Hc2 Hk. split.
  - set (c2 := repeat LF (1 + k) ++ [c]).
    assert (Hs : strip LF c2 = [c]).
    { unfold c2. clear -Hc2. induction k as [|k IH]; [|exact IH]. cbn.
      by rewrite (proj2 (Z.eqb_neq c LF)). }
    assert (Hl : length c2 = (k + 2)%nat) by (unfold c2; rewrite length_app, repeat_length; cbn; lia).
    assert (E2 : (convert_chunks eolLF eolCRLF 0 false [[CR]; c2]).2 = [CR; LF; c]).
    { cbn [convert_chunks snd]. change (unmarked 0 c2) with c2.
      change (convert_bytes eolLF eolCRLF false (unmarked 0 [CR])) with (true, [CR; LF]).
      unfold convert_bytes. cbn [decide fst snd eol1 eol0 EOLToStr nth Z.eqb]. rewrite Hs.
      cbn [pass1 fst snd]. rewrite (proj2 (Z.eqb_neq c CR)) by done.
      rewrite (proj2 (Z.eqb_neq c LF)) by done. done. }
    destruct (ascii_blocks_ok eolLF eolCRLF 0 [[CR]; c2] [] Stream false new_stream [] filling_new)
      as (buf & Stream' & E1 & [Hbuf _] & _).
    { cbn [concat]. by rewrite !app_nil_r. }
    { cbn [concat length app]. rewrite app_nil_r, Hl. lia. }
    { rewrite E2. cbn. lia. }
    rewrite E2 in Hbuf. cbn [fmap list_fmap] in E1. unfold compose in E1. rewrite Hl in E1.
    replace (Z.of_nat (k + 2)) with (Z.of_nat k + 2) in E1 by lia. eauto 10.
  - change (repeat LF (1 + k)) with (LF :: repeat LF k). cbn [eol_text app]. rewrite to_crlf_cons2.
    change ((CR =? CR) && (LF =? LF)) with true. cbv iota. cbn [app]. do 2 f_equal.
    clear -Hc1 Hc2. induction k as [|k IH]; cbn [repeat app concat].
    + cbn. by rewrite (proj2 (Z.eqb_neq c LF)).
    + rewrite <-IH. destruct (repeat LF k ++ [c]) as [|d u]; [done|]. by rewrite to_crlf_cons2.
Qed.

Lemma split_line_end_loses_lines_witness :
  exists tok AsciiBuf Stream',
    ascii_blocks eolLF eolCRLF 0 [1; 4] false new_stream
      (MemStream (Some <$> [CR; LF; LF; LF; 97]) 5 5 0) = Ok (tok, AsciiBuf, Stream') /\
    stream_holds AsciiBuf [CR; LF; 97].
Proof.
  apply (split_line_end_loses_lines (MemStream (Some <$> [CR; LF; LF; LF; 97]) 5 5 0) 2 97).
  - exists [CR; LF; LF; LF; 97]. split; [|done]. split; [split; cbn; lia|done].
  - done.
  - done.
  - cbn. lia.
Defined.

(** Other texts whose conversion depends on where the blocks end: a lone CR gets a
    LF where it ends a block; of a CR LF that is converted to CR, a LF is left
    where the block ends between the two; and a control-Z in the middle of the
    text is removed where a block ends with it. *)
Example lone_cr_at_block_end :
  (convert_chunks eolLF eolCRLF 0 false [[97; CR]; [98]]).2 = [97; CR; LF; 98] /\
  (convert_chunks eolLF eolCRLF 0 false [[97; CR; 98]]).2 = [97; CR; 98].
Proof. done. Qed.

Example crlf_to_cr_at_block_end :
  (convert_chunks eolCRLF eolCR 0 false [[97; CR]; [LF; 98]]).2 = [97; LF; 98] /\
  (convert_chunks eolCRLF eolCR 0 false [[97; CR; LF; 98]]).2 = [97; CR; 98].
Proof. done. Qed.

Example ctrlz_at_block_end :
  (convert_chunks eolLF eolCRLF cpRemoveCtrlZ false [[97; 26]; [98]]).2 = [97; 98] /\
  (convert_chunks eolLF eolCRLF cpRemoveCtrlZ false [[97; 26; 98]]).2 = [97; 26; 98].
Proof. done. Qed.
