(* ===== verification/Wildcard.v ===== *)
(** * Wildcards (putty utils/wildcard.c)

    The matching of remote file names and of host names in certificate rules.
    A wildcard is a sequence of rigid fragments separated by asterisks.

    A C string is the list of its characters; a pointer into the wildcard is the
    part of the string it points to.  The target comes with its length, and
    [beyond] is the memory from [target_end] on: nothing promises a terminator
    there.  A pointer into the target is the part up to [target_end]. *)

From S2P Require Import Prelude.
Local Open Scope cmodel_scope.
Local Open Scope Z_scope.

Definition STAR : Z := 42.
Definition QUERY : Z := 63.
Definition LBRACKET : Z := 91.
Definition BACKSLASH : Z := 92.
Definition RBRACKET : Z := 93.
Definition CARET : Z := 94.
Definition MINUS : Z := 45.

Inductive wc_err := WC_TRAILINGBACKSLASH | WC_UNCLOSEDCLASS | WC_INVALIDRANGE.

(** The values of the enumeration. *)
Definition wc_code (e : wc_err) : Z :=
  match e with WC_TRAILINGBACKSLASH => 1 | WC_UNCLOSEDCLASS => 2 | WC_INVALIDRANGE => 3 end.

(** Step over a backslash. *)
Definition skip_backslash (f : list Z) : list Z :=
  match f with c :: f' => if c =? BACKSLASH then f' else f | [] => [] end.

Definition in_range (lower upper ourchr : Z) : bool :=
  let '(lower, upper) := if upper <? lower then (upper, lower) else (lower, upper) in
  (lower <=? ourchr) && (ourchr <=? upper).

(** The loop over the contents of a character class; [f] ends behind the closing
    bracket's predecessor, at the bracket. *)
Fixpoint class_loop (fuel : nat) (f : list Z) (ourchr : Z) (matched : bool)
  : res (wc_err + bool * list Z) :=
  if bool_decide (head f = Some RBRACKET) then Ok (inr (matched, f))
  else
    match fuel with
    | O => Crash OutOfFuel
    | S fuel =>
        match skip_backslash f with
        | [] => Ok (inl WC_UNCLOSEDCLASS)
        | lower :: f1 =>
            if bool_decide (head f1 = Some MINUS) then
              let f2 := tail f1 in
              if bool_decide (head f2 = Some RBRACKET) then Ok (inl WC_INVALIDRANGE)
              else
                match skip_backslash f2 with
                | [] => Ok (inl WC_UNCLOSEDCLASS)
                | upper :: f3 => class_loop fuel f3 ourchr (matched || in_range lower upper ourchr)
                end
            else class_loop fuel f1 ourchr (matched || (ourchr =? lower))
        end
    end.

(** What [wc_match_fragment] returns, with the pointers it advanced. *)
Inductive frag_result :=
| FragError (e : wc_err)
| FragNo
| FragYes (f t : list Z).

Fixpoint wc_match_fragment (f t : list Z) : res frag_result :=
  match f with
  | [] => Ok (FragYes f t)
  | c :: f' =>
      if c =? STAR then Ok (FragYes f t)
      else
        match t with
        | [] => Ok FragNo
        | ch :: t' =>
            if c =? BACKSLASH then
              match f' with
              | [] => Ok (FragError WC_TRAILINGBACKSLASH)
              | c1 :: f2 => if c1 =? ch then wc_match_fragment f2 t' else Ok FragNo
              end
            else if c =? QUERY then wc_match_fragment f' t'
            else if c =? LBRACKET then
              let invert := bool_decide (head f' = Some CARET) in
              let f1 := if invert then tail f' else f' in
              let! r := class_loop (S (length f1)) f1 ch false in
              match r with
              | inl e => Ok (FragError e)
              | inr (matched, f2) =>
                  if Bool.eqb invert matched then Ok FragNo else wc_match_fragment (tail f2) t'
              end
            else if c =? ch then wc_match_fragment f' t'
            else Ok FragNo
        end
  end.

(** The results of the matching routine: 1, 0 or a negative error. *)
Definition frag_int (r : frag_result) : Z :=
  match r with FragError e => - wc_code e | FragNo => 0 | FragYes _ _ => 1 end.

(** [while ( *wildcard == '*' ) wildcard++] *)
Fixpoint skip_stars (w : list Z) : list Z :=
  match w with c :: w' => if c =? STAR then skip_stars w' else w | [] => [] end.

(** The search for a fragment.  [inl] is the value to return, [inr] where the
    fragment was found: the rest of the wildcard and of the target.  Once the
    pointer has passed [target_end] the fragment cannot match, but the search goes
    on to the next NUL. *)
Fixpoint search_beyond (beyond : list Z) : res (Z + list Z * list Z) :=
  match beyond with
  | [] => Crash UndefinedBehaviour
  | b :: beyond => if b =? 0 then Ok (inl 0) else search_beyond beyond
  end.

Fixpoint wc_search (w t beyond : list Z) : res (Z + list Z * list Z) :=
  match t with
  | [] => search_beyond beyond
  | ch :: t' =>
      if ch =? 0 then Ok (inl 0)
      else
        let! r := wc_match_fragment w t in
        match r with
        | FragError e => Ok (inl (- wc_code e))
        | FragNo => wc_search w t' beyond
        | FragYes w2 t2 =>
            match w2, t2 with
            | [], _ :: _ =>
                let! r := wc_match_fragment w (drop (length t2) t) in
                Ok (inl (frag_int r))
            | _, _ => Ok (inr (w2, t2))
            end
        end
  end.

Fixpoint wc_loop (fuel : nat) (w t beyond : list Z) : res Z :=
  match w with
  | [] => Ok (if t then 1 else 0)
  | c :: _ =>
      match fuel with
      | O => Crash OutOfFuel
      | S fuel =>
          c_assert (c =? STAR) (
            match skip_stars w with
            | [] => Ok 1
            | w1 =>
                let! r := wc_search w1 t beyond in
                match r with inl v => Ok v | inr (w2, t2) => wc_loop fuel w2 t2 beyond end
            end)
      end
  end.

Definition wc_match_inner (wildcard target beyond : list Z) : res Z :=
  if bool_decide (head wildcard = Some STAR) then
    wc_loop (length wildcard) wildcard target beyond
  else
    let! r := wc_match_fragment wildcard target in
    match r with
    | FragYes w t => wc_loop (length wildcard) w t beyond
    | _ => Ok (frag_int r)
    end.

(** The memory behind the string is its terminator and anything else. *)
Definition wc_match (wildcard target : list Z) : res Z := wc_match_inner wildcard target [0].

Definition wc_match_pl (wildcard target beyond : list Z) : res Z :=
  wc_match_inner wildcard target beyond.

(** [None] where a wildcard character was met. *)
Fixpoint wc_unescape (wildcard : list Z) : option (list Z) :=
  match wildcard with
  | [] => Some []
  | c :: w =>
      if c =? BACKSLASH then
        match w with
        | [] => Some []
        | c1 :: w1 => output ← wc_unescape w1; Some (c1 :: output)
        end
      else if (c =? STAR) || (c =? QUERY) || (c =? LBRACKET) || (c =? RBRACKET) then None
      else output ← wc_unescape w; Some (c :: output)
  end.
