(* ===== verification/WildcardSpec.v ===== *)
(** * What wildcards mean

    The grammar and the meaning of wildcards as the comment at the top of
    putty's utils/wildcard.c gives them, and the theorem that the matching
    routine, which never backtracks, decides that meaning. *)

From S2P Require Import Prelude Wildcard.
Local Open Scope cmodel_scope.
Local Open Scope Z_scope.

(** ** The grammar *)

Inductive item := IChar (c : Z) | IRange (lower upper : Z).
Inductive atom := AChar (c : Z) | AAny | AClass (invert : bool) (items : list item).
Inductive token := TStar | TAtom (a : atom).

(** The contents of a class up to its closing bracket, and what follows it. *)
Inductive class_body : list Z -> list item -> list Z -> Prop :=
| cb_end f : class_body (RBRACKET :: f) [] f
| cb_char f c f1 items rest :
    head f <> Some RBRACKET -> skip_backslash f = c :: f1 -> head f1 <> Some MINUS ->
    class_body f1 items rest -> class_body f (IChar c :: items) rest
| cb_range f lower f1 upper f2 items rest :
    head f <> Some RBRACKET -> skip_backslash f = lower :: MINUS :: f1 ->
    head f1 <> Some RBRACKET -> skip_backslash f1 = upper :: f2 ->
    class_body f2 items rest -> class_body f (IRange lower upper :: items) rest.

(** One character's worth of pattern. *)
Inductive atom_of : list Z -> atom -> list Z -> Prop :=
| ao_quoted c f : atom_of (BACKSLASH :: c :: f) (AChar c) f
| ao_any f : atom_of (QUERY :: f) AAny f
| ao_class f items rest :
    head f <> Some CARET -> class_body f items rest -> atom_of (LBRACKET :: f) (AClass false items) rest
| ao_inverted f items rest :
    class_body f items rest -> atom_of (LBRACKET :: CARET :: f) (AClass true items) rest
| ao_char c f :
    c <> STAR -> c <> BACKSLASH -> c <> QUERY -> c <> LBRACKET -> atom_of (c :: f) (AChar c) f.

(** A whole wildcard. *)
Inductive wild : list Z -> list token -> Prop :=
| wild_nil : wild [] []
| wild_star w p : wild w p -> wild (STAR :: w) (TStar :: p)
| wild_atom w a w' p : atom_of w a w' -> wild w' p -> wild w (TAtom a :: p).

(** ** The meaning *)

Definition item_ok (ch : Z) (i : item) : bool :=
  match i with IChar c => ch =? c | IRange lower upper => in_range lower upper ch end.

Definition atom_ok (a : atom) (ch : Z) : bool :=
  match a with
  | AChar c => c =? ch
  | AAny => true
  | AClass invert items => negb (Bool.eqb invert (existsb (item_ok ch) items))
  end.

Inductive matches : list token -> list Z -> Prop :=
| m_nil : matches [] []
| m_star p t1 t2 : matches p t2 -> matches (TStar :: p) (t1 ++ t2)
| m_atom a p ch t : atom_ok a ch = true -> matches p t -> matches (TAtom a :: p) (ch :: t).

(** ** The grammar is unambiguous *)

(** Two results of the same function are equal. *)
Ltac same_result :=
  repeat match goal with
  | A : skip_backslash ?x = _, B : skip_backslash ?x = _ |- _ =>
      rewrite A in B; clear A; simplify_eq/=
  end.

Lemma class_body_fun f items1 rest1 items2 rest2 :
  class_body f items1 rest1 -> class_body f items2 rest2 -> items1 = items2 /\ rest1 = rest2.
Proof.
  intros H1. revert items2 rest2.
  induction H1 as [f|f c f1 items rest Hh Hs Hm H IH|f lo f1 up f2 items rest Hh Hs Hm Hs2 H IH];
    intros items2 rest2 H2; inversion H2; subst; cbn in *; try done; same_result; try done;
    by edestruct IH; [eassumption|]; subst.
Qed.

Lemma atom_of_fun f a1 rest1 a2 rest2 :
  atom_of f a1 rest1 -> atom_of f a2 rest2 -> a1 = a2 /\ rest1 = rest2.
Proof.
  intros H1 H2. inversion H1; subst; inversion H2; subst; cbn in *; try done;
    match goal with A : class_body ?f _ _, B : class_body ?f _ _ |- _ =>
      by destruct (class_body_fun _ _ _ _ _ A B); subst end.
Qed.

Lemma atom_of_not_star f a rest : atom_of (STAR :: f) a rest -> False.
Proof. by inversion 1. Qed.

Lemma wild_fun w p1 p2 : wild w p1 -> wild w p2 -> p1 = p2.
Proof.
  intros H1. revert p2. induction H1 as [|w p H IH|w a w' p Ha H IH]; intros p2 H2;
    inversion H2 as [|w1 p1 H1|w1 a1 w1' p1 Ha1 H1]; subst;
    try (by edestruct atom_of_not_star); try (by inversion Ha); try (by inversion Ha1); [done| |].
  - by rewrite (IH p1).
  - destruct (atom_of_fun _ _ _ _ _ Ha Ha1). subst. by rewrite (IH p1).
Qed.

(** ** Classes and fragments *)

Lemma skip_backslash_length f : (length (skip_backslash f) <= length f)%nat.
Proof. destruct f as [|c f]; [done|]. cbn. destruct (c =? BACKSLASH); cbn; lia. Qed.

Lemma class_loop_ok fuel : forall f ch m,
  (length f < fuel)%nat ->
  exists r, class_loop fuel f ch m = Ok r /\
    match r with
    | inr (m', f') => exists items rest, f' = RBRACKET :: rest /\ class_body f items rest /\
        m' = m || existsb (item_ok ch) items
    | inl _ => forall items rest, ~ class_body f items rest
    end.
Proof.
  induction fuel as [|fuel IH]; intros f ch m Hf; [lia|]. cbn [class_loop].
  case_bool_decide as Hend.
  { destruct f as [|c f]; [done|]. injection Hend as ->. eexists. split; [done|].
    exists [], f. split; [done|]. split; [constructor|by rewrite orb_false_r]. }
  pose proof (skip_backslash_length f) as Hl.
  destruct (skip_backslash f) as [|lower f1] eqn:Hs.
  { eexists. split; [done|]. intros items rest. inversion 1; subst; try done; same_result. }
  cbn [length] in Hl. assert (Hlf : (length f1 < fuel)%nat).
  { destruct f as [|c f]; [done|]. cbn in *. destruct (c =? BACKSLASH); cbn in *; lia. }
  case_bool_decide as Hm.
  - destruct f1 as [|c1 f2]; [done|]. injection Hm as ->. cbn [tail]. cbn [length] in Hlf.
    case_bool_decide as Hr.
    { eexists. split; [done|]. intros items rest. inversion 1; subst; try done; same_result; try done. }
    pose proof (skip_backslash_length f2) as Hl2.
    destruct (skip_backslash f2) as [|upper f3] eqn:Hs2.
    { eexists. split; [done|]. intros items rest. inversion 1; subst; try done; same_result; try done. }
    cbn [length] in Hl2.
    destruct (IH f3 ch (m || in_range lower upper ch) ltac:(lia)) as (r & E & Hr').
    exists r. split; [done|]. destruct r as [e|[m' f']].
    + intros items rest. inversion 1; subst; try done; same_result; try done; by eapply Hr'.
    + destruct Hr' as (items & rest & -> & Hb & ->). exists (IRange lower upper :: items), rest.
      split; [done|]. split; [by eapply cb_range|]. cbn. by rewrite orb_assoc.
  - destruct (IH f1 ch (m || (ch =? lower)) Hlf) as (r & E & Hr').
    exists r. split; [done|]. destruct r as [e|[m' f']].
    + intros items rest. inversion 1; subst; try done; same_result; try done; by eapply Hr'.
    + destruct Hr' as (items & rest & -> & Hb & ->). exists (IChar lower :: items), rest.
      split; [done|]. split; [by eapply cb_char|]. cbn. by rewrite orb_assoc.
Qed.

(** A rigid fragment of a wildcard: its atoms and what follows, which is empty or
    begins with an asterisk. *)
Inductive fragment : list Z -> list atom -> list Z -> Prop :=
| fr_end : fragment [] [] []
| fr_star w : fragment (STAR :: w) [] (STAR :: w)
| fr_atom w a w' p w2 : atom_of w a w' -> fragment w' p w2 -> fragment w (a :: p) w2.

Lemma fragment_fun w p1 w1 p2 w2 :
  fragment w p1 w1 -> fragment w p2 w2 -> p1 = p2 /\ w1 = w2.
Proof.
  intros H1. revert p2 w2. induction H1 as [|w|w a w' p w1 Ha H IH]; intros p2 w2 H2;
    inversion H2 as [| |w3 a3 w3' p3 w4 Ha3 H3]; subst;
    try (by edestruct atom_of_not_star); try (by inversion Ha); try (by inversion Ha3); [done|done|].
  destruct (atom_of_fun _ _ _ _ _ Ha Ha3). subst. by destruct (IH _ _ H3); subst.
Qed.

(** The atoms match the beginning of the target. *)
Fixpoint frag_ok (p : list atom) (t : list Z) : bool :=
  match p, t with
  | [], _ => true
  | a :: p, ch :: t => atom_ok a ch && frag_ok p t
  | _ :: _, [] => false
  end.

Definition frag_meaning (w t : list Z) (r : frag_result) : Prop :=
  match r with
  | FragYes w2 t2 => exists p, fragment w p w2 /\ frag_ok p t = true /\ t2 = drop (length p) t
  | FragNo => forall p w2, fragment w p w2 -> frag_ok p t = false
  | FragError _ => forall p w2, ~ fragment w p w2
  end.

(** One step of the loop over a fragment. *)
Lemma frag_meaning_step w a w' ch t r :
  atom_of w a w' -> atom_ok a ch = true -> frag_meaning w' t r -> frag_meaning w (ch :: t) r.
Proof.
  intros Ha Hok. destruct r as [e| |w2 t2]; cbn.
  - intros H p w2 Hf. inversion Hf; subst; try (by inversion Ha). 
    match goal with A : atom_of w _ _ |- _ => destruct (atom_of_fun _ _ _ _ _ Ha A); subst end.
    by eapply H.
  - intros H p w2 Hf. inversion Hf; subst; try (by inversion Ha).
    match goal with A : atom_of w _ _ |- _ => destruct (atom_of_fun _ _ _ _ _ Ha A); subst end.
    cbn. rewrite Hok. by eapply H.
  - intros (p & Hf & Hp & ->). exists (a :: p). split; [by eapply fr_atom|]. cbn. by rewrite Hok.
Qed.

Lemma frag_meaning_no w a w' ch t :
  atom_of w a w' -> atom_ok a ch = false -> frag_meaning w (ch :: t) FragNo.
Proof.
  intros Ha Hok p w2 Hf. inversion Hf; subst; try (by inversion Ha).
  match goal with A : atom_of w _ _ |- _ => destruct (atom_of_fun _ _ _ _ _ Ha A); subst end.
  cbn. by rewrite Hok.
Qed.

Lemma wc_match_fragment_ok t : forall w,
  exists r, wc_match_fragment w t = Ok r /\ frag_meaning w t r.
Proof.
  induction t as [|ch t IH]; intros [|c w].
  1,3: eexists; split; [done|]; exists []; split; [constructor|done].
  - cbn. destruct (Z.eqb_spec c STAR) as [->|Hc].
    { eexists. split; [done|]. exists []. split; [constructor|done]. }
    eexists. split; [done|]. intros p w2 Hf. inversion Hf; by subst.
  - cbn [wc_match_fragment]. destruct (Z.eqb_spec c STAR) as [->|Hc].
    { eexists. split; [done|]. exists []. split; [constructor|done]. }
    destruct (Z.eqb_spec c BACKSLASH) as [->|Hb].
    { destruct w as [|c1 w].
      { eexists. split; [done|]. intros p w2 Hf. inversion Hf; subst.
        match goal with A : atom_of _ _ _ |- _ => by inversion A end. }
      destruct (c1 =? ch) eqn:E.
      - destruct (IH w) as (r & -> & Hr). exists r. split; [done|].
        by eapply frag_meaning_step; [constructor| |].
      - eexists. split; [done|]. by eapply frag_meaning_no; [constructor|]. }
    destruct (Z.eqb_spec c QUERY) as [->|Hq].
    { destruct (IH w) as (r & -> & Hr). exists r. split; [done|].
      by eapply frag_meaning_step; [constructor| |]. }
    destruct (Z.eqb_spec c LBRACKET) as [->|Hl].
    2:{ assert (Ha : atom_of (c :: w) (AChar c) w) by (by constructor). destruct (c =? ch) eqn:E.
        - destruct (IH w) as (r & -> & Hr). exists r. split; [done|]. by eapply frag_meaning_step.
        - eexists. split; [done|]. by eapply frag_meaning_no. }
    set (f1 := if bool_decide (head w = Some CARET) then tail w else w).
    set (invert := bool_decide (head w = Some CARET)).
    assert (Hcl : forall items rest, class_body f1 items rest ->
                    atom_of (LBRACKET :: w) (AClass invert items) rest).
    { unfold f1, invert. case_bool_decide as Hw; [|by constructor]. destruct w as [|d w]; [done|].
      injection Hw as ->. by constructor. }
    destruct (class_loop_ok (S (length f1)) f1 ch false ltac:(lia)) as (r & -> & Hr). cbn [res_bind].
    destruct r as [e|[m f']].
    + eexists. split; [done|]. intros p w2 Hf. inversion Hf; subst.
      match goal with A : atom_of _ _ _ |- _ => inversion A; subst; try done end.
      * eapply Hr. unfold f1. rewrite bool_decide_eq_false_2 by done. eassumption.
      * eapply Hr. unfold f1. rewrite bool_decide_eq_true_2 by done. eassumption.
    + destruct Hr as (items & rest & -> & Hb' & ->). cbn [orb tail].
      specialize (Hcl _ _ Hb'). destruct (Bool.eqb invert _) eqn:E.
      * eexists. split; [done|]. eapply frag_meaning_no; [done|]. cbn. by rewrite E.
      * destruct (IH rest) as (r & -> & Hr). exists r. split; [done|].
        eapply frag_meaning_step; [done| |done]. cbn. by rewrite E.
Qed.

(** ** Fragments in a wildcard *)

Lemma wild_fragment w p :
  wild w p -> exists p1 w2 p2, fragment w p1 w2 /\ wild w2 p2 /\ p = map TAtom p1 ++ p2.
Proof.
  induction 1 as [|w p H IH|w a w' p Ha H (p1 & w2 & p2 & H1 & H2 & ->)].
  - exists [], [], []. by split; [constructor|split; [constructor|]].
  - exists [], (STAR :: w), (TStar :: p). by split; [constructor|split; [constructor|]].
  - exists (a :: p1), w2, p2. by split; [econstructor|].
Qed.

Lemma fragment_wild w p1 w2 p2 : fragment w p1 w2 -> wild w2 p2 -> wild w (map TAtom p1 ++ p2).
Proof. induction 1; intros Hw; [done|done|]. cbn. econstructor; eauto. Qed.

Lemma fragment_stop w p w2 : fragment w p w2 -> w2 = [] \/ head w2 = Some STAR.
Proof. induction 1; auto. Qed.

Lemma fragment_nonempty w p w2 : fragment w p w2 -> w <> [] -> head w <> Some STAR -> p <> [].
Proof. by inversion 1. Qed.

Lemma fragment_length w p w2 : fragment w p w2 -> (length w2 <= length w)%nat.
Proof.
  assert (Hc : forall f items rest, class_body f items rest -> (length rest < length f)%nat).
  { induction 1 as [f|f c f1 items rest Hh Hs Hm H IH|f lo f1 up f2 items rest Hh Hs Hm Hs2 H IH].
    - cbn. lia.
    - pose proof (skip_backslash_length f) as Hl. rewrite Hs in Hl. cbn in Hl. lia.
    - pose proof (skip_backslash_length f) as Hl. rewrite Hs in Hl.
      pose proof (skip_backslash_length f1) as Hl2. rewrite Hs2 in Hl2. cbn in Hl, Hl2. lia. }
  assert (Ha : forall f a rest, atom_of f a rest -> (length rest < length f)%nat).
  { destruct 1; cbn; try (specialize (Hc _ _ _ ltac:(eassumption))); lia. }
  induction 1 as [| |w a w' p w2 H1 _ IH]; [done|done|]. specialize (Ha _ _ _ H1). lia.
Qed.

Lemma matches_fragment p1 p2 t :
  matches (map TAtom p1 ++ p2) t <->
  frag_ok p1 t = true /\ (length p1 <= length t)%nat /\ matches p2 (drop (length p1) t).
Proof.
  revert t. induction p1 as [|a p1 IH]; intros t; cbn.
  - rewrite drop_0. split; [|tauto]. intros. split_and!; [done|lia|done].
  - split.
    + inversion 1; subst. cbn. rewrite andb_true_iff. apply IH in H4 as (H5 & H6 & H7).
      split_and!; [done|done|lia|done].
    + destruct t as [|ch t]; [intros (? & _); done|]. intros ([Ha Hf]%andb_true_iff & Hl & Hm).
      constructor; [done|]. apply IH. cbn in *. split_and!; [done|lia|done].
Qed.

Lemma frag_ok_length p t : frag_ok p t = true -> (length p <= length t)%nat.
Proof.
  revert t. induction p as [|a p IH]; intros [|ch t]; cbn; try lia; try done.
  intros [_ H]%andb_true_iff. apply IH in H. lia.
Qed.

Lemma matches_nil t : matches [] t -> t = [].
Proof. by inversion 1. Qed.

(** An asterisk skips any number of characters. *)
Lemma matches_star p t : matches (TStar :: p) t <-> exists i, (i <= length t)%nat /\ matches p (drop i t).
Proof.
  split.
  - inversion 1; subst. exists (length t1). rewrite length_app, drop_app_length. split; [lia|done].
  - intros (i & Hi & H). rewrite <-(take_drop i t). by constructor.
Qed.

Lemma matches_star_cons p ch t :
  matches (TStar :: p) (ch :: t) <-> matches p (ch :: t) \/ matches (TStar :: p) t.
Proof.
  rewrite !matches_star. split.
  - intros ([|i] & Hi & H); [by left|right]. exists i. split; [cbn in Hi; lia|done].
  - intros [H|(i & Hi & H)]; [by exists 0%nat; split; [lia|]|]. exists (S i). cbn. split; [lia|done].
Qed.

Lemma matches_star_suffix p t i : matches (TStar :: p) (drop i t) -> matches (TStar :: p) t.
Proof.
  intros H. rewrite <-(take_drop i t). inversion H; subst. rewrite app_assoc. by constructor.
Qed.

Lemma matches_star_star p t : matches (TStar :: TStar :: p) t <-> matches (TStar :: p) t.
Proof.
  rewrite (matches_star (TStar :: p)). split.
  - intros (i & _ & H). by eapply matches_star_suffix.
  - intros H. exists 0%nat. split; [lia|by rewrite drop_0].
Qed.

(** Several asterisks are one. *)
Lemma skip_stars_to w p :
  wild (STAR :: w) p ->
  exists q, wild (skip_stars w) q /\ forall t, matches p t <-> matches (TStar :: q) t.
Proof.
  revert p. induction w as [|c w IH]; intros p Hp;
    (inversion Hp as [|w0 p0 H0|? ? ? ? Ha]; subst; [|by edestruct atom_of_not_star]).
  - by exists p0.
  - cbn [skip_stars]. destruct (Z.eqb_spec c STAR) as [->|]; [|by exists p0].
    destruct (IH p0 H0) as (q & Hq & Hm). exists q. split; [done|]. intros t.
    rewrite <-(matches_star_star q). rewrite !(matches_star _ t). by setoid_rewrite Hm.
Qed.

Lemma skip_stars_from w q :
  wild (skip_stars w) q ->
  exists p, wild (STAR :: w) p /\ forall t, matches p t <-> matches (TStar :: q) t.
Proof.
  induction w as [|c w IH]; cbn; intros Hq.
  - exists (TStar :: q). split; [by constructor|done].
  - destruct (Z.eqb_spec c STAR) as [->|].
    + destruct (IH Hq) as (p & Hp & Hm). exists (TStar :: p). split; [by constructor|]. intros t.
      rewrite <-(matches_star_star q). rewrite !(matches_star _ t). by setoid_rewrite Hm.
    + exists (TStar :: q). split; [by constructor|done].
Qed.

Lemma skip_stars_head w : head (skip_stars w) <> Some STAR.
Proof. induction w as [|c w IH]; [done|]. cbn. destruct (Z.eqb_spec c STAR); [done|]. cbn. congruence. Qed.

Lemma skip_stars_length w : (length (skip_stars w) <= length w)%nat.
Proof. induction w as [|c w IH]; [done|]. cbn. destruct (c =? STAR); cbn; lia. Qed.

(** ** The search and the main loop *)

(** What a result says of a set of readings of the wildcard. *)
Definition verdict (readings : list token -> Prop) (t : list Z) (v : Z) : Prop :=
  (v = 1 /\ exists p, readings p /\ matches p t) \/
  (v = 0 /\ forall p, readings p -> ~ matches p t) \/
  (v < 0 /\ forall p, ~ readings p).

(** The readings of a wildcard behind an asterisk. *)
Definition starred (w : list Z) (p : list token) : Prop := exists q, p = TStar :: q /\ wild w q.

Definition search_meaning (w t : list Z) (r : Z + list Z * list Z) : Prop :=
  match r with
  | inl v => verdict (starred w) t v
  | inr (w2, t2) =>
      exists p i, fragment w p w2 /\ frag_ok p (drop i t) = true /\
        t2 = drop (i + length p) t /\ (w2 = [] -> t2 = []) /\
        forall j, (j < i)%nat -> frag_ok p (drop j t) = false
  end.

Lemma wc_code_pos e : - wc_code e < 0.
Proof. destruct e; cbn; lia. Qed.

(** A fragment that does not match here leaves the rest of the target. *)
Lemma search_meaning_next w ch t r :
  (forall p w2, fragment w p w2 -> frag_ok p (ch :: t) = false) ->
  search_meaning w t r -> search_meaning w (ch :: t) r.
Proof.
  intros Hno. assert (Hq : forall q, wild w q -> ~ matches q (ch :: t)).
  { intros q (p1 & w2 & p2 & Hf & _ & ->)%wild_fragment (H & _)%matches_fragment.
    by rewrite (Hno _ _ Hf) in H. }
  destruct r as [v|[w2 t2]]; cbn.
  - intros [[-> (p & (q & -> & Hw) & Hm)]|[[-> H]|[Hv H]]].
    + left. split; [done|]. exists (TStar :: q). split; [by exists q|]. apply matches_star_cons. by right.
    + right; left. split; [done|]. intros p (q & -> & Hw) [Hm|Hm]%matches_star_cons; [by eapply Hq|].
      eapply H; [by exists q|done].
    + right; right. done.
  - intros (p & i & Hf & Hp & -> & He & Hmin). exists p, (S i). split_and!; [done|done|done|done|].
    intros [|j] Hj; [by eapply Hno|]. apply Hmin. lia.
Qed.

(** A terminal fragment is decided at the end of the target. *)
Lemma search_terminal w p t r :
  fragment w p [] -> (length p <= length t)%nat ->
  frag_meaning w (drop (length t - length p) t) r -> verdict (starred w) t (frag_int r).
Proof.
  intros Hf Hl Hr. destruct r as [e| |w2 t2]; cbn [frag_int].
  - by edestruct Hr.
  - right; left. split; [done|].
    intros q' (q & -> & (p1 & w2 & p2 & Hf1 & Hw2 & ->)%wild_fragment) Hm.
    destruct (fragment_fun _ _ _ _ _ Hf Hf1) as [<- <-].
    inversion Hw2; subst; [|match goal with A : atom_of [] _ _ |- _ => by inversion A end].
    apply matches_star in Hm as (i & Hi & (H1 & H2 & H3)%matches_fragment).
    rewrite drop_drop in H3. apply matches_nil, (f_equal length) in H3 as E.
    rewrite length_drop in E. cbn in E. rewrite length_drop in H2.
    assert (i = length t - length p)%nat as -> by lia. by rewrite (Hr _ _ Hf) in H1.
  - destruct Hr as (p1 & Hf1 & Hok & _). destruct (fragment_fun _ _ _ _ _ Hf Hf1) as [<- <-].
    left. split; [done|]. exists (TStar :: (map TAtom p ++ [])). split.
    { eexists. split; [done|]. eapply fragment_wild; [done|constructor]. }
    apply matches_star. exists (length t - length p)%nat. split; [lia|].
    apply matches_fragment. rewrite length_drop, drop_drop. split_and!; [done|lia|].
    rewrite drop_ge by lia. constructor.
Qed.

Lemma wc_search_ok w t beyond :
  w <> [] -> head w <> Some STAR -> 0 ∉ t ->
  exists r, wc_search w t (0 :: beyond) = Ok r /\ search_meaning w t r.
Proof.
  intros Hne Hh. induction t as [|ch t IH]; intros H0.
  { exists (inl 0). split; [done|]. right; left. split; [done|].
    intros p (q & -> & (p1 & w2 & p2 & Hf & _ & ->)%wild_fragment) Hm.
    apply matches_star in Hm as (i & _ & (H1 & _)%matches_fragment).
    rewrite drop_nil in H1. pose proof (fragment_nonempty _ _ _ Hf Hne Hh). by destruct p1. }
  apply not_elem_of_cons in H0 as [Hch H0]. cbn [wc_search].
  rewrite (proj2 (Z.eqb_neq ch 0)) by congruence.
  destruct (wc_match_fragment_ok (ch :: t) w) as (r & -> & Hr). cbn [res_bind].
  destruct r as [e| |w2 t2].
  - eexists. split; [done|]. right; right. split; [apply wc_code_pos|].
    intros p (q & -> & (p1 & w2 & p2 & Hf & _)%wild_fragment). by eapply Hr.
  - destruct (IH H0) as (r & -> & Hs). exists r. split; [done|]. by apply search_meaning_next.
  - destruct Hr as (p & Hf & Hp & Et).
    assert (Hplain : (w2 = [] -> t2 = []) -> search_meaning w (ch :: t) (inr (w2, t2))).
    { intros He. exists p, 0%nat. split_and!; [done|done|done|done|lia]. }
    destruct w2 as [|c w2]; [|eexists; split; [done|by apply Hplain]].
    destruct t2 as [|d t2]; [eexists; split; [done|by apply Hplain]|].
    rewrite Et, length_drop. pose proof (frag_ok_length _ _ Hp).
    destruct (wc_match_fragment_ok (drop (length (ch :: t) - length p) (ch :: t)) w) as (r & E & Hr').
    rewrite E. cbn [res_bind]. eexists. split; [done|]. by eapply search_terminal.
Qed.

(** After the first place of a fragment, nothing is lost by going on from there. *)
Lemma search_continues w p w2 i t v :
  fragment w p w2 -> head w2 = Some STAR -> frag_ok p (drop i t) = true ->
  (forall j, (j < i)%nat -> frag_ok p (drop j t) = false) ->
  verdict (wild w2) (drop (i + length p) t) v -> verdict (starred w) t v.
Proof.
  intros Hf Hh Hp Hmin Hv. destruct w2 as [|c w2]; [done|]. injection Hh as ->.
  assert (Hl : (i <= length t)%nat \/ p = []).
  { destruct p as [|a p]; [by right|left]. destruct (drop i t) eqn:E; [done|].
    apply (f_equal length) in E. rewrite length_drop in E. cbn in E. lia. }
  destruct Hv as [[-> (p2 & Hw & Hm)]|[[-> H]|[Hv H]]].
  - left. split; [done|]. exists (TStar :: (map TAtom p ++ p2)). split.
    { eexists. split; [done|]. by eapply fragment_wild. }
    apply (matches_star_suffix _ _ i). apply matches_star. exists 0%nat. rewrite drop_0.
    split; [lia|]. apply matches_fragment. rewrite drop_drop.
    split_and!; [done|by apply frag_ok_length|done].
  - right; left. split; [done|].
    intros q' (q & -> & (p1 & w3 & p2 & Hf1 & Hw2 & ->)%wild_fragment) Hm.
    destruct (fragment_fun _ _ _ _ _ Hf Hf1) as [<- <-].
    apply matches_star in Hm as (j & Hj & (H1 & H2 & H3)%matches_fragment).
    destruct (Nat.lt_ge_cases j i) as [Hlt|Hge]; [by rewrite (Hmin j Hlt) in H1|].
    apply (H p2 Hw2). inversion Hw2; subst; [|by edestruct atom_of_not_star].
    apply (matches_star_suffix _ _ (j - i)). rewrite drop_drop.
    rewrite drop_drop in H3. by replace (i + length p + (j - i))%nat with (j + length p)%nat by lia.
  - right; right. split; [done|].
    intros q' (q & -> & (p1 & w3 & p2 & Hf1 & Hw2 & ->)%wild_fragment).
    destruct (fragment_fun _ _ _ _ _ Hf Hf1) as [<- <-]. by eapply H.
Qed.

(** The readings of a wildcard that begins with asterisks. *)
Lemma verdict_skip_stars w t v :
  verdict (starred (skip_stars w)) t v -> verdict (wild (STAR :: w)) t v.
Proof.
  intros [[-> (p & (q & -> & Hw) & Hm)]|[[-> H]|[Hv H]]].
  - left. split; [done|]. destruct (skip_stars_from w q Hw) as (p & Hp & E).
    exists p. split; [done|]. by apply E.
  - right; left. split; [done|]. intros p Hp Hm. destruct (skip_stars_to w p Hp) as (q & Hq & E).
    eapply H; [by exists q|]. by apply E.
  - right; right. split; [done|]. intros p Hp. destruct (skip_stars_to w p Hp) as (q & Hq & E).
    eapply H. by exists q.
Qed.

Lemma wc_loop_ok fuel : forall w t beyond,
  (length w <= fuel)%nat -> (w = [] \/ head w = Some STAR) -> 0 ∉ t ->
  exists v, wc_loop fuel w t (0 :: beyond) = Ok v /\ verdict (wild w) t v.
Proof.
  assert (Hnil : forall t, verdict (wild []) t (if t then 1 else 0)).
  { intros [|ch t].
    - left. split; [done|]. exists []. split; constructor.
    - right; left. split; [done|]. intros p Hp Hm.
      inversion Hp; subst; [by inversion Hm|].
      match goal with A : atom_of [] _ _ |- _ => by inversion A end. }
  induction fuel as [|fuel IH]; intros w t beyond Hl Hh H0.
  { destruct w; [|cbn in Hl; lia]. eexists. by split. }
  destruct w as [|c w]; [eexists; by split|]. destruct Hh as [|Hh]; [done|]. injection Hh as ->.
  cbn [wc_loop]. change (STAR =? STAR) with true. cbn [c_assert skip_stars].
  change (STAR =? STAR) with true. cbv iota. cbn [length] in Hl.
  pose proof (skip_stars_head w) as Hhd. pose proof (skip_stars_length w) as Hsl.
  destruct (skip_stars w) as [|d u] eqn:Es.
  { eexists. split; [done|]. apply verdict_skip_stars. rewrite Es. left. split; [done|].
    exists [TStar]. split; [by exists []; split; [|constructor]|].
    apply matches_star. exists (length t). rewrite drop_ge by lia. split; [lia|constructor]. }
  destruct (wc_search_ok (d :: u) t beyond ltac:(done) Hhd H0) as (r & -> & Hr). cbn [res_bind].
  destruct r as [v|[w2 t2]].
  { exists v. split; [done|]. apply verdict_skip_stars. by rewrite Es. }
  destruct Hr as (p & i & Hf & Hp & -> & He & Hmin).
  pose proof (fragment_length _ _ _ Hf) as Hl2. cbn [length] in Hl2, Hsl.
  assert (H0' : 0 ∉ drop (i + length p) t).
  { intros H. apply H0. rewrite <-(take_drop (i + length p) t). apply elem_of_app. by right. }
  destruct (fragment_stop _ _ _ Hf) as [->|Hst].
  - destruct fuel as [|fuel]; rewrite He by done; cbn [wc_loop]; eexists; (split; [done|]);
      apply verdict_skip_stars; rewrite Es; left; (split; [done|]);
      exists (TStar :: (map TAtom p ++ [])); (split;
        [eexists; split; [done|]; eapply fragment_wild; [done|constructor]|]);
      apply (matches_star_suffix _ _ i); apply matches_star; exists 0%nat; rewrite drop_0;
      (split; [lia|]); apply matches_fragment; rewrite drop_drop, He by done;
      (split_and!; [done|by apply frag_ok_length|constructor]).
  - destruct (IH w2 (drop (i + length p) t) beyond ltac:(lia) (or_intror Hst) H0') as (v & -> & Hv).
    exists v. split; [done|]. apply verdict_skip_stars. rewrite Es. by eapply search_continues.
Qed.

Lemma wc_match_inner_ok w t beyond :
  0 ∉ t -> exists v, wc_match_inner w t (0 :: beyond) = Ok v /\ verdict (wild w) t v.
Proof.
  intros H0. unfold wc_match_inner. case_bool_decide as Hh; [by apply wc_loop_ok; auto|].
  destruct (wc_match_fragment_ok t w) as (r & -> & Hr). cbn [res_bind].
  destruct r as [e| |w2 t2]; cbn [frag_int].
  - eexists. split; [done|]. right; right. split; [apply wc_code_pos|].
    intros p (p1 & w2 & p2 & Hf & _)%wild_fragment. by eapply Hr.
  - eexists. split; [done|]. right; left. split; [done|].
    intros p (p1 & w2 & p2 & Hf & _ & ->)%wild_fragment (H & _)%matches_fragment.
    by rewrite (Hr _ _ Hf) in H.
  - destruct Hr as (p1 & Hf & Hp & ->).
    destruct (wc_loop_ok (length w) w2 (drop (length p1) t) beyond) as (v & -> & Hv).
    { by eapply fragment_length. } { by eapply fragment_stop. }
    { intros H. apply H0. rewrite <-(take_drop (length p1) t). apply elem_of_app. by right. }
    exists v. split; [done|]. destruct Hv as [[-> (p2 & Hw & Hm)]|[[-> H]|[Hv H]]].
    + left. split; [done|]. eexists. split; [by eapply fragment_wild|].
      apply matches_fragment. split_and!; [done|by apply frag_ok_length|done].
    + right; left. split; [done|].
      intros p (p3 & w3 & p4 & Hf3 & Hw & ->)%wild_fragment (H1 & _ & H3)%matches_fragment.
      destruct (fragment_fun _ _ _ _ _ Hf Hf3) as [<- <-]. by eapply H.
    + right; right. split; [done|]. intros p (p3 & w3 & p4 & Hf3 & Hw & ->)%wild_fragment.
      destruct (fragment_fun _ _ _ _ _ Hf Hf3) as [<- <-]. by eapply H.
Qed.

(** C30. The matching routine looks for each fragment in the first place where it
    occurs and never goes back, and yet decides what wildcards mean: it always
    returns, without an assertion failing or a read out of bounds, 1 exactly when
    the wildcard has a reading that matches the target, a negative value only for
    a malformed wildcard, and 0 otherwise. *)
Theorem wildcard_match_decides w t (H0 : 0 ∉ t) :
  exists v, wc_match w t = Ok v /\
    ((v = 1 /\ exists p, wild w p /\ matches p t) \/
     (v = 0 /\ forall p, wild w p -> ~ matches p t) \/
     (v < 0 /\ forall p, ~ wild w p)).
Proof. by apply wc_match_inner_ok. Qed.

(** ["*a[b-d]"] against ["aac"] *)
Lemma wildcard_match_decides_witness :
  exists p, wild [STAR; 97; LBRACKET; 98; MINUS; 100; RBRACKET] p /\ matches p [97; 97; 99].
Proof.
  destruct (wildcard_match_decides [STAR; 97; LBRACKET; 98; MINUS; 100; RBRACKET] [97; 97; 99])
    as (v & E & H).
  - rewrite !not_elem_of_cons. split_and!; [lia|lia|lia|apply not_elem_of_nil].
  - vm_compute in E. injection E as <-. destruct H as [[_ H]|[[? _]|[? _]]]; [exact H|lia|lia].
Defined.

(** ** Plain strings *)

Definition literal (s : list Z) : list token := map TAtom (map AChar s).

Lemma matches_literal s t : matches (literal s) t <-> t = s.
Proof.
  revert t. induction s as [|c s IH]; intros t; cbn; split.
  - by inversion 1.
  - intros ->. constructor.
  - inversion 1; subst. cbn in *. f_equal; [lia|]. by apply IH.
  - intros ->. constructor; [apply Z.eqb_refl|]. by apply IH.
Qed.

Lemma unescape_literal n : forall w s p,
  (length w <= n)%nat -> wc_unescape w = Some s -> wild w p -> p = literal s.
Proof.
  induction n as [|n IH]; intros [|c w] s p Hl Hu Hw; cbn in Hl; try lia;
    try (cbn in Hu; injection Hu as <-; inversion Hw as [| |? ? ? ? Ha]; [done|by inversion Ha]).
  cbn [wc_unescape] in Hu. destruct (Z.eqb_spec c BACKSLASH) as [->|Hb].
  - inversion Hw as [| |? a w' p' Ha Hw']; subst. inversion Ha; subst; [|done].
    apply bind_Some in Hu as (o & Ho & [= <-]). cbn in Hl.
    by rewrite (IH w' o p' ltac:(lia) Ho Hw').
  - destruct ((c =? STAR) || _ || _ || _) eqn:E; [done|].
    apply bind_Some in Hu as (o & Ho & [= <-]).
    rewrite !orb_false_iff, !Z.eqb_neq in E. destruct E as [[[E1 E2] E3] E4].
    inversion Hw as [|? ? ?|? a w' p' Ha Hw']; subst; [done|].
    inversion Ha; subst; try done. by rewrite (IH w' o p' ltac:(lia) Ho Hw').
Qed.

(** [wc_unescape] agrees with the matching: a well-formed wildcard that it takes
    for a plain string matches that string and nothing else. *)
Theorem wc_unescape_matches w s p t :
  wc_unescape w = Some s -> wild w p -> 0 ∉ t ->
  wc_match w t = Ok (if bool_decide (t = s) then 1 else 0).
Proof.
  intros Hu Hw H0. assert (p = literal s) as -> by (by eapply unescape_literal).
  destruct (wc_match_inner_ok w t [] H0) as (v & E & Hv). unfold wc_match. rewrite E. f_equal.
  destruct Hv as [[-> (p & Hp & Hm)]|[[-> H]|[_ H]]].
  - rewrite (wild_fun _ _ _ Hp Hw) in Hm. apply matches_literal in Hm.
    by rewrite bool_decide_eq_true_2.
  - rewrite bool_decide_eq_false_2; [done|]. intros Et. apply (H _ Hw). by apply matches_literal.
  - by destruct (H _ Hw).
Qed.

(** ["a\*"] *)
Lemma wc_unescape_matches_witness : wc_match [97; BACKSLASH; STAR] [97; STAR] = Ok 1.
Proof.
  apply (wc_unescape_matches [97; BACKSLASH; STAR] [97; STAR]
    [TAtom (AChar 97); TAtom (AChar STAR)] [97; STAR]).
  - reflexivity.
  - eapply wild_atom; [by apply ao_char|]. eapply wild_atom; [apply ao_quoted|]. constructor.
  - rewrite !not_elem_of_cons. split_and!; [done|done|apply not_elem_of_nil].
Defined.

(** [wc_match_pl] takes a target with a length, but its search goes on to a NUL
    character: where the memory of the target ends with the target, a search that
    does not find its fragment reads beyond it. *)
Theorem wc_match_pl_overreads c t :
  c <> STAR -> c <> BACKSLASH -> c <> QUERY -> c <> LBRACKET -> c ∉ t -> 0 ∉ t ->
  wc_match_pl [STAR; c] t [] = Crash UndefinedBehaviour.
Proof.
  intros Hs Hb Hq Hl Hc H0. unfold wc_match_pl, wc_match_inner.
  rewrite bool_decide_eq_true_2 by done. cbn [length wc_loop skip_stars].
  change (STAR =? STAR) with true. cbn [c_assert]. rewrite (proj2 (Z.eqb_neq c STAR)) by done.
  assert (E : wc_search [c] t [] = Crash UndefinedBehaviour); [|by rewrite E].
  induction t as [|d t IH]; [done|]. apply not_elem_of_cons in Hc as [Hc Hct].
  apply not_elem_of_cons in H0 as [Hd H0]. cbn [wc_search wc_match_fragment].
  rewrite (proj2 (Z.eqb_neq d 0)), (proj2 (Z.eqb_neq c STAR)), (proj2 (Z.eqb_neq c BACKSLASH)),
    (proj2 (Z.eqb_neq c QUERY)), (proj2 (Z.eqb_neq c LBRACKET)), (proj2 (Z.eqb_neq c d)) by congruence.
  by apply IH.
Qed.

Lemma wc_match_pl_overreads_witness : wc_match_pl [STAR; 98] [97] [] = Crash UndefinedBehaviour.
Proof.
  apply (wc_match_pl_overreads 98 [97]); try done;
    rewrite !not_elem_of_cons; (split; [done|apply not_elem_of_nil]).
Defined.
