(* ===== verification/Utf8.v ===== *)
(** * UTF-8 (putty utils/decode_utf8.c, decode_utf8_to_wchar.c,
    decode_utf8_to_wide_string.c, encode_utf8.c, encode_wide_string_as_utf8.c)

    The decoder reads one character from a [BinarySource], the encoder writes
    one to a [BinarySink]; on top of them are the conversions between UTF-8
    strings and the 16-bit wide strings of Windows.  A C string is the memory it
    starts at, terminator included.  The array that
    [decode_utf8_to_wide_string] grows is a list that is appended to. *)

From S2P Require Import Prelude Bufchain Marshal Strbuf.
Local Open Scope cmodel_scope.
Local Open Scope Z_scope.

(** ** One character *)

Inductive DecodeUTF8Failure :=
| DUTF8_SUCCESS
| DUTF8_SPURIOUS_CONTINUATION
| DUTF8_ILLEGAL_BYTE
| DUTF8_E_OUT_OF_DATA
| DUTF8_TRUNCATED_SEQUENCE
| DUTF8_OVERLONG_ENCODING
| DUTF8_ENCODED_SURROGATE
| DUTF8_CODE_POINT_TOO_BIG.

#[export] Instance DecodeUTF8Failure_eq_dec : EqDecision DecodeUTF8Failure.
Proof. solve_decision. Defined.

(** [while (ncont-- > 0)]: the code point, or the failure that ends the loop.
    [unsigned long] has 32 bits. *)
Fixpoint decode_cont (ncont : nat) (wc : Z) (src : BinarySource)
  : res ((Z + DecodeUTF8Failure) * BinarySource) :=
  match ncont with
  | O => Ok (inl wc, src)
  | S ncont =>
      if get_avail src =? 0 then Ok (inr DUTF8_E_OUT_OF_DATA, src)
      else
        let! r := BinarySource_get_byte src in let '(cont, src) := r in
        if negb ((0x80 <=? cont) && (cont <? 0xC0)) then
          Ok (inr DUTF8_TRUNCATED_SEQUENCE, BinarySource_REWIND_TO src (wrap_size (src_pos src - 1)))
        else
          decode_cont ncont (Z.lor (Z.shiftl wc 6 mod 2 ^ 32) (Z.land cont 0x3F)) src
  end.

(** What the first byte says: the bits it contributes, the number of
    continuation bytes and the smallest code point of that length. *)
Definition decode_lead (c : Z) : option (Z * nat * Z) :=
  if c <? 0xE0 then Some (Z.land c 0x1F, 1%nat, 0x80)
  else if c <? 0xF0 then Some (Z.land c 0x0F, 2%nat, 0x800)
  else if c <? 0xF8 then Some (Z.land c 0x07, 3%nat, 0x10000)
  else if c <? 0xFC then Some (Z.land c 0x03, 4%nat, 0x200000)
  else if c <? 0xFE then Some (Z.land c 0x01, 5%nat, 0x4000000)
  else None.

(** The checks on the code point once all its bytes are there. *)
Definition decode_check (wc min : Z) : Z * DecodeUTF8Failure :=
  if wc <? min then (0xFFFD, DUTF8_OVERLONG_ENCODING)
  else if (0xD800 <=? wc) && (wc <? 0xE000) then (0xFFFD, DUTF8_ENCODED_SURROGATE)
  else if 0x10FFFF <? wc then (0xFFFD, DUTF8_CODE_POINT_TOO_BIG)
  else (wc, DUTF8_SUCCESS).

Definition decode_utf8 (src : BinarySource) : res (Z * DecodeUTF8Failure * BinarySource) :=
  let! r := BinarySource_get_byte src in let '(c, src) := r in
  if c <? 0x80 then Ok (c, DUTF8_SUCCESS, src)
  else if c <? 0xC0 then Ok (0xFFFD, DUTF8_SPURIOUS_CONTINUATION, src)
  else match decode_lead c with
  | None => Ok (0xFFFD, DUTF8_ILLEGAL_BYTE, src)
  | Some (wc, ncont, min) =>
      let! r := decode_cont ncont wc src in let '(r, src) := r in
      match r with
      | inr err => Ok (0xFFFD, err, src)
      | inl wc => Ok (decode_check wc min, src)
      end
  end.

Definition BinarySink_put_utf8_char {S} `{BinarySink S} (output : S) (ch : Z) : res S :=
  if ch <? 0x80 then BinarySink_put_byte output ch
  else if ch <? 0x800 then
    let! output := BinarySink_put_byte output (Z.lor 0xC0 (Z.shiftr ch 6)) in
    BinarySink_put_byte output (Z.lor 0x80 (Z.land ch 0x3F))
  else if ch <? 0x10000 then
    let! output := BinarySink_put_byte output (Z.lor 0xE0 (Z.shiftr ch 12)) in
    let! output := BinarySink_put_byte output (Z.lor 0x80 (Z.land (Z.shiftr ch 6) 0x3F)) in
    BinarySink_put_byte output (Z.lor 0x80 (Z.land ch 0x3F))
  else c_assert (ch <=? 0x10FFFF) (
    let! output := BinarySink_put_byte output (Z.lor 0xF0 (Z.shiftr ch 18)) in
    let! output := BinarySink_put_byte output (Z.lor 0x80 (Z.land (Z.shiftr ch 12) 0x3F)) in
    let! output := BinarySink_put_byte output (Z.lor 0x80 (Z.land (Z.shiftr ch 6) 0x3F)) in
    BinarySink_put_byte output (Z.lor 0x80 (Z.land ch 0x3F))).

(** ** Wide strings *)

(** [wchar_t] has 16 bits; the result is what was stored at [out]. *)
Definition decode_utf8_to_wchar (src : BinarySource)
  : res (list Z * DecodeUTF8Failure * BinarySource) :=
  let! r := decode_utf8 src in let '(wc, err, src) := r in
  if wc <? 0x10000 then Ok ([wc], err, src)
  else
    let wcoff := wc - 0x10000 in
    Ok ([Z.lor 0xD800 (Z.land 0x3FF (Z.shiftr wcoff 10)); Z.lor 0xDC00 (Z.land 0x3FF wcoff)],
        err, src).

Fixpoint decode_wide_loop (fuel : nat) (src : BinarySource) (ws : list Z) : res (list Z) :=
  if 0 <? get_avail src then
    match fuel with
    | O => Crash OutOfFuel
    | S fuel =>
        let! r := decode_utf8_to_wchar src in let '(out, _, src) := r in
        decode_wide_loop fuel src (ws ++ out)
    end
  else Ok ws.

Definition decode_utf8_to_wide_string (s : list Z) : res (list Z) :=
  let! n := strlen s in
  let! ws := decode_wide_loop n (BinarySource_INIT (take n s)) [] in
  Ok (ws ++ [0]).

Definition IS_HIGH_SURROGATE (wch : Z) : bool := (0xD800 <=? wch) && (wch <=? 0xDBFF).
Definition IS_LOW_SURROGATE (wch : Z) : bool := (0xDC00 <=? wch) && (wch <=? 0xDFFF).
Definition IS_SURROGATE (wch : Z) : bool := (0xD800 <=? wch) && (wch <=? 0xDFFF).

Definition FROM_SURROGATES (wch1 wch2 : Z) : Z :=
  0x10000 + Z.shiftl (Z.land wch1 0x3FF) 10 + Z.land wch2 0x3FF.

(** [while ( *ws )], over any sink. *)
Fixpoint encode_wide_loop {S} `{BinarySink S} (sb : S) (ws : list Z) : res S :=
  match ws with
  | [] => Crash UndefinedBehaviour
  | ch :: ws =>
      if ch =? 0 then Ok sb
      else match ws with
      | [] => Crash UndefinedBehaviour
      | next :: ws' =>
          if IS_HIGH_SURROGATE ch && IS_LOW_SURROGATE next then
            let! sb := BinarySink_put_utf8_char sb (FROM_SURROGATES ch next) in
            encode_wide_loop sb ws'
          else
            let ch := if IS_SURROGATE ch then 0xFFFD else ch in
            let! sb := BinarySink_put_utf8_char sb ch in
            encode_wide_loop sb ws
      end
  end.

(** [strbuf_to_str] hands over the buffer, terminator included. *)
Definition encode_wide_string_as_utf8 (ws : list Z) : res (list Z) :=
  let! sb := strbuf_new in
  let! sb := encode_wide_loop sb ws in
  let! bytes := strbuf_contents sb in
  Ok (bytes ++ [0]).

(** ** The reference: Unicode scalar values and their encodings *)

Definition scalar (ch : Z) : Prop := 0 <= ch < 0xD800 \/ 0xE000 <= ch <= 0x10FFFF.

#[export] Instance scalar_dec ch : Decision (scalar ch).
Proof. unfold scalar. apply _. Defined.

Definition utf8_char (ch : Z) : list Z :=
  if decide (ch < 0x80) then [ch]
  else if decide (ch < 0x800) then [0xC0 + ch / 64; 0x80 + ch mod 64]
  else if decide (ch < 0x10000) then
    [0xE0 + ch / 4096; 0x80 + ch / 64 mod 64; 0x80 + ch mod 64]
  else [0xF0 + ch / 262144; 0x80 + ch / 4096 mod 64; 0x80 + ch / 64 mod 64; 0x80 + ch mod 64].

Definition utf16_char (ch : Z) : list Z :=
  if decide (ch < 0x10000) then [ch]
  else [0xD800 + (ch - 0x10000) / 1024; 0xDC00 + (ch - 0x10000) mod 1024].

Definition utf8 (cs : list Z) : list Z := mjoin (utf8_char <$> cs).
Definition utf16 (cs : list Z) : list Z := mjoin (utf16_char <$> cs).

(** The first examples of the test at the end of decode_utf8.c. *)
Example decode_greek :
  decode_utf8_to_wide_string [0xCE; 0xBA; 0xE1; 0xBD; 0xB9; 0xCF; 0x83; 0xCE; 0xBC; 0xCE; 0xB5; 0]
  = Ok [0x03BA; 0x1F79; 0x03C3; 0x03BC; 0x03B5; 0].
Proof. reflexivity. Qed.

Example encode_beyond_bmp :
  encode_wide_string_as_utf8 [0x41; 0xDBFF; 0xDFFF; 0xD800; 0] =
    Ok [0x41; 0xF4; 0x8F; 0xBF; 0xBF; 0xEF; 0xBF; 0xBD; 0].
Proof. vm_compute. reflexivity. Qed.

(** ** Encoding *)

Lemma lor_marker k m x : 0 <= k -> 0 <= x < 2 ^ k -> Z.lor (m * 2 ^ k) x = m * 2 ^ k + x.
Proof.
  intros Hk Hx. rewrite Z.lor_comm, <-Z.shiftl_mul_pow2, lor_add by done.
  rewrite Z.shiftl_mul_pow2 by done. lia.
Qed.

Lemma land_63 x : Z.land x 0x3F = x mod 64.
Proof. change 0x3F with (Z.ones 6). by rewrite Z.land_ones. Qed.

Lemma cont_byte x : u8 (Z.lor 0x80 (Z.land x 0x3F)) = 0x80 + x mod 64.
Proof.
  rewrite land_63. pose proof (Z.mod_pos_bound x 64 ltac:(lia)).
  change 0x80 with (2 * 2 ^ 6). rewrite lor_marker by lia. apply u8_small. lia.
Qed.

Lemma lead_byte k m x :
  0 <= k -> 0 <= x < 2 ^ k -> 0 <= m -> m * 2 ^ k + 2 ^ k <= 256 ->
  u8 (Z.lor (m * 2 ^ k) x) = m * 2 ^ k + x.
Proof. intros. rewrite lor_marker by lia. apply u8_small. lia. Qed.

Lemma put_utf8_char_appends {S} `{LawfulSink S} ch :
  scalar ch -> appends (fun s : S => BinarySink_put_utf8_char s ch) (utf8_char ch).
Proof.
  intros Hch. unfold BinarySink_put_utf8_char, utf8_char, scalar in *.
  destruct (Z.ltb_spec ch 0x80), (Z.ltb_spec ch 0x800), (Z.ltb_spec ch 0x10000);
    repeat case_decide; try lia.
  - rewrite <-(u8_small ch) at 1 by lia. apply appends_byte.
  - rewrite Z.shiftr_div_pow2 by lia. change (2 ^ 6) with 64.
    pose proof (Z.div_lt_upper_bound ch 64 32). pose proof (Z.div_pos ch 64).
    change 0xC0 with (6 * 2 ^ 5). rewrite <-(lead_byte 5 6 (ch / 64)), <-cont_byte by lia.
    apply (appends_seq _ _ [_] [_]); apply appends_byte.
  - rewrite !Z.shiftr_div_pow2 by lia. change (2 ^ 6) with 64. change (2 ^ 12) with 4096.
    pose proof (Z.div_lt_upper_bound ch 4096 16). pose proof (Z.div_pos ch 4096).
    change 0xE0 with (14 * 2 ^ 4). rewrite <-(lead_byte 4 14 (ch / 4096)), <-!cont_byte by lia.
    apply (appends_seq _ _ [_] [_; _]); [apply appends_byte|].
    apply (appends_seq _ _ [_] [_]); apply appends_byte.
  - eapply appends_ext; [intros s; apply c_assert_true, Z.leb_le; lia|].
    rewrite !Z.shiftr_div_pow2 by lia. change (2 ^ 6) with 64. change (2 ^ 12) with 4096.
    change (2 ^ 18) with 262144.
    pose proof (Z.div_lt_upper_bound ch 262144 8). pose proof (Z.div_pos ch 262144).
    change 0xF0 with (30 * 2 ^ 3). rewrite <-(lead_byte 3 30 (ch / 262144)), <-!cont_byte by lia.
    apply (appends_seq _ _ [_] [_; _; _]); [apply appends_byte|].
    apply (appends_seq _ _ [_] [_; _]); [apply appends_byte|].
    apply (appends_seq _ _ [_] [_]); apply appends_byte.
Qed.

Lemma utf16_no_zero cs : Forall scalar cs -> 0 ∉ cs -> 0 ∉ utf16 cs.
Proof.
  induction 1 as [|c cs Hc _ IH]; [set_solver|]. intros Hz [Hin|Hin]%elem_of_app.
  - unfold utf16_char, scalar in *. case_decide; set_unfold; [naive_solver|].
    pose proof (Z.div_pos (c - 65536) 1024). pose proof (Z.mod_pos_bound (c - 65536) 1024).
    destruct Hin as [?|[?|?]]; [lia|lia|done].
  - apply IH; set_solver.
Qed.

(** ** Decoding *)

(** Linear arithmetic with division and remainder by constants. *)
Ltac dlia := Z.div_mod_to_equations; lia.

Definition is_cont (b : Z) : Prop := 0x80 <= b < 0xC0.

Definition cont_value (wc : Z) (conts : list Z) : Z :=
  fold_left (fun wc b => wc * 64 + b mod 64) conts wc.

Notation fits pre rest := (Z.of_nat (length (pre ++ rest)) < SIZE_T).

Lemma fits_shift (pre : list Z) b rest : fits pre (b :: rest) -> fits (pre ++ [b]) rest.
Proof. by rewrite <-app_assoc. Qed.

Lemma get_byte_at pre b rest :
  fits pre (b :: rest) ->
  BinarySource_get_byte (source_at pre (b :: rest)) = Ok (b, source_at (pre ++ [b]) rest).
Proof. intros Hl. by apply (get_fixed_at pre rest 1 0 (fun p => nth 0 p 0) [b]). Qed.

Lemma get_avail_at pre rest :
  fits pre rest -> get_avail (source_at pre rest) = Z.of_nat (length rest).
Proof.
  intros Hl. unfold get_avail, src_len, source_at. cbn [src_data src_pos].
  rewrite length_app in *. rewrite wrap_size_small; lia.
Qed.

Lemma rewind_at pre b rest :
  fits pre (b :: rest) ->
  BinarySource_REWIND_TO (source_at (pre ++ [b]) rest)
    (wrap_size (src_pos (source_at (pre ++ [b]) rest) - 1)) = source_at pre (b :: rest).
Proof.
  intros Hl. unfold BinarySource_REWIND_TO, src_len, source_at. cbn [src_data src_pos].
  rewrite <-app_assoc. cbn [app]. rewrite !length_app in *. cbn [length] in *.
  rewrite wrap_size_small by lia. rewrite (proj2 (Z.leb_le _ _)) by lia. f_equal. lia.
Qed.

Lemma decode_cont_cons n wc pre b rest :
  fits pre (b :: rest) -> 0 <= wc < 2 ^ 26 -> is_cont b ->
  decode_cont (S n) wc (source_at pre (b :: rest)) =
    decode_cont n (wc * 64 + b mod 64) (source_at (pre ++ [b]) rest).
Proof.
  intros Hl Hwc [Hb1 Hb2]. cbn [decode_cont]. rewrite get_avail_at, get_byte_at by done.
  rewrite (proj2 (Z.eqb_neq _ _)) by (cbn [length]; lia). cbn [res_bind].
  rewrite (proj2 (Z.leb_le _ _)), (proj2 (Z.ltb_lt _ _)) by lia. cbn [andb negb].
  f_equal. rewrite land_63, Z.shiftl_mul_pow2 by lia. change (2 ^ 6) with 64.
  rewrite Z.mod_small by lia. change 64 with (2 ^ 6). apply lor_marker; [lia|].
  apply Z.mod_pos_bound. lia.
Qed.

(** The loop takes continuation bytes as far as there are any. *)
Lemma decode_cont_at n : forall pre rest wc,
  fits pre rest -> 0 <= wc -> (wc + 1) * 64 ^ Z.of_nat n <= 2 ^ 32 ->
  exists conts rest', rest = conts ++ rest' /\ Forall is_cont conts /\
    (length conts = n /\
     decode_cont n wc (source_at pre rest) =
       Ok (inl (cont_value wc conts), source_at (pre ++ conts) rest') \/
     exists err, err <> DUTF8_SUCCESS /\
     decode_cont n wc (source_at pre rest) = Ok (inr err, source_at (pre ++ conts) rest')).
Proof.
  induction n as [|n IH]; intros pre rest wc Hl Hwc Hmax.
  { exists [], rest. split; [done|]. split; [done|]. left. by rewrite app_nil_r. }
  rewrite Nat2Z.inj_succ, Z.pow_succ_r in Hmax by lia.
  pose proof (Z.pow_pos_nonneg 64 (Z.of_nat n) ltac:(lia) ltac:(lia)).
  destruct rest as [|b rest].
  { exists [], []. split; [done|]. split; [done|]. right. exists DUTF8_E_OUT_OF_DATA.
    split; [done|]. cbn [decode_cont]. rewrite get_avail_at by done. by rewrite app_nil_r. }
  destruct (decide (0x80 <= b < 0xC0)) as [Hb|Hb].
  - rewrite decode_cont_cons by (done || nia).
    pose proof (Z.mod_pos_bound b 64 ltac:(lia)).
    destruct (IH (pre ++ [b]) rest (wc * 64 + b mod 64)) as (conts & rest' & -> & Hc & Hcase);
      [by apply fits_shift|lia|nia|].
    exists (b :: conts), rest'. split; [done|]. split; [by constructor|].
    rewrite <-app_assoc in Hcase. cbn [app length] in *.
    destruct Hcase as [[<- E]|Herr]; [by left|by right].
  - exists [], (b :: rest). split; [done|]. split; [done|]. right.
    exists DUTF8_TRUNCATED_SEQUENCE. split; [done|].
    cbn [decode_cont]. rewrite get_avail_at, get_byte_at by done.
    rewrite (proj2 (Z.eqb_neq _ _)) by (cbn [length]; lia). cbn [res_bind].
    replace ((128 <=? b) && (b <? 192)) with false by
      (destruct (Z.leb_spec 128 b), (Z.ltb_spec b 192); cbn; lia).
    cbn [negb]. rewrite rewind_at by done. by rewrite app_nil_r.
Qed.

(** The byte ranges of [decode_lead]. *)
Lemma decode_lead_cases c :
  0xC0 <= c < 256 ->
  (0xC0 <= c < 0xE0 /\ decode_lead c = Some (c - 0xC0, 1%nat, 0x80)) \/
  (0xE0 <= c < 0xF0 /\ decode_lead c = Some (c - 0xE0, 2%nat, 0x800)) \/
  (0xF0 <= c < 0xF8 /\ decode_lead c = Some (c - 0xF0, 3%nat, 0x10000)) \/
  (0xF8 <= c < 0xFC /\ decode_lead c = Some (c - 0xF8, 4%nat, 0x200000)) \/
  (0xFC <= c < 0xFE /\ decode_lead c = Some (c - 0xFC, 5%nat, 0x4000000)) \/
  (0xFE <= c /\ decode_lead c = None).
Proof.
  intros Hc. unfold decode_lead.
  change 0x01 with (Z.ones 1). change 0x03 with (Z.ones 2). change 0x07 with (Z.ones 3).
  change 0x0F with (Z.ones 4). change 0x1F with (Z.ones 5). rewrite !Z.land_ones by lia.
  change (2 ^ 5) with 32. change (2 ^ 4) with 16. change (2 ^ 3) with 8. change (2 ^ 2) with 4.
  change (2 ^ 1) with 2.
  destruct (Z.ltb_spec c 0xE0); [left; split; [lia|]; do 3 f_equal; dlia|right].
  destruct (Z.ltb_spec c 0xF0); [left; split; [lia|]; do 3 f_equal; dlia|right].
  destruct (Z.ltb_spec c 0xF8); [left; split; [lia|]; do 3 f_equal; dlia|right].
  destruct (Z.ltb_spec c 0xFC); [left; split; [lia|]; do 3 f_equal; dlia|right].
  destruct (Z.ltb_spec c 0xFE); [left; split; [lia|]; do 3 f_equal; dlia|right]. done.
Qed.

Lemma decode_check_cases wc min :
  0 <= min ->
  (decode_check wc min = (wc, DUTF8_SUCCESS) /\ min <= wc /\ scalar wc) \/
  (exists err, decode_check wc min = (0xFFFD, err) /\ err <> DUTF8_SUCCESS /\
     (wc < min \/ ~ scalar wc)).
Proof.
  intros Hmin. unfold decode_check, scalar.
  destruct (Z.ltb_spec wc min); [right; eexists; split_and!; [done..|lia]|].
  destruct (Z.leb_spec 0xD800 wc), (Z.ltb_spec wc 0xE000); cbn [andb];
    try (right; eexists; split_and!; [done..|lia]);
    destruct (Z.ltb_spec 0x10FFFF wc);
    try (right; eexists; split_and!; [done..|lia]).
  all: left; split_and!; [done|lia..].
Qed.

(** What the first byte and its continuation bytes say together. *)
Lemma decode_sequence pre c conts rest n base min :
  fits pre ((c :: conts) ++ rest) -> 0xC0 <= c < 256 -> Forall is_cont conts -> length conts = n ->
  decode_lead c = Some (base, n, min) ->
  0 <= base -> (base + 1) * 64 ^ Z.of_nat n <= 2 ^ 32 ->
  decode_utf8 (source_at pre ((c :: conts) ++ rest)) =
    Ok (decode_check (cont_value base conts) min, source_at (pre ++ c :: conts) rest).
Proof.
  intros Hl Hc Hconts Hn Hlead Hb Hmax. unfold decode_utf8. cbn [app] in *.
  rewrite get_byte_at by done. cbn [res_bind].
  rewrite !(proj2 (Z.ltb_ge _ _)), Hlead by lia.
  apply fits_shift in Hl. replace (pre ++ c :: conts) with ((pre ++ [c]) ++ conts) by (by list_norm).
  enough (decode_cont n base (source_at (pre ++ [c]) (conts ++ rest)) =
          Ok (inl (cont_value base conts), source_at ((pre ++ [c]) ++ conts) rest)) as -> by done.
  clear Hlead Hc. revert Hl. generalize (pre ++ [c]). revert base n Hb Hmax Hn.
  induction Hconts as [|b conts Hb _ IH]; intros base n Hbase Hmax <- p Hl.
  { cbn. by rewrite app_nil_r. }
  cbn [length] in *. rewrite Nat2Z.inj_succ, Z.pow_succ_r in Hmax by lia.
  pose proof (Z.pow_pos_nonneg 64 (Z.of_nat (length conts)) ltac:(lia) ltac:(lia)).
  pose proof (Z.mod_pos_bound b 64 ltac:(lia)).
  cbn [app]. rewrite decode_cont_cons by (done || nia).
  rewrite IH by (first [nia|by apply fits_shift]). by rewrite <-app_assoc.
Qed.

Ltac list_cases conts :=
  destruct conts as [|? [|? [|? [|? [|? [|? ?]]]]]]; cbn [length] in *; try lia.

(** A complete sequence whose value passes the checks is the encoding of it. *)
Lemma sequence_is_utf8 c conts base n min :
  0xC0 <= c < 256 -> decode_lead c = Some (base, n, min) ->
  Forall is_cont conts -> length conts = n ->
  min <= cont_value base conts -> scalar (cont_value base conts) ->
  c :: conts = utf8_char (cont_value base conts).
Proof.
  intros Hc Hlead Hconts Hn Hmin Hs. unfold is_cont in *.
  destruct (decode_lead_cases c Hc) as [[? E]|[[? E]|[[? E]|[[? E]|[[? E]|[? E]]]]]];
    rewrite E in Hlead; try discriminate; injection Hlead as <- <- <-;
    list_cases conts; repeat match goal with H : Forall _ (_ :: _) |- _ => inversion H; clear H; subst end;
    cbn [cont_value fold_left] in *; unfold scalar, utf8_char in *;
    repeat case_decide; try dlia; repeat (f_equal; try dlia).
Qed.

Lemma decode_check_ok wc min : min <= wc -> scalar wc -> decode_check wc min = (wc, DUTF8_SUCCESS).
Proof.
  intros Hmin Hs. unfold decode_check, scalar in *. rewrite (proj2 (Z.ltb_ge _ _)) by lia.
  replace ((0xD800 <=? wc) && (wc <? 0xE000)) with false by
    (destruct (Z.leb_spec 0xD800 wc), (Z.ltb_spec wc 0xE000); cbn; lia).
  by rewrite (proj2 (Z.ltb_ge _ _)) by lia.
Qed.

Lemma decode_ascii pre c rest :
  fits pre (c :: rest) -> c < 0x80 ->
  decode_utf8 (source_at pre (c :: rest)) = Ok (c, DUTF8_SUCCESS, source_at (pre ++ [c]) rest).
Proof.
  intros Hl Hc. unfold decode_utf8. rewrite get_byte_at by done. cbn [res_bind].
  by rewrite (proj2 (Z.ltb_lt _ _)).
Qed.

(** The first byte of a longer encoding and the bits it carries. *)
Lemma decode_lead_utf8 ch c conts :
  scalar ch -> 0x80 <= ch -> utf8_char ch = c :: conts ->
  0xC0 <= c < 256 /\ Forall is_cont conts /\
  exists base min, decode_lead c = Some (base, length conts, min) /\
    0 <= base /\ (base + 1) * 64 ^ Z.of_nat (length conts) <= 2 ^ 32 /\
    cont_value base conts = ch /\ min <= ch.
Proof.
  intros Hs Hch. unfold utf8_char, scalar in *.
  repeat case_decide; try lia; intros [= <- <-]; (split; [dlia|]);
    (split; [repeat constructor; dlia|]).
  - destruct (decode_lead_cases (0xC0 + ch / 64)) as [[? E]|[[? E]|[[? E]|[[? E]|[[? E]|[? E]]]]]];
      [dlia| |dlia..]. do 2 eexists. split; [exact E|]. cbn; split_and!; dlia.
  - destruct (decode_lead_cases (0xE0 + ch / 4096)) as [[? E]|[[? E]|[[? E]|[[? E]|[[? E]|[? E]]]]]];
      [dlia|dlia| |dlia..]. do 2 eexists. split; [exact E|]. cbn; split_and!; dlia.
  - destruct (decode_lead_cases (0xF0 + ch / 262144)) as [[? E]|[[? E]|[[? E]|[[? E]|[[? E]|[? E]]]]]];
      [dlia|dlia|dlia| |dlia..]. do 2 eexists. split; [exact E|]. cbn; split_and!; dlia.
Qed.

Lemma decode_utf8_char_at pre ch rest :
  fits pre (utf8_char ch ++ rest) -> scalar ch ->
  decode_utf8 (source_at pre (utf8_char ch ++ rest)) =
    Ok (ch, DUTF8_SUCCESS, source_at (pre ++ utf8_char ch) rest).
Proof.
  intros Hl Hs. destruct (Z.lt_ge_cases ch 0x80) as [Hlo|Hhi].
  - unfold utf8_char in *. rewrite decide_True in * by done. by apply decode_ascii.
  - destruct (utf8_char ch) as [|c conts] eqn:E; [unfold utf8_char in E; by repeat case_decide|].
    destruct (decode_lead_utf8 ch c conts Hs Hhi E) as (Hc & Hco & base & min & El & Hb & Hm & Hv & Hmin).
    rewrite (decode_sequence pre c conts rest (length conts) base min), Hv by done.
    by rewrite decode_check_ok.
Qed.

(** The behaviour of [decode_utf8] on every input that is not empty. *)
Lemma decode_utf8_at pre rest :
  fits pre rest -> bytesOK rest -> rest <> [] ->
  exists used rest' wc err, rest = used ++ rest' /\ used <> [] /\
    decode_utf8 (source_at pre rest) = Ok (wc, err, source_at (pre ++ used) rest') /\
    (err = DUTF8_SUCCESS /\ scalar wc /\ used = utf8_char wc \/
     err <> DUTF8_SUCCESS /\ wc = 0xFFFD).
Proof.
  intros Hl Hb Hne. destruct rest as [|c rest]; [done|]. inversion_clear Hb as [|?? Hc _].
  unfold is_byte in Hc. destruct (Z.lt_ge_cases c 0x80) as [Hlo|Hhi].
  { exists [c], rest, c, DUTF8_SUCCESS. rewrite decode_ascii by done. split_and!; [done..|].
    left. split; [done|]. unfold scalar, utf8_char. rewrite decide_True by done. split; [lia|done]. }
  destruct (Z.lt_ge_cases c 0xC0) as [Hlo|Hlead].
  { exists [c], rest, 0xFFFD, DUTF8_SPURIOUS_CONTINUATION. unfold decode_utf8.
    rewrite get_byte_at by done. cbn [res_bind].
    rewrite (proj2 (Z.ltb_ge c 0x80)), (proj2 (Z.ltb_lt c 0xC0)) by lia. split_and!; [done..|].
    by right. }
  destruct (decode_lead c) as [[[base n] min]|] eqn:El; cycle 1.
  { exists [c], rest, 0xFFFD, DUTF8_ILLEGAL_BYTE. unfold decode_utf8.
    rewrite get_byte_at by done. cbn [res_bind].
    rewrite !(proj2 (Z.ltb_ge c _)), El by lia. split_and!; [done..|]. by right. }
  assert (0 <= base /\ (base + 1) * 64 ^ Z.of_nat n <= 2 ^ 32 /\ 0 <= min) as (Hb & Hmax & Hmin).
  { destruct (decode_lead_cases c) as [[? E]|[[? E]|[[? E]|[[? E]|[[? E]|[? E]]]]]]; [lia|..];
      rewrite E in El; try discriminate; injection El as <- <- <-; cbn; lia. }
  destruct (decode_cont_at n (pre ++ [c]) rest base) as (conts & rest' & -> & Hco & Hcase);
    [by apply fits_shift|done|done|].
  exists (c :: conts), rest'.
  destruct Hcase as [[Hn _]|(err & Herr & E)].
  - exists (decode_check (cont_value base conts) min).1, (decode_check (cont_value base conts) min).2.
    split; [done|]. split; [done|]. split.
    { change (c :: conts ++ rest') with ((c :: conts) ++ rest').
      rewrite (decode_sequence pre c conts rest' n base min) by (done || lia).
      by destruct (decode_check _ _). }
    destruct (decode_check_cases (cont_value base conts) min Hmin)
      as [(-> & Hge & Hs)|(err & -> & Herr & _)]; cbn [fst snd]; [left|by right].
    split_and!; [done..|]. apply (sequence_is_utf8 c conts base n min); (done || lia).
  - exists 0xFFFD, err. split; [done|]. split; [done|]. split; [|by right].
    unfold decode_utf8. rewrite get_byte_at by done. cbn [res_bind].
    rewrite !(proj2 (Z.ltb_ge c _)), El, E by lia. cbn [res_bind]. by list_norm.
Qed.

(** ** Wide strings *)

Lemma utf8_cons c cs : utf8 (c :: cs) = utf8_char c ++ utf8 cs.
Proof. done. Qed.

Lemma utf16_cons c cs : utf16 (c :: cs) = utf16_char c ++ utf16 cs.
Proof. done. Qed.

Lemma utf8_char_not_nil c : utf8_char c <> [].
Proof. unfold utf8_char. by repeat case_decide. Qed.

Lemma utf8_char_bytes c : scalar c -> bytesOK (utf8_char c).
Proof.
  unfold scalar, utf8_char, bytesOK, is_byte. intros ?.
  repeat case_decide; repeat constructor; dlia.
Qed.

Lemma utf8_char_zero c : scalar c -> 0 ∈ utf8_char c -> c = 0.
Proof.
  unfold scalar, utf8_char. intros ?.
  repeat case_decide; intros Hin; repeat (apply elem_of_cons in Hin as [Hin|Hin]);
    try (by apply not_elem_of_nil in Hin); dlia.
Qed.

Lemma utf8_no_zero cs : Forall scalar cs -> 0 ∉ cs -> 0 ∉ utf8 cs.
Proof.
  induction 1 as [|c cs Hc _ IH]; [set_solver|]. rewrite utf8_cons. intros H0 [Hin|Hin]%elem_of_app.
  - apply utf8_char_zero in Hin; [|done]. set_solver.
  - apply IH; set_solver.
Qed.

Lemma low_10 x : Z.land 0x3FF x = x mod 1024.
Proof. change 0x3FF with (Z.ones 10). rewrite Z.land_comm. by rewrite Z.land_ones. Qed.

(** The units of one decoded character. *)
Lemma decode_to_wchar_units src wc err src' :
  decode_utf8 src = Ok (wc, err, src') -> scalar wc ->
  decode_utf8_to_wchar src = Ok (utf16_char wc, err, src').
Proof.
  intros E Hs. unfold decode_utf8_to_wchar, utf16_char, scalar in *. rewrite E. cbn [res_bind].
  case_decide; [by rewrite (proj2 (Z.ltb_lt _ _))|]. rewrite (proj2 (Z.ltb_ge _ _)) by lia.
  rewrite !low_10, Z.shiftr_div_pow2 by lia. change (2 ^ 10) with 1024.
  rewrite (Z.mod_small ((wc - 65536) / 1024)) by dlia.
  change 0xD800 with (54 * 2 ^ 10). change 0xDC00 with (55 * 2 ^ 10).
  rewrite !lor_marker by (lia || (change (2 ^ 10) with 1024; dlia)). done.
Qed.

(** The decoder's loop ends and gives well-formed UTF-16. *)
Lemma decode_wide_loop_ok fuel : forall pre rest ws,
  fits pre rest -> bytesOK rest -> (length rest <= fuel)%nat ->
  exists cs, Forall scalar cs /\ (0 ∉ rest -> 0 ∉ cs) /\
    decode_wide_loop fuel (source_at pre rest) ws = Ok (ws ++ utf16 cs).
Proof.
  induction fuel as [|fuel IH]; intros pre rest ws Hl Hb Hf; cbn [decode_wide_loop];
    rewrite get_avail_at by done.
  { destruct rest; [|cbn in Hf; lia]. exists []. cbn. rewrite app_nil_r. split_and!; [done|set_solver|done]. }
  destruct (Z.ltb_spec 0 (Z.of_nat (length rest))) as [Hne|Hnil]; cycle 1.
  { destruct rest; [|cbn in Hnil; lia]. exists []. rewrite app_nil_r.
    split_and!; [done|set_solver|done]. }
  destruct (decode_utf8_at pre rest) as (used & rest' & wc & err & -> & Hu & E & Hcase);
    [done|done|by intros ->|].
  assert (scalar wc) as Hs.
  { destruct Hcase as [(_ & Hs & _)|[_ ->]]; [done|]. unfold scalar. lia. }
  rewrite (decode_to_wchar_units _ _ _ _ E Hs). cbn [res_bind].
  apply bytesOK_app in Hb as [_ Hb]. rewrite length_app in Hf.
  assert (length used <> 0%nat) by (by destruct used).
  destruct (IH (pre ++ used) rest' (ws ++ utf16_char wc)) as (cs & Hcs & Hz & ->);
    [by rewrite <-app_assoc|done|lia|].
  exists (wc :: cs). split; [by constructor|]. split; [|by rewrite utf16_cons, app_assoc].
  rewrite not_elem_of_app, not_elem_of_cons. intros [Hz1 Hz2]. split; [|by apply Hz].
  intros <-. destruct Hcase as [(_ & _ & ->)|[_ ?]]; [set_solver|done].
Qed.

Lemma decode_wide_loop_utf8 cs : forall fuel pre ws,
  Forall scalar cs -> fits pre (utf8 cs) -> (length (utf8 cs) <= fuel)%nat ->
  decode_wide_loop fuel (source_at pre (utf8 cs)) ws = Ok (ws ++ utf16 cs).
Proof.
  induction cs as [|c cs IH]; intros fuel pre ws Hs Hl Hf.
  { destruct fuel; cbn [decode_wide_loop]; rewrite get_avail_at by done; by rewrite app_nil_r. }
  inversion_clear Hs as [|?? Hc Hcs]. rewrite utf8_cons, length_app in *.
  pose proof (utf8_char_not_nil c) as Hne. assert (length (utf8_char c) <> 0%nat) by (by destruct (utf8_char c)).
  destruct fuel as [|fuel]; [lia|]. cbn [decode_wide_loop]. rewrite get_avail_at by (by rewrite length_app).
  rewrite (proj2 (Z.ltb_lt _ _)) by (rewrite length_app; lia).
  rewrite (decode_to_wchar_units _ _ _ _ (decode_utf8_char_at pre c (utf8 cs) ltac:(by rewrite length_app) Hc) Hc).
  cbn [res_bind]. rewrite IH; [by rewrite utf16_cons, app_assoc|done| |lia].
  rewrite !length_app in *. lia.
Qed.

Lemma strlen_take s : 0 ∉ s -> strlen (s ++ [0]) = Ok (length s) /\ take (length s) (s ++ [0]) = s.
Proof. intros H0. split; [by apply strlen_app|by apply take_app_length]. Qed.

Lemma decode_wide_ok s :
  0 ∉ s -> bytesOK s -> Z.of_nat (length s) < SIZE_T ->
  exists cs, Forall scalar cs /\ 0 ∉ cs /\
    decode_utf8_to_wide_string (s ++ [0]) = Ok (utf16 cs ++ [0]).
Proof.
  intros H0 Hb Hl. unfold decode_utf8_to_wide_string. destruct (strlen_take s H0) as [-> Ht].
  cbn [res_bind]. rewrite Ht.
  destruct (decode_wide_loop_ok (length s) [] s []) as (cs & Hcs & Hz & E); [done..|].
  change (source_at [] s) with (BinarySource_INIT s) in E. rewrite E. eauto.
Qed.

Lemma decode_wide_utf8 cs :
  Forall scalar cs -> 0 ∉ cs -> Z.of_nat (length (utf8 cs)) < SIZE_T ->
  decode_utf8_to_wide_string (utf8 cs ++ [0]) = Ok (utf16 cs ++ [0]).
Proof.
  intros Hcs H0 Hl. unfold decode_utf8_to_wide_string.
  destruct (strlen_take (utf8 cs) (utf8_no_zero _ Hcs H0)) as [-> Ht]. cbn [res_bind]. rewrite Ht.
  pose proof (decode_wide_loop_utf8 cs (length (utf8 cs)) [] [] Hcs Hl ltac:(lia)) as E.
  change (source_at [] (utf8 cs)) with (BinarySource_INIT (utf8 cs)) in E. by rewrite E.
Qed.

Section encoding.
  Context {S : Type} `{LawfulSink S}.

(** The three ways a round of the encoder's loop goes. *)
Lemma encode_wide_single ch ws enc :
  0 < ch < 0x10000 -> IS_SURROGATE ch = false -> ws <> [] ->
  appends (fun s : S => encode_wide_loop s ws) enc ->
  appends (fun s : S => encode_wide_loop s (ch :: ws)) (utf8_char ch ++ enc).
Proof.
  intros Hch Hs Hws Henc. destruct ws as [|next ws]; [done|].
  apply appends_ext with (fun s => let! s := BinarySink_put_utf8_char s ch in
                                   encode_wide_loop s (next :: ws)).
  - intros s. cbn [encode_wide_loop]. rewrite (proj2 (Z.eqb_neq _ _)), Hs by lia.
    replace (IS_HIGH_SURROGATE ch) with false; [done|].
    unfold IS_SURROGATE, IS_HIGH_SURROGATE in *. lia.
  - apply appends_seq; [|done]. apply put_utf8_char_appends.
    unfold IS_SURROGATE, scalar in *. lia.
Qed.

Lemma encode_wide_lone ch ws enc next ws' :
  0 < ch -> IS_SURROGATE ch = true -> ws = next :: ws' ->
  IS_HIGH_SURROGATE ch && IS_LOW_SURROGATE next = false ->
  appends (fun s : S => encode_wide_loop s ws) enc ->
  appends (fun s : S => encode_wide_loop s (ch :: ws)) (utf8_char 0xFFFD ++ enc).
Proof.
  intros Hch Hs -> Hpair Henc.
  apply appends_ext with (fun s => let! s := BinarySink_put_utf8_char s 0xFFFD in
                                   encode_wide_loop s (next :: ws')).
  - intros s. cbn [encode_wide_loop]. by rewrite (proj2 (Z.eqb_neq _ _)), Hpair, Hs by lia.
  - apply appends_seq; [|done]. apply put_utf8_char_appends. unfold scalar. lia.
Qed.

Lemma from_surrogates hi lo :
  IS_HIGH_SURROGATE hi = true -> IS_LOW_SURROGATE lo = true ->
  FROM_SURROGATES hi lo = 0x10000 + (hi - 0xD800) * 1024 + (lo - 0xDC00).
Proof.
  unfold IS_HIGH_SURROGATE, IS_LOW_SURROGATE, FROM_SURROGATES. intros Hh Hl.
  rewrite !(Z.land_comm _ 0x3FF), !low_10, Z.shiftl_mul_pow2 by lia.
  change (2 ^ 10) with 1024. dlia.
Qed.

Lemma encode_wide_pair hi lo ws enc :
  IS_HIGH_SURROGATE hi = true -> IS_LOW_SURROGATE lo = true ->
  appends (fun s : S => encode_wide_loop s ws) enc ->
  appends (fun s : S => encode_wide_loop s (hi :: lo :: ws)) (utf8_char (FROM_SURROGATES hi lo) ++ enc).
Proof.
  intros Hh Hl Henc.
  apply appends_ext with (fun s => let! s := BinarySink_put_utf8_char s (FROM_SURROGATES hi lo) in
                                   encode_wide_loop s ws).
  - intros s. cbn [encode_wide_loop]. rewrite Hh, Hl.
    by rewrite (proj2 (Z.eqb_neq _ _)) by (unfold IS_HIGH_SURROGATE in *; lia).
  - apply appends_seq; [|done]. apply put_utf8_char_appends.
    rewrite from_surrogates by done. unfold scalar, IS_HIGH_SURROGATE, IS_LOW_SURROGATE in *. lia.
Qed.

Lemma encode_wide_utf16 cs :
  Forall scalar cs -> 0 ∉ cs ->
  appends (fun s : S => encode_wide_loop s (utf16 cs ++ [0])) (utf8 cs).
Proof.
  induction 1 as [|c cs Hc _ IH]; intros Hz; [apply appends_nil|].
  rewrite utf8_cons, utf16_cons, <-app_assoc. specialize (IH ltac:(set_solver)).
  assert (c <> 0) by set_solver. unfold utf16_char, scalar in *. case_decide; cbn [app].
  - apply encode_wide_single; [lia|unfold IS_SURROGATE; lia|by destruct (utf16 cs)|done].
  - set (hi := 55296 + _). set (lo := 56320 + _).
    assert (IS_HIGH_SURROGATE hi = true) by (unfold IS_HIGH_SURROGATE, hi; dlia).
    assert (IS_LOW_SURROGATE lo = true) by (unfold IS_LOW_SURROGATE, lo; dlia).
    replace c with (FROM_SURROGATES hi lo) at 1; [by apply encode_wide_pair|].
    rewrite from_surrogates by done. unfold hi, lo. dlia.
Qed.

(** Any wide string is encoded, as the UTF-8 of some scalar values. *)
Lemma encode_wide_any n : forall ws,
  (length ws <= n)%nat -> Forall (fun w => 0 < w < 0x10000) ws ->
  exists cs, Forall scalar cs /\ 0 ∉ cs /\ (length (utf8 cs) <= 3 * length ws)%nat /\
    appends (fun s : S => encode_wide_loop s (ws ++ [0])) (utf8 cs).
Proof.
  induction n as [|n IH]; intros ws Hn Hws.
  { destruct ws; [|cbn in Hn; lia]. exists []. split_and!; [done|set_solver|done|apply appends_nil]. }
  destruct Hws as [|w ws Hw Hws].
  { exists []. split_and!; [done|set_solver|done|apply appends_nil]. }
  cbn [length] in Hn. destruct (IS_SURROGATE w) eqn:Hs.
  - destruct (IS_HIGH_SURROGATE w && IS_LOW_SURROGATE (hd 0 ws)) eqn:Hp.
    + apply andb_true_iff in Hp as [Hh Hl]. destruct ws as [|lo ws]; [done|]. cbn [hd] in Hl.
      inversion_clear Hws as [|?? _ Hws']. cbn [length] in *.
      destruct (IH ws) as (cs & Hcs & Hz & Hlen & Henc); [lia|done|].
      exists (FROM_SURROGATES w lo :: cs). pose proof (from_surrogates w lo Hh Hl) as E.
      assert (0x10000 <= FROM_SURROGATES w lo <= 0x10FFFF)
        by (unfold IS_HIGH_SURROGATE, IS_LOW_SURROGATE in *; lia).
      split_and!; [constructor; [unfold scalar; lia|done]| |
        |rewrite utf8_cons; by apply encode_wide_pair].
      * apply not_elem_of_cons. split; [lia|done].
      * rewrite utf8_cons, length_app. unfold utf8_char. repeat case_decide; cbn [length]; lia.
    + destruct (IH ws) as (cs & Hcs & Hz & Hlen & Henc); [lia|done|].
      exists (0xFFFD :: cs). rewrite utf8_cons. split_and!; [constructor; [unfold scalar; lia|done]|
        by apply not_elem_of_cons|rewrite length_app; change (length (utf8_char 0xFFFD)) with 3%nat; cbn [length]; lia|].
      destruct ws as [|next ws]; cbn [app]; (eapply encode_wide_lone; [lia|done|done|done|done]).
  - destruct (IH ws) as (cs & Hcs & Hz & Hlen & Henc); [lia|done|].
    exists (w :: cs). split_and!; [constructor; [unfold IS_SURROGATE, scalar in *; lia|done]|
      apply not_elem_of_cons; split; [lia|done]| |].
    + rewrite utf8_cons, length_app. unfold utf8_char. repeat case_decide; cbn [length]; lia.
    + rewrite utf8_cons. apply encode_wide_single; [done|done|by destruct ws|done].
Qed.
End encoding.
