(* ===== verification/Utf8Spec.v ===== *)
(** * What the UTF-8 conversions guarantee

    The decoder accepts exactly the shortest encodings of the Unicode scalar
    values and always makes progress; the two string conversions are inverse to
    each other on well-formed strings and total on all others. *)

From S2P Require Import Prelude Bufchain Marshal Strbuf Utf8.
Local Open Scope Z_scope.

(** C20. On every source that is not empty, [decode_utf8] takes at least one byte.
    It succeeds exactly when the bytes in front of it begin with the UTF-8
    encoding of a scalar value (so never on an overlong form, a surrogate or a
    value past U+10FFFF), takes exactly that encoding and returns the value; in
    all other cases it returns U+FFFD. *)
Theorem utf8_decoder_exact pre rest :
  Z.of_nat (length (pre ++ rest)) < SIZE_T -> bytesOK rest -> rest <> [] ->
  exists used rest' wc err, rest = used ++ rest' /\ used <> [] /\
    decode_utf8 (source_at pre rest) = Ok (wc, err, source_at (pre ++ used) rest') /\
    (err = DUTF8_SUCCESS <-> exists c r, scalar c /\ rest = utf8_char c ++ r) /\
    (err = DUTF8_SUCCESS -> scalar wc /\ used = utf8_char wc) /\
    (err <> DUTF8_SUCCESS -> wc = 0xFFFD).
Proof.
  intros Hl Hb Hne.
  destruct (decode_utf8_at pre rest Hl Hb Hne) as (used & rest' & wc & err & E & Hu & Hd & Hcase).
  exists used, rest', wc, err. split_and!; [done..| | |].
  - split.
    + intros ->. destruct Hcase as [(_ & Hs & ->)|[? _]]; [|done]. eauto.
    + intros (c & r & Hc & Er). rewrite Er in Hd, Hl. rewrite decode_utf8_char_at in Hd by done.
      congruence.
  - intros ->. by destruct Hcase as [(_ & Hs & ->)|[? _]].
  - intros Herr. by destruct Hcase as [(? & _)|[_ ->]].
Qed.

Lemma utf8_decoder_exact_witness :
  exists used rest' wc err, [0xC0; 0x80; 0x41] = used ++ rest' /\ used <> [] /\
    decode_utf8 (source_at [] [0xC0; 0x80; 0x41]) = Ok (wc, err, source_at ([] ++ used) rest') /\
    (err = DUTF8_SUCCESS <-> exists c r, scalar c /\ [0xC0; 0x80; 0x41] = utf8_char c ++ r) /\
    (err = DUTF8_SUCCESS -> scalar wc /\ used = utf8_char wc) /\
    (err <> DUTF8_SUCCESS -> wc = 0xFFFD).
Proof.
  apply (utf8_decoder_exact [] [0xC0; 0x80; 0x41]); [reflexivity| |discriminate].
  repeat constructor; discriminate.
Defined.

Lemma encode_wide_string_appends ws enc :
  appends (fun s : strbuf => encode_wide_loop s ws) enc ->
  Z.of_nat (length enc) <= strbuf_limit ->
  encode_wide_string_as_utf8 ws = Ok (enc ++ [0]).
Proof.
  intros Henc Hl. unfold encode_wide_string_as_utf8, strbuf_new.
  destruct (strbuf_new_holds false) as (sb & -> & Hsb). cbn [res_bind].
  destruct (Henc sb [] Hsb Hl) as (sb' & -> & Hsb'). cbn [res_bind].
  by rewrite (strbuf_contents_holds sb' enc Hsb').
Qed.

(** C21. For every sequence of scalar values without U+0000, up to a gigabyte of
    UTF-8, [encode_wide_string_as_utf8] turns its UTF-16 form into its UTF-8
    form and [decode_utf8_to_wide_string] turns the UTF-8 form back into the
    UTF-16 form, surrogate pairs included. *)
Theorem utf8_utf16_inverse cs :
  Forall scalar cs -> 0 ∉ cs -> Z.of_nat (length (utf8 cs)) <= strbuf_limit ->
  encode_wide_string_as_utf8 (utf16 cs ++ [0]) = Ok (utf8 cs ++ [0]) /\
  decode_utf8_to_wide_string (utf8 cs ++ [0]) = Ok (utf16 cs ++ [0]).
Proof.
  intros Hcs H0 Hl. split.
  - apply encode_wide_string_appends; [|done]. by apply encode_wide_utf16.
  - apply decode_wide_utf8; [done..|]. unfold strbuf_limit, SIZE_T in *. lia.
Qed.

Definition sample_scalars : list Z := [0x41; 0x3B1; 0x20AC; 0x1F600; 0xFFFD].

Lemma utf8_utf16_inverse_witness :
  encode_wide_string_as_utf8 (utf16 sample_scalars ++ [0]) = Ok (utf8 sample_scalars ++ [0]) /\
  decode_utf8_to_wide_string (utf8 sample_scalars ++ [0]) = Ok (utf16 sample_scalars ++ [0]).
Proof.
  apply (utf8_utf16_inverse sample_scalars).
  - apply (bool_decide_unpack _). vm_compute. exact I.
  - apply (bool_decide_unpack _). vm_compute. exact I.
  - vm_compute. discriminate.
Defined.

(** Both conversions return on every string.  The bytes of a C string, whatever
    they are, become the UTF-16 of some scalar values; the units of a wide
    string, lone surrogates included, become the UTF-8 of some scalar values.
    So what one conversion has produced, the other one takes back exactly. *)
Theorem utf8_conversions_total :
  (forall s, 0 ∉ s -> bytesOK s -> Z.of_nat (length s) < SIZE_T ->
     exists cs, Forall scalar cs /\ 0 ∉ cs /\
       decode_utf8_to_wide_string (s ++ [0]) = Ok (utf16 cs ++ [0])) /\
  (forall ws, Forall (fun w => 0 < w < 0x10000) ws -> 3 * Z.of_nat (length ws) <= strbuf_limit ->
     exists cs, Forall scalar cs /\ 0 ∉ cs /\
       encode_wide_string_as_utf8 (ws ++ [0]) = Ok (utf8 cs ++ [0]) /\
       decode_utf8_to_wide_string (utf8 cs ++ [0]) = Ok (utf16 cs ++ [0])).
Proof.
  split; [intros s; apply decode_wide_ok|]. intros ws Hws Hl.
  destruct (encode_wide_any (length ws) ws (le_n _) Hws) as (cs & Hcs & H0 & Hlen & Henc).
  exists cs. split_and!; [done|done| |].
  - apply encode_wide_string_appends; [done|lia].
  - apply decode_wide_utf8; [done..|]. unfold strbuf_limit, SIZE_T in *. lia.
Qed.
