(* ===== verification/ConfData.v ===== *)
(** * The table of configuration options (putty conf.h, conf.winscp.h, putty.h)

    The options of a [Conf] are listed twice in the source.  conf.h gives the
    enumeration [config_primary_key] of putty.h its order; conf.winscp.h, a
    rewriting of the same list for compilers without designated initialisers,
    gives the table [conf_key_info] of conf_data.c its order.  Each file is a
    table here, with the name, the subkey type and the value type of every
    option.  Default values and the flags for saving are not modelled. *)

From stdpp Require Import strings.
From S2P Require Import Prelude.
Local Open Scope Z_scope.

Inductive conf_type :=
| CONF_TYPE_NONE
| CONF_TYPE_BOOL
| CONF_TYPE_INT
| CONF_TYPE_STR
| CONF_TYPE_UTF8
| CONF_TYPE_STR_AMBI
| CONF_TYPE_FILENAME
| CONF_TYPE_FONT.

#[export] Instance conf_type_eq_dec : EqDecision conf_type.
Proof. solve_decision. Defined.

Record ConfKeyInfo := KeyInfo {
  subkey_type : conf_type;
  value_type : conf_type
}.

#[local] Notation NONE := CONF_TYPE_NONE.
#[local] Notation BOOL := CONF_TYPE_BOOL.
#[local] Notation INT := CONF_TYPE_INT.
#[local] Notation STR := CONF_TYPE_STR.
#[local] Notation STR_AMBI := CONF_TYPE_STR_AMBI.
#[local] Notation FILENAME := CONF_TYPE_FILENAME.
#[local] Notation FONT := CONF_TYPE_FONT.
#[local] Open Scope string_scope.

(** The [CONF_OPTION] entries of conf.h; [SUBKEY_TYPE] is [NONE] where it is left out. *)
Definition conf_h : list (string * conf_type * conf_type) :=
  [("host", NONE, STR); ("port", NONE, INT); ("protocol", NONE, INT);
   ("addressfamily", NONE, INT); ("close_on_exit", NONE, INT); ("warn_on_close", NONE, BOOL);
   ("ping_interval", NONE, INT); ("tcp_nodelay", NONE, BOOL); ("tcp_keepalives", NONE, BOOL);
   ("loghost", NONE, STR); ("pre_connect_command", NONE, STR);
   ("proxy_exclude_list", NONE, STR); ("proxy_dns", NONE, INT);
   ("even_proxy_localhost", NONE, BOOL); ("proxy_type", NONE, INT); ("proxy_host", NONE, STR);
   ("proxy_port", NONE, INT); ("proxy_username", NONE, STR); ("proxy_password", NONE, STR);
   ("proxy_telnet_command", NONE, STR); ("proxy_log_to_term", NONE, INT);
   ("remote_cmd", NONE, STR_AMBI); ("remote_cmd2", NONE, STR_AMBI); ("nopty", NONE, BOOL);
   ("compression", NONE, BOOL); ("ssh_kexlist", INT, INT); ("ssh_hklist", INT, INT);
   ("ssh_prefer_known_hostkeys", NONE, BOOL); ("ssh_rekey_time", NONE, INT);
   ("ssh_rekey_data", NONE, STR); ("tryagent", NONE, BOOL); ("agentfwd", NONE, BOOL);
   ("change_username", NONE, BOOL); ("ssh_cipherlist", INT, INT); ("keyfile", NONE, FILENAME);
   ("detached_cert", NONE, FILENAME); ("auth_plugin", NONE, STR); ("sshprot", NONE, INT);
   ("ssh_simple", NONE, BOOL); ("ssh_connection_sharing", NONE, BOOL);
   ("ssh_connection_sharing_upstream", NONE, BOOL);
   ("ssh_connection_sharing_downstream", NONE, BOOL); ("ssh_manual_hostkeys", STR, STR);
   ("ssh2_des_cbc", NONE, BOOL); ("ssh_no_userauth", NONE, BOOL);
   ("ssh_no_trivial_userauth", NONE, BOOL); ("ssh_show_banner", NONE, BOOL);
   ("try_tis_auth", NONE, BOOL); ("try_ki_auth", NONE, BOOL); ("try_gssapi_auth", NONE, BOOL);
   ("try_gssapi_kex", NONE, BOOL); ("gssapifwd", NONE, BOOL); ("gssapirekey", NONE, INT);
   ("ssh_gsslist", INT, INT); ("ssh_gss_custom", NONE, FILENAME); ("ssh_subsys", NONE, BOOL);
   ("ssh_subsys2", NONE, BOOL); ("ssh_no_shell", NONE, BOOL); ("ssh_nc_host", NONE, STR);
   ("ssh_nc_port", NONE, INT); ("termtype", NONE, STR); ("termspeed", NONE, STR);
   ("ttymodes", STR, STR); ("environmt", STR, STR); ("username", NONE, STR_AMBI);
   ("username_from_env", NONE, BOOL); ("localusername", NONE, STR);
   ("rfc_environ", NONE, BOOL); ("passive_telnet", NONE, BOOL); ("serline", NONE, STR);
   ("serspeed", NONE, INT); ("serdatabits", NONE, INT); ("serstopbits", NONE, INT);
   ("serparity", NONE, INT); ("serflow", NONE, INT); ("supdup_location", NONE, STR);
   ("supdup_ascii_set", NONE, INT); ("supdup_more", NONE, BOOL);
   ("supdup_scroll", NONE, BOOL); ("bksp_is_delete", NONE, BOOL);
   ("rxvt_homeend", NONE, BOOL); ("funky_type", NONE, INT); ("sharrow_type", NONE, INT);
   ("no_applic_c", NONE, BOOL); ("no_applic_k", NONE, BOOL); ("no_mouse_rep", NONE, BOOL);
   ("no_remote_resize", NONE, BOOL); ("no_alt_screen", NONE, BOOL);
   ("no_remote_wintitle", NONE, BOOL); ("no_remote_clearscroll", NONE, BOOL);
   ("no_dbackspace", NONE, BOOL); ("no_remote_charset", NONE, BOOL);
   ("remote_qtitle_action", NONE, INT); ("app_cursor", NONE, BOOL);
   ("app_keypad", NONE, BOOL); ("nethack_keypad", NONE, BOOL);
   ("telnet_keyboard", NONE, BOOL); ("telnet_newline", NONE, BOOL); ("alt_f4", NONE, BOOL);
   ("alt_space", NONE, BOOL); ("alt_only", NONE, BOOL); ("localecho", NONE, INT);
   ("localedit", NONE, INT); ("alwaysontop", NONE, BOOL);
   ("fullscreenonaltenter", NONE, BOOL); ("scroll_on_key", NONE, BOOL);
   ("scroll_on_disp", NONE, BOOL); ("erase_to_scrollback", NONE, BOOL);
   ("compose_key", NONE, BOOL); ("ctrlaltkeys", NONE, BOOL); ("osx_option_meta", NONE, BOOL);
   ("osx_command_meta", NONE, BOOL); ("wintitle", NONE, STR); ("savelines", NONE, INT);
   ("dec_om", NONE, BOOL); ("wrap_mode", NONE, BOOL); ("lfhascr", NONE, BOOL);
   ("cursor_type", NONE, INT); ("blink_cur", NONE, BOOL); ("beep", NONE, INT);
   ("beep_ind", NONE, INT); ("bellovl", NONE, BOOL); ("bellovl_n", NONE, INT);
   ("bellovl_t", NONE, INT); ("bellovl_s", NONE, INT); ("bell_wavefile", NONE, FILENAME);
   ("scrollbar", NONE, BOOL); ("scrollbar_in_fullscreen", NONE, BOOL);
   ("resize_action", NONE, INT); ("bce", NONE, BOOL); ("blinktext", NONE, BOOL);
   ("win_name_always", NONE, BOOL); ("width", NONE, INT); ("height", NONE, INT);
   ("font", NONE, FONT); ("font_quality", NONE, INT); ("logfilename", NONE, FILENAME);
   ("logtype", NONE, INT); ("logxfovr", NONE, INT); ("logflush", NONE, BOOL);
   ("logheader", NONE, BOOL); ("logomitpass", NONE, BOOL); ("logomitdata", NONE, BOOL);
   ("hide_mouseptr", NONE, BOOL); ("sunken_edge", NONE, BOOL); ("window_border", NONE, INT);
   ("answerback", NONE, STR); ("printer", NONE, STR); ("no_arabicshaping", NONE, BOOL);
   ("no_bidi", NONE, BOOL); ("no_bracketed_paste", NONE, BOOL); ("ansi_colour", NONE, BOOL);
   ("xterm_256_colour", NONE, BOOL); ("true_colour", NONE, BOOL);
   ("system_colour", NONE, BOOL); ("try_palette", NONE, BOOL); ("bold_style", NONE, INT);
   ("colours", INT, INT); ("mouse_is_xterm", NONE, INT); ("rect_select", NONE, BOOL);
   ("paste_controls", NONE, BOOL); ("rawcnp", NONE, BOOL); ("utf8linedraw", NONE, BOOL);
   ("rtf_paste", NONE, BOOL); ("mouse_override", NONE, BOOL); ("wordness", INT, INT);
   ("mouseautocopy", NONE, BOOL); ("mousepaste", NONE, INT); ("ctrlshiftins", NONE, INT);
   ("ctrlshiftcv", NONE, INT); ("mousepaste_custom", NONE, STR);
   ("ctrlshiftins_custom", NONE, STR); ("ctrlshiftcv_custom", NONE, STR);
   ("vtmode", NONE, INT); ("line_codepage", NONE, STR); ("cjk_ambig_wide", NONE, BOOL);
   ("utf8_override", NONE, BOOL); ("xlat_capslockcyr", NONE, BOOL);
   ("x11_forward", NONE, BOOL); ("x11_display", NONE, STR); ("x11_auth", NONE, INT);
   ("xauthfile", NONE, FILENAME); ("lport_acceptall", NONE, BOOL);
   ("rport_acceptall", NONE, BOOL); ("portfwd", STR, STR); ("sshbug_ignore1", NONE, INT);
   ("sshbug_plainpw1", NONE, INT); ("sshbug_rsa1", NONE, INT); ("sshbug_ignore2", NONE, INT);
   ("sshbug_derivekey2", NONE, INT); ("sshbug_rsapad2", NONE, INT);
   ("sshbug_pksessid2", NONE, INT); ("sshbug_rekey2", NONE, INT);
   ("sshbug_maxpkt2", NONE, INT); ("sshbug_oldgex2", NONE, INT); ("sshbug_winadj", NONE, INT);
   ("sshbug_chanreq", NONE, INT); ("sshbug_dropstart", NONE, INT);
   ("sshbug_filter_kexinit", NONE, INT); ("sshbug_rsa_sha2_cert_userauth", NONE, INT);
   ("sshbug_hmac2", NONE, INT); ("stamp_utmp", NONE, BOOL); ("login_shell", NONE, BOOL);
   ("scrollbar_on_left", NONE, BOOL); ("shadowbold", NONE, BOOL); ("boldfont", NONE, FONT);
   ("widefont", NONE, FONT); ("wideboldfont", NONE, FONT); ("shadowboldoffset", NONE, INT);
   ("crhaslf", NONE, BOOL); ("winclass", NONE, STR); ("connect_timeout", NONE, INT);
   ("sndbuf", NONE, INT); ("srcaddr", NONE, STR); ("force_remote_cmd2", NONE, BOOL);
   ("change_password", NONE, BOOL)].

(** The [CONF_OPTION] entries of conf.winscp.h. *)
Definition conf_winscp_h : list (string * conf_type * conf_type) :=
  [("host", NONE, STR); ("port", NONE, INT); ("protocol", NONE, INT);
   ("addressfamily", NONE, INT); ("close_on_exit", NONE, INT); ("warn_on_close", NONE, BOOL);
   ("ping_interval", NONE, INT); ("tcp_nodelay", NONE, BOOL); ("tcp_keepalives", NONE, BOOL);
   ("loghost", NONE, STR); ("pre_connect_command", NONE, STR);
   ("proxy_exclude_list", NONE, STR); ("proxy_dns", NONE, INT);
   ("even_proxy_localhost", NONE, BOOL); ("proxy_type", NONE, INT); ("proxy_host", NONE, STR);
   ("proxy_port", NONE, INT); ("proxy_username", NONE, STR); ("proxy_password", NONE, STR);
   ("proxy_telnet_command", NONE, STR); ("proxy_log_to_term", NONE, INT);
   ("remote_cmd", NONE, STR_AMBI); ("remote_cmd2", NONE, STR_AMBI); ("nopty", NONE, BOOL);
   ("compression", NONE, BOOL); ("ssh_kexlist", INT, INT); ("ssh_hklist", INT, INT);
   ("ssh_prefer_known_hostkeys", NONE, BOOL); ("ssh_rekey_time", NONE, INT);
   ("ssh_rekey_data", NONE, STR); ("tryagent", NONE, BOOL); ("agentfwd", NONE, BOOL);
   ("change_username", NONE, BOOL); ("ssh_cipherlist", INT, INT); ("keyfile", NONE, FILENAME);
   ("detached_cert", NONE, FILENAME); ("auth_plugin", NONE, STR); ("sshprot", NONE, INT);
   ("ssh_simple", NONE, BOOL); ("ssh_connection_sharing", NONE, BOOL);
   ("ssh_connection_sharing_upstream", NONE, BOOL);
   ("ssh_connection_sharing_downstream", NONE, BOOL); ("ssh_manual_hostkeys", STR, STR);
   ("ssh2_des_cbc", NONE, BOOL); ("ssh_no_userauth", NONE, BOOL);
   ("ssh_no_trivial_userauth", NONE, BOOL); ("ssh_show_banner", NONE, BOOL);
   ("try_tis_auth", NONE, BOOL); ("try_ki_auth", NONE, BOOL); ("try_gssapi_auth", NONE, BOOL);
   ("try_gssapi_kex", NONE, BOOL); ("gssapifwd", NONE, BOOL); ("gssapirekey", NONE, INT);
   ("ssh_gsslist", INT, INT); ("ssh_gss_custom", NONE, FILENAME); ("ssh_subsys", NONE, BOOL);
   ("ssh_subsys2", NONE, BOOL); ("ssh_no_shell", NONE, BOOL); ("ssh_nc_host", NONE, STR);
   ("ssh_nc_port", NONE, INT); ("termtype", NONE, STR); ("termspeed", NONE, STR);
   ("ttymodes", STR, STR); ("environmt", STR, STR); ("username", NONE, STR_AMBI);
   ("username_from_env", NONE, BOOL); ("localusername", NONE, STR);
   ("rfc_environ", NONE, BOOL); ("passive_telnet", NONE, BOOL); ("serline", NONE, STR);
   ("serspeed", NONE, INT); ("serdatabits", NONE, INT); ("serstopbits", NONE, INT);
   ("serparity", NONE, INT); ("serflow", NONE, INT); ("supdup_location", NONE, STR);
   ("supdup_ascii_set", NONE, INT); ("supdup_more", NONE, BOOL);
   ("supdup_scroll", NONE, BOOL); ("bksp_is_delete", NONE, BOOL);
   ("rxvt_homeend", NONE, BOOL); ("funky_type", NONE, INT); ("sharrow_type", NONE, INT);
   ("no_applic_c", NONE, BOOL); ("no_applic_k", NONE, BOOL); ("no_mouse_rep", NONE, BOOL);
   ("no_remote_resize", NONE, BOOL); ("no_alt_screen", NONE, BOOL);
   ("no_remote_wintitle", NONE, BOOL); ("no_remote_clearscroll", NONE, BOOL);
   ("no_dbackspace", NONE, BOOL); ("no_remote_charset", NONE, BOOL);
   ("remote_qtitle_action", NONE, INT); ("app_cursor", NONE, BOOL);
   ("app_keypad", NONE, BOOL); ("nethack_keypad", NONE, BOOL);
   ("telnet_keyboard", NONE, BOOL); ("telnet_newline", NONE, BOOL); ("alt_f4", NONE, BOOL);
   ("alt_space", NONE, BOOL); ("alt_only", NONE, BOOL); ("localecho", NONE, INT);
   ("localedit", NONE, INT); ("alwaysontop", NONE, BOOL);
   ("fullscreenonaltenter", NONE, BOOL); ("scroll_on_key", NONE, BOOL);
   ("scroll_on_disp", NONE, BOOL); ("erase_to_scrollback", NONE, BOOL);
   ("compose_key", NONE, BOOL); ("ctrlaltkeys", NONE, BOOL); ("osx_option_meta", NONE, BOOL);
   ("osx_command_meta", NONE, BOOL); ("wintitle", NONE, STR); ("savelines", NONE, INT);
   ("dec_om", NONE, BOOL); ("wrap_mode", NONE, BOOL); ("lfhascr", NONE, BOOL);
   ("cursor_type", NONE, INT); ("blink_cur", NONE, BOOL); ("beep", NONE, INT);
   ("beep_ind", NONE, INT); ("bellovl", NONE, BOOL); ("bellovl_n", NONE, INT);
   ("bellovl_t", NONE, INT); ("bellovl_s", NONE, INT); ("bell_wavefile", NONE, FILENAME);
   ("scrollbar", NONE, BOOL); ("scrollbar_in_fullscreen", NONE, BOOL);
   ("resize_action", NONE, INT); ("bce", NONE, BOOL); ("blinktext", NONE, BOOL);
   ("win_name_always", NONE, BOOL); ("width", NONE, INT); ("height", NONE, INT);
   ("font", NONE, FONT); ("font_quality", NONE, INT); ("logfilename", NONE, FILENAME);
   ("logtype", NONE, INT); ("logxfovr", NONE, INT); ("logflush", NONE, BOOL);
   ("logheader", NONE, BOOL); ("logomitpass", NONE, BOOL); ("logomitdata", NONE, BOOL);
   ("hide_mouseptr", NONE, BOOL); ("sunken_edge", NONE, BOOL); ("window_border", NONE, INT);
   ("answerback", NONE, STR); ("printer", NONE, STR); ("no_arabicshaping", NONE, BOOL);
   ("no_bidi", NONE, BOOL); ("no_bracketed_paste", NONE, BOOL); ("ansi_colour", NONE, BOOL);
   ("xterm_256_colour", NONE, BOOL); ("true_colour", NONE, BOOL);
   ("system_colour", NONE, BOOL); ("try_palette", NONE, BOOL); ("bold_style", NONE, INT);
   ("colours", INT, INT); ("mouse_is_xterm", NONE, INT); ("rect_select", NONE, BOOL);
   ("paste_controls", NONE, BOOL); ("rawcnp", NONE, BOOL); ("utf8linedraw", NONE, BOOL);
   ("rtf_paste", NONE, BOOL); ("mouse_override", NONE, BOOL); ("wordness", INT, INT);
   ("mouseautocopy", NONE, BOOL); ("mousepaste", NONE, INT); ("ctrlshiftins", NONE, INT);
   ("ctrlshiftcv", NONE, INT); ("mousepaste_custom", NONE, STR);
   ("ctrlshiftins_custom", NONE, STR); ("ctrlshiftcv_custom", NONE, STR);
   ("vtmode", NONE, INT); ("line_codepage", NONE, STR); ("cjk_ambig_wide", NONE, BOOL);
   ("utf8_override", NONE, BOOL); ("xlat_capslockcyr", NONE, BOOL);
   ("x11_forward", NONE, BOOL); ("x11_display", NONE, STR); ("x11_auth", NONE, INT);
   ("xauthfile", NONE, FILENAME); ("lport_acceptall", NONE, BOOL);
   ("rport_acceptall", NONE, BOOL); ("portfwd", STR, STR); ("sshbug_ignore1", NONE, INT);
   ("sshbug_plainpw1", NONE, INT); ("sshbug_rsa1", NONE, INT); ("sshbug_ignore2", NONE, INT);
   ("sshbug_derivekey2", NONE, INT); ("sshbug_rsapad2", NONE, INT);
   ("sshbug_pksessid2", NONE, INT); ("sshbug_rekey2", NONE, INT);
   ("sshbug_maxpkt2", NONE, INT); ("sshbug_oldgex2", NONE, INT); ("sshbug_winadj", NONE, INT);
   ("sshbug_chanreq", NONE, INT); ("sshbug_dropstart", NONE, INT);
   ("sshbug_filter_kexinit", NONE, INT); ("sshbug_rsa_sha2_cert_userauth", NONE, INT);
   ("sshbug_hmac2", NONE, INT); ("stamp_utmp", NONE, BOOL); ("login_shell", NONE, BOOL);
   ("scrollbar_on_left", NONE, BOOL); ("shadowbold", NONE, BOOL); ("boldfont", NONE, FONT);
   ("widefont", NONE, FONT); ("wideboldfont", NONE, FONT); ("shadowboldoffset", NONE, INT);
   ("crhaslf", NONE, BOOL); ("winclass", NONE, STR); ("connect_timeout", NONE, INT);
   ("sndbuf", NONE, INT); ("srcaddr", NONE, STR); ("force_remote_cmd2", NONE, BOOL);
   ("change_password", NONE, BOOL)].

(** [enum config_primary_key]: the number of an option is its place in conf.h. *)
Definition config_primary_key (name : string) : Z :=
  match list_find (fun r => r.1.1 = name) conf_h with
  | Some (i, _) => Z.of_nat i
  | None => -1
  end.

Definition N_CONFIG_OPTIONS : Z := Z.of_nat (length conf_h).

Definition conf_key_info : list ConfKeyInfo :=
  (fun r => KeyInfo r.1.2 r.2) <$> conf_winscp_h.

(** ** Storage values of enumerations (conf_data.c) *)

Record ConfSaveEnumValue := EnumValue { confval : Z; storageval : Z; obsolete : bool }.

(** The result is what is stored through the pointer; [None] is [false]. *)
Fixpoint conf_enum_map_to_storage (etype : list ConfSaveEnumValue) (v : Z) : option Z :=
  match etype with
  | [] => None
  | e :: etype =>
      if negb (obsolete e) && (confval e =? v)%Z then Some (storageval e)
      else conf_enum_map_to_storage etype v
  end.

Fixpoint conf_enum_map_from_storage (etype : list ConfSaveEnumValue) (v : Z) : option Z :=
  match etype with
  | [] => None
  | e :: etype =>
      if (storageval e =? v)%Z then Some (confval e) else conf_enum_map_from_storage etype v
  end.

(** Where the storage values are distinct, what is saved is loaded again. *)
Lemma conf_enum_roundtrip etype v s :
  NoDup (storageval <$> etype) ->
  conf_enum_map_to_storage etype v = Some s -> conf_enum_map_from_storage etype s = Some v.
Proof.
  induction etype as [|e etype IH]; cbn; [done|]. intros [Hin Hn]%NoDup_cons.
  destruct (negb (obsolete e) && (confval e =? v)%Z) eqn:E.
  - intros [= <-]. rewrite Z.eqb_refl. apply andb_true_iff in E as [_ E]. f_equal. lia.
  - intros Hs. destruct (Z.eqb_spec (storageval e) s) as [E2|Hne]; [|by apply IH].
    exfalso. apply Hin. rewrite E2. clear -Hs. revert Hs.
    induction etype as [|x etype IH]; cbn; [done|].
    destruct (negb (obsolete x) && (confval x =? v)%Z); [intros [= ->]; by left|].
    intros Hs. right. by apply IH.
Qed.

(** ** The two lists agree *)

(** The two lists agree, so an option's number selects its own row. *)
Lemma conf_lists_agree : conf_winscp_h = conf_h.
Proof. reflexivity. Qed.

Lemma conf_names_distinct : NoDup ((fun r => r.1.1) <$> conf_h).
Proof. apply (bool_decide_unpack _). vm_compute. exact I. Qed.

Lemma conf_key_info_length : Z.of_nat (length conf_key_info) = N_CONFIG_OPTIONS.
Proof. reflexivity. Qed.

(** The types that occur as subkeys: the ones all of conf.c can handle. *)
Lemma subkey_types_supported :
  Forall (fun i => subkey_type i ∈ [CONF_TYPE_NONE; CONF_TYPE_INT; CONF_TYPE_STR]) conf_key_info.
Proof. apply (bool_decide_unpack _). vm_compute. exact I. Qed.

Lemma value_types_supported : Forall (fun i => value_type i <> CONF_TYPE_NONE) conf_key_info.
Proof. apply (bool_decide_unpack _). vm_compute. exact I. Qed.
