(* ===== verification/Filename.v ===== *)
(** * File names and fonts (putty windows/utils/filename.c, fontspec.c,
    windows/platform.h)

    The two compound values of a configuration.  A C string the program owns
    is the list of its characters, up to the terminator; [c_str] is the memory
    it starts at.  The conversions through the code page of the system are the
    Windows API's, so they are a parameter, the class [CodePage].  Opening a
    file ([f_open]) is not modelled. *)

From S2P Require Import Prelude Bufchain Marshal Strbuf Utf8.
Local Open Scope cmodel_scope.
Local Open Scope Z_scope.

Definition c_str (s : list Z) : list Z := s ++ [0].

(** [dupstr], [dupwcs]: the characters up to the terminator. *)
Definition dupstr (s : list Z) : res (list Z) :=
  let! n := strlen s in Ok (take n s).

(** [dup_mb_to_wc] and [dup_wc_to_mb] for [DEFAULT_CODEPAGE]. *)
Class CodePage := {
  dup_mb_to_wc : list Z -> list Z;
  dup_wc_to_mb : list Z -> list Z
}.

(** ** File names *)

Record Filename := MkFilename {
  wpath : list Z;
  cpath : list Z;
  utf8path : list Z
}.

#[export] Instance Filename_eq_dec : EqDecision Filename.
Proof. solve_decision. Defined.

Section filenames.
  Context `{CodePage}.

Definition filename_from_str (str : list Z) : res Filename :=
  let cpath := str in
  let wpath := dup_mb_to_wc cpath in
  let! utf8 := encode_wide_string_as_utf8 (c_str wpath) in
  let! utf8path := dupstr utf8 in
  Ok (MkFilename wpath cpath utf8path).

Definition filename_from_wstr (str : list Z) : res Filename :=
  let wpath := str in
  let cpath := dup_wc_to_mb wpath in
  let! utf8 := encode_wide_string_as_utf8 (c_str wpath) in
  let! utf8path := dupstr utf8 in
  Ok (MkFilename wpath cpath utf8path).

Definition filename_from_utf8 (ustr : list Z) : res Filename :=
  let utf8path := ustr in
  let! wide := decode_utf8_to_wide_string (c_str utf8path) in
  let! wpath := dupstr wide in
  let cpath := dup_wc_to_mb wpath in
  Ok (MkFilename wpath cpath utf8path).

Definition filename_copy (fn : Filename) : Filename :=
  MkFilename (wpath fn) (cpath fn) (utf8path fn).

Definition MAX_PATH : Z := 260.

(** [isxdigit] is undefined on a negative [char], a byte from 128 up. *)
Definition isxdigit (c : Z) : res bool :=
  if 128 <=? c then Crash UndefinedBehaviour
  else Ok ((48 <=? c) && (c <=? 57) || (65 <=? c) && (c <=? 70) || (97 <=? c) && (c <=? 102)).

(** [for (i = 0; (result != NULL) && (i < len); i++)] *)
Fixpoint all_xdigits (s : list Z) : res bool :=
  match s with
  | [] => Ok true
  | c :: s => let! x := isxdigit c in if x then all_xdigits s else Ok false
  end.

Definition in_memory_key_data (fn : Filename) : res (option (list Z)) :=
  match cpath fn with
  | [] => Ok None
  | c :: result =>
      if negb (c =? 64) then Ok None
      else
        let len := Z.of_nat (length result) in
        if negb (len mod 2 =? 0) || (len / 2 <? MAX_PATH) then Ok None
        else
          let! x := all_xdigits result in
          Ok (if x then Some result else None)
  end.

(** The text in-memory *)
Definition in_memory_text : list Z := [105; 110; 45; 109; 101; 109; 111; 114; 121].

Definition filename_to_str (fn : Filename) : res (list Z) :=
  let! k := in_memory_key_data fn in
  Ok (match k with Some _ => in_memory_text | None => utf8path fn end).

Definition filename_to_wstr (fn : Filename) : list Z := wpath fn.

(** [!wcscmp(f1->wpath, f2->wpath)] *)
Definition filename_equal (f1 f2 : Filename) : bool := bool_decide (wpath f1 = wpath f2).

Definition filename_is_null (fn : Filename) : bool := bool_decide (wpath fn = []).

Definition filename_serialise {S} `{BinarySink S} (bs : S) (f : Filename) : res S :=
  BinarySink_put_asciz bs (c_str (utf8path f)).

Definition filename_deserialise (src : BinarySource) : res (Filename * BinarySource) :=
  let! r := BinarySource_get_asciz src in
  let! fn := filename_from_utf8 r.1 in
  Ok (fn, r.2).

End filenames.

(** The terminator of the set counts as a member for [strchr]. *)
Definition filename_char_sanitise (c : Z) : Z :=
  if in_charset [60; 62; 58; 34; 47; 92; 124; 63; 42] c then 46 else c.

(** ** Fonts *)

Record FontSpec := MkFontSpec {
  font_name : list Z;
  isbold : bool;
  font_height : Z;
  font_charset : Z
}.

#[export] Instance FontSpec_eq_dec : EqDecision FontSpec.
Proof. solve_decision. Defined.

Definition fontspec_new (name : list Z) (bold : bool) (height charset : Z) : FontSpec :=
  MkFontSpec name bold height charset.

Definition fontspec_new_default : FontSpec := fontspec_new [] false 0 0.

Definition fontspec_copy (f : FontSpec) : FontSpec :=
  fontspec_new (font_name f) (isbold f) (font_height f) (font_charset f).

Definition INT_MIN : Z := - 2 ^ 31.

(** [misc.h]: from [unsigned] to [int] *)
Definition toint (u : Z) : Z :=
  if u <=? INT_MAX then u
  else if INT_MIN mod 2 ^ 32 <=? u then INT_MIN + (u - INT_MIN mod 2 ^ 32)
  else INT_MIN.

Definition fontspec_serialise {S} `{BinarySink S} (bs : S) (f : FontSpec) : res S :=
  let! bs := BinarySink_put_asciz bs (c_str (font_name f)) in
  let! bs := BinarySink_put_uint32 bs (if isbold f then 1 else 0) in
  let! bs := BinarySink_put_uint32 bs (font_height f) in
  BinarySink_put_uint32 bs (font_charset f).

(** The unsigned values become [bool] and [int] parameters; the latter
    conversion wraps, as [toint] does. *)
Definition fontspec_deserialise (src : BinarySource) : res (FontSpec * BinarySource) :=
  let! name := BinarySource_get_asciz src in
  let! bold := BinarySource_get_uint32 name.2 in
  let! height := BinarySource_get_uint32 bold.2 in
  let! charset := BinarySource_get_uint32 height.2 in
  Ok (fontspec_new name.1 (negb (bold.1 =? 0)) (toint height.1) (toint charset.1), charset.2).

(** ** Strings, integers and conversions *)

Definition string_ok (s : list Z) : Prop := 0 ∉ s /\ bytesOK s.

Definition int_ok (i : Z) : Prop := INT_MIN <= i <= INT_MAX.

Lemma dupstr_c_str s : 0 ∉ s -> dupstr (c_str s) = Ok s.
Proof. intros H0. unfold dupstr, c_str. destruct (strlen_take s H0) as [-> Ht]. cbn [res_bind]. by rewrite Ht. Qed.

Lemma toint_ok u : 0 <= u < 2 ^ 32 -> int_ok (toint u).
Proof.
  intros Hu. unfold toint, int_ok, INT_MIN, INT_MAX. change (- 2 ^ 31 mod 2 ^ 32) with (2 ^ 31).
  destruct (Z.leb_spec u (2 ^ 31 - 1)), (Z.leb_spec (2 ^ 31) u); lia.
Qed.

Lemma toint_mod i : int_ok i -> toint (i mod 2 ^ 32) = i.
Proof.
  unfold toint, int_ok, INT_MIN, INT_MAX. change (- 2 ^ 31 mod 2 ^ 32) with (2 ^ 31). intros Hi.
  destruct (Z.neg_nonneg_cases i).
  - replace (i mod 2 ^ 32) with (i + 2 ^ 32) by (apply (Z.mod_unique _ _ (-1)); lia).
    rewrite (proj2 (Z.leb_gt _ _)), (proj2 (Z.leb_le _ _)) by lia. lia.
  - rewrite Z.mod_small by lia. by rewrite (proj2 (Z.leb_le _ _)) by lia.
Qed.

Lemma low_byte_mod v k : 0 <= k <= 24 -> u8 (Z.shiftr (v mod 2 ^ 32) k) = u8 (Z.shiftr v k).
Proof.
  intros Hk. unfold u8. change 256 with (2 ^ 8). apply Z.bits_inj'. intros i Hi.
  destruct (Z.lt_ge_cases i 8); [|by rewrite !Z.mod_pow2_bits_high by lia].
  rewrite !Z.mod_pow2_bits_low, !Z.shiftr_spec by lia. by rewrite Z.mod_pow2_bits_low by lia.
Qed.

(** Only the low 32 bits of an integer are written. *)
Lemma put_32_mod v : PUT_32BIT_MSB_FIRST (v mod 2 ^ 32) = PUT_32BIT_MSB_FIRST v.
Proof.
  unfold PUT_32BIT_MSB_FIRST. rewrite !low_byte_mod by lia. do 3 f_equal.
  pose proof (low_byte_mod v 0 ltac:(lia)) as E. rewrite !Z.shiftr_0_r in E. by rewrite E.
Qed.

Section filename_laws.
  Context `{CodePage}.

(** A file name from UTF-8 is always defined. *)
Lemma filename_from_utf8_ok s :
  string_ok s -> Z.of_nat (length s) < SIZE_T ->
  exists f, filename_from_utf8 s = Ok f /\ utf8path f = s.
Proof.
  intros [H0 Hb] Hl. unfold filename_from_utf8, c_str.
  destruct (decode_wide_ok s H0 Hb Hl) as (cs & Hcs & Hz & ->). cbn [res_bind].
  change (utf16 cs ++ [0]) with (c_str (utf16 cs)).
  rewrite dupstr_c_str by (by apply utf16_no_zero). cbn [res_bind]. eauto.
Qed.
End filename_laws.

(** ** Keys in memory *)

Definition is_hex (c : Z) : bool :=
  (48 <=? c) && (c <=? 57) || (65 <=? c) && (c <=? 70) || (97 <=? c) && (c <=? 102).

Lemma all_xdigits_ascii s :
  Forall (fun c => c < 128) s -> all_xdigits s = Ok (forallb is_hex s).
Proof.
  induction 1 as [|c s Hc _ IH]; [done|]. cbn [all_xdigits forallb]. unfold isxdigit.
  rewrite (proj2 (Z.leb_gt _ _)) by lia. cbn [res_bind]. fold (is_hex c). by destruct (is_hex c).
Qed.

(** For a path in ASCII, the data of a key in memory is what follows the at
    sign: an even number, at least 520, of hexadecimal digits. *)
Lemma in_memory_key_data_ascii fn s :
  Forall (fun c => c < 128) (cpath fn) ->
  in_memory_key_data fn = Ok (Some s) <->
  cpath fn = 64 :: s /\ Z.of_nat (length s) mod 2 = 0 /\ 520 <= Z.of_nat (length s) /\
  forallb is_hex s = true.
Proof.
  intros Ha. unfold in_memory_key_data, MAX_PATH. destruct (cpath fn) as [|c r]; [by split; [|intros [? _]]|].
  apply Forall_cons in Ha as [_ Ha]. rewrite all_xdigits_ascii by done.
  destruct (Z.eqb_spec c 64) as [->|Hc]; cbn [negb]; [|split; [done|]; intros [[= ? ?] _]; done].
  destruct (Z.eqb_spec (Z.of_nat (length r) mod 2) 0) as [Hm|Hm]; cbn [negb orb];
    [|split; [done|]; intros ([= ->] & ? & _); done].
  destruct (Z.ltb_spec (Z.of_nat (length r) / 2) 260).
  - split; [done|]. intros ([= ->] & _ & ? & _). Z.div_mod_to_equations. lia.
  - cbn [res_bind]. destruct (forallb is_hex r) eqn:E; split.
    + intros [= ->]. split_and!; [done|done| |done]. Z.div_mod_to_equations. lia.
    + by intros ([= ->] & _).
    + done.
    + intros ([= ->] & _ & _ & ?). congruence.
Qed.

(** A character outside ASCII makes the test of such a name undefined. *)
Example in_memory_key_data_negative_char :
  in_memory_key_data (MkFilename [] (64 :: 233 :: replicate 519 48) []) = Crash UndefinedBehaviour.
Proof. reflexivity. Qed.
