(* ===== verification/Conf.v ===== *)
(** * Configurations (putty utils/conf.c)

    A [Conf] is a sorted 2-3-4 tree of entries; an entry is a block of memory
    with a key and a value.  Which member of the unions in a key and a value is
    in use depends on the option's row of [conf_key_info]; here the unions are
    inductive types, and reading another member than the one stored is
    undefined.  Entries have an address, because [conf_insert] compares
    pointers; the set of live entry blocks is the [heap], so that a block freed
    twice is undefined too.  Blocks for strings inside an entry belong to it and
    are not modelled one by one.  Two [Conf]s are distinct objects. *)

From stdpp Require Import gmap.
From S2P Require Import Prelude Tree234 Tree234Add Tree234Del Tree234Find.
From S2P Require Import Bufchain Marshal Utf8 ConfData Filename.
Local Open Scope cmodel_scope.
Local Open Scope Z_scope.

(** ** Keys, values and entries *)

Inductive subkey :=
| Sub_unset
| Sub_int (i : Z)
| Sub_str (s : list Z).

Record key := Key { primary : Z; secondary : subkey }.

Inductive value :=
| Val_unset
| Val_bool (b : bool)
| Val_int (i : Z)
| Val_string (str : list Z) (utf8 : bool)
| Val_file (f : Filename)
| Val_font (f : FontSpec).

Record conf_entry := Entry { entry_addr : Z; entry_key : key; entry_value : value }.

#[export] Instance subkey_eq_dec : EqDecision subkey.
Proof. solve_decision. Defined.
#[export] Instance key_eq_dec : EqDecision key.
Proof. solve_decision. Defined.
#[export] Instance value_eq_dec : EqDecision value.
Proof. solve_decision. Defined.

Record Conf := MkConf { conf_tree : tree234 conf_entry }.

(** [conf_key_info[primary]] *)
Definition key_info (primary : Z) : res ConfKeyInfo :=
  if primary <? 0 then Crash UndefinedBehaviour
  else match conf_key_info !! Z.to_nat primary with
       | Some info => Ok info
       | None => Crash UndefinedBehaviour
       end.

(** [strcmp], of which C fixes the sign only; the characters are unsigned. *)
Fixpoint strcmp (a b : list Z) : Z :=
  match a, b with
  | [], [] => 0
  | [], _ :: _ => -1
  | _ :: _, [] => 1
  | x :: a, y :: b => if x <? y then -1 else if y <? x then 1 else strcmp a b
  end.

Definition int_cmp (i j : Z) : Z := if i <? j then -1 else if j <? i then 1 else 0.

(** The comparison of two keys of one option, by the type the table gives. *)
Definition subkey_cmp (a b : key) : res Z :=
  let! info := key_info (primary a) in
  match subkey_type info with
  | CONF_TYPE_INT =>
      match secondary a, secondary b with
      | Sub_int i, Sub_int j => Ok (int_cmp i j)
      | _, _ => Crash UndefinedBehaviour
      end
  | CONF_TYPE_STR | CONF_TYPE_UTF8 =>
      match secondary a, secondary b with
      | Sub_str s, Sub_str t => Ok (strcmp s t)
      | _, _ => Crash UndefinedBehaviour
      end
  | CONF_TYPE_NONE => Ok 0
  | _ => Crash AssertionFailed
  end.

Definition conf_cmp_keys (a b : key) : res Z :=
  if primary a <? primary b then Ok (-1)
  else if primary b <? primary a then Ok 1
  else subkey_cmp a b.

(** An order on subkeys of any kind, to have [conf_cmp] a total function. *)
Definition subkey_order (a b : subkey) : Z :=
  match a, b with
  | Sub_unset, Sub_unset => 0
  | Sub_unset, _ => -1
  | _, Sub_unset => 1
  | Sub_int i, Sub_int j => int_cmp i j
  | Sub_int _, Sub_str _ => -1
  | Sub_str _, Sub_int _ => 1
  | Sub_str s, Sub_str t => strcmp s t
  end.

(** The comparison function as the tree uses it: the result of
    [conf_cmp_keys] where that is defined, which on well-typed keys it is
    ([conf_cmp_defined]), and the order above elsewhere. *)
Definition conf_cmp (av bv : conf_entry) : Z :=
  match conf_cmp_keys (entry_key av) (entry_key bv) with
  | Ok z => z
  | Crash _ => subkey_order (secondary (entry_key av)) (secondary (entry_key bv))
  end.

(** A [constkey] is a key whose string the code does not own. *)
Definition conf_cmp_constkey : conf_entry -> conf_entry -> Z := conf_cmp.

(** ** Memory *)

Notation heap := (gset Z).

(** What an allocator does: a new block is none of the live ones. *)
Class Allocator := {
  new_block : heap -> Z;
  new_block_fresh h : new_block h ∉ h
}.

Definition snew_entry `{Allocator} (h : heap) : Z * heap :=
  let a := new_block h in (a, {[a]} ∪ h).

Definition sfree (h : heap) (a : Z) : res heap :=
  if decide (a ∈ h) then Ok (h ∖ {[a]}) else Crash UndefinedBehaviour.

Definition free_key (k : key) : res unit :=
  let! info := key_info (primary k) in
  match subkey_type info with
  | CONF_TYPE_STR | CONF_TYPE_UTF8 =>
      match secondary k with Sub_str _ => Ok tt | _ => Crash UndefinedBehaviour end
  | _ => Ok tt
  end.

Definition copy_key (from : key) : res key :=
  let! info := key_info (primary from) in
  match subkey_type info with
  | CONF_TYPE_INT =>
      match secondary from with
      | Sub_int i => Ok (Key (primary from) (Sub_int i))
      | _ => Crash UndefinedBehaviour
      end
  | CONF_TYPE_STR | CONF_TYPE_UTF8 =>
      match secondary from with
      | Sub_str s => Ok (Key (primary from) (Sub_str s))
      | _ => Crash UndefinedBehaviour
      end
  | _ => Ok (Key (primary from) Sub_unset)
  end.

Definition free_value (val : value) (type : conf_type) : res unit :=
  match type, val with
  | (CONF_TYPE_STR | CONF_TYPE_UTF8 | CONF_TYPE_STR_AMBI), Val_string _ _ => Ok tt
  | CONF_TYPE_FILENAME, Val_file _ => Ok tt
  | CONF_TYPE_FONT, Val_font _ => Ok tt
  | (CONF_TYPE_NONE | CONF_TYPE_BOOL | CONF_TYPE_INT), _ => Ok tt
  | _, _ => Crash UndefinedBehaviour
  end.

Definition copy_value (from : value) (type : conf_type) : res value :=
  match type, from with
  | CONF_TYPE_BOOL, Val_bool b => Ok (Val_bool b)
  | CONF_TYPE_INT, Val_int i => Ok (Val_int i)
  | (CONF_TYPE_STR | CONF_TYPE_UTF8 | CONF_TYPE_STR_AMBI), Val_string s u => Ok (Val_string s u)
  | CONF_TYPE_FILENAME, Val_file f => Ok (Val_file (filename_copy f))
  | CONF_TYPE_FONT, Val_font f => Ok (Val_font (fontspec_copy f))
  | CONF_TYPE_NONE, _ => Ok Val_unset
  | _, _ => Crash UndefinedBehaviour
  end.

Definition free_entry (h : heap) (entry : conf_entry) : res heap :=
  let! _ := free_key (entry_key entry) in
  let! info := key_info (primary (entry_key entry)) in
  let! _ := free_value (entry_value entry) (value_type info) in
  sfree h (entry_addr entry).

(** ** Whole configurations *)

Definition conf_new : Conf := MkConf (newtree234 (Some conf_cmp)).

(** [while ((entry = delpos234(conf->tree, 0)) != NULL)] *)
Fixpoint conf_clear_loop (fuel : nat) (t : tree234 conf_entry) (h : heap)
  : res (tree234 conf_entry * heap) :=
  match fuel with
  | O => Crash OutOfFuel
  | S fuel =>
      let! r := delpos234 t 0 in
      match r.1 with
      | None => Ok (r.2, h)
      | Some entry =>
          let! h := free_entry h entry in
          conf_clear_loop fuel r.2 h
      end
  end.

Definition conf_clear (conf : Conf) (h : heap) : res (Conf * heap) :=
  let t := conf_tree conf in
  let! r := conf_clear_loop (S (Z.to_nat (count234 t))) t h in
  Ok (MkConf r.1, r.2).

(** Only the entries are blocks of the heap. *)
Definition conf_free (conf : Conf) (h : heap) : res heap :=
  let! r := conf_clear conf h in Ok r.2.

Definition conf_insert (conf : Conf) (h : heap) (entry : conf_entry) : res (Conf * heap) :=
  let! r := add234 (conf_tree conf) entry in
  match r.1 with
  | Some oldentry =>
      if entry_addr oldentry =? entry_addr entry then Ok (MkConf r.2, h)
      else
        let! d := del234 r.2 oldentry in
        let! h := free_entry h oldentry in
        let! r := add234 d.2 entry in
        c_assert (match r.1 with Some e => entry_addr e =? entry_addr entry | None => false end)
          (Ok (MkConf r.2, h))
  | None => Ok (MkConf r.2, h)
  end.

Section allocating.
  Context `{Allocator}.

(** [for (i = 0; (entry = index234(oldconf->tree, i)) != NULL; i++)] *)
Fixpoint conf_copy_loop (fuel : nat) (oldconf : tree234 conf_entry) (i : Z)
    (newconf : tree234 conf_entry) (h : heap) : res (tree234 conf_entry * heap) :=
  match index234 oldconf i with
  | None => Ok (newconf, h)
  | Some entry =>
      match fuel with
      | O => Crash OutOfFuel
      | S fuel =>
          let '(entry2, h) := snew_entry h in
          let! k := copy_key (entry_key entry) in
          let! info := key_info (primary (entry_key entry)) in
          let! v := copy_value (entry_value entry) (value_type info) in
          let! r := add234 newconf (Entry entry2 k v) in
          conf_copy_loop fuel oldconf (i + 1) r.2 h
      end
  end.

Definition conf_copy_into (newconf oldconf : Conf) (h : heap) : res (Conf * heap) :=
  let! r := conf_clear newconf h in
  let t := conf_tree oldconf in
  let! r := conf_copy_loop (Z.to_nat (count234 t)) t 0 (conf_tree r.1) r.2 in
  Ok (MkConf r.1, r.2).

Definition conf_copy (oldconf : Conf) (h : heap) : res (Conf * heap) :=
  conf_copy_into conf_new oldconf h.

End allocating.

(** ** Reading *)

(** The assertions at the start of the accessors. *)
Definition assert_types {A} (primary : Z) (sub : conf_type) (vals : list conf_type) (k : res A)
  : res A :=
  let! info := key_info primary in
  c_assert (bool_decide (subkey_type info = sub))
    (c_assert (bool_decide (value_type info ∈ vals)) k).

(** A key on the stack, cast to an entry for the search. *)
Definition key_entry (k : key) : conf_entry := Entry 0 k Val_unset.

Definition conf_find (conf : Conf) (k : key) : res (option conf_entry) :=
  find234 (conf_tree conf) (Some (key_entry k)) None.

(** [assert(entry)], then the entry's value *)
Definition found_value (entry : option conf_entry) : res value :=
  match entry with Some e => Ok (entry_value e) | None => Crash AssertionFailed end.

Definition boolval (v : value) : res bool :=
  match v with Val_bool b => Ok b | _ => Crash UndefinedBehaviour end.
Definition intval (v : value) : res Z :=
  match v with Val_int i => Ok i | _ => Crash UndefinedBehaviour end.
Definition stringval (v : value) : res (list Z * bool) :=
  match v with Val_string s u => Ok (s, u) | _ => Crash UndefinedBehaviour end.
Definition fileval (v : value) : res Filename :=
  match v with Val_file f => Ok f | _ => Crash UndefinedBehaviour end.
Definition fontval (v : value) : res FontSpec :=
  match v with Val_font f => Ok f | _ => Crash UndefinedBehaviour end.

Definition conf_get_bool (conf : Conf) (primary : Z) : res bool :=
  assert_types primary CONF_TYPE_NONE [CONF_TYPE_BOOL] (
    let! entry := conf_find conf (Key primary Sub_unset) in
    let! v := found_value entry in boolval v).

Definition conf_get_int (conf : Conf) (primary : Z) : res Z :=
  assert_types primary CONF_TYPE_NONE [CONF_TYPE_INT] (
    let! entry := conf_find conf (Key primary Sub_unset) in
    let! v := found_value entry in intval v).

Definition conf_get_int_int (conf : Conf) (primary secondary : Z) : res Z :=
  assert_types primary CONF_TYPE_INT [CONF_TYPE_INT] (
    let! entry := conf_find conf (Key primary (Sub_int secondary)) in
    let! v := found_value entry in intval v).

Definition conf_get_str (conf : Conf) (primary : Z) : res (list Z) :=
  assert_types primary CONF_TYPE_NONE [CONF_TYPE_STR] (
    let! entry := conf_find conf (Key primary Sub_unset) in
    let! v := found_value entry in
    let! s := stringval v in Ok s.1).

Definition conf_get_utf8 (conf : Conf) (primary : Z) : res (list Z) :=
  assert_types primary CONF_TYPE_NONE [CONF_TYPE_UTF8] (
    let! entry := conf_find conf (Key primary Sub_unset) in
    let! v := found_value entry in
    let! s := stringval v in Ok s.1).

(** The string and what is stored at [*utf8]. *)
Definition conf_get_str_ambi (conf : Conf) (primary : Z) : res (list Z * bool) :=
  assert_types primary CONF_TYPE_NONE [CONF_TYPE_STR; CONF_TYPE_UTF8; CONF_TYPE_STR_AMBI] (
    let! entry := conf_find conf (Key primary Sub_unset) in
    let! v := found_value entry in stringval v).

Definition conf_get_str_str_opt (conf : Conf) (primary : Z) (secondary : list Z)
  : res (option (list Z)) :=
  assert_types primary CONF_TYPE_STR [CONF_TYPE_STR] (
    let! entry := conf_find conf (Key primary (Sub_str secondary)) in
    match entry with
    | Some e => let! s := stringval (entry_value e) in Ok (Some s.1)
    | None => Ok None
    end).

Definition conf_get_str_str (conf : Conf) (primary : Z) (secondary : list Z) : res (list Z) :=
  let! ret := conf_get_str_str_opt conf primary secondary in
  match ret with Some s => Ok s | None => Crash AssertionFailed end.

(** [entry->key.secondary.s] *)
Definition entry_subkey_str (e : conf_entry) : res (list Z) :=
  match secondary (entry_key e) with Sub_str s => Ok s | _ => Crash UndefinedBehaviour end.

(** The subkey stored at [*subkeyout] and the value; [None] is a null result. *)
Definition conf_get_str_strs (conf : Conf) (primary : Z) (subkeyin : option (list Z))
  : res (option (list Z * list Z)) :=
  assert_types primary CONF_TYPE_STR [CONF_TYPE_STR] (
    let! entry :=
      match subkeyin with
      | Some s => findrel234 (conf_tree conf) (Some (key_entry (Key primary (Sub_str s)))) None REL234_GT
      | None => findrel234 (conf_tree conf) (Some (key_entry (Key primary (Sub_str []))))
                  (Some conf_cmp_constkey) REL234_GE
      end in
    match entry with
    | None => Ok None
    | Some e =>
        if negb (Conf.primary (entry_key e) =? primary) then Ok None
        else
          let! k := entry_subkey_str e in
          let! s := stringval (entry_value e) in
          Ok (Some (k, s.1))
    end).

Definition conf_get_str_nthstrkey (conf : Conf) (primary n : Z) : res (option (list Z)) :=
  assert_types primary CONF_TYPE_STR [CONF_TYPE_STR] (
    let! r := findrelpos234 (conf_tree conf) (Some (key_entry (Key primary (Sub_str []))))
                (Some conf_cmp_constkey) REL234_GE in
    match r with
    | None => Ok None
    | Some (e, index) =>
        if negb (Conf.primary (entry_key e) =? primary) then Ok None
        else match index234 (conf_tree conf) (index + n) with
        | None => Ok None
        | Some e =>
            if negb (Conf.primary (entry_key e) =? primary) then Ok None
            else let! k := entry_subkey_str e in Ok (Some k)
        end
    end).

Definition conf_get_filename (conf : Conf) (primary : Z) : res Filename :=
  assert_types primary CONF_TYPE_NONE [CONF_TYPE_FILENAME] (
    let! entry := conf_find conf (Key primary Sub_unset) in
    let! v := found_value entry in fileval v).

Definition conf_get_fontspec (conf : Conf) (primary : Z) : res FontSpec :=
  assert_types primary CONF_TYPE_NONE [CONF_TYPE_FONT] (
    let! entry := conf_find conf (Key primary Sub_unset) in
    let! v := found_value entry in fontval v).

(** ** Writing *)

Section setting.
  Context `{Allocator}.

Definition conf_set_bool (conf : Conf) (h : heap) (primary : Z) (v : bool) : res (Conf * heap) :=
  let '(entry, h) := snew_entry h in
  assert_types primary CONF_TYPE_NONE [CONF_TYPE_BOOL] (
    conf_insert conf h (Entry entry (Key primary Sub_unset) (Val_bool v))).

Definition conf_set_int (conf : Conf) (h : heap) (primary v : Z) : res (Conf * heap) :=
  let '(entry, h) := snew_entry h in
  assert_types primary CONF_TYPE_NONE [CONF_TYPE_INT] (
    conf_insert conf h (Entry entry (Key primary Sub_unset) (Val_int v))).

Definition conf_set_int_int (conf : Conf) (h : heap) (primary secondary v : Z) : res (Conf * heap) :=
  let '(entry, h) := snew_entry h in
  assert_types primary CONF_TYPE_INT [CONF_TYPE_INT] (
    conf_insert conf h (Entry entry (Key primary (Sub_int secondary)) (Val_int v))).

Definition conf_try_set_str (conf : Conf) (h : heap) (primary : Z) (v : list Z)
  : res (bool * (Conf * heap)) :=
  let! info := key_info primary in
  c_assert (bool_decide (subkey_type info = CONF_TYPE_NONE)) (
    if decide (value_type info = CONF_TYPE_UTF8) then Ok (false, (conf, h))
    else
      c_assert (bool_decide (value_type info ∈ [CONF_TYPE_STR; CONF_TYPE_STR_AMBI])) (
        let '(entry, h) := snew_entry h in
        let! r := conf_insert conf h (Entry entry (Key primary Sub_unset) (Val_string v false)) in
        Ok (true, r))).

Definition conf_set_str (conf : Conf) (h : heap) (primary : Z) (v : list Z) : res (Conf * heap) :=
  let! r := conf_try_set_str conf h primary v in
  c_assert r.1 (Ok r.2).

Definition conf_try_set_utf8 (conf : Conf) (h : heap) (primary : Z) (v : list Z)
  : res (bool * (Conf * heap)) :=
  let! info := key_info primary in
  c_assert (bool_decide (subkey_type info = CONF_TYPE_NONE)) (
    if decide (value_type info = CONF_TYPE_STR) then Ok (false, (conf, h))
    else
      c_assert (bool_decide (value_type info ∈ [CONF_TYPE_UTF8; CONF_TYPE_STR_AMBI])) (
        let '(entry, h) := snew_entry h in
        let! r := conf_insert conf h (Entry entry (Key primary Sub_unset) (Val_string v true)) in
        Ok (true, r))).

Definition conf_set_utf8 (conf : Conf) (h : heap) (primary : Z) (v : list Z) : res (Conf * heap) :=
  let! r := conf_try_set_utf8 conf h primary v in
  c_assert r.1 (Ok r.2).

Definition conf_set_str_str (conf : Conf) (h : heap) (primary : Z) (secondary v : list Z)
  : res (Conf * heap) :=
  let '(entry, h) := snew_entry h in
  assert_types primary CONF_TYPE_STR [CONF_TYPE_STR] (
    conf_insert conf h (Entry entry (Key primary (Sub_str secondary)) (Val_string v false))).

Definition conf_del_str_str (conf : Conf) (h : heap) (primary : Z) (secondary : list Z)
  : res (Conf * heap) :=
  assert_types primary CONF_TYPE_STR [CONF_TYPE_STR] (
    let! entry := conf_find conf (Key primary (Sub_str secondary)) in
    match entry with
    | Some e =>
        let! d := del234 (conf_tree conf) e in
        let! h := free_entry h e in
        Ok (MkConf d.2, h)
    | None => Ok (conf, h)
    end).

Definition conf_set_filename (conf : Conf) (h : heap) (primary : Z) (v : Filename)
  : res (Conf * heap) :=
  let '(entry, h) := snew_entry h in
  assert_types primary CONF_TYPE_NONE [CONF_TYPE_FILENAME] (
    conf_insert conf h (Entry entry (Key primary Sub_unset) (Val_file (filename_copy v)))).

Definition conf_set_fontspec (conf : Conf) (h : heap) (primary : Z) (v : FontSpec)
  : res (Conf * heap) :=
  let '(entry, h) := snew_entry h in
  assert_types primary CONF_TYPE_NONE [CONF_TYPE_FONT] (
    conf_insert conf h (Entry entry (Key primary Sub_unset) (Val_font (fontspec_copy v)))).

End setting.
