(* ===== verification/ConfSerial.v ===== *)
(** * Configurations on the wire (putty utils/conf.c, the last two functions)

    [conf_serialise] writes the entries in the order of the tree and a final
    marker, [conf_deserialise] reads them back.  What they write and read
    depends on the types the table gives for the option. *)

From stdpp Require Import gmap.
From S2P Require Import Prelude Tree234 Tree234Add Tree234Del Tree234Find.
From S2P Require Import Bufchain Marshal Utf8 ConfData Filename Conf.
Local Open Scope cmodel_scope.
Local Open Scope Z_scope.

Definition END_MARKER : Z := 0xFFFFFFFF.

(** The first [switch]; nothing is written for other types. *)
Definition serialise_subkey {S} `{BinarySink S} (bs : S) (type : conf_type) (sub : subkey) : res S :=
  match type, sub with
  | CONF_TYPE_INT, Sub_int i => BinarySink_put_uint32 bs i
  | CONF_TYPE_STR, Sub_str s => BinarySink_put_asciz bs (c_str s)
  | (CONF_TYPE_INT | CONF_TYPE_STR), _ => Crash UndefinedBehaviour
  | _, _ => Ok bs
  end.

(** The second [switch]. *)
Definition serialise_value {S} `{BinarySink S} (bs : S) (type : conf_type) (v : value) : res S :=
  match type, v with
  | CONF_TYPE_BOOL, Val_bool b => BinarySink_put_bool bs b
  | CONF_TYPE_INT, Val_int i => BinarySink_put_uint32 bs i
  | (CONF_TYPE_STR | CONF_TYPE_UTF8), Val_string s _ => BinarySink_put_asciz bs (c_str s)
  | CONF_TYPE_STR_AMBI, Val_string s u =>
      let! bs := BinarySink_put_asciz bs (c_str s) in
      BinarySink_put_bool bs u
  | CONF_TYPE_FILENAME, Val_file f => filename_serialise bs f
  | CONF_TYPE_FONT, Val_font f => fontspec_serialise bs f
  | CONF_TYPE_NONE, _ => Ok bs
  | _, _ => Crash UndefinedBehaviour
  end.

(** The body of the loop. *)
Definition serialise_entry {S} `{BinarySink S} (bs : S) (entry : conf_entry) : res S :=
  let! bs := BinarySink_put_uint32 bs (primary (entry_key entry)) in
  let! info := key_info (primary (entry_key entry)) in
  let! bs := serialise_subkey bs (subkey_type info) (secondary (entry_key entry)) in
  serialise_value bs (value_type info) (entry_value entry).

Fixpoint serialise_loop {S} `{BinarySink S} (fuel : nat) (bs : S) (t : tree234 conf_entry) (i : Z)
  : res S :=
  match index234 t i with
  | None => Ok bs
  | Some entry =>
      match fuel with
      | O => Crash OutOfFuel
      | Datatypes.S fuel =>
          let! bs := serialise_entry bs entry in
          serialise_loop fuel bs t (i + 1)
      end
  end.

Definition conf_serialise {S} `{BinarySink S} (bs : S) (conf : Conf) : res S :=
  let t := conf_tree conf in
  let! bs := serialise_loop (Z.to_nat (count234 t)) bs t 0 in
  BinarySink_put_uint32 bs END_MARKER.

(** The strings read point into the source and are copied ([dupstr]). *)
Definition deserialise_subkey (src : BinarySource) (type : conf_type) : res (subkey * BinarySource) :=
  match type with
  | CONF_TYPE_INT => let! r := BinarySource_get_uint32 src in Ok (Sub_int (toint r.1), r.2)
  | CONF_TYPE_STR => let! r := BinarySource_get_asciz src in Ok (Sub_str r.1, r.2)
  | _ => Ok (Sub_unset, src)
  end.

Section deserialising.
  Context `{Allocator} `{CodePage}.

Definition deserialise_value (src : BinarySource) (type : conf_type) : res (value * BinarySource) :=
  match type with
  | CONF_TYPE_BOOL => let! r := BinarySource_get_bool src in Ok (Val_bool r.1, r.2)
  | CONF_TYPE_INT => let! r := BinarySource_get_uint32 src in Ok (Val_int (toint r.1), r.2)
  | CONF_TYPE_STR => let! r := BinarySource_get_asciz src in Ok (Val_string r.1 false, r.2)
  | CONF_TYPE_UTF8 => let! r := BinarySource_get_asciz src in Ok (Val_string r.1 true, r.2)
  | CONF_TYPE_STR_AMBI =>
      let! r := BinarySource_get_asciz src in
      let! u := BinarySource_get_bool r.2 in
      Ok (Val_string r.1 u.1, u.2)
  | CONF_TYPE_FILENAME => let! r := filename_deserialise src in Ok (Val_file r.1, r.2)
  | CONF_TYPE_FONT => let! r := fontspec_deserialise src in Ok (Val_font r.1, r.2)
  | CONF_TYPE_NONE => Ok (Val_unset, src)
  end.

(** [get_err(src)] as a condition *)
Definition has_err (src : BinarySource) : bool := negb (bool_decide (src_err src = BSE_NO_ERROR)).

Fixpoint deserialise_loop (fuel : nat) (conf : Conf) (h : heap) (src : BinarySource)
  : res (bool * Conf * heap * BinarySource) :=
  match fuel with
  | O => Crash OutOfFuel
  | S fuel =>
      let! r := BinarySource_get_uint32 src in
      let primary := r.1 in
      let src := r.2 in
      if has_err src then Ok (false, conf, h, src)
      else if primary =? END_MARKER then Ok (true, conf, h, src)
      else if N_CONFIG_OPTIONS <=? primary then Ok (false, conf, h, src)
      else
        let '(entry, h) := snew_entry h in
        let! info := key_info primary in
        let! sub := deserialise_subkey src (subkey_type info) in
        let! val := deserialise_value sub.2 (value_type info) in
        let src := val.2 in
        let entry := Entry entry (Key primary sub.1) val.1 in
        if has_err src then
          let! h := free_entry h entry in
          Ok (false, conf, h, src)
        else
          let! r := conf_insert conf h entry in
          deserialise_loop fuel r.1 r.2 src
  end.

(** Every round but the last takes at least four bytes. *)
Definition conf_deserialise (conf : Conf) (h : heap) (src : BinarySource)
  : res (bool * Conf * heap * BinarySource) :=
  deserialise_loop (S (length (src_data src))) conf h src.

End deserialising.
