(* ===== verification/ConfInv.v ===== *)
(** * The invariant of a configuration

    [rep f h conf m]: the tree of [conf] is well-formed and sorted, every entry
    has the types its option's row of the table asks for, the entries' blocks
    and the rest [f] of the heap make up [h], and the entries are the map [m].
    The lemmas show how the building blocks of conf.c act on it. *)

From stdpp Require Import gmap.
From S2P Require Import Prelude Tree234 Tree234Add Tree234Del Tree234Find.
From S2P Require Import Bufchain Marshal Utf8 ConfData Filename Conf.
Local Open Scope cmodel_scope.
Local Open Scope Z_scope.

(** ** The comparison function is an order *)

Lemma int_cmp_flip i j : int_cmp j i = - int_cmp i j.
Proof. unfold int_cmp. destruct (Z.ltb_spec i j), (Z.ltb_spec j i); lia. Qed.

Lemma int_cmp_trans i j k : int_cmp i j <= 0 -> int_cmp j k <= 0 -> int_cmp i k <= 0.
Proof.
  unfold int_cmp.
  destruct (Z.ltb_spec i j), (Z.ltb_spec j i), (Z.ltb_spec j k), (Z.ltb_spec k j),
    (Z.ltb_spec i k), (Z.ltb_spec k i); lia.
Qed.

Lemma int_cmp_0 i j : int_cmp i j = 0 <-> i = j.
Proof. unfold int_cmp. destruct (Z.ltb_spec i j), (Z.ltb_spec j i); lia. Qed.

Lemma strcmp_flip a : forall b, strcmp b a = - strcmp a b.
Proof.
  induction a as [|x a IH]; intros [|y b]; cbn; [done..|].
  destruct (Z.ltb_spec x y), (Z.ltb_spec y x); first [lia|apply IH].
Qed.

Lemma strcmp_trans a : forall b c, strcmp a b <= 0 -> strcmp b c <= 0 -> strcmp a c <= 0.
Proof.
  induction a as [|x a IH]; intros [|y b] [|z c]; cbn; try lia.
  destruct (Z.ltb_spec x y), (Z.ltb_spec y x), (Z.ltb_spec y z), (Z.ltb_spec z y),
    (Z.ltb_spec x z), (Z.ltb_spec z x); try lia. apply IH.
Qed.

Lemma strcmp_0 a : forall b, strcmp a b = 0 <-> a = b.
Proof.
  induction a as [|x a IH]; intros [|y b]; cbn; [naive_solver lia..|].
  destruct (Z.ltb_spec x y), (Z.ltb_spec y x); [naive_solver lia..|].
  rewrite IH. assert (x = y) by lia. naive_solver.
Qed.

Lemma subkey_order_flip a b : subkey_order b a = - subkey_order a b.
Proof. destruct a, b; cbn; auto using int_cmp_flip, strcmp_flip. Qed.

Lemma subkey_order_trans a b c :
  subkey_order a b <= 0 -> subkey_order b c <= 0 -> subkey_order a c <= 0.
Proof. destruct a, b, c; cbn; try lia; eauto using int_cmp_trans, strcmp_trans. Qed.

Lemma subkey_order_0 a b : subkey_order a b = 0 <-> a = b.
Proof. destruct a, b; cbn; rewrite ?int_cmp_0, ?strcmp_0; naive_solver lia. Qed.

(** The part of a key that the comparison looks at. *)
Definition norm_sub (k : key) : subkey :=
  match key_info (primary k) with
  | Ok (KeyInfo CONF_TYPE_NONE _) => Sub_unset
  | _ => secondary k
  end.

Definition key_order (a b : key) : Z :=
  if primary a <? primary b then -1 else if primary b <? primary a then 1
  else subkey_order (norm_sub a) (norm_sub b).

Lemma conf_cmp_order a b : conf_cmp a b = key_order (entry_key a) (entry_key b).
Proof.
  unfold conf_cmp, conf_cmp_keys, key_order.
  destruct (Z.ltb_spec (primary (entry_key a)) (primary (entry_key b))); [done|].
  destruct (Z.ltb_spec (primary (entry_key b)) (primary (entry_key a))); [done|].
  assert (primary (entry_key b) = primary (entry_key a)) as E by lia.
  unfold subkey_cmp, norm_sub. rewrite E.
  destruct (key_info (primary (entry_key a))) as [[[] ?]|]; cbn; try done;
    by destruct (secondary (entry_key a)), (secondary (entry_key b)).
Qed.

#[export] Instance conf_cmp_comparator : Comparator conf_cmp.
Proof.
  split.
  - intros x y. rewrite !conf_cmp_order. unfold key_order.
    destruct (Z.ltb_spec (primary (entry_key x)) (primary (entry_key y))),
      (Z.ltb_spec (primary (entry_key y)) (primary (entry_key x))); [lia|done|done|].
    rewrite subkey_order_flip. lia.
  - intros x y z. rewrite !conf_cmp_order. unfold key_order.
    destruct (Z.ltb_spec (primary (entry_key x)) (primary (entry_key y))),
      (Z.ltb_spec (primary (entry_key y)) (primary (entry_key x))),
      (Z.ltb_spec (primary (entry_key y)) (primary (entry_key z))),
      (Z.ltb_spec (primary (entry_key z)) (primary (entry_key y))),
      (Z.ltb_spec (primary (entry_key x)) (primary (entry_key z))),
      (Z.ltb_spec (primary (entry_key z)) (primary (entry_key x))); try lia.
    apply subkey_order_trans.
Qed.

(** ** Types *)

Definition typed_sub (type : conf_type) (sub : subkey) : Prop :=
  match type, sub with
  | CONF_TYPE_NONE, Sub_unset => True
  | CONF_TYPE_INT, Sub_int i => int_ok i
  | CONF_TYPE_STR, Sub_str s => string_ok s
  | _, _ => False
  end.

Definition typed_value (type : conf_type) (v : value) : Prop :=
  match type, v with
  | CONF_TYPE_BOOL, Val_bool _ => True
  | CONF_TYPE_INT, Val_int i => int_ok i
  | CONF_TYPE_STR, Val_string s u => string_ok s /\ u = false
  | CONF_TYPE_UTF8, Val_string s u => string_ok s /\ u = true
  | CONF_TYPE_STR_AMBI, Val_string s _ => string_ok s
  | CONF_TYPE_FILENAME, Val_file f => string_ok (utf8path f)
  | CONF_TYPE_FONT, Val_font f =>
      string_ok (font_name f) /\ int_ok (font_height f) /\ int_ok (font_charset f)
  | _, _ => False
  end.

Definition typed_key (k : key) : Prop :=
  exists info, key_info (primary k) = Ok info /\ typed_sub (subkey_type info) (secondary k).

Definition entry_ok (e : conf_entry) : Prop :=
  exists info, key_info (primary (entry_key e)) = Ok info /\
    typed_sub (subkey_type info) (secondary (entry_key e)) /\
    typed_value (value_type info) (entry_value e).

Lemma entry_ok_key e : entry_ok e -> typed_key (entry_key e).
Proof. intros (info & Hi & Hs & _). by exists info. Qed.

Lemma typed_norm k : typed_key k -> norm_sub k = secondary k.
Proof.
  intros ([st vt] & Hi & Hs). unfold norm_sub. rewrite Hi. cbn in Hs.
  by destruct st, (secondary k).
Qed.

(** On typed keys the code's comparison is defined, and is [conf_cmp]. *)
Lemma conf_cmp_defined a b :
  typed_key (entry_key a) -> typed_key (entry_key b) ->
  conf_cmp_keys (entry_key a) (entry_key b) = Ok (conf_cmp a b).
Proof.
  intros ([st vt] & Hi & Hs) (info' & Hi' & Hs'). unfold conf_cmp.
  enough (exists z, conf_cmp_keys (entry_key a) (entry_key b) = Ok z) as [z ->] by done.
  unfold conf_cmp_keys. destruct (Z.ltb_spec (primary (entry_key a)) (primary (entry_key b))); [eauto|].
  destruct (Z.ltb_spec (primary (entry_key b)) (primary (entry_key a))); [eauto|].
  unfold subkey_cmp. rewrite Hi. replace (primary (entry_key b)) with (primary (entry_key a)) in Hi' by lia.
  rewrite Hi in Hi'. injection Hi' as <-. cbn in *.
  destruct st, (secondary (entry_key a)), (secondary (entry_key b)); (done || eauto).
Qed.

(** Two typed keys compare equal only if they are equal. *)
Lemma conf_cmp_0 a b :
  typed_key (entry_key a) -> typed_key (entry_key b) ->
  conf_cmp a b = 0 <-> entry_key a = entry_key b.
Proof.
  intros Ha Hb. rewrite conf_cmp_order. unfold key_order. rewrite !typed_norm by done.
  destruct (entry_key a) as [p s], (entry_key b) as [q t]. cbn [primary secondary].
  destruct (Z.ltb_spec p q), (Z.ltb_spec q p); try (split; [lia|intros [=]; lia]).
  rewrite subkey_order_0. assert (p = q) as -> by lia. naive_solver.
Qed.

(** ** Configurations as maps *)

Notation conf_key := (Z * option (Z + list Z))%type.

Definition repr (k : key) : conf_key :=
  (primary k, match secondary k with
              | Sub_unset => None
              | Sub_int i => Some (inl i)
              | Sub_str s => Some (inr s)
              end).

#[export] Instance repr_inj : Inj eq eq repr.
Proof. intros [p s] [q t]. unfold repr. cbn. intros [= -> E]. by destruct s, t; simplify_eq. Qed.

Definition entry_pair (e : conf_entry) : conf_key * value := (repr (entry_key e), entry_value e).

Definition entries (conf : Conf) : list conf_entry := elements (conf_tree conf).

Definition map_of (l : list conf_entry) : gmap conf_key value := list_to_map (entry_pair <$> l).

Definition conf_map (conf : Conf) : gmap conf_key value := map_of (entries conf).

Definition conf_ok (conf : Conf) : Prop :=
  wf_tree (conf_tree conf) /\ cmp (conf_tree conf) = Some conf_cmp /\
  sorted_by conf_cmp (entries conf) /\ Forall entry_ok (entries conf).

Definition addrs (l : list conf_entry) : heap := list_to_set (entry_addr <$> l).

(** The entries' blocks and the frame [f] make up the heap [h]. *)
Definition owns (f h : heap) (l : list conf_entry) : Prop :=
  NoDup (entry_addr <$> l) /\ h = f ∪ addrs l /\ f ## addrs l.

Definition rep (f h : heap) (conf : Conf) (m : gmap conf_key value) : Prop :=
  conf_ok conf /\ owns f h (entries conf) /\ conf_map conf = m.

(** ** Sorted lists of typed entries *)

Definition keys (l : list conf_entry) : list conf_key := repr ∘ entry_key <$> l.

Lemma keys_fst l : (entry_pair <$> l).*1 = keys l.
Proof. unfold keys. rewrite <-list_fmap_compose. done. Qed.

Lemma sorted_keys l : sorted_by conf_cmp l -> Forall entry_ok l -> NoDup (keys l).
Proof.
  induction 1 as [|x l Hs IH Hx]; intros Hok; [constructor|].
  apply Forall_cons in Hok as [Hokx Hok]. constructor; [|by apply IH].
  intros (y & Ey & Hy)%list_elem_of_fmap. apply repr_inj in Ey.
  rewrite Forall_forall in Hx, Hok. specialize (Hx y Hy). cbn in Hx.
  rewrite (proj2 (conf_cmp_0 x y (entry_ok_key _ Hokx) (entry_ok_key _ (Hok y Hy)))) in Hx by done. lia.
Qed.

Lemma map_of_perm l l' : NoDup (keys l) -> l ≡ₚ l' -> map_of l = map_of l'.
Proof.
  intros Hn Hp. unfold map_of. apply list_to_map_proper; [by rewrite keys_fst|by rewrite Hp].
Qed.

Lemma map_of_cons e l : map_of (e :: l) = <[repr (entry_key e) := entry_value e]> (map_of l).
Proof. done. Qed.

Lemma keys_perm l l' : l ≡ₚ l' -> NoDup (keys l) -> NoDup (keys l').
Proof. intros Hp. unfold keys. by rewrite Hp. Qed.

Lemma map_of_lookup_Some l e :
  NoDup (keys l) -> e ∈ l -> map_of l !! repr (entry_key e) = Some (entry_value e).
Proof.
  intros Hn He. apply elem_of_list_to_map_1; [by rewrite keys_fst|].
  apply list_elem_of_fmap. by exists e.
Qed.

Lemma map_of_lookup_None l k :
  (forall e, e ∈ l -> entry_key e <> k) -> map_of l !! repr k = None.
Proof.
  intros Hk. apply not_elem_of_list_to_map_1. rewrite keys_fst.
  intros (e & E & He)%list_elem_of_fmap. apply repr_inj in E. by apply (Hk e).
Qed.

Lemma owns_perm f h l l' : l ≡ₚ l' -> owns f h l -> owns f h l'.
Proof. intros Hp (Hn & -> & Hd). unfold owns, addrs in *. by rewrite <-Hp. Qed.

Lemma owns_remove f h x l : owns f h (x :: l) -> owns f (h ∖ {[entry_addr x]}) l /\ entry_addr x ∈ h.
Proof.
  unfold owns, addrs. rewrite !fmap_cons, list_to_set_cons. intros (Hn & -> & Hd).
  apply NoDup_cons in Hn as [Hx Hn]. rewrite <-(not_elem_of_list_to_set (C := heap)) in Hx.
  split; [|set_solver]. split_and!; [done| |set_solver]. set_solver.
Qed.

Lemma owns_add f h x l : owns f h l -> entry_addr x ∉ h -> owns f ({[entry_addr x]} ∪ h) (x :: l).
Proof.
  unfold owns, addrs. rewrite !fmap_cons, list_to_set_cons. intros (Hn & -> & Hd) Hx.
  split_and!; [constructor; [|done]| |]; set_solver.
Qed.

(** ** Adding, removing and finding entries *)

Lemma cmp_same a b : entry_ok a -> entry_ok b -> conf_cmp a b = 0 -> entry_key a = entry_key b.
Proof. intros Ha Hb. by apply conf_cmp_0; apply entry_ok_key. Qed.

Lemma cmp_of_key a b : entry_ok a -> entry_ok b -> entry_key a = entry_key b -> conf_cmp a b = 0.
Proof. intros Ha Hb. by apply conf_cmp_0; apply entry_ok_key. Qed.

Lemma owns_elem f h l x : owns f h l -> x ∈ l -> entry_addr x ∈ h.
Proof.
  intros (_ & -> & _) Hx. apply elem_of_union_r, elem_of_list_to_set, list_elem_of_fmap. eauto.
Qed.

Lemma key_unique l x y :
  NoDup (keys l) -> x ∈ l -> y ∈ l -> entry_key x = entry_key y -> x = y.
Proof.
  intros Hn [i Hi]%list_elem_of_lookup [j Hj]%list_elem_of_lookup E.
  assert (i = j) as ->; [|congruence].
  apply (NoDup_lookup (keys l) i j (repr (entry_key x))); [done|..]; unfold keys;
    rewrite list_lookup_fmap; [by rewrite Hi|by rewrite Hj, E].
Qed.

Lemma sorted_remove X x Y : sorted_by conf_cmp (X ++ x :: Y) -> sorted_by conf_cmp (X ++ Y).
Proof.
  unfold sorted_by. rewrite !StronglySorted_app. intros (H1 & HX & HY).
  inversion_clear HY. split_and!; [set_solver|done|done].
Qed.

Lemma conf_ok_keys conf : conf_ok conf -> NoDup (keys (entries conf)).
Proof. intros (_ & _ & Hs & Hok). by apply sorted_keys. Qed.

Lemma conf_ok_entry conf e : conf_ok conf -> e ∈ entries conf -> entry_ok e.
Proof. intros (_ & _ & _ & Hok) He. by eapply Forall_forall. Qed.

Lemma free_entry_ok h e :
  entry_ok e -> entry_addr e ∈ h -> free_entry h e = Ok (h ∖ {[entry_addr e]}).
Proof.
  intros ([st vt] & Hi & Hs & Hv) Ha. unfold free_entry, free_key. rewrite Hi. cbn in *.
  destruct (entry_key e) as [p sub]. cbn [secondary] in *.
  assert (match st with CONF_TYPE_STR | CONF_TYPE_UTF8 =>
            match sub with Sub_str _ => Ok () | _ => Crash UndefinedBehaviour end
          | _ => Ok () end = Ok ()) as -> by (by destruct st, sub).
  cbn [res_bind]. assert (free_value (entry_value e) vt = Ok tt) as -> by
    (by destruct vt, (entry_value e)).
  cbn [res_bind]. unfold sfree. by rewrite decide_True.
Qed.

(** A tree with one entry less. *)
Lemma rep_remove f h conf m X x Y t' :
  rep f h conf m -> entries conf = X ++ x :: Y ->
  wf_tree t' -> cmp t' = Some conf_cmp -> elements t' = X ++ Y ->
  free_entry h x = Ok (h ∖ {[entry_addr x]}) /\
  rep f (h ∖ {[entry_addr x]}) (MkConf t') (delete (repr (entry_key x)) m).
Proof.
  intros (Hc & Ho & <-) E Hwf' Hcmp' El'. pose proof (conf_ok_keys _ Hc) as Hn.
  assert (x ∈ entries conf) as Hx by (rewrite E; set_solver).
  pose proof (conf_ok_entry _ _ Hc Hx) as Hokx. pose proof Hc as (Hwf & Hcmp & Hs & Hok).
  assert (entries conf ≡ₚ x :: X ++ Y) as Hp by (rewrite E; symmetry; apply Permutation_middle).
  destruct (owns_remove f h x (X ++ Y)) as [Ho' Ha]; [by eapply owns_perm|].
  split; [by apply free_entry_ok|]. change (entries (MkConf t') = X ++ Y) in El'.
  split; [|split].
  - split_and!; [done|done|rewrite El'|rewrite El'].
    + eapply sorted_remove. by rewrite <-E.
    + rewrite E in Hok. apply Forall_app in Hok as [? HY]. apply Forall_cons in HY as [_ ?].
      by apply Forall_app.
  - by rewrite El'.
  - unfold conf_map. rewrite El', (map_of_perm _ _ Hn Hp), map_of_cons, delete_insert_id; [done|].
    apply map_of_lookup_None. intros e He Ek. apply (keys_perm _ _ Hp) in Hn.
    apply NoDup_cons in Hn as [Hn _]. apply Hn. apply list_elem_of_fmap. exists e.
    split; [cbn; by rewrite Ek|done].
Qed.

Lemma conf_delete_ok f h conf m x :
  rep f h conf m -> x ∈ entries conf ->
  exists t', del234 (conf_tree conf) x = Ok (Some x, t') /\
    free_entry h x = Ok (h ∖ {[entry_addr x]}) /\
    rep f (h ∖ {[entry_addr x]}) (MkConf t') (delete (repr (entry_key x)) m).
Proof.
  intros Hrep Hx. pose proof Hrep as (Hc & _ & _). pose proof Hc as (Hwf & Hcmp & Hs & Hok).
  pose proof (conf_ok_entry _ _ Hc Hx) as Hokx.
  destruct (del234_ok (conf_tree conf) conf_cmp x Hwf Hcmp Hs)
    as [(X & x' & Y & t' & E & H0 & Hd & Hwf' & Hcmp' & El)|[_ Hno]]; cycle 1.
  { exfalso. by apply (Hno x Hx), cmp_of_key. }
  change (elements (conf_tree conf)) with (entries conf) in E.
  assert (x' ∈ entries conf) as Hx' by (rewrite E; set_solver).
  assert (x' = x) as ->.
  { apply (key_unique (entries conf)); [by apply conf_ok_keys|done..|]. symmetry.
    apply cmp_same; [done|by eapply conf_ok_entry|done]. }
  exists t'. split; [done|]. by apply (rep_remove f h conf m X x Y).
Qed.

Lemma conf_add_new_ok f h conf m e :
  rep f h conf m -> entry_ok e -> entry_addr e ∉ h -> m !! repr (entry_key e) = None ->
  exists t', add234 (conf_tree conf) e = Ok (Some e, t') /\
    rep f ({[entry_addr e]} ∪ h) (MkConf t') (<[repr (entry_key e) := entry_value e]> m).
Proof.
  intros (Hc & Ho & <-) He Ha Hm. pose proof (conf_ok_keys _ Hc) as Hn.
  pose proof Hc as (Hwf & Hcmp & Hs & Hok).
  destruct (add234_ok conf_cmp (conf_tree conf) e Hwf Hcmp Hs)
    as [(x & _ & Hx & H0)|(t' & l1 & l2 & Hadd & Hwf' & Hcmp' & E & E' & Hs' & _)].
  { exfalso. pose proof (conf_ok_entry _ _ Hc Hx) as Hokx.
    apply cmp_same in H0; [|done..].
    unfold conf_map in Hm. by rewrite H0, map_of_lookup_Some in Hm. }
  exists t'. split; [done|].
  change (elements (conf_tree conf)) with (entries conf) in E.
  change (elements t') with (entries (MkConf t')) in E'.
  assert (entries (MkConf t') ≡ₚ e :: entries conf) as Hp
    by (rewrite E', E; symmetry; apply Permutation_middle).
  assert (Forall entry_ok (entries (MkConf t'))) as Hok' by (rewrite Hp; by constructor).
  split; [by split_and!|split].
  - eapply owns_perm; [symmetry; exact Hp|]. by apply owns_add.
  - unfold conf_map. rewrite (map_of_perm (entries (MkConf t')) _ (sorted_keys _ Hs' Hok') Hp). apply map_of_cons.
Qed.

Lemma conf_lookup_entry conf k v :
  conf_ok conf -> conf_map conf !! k = Some v ->
  exists e, e ∈ entries conf /\ repr (entry_key e) = k /\ entry_value e = v.
Proof.
  intros Hc Hm. unfold conf_map, map_of in Hm. apply elem_of_list_to_map_2 in Hm.
  apply list_elem_of_fmap in Hm as (e & [= -> ->] & He). eauto.
Qed.

(** [conf_insert] sets a key, whether it was there or not; the block of an
    entry that is replaced is freed. *)
Lemma conf_insert_ok f h conf m e :
  rep f h conf m -> entry_ok e -> entry_addr e ∉ h ->
  exists conf' h', conf_insert conf ({[entry_addr e]} ∪ h) e = Ok (conf', h') /\
    rep f h' conf' (<[repr (entry_key e) := entry_value e]> m).
Proof.
  intros Hrep He Ha. pose proof Hrep as (Hc & Ho & Em). unfold conf_insert.
  destruct (m !! repr (entry_key e)) as [v|] eqn:Hm; cycle 1.
  { destruct (conf_add_new_ok f h conf m e Hrep He Ha Hm) as (t' & -> & Hr). cbn [res_bind fst snd].
    rewrite Z.eqb_refl. eauto. }
  rewrite <-Em in Hm. destruct (conf_lookup_entry conf _ v Hc Hm) as (x & Hx & Ek & _).
  apply repr_inj in Ek. pose proof (conf_ok_entry _ _ Hc Hx) as Hokx.
  pose proof Hc as (Hwf & Hcmp & Hs & Hok).
  destruct (add234_ok conf_cmp (conf_tree conf) e Hwf Hcmp Hs)
    as [(x' & -> & Hx' & H0)|(t' & l1 & l2 & _ & _ & _ & _ & _ & _ & Hno)]; cycle 1.
  { exfalso. by apply (Hno x Hx), cmp_of_key. }
  apply cmp_same in H0; [|done|by eapply conf_ok_entry].
  assert (x' = x) as -> by (apply (key_unique (entries conf)); [by apply conf_ok_keys|done|done|congruence]).
  cbn [res_bind fst snd]. pose proof (owns_elem _ _ _ _ Ho Hx) as Hax.
  rewrite (proj2 (Z.eqb_neq _ _)) by (intros E; rewrite <-E in Ha; done).
  destruct (conf_delete_ok f h conf m x Hrep Hx) as (t1 & -> & _ & Hrep1). cbn [res_bind fst snd].
  rewrite free_entry_ok by (done || set_solver). cbn [res_bind].
  destruct (conf_add_new_ok f (h ∖ {[entry_addr x]}) (MkConf t1) _ e Hrep1 He)
    as (t2 & Hadd2 & Hrep2); [set_solver|rewrite <-Ek; apply lookup_delete_eq|].
  cbn [conf_tree] in Hadd2. rewrite Hadd2.
  cbn [res_bind fst snd]. rewrite Z.eqb_refl. cbn [c_assert]. eexists _, _. split; [done|].
  rewrite <-Ek, insert_delete_eq in Hrep2. rewrite <-Ek.
  replace (({[entry_addr e]} ∪ h) ∖ {[entry_addr x]})
    with ({[entry_addr e]} ∪ h ∖ {[entry_addr x]}); [done|].
  assert (entry_addr e <> entry_addr x) by (intros E; rewrite E in Ha; done).
  apply leibniz_equiv. set_solver.
Qed.

(** [find234] on a key finds the entry the map has there. *)
Lemma conf_find_ok f h conf m k :
  rep f h conf m -> typed_key k ->
  exists out, conf_find conf k = Ok out /\ m !! repr k = (entry_value <$> out) /\
    forall e, out = Some e -> e ∈ entries conf /\ entry_key e = k /\ entry_ok e.
Proof.
  intros (Hc & Ho & <-) Hk. pose proof Hc as (Hwf & Hcmp & Hs & Hok).
  unfold conf_find, find234.
  destruct (findrelpos234_ok (conf_tree conf) (Some (key_entry k)) None conf_cmp REL234_EQ Hwf)
    as (out & -> & Hout); [by left|done|by apply (sorted_mono conf_cmp (key_entry k))|].
  exists (fst <$> out). split; [done|]. destruct out as [[x i]|]; cbn.
  - destruct Hout as (l1 & l2 & E & _ & H0). cbn in H0.
    change (elements (conf_tree conf)) with (entries conf) in E.
    assert (x ∈ entries conf) as Hx by (rewrite E; set_solver).
    pose proof (conf_ok_entry _ _ Hc Hx) as Hokx.
    assert (entry_key x = k) as <- by (symmetry; apply (conf_cmp_0 (key_entry k) x); [done|by apply entry_ok_key|done]).
    split; [|by intros e [= <-]]. by apply map_of_lookup_Some; [apply conf_ok_keys|].
  - split; [|done]. apply map_of_lookup_None. intros e He <-.
    apply (Hout e He). apply (conf_cmp_0 (key_entry _) e); [done|by apply entry_ok_key, (conf_ok_entry conf)|done].
Qed.
