(* ===== verification/ConfSpec.v ===== *)
(** * What configurations guarantee

    Operation by operation, conf.c implements a finite map from typed keys to
    typed values: setting, deleting, reading, listing subkeys, clearing and
    copying.  Every block of memory is freed exactly once and none is lost. *)

From stdpp Require Import gmap.
From S2P Require Import Prelude Tree234 Tree234Add Tree234Del Tree234Find.
From S2P Require Import Bufchain Marshal Utf8 ConfData Filename Conf ConfInv.
Local Open Scope cmodel_scope.
Local Open Scope Z_scope.

(** ** Clearing and copying *)

Lemma conf_new_rep f : rep f f conf_new ∅.
Proof.
  split; [|split; [|done]].
  - split_and!; [by exists 0%nat; constructor|done|constructor|constructor].
  - split_and!; [constructor|set_solver|set_solver].
Qed.

Lemma delpos234_first {A} (t : tree234 A) :
  wf_tree t ->
  match elements t with
  | [] => delpos234 t 0 = Ok (None, t)
  | x :: Y => exists t', delpos234 t 0 = Ok (Some x, t') /\ wf_tree t' /\ cmp t' = cmp t /\
                elements t' = Y
  end.
Proof.
  intros Ht. pose proof Ht as [h Hwf]. unfold delpos234.
  rewrite (wf_count _ _ Hwf : _ = Z.of_nat (length (elements t))).
  destruct (elements t) as [|x Y] eqn:E; [done|].
  rewrite (proj2 (Z.leb_gt _ _)) by (cbn [length]; lia).
  by apply (delpos234_internal_ok t [] x Y).
Qed.

Lemma conf_clear_loop_ok f fuel : forall h t m,
  rep f h (MkConf t) m -> (length (elements t) < fuel)%nat ->
  exists t', conf_clear_loop fuel t h = Ok (t', f) /\ rep f f (MkConf t') ∅.
Proof.
  induction fuel as [|fuel IH]; intros h t m Hrep Hf; [lia|]. cbn [conf_clear_loop].
  pose proof Hrep as ((Hwf & Hcmp & Hs & Hok) & Ho & Hm). cbn [conf_tree] in *.
  pose proof (delpos234_first t Hwf) as Hd. unfold conf_map, entries in *. cbn [conf_tree] in *.
  destruct (elements t) as [|x Y] eqn:E.
  - rewrite Hd. cbn [res_bind fst snd]. exists t.
    assert (h = f) as -> by (destruct Ho as (_ & -> & _); set_solver).
    split; [done|]. rewrite <-Hm in Hrep. exact Hrep.
  - destruct Hd as (t' & -> & Hwf' & Hcmp' & El). cbn [res_bind fst snd].
    destruct (rep_remove f h (MkConf t) m [] x Y t') as [-> Hrep']; [done|done|done|congruence|done|].
    cbn [res_bind]. apply (IH _ _ _ Hrep'). rewrite El. cbn in Hf. lia.
Qed.

Lemma conf_clear_ok f h conf m :
  rep f h conf m -> exists conf', conf_clear conf h = Ok (conf', f) /\ rep f f conf' ∅.
Proof.
  intros Hrep. unfold conf_clear. pose proof Hrep as ((Hwf & _) & _).
  destruct conf as [t]. cbn [conf_tree] in *. rewrite count234_elements, Nat2Z.id by done.
  destruct (conf_clear_loop_ok f (S (length (elements t))) h t m Hrep) as (t' & -> & Hr); [lia|].
  cbn. eauto.
Qed.

Lemma copy_key_ok k : typed_key k -> copy_key k = Ok k.
Proof.
  intros ([st vt] & Hi & Hs). unfold copy_key. rewrite Hi. destruct k as [p sub]. cbn in *.
  by destruct st, sub.
Qed.

Lemma copy_value_ok v type : typed_value type v -> copy_value v type = Ok v.
Proof.
  destruct type, v; try done; intros _; cbn; do 2 f_equal; by match goal with f : _ |- _ => destruct f end.
Qed.

Lemma map_of_snoc l e :
  repr (entry_key e) ∉ keys l ->
  map_of (l ++ [e]) = <[repr (entry_key e) := entry_value e]> (map_of l).
Proof.
  intros Hk. unfold map_of. rewrite fmap_app. cbn. apply list_to_map_snoc. by rewrite keys_fst.
Qed.

Section copying.
  Context `{Allocator}.

Lemma conf_copy_loop_ok f old fuel : forall i new h,
  conf_ok (MkConf old) -> (i + fuel = length (elements old))%nat ->
  rep f h (MkConf new) (map_of (take i (elements old))) ->
  exists new' h', conf_copy_loop fuel old (Z.of_nat i) new h = Ok (new', h') /\
    rep f h' (MkConf new') (conf_map (MkConf old)).
Proof.
  induction fuel as [|fuel IH]; intros i new h Hold Hi Hrep; cbn [conf_copy_loop];
    pose proof Hold as (Hwf & _ & _ & Hok); cbn [conf_tree] in *;
    rewrite index234_ok, decide_True, Nat2Z.id by (done || lia).
  - rewrite lookup_ge_None_2 by lia. rewrite take_ge in Hrep by lia. eauto.
  - destruct (lookup_lt_is_Some_2 (elements old) i) as [e He]; [lia|]. rewrite He.
    assert (entry_ok e) as (info & Hinfo & Hsub & Hval)
      by (eapply conf_ok_entry; [exact Hold|]; by eapply list_elem_of_lookup_2).
    unfold snew_entry. rewrite copy_key_ok by (by exists info). cbn [res_bind].
    rewrite Hinfo. cbn [res_bind]. rewrite copy_value_ok by done. cbn [res_bind].
    set (a := new_block h). set (e2 := Entry a (entry_key e) (entry_value e)).
    pose proof (take_S_r _ _ _ He) as Et.
    assert (repr (entry_key e) ∉ keys (take i (elements old))) as Hnew.
    { pose proof (conf_ok_keys _ Hold) as Hn. change (entries _) with (elements old) in Hn.
      rewrite <-(take_drop i (elements old)) in Hn. unfold keys in *. rewrite fmap_app in Hn.
      apply NoDup_app in Hn as (_ & Hn & _). intros Hin. apply (Hn _ Hin).
      rewrite (drop_S _ _ _ He). cbn. set_solver. }
    destruct (conf_add_new_ok f h (MkConf new) _ e2 Hrep) as (new1 & Hadd & Hrep1).
    + by exists info.
    + apply new_block_fresh.
    + apply not_elem_of_list_to_map_1. by rewrite keys_fst.
    + cbn [conf_tree] in Hadd. rewrite Hadd. cbn [res_bind snd].
      replace (Z.of_nat i + 1) with (Z.of_nat (S i)) by lia.
      apply IH; [done|lia|]. rewrite Et, map_of_snoc by done. exact Hrep1.
Qed.

Lemma conf_copy_into_ok f h new old m :
  rep f h new m -> conf_ok old ->
  exists new' h', conf_copy_into new old h = Ok (new', h') /\ rep f h' new' (conf_map old).
Proof.
  intros Hrep Hold. unfold conf_copy_into.
  destruct (conf_clear_ok f h new m Hrep) as ([t] & -> & Hrep'). cbn [res_bind fst snd conf_tree].
  destruct old as [o]. pose proof Hold as (Hwf & _). cbn [conf_tree] in *.
  rewrite count234_elements, Nat2Z.id by done.
  destruct (conf_copy_loop_ok f o (length (elements o)) 0 t f Hold) as (new' & h' & E & Hr);
    [done|by rewrite take_0|]. change (Z.of_nat 0) with 0 in E. rewrite E. cbn. eauto.
Qed.
End copying.

(** ** Setting and deleting *)

(** Option [p] has the subkey type [sub] and one of the value types [vals]. *)
Definition has_types (p : Z) (sub : conf_type) (vals : list conf_type) : Prop :=
  exists info, key_info p = Ok info /\ subkey_type info = sub /\ value_type info ∈ vals.

Lemma assert_types_ok {A} p sub vals (k : res A) :
  has_types p sub vals -> assert_types p sub vals k = k.
Proof.
  intros (info & Hi & Hs & Hv). unfold assert_types. rewrite Hi. cbn [res_bind].
  by rewrite !c_assert_true by (by apply bool_decide_eq_true).
Qed.

Lemma elem_of_two {A} (x a b : A) : x ∈ [a; b] -> x = a \/ x = b.
Proof. intros [->|[->|[]%not_elem_of_nil]%elem_of_cons]%elem_of_cons; auto. Qed.

Lemma has_types_key p sub vals s :
  has_types p sub vals -> typed_sub sub s -> typed_key (Key p s).
Proof. intros (info & Hi & <- & _) Hs. by exists info. Qed.

Section setting.
  Context `{Allocator}.

(** A fresh entry, inserted. *)
Lemma conf_put_ok f h conf m p sub vals s v :
  rep f h conf m -> has_types p sub vals -> typed_sub sub s ->
  (forall type, type ∈ vals -> typed_value type v) ->
  exists conf' h',
    conf_insert conf ({[new_block h]} ∪ h) (Entry (new_block h) (Key p s) v) = Ok (conf', h') /\
    rep f h' conf' (<[repr (Key p s) := v]> m).
Proof.
  intros Hrep (info & Hi & Hs & Hv) Hsub Hval.
  apply (conf_insert_ok f h conf m (Entry (new_block h) (Key p s) v) Hrep); [|apply new_block_fresh].
  exists info. rewrite Hs. auto.
Qed.

(** The calls that change a configuration. *)
Inductive conf_op :=
| SetBool (p : Z) (v : bool)
| SetInt (p v : Z)
| SetIntInt (p s v : Z)
| SetStr (p : Z) (v : list Z)
| SetUtf8 (p : Z) (v : list Z)
| SetStrStr (p : Z) (s v : list Z)
| DelStrStr (p : Z) (s : list Z)
| SetFilename (p : Z) (v : Filename)
| SetFontspec (p : Z) (v : FontSpec)
| Clear
| CopyFrom (old : Conf).

Definition run_op (conf : Conf) (h : heap) (op : conf_op) : res (Conf * heap) :=
  match op with
  | SetBool p v => conf_set_bool conf h p v
  | SetInt p v => conf_set_int conf h p v
  | SetIntInt p s v => conf_set_int_int conf h p s v
  | SetStr p v => conf_set_str conf h p v
  | SetUtf8 p v => conf_set_utf8 conf h p v
  | SetStrStr p s v => conf_set_str_str conf h p s v
  | DelStrStr p s => conf_del_str_str conf h p s
  | SetFilename p v => conf_set_filename conf h p v
  | SetFontspec p v => conf_set_fontspec conf h p v
  | Clear => conf_clear conf h
  | CopyFrom old => conf_copy_into conf old h
  end.

(** A call with an option of the function's type and well-formed arguments. *)
Definition op_typed (op : conf_op) : Prop :=
  match op with
  | SetBool p _ => has_types p CONF_TYPE_NONE [CONF_TYPE_BOOL]
  | SetInt p v => has_types p CONF_TYPE_NONE [CONF_TYPE_INT] /\ int_ok v
  | SetIntInt p s v => has_types p CONF_TYPE_INT [CONF_TYPE_INT] /\ int_ok s /\ int_ok v
  | SetStr p v => has_types p CONF_TYPE_NONE [CONF_TYPE_STR; CONF_TYPE_STR_AMBI] /\ string_ok v
  | SetUtf8 p v => has_types p CONF_TYPE_NONE [CONF_TYPE_UTF8; CONF_TYPE_STR_AMBI] /\ string_ok v
  | SetStrStr p s v => has_types p CONF_TYPE_STR [CONF_TYPE_STR] /\ string_ok s /\ string_ok v
  | DelStrStr p s => has_types p CONF_TYPE_STR [CONF_TYPE_STR] /\ string_ok s
  | SetFilename p v => has_types p CONF_TYPE_NONE [CONF_TYPE_FILENAME] /\ string_ok (utf8path v)
  | SetFontspec p v =>
      has_types p CONF_TYPE_NONE [CONF_TYPE_FONT] /\
      string_ok (font_name v) /\ int_ok (font_height v) /\ int_ok (font_charset v)
  | Clear => True
  | CopyFrom old => conf_ok old
  end.

(** What the call does to the map. *)
Definition op_spec (op : conf_op) (m : gmap conf_key value) : gmap conf_key value :=
  match op with
  | SetBool p v => <[(p, None) := Val_bool v]> m
  | SetInt p v => <[(p, None) := Val_int v]> m
  | SetIntInt p s v => <[(p, Some (inl s)) := Val_int v]> m
  | SetStr p v => <[(p, None) := Val_string v false]> m
  | SetUtf8 p v => <[(p, None) := Val_string v true]> m
  | SetStrStr p s v => <[(p, Some (inr s)) := Val_string v false]> m
  | DelStrStr p s => delete (p, Some (inr s)) m
  | SetFilename p v => <[(p, None) := Val_file v]> m
  | SetFontspec p v => <[(p, None) := Val_font v]> m
  | Clear => ∅
  | CopyFrom old => conf_map old
  end.

(** Each setter checks the types and inserts one fresh entry. *)
Ltac setter :=
  match goal with
  | Hrep : rep _ ?h _ _, Ht : has_types ?p ?sub ?vals |-
      context [conf_insert _ _ (Entry _ (Key ?p ?s) ?v)] =>
      rewrite assert_types_ok by done;
      apply (conf_put_ok _ _ _ _ p sub vals s v Hrep Ht); [done|intros ? ->%list_elem_of_singleton; done]
  end.

Lemma conf_del_str_str_ok f h conf m p s :
  rep f h conf m -> op_typed (DelStrStr p s) ->
  exists conf' h', conf_del_str_str conf h p s = Ok (conf', h') /\
    rep f h' conf' (op_spec (DelStrStr p s) m).
Proof.
  intros Hrep [Ht Hs]. unfold conf_del_str_str. rewrite assert_types_ok by done.
  destruct (conf_find_ok f h conf m (Key p (Sub_str s)) Hrep) as (out & -> & Hm & Hout);
    [by eapply has_types_key|]. cbn [res_bind op_spec].
  destruct out as [e|].
  - destruct (Hout e eq_refl) as (He & Ek & _).
    destruct (conf_delete_ok f h conf m e Hrep He) as (t' & -> & -> & Hr).
    cbn [res_bind fst snd]. rewrite Ek in Hr. eauto.
  - rewrite delete_id by done. eauto.
Qed.

Lemma set_string_ok f h conf m p vals v u (Hrep : rep f h conf m) :
  has_types p CONF_TYPE_NONE vals -> string_ok v ->
  (forall type, type ∈ vals -> typed_value type (Val_string v u)) ->
  exists conf' h', (let! r := conf_insert conf ({[new_block h]} ∪ h)
                       (Entry (new_block h) (Key p Sub_unset) (Val_string v u)) in
                    Ok (true, r)) = Ok (true, (conf', h')) /\
    rep f h' conf' (<[(p, None) := Val_string v u]> m).
Proof.
  intros Ht Hs Hv.
  destruct (conf_put_ok f h conf m p CONF_TYPE_NONE vals Sub_unset (Val_string v u) Hrep Ht)
    as (conf' & h' & -> & Hr); [done|done|]. cbn [res_bind]. eauto.
Qed.

Lemma conf_set_str_ok f h conf m p v :
  rep f h conf m -> op_typed (SetStr p v) ->
  exists conf' h', conf_set_str conf h p v = Ok (conf', h') /\ rep f h' conf' (op_spec (SetStr p v) m).
Proof.
  intros Hrep [(info & Hi & Hs & Hv) Hok]. unfold conf_set_str, conf_try_set_str.
  rewrite Hi. cbn [res_bind]. rewrite c_assert_true by (by apply bool_decide_eq_true).
  rewrite decide_False by (by destruct (elem_of_two _ _ _ Hv) as [->| ->]).
  rewrite c_assert_true by (by apply bool_decide_eq_true).
  unfold snew_entry. cbv beta iota zeta.
  destruct (set_string_ok f h conf m p [value_type info] v false Hrep) as (conf' & h' & -> & Hr);
    [exists info; split_and!; [done|done|by left]|done| |cbn; eauto].
  intros type ->%list_elem_of_singleton.
  by destruct (elem_of_two _ _ _ Hv) as [->| ->].
Qed.

Lemma conf_set_utf8_ok f h conf m p v :
  rep f h conf m -> op_typed (SetUtf8 p v) ->
  exists conf' h', conf_set_utf8 conf h p v = Ok (conf', h') /\ rep f h' conf' (op_spec (SetUtf8 p v) m).
Proof.
  intros Hrep [(info & Hi & Hs & Hv) Hok]. unfold conf_set_utf8, conf_try_set_utf8.
  rewrite Hi. cbn [res_bind]. rewrite c_assert_true by (by apply bool_decide_eq_true).
  rewrite decide_False by (by destruct (elem_of_two _ _ _ Hv) as [->| ->]).
  rewrite c_assert_true by (by apply bool_decide_eq_true).
  unfold snew_entry. cbv beta iota zeta.
  destruct (set_string_ok f h conf m p [value_type info] v true Hrep) as (conf' & h' & -> & Hr);
    [exists info; split_and!; [done|done|by left]|done| |cbn; eauto].
  intros type ->%list_elem_of_singleton.
  by destruct (elem_of_two _ _ _ Hv) as [->| ->].
Qed.

Lemma run_op_ok f h conf m op :
  rep f h conf m -> op_typed op ->
  exists conf' h', run_op conf h op = Ok (conf', h') /\ rep f h' conf' (op_spec op m).
Proof.
  intros Hrep Hop.
  destruct op as [p v|p v|p s v|p v|p v|p s v|p s|p v|p v| |old]; cbn [run_op];
    [..|by apply conf_copy_into_ok with m]; cbn [op_typed op_spec] in *.
  - unfold conf_set_bool, snew_entry. cbv beta iota zeta. setter.
  - destruct Hop as [Ht Hv]. unfold conf_set_int, snew_entry. cbv beta iota zeta. setter.
  - destruct Hop as (Ht & Hs & Hv). unfold conf_set_int_int, snew_entry. cbv beta iota zeta. setter.
  - by apply conf_set_str_ok.
  - by apply conf_set_utf8_ok.
  - destruct Hop as (Ht & Hs & Hv). unfold conf_set_str_str, snew_entry. cbv beta iota zeta. setter.
  - by apply conf_del_str_str_ok.
  - destruct Hop as [Ht Hv]. unfold conf_set_filename, snew_entry. cbv beta iota zeta.
    destruct v as [w c u]. unfold filename_copy. cbn [wpath cpath utf8path] in *. setter.
  - destruct Hop as (Ht & Hv). unfold conf_set_fontspec, snew_entry. cbv beta iota zeta.
    destruct v as [n b y c]. unfold fontspec_copy, fontspec_new.
    cbn [font_name isbold font_height font_charset] in *. setter.
  - destruct (conf_clear_ok f h conf m Hrep) as (conf' & -> & Hr). eauto.
Qed.

Fixpoint run_ops (conf : Conf) (h : heap) (ops : list conf_op) : res (Conf * heap) :=
  match ops with
  | [] => Ok (conf, h)
  | op :: ops => let! r := run_op conf h op in run_ops r.1 r.2 ops
  end.

Lemma run_ops_ok f ops : forall h conf m,
  rep f h conf m -> Forall op_typed ops ->
  exists conf' h', run_ops conf h ops = Ok (conf', h') /\
    rep f h' conf' (fold_left (fun m op => op_spec op m) ops m).
Proof.
  induction ops as [|op ops IH]; intros h conf m Hrep Hops; [cbn; eauto|].
  apply Forall_cons in Hops as [Hop Hops].
  destruct (run_op_ok f h conf m op Hrep Hop) as (conf1 & h1 & E & Hr). cbn [run_ops].
  rewrite E. cbn [res_bind fst snd fold_left]. by apply IH.
Qed.
End setting.
