(* ===== verification/ConfList.v ===== *)
(** * Reading configurations

    The getters return what the map has; [conf_get_str_strs] and
    [conf_get_str_nthstrkey] list the subkeys of an option in increasing order. *)

From stdpp Require Import gmap.
From S2P Require Import Prelude Tree234 Tree234Add Tree234Del Tree234Find.
From S2P Require Import Bufchain Marshal Utf8 ConfData Filename Conf ConfInv ConfSpec.
Local Open Scope cmodel_scope.
Local Open Scope Z_scope.

(** ** One value *)

(** A mandatory getter: an assertion fails if the map has no value there. *)
Definition reads {A} (o : option value) (is_value : A -> value -> Prop) (r : res A) : Prop :=
  match o with
  | None => r = Crash AssertionFailed
  | Some v => exists a, r = Ok a /\ is_value a v
  end.

Section getting.
  Context (f h : heap) (conf : Conf) (m : gmap conf_key value).
  Context (Hrep : rep f h conf m).

Lemma get_value_ok {A} p sub vals s (project : value -> res A) (is_value : A -> value -> Prop) :
  has_types p sub vals -> typed_sub sub s ->
  (forall type v, type ∈ vals -> typed_value type v -> exists a, project v = Ok a /\ is_value a v) ->
  reads (m !! repr (Key p s)) is_value
    (let! entry := conf_find conf (Key p s) in let! v := found_value entry in project v).
Proof.
  intros Ht Hs Hproj.
  destruct (conf_find_ok f h conf m (Key p s) Hrep) as (out & -> & Hm & Hout);
    [by eapply has_types_key|].
  rewrite Hm. destruct out as [e|]; [|done]. cbn [fmap option_fmap option_map reads res_bind found_value].
  destruct (Hout e eq_refl) as (_ & Ek & (info & Hi & _ & Hv)).
  destruct Ht as (info' & Hi' & _ & Hin). rewrite Ek in Hi. cbn in Hi.
  assert (info' = info) as -> by congruence. by apply (Hproj (value_type info)).
Qed.

(** The goals about the projections of a typed value. *)
Ltac project :=
  intros type v Hin; set_unfold in Hin;
  repeat match type of Hin with _ \/ _ => destruct Hin as [Hin|Hin] end; try done;
  rewrite Hin; destruct v; cbn; naive_solver.

Lemma conf_get_bool_ok p :
  has_types p CONF_TYPE_NONE [CONF_TYPE_BOOL] ->
  reads (m !! (p, None)) (fun b v => v = Val_bool b) (conf_get_bool conf p).
Proof.
  intros Ht. unfold conf_get_bool. rewrite assert_types_ok by done.
  apply (get_value_ok p _ _ Sub_unset boolval _ Ht); [done|project].
Qed.

Lemma conf_get_int_ok p :
  has_types p CONF_TYPE_NONE [CONF_TYPE_INT] ->
  reads (m !! (p, None)) (fun i v => v = Val_int i) (conf_get_int conf p).
Proof.
  intros Ht. unfold conf_get_int. rewrite assert_types_ok by done.
  apply (get_value_ok p _ _ Sub_unset intval _ Ht); [done|project].
Qed.

Lemma conf_get_int_int_ok p s :
  has_types p CONF_TYPE_INT [CONF_TYPE_INT] -> int_ok s ->
  reads (m !! (p, Some (inl s))) (fun i v => v = Val_int i) (conf_get_int_int conf p s).
Proof.
  intros Ht Hs. unfold conf_get_int_int. rewrite assert_types_ok by done.
  apply (get_value_ok p _ _ (Sub_int s) intval _ Ht); [done|project].
Qed.

Lemma conf_get_str_ok p :
  has_types p CONF_TYPE_NONE [CONF_TYPE_STR] ->
  reads (m !! (p, None)) (fun s v => v = Val_string s false) (conf_get_str conf p).
Proof.
  intros Ht. unfold conf_get_str. rewrite assert_types_ok by done.
  apply (get_value_ok p _ _ Sub_unset (fun v => let! s := stringval v in Ok s.1) _ Ht);
    [done|project].
Qed.

Lemma conf_get_utf8_ok p :
  has_types p CONF_TYPE_NONE [CONF_TYPE_UTF8] ->
  reads (m !! (p, None)) (fun s v => v = Val_string s true) (conf_get_utf8 conf p).
Proof.
  intros Ht. unfold conf_get_utf8. rewrite assert_types_ok by done.
  apply (get_value_ok p _ _ Sub_unset (fun v => let! s := stringval v in Ok s.1) _ Ht);
    [done|project].
Qed.

Lemma conf_get_str_ambi_ok p :
  has_types p CONF_TYPE_NONE [CONF_TYPE_STR; CONF_TYPE_UTF8; CONF_TYPE_STR_AMBI] ->
  reads (m !! (p, None)) (fun s v => v = Val_string s.1 s.2) (conf_get_str_ambi conf p).
Proof.
  intros Ht. unfold conf_get_str_ambi. rewrite assert_types_ok by done.
  apply (get_value_ok p _ _ Sub_unset stringval _ Ht); [done|project].
Qed.

Lemma conf_get_filename_ok p :
  has_types p CONF_TYPE_NONE [CONF_TYPE_FILENAME] ->
  reads (m !! (p, None)) (fun x v => v = Val_file x) (conf_get_filename conf p).
Proof.
  intros Ht. unfold conf_get_filename. rewrite assert_types_ok by done.
  apply (get_value_ok p _ _ Sub_unset fileval _ Ht); [done|project].
Qed.

Lemma conf_get_fontspec_ok p :
  has_types p CONF_TYPE_NONE [CONF_TYPE_FONT] ->
  reads (m !! (p, None)) (fun x v => v = Val_font x) (conf_get_fontspec conf p).
Proof.
  intros Ht. unfold conf_get_fontspec. rewrite assert_types_ok by done.
  apply (get_value_ok p _ _ Sub_unset fontval _ Ht); [done|project].
Qed.

Lemma str_entry p e :
  has_types p CONF_TYPE_STR [CONF_TYPE_STR] -> entry_ok e -> primary (entry_key e) = p ->
  exists s v, entry_key e = Key p (Sub_str s) /\ entry_value e = Val_string v false.
Proof.
  intros (info' & Hi' & Hs' & Hv') (info & Hi & Hs & Hv) Hp.
  assert (info' = info) as -> by congruence. apply list_elem_of_singleton in Hv'.
  rewrite Hs' in Hs. rewrite Hv' in Hv. destruct e as [a [q sub] val]. cbn in *. subst q.
  destruct sub, val; try done. destruct Hv as [_ ->]. eauto.
Qed.

Lemma conf_get_str_str_opt_ok p s :
  has_types p CONF_TYPE_STR [CONF_TYPE_STR] -> string_ok s ->
  match m !! (p, Some (inr s)) with
  | None => conf_get_str_str_opt conf p s = Ok None
  | Some v => exists t, conf_get_str_str_opt conf p s = Ok (Some t) /\ v = Val_string t false
  end.
Proof.
  intros Ht Hs. unfold conf_get_str_str_opt. rewrite assert_types_ok by done.
  destruct (conf_find_ok f h conf m (Key p (Sub_str s)) Hrep) as (out & -> & Hm & Hout);
    [by eapply has_types_key|]. change (repr _) with (p, Some (inr s) : option (Z + list Z)) in Hm.
  rewrite Hm. destruct out as [e|]; [|done]. cbn [fmap option_fmap option_map res_bind].
  destruct (Hout e eq_refl) as (_ & Ek & He).
  destruct (str_entry p e Ht He) as (s' & v & _ & ->); [by rewrite Ek|]. cbn. eauto.
Qed.

Lemma conf_get_str_str_ok p s :
  has_types p CONF_TYPE_STR [CONF_TYPE_STR] -> string_ok s ->
  reads (m !! (p, Some (inr s))) (fun t v => v = Val_string t false) (conf_get_str_str conf p s).
Proof.
  intros Ht Hs. unfold conf_get_str_str, reads. pose proof (conf_get_str_str_opt_ok p s Ht Hs) as E.
  destruct (m !! _) as [v|]; [|by rewrite E]. destruct E as (t & -> & ->). cbn. eauto.
Qed.

End getting.

(** ** The subkeys of an option *)

(** The subkey and value of an entry of option [p]. *)
Definition str_pair (p : Z) (e : conf_entry) : option (list Z * list Z) :=
  match e with
  | Entry _ (Key q (Sub_str s)) (Val_string v _) => if decide (q = p) then Some (s, v) else None
  | _ => None
  end.

Definition str_pairs (p : Z) (l : list conf_entry) : list (list Z * list Z) := omap (str_pair p) l.

(** The loop of the code's callers: ask for the first subkey, then for the one
    after each that is returned, until there is none. *)
Fixpoint list_strs (fuel : nat) (conf : Conf) (p : Z) (subkeyin : option (list Z))
  : res (list (list Z * list Z)) :=
  match fuel with
  | O => Crash OutOfFuel
  | S fuel =>
      let! r := conf_get_str_strs conf p subkeyin in
      match r with
      | None => Ok []
      | Some (k, v) => let! rest := list_strs fuel conf p (Some k) in Ok ((k, v) :: rest)
      end
  end.

Lemma string_ok_nil : string_ok [].
Proof. split; [apply not_elem_of_nil|constructor]. Qed.

Lemma str_pair_other p e : primary (entry_key e) <> p -> str_pair p e = None.
Proof.
  destruct e as [a [q []] []]; cbn; intros; try done. by rewrite decide_False.
Qed.

Lemma str_pairs_other p l : Forall (fun e => primary (entry_key e) <> p) l -> str_pairs p l = [].
Proof. induction 1 as [|e l He _ IH]; [done|]. cbn. by rewrite str_pair_other. Qed.

Lemma str_pairs_app p l l' : str_pairs p (l ++ l') = str_pairs p l ++ str_pairs p l'.
Proof. apply omap_app. Qed.

Lemma filter_all {A} (P : A -> Prop) `{!forall x, Decision (P x)} (l : list A) :
  (forall x, x ∈ l -> P x) -> filter P l = l.
Proof.
  induction l as [|x l IH]; intros HP; [done|].
  rewrite filter_cons_True, IH by set_solver. done.
Qed.

Lemma filter_none {A} (P : A -> Prop) `{!forall x, Decision (P x)} (l : list A) :
  (forall x, x ∈ l -> ~ P x) -> filter P l = [].
Proof.
  induction l as [|x l IH]; intros HP; [done|].
  rewrite filter_cons_False, IH by set_solver. done.
Qed.

Section listing.
  Context (f h : heap) (conf : Conf) (m : gmap conf_key value).
  Context (Hrep : rep f h conf m).
  Context (p : Z) (Ht : has_types p CONF_TYPE_STR [CONF_TYPE_STR]).

#[local] Notation ask s := (key_entry (Key p (Sub_str s))).

Lemma str_pair_ok e :
  entry_ok e -> primary (entry_key e) = p ->
  exists s v, entry_key e = Key p (Sub_str s) /\ entry_value e = Val_string v false /\
    str_pair p e = Some (s, v).
Proof.
  intros He Hp. destruct (str_entry p e Ht He Hp) as (s & v & Ek & Ev).
  exists s, v. split; [done|]. split; [done|]. destruct e as [a k w]. cbn [entry_key entry_value] in *.
  rewrite Ek, Ev. unfold str_pair. by rewrite decide_True.
Qed.

(** How a query compares with an entry. *)
Lemma ask_cmp s e :
  entry_ok e ->
  conf_cmp (ask s) e =
    if decide (p < primary (entry_key e)) then -1
    else if decide (primary (entry_key e) < p) then 1
    else match secondary (entry_key e) with Sub_str t => strcmp s t | _ => 0 end.
Proof.
  intros He. rewrite conf_cmp_order. unfold key_order, norm_sub. cbn [entry_key key_entry primary secondary].
  destruct (Z.ltb_spec p (primary (entry_key e))); [by rewrite decide_True|].
  rewrite decide_False by lia.
  destruct (Z.ltb_spec (primary (entry_key e)) p); [by rewrite decide_True|].
  rewrite decide_False by lia. destruct (str_pair_ok e He) as (t & v & -> & _); [lia|].
  cbn [primary secondary]. destruct Ht as ([st vt] & -> & Hs & _). cbn in Hs. by subst st.
Qed.

(** The entries a search for "greater" or "greater or equal" splits off. *)
Lemma find_above (strict : bool) s c0 :
  (c0 = None \/ c0 = Some conf_cmp) -> string_ok s ->
  exists l1 l2, entries conf = l1 ++ l2 /\
    Forall (fun e => if strict then 0 <= conf_cmp (ask s) e else 0 < conf_cmp (ask s) e) l1 /\
    Forall (fun e => if strict then conf_cmp (ask s) e < 0 else conf_cmp (ask s) e <= 0) l2 /\
    findrelpos234 (conf_tree conf) (Some (ask s)) c0 (if strict then REL234_GT else REL234_GE) =
      Ok (match l2 with [] => None | x :: _ => Some (x, Z.of_nat (length l1)) end).
Proof.
  intros Hc0 Hs. pose proof Hrep as ((Hwf & Hcmp & Hsort & Hok) & _).
  set (r := if strict then REL234_GT else REL234_GE).
  pose proof (sorted_mono conf_cmp (ask s) _ Hsort) as Hmono.
  destruct (findrelpos234_ok (conf_tree conf) (Some (ask s)) c0 conf_cmp r Hwf) as (out & -> & Hout);
    [by left|destruct Hc0 as [-> | ->]; done|done|].
  change (elements (conf_tree conf)) with (entries conf) in *. cbn [query] in Hout.
  destruct out as [[x i]|].
  - destruct Hout as (l1 & l2 & E & -> & Hx). exists l1, (x :: l2).
    unfold sorted_by in Hsort. rewrite E, StronglySorted_app in Hsort.
    destruct Hsort as (Hbelow & _ & Habove). inversion_clear Habove as [|?? _ Hab].
    assert (conf_cmp (ask s) x <= 0 /\ (strict = true -> conf_cmp (ask s) x < 0)) as [Hle Hlt]
      by (destruct strict; cbn in Hx; naive_solver lia).
    split; [done|]. split_and!; [| |done].
    + apply Forall_forall. intros y Hy. destruct strict; cbn in Hx; [by apply Hx|].
      destruct Hx as [Hx|[_ Hx]]; [|by apply Hx].
      pose proof (Hbelow y x Hy ltac:(set_solver)) as Hyx. cbn in Hyx.
      pose proof (cmp_flip (ask s) y) as Hf. pose proof (cmp_flip x (ask s)) as Hf2.
      pose proof (cmp_flip (ask s) x) as Hf3.
      pose proof (cmp_lt_trans conf_cmp y x (ask s) Hyx ltac:(lia)). lia.
    + constructor; [destruct strict; [by apply Hlt|done]|].
      eapply Forall_impl; [exact Hab|]. cbn. intros y Hxy.
      pose proof (cmp_le_lt_trans conf_cmp (ask s) x y Hle Hxy). destruct strict; lia.
  - exists (entries conf), []. rewrite app_nil_r. split_and!; [done| |constructor|done].
    apply Forall_forall. intros y Hy. specialize (Hout y Hy). by destruct strict.
Qed.

Lemma cmp_primary x y : conf_cmp x y < 0 -> primary (entry_key x) <= primary (entry_key y).
Proof.
  rewrite conf_cmp_order. unfold key_order.
  destruct (Z.ltb_spec (primary (entry_key x)) (primary (entry_key y))); [lia|].
  destruct (Z.ltb_spec (primary (entry_key y)) (primary (entry_key x))); lia.
Qed.

Lemma ask_primary s e : entry_ok e -> conf_cmp (ask s) e <= 0 -> p <= primary (entry_key e).
Proof. intros He. rewrite ask_cmp by done. repeat case_decide; lia. Qed.

(** What both functions do with the entry that is found. *)
Definition pair_result (entry : option conf_entry) : res (option (list Z * list Z)) :=
  match entry with
  | None => Ok None
  | Some e =>
      if negb (primary (entry_key e) =? p) then Ok None
      else
        let! k := entry_subkey_str e in
        let! s := stringval (entry_value e) in
        Ok (Some (k, s.1))
  end.

Lemma pair_result_head l :
  sorted_by conf_cmp l -> Forall entry_ok l -> Forall (fun e => p <= primary (entry_key e)) l ->
  pair_result (head l) = Ok (head (str_pairs p l)).
Proof.
  intros Hs Hok Hp. destruct l as [|e l]; [done|]. cbn [head pair_result].
  inversion_clear Hs as [|?? Hsl He]. apply Forall_cons in Hok as [Hoke _].
  apply Forall_cons in Hp as [Hpe _].
  destruct (Z.eqb_spec (primary (entry_key e)) p) as [E|E]; cbn [negb].
  - destruct (str_pair_ok e Hoke E) as (s & v & Ek & Ev & Epair).
    unfold entry_subkey_str. rewrite Ek, Ev. cbn. by rewrite Epair.
  - rewrite str_pairs_other; [done|]. constructor; [done|].
    eapply Forall_impl; [exact He|]. cbn. intros y Hy%cmp_primary. lia.
Qed.

Lemma head_Some_pos {A} (l : list A) (n : Z) :
  fst <$> match l with [] => None | x :: _ => Some (x, n) end = head l.
Proof. by destruct l. Qed.

Lemma split_sorted l1 l2 :
  entries conf = l1 ++ l2 -> sorted_by conf_cmp l2 /\ Forall entry_ok l1 /\ Forall entry_ok l2.
Proof.
  intros E. pose proof Hrep as ((_ & _ & Hs & Hok) & _). unfold sorted_by in *.
  rewrite E in Hs, Hok. rewrite StronglySorted_app in Hs. apply Forall_app in Hok. naive_solver.
Qed.

Lemma conf_get_str_strs_first :
  conf_get_str_strs conf p None = Ok (head (str_pairs p (entries conf))).
Proof.
  unfold conf_get_str_strs. rewrite assert_types_ok by done.
  destruct (find_above false [] (Some conf_cmp)) as (l1 & l2 & E & H1 & H2 & Hf); [by right|apply string_ok_nil|].
  unfold findrel234, conf_cmp_constkey. rewrite Hf. cbn [res_bind]. rewrite head_Some_pos.
  destruct (split_sorted l1 l2 E) as (Hs & Hok1 & Hok2).
  change (pair_result (head l2) = Ok (head (str_pairs p (entries conf)))).
  rewrite E, str_pairs_app, (str_pairs_other p l1).
  - apply pair_result_head; [done..|]. apply Forall_forall. intros e He. rewrite Forall_forall in H2, Hok2.
    by apply (ask_primary []); [apply Hok2|apply H2].
  - apply Forall_forall. intros e He Hp. rewrite Forall_forall in H1, Hok1.
    specialize (H1 e He). cbn in H1. rewrite ask_cmp in H1 by (by apply Hok1).
    rewrite !decide_False in H1 by lia. destruct (secondary (entry_key e)) as [| |[|? ?]]; cbn [strcmp] in H1; lia.
Qed.

Lemma conf_get_str_strs_next s :
  string_ok s ->
  conf_get_str_strs conf p (Some s) =
    Ok (head (filter (fun kv => strcmp s kv.1 < 0) (str_pairs p (entries conf)))).
Proof.
  intros Hstr. unfold conf_get_str_strs. rewrite assert_types_ok by done.
  destruct (find_above true s None) as (l1 & l2 & E & H1 & H2 & Hf); [by left|done|].
  unfold findrel234. rewrite Hf. cbn [res_bind]. rewrite head_Some_pos.
  destruct (split_sorted l1 l2 E) as (Hs & Hok1 & Hok2).
  change (pair_result (head l2) =
    Ok (head (filter (fun kv => strcmp s kv.1 < 0) (str_pairs p (entries conf))))).
  rewrite E, str_pairs_app, filter_app, filter_none, filter_all; cycle 1.
  - intros [k v] (e & He & Ep)%list_elem_of_omap. rewrite Forall_forall in H2, Hok2.
    specialize (H2 e He). cbn in H2. rewrite ask_cmp in H2 by (by apply Hok2).
    destruct e as [a [q []] []]; cbn in Ep; try done. case_decide; [|done]. simplify_eq.
    cbn in H2. rewrite !decide_False in H2 by lia. done.
  - intros [k v] (e & He & Ep)%list_elem_of_omap. rewrite Forall_forall in H1, Hok1.
    specialize (H1 e He). cbn in H1. rewrite ask_cmp in H1 by (by apply Hok1).
    destruct e as [a [q []] []]; cbn in Ep; try done. case_decide; [|done]. simplify_eq.
    cbn in H1. rewrite !decide_False in H1 by lia. cbn. lia.
  - apply pair_result_head; [done..|]. apply Forall_forall. intros e He. rewrite Forall_forall in H2, Hok2.
    apply (ask_primary s); [by apply Hok2|]. specialize (H2 e He). cbn in H2. lia.
Qed.

(** ** Enumeration *)

Lemma str_pair_Some e s v :
  entry_ok e -> str_pair p e = Some (s, v) ->
  entry_key e = Key p (Sub_str s) /\ entry_value e = Val_string v false /\ string_ok s.
Proof.
  intros He Ep. destruct (decide (primary (entry_key e) = p)) as [Hp|Hp];
    [|by rewrite str_pair_other in Ep].
  destruct (str_pair_ok e He Hp) as (s' & v' & Ek & Ev & E). rewrite E in Ep. injection Ep as -> ->.
  split; [done|]. split; [done|]. destruct He as (info & Hi & Hs & _).
  destruct Ht as (info' & Hi' & Hst & _). rewrite Ek in Hi, Hs. cbn in Hi, Hs.
  assert (info' = info) as -> by congruence. by rewrite Hst in Hs.
Qed.

Lemma elem_of_str_pairs l s v :
  Forall entry_ok l -> (s, v) ∈ str_pairs p l ->
  string_ok s /\ exists e, e ∈ l /\ entry_key e = Key p (Sub_str s) /\ entry_value e = Val_string v false.
Proof.
  intros Hok (e & He & Ep)%list_elem_of_omap. rewrite Forall_forall in Hok.
  destruct (str_pair_Some e s v (Hok e He) Ep) as (Ek & Ev & Hs). eauto.
Qed.

Lemma str_pairs_sorted l :
  sorted_by conf_cmp l -> Forall entry_ok l ->
  StronglySorted (fun a b => strcmp a.1 b.1 < 0) (str_pairs p l).
Proof.
  induction 1 as [|e l Hs IH He]; intros Hok; [constructor|].
  apply Forall_cons in Hok as [Hoke Hok]. cbn.
  destruct (str_pair p e) as [[s v]|] eqn:Ep; [|by apply IH]. constructor; [by apply IH|].
  apply Forall_forall. intros [s' v'] Hin. cbn.
  destruct (elem_of_str_pairs l s' v' Hok Hin) as (_ & e' & He' & Ek' & _).
  destruct (str_pair_Some e s v Hoke Ep) as (Ek & _ & _).
  rewrite Forall_forall in He, Hok. specialize (He e' He'). cbn in He.
  rewrite conf_cmp_order, Ek in He. change (Key p (Sub_str s)) with (entry_key (ask s)) in He.
  rewrite <-conf_cmp_order, ask_cmp, Ek' in He by (by apply Hok). cbn [primary secondary] in He.
  by rewrite !decide_False in He by lia.
Qed.

(** The listing is what the map has for the option. *)
Lemma elem_of_listing s v :
  (s, v) ∈ str_pairs p (entries conf) <-> m !! (p, Some (inr s)) = Some (Val_string v false).
Proof.
  pose proof Hrep as (Hc & _ & Hm). pose proof Hc as (_ & _ & Hs & Hok). split.
  - intros Hin. destruct (elem_of_str_pairs _ s v Hok Hin) as (_ & e & He & Ek & Ev).
    rewrite <-Hm. pose proof (map_of_lookup_Some _ e (conf_ok_keys _ Hc) He) as E.
    rewrite Ek, Ev in E. exact E.
  - intros E. rewrite <-Hm in E. destruct (conf_lookup_entry conf _ _ Hc E) as (e & He & Ek & Ev).
    apply (repr_inj _ (Key p (Sub_str s))) in Ek. apply list_elem_of_omap. exists e. split; [done|].
    destruct e as [a k w]. cbn in Ek, Ev. rewrite Ek, Ev. unfold str_pair. by rewrite decide_True.
Qed.

Lemma list_strs_from R : forall P q fuel,
  str_pairs p (entries conf) = P ++ R -> conf_get_str_strs conf p q = Ok (head R) ->
  (length R < fuel)%nat -> list_strs fuel conf p q = Ok R.
Proof.
  pose proof Hrep as ((_ & _ & Hs & Hok) & _).
  pose proof (str_pairs_sorted _ Hs Hok) as Hsorted.
  induction R as [|[k v] R IH]; intros P q [|fuel] HL Hq Hf; cbn in Hf; try lia;
    cbn [list_strs]; rewrite Hq; cbn [res_bind head]; [done|].
  assert (string_ok k) as Hk.
  { eapply (elem_of_str_pairs (entries conf) k v); [done|]. rewrite HL. set_solver. }
  rewrite (IH (P ++ [(k, v)]) (Some k) fuel); [done|by rewrite HL, <-app_assoc| |lia].
  rewrite conf_get_str_strs_next by done. do 2 f_equal. rewrite HL in *.
  rewrite StronglySorted_app in Hsorted. destruct Hsorted as (Hcross & _ & HR).
  inversion_clear HR as [|?? _ Hhd]. rewrite Forall_forall in Hhd.
  rewrite filter_app, filter_cons_False, filter_none, filter_all.
  - done.
  - intros y Hy. by apply Hhd.
  - intros y Hy Hlt. pose proof (Hcross y (k, v) Hy ltac:(set_solver)) as Hyk. cbn in Hyk.
    rewrite strcmp_flip in Hyk. lia.
  - cbn. rewrite (proj2 (strcmp_0 k k)) by done. lia.
Qed.

(** ** The n-th subkey *)

Lemma split_primary l :
  sorted_by conf_cmp l -> Forall (fun e => p <= primary (entry_key e)) l ->
  exists A B, l = A ++ B /\ Forall (fun e => primary (entry_key e) = p) A /\
    Forall (fun e => primary (entry_key e) <> p) B.
Proof.
  induction 1 as [|e l Hs IH He]; intros Hp; [by exists [], []|].
  apply Forall_cons in Hp as [Hpe Hp].
  destruct (decide (primary (entry_key e) = p)) as [Epe|Hne].
  - destruct (IH Hp) as (A & B & -> & HA & HB). exists (e :: A), B. by split_and!; [|constructor|].
  - exists [], (e :: l). split_and!; [done|done|]. constructor; [done|].
    eapply Forall_impl; [exact He|]. cbn. intros y Hy%cmp_primary. lia.
Qed.

Lemma str_pairs_lookup A n :
  Forall entry_ok A -> Forall (fun e => primary (entry_key e) = p) A ->
  length (str_pairs p A) = length A /\
  str_pairs p A !! n = (A !! n) ≫= str_pair p.
Proof.
  intros Hok HA. revert n. induction A as [|e A IH]; intros n; [done|].
  apply Forall_cons in Hok as [Hoke Hok]. apply Forall_cons in HA as [He HA].
  destruct (str_pair_ok e Hoke He) as (s & v & _ & _ & Ep).
  assert (str_pairs p (e :: A) = (s, v) :: str_pairs p A) as -> by (cbn; by rewrite Ep).
  split; [cbn; by rewrite (proj1 (IH Hok HA 0%nat))|].
  destruct n as [|n]; cbn; [by rewrite Ep|]. by apply IH.
Qed.

(** The end of [conf_get_str_nthstrkey]. *)
Definition nth_result (entry : option conf_entry) : res (option (list Z)) :=
  match entry with
  | None => Ok None
  | Some e =>
      if negb (primary (entry_key e) =? p) then Ok None
      else let! k := entry_subkey_str e in Ok (Some k)
  end.

Lemma nth_result_pair entry :
  (forall e, entry = Some e -> entry_ok e) -> nth_result entry = Ok (fst <$> (entry ≫= str_pair p)).
Proof.
  intros He. destruct entry as [e|]; [|done]. specialize (He e eq_refl). cbn [nth_result mbind option_bind].
  destruct (Z.eqb_spec (primary (entry_key e)) p) as [E|E]; cbn [negb].
  - destruct (str_pair_ok e He E) as (s & v & Ek & _ & ->). unfold entry_subkey_str. by rewrite Ek.
  - by rewrite str_pair_other.
Qed.

(** The entries of the option are a segment of the tree. *)
Lemma listing_segment :
  exists l1 A B, entries conf = l1 ++ A ++ B /\
    Forall (fun e => primary (entry_key e) <> p) l1 /\
    Forall (fun e => primary (entry_key e) = p) A /\
    Forall (fun e => primary (entry_key e) <> p) B /\
    findrelpos234 (conf_tree conf) (Some (ask [])) (Some conf_cmp_constkey) REL234_GE =
      Ok (match A ++ B with [] => None | x :: _ => Some (x, Z.of_nat (length l1)) end).
Proof.
  destruct (find_above false [] (Some conf_cmp)) as (l1 & l2 & E & H1 & H2 & Hf);
    [by right|apply string_ok_nil|]. destruct (split_sorted l1 l2 E) as (Hs & Hok1 & Hok2).
  rewrite Forall_forall in H1, H2, Hok1, Hok2.
  destruct (split_primary l2 Hs) as (A & B & -> & HA & HB).
  { apply Forall_forall. intros e He. by apply (ask_primary []); [apply Hok2|apply H2]. }
  exists l1, A, B. split_and!; [done| |done|done|done].
  apply Forall_forall. intros e He Hp. specialize (H1 e He). cbn in H1.
  rewrite ask_cmp in H1 by (by apply Hok1). rewrite !decide_False in H1 by lia.
  destruct (secondary (entry_key e)) as [| |[|? ?]]; cbn [strcmp] in H1; lia.
Qed.

Lemma conf_get_str_nthstrkey_ok n :
  conf_get_str_nthstrkey conf p n =
    Ok (if decide (0 <= n) then fst <$> str_pairs p (entries conf) !! Z.to_nat n else None).
Proof.
  unfold conf_get_str_nthstrkey. rewrite assert_types_ok by done.
  destruct listing_segment as (l1 & A & B & E & H1 & HA & HB & ->). cbn [res_bind].
  pose proof Hrep as ((Hwf & _ & _ & Hok) & _).
  assert (Forall entry_ok A) as HokA by (rewrite E in Hok; rewrite !Forall_app in Hok; naive_solver).
  assert (str_pairs p (entries conf) = str_pairs p A) as Epairs.
  { by rewrite E, !str_pairs_app, (str_pairs_other p l1), (str_pairs_other p B), app_nil_r. }
  rewrite Epairs. destruct (str_pairs_lookup A (Z.to_nat n) HokA HA) as [Hlen Hlook].
  destruct A as [|x A].
  { rewrite Hlook. cbn. destruct B as [|b B]; [by case_decide|]. apply Forall_cons in HB as [Hb _].
    rewrite (proj2 (Z.eqb_neq _ _)) by done. by case_decide. }
  cbn [app]. pose proof HA as [Hx _]%Forall_cons. rewrite Hx, Z.eqb_refl. cbn [negb].
  change (nth_result (index234 (conf_tree conf) (Z.of_nat (length l1) + n)) =
    Ok (if decide (0 <= n) then fst <$> str_pairs p (x :: A) !! Z.to_nat n else None)).
  rewrite index234_ok by done. change (elements (conf_tree conf)) with (entries conf).
  rewrite nth_result_pair; cycle 1.
  { intros e He. case_decide; [|done]. rewrite Forall_forall in Hok. apply Hok.
    by eapply list_elem_of_lookup_2. }
  f_equal. rewrite Hlook, E. destruct (decide (0 <= n)) as [Hn|Hn].
  - rewrite decide_True by lia. rewrite lookup_app_r by lia.
    replace (Z.to_nat (Z.of_nat (length l1) + n) - length l1)%nat with (Z.to_nat n) by lia.
    destruct (decide (Z.to_nat n < length (x :: A))%nat) as [Hlt|Hge].
    + by rewrite lookup_app_l.
    + rewrite lookup_app_r, (lookup_ge_None_2 (x :: A)) by lia.
      destruct (B !! _) as [b|] eqn:Eb; [|done]. cbn.
      rewrite Forall_forall in HB. rewrite str_pair_other; [done|]. apply HB. by eapply list_elem_of_lookup_2.
  - case_decide; [|done]. rewrite lookup_app_l by lia.
    destruct (l1 !! _) as [b|] eqn:Eb; [|done]. cbn.
    rewrite Forall_forall in H1. rewrite str_pair_other; [done|]. apply H1. by eapply list_elem_of_lookup_2.
Qed.
End listing.
