(* ===== verification/ConfWire.v ===== *)
(** * The serialised form of a configuration

    The bytes of each entry, that [conf_serialise] writes them to any lawful
    sink, that [conf_deserialise] reads them back, and that it is safe on any
    other bytes. *)

From stdpp Require Import gmap.
From S2P Require Import Prelude Tree234 Tree234Add Tree234Del Tree234Find.
From S2P Require Import Bufchain Marshal Strbuf Utf8 ConfData Filename Conf ConfSerial.
From S2P Require Import ConfInv ConfSpec.
Local Open Scope cmodel_scope.
Local Open Scope Z_scope.

(** ** The bytes *)

Definition sub_bytes (s : subkey) : list Z :=
  match s with
  | Sub_unset => []
  | Sub_int i => PUT_32BIT_MSB_FIRST i
  | Sub_str s => s ++ [0]
  end.

Definition bool_byte (b : bool) : list Z := [if b then 1 else 0].

Definition font_bytes (f : FontSpec) : list Z :=
  (font_name f ++ [0]) ++ PUT_32BIT_MSB_FIRST (if isbold f then 1 else 0) ++
  PUT_32BIT_MSB_FIRST (font_height f) ++ PUT_32BIT_MSB_FIRST (font_charset f).

Definition value_bytes (type : conf_type) (v : value) : list Z :=
  match v with
  | Val_unset => []
  | Val_bool b => bool_byte b
  | Val_int i => PUT_32BIT_MSB_FIRST i
  | Val_string s u =>
      if decide (type = CONF_TYPE_STR_AMBI) then (s ++ [0]) ++ bool_byte u else s ++ [0]
  | Val_file f => utf8path f ++ [0]
  | Val_font f => font_bytes f
  end.

(** The value type of the entry's option. *)
Definition entry_type (e : conf_entry) : conf_type :=
  match key_info (primary (entry_key e)) with Ok info => value_type info | Crash _ => CONF_TYPE_NONE end.

Definition entry_bytes (e : conf_entry) : list Z :=
  PUT_32BIT_MSB_FIRST (primary (entry_key e)) ++ sub_bytes (secondary (entry_key e)) ++
  value_bytes (entry_type e) (entry_value e).

Definition entries_bytes (l : list conf_entry) : list Z := mjoin (entry_bytes <$> l).

Definition conf_bytes (conf : Conf) : list Z :=
  entries_bytes (entries conf) ++ PUT_32BIT_MSB_FIRST END_MARKER.

(** ** Writing *)

Section writing.
  Context {S : Type} `{LawfulSink S}.

Lemma put_asciz_appends d :
  0 ∉ d -> appends (fun s : S => BinarySink_put_asciz s (c_str d)) (d ++ [0]).
Proof. intros Hd. by apply (put_field_appends (F_asciz d)). Qed.

Lemma put_uint32_appends v :
  appends (fun s : S => BinarySink_put_uint32 s v) (PUT_32BIT_MSB_FIRST v).
Proof. apply appends_write. Qed.

Lemma put_bool_appends b : appends (fun s : S => BinarySink_put_bool s b) (bool_byte b).
Proof. apply appends_write. Qed.

Lemma serialise_subkey_appends type sub :
  typed_sub type sub -> appends (fun s : S => serialise_subkey s type sub) (sub_bytes sub).
Proof.
  destruct type, sub; cbn [typed_sub serialise_subkey sub_bytes]; try done; intros Hs.
  - apply appends_nil.
  - apply put_uint32_appends.
  - by apply put_asciz_appends, Hs.
Qed.

Lemma serialise_value_appends type v :
  typed_value type v -> appends (fun s : S => serialise_value s type v) (value_bytes type v).
Proof.
  unfold value_bytes.
  destruct type, v; cbn [typed_value serialise_value]; try done; intros Hv;
    rewrite ?decide_False, ?decide_True by done.
  - apply put_bool_appends.
  - apply put_uint32_appends.
  - by apply put_asciz_appends, Hv.
  - by apply put_asciz_appends, Hv.
  - apply appends_seq; [by apply put_asciz_appends, Hv|apply put_bool_appends].
  - by apply put_asciz_appends, Hv.
  - unfold fontspec_serialise, font_bytes.
    repeat (apply appends_seq; [|]); try apply put_uint32_appends. by apply put_asciz_appends, Hv.
Qed.

Lemma serialise_entry_appends e :
  entry_ok e -> appends (fun s : S => serialise_entry s e) (entry_bytes e).
Proof.
  intros (info & Hi & Hs & Hv). unfold serialise_entry, entry_bytes, entry_type. rewrite Hi.
  apply appends_seq; [apply put_uint32_appends|]. cbn [res_bind].
  apply appends_seq; [by apply serialise_subkey_appends|by apply serialise_value_appends].
Qed.

Lemma entries_bytes_cons e l : entries_bytes (e :: l) = entry_bytes e ++ entries_bytes l.
Proof. done. Qed.

Lemma serialise_loop_appends t fuel : forall i,
  wf_tree t -> Forall entry_ok (elements t) -> (i + fuel = length (elements t))%nat ->
  appends (fun s : S => serialise_loop fuel s t (Z.of_nat i)) (entries_bytes (drop i (elements t))).
Proof.
  induction fuel as [|fuel IH]; intros i Hwf Hok Hi; cbn [serialise_loop];
    rewrite index234_ok, decide_True, Nat2Z.id by (done || lia).
  - rewrite lookup_ge_None_2, drop_ge by lia. apply appends_nil.
  - destruct (lookup_lt_is_Some_2 (elements t) i) as [e He]; [lia|]. rewrite He.
    rewrite (drop_S _ _ _ He), entries_bytes_cons.
    replace (Z.of_nat i + 1) with (Z.of_nat (Datatypes.S i)) by lia.
    apply appends_seq; [|apply IH; [done|done|lia]]. apply serialise_entry_appends.
    rewrite Forall_forall in Hok. apply Hok. by eapply list_elem_of_lookup_2.
Qed.

Lemma conf_serialise_appends conf :
  conf_ok conf -> appends (fun s : S => conf_serialise s conf) (conf_bytes conf).
Proof.
  intros (Hwf & _ & _ & Hok). unfold conf_serialise, conf_bytes.
  apply appends_seq; [|apply put_uint32_appends].
  rewrite count234_elements, Nat2Z.id by done.
  by apply (serialise_loop_appends (conf_tree conf) (length (elements (conf_tree conf))) 0).
Qed.
End writing.

(** ** Reading back *)

#[local] Notation fits pre rest := (Z.of_nat (length (pre ++ rest)) < SIZE_T).

Lemma get_uint32_at pre v rest :
  fits pre (PUT_32BIT_MSB_FIRST v ++ rest) ->
  BinarySource_get_uint32 (source_at pre (PUT_32BIT_MSB_FIRST v ++ rest)) =
    Ok (v mod 2 ^ 32, source_at (pre ++ PUT_32BIT_MSB_FIRST v) rest).
Proof. intros Hl. unfold BinarySource_get_uint32. by rewrite get_fixed_at, get_put_32. Qed.

Lemma get_bool_at pre b rest :
  fits pre (bool_byte b ++ rest) ->
  BinarySource_get_bool (source_at pre (bool_byte b ++ rest)) =
    Ok (b, source_at (pre ++ bool_byte b) rest).
Proof. intros Hl. unfold BinarySource_get_bool. rewrite get_fixed_at by done. by destruct b. Qed.

Lemma fits_seq (pre a rest : list Z) : fits pre (a ++ rest) -> fits (pre ++ a) rest.
Proof. by rewrite <-app_assoc. Qed.

Lemma fits_part (pre a rest : list Z) : fits pre (a ++ rest) -> Z.of_nat (length a) < SIZE_T.
Proof. rewrite !length_app. lia. Qed.

Lemma deserialise_subkey_at pre rest type sub :
  typed_sub type sub -> fits pre (sub_bytes sub ++ rest) ->
  deserialise_subkey (source_at pre (sub_bytes sub ++ rest)) type =
    Ok (sub, source_at (pre ++ sub_bytes sub) rest).
Proof.
  destruct type, sub; cbn [typed_sub sub_bytes deserialise_subkey]; try done; intros Hs Hl.
  - cbn [app]. by rewrite app_nil_r.
  - rewrite get_uint32_at by done. cbn [res_bind fst snd]. by rewrite toint_mod.
  - rewrite get_asciz_at by (done || apply Hs). done.
Qed.

Lemma fontspec_deserialise_at pre rest f :
  typed_value CONF_TYPE_FONT (Val_font f) -> fits pre (font_bytes f ++ rest) ->
  fontspec_deserialise (source_at pre (font_bytes f ++ rest)) =
    Ok (f, source_at (pre ++ font_bytes f) rest).
Proof.
  intros ([H0 Hb] & Hh & Hc) Hl. unfold fontspec_deserialise, font_bytes in *.
  rewrite <-!(app_assoc (font_name f ++ [0])), <-!(app_assoc (PUT_32BIT_MSB_FIRST _)) in *.
  rewrite get_asciz_at by done. cbn [res_bind fst snd]. apply fits_seq in Hl.
  rewrite get_uint32_at by done. cbn [res_bind fst snd]. apply fits_seq in Hl.
  rewrite get_uint32_at by done. cbn [res_bind fst snd]. apply fits_seq in Hl.
  rewrite get_uint32_at by done. cbn [res_bind fst snd]. rewrite !toint_mod by done.
  rewrite <-!app_assoc. do 2 f_equal. destruct f as [n b y c]. unfold fontspec_new. cbn. by destruct b.
Qed.

Section reading.
  Context `{Allocator} `{CodePage}.

(** A file name comes back as the one that its UTF-8 form gives. *)
Definition canon_value (v : value) : value :=
  match v with
  | Val_file f => match filename_from_utf8 (utf8path f) with Ok g => Val_file g | Crash _ => v end
  | _ => v
  end.

Lemma filename_deserialise_at pre rest f :
  string_ok (utf8path f) -> fits pre ((utf8path f ++ [0]) ++ rest) ->
  exists g, filename_from_utf8 (utf8path f) = Ok g /\ utf8path g = utf8path f /\
  filename_deserialise (source_at pre ((utf8path f ++ [0]) ++ rest)) =
    Ok (g, source_at (pre ++ utf8path f ++ [0]) rest).
Proof.
  intros Hs Hl. destruct (filename_from_utf8_ok (utf8path f) Hs) as (g & Hg & Hu).
  { apply fits_part in Hl. rewrite length_app in Hl. lia. }
  exists g. split; [done|]. split; [done|]. unfold filename_deserialise.
  rewrite get_asciz_at by (done || apply Hs). cbn [res_bind fst snd]. by rewrite Hg.
Qed.

Lemma deserialise_value_at pre rest type v :
  typed_value type v -> fits pre (value_bytes type v ++ rest) ->
  deserialise_value (source_at pre (value_bytes type v ++ rest)) type =
    Ok (canon_value v, source_at (pre ++ value_bytes type v) rest) /\
  typed_value type (canon_value v).
Proof.
  unfold value_bytes.
  destruct type, v; cbn [typed_value deserialise_value]; try done;
    rewrite ?decide_False, ?decide_True by done; intros Hv Hl.
  - by rewrite get_bool_at.
  - rewrite get_uint32_at by done. cbn [res_bind fst snd]. by rewrite toint_mod.
  - destruct Hv as [Hs ->]. rewrite get_asciz_at by (done || apply Hs). done.
  - destruct Hv as [Hs ->]. rewrite get_asciz_at by (done || apply Hs). done.
  - rewrite <-(app_assoc (str ++ [0])) in *. rewrite get_asciz_at by (done || apply Hv).
    cbn [res_bind fst snd]. apply fits_seq in Hl. rewrite get_bool_at by done.
    cbn [res_bind fst snd]. by rewrite <-(app_assoc pre (str ++ [0]) (bool_byte utf8)).
  - destruct (filename_deserialise_at pre rest f Hv Hl) as (g & Hg & Hu & ->).
    cbn [canon_value]. rewrite Hg. split; [done|]. cbn [typed_value]. by rewrite Hu.
  - rewrite fontspec_deserialise_at by done. done.
Qed.

Definition canon_entry_map (m : gmap conf_key value) (e : conf_entry) : gmap conf_key value :=
  <[repr (entry_key e) := canon_value (entry_value e)]> m.

Lemma key_info_range p info : key_info p = Ok info -> 0 <= p < N_CONFIG_OPTIONS.
Proof.
  unfold key_info. destruct (Z.ltb_spec p 0); [done|].
  destruct (conf_key_info !! Z.to_nat p) as [i|] eqn:E; [|done]. intros _.
  apply lookup_lt_Some in E. rewrite <-conf_key_info_length. lia.
Qed.

Lemma has_err_source_at pre rest : has_err (source_at pre rest) = false.
Proof. done. Qed.

(** One round of the loop, on the bytes of an entry. *)
Lemma deserialise_entry f h conf m e fuel pre rest :
  rep f h conf m -> entry_ok e -> fits pre (entry_bytes e ++ rest) ->
  exists conf' h', rep f h' conf' (canon_entry_map m e) /\
    deserialise_loop (S fuel) conf h (source_at pre (entry_bytes e ++ rest)) =
    deserialise_loop fuel conf' h' (source_at (pre ++ entry_bytes e) rest).
Proof.
  intros Hrep (info & Hi & Hs & Hv) Hl. pose proof (key_info_range _ _ Hi) as Hrange.
  unfold entry_bytes, entry_type in *. rewrite Hi in *. rewrite <-!app_assoc in Hl.
  assert (N_CONFIG_OPTIONS = 216) as HN by done.
  cbn [deserialise_loop]. rewrite <-!app_assoc.
  rewrite get_uint32_at by done. cbn [res_bind fst snd]. rewrite Z.mod_small by lia.
  rewrite has_err_source_at, (proj2 (Z.eqb_neq _ _)), (proj2 (Z.leb_gt _ _)) by (unfold END_MARKER; lia).
  apply fits_seq in Hl. unfold snew_entry. cbv beta iota zeta. rewrite Hi. cbn [res_bind].
  rewrite deserialise_subkey_at by done. cbn [res_bind fst snd]. apply fits_seq in Hl.
  destruct (deserialise_value_at _ rest _ _ Hv Hl) as [-> Htv]. cbn [res_bind fst snd].
  rewrite has_err_source_at.
  destruct (conf_insert_ok f h conf m
    (Entry (new_block h) (Key (primary (entry_key e)) (secondary (entry_key e))) (canon_value (entry_value e))) Hrep)
    as (conf' & h' & E & Hr); [by exists info|apply new_block_fresh|].
  cbn [entry_addr] in E. rewrite E. cbn [res_bind fst snd]. rewrite <-!app_assoc.
  exists conf', h'. split; [|done]. unfold canon_entry_map. cbn in Hr. by destruct (entry_key e).
Qed.

Lemma deserialise_loop_at f l : forall fuel h conf m pre rest,
  rep f h conf m -> Forall entry_ok l -> (length l < fuel)%nat ->
  fits pre (entries_bytes l ++ PUT_32BIT_MSB_FIRST END_MARKER ++ rest) ->
  exists conf' h', rep f h' conf' (fold_left canon_entry_map l m) /\
    deserialise_loop fuel conf h
      (source_at pre (entries_bytes l ++ PUT_32BIT_MSB_FIRST END_MARKER ++ rest)) =
    Ok (true, conf', h', source_at (pre ++ entries_bytes l ++ PUT_32BIT_MSB_FIRST END_MARKER) rest).
Proof.
  induction l as [|e l IH]; intros [|fuel] h conf m pre rest Hrep Hok Hf Hl; try (cbn in Hf; lia).
  - exists conf, h. split; [done|]. cbn [deserialise_loop].
    change (entries_bytes [] ++ PUT_32BIT_MSB_FIRST END_MARKER ++ rest)
      with (PUT_32BIT_MSB_FIRST END_MARKER ++ rest) in *. by rewrite get_uint32_at.
  - apply Forall_cons in Hok as [He Hok]. rewrite entries_bytes_cons in *. rewrite <-!app_assoc in *.
    destruct (deserialise_entry f h conf m e fuel pre _ Hrep He Hl) as (conf1 & h1 & Hr & ->).
    destruct (IH fuel h1 conf1 _ (pre ++ entry_bytes e) rest Hr Hok) as (conf' & h' & Hr' & ->);
      [cbn in Hf; lia|by rewrite <-app_assoc|].
    exists conf', h'. split; [done|]. by rewrite <-!app_assoc.
Qed.

(** Reading entries into a map: what is read goes first. *)
Lemma fold_entries l : forall m,
  NoDup (keys l) -> fold_left canon_entry_map l m = (canon_value <$> map_of l) ∪ m.
Proof.
  induction l as [|e l IH]; intros m Hn.
  { cbn. unfold map_of. cbn. by rewrite fmap_empty, (left_id_L ∅ (∪)). }
  apply NoDup_cons in Hn as [He Hn]. cbn [fold_left]. rewrite IH by done.
  unfold canon_entry_map. rewrite map_of_cons, fmap_insert.
  rewrite <-insert_union_l, insert_union_r; [done|].
  rewrite lookup_fmap. unfold map_of. rewrite not_elem_of_list_to_map_1; [done|]. by rewrite keys_fst.
Qed.

Lemma entries_bytes_length l : (length l <= length (entries_bytes l))%nat.
Proof.
  induction l as [|e l IH]; [done|]. rewrite entries_bytes_cons, length_app.
  unfold entry_bytes. rewrite !length_app. cbn. lia.
Qed.

Lemma conf_deserialise_at f h conf m l rest :
  rep f h conf m -> NoDup (keys l) -> Forall entry_ok l ->
  fits (entries_bytes l ++ PUT_32BIT_MSB_FIRST END_MARKER) rest ->
  exists conf' h', rep f h' conf' ((canon_value <$> map_of l) ∪ m) /\
    conf_deserialise conf h
      (BinarySource_INIT ((entries_bytes l ++ PUT_32BIT_MSB_FIRST END_MARKER) ++ rest)) =
    Ok (true, conf', h', source_at (entries_bytes l ++ PUT_32BIT_MSB_FIRST END_MARKER) rest).
Proof.
  intros Hrep Hn Hok Hl. rewrite <-fold_entries by done. rewrite <-app_assoc in *.
  unfold conf_deserialise. cbn [src_data BinarySource_INIT].
  apply (deserialise_loop_at f l _ h conf m [] rest); [done|done| |done].
  pose proof (entries_bytes_length l). rewrite !length_app. lia.
Qed.
End reading.

(** ** Arbitrary bytes *)

(** From a well-formed source the getter returns, with a result that satisfies
    [P] even when it has run into the end of the data. *)
Definition returns {A} (P : A -> Prop) (get : BinarySource -> res (A * BinarySource)) : Prop :=
  forall src, src_wf src ->
    exists a src', get src = Ok (a, src') /\ P a /\ src_wf src' /\
      src_data src' = src_data src /\ src_pos src <= src_pos src'.

Lemma returns_bind {A B} (P : A -> Prop) (Q : B -> Prop) get (k : A -> BinarySource -> res (B * BinarySource)) :
  returns P get -> (forall a, P a -> returns Q (k a)) ->
  returns Q (fun src => let! r := get src in k r.1 r.2).
Proof.
  intros Hget Hk src Hwf. destruct (Hget src Hwf) as (a & src1 & -> & Ha & Hwf1 & Hd1 & Hp1).
  destruct (Hk a Ha src1 Hwf1) as (b & src2 & E & Hb & Hwf2 & Hd2 & Hp2).
  exists b, src2. cbn [res_bind fst snd]. split_and!; [done..|congruence|lia].
Qed.

Lemma returns_ret {A} (P : A -> Prop) a : P a -> returns P (fun src => Ok (a, src)).
Proof. intros Ha src Hwf. exists a, src. by split_and!. Qed.

Lemma get_fixed_returns {A} n (dflt : A) decode (P : A -> Prop) :
  0 <= n -> P dflt ->
  (forall bytes, length bytes = Z.to_nat n -> bytesOK bytes -> P (decode bytes)) ->
  returns P (get_fixed n dflt decode).
Proof.
  intros Hn Hd Hdec src Hwf. unfold get_fixed.
  destruct (data_avail_cases src n Hwf) as [(He & Hle & ->)|(src' & -> & Hwf' & Hda & Hp & _)].
  - destruct (consume_wf src n Hwf) as (bytes & -> & Hl & Hb); [lia|].
    destruct (advance_wf src n Hwf) as [Hwf' Hp']; [lia|]. cbn [res_bind fst snd].
    eexists _, _. split_and!; [done|by apply Hdec|done|done|lia].
  - eexists _, _. split_and!; [done..|lia].
Qed.

Lemma get_uint32_returns : returns (fun v => 0 <= v < 2 ^ 32) BinarySource_get_uint32.
Proof. apply get_fixed_returns; [lia|lia|]. intros bytes _. apply GET_32_range. Qed.

Lemma get_bool_returns : returns (fun _ => True) BinarySource_get_bool.
Proof. by apply get_fixed_returns. Qed.

Lemma memchr_take bytes c n : memchr bytes c = Some n -> c ∉ take n bytes.
Proof.
  revert n. induction bytes as [|b bytes IH]; intros n; cbn; [done|].
  destruct (Z.eqb_spec b c) as [->|Hne]; [intros [= <-]; cbn; set_solver|].
  destruct (memchr bytes c) as [k|]; [|done]. intros [= <-]. cbn. specialize (IH k eq_refl). set_solver.
Qed.

(** A string read is a string, and no longer than the data. *)
Definition short_string (s : list Z) : Prop := string_ok s /\ Z.of_nat (length s) < SIZE_T.

Lemma get_asciz_returns : returns short_string BinarySource_get_asciz.
Proof.
  intros src Hwf. unfold BinarySource_get_asciz. pose proof Hwf as (Hp & Hl & Hb).
  assert (short_string []) as Hnil.
  { split; [split; [apply not_elem_of_nil|constructor]|done]. }
  case_decide; [|eexists _, _; split_and!; [done..|lia]].
  rewrite get_avail_wf, read_at_wf by (done || lia). cbn [res_bind].
  set (bytes := take _ _).
  assert (length bytes = Z.to_nat (src_len src - src_pos src)) as Hlb.
  { unfold bytes. rewrite length_take, length_drop. unfold src_len in *. lia. }
  assert (bytesOK bytes) as Hbb by (by apply Forall_take, Forall_drop). clearbody bytes.
  destruct (memchr bytes 0) as [n|] eqn:E.
  - pose proof (memchr_lt _ _ _ E) as Hn.
    destruct (advance_wf src (Z.of_nat n + 1) Hwf) as [Hwf' Hp']; [lia|].
    eexists _, _. split_and!; [done| |done|done|lia].
    split; [split; [by eapply memchr_take|by apply Forall_take]|]. rewrite length_take. lia.
  - eexists _, _. split_and!; [done|done|done|done|cbn; lia].
Qed.

(** If there is no error, an integer was there. *)
Lemma get_uint32_progress src v src' :
  src_wf src -> BinarySource_get_uint32 src = Ok (v, src') -> src_err src' = BSE_NO_ERROR ->
  src_pos src' = src_pos src + 4.
Proof.
  intros Hwf. unfold BinarySource_get_uint32, get_fixed.
  destruct (data_avail_cases src 4 Hwf) as [(He & Hle & ->)|(src1 & -> & _ & _ & _ & Herr & _)].
  - destruct (consume_wf src 4 Hwf) as (bytes & -> & _); [lia|]. cbn [res_bind fst snd].
    intros [= _ <-] _. by apply (advance_wf src 4 Hwf).
  - intros [= _ <-]. done.
Qed.

Section safety.
  Context `{Allocator} `{CodePage}.

Lemma deserialise_subkey_returns type :
  type ∈ [CONF_TYPE_NONE; CONF_TYPE_INT; CONF_TYPE_STR] ->
  returns (typed_sub type) (fun src => deserialise_subkey src type).
Proof.
  intros Hin. unfold deserialise_subkey. destruct type; try (exfalso; set_solver).
  - by apply returns_ret.
  - eapply (returns_bind _ _ _ (fun v src => Ok (Sub_int (toint v), src)) get_uint32_returns).
    intros v Hv. apply returns_ret. by apply toint_ok.
  - eapply (returns_bind _ _ _ (fun s src => Ok (Sub_str s, src)) get_asciz_returns).
    intros s Hs. apply returns_ret. apply Hs.
Qed.

Lemma filename_deserialise_returns :
  returns (fun f => string_ok (utf8path f)) filename_deserialise.
Proof.
  intros src Hwf. unfold filename_deserialise.
  destruct (get_asciz_returns src Hwf) as (s & src' & -> & [Hs Hl] & Hrest). cbn [res_bind fst snd].
  destruct (filename_from_utf8_ok s Hs Hl) as (g & -> & Hu). cbn [res_bind].
  exists g, src'. rewrite Hu. split; [done|]. by split.
Qed.

Lemma fontspec_deserialise_returns :
  returns (fun f => typed_value CONF_TYPE_FONT (Val_font f)) fontspec_deserialise.
Proof.
  intros src Hwf. unfold fontspec_deserialise.
  destruct (get_asciz_returns src Hwf) as (name & src1 & -> & [Hname _] & Hwf1 & Hd1 & Hp1).
  cbn [res_bind fst snd].
  destruct (get_uint32_returns src1 Hwf1) as (bold & src2 & -> & _ & Hwf2 & Hd2 & Hp2).
  cbn [res_bind fst snd].
  destruct (get_uint32_returns src2 Hwf2) as (height & src3 & -> & Hh & Hwf3 & Hd3 & Hp3).
  cbn [res_bind fst snd].
  destruct (get_uint32_returns src3 Hwf3) as (charset & src4 & -> & Hc & Hwf4 & Hd4 & Hp4).
  cbn [res_bind fst snd]. eexists _, src4. split; [done|].
  split; [split; [done|split; by apply toint_ok]|]. split_and!; [done|congruence|lia].
Qed.

Lemma deserialise_value_returns type :
  type <> CONF_TYPE_NONE -> returns (typed_value type) (fun src => deserialise_value src type).
Proof.
  intros Hne. destruct type; cbn [deserialise_value]; try done.
  - apply (returns_bind _ _ _ (fun b src => Ok (Val_bool b, src)) get_bool_returns).
    intros b _. by apply returns_ret.
  - apply (returns_bind _ _ _ (fun v src => Ok (Val_int (toint v), src)) get_uint32_returns).
    intros v Hv. apply returns_ret. by apply toint_ok.
  - apply (returns_bind _ _ _ (fun s src => Ok (Val_string s false, src)) get_asciz_returns).
    intros s Hs. apply returns_ret. split; [apply Hs|done].
  - apply (returns_bind _ _ _ (fun s src => Ok (Val_string s true, src)) get_asciz_returns).
    intros s Hs. apply returns_ret. split; [apply Hs|done].
  - apply (returns_bind _ _ _ (fun s src => let! u := BinarySource_get_bool src in
                                            Ok (Val_string s u.1, u.2)) get_asciz_returns).
    intros s Hs. apply (returns_bind _ _ _ (fun u src => Ok (Val_string s u, src)) get_bool_returns).
    intros u _. apply returns_ret. apply Hs.
  - apply (returns_bind _ _ _ (fun f src => Ok (Val_file f, src)) filename_deserialise_returns).
    intros f Hf. by apply returns_ret.
  - apply (returns_bind _ _ _ (fun f src => Ok (Val_font f, src)) fontspec_deserialise_returns).
    intros f Hf. by apply returns_ret.
Qed.

Lemma key_info_in_range p :
  0 <= p < N_CONFIG_OPTIONS ->
  exists info, key_info p = Ok info /\
    subkey_type info ∈ [CONF_TYPE_NONE; CONF_TYPE_INT; CONF_TYPE_STR] /\
    value_type info <> CONF_TYPE_NONE.
Proof.
  intros Hp. unfold key_info. rewrite (proj2 (Z.ltb_ge _ _)) by lia.
  rewrite <-conf_key_info_length in Hp.
  destruct (lookup_lt_is_Some_2 conf_key_info (Z.to_nat p)) as [info Hi]; [lia|].
  rewrite Hi. exists info. split; [done|].
  pose proof subkey_types_supported as Hs. pose proof value_types_supported as Hv.
  rewrite Forall_lookup in Hs, Hv. eauto.
Qed.

(** An entry that was only allocated is freed again. *)
Lemma free_new_entry h e : entry_ok e -> entry_addr e ∉ h -> free_entry ({[entry_addr e]} ∪ h) e = Ok h.
Proof.
  intros He Ha. rewrite free_entry_ok by (done || set_solver). f_equal. apply leibniz_equiv. set_solver.
Qed.

Lemma deserialise_loop_safe f fuel : forall h conf m src,
  rep f h conf m -> src_wf src -> (Z.to_nat (src_len src - src_pos src) < fuel)%nat ->
  exists b conf' h' src' m', deserialise_loop fuel conf h src = Ok (b, conf', h', src') /\
    rep f h' conf' m' /\ src_wf src' /\ src_data src' = src_data src.
Proof.
  induction fuel as [|fuel IH]; intros h conf m src Hrep Hwf Hf; [lia|]. cbn [deserialise_loop].
  destruct (get_uint32_returns src Hwf) as (p & src1 & E1 & Hp & Hwf1 & Hd1 & Hp1).
  rewrite E1. cbn [res_bind fst snd].
  destruct (has_err src1) eqn:Herr1; [by eexists _, _, _, _, _|].
  destruct (p =? END_MARKER); [by eexists _, _, _, _, _|].
  destruct (Z.leb_spec N_CONFIG_OPTIONS p); [by eexists _, _, _, _, _|].
  unfold snew_entry. cbv beta iota zeta.
  destruct (key_info_in_range p) as (info & Hi & Hst & Hvt); [lia|]. rewrite Hi. cbn [res_bind].
  destruct (deserialise_subkey_returns _ Hst src1 Hwf1) as (sub & src2 & E2 & Hsub & Hwf2 & Hd2 & Hp2).
  rewrite E2. cbn [res_bind fst snd].
  destruct (deserialise_value_returns _ Hvt src2 Hwf2) as (v & src3 & E3 & Hv & Hwf3 & Hd3 & Hp3).
  rewrite E3. cbn [res_bind fst snd].
  set (e := Entry (new_block h) (Key p sub) v).
  assert (entry_ok e) as He by (by exists info).
  assert (entry_addr e ∉ h) as Ha by apply new_block_fresh.
  change (new_block h) with (entry_addr e).
  assert (src_data src3 = src_data src) as Hd by congruence.
  destruct (has_err src3); [rewrite free_new_entry by done; by eexists _, _, _, _, _|].
  destruct (conf_insert_ok f h conf m e Hrep He Ha) as (conf1 & h1 & -> & Hr). cbn [res_bind fst snd].
  assert (src_err src1 = BSE_NO_ERROR) as Hok1.
  { unfold has_err in Herr1. apply negb_false_iff in Herr1. by apply bool_decide_eq_true in Herr1. }
  pose proof (get_uint32_progress _ _ _ Hwf E1 Hok1) as Hprog.
  destruct (IH h1 conf1 _ src3 Hr Hwf3) as (b & conf' & h' & src' & m' & E & Hr' & Hwf' & Hd').
  { destruct Hwf3 as [Hpos3 _]. unfold src_len in *. rewrite Hd in *. lia. }
  eexists _, _, _, _, _. split; [exact E|]. split_and!; [done|done|congruence].
Qed.
End safety.
