(* ===== verification/ConfTheorems.v ===== *)
(** * The guarantees of configurations, put together

    The theorems about utils/conf.c: it refines a typed finite map, its types
    and its memory are safe, its listings are complete and sorted, and what it
    serialises it reads back. *)

From stdpp Require Import gmap strings.
From S2P Require Import Prelude Tree234 Tree234Add Tree234Del Tree234Find.
From S2P Require Import Bufchain Marshal Strbuf Utf8 Utf8Spec ConfData Filename Conf ConfSerial.
From S2P Require Import ConfInv ConfSpec ConfList ConfWire.
Local Open Scope cmodel_scope.
Local Open Scope Z_scope.

(** ** Sample configurations for the witnesses *)

#[export] Instance fresh_allocator : Allocator := {|
  new_block h := fresh h;
  new_block_fresh h := is_fresh h
|}.

(** A code page that has the first characters of Unicode. *)
#[export] Instance latin1_codepage : CodePage := {|
  dup_mb_to_wc s := s;
  dup_wc_to_mb s := (fun c => if c <? 256 then c else 63) <$> s
|}.

Definition has_types_b (p : Z) (sub : conf_type) (vals : list conf_type) : bool :=
  match key_info p with
  | Ok info => bool_decide (subkey_type info = sub) && bool_decide (value_type info ∈ vals)
  | Crash _ => false
  end.

Lemma has_types_b_true p sub vals : has_types_b p sub vals = true -> has_types p sub vals.
Proof.
  unfold has_types_b, has_types. destruct (key_info p) as [info|]; [|done].
  intros [Hs Hv]%andb_true_iff. apply bool_decide_eq_true in Hs, Hv. eauto.
Qed.

Lemma string_ok_dec s : bool_decide (0 ∉ s) && forallb (fun b => (0 <=? b) && (b <? 256)) s = true -> string_ok s.
Proof.
  intros [H0 Hb]%andb_true_iff. apply bool_decide_eq_true in H0. split; [done|].
  apply Forall_forall. intros x Hx. rewrite forallb_forall in Hb.
  specialize (Hb x (proj1 (list_elem_of_In _ _) Hx)). unfold is_byte. lia.
Qed.

#[local] Notation CONF s := (config_primary_key s%string).

Definition ps_a : list Z := [97].
Definition ps_b : list Z := [98; 195; 169].

Definition sample_ops : list conf_op :=
  [SetStr (CONF "host") [104; 111]; SetInt (CONF "port") 22; SetBool (CONF "tcp_nodelay") true;
   SetStrStr (CONF "environmt") ps_b ps_a; SetStrStr (CONF "environmt") ps_a ps_a;
   SetStrStr (CONF "environmt") ps_b ps_b; SetIntInt (CONF "colours") 3 (-7);
   SetUtf8 (CONF "username") ps_b;
   SetFilename (CONF "keyfile") (MkFilename [98; 233] [98; 63] ps_b);
   SetFontspec (CONF "font") (MkFontSpec ps_a true (-10) 1);
   SetStr (CONF "host") ps_a; DelStrStr (CONF "environmt") ps_a].

Lemma sample_ops_typed : Forall op_typed sample_ops.
Proof.
  unfold sample_ops.
  repeat constructor; try (apply has_types_b_true; vm_compute; reflexivity);
    try (apply string_ok_dec; vm_compute; reflexivity); vm_compute; discriminate.
Qed.

(** ** Refinement of a map *)

(** C16. Whatever block the allocator picks, every sequence of well-typed setting,
    deleting, clearing and copying calls on a new configuration returns.  The
    configuration then represents exactly the map that the calls describe, its
    tree is well-formed and sorted, and the heap is what it was before plus one
    block for each entry: nothing is lost, freed twice or overwritten. *)
Theorem conf_refines_map `{Allocator} (h : heap) ops :
  Forall op_typed ops ->
  exists conf h', run_ops conf_new h ops = Ok (conf, h') /\
    rep h h' conf (fold_left (fun m op => op_spec op m) ops ∅).
Proof. intros Hops. apply (run_ops_ok h ops h conf_new ∅); [apply conf_new_rep|done]. Qed.

Lemma conf_refines_map_witness :
  exists conf h', run_ops conf_new {[5]} sample_ops = Ok (conf, h') /\
    rep {[5]} h' conf (fold_left (fun m op => op_spec op m) sample_ops ∅).
Proof. apply (conf_refines_map {[5]} sample_ops). apply sample_ops_typed. Defined.

(** ** Types *)

(** C19. In every configuration that well-typed calls produce, each entry's subkey
    and value have the types that the table gives for its option, so no read of
    a union takes the wrong member; and every comparison of two such entries, or
    of a well-typed key with an entry, is defined and is the order of the tree. *)
Theorem conf_entries_typed `{Allocator} (h : heap) ops :
  Forall op_typed ops ->
  exists conf h', run_ops conf_new h ops = Ok (conf, h') /\
    Forall entry_ok (entries conf) /\
    (forall k e, typed_key k -> e ∈ entries conf ->
       conf_cmp_keys k (entry_key e) = Ok (conf_cmp (key_entry k) e)) /\
    (forall a b, a ∈ entries conf -> b ∈ entries conf ->
       conf_cmp_keys (entry_key a) (entry_key b) = Ok (conf_cmp a b)).
Proof.
  intros Hops. destruct (run_ops_ok h ops h conf_new ∅ (conf_new_rep h) Hops) as (conf & h' & E & Hc & _).
  exists conf, h'. split; [done|]. pose proof Hc as (_ & _ & _ & Hok). split; [done|].
  rewrite Forall_forall in Hok. split.
  - intros k e Hk He. apply (conf_cmp_defined (key_entry k)); [done|by apply entry_ok_key, Hok].
  - intros a b Ha Hb. apply conf_cmp_defined; by apply entry_ok_key, Hok.
Qed.

Lemma conf_entries_typed_witness :
  exists conf h', run_ops conf_new ∅ sample_ops = Ok (conf, h') /\
    Forall entry_ok (entries conf) /\
    (forall k e, typed_key k -> e ∈ entries conf ->
       conf_cmp_keys k (entry_key e) = Ok (conf_cmp (key_entry k) e)) /\
    (forall a b, a ∈ entries conf -> b ∈ entries conf ->
       conf_cmp_keys (entry_key a) (entry_key b) = Ok (conf_cmp a b)).
Proof. apply (conf_entries_typed ∅ sample_ops). apply sample_ops_typed. Defined.

(** ** Reading *)

(** Each getter, used on an option of its type, returns the value that the map
    has for the key; the mandatory ones stop at an assertion when there is
    none, [conf_get_str_str_opt] returns a null pointer. *)
Theorem conf_getters_read f h conf m :
  rep f h conf m ->
  (forall p, has_types p CONF_TYPE_NONE [CONF_TYPE_BOOL] ->
     reads (m !! (p, None)) (fun b v => v = Val_bool b) (conf_get_bool conf p)) /\
  (forall p, has_types p CONF_TYPE_NONE [CONF_TYPE_INT] ->
     reads (m !! (p, None)) (fun i v => v = Val_int i) (conf_get_int conf p)) /\
  (forall p s, has_types p CONF_TYPE_INT [CONF_TYPE_INT] -> int_ok s ->
     reads (m !! (p, Some (inl s))) (fun i v => v = Val_int i) (conf_get_int_int conf p s)) /\
  (forall p, has_types p CONF_TYPE_NONE [CONF_TYPE_STR] ->
     reads (m !! (p, None)) (fun s v => v = Val_string s false) (conf_get_str conf p)) /\
  (forall p, has_types p CONF_TYPE_NONE [CONF_TYPE_UTF8] ->
     reads (m !! (p, None)) (fun s v => v = Val_string s true) (conf_get_utf8 conf p)) /\
  (forall p, has_types p CONF_TYPE_NONE [CONF_TYPE_STR; CONF_TYPE_UTF8; CONF_TYPE_STR_AMBI] ->
     reads (m !! (p, None)) (fun s v => v = Val_string s.1 s.2) (conf_get_str_ambi conf p)) /\
  (forall p s, has_types p CONF_TYPE_STR [CONF_TYPE_STR] -> string_ok s ->
     reads (m !! (p, Some (inr s))) (fun t v => v = Val_string t false) (conf_get_str_str conf p s) /\
     match m !! (p, Some (inr s)) with
     | None => conf_get_str_str_opt conf p s = Ok None
     | Some v => exists t, conf_get_str_str_opt conf p s = Ok (Some t) /\ v = Val_string t false
     end) /\
  (forall p, has_types p CONF_TYPE_NONE [CONF_TYPE_FILENAME] ->
     reads (m !! (p, None)) (fun x v => v = Val_file x) (conf_get_filename conf p)) /\
  (forall p, has_types p CONF_TYPE_NONE [CONF_TYPE_FONT] ->
     reads (m !! (p, None)) (fun x v => v = Val_font x) (conf_get_fontspec conf p)).
Proof.
  intros Hrep. split_and!; intros p; [..|intros Ht|intros Ht].
  - by apply (conf_get_bool_ok f h).
  - by apply (conf_get_int_ok f h).
  - intros s. by apply (conf_get_int_int_ok f h).
  - by apply (conf_get_str_ok f h).
  - by apply (conf_get_utf8_ok f h).
  - by apply (conf_get_str_ambi_ok f h).
  - intros s Ht Hs. split; [by apply (conf_get_str_str_ok f h)|by apply (conf_get_str_str_opt_ok f h)].
  - by apply (conf_get_filename_ok f h).
  - by apply (conf_get_fontspec_ok f h).
Qed.

Lemma conf_getters_read_witness :
  exists conf h', run_ops conf_new ∅ [SetInt (CONF "port") 22] = Ok (conf, h') /\
    conf_get_int conf (CONF "port") = Ok 22 /\
    conf_get_str conf (CONF "host") = Crash AssertionFailed.
Proof.
  destruct (run_ops_ok ∅ [SetInt (CONF "port") 22] ∅ conf_new ∅ (conf_new_rep ∅))
    as (conf & h' & E & Hrep).
  { constructor; [|constructor]. split; [apply has_types_b_true; vm_compute; reflexivity|].
    vm_compute. split; discriminate. }
  destruct (conf_getters_read ∅ h' conf _ Hrep) as (_ & Hint & _ & Hstr & _).
  exists conf, h'. split; [exact E|]. split.
  - destruct (Hint (CONF "port")) as (i & Ei & Ev); [apply has_types_b_true; vm_compute; reflexivity|].
    injection Ev as <-. exact Ei.
  - exact (Hstr (CONF "host") ltac:(apply has_types_b_true; vm_compute; reflexivity)).
Defined.

(** ** Listing *)

(** For an option with string subkeys there is one list of subkeys and values,
    strictly increasing in the order of [strcmp], that holds exactly what the
    map has for the option.  The loop over [conf_get_str_strs] goes through it
    from the first to the last element and ends; [conf_get_str_nthstrkey]
    returns its n-th subkey, and a null pointer past the end or for negative n. *)
Theorem conf_listing_complete f h conf m p :
  rep f h conf m -> has_types p CONF_TYPE_STR [CONF_TYPE_STR] ->
  exists L, StronglySorted (fun a b => strcmp a.1 b.1 < 0) L /\
    (forall s v, (s, v) ∈ L <-> m !! (p, Some (inr s)) = Some (Val_string v false)) /\
    list_strs (S (length L)) conf p None = Ok L /\
    (forall n, conf_get_str_nthstrkey conf p n =
       Ok (if decide (0 <= n) then fst <$> L !! Z.to_nat n else None)).
Proof.
  intros Hrep Ht. pose proof Hrep as ((_ & _ & Hs & Hok) & _).
  exists (str_pairs p (entries conf)). split_and!.
  - by apply str_pairs_sorted.
  - intros s v. by apply (elem_of_listing f h).
  - apply (list_strs_from f h conf m Hrep p Ht _ []); [done|by apply (conf_get_str_strs_first f h conf m)|lia].
  - by apply (conf_get_str_nthstrkey_ok f h conf m).
Qed.

Lemma conf_listing_complete_witness :
  exists conf h' L, run_ops conf_new ∅ sample_ops = Ok (conf, h') /\
    list_strs (S (length L)) conf (CONF "environmt") None = Ok L /\
    (forall n, conf_get_str_nthstrkey conf (CONF "environmt") n =
       Ok (if decide (0 <= n) then fst <$> L !! Z.to_nat n else None)).
Proof.
  destruct (run_ops_ok ∅ sample_ops ∅ conf_new ∅ (conf_new_rep ∅) sample_ops_typed)
    as (conf & h' & E & Hrep).
  destruct (conf_listing_complete ∅ h' conf _ (CONF "environmt") Hrep) as (L & _ & _ & HL & Hn);
    [apply has_types_b_true; vm_compute; reflexivity|].
  exists conf, h', L. split; [exact E|]. split; [exact HL|exact Hn].
Defined.

(** ** Memory *)

(** Copying a configuration gives a second one with the same map, in blocks of
    its own; freeing the copy gives back the heap from before, and freeing the
    original after that gives back the heap without it. *)
Theorem conf_copy_free_balanced `{Allocator} f h conf m :
  rep f h conf m ->
  exists conf2 h2, conf_copy conf h = Ok (conf2, h2) /\ rep h h2 conf2 m /\
    conf_free conf2 h2 = Ok h /\ conf_free conf h = Ok f.
Proof.
  intros Hrep. pose proof Hrep as (Hc & _ & Hm).
  destruct (conf_copy_into_ok h h conf_new conf ∅ (conf_new_rep h) Hc) as (conf2 & h2 & E & Hr).
  rewrite Hm in Hr. exists conf2, h2. split; [done|]. split; [done|]. unfold conf_free.
  destruct (conf_clear_ok h h2 conf2 m Hr) as (c & -> & _).
  by destruct (conf_clear_ok f h conf m Hrep) as (c' & -> & _).
Qed.

Lemma conf_copy_free_balanced_witness :
  exists conf h m conf2 h2, run_ops conf_new {[5]} sample_ops = Ok (conf, h) /\
    conf_copy conf h = Ok (conf2, h2) /\ rep h h2 conf2 m /\
    conf_free conf2 h2 = Ok h /\ conf_free conf h = Ok {[5]}.
Proof.
  destruct (run_ops_ok {[5]} sample_ops {[5]} conf_new ∅ (conf_new_rep _) sample_ops_typed)
    as (conf & h & E & Hrep).
  destruct (conf_copy_free_balanced {[5]} h conf _ Hrep) as (conf2 & h2 & E2 & Hr & F1 & F2).
  exists conf, h, (fold_left (fun m op => op_spec op m) sample_ops ∅), conf2, h2.
  split; [exact E|]. split; [exact E2|]. split; [exact Hr|]. split; [exact F1|exact F2].
Defined.

(** ** The wire *)

(** C17. Serialising a configuration to any sink appends one block of bytes, and
    deserialising that block, whatever follows it, into any other
    configuration succeeds, takes exactly the block, and overrides the map of
    that configuration with the serialised one.  All values come back as they
    were, except that a file name comes back as the one its UTF-8 form stands
    for. *)
Theorem conf_wire_roundtrip {S} `{LawfulSink S} `{Allocator} `{CodePage}
    (s : S) c f h conf m f2 h2 conf2 m2 rest :
  rep f h conf m -> rep f2 h2 conf2 m2 -> sink_holds s c ->
  Z.of_nat (length (c ++ conf_bytes conf)) <= sink_limit ->
  Z.of_nat (length (conf_bytes conf ++ rest)) < SIZE_T ->
  (exists s', conf_serialise s conf = Ok s' /\ sink_holds s' (c ++ conf_bytes conf)) /\
  exists conf' h', conf_deserialise conf2 h2 (BinarySource_INIT (conf_bytes conf ++ rest)) =
      Ok (true, conf', h', source_at (conf_bytes conf) rest) /\
    rep f2 h' conf' ((canon_value <$> m) ∪ m2).
Proof.
  intros (Hc & _ & <-) Hrep2 Hs Hl Hl2. split; [by apply conf_serialise_appends|].
  pose proof Hc as (_ & _ & _ & Hok).
  destruct (conf_deserialise_at f2 h2 conf2 m2 (entries conf) rest Hrep2 (conf_ok_keys _ Hc) Hok Hl2)
    as (conf' & h' & Hr & E). eauto.
Qed.

Lemma conf_wire_roundtrip_witness :
  exists conf h sb, run_ops conf_new {[5]} sample_ops = Ok (conf, h) /\ strbuf_new = Ok sb /\
  (exists s', conf_serialise sb conf = Ok s' /\ sink_holds s' ([] ++ conf_bytes conf)) /\
  exists conf' h', conf_deserialise conf_new ∅ (BinarySource_INIT (conf_bytes conf ++ [1; 2])) =
      Ok (true, conf', h', source_at (conf_bytes conf) [1; 2]) /\
    rep ∅ h' conf' ((canon_value <$> fold_left (fun m op => op_spec op m) sample_ops ∅) ∪ ∅).
Proof.
  destruct (run_ops_ok {[5]} sample_ops {[5]} conf_new ∅ (conf_new_rep _) sample_ops_typed)
    as (conf & h & E & Hrep).
  destruct (strbuf_new_holds false) as (sb & Esb & Hsb).
  change (strbuf_holds sb []) with (sink_holds sb []) in Hsb.
  assert (Z.of_nat (length (conf_bytes conf)) < 1000) as Hlen.
  { vm_compute in E. injection E as <- _. vm_compute. reflexivity. }
  destruct (conf_wire_roundtrip sb [] {[5]} h conf _ ∅ ∅ conf_new ∅ [1; 2] Hrep (conf_new_rep ∅) Hsb)
    as [Hser Hde].
  - cbn [app]. change (@sink_limit strbuf _ _) with (2 ^ 30). lia.
  - rewrite length_app. unfold SIZE_T. cbn [length]. lia.
  - exists conf, h, sb. split; [exact E|]. split; [exact Esb|]. split; [exact Hser|exact Hde].
Defined.

(** C18. On any bytes at all, [conf_deserialise] returns: it reads nothing outside
    the block, comes to an end, leaves the configuration well-formed and well
    typed, and has freed the entry it was working on when it reports an error. *)
Theorem conf_deserialise_safe `{Allocator} `{CodePage} f h conf m src :
  rep f h conf m -> src_wf src ->
  exists b conf' h' src' m', conf_deserialise conf h src = Ok (b, conf', h', src') /\
    rep f h' conf' m' /\ src_wf src' /\ src_data src' = src_data src.
Proof.
  intros Hrep Hwf. apply (deserialise_loop_safe f _ h conf m src Hrep Hwf).
  destruct Hwf as (Hp & _). unfold src_len in *. lia.
Qed.

(** Option 0 with an unterminated string. *)
Definition hostile_bytes : list Z := [0; 0; 0; 0; 104; 111; 115; 116].

Lemma conf_deserialise_safe_witness :
  exists b conf' h' src' m',
    conf_deserialise conf_new ∅ (BinarySource_INIT hostile_bytes) = Ok (b, conf', h', src') /\
    rep ∅ h' conf' m' /\ src_wf src' /\ src_data src' = hostile_bytes.
Proof.
  apply (conf_deserialise_safe ∅ ∅ conf_new ∅ (BinarySource_INIT hostile_bytes) (conf_new_rep ∅)).
  split; [vm_compute; split; discriminate|]. split; [reflexivity|].
  repeat constructor; discriminate.
Defined.

Example hostile_bytes_refused :
  exists src', conf_deserialise conf_new ∅ (BinarySource_INIT hostile_bytes) =
    Ok (false, conf_new, ∅, src').
Proof. eexists. vm_compute. reflexivity. Qed.

(** ** File names *)

(** The two exact ways to make a file name agree: from the UTF-16 form and from
    the UTF-8 form of the same characters comes the same file name, whatever
    the code page, so such a name survives serialisation unchanged. *)
Theorem filename_constructors_agree `{CodePage} cs :
  Forall scalar cs -> 0 ∉ cs -> Z.of_nat (length (utf8 cs)) <= strbuf_limit ->
  exists f, filename_from_wstr (utf16 cs) = Ok f /\ filename_from_utf8 (utf8 cs) = Ok f /\
    utf8path f = utf8 cs /\ wpath f = utf16 cs /\ canon_value (Val_file f) = Val_file f.
Proof.
  intros Hcs H0 Hl. pose proof (utf8_no_zero cs Hcs H0) as Hz8. pose proof (utf16_no_zero cs Hcs H0) as Hz16.
  exists (MkFilename (utf16 cs) (dup_wc_to_mb (utf16 cs)) (utf8 cs)).
  assert (filename_from_utf8 (utf8 cs) =
    Ok (MkFilename (utf16 cs) (dup_wc_to_mb (utf16 cs)) (utf8 cs))) as E8.
  { unfold filename_from_utf8, c_str. rewrite decode_wide_utf8 by (done || unfold strbuf_limit, SIZE_T in *; lia).
    cbn [res_bind]. change (utf16 cs ++ [0]) with (c_str (utf16 cs)). by rewrite dupstr_c_str. }
  split_and!; [|done|done|done|cbn [canon_value utf8path]; by rewrite E8].
  unfold filename_from_wstr, c_str.
  rewrite (encode_wide_string_appends _ (utf8 cs)) by (done || by apply encode_wide_utf16).
  cbn [res_bind]. change (utf8 cs ++ [0]) with (c_str (utf8 cs)). by rewrite dupstr_c_str.
Qed.
