(* ===== verification/Lz77.v ===== *)
(** * LZ77 matching (putty ssh/zlib.c, first part)

    The window of the last 32768 characters with its doubly linked hash chains, and
    the routine that splits the input into literals and matches.  Arrays are lists,
    read and written with their bounds checked.  The consumer of literals and
    matches, in the code two function pointers and a [userdata], is a class. *)

From S2P Require Import Prelude.
Local Open Scope cmodel_scope.
Local Open Scope Z_scope.

(** ** Arrays *)

Definition array_get {A} (a : list A) (i : Z) : res A :=
  if 0 <=? i then
    match a !! Z.to_nat i with Some x => Ok x | None => Crash UndefinedBehaviour end
  else Crash UndefinedBehaviour.

Definition array_set {A} (a : list A) (i : Z) (x : A) : res (list A) :=
  if (0 <=? i) && (i <? Z.of_nat (length a)) then Ok (<[Z.to_nat i := x]> a)
  else Crash UndefinedBehaviour.

Notation zlen l := (Z.of_nat (length l)).

(** ** State *)

Definition WINSIZE : Z := 32768.
Definition HASHMAX : Z := 2039.
Definition MAXMATCH : Z := 32.
Definition HASHCHARS : Z := 3.
Definition INVALID : Z := -1.

Record WindowEntry := WEntry { we_next : Z; we_prev : Z; we_hashval : Z }.

Record Match := MkMatch { m_distance : Z; m_len : Z }.

(** [hashtab] is the array of the [first] fields. *)
Record LZ77InternalContext := LZ77 {
  lz_win : list WindowEntry;
  lz_data : list Z;
  lz_winpos : Z;
  lz_hashtab : list Z;
  lz_pending : list Z;
  lz_npending : Z
}.

(** The public part of an [LZ77Context]: what to do with the output. *)
Class LZ77Context (U : Type) := {
  literal : U -> Z -> res U;
  output_match : U -> Z -> Z -> res U
}.

Definition set_win st w :=
  LZ77 w (lz_data st) (lz_winpos st) (lz_hashtab st) (lz_pending st) (lz_npending st).
Definition set_hashtab st h :=
  LZ77 (lz_win st) (lz_data st) (lz_winpos st) h (lz_pending st) (lz_npending st).
Definition set_pending st p n :=
  LZ77 (lz_win st) (lz_data st) (lz_winpos st) (lz_hashtab st) p n.

(** ** Operations *)

Definition lz77_hash (data : list Z) : res Z :=
  let! d0 := array_get data 0 in
  let! d1 := array_get data 1 in
  let! d2 := array_get data 2 in
  Ok ((257 * d0 + 263 * d1 + 269 * d2) mod HASHMAX).

(** The block comes cleared from the allocation wrapper. *)
Definition lz77_init : LZ77InternalContext :=
  LZ77 (replicate (Z.to_nat WINSIZE) (WEntry INVALID INVALID INVALID))
       (replicate (Z.to_nat WINSIZE) 0) 0
       (replicate (Z.to_nat HASHMAX) INVALID)
       (replicate (Z.to_nat HASHCHARS) 0) 0.

(** Remove the hash entry at [winpos] from the tail of its chain, or empty the chain. *)
Definition drop_oldest (st : LZ77InternalContext) : res LZ77InternalContext :=
  let! e := array_get (lz_win st) (lz_winpos st) in
  if negb (we_prev e =? INVALID) then
    let! p := array_get (lz_win st) (we_prev e) in
    let! w := array_set (lz_win st) (we_prev e) (WEntry INVALID (we_prev p) (we_hashval p)) in
    Ok (set_win st w)
  else if negb (we_hashval e =? INVALID) then
    let! h := array_set (lz_hashtab st) (we_hashval e) INVALID in
    Ok (set_hashtab st h)
  else Ok st.

(** Create a new entry at [winpos] and add it to the head of its hash chain. *)
Definition link_newest (w : list WindowEntry) (tab : list Z) (winpos hash : Z) : res (list WindowEntry * list Z) :=
  let! off := array_get tab hash in
  let! w := array_set w winpos (WEntry off INVALID hash) in
  let! h := array_set tab hash winpos in
  let! w :=
    if negb (off =? INVALID) then
      let! o := array_get w off in
      array_set w off (WEntry (we_next o) winpos (we_hashval o))
    else Ok w in
  Ok (w, h).

Definition lz77_advance (st : LZ77InternalContext) (c hash : Z) : res LZ77InternalContext :=
  let! st := drop_oldest st in
  let! r := link_newest (lz_win st) (lz_hashtab st) (lz_winpos st) hash in
  let '(w, h) := r in
  let! d := array_set (lz_data st) (lz_winpos st) c in
  Ok (LZ77 w d (Z.land (lz_winpos st + 1) (WINSIZE - 1)) h (lz_pending st) (lz_npending st)).

(** [CHARAT(k)]: a character of the window for negative [k], of the input otherwise. *)
Definition CHARAT (st : LZ77InternalContext) (data : list Z) (k : Z) : res Z :=
  if k <? 0 then array_get (lz_data st) (Z.land (lz_winpos st + k) (WINSIZE - 1))
  else array_get data k.

(** [for (j = i; j < npending; j++) pending[j - i] = pending[j]], [n] rounds from [j]. *)
Fixpoint shift_pending (pending : list Z) (i j : Z) (n : nat) : res (list Z) :=
  match n with
  | O => Ok pending
  | S n =>
      let! x := array_get pending j in
      let! pending := array_set pending (j - i) x in
      shift_pending pending i (j + 1) n
  end.

(** The first loop: characters kept back by the previous call enter the window.
    Returns [i] at its end. *)
Fixpoint flush_pending (fuel : nat) (st : LZ77InternalContext) (data : list Z) (i : Z)
  : res (LZ77InternalContext * Z) :=
  if i <? lz_npending st then
    match fuel with
    | O => Crash OutOfFuel
    | S fuel =>
        if zlen data + lz_npending st - i <? HASHCHARS then
          let! p := shift_pending (lz_pending st) i i (Z.to_nat (lz_npending st - i)) in
          Ok (set_pending st p (lz_npending st), i)
        else
          let foo j := if i + j <? lz_npending st then array_get (lz_pending st) (i + j)
                       else array_get data (i + j - lz_npending st) in
          let! f0 := foo 0 in
          let! f1 := foo 1 in
          let! f2 := foo 2 in
          let! hash := lz77_hash [f0; f1; f2] in
          let! st := lz77_advance st f0 hash in
          flush_pending fuel st data (i + 1)
    end
  else Ok (st, i).

(** [for (i = 0; i < HASHCHARS; i++) if (CHARAT(i) != CHARAT(i - distance)) break;]
    from [i] on, [n] rounds: whether the loop ran to its end. *)
Fixpoint chars_match (st : LZ77InternalContext) (data : list Z) (distance i : Z) (n : nat) : res bool :=
  match n with
  | O => Ok true
  | S n =>
      let! a := CHARAT st data i in
      let! b := CHARAT st data (i - distance) in
      if negb (a =? b) then Ok false else chars_match st data distance (i + 1) n
  end.

(** The walk along a hash chain; [matches] so far. *)
Fixpoint find_matches (fuel : nat) (st : LZ77InternalContext) (data : list Z) (off : Z)
  (matches : list Match) : res (list Match) :=
  if off =? INVALID then Ok matches
  else
    match fuel with
    | O => Crash OutOfFuel
    | S fuel =>
        let distance := WINSIZE - (off + WINSIZE - lz_winpos st) mod WINSIZE in
        let! m := chars_match st data distance 0 (Z.to_nat HASHCHARS) in
        let matches' := if m : bool then matches ++ [MkMatch distance 3] else matches in
        if m && (MAXMATCH <=? zlen matches') then Ok matches'
        else
          let! e := array_get (lz_win st) off in
          find_matches fuel st data (we_next e) matches'
    end.

(** The matches that go on for one more character. *)
Fixpoint longer_matches (st : LZ77InternalContext) (data : list Z) (matchlen : Z)
  (matches : list Match) : res (list Match) :=
  match matches with
  | [] => Ok []
  | m :: matches =>
      let! a := CHARAT st data matchlen in
      let! b := CHARAT st data (matchlen - m_distance m) in
      let! rest := longer_matches st data matchlen matches in
      Ok (if a =? b then m :: rest else rest)
  end.

(** [while (matchlen < len)]: the longest matches, and their length. *)
Fixpoint longest_matches (fuel : nat) (st : LZ77InternalContext) (data : list Z)
  (matches : list Match) (matchlen : Z) : res (list Match * Z) :=
  if matchlen <? zlen data then
    match fuel with
    | O => Crash OutOfFuel
    | S fuel =>
        let! longer := longer_matches st data matchlen matches in
        match longer with
        | [] => Ok (matches, matchlen)
        | _ => longest_matches fuel st data longer (matchlen + 1)
        end
    end
  else Ok (matches, matchlen).

(** [while (advance > 0)] *)
Fixpoint advance_loop (st : LZ77InternalContext) (data : list Z) (advance : nat) {struct advance}
  : res (LZ77InternalContext * list Z) :=
  match advance with
  | O => Ok (st, data)
  | S advance =>
      match data with
      | [] => Crash UndefinedBehaviour
      | c :: rest =>
          let! st :=
            if HASHCHARS <=? zlen data then
              let! hash := lz77_hash data in lz77_advance st c hash
            else
              c_assert (lz_npending st <? HASHCHARS) (
                let! p := array_set (lz_pending st) (lz_npending st) c in
                Ok (set_pending st p (lz_npending st + 1))) in
          advance_loop st rest advance
      end
  end.

Section compress.
Context {U : Type} `{LZ77Context U}.

(** What to do at one position, given the matches found there: the output, the
    deferred match and character, and by how much to advance. *)
Definition lz77_choose (st : LZ77InternalContext) (u : U) (data : list Z) (matches : list Match)
  (defermatch : Match) (deferchr : Z) : res (U * Match * Z * Z) :=
  match matches with
  | _ :: _ =>
      let! r := longest_matches (length data) st data matches HASHCHARS in
      let '(matches, matchlen) := r in
      let! m0 := array_get matches 0 in
      let m0 := MkMatch (m_distance m0) matchlen in
      let! c := array_get data 0 in
      if 0 <? m_len defermatch then
        if m_len defermatch + 1 <? m_len m0 then
          let! u := literal u deferchr in Ok (u, m0, c, 1)
        else
          let! u := output_match u (m_distance defermatch) (m_len defermatch) in
          Ok (u, MkMatch (m_distance defermatch) 0, deferchr, m_len defermatch - 1)
      else Ok (u, m0, c, 1)
  | [] =>
      if 0 <? m_len defermatch then
        let! u := output_match u (m_distance defermatch) (m_len defermatch) in
        Ok (u, MkMatch (m_distance defermatch) 0, deferchr, m_len defermatch - 1)
      else
        let! c := array_get data 0 in
        let! u := literal u c in Ok (u, defermatch, deferchr, 1)
  end.

Definition lz77_search (st : LZ77InternalContext) (data : list Z) : res (list Match) :=
  if HASHCHARS <=? zlen data then
    let! hash := lz77_hash data in
    let! first := array_get (lz_hashtab st) hash in
    find_matches (S (length (lz_win st))) st data first []
  else Ok [].

Fixpoint lz77_loop (fuel : nat) (st : LZ77InternalContext) (u : U) (data : list Z)
  (defermatch : Match) (deferchr : Z) : res (LZ77InternalContext * U) :=
  if 0 <? zlen data then
    match fuel with
    | O => Crash OutOfFuel
    | S fuel =>
        let! matches := lz77_search st data in
        let! r := lz77_choose st u data matches defermatch deferchr in
        let '(u, defermatch, deferchr, advance) := r in
        let! r := advance_loop st data (Z.to_nat advance) in
        let '(st, data) := r in
        lz77_loop fuel st u data defermatch deferchr
    end
  else Ok (st, u).

Definition lz77_compress (st : LZ77InternalContext) (u : U) (data : list Z)
  : res (LZ77InternalContext * U) :=
  c_assert (lz_npending st <=? HASHCHARS) (
    let! r := flush_pending (Z.to_nat (lz_npending st)) st data 0 in
    let '(st, i) := r in
    let st := set_pending st (lz_pending st) (lz_npending st - i) in
    lz77_loop (length data) st u data (MkMatch 0 0) 0).
End compress.

(** ** Lemmas on arrays *)

Section arrays.
Context {A : Type}.
Implicit Types a : list A.

Lemma array_get_ok a i x : 0 <= i -> a !! Z.to_nat i = Some x -> array_get a i = Ok x.
Proof. intros Hi E. unfold array_get. rewrite (proj2 (Z.leb_le _ _)) by lia. by rewrite E. Qed.

Lemma array_get_total a i :
  0 <= i < zlen a -> exists x, array_get a i = Ok x /\ a !! Z.to_nat i = Some x.
Proof.
  intros Hi. destruct (lookup_lt_is_Some_2 a (Z.to_nat i)) as [x Hx]; [lia|].
  exists x. split; [|done]. apply array_get_ok; [lia|done].
Qed.

Lemma array_get_inv a i x : array_get a i = Ok x -> 0 <= i < zlen a /\ a !! Z.to_nat i = Some x.
Proof.
  unfold array_get. destruct (Z.leb_spec 0 i); [|done]. destruct (a !! Z.to_nat i) eqn:E; [|done].
  intros [= ->]. split; [|done]. apply lookup_lt_Some in E. lia.
Qed.

Lemma array_get_lookup `{Inhabited A} a i : 0 <= i < zlen a -> array_get a i = Ok (a !!! Z.to_nat i).
Proof.
  intros Hi. destruct (array_get_total a i Hi) as (x & -> & E). by rewrite (list_lookup_total_correct _ _ _ E).
Qed.

Lemma array_set_ok a i x : 0 <= i < zlen a -> array_set a i x = Ok (<[Z.to_nat i := x]> a).
Proof.
  intros Hi. unfold array_set. rewrite (proj2 (Z.leb_le _ _)) by lia. by rewrite (proj2 (Z.ltb_lt _ _)) by lia.
Qed.

Lemma zlen_insert a i x : zlen (<[i := x]> a) = zlen a.
Proof. by rewrite length_insert. Qed.
End arrays.

Lemma land_window x : Z.land x (WINSIZE - 1) = x mod WINSIZE.
Proof. change (WINSIZE - 1) with (Z.ones 15). by rewrite Z.land_ones by lia. Qed.

Lemma window_mod x : 0 <= x mod WINSIZE < WINSIZE.
Proof. by apply Z.mod_pos_bound. Qed.
