(* ===== verification/Lz77Spec.v ===== *)
(** * What the LZ77 code does

    The hash chains of the window always list the positions with each hash, newest
    first; so the search is safe and ends.  Whatever the search finds, decoding the
    literals and matches that are output gives the input back. *)

From S2P Require Import Prelude Lz77.
Local Open Scope cmodel_scope.
Local Open Scope Z_scope.

Local Opaque WINSIZE HASHMAX.

Lemma WINSIZE_eq : WINSIZE = 32768.
Proof. done. Qed.

(** ** Hash chains *)

(** The history: the window positions in use with their hashes, newest first. *)
Notation history := (list (Z * Z)).

Definition chain (h : Z) (hist : history) : list Z := (filter (fun e => e.2 = h) hist).*1.

(** The entries of a chain are linked both ways. *)
Fixpoint chain_ok (win : list WindowEntry) (h prev : Z) (ps : list Z) : Prop :=
  match ps with
  | [] => True
  | p :: ps => win !! Z.to_nat p = Some (WEntry (hd INVALID ps) prev h) /\ chain_ok win h p ps
  end.

Definition chains_ok (win : list WindowEntry) (tab : list Z) (hist : history) : Prop :=
  forall h, 0 <= h < HASHMAX ->
    tab !! Z.to_nat h = Some (hd INVALID (chain h hist)) /\ chain_ok win h INVALID (chain h hist).

Definition history_ok (winpos : Z) (hist : history) : Prop :=
  zlen hist <= WINSIZE /\
  forall i p h, hist !! i = Some (p, h) -> p = (winpos - 1 - Z.of_nat i) mod WINSIZE /\ 0 <= h < HASHMAX.

Record lz_chains (st : LZ77InternalContext) (hist : history) : Prop := {
  ch_win : zlen (lz_win st) = WINSIZE;
  ch_data : zlen (lz_data st) = WINSIZE;
  ch_pos : 0 <= lz_winpos st < WINSIZE;
  ch_tab : zlen (lz_hashtab st) = HASHMAX;
  ch_hist : history_ok (lz_winpos st) hist;
  ch_chains : chains_ok (lz_win st) (lz_hashtab st) hist;
  ch_unused : forall p, 0 <= p < WINSIZE -> p ∉ hist.*1 ->
    lz_win st !! Z.to_nat p = Some (WEntry INVALID INVALID INVALID)
}.

Lemma history_range winpos hist p :
  history_ok winpos hist -> p ∈ hist.*1 -> 0 <= p < WINSIZE.
Proof.
  intros [_ H] Hp. apply list_elem_of_fmap in Hp as ([p' h] & -> & Hi).
  apply list_elem_of_lookup in Hi as [i Hi]. apply H in Hi as [-> _]. apply window_mod.
Qed.

(** Positions that differ by less than the size of the window are different. *)
Lemma window_mod_inj x y : x mod WINSIZE = y mod WINSIZE -> - WINSIZE < x - y < WINSIZE -> x = y.
Proof.
  intros E Hd. rewrite WINSIZE_eq in *. Z.div_mod_to_equations. lia.
Qed.

Lemma history_NoDup winpos hist : history_ok winpos hist -> NoDup hist.*1.
Proof.
  intros [Hl H]. apply NoDup_alt. intros i j p Hi Hj.
  apply list_lookup_fmap_Some in Hi as ([q h] & Eq & Hi). apply list_lookup_fmap_Some in Hj as ([p' h'] & E & Hj).
  cbn in E, Eq. subst p q. pose proof (lookup_lt_Some _ _ _ Hi). pose proof (lookup_lt_Some _ _ _ Hj).
  apply H in Hi as [Ei _]. apply H in Hj as [Ej _]. rewrite Ei in Ej.
  apply window_mod_inj in Ej; lia.
Qed.

Lemma chain_cons h p h' hist :
  chain h ((p, h') :: hist) = if decide (h' = h) then p :: chain h hist else chain h hist.
Proof. unfold chain. rewrite filter_cons. cbn. by destruct (decide (h' = h)). Qed.

Lemma chain_snoc h hist p h' :
  chain h (hist ++ [(p, h')]) = if decide (h' = h) then chain h hist ++ [p] else chain h hist.
Proof.
  unfold chain. rewrite filter_app, filter_cons, filter_nil. cbn.
  destruct (decide (h' = h)); [by rewrite fmap_app|by rewrite app_nil_r].
Qed.

Lemma chain_elem h hist p : p ∈ chain h hist -> p ∈ hist.*1.
Proof.
  unfold chain. rewrite !list_elem_of_fmap. intros (e & -> & He%list_elem_of_filter). exists e. naive_solver.
Qed.

Lemma chain_NoDup h hist : NoDup hist.*1 -> NoDup (chain h hist).
Proof.
  induction hist as [|[p h'] hist IH]; intros Hn; [constructor|].
  apply NoDup_cons in Hn as [Hp Hn]. rewrite chain_cons. destruct (decide (h' = h)); [|by apply IH].
  apply NoDup_cons. split; [|by apply IH]. intros Hi%chain_elem. done.
Qed.

(** Different chains share no position. *)
Lemma chain_disjoint h h' hist p :
  NoDup hist.*1 -> p ∈ chain h hist -> p ∈ chain h' hist -> h = h'.
Proof.
  induction hist as [|[q k] hist IH]; intros Hn Hp Hp'; [by apply elem_of_nil in Hp|].
  apply NoDup_cons in Hn as [Hq Hn]. rewrite chain_cons in Hp, Hp'.
  destruct (decide (k = h)), (decide (k = h')); subst; try done.
  - apply elem_of_cons in Hp as [->|Hp]; [by apply chain_elem in Hp'|by apply IH].
  - apply elem_of_cons in Hp' as [->|Hp']; [by apply chain_elem in Hp|by apply IH].
  - by apply IH.
Qed.

(** Writing elsewhere leaves a chain as it is. *)
Lemma chain_ok_insert win h prev ps q e :
  Forall (fun p => 0 <= p) ps -> 0 <= q -> q ∉ ps ->
  chain_ok win h prev ps -> chain_ok (<[Z.to_nat q := e]> win) h prev ps.
Proof.
  intros Hps Hq. revert prev. induction Hps as [|p ps Hp Hps IH]; intros prev Hn Hc; [done|].
  apply not_elem_of_cons in Hn as [Hne Hn]. destruct Hc as [E Hc]. split; [|by apply IH].
  rewrite list_lookup_insert_ne; [done|lia].
Qed.

(** Cutting the last element off a chain with another one before it. *)
Lemma chain_ok_cut win h prev ps q p :
  Forall (fun p => 0 <= p) (ps ++ [q; p]) -> NoDup (ps ++ [q; p]) ->
  (forall i, i ∈ ps ++ [q; p] -> i < zlen win) ->
  chain_ok win h prev (ps ++ [q; p]) ->
  exists e, win !! Z.to_nat p = Some (WEntry INVALID q h) /\ win !! Z.to_nat q = Some (WEntry p e h) /\
    chain_ok (<[Z.to_nat q := WEntry INVALID e h]> win) h prev (ps ++ [q]).
Proof.
  revert prev. induction ps as [|x ps IH]; intros prev Hpos Hn Hb Hc.
  - cbn in *. destruct Hc as (Hq & Hp & _). exists prev. do 2 (split; [done|]). split; [|done].
    rewrite list_lookup_insert_eq; [done|]. specialize (Hb q ltac:(set_solver)). inversion Hpos; lia.
  - cbn [app chain_ok] in *. inversion Hpos as [|?? Hx Hpos']; subst. apply NoDup_cons in Hn as [Hxn Hn].
    destruct Hc as [Ex Hc]. destruct (IH x) as (e & Ep & Eq & Hok); [done|done|set_solver|done|].
    exists e. do 2 (split; [done|]). split; [|done].
    assert (Hxq : x <> q) by (intros ->; apply Hxn; set_solver).
    assert (0 <= q) by (rewrite Forall_forall in Hpos'; apply Hpos'; set_solver).
    rewrite list_lookup_insert_ne by lia. rewrite Ex. by destruct ps.
Qed.

Lemma history_pos winpos hist : history_ok winpos hist -> forall h, Forall (fun p => 0 <= p) (chain h hist).
Proof.
  intros H h. apply Forall_forall. intros p Hp%chain_elem. apply (history_range _ _ _ H) in Hp. lia.
Qed.

Lemma rev_ind_or_nil_chain (l : list Z) : l = [] \/ exists l' x, l = l' ++ [x].
Proof. induction l using rev_ind; eauto. Qed.

(** The history without the position that is about to be overwritten. *)
Definition recent (hist : history) : history := take (Z.to_nat (WINSIZE - 1)) hist.

Lemma recent_full winpos hist :
  history_ok winpos hist -> 0 <= winpos < WINSIZE -> zlen hist = WINSIZE ->
  exists h, 0 <= h < HASHMAX /\ hist = recent hist ++ [(winpos, h)].
Proof.
  intros [_ H] Hw Hl. rewrite WINSIZE_eq in Hw. destruct (lookup_lt_is_Some_2 hist (Z.to_nat (WINSIZE - 1))) as [[p h] E].
  { rewrite WINSIZE_eq in *. lia. }
  pose proof (H _ _ _ E) as [Hp Hh]. exists h. split; [done|]. unfold recent.
  rewrite <-(take_drop (Z.to_nat (WINSIZE - 1)) hist) at 1. f_equal.
  rewrite (drop_S _ _ _ E). f_equal.
  - f_equal. rewrite Hp. rewrite WINSIZE_eq. Z.div_mod_to_equations. lia.
  - apply drop_ge. rewrite WINSIZE_eq in *. lia.
Qed.

Lemma recent_same hist : zlen hist < WINSIZE -> recent hist = hist.
Proof. intros H. unfold recent. apply take_ge. lia. Qed.

Lemma recent_fresh winpos hist :
  history_ok winpos hist -> 0 <= winpos < WINSIZE -> winpos ∉ (recent hist).*1.
Proof.
  intros [Hl H] Hw (e & -> & He)%list_elem_of_fmap. apply list_elem_of_lookup in He as [i Hi].
  unfold recent in Hi. apply lookup_take_Some in Hi as [Hi Hlt]. destruct e as [p h].
  apply H in Hi as [Hp _]. cbn in Hw, Hp. rewrite WINSIZE_eq in *. Z.div_mod_to_equations. lia.
Qed.

Lemma recent_elem hist p : p ∈ (recent hist).*1 -> p ∈ hist.*1.
Proof.
  rewrite !list_elem_of_fmap. intros (e & -> & He). exists e. split; [done|].
  unfold recent in He. apply (elem_of_submseteq _ hist) in He; [done|]. apply sublist_submseteq, sublist_take.
Qed.

Lemma recent_NoDup winpos hist : history_ok winpos hist -> NoDup (recent hist).*1.
Proof.
  intros H%history_NoDup. unfold recent. rewrite fmap_take.
  by apply (sublist_NoDup _ hist.*1), sublist_take.
Qed.

(** After it, the chains are those of the remaining positions. *)
Lemma drop_oldest_ok st hist :
  lz_chains st hist ->
  exists w tab, drop_oldest st = Ok (set_hashtab (set_win st w) tab) /\
    zlen w = WINSIZE /\ zlen tab = HASHMAX /\ chains_ok w tab (recent hist) /\
    (forall p, 0 <= p < WINSIZE -> p ∉ hist.*1 -> w !! Z.to_nat p = lz_win st !! Z.to_nat p).
Proof.
  intros [Hwl Hd Hp Htl Hh Hc Hu]. unfold drop_oldest.
  assert (Hsame : st = set_hashtab (set_win st (lz_win st)) (lz_hashtab st)) by by destruct st.
  pose proof (history_NoDup _ _ Hh) as Hnd.
  destruct (Z.lt_ge_cases (zlen hist) WINSIZE) as [Hlt|Hge].
  { rewrite (recent_same _ Hlt). pose proof (recent_fresh _ _ Hh Hp) as Hf.
    rewrite (recent_same _ Hlt) in Hf. rewrite (array_get_ok _ _ _ (proj1 Hp) (Hu _ Hp Hf)).
    cbn [res_bind we_prev we_hashval]. exists (lz_win st), (lz_hashtab st). by rewrite <-Hsame. }
  destruct Hh as [Hle Hh']. assert (Hh : history_ok (lz_winpos st) hist) by done.
  destruct (recent_full _ _ Hh Hp) as (h & Hhr & E); [lia|].
  pose proof (Hc h Hhr) as [Htab Hch]. rewrite E, chain_snoc, decide_True in Hch, Htab by done.
  set (r := recent hist) in *.
  assert (Hother : forall k, 0 <= k < HASHMAX -> k <> h -> chain k hist = chain k r).
  { intros k _ Hk. rewrite E at 1. rewrite chain_snoc, decide_False by done. done. }
  destruct (rev_ind_or_nil_chain (chain h r)) as [Hnil|(l & q & Hl)].
  - rewrite Hnil in Hch, Htab. destruct Hch as [Ep _]. cbn in Htab.
    rewrite (array_get_ok _ _ _ (proj1 Hp) Ep). cbn [res_bind we_prev we_hashval].
    rewrite (proj2 (Z.eqb_neq h INVALID)) by (unfold INVALID; lia). cbn [negb Z.eqb INVALID].
    change (INVALID =? INVALID) with true. cbn [negb].
    rewrite array_set_ok by lia. exists (lz_win st), (<[Z.to_nat h := INVALID]> (lz_hashtab st)).
    cbn [res_bind]. split_and!; [by destruct st|done|by rewrite zlen_insert| |done].
    intros k Hk. destruct (decide (k = h)) as [->|Hne].
    + rewrite Hnil. cbn. rewrite list_lookup_insert_eq by lia. done.
    + rewrite list_lookup_insert_ne by lia. rewrite <-Hother by done. by apply Hc.
  - rewrite Hl, <-app_assoc in Hch, Htab.
    assert (Hall : chain h hist = l ++ [q; lz_winpos st]).
    { rewrite E, chain_snoc, decide_True, Hl, <-app_assoc by done. done. }
    assert (Hin : forall x, x ∈ l ++ [q; lz_winpos st] -> 0 <= x < WINSIZE).
    { intros x Hx. rewrite <-Hall in Hx. apply chain_elem in Hx. by apply (history_range _ _ _ Hh). }
    destruct (chain_ok_cut (lz_win st) h INVALID l q (lz_winpos st)) as (e & Ep & Eq & Hok).
    { apply Forall_forall. intros x Hx. apply Hin in Hx. lia. }
    { rewrite <-Hall. by apply chain_NoDup. }
    { intros x Hx. apply Hin in Hx. lia. }
    { done. }
    assert (Hq : 0 <= q < WINSIZE) by (apply Hin; set_solver).
    rewrite (array_get_ok _ _ _ (proj1 Hp) Ep). cbn [res_bind we_prev we_hashval].
    rewrite (proj2 (Z.eqb_neq q INVALID)) by (unfold INVALID; lia). cbn [negb].
    rewrite (array_get_ok _ _ _ (proj1 Hq) Eq). cbn [res_bind we_prev we_hashval].
    rewrite array_set_ok by lia. exists (<[Z.to_nat q := WEntry INVALID e h]> (lz_win st)), (lz_hashtab st). cbn [res_bind].
    split_and!; [reflexivity|by rewrite zlen_insert|done| |].
    + intros k Hk. destruct (decide (k = h)) as [->|Hne].
      * rewrite Hl. split; [|done]. rewrite Htab. by destruct l.
      * rewrite <-Hother by done. destruct (Hc k Hk) as [? Hck]. split; [done|].
        apply chain_ok_insert; [by apply (history_pos _ _ Hh)|lia| |done].
        intros Hqk. apply Hne. apply (chain_disjoint _ _ hist q); [done|done|].
        rewrite Hall. set_solver.
    + intros p Hpr Hpn. rewrite list_lookup_insert_ne; [done|]. intros Heq.
      apply Hpn. assert (p = q) as -> by lia. apply (chain_elem h). rewrite Hall. set_solver.
Qed.

Lemma link_newest_ok w tab hist p hash :
  zlen w = WINSIZE -> zlen tab = HASHMAX -> 0 <= p < WINSIZE -> 0 <= hash < HASHMAX ->
  chains_ok w tab hist -> NoDup hist.*1 -> p ∉ hist.*1 -> (forall q, q ∈ hist.*1 -> 0 <= q < WINSIZE) ->
  exists w' tab', link_newest w tab p hash = Ok (w', tab') /\
    zlen w' = WINSIZE /\ zlen tab' = HASHMAX /\ chains_ok w' tab' ((p, hash) :: hist) /\
    (forall q, 0 <= q < WINSIZE -> q <> p -> q ∉ hist.*1 -> w' !! Z.to_nat q = w !! Z.to_nat q).
Proof.
  intros Hw Ht Hp Hh Hc Hnd Hfresh Hr. unfold link_newest.
  destruct (Hc hash Hh) as [Htab Hch]. rewrite (array_get_ok _ _ _ (proj1 Hh) Htab).
  cbn [res_bind]. rewrite !array_set_ok by lia. cbn [res_bind].
  set (off := hd INVALID (chain hash hist)). set (w1 := <[Z.to_nat p := WEntry off INVALID hash]> w).
  assert (Hw1 : w1 !! Z.to_nat p = Some (WEntry off INVALID hash)) by (apply list_lookup_insert_eq; lia).
  assert (Hpos : forall k, Forall (fun q => 0 <= q) (chain k hist)).
  { intros k. apply Forall_forall. intros q Hq%chain_elem. apply Hr in Hq. lia. }
  assert (Hpn : forall k, p ∉ chain k hist) by (intros k Hk%chain_elem; done).
  assert (Htab' : forall k, 0 <= k < HASHMAX ->
    <[Z.to_nat hash := p]> tab !! Z.to_nat k = Some (hd INVALID (chain k ((p, hash) :: hist)))).
  { intros k Hk. rewrite chain_cons. destruct (decide (hash = k)) as [->|Hne].
    - rewrite list_lookup_insert_eq by lia. done.
    - rewrite list_lookup_insert_ne by lia. by apply Hc. }
  assert (Hfr : forall k, 0 <= k < HASHMAX -> chain_ok w1 k INVALID (chain k hist)).
  { intros k Hk. apply chain_ok_insert; [done|lia|done|by apply Hc]. }
  destruct (chain hash hist) as [|o ps] eqn:Ech.
  - cbn in off. subst off. change (INVALID =? INVALID) with true. cbn [negb res_bind].
    eexists _, _. split; [reflexivity|]. unfold w1 at 1. rewrite !zlen_insert. do 2 (split; [done|]). split.
    + intros k Hk. split; [by apply Htab'|]. rewrite chain_cons. destruct (decide (hash = k)) as [<-|]; [|by apply Hfr].
      rewrite Ech. by split.
    + intros q Hq Hne _. unfold w1. rewrite list_lookup_insert_ne by lia. done.
  - cbn in off. subst off. assert (Ho : o ∈ hist.*1) by (apply (chain_elem hash); rewrite Ech; set_solver).
    pose proof (Hr o Ho) as Hor. rewrite (proj2 (Z.eqb_neq o INVALID)) by (unfold INVALID; lia). cbn [negb].
    pose proof (Hfr hash Hh) as Hold. rewrite Ech in Hold. destruct Hold as [Eo Hrest].
    rewrite (array_get_ok _ _ _ (proj1 Hor) Eo). cbn [res_bind we_next we_hashval].
    rewrite array_set_ok by (unfold w1; rewrite zlen_insert; lia). cbn [res_bind].
    eexists _, _. split; [reflexivity|]. unfold w1 at 1. rewrite !zlen_insert. do 2 (split; [done|]).
    pose proof (chain_NoDup hash hist Hnd) as Hndc. rewrite Ech in Hndc. apply NoDup_cons in Hndc as [Hops _].
    pose proof (Hpos hash) as Hps. rewrite Ech in Hps. inversion Hps; subst.
    assert (Hpo : p <> o) by (intros ->; done). split.
    + intros k Hk. split; [by apply Htab'|]. rewrite chain_cons. destruct (decide (hash = k)) as [<-|Hne].
      * rewrite Ech. cbn [chain_ok hd]. rewrite list_lookup_insert_ne by lia. split; [done|].
        rewrite list_lookup_insert_eq by (unfold w1; rewrite length_insert; lia). split; [done|].
        by apply chain_ok_insert.
      * apply chain_ok_insert; [done|lia| |by apply Hfr]. intros Hok. apply Hne.
        apply (chain_disjoint _ _ hist o); [done| |done]. rewrite Ech. set_solver.
    + intros q Hq Hqp Hqn. assert (q <> o) by (intros ->; done). unfold w1.
      rewrite !list_lookup_insert_ne by lia. done.
Qed.

(** ** Windows *)

(** The characters of a window and where the next one goes. *)
Notation window := (list Z * Z)%type.
Definition win_ok (W : window) : Prop := zlen W.1 = WINSIZE /\ 0 <= W.2 < WINSIZE.
Definition emit (W : window) (c : Z) : window := (<[Z.to_nat W.2 := c]> W.1, (W.2 + 1) mod WINSIZE).
Definition emits (W : window) (cs : list Z) : window := foldl emit W cs.
(** The character [k] places back. *)
Definition char_back (W : window) (k : Z) : Z := W.1 !!! Z.to_nat ((W.2 - k) mod WINSIZE).

Lemma emit_ok W c : win_ok W -> win_ok (emit W c).
Proof. intros [Hl _]. split; cbn; [by rewrite zlen_insert|apply window_mod]. Qed.

Lemma emits_ok W cs : win_ok W -> win_ok (emits W cs).
Proof. revert W. induction cs; intros W H; [done|]. cbn. by apply IHcs, emit_ok. Qed.

Lemma emits_app W cs ds : emits W (cs ++ ds) = emits (emits W cs) ds.
Proof. apply foldl_app. Qed.

Lemma char_back_new W c : win_ok W -> char_back (emit W c) 1 = c.
Proof.
  intros [Hl Hp]. unfold char_back, emit. cbn.
  replace (((W.2 + 1) mod WINSIZE - 1) mod WINSIZE) with W.2.
  - apply list_lookup_total_insert_eq. lia.
  - rewrite WINSIZE_eq in *. Z.div_mod_to_equations. lia.
Qed.

Lemma char_back_old W c k : win_ok W -> 1 < k <= WINSIZE -> char_back (emit W c) k = char_back W (k - 1).
Proof.
  intros [Hl Hp] Hk. unfold char_back, emit. cbn.
  replace (((W.2 + 1) mod WINSIZE - k) mod WINSIZE) with ((W.2 - (k - 1)) mod WINSIZE)
    by (rewrite WINSIZE_eq in *; Z.div_mod_to_equations; lia).
  apply list_lookup_total_insert_ne. rewrite WINSIZE_eq in *. Z.div_mod_to_equations. lia.
Qed.

Definition cur_window (st : LZ77InternalContext) : window := (lz_data st, lz_winpos st).

Lemma history_ok_cons winpos hist hash :
  history_ok winpos hist -> 0 <= winpos < WINSIZE -> 0 <= hash < HASHMAX ->
  history_ok ((winpos + 1) mod WINSIZE) ((winpos, hash) :: recent hist).
Proof.
  intros [Hl H] Hw Hh. split.
  - unfold recent. cbn [length]. rewrite length_take. rewrite WINSIZE_eq in *. lia.
  - intros [|i] p h E.
    + injection E as <- <-. split; [|done]. rewrite WINSIZE_eq in *. Z.div_mod_to_equations. lia.
    + cbn in E. unfold recent in E. apply lookup_take_Some in E as [E _]. apply H in E as [-> ?].
      split; [|done]. rewrite WINSIZE_eq in *. Z.div_mod_to_equations. lia.
Qed.

(** [lz77_advance] adds a character to the window and keeps the chains. *)
Lemma lz77_advance_ok st hist c hash :
  lz_chains st hist -> 0 <= hash < HASHMAX ->
  exists st', lz77_advance st c hash = Ok st' /\
    lz_chains st' ((lz_winpos st, hash) :: recent hist) /\
    cur_window st' = emit (cur_window st) c /\
    lz_pending st' = lz_pending st /\ lz_npending st' = lz_npending st.
Proof.
  intros Hst Hh. pose proof Hst as [Hwl Hd Hp Htl Hhist Hc Hu].
  destruct (drop_oldest_ok st hist Hst) as (w & tab & E & Hw & Ht & Hch & Hun).
  pose proof (recent_fresh _ _ Hhist Hp) as Hfresh.
  destruct (link_newest_ok w tab (recent hist) (lz_winpos st) hash)
    as (w' & tab' & E' & Hw' & Ht' & Hch' & Hun'); try done.
  { by apply (recent_NoDup (lz_winpos st)). }
  { intros q Hq%recent_elem. by apply (history_range _ _ _ Hhist). }
  assert (Heq : lz77_advance st c hash =
    Ok (LZ77 w' (<[Z.to_nat (lz_winpos st) := c]> (lz_data st)) (Z.land (lz_winpos st + 1) (WINSIZE - 1)) tab'
             (lz_pending st) (lz_npending st))).
  { unfold lz77_advance. rewrite E.
    cbn [res_bind lz_win lz_hashtab lz_winpos lz_data lz_pending lz_npending set_hashtab set_win].
    rewrite E'. cbn [res_bind fst snd]. by rewrite array_set_ok by lia. }
  eexists. split; [exact Heq|]. rewrite land_window. split; [|done].
  split; cbn [lz_win lz_data lz_winpos lz_hashtab]; try done.
  - by rewrite zlen_insert.
  - apply window_mod.
  - by apply history_ok_cons.
  - intros p Hpr Hpn. apply not_elem_of_cons in Hpn as [Hne Hpn]. cbn in Hne, Hpn.
    rewrite Hun' by done. destruct (decide (p ∈ hist.*1)) as [Hin|Hnin]; [|rewrite Hun by done; by apply Hu].
    exfalso. destruct (Z.lt_ge_cases (zlen hist) WINSIZE) as [Hlt|Hge].
    { by rewrite (recent_same _ Hlt) in Hpn. }
    destruct (recent_full _ _ Hhist Hp) as (h & _ & Ef); [destruct Hhist; lia|].
    rewrite Ef, fmap_app in Hin. cbn in Hin. set_solver.
Qed.

(** ** Matches *)

(** The character that a copy from distance [dist] puts at place [i]. *)
Definition src_char (W : window) (data : list Z) (dist i : Z) : Z :=
  if i <? dist then char_back W (dist - i) else data !!! Z.to_nat (i - dist).

(** The first [len] characters of [data] can be copied from distance [dist]. *)
Definition match_valid (W : window) (data : list Z) (dist len : Z) : Prop :=
  1 <= dist <= WINSIZE /\ 0 <= len <= zlen data /\
  forall i, 0 <= i < len -> data !!! Z.to_nat i = src_char W data dist i.

(** Copying, one character at a time. *)
Fixpoint copy_out (W : window) (dist : Z) (n : nat) : list Z :=
  match n with
  | O => []
  | S n => let c := char_back W dist in c :: copy_out (emit W c) dist n
  end.

Lemma match_valid_cons W c data dist len :
  win_ok W -> 1 <= len -> match_valid W (c :: data) dist len ->
  char_back W dist = c /\ match_valid (emit W c) data dist (len - 1).
Proof.
  intros HW Hlen (Hd & Hl & H). cbn [length] in Hl.
  assert (Hc : char_back W dist = c).
  { specialize (H 0 ltac:(lia)). unfold src_char in H. rewrite (proj2 (Z.ltb_lt _ _)) in H by lia.
    rewrite Z.sub_0_r in H. by cbn in H. }
  split; [done|]. split; [done|]. split; [lia|]. intros i Hi.
  specialize (H (i + 1) ltac:(lia)). unfold src_char in *.
  replace (Z.to_nat (i + 1)) with (S (Z.to_nat i)) in H by lia. change ((c :: data) !!! S (Z.to_nat i)) with (data !!! Z.to_nat i) in H. rewrite H.
  destruct (Z.ltb_spec (i + 1) dist), (Z.ltb_spec i dist); try lia.
  - rewrite char_back_old by (done || lia). f_equal. lia.
  - assert (dist = i + 1) as -> by lia. replace (i + 1 - i) with 1 by lia.
    rewrite char_back_new by done. by replace (Z.to_nat (i + 1 - (i + 1))) with O by lia.
  - replace (Z.to_nat (i + 1 - dist)) with (S (Z.to_nat (i - dist))) by lia. done.
Qed.

Lemma copy_valid W data dist len :
  win_ok W -> match_valid W data dist len -> copy_out W dist (Z.to_nat len) = take (Z.to_nat len) data.
Proof.
  intros HW Hm. assert (Hlen : 0 <= len) by (destruct Hm as (_ & ? & _); lia).
  revert W data HW Hm. pattern len. apply natlike_ind; [done| |done].
  clear len Hlen. intros len Hlen IH W data HW Hm. destruct data as [|c data].
  { destruct Hm as (_ & ? & _). cbn in *. lia. }
  apply match_valid_cons in Hm as [Hc Hm]; [|done|lia].
  rewrite Z2Nat.inj_succ by lia. cbn [copy_out take]. rewrite Hc. f_equal. apply IH.
  - by apply emit_ok.
  - by replace (Z.succ len - 1) with len in Hm by lia.
Qed.

Lemma forallb_ext' {A} (f g : A -> bool) l : (forall x, f x = g x) -> forallb f l = forallb g l.
Proof. intros H. induction l as [|x l IH]; [done|]. cbn. by rewrite H, IH. Qed.

Lemma forallb_fmap_comp {A B} (f : B -> bool) (g : A -> B) l : forallb f (g <$> l) = forallb (fun x => f (g x)) l.
Proof. induction l as [|x l IH]; [done|]. cbn. by rewrite IH. Qed.

(** What the code reads with [CHARAT]. *)
Section charat.
Context (st : LZ77InternalContext) (data : list Z).
Hypothesis Hst : win_ok (cur_window st).

Lemma CHARAT_window k : - WINSIZE <= k < 0 -> CHARAT st data k = Ok (char_back (cur_window st) (- k)).
Proof using Hst.
  destruct Hst as [Hl Hp]. cbn in Hl, Hp. intros Hk. unfold CHARAT.
  rewrite (proj2 (Z.ltb_lt _ _)) by lia. rewrite land_window. unfold char_back. cbn.
  pose proof (window_mod (lz_winpos st + k)). rewrite array_get_lookup by lia. do 4 f_equal. lia.
Qed.

Lemma CHARAT_data k : 0 <= k < zlen data -> CHARAT st data k = Ok (data !!! Z.to_nat k).
Proof. intros Hk. unfold CHARAT. rewrite (proj2 (Z.ltb_ge _ _)) by lia. by apply array_get_lookup. Qed.

Lemma CHARAT_src dist i :
  1 <= dist <= WINSIZE -> 0 <= i < zlen data ->
  CHARAT st data (i - dist) = Ok (src_char (cur_window st) data dist i).
Proof using Hst.
  intros Hd Hi. unfold src_char. destruct (Z.ltb_spec i dist).
  - rewrite CHARAT_window by lia. do 2 f_equal. lia.
  - by rewrite CHARAT_data by lia.
Qed.

Definition same_char (dist i : Z) : bool :=
  data !!! Z.to_nat i =? src_char (cur_window st) data dist i.

(** The comparison loop compares all characters. *)
Lemma chars_match_ok dist i n :
  1 <= dist <= WINSIZE -> 0 <= i -> i + Z.of_nat n <= zlen data ->
  chars_match st data dist i n = Ok (forallb (fun k => same_char dist (i + Z.of_nat k)) (seq 0 n)).
Proof using Hst.
  intros Hd. revert i. induction n as [|n IH]; intros i Hi Hn; [done|].
  cbn [chars_match]. rewrite CHARAT_data, CHARAT_src by lia. cbn [res_bind seq forallb].
  unfold same_char at 1. rewrite Z.add_0_r. destruct (_ =? _) eqn:E; cbn [negb andb]; [|done].
  rewrite IH by lia. f_equal. rewrite <-fmap_S_seq. rewrite forallb_fmap_comp. apply forallb_ext'.
  intros k. f_equal. lia.
Qed.

(** The reference: the distances of the given positions whose next characters are
    those of the input. *)
Definition distance_of (p : Z) : Z := WINSIZE - (p + WINSIZE - lz_winpos st) mod WINSIZE.

Definition candidates (ps : list Z) : list Match :=
  (fun p => MkMatch (distance_of p) 3) <$>
    filter (fun p => Is_true (forallb (fun k => same_char (distance_of p) (Z.of_nat k)) (seq 0 3))) ps.

Lemma distance_range p : 1 <= distance_of p <= WINSIZE.
Proof using. unfold distance_of. pose proof (window_mod (p + WINSIZE - lz_winpos st)). lia. Qed.

(** The walk along a chain finds the first 32 candidates. *)
Lemma find_matches_ok fuel h prev ps ms :
  3 <= zlen data -> chain_ok (lz_win st) h prev ps -> Forall (fun p => 0 <= p) ps ->
  (length ps <= fuel)%nat -> (length ms < 32)%nat ->
  find_matches fuel st data (hd INVALID ps) ms = Ok (take 32 (ms ++ candidates ps)).
Proof using Hst.
  intros Hlen Hc Hps. revert prev fuel ms Hc.
  induction Hps as [|p ps Hp Hps IH]; intros prev fuel ms Hc Hf Hm.
  { cbn [hd candidates]. assert (E : find_matches fuel st data INVALID ms = Ok ms) by by destruct fuel.
    rewrite E. rewrite app_nil_r, take_ge by lia. done. }
  destruct fuel as [|fuel]; [cbn in Hf; lia|]. destruct Hc as [Ep Hc]. cbn [hd find_matches].
  rewrite (proj2 (Z.eqb_neq p INVALID)) by (unfold INVALID; lia).
  fold (distance_of p). change (Z.to_nat HASHCHARS) with 3%nat.
  rewrite chars_match_ok by (pose proof (distance_range p); lia). cbn [res_bind].
  unfold candidates. rewrite filter_cons.
  rewrite (forallb_ext' (fun k => same_char (distance_of p) (0 + Z.of_nat k))
                        (fun k => same_char (distance_of p) (Z.of_nat k))) by done.
  destruct (forallb _ (seq 0 3)) eqn:Eb; cbn [andb].
  - rewrite decide_True by done. fold (candidates ps).
    destruct (Z.leb_spec MAXMATCH (zlen (ms ++ [MkMatch (distance_of p) 3]))) as [Hfull|Hroom].
    + f_equal. rewrite length_app in Hfull. cbn [length] in Hfull. unfold MAXMATCH in Hfull.
      cbn [fmap list_fmap]. rewrite (cons_middle _ ms (_ <$> _)), app_assoc.
      rewrite take_app_length' by (rewrite length_app; cbn; lia). done.
    + rewrite (array_get_ok _ _ _ Hp Ep). cbn [res_bind we_next].
      rewrite length_app in Hroom. unfold MAXMATCH in Hroom. cbn [length] in Hroom.
      rewrite (IH p) by (done || (try rewrite length_app); cbn in *; lia).
      cbn [fmap list_fmap]. fold (candidates ps). by rewrite <-app_assoc.
  - rewrite decide_False by (by intros []).
    rewrite (array_get_ok _ _ _ Hp Ep). cbn [res_bind we_next].
    by rewrite (IH p) by (done || cbn in *; lia).
Qed.

Lemma longer_matches_ok n ms :
  0 <= n < zlen data -> Forall (fun m => 1 <= m_distance m <= WINSIZE) ms ->
  longer_matches st data n ms = Ok (filter (fun m => Is_true (same_char (m_distance m) n)) ms).
Proof using Hst.
  intros Hn. induction 1 as [|m ms Hm Hms IH]; [done|]. cbn [longer_matches].
  rewrite CHARAT_data, CHARAT_src by lia. cbn [res_bind]. rewrite IH. cbn [res_bind]. rewrite filter_cons.
  fold (same_char (m_distance m) n). destruct (same_char _ _) eqn:E; [by rewrite decide_True|].
  by rewrite decide_False by (by intros []).
Qed.

Lemma match_valid_more dist n :
  0 <= n < zlen data -> match_valid (cur_window st) data dist n -> same_char dist n = true ->
  match_valid (cur_window st) data dist (n + 1).
Proof using.
  intros Hn (Hd & Hl & H) E. split; [done|]. split; [lia|]. intros i Hi.
  destruct (decide (i = n)) as [->|]; [|apply H; lia]. by apply Z.eqb_eq.
Qed.

(** Narrowing the matches down ends with valid matches of one length. *)
Lemma longest_matches_ok fuel ms n :
  0 <= n <= zlen data -> zlen data - n <= Z.of_nat fuel -> ms <> [] ->
  Forall (fun m => match_valid (cur_window st) data (m_distance m) n) ms ->
  exists m ms' n', longest_matches fuel st data ms n = Ok (m :: ms', n') /\ n <= n' /\
    match_valid (cur_window st) data (m_distance m) n'.
Proof using Hst.
  revert ms n. induction fuel as [|fuel IH]; intros ms n Hn Hf Hne Hv.
  - cbn [longest_matches]. rewrite (proj2 (Z.ltb_ge _ _)) by lia.
    destruct ms as [|m ms]; [done|]. inversion Hv; subst. eauto 10 with cmodel.
  - cbn [longest_matches]. destruct (Z.ltb_spec n (zlen data)) as [Hlt|Hge].
    + rewrite longer_matches_ok; [|lia|eapply Forall_impl; [exact Hv|by intros ? (? & ?)]].
      cbn [res_bind]. destruct (filter _ ms) as [|m l] eqn:E.
      { destruct ms as [|m ms]; [done|]. inversion Hv; subst. eauto 10 with cmodel. }
      destruct (IH (m :: l) (n + 1)) as (m' & ms' & n' & Eq & Hle & Hm'); [lia|lia|done| |].
      { rewrite <-E. apply Forall_forall. intros x [Hs Hx]%list_elem_of_filter.
        apply match_valid_more; [lia| |by apply Is_true_true]. rewrite Forall_forall in Hv. by apply Hv. }
      exists m', ms', n'. split; [done|]. split; [lia|done].
    + destruct ms as [|m ms]; [done|]. inversion Hv; subst. eauto 10 with cmodel.
Qed.

Lemma candidates_valid ps :
  3 <= zlen data -> Forall (fun m => match_valid (cur_window st) data (m_distance m) 3) (candidates ps).
Proof using.
  intros Hlen. apply Forall_forall. intros m (p & -> & [Hp _]%list_elem_of_filter)%list_elem_of_fmap.
  cbn [m_distance]. split; [apply distance_range|]. split; [lia|]. intros i Hi.
  apply Is_true_true in Hp. rewrite forallb_forall in Hp. specialize (Hp (Z.to_nat i)).
  rewrite Z2Nat.id in Hp by lia. apply Z.eqb_eq, Hp. apply in_seq. lia.
Qed.
End charat.

(** ** Tokens and their decoding *)

Inductive token := Lit (c : Z) | Copy (dist len : Z).

Fixpoint emit_tokens {U} `{LZ77Context U} (u : U) (ts : list token) : res U :=
  match ts with
  | [] => Ok u
  | Lit c :: ts => let! u := literal u c in emit_tokens u ts
  | Copy dist len :: ts => let! u := output_match u dist len in emit_tokens u ts
  end.

(** The characters that literals and matches stand for, after a given window. *)
Fixpoint decode (W : window) (ts : list token) : list Z :=
  match ts with
  | [] => []
  | Lit c :: ts => c :: decode (emit W c) ts
  | Copy dist len :: ts =>
      let cs := copy_out W dist (Z.to_nat len) in cs ++ decode (emits W cs) ts
  end.

Definition token_ok (t : token) : Prop :=
  match t with Lit c => is_byte c | Copy dist len => 1 <= dist <= WINSIZE /\ 3 <= len end.

Lemma decode_app W ts us : decode W (ts ++ us) = decode W ts ++ decode (emits W (decode W ts)) us.
Proof.
  revert W. induction ts as [|[c|d l] ts IH]; intros W; cbn; [done|by rewrite IH|].
  by rewrite IH, <-app_assoc, emits_app.
Qed.

Lemma emit_tokens_app {U} `{LZ77Context U} (u : U) ts us :
  emit_tokens u (ts ++ us) = let! u := emit_tokens u ts in emit_tokens u us.
Proof.
  revert u. induction ts as [|[c|d l] ts IH]; intros u; cbn; [done| |].
  - destruct (literal u c); cbn; [apply IH|done].
  - destruct (output_match u d l); cbn; [apply IH|done].
Qed.

(** ** The state between calls *)

Definition pending_chars (st : LZ77InternalContext) : list Z :=
  take (Z.to_nat (lz_npending st)) (lz_pending st).

(** The window as the receiver has it: with the characters that are still pending. *)
Definition full_window (st : LZ77InternalContext) : window := emits (cur_window st) (pending_chars st).

Record lz_ok (st : LZ77InternalContext) : Prop := {
  lk_chains : exists hist, lz_chains st hist;
  lk_pending : zlen (lz_pending st) = HASHCHARS;
  lk_npending : 0 <= lz_npending st <= 2
}.

(** The pending characters and what is to come are too few to hash, or none is pending. *)
Record ready (st : LZ77InternalContext) (data : list Z) : Prop := {
  rd_ok : lz_ok st;
  rd_room : lz_npending st = 0 \/ lz_npending st + zlen data <= 2
}.

Lemma lz_chains_pending st hist p n : lz_chains st hist -> lz_chains (set_pending st p n) hist.
Proof. by intros []; split. Qed.

Lemma lz_chains_window st hist : lz_chains st hist -> win_ok (cur_window st).
Proof. by intros []; split. Qed.

Lemma lz_ok_window st : lz_ok st -> win_ok (cur_window st).
Proof. intros [[hist H] _ _]. by apply (lz_chains_window _ hist). Qed.

Lemma lz77_hash_ok data :
  3 <= zlen data -> exists h, lz77_hash data = Ok h /\ 0 <= h < HASHMAX.
Proof.
  intros Hl. unfold lz77_hash. rewrite !array_get_lookup by lia. cbn [res_bind].
  eexists. split; [done|]. by apply Z.mod_pos_bound.
Qed.

(** *** The chains as a function of the input *)

(** The hash of three characters of the input [l]. *)
Definition trihash (l : list Z) (i : nat) : Z :=
  (257 * (l !!! i) + 263 * (l !!! S i) + 269 * (l !!! S (S i))) mod 2039.

(** The history after [n] characters of the input [l]: the window position and the hash
    of each, newest first, as many as there are positions. *)
Definition history_of (l : list Z) (n : nat) : history :=
  take (Z.to_nat WINSIZE) (reverse ((fun i : nat => (Z.of_nat i mod WINSIZE, trihash l i)) <$> seq 0 n)).

(** After a whole input: the last two characters cannot be hashed yet. *)
Definition window_history (l : list Z) : history := history_of l (length l - 2).

Definition start_window : window := (replicate (Z.to_nat WINSIZE) 0, 0).

(** The first [n] characters of [l] are in the window and in the chains. *)
Record tracked (st : LZ77InternalContext) (l : list Z) (n : nat) : Prop := {
  tr_chains : lz_chains st (history_of l n);
  tr_window : cur_window st = emits start_window (take n l);
  tr_hashed : n = O \/ (n + 2 <= length l)%nat
}.

(** Of the input [l], [data] is still to be taken: the rest is in the window or pending. *)
Definition at_input (st : LZ77InternalContext) (l data : list Z) : Prop :=
  exists n, tracked st l n /\ drop n l = pending_chars st ++ data.

Lemma history_of_S l n :
  history_of l (S n) = (Z.of_nat n mod WINSIZE, trihash l n) :: recent (history_of l n).
Proof.
  unfold history_of, recent. rewrite seq_S, fmap_app, reverse_app. cbn [fmap list_fmap reverse rev_append app].
  replace (Z.to_nat WINSIZE) with (S (Z.to_nat (WINSIZE - 1))) at 1 by (rewrite WINSIZE_eq; lia).
  cbn [app take Nat.add]. f_equal. rewrite take_take, Nat.min_l; [done|]. rewrite WINSIZE_eq. lia.
Qed.

Lemma history_of_app l more n :
  n = O \/ (n + 2 <= length l)%nat -> history_of (l ++ more) n = history_of l n.
Proof.
  intros Hn. unfold history_of. apply (f_equal (fun x => take (Z.to_nat WINSIZE) (reverse x))). apply list_fmap_ext. intros i x Hx.
  apply lookup_seq in Hx as [-> Hi]. unfold trihash. by rewrite !lookup_total_app_l by lia.
Qed.

Lemma emits_pos W cs : 0 <= W.2 < WINSIZE -> (emits W cs).2 = (W.2 + zlen cs) mod WINSIZE.
Proof.
  revert W. induction cs as [|c cs IH]; intros W HW.
  { cbn. rewrite Z.mod_small; lia. }
  cbn [emits foldl]. fold (emits (emit W c) cs). rewrite IH by (cbn; apply window_mod). cbn [emit snd length].
  rewrite Zplus_mod_idemp_l. f_equal. lia.
Qed.

Lemma tracked_bound st l n : tracked st l n -> (n <= length l)%nat.
Proof. intros [_ _ [->|?]]; lia. Qed.

Lemma tracked_app st l more n : tracked st l n -> tracked st (l ++ more) n.
Proof.
  intros Ht. pose proof (tracked_bound _ _ _ Ht). destruct Ht as [Hc Hw Hn]. split.
  - by rewrite history_of_app.
  - by rewrite take_app_le by lia.
  - rewrite length_app. lia.
Qed.

Lemma tracked_pending st l n p k : tracked st l n -> tracked (set_pending st p k) l n.
Proof. intros [Hc Hw Hn]. split; [by apply lz_chains_pending|done|done]. Qed.

Lemma trihash_range l n : 0 <= trihash l n < HASHMAX.
Proof. by apply Z.mod_pos_bound. Qed.

Lemma hash_at l n f0 f1 f2 rest :
  l !! n = Some f0 -> l !! S n = Some f1 -> l !! S (S n) = Some f2 ->
  lz77_hash (f0 :: f1 :: f2 :: rest) = Ok (trihash l n).
Proof. intros E0 E1 E2. unfold trihash. by rewrite !(list_lookup_total_correct _ _ _ E0), (list_lookup_total_correct _ _ _ E1), (list_lookup_total_correct _ _ _ E2). Qed.

(** One more character with its hash. *)
Lemma tracked_advance st st' l n c :
  tracked st l n -> l !! n = Some c -> (n + 3 <= length l)%nat ->
  lz77_advance st c (trihash l n) = Ok st' -> tracked st' l (S n).
Proof.
  intros Ht Ec Hn E. pose proof (tracked_bound _ _ _ Ht). destruct Ht as [Hc Hw _].
  destruct (lz77_advance_ok st _ c (trihash l n) Hc (trihash_range l n)) as (st1 & E1 & Hc1 & W1 & _).
  rewrite E in E1. injection E1 as <-.
  assert (Hpos : lz_winpos st = Z.of_nat n mod WINSIZE).
  { change (lz_winpos st) with (cur_window st).2. rewrite Hw, emits_pos by (cbn; rewrite WINSIZE_eq; lia).
    cbn [start_window snd]. rewrite length_take. f_equal. lia. }
  split; [|by rewrite W1, Hw, (take_S_r _ _ _ Ec), emits_app|lia].
  rewrite Hpos in Hc1. by rewrite history_of_S.
Qed.

Lemma drop_cons_inv (l : list Z) n c rest :
  drop n l = c :: rest -> l !! n = Some c /\ drop (S n) l = rest.
Proof.
  intros E. assert (Ec : l !! n = Some c) by (rewrite <-(Nat.add_0_r n), <-lookup_drop, E; done).
  split; [done|]. rewrite (drop_S _ _ _ Ec) in E. by injection E.
Qed.

(** The step of the main loop where there are enough characters. *)
Lemma at_input_advance st st1 l c rest h :
  lz_npending st = 0 -> 3 <= zlen (c :: rest) -> lz77_hash (c :: rest) = Ok h ->
  lz77_advance st c h = Ok st1 -> lz_npending st1 = 0 ->
  at_input st l (c :: rest) -> at_input st1 l rest.
Proof.
  intros Hz Hl Eh Ea Hz1 (n & Ht & Ed). unfold pending_chars in Ed. rewrite Hz in Ed. cbn [Z.to_nat take app] in Ed.
  destruct (drop_cons_inv _ _ _ _ Ed) as [E0 Ed1]. destruct rest as [|f1 [|f2 rest]]; [cbn in Hl; lia..|].
  destruct (drop_cons_inv _ _ _ _ Ed1) as [E1 Ed2]. destruct (drop_cons_inv _ _ _ _ Ed2) as [E2 _].
  rewrite (hash_at _ _ _ _ _ _ E0 E1 E2) in Eh. injection Eh as <-.
  exists (S n). pose proof (lookup_lt_Some _ _ _ E2). split; [by apply (tracked_advance st _ l n c); [..|lia|]|].
  rewrite Ed1. unfold pending_chars. by rewrite Hz1.
Qed.

(** Adding a character that can be hashed. *)
Lemma lz_ok_advance st c hash :
  lz_ok st -> 0 <= hash < HASHMAX ->
  exists st', lz77_advance st c hash = Ok st' /\ lz_ok st' /\ cur_window st' = emit (cur_window st) c /\
    lz_pending st' = lz_pending st /\ lz_npending st' = lz_npending st.
Proof.
  intros [[hist Hc] Hp Hn] Hh. destruct (lz77_advance_ok st hist c hash Hc Hh) as (st' & E & Hc' & W & Ep & En).
  exists st'. split; [done|]. split; [|done]. split; [by eexists|by rewrite Ep|by rewrite En].
Qed.

Lemma full_window_none st : lz_npending st = 0 -> full_window st = cur_window st.
Proof. intros E. unfold full_window, pending_chars. by rewrite E. Qed.

(** Putting a character aside. *)
Lemma lz_ok_set_aside st c :
  lz_ok st -> lz_npending st <= 1 ->
  let p := <[Z.to_nat (lz_npending st) := c]> (lz_pending st) in
  let st' := set_pending st p (lz_npending st + 1) in
  lz_ok st' /\ full_window st' = emit (full_window st) c /\
  (forall l rest, at_input st l (c :: rest) -> at_input st' l rest).
Proof.
  intros [[hist Hc] Hp Hn] H1. unfold HASHCHARS in Hp. cbn zeta. set (st' := set_pending _ _ _).
  assert (Ep : pending_chars st' = pending_chars st ++ [c]).
  { unfold pending_chars. cbn [lz_npending lz_pending set_pending st'].
    replace (Z.to_nat (lz_npending st + 1)) with (S (Z.to_nat (lz_npending st))) by lia.
    rewrite (take_S_r _ _ c) by (apply list_lookup_insert_eq; lia). by rewrite take_insert_ge by lia. }
  split; [|split].
  - split; cbn; [|by rewrite zlen_insert|lia]. exists hist. by apply lz_chains_pending.
  - unfold full_window. rewrite Ep, emits_app. done.
  - intros l rest (n & Ht & Ed). exists n. split; [by apply tracked_pending|]. by rewrite Ed, Ep, <-app_assoc.
Qed.

Lemma advance_loop_ok n st data :
  ready st data -> (n <= length data)%nat ->
  exists st', advance_loop st data n = Ok (st', drop n data) /\ ready st' (drop n data) /\
    full_window st' = emits (full_window st) (take n data) /\
    (forall l, at_input st l data -> at_input st' l (drop n data)).
Proof.
  revert st data. induction n as [|n IH]; intros st data Hr Hn; [by exists st|].
  destruct data as [|c rest]; [cbn in Hn; lia|]. cbn [advance_loop drop take]. destruct Hr as [Hok Hroom].
  set (step := if HASHCHARS <=? _ then _ else _).
  enough (exists st1, step = Ok st1 /\ ready st1 rest /\ full_window st1 = emit (full_window st) c /\
    (forall l, at_input st l (c :: rest) -> at_input st1 l rest)) as (st1 & -> & Hr1 & W1 & Hin1).
  { cbn [res_bind]. destruct (IH st1 rest Hr1) as (st' & E & Hr' & W' & Hin'); [cbn in Hn; lia|].
    exists st'. split; [done|]. split; [done|]. split; [cbn [emits foldl]; by rewrite W', W1|]. auto. }
  subst step. destruct (Z.leb_spec HASHCHARS (zlen (c :: rest))) as [Hbig|Hsmall]; unfold HASHCHARS in *.
  - destruct (lz77_hash_ok (c :: rest) Hbig) as (h & Eh & Hh). rewrite Eh. cbn [res_bind].
    destruct (lz_ok_advance st c h Hok Hh) as (st1 & E1 & Hok1 & W1 & _ & En). rewrite E1.
    exists st1. split; [done|]. assert (Hz : lz_npending st = 0) by (destruct Hok; lia).
    split; [split; [done|lia]|]. split; [by rewrite !full_window_none by lia|].
    intros l. apply (at_input_advance _ _ _ _ _ h); (done || lia).
  - cbn [length] in *. rewrite c_assert_true by (apply Z.ltb_lt; destruct Hok; lia).
    destruct (lz_ok_set_aside st c Hok) as (Hok1 & W1 & Hin1); [destruct Hok; lia|].
    rewrite array_set_ok by (destruct Hok as [_ Hp ?]; unfold HASHCHARS in Hp; lia). cbn [res_bind].
    eexists. split; [done|]. split; [split; [done|]|split; [done|auto]]. right. cbn. destruct Hok. lia.
Qed.

Lemma shift_pending_ok i n p j :
  0 <= i <= j -> j + Z.of_nat n <= zlen p ->
  exists p', shift_pending p i j n = Ok p' /\ length p' = length p /\
    (forall k, Z.of_nat k < j - i -> p' !! k = p !! k) /\
    (forall k, j - i <= Z.of_nat k < j - i + Z.of_nat n -> p' !! k = p !! (k + Z.to_nat i)%nat).
Proof.
  revert p j. induction n as [|n IH]; intros p j Hi Hj; cbn [shift_pending].
  { exists p. repeat split; intros; (done || lia). }
  destruct (array_get_total p j) as (x & -> & Ex); [lia|]. cbn [res_bind].
  rewrite array_set_ok by lia. cbn [res_bind].
  destruct (IH (<[Z.to_nat (j - i) := x]> p) (j + 1)) as (p' & E & Hl & Hlow & Hhigh);
    [lia|rewrite zlen_insert; lia|].
  rewrite length_insert in Hl. exists p'. do 2 (split; [done|]). split; intros k Hk.
  - rewrite Hlow by lia. by rewrite list_lookup_insert_ne by lia.
  - destruct (decide (Z.of_nat k = j - i)) as [Ek|Hne].
    + rewrite Hlow by lia. replace k with (Z.to_nat (j - i)) by lia. rewrite list_lookup_insert_eq by lia.
      rewrite <-Ex. f_equal. lia.
    + rewrite Hhigh by lia. by rewrite list_lookup_insert_ne by lia.
Qed.

(** The first loop, from [i] on. *)
Lemma flush_loop_ok fuel st data i :
  lz_ok st -> 0 <= i <= lz_npending st -> lz_npending st - i = Z.of_nat fuel ->
  exists st1 i', flush_pending fuel st data i = Ok (st1, i') /\ i <= i' <= lz_npending st /\
    lz_ok st1 /\ lz_npending st1 = lz_npending st /\
    (i' = lz_npending st \/ lz_npending st - i' + zlen data <= 2) /\
    cur_window st1 = emits (cur_window st) (take (Z.to_nat (i' - i)) (drop (Z.to_nat i) (lz_pending st))) /\
    take (Z.to_nat (lz_npending st - i')) (lz_pending st1) =
      take (Z.to_nat (lz_npending st - i')) (drop (Z.to_nat i') (lz_pending st)) /\
    (forall l n, tracked st l n -> drop n l = drop (Z.to_nat i) (pending_chars st) ++ data ->
       exists n', tracked st1 l n' /\ drop n' l = drop (Z.to_nat i') (pending_chars st) ++ data).
Proof.
  revert st i. induction fuel as [|fuel IH]; intros st i Hok Hi Hf; cbn [flush_pending].
  { rewrite (proj2 (Z.ltb_ge _ _)) by lia. exists st, i. replace (lz_npending st - i) with 0 by lia.
    replace (i - i) with 0 by lia. split_and!; eauto; (done || lia). }
  rewrite (proj2 (Z.ltb_lt _ _)) by lia. pose proof Hok as [[hist Hc] Hp Hn]. unfold HASHCHARS in *.
  destruct (Z.ltb_spec (zlen data + lz_npending st - i) 3) as [Hs|Hb].
  { destruct (shift_pending_ok i (Z.to_nat (lz_npending st - i)) (lz_pending st) i) as (p & -> & Hl & _ & Hp');
      [lia|lia|]. cbn [res_bind]. eexists _, i. split; [done|]. replace (i - i) with 0 by lia.
    split_and!; try (done || lia).
    - split; cbn; [|unfold HASHCHARS; lia|lia]. exists hist. by apply lz_chains_pending.
    - apply list_eq. intros k. cbn [set_pending lz_pending].
      destruct (decide (k < Z.to_nat (lz_npending st - i))%nat) as [Hk|Hk].
      + rewrite !lookup_take_lt by lia. rewrite lookup_drop, Hp' by lia. f_equal. lia.
      + by rewrite !lookup_take_ge by lia.
    - intros l n Ht Ed. exists n. split; [by apply tracked_pending|done]. }
  set (foo := fun j => if i + j <? lz_npending st then array_get (lz_pending st) (i + j)
                       else array_get data (i + j - lz_npending st)).
  assert (Hlp : zlen (pending_chars st) = lz_npending st) by (unfold pending_chars; rewrite length_take; lia).
  assert (Hfoo : forall j, 0 <= j <= 2 -> exists f, foo j = Ok f /\
    (drop (Z.to_nat i) (pending_chars st) ++ data) !! Z.to_nat j = Some f).
  { intros j Hj. unfold foo. destruct (Z.ltb_spec (i + j) (lz_npending st)) as [Hlt|Hge].
    - destruct (array_get_total (lz_pending st) (i + j)) as (f & -> & Ef); [lia|]. exists f. split; [done|].
      rewrite lookup_app_l by (rewrite length_drop; lia). rewrite lookup_drop. unfold pending_chars.
      rewrite lookup_take_lt by lia. rewrite <-Ef. f_equal. lia.
    - destruct (array_get_total data (i + j - lz_npending st)) as (f & -> & Ef); [lia|]. exists f. split; [done|].
      rewrite lookup_app_r by (rewrite length_drop; lia). rewrite length_drop, <-Ef. f_equal. lia. }
  assert (H0 : foo 0 = Ok (lz_pending st !!! Z.to_nat i)).
  { unfold foo. rewrite (proj2 (Z.ltb_lt _ _)) by lia. rewrite Z.add_0_r. apply array_get_lookup. lia. }
  fold (foo 0) (foo 1) (foo 2). clearbody foo. destruct (Hfoo 0) as (x0 & Ex0 & E0); [lia|].
  rewrite H0 in Ex0 |- *. destruct (Hfoo 1) as (f1 & -> & E1); [lia|].
  destruct (Hfoo 2) as (f2 & -> & E2); [lia|]. cbn [res_bind]. set (f0 := _ !!! _) in *. injection Ex0 as <-.
  destruct (lz77_hash_ok [f0; f1; f2]) as (h & Eh & Hh); [done|]. rewrite Eh. cbn [res_bind].
  destruct (lz_ok_advance st f0 h Hok Hh) as (st2 & Ea & Hok2 & W2 & Ep2 & En2). rewrite Ea. cbn [res_bind].
  destruct (IH st2 (i + 1) Hok2) as (st1 & i' & E & Hi' & Hok1 & En1 & Hr & W1 & Ep1 & Ht1); [lia|lia|].
  assert (Epc : pending_chars st2 = pending_chars st) by (unfold pending_chars; by rewrite Ep2, En2).
  rewrite En2 in *. exists st1, i'. rewrite Ep2 in W1, Ep1. split_and!; try (done || lia).
  - rewrite W1, W2. replace (Z.to_nat (i' - i)) with (S (Z.to_nat (i' - (i + 1)))) by lia.
    rewrite (drop_S (lz_pending st) f0 (Z.to_nat i)).
    + replace (S (Z.to_nat i)) with (Z.to_nat (i + 1)) by lia. done.
    + destruct (lookup_lt_is_Some_2 (lz_pending st) (Z.to_nat i)) as [x Hx]; [lia|].
      rewrite Hx. unfold f0. by rewrite (list_lookup_total_correct _ _ _ Hx).
  - intros l n Ht Ed. rewrite Epc in Ht1. rewrite <-Ed, lookup_drop in E0, E1, E2.
    change (Z.to_nat 0) with 0%nat in E0. change (Z.to_nat 1) with 1%nat in E1. change (Z.to_nat 2) with 2%nat in E2.
    rewrite Nat.add_0_r in E0. replace (n + 1)%nat with (S n) in E1 by lia. replace (n + 2)%nat with (S (S n)) in E2 by lia.
    rewrite (hash_at _ _ _ _ _ _ E0 E1 E2) in Eh. injection Eh as <-. apply lookup_lt_Some in E2.
    apply (Ht1 l (S n)); [by apply (tracked_advance st _ l n f0); [..|lia|]|].
    rewrite (drop_S _ _ _ E0) in Ed.
    destruct (drop (Z.to_nat i) (pending_chars st)) as [|x d] eqn:Edp.
    { apply (f_equal length) in Edp. rewrite length_drop in Edp. cbn in Edp. lia. }
    apply drop_cons_inv in Edp as [_ Edp]. replace (Z.to_nat (i + 1)) with (S (Z.to_nat i)) by lia.
    rewrite Edp. by injection Ed.
Qed.

(** It empties the list of pending characters as far as it can, and the window the
    receiver has stays the same. *)
Lemma flush_pending_ok st data :
  lz_ok st ->
  exists st1 i, flush_pending (Z.to_nat (lz_npending st)) st data 0 = Ok (st1, i) /\
    let st' := set_pending st1 (lz_pending st1) (lz_npending st1 - i) in
    ready st' data /\ full_window st' = full_window st /\
    (forall l, at_input st l data -> at_input st' l data).
Proof.
  intros Hok. pose proof Hok as [_ Hp Hn].
  destruct (flush_loop_ok (Z.to_nat (lz_npending st)) st data 0 Hok)
    as (st1 & i & E & Hi & [[hist Hc] Hp1 _] & En & Hr & W & Ep & Ht); [lia|lia|].
  exists st1, i. split; [done|]. rewrite En. split; [|split].
  - split; [split|]; cbn; [|done|lia|lia]. exists hist. by apply lz_chains_pending.
  - unfold full_window, pending_chars. cbn [lz_npending lz_pending set_pending].
    change (cur_window (set_pending _ _ _)) with (cur_window st1). rewrite W, Ep, <-emits_app. f_equal.
    change (Z.to_nat 0) with O. rewrite drop_0, Z.sub_0_r.
    rewrite take_drop_commute. replace (Z.to_nat i + Z.to_nat (lz_npending st - i))%nat
      with (Z.to_nat (lz_npending st)) by lia.
    rewrite <-(take_drop (Z.to_nat i) (take (Z.to_nat (lz_npending st)) (lz_pending st))) at 2. f_equal.
    rewrite take_take. f_equal. lia.
  - intros l (n & Hn' & Ed). destruct (Ht l n Hn' Ed) as (n' & Ht' & Ed').
    exists n'. split; [by apply tracked_pending|]. rewrite Ed'. f_equal. unfold pending_chars.
    cbn [lz_npending lz_pending set_pending]. rewrite Ep, take_drop_commute.
    by replace (Z.to_nat i + Z.to_nat (lz_npending st - i))%nat with (Z.to_nat (lz_npending st)) by lia.
Qed.

(** ** The main loop *)

(** The reference search: the positions of the window with the same hash, newest
    first, whose next three characters are those of the input; 32 at most. *)
Lemma lz77_search_ok st hist data :
  lz_chains st hist -> 3 <= zlen data ->
  exists h, lz77_hash data = Ok h /\
    lz77_search st data = Ok (take 32 (candidates st data (chain h hist))).
Proof.
  intros Hc Hlen. destruct (lz77_hash_ok data Hlen) as (h & E & Hh). exists h. split; [done|].
  unfold lz77_search. rewrite (proj2 (Z.leb_le HASHCHARS _)) by (unfold HASHCHARS; lia). rewrite E. cbn [res_bind].
  pose proof Hc as [Hw Hd Hp Ht Hhist Hch _]. destruct (Hch h Hh) as [Htab Hok].
  rewrite (array_get_ok _ _ _ (proj1 Hh) Htab). cbn [res_bind].
  rewrite (find_matches_ok st data (lz_chains_window _ _ Hc) _ h INVALID); [done|done|done| | |cbn; lia].
  - by apply (history_pos (lz_winpos st)).
  - unfold chain. rewrite length_fmap. pose proof (length_filter (fun e : Z * Z => e.2 = h) hist).
    destruct Hhist. lia.
Qed.

Lemma lz77_search_valid st data :
  lz_ok st ->
  exists ms, lz77_search st data = Ok ms /\ (ms <> [] -> 3 <= zlen data) /\
    Forall (fun m => match_valid (cur_window st) data (m_distance m) 3) ms.
Proof.
  intros [[hist Hc] _ _]. destruct (Z.lt_ge_cases (zlen data) 3) as [Hs|Hb].
  - exists []. unfold lz77_search. rewrite (proj2 (Z.leb_gt HASHCHARS _)) by (unfold HASHCHARS; lia). done.
  - destruct (lz77_search_ok st hist data Hc) as (h & _ & E); [lia|]. eexists. split; [done|].
    split; [lia|]. apply Forall_take, candidates_valid. lia.
Qed.

(** The deferred match: the compressor is one character ahead of the output. *)
Definition deferred (D F : window) (data : list Z) (dm : Match) (dc : Z) (pre : list Z) : Prop :=
  (m_len dm = 0 /\ pre = [] /\ F = D) \/
  (3 <= m_len dm /\ pre = [dc] /\ F = emit D dc /\ match_valid D (dc :: data) (m_distance dm) (m_len dm)).

Section output.
Context {U : Type} `{LZ77Context U}.

Lemma lz77_choose_ok st data ms D dm dc pre :
  ready st data -> data <> [] -> bytesOK (pre ++ data) -> win_ok D ->
  (ms <> [] -> 3 <= zlen data) ->
  Forall (fun m => match_valid (cur_window st) data (m_distance m) 3) ms ->
  deferred D (full_window st) data dm dc pre ->
  exists ts dm' dc' pre' adv,
    (forall u, lz77_choose st u data ms dm dc = let! u := emit_tokens u ts in Ok (u, dm', dc', adv)) /\
    1 <= adv <= zlen data /\ Forall token_ok ts /\
    decode D ts ++ pre' = pre ++ take (Z.to_nat adv) data /\
    deferred (emits D (decode D ts)) (emits (full_window st) (take (Z.to_nat adv) data))
             (drop (Z.to_nat adv) data) dm' dc' pre'.
Proof.
  intros [Hok Hroom] Hne Hb HD H3 Hv Hdef. destruct data as [|c rest]; [done|]. clear Hne.
  apply Forall_app in Hb as [Hbp Hb]. inversion Hb as [|?? Hc Hrest]; subst.
  (* emitting the deferred match *)
  assert (Hemit : forall l, m_len dm = l -> 0 < l -> exists ts pre',
     ts = [Copy (m_distance dm) l] /\ 1 <= l - 1 <= zlen (c :: rest) /\ Forall token_ok ts /\
     decode D ts ++ pre' = pre ++ take (Z.to_nat (l - 1)) (c :: rest) /\
     deferred (emits D (decode D ts)) (emits (full_window st) (take (Z.to_nat (l - 1)) (c :: rest)))
              (drop (Z.to_nat (l - 1)) (c :: rest)) (MkMatch (m_distance dm) 0) dc pre').
  { intros l El Hl. destruct Hdef as [[? _]|(Hl3 & -> & EF & Hm)]; [lia|]. rewrite El in *.
    eexists _, []. split; [done|]. pose proof Hm as (Hd & Hlen & _). cbn [length] in Hlen.
    cbn [length]. split; [lia|].
    assert (Edec : decode D [Copy (m_distance dm) l] = dc :: take (Z.to_nat (l - 1)) (c :: rest)).
    { cbn [decode]. rewrite app_nil_r, (copy_valid _ _ _ _ HD Hm).
      by replace (Z.to_nat l) with (S (Z.to_nat (l - 1))) by lia. }
    rewrite Edec. split; [by apply Forall_singleton|]. split; [by rewrite app_nil_r|].
    left. split; [done|]. split; [done|]. rewrite EF. done. }
  unfold lz77_choose. destruct ms as [|m0 ms].
  - destruct (Z.ltb_spec 0 (m_len dm)) as [Hpos|Hz].
    + destruct (Hemit _ eq_refl Hpos) as (ts & pre' & -> & Hadv & Hts & Hdec & Hd').
      eexists _, _, _, pre', _. split; [|done]. intros u. cbn [emit_tokens].
      by destruct (output_match _ _ _).
    + destruct Hdef as [(Hl & -> & EF)|[? _]]; [|lia].
      exists [Lit c], dm, dc, [], 1. split; [intros u; change (array_get (c :: rest) 0) with (Ok c); cbn [res_bind emit_tokens]; by destruct (literal u c)|].
      cbn [length]. split; [lia|]. split; [by apply Forall_singleton|]. split; [done|]. left. by rewrite EF.
  - assert (Hz : lz_npending st = 0) by (specialize (H3 ltac:(done)); destruct Hok; lia).
    rewrite (full_window_none st Hz) in *.
    destruct (longest_matches_ok st (c :: rest) (lz_ok_window _ Hok) (length (c :: rest)) (m0 :: ms) HASHCHARS)
      as (m & ms' & n & E & Hn & Hm); [specialize (H3 ltac:(done)); unfold HASHCHARS; lia|
                                        unfold HASHCHARS; lia|done|done|].
    unfold HASHCHARS in Hn.
    assert (Hnew : forall D', D' = cur_window st ->
      deferred D' (emits (cur_window st) [c]) rest (MkMatch (m_distance m) n) c [c]).
    { intros D' ->. right. cbn [m_len m_distance]. split; [lia|]. done. }
    assert (E' : forall A (k : list Match * Z -> res A),
      res_bind (longest_matches (length (c :: rest)) st (c :: rest) (m0 :: ms) HASHCHARS) k = k (m :: ms', n))
      by (intros; by rewrite E).
    assert (Eg : forall A (k : Match -> res A), res_bind (array_get (m :: ms') 0) k = k m) by done.
    assert (Eh : forall A (k : Z -> res A), res_bind (array_get (c :: rest) 0) k = k c) by done.
    destruct (Z.ltb_spec 0 (m_len dm)) as [Hpos|Hle].
    + destruct (Z.ltb_spec (m_len dm + 1) n) as [Hbetter|Hworse].
      * destruct Hdef as [[? _]|(Hl3 & -> & EF & Hmd)]; [lia|].
        exists [Lit dc], (MkMatch (m_distance m) n), c, [c], 1.
        split. { intros u. rewrite E', Eg, Eh. cbn [m_len]. rewrite (proj2 (Z.ltb_lt _ _)) by lia.
                 cbn [emit_tokens]. by destruct (literal u dc). }
        cbn [length]. split; [lia|]. split; [apply Forall_singleton; by inversion Hbp|]. split; [done|].
        by apply Hnew.
      * destruct (Hemit _ eq_refl Hpos) as (ts & pre' & -> & Hadv & Hts & Hdec & Hd').
        eexists _, _, _, pre', _. split; [|done]. intros u. rewrite E', Eg, Eh. cbn [m_len].
        rewrite (proj2 (Z.ltb_ge _ _)) by lia. cbn [emit_tokens].
        by destruct (output_match _ _ _).
    + destruct Hdef as [(Hl & -> & EF)|[? _]]; [|lia].
      exists [], (MkMatch (m_distance m) n), c, [c], 1.
      split. { intros u. by rewrite E', Eg, Eh. }
      cbn [length]. split; [lia|]. split; [done|]. split; [done|]. by apply Hnew.
Qed.

Lemma lz77_loop_ok fuel st data D dm dc pre :
  (length data <= fuel)%nat -> ready st data -> bytesOK (pre ++ data) -> win_ok D ->
  deferred D (full_window st) data dm dc pre ->
  exists ts st',
    (forall u, lz77_loop fuel st u data dm dc = let! u := emit_tokens u ts in Ok (st', u)) /\
    lz_ok st' /\ Forall token_ok ts /\ decode D ts = pre ++ data /\
    full_window st' = emits D (pre ++ data) /\
    (forall l, at_input st l data -> at_input st' l []).
Proof.
  revert st data D dm dc pre. induction fuel as [|fuel IH]; intros st data D dm dc pre Hf Hr Hb HD Hdef.
  all: destruct data as [|c rest];
    [assert (pre = [] /\ full_window st = D) as [-> EW] by
       (destruct Hdef as [(_ & -> & ->)|(? & _ & _ & _ & Hl & _)]; [done|cbn in Hl; lia]);
     exists [], st; split; [done|]; split; [by destruct Hr|done]|].
  { cbn in Hf. lia. }
  set (data := c :: rest) in *.
  destruct (lz77_search_valid st data) as (ms & Es & H3 & Hv); [by destruct Hr|].
  destruct (lz77_choose_ok st data ms D dm dc pre) as (ts & dm' & dc' & pre' & adv & Ech & Hadv & Hts & Hdec & Hd');
    try done.
  destruct (advance_loop_ok (Z.to_nat adv) st data Hr) as (st1 & Ea & Hr1 & W1 & Hin1); [lia|].
  rewrite <-W1 in Hd'. set (rest' := drop (Z.to_nat adv) data) in *.
  assert (Hsplit : data = take (Z.to_nat adv) data ++ rest') by (unfold rest'; by rewrite take_drop).
  assert (Htot : pre ++ data = decode D ts ++ pre' ++ rest')
    by (rewrite Hsplit at 1; rewrite app_assoc, <-Hdec, app_assoc; done).
  destruct (IH st1 rest' (emits D (decode D ts)) dm' dc' pre') as (us & st' & El & Hok & Hus & Hdu & W & Hin); try done.
  { subst rest'. rewrite length_drop. lia. }
  { rewrite Htot in Hb. by apply bytesOK_app in Hb as [_ Hb]. }
  { by apply emits_ok. }
  exists (ts ++ us), st'. split.
  - intros u. cbn [lz77_loop]. change (0 <? zlen data) with true. cbn match. rewrite Es. cbn [res_bind].
    rewrite Ech, emit_tokens_app. destruct (emit_tokens u ts) as [u'|]; [|done]. cbn [res_bind].
    rewrite Ea. cbn [res_bind]. apply El.
  - split; [done|]. split; [by apply Forall_app|]. split; [by rewrite decode_app, Hdu, Htot|].
    split; [by rewrite W, Htot, <-emits_app|]. auto.
Qed.

(** The whole routine: it outputs literals and matches that decode to the input. *)
Lemma lz77_compress_ok st data :
  lz_ok st -> bytesOK data ->
  exists ts st',
    (forall u, lz77_compress st u data = let! u := emit_tokens u ts in Ok (st', u)) /\
    lz_ok st' /\ Forall token_ok ts /\ decode (full_window st) ts = data /\
    full_window st' = emits (full_window st) data /\
    (forall l, at_input st l [] -> at_input st' (l ++ data) []).
Proof.
  intros Hok Hb. destruct (flush_pending_ok st data Hok) as (st1 & i & E & Hr & W & Hin). cbn zeta in *.
  set (st2 := set_pending _ _ _) in *.
  destruct (lz77_loop_ok (length data) st2 data (full_window st) (MkMatch 0 0) 0 [])
    as (ts & st' & El & Hok' & Hts & Hd & W' & Hin'); try done.
  { by apply emits_ok, lz_ok_window. }
  { left. by rewrite W. }
  exists ts, st'. split_and!; try done.
  - intros u. unfold lz77_compress.
    rewrite c_assert_true by (apply Z.leb_le; destruct Hok; unfold HASHCHARS; lia).
    rewrite E. cbn [res_bind]. apply El.
  - intros l (n & Ht & Ed). apply Hin', Hin. exists n. split; [by apply tracked_app|].
    pose proof (tracked_bound _ _ _ Ht). rewrite drop_app_le, Ed, app_nil_r by lia. done.
Qed.
End output.

Lemma lz77_init_chains : lz_chains lz77_init [].
Proof.
  split; cbn [lz77_init lz_win lz_data lz_winpos lz_hashtab]; rewrite ?length_replicate.
  1-2: rewrite WINSIZE_eq; lia.
  - rewrite WINSIZE_eq. lia.
  - by vm_compute.
  - split; [rewrite WINSIZE_eq; cbn; lia|]. intros i p h E. by rewrite lookup_nil in E.
  - intros h Hh. split; [|done]. apply lookup_replicate_2. lia.
  - intros p Hp _. apply lookup_replicate_2. lia.
Qed.

Lemma lz77_init_ok : lz_ok lz77_init.
Proof. split; [exists []; apply lz77_init_chains|done|cbn; lia]. Qed.

Lemma lz77_init_input : at_input lz77_init [] [].
Proof.
  exists O. split; [|done]. split; [|done|by left].
  unfold history_of. cbn [seq fmap list_fmap]. rewrite reverse_nil, take_nil. apply lz77_init_chains.
Qed.

(** With the whole input taken, all but the last two characters are in the chains. *)
Lemma at_input_end st l :
  lz_ok st -> at_input st l [] ->
  lz_chains st (window_history l) /\ cur_window st = emits start_window (take (length l - 2) l) /\
  pending_chars st = drop (length l - 2) l.
Proof.
  intros [_ Hp Hn] (n & Ht & Ed). pose proof (tracked_bound _ _ _ Ht). destruct Ht as [Hc Hw Hh].
  rewrite app_nil_r in Ed. assert (n = length l - 2)%nat as ->.
  { apply (f_equal length) in Ed. unfold pending_chars in Ed. rewrite length_drop, length_take in Ed.
    unfold HASHCHARS in Hp. lia. }
  done.
Qed.

(** ** Every sequence of calls *)

(** Running the compressor on blocks, one call for each. *)
Fixpoint lz77_blocks {U} `{LZ77Context U} (st : LZ77InternalContext) (u : U) (blocks : list (list Z))
  : res (LZ77InternalContext * U) :=
  match blocks with
  | [] => Ok (st, u)
  | block :: blocks =>
      let! r := lz77_compress st u block in
      let '(st, u) := r in lz77_blocks st u blocks
  end.

Lemma lz77_blocks_ok {U} `{LZ77Context U} st blocks :
  lz_ok st -> Forall bytesOK blocks ->
  exists ts st', (forall u, lz77_blocks st u blocks = let! u := emit_tokens u ts in Ok (st', u)) /\
    lz_ok st' /\ Forall token_ok ts /\ decode (full_window st) ts = concat blocks /\
    (forall l, at_input st l [] -> at_input st' (l ++ concat blocks) []).
Proof.
  intros Hok Hb. revert st Hok. induction Hb as [|block blocks Hb Hbs IH]; intros st Hok.
  { exists [], st. split_and!; try done. intros l. cbn [concat]. by rewrite app_nil_r. }
  destruct (lz77_compress_ok st block Hok Hb) as (ts & st1 & E & Hok1 & Hts & Hd & W1 & Hin1).
  destruct (IH st1 Hok1) as (us & st' & E' & Hok' & Hus & Hd' & Hin').
  exists (ts ++ us), st'. split_and!; [|done|by apply Forall_app| |].
  - intros u. cbn [lz77_blocks]. rewrite E, emit_tokens_app. destruct (emit_tokens u ts); [|done]. cbn [res_bind]. apply E'.
  - cbn [concat]. by rewrite decode_app, Hd, <-W1, Hd'.
  - intros l Hl. cbn [concat]. rewrite app_assoc. auto.
Qed.

(** C12. Whatever the calls so far, and whatever the consumer of the output does with it:
    the output are literals and matches that a receiver with the same window decodes to
    the input; the window holds all of the input but its last two characters, which are
    pending; the doubly linked hash chains list, newest first, exactly the window
    positions of the last 32768 of these characters, each under the hash of the three
    characters of the input that start there; and the search for matches takes exactly
    the first 32 of the positions with the right hash that start with the next three
    characters. *)
Theorem lz77_stream_decodes {U} `{LZ77Context U} blocks :
  Forall bytesOK blocks ->
  let input := concat blocks in
  exists ts st,
    (forall u : U, lz77_blocks lz77_init u blocks = let! u := emit_tokens u ts in Ok (st, u)) /\
    decode start_window ts = input /\ Forall token_ok ts /\
    lz_chains st (window_history input) /\
    cur_window st = emits start_window (take (length input - 2) input) /\
    pending_chars st = drop (length input - 2) input /\
    forall data, 3 <= zlen data -> exists h, lz77_hash data = Ok h /\
      lz77_search st data = Ok (take 32 (candidates st data (chain h (window_history input)))).
Proof.
  intros Hb input. destruct (lz77_blocks_ok lz77_init blocks lz77_init_ok Hb) as (ts & st & E & Hok & Hts & Hd & Hin).
  destruct (at_input_end st input Hok (Hin [] lz77_init_input)) as (Hc & Hw & Hp).
  exists ts, st. split_and!; try done. intros data Hl. by apply lz77_search_ok.
Qed.

(** A consumer that collects what it is given. *)
#[export] Instance collect_tokens : LZ77Context (list token) :=
  {| literal := fun ts c => Ok (ts ++ [Lit c]); output_match := fun ts d l => Ok (ts ++ [Copy d l]) |}.

Definition example_blocks : list (list Z) := [[97; 98; 99; 97; 98; 99; 97]; [98]; [99; 97; 98; 99; 120]].

Lemma lz77_stream_decodes_witness :
  exists ts st,
    (forall u : list token, lz77_blocks lz77_init u example_blocks = let! u := emit_tokens u ts in Ok (st, u)) /\
    decode start_window ts = concat example_blocks /\
    lz_chains st (window_history (concat example_blocks)) /\ pending_chars st = [99; 120].
Proof.
  destruct (lz77_stream_decodes (U := list token) example_blocks) as (ts & st & E & Hd & _ & Hc & _ & Hp & _).
  - unfold bytesOK, is_byte. apply (bool_decide_unpack _). vm_compute. exact I.
  - exists ts, st. split; [exact E|]. split; [exact Hd|]. split; [exact Hc|exact Hp].
Defined.
