(* ===== verification/Zlib.v ===== *)
(** * SSH packet compression (putty ssh/zlib.c)

    The compressor writes RFC 1951 blocks with the fixed Huffman codes; the
    decompressor reads any RFC 1950 stream, through decode tables built from code
    lengths, as a state machine that stops when the packet is used up and goes on
    with the next one.  [unsigned long] has 32 bits on Windows. *)

From S2P Require Import Prelude Bufchain Marshal Strbuf Lz77.
Local Open Scope cmodel_scope.
Local Open Scope Z_scope.

Definition ulong (x : Z) : Z := x mod 2 ^ 32.

(** ** Output of bits *)

Record Outbuf := OutBuf {
  ob_outbuf : option strbuf;
  ob_outbits : Z;
  ob_noutbits : Z;
  ob_firstblock : bool
}.

(** [while (out->noutbits >= 8)] *)
Fixpoint outbits_loop (fuel : nat) (out : Outbuf) : res Outbuf :=
  if 8 <=? ob_noutbits out then
    match fuel, ob_outbuf out with
    | O, _ => Crash OutOfFuel
    | _, None => Crash UndefinedBehaviour
    | S fuel, Some sb =>
        let! sb := BinarySink_put_byte sb (Z.land (ob_outbits out) 0xFF) in
        outbits_loop fuel (OutBuf (Some sb) (Z.shiftr (ob_outbits out) 8)
                                  (ob_noutbits out - 8) (ob_firstblock out))
    end
  else Ok out.

Definition outbits (out : Outbuf) (bits nbits : Z) : res Outbuf :=
  c_assert (ob_noutbits out + nbits <=? 32) (
    let out := OutBuf (ob_outbuf out)
                 (Z.lor (ob_outbits out) (ulong (Z.shiftl bits (ob_noutbits out))))
                 (ob_noutbits out + nbits) (ob_firstblock out) in
    outbits_loop (Z.to_nat (ob_noutbits out)) out).

Definition mirrorbytes : list Z :=
  [
   0x00; 0x80; 0x40; 0xc0; 0x20; 0xa0; 0x60; 0xe0; 0x10; 0x90; 0x50; 0xd0;
   0x30; 0xb0; 0x70; 0xf0; 0x08; 0x88; 0x48; 0xc8; 0x28; 0xa8; 0x68; 0xe8;
   0x18; 0x98; 0x58; 0xd8; 0x38; 0xb8; 0x78; 0xf8; 0x04; 0x84; 0x44; 0xc4;
   0x24; 0xa4; 0x64; 0xe4; 0x14; 0x94; 0x54; 0xd4; 0x34; 0xb4; 0x74; 0xf4;
   0x0c; 0x8c; 0x4c; 0xcc; 0x2c; 0xac; 0x6c; 0xec; 0x1c; 0x9c; 0x5c; 0xdc;
   0x3c; 0xbc; 0x7c; 0xfc; 0x02; 0x82; 0x42; 0xc2; 0x22; 0xa2; 0x62; 0xe2;
   0x12; 0x92; 0x52; 0xd2; 0x32; 0xb2; 0x72; 0xf2; 0x0a; 0x8a; 0x4a; 0xca;
   0x2a; 0xaa; 0x6a; 0xea; 0x1a; 0x9a; 0x5a; 0xda; 0x3a; 0xba; 0x7a; 0xfa;
   0x06; 0x86; 0x46; 0xc6; 0x26; 0xa6; 0x66; 0xe6; 0x16; 0x96; 0x56; 0xd6;
   0x36; 0xb6; 0x76; 0xf6; 0x0e; 0x8e; 0x4e; 0xce; 0x2e; 0xae; 0x6e; 0xee;
   0x1e; 0x9e; 0x5e; 0xde; 0x3e; 0xbe; 0x7e; 0xfe; 0x01; 0x81; 0x41; 0xc1;
   0x21; 0xa1; 0x61; 0xe1; 0x11; 0x91; 0x51; 0xd1; 0x31; 0xb1; 0x71; 0xf1;
   0x09; 0x89; 0x49; 0xc9; 0x29; 0xa9; 0x69; 0xe9; 0x19; 0x99; 0x59; 0xd9;
   0x39; 0xb9; 0x79; 0xf9; 0x05; 0x85; 0x45; 0xc5; 0x25; 0xa5; 0x65; 0xe5;
   0x15; 0x95; 0x55; 0xd5; 0x35; 0xb5; 0x75; 0xf5; 0x0d; 0x8d; 0x4d; 0xcd;
   0x2d; 0xad; 0x6d; 0xed; 0x1d; 0x9d; 0x5d; 0xdd; 0x3d; 0xbd; 0x7d; 0xfd;
   0x03; 0x83; 0x43; 0xc3; 0x23; 0xa3; 0x63; 0xe3; 0x13; 0x93; 0x53; 0xd3;
   0x33; 0xb3; 0x73; 0xf3; 0x0b; 0x8b; 0x4b; 0xcb; 0x2b; 0xab; 0x6b; 0xeb;
   0x1b; 0x9b; 0x5b; 0xdb; 0x3b; 0xbb; 0x7b; 0xfb; 0x07; 0x87; 0x47; 0xc7;
   0x27; 0xa7; 0x67; 0xe7; 0x17; 0x97; 0x57; 0xd7; 0x37; 0xb7; 0x77; 0xf7;
   0x0f; 0x8f; 0x4f; 0xcf; 0x2f; 0xaf; 0x6f; 0xef; 0x1f; 0x9f; 0x5f; 0xdf;
   0x3f; 0xbf; 0x7f; 0xff].

Record coderecord := CodeRecord { cr_code : Z; cr_extrabits : Z; cr_min : Z; cr_max : Z }.

Definition lencodes : list coderecord :=
  [
   CodeRecord 257 0 3 3; CodeRecord 258 0 4 4; CodeRecord 259 0 5 5;
   CodeRecord 260 0 6 6; CodeRecord 261 0 7 7; CodeRecord 262 0 8 8;
   CodeRecord 263 0 9 9; CodeRecord 264 0 10 10; CodeRecord 265 1 11 12;
   CodeRecord 266 1 13 14; CodeRecord 267 1 15 16; CodeRecord 268 1 17 18;
   CodeRecord 269 2 19 22; CodeRecord 270 2 23 26; CodeRecord 271 2 27 30;
   CodeRecord 272 2 31 34; CodeRecord 273 3 35 42; CodeRecord 274 3 43 50;
   CodeRecord 275 3 51 58; CodeRecord 276 3 59 66; CodeRecord 277 4 67 82;
   CodeRecord 278 4 83 98; CodeRecord 279 4 99 114; CodeRecord 280 4 115 130;
   CodeRecord 281 5 131 162; CodeRecord 282 5 163 194; CodeRecord 283 5 195 226;
   CodeRecord 284 5 227 257; CodeRecord 285 0 258 258].

Definition distcodes : list coderecord :=
  [
   CodeRecord 0 0 1 1; CodeRecord 1 0 2 2; CodeRecord 2 0 3 3;
   CodeRecord 3 0 4 4; CodeRecord 4 1 5 6; CodeRecord 5 1 7 8;
   CodeRecord 6 2 9 12; CodeRecord 7 2 13 16; CodeRecord 8 3 17 24;
   CodeRecord 9 3 25 32; CodeRecord 10 4 33 48; CodeRecord 11 4 49 64;
   CodeRecord 12 5 65 96; CodeRecord 13 5 97 128; CodeRecord 14 6 129 192;
   CodeRecord 15 6 193 256; CodeRecord 16 7 257 384; CodeRecord 17 7 385 512;
   CodeRecord 18 8 513 768; CodeRecord 19 8 769 1024; CodeRecord 20 9 1025 1536;
   CodeRecord 21 9 1537 2048; CodeRecord 22 10 2049 3072; CodeRecord 23 10 3073 4096;
   CodeRecord 24 11 4097 6144; CodeRecord 25 11 6145 8192; CodeRecord 26 12 8193 12288;
   CodeRecord 27 12 12289 16384; CodeRecord 28 13 16385 24576; CodeRecord 29 13 24577 32768].

(** ** Literals and matches *)

Definition zlib_literal (out : Outbuf) (c : Z) : res Outbuf :=
  if c <=? 143 then
    let! m := array_get mirrorbytes (0x30 + c) in outbits out m 8
  else
    let! m := array_get mirrorbytes (0x90 - 144 + c) in outbits out (1 + 2 * m) 9.

(** The binary search for the record of [x], between the indices [i] and [j]. *)
Fixpoint find_code (fuel : nat) (codes : list coderecord) (x i j : Z) : res coderecord :=
  match fuel with
  | O => Crash OutOfFuel
  | S fuel =>
      c_assert (2 <=? j - i) (
        let k := Z.quot (j + i) 2 in
        let! r := array_get codes k in
        if x <? cr_min r then find_code fuel codes x i k
        else if cr_max r <? x then find_code fuel codes x k j
        else Ok r)
  end.

Definition search_code (codes : list coderecord) (x : Z) : res coderecord :=
  find_code (S (length codes)) codes x (-1) (zlen codes).

(** One round of [zlib_match], for a length that has a code. *)
Definition match_piece (out : Outbuf) (distance thislen : Z) : res Outbuf :=
  let! l := search_code lencodes thislen in
  let! out :=
    if cr_code l <=? 279 then
      let! m := array_get mirrorbytes ((cr_code l - 256) * 2) in outbits out m 7
    else
      let! m := array_get mirrorbytes (0xc0 - 280 + cr_code l) in outbits out m 8 in
  let! out := if negb (cr_extrabits l =? 0)
              then outbits out (thislen - cr_min l) (cr_extrabits l) else Ok out in
  let! d := search_code distcodes distance in
  let! m := array_get mirrorbytes (cr_code d * 8) in
  let! out := outbits out m 5 in
  if negb (cr_extrabits d =? 0)
  then outbits out (distance - cr_min d) (cr_extrabits d) else Ok out.

Fixpoint zlib_match_loop (fuel : nat) (out : Outbuf) (distance len : Z) : res Outbuf :=
  if 0 <? len then
    match fuel with
    | O => Crash OutOfFuel
    | S fuel =>
        let thislen := if 260 <? len then 258 else if len <=? 258 then len else len - 3 in
        let! out := match_piece out distance thislen in
        zlib_match_loop fuel out distance (len - thislen)
    end
  else Ok out.

Definition zlib_match (out : Outbuf) (distance len : Z) : res Outbuf :=
  zlib_match_loop (Z.to_nat len) out distance len.

#[export] Instance zlib_context : LZ77Context Outbuf :=
  {| literal := zlib_literal; output_match := zlib_match |}.

(** ** The compressor *)

Record ssh_zlib_compressor := Compressor { zc_ictx : LZ77InternalContext; zc_out : Outbuf }.

Definition zlib_compress_init : ssh_zlib_compressor :=
  Compressor lz77_init (OutBuf None 0 0 true).

(** [while (out->outbuf->len < minlen)]; [minlen] is converted to [size_t]. *)
Fixpoint zlib_pad_loop (fuel : nat) (out : Outbuf) (minlen : Z) : res Outbuf :=
  match ob_outbuf out with
  | None => Crash UndefinedBehaviour
  | Some sb =>
      if sb_len sb <? wrap_size minlen then
        match fuel with
        | O => Crash OutOfFuel
        | S fuel =>
            let! out := outbits out 0 7 in
            let! out := outbits out 2 3 in
            zlib_pad_loop fuel out minlen
        end
      else Ok out
  end.

(** Returns [outblock[0 .. outlen]]. *)
Definition zlib_compress_block (comp : ssh_zlib_compressor) (block : list Z) (minlen : Z)
  : res (list Z * ssh_zlib_compressor) :=
  let out := zc_out comp in
  c_assert (match ob_outbuf out with None => true | Some _ => false end) (
    let! sb := strbuf_new_nm in
    let out := OutBuf (Some sb) (ob_outbits out) (ob_noutbits out) (ob_firstblock out) in
    let! r :=
      if ob_firstblock out then
        let! out := outbits out 0x9C78 16 in
        Ok (OutBuf (ob_outbuf out) (ob_outbits out) (ob_noutbits out) false, false)
      else Ok (out, true) in
    let '(out, in_block) := r in
    let! out := if negb in_block then outbits out 2 3 else Ok out in
    let! r := lz77_compress (zc_ictx comp) out block in
    let '(ictx, out) := r in
    let! out := outbits out 0 7 in
    let! out := outbits out 2 (3 + 7) in
    let! out := outbits out 2 3 in
    let! out := zlib_pad_loop (Z.to_nat (wrap_size minlen)) out minlen in
    match ob_outbuf out with
    | None => Crash UndefinedBehaviour
    | Some sb =>
        let! outblock := strbuf_contents sb in
        Ok (outblock, Compressor ictx (OutBuf None (ob_outbits out) (ob_noutbits out) (ob_firstblock out)))
    end).

(** ** Decode tables *)

Record zlib_tableentry (T : Type) := Entry { te_nbits : Z; te_code : Z; te_nexttable : option T }.
Arguments Entry {T}.
Arguments te_nbits {T}.
Arguments te_code {T}.
Arguments te_nexttable {T}.

Inductive zlib_table := ZTable (mask : Z) (table : list (zlib_tableentry zlib_table)).
Definition tab_mask (t : zlib_table) := let 'ZTable mask _ := t in mask.
Definition tab_table (t : zlib_table) := let 'ZTable _ table := t in table.

Definition MAXCODELEN : Z := 16.
Definition MAXSYMS : Z := 288.

(** [for (j = code; j <= tab->mask; j += step)] for symbol [i]. *)
Fixpoint fill_entries (fuel : nat) (table : list (zlib_tableentry zlib_table)) (mask j step i nbits : Z)
  : res (list (zlib_tableentry zlib_table)) :=
  if j <=? mask then
    match fuel with
    | O => Crash OutOfFuel
    | S fuel =>
        let! e := array_get table j in
        let! table := array_set table j
          (Entry (if te_nbits e <? nbits then nbits else te_nbits e) i (te_nexttable e)) in
        fill_entries fuel table mask (j + step) step i nbits
    end
  else Ok table.

(** The loop over the symbols, from symbol [i] on. *)
Fixpoint fill_table (table : list (zlib_tableentry zlib_table)) (mask : Z) (codes lengths : list Z)
  (pfx pfxbits i : Z) : res (list (zlib_tableentry zlib_table)) :=
  match codes, lengths with
  | c :: codes, l :: lengths =>
      let! table :=
        if (l <=? pfxbits) || negb (Z.land c (Z.shiftl 1 pfxbits - 1) =? pfx) then Ok table
        else
          let code := Z.land (Z.shiftr c pfxbits) mask in
          fill_entries (length table) table mask code (Z.shiftl 1 (l - pfxbits)) i (l - pfxbits) in
      fill_table table mask codes lengths pfx pfxbits (i + 1)
  | _, _ => Ok table
  end.

(** The last loop, from entry [code] on; [mk] makes a table from a prefix, the length
    of the prefix and the number of bits. *)
Fixpoint make_subtables (mk : Z -> Z -> Z -> res zlib_table) (pfx pfxbits bits code : Z)
  (table : list (zlib_tableentry zlib_table)) : res (list (zlib_tableentry zlib_table)) :=
  match table with
  | [] => Ok []
  | e :: table =>
      let! e :=
        if te_nbits e <=? bits then Ok e
        else
          let nbits := te_nbits e - bits in
          let nbits := if 7 <? nbits then 7 else nbits in
          let! t := mk (Z.lor pfx (Z.shiftl code pfxbits)) (pfxbits + bits) nbits in
          Ok (Entry bits (-1) (Some t)) in
      let! table := make_subtables mk pfx pfxbits bits (code + 1) table in
      Ok (e :: table)
  end.

(** [depth] bounds the nesting of subtables. *)
Fixpoint zlib_mkonetab (depth : nat) (codes lengths : list Z) (pfx pfxbits bits : Z) : res zlib_table :=
  match depth with
  | O => Crash OutOfFuel
  | S depth =>
      let mask := Z.shiftl 1 bits - 1 in
      let table := replicate (Z.to_nat (Z.shiftl 1 bits)) (Entry 0 (-1) None) in
      let! table := fill_table table mask codes lengths pfx pfxbits 0 in
      let! table := make_subtables (zlib_mkonetab depth codes lengths) pfx pfxbits bits 0 table in
      Ok (ZTable mask table)
  end.

(** Automatic arrays start undetermined; [count[0]] and [startcode[0]] stay so. *)
Fixpoint count_lengths (count : list (option Z)) (maxlen : Z) (lengths : list Z)
  : res (list (option Z) * Z) :=
  match lengths with
  | [] => Ok (count, maxlen)
  | l :: lengths =>
      let! c := array_get count l in
      let! count := array_set count l (Z.succ <$> c) in
      count_lengths count (if maxlen <? l then l else maxlen) lengths
  end.

(** [for (i = 1; i < MAXCODELEN; i++)], [n] rounds from [i] on. *)
Fixpoint start_codes (count startcode : list (option Z)) (code i : Z) (n : nat)
  : res (list (option Z)) :=
  match n with
  | O => Ok startcode
  | S n =>
      let! startcode := array_set startcode i (Some code) in
      let! c := array_get count i in
      match c with
      | None => Crash UndefinedBehaviour
      | Some c => start_codes count startcode (Z.shiftl (code + c) 1) (i + 1) n
      end
  end.

(** [n] rounds of the loop that mirrors a code; an undetermined one may not be used. *)
Fixpoint mirror_code (acc : Z) (code : option Z) (n : nat) : res Z :=
  match n with
  | O => Ok acc
  | S n =>
      match code with
      | None => Crash UndefinedBehaviour
      | Some code =>
          mirror_code (Z.lor (Z.shiftl acc 1) (Z.land code 1)) (Some (Z.shiftr code 1)) n
      end
  end.

Fixpoint assign_codes (startcode : list (option Z)) (lengths : list Z) : res (list Z) :=
  match lengths with
  | [] => Ok []
  | l :: lengths =>
      let! code := array_get startcode l in
      let! startcode := array_set startcode l (Z.succ <$> code) in
      let! c := mirror_code 0 code (Z.to_nat l) in
      let! codes := assign_codes startcode lengths in
      Ok (c :: codes)
  end.

Definition zlib_mktable (lengths : list Z) (nlengths : Z) : res zlib_table :=
  if (zlen lengths <? nlengths) || (MAXSYMS <? nlengths) then Crash UndefinedBehaviour
  else
    let lengths := take (Z.to_nat nlengths) lengths in
    let! r := count_lengths (None :: replicate (Z.to_nat (MAXCODELEN - 1)) (Some 0)) 0 lengths in
    let '(count, maxlen) := r in
    let! startcode := start_codes count (replicate (Z.to_nat MAXCODELEN) None) 0 1 (Z.to_nat (MAXCODELEN - 1)) in
    let! codes := assign_codes startcode lengths in
    zlib_mkonetab (Z.to_nat MAXCODELEN) codes lengths 0 0 (if maxlen <? 9 then maxlen else 9).

(** ** The decompressor *)

Inductive zlib_state :=
| START | OUTSIDEBLK
| TREES_HDR | TREES_LENLEN | TREES_LEN | TREES_LENREP
| INBLK | GOTLENSYM | GOTLEN | GOTDISTSYM
| UNCOMP_LEN | UNCOMP_NLEN | UNCOMP_DATA.

#[export] Instance zlib_state_eq_dec : EqDecision zlib_state.
Proof. solve_decision. Defined.

(** A pointer to a decode table: none, the static one, or one of a dynamic block. *)
Inductive tabptr := TNull | TStatic | TDynamic (t : zlib_table).

(** The bits read and not yet used. *)
Record bitreg := Reg { r_bits : Z; r_nbits : Z }.

(** The last characters, and the output of this packet. *)
Record zwindow := ZWindow { w_window : list Z; w_winpos : Z; w_outblk : option strbuf }.

(** What is read of the header of a dynamic block. *)
Record ztrees := Trees {
  t_hlit : Z; t_hdist : Z; t_hclen : Z; t_lenptr : Z;
  t_lenextrabits : Z; t_lenaddon : Z; t_lenrep : Z;
  t_lenlen : list Z; t_lengths : list Z
}.

Record zlib_decompress_ctx := DCtx {
  d_staticlentable : zlib_table;
  d_staticdisttable : zlib_table;
  d_currlentable : tabptr;
  d_currdisttable : tabptr;
  d_lenlentable : option zlib_table;
  d_state : zlib_state;
  d_sym : Z;
  d_len : Z;
  d_uncomplen : Z;
  d_trees : ztrees;
  d_reg : bitreg;
  d_win : zwindow
}.

Section setters.
Context (d : zlib_decompress_ctx).

Definition set_tables l di ll :=
  DCtx (d_staticlentable d) (d_staticdisttable d) l di ll (d_state d) (d_sym d) (d_len d)
       (d_uncomplen d) (d_trees d) (d_reg d) (d_win d).
Definition set_state s :=
  DCtx (d_staticlentable d) (d_staticdisttable d) (d_currlentable d) (d_currdisttable d)
       (d_lenlentable d) s (d_sym d) (d_len d) (d_uncomplen d) (d_trees d) (d_reg d) (d_win d).
Definition set_sym x :=
  DCtx (d_staticlentable d) (d_staticdisttable d) (d_currlentable d) (d_currdisttable d)
       (d_lenlentable d) (d_state d) x (d_len d) (d_uncomplen d) (d_trees d) (d_reg d) (d_win d).
Definition set_len x :=
  DCtx (d_staticlentable d) (d_staticdisttable d) (d_currlentable d) (d_currdisttable d)
       (d_lenlentable d) (d_state d) (d_sym d) x (d_uncomplen d) (d_trees d) (d_reg d) (d_win d).
Definition set_uncomplen x :=
  DCtx (d_staticlentable d) (d_staticdisttable d) (d_currlentable d) (d_currdisttable d)
       (d_lenlentable d) (d_state d) (d_sym d) (d_len d) x (d_trees d) (d_reg d) (d_win d).
Definition set_trees x :=
  DCtx (d_staticlentable d) (d_staticdisttable d) (d_currlentable d) (d_currdisttable d)
       (d_lenlentable d) (d_state d) (d_sym d) (d_len d) (d_uncomplen d) x (d_reg d) (d_win d).
Definition set_reg x :=
  DCtx (d_staticlentable d) (d_staticdisttable d) (d_currlentable d) (d_currdisttable d)
       (d_lenlentable d) (d_state d) (d_sym d) (d_len d) (d_uncomplen d) (d_trees d) x (d_win d).
Definition set_dwin x :=
  DCtx (d_staticlentable d) (d_staticdisttable d) (d_currlentable d) (d_currdisttable d)
       (d_lenlentable d) (d_state d) (d_sym d) (d_len d) (d_uncomplen d) (d_trees d) (d_reg d) x.
End setters.

Definition set_lenptr (t : ztrees) (n : Z) : ztrees :=
  Trees (t_hlit t) (t_hdist t) (t_hclen t) n (t_lenextrabits t) (t_lenaddon t) (t_lenrep t)
        (t_lenlen t) (t_lengths t).

Definition static_lengths : list Z :=
  replicate 144 8 ++ replicate (256 - 144) 9 ++ replicate (280 - 256) 7 ++ replicate (288 - 280) 8.

Definition zlib_decompress_init : res zlib_decompress_ctx :=
  let! staticlentable := zlib_mktable static_lengths 288 in
  let! staticdisttable := zlib_mktable (replicate 32 5 ++ drop 32 static_lengths) 32 in
  Ok (DCtx staticlentable staticdisttable TNull TNull None START 0 0 0
        (Trees 0 0 0 0 0 0 0 (replicate 19 0) (replicate (288 + 32) 0))
        (Reg 0 0) (ZWindow (replicate (Z.to_nat WINSIZE) 0) 0 None)).

(** Returns the symbol, [-1] for not enough data, [-2] for a missing entry. *)
Fixpoint huflookup_loop (fuel : nat) (bits nbits : Z) (tab : zlib_table) (reg : bitreg)
  : res (Z * bitreg) :=
  match fuel with
  | O => Crash OutOfFuel
  | S fuel =>
      let! ent := array_get (tab_table tab) (Z.land bits (tab_mask tab)) in
      if nbits <? te_nbits ent then Ok (-1, reg)
      else
        let bits := Z.shiftr bits (te_nbits ent) in
        let nbits := nbits - te_nbits ent in
        if te_code ent =? -1 then
          match te_nexttable ent with
          | None => Ok (-2, reg)
          | Some tab => huflookup_loop fuel bits nbits tab reg
          end
        else Ok (te_code ent, Reg bits nbits)
  end.

Definition zlib_huflookup (reg : bitreg) (tab : option zlib_table) : res (Z * bitreg) :=
  match tab with
  | None => Crash UndefinedBehaviour
  | Some tab => huflookup_loop (S (Z.to_nat (r_nbits reg))) (r_bits reg) (r_nbits reg) tab reg
  end.

Definition currlentable (d : zlib_decompress_ctx) : option zlib_table :=
  match d_currlentable d with
  | TNull => None | TStatic => Some (d_staticlentable d) | TDynamic t => Some t
  end.

Definition currdisttable (d : zlib_decompress_ctx) : option zlib_table :=
  match d_currdisttable d with
  | TNull => None | TStatic => Some (d_staticdisttable d) | TDynamic t => Some t
  end.

(** A dynamic table is freed and its pointer cleared; the static one stays. *)
Definition drop_dynamic (t : tabptr) : tabptr :=
  match t with TStatic => TStatic | _ => TNull end.

Definition zlib_emit_char (w : zwindow) (c : Z) : res zwindow :=
  let! window := array_set (w_window w) (w_winpos w) (u8 c) in
  match w_outblk w with
  | None => Crash UndefinedBehaviour
  | Some sb =>
      let! sb := BinarySink_put_byte sb c in
      Ok (ZWindow window (Z.land (w_winpos w + 1) (WINSIZE - 1)) (Some sb))
  end.

Definition EATBITS (reg : bitreg) (n : Z) : bitreg := Reg (Z.shiftr (r_bits reg) n) (r_nbits reg - n).

(** [bits & ((1 << n) - 1)] *)
Definition low_bits (reg : bitreg) (n : Z) : Z := Z.land (r_bits reg) (Z.shiftl 1 n - 1).

(** [while (dctx->nbits < 24 && len > 0)] *)
Fixpoint refill (reg : bitreg) (block : list Z) : bitreg * list Z :=
  match block with
  | [] => (reg, [])
  | b :: rest =>
      if r_nbits reg <? 24 then
        refill (Reg (Z.lor (r_bits reg) (Z.shiftl b (r_nbits reg))) (r_nbits reg + 8)) rest
      else (reg, block)
  end.

Definition lenlenmap : list Z :=
  [16; 17; 18; 0; 8; 7; 9; 6; 10; 5; 11; 4; 12; 3; 13; 2; 14; 1; 15].

(** [while (dctx->lenptr < dctx->hclen && dctx->nbits >= 3)] *)
Fixpoint read_lenlen (fuel : nat) (t : ztrees) (reg : bitreg) : res (ztrees * bitreg) :=
  if (t_lenptr t <? t_hclen t) && (3 <=? r_nbits reg) then
    match fuel with
    | O => Crash OutOfFuel
    | S fuel =>
        let! k := array_get lenlenmap (t_lenptr t) in
        let! ll := array_set (t_lenlen t) k (Z.land (r_bits reg) 7) in
        read_lenlen fuel
          (Trees (t_hlit t) (t_hdist t) (t_hclen t) (t_lenptr t + 1) (t_lenextrabits t) (t_lenaddon t)
                 (t_lenrep t) ll (t_lengths t))
          (EATBITS reg 3)
    end
  else Ok (t, reg).

(** [while (rep > 0 && dctx->lenptr < dctx->hlit + dctx->hdist)] *)
Fixpoint repeat_len (rep : nat) (t : ztrees) : res ztrees :=
  match rep with
  | O => Ok t
  | S rep =>
      if t_lenptr t <? t_hlit t + t_hdist t then
        let! ls := array_set (t_lengths t) (t_lenptr t) (u8 (t_lenrep t)) in
        repeat_len rep
          (Trees (t_hlit t) (t_hdist t) (t_hclen t) (t_lenptr t + 1) (t_lenextrabits t) (t_lenaddon t)
                 (t_lenrep t) (t_lenlen t) ls)
      else Ok t
  end.

(** [while (dctx->len--)] *)
Fixpoint copy_loop (n : nat) (w : zwindow) (dist : Z) : res zwindow :=
  match n with
  | O => Ok w
  | S n =>
      let! c := array_get (w_window w) (Z.land (w_winpos w - dist) (WINSIZE - 1)) in
      let! w := zlib_emit_char w c in
      copy_loop n w dist
  end.

(** How a pass through the [switch] ends. *)
Inductive outcome :=
| Continue (d : zlib_decompress_ctx)
| Finished (d : zlib_decompress_ctx)
| DecodeError (d : zlib_decompress_ctx).

Definition header_ok (header : Z) : bool :=
  negb (negb (Z.land header 0x0F00 =? 0x0800) || (0x7000 <? Z.land header 0xF000) ||
        negb (Z.land header 0x0020 =? 0) || negb (header mod 31 =? 0)).

Definition step_start (d : zlib_decompress_ctx) : res outcome :=
  let reg := d_reg d in
  if r_nbits reg <? 16 then Ok (Finished d)
  else
    let header := Z.lor (Z.shiftr (Z.land (r_bits reg) 0xFF00) 8)
                        (Z.shiftl (Z.land (r_bits reg) 0x00FF) 8) in
    let d := set_reg d (EATBITS reg 16) in
    if header_ok header then Ok (Continue (set_state d OUTSIDEBLK)) else Ok (DecodeError d).

Definition step_outsideblk (d : zlib_decompress_ctx) : res outcome :=
  if r_nbits (d_reg d) <? 3 then Ok (Finished d)
  else
    let reg := EATBITS (d_reg d) 1 in
    let blktype := Z.land (r_bits reg) 3 in
    let reg := EATBITS reg 2 in
    if blktype =? 0 then
      let to_eat := Z.land (r_nbits reg) 7 in
      Ok (Continue (set_reg (set_state d UNCOMP_LEN) (EATBITS reg to_eat)))
    else if blktype =? 1 then
      Ok (Continue (set_state (set_tables (set_reg d reg) TStatic TStatic (d_lenlentable d)) INBLK))
    else if blktype =? 2 then Ok (Continue (set_state (set_reg d reg) TREES_HDR))
    else Ok (Continue (set_reg d reg)).

Definition step_trees_hdr (d : zlib_decompress_ctx) : res outcome :=
  let reg := d_reg d in
  let t := d_trees d in
  if r_nbits reg <? 5 + 5 + 4 then Ok (Finished d)
  else
    let hlit := 257 + Z.land (r_bits reg) 31 in
    let reg := EATBITS reg 5 in
    let hdist := 1 + Z.land (r_bits reg) 31 in
    let reg := EATBITS reg 5 in
    let hclen := 4 + Z.land (r_bits reg) 15 in
    let reg := EATBITS reg 4 in
    Ok (Continue (set_state (set_reg (set_trees d
      (Trees hlit hdist hclen 0 (t_lenextrabits t) (t_lenaddon t) (t_lenrep t) (replicate 19 0) (t_lengths t)))
      reg) TREES_LENLEN)).

Definition step_trees_lenlen (d : zlib_decompress_ctx) : res outcome :=
  if r_nbits (d_reg d) <? 3 then Ok (Finished d)
  else
    let! r := read_lenlen (Z.to_nat (r_nbits (d_reg d))) (d_trees d) (d_reg d) in
    let '(t, reg) := r in
    let d := set_reg (set_trees d t) reg in
    if t_lenptr t =? t_hclen t then
      let! tab := zlib_mktable (t_lenlen t) 19 in
      Ok (Continue (set_state (set_trees (set_tables d (d_currlentable d) (d_currdisttable d) (Some tab))
                                         (set_lenptr t 0)) TREES_LEN))
    else Ok (Continue d).

Definition step_trees_len (d : zlib_decompress_ctx) : res outcome :=
  let t := d_trees d in
  if t_hlit t + t_hdist t <=? t_lenptr t then
    let! lt := zlib_mktable (t_lengths t) (t_hlit t) in
    let! dt := zlib_mktable (drop (Z.to_nat (t_hlit t)) (t_lengths t)) (t_hdist t) in
    Ok (Continue (set_state (set_tables d (TDynamic lt) (TDynamic dt) None) INBLK))
  else
    let! r := zlib_huflookup (d_reg d) (d_lenlentable d) in
    let '(code, reg) := r in
    let d := set_reg d reg in
    if code =? -1 then Ok (Finished d)
    else if code =? -2 then Ok (DecodeError d)
    else if code <? 16 then
      let! ls := array_set (t_lengths t) (t_lenptr t) (u8 code) in
      Ok (Continue (set_trees d
        (Trees (t_hlit t) (t_hdist t) (t_hclen t) (t_lenptr t + 1) (t_lenextrabits t) (t_lenaddon t)
               (t_lenrep t) (t_lenlen t) ls)))
    else
      let lenextrabits := if code =? 16 then 2 else if code =? 17 then 3 else 7 in
      let lenaddon := if code =? 18 then 11 else 3 in
      let! lenrep := if (code =? 16) && (0 <? t_lenptr t)
                     then array_get (t_lengths t) (t_lenptr t - 1) else Ok 0 in
      Ok (Continue (set_state (set_trees d
        (Trees (t_hlit t) (t_hdist t) (t_hclen t) (t_lenptr t) lenextrabits lenaddon lenrep
               (t_lenlen t) (t_lengths t))) TREES_LENREP)).

Definition step_trees_lenrep (d : zlib_decompress_ctx) : res outcome :=
  let t := d_trees d in
  let reg := d_reg d in
  if r_nbits reg <? t_lenextrabits t then Ok (Finished d)
  else
    let rep := t_lenaddon t + low_bits reg (t_lenextrabits t) in
    let reg := EATBITS reg (t_lenextrabits t) in
    let! t := repeat_len (Z.to_nat rep) t in
    Ok (Continue (set_state (set_reg (set_trees d t) reg) TREES_LEN)).

Definition step_inblk (d : zlib_decompress_ctx) : res outcome :=
  let! r := zlib_huflookup (d_reg d) (currlentable d) in
  let '(code, reg) := r in
  let d := set_reg d reg in
  if code =? -1 then Ok (Finished d)
  else if code =? -2 then Ok (DecodeError d)
  else if code <? 256 then
    let! w := zlib_emit_char (d_win d) code in Ok (Continue (set_dwin d w))
  else if code =? 256 then
    Ok (Continue (set_state (set_tables d (drop_dynamic (d_currlentable d))
                               (drop_dynamic (d_currdisttable d)) (d_lenlentable d)) OUTSIDEBLK))
  else if code <? 286 then Ok (Continue (set_sym (set_state d GOTLENSYM) code))
  else Ok (DecodeError d).

Definition step_gotlensym (d : zlib_decompress_ctx) : res outcome :=
  let! rec := array_get lencodes (d_sym d - 257) in
  if r_nbits (d_reg d) <? cr_extrabits rec then Ok (Finished d)
  else
    let len := cr_min rec + low_bits (d_reg d) (cr_extrabits rec) in
    Ok (Continue (set_state (set_len (set_reg d (EATBITS (d_reg d) (cr_extrabits rec))) len) GOTLEN)).

Definition step_gotlen (d : zlib_decompress_ctx) : res outcome :=
  let! r := zlib_huflookup (d_reg d) (currdisttable d) in
  let '(code, reg) := r in
  let d := set_reg d reg in
  if code =? -1 then Ok (Finished d)
  else if code =? -2 then Ok (DecodeError d)
  else if 30 <=? code then Ok (DecodeError d)
  else Ok (Continue (set_sym (set_state d GOTDISTSYM) code)).

Definition step_gotdistsym (d : zlib_decompress_ctx) : res outcome :=
  let! rec := array_get distcodes (d_sym d) in
  if r_nbits (d_reg d) <? cr_extrabits rec then Ok (Finished d)
  else
    let dist := cr_min rec + low_bits (d_reg d) (cr_extrabits rec) in
    let d := set_state (set_reg d (EATBITS (d_reg d) (cr_extrabits rec))) INBLK in
    let! w := copy_loop (Z.to_nat (d_len d)) (d_win d) dist in
    Ok (Continue (set_len (set_dwin d w) (-1))).

Definition step_uncomp_len (d : zlib_decompress_ctx) : res outcome :=
  if r_nbits (d_reg d) <? 16 then Ok (Finished d)
  else
    let uncomplen := Z.land (r_bits (d_reg d)) 0xFFFF in
    Ok (Continue (set_state (set_uncomplen (set_reg d (EATBITS (d_reg d) 16)) uncomplen) UNCOMP_NLEN)).

Definition step_uncomp_nlen (d : zlib_decompress_ctx) : res outcome :=
  if r_nbits (d_reg d) <? 16 then Ok (Finished d)
  else
    let nlen := Z.land (r_bits (d_reg d)) 0xFFFF in
    let d := set_reg d (EATBITS (d_reg d) 16) in
    if negb (d_uncomplen d =? Z.lxor nlen 0xFFFF) then Ok (DecodeError d)
    else if d_uncomplen d =? 0 then Ok (Continue (set_state d OUTSIDEBLK))
    else Ok (Continue (set_state d UNCOMP_DATA)).

Definition step_uncomp_data (d : zlib_decompress_ctx) : res outcome :=
  if r_nbits (d_reg d) <? 8 then Ok (Finished d)
  else
    let! w := zlib_emit_char (d_win d) (Z.land (r_bits (d_reg d)) 0xFF) in
    let d := set_uncomplen (set_dwin (set_reg d (EATBITS (d_reg d) 8)) w) (d_uncomplen d - 1) in
    if d_uncomplen d =? 0 then Ok (Continue (set_state d OUTSIDEBLK)) else Ok (Continue d).

Definition zlib_step (d : zlib_decompress_ctx) : res outcome :=
  match d_state d with
  | START => step_start d
  | OUTSIDEBLK => step_outsideblk d
  | TREES_HDR => step_trees_hdr d
  | TREES_LENLEN => step_trees_lenlen d
  | TREES_LEN => step_trees_len d
  | TREES_LENREP => step_trees_lenrep d
  | INBLK => step_inblk d
  | GOTLENSYM => step_gotlensym d
  | GOTLEN => step_gotlen d
  | GOTDISTSYM => step_gotdistsym d
  | UNCOMP_LEN => step_uncomp_len d
  | UNCOMP_NLEN => step_uncomp_nlen d
  | UNCOMP_DATA => step_uncomp_data d
  end.

(** [while (len > 0 || dctx->nbits > 0)]: [true] for [finished]. *)
Fixpoint decompress_loop (fuel : nat) (d : zlib_decompress_ctx) (block : list Z)
  : res (bool * zlib_decompress_ctx) :=
  if (0 <? zlen block) || (0 <? r_nbits (d_reg d)) then
    match fuel with
    | O => Crash OutOfFuel
    | S fuel =>
        let '(reg, block) := refill (d_reg d) block in
        let! o := zlib_step (set_reg d reg) in
        match o with
        | Continue d => decompress_loop fuel d block
        | Finished d => Ok (true, d)
        | DecodeError d => Ok (false, d)
        end
    end
  else Ok (true, d).

(** Rounds enough: two for each bit, and the table-building one. *)
Definition decompress_fuel (d : zlib_decompress_ctx) (block : list Z) : nat :=
  Z.to_nat (2 * (r_nbits (d_reg d) + 8 * zlen block) + 2).

(** The output block, or nothing for [false]. *)
Definition zlib_decompress_block (d : zlib_decompress_ctx) (block : list Z)
  : res (option (list Z) * zlib_decompress_ctx) :=
  let w := d_win d in
  c_assert (match w_outblk w with None => true | Some _ => false end) (
    let! sb := strbuf_new_nm in
    let d := set_dwin d (ZWindow (w_window w) (w_winpos w) (Some sb)) in
    let! r := decompress_loop (decompress_fuel d block) d block in
    let '(finished, d) := r in
    if finished : bool then
      match w_outblk (d_win d) with
      | None => Crash UndefinedBehaviour
      | Some sb =>
          let! outblock := strbuf_contents sb in
          Ok (Some outblock, set_dwin d (ZWindow (w_window (d_win d)) (w_winpos (d_win d)) None))
      end
    else Ok (None, d)).
