(* ===== verification/ZlibBits.v ===== *)
(** * Bit streams of the compressor and the decompressor

    Bits in the order of the stream: [outbits] appends to it, [refill] and [EATBITS]
    read from it.  The fixed Huffman codes are checked against the tables that the
    decompressor builds, and the tables of lengths and distances against each
    other, by evaluation. *)

From S2P Require Import Prelude Bufchain Marshal Strbuf Lz77 Zlib.
Local Open Scope cmodel_scope.
Local Open Scope Z_scope.

(** ** Bits *)

(** The [n] lowest bits of [v], lowest first. *)
Fixpoint lsb (n : nat) (v : Z) : list bool :=
  match n with
  | O => []
  | S n => Z.odd v :: lsb n (Z.div2 v)
  end.

Definition bits_of_bytes (l : list Z) : list bool := concat (lsb 8 <$> l).

Lemma length_lsb n v : length (lsb n v) = n.
Proof. revert v. induction n as [|n IH]; intros v; [done|]. cbn. by rewrite IH. Qed.

Lemma lsb_app n m v : lsb (n + m) v = lsb n v ++ lsb m (Z.shiftr v (Z.of_nat n)).
Proof.
  revert v. induction n as [|n IH]; intros v; [by rewrite Z.shiftr_0_r|].
  cbn [lsb app Nat.add]. rewrite IH. do 3 f_equal.
  rewrite Z.div2_spec, Z.shiftr_shiftr by lia. f_equal. lia.
Qed.

Lemma lsb_ext n v w : (forall i, 0 <= i < Z.of_nat n -> Z.testbit v i = Z.testbit w i) -> lsb n v = lsb n w.
Proof.
  revert v w. induction n as [|n IH]; intros v w H; [done|]. cbn [lsb]. f_equal.
  - rewrite <-!Z.bit0_odd. apply H. lia.
  - apply IH. intros i Hi. rewrite !Z.div2_spec, !Z.shiftr_spec by lia. apply H. lia.
Qed.

Lemma lsb_inj n v w : lsb n v = lsb n w -> v mod 2 ^ Z.of_nat n = w mod 2 ^ Z.of_nat n.
Proof.
  revert v w. induction n as [|n IH]; intros v w H; [by rewrite !Z.mod_1_r|]. cbn [lsb] in H.
  injection H as Ho Hd. apply IH in Hd. rewrite Nat2Z.inj_succ, Z.pow_succ_r by lia.
  assert (Hs : forall x, x mod (2 * 2 ^ Z.of_nat n) = 2 * (Z.div2 x mod 2 ^ Z.of_nat n) + Z.b2z (Z.odd x)).
  { intros x. rewrite (Z.div2_odd x) at 1. set (d := Z.div2 x).
    pose proof (Z.pow_pos_nonneg 2 (Z.of_nat n) ltac:(lia) ltac:(lia)) as Hp.
    pose proof (Z.mod_pos_bound d (2 ^ Z.of_nat n) Hp). symmetry.
    apply Z.mod_unique_pos with (d / 2 ^ Z.of_nat n); [destruct (Z.odd x); cbn [Z.b2z]; lia|].
    pose proof (Z.div_mod d (2 ^ Z.of_nat n) ltac:(lia)). lia. }
  by rewrite !Hs, Ho, Hd.
Qed.

Lemma lsb_mod n v m : (n <= m)%nat -> lsb n (v mod 2 ^ Z.of_nat m) = lsb n v.
Proof. intros H. apply lsb_ext. intros i Hi. apply Z.mod_pow2_bits_low. lia. Qed.

(** Putting the bits of [w] behind the [n] bits of [v]. *)
Lemma lsb_lor n m v w :
  0 <= v < 2 ^ Z.of_nat n -> lsb (n + m) (Z.lor v (Z.shiftl w (Z.of_nat n))) = lsb n v ++ lsb m w.
Proof.
  intros Hv. rewrite lsb_app. f_equal; apply lsb_ext; intros i Hi.
  - rewrite Z.lor_spec, Z.shiftl_spec by lia. rewrite (Z.testbit_neg_r w) by lia. by rewrite orb_false_r.
  - rewrite Z.shiftr_spec, Z.lor_spec, Z.shiftl_spec by lia.
    rewrite (bits_high (Z.of_nat n) v) by lia. cbn [orb]. f_equal. lia.
Qed.

Lemma lsb_land n v m : (n <= m)%nat -> lsb n (Z.land v (Z.ones (Z.of_nat m))) = lsb n v.
Proof. intros H. rewrite Z.land_ones by lia. by apply lsb_mod. Qed.

Lemma bits_of_bytes_app l l' : bits_of_bytes (l ++ l') = bits_of_bytes l ++ bits_of_bytes l'.
Proof. unfold bits_of_bytes. by rewrite fmap_app, concat_app. Qed.

Lemma bits_of_bytes_cons b l : bits_of_bytes (b :: l) = lsb 8 b ++ bits_of_bytes l.
Proof. done. Qed.

Lemma length_bits_of_bytes l : zlen (bits_of_bytes l) = 8 * zlen l.
Proof.
  induction l as [|b l IH]; [done|]. rewrite bits_of_bytes_cons, length_app, length_lsb. cbn [length]. lia.
Qed.

(** ** Writing bits *)

(** The bits written so far: those of the bytes in the buffer and the remaining ones. *)
Definition out_stream (out : Outbuf) (s : list bool) : Prop :=
  exists sb bytes, ob_outbuf out = Some sb /\ strbuf_holds sb bytes /\ bytesOK bytes /\
    0 <= ob_noutbits out < 8 /\ 0 <= ob_outbits out < 2 ^ ob_noutbits out /\
    s = bits_of_bytes bytes ++ lsb (Z.to_nat (ob_noutbits out)) (ob_outbits out).

Definition out_limit : Z := 8 * strbuf_limit.

(** An operation that writes the bits [bs]. *)
Definition writes (op : Outbuf -> res Outbuf) (bs : list bool) : Prop :=
  forall out s, out_stream out s -> zlen (s ++ bs) <= out_limit ->
    exists out', op out = Ok out' /\ out_stream out' (s ++ bs) /\ ob_firstblock out' = ob_firstblock out.

Lemma writes_nil : writes Ok [].
Proof. intros out s Hs _. exists out. by rewrite app_nil_r. Qed.

Lemma writes_bind op op' bs bs' :
  writes op bs -> writes op' bs' -> writes (fun out => let! out := op out in op' out) (bs ++ bs').
Proof.
  intros H H' out s Hs Hl. rewrite !app_assoc in Hl.
  destruct (H out s Hs) as (out1 & E & Hs1 & F1); [rewrite length_app in Hl; lia|].
  destruct (H' out1 _ Hs1 Hl) as (out2 & E2 & Hs2 & F2).
  exists out2. rewrite E. cbn [res_bind]. rewrite app_assoc. split; [done|]. split; [done|congruence].
Qed.

Lemma writes_ext op op' bs : (forall out, op out = op' out) -> writes op bs -> writes op' bs.
Proof. intros E H out s Hs Hl. rewrite <-E. by apply H. Qed.

Lemma outbits_loop_ok fuel out sb bytes n :
  ob_noutbits out = Z.of_nat n -> (n < 8 + 8 * fuel)%nat -> 0 <= ob_outbits out < 2 ^ ob_noutbits out ->
  ob_outbuf out = Some sb -> strbuf_holds sb bytes -> bytesOK bytes ->
  8 * zlen bytes + Z.of_nat n <= out_limit ->
  exists out', outbits_loop fuel out = Ok out' /\
    out_stream out' (bits_of_bytes bytes ++ lsb n (ob_outbits out)) /\ ob_firstblock out' = ob_firstblock out.
Proof.
  revert out sb bytes n. induction fuel as [|fuel IH]; intros out sb bytes n En Hf Hv Esb Hsb Hb Hl; cbn [outbits_loop].
  - rewrite (proj2 (Z.leb_gt _ _)) by lia. exists out. split; [done|]. split; [|done].
    exists sb, bytes. rewrite En, Nat2Z.id in *. split_and!; (done || lia).
  - destruct (Z.leb_spec 8 (ob_noutbits out)) as [Hge|Hlt].
    + rewrite Esb. unfold BinarySink_put_byte. change 0xFF with (Z.ones 8).
      destruct (strbuf_write_ok sb bytes [u8 (Z.land (ob_outbits out) (Z.ones 8))]) as (sb' & E & Hsb'); [done| |].
      { rewrite length_app. cbn [length]. unfold out_limit in Hl. lia. }
      change (bs_write sb) with (strbuf_BinarySink_write sb). rewrite E. cbn [res_bind].
      assert (Hbyte : u8 (Z.land (ob_outbits out) (Z.ones 8)) = ob_outbits out mod 2 ^ 8).
      { rewrite Z.land_ones by lia. unfold u8. by rewrite Z.mod_mod. }
      rewrite Hbyte in *.
      edestruct (IH (OutBuf (Some sb') (Z.shiftr (ob_outbits out) 8) (ob_noutbits out - 8) (ob_firstblock out)))
        with (n := (n - 8)%nat) as (out' & E' & Hs & Hfb).
      { cbn. lia. }
      { lia. }
      { cbn. rewrite Z.shiftr_div_pow2 by lia. split; [apply Z.div_pos; lia|].
        apply Z.div_lt_upper_bound; [lia|]. rewrite <-Z.pow_add_r by lia. replace (8 + (ob_noutbits out - 8)) with (ob_noutbits out) by lia. lia. }
      { done. }
      { exact Hsb'. }
      { apply bytesOK_app. split; [done|]. apply Forall_singleton. apply Z.mod_pos_bound. lia. }
      { rewrite length_app. cbn [length]. lia. }
      exists out'. split; [done|]. split; [|done]. cbn [ob_outbits] in Hs.
      rewrite bits_of_bytes_app, <-app_assoc in Hs. rewrite bits_of_bytes_cons in Hs. cbn [bits_of_bytes concat fmap list_fmap] in Hs.
      rewrite app_nil_r in Hs. change 8 with (Z.of_nat 8) in Hs. rewrite lsb_mod in Hs by lia.
      rewrite <-lsb_app in Hs. by replace (8 + (n - 8))%nat with n in Hs by lia.
    + exists out. split; [done|]. split; [|done]. exists sb, bytes. rewrite En, Nat2Z.id in *. split_and!; (done || lia).
Qed.

Lemma outbits_writes v n :
  0 <= n <= 24 -> 0 <= v < 2 ^ n -> writes (fun out => outbits out v n) (lsb (Z.to_nat n) v).
Proof.
  intros Hn Hv out s (sb & bytes & Esb & Hsb & Hb & Hnb & Hob & ->) Hl. unfold outbits.
  rewrite c_assert_true by (apply Z.leb_le; lia). cbn [ob_noutbits].
  set (k := ob_noutbits out) in *.
  assert (Hsh : 0 <= Z.shiftl v k < 2 ^ (k + n)).
  { rewrite Z.shiftl_mul_pow2, Z.pow_add_r by lia. nia. }
  assert (Hu : ulong (Z.shiftl v k) = Z.shiftl v k).
  { unfold ulong. apply Z.mod_small. pose proof (Z.pow_le_mono_r 2 (k + n) 32). lia. }
  rewrite Hu.
  edestruct (outbits_loop_ok (Z.to_nat (k + n)) (OutBuf (ob_outbuf out) (Z.lor (ob_outbits out) (Z.shiftl v k)) (k + n) (ob_firstblock out)))
    with (n := Z.to_nat (k + n)) as (out' & E & Hs & Hf).
  { cbn. lia. }
  { lia. }
  { cbn. apply lor_bound; [lia| |done]. pose proof (Z.pow_le_mono_r 2 k (k + n)). lia. }
  { exact Esb. }
  { exact Hsb. }
  { done. }
  { rewrite !length_app, !length_lsb in Hl. pose proof (length_bits_of_bytes bytes). lia. }
  exists out'. split; [done|]. split; [|done]. cbn [ob_outbits] in Hs.
  rewrite Z2Nat.inj_add in Hs by lia. replace (Z.shiftl v k) with (Z.shiftl v (Z.of_nat (Z.to_nat k))) in Hs by (f_equal; lia).
  rewrite lsb_lor in Hs by (rewrite Z2Nat.id by lia; done). by rewrite <-app_assoc.
Qed.

(** ** Reading bits *)

(** The register holds the bits [s]. *)
Definition reg_holds (reg : bitreg) (s : list bool) : Prop :=
  0 <= r_nbits reg /\ 0 <= r_bits reg < 2 ^ r_nbits reg /\ s = lsb (Z.to_nat (r_nbits reg)) (r_bits reg).

Lemma reg_holds_length reg s : reg_holds reg s -> r_nbits reg = zlen s.
Proof. intros (Hn & _ & ->). rewrite length_lsb. lia. Qed.

Lemma EATBITS_holds reg s n : reg_holds reg s -> 0 <= n <= r_nbits reg -> reg_holds (EATBITS reg n) (drop (Z.to_nat n) s).
Proof.
  intros (Hn & Hb & ->) Hr. unfold EATBITS, reg_holds. cbn [r_bits r_nbits]. split; [lia|]. split.
  - rewrite Z.shiftr_div_pow2 by lia. split; [apply Z.div_pos; lia|].
    apply Z.div_lt_upper_bound; [lia|]. rewrite <-Z.pow_add_r by lia. replace (n + (r_nbits reg - n)) with (r_nbits reg) by lia. lia.
  - replace (Z.to_nat (r_nbits reg)) with (Z.to_nat n + Z.to_nat (r_nbits reg - n))%nat by lia.
    rewrite lsb_app, drop_app_length' by (by rewrite length_lsb). by rewrite Z2Nat.id by lia.
Qed.

(** Masking gives the value of the bits. *)
Lemma reg_low reg v n s :
  0 <= n -> 0 <= v < 2 ^ n -> reg_holds reg (lsb (Z.to_nat n) v ++ s) -> r_bits reg mod 2 ^ n = v.
Proof.
  intros Hn Hv H. pose proof (reg_holds_length _ _ H) as Hl. rewrite length_app, length_lsb in Hl.
  destruct H as (Hr & Hb & E).
  replace (Z.to_nat (r_nbits reg)) with (Z.to_nat n + Z.to_nat (r_nbits reg - n))%nat in E by lia.
  rewrite lsb_app in E. apply app_inj_1 in E as [E _]; [|by rewrite !length_lsb].
  apply lsb_inj in E. rewrite Z2Nat.id in E by lia. rewrite <-E. by apply Z.mod_small.
Qed.

Lemma reg_low_bits reg v n s :
  0 <= n -> 0 <= v < 2 ^ n -> reg_holds reg (lsb (Z.to_nat n) v ++ s) -> low_bits reg n = v.
Proof.
  intros Hn Hv H. unfold low_bits. rewrite Z.shiftl_1_l.
  replace (2 ^ n - 1) with (Z.ones n) by (rewrite Z.ones_equiv; lia). rewrite Z.land_ones by lia.
  by apply (reg_low _ _ _ s).
Qed.

Lemma reg_eat reg v n s :
  0 <= n -> reg_holds reg (lsb (Z.to_nat n) v ++ s) -> reg_holds (EATBITS reg n) s.
Proof.
  intros Hn H. pose proof (reg_holds_length _ _ H) as Hl. rewrite length_app, length_lsb in Hl.
  apply (EATBITS_holds _ _ n) in H; [|lia]. by rewrite drop_app_length' in H by (by rewrite length_lsb).
Qed.

(** [refill] moves bits from the block to the register, until there are 24. *)
Lemma refill_ok reg s block reg' block' :
  reg_holds reg s -> bytesOK block -> refill reg block = (reg', block') ->
  exists s', reg_holds reg' s' /\ s' ++ bits_of_bytes block' = s ++ bits_of_bytes block /\
    bytesOK block' /\ (24 <= r_nbits reg' \/ block' = []) /\ (r_nbits reg < 24 -> r_nbits reg' < 32) /\
    (r_nbits reg <= r_nbits reg').
Proof.
  revert reg s. induction block as [|b block IH]; intros reg s Hr Hb E; cbn [refill] in E.
  { injection E as <- <-. exists s. split_and!; auto; lia. }
  destruct (Z.ltb_spec (r_nbits reg) 24) as [Hlt|Hge].
  - inversion Hb as [|?? Hb0 Hb']; subst. pose proof Hr as (Hn & Hv & Es).
    assert (Hr1 : reg_holds (Reg (Z.lor (r_bits reg) (Z.shiftl b (r_nbits reg))) (r_nbits reg + 8)) (s ++ lsb 8 b)).
    { unfold reg_holds. cbn [r_bits r_nbits]. split; [lia|]. split.
      - apply lor_bound; [lia| |]; rewrite ?Z.shiftl_mul_pow2, ?Z.pow_add_r by lia; unfold is_byte in Hb0; nia.
      - rewrite Z2Nat.inj_add by lia. replace (Z.shiftl b (r_nbits reg)) with (Z.shiftl b (Z.of_nat (Z.to_nat (r_nbits reg)))) by (f_equal; lia).
        rewrite lsb_lor by (rewrite Z2Nat.id by lia; done). by rewrite <-Es. }
    destruct (IH _ _ Hr1 Hb' E) as (s' & Hr' & Es' & Hb'' & Hfull & Hmax & Hmono). cbn [r_nbits] in *.
    exists s'. split_and!; try done; [|intros _; destruct (Z.ltb_spec (r_nbits reg + 8) 24)|lia].
    + rewrite Es', bits_of_bytes_cons, app_assoc. done.
    + by apply Hmax.
    + destruct block as [|b' block]; cbn [refill] in E.
      { injection E as <- <-. cbn. lia. }
      cbn [r_nbits] in E. rewrite (proj2 (Z.ltb_ge _ _)) in E by lia. injection E as <- <-. cbn. lia.
  - injection E as <- <-. exists s. split_and!; auto; lia.
Qed.
