(* ===== verification/ZlibCode.v ===== *)
(** * The symbols of a compressed stream

    A stream is a sequence of symbols, each with its bits as RFC 1951 gives them for
    blocks with the fixed codes.  The compressor writes these bits; the decode
    tables that the decompressor builds read them. *)

From S2P Require Import Prelude Bufchain Marshal Strbuf Lz77 Lz77Spec Zlib ZlibBits.
Local Open Scope cmodel_scope.
Local Open Scope Z_scope.

(** ** Codes *)

(** Huffman codes are packed starting with their highest bit. *)
Definition msb (n : nat) (v : Z) : list bool := rev (lsb n v).

(** RFC 1951, 3.2.6. *)
Definition fixed_code (s : Z) : list bool :=
  if s <? 144 then msb 8 (0x30 + s)
  else if s <? 256 then msb 9 (0x190 + (s - 144))
  else if s <? 280 then msb 7 (s - 256)
  else msb 8 (0xC0 + (s - 280)).

Definition fixed_dist_code (s : Z) : list bool := msb 5 s.

Fixpoint unlsb (l : list bool) : Z :=
  match l with [] => 0 | b :: l => Z.b2z b + 2 * unlsb l end.

Lemma unlsb_range l : 0 <= unlsb l < 2 ^ zlen l.
Proof.
  induction l as [|b l IH]; [cbn; lia|]. cbn [unlsb length]. rewrite Nat2Z.inj_succ, Z.pow_succ_r by lia.
  destruct b; cbn [Z.b2z]; lia.
Qed.

Lemma lsb_unlsb l : lsb (length l) (unlsb l) = l.
Proof.
  induction l as [|b l IH]; [done|]. cbn [length lsb unlsb].
  assert (E : Z.odd (Z.b2z b + 2 * unlsb l) = b /\ Z.div2 (Z.b2z b + 2 * unlsb l) = unlsb l).
  { rewrite Z.div2_div, Z.odd_add, Z.odd_mul. cbn [Z.odd]. rewrite xorb_false_r.
    split; [by destruct b|]. destruct b; cbn [Z.b2z]; Z.div_mod_to_equations; lia. }
  destruct E as [-> ->]. by rewrite IH.
Qed.

(** ** Looking up a code *)

Definition entry_is (T : zlib_table) (idx k s : Z) : bool :=
  match tab_table T !! Z.to_nat idx with
  | Some (Entry n c None) => (n =? k) && (c =? s)
  | _ => false
  end.

(** In a table of [B] bits, every index that starts with the code leads to [s]. *)
Definition decodes (T : zlib_table) (B : Z) (code : list bool) (s : Z) : bool :=
  (tab_mask T =? 2 ^ B - 1) && (0 <=? s) && (zlen code <=? B) && (1 <=? zlen code) &&
  forallb (fun hi => entry_is T (unlsb code + 2 ^ zlen code * hi) (zlen code) s)
    (Z.of_nat <$> seq 0 (Z.to_nat (2 ^ (B - zlen code)))).

Lemma huflookup_decodes T B code s reg rest :
  decodes T B code s = true -> reg_holds reg (code ++ rest) ->
  exists reg', zlib_huflookup reg (Some T) = Ok (s, reg') /\ reg_holds reg' rest.
Proof.
  unfold decodes. rewrite !andb_true_iff, Z.eqb_eq, !Z.leb_le. intros [[[[Em Hs] HB] H1] Hall] Hr.
  set (k := zlen code) in *. pose proof (reg_holds_length _ _ Hr) as Hl. rewrite length_app in Hl.
  assert (Hr' := Hr). rewrite <-(lsb_unlsb code) in Hr'. rewrite <-(Nat2Z.id (length code)) in Hr' at 1.
  pose proof (reg_low reg (unlsb code) (zlen code) rest ltac:(lia) (unlsb_range code) Hr') as Hlow. fold k in Hlow.
  set (v := unlsb code) in *. set (b := r_bits reg) in *.
  assert (Hidx : Z.land b (tab_mask T) = v + 2 ^ k * ((b mod 2 ^ B) / 2 ^ k)).
  { rewrite Em. replace (2 ^ B - 1) with (Z.ones B) by (rewrite Z.ones_equiv; lia).
    rewrite Z.land_ones by lia. rewrite (Z.div_mod (b mod 2 ^ B) (2 ^ k)) at 1 by lia.
    rewrite <-(Z.mod_mod_divide b (2 ^ B) (2 ^ k)) in Hlow.
    - rewrite Hlow. lia.
    - exists (2 ^ (B - k)). rewrite <-Z.pow_add_r by lia. f_equal. lia. }
  assert (He : entry_is T (Z.land b (tab_mask T)) k s = true).
  { rewrite Hidx. apply (proj1 (forallb_forall _ _) Hall). apply list_elem_of_In, list_elem_of_fmap.
    set (hi := b mod 2 ^ B / 2 ^ k).
    assert (0 <= hi < 2 ^ (B - k)).
    { unfold hi. pose proof (Z.mod_pos_bound b (2 ^ B) ltac:(lia)). split; [apply Z.div_pos; lia|].
      apply Z.div_lt_upper_bound; [lia|]. rewrite <-Z.pow_add_r by lia. replace (k + (B - k)) with B by lia. lia. }
    exists (Z.to_nat hi). split; [lia|]. apply elem_of_seq. lia. }
  unfold zlib_huflookup. cbn [huflookup_loop]. fold b. unfold entry_is in He.
  destruct (tab_table T !! _) as [[n c [?|]]|] eqn:E; try done.
  apply andb_true_iff in He as [->%Z.eqb_eq ->%Z.eqb_eq].
  rewrite (array_get_ok _ _ (Entry k s None)); [|apply Z.land_nonneg; left; destruct Hr as (_ & ? & _); lia|done].
  cbn [res_bind te_nbits te_code te_nexttable]. rewrite (proj2 (Z.ltb_ge _ _)) by lia.
  rewrite (proj2 (Z.eqb_neq s (-1))) by lia. eexists. split; [done|].
  apply (reg_eat reg v k rest); [lia|done].
Qed.

(** ** The tables, checked *)

Definition Zrange (a n : Z) : list Z := (fun i => a + Z.of_nat i) <$> seq 0 (Z.to_nat n).

Lemma Zrange_forall (P : Z -> bool) a n :
  forallb P (Zrange a n) = true -> forall x, a <= x < a + n -> P x = true.
Proof.
  intros H x Hx. apply (proj1 (forallb_forall _ _) H). apply list_elem_of_In, list_elem_of_fmap.
  exists (Z.to_nat (x - a)). split; [lia|]. apply elem_of_seq. lia.
Qed.

(** The two static tables decode the fixed codes; with nothing but zero bits, the code
    of the end of a block is not taken before it is complete. *)
Record static_tables (lt dt : zlib_table) : Prop := {
  st_len : forall s, 0 <= s < 288 -> decodes lt 9 (fixed_code s) s = true;
  st_dist : forall s, 0 <= s < 32 -> decodes dt 5 (fixed_dist_code s) s = true;
  st_end : entry_is lt 0 7 256 = true
}.

Lemma static_tables_made :
  exists lt dt, zlib_mktable static_lengths 288 = Ok lt /\
    zlib_mktable (replicate 32 5 ++ drop 32 static_lengths) 32 = Ok dt /\ static_tables lt dt.
Proof.
  assert (H : match zlib_mktable static_lengths 288, zlib_mktable (replicate 32 5 ++ drop 32 static_lengths) 32 with
    | Ok lt, Ok dt =>
        forallb (fun s => decodes lt 9 (fixed_code s) s) (Zrange 0 288) &&
        forallb (fun s => decodes dt 5 (fixed_dist_code s) s) (Zrange 0 32) && entry_is lt 0 7 256
    | _, _ => false
    end = true) by (vm_compute; reflexivity).
  destruct (zlib_mktable static_lengths 288) as [lt|]; [|done].
  destruct (zlib_mktable (replicate 32 5 ++ drop 32 static_lengths) 32) as [dt|]; [|done].
  apply andb_true_iff in H as [[H1 H2]%andb_true_iff H3].
  exists lt, dt. do 2 (split; [done|]). split; [|by apply (Zrange_forall _ _ _ H2)|done].
  by apply (Zrange_forall _ _ _ H1).
Qed.

Definition bits_eqb (l l' : list bool) : bool := bool_decide (l = l').

(** Literals: the bits written are the code. *)
Definition literal_bits_ok (c : Z) : bool :=
  if c <=? 143 then
    match array_get mirrorbytes (0x30 + c) with
    | Ok m => (0 <=? m) && (m <? 2 ^ 8) && bits_eqb (lsb 8 m) (fixed_code c)
    | Crash _ => false
    end
  else
    match array_get mirrorbytes (0x90 - 144 + c) with
    | Ok m => (0 <=? m) && (1 + 2 * m <? 2 ^ 9) && bits_eqb (lsb 9 (1 + 2 * m)) (fixed_code c)
    | Crash _ => false
    end.

Lemma literal_bits c : is_byte c -> literal_bits_ok c = true.
Proof. apply byte_forall. vm_compute. reflexivity. Qed.

Lemma zlib_literal_writes c : is_byte c -> writes (fun out => zlib_literal out c) (fixed_code c).
Proof.
  intros Hc%literal_bits. unfold literal_bits_ok in Hc. unfold zlib_literal.
  destruct (c <=? 143); destruct (array_get _ _) as [m|]; try done; cbn [res_bind];
    apply andb_true_iff in Hc as [[Hm1%Z.leb_le Hm2%Z.ltb_lt]%andb_true_iff <-%bool_decide_eq_true].
  - apply (outbits_writes m 8); lia.
  - apply (outbits_writes (1 + 2 * m) 9); lia.
Qed.

(** ** Lengths and distances *)

#[export] Instance coderecord_eq_dec : EqDecision coderecord.
Proof. solve_decision. Defined.

(** The records cover the range from [lo] to [hi] without gaps. *)
Fixpoint contiguous (codes : list coderecord) (lo hi : Z) : bool :=
  match codes with
  | [] => lo =? hi + 1
  | r :: codes => (cr_min r =? lo) && (lo <=? cr_max r) && contiguous codes (cr_max r + 1) hi
  end.

(** Where the records end that are below [x]. *)
Lemma contiguous_bounds codes lo hi k r :
  contiguous codes lo hi = true -> codes !! k = Some r ->
  lo <= cr_min r <= cr_max r /\ cr_max r <= hi /\
  (forall r', codes !! S k = Some r' -> cr_min r' = cr_max r + 1) /\ (codes !! S k = None -> cr_max r = hi) /\
  (k = O -> cr_min r = lo).
Proof.
  revert lo k r. induction codes as [|r0 codes IH]; intros lo k r H E; [done|]. cbn [contiguous] in H.
  apply andb_true_iff in H as [[->%Z.eqb_eq%symmetry H2%Z.leb_le]%andb_true_iff H].
  destruct k as [|k].
  - injection E as ->. destruct codes as [|r1 codes].
    { cbn in H. apply Z.eqb_eq in H. split_and!; intros; (done || lia). }
    destruct (IH (cr_max r + 1) O r1 H eq_refl) as (H1 & H3 & _ & _ & H5). specialize (H5 eq_refl).
    split_and!; intros; try lia; try done. cbn in *. congruence.
  - destruct (IH _ k r H E) as (H1 & H3 & H4 & H5 & _). split_and!; intros; (done || lia || auto).
Qed.

Section search.
Context (codes : list coderecord) (lo hi x : Z).
Hypothesis Hcont : contiguous codes lo hi = true.
Hypothesis Hx : lo <= x <= hi.

(** The binary search: records up to [i] are too small, from [j] on too large. *)
Lemma find_code_ok fuel i j :
  -1 <= i < j -> j <= zlen codes -> j - i <= Z.of_nat fuel ->
  (i = -1 \/ 0 <= i /\ exists r, codes !! Z.to_nat i = Some r /\ cr_max r < x) ->
  (j = zlen codes \/ exists r, codes !! Z.to_nat j = Some r /\ x < cr_min r) ->
  exists k r, find_code fuel codes x i j = Ok r /\ codes !! k = Some r /\ cr_min r <= x <= cr_max r.
Proof using Hcont Hx.
  revert i j. induction fuel as [|fuel IH]; intros i j Hij Hj Hf Hi Hjr; [lia|]. cbn [find_code].
  assert (Hgap : j <> i + 1).
  { intros ->. destruct Hi as [->|(Hi0 & r & Er & Hr)].
    - destruct Hjr as [Hz|(r' & Er' & Hr')].
      + destruct codes; cbn in *; [apply Z.eqb_eq in Hcont|]; lia.
      + destruct (contiguous_bounds _ _ _ _ _ Hcont Er') as (_ & _ & _ & _ & H0). specialize (H0 eq_refl). lia.
    - destruct (contiguous_bounds _ _ _ _ _ Hcont Er) as (_ & _ & Hn & Hl & _).
      replace (Z.to_nat (i + 1)) with (S (Z.to_nat i)) in Hjr by lia. destruct Hjr as [Hz|(r' & Er' & Hr')].
      + rewrite Hl in Hr by (apply lookup_ge_None; lia). lia.
      + specialize (Hn _ Er'). lia. }
  rewrite c_assert_true by (apply Z.leb_le; lia).
  assert (Hk : i < Z.quot (j + i) 2 < j) by (rewrite Z.quot_div_nonneg by lia; Z.div_mod_to_equations; lia).
  set (k := Z.quot (j + i) 2) in *. clearbody k.
  destruct (array_get_total codes k) as (r & -> & Er); [lia|]. cbn [res_bind].
  destruct (Z.ltb_spec x (cr_min r)); [apply IH; eauto; lia|].
  destruct (Z.ltb_spec (cr_max r) x); [apply IH; eauto; (lia || (right; split; [lia|eauto]))|]. eauto 10.
Qed.

Lemma search_code_ok :
  exists k r, search_code codes x = Ok r /\ codes !! k = Some r /\ cr_min r <= x <= cr_max r.
Proof using Hcont Hx. apply find_code_ok; auto; lia. Qed.
End search.

(** The records of lengths: at the place their code says, with enough extra bits, and
    the bits written for the code. *)
Definition len_record_ok (r : coderecord) : bool :=
  (257 <=? cr_code r) && (cr_code r <? 286) &&
  bool_decide ((lencodes !! Z.to_nat (cr_code r - 257)) = Some r) &&
  (0 <=? cr_extrabits r) && (cr_extrabits r <=? 13) && (cr_max r - cr_min r <? 2 ^ cr_extrabits r) &&
  (if cr_code r <=? 279 then
     match array_get mirrorbytes ((cr_code r - 256) * 2) with
     | Ok m => (0 <=? m) && (m <? 2 ^ 7) && bits_eqb (lsb 7 m) (fixed_code (cr_code r))
     | Crash _ => false
     end
   else
     match array_get mirrorbytes (0xc0 - 280 + cr_code r) with
     | Ok m => (0 <=? m) && (m <? 2 ^ 8) && bits_eqb (lsb 8 m) (fixed_code (cr_code r))
     | Crash _ => false
     end).

Definition dist_record_ok (r : coderecord) : bool :=
  (0 <=? cr_code r) && (cr_code r <? 30) &&
  bool_decide ((distcodes !! Z.to_nat (cr_code r)) = Some r) &&
  (0 <=? cr_extrabits r) && (cr_extrabits r <=? 13) && (cr_max r - cr_min r <? 2 ^ cr_extrabits r) &&
  match array_get mirrorbytes (cr_code r * 8) with
  | Ok m => (0 <=? m) && (m <? 2 ^ 5) && bits_eqb (lsb 5 m) (fixed_dist_code (cr_code r))
  | Crash _ => false
  end.

Definition no_record : coderecord := CodeRecord 0 0 0 0.
Definition len_record (l : Z) : coderecord :=
  match search_code lencodes l with Ok r => r | Crash _ => no_record end.
Definition dist_record (d : Z) : coderecord :=
  match search_code distcodes d with Ok r => r | Crash _ => no_record end.

Lemma len_record_found l :
  3 <= l <= 258 -> let r := len_record l in
  search_code lencodes l = Ok r /\ len_record_ok r = true /\ cr_min r <= l <= cr_max r.
Proof.
  intros Hl. destruct (search_code_ok lencodes 3 258 l) as (k & r & E & Er & Hr); [by vm_compute|lia|].
  cbn zeta. unfold len_record. rewrite E. split; [done|]. split; [|done].
  assert (H : forallb len_record_ok lencodes = true) by by vm_compute.
  apply (proj1 (forallb_forall _ _) H), list_elem_of_In, list_elem_of_lookup. eauto.
Qed.

Lemma dist_record_found d :
  1 <= d <= WINSIZE -> let r := dist_record d in
  search_code distcodes d = Ok r /\ dist_record_ok r = true /\ cr_min r <= d <= cr_max r.
Proof.
  intros Hl. destruct (search_code_ok distcodes 1 WINSIZE d) as (k & r & E & Er & Hr); [by vm_compute|lia|].
  cbn zeta. unfold dist_record. rewrite E. split; [done|]. split; [|done].
  assert (H : forallb dist_record_ok distcodes = true) by by vm_compute.
  apply (proj1 (forallb_forall _ _) H), list_elem_of_In, list_elem_of_lookup. eauto.
Qed.

(** What the checks say. *)
Lemma len_record_spec l :
  3 <= l <= 258 -> let r := len_record l in
  257 <= cr_code r < 286 /\ lencodes !! Z.to_nat (cr_code r - 257) = Some r /\
  0 <= cr_extrabits r <= 13 /\ 0 <= l - cr_min r < 2 ^ cr_extrabits r.
Proof.
  intros (_ & H & Hr)%len_record_found. cbn zeta. unfold len_record_ok in H. set (r := len_record l) in *.
  rewrite !andb_true_iff, !Z.leb_le, !Z.ltb_lt, bool_decide_eq_true in H. intuition lia.
Qed.

Lemma dist_record_spec d :
  1 <= d <= WINSIZE -> let r := dist_record d in
  0 <= cr_code r < 30 /\ distcodes !! Z.to_nat (cr_code r) = Some r /\
  0 <= cr_extrabits r <= 13 /\ 0 <= d - cr_min r < 2 ^ cr_extrabits r.
Proof.
  intros (_ & H & Hr)%dist_record_found. cbn zeta. unfold dist_record_ok in H. set (r := dist_record d) in *.
  rewrite !andb_true_iff, !Z.leb_le, !Z.ltb_lt, bool_decide_eq_true in H. intuition lia.
Qed.

Definition extra_bits (r : coderecord) (x : Z) : list bool := lsb (Z.to_nat (cr_extrabits r)) (x - cr_min r).

Definition match_bits (l d : Z) : list bool :=
  fixed_code (cr_code (len_record l)) ++ extra_bits (len_record l) l ++
  fixed_dist_code (cr_code (dist_record d)) ++ extra_bits (dist_record d) d.

Lemma extra_bits_writes r x :
  0 <= cr_extrabits r <= 13 -> 0 <= x - cr_min r < 2 ^ cr_extrabits r ->
  writes (fun out => if negb (cr_extrabits r =? 0) then outbits out (x - cr_min r) (cr_extrabits r) else Ok out)
         (extra_bits r x).
Proof.
  intros He Hx. unfold extra_bits. destruct (Z.eqb_spec (cr_extrabits r) 0) as [E|E]; cbn [negb].
  - rewrite E. apply writes_nil.
  - apply outbits_writes; [lia|done].
Qed.

Lemma len_code_writes l :
  3 <= l <= 258 -> let r := len_record l in
  writes (fun out => if cr_code r <=? 279 then
      let! m := array_get mirrorbytes ((cr_code r - 256) * 2) in outbits out m 7
    else let! m := array_get mirrorbytes (0xc0 - 280 + cr_code r) in outbits out m 8) (fixed_code (cr_code r)).
Proof.
  intros (_ & H & _)%len_record_found. cbn zeta. unfold len_record_ok in H. set (r := len_record l) in *.
  apply andb_true_iff in H as [_ H].
  destruct (cr_code r <=? 279); destruct (array_get _ _) as [m|]; try done; cbn [res_bind];
    apply andb_true_iff in H as [[Hm1%Z.leb_le Hm2%Z.ltb_lt]%andb_true_iff <-%bool_decide_eq_true].
  - apply (outbits_writes m 7); lia.
  - apply (outbits_writes m 8); lia.
Qed.

Lemma dist_code_writes d :
  1 <= d <= WINSIZE -> let r := dist_record d in
  writes (fun out => let! m := array_get mirrorbytes (cr_code r * 8) in outbits out m 5)
         (fixed_dist_code (cr_code r)).
Proof.
  intros (_ & H & _)%dist_record_found. cbn zeta. unfold dist_record_ok in H. set (r := dist_record d) in *.
  apply andb_true_iff in H as [_ H]. destruct (array_get _ _) as [m|]; try done; cbn [res_bind].
  apply andb_true_iff in H as [[Hm1%Z.leb_le Hm2%Z.ltb_lt]%andb_true_iff <-%bool_decide_eq_true].
  apply (outbits_writes m 5); lia.
Qed.

Lemma match_piece_writes l d :
  3 <= l <= 258 -> 1 <= d <= WINSIZE -> writes (fun out => match_piece out d l) (match_bits l d).
Proof.
  intros Hl Hd. destruct (len_record_found l Hl) as [El _]. destruct (dist_record_found d Hd) as [Ed _].
  destruct (len_record_spec l Hl) as (_ & _ & Hle & Hlx). destruct (dist_record_spec d Hd) as (_ & _ & Hde & Hdx).
  unfold match_bits.
  eapply writes_ext; [|apply writes_bind; [exact (len_code_writes l Hl)|
    apply writes_bind; [apply extra_bits_writes; [exact Hle|exact Hlx]|
      apply writes_bind; [exact (dist_code_writes d Hd)|apply extra_bits_writes; [exact Hde|exact Hdx]]]]].
  intros out. unfold match_piece. rewrite El. cbn [res_bind].
  destruct (if cr_code (len_record l) <=? 279 then _ else _) as [o1|]; [|done]. cbn [res_bind].
  destruct (if negb (cr_extrabits (len_record l) =? 0) then _ else _) as [o2|]; [|done]. cbn [res_bind].
  rewrite Ed. cbn [res_bind]. by destruct (array_get mirrorbytes (cr_code (dist_record d) * 8)).
Qed.

(** A long match is written in pieces. *)
Fixpoint pieces (fuel : nat) (len : Z) : list Z :=
  match fuel with
  | O => []
  | S fuel =>
      if 0 <? len then
        let thislen := if 260 <? len then 258 else if len <=? 258 then len else len - 3 in
        thislen :: pieces fuel (len - thislen)
      else []
  end.

Lemma pieces_ok fuel len :
  len = 0 \/ 3 <= len -> len <= Z.of_nat fuel ->
  Forall (fun l => 3 <= l <= 258) (pieces fuel len) /\ foldr Z.add 0 (pieces fuel len) = len.
Proof.
  revert len. induction fuel as [|fuel IH]; intros len Hl Hf; cbn [pieces].
  { split; [constructor|cbn; lia]. }
  destruct (Z.ltb_spec 0 len) as [Hpos|Hz]; [|split; [constructor|cbn; lia]].
  set (t := if 260 <? len then 258 else if len <=? 258 then len else len - 3).
  assert (Ht : 3 <= t <= 258 /\ (len - t = 0 \/ 3 <= len - t)).
  { unfold t. destruct (Z.ltb_spec 260 len); [lia|]. destruct (Z.leb_spec len 258); lia. }
  clearbody t. destruct (IH (len - t)) as [H1 H2]; [lia|lia|].
  split; [by constructor; [lia|]|]. cbn [foldr]. lia.
Qed.

Definition piece_bits (d len : Z) : list bool :=
  concat ((fun l => match_bits l d) <$> pieces (Z.to_nat len) len).

Lemma zlib_match_writes d len :
  1 <= d <= WINSIZE -> 3 <= len -> writes (fun out => zlib_match out d len) (piece_bits d len).
Proof.
  intros Hd Hlen. unfold zlib_match, piece_bits. destruct (pieces_ok (Z.to_nat len) len) as [Hall _]; [lia|lia|].
  assert (Hn : 0 <= len <= Z.of_nat (Z.to_nat len)) by lia. assert (H3 : len = 0 \/ 3 <= len) by lia.
  revert len Hlen Hall Hn H3. intros len _.
  generalize (Z.to_nat len) as fuel. intros fuel. revert len.
  induction fuel as [|fuel IH]; intros len Hall Hn H3; cbn [zlib_match_loop pieces] in *.
  { rewrite (proj2 (Z.ltb_ge _ _)) by lia. apply writes_nil. }
  destruct (Z.ltb_spec 0 len) as [Hpos|Hz]; [|apply writes_nil].
  inversion Hall as [|t ts Ht Hts]; subst. cbn [fmap list_fmap concat].
  apply writes_bind; [by apply match_piece_writes|]. apply IH; [done| |].
  all: destruct (Z.ltb_spec 260 len); [lia|]; destruct (Z.leb_spec len 258); lia.
Qed.

(** ** Symbols *)

Inductive sym := SHeader | SOpen | SEnd | SLit (c : Z) | SMatch (l d : Z).

Definition sym_bits (s : sym) : list bool :=
  match s with
  | SHeader => lsb 16 0x9C78
  | SOpen => lsb 3 2
  | SEnd => fixed_code 256
  | SLit c => fixed_code c
  | SMatch l d => match_bits l d
  end.

Definition syms_bits (ss : list sym) : list bool := concat (sym_bits <$> ss).

Definition sym_ok (s : sym) : Prop :=
  match s with
  | SLit c => is_byte c
  | SMatch l d => 3 <= l <= 258 /\ 1 <= d <= WINSIZE
  | _ => True
  end.

(** The characters of symbols. *)
Fixpoint syms_chars (W : window) (ss : list sym) : list Z :=
  match ss with
  | [] => []
  | SLit c :: ss => c :: syms_chars (emit W c) ss
  | SMatch l d :: ss => let cs := copy_out W d (Z.to_nat l) in cs ++ syms_chars (emits W cs) ss
  | _ :: ss => syms_chars W ss
  end.

Definition token_syms (t : token) : list sym :=
  match t with
  | Lit c => [SLit c]
  | Copy d len => (fun l => SMatch l d) <$> pieces (Z.to_nat len) len
  end.

Lemma syms_bits_app ss ss' : syms_bits (ss ++ ss') = syms_bits ss ++ syms_bits ss'.
Proof. unfold syms_bits. by rewrite fmap_app, concat_app. Qed.

Lemma syms_chars_app W ss ss' :
  syms_chars W (ss ++ ss') = syms_chars W ss ++ syms_chars (emits W (syms_chars W ss)) ss'.
Proof.
  revert W. induction ss as [|[] ss IH]; intros W; cbn [syms_chars app]; try done.
  - by rewrite IH.
  - by rewrite IH, <-app_assoc, emits_app.
Qed.

Lemma copy_out_add W d n m :
  copy_out W d (n + m) = copy_out W d n ++ copy_out (emits W (copy_out W d n)) d m.
Proof. revert W. induction n as [|n IH]; intros W; [done|]. cbn [copy_out Nat.add app emits foldl]. by rewrite IH. Qed.

Lemma pieces_chars W d ls :
  Forall (fun l => 3 <= l <= 258) ls ->
  syms_chars W ((fun l => SMatch l d) <$> ls) = copy_out W d (Z.to_nat (foldr Z.add 0 ls)).
Proof.
  intros H. revert W. induction H as [|l ls Hl Hls IH]; intros W; [done|]. cbn [fmap list_fmap syms_chars foldr].
  assert (0 <= foldr Z.add 0 ls) by (clear IH; induction Hls; cbn; lia).
  rewrite Z2Nat.inj_add, copy_out_add by lia. f_equal. apply IH.
Qed.

Lemma token_syms_chars W t : token_ok t -> syms_chars W (token_syms t) = decode W [t].
Proof.
  destruct t as [c|d len]; [done|]. intros [Hd Hl]. cbn [token_syms decode]. rewrite app_nil_r.
  destruct (pieces_ok (Z.to_nat len) len) as [Hall Hsum]; [lia|lia|]. by rewrite pieces_chars, Hsum.
Qed.

Lemma tokens_syms_chars W ts : Forall token_ok ts -> syms_chars W (ts ≫= token_syms) = decode W ts.
Proof.
  intros H. revert W. induction H as [|t ts Ht Hts IH]; intros W; [done|]. cbn [mbind list_bind].
  rewrite syms_chars_app, token_syms_chars, IH by done.
  change (t :: ts) with ([t] ++ ts). by rewrite decode_app.
Qed.

Lemma token_syms_ok t : token_ok t -> Forall sym_ok (token_syms t).
Proof.
  destruct t as [c|d len]; [by intros H; apply Forall_singleton|]. intros [Hd Hl]. cbn [token_syms].
  destruct (pieces_ok (Z.to_nat len) len) as [Hall _]; [lia|lia|].
  apply Forall_fmap. eapply Forall_impl; [exact Hall|]. intros l H. by split.
Qed.

Lemma token_writes t :
  token_ok t -> writes (fun out => emit_tokens out [t]) (syms_bits (token_syms t)).
Proof.
  destruct t as [c|d len]; intros Ht.
  - cbn [token_syms syms_bits fmap list_fmap concat sym_bits emit_tokens]. rewrite app_nil_r.
    eapply writes_ext; [|by apply zlib_literal_writes]. intros out. cbn. by destruct (zlib_literal out c).
  - destruct Ht as [Hd Hl]. assert (E : syms_bits (token_syms (Copy d len)) = piece_bits d len).
    { unfold syms_bits, token_syms, piece_bits. by rewrite <-list_fmap_compose. }
    rewrite E. eapply writes_ext; [|by apply zlib_match_writes]. intros out. cbn. by destruct (zlib_match out d len).
Qed.

Lemma emit_tokens_writes ts :
  Forall token_ok ts -> writes (fun out => emit_tokens out ts) (syms_bits (ts ≫= token_syms)).
Proof.
  induction 1 as [|t ts Ht Hts IH]; [apply writes_nil|]. cbn [mbind list_bind]. rewrite syms_bits_app.
  eapply writes_ext; [|apply writes_bind; [by apply token_writes|exact IH]].
  intros out. change (t :: ts) with ([t] ++ ts). by rewrite emit_tokens_app.
Qed.

(** Every symbol of data takes at most sixteen bits for each of its characters. *)
Definition data_sym (s : sym) : Prop :=
  match s with SLit _ | SMatch _ _ => True | _ => False end.

Lemma length_msb n v : length (msb n v) = n.
Proof. unfold msb. by rewrite length_rev, length_lsb. Qed.

Lemma length_fixed_code s : (7 <= length (fixed_code s) <= 9)%nat.
Proof. unfold fixed_code. repeat destruct (_ <? _); rewrite length_msb; lia. Qed.

Lemma length_copy_out W d n : length (copy_out W d n) = n.
Proof. revert W. induction n as [|n IH]; intros W; [done|]. cbn. by rewrite IH. Qed.

Lemma data_bits_bound W ss :
  Forall sym_ok ss -> Forall data_sym ss -> zlen (syms_bits ss) <= 16 * zlen (syms_chars W ss).
Proof.
  intros H. revert W. induction H as [|s ss Hs Hss IH]; intros W Hd; [done|].
  inversion Hd as [|?? Hds Hdss]; subst. unfold syms_bits. cbn [fmap list_fmap concat].
  fold (syms_bits ss). rewrite length_app.
  destruct s as [| | |c|l d]; try done; cbn [sym_bits syms_chars].
  - pose proof (length_fixed_code c). specialize (IH (emit W c) Hdss). cbn [length]. lia.
  - destruct Hs as [Hl Hdd]. specialize (IH (emits W (copy_out W d (Z.to_nat l))) Hdss).
    rewrite length_app, length_copy_out. unfold match_bits, extra_bits, fixed_dist_code.
    rewrite !length_app, !length_lsb, length_msb.
    destruct (len_record_spec l Hl) as (_ & _ & Hle & _). destruct (dist_record_spec d Hdd) as (_ & _ & Hde & _).
    pose proof (length_fixed_code (cr_code (len_record l))).
    lia.
Qed.
