(* ===== verification/ZlibRun.v ===== *)
(** * The decompressor on streams of the fixed codes

    Each symbol of a stream takes the decompressor through one or four passes of its
    loop; a packet that ends inside the closing symbols leaves it waiting. *)

From S2P Require Import Prelude Bufchain Marshal Strbuf Lz77 Lz77Spec Zlib ZlibBits ZlibCode.
Local Open Scope cmodel_scope.
Local Open Scope Z_scope.

(** ** Output *)

Definition window_bytes (W : window) : Prop := win_ok W /\ bytesOK W.1.

Lemma emit_bytes W c : window_bytes W -> is_byte c -> window_bytes (emit W c).
Proof. intros [HW Hb] Hc. split; [by apply emit_ok|]. by apply Forall_insert. Qed.

Lemma emits_bytes W cs : window_bytes W -> bytesOK cs -> window_bytes (emits W cs).
Proof.
  intros HW H. revert W HW. induction H as [|c cs Hc Hcs IH]; intros W HW; [done|].
  cbn [emits foldl]. by apply IH, emit_bytes.
Qed.

Lemma char_back_byte W k : window_bytes W -> is_byte (char_back W k).
Proof.
  intros [[Hl _] Hb]. unfold char_back. pose proof (window_mod (W.2 - k)).
  apply (proj1 (Forall_lookup_total _ _) Hb). lia.
Qed.

Lemma copy_out_bytes W d n : window_bytes W -> bytesOK (copy_out W d n).
Proof.
  revert W. induction n as [|n IH]; intros W HW; [constructor|]. cbn [copy_out].
  pose proof (char_back_byte W d HW). constructor; [done|]. by apply IH, emit_bytes.
Qed.

(** The window and output of a decompressor. *)
Definition win_holds (w : zwindow) (W : window) (out : list Z) : Prop :=
  (w_window w, w_winpos w) = W /\ window_bytes W /\
  exists sb, w_outblk w = Some sb /\ strbuf_holds sb out.

Lemma zlib_emit_char_ok w W out c :
  win_holds w W out -> is_byte c -> zlen out + 1 <= strbuf_limit ->
  exists w', zlib_emit_char w c = Ok w' /\ win_holds w' (emit W c) (out ++ [c]).
Proof.
  intros (<- & HW & sb & Esb & Hsb) Hc Hl. unfold zlib_emit_char. destruct HW as [[Hlen Hp] Hb]. cbn in Hlen, Hp.
  rewrite array_set_ok by lia. cbn [res_bind]. rewrite Esb. unfold BinarySink_put_byte.
  assert (Hu : u8 c = c) by (apply Z.mod_small, Hc). rewrite Hu.
  destruct (strbuf_write_ok sb out [c] Hsb) as (sb' & E & Hsb'); [rewrite length_app; cbn; lia|].
  change (bs_write sb) with (strbuf_BinarySink_write sb). rewrite E. cbn [res_bind].
  eexists. split; [done|]. split; [cbn; by rewrite land_window|].
  split; [by apply (emit_bytes (w_window w, w_winpos w))|]. by exists sb'.
Qed.

Lemma copy_loop_ok n w W out d :
  win_holds w W out -> zlen out + Z.of_nat n <= strbuf_limit ->
  exists w', copy_loop n w d = Ok w' /\ win_holds w' (emits W (copy_out W d n)) (out ++ copy_out W d n).
Proof.
  revert w W out. induction n as [|n IH]; intros w W out Hw Hl; cbn [copy_loop copy_out].
  { exists w. by rewrite app_nil_r. }
  pose proof Hw as (EW & HW & _). pose proof (char_back_byte W d HW) as Hc.
  assert (Eg : array_get (w_window w) (Z.land (w_winpos w - d) (WINSIZE - 1)) = Ok (char_back W d)).
  { rewrite land_window. pose proof (window_mod (w_winpos w - d)). destruct HW as [[Hlen _] _].
    rewrite array_get_lookup by (rewrite <-EW in Hlen; cbn in Hlen; lia). by rewrite <-EW. }
  rewrite Eg. cbn [res_bind].
  destruct (zlib_emit_char_ok w W out (char_back W d) Hw Hc) as (w1 & -> & Hw1); [lia|]. cbn [res_bind].
  destruct (IH w1 _ _ Hw1) as (w2 & -> & Hw2); [rewrite length_app; cbn; lia|].
  exists w2. split; [done|]. by rewrite <-app_assoc in Hw2.
Qed.

(** ** States *)

Record dec_ok (d : zlib_decompress_ctx) (W : window) (out : list Z) : Prop := {
  dk_tables : static_tables (d_staticlentable d) (d_staticdisttable d);
  dk_win : win_holds (d_win d) W out
}.

(** In the state [st], inside blocks with the static tables. *)
Definition at_state (d : zlib_decompress_ctx) (st : zlib_state) : Prop :=
  d_state d = st /\ (st = INBLK -> d_currlentable d = TStatic /\ d_currdisttable d = TStatic).

(** Which symbol may come in which state, and where it leads. *)
Definition sym_next (st : zlib_state) (s : sym) : option zlib_state :=
  match st, s with
  | START, SHeader => Some OUTSIDEBLK
  | OUTSIDEBLK, SOpen => Some INBLK
  | INBLK, SEnd => Some OUTSIDEBLK
  | INBLK, (SLit _ | SMatch _ _) => Some INBLK
  | _, _ => None
  end.

Fixpoint syms_next (st : zlib_state) (ss : list sym) : option zlib_state :=
  match ss with [] => Some st | s :: ss => st' ← sym_next st s; syms_next st' ss end.

(** The bits that the decompressor can still read are [av]. *)
Definition available (d : zlib_decompress_ctx) (block : list Z) (av : list bool) : Prop :=
  bytesOK block /\ exists s, reg_holds (d_reg d) s /\ av = s ++ bits_of_bytes block.

(** One pass of the loop, when the next bits [part] have arrived. *)
Lemma loop_pass fuel d block part more :
  available d block (part ++ more) -> part ++ more <> [] -> (length part <= 24)%nat ->
  exists reg block' rest, reg_holds reg (part ++ rest) /\ bytesOK block' /\
    more = rest ++ bits_of_bytes block' /\
    decompress_loop (S fuel) d block =
      let! o := zlib_step (set_reg d reg) in
      match o with
      | Continue d => decompress_loop fuel d block'
      | Finished d => Ok (true, d)
      | DecodeError d => Ok (false, d)
      end.
Proof.
  intros (Hb & s & Hr & E) Hne Hp. destruct (refill (d_reg d) block) as [reg block'] eqn:Er.
  destruct (refill_ok _ _ _ _ _ Hr Hb Er) as (s' & Hr' & Es' & Hb' & Hfull & _ & _).
  assert (Hrest : exists rest, s' = part ++ rest /\ more = rest ++ bits_of_bytes block').
  { rewrite <-E in Es'. destruct Hfull as [H24| ->].
    - pose proof (reg_holds_length _ _ Hr'). exists (drop (length part) s').
      assert (Hs' : s' = part ++ drop (length part) s').
      { rewrite <-(take_drop (length part) s') at 1. f_equal.
        transitivity (take (length part) (part ++ more)); [|by rewrite take_app_length].
        by rewrite <-Es', take_app_le by lia. }
      split; [done|]. rewrite Hs', <-app_assoc in Es'. by apply app_inv_head in Es'.
    - exists more. cbn in *. by rewrite app_nil_r in *. }
  destruct Hrest as (rest & -> & ->). exists reg, block', rest. do 3 (split; [done|]).
  cbn [decompress_loop].
  assert ((0 <? zlen block) || (0 <? r_nbits (d_reg d)) = true) as ->.
  { apply orb_true_iff. rewrite !Z.ltb_lt. destruct block as [|b block]; [|cbn [length]; left; lia].
    right. cbn in E. rewrite app_nil_r in E. rewrite (reg_holds_length _ _ Hr), <-E.
    destruct (part ++ _); [done|cbn [length]; lia]. }
  by rewrite Er.
Qed.

Lemma available_next d reg block rest :
  bytesOK block -> reg_holds reg rest -> d_reg d = reg -> available d block (rest ++ bits_of_bytes block).
Proof. intros Hb Hr <-. by split; [|exists rest]. Qed.

Lemma app_nonempty {A} (l l' : list A) : (0 < length l)%nat -> l ++ l' <> [].
Proof. destruct l; [cbn; lia|done]. Qed.

(** ** One symbol *)

Section symbol.
Context (d : zlib_decompress_ctx) (W : window) (out : list Z) (block : list Z) (more : list bool).
Hypothesis Hdec : dec_ok d W out.

(** What a symbol leads to: the loop goes on at its next state. *)
Definition continues (fuel : nat) (st : zlib_state) (cs : list Z) : Prop :=
  exists d' block' fuel', decompress_loop fuel d block = decompress_loop fuel' d' block' /\
    (length more < fuel')%nat /\ at_state d' st /\ dec_ok d' (emits W cs) (out ++ cs) /\
    available d' block' more.

Lemma run_header fuel :
  at_state d START -> available d block (sym_bits SHeader ++ more) ->
  (length (sym_bits SHeader ++ more) < fuel)%nat -> continues fuel OUTSIDEBLK [].
Proof using Hdec.
  intros [Hst _] Hav Hf. rewrite length_app in Hf. destruct fuel as [|fuel]; [lia|].
  destruct (loop_pass fuel _ _ _ _ Hav) as (reg & block' & rest & Hr & Hb & Em & E); [done|cbn; lia|].
  pose proof (reg_low reg 0x9C78 16 rest ltac:(lia) ltac:(lia) Hr) as Hv.
  pose proof (reg_eat reg 0x9C78 16 rest ltac:(lia) Hr) as Hr'.
  pose proof (reg_holds_length _ _ Hr) as Hn. rewrite length_app in Hn. cbn [sym_bits] in Hn. rewrite length_lsb in Hn.
  unfold continues. rewrite E. rewrite Em in Hf |- *. unfold zlib_step. cbn [d_state set_reg]. rewrite Hst. unfold step_start. cbn [d_reg set_reg].
  rewrite (proj2 (Z.ltb_ge _ _)) by lia.
  assert (Hh : Z.lor (Z.shiftr (Z.land (r_bits reg) 0xFF00) 8) (Z.shiftl (Z.land (r_bits reg) 0x00FF) 8) = 0x789C).
  { assert (forall m, Z.land (r_bits reg) (Z.land (Z.ones 16) m) = Z.land 0x9C78 m) as Hm.
    { intros m. rewrite Z.land_assoc, Z.land_ones by lia. by rewrite Hv. }
    change 0xFF00 with (Z.land (Z.ones 16) 0xFF00). change 0x00FF with (Z.land (Z.ones 16) 0x00FF).
    rewrite !Hm. done. }
  rewrite Hh. change (header_ok 0x789C) with true. cbn match. cbn [res_bind].
  eexists _, block', fuel. split; [done|]. split; [cbn [sym_bits] in Hf; rewrite length_lsb in Hf; lia|]. split; [by split|].
  rewrite app_nil_r. split; [by destruct Hdec; split|]. by eapply available_next.
Qed.

Lemma run_open fuel :
  at_state d OUTSIDEBLK -> available d block (sym_bits SOpen ++ more) ->
  (length (sym_bits SOpen ++ more) < fuel)%nat -> continues fuel INBLK [].
Proof using Hdec.
  intros [Hst _] Hav Hf. rewrite length_app in Hf. destruct fuel as [|fuel]; [lia|].
  destruct (loop_pass fuel _ _ _ _ Hav) as (reg & block' & rest & Hr & Hb & Em & E); [done|cbn; lia|].
  pose proof (reg_holds_length _ _ Hr) as Hn. rewrite length_app in Hn. cbn [sym_bits] in Hn. rewrite length_lsb in Hn.
  assert (Hr1 : reg_holds reg (lsb 1 0 ++ (lsb 2 1 ++ rest))) by exact Hr.
  pose proof (reg_eat reg 0 1 _ ltac:(lia) Hr1) as Hr2.
  pose proof (reg_low _ 1 2 rest ltac:(lia) ltac:(lia) Hr2) as Hv.
  pose proof (reg_eat _ 1 2 rest ltac:(lia) Hr2) as Hr3.
  unfold continues. rewrite E. rewrite Em in Hf |- *. unfold zlib_step. cbn [d_state set_reg]. rewrite Hst. unfold step_outsideblk. cbn [d_reg set_reg].
  rewrite (proj2 (Z.ltb_ge _ _)) by lia. cbv zeta.
  assert (Hbt : Z.land (r_bits (EATBITS reg 1)) 3 = 1).
  { change 3 with (Z.ones 2). by rewrite Z.land_ones, Hv by lia. }
  rewrite Hbt. cbn match. cbn [res_bind Z.eqb Pos.eqb].
  eexists _, block', fuel. split; [done|]. split; [cbn [sym_bits] in Hf; rewrite length_lsb in Hf; lia|]. split; [by split|].
  rewrite app_nil_r. split; [by destruct Hdec; split|]. by eapply available_next.
Qed.

Lemma inblk_lookup fuel s rest0 :
  at_state d INBLK -> 0 <= s < 288 -> available d block (fixed_code s ++ rest0) ->
  exists reg block' rest, reg_holds reg rest /\ bytesOK block' /\ rest0 = rest ++ bits_of_bytes block' /\
    decompress_loop (S fuel) d block =
      let! o :=
        (let d := set_reg d reg in
         if s <? 256 then let! w := zlib_emit_char (d_win d) s in Ok (Continue (set_dwin d w))
         else if s =? 256 then
           Ok (Continue (set_state (set_tables d TStatic TStatic (d_lenlentable d)) OUTSIDEBLK))
         else if s <? 286 then Ok (Continue (set_sym (set_state d GOTLENSYM) s))
         else Ok (DecodeError d)) in
      match o with
      | Continue d => decompress_loop fuel d block'
      | Finished d => Ok (true, d)
      | DecodeError d => Ok (false, d)
      end.
Proof using Hdec.
  intros [Hst Ht] Hs Hav. destruct (Ht eq_refl) as [Hlt Hdt]. pose proof (length_fixed_code s).
  destruct (loop_pass fuel _ _ _ _ Hav) as (reg & block' & rest & Hr & Hb & -> & E);
    [apply app_nonempty; lia|lia|].
  destruct Hdec as [[Hl _ _] _]. destruct (huflookup_decodes _ _ _ _ _ _ (Hl s Hs) Hr) as (reg' & El & Hr').
  exists reg', block', rest. do 3 (split; [done|]). rewrite E. f_equal. unfold zlib_step. cbn [d_state set_reg].
  rewrite Hst. unfold step_inblk, currlentable. cbn [d_reg set_reg d_currlentable d_currdisttable d_staticlentable].
  rewrite Hlt, Hdt, El. cbn [res_bind]. rewrite (proj2 (Z.eqb_neq s (-1))), (proj2 (Z.eqb_neq s (-2))) by lia.
  done.
Qed.

Lemma run_end fuel :
  at_state d INBLK -> available d block (sym_bits SEnd ++ more) ->
  (length (sym_bits SEnd ++ more) < fuel)%nat -> continues fuel OUTSIDEBLK [].
Proof using Hdec.
  intros Hst Hav Hf. rewrite length_app in Hf. destruct fuel as [|fuel]; [lia|].
  destruct (inblk_lookup fuel 256 more Hst ltac:(lia) Hav) as (reg & block' & rest & Hr & Hb & Em & E).
  unfold continues. rewrite E. rewrite Em in Hf |- *. cbn [Z.ltb Z.eqb Z.compare Pos.compare Pos.compare_cont Pos.eqb res_bind].
  eexists _, block', fuel. split; [done|]. split; [cbn [sym_bits] in Hf; pose proof (length_fixed_code 256); lia|]. split; [by split|].
  rewrite app_nil_r. split; [by destruct Hdec; split|]. by eapply available_next.
Qed.

Lemma run_lit fuel c :
  at_state d INBLK -> is_byte c -> available d block (sym_bits (SLit c) ++ more) ->
  (length (sym_bits (SLit c) ++ more) < fuel)%nat -> zlen out + 1 <= strbuf_limit ->
  continues fuel INBLK [c].
Proof using Hdec.
  intros Hst Hc Hav Hf Hl. unfold is_byte in Hc. rewrite length_app in Hf. destruct fuel as [|fuel]; [lia|].
  destruct (inblk_lookup fuel c more Hst ltac:(lia) Hav) as (reg & block' & rest & Hr & Hb & Em & E).
  unfold continues. rewrite E. rewrite Em in Hf |- *. cbv zeta. rewrite (proj2 (Z.ltb_lt _ _)) by lia. cbn [set_reg d_win].
  destruct Hdec as [Htab Hwin]. destruct (zlib_emit_char_ok _ _ _ c Hwin) as (w & -> & Hw); [done|lia|]. cbn [res_bind].
  eexists _, block', fuel. split; [done|]. split; [cbn [sym_bits] in Hf; pose proof (length_fixed_code c); lia|].
  split; [by split; [apply Hst|apply Hst]|]. split; [by split|]. by eapply available_next.
Qed.

(** A match takes four passes; the last one needs a further bit to have arrived. *)
Lemma run_match fuel l dist :
  at_state d INBLK -> 3 <= l <= 258 -> 1 <= dist <= WINSIZE -> more <> [] ->
  available d block (sym_bits (SMatch l dist) ++ more) ->
  (length (sym_bits (SMatch l dist) ++ more) < fuel)%nat -> zlen out + l <= strbuf_limit ->
  continues fuel INBLK (copy_out W dist (Z.to_nat l)).
Proof using Hdec.
  intros Hst Hl Hd Hmore Hav Hf Hlim. destruct (len_record_spec l Hl) as (Hlc & Hlr & Hle & Hlx).
  destruct (dist_record_spec dist Hd) as (Hdc & Hdr & Hde & Hdx).
  cbn [sym_bits] in Hav, Hf. unfold match_bits in Hav, Hf. set (rl := len_record l) in *. set (rd := dist_record dist) in *.
  rewrite !length_app in Hf. pose proof (length_fixed_code (cr_code rl)) as Hfc.
  unfold fixed_dist_code in Hf. rewrite length_msb in Hf.
  do 4 (destruct fuel as [|fuel]; [lia|]). rewrite <-!app_assoc in Hav.
  pose proof Hdec as [[_ Htd _] Hwin]. pose proof (proj2 Hst eq_refl) as [Hlt Hdt].
  (* the length code *)
  destruct (inblk_lookup (S (S (S fuel))) (cr_code rl) _ Hst ltac:(lia) Hav) as (reg & b1 & rest & Hr & Hb & Em & E1).
  cbv zeta in E1. rewrite (proj2 (Z.ltb_ge _ _)), (proj2 (Z.eqb_neq _ 256)), (proj2 (Z.ltb_lt _ _)) in E1 by lia.
  cbn [res_bind] in E1. set (d1 := set_sym _ _) in E1.
  assert (Hav1 : available d1 b1 (extra_bits rl l ++ (fixed_dist_code (cr_code rd) ++ extra_bits rd dist ++ more)))
    by (rewrite Em; by eapply available_next).
  (* its extra bits *)
  destruct (loop_pass (S (S fuel)) _ _ _ _ Hav1) as (reg2 & b2 & rest2 & Hr2 & Hb2 & Em2 & E2).
  { destruct (extra_bits rl l); [|done]. cbn [app]. apply app_nonempty. unfold fixed_dist_code. rewrite length_msb. lia. }
  { unfold extra_bits. rewrite length_lsb. lia. }
  unfold extra_bits in Hr2. pose proof (reg_low_bits _ _ _ _ (proj1 Hle) Hlx Hr2) as Hv2.
  pose proof (reg_eat _ _ _ _ (proj1 Hle) Hr2) as Hr2'. pose proof (reg_holds_length _ _ Hr2) as Hn2.
  rewrite length_app, length_lsb in Hn2.
  unfold zlib_step in E2. cbn [d1 d_state set_sym set_state set_reg] in E2. unfold step_gotlensym in E2.
  cbn [d1 d_sym d_reg set_sym set_state set_reg] in E2.
  rewrite (array_get_ok _ _ rl) in E2 by (done || lia). cbn [res_bind] in E2.
  rewrite (proj2 (Z.ltb_ge _ _)) in E2 by lia. cbn [res_bind] in E2. rewrite Hv2 in E2.
  replace (cr_min rl + (l - cr_min rl)) with l in E2 by lia. set (d2 := set_state _ _) in E2.
  assert (Hav2 : available d2 b2 (fixed_dist_code (cr_code rd) ++ (extra_bits rd dist ++ more)))
    by (rewrite Em2; by eapply available_next).
  (* the distance code *)
  destruct (loop_pass (S fuel) _ _ _ _ Hav2) as (reg3 & b3 & rest3 & Hr3 & Hb3 & Em3 & E3).
  { apply app_nonempty. unfold fixed_dist_code. rewrite length_msb. lia. }
  { unfold fixed_dist_code. rewrite length_msb. lia. }
  destruct (huflookup_decodes _ _ _ _ _ _ (Htd (cr_code rd) ltac:(lia)) Hr3) as (reg3' & El3 & Hr3').
  unfold zlib_step in E3. cbn [d2 d_state set_state set_reg] in E3. unfold step_gotlen, currdisttable in E3.
  cbn [d2 d1 d_reg d_currdisttable d_staticdisttable set_sym set_state set_reg set_len] in E3.
  rewrite Hdt, El3 in E3. cbn [res_bind] in E3.
  rewrite (proj2 (Z.eqb_neq _ (-1))), (proj2 (Z.eqb_neq _ (-2))), (proj2 (Z.leb_gt _ _)) in E3 by lia.
  cbn [res_bind] in E3. set (d3 := set_sym _ _) in E3.
  assert (Hav3 : available d3 b3 (extra_bits rd dist ++ more)) by (rewrite Em3; by eapply available_next).
  (* its extra bits, and the copy *)
  destruct (loop_pass fuel _ _ _ _ Hav3) as (reg4 & b4 & rest4 & Hr4 & Hb4 & Em4 & E4).
  { by destruct (extra_bits rd dist). }
  { unfold extra_bits. rewrite length_lsb. lia. }
  unfold extra_bits in Hr4. pose proof (reg_low_bits _ _ _ _ (proj1 Hde) Hdx Hr4) as Hv4.
  pose proof (reg_eat _ _ _ _ (proj1 Hde) Hr4) as Hr4'. pose proof (reg_holds_length _ _ Hr4) as Hn4.
  rewrite length_app, length_lsb in Hn4.
  unfold zlib_step in E4. cbn [d3 d_state set_sym set_state set_reg] in E4. unfold step_gotdistsym in E4.
  cbn [d3 d_sym d_reg set_sym set_state set_reg] in E4.
  rewrite (array_get_ok _ _ rd) in E4 by (done || lia). cbn [res_bind] in E4.
  rewrite (proj2 (Z.ltb_ge _ _)) in E4 by lia. cbv zeta in E4. rewrite Hv4 in E4.
  replace (cr_min rd + (dist - cr_min rd)) with dist in E4 by lia.
  cbn [d3 d2 d1 d_len d_win set_sym set_state set_reg set_len] in E4.
  destruct (copy_loop_ok (Z.to_nat l) _ _ _ dist Hwin) as (w & Ew & Hw); [lia|]. rewrite Ew in E4. cbn [res_bind] in E4.
  eexists _, b4, fuel. split; [rewrite E1, E2, E3, E4; reflexivity|]. split; [lia|].
  split; [split; [done|intros _; split; [exact Hlt|exact Hdt]]|]. split; [split; [exact (dk_tables _ _ _ Hdec)|exact Hw]|]. rewrite Em4. by eapply available_next.
Qed.
End symbol.

(** ** Sequences of symbols *)

Lemma run_sym d W out block more fuel st st' s :
  dec_ok d W out -> at_state d st -> sym_next st s = Some st' -> sym_ok s -> (data_sym s -> more <> []) ->
  available d block (sym_bits s ++ more) -> (length (sym_bits s ++ more) < fuel)%nat ->
  zlen out + zlen (syms_chars W [s]) <= strbuf_limit ->
  continues d W out block more fuel st' (syms_chars W [s]).
Proof.
  intros Hdec Hat Hn Hok Hmore Hav Hf Hl.
  destruct st, s as [| | |c|l dist]; try done; injection Hn as <-; cbn [syms_chars] in *.
  - by apply run_header.
  - by apply run_open.
  - by apply run_end.
  - by apply run_lit.
  - destruct Hok as [Hr Hd]. rewrite app_nil_r in *. rewrite length_copy_out in Hl.
    apply run_match; auto; [by apply Hmore|lia].
Qed.

Lemma run_syms ss d W out block more fuel st st' :
  dec_ok d W out -> at_state d st -> syms_next st ss = Some st' -> Forall sym_ok ss -> more <> [] ->
  available d block (syms_bits ss ++ more) -> (length (syms_bits ss ++ more) < fuel)%nat ->
  zlen out + zlen (syms_chars W ss) <= strbuf_limit ->
  continues d W out block more fuel st' (syms_chars W ss).
Proof.
  revert d W out block fuel st. induction ss as [|s ss IH]; intros d W out block fuel st Hdec Hat Hn Hok Hmore Hav Hf Hl.
  { injection Hn as <-. exists d, block, fuel. cbn [syms_chars emits foldl]. by rewrite app_nil_r. }
  inversion Hok as [|?? Hs Hss]; subst. cbn [syms_next] in Hn. destruct (sym_next st s) as [st1|] eqn:E1; [|done].
  change (s :: ss) with ([s] ++ ss) in *. rewrite syms_chars_app in *. rewrite length_app in Hl.
  unfold syms_bits in Hav, Hf. cbn [app fmap list_fmap concat] in Hav, Hf. fold (syms_bits ss) in Hav, Hf.
  rewrite <-app_assoc in Hav, Hf.
  destruct (run_sym d W out block (syms_bits ss ++ more) fuel st st1 s) as (d1 & b1 & f1 & E & Hf1 & Hat1 & Hdec1 & Hav1);
    try done; [intros _; by destruct (syms_bits ss)|lia|].
  destruct (IH d1 _ _ b1 f1 st1 Hdec1 Hat1) as (d2 & b2 & f2 & E2 & Hf2 & Hat2 & Hdec2 & Hav2); try done.
  { rewrite length_app. lia. }
  exists d2, b2, f2. rewrite E, E2. rewrite emits_app, app_assoc. done.
Qed.

Definition closing (s : sym) : Prop := s = SEnd \/ s = SOpen.

(** Waiting for the rest of a closing symbol. *)
Lemma run_stuck d W out block av fuel st st' s X :
  dec_ok d W out -> at_state d st -> sym_next st s = Some st' -> closing s ->
  available d block av -> av ++ X = sym_bits s -> X <> [] -> (0 < fuel)%nat ->
  exists d', decompress_loop fuel d block = Ok (true, d') /\ at_state d' st /\ dec_ok d' W out /\
    reg_holds (d_reg d') av.
Proof.
  intros Hdec Hat Hn Hcl Hav HX HXne Hf. destruct fuel as [|fuel]; [lia|].
  assert (Hlen : (length av < length (sym_bits s))%nat).
  { rewrite <-HX, length_app. destruct X; [done|cbn; lia]. }
  destruct (decide (av = [])) as [->|Hne].
  { destruct Hav as (Hb & r & Hr & E). symmetry in E. apply app_eq_nil in E as [-> E].
    pose proof (reg_holds_length _ _ Hr) as Hn0. pose proof (length_bits_of_bytes block) as Hbl. rewrite E in Hbl.
    cbn in Hn0, Hbl. cbn [decompress_loop]. rewrite (proj2 (Z.ltb_ge _ _)), (proj2 (Z.ltb_ge _ _)) by lia.
    exists d. done. }
  assert (Hl24 : (length av <= 24)%nat).
  { destruct Hcl as [->| ->]; cbn in Hlen; lia. }
  destruct (loop_pass fuel d block av []) as (reg & block' & rest & Hr & Hb & Em & E);
    [by rewrite app_nil_r|by rewrite app_nil_r|done|].
  symmetry in Em. apply app_eq_nil in Em as [-> Em]. rewrite app_nil_r in Hr.
  pose proof (reg_holds_length _ _ Hr) as Hnb. rewrite E. exists (set_reg d reg).
  assert (Hd' : at_state (set_reg d reg) st /\ dec_ok (set_reg d reg) W out /\ reg_holds (d_reg (set_reg d reg)) av).
  { split; [done|]. split; [by destruct Hdec; split|done]. }
  split; [|done]. destruct Hat as [Hst Ht]. unfold zlib_step. cbn [set_reg d_state]. rewrite Hst.
  destruct Hcl as [->| ->]; destruct st; try done; cbn [sym_bits] in *.
  - unfold step_inblk, currlentable. cbn [set_reg d_reg d_currlentable d_staticlentable].
    destruct (Ht eq_refl) as [-> _]. unfold zlib_huflookup. cbn [huflookup_loop].
    assert (Hz : r_bits reg = 0).
    { destruct Hr as (Hn0 & Hbd & Eav). change (fixed_code 256) with (lsb 7 0) in *. rewrite length_lsb in Hlen.
      assert (Hlz : lsb (length av) (r_bits reg) = lsb (length av) 0).
      { replace 7%nat with (length av + (7 - length av))%nat in HX by lia. rewrite lsb_app in HX.
        apply app_inj_1 in HX as [HX _]; [|by rewrite length_lsb].
        rewrite <-HX. rewrite Eav. f_equal. by rewrite length_lsb. }
      apply lsb_inj in Hlz. rewrite Z.mod_0_l in Hlz by lia.
      rewrite Z.mod_small in Hlz by (rewrite <-Hnb; done). done. }
    rewrite Hz, Z.land_0_l. destruct Hdec as [[_ _ He] _]. unfold entry_is in He.
    destruct (tab_table _ !! Z.to_nat 0) as [[n c [?|]]|] eqn:Et; try done.
    apply andb_true_iff in He as [->%Z.eqb_eq ->%Z.eqb_eq].
    rewrite (array_get_ok _ 0 _ (Z.le_refl 0) Et). cbn [res_bind te_nbits].
    change (length (fixed_code 256)) with 7%nat in Hlen.
    rewrite (proj2 (Z.ltb_lt _ _)) by lia. cbn [res_bind]. change (-1 =? -1) with true. by destruct d.
  - unfold step_outsideblk. cbn [set_reg d_reg]. rewrite length_lsb in Hlen.
    rewrite (proj2 (Z.ltb_lt _ _)) by lia. done.
Qed.

(** The closing symbols that have arrived completely are read. *)
Lemma run_tail Tl d W out block av fuel st st' X :
  dec_ok d W out -> at_state d st -> syms_next st Tl = Some st' -> Forall closing Tl -> zlen out <= strbuf_limit ->
  available d block av -> av ++ X = syms_bits Tl -> (length av < fuel)%nat ->
  exists T1 T2 d' st1 av', Tl = T1 ++ T2 /\ decompress_loop fuel d block = Ok (true, d') /\
    at_state d' st1 /\ syms_next st1 T2 = Some st' /\ dec_ok d' W out /\
    reg_holds (d_reg d') av' /\ av' ++ X = syms_bits T2.
Proof.
  revert d block av fuel st. induction Tl as [|s Tl IH]; intros d block av fuel st Hdec Hat Hn Hcl Hlim Hav HX Hf.
  { cbn in HX. apply app_eq_nil in HX as [-> ->]. injection Hn as <-.
    destruct Hav as (Hb & r & Hr & E). symmetry in E. apply app_eq_nil in E as [-> E].
    pose proof (reg_holds_length _ _ Hr) as Hn0. pose proof (length_bits_of_bytes block) as Hbl. rewrite E in Hbl.
    cbn in Hn0, Hbl. destruct fuel as [|fuel]; [lia|]. cbn [decompress_loop].
    rewrite (proj2 (Z.ltb_ge _ _)), (proj2 (Z.ltb_ge _ _)) by lia. by exists [], [], d, st, []. }
  inversion Hcl as [|?? Hs Hss]; subst. cbn [syms_next] in Hn. destruct (sym_next st s) as [st1|] eqn:E1; [|done].
  cbn [mbind option_bind] in Hn.
  unfold syms_bits in HX. cbn [fmap list_fmap concat] in HX. fold (syms_bits Tl) in HX.
  destruct (decide (length (sym_bits s) <= length av)%nat) as [Hbig|Hsmall].
  - assert (Hav' : exists av1, av = sym_bits s ++ av1 /\ av1 ++ X = syms_bits Tl).
    { exists (drop (length (sym_bits s)) av).
      assert (Ht : take (length (sym_bits s)) av = sym_bits s).
      { transitivity (take (length (sym_bits s)) (av ++ X)); [by rewrite take_app_le|].
        by rewrite HX, take_app_length. }
      assert (Hs' : av = sym_bits s ++ drop (length (sym_bits s)) av) by (by rewrite <-Ht at 1; rewrite take_drop).
      split; [done|]. rewrite Hs', <-app_assoc in HX. by apply app_inv_head in HX. }
    destruct Hav' as (av1 & -> & HX1).
    assert (Hnil : syms_chars W [s] = []) by (by destruct Hs as [->| ->]).
    destruct (run_sym d W out block av1 fuel st st1 s) as (d1 & b1 & f1 & E & Hf1 & Hat1 & Hdec1 & Hav1);
      try done; [by destruct Hs as [->| ->]|by destruct Hs as [->| ->]|rewrite Hnil; cbn; lia|].
    rewrite Hnil in Hdec1. cbn [emits foldl] in Hdec1. rewrite app_nil_r in Hdec1.
    destruct (IH d1 b1 av1 f1 st1) as (T1 & T2 & d' & st2 & av' & -> & E2 & H2); try done.
    exists (s :: T1), T2, d', st2, av'. split; [done|]. by rewrite E.
  - assert (Hav' : exists X1, sym_bits s = av ++ X1 /\ X1 <> []).
    { exists (drop (length av) (sym_bits s)).
      assert (Ht : take (length av) (sym_bits s) = av).
      { transitivity (take (length av) (sym_bits s ++ syms_bits Tl)); [by rewrite take_app_le by lia|].
        by rewrite <-HX, take_app_length. }
      split; [by rewrite <-Ht at 1; rewrite take_drop|].
      intros H0. apply (f_equal length) in H0. rewrite length_drop in H0. cbn in H0. lia. }
    destruct Hav' as (X1 & EX & HX1).
    destruct (run_stuck d W out block av fuel st st1 s X1) as (d' & E & Hat' & Hdec' & Hr'); try done; [lia|].
    exists [], (s :: Tl), d', st, av. split; [done|]. split; [done|]. split; [done|].
    split; [cbn [syms_next]; by rewrite E1|]. do 2 (split; [done|]).
    unfold syms_bits. cbn [fmap list_fmap concat]. done.
Qed.
