(* ===== verification/ZlibSpec.v ===== *)
(** * Compressed packets are decompressed to the original ones

    Both directions keep their contexts from packet to packet, and a packet may end
    in the middle of a symbol: the bits that are left over on either side belong to
    closing symbols and are continued by the next packet. *)

From S2P Require Import Prelude Bufchain Marshal Strbuf Lz77 Lz77Spec Zlib ZlibBits ZlibCode ZlibRun.
Local Open Scope cmodel_scope.
Local Open Scope Z_scope.

(** ** Compressing a packet *)

(** The compressor between packets: the window, whether a packet was sent, and the
    bits left over. *)
Record comp_ok (comp : ssh_zlib_compressor) (W : window) (first : bool) (L : list bool) : Prop := {
  ck_lz : lz_ok (zc_ictx comp);
  ck_window : full_window (zc_ictx comp) = W;
  ck_outbuf : ob_outbuf (zc_out comp) = None;
  ck_first : ob_firstblock (zc_out comp) = first;
  ck_bits : 0 <= ob_noutbits (zc_out comp) < 8 /\
            0 <= ob_outbits (zc_out comp) < 2 ^ ob_noutbits (zc_out comp);
  ck_left : L = lsb (Z.to_nat (ob_noutbits (zc_out comp))) (ob_outbits (zc_out comp))
}.

Definition padding (k : nat) : list sym := concat (replicate k [SEnd; SOpen]).

Lemma out_stream_len out s sb :
  out_stream out s -> ob_outbuf out = Some sb -> sb_len sb = zlen s / 8.
Proof.
  intros (sb' & bytes & E & (Hl & _) & _ & Hn & _ & ->) E'. rewrite E in E'. injection E' as <-.
  rewrite length_app, length_lsb. pose proof (length_bits_of_bytes bytes).
  rewrite Hl. apply Z.div_unique_pos with (ob_noutbits out); lia.
Qed.

(** Padding stops when the packet is long enough. *)
Lemma zlib_pad_loop_ok fuel out s minlen :
  out_stream out s -> 0 <= minlen <= 2 ^ 28 -> minlen - zlen s / 8 <= Z.of_nat fuel ->
  exists k out' sb, zlib_pad_loop fuel out minlen = Ok out' /\ out_stream out' (s ++ syms_bits (padding k)) /\
    ob_outbuf out' = Some sb /\ minlen <= sb_len sb <= Z.max (zlen s / 8) (minlen + 1) /\
    ob_firstblock out' = ob_firstblock out.
Proof.
  revert out s. induction fuel as [|fuel IH]; intros out s Hs Hm Hf.
  all: destruct (ob_outbuf out) as [sb|] eqn:Esb; [|by destruct Hs as (? & ? & E & _); rewrite E in Esb].
  all: pose proof (out_stream_len _ _ _ Hs Esb) as Hlen.
  all: cbn [zlib_pad_loop]; rewrite Esb, wrap_size_small by (unfold SIZE_T; lia).
  - rewrite (proj2 (Z.ltb_ge _ _)) by lia. exists O, out, sb. rewrite app_nil_r. split_and!; (done || lia).
  - destruct (Z.ltb_spec (sb_len sb) minlen) as [Hlt|Hge].
    + assert (Hsmall : zlen s <= 2 ^ 31) by (rewrite Hlen in Hlt; Z.div_mod_to_equations; lia).
      assert (Hw : writes (fun out => let! out := outbits out 0 7 in outbits out 2 3) (syms_bits [SEnd; SOpen])).
      { change (syms_bits [SEnd; SOpen]) with (lsb (Z.to_nat 7) 0 ++ lsb (Z.to_nat 3) 2).
        apply writes_bind; apply outbits_writes; lia. }
      destruct (Hw out s Hs) as (out1 & E1 & Hs1 & F1).
      { rewrite length_app. cbn [length syms_bits]. change (length (syms_bits [SEnd; SOpen])) with 10%nat.
        unfold out_limit, strbuf_limit. lia. }
      destruct (outbits out 0 7) as [out0|]; [|done]. cbn [res_bind] in *. rewrite E1. cbn [res_bind].
      destruct (IH out1 (s ++ syms_bits [SEnd; SOpen]) Hs1 Hm) as (k & out' & sb' & E & Hs' & Esb' & [Hge Hle] & F).
      { rewrite length_app. change (length (syms_bits [SEnd; SOpen])) with 10%nat.
        Z.div_mod_to_equations. lia. }
      exists (S k), out', sb'. split; [done|]. rewrite <-app_assoc, <-syms_bits_app in Hs'.
      split; [done|]. split; [done|]. split; [|congruence]. split; [done|].
      rewrite length_app in Hle. change (length (syms_bits [SEnd; SOpen])) with 10%nat in Hle.
      rewrite Hlen in Hlt. Z.div_mod_to_equations. lia.
    + exists O, out, sb. rewrite app_nil_r. split_and!; (done || lia).
Qed.

Lemma closing_pair : Forall closing [SEnd; SOpen].
Proof. apply Forall_cons. split; [by left|]. apply Forall_singleton. by right. Qed.

Lemma closing_padding k : Forall closing (padding k).
Proof.
  unfold padding. apply Forall_concat, Forall_replicate, closing_pair.
Qed.

Lemma syms_next_padding k : syms_next INBLK (padding k) = Some INBLK.
Proof. induction k as [|k IH]; [done|]. exact IH. Qed.

Lemma syms_next_app st ss ss' : syms_next st (ss ++ ss') = st' ← syms_next st ss; syms_next st' ss'.
Proof.
  revert st. induction ss as [|s ss IH]; intros st; [done|]. cbn [syms_next app].
  destruct (sym_next st s); [apply IH|done].
Qed.

Lemma syms_next_data ss : Forall data_sym ss -> syms_next INBLK ss = Some INBLK.
Proof. induction 1 as [|[] ss Hs Hss IH]; done. Qed.

Lemma token_syms_data ts : Forall data_sym (ts ≫= token_syms).
Proof.
  apply Forall_forall. intros s (t & Hs & _)%list_elem_of_bind. destruct t; cbn in Hs.
  - by apply list_elem_of_singleton in Hs as ->.
  - by apply list_elem_of_fmap in Hs as (l & -> & _).
Qed.

Definition opening (first : bool) : list sym := if first then [SHeader; SOpen] else [].
Definition first_state (first : bool) : zlib_state := if first then START else INBLK.

(** The symbols of a packet: the data, and the closing symbols behind it. *)
Record packet_syms (W : window) (first : bool) (block : list Z) (G T : list sym) : Prop := {
  ps_ok : Forall sym_ok G;
  ps_chars : syms_chars W G = block;
  ps_next : syms_next (first_state first) G = Some INBLK;
  ps_closing : Forall closing T;
  ps_last : syms_next INBLK T = Some INBLK
}.

Lemma compress_block_ok comp W first L block minlen :
  comp_ok comp W first L -> bytesOK block -> zlen block <= 2 ^ 28 -> 0 <= minlen <= 2 ^ 28 ->
  exists bytes comp' G T L',
    zlib_compress_block comp block minlen = Ok (bytes, comp') /\
    comp_ok comp' (emits W block) false L' /\ packet_syms W first block G T /\
    bytesOK bytes /\ minlen <= zlen bytes /\ 0 < zlen bytes <= 2 * zlen block + minlen + 8 /\
    zlen L' < zlen (syms_bits T) /\
    L ++ syms_bits (G ++ T) = bits_of_bytes bytes ++ L'.
Proof.
  intros [Hlz HW Hob Hfb [Hn Hbits] HL] Hb Hlen Hmin. unfold zlib_compress_block. rewrite Hob.
  cbn [c_assert]. destruct (strbuf_new_holds true) as (sb & Esb & Hsb).
  unfold strbuf_new_nm. rewrite Esb. cbn [res_bind ob_outbits ob_noutbits ob_firstblock].
  set (out0 := OutBuf (Some sb) _ _ _).
  assert (Hs0 : out_stream out0 L) by (exists sb, []; do 2 (split; [done|]); split; [by apply Forall_nil|done]).
  assert (HLlen : zlen L < 8) by (rewrite HL, length_lsb; lia).
  (* the header and the first block *)
  set (head := if ob_firstblock (zc_out comp) then _ else _).
  assert (Hhead : exists out1, (let! r := head in let '(out, in_block) := r in
      if negb in_block then outbits out 2 3 else Ok out) = Ok out1 /\
      out_stream out1 (L ++ syms_bits (opening first)) /\ ob_firstblock out1 = false).
  { subst head. rewrite Hfb. destruct first; cbn [opening].
    - destruct (outbits_writes 0x9C78 16 ltac:(lia) ltac:(lia) out0 L Hs0) as (o & E & Ho & F).
      { rewrite length_app, length_lsb. unfold out_limit, strbuf_limit. lia. }
      rewrite E. cbn [res_bind negb].
      set (o' := OutBuf _ _ _ _). assert (Ho' : out_stream o' (L ++ lsb (Z.to_nat 16) 40056)) by exact Ho.
      destruct (outbits_writes 2 3 ltac:(lia) ltac:(lia) o' _ Ho') as (o2 & E2 & Ho2 & F2).
      { rewrite !length_app, !length_lsb. unfold out_limit, strbuf_limit. lia. }
      exists o2. split; [done|]. split; [by rewrite <-app_assoc in Ho2|by rewrite F2].
    - exists out0. cbn [syms_bits fmap list_fmap concat]. by rewrite app_nil_r. }
  destruct Hhead as (out1 & Ehead & Hs1 & Hf1).
  (* the data *)
  destruct (lz77_compress_ok (zc_ictx comp) block Hlz Hb) as (ts & ictx & Elz & Hlz' & Hts & Hdec & HW' & _).
  set (D := ts ≫= token_syms).
  assert (HD : Forall sym_ok D).
  { apply Forall_forall. intros s (t & Hs & Ht)%list_elem_of_bind. rewrite Forall_forall in Hts.
    pose proof (token_syms_ok t (Hts t Ht)) as Hall. rewrite Forall_forall in Hall. by apply Hall. }
  assert (HDc : syms_chars W D = block) by (unfold D; by rewrite tokens_syms_chars, <-HW, Hdec).
  assert (HDl : zlen (syms_bits D) <= 16 * zlen block).
  { rewrite <-HDc. apply data_bits_bound; [done|apply token_syms_data]. }
  assert (Hop : zlen (syms_bits (opening first)) <= 19) by (by destruct first).
  destruct (emit_tokens_writes ts Hts out1 _ Hs1) as (out2 & E2 & Hs2 & Hf2).
  { rewrite !length_app. fold D. unfold out_limit, strbuf_limit. lia. }
  fold D in Hs2.
  (* the closing symbols *)
  assert (Hclose : writes (fun out => let! out := outbits out 0 7 in let! out := outbits out 2 (3 + 7) in outbits out 2 3)
    (syms_bits [SEnd; SOpen; SEnd; SOpen])).
  { change (syms_bits [SEnd; SOpen; SEnd; SOpen]) with
      (lsb (Z.to_nat 7) 0 ++ lsb (Z.to_nat 10) 2 ++ lsb (Z.to_nat 3) 2).
    apply writes_bind; [apply outbits_writes; lia|]. apply writes_bind; apply outbits_writes; lia. }
  destruct (Hclose out2 _ Hs2) as (out3 & E3 & Hs3 & Hf3).
  { rewrite !length_app. change (length (syms_bits [SEnd; SOpen; SEnd; SOpen])) with 20%nat.
    unfold out_limit, strbuf_limit. lia. }
  destruct (zlib_pad_loop_ok (Z.to_nat (wrap_size minlen)) out3 _ minlen Hs3 Hmin) as (k & out4 & sb4 & E4 & Hs4 & Esb4 & [Hge Hle] & Hf4).
  { rewrite wrap_size_small by (unfold SIZE_T; lia). pose proof (Z.div_pos (zlen (((L ++ syms_bits (opening first)) ++ syms_bits D) ++ syms_bits [SEnd; SOpen; SEnd; SOpen])) 8). lia. }
  destruct Hs4 as (sb' & bytes & Esb' & Hsb' & Hbytes & Hn4 & Hb4 & Estr).
  rewrite Esb4 in Esb'. injection Esb' as <-.
  set (L' := lsb (Z.to_nat (ob_noutbits out4)) (ob_outbits out4)) in *.
  exists bytes, (Compressor ictx (OutBuf None (ob_outbits out4) (ob_noutbits out4) (ob_firstblock out4))),
    (opening first ++ D), ([SEnd; SOpen; SEnd; SOpen] ++ padding k), L'.
  split.
  { destruct head as [[o ib]|]; [|done]. cbn [res_bind] in *. rewrite Ehead. cbn [res_bind].
    rewrite Elz, E2. cbn [res_bind].
    destruct (outbits out2 0 7) as [o1|]; [|done]. cbn [res_bind] in *.
    destruct (outbits o1 2 (3 + 7)) as [o2|]; [|done]. cbn [res_bind] in *. rewrite E3. cbn [res_bind].
    rewrite E4. cbn [res_bind]. rewrite Esb4, (strbuf_contents_holds _ _ Hsb'). done. }
  split. { split; cbn; try done; [by rewrite HW', HW|congruence]. }
  split.
  { split.
    - apply Forall_app. split; [by destruct first; repeat constructor|done].
    - rewrite syms_chars_app. by destruct first.
    - rewrite syms_next_app. destruct first; cbn; apply syms_next_data, token_syms_data.
    - apply Forall_app. split; [|apply closing_padding]. apply (Forall_app_2 _ [_; _] [_; _]); apply closing_pair.
    - rewrite syms_next_app. cbn. apply syms_next_padding. }
  split; [done|]. split; [destruct Hsb' as (Hl & _); lia|]. split.
  { pose proof (length_bits_of_bytes bytes) as Hlb. apply (f_equal length) in Estr. destruct Hsb' as (Hl & _).
    repeat rewrite length_app in Estr. repeat rewrite length_app in Hle.
    change (length (syms_bits [SEnd; SOpen; SEnd; SOpen])) with 20%nat in *.
    unfold L' in Estr. rewrite length_lsb in Estr. split; [lia|]. rewrite Hl in Hle. Z.div_mod_to_equations. lia. }
  split.
  { unfold L'. rewrite length_lsb, syms_bits_app, length_app.
    change (length (syms_bits [SEnd; SOpen; SEnd; SOpen])) with 20%nat. lia. }
  rewrite !syms_bits_app in *. rewrite <-!app_assoc in Estr. rewrite <-!app_assoc. done.
Qed.

(** ** Both ends of a connection *)

(** The decompressor between packets. *)
Record idle_ok (d : zlib_decompress_ctx) (W : window) : Prop := {
  id_tables : static_tables (d_staticlentable d) (d_staticdisttable d);
  id_window : (w_window (d_win d), w_winpos (d_win d)) = W;
  id_bytes : window_bytes W;
  id_outblk : w_outblk (d_win d) = None
}.

(** The windows agree, and the bits the decompressor still has, with those the
    compressor still has, are closing symbols. *)
Definition linked (comp : ssh_zlib_compressor) (d : zlib_decompress_ctx) : Prop :=
  exists W first L T st av, comp_ok comp W first L /\ idle_ok d W /\ at_state d st /\
    reg_holds (d_reg d) av /\ av ++ L = syms_bits T /\ Forall closing T /\
    syms_next st T = Some (first_state first).

Lemma closing_chars W T : Forall closing T -> syms_chars W T = [].
Proof. intros H. revert W. induction H as [|s T [->| ->] HT IH]; intros W; cbn; auto. Qed.

Lemma closing_ok T : Forall closing T -> Forall sym_ok T.
Proof. intros H. eapply Forall_impl; [exact H|]. by intros s [->| ->]. Qed.

(** Splitting a stream where the data ends. *)
Lemma split_stream {A} (av L X Y : list A) :
  av ++ L = X ++ Y -> zlen L < zlen Y -> exists more, av = X ++ more /\ more ++ L = Y /\ more <> [].
Proof.
  intros E Hl. set (n := (length Y - length L)%nat). exists (take n Y).
  assert (EY : X ++ Y = (X ++ take n Y) ++ drop n Y) by (by rewrite <-app_assoc, take_drop).
  rewrite EY in E. apply app_inj_2 in E as [-> E]; [|rewrite length_drop; lia].
  split; [done|]. rewrite E. split; [apply take_drop|]. intros H0.
  apply (f_equal length) in H0. rewrite length_take in H0. cbn in H0. lia.
Qed.

(** One packet. *)
Lemma packet_ok comp d block minlen :
  linked comp d -> bytesOK block -> zlen block <= 2 ^ 28 -> 0 <= minlen <= 2 ^ 28 ->
  exists bytes comp' d', zlib_compress_block comp block minlen = Ok (bytes, comp') /\
    zlib_decompress_block d bytes = Ok (Some block, d') /\ minlen <= zlen bytes /\
    0 < zlen bytes <= 2 * zlen block + minlen + 8 /\ bytesOK bytes /\ linked comp' d'.
Proof.
  intros (W & first & L & T & st & av & Hcomp & [Htab HW HWb Hnone] & Hat & Hr & Hav & HT & HTn) Hb Hlen Hmin.
  destruct (compress_block_ok comp W first L block minlen Hcomp Hb Hlen Hmin)
    as (bytes & comp' & G & T' & L' & Ec & Hcomp' & [HG HGc HGn HT' HTn'] & Hbytes & Hge & Hbnd & HL' & Estr).
  assert (Hall : (av ++ bits_of_bytes bytes) ++ L' = syms_bits (T ++ G) ++ syms_bits T').
  { rewrite <-app_assoc, <-Estr, app_assoc, Hav. by rewrite !syms_bits_app, !app_assoc. }
  destruct (split_stream _ _ _ _ Hall HL') as (more & Eav & Emore & Hmore).
  exists bytes, comp'. rewrite Ec. unfold zlib_decompress_block. rewrite Hnone. cbn [c_assert].
  destruct (strbuf_new_holds true) as (sb & Esb & Hsb). unfold strbuf_new_nm. rewrite Esb. cbn [res_bind].
  set (d0 := set_dwin d _).
  assert (Hdec0 : dec_ok d0 W []) by (split; [done|split; [done|split; [done|by exists sb]]]).
  assert (Hav0 : available d0 bytes (syms_bits (T ++ G) ++ more)) by (split; [done|exists av; by split]).
  assert (Hfuel : (length (syms_bits (T ++ G) ++ more) < decompress_fuel d0 bytes)%nat).
  { rewrite <-Eav, length_app. unfold decompress_fuel. pose proof (length_bits_of_bytes bytes).
    pose proof (reg_holds_length _ _ Hr) as Hnb. change (d_reg d0) with (d_reg d). lia. }
  assert (Hnext : syms_next st (T ++ G) = Some INBLK) by (by rewrite syms_next_app, HTn).
  assert (Hchars : syms_chars W (T ++ G) = block) by (rewrite syms_chars_app, (closing_chars W T HT); done).
  destruct (run_syms (T ++ G) d0 W [] bytes more (decompress_fuel d0 bytes) st INBLK Hdec0 Hat Hnext) as (d1 & b1 & f1 & E1 & Hf1 & Hat1 & Hdec1 & Hav1);
    try done.
  { apply Forall_app. split; [by apply closing_ok|done]. }
  { rewrite Hchars. unfold strbuf_limit. cbn [length]. lia. }
  rewrite Hchars in Hdec1. cbn [app] in Hdec1.
  destruct (run_tail T' d1 _ _ b1 more f1 INBLK INBLK L' Hdec1 Hat1 HTn' HT')
    as (T1 & T2 & d2 & st2 & av2 & -> & E2 & Hat2 & Hn2 & [Htab2 (HW2 & HWb2 & sb2 & Esb2 & Hsb2)] & Hr2 & Hav2);
    try done.
  { unfold strbuf_limit. lia. }
  rewrite E1, E2. cbn [res_bind]. rewrite Esb2, (strbuf_contents_holds _ _ Hsb2). cbn [res_bind].
  eexists. do 5 (split; [done|]).
  exists (emits W block), false, L', T2, st2, av2. split; [done|]. split; [by split|]. split; [done|].
  do 2 (split; [done|]). split; [by apply Forall_app in HT' as [_ ?]|done].
Qed.

(** Packets with their minimal lengths, compressed one after another. *)
Fixpoint compress_packets (comp : ssh_zlib_compressor) (packets : list (list Z * Z))
  : res (list (list Z) * ssh_zlib_compressor) :=
  match packets with
  | [] => Ok ([], comp)
  | (block, minlen) :: packets =>
      let! r := zlib_compress_block comp block minlen in
      let! rs := compress_packets r.2 packets in
      Ok (r.1 :: rs.1, rs.2)
  end.

Fixpoint decompress_packets (d : zlib_decompress_ctx) (blocks : list (list Z))
  : res (list (option (list Z)) * zlib_decompress_ctx) :=
  match blocks with
  | [] => Ok ([], d)
  | block :: blocks =>
      let! r := zlib_decompress_block d block in
      let! rs := decompress_packets r.2 blocks in
      Ok (r.1 :: rs.1, rs.2)
  end.

Definition packet_bounded (p : list Z * Z) : Prop :=
  bytesOK p.1 /\ zlen p.1 <= 2 ^ 28 /\ 0 <= p.2 <= 2 ^ 28.

#[export] Instance packet_bounded_dec p : Decision (packet_bounded p).
Proof. unfold packet_bounded, bytesOK, is_byte. apply _. Defined.

Lemma packets_ok comp d packets :
  linked comp d -> Forall packet_bounded packets ->
  exists blocks comp' d', compress_packets comp packets = Ok (blocks, comp') /\
    decompress_packets d blocks = Ok (Some <$> packets.*1, d') /\ linked comp' d' /\
    Forall2 (fun p block => p.2 <= zlen block) packets blocks.
Proof.
  intros Hl H. revert comp d Hl.
  induction H as [|[block minlen] packets (Hb & Hlen & Hmin) Hps IH]; intros comp d Hl.
  { exists [], comp, d. split; [done|]. split; [done|]. split; [done|constructor]. }
  destruct (packet_ok comp d block minlen Hl Hb Hlen Hmin) as (bytes & comp1 & d1 & E1 & E2 & Hge & _ & _ & Hl1).
  destruct (IH comp1 d1 Hl1) as (blocks & comp' & d' & E3 & E4 & Hl' & Hall).
  exists (bytes :: blocks), comp', d'. cbn [compress_packets decompress_packets]. rewrite E1. cbn [res_bind fst snd].
  rewrite E3, E2. cbn [res_bind fst snd]. rewrite E4. split; [done|]. split; [done|]. split; [done|]. by constructor.
Qed.

Lemma window_zero_bytes : window_bytes (replicate (Z.to_nat WINSIZE) 0, 0).
Proof.
  split; [split; cbn [fst snd]; [rewrite length_replicate|]; unfold WINSIZE; lia|].
  apply Forall_replicate. unfold is_byte. lia.
Qed.

Lemma linked_init : exists d, zlib_decompress_init = Ok d /\ linked zlib_compress_init d.
Proof.
  destruct static_tables_made as (lt & dt & El & Ed & Htab). unfold zlib_decompress_init. rewrite El. cbn [res_bind].
  rewrite Ed. cbn [res_bind]. eexists. split; [done|].
  exists (replicate (Z.to_nat WINSIZE) 0, 0), true, [], [], START, []. split.
  { split; cbn [zlib_compress_init zc_ictx zc_out ob_outbuf ob_firstblock ob_noutbits ob_outbits];
      [apply lz77_init_ok|rewrite full_window_none by reflexivity; reflexivity|reflexivity|reflexivity|lia|reflexivity]. }
  split; [split; cbn [d_win w_window w_winpos w_outblk d_staticlentable d_staticdisttable];
    [exact Htab|reflexivity|apply window_zero_bytes|reflexivity]|].
  split; [split; [reflexivity|discriminate]|]. split; [cbn [d_reg]; split; [cbn; lia|split; [cbn; lia|reflexivity]]|].
  split; [reflexivity|]. split; [apply Forall_nil; exact I|reflexivity].
Qed.

(** C9. Whatever sequence of packets is sent, the receiver gets exactly these packets,
    each from its compressed form alone and the contexts kept from the packets before;
    every compressed packet has at least the length that was asked for. *)
Theorem zlib_packets_roundtrip packets :
  Forall packet_bounded packets ->
  exists d blocks comp' d', zlib_decompress_init = Ok d /\
    compress_packets zlib_compress_init packets = Ok (blocks, comp') /\
    decompress_packets d blocks = Ok (Some <$> packets.*1, d') /\
    Forall2 (fun p block => p.2 <= zlen block) packets blocks.
Proof.
  intros H. destruct linked_init as (d & Ed & Hl).
  destruct (packets_ok _ _ _ Hl H) as (blocks & comp' & d' & E1 & E2 & _ & Hall).
  exists d, blocks, comp', d'. exact (conj Ed (conj E1 (conj E2 Hall))).
Qed.

Definition example_packets : list (list Z * Z) :=
  [([104; 101; 108; 108; 111; 32; 104; 101; 108; 108; 111; 32; 104; 101; 108; 108; 111], 0);
   ([], 0); ([200; 255], 30); ([104; 101; 108; 108; 111], 0)].

Lemma zlib_packets_roundtrip_witness :
  exists d blocks comp' d', zlib_decompress_init = Ok d /\
    compress_packets zlib_compress_init example_packets = Ok (blocks, comp') /\
    decompress_packets d blocks = Ok (Some <$> example_packets.*1, d') /\
    Forall2 (fun p block => p.2 <= zlen block) example_packets blocks.
Proof.
  apply zlib_packets_roundtrip. apply (bool_decide_unpack _). vm_compute. exact I.
Defined.
