(* ===== verification/ZlibSafe.v ===== *)
(** * The decompressor on arbitrary data

    Decode tables built from any code lengths are well formed, also when the lengths
    belong to no Huffman code; so every pass of the decompressor is safe, keeps its
    invariant and makes progress, whatever bytes arrive. *)

From S2P Require Import Prelude Bufchain Marshal Strbuf Lz77 Lz77Spec Zlib ZlibBits ZlibCode ZlibRun ZlibSpec.
Local Open Scope cmodel_scope.
Local Open Scope Z_scope.

(** ** Decode tables *)

(** A table for symbols below [N]: a path through it takes at most [rem] bits. *)
Inductive table_ok (N : Z) : Z -> zlib_table -> Prop :=
| table_ok_intro rem bits table :
    0 <= bits -> zlen table = 2 ^ bits -> Forall (entry_ok N rem) table ->
    table_ok N rem (ZTable (2 ^ bits - 1) table)
with entry_ok (N : Z) : Z -> zlib_tableentry zlib_table -> Prop :=
| entry_missing rem nbits : nbits <= rem -> entry_ok N rem (Entry nbits (-1) None)
| entry_symbol rem nbits code : 1 <= nbits <= rem -> 0 <= code < N -> entry_ok N rem (Entry nbits code None)
| entry_table rem nbits t : 1 <= nbits <= rem -> table_ok N (rem - nbits) t ->
    entry_ok N rem (Entry nbits (-1) (Some t)).

(** An entry while the table is being filled. *)
Definition filled (N rem : Z) (e : zlib_tableentry zlib_table) : Prop :=
  te_nexttable e = None /\
  ((te_code e = -1 /\ te_nbits e = 0) \/ (0 <= te_code e < N /\ 1 <= te_nbits e <= rem)).

Lemma fill_entries_ok N rem fuel table mask j step i nbits :
  Forall (filled N rem) table -> zlen table = mask + 1 -> 0 <= j -> 1 <= step ->
  mask + 1 - j <= Z.of_nat fuel -> 0 <= i < N -> 1 <= nbits <= rem ->
  exists table', fill_entries fuel table mask j step i nbits = Ok table' /\
    Forall (filled N rem) table' /\ zlen table' = mask + 1.
Proof.
  revert table j. induction fuel as [|fuel IH]; intros table j Ht Hl Hj Hs Hf Hi Hn; cbn [fill_entries].
  { rewrite (proj2 (Z.leb_gt _ _)) by lia. by exists table. }
  destruct (Z.leb_spec j mask) as [Hle|Hgt]; [|by exists table].
  destruct (array_get_total table j) as (e & -> & He); [lia|]. cbn [res_bind].
  rewrite array_set_ok by lia. cbn [res_bind]. apply IH; try lia.
  - apply Forall_insert; [done|]. apply (proj1 (Forall_lookup _ _) Ht) in He as [Hnx Hc].
    split; [done|]. right. cbn. split; [lia|]. destruct (Z.ltb_spec (te_nbits e) nbits); lia.
  - by rewrite zlen_insert.
Qed.

Lemma fill_table_ok N rem codes lengths table mask pfx pfxbits i :
  Forall (filled N rem) table -> zlen table = mask + 1 -> 0 <= mask -> 0 <= i ->
  i + zlen lengths <= N -> Forall (fun l => l - pfxbits <= rem) lengths ->
  exists table', fill_table table mask codes lengths pfx pfxbits i = Ok table' /\
    Forall (filled N rem) table' /\ zlen table' = mask + 1 /\
    (Forall (fun l => l <= pfxbits) lengths -> table' = table).
Proof.
  intros Ht Hl Hm Hi HN Hls. revert codes table i Ht Hl Hi HN.
  induction Hls as [|l lengths Hlen Hls IH]; intros codes table i Ht Hl Hi HN; destruct codes as [|c codes];
    cbn [fill_table]; [by exists table..|].
  cbn [length] in HN. destruct (Z.leb_spec l pfxbits) as [Hshort|Hlong]; cbn [orb res_bind].
  { destruct (IH codes table (i + 1)) as (t' & E & H1 & H2 & H3); [done|done|lia|lia|].
    exists t'. split; [done|]. split; [done|]. split; [done|]. intros Hall. inversion Hall; subst. auto. }
  destruct (negb _); cbn [res_bind].
  { destruct (IH codes table (i + 1)) as (t' & E & H1 & H2 & H3); [done|done|lia|lia|].
    exists t'. split; [done|]. split; [done|]. split; [done|]. intros Hall. inversion Hall; subst. lia. }
  set (code := Z.land _ _). assert (0 <= code) by (apply Z.land_nonneg; lia).
  destruct (fill_entries_ok N rem (length table) table mask code (Z.shiftl 1 (l - pfxbits)) i (l - pfxbits))
    as (t1 & -> & Ht1 & Hl1); try done; try lia.
  { rewrite Z.shiftl_1_l. pose proof (Z.pow_pos_nonneg 2 (l - pfxbits)). lia. }
  cbn [res_bind]. destruct (IH codes t1 (i + 1)) as (t' & E & H1 & H2 & H3); [done|done|lia|lia|].
  exists t'. split; [done|]. split; [done|]. split; [done|]. intros Hall. inversion Hall; subst. lia.
Qed.

Lemma make_subtables_ok N rem mk pfx pfxbits bits code table :
  0 <= rem -> Forall (filled N rem) table -> (1 <= bits \/ Forall (fun e => te_nbits e <= bits) table) ->
  (forall p nb, bits < rem -> 1 <= nb -> 1 <= bits ->
     exists t, mk p (pfxbits + bits) nb = Ok t /\ table_ok N (rem - bits) t) ->
  exists table', make_subtables mk pfx pfxbits bits code table = Ok table' /\
    Forall (entry_ok N rem) table' /\ length table' = length table.
Proof.
  intros Hrem Ht Hb Hmk. revert code Hb. induction Ht as [|e table He Ht IH]; intros code Hb; cbn [make_subtables].
  { exists []. split; [done|]. split; [apply Forall_nil; exact I|done]. }
  assert (Hb' : 1 <= bits \/ Forall (fun e => te_nbits e <= bits) table)
    by (destruct Hb as [|Hb]; [by left|right; by inversion Hb]).
  destruct (IH (code + 1) Hb') as (t' & E & Ht' & Hl').
  destruct He as [Hnx Hc]. destruct e as [nbits c nx]. cbn [te_nbits te_code te_nexttable] in *. subst nx.
  destruct (Z.leb_spec nbits bits) as [Hle|Hgt]; cbn [res_bind].
  - rewrite E. cbn [res_bind]. eexists. split; [done|]. split; [|cbn; by rewrite Hl'].
    apply Forall_cons. split; [|done]. destruct Hc as [[-> ->]|[Hc Hn]]; [by apply entry_missing|by apply entry_symbol].
  - assert (1 <= bits) by (destruct Hb as [|Hb]; [done|inversion Hb; cbn in *; lia]).
    set (nb := if 7 <? nbits - bits then 7 else nbits - bits).
    assert (1 <= nb) by (unfold nb; destruct (Z.ltb_spec 7 (nbits - bits)); lia).
    destruct (Hmk (Z.lor pfx (Z.shiftl code pfxbits)) nb) as (t & -> & Htab); [lia|done|done|]. cbn [res_bind].
    rewrite E. cbn [res_bind]. eexists. split; [done|]. split; [|cbn; by rewrite Hl'].
    apply Forall_cons. split; [|done]. apply entry_table; [lia|done].
Qed.

Lemma zlib_mkonetab_ok N depth codes lengths pfx pfxbits bits :
  0 <= pfxbits <= 15 -> 0 <= bits -> 15 - pfxbits < Z.of_nat depth -> zlen lengths <= N ->
  Forall (fun l => l <= 15) lengths -> (1 <= bits \/ Forall (fun l => l <= pfxbits) lengths) ->
  exists t, zlib_mkonetab depth codes lengths pfx pfxbits bits = Ok t /\ table_ok N (15 - pfxbits) t.
Proof.
  revert pfx pfxbits bits. induction depth as [|depth IH]; intros pfx pfxbits bits Hp Hb Hd HN Hl Hor; [lia|].
  cbn [zlib_mkonetab]. rewrite Z.shiftl_1_l.
  pose proof (Z.pow_pos_nonneg 2 bits ltac:(lia) Hb) as Hpow.
  set (table := replicate (Z.to_nat (2 ^ bits)) (Entry 0 (-1) None)).
  assert (Ht : Forall (filled N (15 - pfxbits)) table) by (apply Forall_replicate; split; [done|by left]).
  assert (Htl : zlen table = 2 ^ bits - 1 + 1) by (unfold table; rewrite length_replicate; lia).
  destruct (fill_table_ok N (15 - pfxbits) codes lengths table (2 ^ bits - 1) pfx pfxbits 0)
    as (t1 & -> & Ht1 & Hl1 & Hsame); try done; try lia.
  { eapply Forall_impl; [exact Hl|]. cbn. lia. }
  cbn [res_bind].
  destruct (make_subtables_ok N (15 - pfxbits) (zlib_mkonetab depth codes lengths) pfx pfxbits bits 0 t1)
    as (t2 & -> & Ht2 & Hl2); try done; [lia| | |].
  - destruct Hor as [|Hor]; [by left|right]. rewrite (Hsame Hor). apply Forall_replicate. cbn. lia.
  - intros p nb Hr Hnb Hb1. replace (15 - pfxbits - bits) with (15 - (pfxbits + bits)) by lia.
    apply IH; (lia || done).
  - cbn [res_bind]. eexists. split; [done|]. apply table_ok_intro; [done|lia|done].
Qed.

(** The first part of [zlib_mktable]: every length below 16 is counted. *)
Definition counted (count : list (option Z)) : Prop :=
  zlen count = 16 /\ forall i, 1 <= i < 16 -> exists c, count !! Z.to_nat i = Some (Some c).

Lemma counted_update count l : counted count -> 0 <= l < 16 ->
  exists c count', array_get count l = Ok c /\ array_set count l (Z.succ <$> c) = Ok count' /\ counted count' /\
    (1 <= l -> exists v, c = Some v).
Proof.
  intros [Hl Hc] Hr. destruct (array_get_total count l) as (c & -> & Ec); [lia|].
  exists c. rewrite array_set_ok by lia. eexists. split; [done|]. split; [done|]. split.
  - split; [by rewrite zlen_insert|]. intros i Hi. destruct (Z.eq_dec i l) as [->|Hne].
    + rewrite list_lookup_insert_eq by lia. destruct (Hc l Hi) as [v Ev]. rewrite Ec in Ev. injection Ev as ->. by eexists.
    + rewrite list_lookup_insert_ne by lia. by apply Hc.
  - intros H1. destruct (Hc l ltac:(lia)) as [v Ev]. rewrite Ec in Ev. injection Ev as ->. by eexists.
Qed.

Lemma count_lengths_ok count maxlen lengths :
  counted count -> 0 <= maxlen < 16 -> Forall (fun l => 0 <= l < 16) lengths ->
  exists count' maxlen', count_lengths count maxlen lengths = Ok (count', maxlen') /\ counted count' /\
    maxlen <= maxlen' < 16 /\ Forall (fun l => l <= maxlen') lengths.
Proof.
  intros Hc Hm H. revert count maxlen Hc Hm. induction H as [|l lengths Hl Hls IH]; intros count maxlen Hc Hm; cbn [count_lengths].
  { exists count, maxlen. split; [done|]. split; [done|]. split; [lia|apply Forall_nil; exact I]. }
  destruct (counted_update count l Hc Hl) as (c & count1 & -> & E & Hc1 & _). cbn [res_bind]. rewrite E. cbn [res_bind].
  set (m := if maxlen <? l then l else maxlen).
  assert (Hm1 : maxlen <= m < 16 /\ l <= m) by (unfold m; destruct (Z.ltb_spec maxlen l); lia). clearbody m.
  destruct (IH count1 m Hc1) as (c2 & m2 & -> & Hc2 & Hm2 & Hall); [lia|].
  exists c2, m2. split; [done|]. split; [done|]. split; [lia|]. apply Forall_cons. split; [lia|done].
Qed.

Lemma start_codes_ok count startcode code i n :
  counted count -> zlen startcode = 16 -> 1 <= i -> i + Z.of_nat n = 16 ->
  (forall k, 1 <= k < i -> exists c, startcode !! Z.to_nat k = Some (Some c)) ->
  exists startcode', start_codes count startcode code i n = Ok startcode' /\ counted startcode'.
Proof.
  intros [Hcl Hc]. revert startcode code i. induction n as [|n IH]; intros startcode code i Hl Hi Hn Hs; cbn [start_codes].
  { exists startcode. split; [done|]. split; [done|]. intros k Hk. apply Hs. lia. }
  rewrite array_set_ok by lia. cbn [res_bind]. destruct (Hc i ltac:(lia)) as [c Ec].
  rewrite (array_get_ok count i (Some c)) by (done || lia). cbn [res_bind]. apply IH; try lia.
  - by rewrite zlen_insert.
  - intros k Hk. destruct (Z.eq_dec k i) as [->|Hne].
    + rewrite list_lookup_insert_eq by lia. by eexists.
    + rewrite list_lookup_insert_ne by lia. apply Hs. lia.
Qed.

Lemma mirror_code_ok acc code n : (n <> O -> exists v, code = Some v) -> exists c, mirror_code acc code n = Ok c.
Proof.
  revert acc code. induction n as [|n IH]; intros acc code H; cbn [mirror_code]; [by eexists|].
  destruct (H ltac:(done)) as [v ->]. apply IH. by eexists.
Qed.

Lemma assign_codes_ok startcode lengths :
  counted startcode -> Forall (fun l => 0 <= l < 16) lengths ->
  exists codes, assign_codes startcode lengths = Ok codes.
Proof.
  intros Hs H. revert startcode Hs. induction H as [|l lengths Hl Hls IH]; intros startcode Hs; cbn [assign_codes]; [by eexists|].
  destruct (counted_update startcode l Hs Hl) as (c & s1 & -> & E & Hs1 & Hv). cbn [res_bind]. rewrite E. cbn [res_bind].
  destruct (mirror_code_ok 0 c (Z.to_nat l)) as [m ->]; [intros ?; apply Hv; lia|]. cbn [res_bind].
  destruct (IH s1 Hs1) as [codes ->]. by eexists.
Qed.

(** A table is made from any lengths below 16. *)
Lemma zlib_mktable_ok N lengths n :
  Forall (fun l => 0 <= l < 16) lengths -> 0 <= n <= zlen lengths -> n <= 288 -> n <= N ->
  exists t, zlib_mktable lengths n = Ok t /\ table_ok N 15 t.
Proof.
  intros Hl Hn H288 HN. unfold zlib_mktable. rewrite (proj2 (Z.ltb_ge _ _)), (proj2 (Z.ltb_ge _ _)) by (unfold MAXSYMS; lia).
  cbn [orb]. set (ls := take _ lengths).
  assert (Hls : Forall (fun l => 0 <= l < 16) ls) by by apply Forall_take.
  assert (Hlen : zlen ls = n) by (unfold ls; rewrite length_take; lia).
  destruct (count_lengths_ok (None :: replicate (Z.to_nat (MAXCODELEN - 1)) (Some 0)) 0 ls) as (count & maxlen & -> & Hc & Hm & Hall);
    [|lia|done|].
  { split; [done|]. intros i Hi. exists 0. replace (Z.to_nat i) with (S (Z.to_nat (i - 1))) by lia.
    apply lookup_replicate_2. unfold MAXCODELEN. lia. }
  cbn [res_bind].
  destruct (start_codes_ok count (replicate (Z.to_nat MAXCODELEN) None) 0 1 (Z.to_nat (MAXCODELEN - 1)))
    as (startcode & -> & Hs); [done|done|lia|done|lia|]. cbn [res_bind].
  destruct (assign_codes_ok startcode ls Hs Hls) as [codes ->]. cbn [res_bind].
  set (bits := if maxlen <? 9 then maxlen else 9).
  assert (Hb : 0 <= bits /\ (1 <= bits \/ maxlen = 0)) by (unfold bits; destruct (Z.ltb_spec maxlen 9); lia).
  destruct (zlib_mkonetab_ok N (Z.to_nat MAXCODELEN) codes ls 0 0 bits) as (t & E & Ht); try lia; try (by cbn).
  - eapply Forall_impl; [exact Hls|]. cbn. lia.
  - destruct Hb as [_ [Hb| ->]]; [by left|by right].
  - by exists t.
Qed.

(** Looking a symbol up: it consumes a bit at least, and needs fifteen at most. *)
Lemma huflookup_loop_ok N fuel rem bits nbits tab reg :
  table_ok N rem tab -> 0 <= bits -> 0 <= nbits -> nbits < Z.of_nat fuel ->
  exists c reg', huflookup_loop fuel bits nbits tab reg = Ok (c, reg') /\
    ((c = -1 /\ reg' = reg /\ nbits < rem) \/ (c = -2 /\ reg' = reg) \/
     (0 <= c < N /\ exists k, 1 <= k <= nbits /\ reg' = Reg (Z.shiftr bits k) (nbits - k))).
Proof.
  revert rem bits nbits tab. induction fuel as [|fuel IH]; intros rem bits nbits tab Ht Hb Hn Hf; [lia|].
  destruct Ht as [rem B table HB Hlen Hall]. cbn [huflookup_loop tab_table tab_mask].
  assert (Hi : 0 <= Z.land bits (2 ^ B - 1) < zlen table).
  { replace (2 ^ B - 1) with (Z.ones B) by (rewrite Z.ones_equiv; lia). rewrite Z.land_ones, Hlen by lia.
    apply Z.mod_pos_bound. lia. }
  destruct (array_get_total table _ Hi) as (e & -> & He). cbn [res_bind].
  apply (proj1 (Forall_lookup _ _) Hall) in He.
  destruct (Z.ltb_spec nbits (te_nbits e)) as [Hshort|Henough].
  { exists (-1), reg. split; [done|]. left. do 2 (split; [done|]). destruct He; cbn in *; lia. }
  destruct He as [rem nb Hnb|rem nb code Hnb Hc|rem nb t Hnb Ht]; cbn [te_nbits te_code te_nexttable] in *.
  - exists (-2), reg. split; [done|]. right. by left.
  - rewrite (proj2 (Z.eqb_neq code (-1))) by lia. eexists _, _. split; [done|]. right. right. split; [done|].
    exists nb. split; [lia|done].
  - change (-1 =? -1) with true. cbn match.
    destruct (IH (rem - nb) (Z.shiftr bits nb) (nbits - nb) t) as (c & reg' & E & Hc); [done|by apply Z.shiftr_nonneg|lia|lia|].
    exists c, reg'. split; [done|]. destruct Hc as [(-> & -> & ?)|[?|(Hc & k & Hk & ->)]].
    + left. split_and!; (done || lia).
    + right. by left.
    + right. right. split; [done|]. exists (nb + k). split; [lia|]. rewrite Z.shiftr_shiftr by lia. f_equal. lia.
Qed.

(** ** The invariant *)

Definition reg_ok (reg : bitreg) : Prop := 0 <= r_nbits reg /\ 0 <= r_bits reg < 2 ^ r_nbits reg.

Lemma reg_ok_holds reg : reg_ok reg <-> reg_holds reg (lsb (Z.to_nat (r_nbits reg)) (r_bits reg)).
Proof. unfold reg_ok, reg_holds. intuition. Qed.

Lemma EATBITS_ok reg n : reg_ok reg -> 0 <= n <= r_nbits reg -> reg_ok (EATBITS reg n).
Proof. intros H Hn. apply reg_ok_holds in H. apply (EATBITS_holds _ _ n) in H; [|done]. by destruct H as (? & ? & _). Qed.

Lemma low_bits_range reg n : 0 <= n -> 0 <= low_bits reg n < 2 ^ n.
Proof.
  intros Hn. unfold low_bits. rewrite Z.shiftl_1_l. replace (2 ^ n - 1) with (Z.ones n) by (rewrite Z.ones_equiv; lia).
  rewrite Z.land_ones by done. apply Z.mod_pos_bound. lia.
Qed.

Lemma land_range x n : 0 <= n -> 0 <= Z.land x (2 ^ n - 1) < 2 ^ n.
Proof.
  intros Hn. replace (2 ^ n - 1) with (Z.ones n) by (rewrite Z.ones_equiv; lia).
  rewrite Z.land_ones by done. apply Z.mod_pos_bound. lia.
Qed.

Lemma zlib_huflookup_ok N t reg :
  table_ok N 15 t -> reg_ok reg ->
  exists c reg', zlib_huflookup reg (Some t) = Ok (c, reg') /\ reg_ok reg' /\
    ((c = -1 /\ reg' = reg /\ r_nbits reg < 15) \/ (c = -2 /\ reg' = reg) \/
     (0 <= c < N /\ r_nbits reg' < r_nbits reg)).
Proof.
  intros Ht Hr. pose proof Hr as [Hn Hb].
  destruct (huflookup_loop_ok N (S (Z.to_nat (r_nbits reg))) 15 (r_bits reg) (r_nbits reg) t reg)
    as (c & reg' & E & Hc); [done|lia|lia|lia|].
  exists c, reg'. split; [done|]. destruct Hc as [(-> & -> & ?)|[[-> ->]|(Hc & k & Hk & ->)]].
  - split; [done|]. by left.
  - split; [done|]. right. by left.
  - change (Reg (Z.shiftr (r_bits reg) k) (r_nbits reg - k)) with (EATBITS reg k).
    split; [apply EATBITS_ok; [done|lia]|]. right. right. split; [done|]. cbn. lia.
Qed.

Definition ptr_ok (N : Z) (p : tabptr) : Prop :=
  match p with TDynamic t => table_ok N 15 t | _ => True end.

Record trees_ok (t : ztrees) : Prop := {
  tk_lenlen : zlen (t_lenlen t) = 19 /\ Forall (fun l => 0 <= l < 16) (t_lenlen t);
  tk_lengths : zlen (t_lengths t) = 320 /\ Forall (fun l => 0 <= l < 16) (t_lengths t);
  tk_lenrep : 0 <= t_lenrep t < 16
}.

Definition sizes_ok (t : ztrees) : Prop :=
  257 <= t_hlit t <= 288 /\ 1 <= t_hdist t <= 32 /\ 4 <= t_hclen t <= 19.

(** What holds in each state. *)
Definition state_ok (d : zlib_decompress_ctx) : Prop :=
  let tables := d_currlentable d <> TNull /\ d_currdisttable d <> TNull in
  let t := d_trees d in
  match d_state d with
  | INBLK => tables
  | GOTLENSYM => tables /\ 257 <= d_sym d < 286
  | GOTLEN => tables /\ 0 <= d_len d <= 258
  | GOTDISTSYM => tables /\ 0 <= d_len d <= 258 /\ 0 <= d_sym d < 30
  | TREES_LENLEN => sizes_ok t /\ 0 <= t_lenptr t < t_hclen t
  | TREES_LEN => sizes_ok t /\ 0 <= t_lenptr t <= t_hlit t + t_hdist t /\ d_lenlentable d <> None
  | TREES_LENREP => sizes_ok t /\ 0 <= t_lenptr t < t_hlit t + t_hdist t /\ d_lenlentable d <> None /\
      2 <= t_lenextrabits t <= 7
  | _ => True
  end.

Record dsafe (d : zlib_decompress_ctx) : Prop := {
  ds_static : table_ok 288 15 (d_staticlentable d) /\ table_ok 32 15 (d_staticdisttable d);
  ds_curr : ptr_ok 288 (d_currlentable d) /\ ptr_ok 32 (d_currdisttable d);
  ds_lenlen : forall t, d_lenlentable d = Some t -> table_ok 19 15 t;
  ds_reg : reg_ok (d_reg d);
  ds_trees : trees_ok (d_trees d);
  ds_state : state_ok d
}.

(** What is left to do: two for each bit, and one for the states that may pass without
    reading. *)
Definition rank (s : zlib_state) : Z :=
  match s with TREES_LEN | GOTLENSYM | GOTDISTSYM => 1 | _ => 0 end.
Definition todo (d : zlib_decompress_ctx) : Z := 2 * r_nbits (d_reg d) + rank (d_state d).

(** A pass either goes on with less to do and at most 258 more characters, or waits
    for data because there were fewer than 24 bits, or rejects the data. *)
Definition step_post (d : zlib_decompress_ctx) (W : window) (out : list Z) (o : outcome) : Prop :=
  match o with
  | Continue d' => dsafe d' /\ todo d' < todo d /\ r_nbits (d_reg d') <= r_nbits (d_reg d) /\
      exists W' out', win_holds (d_win d') W' out' /\ zlen out' <= zlen out + 258
  | Finished d' => dsafe d' /\ win_holds (d_win d') W out /\ r_nbits (d_reg d) < 24 /\
      d_reg d' = d_reg d
  | DecodeError d' => win_holds (d_win d') W out
  end.

(** The loops over the header of a dynamic block. *)
Definition same_sizes (t t' : ztrees) : Prop :=
  t_hlit t' = t_hlit t /\ t_hdist t' = t_hdist t /\ t_hclen t' = t_hclen t /\ t_lenextrabits t' = t_lenextrabits t.

Lemma same_sizes_ok t t' : same_sizes t t' -> sizes_ok t -> sizes_ok t'.
Proof. intros (E1 & E2 & E3 & _). unfold sizes_ok. by rewrite E1, E2, E3. Qed.

Lemma lenlenmap_range p : 0 <= p < 19 -> exists k, array_get lenlenmap p = Ok k /\ 0 <= k < 19.
Proof.
  intros Hp. destruct (array_get_total lenlenmap p) as (k & -> & E); [done|]. exists k. split; [done|].
  assert (H : Forall (fun k => 0 <= k < 19) lenlenmap) by (apply (bool_decide_unpack _); vm_compute; exact I).
  by apply (proj1 (Forall_lookup _ _) H) in E.
Qed.

Lemma read_lenlen_ok fuel t reg :
  trees_ok t -> sizes_ok t -> 0 <= t_lenptr t <= t_hclen t -> reg_ok reg -> r_nbits reg <= Z.of_nat fuel ->
  exists t' reg', read_lenlen fuel t reg = Ok (t', reg') /\ trees_ok t' /\ same_sizes t t' /\
    t_lenptr t <= t_lenptr t' <= t_hclen t /\ reg_ok reg' /\ r_nbits reg' <= r_nbits reg /\
    (t_lenptr t < t_hclen t -> 3 <= r_nbits reg -> r_nbits reg' < r_nbits reg).
Proof.
  revert t reg. induction fuel as [|fuel IH]; intros t reg Ht Hs Hp Hr Hf; cbn [read_lenlen].
  - assert ((t_lenptr t <? t_hclen t) && (3 <=? r_nbits reg) = false) as ->
      by (rewrite (proj2 (Z.leb_gt _ _)) by lia; apply andb_false_r).
    exists t, reg. split_and!; (done || lia).
  - destruct (Z.ltb_spec (t_lenptr t) (t_hclen t)) as [Hlt|]; cbn [andb];
      [|exists t, reg; split_and!; (done || lia)].
    destruct (Z.leb_spec 3 (r_nbits reg)) as [H3|]; [|exists t, reg; split_and!; (done || lia)].
    destruct Hs as (Hs1 & Hs2 & Hs3). destruct (lenlenmap_range (t_lenptr t)) as (k & -> & Hk); [lia|]. cbn [res_bind].
    destruct Ht as [[Hll Hlr] Hls Hrep]. rewrite array_set_ok by lia. cbn [res_bind].
    set (t1 := Trees _ _ _ _ _ _ _ _ _).
    destruct (IH t1 (EATBITS reg 3)) as (t' & reg' & -> & Ht' & Hss & Hp' & Hr' & Hn' & _).
    + split; cbn; [|done..]. split; [by rewrite zlen_insert|]. apply Forall_insert; [done|].
      pose proof (land_range (r_bits reg) 3 ltac:(lia)) as H7. change (2 ^ 3 - 1) with 7 in H7. lia.
    + by unfold sizes_ok.
    + cbn. lia.
    + apply EATBITS_ok; [done|lia].
    + cbn. lia.
    + exists t', reg'. cbn in *. split_and!; (done || lia).
Qed.

Lemma repeat_len_ok rep t :
  trees_ok t -> sizes_ok t -> 0 <= t_lenptr t <= t_hlit t + t_hdist t ->
  exists t', repeat_len rep t = Ok t' /\ trees_ok t' /\ same_sizes t t' /\
    t_lenptr t <= t_lenptr t' <= t_hlit t + t_hdist t.
Proof.
  revert t. induction rep as [|rep IH]; intros t Ht Hs Hp; cbn [repeat_len].
  { exists t. split_and!; (done || lia). }
  destruct (Z.ltb_spec (t_lenptr t) (t_hlit t + t_hdist t)) as [Hlt|]; [|exists t; split_and!; (done || lia)].
  pose proof Hs as (Hs1 & Hs2 & Hs3). destruct Ht as [Hll [Hls Hlr] Hrep]. rewrite array_set_ok by lia. cbn [res_bind].
  set (t1 := Trees _ _ _ _ _ _ _ _ _). destruct (IH t1) as (t' & -> & Ht' & Hss & Hp').
  - split; cbn; [done| |done]. split; [by rewrite zlen_insert|]. apply Forall_insert; [done|].
    unfold u8. rewrite Z.mod_small by lia. done.
  - by unfold sizes_ok.
  - cbn. lia.
  - exists t'. cbn in *. split_and!; (done || lia).
Qed.

(** The longest length has 258 characters. *)
Lemma lencodes_range k r :
  array_get lencodes k = Ok r ->
  0 <= cr_extrabits r <= 13 /\ 0 <= cr_min r /\ cr_min r + 2 ^ cr_extrabits r <= 259.
Proof.
  intros [_ E]%array_get_inv.
  assert (H : Forall (fun r => 0 <= cr_extrabits r <= 13 /\ 0 <= cr_min r /\ cr_min r + 2 ^ cr_extrabits r <= 259) lencodes)
    by (apply (bool_decide_unpack _); vm_compute; exact I).
  by apply (proj1 (Forall_lookup _ _) H) in E.
Qed.

Lemma distcodes_extra k r : array_get distcodes k = Ok r -> 0 <= cr_extrabits r <= 13.
Proof.
  intros [_ E]%array_get_inv.
  assert (H : Forall (fun r => 0 <= cr_extrabits r <= 13) distcodes) by (apply (bool_decide_unpack _); vm_compute; exact I).
  by apply (proj1 (Forall_lookup _ _) H) in E.
Qed.

Section steps.
Context (d : zlib_decompress_ctx) (W : window) (out : list Z).
Hypothesis Hd : dsafe d.
Hypothesis Hw : win_holds (d_win d) W out.
Hypothesis Hl : zlen out + 258 <= strbuf_limit.

Definition steps (s : zlib_state) (step : zlib_decompress_ctx -> res outcome) : Prop :=
  d_state d = s -> exists o, step d = Ok o /\ step_post d W out o.

Lemma post_finished : r_nbits (d_reg d) < 24 -> step_post d W out (Finished d).
Proof using Hd Hw. intros H. by split. Qed.

(** Going on without output. *)
Lemma post_continue d' :
  dsafe d' -> d_win d' = d_win d -> todo d' < todo d -> r_nbits (d_reg d') <= r_nbits (d_reg d) ->
  step_post d W out (Continue d').
Proof using Hw. intros H1 E H2 H3. split_and!; try done. rewrite E. exists W, out. split; [done|lia]. Qed.

Ltac start_step :=
  intros Hst; destruct Hd as [Hstat Hcurr Hll Hreg Htr Hs]; unfold state_ok in Hs; rewrite Hst in Hs;
  pose proof Hreg as [Hn Hb].

Ltac keep_invariant := split; cbn [d_staticlentable d_staticdisttable d_currlentable d_currdisttable d_lenlentable
  d_reg d_trees set_state set_reg set_tables set_trees set_sym set_len set_uncomplen set_dwin]; try done.

Ltac less_todo Hst := unfold todo; cbn; rewrite ?Hst; cbn; lia.

Lemma start_safe : steps START step_start.
Proof using Hd Hw.
  start_step. unfold step_start. destruct (Z.ltb_spec (r_nbits (d_reg d)) 16) as [Hlt|Hge].
  { eexists. split; [done|]. apply post_finished. lia. }
  pose proof (EATBITS_ok _ 16 Hreg ltac:(lia)). destruct (header_ok _).
  - eexists. split; [done|]. apply post_continue; [keep_invariant|done|less_todo Hst|cbn; lia].
  - eexists. split; [done|]. exact Hw.
Qed.

Lemma outsideblk_safe : steps OUTSIDEBLK step_outsideblk.
Proof using Hd Hw.
  start_step. unfold step_outsideblk. destruct (Z.ltb_spec (r_nbits (d_reg d)) 3) as [Hlt|Hge].
  { eexists. split; [done|]. apply post_finished. lia. }
  pose proof (EATBITS_ok _ 1 Hreg ltac:(lia)) as Hr1.
  pose proof (EATBITS_ok (EATBITS (d_reg d) 1) 2 Hr1 ltac:(cbn; lia)) as Hr2. cbv zeta.
  set (reg := EATBITS (EATBITS (d_reg d) 1) 2) in *.
  assert (Hnb : r_nbits reg = r_nbits (d_reg d) - 3) by (cbn; lia). clearbody reg.
  destruct (_ =? 0); [|destruct (_ =? 1); [|destruct (_ =? 2)]].
  - assert (He : 0 <= Z.land (r_nbits reg) 7 <= r_nbits reg).
    { pose proof (land_range (r_nbits reg) 3 ltac:(lia)) as Hr. change (2 ^ 3 - 1) with 7 in Hr.
      split; [lia|]. change 7 with (Z.ones 3). rewrite Z.land_ones by lia. apply Z.mod_le; lia. }
    pose proof (EATBITS_ok _ _ Hr2 He).
    eexists. split; [done|]. apply post_continue; [keep_invariant|done|less_todo Hst|cbn; lia].
  - eexists. split; [done|]. apply post_continue; [keep_invariant|done|less_todo Hst|cbn; lia].
  - eexists. split; [done|]. apply post_continue; [keep_invariant|done|less_todo Hst|cbn; lia].
  - eexists. split; [done|]. apply post_continue; [keep_invariant|done|less_todo Hst|cbn; lia].
    unfold state_ok. cbn. by rewrite Hst.
Qed.

Lemma trees_hdr_safe : steps TREES_HDR step_trees_hdr.
Proof using Hd Hw.
  start_step. unfold step_trees_hdr. destruct (Z.ltb_spec (r_nbits (d_reg d)) (5 + 5 + 4)) as [Hlt|Hge].
  { eexists. split; [done|]. apply post_finished. lia. }
  pose proof (EATBITS_ok _ 5 Hreg ltac:(lia)) as Hr1.
  pose proof (EATBITS_ok (EATBITS (d_reg d) 5) 5 Hr1 ltac:(cbn; lia)) as Hr2.
  pose proof (EATBITS_ok (EATBITS (EATBITS (d_reg d) 5) 5) 4 Hr2 ltac:(cbn; lia)) as Hr3. cbv zeta.
  eexists. split; [done|]. apply post_continue; [|done|less_todo Hst|cbn; lia].
  pose proof (land_range (r_bits (d_reg d)) 5 ltac:(lia)).
  pose proof (land_range (r_bits (EATBITS (d_reg d) 5)) 5 ltac:(lia)).
  pose proof (land_range (r_bits (EATBITS (EATBITS (d_reg d) 5) 5)) 4 ltac:(lia)).
  change (2 ^ 5 - 1) with 31 in *. change (2 ^ 4 - 1) with 15 in *.
  keep_invariant.
  - destruct Htr as [_ Hls Hrep]. split; cbn [t_lenlen t_lengths t_lenrep]; try done.
    split; [done|]. apply Forall_replicate. lia.
  - unfold state_ok, sizes_ok. cbn [d_state set_state d_trees set_reg set_trees t_hlit t_hdist t_hclen t_lenptr]. lia.
Qed.
Lemma trees_lenlen_safe : steps TREES_LENLEN step_trees_lenlen.
Proof using Hd Hw.
  start_step. destruct Hs as [Hsz Hp]. unfold step_trees_lenlen.
  destruct (Z.ltb_spec (r_nbits (d_reg d)) 3) as [Hlt|Hge].
  { eexists. split; [done|]. apply post_finished. lia. }
  destruct (read_lenlen_ok (Z.to_nat (r_nbits (d_reg d))) (d_trees d) (d_reg d)) as (t & reg & -> & Ht & Hss & Hp' & Hr & _ & Hless);
    [done|done|lia|done|lia|]. cbn [res_bind]. specialize (Hless ltac:(lia) ltac:(lia)).
  pose proof (same_sizes_ok _ _ Hss Hsz) as Hsz'. pose proof Hss as (E1 & E2 & E3 & _).
  destruct (Z.eqb_spec (t_lenptr t) (t_hclen t)) as [Heq|Hne].
  - destruct (zlib_mktable_ok 19 (t_lenlen t) 19) as (tab & -> & Htab); [by destruct Ht as [[_ ?] _ _]| |lia|lia|].
    { destruct Ht as [[-> _] _ _]. lia. }
    cbn [res_bind]. eexists. split; [done|]. apply post_continue; [|done|less_todo Hst|cbn; lia].
    keep_invariant; [by intros ? [= <-]|by destruct Ht|].
    unfold state_ok. cbn. split; [done|]. split; [destruct Hsz'; lia|done].
  - eexists. split; [done|]. apply post_continue; [|done|less_todo Hst|cbn; lia].
    keep_invariant. unfold state_ok. cbn. rewrite Hst. split; [done|lia].
Qed.

Lemma trees_len_safe : steps TREES_LEN step_trees_len.
Proof using Hd Hw.
  start_step. destruct Hs as (Hsz & Hp & Hll'). pose proof Hsz as (Hs1 & Hs2 & Hs3).
  pose proof Htr as [Hlls [Hlen Hlr] Hrep]. unfold step_trees_len.
  destruct (Z.leb_spec (t_hlit (d_trees d) + t_hdist (d_trees d)) (t_lenptr (d_trees d))) as [Hfull|Hmore].
  { destruct (zlib_mktable_ok 288 (t_lengths (d_trees d)) (t_hlit (d_trees d))) as (lt & -> & Hlt); [done|lia|lia|lia|].
    cbn [res_bind].
    destruct (zlib_mktable_ok 32 (drop (Z.to_nat (t_hlit (d_trees d))) (t_lengths (d_trees d))) (t_hdist (d_trees d)))
      as (dt & -> & Hdt); [by apply Forall_drop|rewrite length_drop; lia|lia|lia|].
    cbn [res_bind]. eexists. split; [done|]. apply post_continue; [|done|less_todo Hst|cbn; lia]. keep_invariant. }
  destruct (d_lenlentable d) as [tab|] eqn:Etab; [|done].
  destruct (zlib_huflookup_ok 19 tab (d_reg d) (Hll tab eq_refl) Hreg) as (c & reg & -> & Hr & Hc). cbn [res_bind].
  destruct Hc as [(-> & -> & Hlt)|[[-> ->]|[Hc Hnb]]].
  { change (-1 =? -1) with true. cbn match. eexists. split; [done|]. split; [|split; [exact Hw|split; [lia|done]]].
    keep_invariant; [by rewrite Etab|]. unfold state_ok. cbn. by rewrite Hst, Etab. }
  { change (-2 =? -1) with false. change (-2 =? -2) with true. cbn match. eexists. split; [done|]. exact Hw. }
  rewrite (proj2 (Z.eqb_neq c (-1))), (proj2 (Z.eqb_neq c (-2))) by lia.
  destruct (Z.ltb_spec c 16) as [H16|H16].
  - rewrite array_set_ok by lia. cbn [res_bind]. eexists. split; [done|].
    apply post_continue; [|done|less_todo Hst|cbn; lia]. keep_invariant; [by rewrite Etab| |].
    + split; cbn; [done| |done]. split; [by rewrite zlen_insert|]. apply Forall_insert; [done|].
      unfold u8. rewrite Z.mod_small by lia. lia.
    + unfold state_ok. cbn. rewrite Hst, Etab. split; [done|]. split; [lia|done].
  - cbv zeta. set (rp := if (c =? 16) && _ then _ else _).
    assert (Hrp : exists v, rp = Ok v /\ 0 <= v < 16).
    { unfold rp. destruct (_ && _) eqn:Eb; [|exists 0; split; [done|lia]].
      apply andb_true_iff in Eb as [_ Hpos%Z.ltb_lt].
      destruct (array_get_total (t_lengths (d_trees d)) (t_lenptr (d_trees d) - 1)) as (v & -> & Ev); [lia|].
      exists v. split; [done|]. by apply (proj1 (Forall_lookup _ _) Hlr) in Ev. }
    destruct Hrp as (v & -> & Hv). cbn [res_bind]. eexists. split; [done|].
    apply post_continue; [|done|less_todo Hst|cbn; lia]. keep_invariant; [by rewrite Etab|].
    unfold state_ok. cbn. rewrite Etab. split; [done|]. split; [lia|]. split; [done|].
    destruct (c =? 16); [lia|]. destruct (c =? 17); lia.
Qed.

Lemma trees_lenrep_safe : steps TREES_LENREP step_trees_lenrep.
Proof using Hd Hw.
  start_step. destruct Hs as (Hsz & Hp & Hll' & Hex). unfold step_trees_lenrep.
  destruct (Z.ltb_spec (r_nbits (d_reg d)) (t_lenextrabits (d_trees d))) as [Hlt|Hge].
  { eexists. split; [done|]. apply post_finished. lia. }
  pose proof (EATBITS_ok _ (t_lenextrabits (d_trees d)) Hreg ltac:(lia)) as Hr. cbv zeta.
  destruct (repeat_len_ok (Z.to_nat (t_lenaddon (d_trees d) + low_bits (d_reg d) (t_lenextrabits (d_trees d)))) (d_trees d))
    as (t & -> & Ht & Hss & Hp'); [done|done|lia|]. cbn [res_bind].
  eexists. split; [done|]. apply post_continue; [|done|less_todo Hst|cbn; lia]. keep_invariant.
  unfold state_ok. cbn. pose proof (same_sizes_ok _ _ Hss Hsz). destruct Hss as (E1 & E2 & _ & _).
  rewrite E1, E2. split; [done|]. split; [lia|done].
Qed.

Lemma currlentable_ok : d_currlentable d <> TNull -> exists t, currlentable d = Some t /\ table_ok 288 15 t.
Proof using Hd.
  destruct Hd as [[H1 _] [H2 _] _ _ _ _]. unfold currlentable. intros Hne.
  destruct (d_currlentable d); [done|by eexists|by eexists].
Qed.

Lemma currdisttable_ok : d_currdisttable d <> TNull -> exists t, currdisttable d = Some t /\ table_ok 32 15 t.
Proof using Hd.
  destruct Hd as [[_ H1] [_ H2] _ _ _ _]. unfold currdisttable. intros Hne.
  destruct (d_currdisttable d); [done|by eexists|by eexists].
Qed.

(** A lookup in a pass: waiting, rejecting, or going on with a symbol. *)
Lemma lookup_cases N t (k : Z -> bitreg -> res outcome) :
  table_ok N 15 t ->
  (forall c reg, 0 <= c < N -> reg_ok reg -> r_nbits reg < r_nbits (d_reg d) ->
     exists o, k c reg = Ok o /\ step_post d W out o) ->
  exists o, (let! r := zlib_huflookup (d_reg d) (Some t) in
             let '(code, reg) := r in
             if code =? -1 then Ok (Finished (set_reg d reg))
             else if code =? -2 then Ok (DecodeError (set_reg d reg))
             else k code reg) = Ok o /\ step_post d W out o.
Proof using Hd Hw.
  intros Ht Hk. destruct (zlib_huflookup_ok N t (d_reg d) Ht (ds_reg d Hd)) as (c & reg & -> & Hr & Hc). cbn [res_bind].
  destruct Hc as [(-> & -> & Hlt)|[[-> ->]|[Hc Hnb]]].
  - eexists. split; [done|]. split; [|split; [exact Hw|split; [lia|done]]]. by destruct d, Hd; split.
  - eexists. split; [done|]. exact Hw.
  - rewrite (proj2 (Z.eqb_neq c (-1))), (proj2 (Z.eqb_neq c (-2))) by lia. by apply Hk.
Qed.

Lemma inblk_safe : steps INBLK step_inblk.
Proof using Hd Hw Hl.
  intros Hst. pose proof (ds_state d Hd) as Hs. unfold state_ok in Hs. rewrite Hst in Hs. destruct Hs as [Hlt Hdt].
  destruct (currlentable_ok Hlt) as (t & Et & Ht). unfold step_inblk. rewrite Et.
  apply (lookup_cases 288 t _ Ht). intros c reg Hc Hr Hnb. destruct Hd as [Hstat Hcurr Hll Hreg Htr Hs].
  destruct (Z.ltb_spec c 256) as [H256|H256].
  { destruct (zlib_emit_char_ok (d_win d) W out c Hw) as (w & E & Hw'); [unfold is_byte; lia|lia|].
    cbn [d_win set_reg]. rewrite E. cbn [res_bind]. eexists. split; [done|].
    split; [keep_invariant|].
    split; [less_todo Hst|]. split; [cbn; lia|]. exists (emit W c), (out ++ [c]). split; [done|].
    rewrite length_app. cbn [length]. lia. }
  destruct (Z.eqb_spec c 256) as [->|Hne].
  { eexists. split; [done|]. apply post_continue; [|done|less_todo Hst|cbn; lia]. keep_invariant.
    split; cbn; [by destruct (d_currlentable d)|by destruct (d_currdisttable d)]. }
  destruct (Z.ltb_spec c 286) as [H286|H286]; (eexists; split; [done|]).
  - apply post_continue; [|done|less_todo Hst|cbn; lia]. keep_invariant. unfold state_ok. cbn. split; [done|lia].
  - exact Hw.
Qed.

Lemma gotlensym_safe : steps GOTLENSYM step_gotlensym.
Proof using Hd Hw.
  start_step. destruct Hs as [Htabs Hsym]. unfold step_gotlensym.
  destruct (array_get_total lencodes (d_sym d - 257)) as (r & E & _); [cbn; lia|]. rewrite E. cbn [res_bind].
  destruct (lencodes_range _ r E) as (Hex & Hmin & Hmax).
  destruct (Z.ltb_spec (r_nbits (d_reg d)) (cr_extrabits r)) as [Hlt|Hge].
  { eexists. split; [done|]. apply post_finished. lia. }
  pose proof (low_bits_range (d_reg d) (cr_extrabits r) (proj1 Hex)) as Hlow.
  pose proof (EATBITS_ok _ (cr_extrabits r) Hreg ltac:(lia)) as Hr. cbv zeta.
  eexists. split; [done|]. apply post_continue; [|done|less_todo Hst|cbn; lia]. keep_invariant.
  unfold state_ok. cbn. split; [done|lia].
Qed.

Lemma gotlen_safe : steps GOTLEN step_gotlen.
Proof using Hd Hw.
  intros Hst. pose proof (ds_state d Hd) as Hs. unfold state_ok in Hs. rewrite Hst in Hs. destruct Hs as [[Hlt Hdt] Hlen].
  destruct (currdisttable_ok Hdt) as (t & Et & Ht). unfold step_gotlen. rewrite Et.
  apply (lookup_cases 32 t _ Ht). intros c reg Hc Hr Hnb. destruct Hd as [Hstat Hcurr Hll Hreg Htr Hs].
  destruct (Z.leb_spec 30 c) as [H30|H30]; (eexists; split; [done|]).
  - exact Hw.
  - apply post_continue; [|done|less_todo Hst|cbn; lia]. keep_invariant. unfold state_ok. cbn. split; [done|lia].
Qed.

Lemma gotdistsym_safe : steps GOTDISTSYM step_gotdistsym.
Proof using Hd Hw Hl.
  start_step. destruct Hs as (Htabs & Hlen & Hsym). unfold step_gotdistsym.
  destruct (array_get_total distcodes (d_sym d)) as (r & E & _); [cbn; lia|]. rewrite E. cbn [res_bind].
  pose proof (distcodes_extra _ _ E) as Hex.
  destruct (Z.ltb_spec (r_nbits (d_reg d)) (cr_extrabits r)) as [Hlt|Hge].
  { eexists. split; [done|]. apply post_finished. lia. }
  pose proof (EATBITS_ok _ (cr_extrabits r) Hreg ltac:(lia)) as Hr. cbv zeta.
  set (dist := cr_min r + _). cbn [d_len d_win set_state set_reg].
  destruct (copy_loop_ok (Z.to_nat (d_len d)) _ _ _ dist Hw) as (w & -> & Hw'); [lia|]. cbn [res_bind].
  eexists. split; [done|]. split. { keep_invariant. }
  split; [less_todo Hst|]. split; [cbn; lia|]. eexists _, _. split; [exact Hw'|].
  rewrite length_app, length_copy_out. lia.
Qed.

Lemma uncomp_len_safe : steps UNCOMP_LEN step_uncomp_len.
Proof using Hd Hw.
  start_step. unfold step_uncomp_len. destruct (Z.ltb_spec (r_nbits (d_reg d)) 16) as [Hlt|Hge].
  { eexists. split; [done|]. apply post_finished. lia. }
  pose proof (EATBITS_ok _ 16 Hreg ltac:(lia)).
  eexists. split; [done|]. apply post_continue; [keep_invariant|done|less_todo Hst|cbn; lia].
Qed.

Lemma uncomp_nlen_safe : steps UNCOMP_NLEN step_uncomp_nlen.
Proof using Hd Hw.
  start_step. unfold step_uncomp_nlen. destruct (Z.ltb_spec (r_nbits (d_reg d)) 16) as [Hlt|Hge].
  { eexists. split; [done|]. apply post_finished. lia. }
  pose proof (EATBITS_ok _ 16 Hreg ltac:(lia)). cbv zeta.
  destruct (negb _); [eexists; split; [done|exact Hw]|].
  destruct (_ =? 0); (eexists; split; [done|]); (apply post_continue; [keep_invariant|done|less_todo Hst|cbn; lia]).
Qed.

Lemma uncomp_data_safe : steps UNCOMP_DATA step_uncomp_data.
Proof using Hd Hw Hl.
  start_step. unfold step_uncomp_data. destruct (Z.ltb_spec (r_nbits (d_reg d)) 8) as [Hlt|Hge].
  { eexists. split; [done|]. apply post_finished. lia. }
  pose proof (EATBITS_ok _ 8 Hreg ltac:(lia)). set (c := Z.land _ 0xFF).
  assert (Hc : is_byte c).
  { pose proof (land_range (r_bits (d_reg d)) 8 ltac:(lia)) as H8. exact H8. }
  destruct (zlib_emit_char_ok (d_win d) W out c Hw) as (w & -> & Hw'); [done|lia|]. cbn [res_bind].
  assert (Hout : zlen (out ++ [c]) <= zlen out + 258) by (rewrite length_app; cbn [length]; lia).
  destruct (_ =? 0); (eexists; split; [done|]); split; [keep_invariant| |keep_invariant|].
  - split; [less_todo Hst|]. split; [cbn; lia|]. by exists (emit W c), (out ++ [c]).
  - unfold state_ok. cbn. by rewrite Hst.
  - split; [less_todo Hst|]. split; [cbn; lia|]. by exists (emit W c), (out ++ [c]).
Qed.

(** Every pass. *)
Lemma zlib_step_safe : exists o, zlib_step d = Ok o /\ step_post d W out o.
Proof using Hd Hw Hl.
  unfold zlib_step. destruct (d_state d) eqn:Hst.
  - by apply start_safe.
  - by apply outsideblk_safe.
  - by apply trees_hdr_safe.
  - by apply trees_lenlen_safe.
  - by apply trees_len_safe.
  - by apply trees_lenrep_safe.
  - by apply inblk_safe.
  - by apply gotlensym_safe.
  - by apply gotlen_safe.
  - by apply gotdistsym_safe.
  - by apply uncomp_len_safe.
  - by apply uncomp_nlen_safe.
  - by apply uncomp_data_safe.
Qed.
End steps.

(** ** Packets *)

Lemma dsafe_set_reg d reg : dsafe d -> reg_ok reg -> dsafe (set_reg d reg).
Proof. by intros [] ?; split. Qed.

Lemma dsafe_set_dwin d w : dsafe d -> dsafe (set_dwin d w).
Proof. by intros []; split. Qed.

Definition work (d : zlib_decompress_ctx) (block : list Z) : Z := todo d + 16 * zlen block.

Lemma refill_work d block reg block' :
  dsafe d -> bytesOK block -> refill (d_reg d) block = (reg, block') ->
  reg_ok reg /\ bytesOK block' /\ work (set_reg d reg) block' = work d block.
Proof.
  intros Hd Hb E. pose proof (proj1 (reg_ok_holds _) (ds_reg d Hd)) as Hr.
  destruct (refill_ok _ _ _ _ _ Hr Hb E) as (s & Hr' & Es & Hb' & _).
  apply (f_equal length) in Es. rewrite !length_app in Es.
  pose proof (length_bits_of_bytes block). pose proof (length_bits_of_bytes block').
  pose proof (reg_holds_length _ _ Hr). pose proof (reg_holds_length _ _ Hr').
  split; [by destruct Hr' as (? & ? & _)|]. split; [done|]. unfold work, todo. cbn [d_reg d_state set_reg]. lia.
Qed.

(** The loop ends, with at most 258 characters for each unit of work. *)
Lemma decompress_loop_safe fuel d block W out :
  dsafe d -> win_holds (d_win d) W out -> bytesOK block -> work d block < Z.of_nat fuel ->
  zlen out + 258 * (work d block + 1) <= strbuf_limit ->
  exists b d' W' out', decompress_loop fuel d block = Ok (b, d') /\ win_holds (d_win d') W' out' /\
    zlen out' <= zlen out + 258 * work d block /\ (b = true -> dsafe d' /\ r_nbits (d_reg d') < 24).
Proof.
  revert d block W out. induction fuel as [|fuel IH]; intros d block W out Hd Hw Hb Hf Hl;
    pose proof (ds_reg d Hd) as [Hn _].
  all: assert (Hwork : 0 <= work d block) by (unfold work, todo, rank; destruct (d_state d); lia).
  { lia. }
  cbn [decompress_loop]. destruct ((0 <? zlen block) || (0 <? r_nbits (d_reg d))) eqn:Ego.
  2: { apply orb_false_iff in Ego as [_ H0%Z.ltb_ge]. exists true, d, W, out. split; [done|]. split; [done|].
       split; [lia|]. intros _. split; [done|lia]. }
  destruct (refill (d_reg d) block) as [reg block'] eqn:Er.
  destruct (refill_work _ _ _ _ Hd Hb Er) as (Hreg & Hb' & Ework).
  pose proof (dsafe_set_reg _ _ Hd Hreg) as Hd1. cbn [res_bind].
  destruct (zlib_step_safe (set_reg d reg) W out Hd1 Hw) as (o & -> & Hpost); [lia|]. cbn [res_bind].
  destruct o as [d1|d1|d1]; cbn [step_post] in Hpost.
  - destruct Hpost as (Hd' & Htodo & _ & W1 & out1 & Hw1 & Hl1).
    assert (Hless : work d1 block' + 1 <= work d block) by (rewrite <-Ework; unfold work; lia).
    destruct (IH d1 block' W1 out1 Hd' Hw1 Hb') as (b & d2 & W2 & out2 & E & Hw2 & Hl2 & Hdone); [lia|lia|].
    exists b, d2, W2, out2. split; [done|]. split; [done|]. split; [lia|done].
  - destruct Hpost as (Hd' & Hw' & Hn' & Er').
    exists true, d1, W, out. split; [done|]. split; [done|]. split; [lia|]. intros _. split; [done|]. by rewrite Er'.
  - exists false, d1, W, out. split; [done|]. split; [done|]. split; [lia|done].
Qed.

(** The decompressor between packets. *)
Record idle_safe (d : zlib_decompress_ctx) : Prop := {
  is_safe : dsafe d;
  is_window : window_bytes (w_window (d_win d), w_winpos (d_win d));
  is_outblk : w_outblk (d_win d) = None;
  is_bits : r_nbits (d_reg d) < 24
}.

Definition expansion (block : list Z) : Z := 258 * (16 * zlen block + 48).

Lemma decompress_block_safe d block :
  idle_safe d -> bytesOK block -> zlen block <= 2 ^ 17 ->
  exists o d', zlib_decompress_block d block = Ok (o, d') /\
    match o with
    | Some out => idle_safe d' /\ zlen out <= expansion block
    | None => w_outblk (d_win d') <> None
    end.
Proof.
  intros [Hd HW Hnone Hbits] Hb Hlen. unfold zlib_decompress_block. rewrite Hnone. cbn [c_assert].
  destruct (strbuf_new_holds true) as (sb & Esb & Hsb). unfold strbuf_new_nm. rewrite Esb. cbn [res_bind].
  set (d0 := set_dwin d _). pose proof (dsafe_set_dwin d _ Hd : dsafe d0) as Hd0.
  assert (Hw0 : win_holds (d_win d0) (w_window (d_win d), w_winpos (d_win d)) []) by (split; [done|split; [done|by exists sb]]).
  pose proof (ds_reg d Hd) as [Hn _].
  assert (Hrank : 0 <= rank (d_state d) <= 1) by (unfold rank; destruct (d_state d); lia).
  assert (Hwork : work d0 block <= 16 * zlen block + 47) by (unfold work, todo, d0; cbn; lia).
  destruct (decompress_loop_safe (decompress_fuel d0 block) d0 block _ [] Hd0 Hw0 Hb)
    as (b & d1 & W' & out & -> & (EW & HW' & sb' & Esb' & Hsb') & Hl & Hdone).
  { unfold work, todo, decompress_fuel, d0. cbn. lia. }
  { unfold strbuf_limit. cbn [length]. lia. }
  cbn [res_bind]. destruct b.
  - rewrite Esb', (strbuf_contents_holds _ _ Hsb'). cbn [res_bind]. destruct (Hdone eq_refl) as [Hd1 Hn1].
    eexists _, _. split; [done|]. split.
    + split; [by apply dsafe_set_dwin|cbn; by rewrite EW|done|done].
    + unfold expansion. cbn [length] in Hl. lia.
  - eexists _, _. split; [done|]. cbn. by rewrite Esb'.
Qed.

Lemma init_safe : exists d, zlib_decompress_init = Ok d /\ idle_safe d.
Proof.
  unfold zlib_decompress_init.
  destruct (zlib_mktable_ok 288 static_lengths 288) as (lt & -> & Hlt);
    [apply (bool_decide_unpack _); vm_compute; exact I|vm_compute; split; discriminate|lia|lia|].
  cbn [res_bind].
  destruct (zlib_mktable_ok 32 (replicate 32 5 ++ drop 32 static_lengths) 32) as (dt & -> & Hdt);
    [apply (bool_decide_unpack _); vm_compute; exact I|vm_compute; split; discriminate|lia|lia|].
  cbn [res_bind]. eexists. split; [reflexivity|]. split.
  - split; cbn [d_staticlentable d_staticdisttable d_currlentable d_currdisttable d_lenlentable d_reg d_trees];
      [done|done|done|split; cbn; lia| |exact I].
    split; cbn [t_lenlen t_lengths t_lenrep]; [split; [done|apply Forall_replicate; lia]..|lia].
  - cbn [d_win w_window w_winpos]. apply window_zero_bytes.
  - reflexivity.
  - cbn. lia.
Qed.

(** A connection: the packets are handed to the decompressor one after the other,
    a packet behind a rejected one too, as ssh2_bpp_handle_input does. *)
Fixpoint decompress_session (d : zlib_decompress_ctx) (blocks : list (list Z))
  : res (list (option (list Z)) * zlib_decompress_ctx) :=
  match blocks with
  | [] => Ok ([], d)
  | block :: blocks =>
      let! r := zlib_decompress_block d block in
      let! rs := decompress_session r.2 blocks in
      Ok (r.1 :: rs.1, rs.2)
  end.

Definition block_bounded (b : list Z) : Prop := bytesOK b /\ zlen b <= 2 ^ 17.

#[export] Instance block_bounded_dec b : Decision (block_bounded b).
Proof. unfold block_bounded, bytesOK, is_byte. apply _. Defined.

(** With [outblk] still there the assertion at the start of the routine fails. *)
Lemma decompress_open d block :
  w_outblk (d_win d) <> None -> zlib_decompress_block d block = Crash AssertionFailed.
Proof. intros H. unfold zlib_decompress_block. by destruct (w_outblk (d_win d)). Qed.

(** What a session does: all packets are decompressed, or those before the first
    rejected one are, and any packet behind that one fails the assertion. *)
Definition session_outcome (d : zlib_decompress_ctx) (blocks : list (list Z)) : Prop :=
  (exists outs d', decompress_session d blocks = Ok (Some <$> outs, d') /\ idle_safe d' /\
     Forall2 (fun block out => zlen out <= expansion block) blocks outs) \/
  (exists good bad rest outs d', blocks = good ++ bad :: rest /\
     decompress_session d (good ++ [bad]) = Ok ((Some <$> outs) ++ [None], d') /\
     Forall2 (fun block out => zlen out <= expansion block) good outs /\
     (rest <> [] -> decompress_session d blocks = Crash AssertionFailed)).

Lemma session_safe d blocks :
  idle_safe d -> Forall block_bounded blocks -> session_outcome d blocks.
Proof.
  intros Hd H. revert d Hd. induction H as [|block blocks [Hb Hl] Hbs IH]; intros d Hd.
  { left. exists [], d. split; [done|]. split; [done|constructor]. }
  destruct (decompress_block_safe d block Hd Hb Hl) as (o & d1 & E & Ho). destruct o as [out|].
  - destruct Ho as [Hd1 Hout].
    destruct (IH d1 Hd1) as [(outs & d' & Es & Hd' & Hall)
                            |(good & bad & rest & outs & d' & -> & Es & Hall & Hrest)].
    + left. exists (out :: outs), d'. split; [|split; [done|by constructor]].
      cbn [decompress_session]. rewrite E. cbn [res_bind fst snd]. by rewrite Es.
    + right. exists (block :: good), bad, rest, (out :: outs), d'. split; [done|].
      cbn [app decompress_session]. rewrite E. cbn [res_bind fst snd]. rewrite Es.
      split; [done|]. split; [by constructor|]. intros Hr. by rewrite (Hrest Hr).
  - right. exists [], block, blocks, [], d1. split; [done|]. cbn [app decompress_session].
    rewrite E. cbn [res_bind fst snd]. split; [done|]. split; [constructor|].
    intros Hr. destruct blocks as [|b2 blocks]; [done|]. cbn [decompress_session].
    by rewrite (decompress_open d1 b2 Ho).
Qed.

(** C10. Whatever bytes arrive, in packets of up to 128 kB, decompressing them is safe and
    ends, up to and including the first packet that is rejected: the packets before it
    are decompressed, to at most the given length, and the rejection is reported; no
    table lookup, window access or code length leaves its array, no pointer is null, no
    assertion fails.  If no packet is rejected that holds of the whole connection.  The
    packet behind a rejected one, which the code also hands to the decompressor, always
    fails the assertion that the output buffer is gone. *)
Theorem zlib_decompress_safe blocks :
  Forall block_bounded blocks ->
  exists d, zlib_decompress_init = Ok d /\
    ((exists outs d', decompress_session d blocks = Ok (Some <$> outs, d') /\ idle_safe d' /\
        Forall2 (fun block out => zlen out <= expansion block) blocks outs) \/
     (exists good bad rest outs d', blocks = good ++ bad :: rest /\
        decompress_session d (good ++ [bad]) = Ok ((Some <$> outs) ++ [None], d') /\
        Forall2 (fun block out => zlen out <= expansion block) good outs /\
        (rest <> [] -> decompress_session d blocks = Crash AssertionFailed))).
Proof.
  intros H. destruct init_safe as (d & Ed & Hd).
  exists d. split; [exact Ed|exact (session_safe d blocks Hd H)].
Qed.

(** A dynamic block in two packets, and the symbol 286 in a static block behind it. *)
Definition dynamic_packets : list (list Z) :=
  [[120; 218; 180; 142; 49; 10; 0; 48; 12; 2; 223; 234; 253; 255; 17; 29; 210; 66; 170; 129; 78; 117];
   [16; 225; 68; 148; 142; 40; 103; 135; 202; 41; 154; 139; 132; 244; 226; 180; 128; 151; 113; 72; 14; 95; 163;
    122; 43; 123; 211; 19; 152; 16; 126; 230; 151; 45; 0; 0; 0; 255; 255]; [26; 3]].

(** The first two packets are decompressed and the third is rejected. *)
Example dynamic_packets_outcome :
  (let! d := zlib_decompress_init in let! r := decompress_session d dynamic_packets in
   Ok ((fun o => bool_decide (o <> None)) <$> r.1)) = Ok [true; true; false].
Proof. vm_compute. reflexivity. Qed.

Lemma zlib_decompress_safe_witness :
  exists d outs d', zlib_decompress_init = Ok d /\
    decompress_session d dynamic_packets = Ok ((Some <$> outs) ++ [None], d') /\
    length outs = 2%nat.
Proof.
  pose proof dynamic_packets_outcome as Hout.
  destruct (zlib_decompress_safe dynamic_packets)
    as (d & Ed & [(outs & d' & E & _ & _)|(good & bad & rest & outs & d' & Eb & E & Hall & Hrest)]).
  - apply (bool_decide_unpack _). vm_compute. exact I.
  - exfalso. rewrite Ed in Hout. cbn [res_bind] in Hout. rewrite E in Hout.
    destruct outs as [|o1 [|o2 [|o3 outs]]]; discriminate Hout.
  - exists d, outs, d'. split; [exact Ed|]. destruct rest as [|b rest].
    + rewrite Eb. split; [exact E|]. apply Forall2_length in Hall. rewrite <-Hall.
      apply (f_equal length) in Eb. rewrite length_app in Eb. cbn [length] in Eb.
      change (length dynamic_packets) with 3%nat in Eb. lia.
    + exfalso. rewrite Ed in Hout. cbn [res_bind] in Hout. rewrite (Hrest ltac:(discriminate)) in Hout.
      discriminate Hout.
Defined.

(** Once data has been rejected, [outblk] is still there: the next call fails its
    assertion instead of rejecting again. *)
Theorem rejected_stays_open d block d' block' :
  idle_safe d -> block_bounded block -> zlib_decompress_block d block = Ok (None, d') ->
  zlib_decompress_block d' block' = Crash AssertionFailed.
Proof.
  intros Hd [Hb Hl] E. destruct (decompress_block_safe d block Hd Hb Hl) as (o & d1 & E' & Ho).
  rewrite E in E'. injection E' as <- <-. by apply decompress_open.
Qed.

(** A block of the reserved type 3 is not an error: its header is skipped. *)
Lemma reserved_block_skipped d :
  d_state d = OUTSIDEBLK -> 3 <= r_nbits (d_reg d) -> Z.land (Z.shiftr (r_bits (d_reg d)) 1) 3 = 3 ->
  zlib_step d = Ok (Continue (set_reg d (EATBITS (EATBITS (d_reg d) 1) 2))).
Proof.
  intros Hst Hn Hb. unfold zlib_step. rewrite Hst. unfold step_outsideblk. rewrite (proj2 (Z.ltb_ge _ _)) by lia.
  cbv zeta. change (r_bits (EATBITS (d_reg d) 1)) with (Z.shiftr (r_bits (d_reg d)) 1). by rewrite Hb.
Qed.

(** A match that reaches behind the start of the data copies zeros. *)
Definition early_match : list Z := [120; 156; 2; 2; 0].

Example early_match_accepted :
  (let! d := zlib_decompress_init in let! r := zlib_decompress_block d early_match in Ok r.1) = Ok (Some [0; 0; 0]).
Proof. vm_compute. reflexivity. Qed.
