(* ===== verification/ZlibHuff.v ===== *)
(** * Decode tables decode canonical Huffman codes

    [zlib_mktable] is given the lengths of the codes only.  The codes are the ones of
    RFC 1951, 3.2.2; when the lengths satisfy Kraft's inequality these are free of
    prefixes, and the nested tables decode every code, and wait exactly while one is
    incomplete. *)

From S2P Require Import Prelude Bufchain Marshal Strbuf Lz77 Lz77Spec Zlib ZlibBits ZlibCode ZlibRun ZlibSpec ZlibSafe.
Local Open Scope cmodel_scope.
Local Open Scope Z_scope.

Notation entry := (zlib_tableentry zlib_table).

(** ** Filling a table, entry by entry *)

(** What a symbol does to an entry it reaches. *)
Definition put_symbol (i nbits : Z) (e : entry) : entry :=
  Entry (if te_nbits e <? nbits then nbits else te_nbits e) i (te_nexttable e).

Lemma fill_entries_at fuel table mask j step i nbits table' :
  fill_entries fuel table mask j step i nbits = Ok table' -> zlen table = mask + 1 -> 0 <= j -> 1 <= step ->
  zlen table' = mask + 1 /\
  forall k e, table !! k = Some e ->
    table' !! k = Some (if bool_decide (j <= Z.of_nat k /\ (Z.of_nat k - j) mod step = 0) then put_symbol i nbits e else e).
Proof.
  revert table j. induction fuel as [|fuel IH]; intros table j E Hl Hj Hs; cbn [fill_entries] in E;
    (destruct (Z.leb_spec j mask) as [Hle|Hgt];
     [|injection E as <-; split; [done|]; intros k e Ek; rewrite bool_decide_false; [done|];
       apply lookup_lt_Some in Ek; lia]).
  { done. }
  apply res_bind_Ok in E as (e0 & [Hr E0]%array_get_inv & E). rewrite array_set_ok in E by lia. cbn [res_bind] in E.
  destruct (IH _ _ E) as [Hl' H]; [by rewrite zlen_insert|lia|done|].
  split; [done|]. intros k e Ek. destruct (decide (k = Z.to_nat j)) as [->|Hne].
  - assert (e = e0) as -> by congruence. rewrite (H (Z.to_nat j) (put_symbol i nbits e0)) by (apply list_lookup_insert_eq; lia).
    rewrite bool_decide_false by lia. rewrite bool_decide_true; [done|]. rewrite Z2Nat.id by lia.
    split; [lia|]. by rewrite Z.sub_diag.
  - rewrite (H k e) by (rewrite list_lookup_insert_ne by lia; done). f_equal.
    assert (Hm : (Z.of_nat k - (j + step)) mod step = (Z.of_nat k - j) mod step).
    { replace (Z.of_nat k - (j + step)) with (Z.of_nat k - j + (-1) * step) by lia. by rewrite Z.mod_add by lia. }
    rewrite Hm. destruct (decide ((Z.of_nat k - j) mod step = 0)) as [Hz|Hnz].
    + destruct (Z.le_gt_cases (j + step) (Z.of_nat k)); [by rewrite !bool_decide_true by lia|].
      rewrite !bool_decide_false; [done| |lia]. intros [Hk _]. rewrite Z.mod_small in Hz by lia. lia.
    + rewrite !bool_decide_false by tauto. done.
Qed.

(** A symbol reaches the entries whose bits agree with its code behind the prefix. *)
Definition reaches (pfx pfxbits bits j : Z) (c l : Z) : bool :=
  (pfxbits <? l) && (c mod 2 ^ pfxbits =? pfx) &&
  ((c / 2 ^ pfxbits) mod 2 ^ Z.min (l - pfxbits) bits =? j mod 2 ^ Z.min (l - pfxbits) bits).

Fixpoint symbols_at (pfx pfxbits bits j i : Z) (syms : list (Z * Z)) (e : entry) : entry :=
  match syms with
  | [] => e
  | (c, l) :: syms =>
      symbols_at pfx pfxbits bits j (i + 1) syms
        (if reaches pfx pfxbits bits j c l then put_symbol i (l - pfxbits) e else e)
  end.

Lemma land_low_mask x n : 0 <= n -> Z.land x (Z.shiftl 1 n - 1) = x mod 2 ^ n.
Proof.
  intros Hn. rewrite Z.shiftl_1_l. replace (2 ^ n - 1) with (Z.ones n) by (rewrite Z.ones_equiv; lia). by apply Z.land_ones.
Qed.

(** The stride of the inner loop visits exactly those entries. *)
Lemma stride_reaches q n bits j :
  0 <= bits -> 1 <= n -> 0 <= q < 2 ^ n -> 0 <= j < 2 ^ bits ->
  bool_decide (q mod 2 ^ bits <= j /\ (j - q mod 2 ^ bits) mod 2 ^ n = 0) =
  (q mod 2 ^ Z.min n bits =? j mod 2 ^ Z.min n bits).
Proof.
  intros Hb Hn Hq Hj. pose proof (Z.pow_pos_nonneg 2 n ltac:(lia) ltac:(lia)) as Hpn. apply eq_true_iff_eq. rewrite bool_decide_eq_true, Z.eqb_eq.
  destruct (Z.le_gt_cases n bits) as [Hle|Hgt].
  - rewrite Z.min_l by lia. assert (2 ^ n <= 2 ^ bits) by (apply Z.pow_le_mono_r; lia).
    rewrite (Z.mod_small q (2 ^ bits)), (Z.mod_small q (2 ^ n)) by lia.
    split; [intros [Hqj Hz]|intros ->].
    + apply Z.mod_divide in Hz as [z Hz]; [|lia]. replace j with (q + z * 2 ^ n) by lia.
      rewrite Z.mod_add, Z.mod_small by lia. done.
    + pose proof (Z.mod_le j (2 ^ n) ltac:(lia) ltac:(lia)). split; [lia|].
      apply Z.mod_divide; [lia|]. exists (j / 2 ^ n). pose proof (Z.div_mod j (2 ^ n) ltac:(lia)). lia.
  - rewrite Z.min_r by lia. rewrite (Z.mod_small j (2 ^ bits)) by lia.
    assert (2 ^ bits < 2 ^ n) by (apply Z.pow_lt_mono_r; lia).
    pose proof (Z.mod_pos_bound q (2 ^ bits) ltac:(lia)).
    split; [intros [Hqj Hz]|intros ->; split; [lia|by rewrite Z.sub_diag]].
    rewrite Z.mod_small in Hz by lia. lia.
Qed.

Lemma fill_table_at codes lengths table mask pfx pfxbits bits i table' :
  fill_table table mask codes lengths pfx pfxbits i = Ok table' ->
  mask = 2 ^ bits - 1 -> 0 <= bits -> 0 <= pfxbits -> zlen table = mask + 1 -> length codes = length lengths ->
  Forall2 (fun c l => 0 <= c < 2 ^ l) codes lengths ->
  zlen table' = mask + 1 /\
  forall k e, table !! k = Some e -> table' !! k = Some (symbols_at pfx pfxbits bits (Z.of_nat k) i (zip codes lengths) e).
Proof.
  intros E -> Hb Hp. revert table i E. intros table i E Hl _ Hcl. revert table i E Hl.
  induction Hcl as [|c l codes lengths Hc Hcl IH]; intros table i E Hl; cbn [fill_table] in E.
  { injection E as <-. split; [done|]. by intros k e ->. }
  apply res_bind_Ok in E as (t1 & E1 & E). rewrite land_low_mask in E1 by done.
  assert (Hstep : zlen t1 = 2 ^ bits - 1 + 1 /\ forall k e, table !! k = Some e ->
    t1 !! k = Some (if reaches pfx pfxbits bits (Z.of_nat k) c l then put_symbol i (l - pfxbits) e else e)).
  { unfold reaches. destruct (Z.leb_spec l pfxbits) as [Hs|Hlong]; cbn [orb] in E1.
    { injection E1 as <-. split; [done|]. intros k e ->. by rewrite (proj2 (Z.ltb_ge _ _)) by lia. }
    rewrite (proj2 (Z.ltb_lt _ _)) by lia. destruct (c mod 2 ^ pfxbits =? pfx); cbn [negb andb] in E1 |- *.
    2: { injection E1 as <-. split; [done|]. by intros k e ->. }
    replace (2 ^ bits - 1) with (Z.shiftl 1 bits - 1) in E1 at 2 by (by rewrite Z.shiftl_1_l).
    rewrite land_low_mask, Z.shiftr_div_pow2, Z.shiftl_1_l in E1 by done.
    set (q := c / 2 ^ pfxbits) in *.
    assert (Hq : 0 <= q < 2 ^ (l - pfxbits)).
    { unfold q. split; [apply Z.div_pos; lia|]. apply Z.div_lt_upper_bound; [lia|].
      rewrite <-Z.pow_add_r by lia. replace (pfxbits + (l - pfxbits)) with l by lia. lia. }
    pose proof (Z.mod_pos_bound q (2 ^ bits) ltac:(lia)).
    destruct (fill_entries_at _ _ _ _ _ _ _ _ E1 Hl) as [Hl1 H1]; [lia|lia|].
    split; [done|]. intros k e Ek. rewrite (H1 k e Ek). f_equal.
    apply lookup_lt_Some in Ek. rewrite (stride_reaches q (l - pfxbits) bits (Z.of_nat k)) by lia. done. }
  destruct Hstep as [Hl1 H1]. destruct (IH t1 (i + 1) E Hl1) as [Hl' H']. split; [done|].
  intros k e Ek. cbn [zip zip_with symbols_at]. apply H', H1, Ek.
Qed.

Lemma make_subtables_at mk pfx pfxbits bits code table table' :
  make_subtables mk pfx pfxbits bits code table = Ok table' ->
  forall k e, table !! k = Some e ->
    if te_nbits e <=? bits then table' !! k = Some e
    else exists nb t, 1 <= nb /\ mk (Z.lor pfx (Z.shiftl (code + Z.of_nat k) pfxbits)) (pfxbits + bits) nb = Ok t /\
      table' !! k = Some (Entry bits (-1) (Some t)).
Proof.
  revert code table'. induction table as [|e0 table IH]; intros code table' E k e Ek; [done|]. cbn [make_subtables] in E.
  apply res_bind_Ok in E as (e1 & E1 & E). apply res_bind_Ok in E as (t1 & Et & [= <-]).
  destruct k as [|k].
  - injection Ek as ->. rewrite Z.add_0_r. destruct (Z.leb_spec (te_nbits e) bits) as [Hle|Hgt].
    + by injection E1 as ->.
    + apply res_bind_Ok in E1 as (t & Emk & [= <-]). eexists _, t. split; [|by split; [exact Emk|]].
      destruct (7 <? te_nbits e - bits); lia.
  - cbn in Ek. specialize (IH _ _ Et k e Ek). replace (code + 1 + Z.of_nat k) with (code + Z.of_nat (S k)) in IH by lia.
    exact IH.
Qed.

(** ** What an entry holds *)

Lemma symbols_at_next pfx pfxbits bits j i syms e :
  te_nexttable e = None -> te_nexttable (symbols_at pfx pfxbits bits j i syms e) = None.
Proof.
  revert i e. induction syms as [|[c l] syms IH]; intros i e H; [done|]. cbn. apply IH. by destruct (reaches _ _ _ _ _ _).
Qed.

Lemma symbols_at_mono pfx pfxbits bits j i syms e :
  te_nbits e <= te_nbits (symbols_at pfx pfxbits bits j i syms e).
Proof.
  revert i e. induction syms as [|[c l] syms IH]; intros i e; [done|]. cbn [symbols_at].
  etransitivity; [|apply IH]. destruct (reaches _ _ _ _ _ _); [|done]. cbn. destruct (Z.ltb_spec (te_nbits e) (l - pfxbits)); lia.
Qed.

Lemma symbols_at_ge pfx pfxbits bits j i syms e s c l :
  syms !! s = Some (c, l) -> reaches pfx pfxbits bits j c l = true ->
  l - pfxbits <= te_nbits (symbols_at pfx pfxbits bits j i syms e).
Proof.
  revert i e s. induction syms as [|[c' l'] syms IH]; intros i e s Es Hr; [done|]. cbn [symbols_at].
  destruct s as [|s]; [|by apply (IH _ _ s)]. injection Es as -> ->. rewrite Hr.
  etransitivity; [|apply symbols_at_mono]. cbn. destruct (Z.ltb_spec (te_nbits e) (l - pfxbits)); lia.
Qed.

Lemma symbols_at_none pfx pfxbits bits j i syms e :
  (forall s c l, syms !! s = Some (c, l) -> reaches pfx pfxbits bits j c l = false) ->
  symbols_at pfx pfxbits bits j i syms e = e.
Proof.
  revert i e. induction syms as [|[c l] syms IH]; intros i e H; [done|]. cbn [symbols_at].
  rewrite (H O c l eq_refl). apply IH. intros s. apply (H (S s)).
Qed.

(** The only symbol that reaches an entry is the one it holds. *)
Lemma symbols_at_unique pfx pfxbits bits j i syms e s c l :
  syms !! s = Some (c, l) -> reaches pfx pfxbits bits j c l = true -> te_nbits e = 0 -> te_nexttable e = None ->
  (forall s' c' l', s' <> s -> syms !! s' = Some (c', l') -> reaches pfx pfxbits bits j c' l' = false) ->
  symbols_at pfx pfxbits bits j i syms e = Entry (l - pfxbits) (i + Z.of_nat s) None.
Proof.
  intros Es Hr Hn Hx. revert i s Es. induction syms as [|[c' l'] syms IH]; intros i s Es Huniq; [done|]. cbn [symbols_at].
  destruct s as [|s].
  - injection Es as -> ->. rewrite Hr. rewrite symbols_at_none.
    + unfold put_symbol. rewrite Hn, Hx. unfold reaches in Hr. apply andb_true_iff in Hr as [[Hlt%Z.ltb_lt _]%andb_true_iff _].
      rewrite (proj2 (Z.ltb_lt _ _)) by lia. f_equal. lia.
    + intros s' c2 l2 Es'. by apply (Huniq (S s')).
  - rewrite (Huniq O c' l') by done. rewrite (IH (i + 1) s Es).
    + f_equal. lia.
    + intros s' c2 l2 Hne Es'. apply (Huniq (S s')); [lia|done].
Qed.

(** ** Looking a code up *)

Section codes.
Context (codes lengths : list Z).
Hypothesis Hcodes : Forall2 (fun c l => 0 <= c < 2 ^ l) codes lengths.

(** No code is the beginning of another one. *)
Definition prefix_free : Prop :=
  forall s s' c l c' l', s <> s' -> codes !! s = Some c -> lengths !! s = Some l ->
    codes !! s' = Some c' -> lengths !! s' = Some l' -> 1 <= l <= l' -> c' mod 2 ^ l <> c.
Hypothesis Hfree : prefix_free.

Lemma zip_lookup s c l :
  zip codes lengths !! s = Some (c, l) <-> codes !! s = Some c /\ lengths !! s = Some l.
Proof using.
  rewrite lookup_zip_with_Some. split.
  - intros (x & y & [= -> ->] & ? & ?). done.
  - intros [? ?]. by exists c, l.
Qed.

Lemma mod_pow_mod x a b : 0 <= a <= b -> (x mod 2 ^ b) mod 2 ^ a = x mod 2 ^ a.
Proof using.
  intros H. apply Z.mod_mod_divide. exists (2 ^ (b - a)). rewrite <-Z.pow_add_r by lia. f_equal. lia.
Qed.

(** The bits of a number in two parts. *)
Lemma mod_pow_split x a b : 0 <= a -> 0 <= b -> x mod 2 ^ (a + b) = x mod 2 ^ a + 2 ^ a * ((x / 2 ^ a) mod 2 ^ b).
Proof using. intros Ha Hb. rewrite Z.pow_add_r by lia. apply Z.rem_mul_r; lia. Qed.

(** Where a complete code fits into the table, no other symbol reaches. *)
Lemma reaches_unique pfx pfxbits bits v s c l s' c' l' :
  0 <= pfxbits -> 0 <= bits -> codes !! s = Some c -> lengths !! s = Some l -> codes !! s' = Some c' ->
  lengths !! s' = Some l' -> s' <> s -> pfxbits < l -> l - pfxbits <= bits -> c mod 2 ^ pfxbits = pfx ->
  v mod 2 ^ (l - pfxbits) = c / 2 ^ pfxbits ->
  reaches pfx pfxbits bits (v mod 2 ^ bits) c' l' = false.
Proof using Hcodes Hfree.
  intros Hp Hb Ec El Ec' El' Hne Hpl Hlb Hpfx Hv. apply not_true_iff_false. unfold reaches.
  rewrite !andb_true_iff, Z.ltb_lt, !Z.eqb_eq. intros [[Hpl' Hpfx'] Hj].
  assert (Hc : 0 <= c < 2 ^ l) by (exact (Forall2_lookup_lr _ _ _ _ _ _ Hcodes Ec El)).
  assert (Hc' : 0 <= c' < 2 ^ l') by (exact (Forall2_lookup_lr _ _ _ _ _ _ Hcodes Ec' El')).
  rewrite mod_pow_mod in Hj by lia.
  assert (Hcsplit : c = pfx + 2 ^ pfxbits * (v mod 2 ^ (l - pfxbits))).
  { rewrite Hv. rewrite <-Hpfx. pose proof (Z.div_mod c (2 ^ pfxbits) ltac:(lia)). lia. }
  destruct (Z.le_gt_cases l l') as [Hle|Hgt].
  - apply (Hfree s s' c l c' l'); try done; try lia.
    replace l with (pfxbits + (l - pfxbits)) at 1 by lia. rewrite mod_pow_split, Hpfx' by lia.
    rewrite Hcsplit. do 2 f_equal. apply (f_equal (fun x => x mod 2 ^ (l - pfxbits))) in Hj.
    by rewrite !mod_pow_mod in Hj by lia.
  - apply (Hfree s' s c' l' c l); try done; try lia.
    rewrite Z.min_l in Hj by lia.
    assert (Hq' : c' / 2 ^ pfxbits = v mod 2 ^ (l' - pfxbits)).
    { rewrite <-Hj. symmetry. apply Z.mod_small. split; [apply Z.div_pos; lia|]. apply Z.div_lt_upper_bound; [lia|].
      rewrite <-Z.pow_add_r by lia. replace (pfxbits + (l' - pfxbits)) with l' by lia. lia. }
    replace l' with (pfxbits + (l' - pfxbits)) at 1 by lia. rewrite mod_pow_split, Hpfx by lia.
    rewrite <-Hv, mod_pow_mod by lia. rewrite <-Hq'. rewrite <-Hpfx' at 1.
    pose proof (Z.div_mod c' (2 ^ pfxbits) ltac:(lia)). lia.
Qed.
Lemma div_mod_pow x a b : 0 <= a -> 0 <= b -> (x / 2 ^ b) mod 2 ^ a = (x mod 2 ^ (b + a)) / 2 ^ b.
Proof using.
  intros Ha Hb. rewrite mod_pow_split by done. pose proof (Z.pow_pos_nonneg 2 b ltac:(lia) Hb).
  pose proof (Z.mod_pos_bound x (2 ^ b) ltac:(lia)).
  rewrite Z.add_comm, Z.mul_comm, Z.div_add_l by lia. rewrite (Z.div_small (x mod 2 ^ b)) by lia. lia.
Qed.

(** The tables, level by level: bits that start with the code of [s] lead to [s], once
    they are all there. *)
Lemma mkonetab_lookup s c l depth pfx pfxbits bits T v nb fuel reg :
  codes !! s = Some c -> lengths !! s = Some l ->
  zlib_mkonetab depth codes lengths pfx pfxbits bits = Ok T ->
  0 <= pfxbits -> 1 <= bits -> pfxbits < l -> c mod 2 ^ pfxbits = pfx ->
  0 <= v -> v mod 2 ^ (l - pfxbits) = c / 2 ^ pfxbits -> 0 <= nb < Z.of_nat fuel ->
  huflookup_loop fuel v nb T reg =
    Ok (if nb <? l - pfxbits then (-1, reg)
        else (Z.of_nat s, Reg (Z.shiftr v (l - pfxbits)) (nb - (l - pfxbits)))).
Proof using Hcodes Hfree.
  intros Ec El. assert (Hpos : forall n, 0 <= n -> 0 < 2 ^ n) by (intros; apply Z.pow_pos_nonneg; lia).
  revert pfx pfxbits bits T v nb fuel.
  induction depth as [|depth IH]; intros pfx pfxbits bits T v nb fuel ET Hp Hb Hpl Hpfx Hv Hvc Hnb; [done|].
  pose proof (Hpos bits ltac:(lia)). pose proof (Hpos pfxbits Hp).
  cbn [zlib_mkonetab] in ET. rewrite Z.shiftl_1_l in ET.
  apply res_bind_Ok in ET as (t1 & E1 & ET). apply res_bind_Ok in ET as (t2 & E2 & [= <-]).
  set (table := replicate (Z.to_nat (2 ^ bits)) (Entry 0 (-1) None)) in *.
  destruct (fill_table_at _ _ _ _ _ _ bits _ _ E1) as [Hl1 H1]; try lia; try done.
  { unfold table. rewrite length_replicate. lia. }
  { by apply Forall2_length in Hcodes. }
  set (j := v mod 2 ^ bits). pose proof (Z.mod_pos_bound v (2 ^ bits) ltac:(lia) : 0 <= j < 2 ^ bits) as Hj.
  specialize (H1 (Z.to_nat j) (Entry 0 (-1) None)). rewrite Z2Nat.id in H1 by lia.
  specialize (H1 ltac:(apply lookup_replicate_2; lia)). set (e := symbols_at _ _ _ _ _ _ _) in H1.
  assert (Hreach : reaches pfx pfxbits bits j c l = true).
  { unfold reaches. rewrite !andb_true_iff, Z.ltb_lt, !Z.eqb_eq. split; [by split|].
    rewrite <-Hvc. unfold j. rewrite !mod_pow_mod by lia. done. }
  assert (Ezip : zip codes lengths !! s = Some (c, l)) by (by apply zip_lookup).
  destruct fuel as [|fuel]; [lia|]. cbn [huflookup_loop tab_table tab_mask].
  replace (2 ^ bits - 1) with (Z.shiftl 1 bits - 1) by (by rewrite Z.shiftl_1_l). rewrite land_low_mask by lia. fold j.
  pose proof (make_subtables_at _ _ _ _ _ _ _ E2 _ _ H1) as H2. rewrite Z.add_0_l, Z2Nat.id in H2 by lia.
  destruct (Z.le_gt_cases (l - pfxbits) bits) as [Hfit|Hlong].
  - (* the code ends in this table *)
    assert (Ee : e = Entry (l - pfxbits) (0 + Z.of_nat s) None).
    { apply (symbols_at_unique _ _ _ _ _ _ _ s c l); try done. intros s' c' l' Hne [Ec' El']%zip_lookup.
      by apply (reaches_unique pfx pfxbits bits v s c l s' c' l'); try lia. }
    rewrite Ee in H2. cbn [te_nbits] in H2. rewrite (proj2 (Z.leb_le _ _)) in H2 by lia.
    rewrite (array_get_ok _ _ _ (proj1 Hj) H2). cbn [res_bind te_nbits te_code].
    destruct (nb <? l - pfxbits); [done|]. by rewrite (proj2 (Z.eqb_neq _ _)) by lia.
  - (* it goes on in a subtable *)
    assert (Hge : l - pfxbits <= te_nbits e) by (by apply (symbols_at_ge _ _ _ _ _ _ _ s c l)).
    rewrite (proj2 (Z.leb_gt _ _)) in H2 by lia. destruct H2 as (nb' & t & Hnb' & Emk & H2).
    rewrite (array_get_ok _ _ _ (proj1 Hj) H2). cbn [res_bind te_nbits te_code te_nexttable].
    destruct (Z.ltb_spec nb bits) as [Hshort|Henough].
    { by rewrite (proj2 (Z.ltb_lt _ _)) by lia. }
    change (-1 =? -1) with true. cbn match.
    pose proof (Z.mod_pos_bound c (2 ^ pfxbits) ltac:(lia)) as Hpr.
    rewrite (lor_add pfxbits) in Emk by lia.
    rewrite (IH _ (pfxbits + bits) nb' t (Z.shiftr v bits) (nb - bits) fuel Emk); try lia.
    + replace (nb - bits <? l - (pfxbits + bits)) with (nb <? l - pfxbits)
        by (destruct (Z.ltb_spec nb (l - pfxbits)), (Z.ltb_spec (nb - bits) (l - (pfxbits + bits))); (done || lia)).
      destruct (nb <? l - pfxbits); [done|]. rewrite Z.shiftr_shiftr by lia.
      replace (bits + (l - (pfxbits + bits))) with (l - pfxbits) by lia.
      by replace (nb - bits - (l - (pfxbits + bits))) with (nb - (l - pfxbits)) by lia.
    + rewrite mod_pow_split, Hpfx by lia. rewrite <-Hvc, mod_pow_mod by lia. fold j. lia.
    + by apply Z.shiftr_nonneg.
    + rewrite Z.shiftr_div_pow2 by lia. rewrite div_mod_pow by lia.
      replace (bits + (l - (pfxbits + bits))) with (l - pfxbits) by lia. rewrite Hvc.
      rewrite Z.div_div, <-Z.pow_add_r by lia. done.
Qed.

(** The bits [v], of which [nb] are there, agree with no code behind the prefix as far
    as both go. *)
Definition disagrees (pfx pfxbits v nb : Z) : Prop :=
  forall s c l, codes !! s = Some c -> lengths !! s = Some l -> pfxbits < l -> c mod 2 ^ pfxbits = pfx ->
    (c / 2 ^ pfxbits) mod 2 ^ Z.min (l - pfxbits) nb <> v mod 2 ^ Z.min (l - pfxbits) nb.

(** A symbol that reaches the entry of such bits goes on in a subtable. *)
Lemma disagrees_reaches pfx pfxbits bits v nb s c l :
  disagrees pfx pfxbits v nb -> 0 <= pfxbits -> 0 <= bits -> 0 <= nb ->
  codes !! s = Some c -> lengths !! s = Some l -> reaches pfx pfxbits bits (v mod 2 ^ bits) c l = true ->
  bits < l - pfxbits /\ bits < nb.
Proof using.
  intros Hd Hp Hb Hnb Ec El. unfold reaches. rewrite !andb_true_iff, Z.ltb_lt, !Z.eqb_eq.
  intros [[Hl Hpfx] Hj]. specialize (Hd s c l Ec El Hl Hpfx). rewrite mod_pow_mod in Hj by lia.
  destruct (Z.le_gt_cases (Z.min (l - pfxbits) nb) bits) as [Hle|Hgt]; [|lia]. exfalso. apply Hd.
  rewrite <-(mod_pow_mod (c / _) _ (Z.min (l - pfxbits) bits)), Hj by lia. by rewrite mod_pow_mod by lia.
Qed.

(** The bits behind those that the table used agree with no code of the subtable. *)
Lemma disagrees_next pfx pfxbits bits v nb :
  disagrees pfx pfxbits v nb -> 0 <= pfxbits -> 0 <= bits <= nb -> 0 <= pfx < 2 ^ pfxbits ->
  disagrees (pfx + 2 ^ pfxbits * (v mod 2 ^ bits)) (pfxbits + bits) (Z.shiftr v bits) (nb - bits).
Proof using.
  intros Hd Hp Hb Hpfx s c l Ec El Hl Hc Heq. pose proof (Z.pow_pos_nonneg 2 pfxbits ltac:(lia) Hp).
  rewrite mod_pow_split in Hc by lia. pose proof (Z.mod_pos_bound c (2 ^ pfxbits) ltac:(lia)).
  destruct (Z.div_mod_unique (2 ^ pfxbits) ((c / 2 ^ pfxbits) mod 2 ^ bits) (v mod 2 ^ bits) (c mod 2 ^ pfxbits) pfx)
    as [E2 E1]; [lia..|].
  apply (Hd s c l Ec El ltac:(lia) E1).
  replace (Z.min (l - pfxbits) nb) with (bits + Z.min (l - (pfxbits + bits)) (nb - bits)) by lia.
  rewrite !mod_pow_split, E2 by lia. do 2 f_equal.
  rewrite Z.div_div, <-Z.pow_add_r, Heq, Z.shiftr_div_pow2 by lia. done.
Qed.

(** Such bits are found missing, level by level, whatever is there behind them. *)
Lemma mkonetab_missing depth pfx pfxbits bits T v nb fuel reg :
  zlib_mkonetab depth codes lengths pfx pfxbits bits = Ok T ->
  0 <= pfxbits -> 0 <= bits -> 0 <= pfx < 2 ^ pfxbits ->
  (forall s l, lengths !! s = Some l -> pfxbits < l -> 1 <= bits) ->
  disagrees pfx pfxbits v nb -> 0 <= nb < Z.of_nat fuel ->
  huflookup_loop fuel v nb T reg = Ok (-2, reg).
Proof using Hcodes.
  revert pfx pfxbits bits T v nb fuel.
  induction depth as [|depth IH]; intros pfx pfxbits bits T v nb fuel ET Hp Hb Hpfx Hone Hd Hnb; [done|].
  pose proof (Z.pow_pos_nonneg 2 bits ltac:(lia) Hb).
  cbn [zlib_mkonetab] in ET. rewrite Z.shiftl_1_l in ET.
  apply res_bind_Ok in ET as (t1 & E1 & ET). apply res_bind_Ok in ET as (t2 & E2 & [= <-]).
  set (table := replicate (Z.to_nat (2 ^ bits)) (Entry 0 (-1) None)) in *.
  destruct (fill_table_at _ _ _ _ _ _ bits _ _ E1) as [Hl1 H1]; try lia; try done.
  { unfold table. rewrite length_replicate. lia. }
  { by apply Forall2_length in Hcodes. }
  set (j := v mod 2 ^ bits). pose proof (Z.mod_pos_bound v (2 ^ bits) ltac:(lia) : 0 <= j < 2 ^ bits) as Hj.
  specialize (H1 (Z.to_nat j) (Entry 0 (-1) None)). rewrite Z2Nat.id in H1 by lia.
  specialize (H1 ltac:(apply lookup_replicate_2; lia)). set (e := symbols_at _ _ _ _ _ _ _) in H1.
  destruct fuel as [|fuel]; [lia|]. cbn [huflookup_loop tab_table tab_mask].
  replace (2 ^ bits - 1) with (Z.shiftl 1 bits - 1) by (by rewrite Z.shiftl_1_l). rewrite land_low_mask by lia. fold j.
  pose proof (make_subtables_at _ _ _ _ _ _ _ E2 _ _ H1) as H2. rewrite Z.add_0_l, Z2Nat.id in H2 by lia.
  destruct (decide (Exists (fun cl => reaches pfx pfxbits bits j cl.1 cl.2 = true) (zip codes lengths))) as [Hex|Hno].
  - (* some longer code starts with the bits the table uses *)
    apply Exists_exists in Hex as ([c l] & (s & Ezip)%list_elem_of_lookup & Hr). cbn [fst snd] in Hr.
    pose proof (proj1 (zip_lookup _ _ _) Ezip) as [Ec El].
    destruct (disagrees_reaches _ _ _ _ _ _ _ _ Hd Hp Hb ltac:(lia) Ec El Hr) as [Hlong Hmore].
    assert (Hge : l - pfxbits <= te_nbits e) by (by apply (symbols_at_ge _ _ _ _ _ _ _ s c l)).
    specialize (Hone s l El ltac:(lia)).
    rewrite (proj2 (Z.leb_gt _ _)) in H2 by lia. destruct H2 as (nb' & t & Hnb' & Emk & H2).
    rewrite (array_get_ok _ _ _ (proj1 Hj) H2). cbn [res_bind te_nbits te_code te_nexttable].
    rewrite (proj2 (Z.ltb_ge _ _)) by lia. change (-1 =? -1) with true. cbn match.
    rewrite (lor_add pfxbits) in Emk by lia. rewrite (Z.mul_comm j) in Emk.
    apply (IH _ _ _ _ _ _ _ Emk); try lia.
    + rewrite Z.pow_add_r by lia. nia.
    + by apply disagrees_next; try lia.
  - (* no code starts with them *)
    assert (Ee : e = Entry 0 (-1) None).
    { apply symbols_at_none. intros s c l Ezip. apply not_true_iff_false. intros Hr. apply Hno.
      apply Exists_exists. exists (c, l). split; [by apply list_elem_of_lookup_2 in Ezip|done]. }
    rewrite Ee in H2. cbn [te_nbits] in H2. rewrite (proj2 (Z.leb_le _ _)) in H2 by lia.
    rewrite (array_get_ok _ _ _ (proj1 Hj) H2). cbn [res_bind te_nbits te_code te_nexttable].
    by rewrite (proj2 (Z.ltb_ge _ _)) by lia.
Qed.
End codes.

(** ** Canonical codes (RFC 1951, 3.2.2) *)

Definition count_of (l : Z) (lengths : list Z) : Z := zlen (filter (fun x => x = l) lengths).

(** The first code of each length. *)
Fixpoint first_code (lengths : list Z) (n : nat) : Z :=
  match n with
  | O => 0
  | S n => 2 * (first_code lengths n + if decide (n = O) then 0 else count_of (Z.of_nat n) lengths)
  end.

(** Codes of one length are consecutive, in the order of the symbols. *)
Definition huff_code (lengths : list Z) (s : nat) : Z :=
  match lengths !! s with
  | Some l => first_code lengths (Z.to_nat l) + count_of l (take s lengths)
  | None => 0
  end.

Definition kraft_sum (lengths : list Z) : Z :=
  foldr (fun l acc => (if 0 <? l then 2 ^ (15 - l) else 0) + acc) 0 lengths.

(** The lengths do not ask for more codes than there are. *)
Definition kraft (lengths : list Z) : Prop := kraft_sum lengths <= 2 ^ 15.

Lemma count_of_cons l x ls : count_of l (x :: ls) = (if decide (x = l) then 1 else 0) + count_of l ls.
Proof. unfold count_of. rewrite filter_cons. destruct (decide (x = l)); cbn [length]; lia. Qed.

Lemma count_of_nonneg l ls : 0 <= count_of l ls.
Proof. unfold count_of. lia. Qed.

Lemma count_of_take l ls s s' :
  ls !! s = Some l -> (s < s')%nat -> count_of l (take s ls) + 1 <= count_of l (take s' ls).
Proof.
  revert s s'. induction ls as [|x ls IH]; intros s s' E Hlt; [done|]. destruct s' as [|s']; [lia|].
  cbn [take]. rewrite count_of_cons. destruct s as [|s].
  - injection E as ->. rewrite decide_True by done. cbn. pose proof (count_of_nonneg l (take s' ls)). unfold count_of at 1. cbn. lia.
  - cbn [take]. rewrite count_of_cons. specialize (IH s s' E ltac:(lia)). lia.
Qed.

Lemma count_of_take_le l ls s : count_of l (take s ls) <= count_of l ls.
Proof.
  revert s. induction ls as [|x ls IH]; intros [|s]; cbn [take]; rewrite ?count_of_cons; try done.
  - pose proof (count_of_nonneg l ls). unfold count_of at 1. cbn. destruct (decide (x = l)); lia.
  - specialize (IH s). lia.
Qed.

(** The symbol with a given number among those of its length. *)
Lemma count_of_kth l ls k : 0 <= k < count_of l ls -> exists s, ls !! s = Some l /\ count_of l (take s ls) = k.
Proof.
  revert k. induction ls as [|x ls IH]; intros k Hk; [unfold count_of in Hk; cbn in Hk; lia|]. rewrite count_of_cons in Hk.
  destruct (decide (x = l)) as [->|Hne].
  - destruct (Z.eq_dec k 0) as [->|Hk0]; [by exists O|].
    destruct (IH (k - 1)) as (s & Es & Ec); [lia|]. exists (S s). split; [done|].
    cbn [take]. rewrite count_of_cons, decide_True by done. lia.
  - destruct (IH k) as (s & Es & Ec); [lia|]. exists (S s). split; [done|].
    cbn [take]. rewrite count_of_cons, decide_False by done. lia.
Qed.

Section canonical.
Context (lengths : list Z).
Hypothesis Hlens : Forall (fun l => 0 <= l < 16) lengths.

(** Where the codes of length [n] start, as numbers of fifteen bits. *)
Definition code_pos (n : nat) : Z := first_code lengths n * 2 ^ (15 - Z.of_nat n).

Definition count_at (n : nat) : Z := if decide (n = O) then 0 else count_of (Z.of_nat n) lengths.

Lemma code_pos_S n : (n < 15)%nat -> code_pos (S n) = code_pos n + count_at n * 2 ^ (15 - Z.of_nat n).
Proof using.
  intros Hn. unfold code_pos, count_at. cbn [first_code].
  replace (15 - Z.of_nat n) with (Z.succ (15 - Z.of_nat (S n))) by lia. rewrite Z.pow_succ_r by lia. lia.
Qed.

Lemma first_code_nonneg n : 0 <= first_code lengths n.
Proof using. induction n as [|n IH]; cbn [first_code]; [lia|]. pose proof (count_of_nonneg (Z.of_nat n) lengths). destruct (decide _); lia. Qed.

Lemma code_pos_mono n m : (n <= m <= 15)%nat -> code_pos n <= code_pos m.
Proof using.
  intros [H H15]. induction H as [|m H IH]; [done|]. rewrite code_pos_S by lia.
  pose proof (Z.pow_pos_nonneg 2 (15 - Z.of_nat m) ltac:(lia) ltac:(lia)).
  assert (0 <= count_at m) by (unfold count_at; destruct (decide _); [lia|apply count_of_nonneg]).
  specialize (IH ltac:(lia)). nia.
Qed.

(** The sum of Kraft's inequality, by lengths instead of symbols. *)
Lemma kraft_by_length :
  kraft_sum lengths = code_pos 15 + count_at 15.
Proof using Hlens.
  assert (Hsum : forall n, (n <= 15)%nat -> code_pos n = foldr (fun l acc => (if (0 <? l) && (l <? Z.of_nat n) then 2 ^ (15 - l) else 0) + acc) 0 lengths).
  { induction n as [|n IH]; intros Hn.
    - unfold code_pos. cbn [first_code]. clear Hlens. induction lengths as [|l ls IH]; [done|]. cbn [foldr].
      rewrite <-IH. destruct (Z.ltb_spec 0 l), (Z.ltb_spec l (Z.of_nat 0)); cbn [andb]; lia.
    - rewrite code_pos_S, IH by lia. unfold count_at. clear IH Hlens.
      induction lengths as [|l ls IH].
      { unfold count_of. cbn [foldr filter list_filter length]. destruct (decide _); lia. }
      cbn [foldr]. rewrite <-IH. destruct (decide (n = O)) as [->|Hn0].
      + destruct (Z.ltb_spec 0 l), (Z.ltb_spec l (Z.of_nat 0)), (Z.ltb_spec l (Z.of_nat 1)); cbn [andb]; lia.
      + rewrite count_of_cons. destruct (decide (l = Z.of_nat n)) as [->|Hne].
        * rewrite (proj2 (Z.ltb_lt 0 _)), (proj2 (Z.ltb_ge _ (Z.of_nat n))), (proj2 (Z.ltb_lt _ (Z.of_nat (S n)))) by lia.
          cbn [andb]. lia.
        * destruct (Z.ltb_spec 0 l), (Z.ltb_spec l (Z.of_nat n)), (Z.ltb_spec l (Z.of_nat (S n))); cbn [andb]; lia. }
  rewrite Hsum by lia. unfold count_at. rewrite decide_False by done. unfold kraft_sum. clear Hsum.
  induction Hlens as [|l ls Hl Hls IH]; [done|]. cbn [foldr]. rewrite IH by done. rewrite count_of_cons.
  change (Z.of_nat 15) with 15. destruct (decide (l = 15)) as [->|Hne]; [cbn; lia|].
  destruct (Z.ltb_spec 0 l), (Z.ltb_spec l 15); cbn [andb]; lia.
Qed.

(** The interval of a symbol ends before the codes of the next length start. *)
Lemma huff_code_interval s l :
  lengths !! s = Some l -> 1 <= l ->
  code_pos (Z.to_nat l) <= huff_code lengths s * 2 ^ (15 - l) /\
  (huff_code lengths s + 1) * 2 ^ (15 - l) <= code_pos (Z.to_nat l) + count_at (Z.to_nat l) * 2 ^ (15 - l).
Proof using Hlens.
  intros E Hl. pose proof (proj1 (Forall_lookup _ _) Hlens _ _ E) as Hr. cbn beta in Hr.
  unfold code_pos, count_at, huff_code. rewrite E, decide_False, Z2Nat.id by lia.
  pose proof (count_of_nonneg l (take s lengths)).
  pose proof (Z.pow_pos_nonneg 2 (15 - l) ltac:(lia) ltac:(lia)).
  pose proof (count_of_take l lengths s (length lengths) E) as Ht. rewrite (take_ge lengths (length lengths)) in Ht by lia.
  specialize (Ht (lookup_lt_Some _ _ _ E)). nia.
Qed.

Lemma code_end_le n : (1 <= n <= 15)%nat ->
  code_pos n + count_at n * 2 ^ (15 - Z.of_nat n) <= kraft_sum lengths.
Proof using Hlens.
  intros Hn. rewrite kraft_by_length. destruct (decide (n = 15%nat)) as [->|Hne]; [cbn [Z.of_nat]; change (2 ^ (15 - 15)) with 1; lia|].
  rewrite <-code_pos_S by lia. pose proof (code_pos_mono (S n) 15 ltac:(lia)).
  assert (0 <= count_at 15) by (unfold count_at; rewrite decide_False by done; apply count_of_nonneg). lia.
Qed.

Lemma huff_code_range s l :
  lengths !! s = Some l -> 1 <= l ->
  0 <= huff_code lengths s /\ (huff_code lengths s + 1) * 2 ^ (15 - l) <= kraft_sum lengths.
Proof using Hlens.
  intros E Hl. pose proof (proj1 (Forall_lookup _ _) Hlens _ _ E) as Hr. cbn beta in Hr. split.
  - unfold huff_code. rewrite E. pose proof (first_code_nonneg (Z.to_nat l)). pose proof (count_of_nonneg l (take s lengths)). lia.
  - destruct (huff_code_interval s l E Hl) as [_ H]. etransitivity; [exact H|].
    pose proof (code_end_le (Z.to_nat l) ltac:(lia)) as He. by rewrite Z2Nat.id in He by lia.
Qed.

(** Different symbols have disjoint intervals. *)
Lemma huff_code_disjoint s s' l l' :
  lengths !! s = Some l -> lengths !! s' = Some l' -> s <> s' -> 1 <= l <= l' ->
  huff_code lengths s' / 2 ^ (l' - l) <> huff_code lengths s.
Proof using Hlens.
  intros E E' Hne Hl Heq. pose proof (proj1 (Forall_lookup _ _) Hlens _ _ E') as Hr. cbn beta in Hr.
  pose proof (Z.pow_pos_nonneg 2 (15 - l') ltac:(lia) ltac:(lia)) as Hp.
  destruct (Z.eq_dec l l') as [<-|Hll].
  - rewrite Z.sub_diag, Z.div_1_r in Heq. unfold huff_code in Heq. rewrite E, E' in Heq.
    destruct (Nat.lt_total s s') as [Hlt|[?|Hlt]]; [|done|].
    + pose proof (count_of_take l lengths s s' E Hlt). lia.
    + pose proof (count_of_take l lengths s' s E' Hlt). lia.
  - destruct (huff_code_interval s l E ltac:(lia)) as [_ H1]. destruct (huff_code_interval s' l' E' ltac:(lia)) as [H2 _].
    pose proof (code_pos_S (Z.to_nat l) ltac:(lia)) as HS. rewrite Z2Nat.id in HS by lia. rewrite <-HS in H1.
    pose proof (code_pos_mono (S (Z.to_nat l)) (Z.to_nat l') ltac:(lia)) as Hm.
    assert (Hdiv : huff_code lengths s' < (huff_code lengths s + 1) * 2 ^ (l' - l)).
    { rewrite <-Heq. pose proof (Z.pow_pos_nonneg 2 (l' - l) ltac:(lia) ltac:(lia)).
      pose proof (Z.div_mod (huff_code lengths s') (2 ^ (l' - l)) ltac:(lia)).
      pose proof (Z.mod_pos_bound (huff_code lengths s') (2 ^ (l' - l)) ltac:(lia)). lia. }
    assert (Hpow : 2 ^ (15 - l) = 2 ^ (l' - l) * 2 ^ (15 - l')) by (rewrite <-Z.pow_add_r by lia; f_equal; lia).
    rewrite Hpow in H1. nia.
Qed.

(** Every number below the sum lies in the interval of some symbol. *)
Lemma huff_code_covers x :
  0 <= x < kraft_sum lengths ->
  exists s l, lengths !! s = Some l /\ 1 <= l <= 15 /\ x / 2 ^ (15 - l) = huff_code lengths s.
Proof using Hlens.
  intros Hx. rewrite kraft_by_length in Hx.
  assert (Hn : exists n, (1 <= n <= 15)%nat /\ code_pos n <= x < code_pos n + count_at n * 2 ^ (15 - Z.of_nat n)).
  { destruct (Z.lt_ge_cases x (code_pos 15)) as [Hlt|Hge].
    2: { exists 15%nat. split; [lia|]. cbn [Z.of_nat]. change (2 ^ (15 - 15)) with 1. lia. }
    assert (H1 : code_pos 1 = 0) by done.
    assert (Hind : forall m, (1 <= m <= 15)%nat -> x < code_pos m -> exists n, (1 <= n < m)%nat /\ code_pos n <= x < code_pos (S n)).
    { induction m as [|m IH]; intros Hm Hlt'; [lia|]. destruct (decide (m = O)) as [->|Hm0]; [lia|].
      destruct (Z.lt_ge_cases x (code_pos m)) as [H|H].
      - destruct (IH ltac:(lia) H) as (n & ? & ?). exists n. split; [lia|done].
      - exists m. split; [lia|done]. }
    destruct (Hind 15%nat ltac:(lia) Hlt) as (n & Hn & Hr). exists n. split; [lia|]. rewrite code_pos_S in Hr by lia. done. }
  destruct Hn as (n & Hn & Hr). pose proof (Z.pow_pos_nonneg 2 (15 - Z.of_nat n) ltac:(lia) ltac:(lia)) as Hp.
  set (k := (x - code_pos n) / 2 ^ (15 - Z.of_nat n)). unfold count_at in Hr. rewrite decide_False in Hr by lia.
  assert (Hk : 0 <= k < count_of (Z.of_nat n) lengths).
  { unfold k. split; [apply Z.div_pos; lia|]. apply Z.div_lt_upper_bound; lia. }
  destruct (count_of_kth _ _ _ Hk) as (s & Es & Ec). exists s, (Z.of_nat n). split; [done|]. split; [lia|].
  unfold huff_code. rewrite Es, Ec, Nat2Z.id. unfold k, code_pos.
  replace (x - first_code lengths n * 2 ^ (15 - Z.of_nat n)) with (x + (- first_code lengths n) * 2 ^ (15 - Z.of_nat n)) by lia.
  rewrite Z.div_add by lia. lia.
Qed.
End canonical.

(** ** What [zlib_mktable] assigns *)

Lemma unlsb_snoc l b : unlsb (l ++ [b]) = unlsb l + 2 ^ zlen l * Z.b2z b.
Proof.
  induction l as [|x l IH]; [destruct b; done|]. cbn [app unlsb length]. rewrite IH, Nat2Z.inj_succ, Z.pow_succ_r by lia. lia.
Qed.

Lemma msb_S n c : msb (S n) c = msb n (Z.div2 c) ++ [Z.odd c].
Proof. done. Qed.

(** The high bits come first. *)
Lemma msb_app a b x : msb (b + a) x = msb a (Z.shiftr x (Z.of_nat b)) ++ msb b x.
Proof. unfold msb. by rewrite lsb_app, rev_app_distr. Qed.

Lemma mirror_code_msb acc c n : mirror_code acc (Some c) n = Ok (acc * 2 ^ Z.of_nat n + unlsb (msb n c)).
Proof.
  revert acc c. induction n as [|n IH]; intros acc c; cbn [mirror_code]; [f_equal; cbn; lia|].
  rewrite IH. f_equal. rewrite msb_S, unlsb_snoc, length_msb.
  rewrite Nat2Z.inj_succ, Z.pow_succ_r by lia. change 1 with (Z.ones 1) at 2. rewrite Z.land_ones by lia.
  pose proof (Z.mod_pos_bound c (2 ^ 1) ltac:(lia)). rewrite Z.lor_comm, (lor_add 1) by lia.
  rewrite <-Z.div2_spec. change (2 ^ 1) with 2. rewrite Zmod_odd. destruct (Z.odd c); cbn [Z.b2z]; lia.
Qed.

Lemma count_lengths_at count maxlen lengths count' maxlen' l a :
  count_lengths count maxlen lengths = Ok (count', maxlen') -> 0 <= l -> count !! Z.to_nat l = Some (Some a) ->
  count' !! Z.to_nat l = Some (Some (a + count_of l lengths)).
Proof.
  intros E Hl. revert count maxlen a E. induction lengths as [|x lengths IH]; intros count maxlen a E Ea; cbn [count_lengths] in E.
  { injection E as <- <-. unfold count_of. cbn. by rewrite Z.add_0_r. }
  apply res_bind_Ok in E as (c & [Hx Ec]%array_get_inv & E). rewrite array_set_ok in E by lia. cbn [res_bind] in E.
  rewrite count_of_cons. destruct (decide (x = l)) as [->|Hne].
  - rewrite Ea in Ec. injection Ec as <-. rewrite Z.add_assoc.
    apply (IH _ _ (a + 1) E). rewrite list_lookup_insert_eq by lia. done.
  - rewrite Z.add_0_l. apply (IH _ _ a E). by rewrite list_lookup_insert_ne by lia.
Qed.

Lemma start_codes_at lengths count startcode code i n startcode' :
  start_codes count startcode code i n = Ok startcode' -> 1 <= i -> i + Z.of_nat n = 16 ->
  (forall k, 1 <= k < 16 -> count !! Z.to_nat k = Some (Some (count_of k lengths))) ->
  code = first_code lengths (Z.to_nat i) ->
  (forall k, 1 <= k < i -> startcode !! Z.to_nat k = Some (Some (first_code lengths (Z.to_nat k)))) ->
  forall k, 1 <= k < 16 -> startcode' !! Z.to_nat k = Some (Some (first_code lengths (Z.to_nat k))).
Proof.
  intros E Hi Hn Hc. revert startcode code i E Hi Hn. induction n as [|n IH]; intros startcode code i E Hi Hn Hcode Hs k Hk;
    cbn [start_codes] in E.
  { injection E as <-. apply Hs. lia. }
  apply res_bind_Ok in E as (sc & Esc & E). unfold array_set in Esc.
  destruct ((0 <=? i) && (i <? zlen startcode)) eqn:Eb; [|done]. injection Esc as <-.
  apply andb_true_iff in Eb as [_ Hlt%Z.ltb_lt].
  rewrite (array_get_ok count i (Some (count_of i lengths))) in E by (lia || apply Hc; lia). cbn [res_bind] in E.
  apply (IH _ _ _ E); try lia.
  - rewrite Z.shiftl_mul_pow2 by lia. replace (Z.to_nat (i + 1)) with (S (Z.to_nat i)) by lia. cbn [first_code].
    rewrite decide_False, Z2Nat.id by lia. lia.
  - intros k' Hk'. destruct (Z.eq_dec k' i) as [->|Hne].
    + rewrite list_lookup_insert_eq by lia. by rewrite Hcode.
    + rewrite list_lookup_insert_ne by lia. apply Hs. lia.
Qed.

Lemma assign_codes_at startcode lengths codes :
  assign_codes startcode lengths = Ok codes ->
  length codes = length lengths /\
  forall s l b, 0 <= l -> lengths !! s = Some l -> startcode !! Z.to_nat l = Some (Some b) ->
    codes !! s = Some (unlsb (msb (Z.to_nat l) (b + count_of l (take s lengths)))).
Proof.
  revert startcode codes. induction lengths as [|x lengths IH]; intros startcode codes E; cbn [assign_codes] in E.
  { injection E as <-. done. }
  apply res_bind_Ok in E as (code & [Hx Ec]%array_get_inv & E). rewrite array_set_ok in E by lia. cbn [res_bind] in E.
  apply res_bind_Ok in E as (c & Em & E). apply res_bind_Ok in E as (cs & Ecs & [= <-]).
  destruct (IH _ _ Ecs) as [Hlen H]. split; [cbn; by rewrite Hlen|]. intros [|s] l b Hl Es Eb.
  - injection Es as ->. rewrite Eb in Ec. injection Ec as <-. rewrite mirror_code_msb in Em. injection Em as <-.
    cbn [take]. unfold count_of. cbn. by rewrite Z.add_0_r.
  - cbn in Es. cbn [take lookup list_lookup]. rewrite count_of_cons. destruct (decide (x = l)) as [->|Hne].
    + rewrite Z.add_assoc. apply H; [done|done|]. rewrite list_lookup_insert_eq by lia. rewrite Eb in Ec. by injection Ec as <-.
    + rewrite Z.add_0_l. apply H; [done|done|]. by rewrite list_lookup_insert_ne by lia.
Qed.

(** The stored form of a code. *)
Definition stored_code (lengths : list Z) (s : nat) (l : Z) : Z := unlsb (msb (Z.to_nat l) (huff_code lengths s)).

Lemma zlib_mktable_codes lengths :
  Forall (fun l => 0 <= l < 16) lengths -> zlen lengths <= 288 ->
  exists codes bits T, zlib_mktable lengths (zlen lengths) = Ok T /\
    zlib_mkonetab (Z.to_nat MAXCODELEN) codes lengths 0 0 bits = Ok T /\ length codes = length lengths /\ 0 <= bits /\
    (forall s l, lengths !! s = Some l -> 1 <= l -> 1 <= bits /\ codes !! s = Some (stored_code lengths s l)) /\
    (forall s, lengths !! s = Some 0 -> codes !! s = Some 0).
Proof.
  intros Hl Hn. destruct (zlib_mktable_ok 288 lengths (zlen lengths)) as (T & ET & _); [done|lia|lia|lia|].
  pose proof ET as E. unfold zlib_mktable in E. destruct (_ || _); [done|]. rewrite Nat2Z.id, take_ge in E by lia.
  apply res_bind_Ok in E as ([count maxlen] & E1 & E). apply res_bind_Ok in E as (startcode & E2 & E).
  apply res_bind_Ok in E as (codes & E3 & E).
  exists codes, (if maxlen <? 9 then maxlen else 9), T. split; [done|]. split; [done|].
  destruct (assign_codes_at _ _ _ E3) as [Hlen H3]. split; [done|].
  destruct (count_lengths_ok (None :: replicate (Z.to_nat (MAXCODELEN - 1)) (Some 0)) 0 lengths)
    as (c' & m' & E1' & _ & Hmax & Hall); [|lia|done|].
  { split; [done|]. intros i Hi. exists 0. replace (Z.to_nat i) with (S (Z.to_nat (i - 1))) by lia.
    apply lookup_replicate_2. unfold MAXCODELEN. lia. }
  rewrite E1 in E1'. injection E1' as <- <-. split; [destruct (Z.ltb_spec maxlen 9); lia|].
  assert (Hcnt : forall k, 1 <= k < 16 -> count !! Z.to_nat k = Some (Some (count_of k lengths))).
  { intros k Hk. apply (count_lengths_at _ _ _ _ _ k 0 E1); [lia|].
    replace (Z.to_nat k) with (S (Z.to_nat (k - 1))) by lia. apply lookup_replicate_2. unfold MAXCODELEN. lia. }
  pose proof (start_codes_at lengths _ _ _ _ _ _ E2 ltac:(lia) ltac:(done) Hcnt eq_refl ltac:(lia)) as Hst.
  split.
  - intros s l Es Hl1. pose proof (proj1 (Forall_lookup _ _) Hl _ _ Es) as Hr. cbn beta in Hr. split.
    + pose proof (proj1 (Forall_lookup _ _) Hall _ _ Es). cbn beta in *.
      destruct (Z.ltb_spec maxlen 9); lia.
    + rewrite (H3 s l (first_code lengths (Z.to_nat l))); [|lia|done|apply Hst; lia].
      unfold stored_code, huff_code. by rewrite Es.
  - intros s Es. clear -E3 Es. revert startcode codes s E3 Es.
    induction lengths as [|x lengths IH]; intros startcode codes s E Es; [done|]. cbn [assign_codes] in E.
    apply res_bind_Ok in E as (code & _ & E). apply res_bind_Ok in E as (sc & _ & E).
    apply res_bind_Ok in E as (c & Em & E). apply res_bind_Ok in E as (cs & Ecs & [= <-]).
    destruct s as [|s]; [|by apply (IH sc cs)]. injection Es as ->. by injection Em as <-.
Qed.

Lemma rev_replicate' {A} n (x : A) : rev (replicate n x) = replicate n x.
Proof. rewrite <-reverse_replicate at 1. unfold reverse. rewrite <-rev_alt. apply rev_involutive. Qed.

Lemma lsb_0 n : lsb n 0 = replicate n false.
Proof. induction n as [|n IH]; [done|]. change (false :: lsb n 0 = false :: replicate n false). by rewrite IH. Qed.

Section decoding.
Context (lengths : list Z).
Hypothesis Hlens : Forall (fun l => 0 <= l < 16) lengths.
Hypothesis Hkraft : kraft lengths.

Lemma huff_code_bound s l : lengths !! s = Some l -> 1 <= l -> 0 <= huff_code lengths s < 2 ^ l.
Proof using Hlens Hkraft.
  intros E Hl. destruct (huff_code_range lengths Hlens s l E Hl) as [H0 H]. split; [done|].
  pose proof (proj1 (Forall_lookup _ _) Hlens _ _ E) as Hr. cbn beta in Hr. unfold kraft in Hkraft.
  assert (Hp : 2 ^ 15 = 2 ^ l * 2 ^ (15 - l)) by (rewrite <-Z.pow_add_r by lia; f_equal; lia).
  pose proof (Z.pow_pos_nonneg 2 (15 - l) ltac:(lia) ltac:(lia)). rewrite Hp in Hkraft.
  assert ((huff_code lengths s + 1) * 2 ^ (15 - l) <= 2 ^ l * 2 ^ (15 - l)) by lia.
  apply Z.mul_le_mono_pos_r in H2; lia.
Qed.

Lemma stored_lsb s l : lsb (Z.to_nat l) (stored_code lengths s l) = msb (Z.to_nat l) (huff_code lengths s).
Proof using. unfold stored_code. rewrite <-(lsb_unlsb (msb (Z.to_nat l) (huff_code lengths s))) at 2. by rewrite length_msb. Qed.

(** Prefixes of stored codes are prefixes of codes. *)
Lemma stored_prefix s s' l l' :
  lengths !! s = Some l -> lengths !! s' = Some l' -> 1 <= l <= l' ->
  stored_code lengths s' l' mod 2 ^ l = stored_code lengths s l ->
  huff_code lengths s' / 2 ^ (l' - l) = huff_code lengths s.
Proof using Hlens Hkraft.
  intros E E' Hl Heq. pose proof (huff_code_bound s l E ltac:(lia)) as Hb. pose proof (huff_code_bound s' l' E' ltac:(lia)) as Hb'.
  assert (Hbits : lsb (Z.to_nat l) (stored_code lengths s' l') = msb (Z.to_nat l) (huff_code lengths s)).
  { rewrite <-stored_lsb, <-Heq. rewrite <-(Z2Nat.id l) at 3 by lia. by rewrite lsb_mod by lia. }
  pose proof (stored_lsb s' l') as Hs'. replace (Z.to_nat l') with (Z.to_nat l + Z.to_nat (l' - l))%nat in Hs' at 1 by lia.
  replace (Z.to_nat l') with (Z.to_nat (l' - l) + Z.to_nat l)%nat in Hs' by lia.
  rewrite lsb_app, msb_app in Hs'. apply app_inj_1 in Hs' as [Hs' _]; [|by rewrite length_lsb, length_msb].
  rewrite Hbits in Hs'. unfold msb in Hs'. apply (f_equal (@rev bool)) in Hs'. rewrite !rev_involutive in Hs'.
  apply lsb_inj in Hs'. rewrite !Z2Nat.id, Z.shiftr_div_pow2 in Hs' by lia.
  rewrite (Z.mod_small (huff_code lengths s)) in Hs' by lia. rewrite Z.mod_small in Hs'; [done|].
  split; [apply Z.div_pos; lia|]. apply Z.div_lt_upper_bound; [lia|]. rewrite <-Z.pow_add_r by lia.
  replace (l' - l + l) with l' by lia. lia.
Qed.

Lemma codes_free codes :
  length codes = length lengths ->
  (forall s l, lengths !! s = Some l -> 1 <= l -> codes !! s = Some (stored_code lengths s l)) ->
  (forall s, lengths !! s = Some 0 -> codes !! s = Some 0) ->
  Forall2 (fun c l => 0 <= c < 2 ^ l) codes lengths /\ prefix_free codes lengths.
Proof using Hlens Hkraft.
  intros Hlen Hc H0. split.
  - apply Forall2_same_length_lookup. split; [done|]. intros s c l Ec El.
    pose proof (proj1 (Forall_lookup _ _) Hlens _ _ El) as Hr. cbn beta in Hr.
    destruct (Z.eq_dec l 0) as [->|Hne].
    + rewrite (H0 s El) in Ec. injection Ec as <-. cbn. lia.
    + rewrite (Hc s l El ltac:(lia)) in Ec. injection Ec as <-. unfold stored_code.
      pose proof (unlsb_range (msb (Z.to_nat l) (huff_code lengths s))) as Hu. rewrite length_msb, Z2Nat.id in Hu by lia. done.
  - intros s s' c l c' l' Hne Ec El Ec' El' Hl Heq.
    rewrite (Hc s l El ltac:(lia)) in Ec. injection Ec as <-. rewrite (Hc s' l' El' ltac:(lia)) in Ec'. injection Ec' as <-.
    apply (huff_code_disjoint lengths Hlens s s' l l' El El' Hne Hl). by apply stored_prefix.
Qed.

(** Zeros behind an incomplete code: some longer code starts like this. *)
Lemma incomplete_code s l p q :
  lengths !! s = Some l -> 1 <= l -> msb (Z.to_nat l) (huff_code lengths s) = p ++ q -> q <> [] ->
  exists s' l', lengths !! s' = Some l' /\ zlen p < l' <= 15 /\
    forall v, 0 <= v < 2 ^ zlen p -> lsb (length p) v = p -> v mod 2 ^ l' = stored_code lengths s' l'.
Proof using Hlens Hkraft.
  intros E Hl Ep Hq. pose proof (proj1 (Forall_lookup _ _) Hlens _ _ E) as Hr. cbn beta in Hr.
  set (n := zlen p). set (c := huff_code lengths s) in *.
  assert (Hn : 0 <= n < l).
  { pose proof (f_equal length Ep) as Hlp. rewrite length_msb, length_app in Hlp. destruct q; [done|]. cbn in Hlp. lia. }
  destruct (huff_code_range lengths Hlens s l E Hl) as [Hc0 Hc1]. fold c in Hc0, Hc1.
  set (pv := c / 2 ^ (l - n)). set (x := pv * 2 ^ (15 - n)).
  assert (Hp : p = msb (Z.to_nat n) pv).
  { replace (Z.to_nat l) with (Z.to_nat (l - n) + Z.to_nat n)%nat in Ep by lia. rewrite msb_app in Ep.
    apply app_inj_1 in Ep as [Ep _]; [|rewrite length_msb; lia]. rewrite <-Ep. unfold pv.
    by rewrite Z2Nat.id, Z.shiftr_div_pow2 by lia. }
  assert (Hpow : 2 ^ (15 - n) = 2 ^ (l - n) * 2 ^ (15 - l)) by (rewrite <-Z.pow_add_r by lia; f_equal; lia).
  pose proof (Z.pow_pos_nonneg 2 (15 - l) ltac:(lia) ltac:(lia)) as Hp15.
  pose proof (Z.pow_pos_nonneg 2 (l - n) ltac:(lia) ltac:(lia)) as Hpln.
  assert (Hpv : 0 <= pv) by (apply Z.div_pos; lia).
  assert (Hx : 0 <= x < kraft_sum lengths).
  { unfold x. split; [nia|]. pose proof (Z.mul_div_le c (2 ^ (l - n)) ltac:(lia)) as Hm. fold pv in Hm.
    rewrite Hpow. nia. }
  destruct (huff_code_covers lengths Hlens x Hx) as (s' & l' & E' & Hl' & Hk).
  assert (Hnl : n < l').
  { destruct (Z.lt_ge_cases n l') as [|Hge]; [done|]. exfalso.
    apply (huff_code_disjoint lengths Hlens s' s l' l E' E); [intros ->; rewrite E in E'; injection E' as ->; lia|lia|].
    rewrite <-Hk. fold c. unfold x, pv.
    assert (E1 : c / 2 ^ (l - l') = c / 2 ^ (l - n) / 2 ^ (n - l')).
    { rewrite Z.div_div, <-Z.pow_add_r by lia. do 2 f_equal. lia. }
    rewrite E1. replace (2 ^ (15 - l')) with (2 ^ (15 - n) * 2 ^ (n - l')) by (rewrite <-Z.pow_add_r by lia; f_equal; lia).
    rewrite <-Z.div_div by lia. by rewrite Z.div_mul by lia. }
  exists s', l'. split; [done|]. split; [lia|]. intros v Hv Ev.
  assert (Hlsb : lsb (Z.to_nat l') v = lsb (Z.to_nat l') (stored_code lengths s' l')).
  { rewrite stored_lsb, <-Hk.
    assert (Hm : msb (Z.to_nat l') (x / 2 ^ (15 - l')) = p ++ replicate (Z.to_nat (l' - n)) false).
    { unfold x. replace (pv * 2 ^ (15 - n) / 2 ^ (15 - l')) with (Z.shiftl pv (l' - n)).
      2: { rewrite Z.shiftl_mul_pow2 by lia.
           replace (2 ^ (15 - n)) with (2 ^ (l' - n) * 2 ^ (15 - l')) by (rewrite <-Z.pow_add_r by lia; f_equal; lia).
           rewrite Z.mul_assoc, Z.div_mul by lia. done. }
      replace (Z.to_nat l') with (Z.to_nat (l' - n) + Z.to_nat n)%nat by lia. rewrite msb_app, Z2Nat.id by lia.
      rewrite Hp at 1. f_equal.
      - f_equal. rewrite Z.shiftr_shiftl_l by lia. by rewrite Z.sub_diag, Z.shiftl_0_r.
      - unfold msb. rewrite (lsb_ext _ _ 0), lsb_0; [by rewrite rev_replicate'|].
        intros i Hi. rewrite Z.bits_0, Z.shiftl_spec_low by lia. done. }
    rewrite Hm. replace (Z.to_nat l') with (length p + Z.to_nat (l' - n))%nat by (unfold n; lia).
    rewrite lsb_app, Ev. f_equal. rewrite Z.shiftr_div_pow2 by lia. fold n. rewrite Z.div_small by lia. apply lsb_0. }
  apply lsb_inj in Hlsb. rewrite Z2Nat.id in Hlsb by lia. rewrite Hlsb. apply Z.mod_small.
  unfold stored_code. pose proof (unlsb_range (msb (Z.to_nat l') (huff_code lengths s'))) as Hu.
  rewrite length_msb, Z2Nat.id in Hu by lia. done.
Qed.

(** Codes and their beginnings, looked up in a table made of them. *)
Lemma assigned_codes codes bits T s l :
  Forall2 (fun c l => 0 <= c < 2 ^ l) codes lengths -> prefix_free codes lengths ->
  zlib_mkonetab (Z.to_nat MAXCODELEN) codes lengths 0 0 bits = Ok T ->
  (forall s l, lengths !! s = Some l -> 1 <= l -> 1 <= bits /\ codes !! s = Some (stored_code lengths s l)) ->
  lengths !! s = Some l -> 1 <= l ->
  let code := msb (Z.to_nat l) (huff_code lengths s) in
  (forall reg rest, reg_holds reg (code ++ rest) ->
    exists reg', zlib_huflookup reg (Some T) = Ok (Z.of_nat s, reg') /\ reg_holds reg' rest) /\
  (forall reg p q, code = p ++ q -> q <> [] -> reg_holds reg p ->
    zlib_huflookup reg (Some T) = Ok (-1, reg)).
Proof using Hlens Hkraft.
  intros Hall Hfree Emk Hc Es Hl1 code. pose proof (proj1 (Forall_lookup _ _) Hlens _ _ Es) as Hr. cbn beta in Hr.
  destruct (Hc s l Es Hl1) as [Hbits Ec].
  assert (Hlook : forall s' l' reg, lengths !! s' = Some l' -> 1 <= l' -> reg_ok reg ->
    r_bits reg mod 2 ^ l' = stored_code lengths s' l' ->
    zlib_huflookup reg (Some T) = Ok (if r_nbits reg <? l' then (-1, reg) else (Z.of_nat s', EATBITS reg l'))).
  { intros s' l' reg Es' Hl' [Hnb Hb] Hv. destruct (Hc s' l' Es' Hl') as [_ Ec']. unfold zlib_huflookup.
    rewrite (mkonetab_lookup codes lengths Hall Hfree s' (stored_code lengths s' l') l' _ 0 0 bits T (r_bits reg)
      (r_nbits reg) (S (Z.to_nat (r_nbits reg))) reg Ec' Es' Emk); try lia.
    - by rewrite Z.sub_0_r.
    - by rewrite Z.mod_1_r.
    - by rewrite Z.sub_0_r, Z.div_1_r. }
  split.
  - intros reg rest Hreg. assert (Hreg' := Hreg). unfold code in Hreg'. rewrite <-stored_lsb in Hreg'.
    pose proof (reg_holds_length _ _ Hreg) as Hlr. unfold code in Hlr. rewrite length_app, length_msb in Hlr.
    assert (Hst : 0 <= stored_code lengths s l < 2 ^ l) by (exact (Forall2_lookup_lr _ _ _ _ _ _ Hall Ec Es)).
    pose proof (reg_low reg (stored_code lengths s l) l rest ltac:(lia) Hst Hreg') as Hv.
    rewrite (Hlook s l reg Es Hl1); [|by destruct Hreg as (? & ? & _)|done].
    rewrite (proj2 (Z.ltb_ge _ _)) by lia. eexists. split; [done|]. by apply (reg_eat reg (stored_code lengths s l) l rest); [lia|].
  - intros reg p q Ep Hq Hreg. pose proof (reg_holds_length _ _ Hreg) as Hlr. pose proof Hreg as (Hnb & Hb & Eb).
    destruct (incomplete_code s l p q Es Hl1 Ep Hq) as (s' & l' & Es' & Hl' & Hv).
    rewrite (Hlook s' l' reg Es'); [|lia|done|].
    + by rewrite (proj2 (Z.ltb_lt _ _)) by lia.
    + apply Hv; [by rewrite <-Hlr|]. rewrite Eb at 2. f_equal. lia.
Qed.
End decoding.

(** Bits that are neither a beginning of a code nor start with one agree with no stored
    code as far as both go. *)
Lemma unassigned_disagrees lengths codes reg bs :
  (forall s l, lengths !! s = Some l -> 1 <= l -> codes !! s = Some (stored_code lengths s l)) ->
  reg_holds reg bs ->
  (forall s l, lengths !! s = Some l -> 1 <= l ->
     ~ msb (Z.to_nat l) (huff_code lengths s) `prefix_of` bs /\
     ~ bs `prefix_of` msb (Z.to_nat l) (huff_code lengths s)) ->
  disagrees codes lengths 0 0 (r_bits reg) (r_nbits reg).
Proof.
  intros Hc Hreg Hno s c l Ec El Hl _ Heq. pose proof (reg_holds_length _ _ Hreg) as Hlen.
  destruct Hreg as (Hnb & _ & Eb). specialize (Hno s l El ltac:(lia)) as [Hn1 Hn2].
  rewrite (Hc s l El ltac:(lia)) in Ec. injection Ec as <-. rewrite Z.sub_0_r, Z.div_1_r in Heq.
  set (m := Z.to_nat (Z.min l (r_nbits reg))).
  assert (Hm : lsb m (stored_code lengths s l) = lsb m (r_bits reg)).
  { rewrite <-(lsb_mod m _ m), <-(lsb_mod m (r_bits reg) m) by lia. unfold m. by rewrite Z2Nat.id, Heq by lia. }
  assert (Happ : forall k n x, (k <= n)%nat -> lsb k x `prefix_of` lsb n x).
  { intros k n x Hk. replace n with (k + (n - k))%nat by lia. rewrite lsb_app. by eexists. }
  destruct (Z.le_gt_cases l (r_nbits reg)) as [Hle|Hgt]; unfold m in Hm.
  - rewrite Z.min_l in Hm by lia. rewrite stored_lsb in Hm. apply Hn1. rewrite Hm, Eb. apply Happ. lia.
  - rewrite Z.min_r in Hm by lia. apply Hn2. rewrite Eb, <-Hm, <-stored_lsb. apply Happ. lia.
Qed.

(** C11. For all code lengths below 16 that satisfy Kraft's inequality, [zlib_mktable] makes
    a table with which [zlib_huflookup] decodes the canonical Huffman code: the code of
    a symbol, whatever follows it, gives the symbol and consumes exactly the code; a
    beginning of a code that is not all of it gives "not enough data", and bits that
    neither start with a code nor are a beginning of one give "missing entry"; neither
    consumes anything. *)
Theorem zlib_table_decodes_huffman lengths :
  Forall (fun l => 0 <= l < 16) lengths -> zlen lengths <= 288 -> kraft lengths ->
  exists T, zlib_mktable lengths (zlen lengths) = Ok T /\
    (forall s l, lengths !! s = Some l -> 1 <= l ->
      let code := msb (Z.to_nat l) (huff_code lengths s) in
      (forall reg rest, reg_holds reg (code ++ rest) ->
        exists reg', zlib_huflookup reg (Some T) = Ok (Z.of_nat s, reg') /\ reg_holds reg' rest) /\
      (forall reg p q, code = p ++ q -> q <> [] -> reg_holds reg p ->
        zlib_huflookup reg (Some T) = Ok (-1, reg))) /\
    (forall reg bs, reg_holds reg bs ->
      (forall s l, lengths !! s = Some l -> 1 <= l ->
        ~ msb (Z.to_nat l) (huff_code lengths s) `prefix_of` bs /\
        ~ bs `prefix_of` msb (Z.to_nat l) (huff_code lengths s)) ->
      zlib_huflookup reg (Some T) = Ok (-2, reg)).
Proof.
  intros Hl Hn Hk. destruct (zlib_mktable_codes lengths Hl Hn) as (codes & bits & T & ET & Emk & Hlen & Hb0 & Hc & H0).
  destruct (codes_free lengths Hl Hk codes Hlen) as [Hall Hfree]; [by intros s l Es Hl1; apply Hc|done|].
  exists T. split; [done|]. split.
  - intros s l Es Hl1. eapply (assigned_codes lengths Hl Hk codes); eauto.
  - intros reg bs Hreg Hno. unfold zlib_huflookup. pose proof Hreg as (Hnb & _ & _).
    apply (mkonetab_missing codes lengths Hall _ _ _ _ _ _ _ _ _ Emk); try lia.
    + intros s l Es Hl1. by apply (Hc s l Es); lia.
    + apply (unassigned_disagrees lengths codes reg bs); [|done|done]. intros s l Es Hl1. by apply Hc.
Qed.

(** Lengths with codes of more bits than the first table has, and an unused code. *)
Definition example_lengths : list Z := [1; 2; 3; 4; 5; 6; 7; 8; 9; 10; 11; 12; 13; 0; 14].

(** The last of them is the code of no symbol. *)
Lemma zlib_table_decodes_huffman_witness :
  exists T, zlib_mktable example_lengths (zlen example_lengths) = Ok T /\
    zlib_huflookup (Reg (Z.ones 14) 14) (Some T) = Ok (-2, Reg (Z.ones 14) 14) /\
    zlib_huflookup (Reg (Z.ones 13) 13) (Some T) = Ok (-1, Reg (Z.ones 13) 13).
Proof.
  destruct (zlib_table_decodes_huffman example_lengths) as (T & ET & Hcodes & Hmissing).
  - apply (bool_decide_unpack _). vm_compute. exact I.
  - vm_compute. discriminate.
  - vm_compute. discriminate.
  - exists T. split; [exact ET|]. split.
    + apply (Hmissing _ (replicate 14 true)).
      * split; [discriminate|]. split; [split; [discriminate|reflexivity]|reflexivity].
      * intros s l Es Hl. do 15 (destruct s as [|s];
          [injection Es as <-; try (exfalso; lia); split; apply (bool_decide_unpack _); vm_compute; exact I|]).
        discriminate Es.
    + apply (proj2 (Hcodes 14%nat 14 eq_refl ltac:(lia)) _ (replicate 13 true) [false]);
        [reflexivity|discriminate|].
      split; [discriminate|]. split; [split; [discriminate|reflexivity]|reflexivity].
Defined.
