(* ===== verification/Ptrlen.v ===== *)
(** * Strings with lengths (putty utils/ptrlen.c, misc.h)

    A [ptrlen] is a pointer into a block of memory and a length.  The block is
    the list [mem] of its bytes and the pointer an offset into it; a read that
    leaves the block is undefined.  String literals are the lists of their
    characters, and [strchr] counts the terminator of its string as a member
    ([in_charset]). *)

From S2P Require Import Prelude Bufchain Marshal Strbuf.
Local Open Scope cmodel_scope.
Local Open Scope Z_scope.

Record ptrlen := make_ptrlen { pl_ptr : nat; pl_len : nat }.

#[export] Instance ptrlen_eq_dec : EqDecision ptrlen.
Proof. solve_decision. Defined.

Lemma make_ptrlen_eq p n p' n' : p = p' -> n = n' -> make_ptrlen p n = make_ptrlen p' n'.
Proof. by intros -> ->. Qed.

Definition ptrlen_end (pl : ptrlen) : nat := (pl_ptr pl + pl_len pl)%nat.

Definition make_ptrlen_startend (start end_ : nat) : res ptrlen :=
  c_assert (bool_decide (start <= end_)%nat) (Ok (make_ptrlen start (end_ - start))).

Section memory.
  Variable mem : list Z.

(** [*p] *)
Definition read_char (p : nat) : res Z :=
  match mem !! p with Some c => Ok c | None => Crash UndefinedBehaviour end.

(** The bytes [p[0] .. p[n-1]] *)
Definition read_mem (p n : nat) : res (list Z) :=
  if bool_decide (p + n <= length mem)%nat then Ok (take n (drop p mem))
  else Crash UndefinedBehaviour.

Definition ptrlen_from_asciz : res ptrlen :=
  let! n := strlen mem in Ok (make_ptrlen 0 n).

(** [p < p + n && test( *p )]: the loop [while (...) p++] *)
Fixpoint skip_while (test : Z -> bool) (n p : nat) : res nat :=
  match n with
  | O => Ok p
  | S n => let! c := read_char p in if test c then skip_while test n (S p) else Ok p
  end.

Definition ptrlen_eq_string (pl : ptrlen) (str : list Z) : res bool :=
  if bool_decide (pl_len pl = length str) then
    let! b := read_mem (pl_ptr pl) (pl_len pl) in Ok (bool_decide (b = str))
  else Ok false.

Definition ptrlen_eq_ptrlen (pl1 pl2 : ptrlen) : res bool :=
  if bool_decide (pl_len pl1 = pl_len pl2) then
    let! b1 := read_mem (pl_ptr pl1) (pl_len pl1) in
    let! b2 := read_mem (pl_ptr pl2) (pl_len pl1) in
    Ok (bool_decide (b1 = b2))
  else Ok false.

(** The sign of [memcmp], which is all that C specifies. *)
Fixpoint memcmp (b1 b2 : list Z) : Z :=
  match b1, b2 with
  | c1 :: b1, c2 :: b2 => if c1 <? c2 then -1 else if c2 <? c1 then 1 else memcmp b1 b2
  | _, _ => 0
  end.

Definition ptrlen_strcmp (pl1 pl2 : ptrlen) : res Z :=
  let minlen := if bool_decide (pl_len pl1 < pl_len pl2)%nat then pl_len pl1 else pl_len pl2 in
  let! cmp :=
    if bool_decide (minlen = O) then Ok 0
    else
      let! b1 := read_mem (pl_ptr pl1) minlen in
      let! b2 := read_mem (pl_ptr pl2) minlen in
      Ok (memcmp b1 b2) in
  if bool_decide (cmp <> 0) then Ok cmp
  else Ok (if bool_decide (pl_len pl1 < pl_len pl2)%nat then -1
           else if bool_decide (pl_len pl2 < pl_len pl1)%nat then 1 else 0).

(** [Some tail] where the function returns true. *)
Definition ptrlen_startswith (whole : ptrlen) (prefix : list Z) : res (option ptrlen) :=
  if bool_decide (length prefix <= pl_len whole)%nat then
    let! b := read_mem (pl_ptr whole) (length prefix) in
    if bool_decide (b = prefix) then
      Ok (Some (make_ptrlen (pl_ptr whole + length prefix) (pl_len whole - length prefix)))
    else Ok None
  else Ok None.

Definition ptrlen_endswith (whole : ptrlen) (suffix : list Z) : res (option ptrlen) :=
  if bool_decide (length suffix <= pl_len whole)%nat then
    let! b := read_mem (pl_ptr whole + (pl_len whole - length suffix)) (length suffix) in
    if bool_decide (b = suffix) then
      Ok (Some (make_ptrlen (pl_ptr whole) (pl_len whole - length suffix)))
    else Ok None
  else Ok None.

Fixpoint contains_loop (characters : list Z) (n p : nat) : res bool :=
  match n with
  | O => Ok false
  | S n =>
      let! c := read_char p in
      if in_charset characters c then Ok true else contains_loop characters n (S p)
  end.

Definition ptrlen_contains (input : ptrlen) (characters : list Z) : res bool :=
  contains_loop characters (pl_len input) (pl_ptr input).

Fixpoint contains_only_loop (characters : list Z) (n p : nat) : res bool :=
  match n with
  | O => Ok true
  | S n =>
      let! c := read_char p in
      if negb (in_charset characters c) then Ok false else contains_only_loop characters n (S p)
  end.

Definition ptrlen_contains_only (input : ptrlen) (characters : list Z) : res bool :=
  contains_only_loop characters (pl_len input) (pl_ptr input).

(** The word and what is left of the input. *)
Definition ptrlen_get_word (input : ptrlen) (separators : list Z) : res (ptrlen * ptrlen) :=
  let end_ := ptrlen_end input in
  let! p := skip_while (in_charset separators) (end_ - pl_ptr input) (pl_ptr input) in
  let toret_ptr := p in
  let! p := skip_while (fun c => negb (in_charset separators c)) (end_ - p) p in
  let toret := make_ptrlen toret_ptr (p - toret_ptr) in
  let to_consume := (p - pl_ptr input)%nat in
  c_assert (bool_decide (to_consume <= pl_len input)%nat) (
    Ok (toret, make_ptrlen (pl_ptr input + to_consume) (pl_len input - to_consume))).

(** A fresh C string: the bytes and a terminator. *)
Definition mkstr (pl : ptrlen) : res (list Z) :=
  let! b := read_mem (pl_ptr pl) (pl_len pl) in Ok (b ++ [0]).

(** ** What the functions see *)

(** The [n] bytes from [p] on are [l]. *)
Definition holds_at (p : nat) (l : list Z) : Prop := exists pre post, mem = pre ++ l ++ post /\ length pre = p.

Lemma holds_at_char p c l : holds_at p (c :: l) -> read_char p = Ok c.
Proof.
  intros (pre & post & E & Hp). unfold read_char. rewrite E, <-Hp.
  change ((c :: l) ++ post) with (c :: (l ++ post)). by rewrite list_lookup_middle.
Qed.

Lemma holds_at_app p l1 l2 : holds_at p (l1 ++ l2) <-> holds_at p l1 /\ holds_at (p + length l1) l2.
Proof.
  split.
  - intros (pre & post & E & <-). split.
    + exists pre, (l2 ++ post). split; [|done]. by rewrite E, <-app_assoc.
    + exists (pre ++ l1), post. rewrite length_app. split; [|done]. by rewrite E, <-!app_assoc.
  - intros [(pre & post & E & <-) (pre2 & post2 & E2 & Hp)].
    rewrite E2 in E. rewrite (app_assoc pre) in E.
    assert (pre2 = pre ++ l1 /\ l2 ++ post2 = post) as [-> <-].
    { apply app_inj_1 in E; [done|]. by rewrite length_app. }
    exists pre, post2. split; [|done]. by rewrite E2, <-!app_assoc.
Qed.

Lemma holds_at_cons p c l : holds_at p (c :: l) <-> holds_at p [c] /\ holds_at (S p) l.
Proof. rewrite (holds_at_app p [c] l). cbn [length]. by rewrite Nat.add_1_r. Qed.

Lemma holds_at_bound p l : holds_at p l -> (p + length l <= length mem)%nat.
Proof. intros (pre & post & -> & <-). rewrite !length_app. lia. Qed.

Lemma holds_at_read p l : holds_at p l -> read_mem p (length l) = Ok l.
Proof.
  intros H. unfold read_mem. rewrite bool_decide_eq_true_2 by by apply holds_at_bound.
  destruct H as (pre & post & -> & <-). by rewrite drop_app_length, take_app_length.
Qed.

Lemma holds_at_fun p l1 l2 : holds_at p l1 -> holds_at p l2 -> length l1 = length l2 -> l1 = l2.
Proof.
  intros H1%holds_at_read H2%holds_at_read E. rewrite E, H2 in H1. congruence.
Qed.

(** Every stretch inside the block holds something. *)
Lemma holds_at_exists p n :
  (p + n <= length mem)%nat -> exists l, length l = n /\ holds_at p l.
Proof.
  intros H. exists (take n (drop p mem)). split; [rewrite length_take, length_drop; lia|].
  exists (take p mem), (drop n (drop p mem)). rewrite !take_drop. split; [done|].
  rewrite length_take. lia.
Qed.

Lemma skip_while_ok test l : forall p, holds_at p l ->
  exists l1 l2, l = l1 ++ l2 /\ Forall (fun c => test c = true) l1 /\
    (forall c, head l2 = Some c -> test c = false) /\
    skip_while test (length l) p = Ok (p + length l1)%nat.
Proof.
  induction l as [|c l IH]; intros p H; cbn [skip_while length].
  - exists [], []. rewrite Nat.add_0_r. split_and!; [done|constructor|done|done].
  - rewrite (holds_at_char _ _ _ H). cbn [res_bind].
    destruct (test c) eqn:Et.
    + destruct (IH (S p)) as (l1 & l2 & -> & H1 & H2 & ->); [by apply holds_at_cons in H as [_ H]|].
      exists (c :: l1), l2. split_and!; [done|by constructor|done|]. f_equal. cbn. lia.
    + exists [], (c :: l). rewrite Nat.add_0_r. split_and!; [done|constructor|naive_solver|done].
Qed.

Lemma contains_ok set l : forall p, holds_at p l ->
  contains_loop set (length l) p = Ok (existsb (in_charset set) l).
Proof.
  induction l as [|c l IH]; intros p H; cbn [contains_loop length existsb]; [done|].
  rewrite (holds_at_char _ _ _ H). cbn [res_bind]. destruct (in_charset set c); [done|].
  apply holds_at_cons in H as [_ H]. by rewrite (IH _ H).
Qed.

Lemma contains_only_ok set l : forall p, holds_at p l ->
  contains_only_loop set (length l) p = Ok (forallb (in_charset set) l).
Proof.
  induction l as [|c l IH]; intros p H; cbn [contains_only_loop length forallb]; [done|].
  rewrite (holds_at_char _ _ _ H). cbn [res_bind]. destruct (in_charset set c); [|done].
  apply holds_at_cons in H as [_ H]. cbn [negb]. by rewrite (IH _ H).
Qed.

Lemma startswith_yes p prefix l :
  holds_at p (prefix ++ l) ->
  ptrlen_startswith (make_ptrlen p (length (prefix ++ l))) prefix =
    Ok (Some (make_ptrlen (p + length prefix) (length l))).
Proof.
  intros [H _]%holds_at_app. unfold ptrlen_startswith. cbn [pl_ptr pl_len].
  rewrite length_app, bool_decide_eq_true_2 by lia.
  rewrite (holds_at_read _ _ H). cbn [res_bind]. rewrite bool_decide_eq_true_2 by done.
  do 3 f_equal. lia.
Qed.

Lemma startswith_no p prefix l :
  holds_at p l -> (forall l', l <> prefix ++ l') ->
  ptrlen_startswith (make_ptrlen p (length l)) prefix = Ok None.
Proof.
  intros H Hno. unfold ptrlen_startswith. cbn [pl_ptr pl_len].
  case_bool_decide as Hl; [|done].
  rewrite <-(take_drop (length prefix) l) in H. apply holds_at_app in H as [H _].
  apply holds_at_read in H. rewrite length_take, Nat.min_l in H by done. rewrite H. cbn [res_bind].
  rewrite bool_decide_eq_false_2; [done|]. intros E.
  apply (Hno (drop (length prefix) l)). by rewrite <-E at 1; rewrite take_drop.
Qed.

Lemma mkstr_ok p l : holds_at p l -> mkstr (make_ptrlen p (length l)) = Ok (l ++ [0]).
Proof. intros H. unfold mkstr. cbn. by rewrite (holds_at_read _ _ H). Qed.

End memory.

(** ** Words of a text *)

(** The input up to the word is separators, the word has none and is followed by
    one or by the end of the input. *)
Lemma ptrlen_get_word_ok mem seps p l :
  holds_at mem p l ->
  exists l1 l2 l3, l = l1 ++ l2 ++ l3 /\
    Forall (fun c => in_charset seps c = true) l1 /\
    Forall (fun c => in_charset seps c = false) l2 /\
    (l2 = [] -> l3 = []) /\ (forall c, head l3 = Some c -> in_charset seps c = true) /\
    ptrlen_get_word mem (make_ptrlen p (length l)) seps =
      Ok (make_ptrlen (p + length l1) (length l2),
          make_ptrlen (p + length l1 + length l2) (length l3)).
Proof.
  intros H. destruct (skip_while_ok mem (in_charset seps) l p H) as (l1 & l' & -> & H1 & Hh & E1).
  apply holds_at_app in H as [_ H].
  destruct (skip_while_ok mem (fun c => negb (in_charset seps c)) l' _ H)
    as (l2 & l3 & -> & H2 & Hh3 & E2).
  exists l1, l2, l3. split_and!; [done|done| | | |].
  - eapply Forall_impl; [exact H2|]. intros c. apply negb_true_iff.
  - intros ->. destruct l3 as [|c l3]; [done|].
    specialize (Hh c eq_refl). specialize (Hh3 c eq_refl). rewrite Hh in Hh3. done.
  - intros c Hc. specialize (Hh3 c Hc). by apply negb_false_iff.
  - unfold ptrlen_get_word, ptrlen_end. cbn [pl_ptr pl_len].
    replace (p + length (l1 ++ l2 ++ l3) - p)%nat with (length (l1 ++ l2 ++ l3)) by lia.
    rewrite E1. cbn [res_bind].
    replace (p + length (l1 ++ l2 ++ l3) - (p + length l1))%nat with (length (l2 ++ l3))
      by (rewrite !length_app; lia).
    rewrite E2. cbn [res_bind]. rewrite c_assert_true.
    + rewrite !length_app.
      f_equal. f_equal; apply make_ptrlen_eq; lia.
    + apply bool_decide_eq_true. rewrite !length_app. lia.
Qed.

(** ** C strings *)

(** The characters of a C string. *)
Definition asciz_chars (s : list Z) : res (list Z) := let! n := strlen s in Ok (take n s).

(** The block of the string buffer becomes the string: its contents and the
    terminator behind them. *)
Definition strbuf_to_str (buf : strbuf) : res (list Z) :=
  strbuf_contents (Strbuf (sb_s buf) (sb_len buf + 1) (sb_size buf) (sb_nm buf)).

Lemma strlen_text (l beyond : list Z) : 0 ∉ l -> strlen (l ++ 0 :: beyond) = Ok (length l).
Proof.
  induction l as [|c l IH]; intros H; cbn [strlen app]; [done|].
  apply not_elem_of_cons in H as [Hc H]. rewrite (proj2 (Z.eqb_neq _ _)) by done.
  rewrite (IH H). done.
Qed.

Lemma asciz_chars_text l beyond : 0 ∉ l -> asciz_chars (l ++ 0 :: beyond) = Ok l.
Proof.
  intros H. unfold asciz_chars. rewrite strlen_text by done. cbn [res_bind]. by rewrite take_app_length.
Qed.

Lemma mapM_id_Some (c : list Z) : mapM id (Some <$> c) = Some c.
Proof. induction c as [|x c IH]; [done|]. cbn. by rewrite IH. Qed.

Lemma strbuf_to_str_ok buf c : strbuf_holds buf c -> strbuf_to_str buf = Ok (c ++ [0]).
Proof.
  intros (Hl & Hs & _ & tail & E). unfold strbuf_to_str, strbuf_contents. cbn [sb_s sb_len].
  rewrite E, Hl, length_app, length_fmap. cbn [length]. rewrite (proj2 (Z.ltb_ge _ _)) by lia.
  replace ((Some <$> c) ++ Some 0 :: tail) with ((Some <$> c ++ [0]) ++ tail)
    by (by rewrite fmap_app, <-app_assoc).
  rewrite take_app_length' by (rewrite length_fmap, length_app; cbn; lia). by rewrite mapM_id_Some.
Qed.
