(* ===== verification/CertExpr.v ===== *)
(** * Certificate expressions (putty utils/cert-expr.c)

    The boolean expressions that say for which hosts and ports a certification
    authority is trusted: lexer, parser, evaluation, and the builder that makes an
    expression out of a list of wildcards.

    The text of the expression is a block of memory [mem]; tokens and nodes refer
    to it by [ptrlen]s.  Nodes, the arrays of their children and error messages
    are values (so freeing them is not modelled), and their allocation succeeds. *)

From Stdlib Require Import String.
From S2P Require Import Prelude Bufchain Marshal Strbuf Wildcard Ptrlen.
Local Open Scope cmodel_scope.
Local Open Scope Z_scope.

(** ** Tokens *)

Inductive Token :=
| TOK_LPAR | TOK_RPAR
| TOK_AND | TOK_OR | TOK_NOT
| TOK_ATOM
| TOK_END | TOK_ERROR.

#[export] Instance Token_eq_dec : EqDecision Token.
Proof. solve_decision. Defined.

Definition is_space (c : Z) : bool :=
  (c =? 32) || (c =? 10) || (c =? 13) || (c =? 9) || (c =? 12) || (c =? 11).

(** [( ) & | !] *)
Definition is_operator_char (c : Z) : bool :=
  (c =? 40) || (c =? 41) || (c =? 38) || (c =? 124) || (c =? 33).

(** Letters, digits and [. - _ * ? [ ] / :] *)
Definition is_atom_char (c : Z) : bool :=
  ((65 <=? c) && (c <=? 90)) || ((97 <=? c) && (c <=? 122)) || ((48 <=? c) && (c <=? 57)) ||
  (c =? 46) || (c =? 45) || (c =? 95) || (c =? 42) || (c =? 63) ||
  (c =? 91) || (c =? 93) || (c =? 47) || (c =? 58).

Definition operators : list (list Z * Token) :=
  [([40], TOK_LPAR); ([41], TOK_RPAR); ([38; 38], TOK_AND); ([124; 124], TOK_OR); ([33], TOK_NOT)].

(** ** Nodes *)

Inductive ExprNode :=
| OP_AND (text : ptrlen) (subexprs : list ExprNode)
| OP_OR (text : ptrlen) (subexprs : list ExprNode)
| OP_NOT (text : ptrlen) (subexpr : ExprNode)
| OP_HOSTNAME_WC (text : ptrlen) (wc : list Z)
| OP_PORT_RANGE (text : ptrlen) (lo hi : Z).

Definition en_text (en : ExprNode) : ptrlen :=
  match en with
  | OP_AND text _ | OP_OR text _ | OP_NOT text _ | OP_HOSTNAME_WC text _
  | OP_PORT_RANGE text _ _ => text
  end.

(** [en->text = text] *)
Definition set_text (en : ExprNode) (text : ptrlen) : ExprNode :=
  match en with
  | OP_AND _ l => OP_AND text l
  | OP_OR _ l => OP_OR text l
  | OP_NOT _ e => OP_NOT text e
  | OP_HOSTNAME_WC _ wc => OP_HOSTNAME_WC text wc
  | OP_PORT_RANGE _ lo hi => OP_PORT_RANGE text lo hi
  end.

(** [exprnode_new(tok == TOK_AND ? OP_AND : OP_OR, text)] with its children *)
Definition exprnode_nary (operator : Token) (text : ptrlen) (subexprs : list ExprNode) : ExprNode :=
  if decide (operator = TOK_AND) then OP_AND text subexprs else OP_OR text subexprs.

Record ParserState := PState {
  ps_currtext : ptrlen;
  ps_tok : Token;
  ps_toktext : ptrlen;
  ps_err : option (string * ptrlen)   (** [err] and [errloc] *)
}.

(** The first error stays. *)
Definition error (ps : ParserState) (errtext : string) (errloc : ptrlen) : ParserState :=
  match ps_err ps with
  | None => PState (ps_currtext ps) (ps_tok ps) (ps_toktext ps) (Some (errtext, errloc))
  | Some _ => ps
  end.

Definition port_prefix : list Z := [112; 111; 114; 116; 58].
Definition DIGITS : list Z := [48; 49; 50; 51; 52; 53; 54; 55; 56; 57; 0].

Definition unsigned (x : Z) : Z := x mod 2 ^ 32.

Section text.
  Variable mem : list Z.

(** ** Lexing *)

Fixpoint match_operator (ops : list (list Z * Token)) (p e : nat) : res (option (nat * Token)) :=
  match ops with
  | [] => Ok None
  | (text, type) :: ops =>
      if bool_decide (length text <= e - p)%nat then
        let! b := read_mem mem p (length text) in
        if bool_decide (text = b) then Ok (Some (p + length text, type)%nat)
        else match_operator ops p e
      else match_operator ops p e
  end.

(** The type, the token, the rest of the text and the error message. *)
Definition lex (text : ptrlen) : res (Token * ptrlen * ptrlen * option string) :=
  let e := ptrlen_end text in
  let! p := skip_while mem is_space (e - pl_ptr text) (pl_ptr text) in
  let start := p in
  let out p type err :=
    Ok (type, make_ptrlen start (p - start), make_ptrlen p (e - p), err) in
  if bool_decide (e <= p)%nat then out p TOK_END None
  else
    let! c := read_char mem p in
    if is_operator_char c then
      let! m := match_operator operators p e in
      match m with
      | Some (p, type) => out p type None
      | None => out (p + 1)%nat TOK_ERROR (Some "unrecognised boolean operator"%string)
      end
    else if is_atom_char c then
      let! p := skip_while mem is_atom_char (e - (p + 1)) (p + 1) in
      out p TOK_ATOM None
    else out (p + 1)%nat TOK_ERROR (Some "unexpected character in expression"%string).

Definition advance (ps : ParserState) : res ParserState :=
  let! r := lex (ps_currtext ps) in
  let '(tok, toktext, currtext, err) := r in
  let ps := PState currtext tok toktext (ps_err ps) in
  if decide (tok = TOK_ERROR) then
    match err with
    | Some err => Ok (error ps err toktext)
    | None => Crash UndefinedBehaviour
    end
  else Ok ps.

(** ** Atoms *)

Fixpoint port_number_loop (n p : nat) (val : Z) : res Z :=
  match n with
  | O => Ok val
  | S n =>
      let! c := read_char mem p in
      c_assert ((48 <=? c) && (c <=? 57)) (
        let val := unsigned (10 * val + (c - 48)) in
        let val := if 65536 <=? val then 65536 else val in
        port_number_loop n (S p) val)
  end.

Definition ptrlen_to_port_number (input : ptrlen) : res Z :=
  port_number_loop (pl_len input) (pl_ptr input) 0.

Definition atom_is_hostname_wc (toktext : ptrlen) : res bool :=
  let! b := ptrlen_contains mem toktext [58; 47] in Ok (negb b).

(** [tail.len > 0 && ptrlen_contains_only(tail, DIGITS)] *)
Definition all_digits (tail : ptrlen) : res bool :=
  if bool_decide (0 < pl_len tail)%nat then ptrlen_contains_only mem tail DIGITS else Ok false.

(** The results of reading what is behind [port:]: the range, or the error to report
    and where. *)
Definition port_unable (toktext : ptrlen) : res (string * ptrlen + Z * Z) :=
  Ok (inl ("unable to parse port number specification"%string, toktext)).

Definition port_too_large (pl : ptrlen) : res (string * ptrlen + Z * Z) :=
  Ok (inl ("port number too large"%string, pl)).

(** A range, with the minus sign at [minus]. *)
Definition parse_port_range (toktext tail : ptrlen) (minus : nat) : res (string * ptrlen + Z * Z) :=
  let! pl_lo := make_ptrlen_startend (pl_ptr tail) minus in
  let! pl_hi := make_ptrlen_startend (minus + 1) (ptrlen_end tail) in
  let! ok_lo := all_digits pl_lo in
  let! ok_hi := if ok_lo : bool then all_digits pl_hi else Ok false in
  if ok_hi : bool then
    let! lo := ptrlen_to_port_number pl_lo in
    if 65536 <=? lo then port_too_large pl_lo
    else
      let! hi := ptrlen_to_port_number pl_hi in
      if 65536 <=? hi then port_too_large pl_hi
      else if hi <? lo then
        let! loc := make_ptrlen_startend (pl_ptr pl_lo) (ptrlen_end pl_hi) in
        Ok (inl ("port number range is backwards"%string, loc))
      else Ok (inr (lo, hi))
  else port_unable toktext.

Definition parse_port (toktext tail : ptrlen) : res (string * ptrlen + Z * Z) :=
  let! single := all_digits tail in
  if single : bool then
    let! lo := ptrlen_to_port_number tail in
    if 65536 <=? lo then port_too_large tail else Ok (inr (lo, lo))
  else
    let! b := read_mem mem (pl_ptr tail) (pl_len tail) in
    match memchr b 45 with
    | None => port_unable toktext
    | Some off => parse_port_range toktext tail (pl_ptr tail + off)
    end.

(** ** The parser *)

Definition expected (ps : ParserState) : res (ParserState * option ExprNode) :=
  Ok (error ps "expected a predicate or a parenthesised subexpression"%string (ps_toktext ps), None).

Fixpoint parse_atom (fuel : nat) (ps : ParserState) : res (ParserState * option ExprNode) :=
  match fuel with
  | O => Crash OutOfFuel
  | S fuel =>
      match ps_tok ps with
      | TOK_LPAR =>
          let openpar := ps_toktext ps in
          let! ps := advance ps in
          let! r := parse_expr fuel ps in
          let '(ps, subexpr) := r in
          match subexpr with
          | None => Ok (ps, None)
          | Some subexpr =>
              if decide (ps_tok ps <> TOK_RPAR) then
                Ok (error ps "expected ')' after parenthesised subexpression"%string
                      (en_text subexpr), None)
              else
                let closepar := ps_toktext ps in
                let! ps := advance ps in
                let! text := make_ptrlen_startend (pl_ptr openpar) (ptrlen_end closepar) in
                Ok (ps, Some (set_text subexpr text))
          end
      | TOK_NOT =>
          let notloc := ps_toktext ps in
          let! ps := advance ps in
          let! r := parse_atom fuel ps in
          let '(ps, subexpr) := r in
          match subexpr with
          | None => Ok (ps, None)
          | Some subexpr =>
              let! text := make_ptrlen_startend (pl_ptr notloc) (ptrlen_end (en_text subexpr)) in
              Ok (ps, Some (OP_NOT text subexpr))
          end
      | TOK_ATOM =>
          let! host := atom_is_hostname_wc (ps_toktext ps) in
          if host : bool then
            let! wc := mkstr mem (ps_toktext ps) in
            let en := OP_HOSTNAME_WC (ps_toktext ps) wc in
            let! ps := advance ps in
            Ok (ps, Some en)
          else
            let! port := ptrlen_startswith mem (ps_toktext ps) port_prefix in
            match port with
            | Some tail =>
                let! r := parse_port (ps_toktext ps) tail in
                match r with
                | inl (msg, loc) => Ok (error ps msg loc, None)
                | inr (lo, hi) =>
                    let en := OP_PORT_RANGE (ps_toktext ps) lo hi in
                    let! ps := advance ps in
                    Ok (ps, Some en)
                end
            | None => expected ps
            end
      | _ => expected ps
      end
  end
with parse_expr (fuel : nat) (ps : ParserState) : res (ParserState * option ExprNode) :=
  match fuel with
  | O => Crash OutOfFuel
  | S fuel =>
      let! r := parse_atom fuel ps in
      let '(ps, subexpr) := r in
      match subexpr with
      | None => Ok (ps, None)
      | Some subexpr =>
          if decide (ps_tok ps <> TOK_AND /\ ps_tok ps <> TOK_OR) then Ok (ps, Some subexpr)
          else parse_expr_loop fuel (ps_tok ps) (en_text subexpr) [subexpr] ps
      end
  end
(** [while (true)], with the node as its text and its children so far. *)
with parse_expr_loop (fuel : nat) (operator : Token) (text : ptrlen) (subexprs : list ExprNode)
    (ps : ParserState) : res (ParserState * option ExprNode) :=
  match fuel with
  | O => Crash OutOfFuel
  | S fuel =>
      let! ps := advance ps in
      let! r := parse_atom fuel ps in
      let '(ps, subexpr) := r in
      match subexpr with
      | None => Ok (ps, None)
      | Some subexpr =>
          let subexprs := subexprs ++ [subexpr] in
          let! text := make_ptrlen_startend (pl_ptr text) (ptrlen_end (en_text subexpr)) in
          if decide (ps_tok ps <> TOK_AND /\ ps_tok ps <> TOK_OR) then
            Ok (ps, Some (exprnode_nary operator text subexprs))
          else if decide (ps_tok ps <> operator) then
            Ok (error ps "expected parentheses to disambiguate && and || on either side of expression"%string
                  (en_text subexpr), None)
          else parse_expr_loop fuel operator text subexprs ps
      end
  end.

(** Every call is made at least one token after the third one above it. *)
Definition parse_fuel (expr : ptrlen) : nat := (3 * pl_len expr + 6)%nat.

(** The expression, or [*error_msg] and [*error_loc].  The first [advance] sets
    the fields that the code leaves uninitialised. *)
Definition parse (expr : ptrlen) : res (option (string * ptrlen) + ExprNode) :=
  let! ps := advance (PState expr TOK_END expr None) in
  let! r := parse_expr (parse_fuel expr) ps in
  let '(ps, en) := r in
  match en with
  | Some en =>
      if decide (ps_tok ps <> TOK_END) then
        let! loc := make_ptrlen_startend (pl_ptr (ps_toktext ps)) (ptrlen_end expr) in
        Ok (inl (ps_err (error ps "unexpected text at end of expression"%string loc)))
      else Ok (inr en)
  | None => Ok (inl (ps_err ps))
  end.

End text.

(** ** Evaluation *)

(** [wc_match] returns an [int], the function a [bool]. *)
Fixpoint eval (en : ExprNode) (hostname : list Z) (port : Z) : res bool :=
  match en with
  | OP_AND _ subexprs =>
      (fix all_loop l :=
         match l with
         | [] => Ok true
         | e :: l =>
             let! b := eval e hostname port in
             if negb b then Ok false else all_loop l
         end) subexprs
  | OP_OR _ subexprs =>
      (fix any_loop l :=
         match l with
         | [] => Ok false
         | e :: l =>
             let! b := eval e hostname port in
             if b : bool then Ok true else any_loop l
         end) subexprs
  | OP_NOT _ e => let! b := eval e hostname port in Ok (negb b)
  | OP_HOSTNAME_WC _ wc =>
      let! w := asciz_chars wc in
      let! v := wc_match w hostname in
      Ok (negb (v =? 0))
  | OP_PORT_RANGE _ lo hi => Ok ((lo <=? port) && (port <=? hi))
  end.

(** The expression is a C string in memory, the host name its characters. *)
Definition cert_expr_match_str (expression hostname : list Z) (port : Z) : res bool :=
  let! pl := ptrlen_from_asciz expression in
  let! r := parse expression pl in
  match r with
  | inl _ => Ok false
  | inr en => eval en hostname port
  end.

(** [None] where the function returns true. *)
Definition cert_expr_valid (expression : list Z) : res (option (option (string * ptrlen))) :=
  let! pl := ptrlen_from_asciz expression in
  let! r := parse expression pl in
  match r with
  | inl err => Ok (Some err)
  | inr _ => Ok None
  end.

(** ** Building an expression *)

Record CertExprBuilder := Builder { eb_wcs : list (list Z) }.

Definition cert_expr_builder_new : CertExprBuilder := Builder [].

Definition cert_expr_builder_add (eb : CertExprBuilder) (wildcard : list Z) : res CertExprBuilder :=
  let! orig := ptrlen_from_asciz wildcard in
  let! r := lex wildcard orig in
  let '(tok, toktext, _, _) := r in
  if decide (tok = TOK_ATOM /\ toktext = orig) then
    let! host := atom_is_hostname_wc wildcard toktext in
    if host : bool then
      let! wc := mkstr wildcard orig in
      Ok (Builder (eb_wcs eb ++ [wc]))
    else Ok eb
  else Ok eb.

(** [" || "] *)
Definition or_literal : list Z := [32; 124; 124; 32].

Fixpoint expression_loop (first : bool) (wcs : list (list Z)) (sb : strbuf) : res strbuf :=
  match wcs with
  | [] => Ok sb
  | wc :: wcs =>
      let! sb := if first then Ok sb else BinarySink_put_datapl sb or_literal in
      let! w := asciz_chars wc in
      let! sb := BinarySink_put_datapl sb w in
      expression_loop false wcs sb
  end.

Definition cert_expr_expression (eb : CertExprBuilder) : res (list Z) :=
  let! sb := strbuf_new in
  let! sb := expression_loop true (eb_wcs eb) sb in
  strbuf_to_str sb.
