(* ===== verification/CertExprLex.v ===== *)
(** * What the lexer of certificate expressions recognises

    The declarative side: [lexes p l us] says that the text [l], which starts at
    offset [p], is the tokens [us] with white space between them; [port_spec] is
    what a port atom means.  [stream] is the sequence of tokens as the parser
    sees it, which ends with the end of the text or with the first error. *)

From Stdlib Require Import String.
From S2P Require Import Prelude Bufchain Marshal Strbuf Wildcard Ptrlen CertExpr.
Local Open Scope cmodel_scope.
Local Open Scope Z_scope.

Notation lexeme := (Token * ptrlen)%type.
Notation all f l := (Forall (fun c => f c = true) l).
Notation stops f l := (forall c, head l = Some c -> f c = false).

(** [l] has a token of type [tok] at [tt], behind it is [rest] at [p']. *)
Inductive lexeme_at (p : nat) (l : list Z) : Token -> ptrlen -> nat -> list Z -> Prop :=
| op_at ws o tok rest :
    l = ws ++ o ++ rest -> all is_space ws -> (o, tok) ∈ operators ->
    lexeme_at p l tok (make_ptrlen (p + length ws) (length o)) (p + length ws + length o) rest
| atom_at ws a rest :
    l = ws ++ a ++ rest -> all is_space ws -> a <> [] -> all is_atom_char a ->
    stops is_atom_char rest ->
    lexeme_at p l TOK_ATOM (make_ptrlen (p + length ws) (length a)) (p + length ws + length a) rest.

Inductive lexes : nat -> list Z -> list lexeme -> Prop :=
| lexes_end p l : all is_space l -> lexes p l []
| lexes_cons p l tok tt p' rest us :
    lexeme_at p l tok tt p' rest -> lexes p' rest us -> lexes p l ((tok, tt) :: us).

(** The first operator that the text starts with. *)
Fixpoint find_op (ops : list (list Z * Token)) (l : list Z) : option (list Z * Token) :=
  match ops with
  | [] => None
  | (o, tok) :: ops => if bool_decide (take (length o) l = o) then Some (o, tok) else find_op ops l
  end.

Inductive bad_at (p : nat) (l : list Z) : ptrlen -> Prop :=
| bad_char ws c rest :
    l = ws ++ c :: rest -> all is_space ws -> is_space c = false -> is_atom_char c = false ->
    find_op operators (c :: rest) = None ->
    bad_at p l (make_ptrlen (p + length ws) 1).

Inductive stream : nat -> list Z -> list lexeme -> Prop :=
| stream_end p l : all is_space l -> stream p l [(TOK_END, make_ptrlen (p + length l) 0)]
| stream_bad p l tt : bad_at p l tt -> stream p l [(TOK_ERROR, tt)]
| stream_cons p l tok tt p' rest ts :
    lexeme_at p l tok tt p' rest -> stream p' rest ts -> stream p l ((tok, tt) :: ts).

(** ** Classes of characters *)

Lemma is_operator_char_inv c :
  is_operator_char c = true -> c = 40 \/ c = 41 \/ c = 38 \/ c = 124 \/ c = 33.
Proof. unfold is_operator_char. rewrite !orb_true_iff, !Z.eqb_eq. tauto. Qed.

Lemma operator_not_atom c : is_operator_char c = true -> is_atom_char c = false.
Proof. intros [->|[->|[->|[->| ->]]]]%is_operator_char_inv; reflexivity. Qed.

Lemma atom_not_operator c : is_atom_char c = true -> is_operator_char c = false.
Proof. intros H. destruct (is_operator_char c) eqn:E; [|done]. by rewrite operator_not_atom in H. Qed.

Lemma space_not_token c : is_space c = true -> is_operator_char c = false /\ is_atom_char c = false.
Proof.
  unfold is_space. rewrite !orb_true_iff, !Z.eqb_eq.
  intros [[[[[-> | ->] | ->] | ->] | ->] | ->]; split; reflexivity.
Qed.

Lemma token_not_space c : is_operator_char c = true \/ is_atom_char c = true -> is_space c = false.
Proof.
  intros H. destruct (is_space c) eqn:E; [|done]. apply space_not_token in E as [E1 E2].
  rewrite E1, E2 in H. by destruct H.
Qed.

Lemma operators_heads o tok : (o, tok) ∈ operators ->
  exists c o', o = c :: o' /\ is_operator_char c = true.
Proof.
  unfold operators. rewrite !elem_of_cons, elem_of_nil.
  intros [H|[H|[H|[H|[H|[]]]]]]; injection H as -> ->; eauto.
Qed.

Lemma find_op_app o tok rest : (o, tok) ∈ operators -> find_op operators (o ++ rest) = Some (o, tok).
Proof.
  unfold operators. rewrite !elem_of_cons, elem_of_nil.
  intros [H|[H|[H|[H|[H|[]]]]]]; injection H as -> ->; cbn [find_op length app take];
    repeat first [rewrite bool_decide_eq_true_2 by done | rewrite bool_decide_eq_false_2 by done]; done.
Qed.

Lemma find_op_some ops l o tok : find_op ops l = Some (o, tok) ->
  (o, tok) ∈ ops /\ exists rest, l = o ++ rest.
Proof.
  induction ops as [|[o' tok'] ops IH]; cbn [find_op]; [done|]. case_bool_decide as E.
  - intros [= -> ->]. split; [left|]. exists (drop (length o) l). by rewrite <-E at 1; rewrite take_drop.
  - intros H%IH. split; [right|]; tauto.
Qed.

Lemma find_op_none c rest : is_operator_char c = false -> find_op operators (c :: rest) = None.
Proof.
  intros Hc. destruct (find_op operators (c :: rest)) as [[o tok]|] eqn:E; [|done].
  apply find_op_some in E as [Hin (rest' & E)].
  apply operators_heads in Hin as (c' & o' & -> & Hc'). injection E as -> _. congruence.
Qed.

(** ** Every text is a stream of tokens *)

Lemma span_exists (f : Z -> bool) l : exists l1 l2, l = l1 ++ l2 /\ all f l1 /\ stops f l2.
Proof.
  induction l as [|c l (l1 & l2 & -> & H1 & H2)].
  - by exists [], [].
  - destruct (f c) eqn:E; [exists (c :: l1), l2|exists [], (c :: l1 ++ l2)];
      split_and!; naive_solver.
Qed.

Lemma text_cases p l :
  all is_space l \/ (exists tt, bad_at p l tt) \/
  (exists tok tt p' rest, lexeme_at p l tok tt p' rest /\ (length rest < length l)%nat).
Proof.
  destruct (span_exists is_space l) as (ws & [|c l2] & -> & Hws & Hc).
  { left. by rewrite app_nil_r. }
  right. specialize (Hc c eq_refl). destruct (is_atom_char c) eqn:Ea.
  - right. destruct (span_exists is_atom_char (c :: l2)) as (a & rest & E & Ha & Hr).
    assert (a <> []) by (intros ->; cbn in E; subst rest; specialize (Hr c eq_refl); congruence).
    rewrite E. do 4 eexists. split; [by eapply atom_at|].
    destruct a; [done|]. rewrite !length_app. cbn. lia.
  - destruct (find_op operators (c :: l2)) as [[o tok]|] eqn:E.
    + right. apply find_op_some in E as [Hin (rest & E)]. rewrite E.
      do 4 eexists. split; [by eapply op_at|].
      apply operators_heads in Hin as (? & ? & -> & _). rewrite !length_app. cbn. lia.
    + left. eexists. by econstructor.
Qed.

Lemma stream_exists l p : exists ts, stream p l ts.
Proof.
  remember (length l) as n eqn:En. revert p l En.
  induction n as [n IH] using lt_wf_ind; intros p l ->.
  destruct (text_cases p l) as [H|[[tt H]|(tok & tt & p' & rest & H & Hl)]].
  - eexists. by apply stream_end.
  - eexists. by apply stream_bad.
  - destruct (IH _ Hl p' rest eq_refl) as (ts & Hts). eexists. by eapply stream_cons.
Qed.

Lemma stream_length p l ts : stream p l ts -> (length ts <= S (length l))%nat.
Proof.
  induction 1 as [p l H|p l tt H|p l tok tt p' rest ts H Hs IH]; cbn [length]; [lia|lia|].
  destruct H as [ws o tok rest -> _ Hin|ws a rest -> _ Ha _ _]; rewrite !length_app.
  - apply operators_heads in Hin as (? & ? & -> & _). cbn [length]. lia.
  - destruct a; [done|]. cbn [length]. lia.
Qed.

Lemma lexeme_at_tok p l tok tt p' rest :
  lexeme_at p l tok tt p' rest -> tok <> TOK_END /\ tok <> TOK_ERROR.
Proof.
  intros [ws o t r _ _ Hin|]; [|done]. revert Hin.
  unfold operators. rewrite !elem_of_cons, elem_of_nil.
  intros [H|[H|[H|[H|[H|[]]]]]]; injection H as -> ->; done.
Qed.

Lemma stream_end_last p l us t vs : stream p l (us ++ (TOK_END, t) :: vs) -> vs = [].
Proof.
  intros Hs. remember (us ++ (TOK_END, t) :: vs) as ts eqn:E. revert us E.
  induction Hs as [p l H|p l tt H|p l tok tt p' rest ts H Hs IH]; intros [|u us] E;
    injection E; intros; subst; try done; try (by destruct us); [|by eapply IH].
  apply lexeme_at_tok in H. tauto.
Qed.

(** The streams that end with the end of the text are those of the texts that lex. *)
Lemma lexes_stream p l us :
  lexes p l us <-> exists e, stream p l (us ++ [(TOK_END, e)]).
Proof.
  split.
  - induction 1 as [p l H|p l tok tt p' rest us H _ [e IH]]; eexists.
    + by apply stream_end.
    + cbn. by eapply stream_cons.
  - intros [e H]. remember (us ++ [(TOK_END, e)]) as ts eqn:E. revert us E.
    induction H as [p l H|p l tt H|p l tok tt p' rest ts H Hs IH]; intros us E.
    + destruct us as [|? us]; [by constructor|]. injection E as _ E. by destruct us.
    + destruct us as [|? us]; [done|]. injection E as _ E. by destruct us.
    + destruct us as [|u us].
      * injection E as -> -> ->. inversion Hs.
      * injection E as <- ->. eapply lexes_cons; [done|]. by apply IH.
Qed.

(** ** The lexer computes the stream *)

Section lexer.
  Variable mem : list Z.

Lemma skip_while_exact test l1 l2 p :
  holds_at mem p (l1 ++ l2) -> all test l1 -> stops test l2 ->
  skip_while mem test (length (l1 ++ l2)) p = Ok (p + length l1)%nat.
Proof.
  intros H H1 H2. revert p H. induction H1 as [|c l1 Hc H1 IH]; intros p H; cbn [app length skip_while].
  - destruct l2 as [|c l2]; cbn [length skip_while]; [by rewrite Nat.add_0_r|].
    rewrite (holds_at_char _ _ _ _ H). cbn [res_bind]. rewrite (H2 c eq_refl). by rewrite Nat.add_0_r.
  - rewrite (holds_at_char _ _ _ _ H). cbn [res_bind]. rewrite Hc.
    apply holds_at_cons in H as [_ H]. rewrite (IH _ H). f_equal. lia.
Qed.

Lemma match_operator_ok ops l p : holds_at mem p l ->
  match_operator mem ops p (p + length l) =
    Ok ((fun '(o, tok) => (p + length o, tok)%nat) <$> find_op ops l).
Proof.
  intros H. induction ops as [|[o tok] ops IH]; cbn [match_operator find_op]; [done|].
  case_bool_decide as Hl.
  - rewrite <-(take_drop (length o) l) in H. apply holds_at_app in H as [H _].
    apply holds_at_read in H. rewrite length_take, Nat.min_l in H by lia. rewrite H. cbn [res_bind].
    rewrite (bool_decide_ext (o = take (length o) l) (take (length o) l = o)) by done.
    by case_bool_decide.
  - rewrite (bool_decide_eq_false_2 (take _ _ = _)); [done|].
    intros E. apply (f_equal length) in E. rewrite length_take in E. lia.
Qed.

(** The two halves of [lex]: the white space, and the token behind it. *)
Lemma lex_skip ws l p :
  holds_at mem p (ws ++ l) -> all is_space ws -> stops is_space l ->
  lex mem (make_ptrlen p (length (ws ++ l))) = lex mem (make_ptrlen (p + length ws) (length l)).
Proof.
  intros H Hws Hl. unfold lex, ptrlen_end. cbn [pl_ptr pl_len].
  replace (p + length (ws ++ l) - p)%nat with (length (ws ++ l)) by lia.
  replace (p + length ws + length l - (p + length ws))%nat with (length ([] ++ l)) by (cbn; lia).
  rewrite (skip_while_exact _ ws l p H Hws Hl).
  apply holds_at_app in H as [_ H].
  rewrite (skip_while_exact is_space [] l _ H (Forall_nil_2 _) Hl).
  cbn [res_bind length app]. rewrite !Nat.add_0_r.
  by replace (p + length (ws ++ l))%nat with (p + length ws + length l)%nat by (rewrite length_app; lia).
Qed.

Lemma lex_end l p : holds_at mem p l -> all is_space l ->
  lex mem (make_ptrlen p (length l)) =
    Ok (TOK_END, make_ptrlen (p + length l) 0, make_ptrlen (p + length l) 0, None).
Proof.
  intros H Hl. rewrite <-(app_nil_r l) in H |- * at 1. rewrite lex_skip by done.
  unfold lex, ptrlen_end. cbn [pl_ptr pl_len length]. rewrite Nat.add_0_r, Nat.sub_diag.
  cbn [skip_while res_bind]. rewrite bool_decide_eq_true_2 by done. by rewrite Nat.sub_diag.
Qed.

(** [lex] at a character that is no white space. *)
Lemma lex_nonspace c l p : holds_at mem p (c :: l) -> is_space c = false ->
  lex mem (make_ptrlen p (length (c :: l))) =
    (let e := (p + length (c :: l))%nat in
     let out p' type err :=
       Ok (type, make_ptrlen p (p' - p), make_ptrlen p' (e - p'), err) in
     if is_operator_char c then
       match find_op operators (c :: l) with
       | Some (o, tok) => out (p + length o)%nat tok None
       | None => out (p + 1)%nat TOK_ERROR (Some "unrecognised boolean operator"%string)
       end
     else if is_atom_char c then
       let! p := skip_while mem is_atom_char (length l) (S p) in
       out p TOK_ATOM None
     else out (p + 1)%nat TOK_ERROR (Some "unexpected character in expression"%string)).
Proof.
  intros H Hc. unfold lex, ptrlen_end. cbn [pl_ptr pl_len].
  replace (p + length (c :: l) - p)%nat with (length (c :: l)) by lia.
  change (length (c :: l)) with (length ([] ++ c :: l)).
  rewrite (skip_while_exact is_space [] (c :: l) p H (Forall_nil_2 _)) by naive_solver.
  cbn [res_bind length app]. rewrite Nat.add_0_r, bool_decide_eq_false_2 by lia.
  rewrite (holds_at_char _ _ _ _ H). cbn [res_bind].
  change (S (length l)) with (length (c :: l)). rewrite (match_operator_ok _ _ _ H). cbn [res_bind].
  replace (p + length (c :: l) - (p + 1))%nat with (length l) by (cbn; lia). rewrite Nat.add_1_r.
  destruct (is_operator_char c); [|done]. by destruct (find_op _ _) as [[o tok]|].
Qed.

Lemma lex_lexeme p l tok tt p' rest :
  holds_at mem p l -> lexeme_at p l tok tt p' rest ->
  lex mem (make_ptrlen p (length l)) = Ok (tok, tt, make_ptrlen p' (length rest), None) /\
  holds_at mem p' rest.
Proof.
  intros H Hl. destruct Hl as [ws o tok rest -> Hws Hin|ws a rest -> Hws Ha Hall Hr].
  - destruct (operators_heads _ _ Hin) as (c & o' & Eo & Hc).
    assert (Hs : is_space c = false) by (apply token_not_space; tauto).
    rewrite lex_skip by (subst; naive_solver).
    split; [|apply holds_at_app in H as [_ H]; by apply holds_at_app in H as [_ H]].
    apply holds_at_app in H as [_ H]. pose proof (find_op_app o tok rest Hin) as Hf.
    rewrite Eo in H, Hf |- *. cbn [app] in *. rewrite lex_nonspace by done.
    cbv zeta. rewrite Hc, Hf. cbn [length]. rewrite length_app.
    f_equal. f_equal. f_equal; [f_equal|]; apply make_ptrlen_eq; lia.
  - destruct a as [|c a]; [done|]. apply Forall_cons in Hall as [Hc Hall].
    assert (Hs : is_space c = false) by (apply token_not_space; tauto).
    rewrite lex_skip by (done || naive_solver).
    split; [|apply holds_at_app in H as [_ H]; by apply holds_at_app in H as [_ H]].
    apply holds_at_app in H as [_ H]. cbn [app] in *. rewrite lex_nonspace by done.
    cbv zeta. rewrite (atom_not_operator _ Hc), Hc.
    apply holds_at_cons in H as [_ H]. rewrite (skip_while_exact _ a rest _ H Hall Hr).
    cbn [res_bind length]. rewrite length_app.
    f_equal. f_equal. f_equal; [f_equal|]; apply make_ptrlen_eq; lia.
Qed.

Lemma lex_bad p l tt : holds_at mem p l -> bad_at p l tt ->
  exists text msg, lex mem (make_ptrlen p (length l)) = Ok (TOK_ERROR, tt, text, Some msg).
Proof.
  intros H [ws c rest -> Hws Hs Ha Hf]. rewrite lex_skip by (done || naive_solver).
  apply holds_at_app in H as [_ H]. rewrite lex_nonspace by done. cbv zeta. rewrite Hf, Ha.
  replace (p + length ws + 1 - (p + length ws))%nat with 1%nat by lia.
  destruct (is_operator_char c); eauto.
Qed.

End lexer.

(** ** Ports *)

Definition digit_char (c : Z) : bool := (48 <=? c) && (c <=? 57).
Definition dec_step (v c : Z) : Z := 10 * v + (c - 48).

(** A decimal number, of any size. *)
Definition decimal (ds : list Z) (v : Z) : Prop :=
  ds <> [] /\ all digit_char ds /\ v = foldl dec_step 0 ds.

(** What may follow [port:] *)
Inductive port_tail : list Z -> Z -> Z -> Prop :=
| port_single ds v : decimal ds v -> v <= 65535 -> port_tail ds v v
| port_range d1 d2 lo hi :
    decimal d1 lo -> decimal d2 hi -> lo <= hi <= 65535 -> port_tail (d1 ++ 45 :: d2) lo hi.

Lemma dec_step_mono ds v : 0 <= v -> all digit_char ds -> v <= foldl dec_step v ds.
Proof.
  intros Hv H. revert v Hv. induction H as [|c ds Hc H IH]; intros v Hv; cbn [foldl]; [lia|].
  apply andb_true_iff in Hc as [Hc _]. apply Z.leb_le in Hc.
  unfold dec_step in *. specialize (IH (10 * v + (c - 48)) ltac:(lia)). lia.
Qed.

Lemma decimal_nonneg ds v : decimal ds v -> 0 <= v.
Proof. intros (_ & H & ->). by apply dec_step_mono. Qed.

Lemma memchr_some w c n : memchr w c = Some n -> exists w1 w2, w = w1 ++ c :: w2 /\ length w1 = n /\ c ∉ w1.
Proof.
  revert n. induction w as [|b w IH]; intros n; cbn [memchr]; [done|].
  destruct (Z.eqb_spec b c) as [->|Hne].
  - intros [= <-]. exists [], w. split_and!; [done|done|apply not_elem_of_nil].
  - destruct (memchr w c) as [m|]; [|done]. intros [= <-].
    destruct (IH m eq_refl) as (w1 & w2 & -> & <- & Hn).
    exists (b :: w1), w2. split_and!; [done|done|]. apply not_elem_of_cons. by split.
Qed.

Lemma memchr_none w c : memchr w c = None -> c ∉ w.
Proof.
  induction w as [|b w IH]; cbn [memchr]; [intros _; apply not_elem_of_nil|].
  destruct (Z.eqb_spec b c) as [->|Hne]; [done|].
  destruct (memchr w c); [done|]. intros _. apply not_elem_of_cons. by split; [|apply IH].
Qed.

Lemma split_unique (c : Z) w1 w2 v1 v2 :
  w1 ++ c :: w2 = v1 ++ c :: v2 -> c ∉ w1 -> c ∉ v1 -> w1 = v1 /\ w2 = v2.
Proof.
  revert v1. induction w1 as [|b w1 IH]; intros [|b' v1]; cbn [app]; intros E Hw Hv.
  - by injection E as ->.
  - injection E as -> _. by destruct Hv; left.
  - injection E as -> _. by destruct Hw; left.
  - injection E as -> E. apply not_elem_of_cons in Hw as [_ Hw], Hv as [_ Hv].
    by destruct (IH v1 E Hw Hv) as [-> ->].
Qed.

Lemma digits_no_minus ds : all digit_char ds -> 45 ∉ ds.
Proof. intros H Hin. by apply (proj1 (Forall_forall _ _) H) in Hin. Qed.

Lemma decimal_fun ds v v' : decimal ds v -> decimal ds v' -> v = v'.
Proof. by intros (_ & _ & ->) (_ & _ & ->). Qed.

Lemma port_tail_fun w lo hi lo' hi' :
  port_tail w lo hi -> port_tail w lo' hi' -> lo = lo' /\ hi = hi'.
Proof.
  intros [ds v Hd _|d1 d2 l1 h1 H1 H2 _]; inversion 1 as [ds' v' Hd' _ E|d1' d2' l' h' H1' H2' _ E]; subst.
  - split; by eapply decimal_fun.
  - destruct Hd as (_ & Hd & _). apply digits_no_minus in Hd. destruct Hd.
    apply elem_of_app. right. left.
  - destruct Hd' as (_ & Hd & _). apply digits_no_minus in Hd. destruct Hd.
    apply elem_of_app. right. left.
  - apply split_unique in E as [-> ->].
    + split; by eapply decimal_fun.
    + by apply digits_no_minus, H1'.
    + by apply digits_no_minus, H1.
Qed.

Section ports.
  Variable mem : list Z.

(** The loop saturates and never wraps. *)
Lemma port_number_loop_ok ds : forall p v, holds_at mem p ds -> all digit_char ds -> 0 <= v ->
  port_number_loop mem (length ds) p (Z.min v 65536) = Ok (Z.min (foldl dec_step v ds) 65536).
Proof.
  induction ds as [|c ds IH]; intros p v H Hd Hv; cbn [port_number_loop length foldl]; [done|].
  apply Forall_cons in Hd as [Hc Hd].
  rewrite (holds_at_char _ _ _ _ H). cbn [res_bind]. rewrite c_assert_true by done.
  apply holds_at_cons in H as [_ H]. unfold digit_char in Hc.
  apply andb_true_iff in Hc as [H1%Z.leb_le H2%Z.leb_le].
  rewrite <-(IH (S p) (dec_step v c) H Hd) by (unfold dec_step; lia).
  f_equal. unfold unsigned, dec_step. rewrite Z.mod_small by lia.
  destruct (Z.leb_spec 65536 (10 * Z.min v 65536 + (c - 48))); lia.
Qed.

Lemma ptrlen_to_port_number_ok ds v p : holds_at mem p ds -> decimal ds v ->
  ptrlen_to_port_number mem (make_ptrlen p (length ds)) = Ok (Z.min v 65536).
Proof. intros H (_ & Hd & ->). by apply (port_number_loop_ok ds p 0). Qed.

Lemma digit_charset c : is_atom_char c = true -> in_charset DIGITS c = digit_char c.
Proof.
  intros Ha. destruct (digit_char c) eqn:E.
  - unfold digit_char in E. apply andb_true_iff in E as [H1%Z.leb_le H2%Z.leb_le].
    unfold in_charset. rewrite bool_decide_eq_true_2; [done|].
    unfold DIGITS. rewrite !elem_of_cons. lia.
  - unfold in_charset. apply orb_false_iff. split.
    + apply bool_decide_eq_false. unfold DIGITS. rewrite !elem_of_cons, elem_of_nil.
      intros H. repeat destruct H as [-> |H]; done.
    + apply Z.eqb_neq. by intros ->.
Qed.

Lemma all_digits_ok w p : holds_at mem p w -> all is_atom_char w ->
  all_digits mem (make_ptrlen p (length w)) = Ok (bool_decide (w <> [] /\ all digit_char w)).
Proof.
  intros H Ha. unfold all_digits. cbn [pl_len].
  destruct w as [|c w]; [reflexivity|]. rewrite bool_decide_eq_true_2 by (cbn; lia).
  unfold ptrlen_contains_only. cbn [pl_len pl_ptr]. rewrite contains_only_ok by done. f_equal.
  assert (E : forallb (in_charset DIGITS) (c :: w) = forallb digit_char (c :: w)).
  { clear H. induction Ha as [|? ? Hc Ha IH]; cbn [forallb]; [done|]. by rewrite IH, digit_charset. }
  rewrite E. apply eq_true_iff_eq. rewrite bool_decide_eq_true, forallb_forall, Forall_forall.
  split; [intros Hf; split; [done|]|intros [_ Hf]]; intros x Hx; apply Hf; by apply list_elem_of_In.
Qed.

Definition inside (e : nat) (loc : ptrlen) : Prop := (ptrlen_end loc <= e)%nat.

Lemma startend_ok a b : (a <= b)%nat -> make_ptrlen_startend a b = Ok (make_ptrlen a (b - a)).
Proof. intros H. unfold make_ptrlen_startend. by rewrite c_assert_true by by apply bool_decide_eq_true. Qed.

Definition port_outcome (e : nat) (w : list Z) (r : string * ptrlen + Z * Z) : Prop :=
  match r with
  | inl (_, loc) => inside e loc /\ forall lo hi, ~ port_tail w lo hi
  | inr (lo, hi) => port_tail w lo hi
  end.

(** A range whose two halves are numbers. *)
Lemma no_port_range d1 d2 lo hi :
  decimal d1 lo -> decimal d2 hi -> ~ lo <= hi <= 65535 ->
  forall lo' hi', ~ port_tail (d1 ++ 45 :: d2) lo' hi'.
Proof.
  intros H1 H2 Hr lo' hi'. inversion 1 as [ds v Hd _ E|d1' d2' l h H1' H2' Hlh E]; subst.
  - destruct Hd as (_ & Hd & _). apply digits_no_minus in Hd. destruct Hd.
    apply elem_of_app. right. left.
  - apply split_unique in E as [-> ->]; [|by apply digits_no_minus, H1'|by apply digits_no_minus, H1].
    apply Hr. by rewrite (decimal_fun _ _ _ H1 H1'), (decimal_fun _ _ _ H2 H2').
Qed.

Lemma not_digits_tail w lo hi : 45 ∉ w -> ~ (w <> [] /\ all digit_char w) -> ~ port_tail w lo hi.
Proof.
  intros Hm Hn. inversion 1 as [ds v (? & ? & _) _|]; subst; [tauto|].
  apply Hm, elem_of_app. right. left.
Qed.

Lemma not_digits_range d1 d2 lo hi :
  45 ∉ d1 -> ~ ((d1 <> [] /\ all digit_char d1) /\ (d2 <> [] /\ all digit_char d2)) ->
  ~ port_tail (d1 ++ 45 :: d2) lo hi.
Proof.
  intros Hm Hn. inversion 1 as [ds v (_ & Hd & _) _ E|d1' d2' l h (? & ? & _) (? & ? & _) _ E]; subst.
  - apply digits_no_minus in Hd. apply Hd, elem_of_app. right. left.
  - apply split_unique in E as [-> ->]; [tauto|by apply digits_no_minus|done].
Qed.

Lemma parse_port_range_ok e toktext d1 d2 p :
  let w := d1 ++ 45 :: d2 in
  holds_at mem p w -> all is_atom_char w -> inside e toktext -> (p + length w <= e)%nat -> 45 ∉ d1 ->
  exists r, parse_port_range mem toktext (make_ptrlen p (length w)) (p + length d1) = Ok r /\
    port_outcome e w r.
Proof.
  intros w H Ha Ht He Hm. subst w. unfold parse_port_range, ptrlen_end. cbn [pl_ptr pl_len].
  rewrite length_app in *. cbn [length] in *. rewrite !startend_ok by lia. cbn [res_bind].
  replace (p + length d1 - p)%nat with (length d1) by lia.
  replace (p + (length d1 + S (length d2)) - (p + length d1 + 1))%nat with (length d2) by lia.
  apply holds_at_app in H as [H1 H2]. apply holds_at_cons in H2 as [_ H2].
  rewrite <-Nat.add_1_r in H2.
  apply Forall_app in Ha as [Ha1 Ha2]. apply Forall_cons in Ha2 as [_ Ha2].
  rewrite (all_digits_ok d1) by done. cbn [res_bind].
  pose proof (not_digits_range d1 d2) as Hno.
  case_bool_decide as Hd1; cbn [res_bind]; [|eexists; split; [done|]; split; [done|naive_solver]].
  rewrite (all_digits_ok d2) by done. cbn [res_bind].
  case_bool_decide as Hd2; [|eexists; split; [done|]; split; [done|naive_solver]].
  assert (D1 : decimal d1 (foldl dec_step 0 d1)) by (split_and!; tauto).
  assert (D2 : decimal d2 (foldl dec_step 0 d2)) by (split_and!; tauto).
  rewrite (ptrlen_to_port_number_ok _ _ _ H1 D1). cbn [res_bind].
  set (lo := foldl dec_step 0 d1) in *. set (hi := foldl dec_step 0 d2) in *.
  pose proof (no_port_range _ _ _ _ D1 D2) as Hbad. unfold inside, ptrlen_end.
  destruct (Z.leb_spec 65536 (Z.min lo 65536)).
  { eexists. split; [done|]. split; [unfold inside, ptrlen_end; cbn; lia|]. apply Hbad. lia. }
  rewrite (ptrlen_to_port_number_ok _ _ _ H2 D2). cbn [res_bind].
  destruct (Z.leb_spec 65536 (Z.min hi 65536)).
  { eexists. split; [done|]. split; [unfold inside, ptrlen_end; cbn; lia|]. apply Hbad. lia. }
  rewrite !Z.min_l by lia. destruct (Z.ltb_spec hi lo).
  - rewrite startend_ok by (cbn; lia). eexists. split; [done|].
    split; [unfold inside, ptrlen_end; cbn; lia|]. apply Hbad. lia.
  - eexists. split; [done|]. cbn. apply port_range; [done|done|lia].
Qed.

Lemma parse_port_ok e toktext w p :
  holds_at mem p w -> all is_atom_char w -> inside e toktext -> (p + length w <= e)%nat ->
  exists r, parse_port mem toktext (make_ptrlen p (length w)) = Ok r /\ port_outcome e w r.
Proof.
  intros H Ha Ht He. unfold parse_port. rewrite all_digits_ok by done. cbn [res_bind].
  case_bool_decide as Hd.
  - assert (D : decimal w (foldl dec_step 0 w)) by (split_and!; tauto).
    rewrite (ptrlen_to_port_number_ok _ _ _ H D). cbn [res_bind].
    set (v := foldl dec_step 0 w) in *. destruct (Z.leb_spec 65536 (Z.min v 65536)).
    + eexists. split; [done|]. split; [done|]. intros lo hi Hp.
      inversion Hp as [ds v' Hv Hle|d1 d2 l h]; subst.
      * rewrite <-(decimal_fun _ _ _ D Hv) in Hle. lia.
      * destruct Hd as [_ Hd]. apply digits_no_minus in Hd. apply Hd, elem_of_app. right. left.
    + eexists. split; [done|]. cbn. rewrite Z.min_l by lia. apply port_single; [done|lia].
  - cbn [pl_ptr pl_len]. rewrite (holds_at_read _ _ _ H). cbn [res_bind].
    destruct (memchr w 45) as [off|] eqn:Em.
    + apply memchr_some in Em as (d1 & d2 & -> & <- & Hm). by apply parse_port_range_ok.
    + eexists. split; [done|]. split; [done|]. intros lo hi.
      apply not_digits_tail; [by apply memchr_none|done].
Qed.

End ports.
