(* ===== verification/CertExprSpec.v ===== *)
(** * The grammar of certificate expressions, and that the parser decides it

    An atom of the grammar is a parenthesised expression, a negated atom, a host
    wildcard or a port range; an expression is an atom, or two or more atoms joined
    by [&&] only or by [||] only.  The relations give the node of the parse, with the
    text it came from. *)

From Stdlib Require Import String.
From S2P Require Import Prelude Bufchain Marshal Strbuf Wildcard Ptrlen CertExpr CertExprLex.
Local Open Scope cmodel_scope.
Local Open Scope Z_scope.

Notation span a b := (make_ptrlen a (b - a)).

Section grammar.
  Variable mem : list Z.

(** The characters of a token. *)
Definition text_is (t : ptrlen) (w : list Z) : Prop :=
  holds_at mem (pl_ptr t) w /\ pl_len t = length w.

Lemma text_is_fun t w w' : text_is t w -> text_is t w' -> w = w'.
Proof. intros [H E] [H' E']. eapply holds_at_fun; [done|done|congruence]. Qed.

Inductive atom_g : list lexeme -> ExprNode -> Prop :=
| g_paren o us en c :
    expr_g us en ->
    atom_g ((TOK_LPAR, o) :: us ++ [(TOK_RPAR, c)]) (set_text en (span (pl_ptr o) (ptrlen_end c)))
| g_not n us en :
    atom_g us en ->
    atom_g ((TOK_NOT, n) :: us) (OP_NOT (span (pl_ptr n) (ptrlen_end (en_text en))) en)
| g_host t w :
    text_is t w -> 58 ∉ w -> 47 ∉ w ->
    atom_g [(TOK_ATOM, t)] (OP_HOSTNAME_WC t (w ++ [0]))
| g_port t w lo hi :
    text_is t (port_prefix ++ w) -> port_tail w lo hi ->
    atom_g [(TOK_ATOM, t)] (OP_PORT_RANGE t lo hi)
with expr_g : list lexeme -> ExprNode -> Prop :=
| g_atom us en : atom_g us en -> expr_g us en
| g_chain op t us en vs ens x :
    op = TOK_AND \/ op = TOK_OR -> atom_g us en -> chain_g op vs (ens ++ [x]) ->
    expr_g (us ++ (op, t) :: vs)
      (exprnode_nary op (span (pl_ptr (en_text en)) (ptrlen_end (en_text x))) (en :: ens ++ [x]))
with chain_g : Token -> list lexeme -> list ExprNode -> Prop :=
| chain_one op us en : atom_g us en -> chain_g op us [en]
| chain_more op t us en vs ens :
    atom_g us en -> chain_g op vs ens -> chain_g op (us ++ (op, t) :: vs) (en :: ens).

Scheme atom_g_mut := Induction for atom_g Sort Prop
with expr_g_mut := Induction for expr_g Sort Prop
with chain_g_mut := Induction for chain_g Sort Prop.
Combined Scheme grammar_mut from atom_g_mut, expr_g_mut, chain_g_mut.

(** ** Where tokens and nodes are *)

(** The tokens follow one another from [p] on up to [e], and the text of an atom is
    made of the characters of atoms. *)
Fixpoint well_placed (e p : nat) (ts : list lexeme) : Prop :=
  match ts with
  | [] => (p <= e)%nat
  | (tok, t) :: ts =>
      (p <= pl_ptr t)%nat /\
      (tok = TOK_ATOM -> exists w, text_is t w /\ all is_atom_char w) /\
      well_placed e (ptrlen_end t) ts
  end.

Lemma well_placed_le e p ts : well_placed e p ts -> (p <= e)%nat.
Proof.
  revert p. induction ts as [|[tok t] ts IH]; intros p; cbn [well_placed]; [done|].
  intros (H & _ & Hts%IH). unfold ptrlen_end in Hts. lia.
Qed.

Lemma stream_well_placed p l ts :
  stream p l ts -> holds_at mem p l -> well_placed (p + length l) p ts.
Proof.
  induction 1 as [p l H|p l tt H|p l tok tt p' rest ts H Hs IH]; intros Hm; cbn [well_placed].
  - unfold ptrlen_end. cbn. split_and!; [lia|done|lia].
  - destruct H as [ws c rest ->]. unfold ptrlen_end. cbn. rewrite length_app. cbn.
    split_and!; [lia|done|lia].
  - pose proof (lex_lexeme mem _ _ _ _ _ _ Hm H) as [_ Hr]. specialize (IH Hr).
    destruct H as [ws o tok rest -> Hws Hin|ws a rest -> Hws Ha Hall Hst].
    + unfold ptrlen_end. cbn [pl_ptr pl_len]. split_and!; [lia| |].
      * intros ->. revert Hin. unfold operators. rewrite !elem_of_cons, elem_of_nil. naive_solver.
      * by rewrite !length_app, !Nat.add_assoc.
    + unfold ptrlen_end. cbn [pl_ptr pl_len]. split_and!; [lia| |].
      * intros _. exists a. split; [split; [|done]|done].
        apply holds_at_app in Hm as [_ Hm]. by apply holds_at_app in Hm as [Hm _].
      * by rewrite !length_app, !Nat.add_assoc.
Qed.

Definition placed (e p : nat) (en : ExprNode) (vs : list lexeme) : Prop :=
  (p <= pl_ptr (en_text en))%nat /\ well_placed e (ptrlen_end (en_text en)) vs.

Lemma en_text_set_text en t : en_text (set_text en t) = t.
Proof. by destruct en. Qed.

Lemma en_text_nary op t l : en_text (exprnode_nary op t l) = t.
Proof. unfold exprnode_nary. by destruct (decide _). Qed.

Lemma ptrlen_end_span a b : (a <= b)%nat -> ptrlen_end (span a b) = b.
Proof. unfold ptrlen_end. cbn. lia. Qed.

Lemma grammar_placed e :
  (forall us en, atom_g us en -> forall p vs, well_placed e p (us ++ vs) -> placed e p en vs) /\
  (forall us en, expr_g us en -> forall p vs, well_placed e p (us ++ vs) -> placed e p en vs) /\
  (forall op us ens, chain_g op us ens -> forall p vs, well_placed e p (us ++ vs) ->
     exists ens' x, ens = ens' ++ [x] /\ placed e p x vs).
Proof.
  apply grammar_mut; unfold placed.
  - intros o us en c _ IH p vs. cbn [app well_placed]. rewrite <-app_assoc.
    intros (Hp & _ & H%IH). destruct H as [H1 H]. cbn [app well_placed] in H.
    destruct H as (H2 & _ & H). rewrite en_text_set_text.
    unfold ptrlen_end in *. cbn [pl_ptr pl_len]. split; [done|].
    by replace (pl_ptr o + (pl_ptr c + pl_len c - pl_ptr o))%nat with (pl_ptr c + pl_len c)%nat by lia.
  - intros n us en _ IH p vs. cbn [app well_placed]. intros (Hp & _ & H%IH). destruct H as [H1 H].
    cbn [en_text]. split; [done|]. rewrite ptrlen_end_span; [done|]. unfold ptrlen_end in *. lia.
  - intros t w _ _ _ p vs. cbn [app well_placed en_text]. intros (Hp & _ & H). done.
  - intros t w lo hi _ _ p vs. cbn [app well_placed en_text]. intros (Hp & _ & H). done.
  - done.
  - intros op t us en vs ens x _ _ IH _ IHc p vs'. rewrite <-app_assoc. intros H%IH.
    destruct H as [Hp H]. cbn [app well_placed] in H. destruct H as (H1 & _ & H%IHc).
    destruct H as (ens' & x' & E & H2 & H). apply app_inj_2 in E as [_ E]; [|done].
    injection E as <-. rewrite en_text_nary. split; [done|].
    rewrite ptrlen_end_span; [done|]. unfold ptrlen_end in *. lia.
  - intros op us en _ IH p vs H. exists [], en. split; [done|]. by apply IH.
  - intros op t us en vs ens _ IH _ IHc p vs'. rewrite <-app_assoc. intros H%IH.
    destruct H as [Hp H]. cbn [app well_placed] in H. destruct H as (H1 & _ & H%IHc).
    destruct H as (ens' & x & -> & H2 & H). exists (en :: ens'), x. split; [done|].
    split; [|done]. unfold ptrlen_end in *. lia.
Qed.

Lemma grammar_nonempty :
  (forall us en, atom_g us en -> us <> []) /\
  (forall us en, expr_g us en -> us <> []) /\
  (forall op us ens, chain_g op us ens -> us <> []).
Proof.
  apply grammar_mut; intros; try done; by destruct us.
Qed.

(** ** States of the parser *)

Definition err_ok (e : nat) (ps : ParserState) : Prop :=
  forall msg loc, ps_err ps = Some (msg, loc) -> inside e loc.

Definition stop (tok : Token) : Prop := tok = TOK_END \/ tok = TOK_ERROR.

(** The state is at the first of the tokens [ts]. *)
Definition ps_at (e : nat) (ps : ParserState) (ts : list lexeme) : Prop :=
  err_ok e ps /\
  match ts with
  | [] => False
  | (tok, t) :: ts =>
      ps_tok ps = tok /\ ps_toktext ps = t /\
      (stop tok /\ ts = [] \/
       exists p l, ps_currtext ps = make_ptrlen p (length l) /\ holds_at mem p l /\
         (p + length l = e)%nat /\ stream p l ts)
  end.

Definition failed (e : nat) (ps : ParserState) : Prop :=
  exists msg loc, ps_err ps = Some (msg, loc) /\ inside e loc.

Lemma error_failed e ps msg loc : err_ok e ps -> inside e loc -> failed e (error ps msg loc).
Proof.
  intros H Hl. unfold failed, error. destruct (ps_err ps) as [[m l]|] eqn:E; [|by eauto].
  exists m, l. split; [done|]. by eapply H.
Qed.

Lemma stream_ps_at e p l ts ps :
  ps_currtext ps = make_ptrlen p (length l) -> holds_at mem p l -> (p + length l = e)%nat ->
  stream p l ts -> err_ok e ps ->
  exists ps', advance mem ps = Ok ps' /\ ps_at e ps' ts.
Proof.
  intros Ec H He Hs Herr. unfold advance. rewrite Ec.
  destruct Hs as [p l Hl|p l tt Hb|p l tok tt p' rest ts Hl Hs].
  - rewrite lex_end by done. cbn [res_bind]. destruct (decide _); [done|].
    eexists. split; [done|]. split; [exact Herr|]. cbn. split_and!; [done|done|left]. unfold stop. tauto.
  - destruct (lex_bad mem _ _ _ H Hb) as (text & msg & ->). cbn [res_bind].
    destruct (decide _); [|done]. eexists. split; [done|].
    assert (Hi : inside e tt).
    { destruct Hb as [ws c rest ->]. unfold inside, ptrlen_end. cbn. rewrite length_app in He. cbn in He. lia. }
    unfold error. cbn [ps_err]. destruct (ps_err ps) as [[m lo]|] eqn:E.
    + split; [intros ? ?; cbn; rewrite <-E; apply Herr|]. cbn. split_and!; [done|done|left]. unfold stop. tauto.
    + split; [intros ? ?; cbn; by intros [= _ <-]|]. cbn. split_and!; [done|done|left]. unfold stop. tauto.
  - pose proof (lexeme_at_tok _ _ _ _ _ _ Hl) as [Hne1 Hne2].
    assert (He' : (p' + length rest = e)%nat).
    { destruct Hl as [ws o tok rest ->|ws a rest ->]; rewrite !length_app in He; lia. }
    destruct (lex_lexeme mem _ _ _ _ _ _ H Hl) as [-> Hr]. cbn [res_bind].
    destruct (decide _); [done|]. eexists. split; [done|]. split; [exact Herr|].
    cbn. split_and!; [done|done|right]. eauto 6.
Qed.

Lemma advance_next e ps tok t ts :
  ps_at e ps ((tok, t) :: ts) -> ~ stop tok -> exists ps', advance mem ps = Ok ps' /\ ps_at e ps' ts.
Proof.
  intros (Herr & _ & _ & [[? _]|(p & l & Ec & H & He & Hs)]) Hn; [done|].
  by eapply stream_ps_at.
Qed.

End grammar.
