(* ===== verification/CertExprParse.v ===== *)
(** * The parser of certificate expressions decides its grammar *)

From Stdlib Require Import String.
From S2P Require Import Prelude Bufchain Marshal Strbuf Wildcard Ptrlen CertExpr CertExprLex CertExprSpec.
Local Open Scope cmodel_scope.
Local Open Scope Z_scope.

Section parser.
  Variable mem : list Z.
  Variable e : nat.

(** ** Tokens that are atoms *)

Lemma hostname_wc_ok p w : holds_at mem p w -> all is_atom_char w ->
  atom_is_hostname_wc mem (make_ptrlen p (length w)) = Ok (bool_decide (58 ∉ w /\ 47 ∉ w)).
Proof.
  intros H Ha. unfold atom_is_hostname_wc, ptrlen_contains. cbn [pl_ptr pl_len].
  rewrite contains_ok by done. cbn [res_bind]. f_equal. apply eq_true_iff_eq.
  rewrite negb_true_iff, bool_decide_eq_true, <-not_true_iff_false, existsb_exists.
  split.
  - intros Hn. split; intros Hin; apply Hn; (eexists; split; [by apply list_elem_of_In|done]).
  - intros [H1 H2] (c & Hin%list_elem_of_In & Hc).
    pose proof (proj1 (Forall_forall _ _) Ha c Hin) as Hca. cbn beta in Hca.
    unfold in_charset in Hc. rewrite orb_true_iff, bool_decide_eq_true, Z.eqb_eq in Hc.
    rewrite !elem_of_cons, elem_of_nil in Hc. destruct Hc as [[->|[->|[]]]| ->]; done.
Qed.

Lemma prefix_has_colon w : 58 ∈ port_prefix ++ w.
Proof. apply elem_of_app. left. unfold port_prefix. rewrite !elem_of_cons. tauto. Qed.

(** The reading of an atom, if it has one, is unique. *)
Lemma atom_token_fun t en en' :
  atom_g mem [(TOK_ATOM, t)] en -> atom_g mem [(TOK_ATOM, t)] en' -> en = en'.
Proof.
  inversion 1 as [| |? w H1 H2 H3|? w lo hi H1 H2]; subst;
    inversion 1 as [| |? w' H1' H2' H3'|? w' lo' hi' H1' H2']; subst;
    pose proof (text_is_fun _ _ _ _ H1 H1') as E.
  - by subst.
  - subst. by destruct H2; apply prefix_has_colon.
  - subst. by destruct H2'; apply prefix_has_colon.
  - apply app_inv_head in E as ->. by destruct (port_tail_fun _ _ _ _ _ H2 H2') as [-> ->].
Qed.

(** What the parser returns, for the tokens [us] that a relation [G] describes. *)
Definition parse_outcome (G : list lexeme -> ExprNode -> Prop) (ts : list lexeme)
    (r : ParserState * option ExprNode) : Prop :=
  match r.2 with
  | Some en => exists us vs, ts = us ++ vs /\ G us en /\ ps_at mem e r.1 vs
  | None => failed e r.1
  end.

Lemma parse_atom_token fuel ps t w ts :
  ps_at mem e ps ((TOK_ATOM, t) :: ts) -> text_is mem t w -> all is_atom_char w -> inside e t ->
  exists r, parse_atom mem (S fuel) ps = Ok r /\ parse_outcome (atom_g mem) ((TOK_ATOM, t) :: ts) r /\
    (r.2 = None -> forall en, ~ atom_g mem [(TOK_ATOM, t)] en).
Proof.
  intros Hps Htw Ha Hi. pose proof Hps as (Herr & Etok & Et & _). cbn [parse_atom].
  pose proof Htw as [H El]. destruct t as [p n]. cbn [pl_ptr pl_len] in H, El. subst n.
  rewrite Etok, Et, hostname_wc_ok by done. cbn [res_bind].
  destruct (advance_next mem e ps _ _ _ Hps) as (ps' & Hadv & Hps'); [by intros [|]|].
  case_bool_decide as Hh.
  { rewrite mkstr_ok by done. cbn [res_bind]. rewrite Hadv. eexists. split; [done|]. split; [|done].
    eexists [_], ts. destruct Hh. split_and!; [done|by apply g_host|done]. }
  destruct (decide (take (length port_prefix) w = port_prefix)) as [E|E].
  - assert (exists w', w = port_prefix ++ w') as [w' ->].
    { exists (drop (length port_prefix) w). by rewrite <-E at 1; rewrite take_drop. }
    clear E.
    rewrite startswith_yes by done. cbn [res_bind].
    apply Forall_app in Ha as [_ Ha]. pose proof (holds_at_app mem p port_prefix w') as Happ.
    destruct (parse_port_ok mem e (make_ptrlen p (length (port_prefix ++ w'))) w' (p + length port_prefix))
      as ([[msg loc]|[lo hi]] & -> & Ho); [tauto|done|done| |cbn [res_bind]..].
    { unfold inside, ptrlen_end in Hi. cbn [pl_ptr pl_len] in Hi. rewrite length_app in Hi. lia. }
    + eexists. split; [done|]. destruct Ho as [Hl Hno]. split; [by apply error_failed|].
      intros _ en. inversion 1 as [| |? w1 H1 H2 H3|? w1 lo hi H1 H2]; subst;
        pose proof (text_is_fun _ _ _ _ H1 Htw) as E.
      * subst. by destruct H2; apply prefix_has_colon.
      * apply app_inv_head in E as ->. by eapply Hno.
    + rewrite Hadv. eexists. split; [done|]. split; [|done].
      eexists [_], ts. split_and!; [done|by eapply g_port|done].
  - rewrite startswith_no; [|done|].
    2: { intros l' ->. by rewrite take_app_length in E. }
    cbn [res_bind]. unfold expected. eexists. split; [done|].
    split; [apply error_failed; [done|by rewrite Et]|].
    intros _ en. inversion 1 as [| |? w1 H1 H2 H3|? w1 lo hi H1 H2]; subst;
      pose proof (text_is_fun _ _ _ _ H1 Htw) as <-; [tauto|].
    by rewrite take_app_length in E.
Qed.

(** ** Every run returns, and what it returns is in the grammar *)

(** Loops are at an operator; the node so far begins at [a]. *)
Definition loop_g (a : nat) (subs : list ExprNode) (op : Token) (us : list lexeme) (en : ExprNode) : Prop :=
  exists t us' ens x, us = (op, t) :: us' /\ chain_g mem op us' (ens ++ [x]) /\
    en = exprnode_nary op (span a (ptrlen_end (en_text x))) (subs ++ ens ++ [x]).

Definition atom_sound (fuel : nat) : Prop := forall ps p ts,
  ps_at mem e ps ts -> well_placed mem e p ts -> (3 * length ts + 1 <= fuel)%nat ->
  exists r, parse_atom mem fuel ps = Ok r /\ parse_outcome (atom_g mem) ts r.

Definition expr_sound (fuel : nat) : Prop := forall ps p ts,
  ps_at mem e ps ts -> well_placed mem e p ts -> (3 * length ts + 2 <= fuel)%nat ->
  exists r, parse_expr mem fuel ps = Ok r /\ parse_outcome (expr_g mem) ts r.

Definition loop_sound (fuel : nat) : Prop := forall op text subs ps p ts,
  op = TOK_AND \/ op = TOK_OR -> ps_at mem e ps ts -> ps_tok ps = op -> well_placed mem e p ts ->
  (pl_ptr text <= p)%nat -> (3 * length ts <= fuel)%nat ->
  exists r, parse_expr_loop mem fuel op text subs ps = Ok r /\
    parse_outcome (loop_g (pl_ptr text) subs op) ts r.

Lemma ps_at_cons ps ts : ps_at mem e ps ts -> exists t ts', ts = (ps_tok ps, t) :: ts' /\ ps_toktext ps = t.
Proof. intros [_ H]. destruct ts as [|[tok t] ts]; [done|]. destruct H as (<- & <- & _). eauto. Qed.

Lemma joins_operator tok : ~ (tok <> TOK_AND /\ tok <> TOK_OR) -> tok = TOK_AND \/ tok = TOK_OR.
Proof. intros H. destruct tok; try (by left); try (by right); by destruct H. Qed.

Lemma atom_sound_step fuel : atom_sound fuel -> expr_sound fuel -> atom_sound (S fuel).
Proof.
  intros IHa IHe ps p ts Hps Hw Hf.
  destruct (ps_at_cons _ _ Hps) as (t & ts' & -> & Et). cbn [length] in Hf.
  pose proof Hw as (Hp & Hatom & Hw'). cbn [fst snd] in *.
  assert (Hi : inside e t) by exact (well_placed_le _ _ _ _ Hw').
  pose proof Hps as [Herr _].
  assert (Hexp : exists r, expected ps = Ok r /\ parse_outcome (atom_g mem) ((ps_tok ps, t) :: ts') r).
  { eexists. split; [done|]. apply error_failed; [done|by rewrite Et]. }
  destruct (ps_tok ps) eqn:Etok.
  6: { destruct (Hatom eq_refl) as (w & Htw & Ha).
       destruct (parse_atom_token fuel ps t w ts') as (r & -> & Ho & _); eauto. }
  all: cbn [parse_atom]; rewrite Etok; try exact Hexp.
  - destruct (advance_next mem e ps _ _ _ Hps) as (ps1 & -> & Hps1); [by intros [|]|]. cbn [res_bind].
    destruct (IHe ps1 _ ts' Hps1 Hw') as ([ps2 [en|]] & -> & Ho); [lia| |by eexists].
    destruct Ho as (us & vs & -> & Hg & Hps2). cbn [res_bind fst] in *.
    destruct (proj1 (proj2 (grammar_placed mem e)) _ _ Hg _ _ Hw') as [Hpl Hw2].
    destruct (ps_at_cons _ _ Hps2) as (c & vs' & -> & Ec).
    destruct (decide _) as [Hn|Hn].
    + eexists. split; [done|]. apply error_failed; [apply Hps2|]. exact (well_placed_le _ _ _ _ Hw2).
    + apply dec_stable in Hn. rewrite Hn in *.
      destruct (advance_next mem e ps2 _ _ _ Hps2) as (ps3 & -> & Hps3); [by intros [|]|]. cbn [res_bind].
      destruct Hw2 as (H2 & _). rewrite Et, Ec. unfold ptrlen_end in H2.
      rewrite startend_ok by (unfold ptrlen_end in *; lia). eexists. split; [done|].
      eexists (_ :: us ++ [_]), vs'. split_and!; [|by apply g_paren|done].
      cbn. by rewrite <-app_assoc.
  - destruct (advance_next mem e ps _ _ _ Hps) as (ps1 & -> & Hps1); [by intros [|]|]. cbn [res_bind].
    destruct (IHa ps1 _ ts' Hps1 Hw') as ([ps2 [en|]] & -> & Ho); [lia| |by eexists].
    destruct Ho as (us & vs & -> & Hg & Hps2). cbn [res_bind fst] in *.
    destruct (proj1 (grammar_placed mem e) _ _ Hg _ _ Hw') as [Hpl Hw2].
    rewrite Et, startend_ok by (unfold ptrlen_end in *; lia). eexists. split; [done|].
    eexists (_ :: us), vs. split_and!; [done|by apply g_not|done].
Qed.

Lemma expr_sound_step fuel : atom_sound fuel -> loop_sound fuel -> expr_sound (S fuel).
Proof.
  intros IHa IHl ps p ts Hps Hw Hf. cbn [parse_expr].
  destruct (IHa ps p ts Hps Hw) as ([ps1 [en|]] & -> & Ho); [lia| |by eexists].
  destruct Ho as (us & vs & -> & Hg & Hps1). cbn [res_bind fst snd] in *.
  destruct (proj1 (grammar_placed mem e) _ _ Hg _ _ Hw) as [Hpl Hw1].
  pose proof (proj1 (grammar_nonempty mem) _ _ Hg) as Hne.
  destruct (decide _) as [Hn|Hn].
  { eexists. split; [done|]. eexists us, vs. split_and!; [done|by apply g_atom|done]. }
  assert (Hop : ps_tok ps1 = TOK_AND \/ ps_tok ps1 = TOK_OR) by by apply joins_operator.
  rewrite length_app in Hf. assert (length us <> 0%nat) by by destruct us.
  destruct (IHl _ (en_text en) [en] ps1 (ptrlen_end (en_text en)) vs Hop Hps1 eq_refl Hw1)
    as ([ps2 [en2|]] & -> & Ho); [unfold ptrlen_end; lia|lia| |by eexists].
  destruct Ho as (us2 & vs2 & -> & (t & us' & ens & x & -> & Hc & ->) & Hps2).
  eexists. split; [done|]. eexists (us ++ (_, t) :: us'), vs2.
  split_and!; [by rewrite <-app_assoc|by apply g_chain|done].
Qed.

Lemma loop_sound_step fuel : atom_sound fuel -> loop_sound fuel -> loop_sound (S fuel).
Proof.
  intros IHa IHl op text subs ps p ts Hop Hps Eop Hw Hp Hf. cbn [parse_expr_loop].
  destruct (ps_at_cons _ _ Hps) as (t & ts' & -> & Et). rewrite Eop in *. cbn [length] in Hf.
  destruct Hw as (Hpt & _ & Hw).
  destruct (advance_next mem e ps _ _ _ Hps) as (ps1 & -> & Hps1);
    [destruct Hop as [-> | ->]; by intros [|]|]. cbn [res_bind].
  destruct (IHa ps1 _ ts' Hps1 Hw) as ([ps2 [en|]] & -> & Ho); [lia| |by eexists].
  destruct Ho as (us & vs & -> & Hg & Hps2). cbn [res_bind fst snd] in *.
  destruct (proj1 (grammar_placed mem e) _ _ Hg _ _ Hw) as [Hpl Hw2].
  pose proof (proj1 (grammar_nonempty mem) _ _ Hg) as Hne.
  rewrite startend_ok by (unfold ptrlen_end in *; lia). cbn [res_bind].
  set (text' := span _ _). assert (Etext : pl_ptr text' = pl_ptr text) by done.
  destruct (decide _) as [Hn|Hn].
  { eexists. split; [done|]. eexists (_ :: us), vs. split_and!; [done| |done].
    exists t, us, [], en. split_and!; [done|by apply chain_one|done]. }
  assert (Hop2 : ps_tok ps2 = TOK_AND \/ ps_tok ps2 = TOK_OR) by by apply joins_operator.
  destruct (decide _) as [Hne2|Heq].
  { eexists. split; [done|]. apply error_failed; [apply Hps2|]. exact (well_placed_le _ _ _ _ Hw2). }
  apply dec_stable in Heq. rewrite length_app in Hf. assert (length us <> 0%nat) by by destruct us.
  destruct (IHl op text' (subs ++ [en]) ps2 (ptrlen_end (en_text en)) vs Hop Hps2 Heq Hw2)
    as ([ps3 [en2|]] & -> & Ho); [unfold ptrlen_end in *; cbn; lia|lia| |by eexists].
  destruct Ho as (us2 & vs2 & -> & (t2 & us' & ens & x & -> & Hc & ->) & Hps3).
  eexists. split; [done|]. eexists ((op, t) :: us ++ (op, t2) :: us'), vs2.
  split_and!; [cbn; by rewrite <-app_assoc| |done].
  exists t, (us ++ (op, t2) :: us'), (en :: ens), x. split_and!; [done|by apply chain_more|].
  by rewrite <-!app_assoc.
Qed.

Lemma parser_sound fuel : atom_sound fuel /\ expr_sound fuel /\ loop_sound fuel.
Proof.
  induction fuel as [|fuel (IHa & IHe & IHl)].
  - split_and!; intros until ts; intros; try lia.
    destruct (ps_at_cons _ _ H0) as (? & ? & -> & _). cbn in *. lia.
  - split_and!; [by apply atom_sound_step|by apply expr_sound_step|by apply loop_sound_step].
Qed.

(** ** Everything in the grammar is parsed *)

(** The next token does not go on with a chain. *)
Definition chain_ends (vs : list lexeme) : Prop :=
  match vs with (tok, _) :: _ => tok <> TOK_AND /\ tok <> TOK_OR | [] => True end.

Definition atom_complete (us : list lexeme) (en : ExprNode) : Prop := forall vs ps p fuel,
  ps_at mem e ps (us ++ vs) -> well_placed mem e p (us ++ vs) ->
  (3 * length (us ++ vs) + 1 <= fuel)%nat ->
  exists ps', parse_atom mem fuel ps = Ok (ps', Some en) /\ ps_at mem e ps' vs.

Definition expr_complete (us : list lexeme) (en : ExprNode) : Prop := forall vs ps p fuel,
  ps_at mem e ps (us ++ vs) -> well_placed mem e p (us ++ vs) -> chain_ends vs ->
  (3 * length (us ++ vs) + 2 <= fuel)%nat ->
  exists ps', parse_expr mem fuel ps = Ok (ps', Some en) /\ ps_at mem e ps' vs.

Definition chain_complete (op : Token) (us : list lexeme) (ens : list ExprNode) : Prop :=
  forall t vs ps p fuel text subs ens' x,
  ens = ens' ++ [x] -> op = TOK_AND \/ op = TOK_OR ->
  ps_at mem e ps ((op, t) :: us ++ vs) -> well_placed mem e p ((op, t) :: us ++ vs) ->
  (pl_ptr text <= p)%nat -> chain_ends vs -> (3 * S (length (us ++ vs)) <= fuel)%nat ->
  exists ps', parse_expr_loop mem fuel op text subs ps =
      Ok (ps', Some (exprnode_nary op (span (pl_ptr text) (ptrlen_end (en_text x))) (subs ++ ens))) /\
    ps_at mem e ps' vs.

Lemma ps_at_tok ps tok t ts : ps_at mem e ps ((tok, t) :: ts) -> ps_tok ps = tok /\ ps_toktext ps = t.
Proof. by intros (_ & -> & -> & _). Qed.

Lemma chain_ends_at ps vs : chain_ends vs -> ps_at mem e ps vs -> ps_tok ps <> TOK_AND /\ ps_tok ps <> TOK_OR.
Proof. intros Hc H. destruct (ps_at_cons _ _ H) as (t & ts & -> & _). exact Hc. Qed.

Lemma paren_complete o us en c : expr_g mem us en -> expr_complete us en ->
  atom_complete ((TOK_LPAR, o) :: us ++ [(TOK_RPAR, c)])
    (set_text en (span (pl_ptr o) (ptrlen_end c))).
Proof.
  intros Hg IH vs ps p fuel. cbn [app]. rewrite <-app_assoc. cbn [app length].
  intros Hps Hw Hf. destruct fuel as [|fuel]; [lia|]. cbn [parse_atom].
  destruct (ps_at_tok _ _ _ _ Hps) as [-> Et]. destruct Hw as (Hp & _ & Hw).
  destruct (advance_next mem e ps _ _ _ Hps) as (ps1 & -> & Hps1); [by intros [|]|]. cbn [res_bind].
  destruct (IH _ ps1 _ fuel Hps1 Hw) as (ps2 & -> & Hps2); [done|lia|]. cbn [res_bind].
  destruct (ps_at_tok _ _ _ _ Hps2) as [-> Ec]. destruct (decide _) as [Hn|_]; [done|].
  destruct (advance_next mem e ps2 _ _ _ Hps2) as (ps3 & -> & Hps3); [by intros [|]|]. cbn [res_bind].
  destruct (proj1 (proj2 (grammar_placed mem e)) _ _ Hg _ _ Hw) as [Hpl Hw2].
  destruct Hw2 as (H2 & _). rewrite Et, Ec, startend_ok by (unfold ptrlen_end in *; lia).
  eexists. by split.
Qed.

Lemma not_complete n us en : atom_g mem us en -> atom_complete us en ->
  atom_complete ((TOK_NOT, n) :: us) (OP_NOT (span (pl_ptr n) (ptrlen_end (en_text en))) en).
Proof.
  intros Hg IH vs ps p fuel. cbn [app length]. intros Hps Hw Hf.
  destruct fuel as [|fuel]; [lia|]. cbn [parse_atom].
  destruct (ps_at_tok _ _ _ _ Hps) as [-> Et]. destruct Hw as (Hp & _ & Hw).
  destruct (advance_next mem e ps _ _ _ Hps) as (ps1 & -> & Hps1); [by intros [|]|]. cbn [res_bind].
  destruct (IH _ ps1 _ fuel Hps1 Hw) as (ps2 & -> & Hps2); [lia|]. cbn [res_bind].
  destruct (proj1 (grammar_placed mem e) _ _ Hg _ _ Hw) as [Hpl Hw2].
  rewrite Et, startend_ok by (unfold ptrlen_end in *; lia). eexists. by split.
Qed.

Lemma token_complete t en : atom_g mem [(TOK_ATOM, t)] en -> atom_complete [(TOK_ATOM, t)] en.
Proof.
  intros Hg vs ps p fuel. cbn [app length]. intros Hps Hw Hf. destruct fuel as [|fuel]; [lia|].
  destruct Hw as (_ & Hatom & Hw). destruct (Hatom eq_refl) as (w & Htw & Ha).
  destruct (parse_atom_token fuel ps t w vs Hps Htw Ha) as ([ps' [en'|]] & -> & Ho & Hno).
  - exact (well_placed_le _ _ _ _ Hw).
  - destruct Ho as (us & vs' & E & Hg' & Hps'). cbn [fst snd] in *.
    assert (us = [(TOK_ATOM, t)] /\ vs' = vs) as [-> ->].
    { destruct us as [|u us]; [by destruct (proj1 (grammar_nonempty mem) _ _ Hg')|].
      injection E as <- E. inversion Hg'; subst; by split. }
    eexists. by rewrite (atom_token_fun _ _ _ Hg Hg').
  - by destruct (Hno eq_refl en).
Qed.

Lemma chain_expr_complete op t us en vs ens x :
  op = TOK_AND \/ op = TOK_OR -> atom_g mem us en -> atom_complete us en ->
  chain_complete op vs (ens ++ [x]) ->
  expr_complete (us ++ (op, t) :: vs)
    (exprnode_nary op (span (pl_ptr (en_text en)) (ptrlen_end (en_text x))) (en :: ens ++ [x])).
Proof.
  intros Hop Hg IH IHc vs' ps p fuel. rewrite <-app_assoc. cbn [app]. intros Hps Hw Hc Hf.
  destruct fuel as [|fuel]; [lia|]. cbn [parse_expr].
  destruct (IH _ ps p fuel Hps Hw) as (ps1 & -> & Hps1); [lia|]. cbn [res_bind].
  destruct (proj1 (grammar_placed mem e) _ _ Hg _ _ Hw) as [Hpl Hw2].
  destruct (ps_at_tok _ _ _ _ Hps1) as [-> _]. destruct (decide _); [naive_solver|].
  rewrite length_app in Hf. cbn [length] in Hf.
  by apply (IHc t vs' ps1 (ptrlen_end (en_text en)) fuel (en_text en) [en] ens x);
    [..|unfold ptrlen_end; lia| |lia].
Qed.

Lemma chain_more_complete op t us en vs ens :
  atom_g mem us en -> atom_complete us en -> chain_g mem op vs ens -> chain_complete op vs ens ->
  chain_complete op (us ++ (op, t) :: vs) (en :: ens).
Proof.
  intros Hg IH Hc IHc t' vs' ps p fuel text subs ens' x E Hop. rewrite <-app_assoc. cbn [app].
  intros Hps Hw Hp Hend Hf. destruct fuel as [|fuel]; [lia|]. cbn [parse_expr_loop].
  destruct Hw as (Hpt & _ & Hw).
  destruct (advance_next mem e ps _ _ _ Hps) as (ps1 & -> & Hps1);
    [destruct Hop as [-> | ->]; by intros [|]|]. cbn [res_bind].
  destruct (IH _ ps1 _ fuel Hps1 Hw) as (ps2 & -> & Hps2); [lia|]. cbn [res_bind].
  destruct (proj1 (grammar_placed mem e) _ _ Hg _ _ Hw) as [Hpl Hw2].
  rewrite startend_ok by (unfold ptrlen_end in *; lia). cbn [res_bind].
  destruct (ps_at_tok _ _ _ _ Hps2) as [-> _].
  destruct (decide _); [naive_solver|]. destruct (decide _); [done|].
  assert (exists ens2, ens = ens2 ++ [x]) as [ens2 Eens].
  { destruct ens' as [|y ens']; [|injection E as _ ->; eauto].
    injection E as _ ->. inversion Hc. }
  rewrite length_app in Hf. cbn [length] in Hf.
  destruct (IHc t vs' ps2 (ptrlen_end (en_text en)) fuel
              (span (pl_ptr text) (ptrlen_end (en_text en))) (subs ++ [en]) ens2 x)
    as (ps3 & -> & Hps3); [done|done|done|done|unfold ptrlen_end in *; cbn; lia|done|lia|].
  eexists. split; [|done]. by rewrite <-app_assoc.
Qed.

Lemma parser_complete :
  (forall us en, atom_g mem us en -> atom_complete us en) /\
  (forall us en, expr_g mem us en -> expr_complete us en) /\
  (forall op us ens, chain_g mem op us ens -> chain_complete op us ens).
Proof.
  apply grammar_mut; intros.
  - by apply paren_complete.
  - by apply not_complete.
  - apply token_complete. by apply g_host.
  - apply token_complete. by eapply g_port.
  - intros vs ps p fuel Hps Hw Hend Hf. destruct fuel as [|fuel]; [lia|]. cbn [parse_expr].
    destruct (H vs ps p fuel Hps Hw) as (ps1 & -> & Hps1); [lia|]. cbn [res_bind].
    destruct (decide _) as [_|Hn]; [eauto|]. by destruct Hn; eapply chain_ends_at.
  - by apply chain_expr_complete.
  - intros t vs ps p fuel text subs ens' x E Hop Hps Hw Hp Hend Hf.
    apply (app_inj_2 [] ens' [en] [x]) in E as [_ E]; [|done]. injection E as <-.
    destruct fuel as [|fuel]; [lia|]. cbn [parse_expr_loop]. destruct Hw as (Hpt & _ & Hw).
    destruct (advance_next mem e ps _ _ _ Hps) as (ps1 & -> & Hps1);
      [destruct Hop as [-> | ->]; by intros [|]|]. cbn [res_bind].
    destruct (H vs ps1 _ fuel Hps1 Hw) as (ps2 & -> & Hps2); [lia|]. cbn [res_bind].
    destruct (proj1 (grammar_placed mem e) us en ltac:(done) _ _ Hw) as [Hpl Hw2].
    rewrite startend_ok by (unfold ptrlen_end in *; lia). cbn [res_bind].
    destruct (decide _) as [_|Hn]; [eauto|]. by destruct Hn; eapply chain_ends_at.
  - by apply chain_more_complete.
Qed.

End parser.
