(* ===== verification/CertExprPolicy.v ===== *)
(** * What a certificate expression allows

    The meaning of an expression as a formula, with the meaning of wildcards as a
    parameter: [truth W port en].  The theorems put lexer, parser, evaluation and the
    matching of wildcards together: the function that decides whether a certification
    authority is trusted for a host decides the formula that the text denotes. *)

From Stdlib Require Import String.
From S2P Require Import Prelude Bufchain Marshal Strbuf Wildcard WildcardSpec Ptrlen CertExpr CertExprLex.
From S2P Require Import CertExprSpec CertExprParse.
Local Open Scope cmodel_scope.
Local Open Scope Z_scope.

(** ** Parsing a C string *)

Lemma parse_complete mem p l us en :
  holds_at mem p l -> lexes p l us -> expr_g mem us en ->
  parse mem (make_ptrlen p (length l)) = Ok (inr en).
Proof.
  intros H Hl%lexes_stream Hg. destruct Hl as [t Hs]. unfold parse.
  destruct (stream_ps_at mem (p + length l) p l _
              (PState (make_ptrlen p (length l)) TOK_END (make_ptrlen p (length l)) None)
              eq_refl H eq_refl Hs) as (ps & -> & Hps); [done|]. cbn [res_bind].
  pose proof (stream_well_placed mem _ _ _ Hs H) as Hw.
  pose proof (stream_length _ _ _ Hs) as Hlen.
  destruct (proj1 (proj2 (parser_complete mem (p + length l))) _ _ Hg [(TOK_END, t)] ps p
              (parse_fuel (make_ptrlen p (length l))) Hps Hw) as (ps' & -> & Hps').
  { by cbn. } { unfold parse_fuel. cbn [pl_len]. lia. }
  cbn [res_bind]. destruct (ps_at_tok _ _ _ _ _ _ Hps') as [-> _]. by destruct (decide _).
Qed.

Lemma parse_total mem p l : holds_at mem p l ->
  (exists us en, parse mem (make_ptrlen p (length l)) = Ok (inr en) /\ lexes p l us /\ expr_g mem us en) \/
  (exists msg loc, parse mem (make_ptrlen p (length l)) = Ok (inl (Some (msg, loc))) /\
     inside (p + length l) loc).
Proof.
  intros H. destruct (stream_exists l p) as (ts & Hs).
  pose proof (stream_length _ _ _ Hs) as Hlen. unfold parse.
  set (e := (p + length l)%nat).
  destruct (stream_ps_at mem e p l _
              (PState (make_ptrlen p (length l)) TOK_END (make_ptrlen p (length l)) None)
              eq_refl H eq_refl Hs) as (ps & -> & Hps); [done|]. cbn [res_bind].
  pose proof (stream_well_placed mem _ _ _ Hs H) as Hw.
  destruct (proj1 (proj2 (parser_sound mem e (parse_fuel (make_ptrlen p (length l))))) ps p ts Hps Hw)
    as ([ps' [en|]] & -> & Ho); [unfold parse_fuel; cbn [pl_len]; lia| |].
  - destruct Ho as (us & vs & -> & Hg & Hps'). cbn [res_bind fst] in *.
    destruct (ps_at_cons _ _ _ _ Hps') as (t & vs' & -> & Et).
    destruct (proj1 (proj2 (grammar_placed mem e)) _ _ Hg _ _ Hw) as [_ (Hp' & _ & Hw')].
    apply well_placed_le in Hw'.
    destruct (decide _) as [Hn|Hn].
    + right. rewrite Et. unfold ptrlen_end in *. cbn [pl_ptr pl_len] in *.
      rewrite startend_ok by lia. cbn [res_bind].
      destruct (error_failed e ps' "unexpected text at end of expression"%string
                  (span (pl_ptr t) (p + length l)%nat)) as (msg & loc & -> & Hi);
        [apply Hps'|unfold inside, ptrlen_end; cbn; lia|eauto].
    + left. apply dec_stable in Hn. exists us, en. split; [done|]. split; [|done].
      rewrite Hn in Hs. rewrite (stream_end_last _ _ _ _ _ Hs) in Hs. apply lexes_stream. by exists t.
  - right. destruct Ho as (msg & loc & E & Hi). cbn [res_bind fst] in *. rewrite E. eauto.
Qed.

Lemma c_string_at (l beyond : list Z) : holds_at (l ++ 0 :: beyond) 0 l.
Proof. by exists [], (0 :: beyond). Qed.

Lemma from_asciz_text l beyond : 0 ∉ l ->
  ptrlen_from_asciz (l ++ 0 :: beyond) = Ok (make_ptrlen 0 (length l)).
Proof. intros H. unfold ptrlen_from_asciz. by rewrite strlen_text. Qed.

(** ** Formulas *)

Section ExprNode_ind.
  Variable P : ExprNode -> Prop.
  Hypothesis Hand : forall t l, Forall P l -> P (OP_AND t l).
  Hypothesis Hor : forall t l, Forall P l -> P (OP_OR t l).
  Hypothesis Hnot : forall t en, P en -> P (OP_NOT t en).
  Hypothesis Hwc : forall t wc, P (OP_HOSTNAME_WC t wc).
  Hypothesis Hport : forall t lo hi, P (OP_PORT_RANGE t lo hi).

Fixpoint ExprNode_nested_ind (en : ExprNode) : P en :=
  let list_ind := fix list_ind l : Forall P l :=
    match l with
    | [] => Forall_nil_2 _
    | x :: l => Forall_cons_2 _ _ _ (ExprNode_nested_ind x) (list_ind l)
    end in
  match en with
  | OP_AND t l => Hand t l (list_ind l)
  | OP_OR t l => Hor t l (list_ind l)
  | OP_NOT t x => Hnot t x (ExprNode_nested_ind x)
  | OP_HOSTNAME_WC t wc => Hwc t wc
  | OP_PORT_RANGE t lo hi => Hport t lo hi
  end.
End ExprNode_ind.

(** The formula that a node denotes; [W] is the meaning of wildcards. *)
Fixpoint truth (W : list Z -> Prop) (port : Z) (en : ExprNode) : Prop :=
  match en with
  | OP_AND _ l => fold_right (fun x P => truth W port x /\ P) True l
  | OP_OR _ l => fold_right (fun x P => truth W port x \/ P) False l
  | OP_NOT _ x => ~ truth W port x
  | OP_HOSTNAME_WC _ wc => exists w, wc = w ++ [0] /\ W w
  | OP_PORT_RANGE _ lo hi => lo <= port <= hi
  end.

(** Every wildcard of the expression is a C string with property [W]. *)
Fixpoint wildcards (W : list Z -> Prop) (en : ExprNode) : Prop :=
  match en with
  | OP_AND _ l | OP_OR _ l => fold_right (fun x P => wildcards W x /\ P) True l
  | OP_NOT _ x => wildcards W x
  | OP_HOSTNAME_WC _ wc => exists w, wc = w ++ [0] /\ 0 ∉ w /\ W w
  | OP_PORT_RANGE _ _ _ => True
  end.

(** What the matching routine answers, and what a wildcard means. *)
Definition wc_answers (host w : list Z) : Prop := exists v, wc_match w host = Ok v /\ v <> 0.
Definition wc_means (host w : list Z) : Prop := exists p, wild w p /\ matches p host.
Definition wc_wellformed (w : list Z) : Prop := exists p, wild w p.

Lemma eval_host host w : 0 ∉ host -> exists v, wc_match w host = Ok v.
Proof. intros H. destruct (wc_match_inner_ok w host [] H) as (v & E & _); eauto. Qed.

Lemma eval_truth host port en :
  0 ∉ host -> wildcards (fun _ => True) en ->
  exists b, eval en host port = Ok b /\ (b = true <-> truth (wc_answers host) port en).
Proof.
  intros Hh. induction en as [t l IH|t l IH|t en IH|t wc|t lo hi] using ExprNode_nested_ind;
    cbn [eval truth wildcards].
  - induction IH as [|x l Hx _ IH]; cbn [fold_right]; [by eexists|]. intros [Hwx Hwl].
    destruct (Hx Hwx) as ([|] & -> & Eb); cbn [res_bind negb].
    + destruct (IH Hwl) as (b & -> & E). eexists. split; [done|]. tauto.
    + eexists. split; [done|]. naive_solver.
  - induction IH as [|x l Hx _ IH]; cbn [fold_right]; [by eexists|]. intros [Hwx Hwl].
    destruct (Hx Hwx) as ([|] & -> & Eb); cbn [res_bind].
    + eexists. split; [done|]. tauto.
    + destruct (IH Hwl) as (b & -> & E). eexists. split; [done|]. naive_solver.
  - intros H. destruct (IH H) as (b & -> & E). eexists. split; [done|]. destruct b; naive_solver.
  - intros (w & -> & H0 & _). rewrite asciz_chars_text by done. cbn [res_bind].
    destruct (eval_host host w Hh) as (v & Ev). rewrite Ev. eexists. split; [done|].
    rewrite negb_true_iff, Z.eqb_neq. split.
    + intros Hv. exists w. split; [done|]. by exists v.
    + intros (w' & E & v' & Ev' & Hv). apply app_inj_2 in E as [<- _]; [|done]. congruence.
  - intros _. eexists. split; [done|]. rewrite andb_true_iff, !Z.leb_le. done.
Qed.

(** Well-formed wildcards mean what the routine answers. *)
Lemma truth_wellformed host port en :
  0 ∉ host -> wildcards wc_wellformed en ->
  truth (wc_answers host) port en <-> truth (wc_means host) port en.
Proof.
  intros Hh. induction en as [t l IH|t l IH|t en IH|t wc|t lo hi] using ExprNode_nested_ind;
    cbn [truth wildcards]; [| |intros H; by rewrite (IH H)| |done].
  - induction IH as [|x l Hx _ IH]; cbn [fold_right]; [done|]. intros [H1 H2]. by rewrite (Hx H1), (IH H2).
  - induction IH as [|x l Hx _ IH]; cbn [fold_right]; [done|]. intros [H1 H2]. by rewrite (Hx H1), (IH H2).
  - intros (w & -> & _ & (q & Hq)). enough (Hiff : wc_answers host w <-> wc_means host w).
    { split; intros (w' & E & Hw); apply app_inj_2 in E as [<- _]; try done;
        (exists w; split; [done|]; by apply Hiff). }
    destruct (wc_match_inner_ok w host [] Hh) as (v & E & Hv). fold (wc_match w host) in E.
    unfold wc_answers, wc_means. rewrite E.
    destruct Hv as [[-> Hv]|[[-> Hv]|[_ Hv]]]; [| |by destruct (Hv q)].
    + split; [done|]. intros _. by eexists.
    + split; [by intros (v & [= <-] & ?)|]. intros (p' & H1 & H2). by destruct (Hv p').
Qed.

(** The wildcards of an expression have no NUL. *)
Lemma grammar_wildcards mem e :
  (forall us en, atom_g mem us en -> forall p vs, well_placed mem e p (us ++ vs) ->
     wildcards (fun _ => True) en) /\
  (forall us en, expr_g mem us en -> forall p vs, well_placed mem e p (us ++ vs) ->
     wildcards (fun _ => True) en) /\
  (forall op us ens, chain_g mem op us ens -> forall p vs, well_placed mem e p (us ++ vs) ->
     fold_right (fun x P => wildcards (fun _ => True) x /\ P) True ens).
Proof.
  destruct (grammar_placed mem e) as (Hpl & _ & _).
  apply grammar_mut; cbn [wildcards].
  - intros o us en c _ IH p vs. cbn [app]. rewrite <-app_assoc. intros (_ & _ & H%IH). by destruct en.
  - intros n us en _ IH p vs (_ & _ & H%IH). done.
  - intros t w Htw _ _ p vs (_ & Hatom & _). destruct (Hatom eq_refl) as (w' & Htw' & Ha).
    rewrite (text_is_fun _ _ _ _ Htw Htw'). exists w'. split_and!; [done| |done].
    intros Hin. by apply (proj1 (Forall_forall _ _) Ha) in Hin.
  - done.
  - done.
  - intros op t us en vs ens x Hop Hg IH _ IHc p vs'. rewrite <-app_assoc. intros H.
    pose proof (Hpl _ _ Hg _ _ H) as [_ (_ & _ & H2)]. apply IH in H. apply IHc in H2.
    by destruct Hop as [-> | ->].
  - intros op us en _ IH p vs H. split; [by eapply IH|done].
  - intros op t us en vs ens Hg IH _ IHc p vs'. rewrite <-app_assoc. intros H.
    pose proof (Hpl _ _ Hg _ _ H) as [_ (_ & _ & H2)]. apply IH in H. apply IHc in H2. by split.
Qed.

Lemma parsed_wildcards mem p l us en :
  holds_at mem p l -> lexes p l us -> expr_g mem us en -> wildcards (fun _ => True) en.
Proof.
  intros H [t Hs]%lexes_stream Hg. pose proof (stream_well_placed mem _ _ _ Hs H) as Hw.
  by eapply (proj1 (proj2 (grammar_wildcards mem _))).
Qed.

(** The function that decides about a host, whatever the wildcards are. *)
Lemma match_str_answers l beyond host port us en :
  0 ∉ l -> 0 ∉ host -> lexes 0 l us -> expr_g (l ++ 0 :: beyond) us en ->
  exists b, cert_expr_match_str (l ++ 0 :: beyond) host port = Ok b /\
    (b = true <-> truth (wc_answers host) port en).
Proof.
  intros H0 Hh Hl Hg. unfold cert_expr_match_str. rewrite from_asciz_text by done. cbn [res_bind].
  pose proof (c_string_at l beyond) as Hm.
  rewrite (parse_complete _ _ _ _ _ Hm Hl Hg). cbn [res_bind].
  apply eval_truth; [done|]. by eapply parsed_wildcards.
Qed.

(** ** The builder *)

(** The wildcards that the builder takes: one token, and a host atom. *)
Definition accepted (w : list Z) : Prop := w <> [] /\ all is_atom_char w /\ 58 ∉ w /\ 47 ∉ w.

#[export] Instance accepted_dec w : Decision (accepted w).
Proof. unfold accepted. apply _. Defined.

(** The token is the whole wildcard exactly where the wildcard is made of the
    characters of atoms. *)
Lemma lex_whole (w beyond : list Z) :
  exists tok toktext text err,
    lex (w ++ 0 :: beyond) (make_ptrlen 0 (length w)) = Ok (tok, toktext, text, err) /\
    (tok = TOK_ATOM /\ toktext = make_ptrlen 0 (length w) <-> w <> [] /\ all is_atom_char w).
Proof.
  pose proof (c_string_at w beyond) as Hm.
  destruct (text_cases 0 w) as [H|[[tt H]|(tok & tt & p' & rest & H & _)]].
  - rewrite (lex_end _ _ _ Hm H). do 4 eexists. split; [done|]. split; [by intros [? _]|].
    intros [Hne Ha]. destruct w as [|c w]; [done|]. apply Forall_cons in H as [H _], Ha as [Ha _].
    apply space_not_token in H as [_ H]. congruence.
  - destruct (lex_bad _ _ _ _ Hm H) as (text & msg & ->). do 4 eexists. split; [done|].
    split; [by intros [? _]|]. intros [_ Ha]. destruct H as [ws c rest -> _ _ Hc _].
    apply Forall_app in Ha as [_ Ha]. apply Forall_cons in Ha as [Ha _]. congruence.
  - destruct (lex_lexeme _ _ _ _ _ _ _ Hm H) as [-> _]. do 4 eexists. split; [done|].
    destruct H as [ws o tok rest -> Hws Hin|ws a rest -> Hws Hne Ha Hr].
    + destruct (operators_heads _ _ Hin) as (c & o' & -> & Hc). split.
      * intros [-> _]. revert Hin. unfold operators. rewrite !elem_of_cons, elem_of_nil. naive_solver.
      * intros [_ H]. apply Forall_app in H as [_ H]. cbn [app] in H. apply Forall_cons in H as [H _].
        apply operator_not_atom in Hc. congruence.
    + split.
      * intros [_ [= El Ew]]. destruct ws; [|done]. cbn [app] in *. rewrite length_app in Ew.
        destruct rest; [|cbn in Ew; lia]. by rewrite app_nil_r.
      * intros [_ H]. split; [done|]. apply Forall_app in H as [H1 H2]. apply Forall_app in H2 as [_ H2].
        assert (ws = []) as ->.
        { destruct ws as [|c ws]; [done|]. apply Forall_cons in Hws as [Hc _], H1 as [H1 _].
          apply space_not_token in Hc as [_ Hc]. congruence. }
        assert (rest = []) as ->.
        { destruct rest as [|c rest]; [done|]. apply Forall_cons in H2 as [H2 _].
          specialize (Hr c eq_refl). congruence. }
        cbn [app length]. by rewrite app_nil_r.
Qed.

Lemma builder_add_ok eb (w beyond : list Z) : 0 ∉ w ->
  cert_expr_builder_add eb (w ++ 0 :: beyond) =
    Ok (if decide (accepted w) then Builder (eb_wcs eb ++ [w ++ [0]]) else eb).
Proof.
  intros H0. unfold cert_expr_builder_add. rewrite from_asciz_text by done. cbn [res_bind].
  destruct (lex_whole w beyond) as (tok & toktext & text & err & -> & Hiff). cbn [res_bind].
  pose proof (c_string_at w beyond) as Hm. unfold accepted.
  destruct (decide (tok = TOK_ATOM /\ toktext = make_ptrlen 0 (length w))) as [Hy|Hn].
  - destruct (proj1 Hiff Hy) as [Hne Ha]. destruct Hy as [_ ->]. rewrite hostname_wc_ok by done.
    cbn [res_bind]. case_bool_decide as Hh.
    + rewrite mkstr_ok by done. cbn [res_bind]. destruct (decide _) as [_|Hd]; [done|]. tauto.
    + destruct (decide _) as [Hd|_]; [tauto|done].
  - destruct (decide _) as [Hd|_]; [tauto|done].
Qed.

(** The calls a client makes: one for each of its wildcards. *)
Fixpoint add_all (eb : CertExprBuilder) (ws : list (list Z)) : res CertExprBuilder :=
  match ws with
  | [] => Ok eb
  | w :: ws => let! eb := cert_expr_builder_add eb (w ++ [0]) in add_all eb ws
  end.

Lemma add_all_ok ws : forall eb, Forall (fun w => 0 ∉ w) ws ->
  add_all eb ws = Ok (Builder (eb_wcs eb ++ ((fun w => w ++ [0]) <$> filter accepted ws))).
Proof.
  induction ws as [|w ws IH]; intros eb H; cbn [add_all].
  - rewrite app_nil_r. by destruct eb.
  - apply Forall_cons in H as [H0 H]. rewrite builder_add_ok by done. cbn [res_bind].
    rewrite filter_cons. destruct (decide (accepted w)); rewrite IH by done; [|done].
    cbn [eb_wcs fmap list_fmap]. by rewrite <-app_assoc.
Qed.

(** The text of the expression. *)
Fixpoint join (first : bool) (ws : list (list Z)) : list Z :=
  match ws with
  | [] => []
  | w :: ws => (if first then [] else or_literal) ++ w ++ join false ws
  end.

Lemma expression_loop_ok ws : forall first sb c,
  Forall (fun w => 0 ∉ w) ws -> strbuf_holds sb c ->
  Z.of_nat (length (c ++ join first ws)) <= strbuf_limit ->
  exists sb', expression_loop first ((fun w => w ++ [0]) <$> ws) sb = Ok sb' /\
    strbuf_holds sb' (c ++ join first ws).
Proof.
  induction ws as [|w ws IH]; intros first sb c H0 Hs Hl; cbn [join fmap list_fmap expression_loop] in *.
  - rewrite app_nil_r. eauto.
  - apply Forall_cons in H0 as [Hw H0].
    set (sep := if first then [] else or_literal) in *.
    assert (exists sb1, (if first then Ok sb else BinarySink_put_datapl sb or_literal) = Ok sb1 /\
              strbuf_holds sb1 (c ++ sep)) as (sb1 & -> & Hs1).
    { unfold sep in *. destruct first; [rewrite app_nil_r; eauto|]. apply strbuf_write_ok; [done|].
      rewrite !length_app in *. lia. }
    cbn [res_bind]. rewrite asciz_chars_text by done. cbn [res_bind].
    destruct (strbuf_write_ok sb1 _ w Hs1) as (sb2 & E2 & Hs2);
      [rewrite !length_app in *; lia|].
    unfold BinarySink_put_datapl, BinarySink_put_data, bs_write, strbuf_sink. rewrite E2. cbn [res_bind].
    replace (c ++ sep ++ w ++ join false ws) with (((c ++ sep) ++ w) ++ join false ws) in *
      by (by rewrite <-!app_assoc).
    by apply IH.
Qed.

Lemma expression_ok ws : Forall (fun w => 0 ∉ w) ws ->
  Z.of_nat (length (join true ws)) <= strbuf_limit ->
  cert_expr_expression (Builder ((fun w => w ++ [0]) <$> ws)) = Ok (join true ws ++ [0]).
Proof.
  intros H0 Hl. unfold cert_expr_expression, strbuf_new.
  destruct (strbuf_new_holds false) as (sb & -> & Hs). cbn [res_bind eb_wcs].
  destruct (expression_loop_ok ws true sb [] H0 Hs Hl) as (sb' & -> & Hs'). by apply strbuf_to_str_ok.
Qed.

(** ** The text of the builder is an expression *)

Lemma lexes_skip_space c p l us : is_space c = true -> lexes (S p) l us -> lexes p (c :: l) us.
Proof.
  intros Hc H. remember (S p) as q eqn:Eq.
  destruct H as [q l H|q l tok tt p' rest us H Hs]; subst.
  - apply lexes_end. by constructor.
  - eapply lexes_cons; [|exact Hs].
    destruct H as [ws o tok rest -> Hws Hin|ws a rest -> Hws Hne Ha Hr];
      replace (S p + length ws)%nat with (p + length (c :: ws))%nat by (cbn; lia).
    + apply op_at; [done|by constructor|done].
    + apply atom_at; [done|by constructor|done..].
Qed.

(** The nodes of the wildcards. *)
Definition host_nodes (ws : list (list Z)) (ens : list ExprNode) : Prop :=
  Forall2 (fun w en => exists t, en = OP_HOSTNAME_WC t (w ++ [0])) ws ens.

Lemma atom_chain mem p w : accepted w -> holds_at mem p w ->
  atom_g mem [(TOK_ATOM, make_ptrlen p (length w))] (OP_HOSTNAME_WC (make_ptrlen p (length w)) (w ++ [0])).
Proof. intros (_ & _ & H1 & H2) H. by apply g_host. Qed.

Lemma atom_first p w rest : accepted w -> stops is_atom_char rest ->
  lexeme_at p (w ++ rest) TOK_ATOM (make_ptrlen p (length w)) (p + length w) rest.
Proof.
  intros (Hne & Ha & _) Hr. pose proof (atom_at p (w ++ rest) [] w rest) as Hat.
  cbn [length] in Hat. rewrite Nat.add_0_r in Hat. by apply Hat.
Qed.

Lemma join_true_cons w w2 ws : join true (w :: w2 :: ws) = w ++ or_literal ++ join true (w2 :: ws).
Proof. done. Qed.

Lemma join_chain mem ws : forall p, ws <> [] -> Forall accepted ws -> holds_at mem p (join true ws) ->
  exists us ens, lexes p (join true ws) us /\ chain_g mem TOK_OR us ens /\ host_nodes ws ens.
Proof.
  induction ws as [|w ws IH]; intros p Hne Hacc Hm; [done|]. destruct ws as [|w2 ws].
  - apply Forall_cons in Hacc as [Hacc _]. cbn [join app] in *. rewrite app_nil_r in *.
    exists [(TOK_ATOM, make_ptrlen p (length w))],
      [OP_HOSTNAME_WC (make_ptrlen p (length w)) (w ++ [0])].
    split_and!; [|by apply chain_one, atom_chain|by constructor; [eexists|]].
    eapply lexes_cons; [|by apply (lexes_end (p + length w))].
    pose proof (atom_first p w [] Hacc) as Hat. rewrite app_nil_r in Hat. by apply Hat.
  - apply Forall_cons in Hacc as [Hw Hacc]. rewrite join_true_cons in *.
    apply holds_at_app in Hm as [Hm1 Hm]. apply holds_at_app in Hm as [_ Hm].
    destruct (IH _ ltac:(done) Hacc Hm) as (us & ens & Hl & Hc & Hn).
    cbn [or_literal length] in Hl.
    exists ((TOK_ATOM, make_ptrlen p (length w)) :: (TOK_OR, make_ptrlen (p + length w + 1) 2) :: us),
      (OP_HOSTNAME_WC (make_ptrlen p (length w)) (w ++ [0]) :: ens).
    split_and!; [|by apply (chain_more _ _ _ [_]); [apply atom_chain|]|by constructor; [eexists|]].
    eapply lexes_cons.
    { apply atom_first; [done|]. by intros c [= <-]. }
    eapply lexes_cons.
    { apply (op_at (p + length w) _ [32] [124; 124] TOK_OR (32 :: join true (w2 :: ws))); [done|by constructor|].
      unfold operators. rewrite !elem_of_cons. tauto. }
    apply lexes_skip_space; [done|]. cbn [length].
    by replace (S (p + length w + 1 + 2))%nat with (p + length w + 4)%nat by lia.
Qed.

Lemma chain_expr mem op us ens : op = TOK_AND \/ op = TOK_OR -> chain_g mem op us ens ->
  exists en, expr_g mem us en /\ (ens = [en] \/ exists t, en = exprnode_nary op t ens).
Proof.
  intros Hop. inversion 1 as [op' us' en Hg|op' t us' en vs ens' Hg Hc]; subst.
  - exists en. split; [by apply g_atom|by left].
  - destruct (rev_ind_or_nil ens') as [->|(ens2 & x & ->)]; [by inversion Hc|].
    eexists. split; [by apply g_chain|]. right. by eexists.
Qed.

Lemma host_nodes_truth W port ws ens :
  host_nodes ws ens ->
  fold_right (fun x P => truth W port x \/ P) False ens <-> exists w, w ∈ ws /\ W w.
Proof.
  induction 1 as [|w en ws ens [t ->] _ IH]; cbn [fold_right truth].
  - split; [done|]. by intros (w & H%elem_of_nil & _).
  - rewrite IH. split.
    + intros [(w' & E & HW)|(w' & Hin & HW)].
      * apply app_inj_2 in E as [<- _]; [|done]. exists w. split; [left|done].
      * exists w'. split; [by right|done].
    + intros (w' & [-> |Hin]%elem_of_cons & HW); [left; by exists w|right; by exists w'].
Qed.

Lemma join_no_nul ws first : Forall (fun w => 0 ∉ w) ws -> 0 ∉ join first ws.
Proof.
  intros H. revert first. induction H as [|w ws Hw _ IH]; intros first; cbn [join].
  - apply not_elem_of_nil.
  - rewrite !not_elem_of_app. split_and!; [|done|apply IH].
    destruct first; [apply not_elem_of_nil|]. unfold or_literal. rewrite !not_elem_of_cons.
    split_and!; [done..|apply not_elem_of_nil].
Qed.

(** The text of accepted wildcards allows the hosts that one of them matches. *)
Lemma joined_match ws host port : Forall accepted ws -> Forall (fun w => 0 ∉ w) ws -> 0 ∉ host ->
  exists b, cert_expr_match_str (join true ws ++ [0]) host port = Ok b /\
    (b = true <-> exists w, w ∈ ws /\ wc_answers host w).
Proof.
  intros Hacc H0 Hh. destruct (decide (ws = [])) as [->|Hne].
  { eexists. split; [reflexivity|]. split; [done|]. by intros (w & H%elem_of_nil & _). }
  destruct (join_chain (join true ws ++ [0]) ws 0 Hne Hacc) as (us & ens & Hl & Hc & Hn);
    [apply c_string_at|].
  destruct (chain_expr _ _ _ _ (or_intror eq_refl) Hc) as (en & Hg & Hen).
  destruct (match_str_answers (join true ws) [] host port us en) as (b & E & Hb);
    [by apply join_no_nul|done|done|done|].
  exists b. split; [done|]. rewrite Hb, <-(host_nodes_truth (wc_answers host) port ws ens Hn).
  destruct Hen as [-> |[t ->]]; cbn [fold_right]; [tauto|done].
Qed.
