(* ===== verification/CertExprTheorems.v ===== *)
(** * Certificate expressions: the properties of the component *)

From Stdlib Require Import String.
From S2P Require Import Prelude Bufchain Marshal Strbuf Wildcard WildcardSpec Ptrlen CertExpr CertExprLex CertExprSpec CertExprParse CertExprPolicy.
Local Open Scope cmodel_scope.
Local Open Scope Z_scope.

(** C14. The validity check of certificate expressions decides the documented language.
    For every C string it returns, with no assertion failing, no read outside the text
    and no loop left unfinished.  It accepts exactly the texts whose tokens the grammar
    derives, where [&&] and [||] never associate with each other, and the derivation
    gives one expression only; what it rejects it rejects with a message and a place
    that lies inside the text. *)
Theorem cert_expr_valid_decides l beyond (H0 : 0 ∉ l) :
  let expression := l ++ 0 :: beyond in
  (cert_expr_valid expression = Ok None /\
   exists us en, lexes 0 l us /\ expr_g expression us en /\
     forall us' en', lexes 0 l us' -> expr_g expression us' en' -> en' = en) \/
  (exists msg loc, cert_expr_valid expression = Ok (Some (Some (msg, loc))) /\
     (pl_ptr loc + pl_len loc <= length l)%nat /\
     forall us en, lexes 0 l us -> ~ expr_g expression us en).
Proof.
  cbv zeta. pose proof (c_string_at l beyond) as Hm.
  unfold cert_expr_valid. rewrite from_asciz_text by done. cbn [res_bind].
  destruct (parse_total _ _ _ Hm) as [(us & en & E & Hl & Hg)|(msg & loc & E & Hi)]; rewrite E; cbn [res_bind].
  - left. split; [done|]. exists us, en. split_and!; [done|done|]. intros us' en' Hl' Hg'.
    pose proof (parse_complete _ _ _ _ _ Hm Hl' Hg'). congruence.
  - right. exists msg, loc. split_and!; [done|exact Hi|]. intros us en Hl Hg.
    pose proof (parse_complete _ _ _ _ _ Hm Hl Hg). congruence.
Qed.

(** ["a&&b"] is an expression. *)
Lemma cert_expr_valid_decides_witness :
  exists us en, lexes 0 [97; 38; 38; 98] us /\ expr_g [97; 38; 38; 98; 0] us en.
Proof.
  destruct (cert_expr_valid_decides [97; 38; 38; 98] []) as [(_ & us & en & Hl & Hg & _)|(m & loc & E & _)].
  - apply (bool_decide_unpack _). vm_compute. exact I.
  - exists us, en. split; [exact Hl|exact Hg].
  - vm_compute in E. discriminate E.
Defined.

(** C13. A certification authority is trusted for a host and a port exactly where the
    formula that its expression denotes holds there.  For every expression, host and
    port that are C strings and a number, malformed wildcards included, the check
    returns; a text that is not an expression is trusted for nothing; and of one that
    is, the answer is the truth of its parse under the boolean reading of the
    operators and inclusive port ranges, where a host atom holds if the wildcard
    matcher's answer is not zero.  If the wildcards of the expression are well formed,
    a host atom holds exactly if the declarative meaning of the wildcard covers the
    host. *)
Theorem cert_expr_match_decides l beyond host port (H0 : 0 ∉ l) (Hhost : 0 ∉ host) :
  exists b, cert_expr_match_str (l ++ 0 :: beyond) host port = Ok b /\
    (b = true <-> exists us en, lexes 0 l us /\ expr_g (l ++ 0 :: beyond) us en /\
                    truth (wc_answers host) port en) /\
    ((forall us en, lexes 0 l us -> expr_g (l ++ 0 :: beyond) us en -> wildcards wc_wellformed en) ->
     (b = true <-> exists us en, lexes 0 l us /\ expr_g (l ++ 0 :: beyond) us en /\
                     truth (wc_means host) port en)).
Proof.
  pose proof (c_string_at l beyond) as Hm.
  destruct (parse_total _ _ _ Hm) as [(us & en & E & Hl & Hg)|(msg & loc & E & _)].
  - destruct (match_str_answers l beyond host port us en) as (b & Eb & Hb); [done..|].
    assert (Huniq : forall us' en', lexes 0 l us' -> expr_g (l ++ 0 :: beyond) us' en' -> en' = en).
    { intros us' en' Hl' Hg'. pose proof (parse_complete _ _ _ _ _ Hm Hl' Hg'). congruence. }
    exists b. split; [done|]. rewrite Hb. split.
    + split; [eauto|]. by intros (us' & en' & Hl' & Hg' & Ht); rewrite <-(Huniq _ _ Hl' Hg').
    + intros Hwf. rewrite truth_wellformed by (done || by eapply Hwf).
      split; [eauto|]. by intros (us' & en' & Hl' & Hg' & Ht); rewrite <-(Huniq _ _ Hl' Hg').
  - assert (Hno : forall us en, lexes 0 l us -> ~ expr_g (l ++ 0 :: beyond) us en).
    { intros us en Hl Hg. pose proof (parse_complete _ _ _ _ _ Hm Hl Hg). congruence. }
    exists false. unfold cert_expr_match_str. rewrite from_asciz_text by done. cbn [res_bind].
    rewrite E. split; [done|]. naive_solver.
Qed.

(** ["a*&&!port:9"] for the host [ab] and the port 22 *)
Lemma cert_expr_match_decides_witness :
  exists us en, lexes 0 [97; 42; 38; 38; 33; 112; 111; 114; 116; 58; 57] us /\
    expr_g [97; 42; 38; 38; 33; 112; 111; 114; 116; 58; 57; 0] us en /\
    truth (wc_means [97; 98]) 22 en.
Proof.
  destruct (cert_expr_match_decides [97; 42; 38; 38; 33; 112; 111; 114; 116; 58; 57] [] [97; 98] 22)
    as (b & E & _ & Hb).
  - apply (bool_decide_unpack _). vm_compute. exact I.
  - apply (bool_decide_unpack _). vm_compute. exact I.
  - vm_compute in E. injection E as <-. apply Hb; [|reflexivity].
    intros us en Hl Hg. pose proof (parse_complete _ _ _ _ _ (c_string_at _ _) Hl Hg) as E.
    vm_compute in E. injection E as <-. cbn [wildcards fold_right].
    split; [|split; exact I]. exists [97; 42]. split; [reflexivity|]. split.
    + apply (bool_decide_unpack _). vm_compute. exact I.
    + exists [TAtom (AChar 97); TStar].
      apply (wild_atom _ _ [STAR]); [apply ao_char; discriminate|apply wild_star, wild_nil].
Defined.

(** The builder turns a list of wildcards into an expression that means their
    alternative: whatever the strings handed to it, those that are not a single host
    atom are left out, the string it produces is built without overrunning its buffer,
    and the check of that string accepts a host exactly when the matching routine
    accepts it for one of the wildcards that were taken.  With none taken the string
    is empty and no host is accepted. *)
Theorem cert_expr_builder_any ws host port
    (H0 : Forall (fun w => 0 ∉ w) ws) (Hhost : 0 ∉ host)
    (Hlen : Z.of_nat (length (join true (filter accepted ws))) <= strbuf_limit) :
  exists eb expr b,
    add_all cert_expr_builder_new ws = Ok eb /\ cert_expr_expression eb = Ok expr /\
    cert_expr_match_str expr host port = Ok b /\
    (b = true <-> exists w v, w ∈ ws /\ accepted w /\ wc_match w host = Ok v /\ v <> 0).
Proof.
  assert (Hacc : Forall accepted (filter accepted ws)).
  { apply Forall_forall. intros w [H _]%list_elem_of_filter. exact H. }
  assert (H0' : Forall (fun w => 0 ∉ w) (filter accepted ws)).
  { apply Forall_forall. intros w [_ H]%list_elem_of_filter. by apply (proj1 (Forall_forall _ _) H0). }
  destruct (joined_match _ host port Hacc H0' Hhost) as (b & E & Hb).
  exists (Builder ((fun w => w ++ [0]) <$> filter accepted ws)), (join true (filter accepted ws) ++ [0]), b.
  split_and!; [by rewrite add_all_ok|by apply expression_ok|done|].
  rewrite Hb. unfold wc_answers. setoid_rewrite list_elem_of_filter. naive_solver.
Qed.

(** The wildcards ["a"] and ["b*"], with ["x y"] left out, for the host [bc] *)
Lemma cert_expr_builder_any_witness :
  exists w v, w ∈ [[97]; [120; 32; 121]; [98; 42]] /\ accepted w /\ wc_match w [98; 99] = Ok v /\ v <> 0.
Proof.
  destruct (cert_expr_builder_any [[97]; [120; 32; 121]; [98; 42]] [98; 99] 22)
    as (eb & expr & b & E1 & E2 & E3 & Hb).
  - apply (bool_decide_unpack _). vm_compute. exact I.
  - apply (bool_decide_unpack _). vm_compute. exact I.
  - apply Z.leb_le. vm_compute. reflexivity.
  - apply Hb. vm_compute in E1. injection E1 as <-. vm_compute in E2. injection E2 as <-.
    vm_compute in E3. injection E3 as <-. reflexivity.
Defined.

(** A host atom whose wildcard is malformed is accepted as an expression, and then
    trusts the authority for every host: the matching routine answers with a negative
    error code, which becomes true where the evaluation returns it as a boolean.  The
    expression here is an opening bracket that is never closed. *)
Theorem malformed_wildcard_trusts_all host port (Hne : host <> []) :
  cert_expr_valid [91; 0] = Ok None /\ cert_expr_match_str [91; 0] host port = Ok true.
Proof. by destruct host as [|c host]. Qed.

(** The host ["ab"] *)
Lemma malformed_wildcard_trusts_all_witness :
  cert_expr_match_str [91; 0] [97; 98] 22 = Ok true.
Proof. apply (malformed_wildcard_trusts_all [97; 98] 22). discriminate. Defined.
