(* ===== verification/VerString.v ===== *)
(** * Exchange of SSH version strings (putty ssh/verstring.c)

    The first layer of a connection: it sends our version string, looks for the
    server's in the bytes that arrive, agrees on a protocol version and finds out
    which bugs the server is known for.

    The function that handles input is a coroutine: it returns where it has to wait
    for more bytes, and goes on there when it is called again.  A [crpoint] is the
    wait it is at.  Logging and the calls to the rest of the SSH code are the list of
    events.  The buffers are those of file Bufchain, the settings those of Conf.
    [sshver] is the name of the program, from the generated version.h. *)

From Stdlib Require Import String Ascii.
From stdpp Require Import gmap.
From S2P Require Import Prelude Callback Bufchain Marshal Strbuf Wildcard Ptrlen ConfData Filename Conf.
Local Open Scope string_scope.
Local Open Scope cmodel_scope.
Local Open Scope list_scope.
Local Open Scope Z_scope.

#[local] Notation CONF s := (config_primary_key s%string).

(** The characters of a string literal. *)
Definition lit (s : string) : list Z := map (fun a => Z.of_N (N_of_ascii a)) (list_ascii_of_string s).

Definition PREFIX_MAXLEN : Z := 64.

Inductive crpoint := CR_START | CR_PREFIX | CR_SKIP | CR_GREETING.

Inductive event :=
| Ev_log (msg : string) (arg : list Z)
| Ev_check_frozen
| Ev_sw_abort (msg : string)
| Ev_remote_error (msg : string)
| Ev_got_ssh_version (major : Z).

(** ** Version numbers *)

Definition ULONG_MAX : Z := 2 ^ 32 - 1.

Definition is_space_char (c : Z) : bool := (c =? 32) || ((9 <=? c) && (c <=? 13)).
Definition is_digit_char (c : Z) : bool := (48 <=? c) && (c <=? 57).

Fixpoint drop_spaces (s : list Z) : list Z :=
  match s with c :: s' => if is_space_char c then drop_spaces s' else s | [] => [] end.

(** The digits at the start of a string, as a number, and what follows. *)
Fixpoint read_digits (s : list Z) (v : Z) : Z * list Z :=
  match s with
  | c :: s' => if is_digit_char c then read_digits s' (10 * v + (c - 48)) else (v, s)
  | [] => (v, [])
  end.

(** [strtoul(s, &end, 10)], the value and the string at [end] *)
Definition strtoul (s : list Z) : Z * list Z :=
  let s1 := drop_spaces s in
  let '(negative, s2) :=
    match s1 with
    | c :: s2 => if c =? 45 then (true, s2) else if c =? 43 then (false, s2) else (false, s1)
    | [] => (false, [])
    end in
  match s2 with
  | c :: _ =>
      if is_digit_char c then
        let '(v, rest) := read_digits s2 0 in
        (if ULONG_MAX <? v then ULONG_MAX else if negative : bool then (- v) mod 2 ^ 32 else v, rest)
      else (0, s)
  | [] => (0, s)
  end.

(** [if ( *p == '.' ) p++] *)
Definition skip_dot (s : list Z) : list Z :=
  match s with c :: s' => if c =? 46 then s' else s | [] => [] end.

Definition ssh_versioncmp (a b : list Z) : Z :=
  let '(av, ae) := strtoul a in
  let '(bv, be) := strtoul b in
  if negb (av =? bv) then (if av <? bv then -1 else 1)
  else
    let '(av, _) := strtoul (skip_dot ae) in
    let '(bv, _) := strtoul (skip_dot be) in
    if negb (av =? bv) then (if av <? bv then -1 else 1) else 0.

Definition ssh_version_includes_v1 (ver : list Z) : bool := ssh_versioncmp ver (lit "2.0") <? 0.
Definition ssh_version_includes_v2 (ver : list Z) : bool := 0 <=? ssh_versioncmp ver (lit "1.99").

(** ** Bugs of servers *)

Definition FORCE_ON : Z := 0.
Definition AUTO : Z := 2.

Definition BUG_CHOKES_ON_SSH1_IGNORE : Z := Z.shiftl 1 0.
Definition BUG_SSH2_HMAC : Z := Z.shiftl 1 1.
Definition BUG_NEEDS_SSH1_PLAIN_PASSWORD : Z := Z.shiftl 1 2.
Definition BUG_CHOKES_ON_RSA : Z := Z.shiftl 1 3.
Definition BUG_SSH2_RSA_PADDING : Z := Z.shiftl 1 4.
Definition BUG_SSH2_DERIVEKEY : Z := Z.shiftl 1 5.
Definition BUG_SSH2_REKEY : Z := Z.shiftl 1 6.
Definition BUG_SSH2_PK_SESSIONID : Z := Z.shiftl 1 7.
Definition BUG_SSH2_MAXPKT : Z := Z.shiftl 1 8.
Definition BUG_CHOKES_ON_SSH2_IGNORE : Z := Z.shiftl 1 9.
Definition BUG_CHOKES_ON_WINADJ : Z := Z.shiftl 1 10.
Definition BUG_SENDS_LATE_REQUEST_REPLY : Z := Z.shiftl 1 11.
Definition BUG_SSH2_OLDGEX : Z := Z.shiftl 1 12.
Definition BUG_REQUIRES_FILTERED_KEXINIT : Z := Z.shiftl 1 13.
Definition BUG_RSA_SHA2_CERT_USERAUTH : Z := Z.shiftl 1 14.

(** [!strcmp(imp, n1) || !strcmp(imp, n2) || ...] *)
Definition is_one_of (imp : list Z) (names : list string) : res bool :=
  Ok (existsb (fun n => bool_decide (imp = lit n)) names).

(** [wc_match(w1, imp) || wc_match(w2, imp) || ...] *)
Fixpoint wc_any (imp : list Z) (wcs : list string) : res bool :=
  match wcs with
  | [] => Ok false
  | w :: wcs =>
      let! v := wc_match (lit w) imp in
      if negb (v =? 0) then Ok true else wc_any imp wcs
  end.

(** [!wc_match(w, imp) && k] *)
Definition wc_unless (imp : list Z) (w : string) (k : res bool) : res bool :=
  let! v := wc_match (lit w) imp in if negb (v =? 0) then Ok false else k.

(** [conf_get_int(conf, opt) == FORCE_ON ||
     (conf_get_int(conf, opt) == AUTO && detected)] *)
Definition bug_condition (conf : Conf) (opt : string) (detected : res bool) : res bool :=
  let! v := conf_get_int conf (CONF opt) in
  if v =? FORCE_ON then Ok true
  else
    let! v := conf_get_int conf (CONF opt) in
    if v =? AUTO then detected else Ok false.

(** [if (condition) { remote_bugs |= flag; bpp_logevent(msg); }] *)
Definition bug_if (condition : res bool) (flag : Z) (msg : string) (st : Z * list event)
  : res (Z * list event) :=
  let! c := condition in
  if c : bool then Ok (Z.lor st.1 flag, st.2 ++ [Ev_log msg []]) else Ok st.

(** The flags, and the events of logging them. *)
Definition ssh_detect_bugs (conf : Conf) (imp : list Z) : res (Z * list event) :=
  let st := (0, []) in
  let! st := bug_if (bug_condition conf "sshbug_ignore1"
      (is_one_of imp ["1.2.18"; "1.2.19"; "1.2.20"; "1.2.21"; "1.2.22"; "Cisco-1.25";
                      "OSU_1.4alpha3"; "OSU_1.5alpha4"]))
    BUG_CHOKES_ON_SSH1_IGNORE "We believe remote version has SSH-1 ignore bug" st in
  let! st := bug_if (bug_condition conf "sshbug_plainpw1"
      (is_one_of imp ["Cisco-1.25"; "OSU_1.4alpha3"]))
    BUG_NEEDS_SSH1_PLAIN_PASSWORD "We believe remote version needs a plain SSH-1 password" st in
  let! st := bug_if (bug_condition conf "sshbug_rsa1" (is_one_of imp ["Cisco-1.25"]))
    BUG_CHOKES_ON_RSA "We believe remote version can't handle SSH-1 RSA authentication" st in
  let! st := bug_if (bug_condition conf "sshbug_hmac2"
      (wc_unless imp "* VShell" (wc_any imp ["2.1.0*"; "2.0.*"; "2.2.0*"; "2.3.0*"; "2.1 *"])))
    BUG_SSH2_HMAC "We believe remote version has SSH-2 HMAC bug" st in
  let! st := bug_if (bug_condition conf "sshbug_derivekey2"
      (wc_unless imp "* VShell" (wc_any imp ["2.0.0*"; "2.0.10*"])))
    BUG_SSH2_DERIVEKEY "We believe remote version has SSH-2 key-derivation bug" st in
  let! st := bug_if (bug_condition conf "sshbug_rsapad2"
      (wc_any imp ["OpenSSH_2.[5-9]*"; "OpenSSH_3.[0-2]*"; "mod_sftp/0.[0-8]*"; "mod_sftp/0.9.[0-8]"]))
    BUG_SSH2_RSA_PADDING "We believe remote version has SSH-2 RSA padding bug" st in
  let! st := bug_if (bug_condition conf "sshbug_pksessid2" (wc_any imp ["OpenSSH_2.[0-2]*"]))
    BUG_SSH2_PK_SESSIONID "We believe remote version has SSH-2 public-key-session-ID bug" st in
  let! st := bug_if (bug_condition conf "sshbug_rekey2"
      (wc_any imp ["DigiSSH_2.0"; "OpenSSH_2.[0-4]*"; "OpenSSH_2.5.[0-3]*"; "Sun_SSH_1.0";
                   "Sun_SSH_1.0.1"; "WeOnlyDo-*"]))
    BUG_SSH2_REKEY "We believe remote version has SSH-2 rekey bug" st in
  let! st := bug_if (bug_condition conf "sshbug_maxpkt2"
      (wc_any imp ["1.36_sshlib GlobalSCAPE"; "1.36 sshlib: GlobalScape"]))
    BUG_SSH2_MAXPKT "We believe remote version ignores SSH-2 maximum packet size" st in
  let! st := bug_if (let! v := conf_get_int conf (CONF "sshbug_ignore2") in Ok (v =? FORCE_ON))
    BUG_CHOKES_ON_SSH2_IGNORE "We believe remote version has SSH-2 ignore bug" st in
  let! st := bug_if (bug_condition conf "sshbug_oldgex2" (wc_any imp ["OpenSSH_2.[235]*"]))
    BUG_SSH2_OLDGEX "We believe remote version has outdated SSH-2 GEX" st in
  let! st := bug_if (let! v := conf_get_int conf (CONF "sshbug_winadj") in Ok (v =? FORCE_ON))
    BUG_CHOKES_ON_WINADJ "We believe remote version has winadj bug" st in
  let! st := bug_if (bug_condition conf "sshbug_chanreq"
      (wc_any imp ["OpenSSH_[2-5].*"; "OpenSSH_6.[0-6]*"; "dropbear_0.[2-4][0-9]*"; "dropbear_0.5[01]*"]))
    BUG_SENDS_LATE_REQUEST_REPLY "We believe remote version has SSH-2 channel request bug" st in
  let! st := bug_if (let! v := conf_get_int conf (CONF "sshbug_filter_kexinit") in Ok (v =? FORCE_ON))
    BUG_REQUIRES_FILTERED_KEXINIT "We believe remote version requires us to filter our KEXINIT" st in
  bug_if (bug_condition conf "sshbug_rsa_sha2_cert_userauth" (wc_any imp ["OpenSSH_7.[2-7]*"]))
    BUG_RSA_SHA2_CERT_USERAUTH
    "We believe remote version has SSH-2 RSA/SHA-2/certificate userauth bug" st.

(** ** The state *)

Section protocol.
  Context {U : Type}.
  Variable sshver : list Z.

(** [protoversion], [softwareversion] and [our_vstring] start as null pointers.  The
    last fields are the buffers of the connection ([bpp]), the queue of callbacks they
    notify, and the events so far. *)
Record ssh_verstring_state := VState {
  vs_crState : crpoint;
  vs_conf : Conf;
  vs_prefix_wanted : list Z;
  vs_our_protoversion : list Z;
  vs_send_early : bool;
  vs_found_prefix : bool;
  vs_major_protoversion : Z;
  vs_remote_bugs : Z;
  vs_impl_name : list Z;
  vs_vstring : strbuf;
  vs_protoversion : option (list Z);
  vs_softwareversion : option (list Z);
  vs_our_vstring : option (list Z);
  vs_in_raw : bufchain U;
  vs_input_eof : bool;
  vs_out_raw : bufchain U;
  vs_world : world U;
  vs_events : list event
}.

Implicit Types s : ssh_verstring_state.

Definition set_crState s c := VState c (vs_conf s) (vs_prefix_wanted s) (vs_our_protoversion s)
  (vs_send_early s) (vs_found_prefix s) (vs_major_protoversion s) (vs_remote_bugs s) (vs_impl_name s)
  (vs_vstring s) (vs_protoversion s) (vs_softwareversion s) (vs_our_vstring s) (vs_in_raw s)
  (vs_input_eof s) (vs_out_raw s) (vs_world s) (vs_events s).

Definition set_in_raw s b := VState (vs_crState s) (vs_conf s) (vs_prefix_wanted s) (vs_our_protoversion s)
  (vs_send_early s) (vs_found_prefix s) (vs_major_protoversion s) (vs_remote_bugs s) (vs_impl_name s)
  (vs_vstring s) (vs_protoversion s) (vs_softwareversion s) (vs_our_vstring s) b
  (vs_input_eof s) (vs_out_raw s) (vs_world s) (vs_events s).

Definition set_input_eof s := VState (vs_crState s) (vs_conf s) (vs_prefix_wanted s) (vs_our_protoversion s)
  (vs_send_early s) (vs_found_prefix s) (vs_major_protoversion s) (vs_remote_bugs s) (vs_impl_name s)
  (vs_vstring s) (vs_protoversion s) (vs_softwareversion s) (vs_our_vstring s) (vs_in_raw s)
  true (vs_out_raw s) (vs_world s) (vs_events s).

Definition set_vstring s v := VState (vs_crState s) (vs_conf s) (vs_prefix_wanted s) (vs_our_protoversion s)
  (vs_send_early s) (vs_found_prefix s) (vs_major_protoversion s) (vs_remote_bugs s) (vs_impl_name s)
  v (vs_protoversion s) (vs_softwareversion s) (vs_our_vstring s) (vs_in_raw s)
  (vs_input_eof s) (vs_out_raw s) (vs_world s) (vs_events s).

Definition set_found_prefix s := VState (vs_crState s) (vs_conf s) (vs_prefix_wanted s) (vs_our_protoversion s)
  (vs_send_early s) true (vs_major_protoversion s) (vs_remote_bugs s) (vs_impl_name s)
  (vs_vstring s) (vs_protoversion s) (vs_softwareversion s) (vs_our_vstring s) (vs_in_raw s)
  (vs_input_eof s) (vs_out_raw s) (vs_world s) (vs_events s).

Definition set_our_protoversion s p := VState (vs_crState s) (vs_conf s) (vs_prefix_wanted s) p
  (vs_send_early s) (vs_found_prefix s) (vs_major_protoversion s) (vs_remote_bugs s) (vs_impl_name s)
  (vs_vstring s) (vs_protoversion s) (vs_softwareversion s) (vs_our_vstring s) (vs_in_raw s)
  (vs_input_eof s) (vs_out_raw s) (vs_world s) (vs_events s).

Definition set_major s m := VState (vs_crState s) (vs_conf s) (vs_prefix_wanted s) (vs_our_protoversion s)
  (vs_send_early s) (vs_found_prefix s) m (vs_remote_bugs s) (vs_impl_name s)
  (vs_vstring s) (vs_protoversion s) (vs_softwareversion s) (vs_our_vstring s) (vs_in_raw s)
  (vs_input_eof s) (vs_out_raw s) (vs_world s) (vs_events s).

(** What was read of the version string: protocol, software and bugs. *)
Definition set_remote s pv sv bugs := VState (vs_crState s) (vs_conf s) (vs_prefix_wanted s)
  (vs_our_protoversion s) (vs_send_early s) (vs_found_prefix s) (vs_major_protoversion s) bugs
  (vs_impl_name s) (vs_vstring s) (Some pv) (Some sv) (vs_our_vstring s) (vs_in_raw s)
  (vs_input_eof s) (vs_out_raw s) (vs_world s) (vs_events s).

(** Our version string, and what became of the outgoing buffer. *)
Definition set_sent s v (r : bufchain U * world U) := VState (vs_crState s) (vs_conf s)
  (vs_prefix_wanted s) (vs_our_protoversion s) (vs_send_early s) (vs_found_prefix s)
  (vs_major_protoversion s) (vs_remote_bugs s) (vs_impl_name s) (vs_vstring s) (vs_protoversion s)
  (vs_softwareversion s) (Some v) (vs_in_raw s) (vs_input_eof s) r.1 r.2 (vs_events s).

Definition emit s (e : list event) := VState (vs_crState s) (vs_conf s) (vs_prefix_wanted s)
  (vs_our_protoversion s) (vs_send_early s) (vs_found_prefix s) (vs_major_protoversion s)
  (vs_remote_bugs s) (vs_impl_name s) (vs_vstring s) (vs_protoversion s) (vs_softwareversion s)
  (vs_our_vstring s) (vs_in_raw s) (vs_input_eof s) (vs_out_raw s) (vs_world s) (vs_events s ++ e).

(** [conf] is copied; [in_raw] and [out_raw] are the buffers that the caller then
    attaches. *)
Definition ssh_verstring_new `{Allocator} (conf : Conf) (h : heap) (bare_connection_mode : bool)
    (protoversion : list Z) (server_mode : bool) (impl_name : list Z)
    (in_raw out_raw : bufchain U) (w : world U) : res (ssh_verstring_state * heap) :=
  let prefix_wanted :=
    if bare_connection_mode then lit "SSHCONNECTION@putty.projects.tartarus.org-" else lit "SSH-" in
  c_assert (Z.of_nat (length prefix_wanted) <=? PREFIX_MAXLEN) (
    let! r := conf_copy conf h in
    let '(conf, h) := r in
    let! vstring := strbuf_new in
    let send_early := server_mode || negb (ssh_version_includes_v1 protoversion) in
    let! dropstart := conf_get_int conf (CONF "sshbug_dropstart") in
    let send_early := if dropstart =? FORCE_ON then false else send_early in
    Ok (VState CR_START conf prefix_wanted protoversion send_early false 0 0 impl_name vstring
          None None None in_raw false out_raw w [], h)).

(** ** Sending *)

(** Minus signs and spaces become underscores. *)
Definition underscore (c : Z) : Z := if (c =? 45) || (c =? 32) then 95 else c.

Definition our_version_string s : list Z :=
  let v := vs_prefix_wanted s ++ vs_our_protoversion s ++ lit "-" ++ vs_impl_name s ++ sshver in
  let sv_pos := (length (vs_prefix_wanted s) + length (vs_our_protoversion s) + 1)%nat in
  take sv_pos v ++ map underscore (drop sv_pos v).

Definition ssh_verstring_send s : res ssh_verstring_state :=
  let our_vstring := our_version_string s in
  let! r := bufchain_add (vs_out_raw s) our_vstring (vs_world s) in
  let! r := if ssh_version_includes_v2 (vs_our_protoversion s) then bufchain_add r.1 [13] r.2 else Ok r in
  let! r := bufchain_add r.1 [10] r.2 in
  Ok (emit (set_sent s our_vstring r) [Ev_log "We claim version: %s" our_vstring]).

(** ** Receiving *)

(** [vstring->s[vstring->len - 1]] *)
Definition strbuf_last (buf : strbuf) : res Z :=
  let! c := strbuf_contents buf in
  match last c with Some x => Ok x | None => Crash UndefinedBehaviour end.

Fixpoint trim_loop (fuel : nat) (vstring : strbuf) : res strbuf :=
  if 0 <? sb_len vstring then
    let! c := strbuf_last vstring in
    if (c =? 13) || (c =? 10) then
      match fuel with
      | O => Crash OutOfFuel
      | S fuel => let! vstring := strbuf_shrink_by vstring 1 in trim_loop fuel vstring
      end
    else Ok vstring
  else Ok vstring.

(** [strcspn(s, "-")] *)
Fixpoint strcspn_minus (s : list Z) : nat :=
  match s with c :: s => if c =? 45 then O else S (strcspn_minus s) | [] => O end.

(** The protocol version and the software version behind the prefix. *)
Definition pick_versions (vstring : strbuf) (prefix_len : nat) : res (list Z * list Z) :=
  let! mem := strbuf_to_str vstring in
  if bool_decide (length mem < prefix_len)%nat then Crash UndefinedBehaviour
  else
    let! pv_start := asciz_chars (drop prefix_len mem) in
    let pv_len := to_int (Z.of_nat (strcspn_minus pv_start)) in
    if pv_len <? 0 then Crash UndefinedBehaviour
    else
      let protoversion := take (Z.to_nat pv_len) pv_start in
      match drop (Z.to_nat pv_len) pv_start with
      | [] => Ok (protoversion, [])
      | c :: softwareversion => c_assert (c =? 45) (Ok (protoversion, softwareversion))
      end.

(** Version 1 was agreed on: ours is made no higher than theirs. *)
Definition lower_ours s (theirs : list Z) : ssh_verstring_state :=
  if negb (vs_send_early s) && (0 <? ssh_versioncmp (vs_our_protoversion s) theirs)
  then set_our_protoversion s theirs else s.

Definition announce s : res ssh_verstring_state :=
  let s := emit s [Ev_log "Using SSH protocol version %d" [vs_major_protoversion s]] in
  let! s := if negb (vs_send_early s) then ssh_verstring_send s else Ok s in
  Ok (emit s [Ev_got_ssh_version (vs_major_protoversion s)]).

(** From the end of the greeting line on. *)
Definition finish_greeting s : res ssh_verstring_state :=
  let! v := trim_loop (Z.to_nat (sb_len (vs_vstring s))) (vs_vstring s) in
  let s := set_vstring s v in
  let! shown := strbuf_to_str v in
  let! shown := asciz_chars shown in
  let s := emit s [Ev_log "Remote version: %s" shown] in
  let! pv := pick_versions (vs_vstring s) (length (vs_prefix_wanted s)) in
  let '(protoversion, softwareversion) := pv in
  let! b := ssh_detect_bugs (vs_conf s) softwareversion in
  let s := emit (set_remote s protoversion softwareversion b.1) b.2 in
  let ours := vs_our_protoversion s in
  if ssh_version_includes_v2 ours && ssh_version_includes_v2 protoversion then announce (set_major s 2)
  else if ssh_version_includes_v1 ours && ssh_version_includes_v1 protoversion then
    announce (lower_ours (set_major s 1) protoversion)
  else
    let msg :=
      if negb (ssh_version_includes_v2 ours)
      then "SSH protocol version 1 required by our configuration but not provided by remote"%string
      else "SSH protocol version 2 required by our configuration but remote only provides (old, insecure) SSH-1"%string in
    Ok (set_crState (emit s [Ev_sw_abort msg]) CR_START).

(** What one round of the coroutine does: return, or go on at the next wait. *)
Inductive round := Return s | Continue s.

Definition BPP_WAITFOR (here : crpoint) (minlen : Z) s (k : ssh_verstring_state -> res round) : res round :=
  let s := set_crState s here in
  let success := minlen <=? bufchain_size (vs_in_raw s) in
  if negb (success || vs_input_eof s) then Ok (Return s)
  else if negb success then
    Ok (Return (emit s [Ev_remote_error "Remote side unexpectedly closed network connection"%string]))
  else k s.

(** [bufchain_consume(in_raw, len); ssh_check_frozen(ssh)] *)
Definition consume_input s (len : Z) : res ssh_verstring_state :=
  let! b := bufchain_consume (vs_in_raw s) len in
  Ok (emit (set_in_raw s b) [Ev_check_frozen]).

Definition round_prefix s : res round :=
  let len := Z.of_nat (length (vs_prefix_wanted s)) in
  BPP_WAITFOR CR_PREFIX len s (fun s =>
    let! prefix := bufchain_fetch (vs_in_raw s) len in
    if bool_decide (prefix = vs_prefix_wanted s) then
      let! s := consume_input s len in
      let s := set_found_prefix s in
      let! v := BinarySink_put_data (vs_vstring s) (vs_prefix_wanted s) in
      Ok (Continue (set_crState (set_vstring s v) CR_GREETING))
    else Ok (Continue (set_crState s CR_SKIP))).

Definition round_skip s : res round :=
  BPP_WAITFOR CR_SKIP 1 s (fun s =>
    let! data := bufchain_prefix (vs_in_raw s) in
    match memchr data 10 with
    | Some nl =>
        let! s := consume_input s (Z.of_nat nl + 1) in
        Ok (Continue (set_crState s CR_PREFIX))
    | None =>
        let! s := consume_input s (Z.of_nat (length data)) in
        Ok (Continue s)
    end).

Definition round_greeting s : res round :=
  BPP_WAITFOR CR_GREETING 1 s (fun s =>
    let! data := bufchain_prefix (vs_in_raw s) in
    let data := match memchr data 10 with Some nl => take (nl + 1) data | None => data end in
    let! v := BinarySink_put_datapl (vs_vstring s) data in
    let! s := consume_input (set_vstring s v) (Z.of_nat (length data)) in
    let! c := strbuf_last (vs_vstring s) in
    if negb (c =? 10) then Ok (Continue s)
    else let! s := finish_greeting s in Ok (Return s)).

Definition one_round s : res round :=
  match vs_crState s with
  | CR_START =>
      let! s := if vs_send_early s then ssh_verstring_send s else Ok s in
      Ok (Continue (set_crState s CR_PREFIX))
  | CR_PREFIX => round_prefix s
  | CR_SKIP => round_skip s
  | CR_GREETING => round_greeting s
  end.

Fixpoint run_rounds (fuel : nat) s : res ssh_verstring_state :=
  match fuel with
  | O => Crash OutOfFuel
  | S fuel =>
      let! r := one_round s in
      match r with Return s => Ok s | Continue s => run_rounds fuel s end
  end.

(** At most two rounds for a byte, the first one and the one that waits. *)
Definition ssh_verstring_handle_input s : res ssh_verstring_state :=
  run_rounds (2 * Z.to_nat (bufchain_size (vs_in_raw s)) + 3) s.

Definition ssh_verstring_get_remote s : res (list Z) := strbuf_to_str (vs_vstring s).
Definition ssh_verstring_get_local s : option (list Z) := vs_our_vstring s.
Definition ssh_verstring_get_bugs s : Z := vs_remote_bugs s.

End protocol.

Arguments ssh_verstring_state : clear implicits.
Arguments round : clear implicits.
