(* ===== verification/VerStringRun.v ===== *)
(** * The version exchange, byte by byte

    However the network splits the input, the handler behaves as an automaton that
    reads it one byte at a time: at the start of a line it collects as many bytes as
    the prefix has, skips the line if they differ, and otherwise collects the line. *)

From Stdlib Require Import String.
From stdpp Require Import gmap.
From S2P Require Import Prelude Callback Bufchain Marshal Strbuf Wildcard Ptrlen ConfData Filename Conf VerString.
Local Open Scope cmodel_scope.
Local Open Scope Z_scope.

(** ** The automaton *)

(** The bytes of a line so far, fewer than the prefix has; in a line to be skipped;
    the greeting so far; the greeting and what came after it. *)
Inductive lstate :=
| L_START (l : list Z)
| L_SKIP
| L_LINE (acc : list Z)
| L_DONE (line rest : list Z).

Definition lstep (pre : list Z) (st : lstate) (b : Z) : lstate :=
  match st with
  | L_START l =>
      let l := l ++ [b] in
      if decide (length l < length pre)%nat then L_START l
      else if decide (l = pre) then L_LINE l
      else match memchr l 10 with Some nl => L_START (drop (nl + 1) l) | None => L_SKIP end
  | L_SKIP => if b =? 10 then L_START [] else L_SKIP
  | L_LINE acc => if b =? 10 then L_DONE (acc ++ [b]) [] else L_LINE (acc ++ [b])
  | L_DONE line rest => L_DONE line (rest ++ [b])
  end.

Notation lrun pre := (foldl (lstep pre)).

Section automaton.
  Variable pre : list Z.
  Hypothesis Hpre : pre <> [].

Lemma lrun_start l2 : forall l1, (length (l1 ++ l2) < length pre)%nat ->
  lrun pre (L_START l1) l2 = L_START (l1 ++ l2).
Proof using.
  induction l2 as [|b l2 IH]; intros l1 H; cbn [foldl]; [by rewrite app_nil_r|].
  unfold lstep at 2. cbv zeta. rewrite length_app in H. cbn [length] in H.
  rewrite decide_True by (rewrite length_app; cbn; lia).
  rewrite IH; [by rewrite <-app_assoc|]. rewrite !length_app. cbn. lia.
Qed.

(** The byte that completes the prefix's length. *)
Lemma lrun_full h : length h = length pre ->
  lrun pre (L_START []) h =
    if decide (h = pre) then L_LINE h
    else match memchr h 10 with Some nl => L_START (drop (nl + 1) h) | None => L_SKIP end.
Proof using Hpre.
  intros Hl. destruct (rev_ind_or_nil h) as [->|(h' & b & ->)]; [by destruct pre|].
  rewrite foldl_app. rewrite length_app in Hl. cbn [length] in Hl.
  rewrite lrun_start by (cbn; lia). cbn [foldl app]. unfold lstep. cbv zeta.
  by rewrite decide_False by (rewrite length_app; cbn; lia).
Qed.

Lemma lrun_skip l : 10 ∉ l -> lrun pre L_SKIP l = L_SKIP.
Proof using.
  induction l as [|b l IH]; intros H; cbn [foldl]; [done|].
  apply not_elem_of_cons in H as [Hb H]. unfold lstep at 2.
  rewrite (proj2 (Z.eqb_neq _ _)) by done. by apply IH.
Qed.

Lemma lrun_skip_line l rest : 10 ∉ l -> lrun pre L_SKIP (l ++ 10 :: rest) = lrun pre (L_START []) rest.
Proof using. intros H. rewrite foldl_app, lrun_skip by done. done. Qed.

Lemma memchr_split l : match memchr l 10 with
  | Some nl => exists l2, l = take nl l ++ 10 :: l2 /\ 10 ∉ take nl l /\ drop (nl + 1) l = l2 /\ (nl < length l)%nat
  | None => 10 ∉ l
  end.
Proof using.
  induction l as [|b l IH]; cbn [memchr]; [apply not_elem_of_nil|].
  destruct (Z.eqb_spec b 10) as [->|Hne].
  - exists l. split_and!; [done|apply not_elem_of_nil|done|cbn; lia].
  - destruct (memchr l 10) as [nl|]; cbn [fmap option_fmap option_map].
    + destruct IH as (l2 & E & Hn & Hd & Hlt). exists l2.
      split_and!; [cbn; by f_equal|cbn; apply not_elem_of_cons; by split|done|cbn; lia].
    + apply not_elem_of_cons. by split.
Qed.

(** A line that does not start with the prefix is skipped from its start. *)
Lemma lrun_mismatch h l : length h = length pre -> h <> pre ->
  lrun pre (L_START []) (h ++ l) = lrun pre L_SKIP (h ++ l).
Proof using Hpre.
  intros Hl Hne. rewrite !foldl_app, lrun_full, decide_False by done. f_equal.
  pose proof (memchr_split h) as Hm. destruct (memchr h 10) as [nl|].
  - destruct Hm as (l2 & E & Hn & Hd & Hlt). rewrite E at 2. rewrite lrun_skip_line by done.
    rewrite Hd, lrun_start; [done|]. cbn [app]. rewrite <-Hl, E, length_app. cbn. lia.
  - by rewrite lrun_skip.
Qed.

Lemma lrun_match l : lrun pre (L_START []) (pre ++ l) = lrun pre (L_LINE pre) l.
Proof using Hpre. by rewrite foldl_app, lrun_full, decide_True. Qed.

Lemma lrun_line l : forall acc, 10 ∉ l -> lrun pre (L_LINE acc) l = L_LINE (acc ++ l).
Proof using.
  induction l as [|b l IH]; intros acc H; cbn [foldl]; [by rewrite app_nil_r|].
  apply not_elem_of_cons in H as [Hb H]. unfold lstep at 2.
  rewrite (proj2 (Z.eqb_neq _ _)) by done. rewrite IH by done. by rewrite <-app_assoc.
Qed.

Lemma lrun_done l : forall line rest, lrun pre (L_DONE line rest) l = L_DONE line (rest ++ l).
Proof using.
  induction l as [|b l IH]; intros line rest; cbn [foldl lstep]; [by rewrite app_nil_r|].
  rewrite IH. by rewrite <-app_assoc.
Qed.

Lemma lrun_line_end acc l rest : 10 ∉ l ->
  lrun pre (L_LINE acc) (l ++ 10 :: rest) = L_DONE (acc ++ l ++ [10]) rest.
Proof using.
  intros H. rewrite foldl_app, lrun_line by done. cbn [foldl lstep].
  rewrite Z.eqb_refl, lrun_done, <-app_assoc. done.
Qed.

(** The bytes that a state holds: no more than were read. *)
Definition lsize (st : lstate) : nat :=
  match st with
  | L_START l => length l
  | L_SKIP => 0
  | L_LINE acc => length acc
  | L_DONE line rest => length line + length rest
  end.

Lemma lstep_size st b : (lsize (lstep pre st b) <= lsize st + 1)%nat.
Proof using.
  destruct st as [l| |acc|line rest]; cbn [lstep lsize].
  - repeat case_decide; cbn [lsize]; rewrite ?length_app; cbn [length]; [lia|lia|].
    destruct (memchr _ 10); cbn [lsize]; rewrite ?length_drop, ?length_app; cbn [length]; lia.
  - destruct (b =? 10); cbn; lia.
  - destruct (b =? 10); cbn [lsize]; rewrite ?length_app; cbn [length]; lia.
  - rewrite length_app. cbn. lia.
Qed.

Lemma lrun_size l : forall st, (lsize (lrun pre st l) <= lsize st + length l)%nat.
Proof using.
  induction l as [|b l IH]; intros st; cbn [foldl length]; [lia|].
  pose proof (IH (lstep pre st b)). pose proof (lstep_size st b). lia.
Qed.

End automaton.

(** ** The rounds of the handler *)

Definition frozen_checks (evs : list event) : Prop := Forall (fun e => e = Ev_check_frozen) evs.

Section rounds.
  Context {U : Type}.
  Variable sshver : list Z.
  Implicit Types s : ssh_verstring_state U.

(** What the rounds up to the end of the greeting change. *)
Definition upd s (cr : crpoint) (fp : bool) (v : strbuf) (b : bufchain U) (evs : list event) :=
  VState cr (vs_conf s) (vs_prefix_wanted s) (vs_our_protoversion s)
    (vs_send_early s) fp (vs_major_protoversion s) (vs_remote_bugs s) (vs_impl_name s)
    v (vs_protoversion s) (vs_softwareversion s) (vs_our_vstring s) b
    (vs_input_eof s) (vs_out_raw s) (vs_world s) (vs_events s ++ evs).

Lemma upd_upd s cr fp v b evs cr2 fp2 v2 b2 evs2 :
  upd (upd s cr fp v b evs) cr2 fp2 v2 b2 evs2 = upd s cr2 fp2 v2 b2 (evs ++ evs2).
Proof. unfold upd. cbn. by rewrite <-app_assoc. Qed.

Lemma upd_self s : s = upd s (vs_crState s) (vs_found_prefix s) (vs_vstring s) (vs_in_raw s) [].
Proof. destruct s. unfold upd. cbn. by rewrite app_nil_r. Qed.

Lemma set_crState_upd s cr fp v b evs c :
  set_crState (upd s cr fp v b evs) c = upd s c fp v b evs.
Proof. done. Qed.

(** The bytes [l] are still to be read, those before them led to [st]. *)
Definition located s (st : lstate) (l : list Z) : Prop :=
  chain_holds (vs_in_raw s) l /\
  match st with
  | L_START [] => vs_crState s = CR_PREFIX /\ strbuf_holds (vs_vstring s) []
  | L_SKIP => vs_crState s = CR_SKIP /\ strbuf_holds (vs_vstring s) []
  | L_LINE acc => vs_crState s = CR_GREETING /\ strbuf_holds (vs_vstring s) acc
  | _ => False
  end.

(** The handler waits for more input. *)
Definition at_wait s (st : lstate) : Prop :=
  match st with
  | L_START l => located s (L_START []) l /\ (length l < length (vs_prefix_wanted s))%nat
  | _ => located s st []
  end.

(** The bytes of the greeting that are already in the buffer. *)
Definition kept (st : lstate) : nat := match st with L_LINE acc => length acc | _ => 0 end.

Lemma consume_ok s l n :
  chain_holds (vs_in_raw s) l -> (n <= length l)%nat -> Z.of_nat (length l) < 2 ^ 31 ->
  exists b, consume_input s (Z.of_nat n) = Ok (emit (set_in_raw s b) [Ev_check_frozen]) /\
    chain_holds b (drop n l) /\ notify b = notify (vs_in_raw s).
Proof.
  intros H Hn Hl. unfold consume_input.
  destruct (chain_consume (vs_in_raw s) l H (Z.of_nat n)) as (b & -> & Hb & Hq & Hi);
    [unfold SIZE_T; lia|lia|lia|]. rewrite Nat2Z.id in Hb. exists b. unfold notify. by rewrite Hq, Hi.
Qed.

Lemma waitfor_ok s here minlen l k :
  chain_holds (vs_in_raw s) l -> Z.of_nat (length l) < 2 ^ 31 -> vs_input_eof s = false ->
  BPP_WAITFOR here minlen s k =
    if minlen <=? Z.of_nat (length l) then k (set_crState s here) else Ok (Return (set_crState s here)).
Proof.
  intros H Hl He. unfold BPP_WAITFOR. cbn [vs_in_raw set_crState vs_input_eof].
  rewrite (chain_size _ _ H) by (unfold SIZE_T; lia). rewrite He, orb_false_r.
  by destruct (minlen <=? _).
Qed.

Lemma strbuf_last_ok buf c x : strbuf_holds buf (c ++ [x]) -> strbuf_last buf = Ok x.
Proof. intros H. unfold strbuf_last. rewrite (strbuf_contents_holds _ _ H). cbn. by rewrite last_snoc. Qed.

Definition run_result (fuel : nat) s (st : lstate) : Prop :=
  match st with
  | L_DONE line rest =>
      exists fp v b evs, frozen_checks evs /\ notify b = notify (vs_in_raw s) /\
        strbuf_holds v line /\ chain_holds b rest /\
        run_rounds sshver fuel s = finish_greeting sshver (upd s CR_GREETING fp v b evs)
  | _ =>
      exists cr fp v b evs, frozen_checks evs /\ notify b = notify (vs_in_raw s) /\
        at_wait (upd s cr fp v b evs) st /\
        run_rounds sshver fuel s = Ok (upd s cr fp v b evs)
  end.

Lemma run_continue fuel s cr fp v b evs st :
  one_round sshver s = Ok (Continue (upd s cr fp v b evs)) -> frozen_checks evs ->
  notify b = notify (vs_in_raw s) ->
  run_result fuel (upd s cr fp v b evs) st -> run_result (S fuel) s st.
Proof.
  intros E Hf Hb H. unfold run_result in *. cbn [run_rounds]. rewrite E. cbn [res_bind].
  destruct st; destruct H as (x1 & H).
  1-3: destruct H as (x2 & x3 & x4 & x5 & H1 & Hn & H2 & H3); rewrite upd_upd in H2, H3;
    do 5 eexists; split_and!; [| |exact H2|exact H3]; [by apply Forall_app|by rewrite Hn].
  destruct H as (x2 & x3 & x4 & H1 & Hn & H2 & H3 & H4). rewrite upd_upd in H4.
  do 4 eexists. split_and!; [|by rewrite Hn|exact H2|exact H3|exact H4]. by apply Forall_app.
Qed.

Lemma run_return fuel s st cr :
  one_round sshver s = Ok (Return (set_crState s cr)) -> at_wait (set_crState s cr) st ->
  run_result (S fuel) s st.
Proof.
  intros E H. assert (Es : set_crState s cr = upd s cr (vs_found_prefix s) (vs_vstring s) (vs_in_raw s) [])
    by (rewrite (upd_self s) at 1; done).
  rewrite Es in *. unfold run_result. cbn [run_rounds]. rewrite E. cbn [res_bind].
  destruct st; [| | |by destruct H];
    (do 5 eexists; split_and!; [|done|exact H|done]; constructor).
Qed.

Definition need (st : lstate) (l : list Z) : nat :=
  match st with L_START _ => 2 * length l + 2 | _ => 2 * length l + 1 end.

Definition runs_with (fuel : nat) : Prop := forall s st l,
  located s st l -> vs_input_eof s = false -> vs_prefix_wanted s <> [] ->
  Z.of_nat (kept st + length l) <= strbuf_limit -> (need st l <= fuel)%nat ->
  run_result fuel s (lrun (vs_prefix_wanted s) st l).

Lemma run_prefix fuel s l : runs_with fuel ->
  located s (L_START []) l -> vs_input_eof s = false -> vs_prefix_wanted s <> [] ->
  Z.of_nat (length l) <= strbuf_limit -> (2 * length l + 1 <= fuel)%nat ->
  run_result (S fuel) s (lrun (vs_prefix_wanted s) (L_START []) l).
Proof.
  intros IH (Hch & Hcr & Hv) He Hp Hl Hf. unfold strbuf_limit in Hl. set (pre := vs_prefix_wanted s) in *.
  assert (Er : one_round sshver s = round_prefix s) by (unfold one_round; by rewrite Hcr).
  unfold round_prefix in Er. cbv zeta in Er. rewrite (waitfor_ok _ _ _ l) in Er by (done || lia).
  fold pre in Er. destruct (Z.leb_spec (Z.of_nat (length pre)) (Z.of_nat (length l))) as [Hle|Hlt].
  2: { rewrite lrun_start by (cbn; lia). eapply run_return; [exact Er|].
       split; [done|]. change (length l < length pre)%nat. lia. }
  cbn [vs_in_raw set_crState] in Er. rewrite (chain_fetch _ _ Hch) in Er by (unfold SIZE_T; lia).
  rewrite Nat2Z.id in Er. cbn [res_bind vs_prefix_wanted] in Er. fold pre in Er.
  assert (Hh : length (take (length pre) l) = length pre) by (rewrite length_take; lia).
  rewrite <-(take_drop (length pre) l) at 1. case_bool_decide as Eq.
  - rewrite Eq, lrun_match by done.
    destruct (consume_ok (set_crState s CR_PREFIX) l (length pre)) as (b & Ec & Hb & Hnb); [done|lia|lia|].
    rewrite Ec in Er. 
    cbn [res_bind vs_vstring vs_prefix_wanted set_found_prefix emit set_in_raw set_crState] in Er.
    destruct (strbuf_write_ok (vs_vstring s) [] pre Hv) as (v & Ev & Hv2);
      [cbn; unfold strbuf_limit; lia|]. cbn [app] in Hv2.
    unfold BinarySink_put_data, bs_write, strbuf_sink in Er. fold pre in Er. rewrite Ev in Er. cbn [res_bind] in Er.
    apply (run_continue _ _ CR_GREETING true v b [Ev_check_frozen]); [exact Er|by constructor|exact Hnb|].
    apply (IH (upd s CR_GREETING true v b [Ev_check_frozen]) (L_LINE pre));
      [by split; [|split]|done|done|cbn [kept]|cbn [need]]; rewrite length_drop; unfold strbuf_limit; lia.
  - rewrite lrun_mismatch by done. rewrite take_drop.
    apply (run_continue _ _ CR_SKIP (vs_found_prefix s) (vs_vstring s) (vs_in_raw s) []).
    { rewrite Er. unfold upd, set_crState. cbn. by rewrite app_nil_r. }
    { constructor. } { done. }
    by apply (IH (upd s CR_SKIP (vs_found_prefix s) (vs_vstring s) (vs_in_raw s) []) L_SKIP);
      [split; [|split]|..|cbn [need]; lia].
Qed.

(** A round that takes bytes off the buffer and goes on in the same way. *)
Lemma drop_line (p rest l2 : list Z) nl :
  p = take nl p ++ 10 :: l2 -> drop (nl + 1) p = l2 -> drop (nl + 1) (p ++ rest) = l2 ++ rest.
Proof.
  intros E Hd. rewrite drop_app_le, Hd; [done|].
  apply (f_equal length) in E. rewrite length_app, length_take in E. cbn in E. lia.
Qed.

Lemma run_skip fuel s l : runs_with fuel ->
  located s L_SKIP l -> vs_input_eof s = false -> vs_prefix_wanted s <> [] ->
  Z.of_nat (length l) <= strbuf_limit -> (2 * length l <= fuel)%nat ->
  run_result (S fuel) s (lrun (vs_prefix_wanted s) L_SKIP l).
Proof.
  intros IH (Hch & Hcr & Hv) He Hp Hl Hf. unfold strbuf_limit in Hl.
  assert (Er : one_round sshver s = round_skip s) by (unfold one_round; by rewrite Hcr).
  unfold round_skip in Er. rewrite (waitfor_ok _ _ _ l) in Er by (done || lia).
  destruct (decide (l = [])) as [->|Hne].
  { by eapply run_return; [exact Er|]. }
  rewrite (proj2 (Z.leb_le _ _)) in Er by (destruct l; [done|cbn; lia]).
  cbn [vs_in_raw set_crState] in Er.
  destruct (chain_prefix _ _ Hch Hne) as (p & rest & Ep & Hpne & ->). rewrite Ep in Er. cbn [res_bind] in Er.
  rewrite length_app in *. assert (length p <> 0%nat) by by destruct p.
  pose proof (memchr_split p) as Hm. destruct (memchr p 10) as [nl|].
  - destruct Hm as (l2 & E & Hn & Hd & Hlt).
    destruct (consume_ok (set_crState s CR_SKIP) (p ++ rest) (nl + 1)) as (b & Ec & Hb & Hnb);
      [done|rewrite length_app; lia|rewrite length_app; lia|].
    rewrite Nat2Z.inj_add in Ec. change (Z.of_nat 1) with 1 in Ec. rewrite Ec in Er.
    rewrite (drop_line _ _ _ _ E Hd) in Hb.
    rewrite E at 1. rewrite <-app_assoc. cbn [app]. rewrite lrun_skip_line by done.
    apply (f_equal length) in E. rewrite length_app, length_take in E. cbn [length] in E.
    apply (run_continue _ _ CR_PREFIX (vs_found_prefix s) (vs_vstring s) b [Ev_check_frozen]);
      [exact Er|by constructor|exact Hnb|].
    apply (IH (upd s CR_PREFIX (vs_found_prefix s) (vs_vstring s) b [Ev_check_frozen]) (L_START []));
      [by split; [|split]|done|done|cbn [kept]|cbn [need]]; rewrite length_app; unfold strbuf_limit; lia.
  - destruct (consume_ok (set_crState s CR_SKIP) (p ++ rest) (length p)) as (b & Ec & Hb & Hnb);
      [done|rewrite length_app; lia|rewrite length_app; lia|].
    rewrite drop_app_length in Hb. rewrite Ec in Er. rewrite foldl_app, lrun_skip by done.
    apply (run_continue _ _ CR_SKIP (vs_found_prefix s) (vs_vstring s) b [Ev_check_frozen]);
      [exact Er|by constructor|exact Hnb|].
    apply (IH (upd s CR_SKIP (vs_found_prefix s) (vs_vstring s) b [Ev_check_frozen]) L_SKIP);
      [by split; [|split]|done|done|cbn [kept]|cbn [need]]; unfold strbuf_limit; lia.
Qed.

Lemma run_greeting fuel s acc l : runs_with fuel ->
  located s (L_LINE acc) l -> vs_input_eof s = false -> vs_prefix_wanted s <> [] ->
  Z.of_nat (length acc + length l) <= strbuf_limit -> (2 * length l <= fuel)%nat ->
  run_result (S fuel) s (lrun (vs_prefix_wanted s) (L_LINE acc) l).
Proof.
  intros IH (Hch & Hcr & Hv) He Hp Hl Hf. pose proof Hl as Hlim. unfold strbuf_limit in Hl.
  assert (Er : one_round sshver s = round_greeting sshver s) by (unfold one_round; by rewrite Hcr).
  unfold round_greeting in Er. rewrite (waitfor_ok _ _ _ l) in Er by (done || lia).
  destruct (decide (l = [])) as [->|Hne].
  { by eapply run_return; [exact Er|]. }
  rewrite (proj2 (Z.leb_le _ _)) in Er by (destruct l; [done|cbn; lia]).
  cbn [vs_in_raw set_crState] in Er.
  destruct (chain_prefix _ _ Hch Hne) as (p & rest & Ep & Hpne & ->). rewrite Ep in Er. cbn [res_bind] in Er.
  rewrite length_app in *. assert (length p <> 0%nat) by by destruct p.
  unfold BinarySink_put_datapl, BinarySink_put_data, bs_write, strbuf_sink in Er.
  cbn [vs_vstring set_crState] in Er.
  pose proof (memchr_split p) as Hm. destruct (memchr p 10) as [nl|].
  - destruct Hm as (l2 & E & Hn & Hd & Hlt).
    assert (Et : take (nl + 1) p = take nl p ++ [10]).
    { rewrite E at 1. rewrite take_app_ge by (rewrite length_take; lia).
      rewrite length_take, Nat.min_l by lia. by replace (nl + 1 - nl)%nat with 1%nat by lia. }
    cbv zeta in Er. destruct (strbuf_write_ok (vs_vstring s) acc (take (nl + 1) p) Hv) as (v & Ev & Hv2);
      [rewrite length_app, length_take; lia|]. rewrite Ev in Er. cbn [res_bind] in Er.
    assert (Hlt1 : length (take (nl + 1) p) = (nl + 1)%nat) by (rewrite length_take; lia).
    rewrite Hlt1 in Er.
    destruct (consume_ok (set_vstring (set_crState s CR_GREETING) v) (p ++ rest) (nl + 1)) as (b & Ec & Hb & Hnb);
      [done|rewrite length_app; lia|rewrite length_app; lia|].
    rewrite Ec in Er. cbn [res_bind vs_vstring emit set_in_raw set_vstring] in Er.
    rewrite (drop_line _ _ _ _ E Hd) in Hb. rewrite Et, app_assoc in Hv2.
    rewrite (strbuf_last_ok _ _ _ Hv2) in Er. cbn [res_bind negb Z.eqb] in Er.
    rewrite E at 1. rewrite <-app_assoc. cbn [app]. rewrite lrun_line_end by done.
    rewrite <-app_assoc in Hv2.
    exists (vs_found_prefix s), v, b, [Ev_check_frozen]. split_and!; [by constructor|exact Hnb|done|done|].
    cbn [run_rounds]. rewrite Er. cbn. by destruct (finish_greeting _ _).
  - cbv zeta in Er. destruct (strbuf_write_ok (vs_vstring s) acc p Hv) as (v & Ev & Hv2);
      [rewrite length_app; lia|]. rewrite Ev in Er. cbn [res_bind] in Er.
    destruct (consume_ok (set_vstring (set_crState s CR_GREETING) v) (p ++ rest) (length p)) as (b & Ec & Hb & Hnb);
      [done|rewrite length_app; lia|rewrite length_app; lia|].
    rewrite Ec in Er. cbn [res_bind vs_vstring emit set_in_raw set_vstring] in Er.
    rewrite drop_app_length in Hb. rewrite foldl_app, lrun_line by done.
    destruct (rev_ind_or_nil p) as [->|(p' & x & ->)]; [done|].
    rewrite app_assoc in Hv2. rewrite (strbuf_last_ok _ _ _ Hv2) in Er. rewrite <-app_assoc in Hv2.
    assert (x <> 10) by (intros ->; apply Hm, elem_of_app; right; left).
    cbn [res_bind] in Er. rewrite (proj2 (Z.eqb_neq _ _)) in Er by done. cbn [negb] in Er.
    apply (run_continue _ _ CR_GREETING (vs_found_prefix s) v b [Ev_check_frozen]);
      [exact Er|by constructor|exact Hnb|].
    apply (IH (upd s CR_GREETING (vs_found_prefix s) v b [Ev_check_frozen]) (L_LINE (acc ++ p' ++ [x])));
      [by split; [|split]|done|done|cbn [kept]|cbn [need]]; rewrite ?length_app in *; cbn [length] in *; lia.
Qed.

Lemma run_rounds_ok fuel : runs_with fuel.
Proof.
  induction fuel as [|fuel IH]; intros s st l Hloc He Hp Hl Hf.
  { destruct st; cbn in Hf; lia. }
  destruct st as [[|x l0]| |acc|line rest]; cbn [kept need Nat.add] in *.
  - apply run_prefix; (done || lia).
  - by destruct Hloc.
  - apply run_skip; (done || lia).
  - apply run_greeting; (done || lia).
  - by destruct Hloc.
Qed.

End rounds.
