(* ===== verification/VerStringBugs.v ===== *)
(** * Version numbers and the bugs of servers: what the code decides *)

From Stdlib Require Import String.
From stdpp Require Import gmap.
From S2P Require Import Prelude Callback Bufchain Marshal Strbuf Wildcard WildcardSpec Ptrlen ConfData Filename Conf ConfInv ConfSpec ConfList VerString.
Local Open Scope string_scope.
Local Open Scope cmodel_scope.
Local Open Scope list_scope.
Local Open Scope Z_scope.

(** ** Version numbers *)

(** A version is read as two numbers. *)
Definition version_number (v : list Z) : Z * Z :=
  let '(major, rest) := strtoul v in (major, (strtoul (skip_dot rest)).1).

Definition version_lt (a b : Z * Z) : Prop := a.1 < b.1 \/ (a.1 = b.1 /\ a.2 < b.2).

Lemma ssh_versioncmp_cases a b :
  let va := version_number a in
  let vb := version_number b in
  (ssh_versioncmp a b = -1 /\ version_lt va vb) \/
  (ssh_versioncmp a b = 0 /\ va = vb) \/
  (ssh_versioncmp a b = 1 /\ version_lt vb va).
Proof.
  unfold ssh_versioncmp, version_number, version_lt.
  destruct (strtoul a) as [a1 ae], (strtoul b) as [b1 be]. cbv zeta.
  destruct (strtoul (skip_dot ae)) as [a2 ?], (strtoul (skip_dot be)) as [b2 ?]. cbn [fst snd].
  destruct (Z.eqb_spec a1 b1) as [->|H1]; cbn [negb].
  - destruct (Z.eqb_spec a2 b2) as [->|H2]; cbn [negb]; [by right; left|].
    destruct (Z.ltb_spec a2 b2); [left|right; right]; (split; [done|]; right; lia).
  - destruct (Z.ltb_spec a1 b1); [left|right; right]; (split; [done|]; left; lia).
Qed.

Lemma includes_v1_spec v : ssh_version_includes_v1 v = true <-> version_lt (version_number v) (2, 0).
Proof.
  unfold ssh_version_includes_v1. rewrite Z.ltb_lt.
  destruct (ssh_versioncmp_cases v (lit "2.0")) as [[-> H]|[[-> H]|[-> H]]];
    change (version_number (lit "2.0")) with (2, 0) in H; unfold version_lt in *.
  - split; [done|lia].
  - rewrite H. cbn. lia.
  - cbn [fst snd] in *. lia.
Qed.

Lemma includes_v2_spec v : ssh_version_includes_v2 v = true <-> ~ version_lt (version_number v) (1, 99).
Proof.
  unfold ssh_version_includes_v2. rewrite Z.leb_le.
  destruct (ssh_versioncmp_cases v (lit "1.99")) as [[-> H]|[[-> H]|[-> H]]];
    change (version_number (lit "1.99")) with (1, 99) in H; unfold version_lt in *.
  - split; [lia|done].
  - rewrite H. cbn. lia.
  - cbn [fst snd] in *. lia.
Qed.

(** Which protocols a version number stands for: below 2.0 the first one, from 1.99 on
    the second. *)
#[export] Instance version_lt_dec a b : Decision (version_lt a b).
Proof. unfold version_lt. apply _. Defined.

Definition speaks_v1 (v : list Z) : bool := bool_decide (version_lt (version_number v) (2, 0)).
Definition speaks_v2 (v : list Z) : bool := bool_decide (~ version_lt (version_number v) (1, 99)).
Definition newer (a b : list Z) : bool := bool_decide (version_lt (version_number b) (version_number a)).

Lemma includes_v1_eq v : ssh_version_includes_v1 v = speaks_v1 v.
Proof. apply eq_true_iff_eq. unfold speaks_v1. by rewrite includes_v1_spec, bool_decide_eq_true. Qed.

Lemma includes_v2_eq v : ssh_version_includes_v2 v = speaks_v2 v.
Proof. apply eq_true_iff_eq. unfold speaks_v2. by rewrite includes_v2_spec, bool_decide_eq_true. Qed.

Lemma versioncmp_newer a b : (0 <? ssh_versioncmp a b) = newer a b.
Proof.
  apply eq_true_iff_eq. unfold newer. rewrite Z.ltb_lt, bool_decide_eq_true.
  destruct (ssh_versioncmp_cases a b) as [[-> H]|[[-> H]|[-> H]]]; unfold version_lt in *;
    [lia|rewrite H; lia|done].
Qed.

(** The code's tests in the place of those of the specification. *)
Ltac code_versions := rewrite <-?includes_v2_eq, <-?includes_v1_eq, <-?versioncmp_newer.

(** Every version speaks one of the two protocols. *)
Lemma includes_some v : ssh_version_includes_v1 v = false -> ssh_version_includes_v2 v = true.
Proof.
  intros H. apply includes_v2_spec. intros Hlt. enough (ssh_version_includes_v1 v = true) by congruence.
  apply includes_v1_spec. unfold version_lt in *. cbn [fst snd] in *. lia.
Qed.

(** ** Bugs *)

(** How a bug is detected: by the exact name, by wildcards, by wildcards unless
    another one matches, or not at all. *)
Inductive detection :=
| By_names (names : list string)
| By_wildcards (wcs : list string)
| By_wildcards_unless (w : string) (wcs : list string)
| Never.

(** Option, number of the flag, detection and message of each test, in order. *)
Definition bug_table : list (string * Z * detection * string) := [
  ("sshbug_ignore1", 0,
   By_names ["1.2.18"; "1.2.19"; "1.2.20"; "1.2.21"; "1.2.22"; "Cisco-1.25"; "OSU_1.4alpha3"; "OSU_1.5alpha4"],
   "We believe remote version has SSH-1 ignore bug");
  ("sshbug_plainpw1", 2, By_names ["Cisco-1.25"; "OSU_1.4alpha3"],
   "We believe remote version needs a plain SSH-1 password");
  ("sshbug_rsa1", 3, By_names ["Cisco-1.25"],
   "We believe remote version can't handle SSH-1 RSA authentication");
  ("sshbug_hmac2", 1, By_wildcards_unless "* VShell" ["2.1.0*"; "2.0.*"; "2.2.0*"; "2.3.0*"; "2.1 *"],
   "We believe remote version has SSH-2 HMAC bug");
  ("sshbug_derivekey2", 5, By_wildcards_unless "* VShell" ["2.0.0*"; "2.0.10*"],
   "We believe remote version has SSH-2 key-derivation bug");
  ("sshbug_rsapad2", 4,
   By_wildcards ["OpenSSH_2.[5-9]*"; "OpenSSH_3.[0-2]*"; "mod_sftp/0.[0-8]*"; "mod_sftp/0.9.[0-8]"],
   "We believe remote version has SSH-2 RSA padding bug");
  ("sshbug_pksessid2", 7, By_wildcards ["OpenSSH_2.[0-2]*"],
   "We believe remote version has SSH-2 public-key-session-ID bug");
  ("sshbug_rekey2", 6,
   By_wildcards ["DigiSSH_2.0"; "OpenSSH_2.[0-4]*"; "OpenSSH_2.5.[0-3]*"; "Sun_SSH_1.0"; "Sun_SSH_1.0.1"; "WeOnlyDo-*"],
   "We believe remote version has SSH-2 rekey bug");
  ("sshbug_maxpkt2", 8, By_wildcards ["1.36_sshlib GlobalSCAPE"; "1.36 sshlib: GlobalScape"],
   "We believe remote version ignores SSH-2 maximum packet size");
  ("sshbug_ignore2", 9, Never, "We believe remote version has SSH-2 ignore bug");
  ("sshbug_oldgex2", 12, By_wildcards ["OpenSSH_2.[235]*"], "We believe remote version has outdated SSH-2 GEX");
  ("sshbug_winadj", 10, Never, "We believe remote version has winadj bug");
  ("sshbug_chanreq", 11,
   By_wildcards ["OpenSSH_[2-5].*"; "OpenSSH_6.[0-6]*"; "dropbear_0.[2-4][0-9]*"; "dropbear_0.5[01]*"],
   "We believe remote version has SSH-2 channel request bug");
  ("sshbug_filter_kexinit", 13, Never, "We believe remote version requires us to filter our KEXINIT");
  ("sshbug_rsa_sha2_cert_userauth", 14, By_wildcards ["OpenSSH_7.[2-7]*"],
   "We believe remote version has SSH-2 RSA/SHA-2/certificate userauth bug")].

(** The test of a row, as the code makes it. *)
Definition row_condition (conf : Conf) (imp : list Z) (opt : string) (d : detection) : res bool :=
  match d with
  | By_names names => bug_condition conf opt (is_one_of imp names)
  | By_wildcards wcs => bug_condition conf opt (wc_any imp wcs)
  | By_wildcards_unless w wcs => bug_condition conf opt (wc_unless imp w (wc_any imp wcs))
  | Never => let! v := conf_get_int conf (config_primary_key opt) in Ok (v =? FORCE_ON)
  end.

Fixpoint detect_rows (conf : Conf) (imp : list Z) (rows : list (string * Z * detection * string))
    (st : Z * list event) : res (Z * list event) :=
  match rows with
  | [] => Ok st
  | (opt, bit, d, msg) :: rows =>
      let! st := bug_if (row_condition conf imp opt d) (Z.shiftl 1 bit) msg st in
      detect_rows conf imp rows st
  end.

Lemma res_bind_ret {A} (x : res A) : (let! a := x in Ok a) = x.
Proof. by destruct x. Qed.

Lemma res_bind_ext {A B} (x : res A) (k k' : A -> res B) :
  (forall a, k a = k' a) -> res_bind x k = res_bind x k'.
Proof. intros H. destruct x; cbn; [apply H|done]. Qed.

Lemma ssh_detect_bugs_rows conf imp : ssh_detect_bugs conf imp = detect_rows conf imp bug_table (0, []).
Proof.
  unfold ssh_detect_bugs, bug_table. cbn [detect_rows row_condition].
  do 14 (refine (res_bind_ext _ _ _ _); intros). symmetry. apply res_bind_ret.
Qed.

(** ** What is detected *)

(** The software version matches a wildcard, in the meaning of wildcards. *)
Definition wc_hit (imp : list Z) (w : string) : Prop := exists p, wild (lit w) p /\ matches p imp.

Definition detected (d : detection) (imp : list Z) : Prop :=
  match d with
  | By_names names => exists n, n ∈ names /\ imp = lit n
  | By_wildcards wcs => exists w, w ∈ wcs /\ wc_hit imp w
  | By_wildcards_unless x wcs => ~ wc_hit imp x /\ exists w, w ∈ wcs /\ wc_hit imp w
  | Never => False
  end.

Definition wellformed (w : string) : Prop := exists p, wild (lit w) p.

Definition row_wildcards (d : detection) : list string :=
  match d with By_names _ | Never => [] | By_wildcards wcs => wcs | By_wildcards_unless w wcs => w :: wcs end.

Lemma wc_match_hit imp w : 0 ∉ imp -> wellformed w ->
  exists v, wc_match (lit w) imp = Ok v /\ (v <> 0 <-> wc_hit imp w).
Proof.
  intros H0 [q Hq]. destruct (wc_match_inner_ok (lit w) imp [] H0) as (v & E & Hv). exists v.
  split; [exact E|]. destruct Hv as [[-> Hv]|[[-> Hv]|[_ Hv]]].
  - split; [done|lia].
  - split; [done|]. intros (p & H1 & H2). by destruct (Hv p).
  - by destruct (Hv q).
Qed.

Lemma wc_any_ok imp wcs : 0 ∉ imp -> Forall wellformed wcs ->
  exists b, wc_any imp wcs = Ok b /\ (b = true <-> exists w, w ∈ wcs /\ wc_hit imp w).
Proof.
  intros H0. induction 1 as [|w wcs Hw _ (b & IH & Hb)]; cbn [wc_any].
  - exists false. split; [done|]. split; [done|]. by intros (w & H%elem_of_nil & _).
  - destruct (wc_match_hit imp w H0 Hw) as (v & -> & Hv). cbn [res_bind].
    destruct (Z.eqb_spec v 0) as [->|Hne]; cbn [negb].
    + exists b. split; [done|]. rewrite Hb. setoid_rewrite elem_of_cons. naive_solver.
    + exists true. split; [done|]. split; [|done]. intros _. exists w. split; [left|tauto].
Qed.

(** The settings of the tests. *)
Definition settings_are (conf : Conf) (setting : string -> Z) : Prop :=
  Forall (fun r => conf_get_int conf (config_primary_key r.1.1.1) = Ok (setting r.1.1.1)) bug_table.

(** A server has the bug of a row: by configuration, or by its name. *)
Definition flagged (setting : string -> Z) (imp : list Z) (opt : string) (d : detection) : Prop :=
  setting opt = FORCE_ON \/ (setting opt = AUTO /\ detected d imp).

Lemma bug_condition_ok conf opt x k (P : Prop) :
  conf_get_int conf (config_primary_key opt) = Ok x ->
  (exists b, k = Ok b /\ (b = true <-> P)) ->
  exists b, bug_condition conf opt k = Ok b /\ (b = true <-> x = FORCE_ON \/ (x = AUTO /\ P)).
Proof.
  intros E (b & Ek & Hb). unfold bug_condition. rewrite E. cbn [res_bind]. unfold FORCE_ON, AUTO.
  destruct (Z.eqb_spec x 0) as [->|H0]; [exists true; tauto|].
  destruct (Z.eqb_spec x 2) as [->|H2]; [exists b; naive_solver|]. exists false. naive_solver.
Qed.

Lemma row_condition_ok conf setting imp opt d :
  conf_get_int conf (config_primary_key opt) = Ok (setting opt) -> 0 ∉ imp ->
  Forall wellformed (row_wildcards d) ->
  exists b, row_condition conf imp opt d = Ok b /\ (b = true <-> flagged setting imp opt d).
Proof.
  intros E H0 Hw. unfold flagged. destruct d as [names|wcs|w wcs|]; cbn [row_condition detected row_wildcards] in *.
  - apply bug_condition_ok; [done|]. eexists. split; [done|].
    rewrite existsb_exists. setoid_rewrite bool_decide_eq_true.
    by split; intros (n & Hn & ?); exists n; (split; [by apply list_elem_of_In|]).
  - apply bug_condition_ok; [done|]. by apply wc_any_ok.
  - apply bug_condition_ok; [done|]. apply Forall_cons in Hw as [Hw Hws].
    destruct (wc_match_hit imp w H0 Hw) as (v & Ev & Hv). destruct (wc_any_ok imp wcs H0 Hws) as (b & Eb & Hb).
    unfold wc_unless. rewrite Ev, Eb. cbn [res_bind].
    destruct (Z.eqb_spec v 0) as [->|Hne]; cbn [negb]; eexists; (split; [done|]); naive_solver.
  - rewrite E. cbn [res_bind]. eexists. split; [done|]. rewrite Z.eqb_eq. tauto.
Qed.

Definition is_log (e : event) : Prop := match e with Ev_log _ _ => True | _ => False end.

Lemma detect_rows_ok conf setting imp rows :
  Forall (fun r => conf_get_int conf (config_primary_key r.1.1.1) = Ok (setting r.1.1.1)) rows ->
  Forall (fun r => 0 <= r.1.1.2) rows -> Forall (fun r => Forall wellformed (row_wildcards r.1.2)) rows ->
  0 ∉ imp ->
  forall st, exists bugs evs, detect_rows conf imp rows st = Ok (bugs, st.2 ++ evs) /\ Forall is_log evs /\
    forall k, Z.testbit bugs k = true <->
      Z.testbit st.1 k = true \/ exists opt d msg, (opt, k, d, msg) ∈ rows /\ flagged setting imp opt d.
Proof.
  intros Hs Hb Hw H0. induction rows as [|[[[opt bit] d] msg] rows IH]; intros st; cbn [detect_rows].
  { exists st.1, []. rewrite app_nil_r. split_and!; [by destruct st|constructor|].
    intros k. split; [by left|]. intros [H|(? & ? & ? & H%elem_of_nil & _)]; done. }
  apply Forall_cons in Hs as [Hs1 Hs], Hb as [Hb1 Hb], Hw as [Hw1 Hw]. cbn [fst snd] in *.
  destruct (row_condition_ok conf setting imp opt d Hs1 H0 Hw1) as (c & Ec & Hc).
  unfold bug_if. rewrite Ec. cbn [res_bind].
  destruct c; cbn [res_bind].
  - destruct (IH Hs Hb Hw (Z.lor st.1 (Z.shiftl 1 bit), st.2 ++ [Ev_log msg []])) as (bugs & evs & -> & Hev & Hk).
    exists bugs, (Ev_log msg [] :: evs). cbn [fst snd]. split_and!;
      [by rewrite <-app_assoc|by constructor|]. intros k. rewrite Hk. cbn [fst].
    rewrite Z.shiftl_1_l, Z.lor_spec, orb_true_iff, Z.pow2_bits_eqb, Z.eqb_eq by done.
    setoid_rewrite elem_of_cons. split.
    + intros [[H| <-]|(o & d' & m & Hin & Hf)]; [by left| |];
        right; [exists opt, d, msg|exists o, d', m]; (split; [by (left + right)|]); [by apply Hc|done].
    + intros [H|(o & d' & m & [[= -> -> -> ->]|Hin] & Hf)]; [by left; left|by left; right|].
      right. by exists o, d', m.
  - destruct (IH Hs Hb Hw st) as (bugs & evs & -> & Hev & Hk). exists bugs, evs. split_and!; [done|done|].
    intros k. rewrite Hk. setoid_rewrite elem_of_cons. split.
    + intros [H|(o & d' & m & Hin & Hf)]; [by left|]. right. exists o, d', m. by split; [right|].
    + intros [H|(o & d' & m & [[= -> -> -> ->]|Hin] & Hf)]; [by left|by apply Hc in Hf|].
      right. by exists o, d', m.
Qed.

(** ** The table *)

Lemma table_bits : Forall (fun r => 0 <= r.1.1.2) bug_table.
Proof. apply (bool_decide_unpack _). vm_compute. exact I. Qed.

(** Reads a literal as a wildcard. *)
Ltac read_class :=
  first
    [ apply cb_end
    | eapply cb_range; [discriminate|reflexivity|discriminate|reflexivity|read_class]
    | eapply cb_char; [discriminate|reflexivity|discriminate|read_class] ].

Ltac read_wildcard :=
  first
    [ apply wild_nil
    | apply wild_star; read_wildcard
    | eapply wild_atom;
        [ first [apply ao_any | eapply ao_class; [discriminate|read_class] | apply ao_char; discriminate]
        | read_wildcard ] ].

Lemma table_wildcards : Forall (fun r => Forall wellformed (row_wildcards r.1.2)) bug_table.
Proof.
  unfold bug_table.
  repeat (apply Forall_cons; split; [cbn [fst snd row_wildcards]|]); [..|apply Forall_nil; exact I];
    repeat first [apply Forall_nil; exact I | apply Forall_cons; split];
    unfold wellformed; eexists; cbv; read_wildcard.
Qed.

Lemma detect_bugs_ok conf setting imp :
  settings_are conf setting -> 0 ∉ imp ->
  exists bugs evs, ssh_detect_bugs conf imp = Ok (bugs, evs) /\ Forall is_log evs /\
    forall k, Z.testbit bugs k = true <->
      exists opt d msg, (opt, k, d, msg) ∈ bug_table /\ flagged setting imp opt d.
Proof.
  intros Hs H0. rewrite ssh_detect_bugs_rows.
  destruct (detect_rows_ok conf setting imp bug_table Hs table_bits table_wildcards H0 (0, []))
    as (bugs & evs & E & Hev & Hk).
  exists bugs, evs. split_and!; [done|done|]. intros k. rewrite Hk. cbn [fst]. rewrite Z.bits_0.
  split; [intros [Hf|H]; [discriminate Hf|exact H]|intros H; right; exact H].
Qed.
