(* ===== verification/VerStringSpec.v ===== *)
(** * The version exchange as a whole

    [greets pre stream line rest] says what the other side's greeting is: the first
    line of the stream that starts with the prefix.  [remote_versions] and [verdict] say
    what is made of it. *)

From Stdlib Require Import String.
From stdpp Require Import gmap.
From S2P Require Import Prelude Callback Bufchain Marshal Strbuf Wildcard WildcardSpec ConfData Filename Conf.
From S2P Require Import ConfInv ConfSpec ConfList ConfTheorems Ptrlen VerString VerStringRun VerStringBugs.
Local Open Scope cmodel_scope.
Local Open Scope Z_scope.

(** ** The greeting *)

Inductive greets (pre : list Z) : list Z -> list Z -> list Z -> Prop :=
| greets_here body rest :
    10 ∉ body -> greets pre (pre ++ body ++ 10 :: rest) (pre ++ body ++ [10]) rest
| greets_skip l0 l line rest :
    10 ∉ l0 -> ~ pre `prefix_of` l0 -> greets pre l line rest -> greets pre (l0 ++ 10 :: l) line rest.

Section greeting.
  Variable pre : list Z.
  Hypothesis Hpre : pre <> [].
  Hypothesis Hnl : 10 ∉ pre.

Lemma greets_length stream line rest : greets pre stream line rest -> (length pre <= length stream)%nat.
Proof using. induction 1; rewrite !length_app; cbn [length]; lia. Qed.

(** The first bytes of a line differ from the prefix, or the line has it. *)
Lemma line_mismatch l0 l : ~ pre `prefix_of` l0 -> take (length pre) (l0 ++ 10 :: l) <> pre.
Proof using Hnl.
  intros Hp E. destruct (decide (length pre <= length l0)%nat) as [Hle|Hlt].
  - apply Hp. rewrite take_app_le in E by done. rewrite <-E. exists (drop (length pre) l0). by rewrite take_drop.
  - apply Hnl. rewrite <-E, take_app_ge by lia. apply elem_of_app. right.
    destruct (length pre - length l0)%nat eqn:En; [lia|]. left.
Qed.

Lemma greets_lrun stream line rest :
  greets pre stream line rest -> lrun pre (L_START []) stream = L_DONE line rest.
Proof using Hpre Hnl.
  induction 1 as [body rest Hb|l0 l line rest H0 Hp Hg IH].
  - by rewrite lrun_match, lrun_line_end.
  - apply greets_length in Hg. pose proof (line_mismatch l0 l Hp) as Hm.
    rewrite <-(take_drop (length pre) (l0 ++ 10 :: l)), lrun_mismatch, take_drop, lrun_skip_line;
      [done|done|done| |done].
    rewrite length_take, length_app. cbn. lia.
Qed.

Lemma lrun_greets n : forall stream line rest, (length stream <= n)%nat ->
  lrun pre (L_START []) stream = L_DONE line rest -> greets pre stream line rest.
Proof using Hpre.
  induction n as [|n IH]; intros stream line rest Hn E.
  { destruct stream; [done|cbn in Hn; lia]. }
  destruct (decide (length stream < length pre)%nat) as [Hlt|Hge].
  { by rewrite lrun_start in E. }
  destruct (decide (take (length pre) stream = pre)) as [Ep|Hne].
  - rewrite <-(take_drop (length pre) stream), Ep in E |- *. rewrite lrun_match in E by done.
    set (t := drop (length pre) stream) in *. pose proof (memchr_split t) as Hm.
    destruct (memchr t 10) as [nl|]; [|by rewrite lrun_line in E].
    destruct Hm as (l2 & Et & Hb & _). rewrite Et in E |- *. rewrite lrun_line_end in E by done.
    injection E as <- <-. by apply greets_here.
  - rewrite <-(take_drop (length pre) stream), lrun_mismatch, take_drop in E;
      [|done|rewrite length_take; lia|done].
    pose proof (memchr_split stream) as Hm. destruct (memchr stream 10) as [nl|]; [|by rewrite lrun_skip in E].
    destruct Hm as (l2 & Es & Hb & _ & Hlt). rewrite Es in E |- *. rewrite lrun_skip_line in E by done.
    apply greets_skip; [done| |apply IH; [|done]].
    + intros [k Ek]. apply Hne. rewrite Es, Ek, <-app_assoc. by rewrite take_app_length.
    + apply (f_equal length) in Es. rewrite length_app, length_take in Es. cbn in Es. lia.
Qed.

Lemma greets_iff stream line rest :
  greets pre stream line rest <-> lrun pre (L_START []) stream = L_DONE line rest.
Proof using Hpre Hnl. split; [apply greets_lrun|by apply (lrun_greets (length stream))]. Qed.

Lemma greets_line stream line rest :
  greets pre stream line rest -> exists body, line = pre ++ body ++ [10] /\ 10 ∉ body.
Proof using. induction 1; eauto. Qed.

End greeting.

(** ** What is made of the greeting *)

Definition is_crlf (c : Z) : bool := (c =? 13) || (c =? 10).

Fixpoint drop_crlf (l : list Z) : list Z :=
  match l with c :: l' => if is_crlf c then drop_crlf l' else l | [] => [] end.

Definition trim_crlf (l : list Z) : list Z := reverse (drop_crlf (reverse l)).

(** The characters up to the first NUL. *)
Fixpoint until_nul (l : list Z) : list Z :=
  match l with c :: l => if c =? 0 then [] else c :: until_nul l | [] => [] end.

(** Protocol and software version: around the first minus sign. *)
Definition split_version (body : list Z) : list Z * list Z :=
  (take (strcspn_minus body) body, tail (drop (strcspn_minus body) body)).

Definition remote_versions (pre line : list Z) : list Z * list Z :=
  split_version (until_nul (drop (length pre) (trim_crlf line))).

(** The major version that both sides can speak, the later one if possible. *)
Definition agree (ours theirs : list Z) : option Z :=
  if speaks_v2 ours && speaks_v2 theirs then Some 2
  else if speaks_v1 ours && speaks_v1 theirs then Some 1
  else None.

Definition verdict (ours theirs : list Z) : event :=
  match agree ours theirs with
  | Some v => Ev_got_ssh_version v
  | None =>
      Ev_sw_abort (if speaks_v2 ours
        then "SSH protocol version 2 required by our configuration but remote only provides (old, insecure) SSH-1"
        else "SSH protocol version 1 required by our configuration but not provided by remote")
  end.

Definition is_verdict (e : event) : bool :=
  match e with Ev_sw_abort _ | Ev_remote_error _ | Ev_got_ssh_version _ => true | _ => false end.

Definition verdicts (evs : list event) : list event := List.filter is_verdict evs.

Lemma verdicts_app a b : verdicts (a ++ b) = verdicts a ++ verdicts b.
Proof. apply List.filter_app. Qed.

Lemma verdicts_none evs : Forall (fun e => is_verdict e = false) evs -> verdicts evs = [].
Proof. induction 1 as [|e evs He _ IH]; cbn; [done|]. by rewrite He. Qed.

Lemma verdicts_frozen evs : frozen_checks evs -> verdicts evs = [].
Proof. intros H. apply verdicts_none. eapply Forall_impl; [exact H|]. by intros ? ->. Qed.

Lemma verdicts_logs evs : Forall is_log evs -> verdicts evs = [].
Proof. intros H. apply verdicts_none. eapply Forall_impl; [exact H|]. by intros []. Qed.

(** The line we send. *)
Definition version_line (sshver pre proto impl : list Z) : list Z :=
  pre ++ proto ++ lit "-" ++ map underscore (impl ++ sshver) ++
  (if speaks_v2 proto then [13; 10] else [10]).

(** The version that is sent once the other side's is known. *)
Definition answered_version (ours theirs : list Z) (v : Z) : list Z :=
  if (v =? 1) && newer ours theirs then theirs else ours.

Definition sent_line (sshver pre ours impl : list Z) (early : bool) (theirs : list Z) : list Z :=
  if early then version_line sshver pre ours impl
  else match agree ours theirs with
       | Some v => version_line sshver pre (answered_version ours theirs v) impl
       | None => []
       end.

(** ** Trimming and splitting *)

Lemma trim_snoc l x : trim_crlf (l ++ [x]) = if is_crlf x then trim_crlf l else l ++ [x].
Proof.
  unfold trim_crlf. rewrite reverse_snoc. cbn [drop_crlf].
  destruct (is_crlf x); [done|]. by rewrite reverse_cons, reverse_involutive.
Qed.

Lemma trim_loop_ok c : forall v fuel, strbuf_holds v c -> (length c <= fuel)%nat ->
  exists v', trim_loop fuel v = Ok v' /\ strbuf_holds v' (trim_crlf c).
Proof.
  induction c as [|x c IH] using rev_ind; intros v fuel H Hf; pose proof H as (Hl & _).
  - exists v. destruct fuel; cbn [trim_loop]; rewrite Hl; done.
  - rewrite trim_snoc. rewrite length_app in Hl, Hf. cbn [length] in Hl, Hf.
    destruct fuel as [|fuel]; [lia|]. cbn [trim_loop]. rewrite Hl, (proj2 (Z.ltb_lt _ _)) by lia.
    rewrite (strbuf_last_ok _ _ _ H). cbn [res_bind]. fold (is_crlf x).
    destruct (is_crlf x); [|eauto].
    rewrite strbuf_shrink_by_to by lia.
    destruct (strbuf_shrink_to_ok v (c ++ [x]) (sb_len v - 1) H) as (v' & -> & Hv');
      [rewrite length_app; cbn; lia|].
    cbn [res_bind]. rewrite take_app_length' in Hv' by lia. apply IH; [done|lia].
Qed.

Lemma until_nul_split l : exists t, l ++ [0] = until_nul l ++ 0 :: t /\ 0 ∉ until_nul l.
Proof.
  induction l as [|c l (t & E & Hn)]; cbn [until_nul app].
  - exists []. split; [done|apply not_elem_of_nil].
  - destruct (Z.eqb_spec c 0) as [->|Hc].
    + exists (l ++ [0]). split; [done|apply not_elem_of_nil].
    + exists t. cbn. rewrite <-E. split; [done|]. apply not_elem_of_cons. by split.
Qed.

Lemma asciz_until_nul l : asciz_chars (l ++ [0]) = Ok (until_nul l).
Proof. destruct (until_nul_split l) as (t & -> & Hn). by apply asciz_chars_text. Qed.

Lemma until_nul_length l : (length (until_nul l) <= length l)%nat.
Proof. induction l as [|c l IH]; cbn; [lia|]. destruct (c =? 0); cbn; lia. Qed.

Lemma strcspn_le l : (strcspn_minus l <= length l)%nat.
Proof. induction l as [|c l IH]; cbn; [lia|]. destruct (c =? 45); lia. Qed.

Lemma strcspn_at l : match drop (strcspn_minus l) l with [] => True | c :: _ => c = 45 end.
Proof.
  induction l as [|c l IH]; cbn [strcspn_minus drop]; [done|].
  destruct (Z.eqb_spec c 45); [done|]. exact IH.
Qed.

Lemma pick_versions_ok v c n : strbuf_holds v c -> (n <= length c)%nat -> Z.of_nat (length c) < 2 ^ 31 ->
  pick_versions v n = Ok (split_version (until_nul (drop n c))).
Proof.
  intros H Hn Hl. unfold pick_versions. rewrite (strbuf_to_str_ok _ _ H). cbn [res_bind].
  rewrite bool_decide_eq_false_2 by (rewrite length_app; cbn; lia).
  rewrite drop_app_le, asciz_until_nul by done. cbn [res_bind].
  set (b := until_nul (drop n c)).
  assert (Hb : (length b <= length c)%nat).
  { unfold b. pose proof (until_nul_length (drop n c)). rewrite length_drop in *. lia. }
  pose proof (strcspn_le b). rewrite to_int_small by lia. rewrite (proj2 (Z.ltb_ge _ _)) by lia.
  rewrite Nat2Z.id. unfold split_version. pose proof (strcspn_at b) as Ha.
  destruct (drop (strcspn_minus b) b) as [|x sv]; [done|]. subst x. by rewrite c_assert_true.
Qed.

(** ** Our own line, read back *)

(** Characters that a version string can have, and not too many of them. *)
Definition plain (l : list Z) : Prop :=
  Z.of_nat (length l) <= 2 ^ 20 /\ Forall (fun c => c <> 0 /\ c <> 10 /\ c <> 13) l.

Lemma plain_not l c : plain l -> c = 0 \/ c = 10 \/ c = 13 -> c ∉ l.
Proof. intros [_ Hl] Hc Hin. rewrite Forall_forall in Hl. specialize (Hl c Hin). lia. Qed.

Lemma underscore_not l c : plain l -> c = 0 \/ c = 10 \/ c = 13 -> c ∉ map underscore l.
Proof.
  intros [_ Hl] Hc Hin. change (map underscore l) with (underscore <$> l) in Hin.
  apply list_elem_of_fmap in Hin as (x & -> & Hx).
  rewrite Forall_forall in Hl. specialize (Hl x Hx). unfold underscore in Hc.
  destruct ((x =? 45) || (x =? 32)); lia.
Qed.

Lemma trim_clean l : 10 ∉ l -> 13 ∉ l -> trim_crlf l = l.
Proof.
  destruct (rev_ind_or_nil l) as [->|(l' & x & ->)]; [done|]. rewrite !not_elem_of_app, !list_elem_of_singleton.
  intros [_ H10] [_ H13]. rewrite trim_snoc. unfold is_crlf.
  by rewrite !(proj2 (Z.eqb_neq _ _)) by congruence.
Qed.

Lemma until_nul_clean l : 0 ∉ l -> until_nul l = l.
Proof.
  induction l as [|c l IH]; [done|]. intros [Hc Hl]%not_elem_of_cons. cbn [until_nul].
  rewrite (proj2 (Z.eqb_neq _ _)) by congruence. by rewrite IH.
Qed.

Lemma split_version_app p q : 45 ∉ p -> split_version (p ++ 45 :: q) = (p, q).
Proof.
  intros Hp. assert (E : strcspn_minus (p ++ 45 :: q) = length p).
  { induction p as [|c p IH]; [done|]. apply not_elem_of_cons in Hp as [Hc Hp]. cbn [app strcspn_minus].
    rewrite (proj2 (Z.eqb_neq _ _)) by congruence. cbn. by rewrite IH. }
  unfold split_version. by rewrite E, take_app_length, drop_app_length.
Qed.

Lemma soft_not sshver impl c : plain impl -> plain sshver -> c = 0 \/ c = 10 \/ c = 13 ->
  c ∉ map underscore (impl ++ sshver).
Proof. intros Hi Hv Hc. rewrite map_app, not_elem_of_app. by split; apply underscore_not. Qed.

Lemma version_line_eq sshver pre proto impl : plain proto -> plain impl -> plain sshver ->
  exists body, version_line sshver pre proto impl = pre ++ body ++ [10] /\ 10 ∉ body.
Proof.
  intros Hp Hi Hv.
  exists (proto ++ lit "-" ++ map underscore (impl ++ sshver) ++ if speaks_v2 proto then [13] else []).
  split.
  - unfold version_line. rewrite <-!app_assoc. by destruct (speaks_v2 proto).
  - rewrite !not_elem_of_app. split_and!.
    + apply (plain_not _ _ Hp). tauto.
    + apply (bool_decide_unpack _). vm_compute. exact I.
    + apply soft_not; tauto.
    + by destruct (speaks_v2 proto); apply (bool_decide_unpack _); vm_compute.
Qed.

Section own_line.
  Variables sshver pre' proto impl : list Z.
Let pre := pre' ++ [45].
  Hypotheses (Hproto : plain proto) (Hdash : 45 ∉ proto)
    (Himpl : plain impl) (Hver : plain sshver).
Let soft := map underscore (impl ++ sshver).
Let line := version_line sshver pre proto impl.

Lemma version_line_greets : greets pre line line [].
Proof using Hproto Himpl Hver.
  unfold line. destruct (version_line_eq sshver pre proto impl) as (body & -> & Hb); [done..|].
  by apply (greets_here pre body []).
Qed.

Lemma version_line_read : remote_versions pre line = (proto, soft).
Proof using Hproto Himpl Hver Hdash.
  assert (E : exists x, line = ((pre' ++ [45]) ++ proto ++ lit "-" ++ soft) ++ x /\ (x = [13; 10] \/ x = [10])).
  { unfold line, version_line, pre. eexists. rewrite <-!app_assoc. split; [done|].
    destruct (speaks_v2 proto); tauto. }
  assert (Hq : trim_crlf (pre ++ proto ++ lit "-" ++ soft) = pre ++ proto ++ lit "-" ++ soft).
  { destruct (rev_ind_or_nil soft) as [E0|(l & x & E1)].
    - rewrite E0, app_nil_r, !app_assoc. change (lit "-") with [45]. by rewrite trim_snoc.
    - assert (x ∉ [10; 13]).
      { intros Hx. assert (Hin : x ∈ soft) by (rewrite E1; apply elem_of_app; right; left).
        revert Hin. apply soft_not; [done..|set_solver]. }
      rewrite E1, !app_assoc, trim_snoc. unfold is_crlf.
      by rewrite !(proj2 (Z.eqb_neq _ _)) by set_solver. }
  unfold remote_versions. destruct E as (x & -> & Hx).
  assert (Ht : trim_crlf (((pre' ++ [45]) ++ proto ++ lit "-" ++ soft) ++ x) = pre ++ proto ++ lit "-" ++ soft).
  { rewrite <-Hq. destruct Hx as [-> | ->]; [change [13; 10] with ([13] ++ [10]); rewrite app_assoc|]; by rewrite !trim_snoc. }
  rewrite Ht, drop_app_length, until_nul_clean.
  - by apply split_version_app.
  - rewrite !not_elem_of_app. split_and!.
    + apply (plain_not _ _ Hproto). tauto.
    + apply (bool_decide_unpack _). vm_compute. exact I.
    + apply soft_not; tauto.
Qed.

End own_line.

(** ** Two sides *)

Lemma agree_comm a b : agree a b = agree b a.
Proof.
  unfold agree. rewrite (andb_comm (speaks_v2 a)), (andb_comm (speaks_v1 a)). done.
Qed.

(** The side that waits may lower its version; the other one decides the same. *)
Lemma agree_answered a b v : agree a b = Some v -> agree b (answered_version a b v) = Some v.
Proof.
  intros E. unfold answered_version. destruct (Z.eqb_spec v 1) as [->|]; cbn [andb]; [|by rewrite agree_comm].
  destruct (newer a b) eqn:Hl; [|by rewrite agree_comm]. apply bool_decide_eq_true in Hl.
  unfold agree in *. destruct (speaks_v2 b) eqn:Eb.
  - assert (Ea : speaks_v2 a = true).
    { apply bool_decide_eq_true in Eb. apply bool_decide_eq_true. unfold version_lt in *. cbn [fst snd] in *. lia. }
    by rewrite Ea in E.
  - rewrite andb_false_r in E. cbn [andb]. destruct (speaks_v1 b); [done|].
    by rewrite andb_false_r in E.
Qed.

Lemma answered_cases a b v : answered_version a b v = a \/ answered_version a b v = b.
Proof. unfold answered_version. destruct (_ && _); tauto. Qed.

(** Part of a line has no greeting. *)
Lemma greets_newline pre stream line rest : greets pre stream line rest -> 10 ∈ stream.
Proof. induction 1; set_solver. Qed.

Lemma part_no_newline (x p c : list Z) : 10 ∉ x -> c <> [] -> p ++ c = x ++ [10] -> 10 ∉ p.
Proof.
  intros Hx Hc E. destruct (rev_ind_or_nil c) as [->|(c' & z & ->)]; [done|].
  rewrite app_assoc in E. apply app_inj_tail in E as [<- _].
  intros Hin. apply Hx, elem_of_app. by left.
Qed.

Lemma no_greeting sshver pre proto impl chunks c :
  10 ∉ pre -> plain proto -> plain impl -> plain sshver -> c <> [] ->
  concat chunks ++ c = version_line sshver pre proto impl ->
  forall l r, ~ greets pre (concat chunks) l r.
Proof.
  intros Hnl Hp Hi Hv Hc E l r Hg. apply greets_newline in Hg.
  destruct (version_line_eq sshver pre proto impl) as (body & Eb & Hb); [done..|].
  rewrite Eb, app_assoc in E. revert Hg. apply (part_no_newline (pre ++ body) (concat chunks) c); [|done..].
  rewrite not_elem_of_app. done.
Qed.

(** ** The version exchange: sending, and the end of the greeting *)

#[local] Notation CONF s := (config_primary_key s%string).

Lemma trim_prefix pre' x : exists y, trim_crlf ((pre' ++ [45]) ++ x) = (pre' ++ [45]) ++ y.
Proof.
  induction x as [|c x [y IH]] using rev_ind.
  - exists []. rewrite !app_nil_r. by rewrite trim_snoc.
  - rewrite app_assoc, trim_snoc. destruct (is_crlf c); [eauto|]. exists (x ++ [c]). by rewrite <-app_assoc.
Qed.

Lemma trim_length l : (length (trim_crlf l) <= length l)%nat.
Proof.
  induction l as [|c l IH] using rev_ind; [done|]. rewrite trim_snoc, length_app.
  destruct (is_crlf c); [lia|]. by rewrite length_app.
Qed.

Section conversation.
  Context {U : Type}.
  Variable sshver : list Z.
  Implicit Types s : ssh_verstring_state U.

(** ** Sending *)

Lemma our_version_string_eq s :
  our_version_string sshver s =
    vs_prefix_wanted s ++ vs_our_protoversion s ++ lit "-" ++ map underscore (vs_impl_name s ++ sshver).
Proof.
  unfold our_version_string. set (p := vs_prefix_wanted s). set (q := vs_our_protoversion s).
  set (i := vs_impl_name s).
  replace (p ++ q ++ lit "-" ++ i ++ sshver) with ((p ++ q ++ lit "-") ++ i ++ sshver)
    by (by rewrite <-!app_assoc).
  rewrite take_app_length', drop_app_length' by (rewrite !length_app; cbn; lia).
  by rewrite <-!app_assoc.
Qed.

Lemma send_ok s o :
  chain_holds (vs_out_raw s) o -> ready (vs_out_raw s) (vs_world s) ->
  exists v r, ssh_verstring_send sshver s = Ok (emit (set_sent s v r) [Ev_log "We claim version: %s" v]) /\
    chain_holds r.1 (o ++ version_line sshver (vs_prefix_wanted s) (vs_our_protoversion s) (vs_impl_name s)) /\
    ready r.1 r.2 /\ (forall ch, ready ch (vs_world s) -> ready ch r.2).
Proof.
  intros Ho Hr. unfold ssh_verstring_send, version_line. code_versions. rewrite our_version_string_eq. cbv zeta.
  set (v := vs_prefix_wanted s ++ _). exists v.
  destruct (ready_add (vs_out_raw s) o v (vs_world s) Ho Hr) as (b1 & w1 & -> & H1 & R1 & M1).
  cbn [res_bind fst snd].
  destruct (ssh_version_includes_v2 (vs_our_protoversion s)).
  - destruct (ready_add b1 _ [13] w1 H1 R1) as (b2 & w2 & -> & H2 & R2 & M2). cbn [res_bind fst snd].
    destruct (ready_add b2 _ [10] w2 H2 R2) as (b3 & w3 & -> & H3 & R3 & M3). cbn [res_bind].
    exists (b3, w3). split_and!; [done| |done|by eauto]. cbn [fst]. unfold v in H3.
    rewrite <-!app_assoc in H3. exact H3.
  - cbn [res_bind fst snd].
    destruct (ready_add b1 _ [10] w1 H1 R1) as (b3 & w3 & -> & H3 & R3 & M3). cbn [res_bind].
    exists (b3, w3). split_and!; [done| |done|by eauto]. cbn [fst]. unfold v in H3.
    rewrite <-!app_assoc in H3. exact H3.
Qed.

(** ** The end of the greeting *)

(** What the rest of the handler leaves alone. *)
Definition keeps s s' : Prop :=
  vs_in_raw s' = vs_in_raw s /\ vs_vstring s' = vs_vstring s /\ vs_protoversion s' = vs_protoversion s /\
  vs_softwareversion s' = vs_softwareversion s /\ vs_remote_bugs s' = vs_remote_bugs s.

Lemma announce_ok s o :
  chain_holds (vs_out_raw s) o -> ready (vs_out_raw s) (vs_world s) ->
  exists s', announce sshver s = Ok s' /\ keeps s s' /\
    verdicts (vs_events s') = verdicts (vs_events s) ++ [Ev_got_ssh_version (vs_major_protoversion s)] /\
    chain_holds (vs_out_raw s') (o ++ if vs_send_early s then [] else
      version_line sshver (vs_prefix_wanted s) (vs_our_protoversion s) (vs_impl_name s)).
Proof.
  intros Ho Hr. unfold announce. cbv zeta. cbn [vs_send_early emit].
  destruct (vs_send_early s); cbn [negb res_bind].
  - eexists. split; [done|]. split; [by split_and!|].
    cbn [emit vs_events vs_major_protoversion vs_out_raw]. rewrite !verdicts_app, !app_nil_r.
    by split.
  - set (s1 := emit s _). destruct (send_ok s1 o Ho Hr) as (v & r & -> & H1 & _ & _). cbn [res_bind].
    eexists. split; [done|]. split; [by split_and!|]. split; [|exact H1].
    unfold s1. cbn [emit set_sent vs_events vs_major_protoversion]. rewrite !verdicts_app. cbn.
    by rewrite !app_nil_r.
Qed.

(** The state after the greeting [line], when [o] had been sent before. *)
Definition greeted (setting : string -> Z) s (o line : list Z) s' : Prop :=
  let pre := vs_prefix_wanted s in
  let ours := vs_our_protoversion s in
  let '(theirs, software) := remote_versions pre line in
  vs_in_raw s' = vs_in_raw s /\
  strbuf_holds (vs_vstring s') (trim_crlf line) /\
  vs_protoversion s' = Some theirs /\ vs_softwareversion s' = Some software /\
  (forall k, Z.testbit (vs_remote_bugs s') k = true <->
     exists opt d msg, (opt, k, d, msg) ∈ bug_table /\ flagged setting software opt d) /\
  verdicts (vs_events s') = verdicts (vs_events s) ++ [verdict ours theirs] /\
  chain_holds (vs_out_raw s')
    (o ++ if vs_send_early s then [] else sent_line sshver pre ours (vs_impl_name s) false theirs).

Lemma split_version_nul l : 0 ∉ l -> 0 ∉ (split_version l).2.
Proof.
  intros H Hin. apply H. unfold split_version in Hin. cbn [snd] in Hin.
  rewrite <-(take_drop (strcspn_minus l) l). apply elem_of_app. right.
  destruct (drop _ l); [done|]. by right.
Qed.

Lemma lower_ours_eq s theirs : vs_send_early s = false ->
  lower_ours s theirs = set_our_protoversion s (answered_version (vs_our_protoversion s) theirs 1).
Proof.
  intros He. unfold lower_ours, answered_version. code_versions. rewrite He. cbn [negb andb Z.eqb Pos.eqb].
  destruct (0 <? _); [done|]. by destruct s.
Qed.

Lemma lower_ours_early s theirs : vs_send_early s = true -> lower_ours s theirs = s.
Proof. intros He. unfold lower_ours. by rewrite He. Qed.

Lemma finish_ok setting s o pre' body line :
  vs_prefix_wanted s = pre' ++ [45] -> line = vs_prefix_wanted s ++ body ++ [10] ->
  strbuf_holds (vs_vstring s) line -> Z.of_nat (length line) <= strbuf_limit ->
  settings_are (vs_conf s) setting ->
  chain_holds (vs_out_raw s) o -> ready (vs_out_raw s) (vs_world s) ->
  exists s', finish_greeting sshver s = Ok s' /\ greeted setting s o line s'.
Proof.
  intros Epre Eline Hv Hlen Hset Ho Hr. unfold finish_greeting, strbuf_limit in *.
  destruct (trim_loop_ok line (vs_vstring s) (Z.to_nat (sb_len (vs_vstring s))) Hv) as (v & -> & Hv').
  { destruct Hv as (-> & _). lia. }
  cbn [res_bind]. rewrite (strbuf_to_str_ok _ _ Hv'). cbn [res_bind]. rewrite asciz_until_nul. cbn [res_bind].
  set (s0 := emit (set_vstring s v) _).
  change (vs_vstring s0) with v. change (vs_prefix_wanted s0) with (vs_prefix_wanted s).
  pose proof (trim_length line) as Htl.
  assert (Hpl : (length (vs_prefix_wanted s) <= length (trim_crlf line))%nat).
  { rewrite Eline, Epre. destruct (trim_prefix pre' (body ++ [10])) as [y ->].
    rewrite (length_app (pre' ++ [45])). lia. }
  rewrite (pick_versions_ok _ _ _ Hv' Hpl) by lia. cbn [res_bind]. unfold greeted, remote_versions.
  set (b := until_nul _).
  assert (Hb0 : 0 ∉ b) by (destruct (until_nul_split (drop (length (vs_prefix_wanted s)) (trim_crlf line))) as (? & _ & ?); done).
  pose proof (split_version_nul b Hb0) as Hsv. destruct (split_version b) as [theirs software]. cbn [snd] in Hsv.
  change (vs_conf s0) with (vs_conf s). destruct (detect_bugs_ok (vs_conf s) setting software Hset Hsv) as (bugs & evs & -> & Hlog & Hbits).
  cbn [res_bind fst snd]. unfold verdict, sent_line, agree. code_versions.
  set (s1 := emit (set_remote s0 theirs software bugs) evs).
  change (vs_our_protoversion s1) with (vs_our_protoversion s). set (ours := vs_our_protoversion s).
  assert (Hve : verdicts (vs_events s1) = verdicts (vs_events s)).
  { unfold s1, s0. cbn [vs_events emit set_remote set_vstring]. rewrite !verdicts_app, (verdicts_logs evs) by done.
    cbn. by rewrite !app_nil_r. }
  destruct (ssh_version_includes_v2 ours && ssh_version_includes_v2 theirs) eqn:E2.
  - destruct (announce_ok (set_major s1 2) o Ho Hr) as (s' & -> & (K1 & K2 & K3 & K4 & K5) & Hver & Hout).
    exists s'. split; [done|]. split_and!;
      [exact K1|rewrite K2; exact Hv'|exact K3|exact K4|rewrite K5; exact Hbits|by rewrite Hver, <-Hve|].
    exact Hout.
  - destruct (ssh_version_includes_v1 ours && ssh_version_includes_v1 theirs) eqn:E1.
    + destruct (vs_send_early s) eqn:He.
      * rewrite lower_ours_early by exact He.
        destruct (announce_ok (set_major s1 1) o Ho Hr) as (s' & -> & (K1 & K2 & K3 & K4 & K5) & Hver & Hout).
        exists s'. split; [done|]. split_and!;
          [exact K1|rewrite K2; exact Hv'|exact K3|exact K4|rewrite K5; exact Hbits|by rewrite Hver, <-Hve|].
        change (vs_send_early (set_major s1 1)) with (vs_send_early s) in Hout. by rewrite He in Hout.
      * rewrite lower_ours_eq by exact He.
        destruct (announce_ok (set_our_protoversion (set_major s1 1) (answered_version ours theirs 1)) o Ho Hr)
          as (s' & E & (K1 & K2 & K3 & K4 & K5) & Hver & Hout).
        exists s'. split; [exact E|]. split_and!;
          [exact K1|rewrite K2; exact Hv'|exact K3|exact K4|rewrite K5; exact Hbits|by rewrite Hver, <-Hve|].

        change (vs_send_early (set_our_protoversion _ _)) with (vs_send_early s) in Hout. by rewrite He in Hout.
    + eexists. split; [done|]. split_and!; [done|exact Hv'|done|done|exact Hbits| |].
      * cbn [vs_events set_crState emit]. rewrite verdicts_app, Hve. f_equal.
        by destruct (ssh_version_includes_v2 ours).
      * destruct (vs_send_early s); rewrite app_nil_r; exact Ho.
Qed.

End conversation.
