(* ===== verification/VerStringFeed.v ===== *)
(** * The version exchange, however its input arrives

    A conversation is a list of reads from the network.  Between them the handler
    waits in the state that the automaton of file VerStringRun is in after all the
    bytes so far. *)

From Stdlib Require Import String.
From stdpp Require Import gmap.
From S2P Require Import Prelude Callback Bufchain Marshal Strbuf Wildcard WildcardSpec Ptrlen ConfData Filename Conf ConfInv ConfSpec ConfList VerString VerStringRun VerStringBugs VerStringSpec.
Local Open Scope cmodel_scope.
Local Open Scope Z_scope.

Section feed.
  Context {U : Type}.
  Variable sshver : list Z.
  Implicit Types s : ssh_verstring_state U.

Definition set_input s (r : bufchain U * world U) :=
  VState (vs_crState s) (vs_conf s) (vs_prefix_wanted s) (vs_our_protoversion s)
    (vs_send_early s) (vs_found_prefix s) (vs_major_protoversion s) (vs_remote_bugs s) (vs_impl_name s)
    (vs_vstring s) (vs_protoversion s) (vs_softwareversion s) (vs_our_vstring s) r.1
    (vs_input_eof s) (vs_out_raw s) r.2 (vs_events s).

(** One read from the network: the bytes are added to the input, whose callback
    calls the handler. *)
Definition deliver s (data : list Z) : res (ssh_verstring_state U) :=
  let! r := bufchain_add (vs_in_raw s) data (vs_world s) in
  ssh_verstring_handle_input sshver (set_input s r).

Fixpoint feed s (chunks : list (list Z)) : res (ssh_verstring_state U) :=
  match chunks with
  | [] => Ok s
  | c :: chunks => let! s := deliver s c in feed s chunks
  end.

(** The other side closes the connection. *)
Definition close s : res (ssh_verstring_state U) := ssh_verstring_handle_input sshver (set_input_eof s).

Lemma feed_app s c1 c2 : feed s (c1 ++ c2) = let! s := feed s c1 in feed s c2.
Proof.
  revert s. induction c1 as [|c c1 IH]; intros s; [done|]. cbn [feed app].
  destruct (deliver s c) as [s'|]; cbn; [apply IH|done].
Qed.

  Variables (setting : string -> Z) (pre' : list Z) (ours impl : list Z) (early : bool) (o : list Z).
Let pre := pre' ++ [45].

(** What stays as it is until the greeting is complete; [o] has been sent. *)
Record steady s : Prop := {
  st_prefix : vs_prefix_wanted s = pre;
  st_ours : vs_our_protoversion s = ours;
  st_early : vs_send_early s = early;
  st_impl : vs_impl_name s = impl;
  st_settings : settings_are (vs_conf s) setting;
  st_eof : vs_input_eof s = false;
  st_verdicts : verdicts (vs_events s) = [];
  st_out : chain_holds (vs_out_raw s) o;
  st_out_ready : ready (vs_out_raw s) (vs_world s);
  st_in_ready : ready (vs_in_raw s) (vs_world s)
}.

Definition waiting (stream : list Z) s : Prop := steady s /\ at_wait s (lrun pre (L_START []) stream).

(** The state once the greeting [line] is complete, with [rest] still to be read. *)
Definition concluded (line rest : list Z) s : Prop :=
  let '(theirs, software) := remote_versions pre line in
  chain_holds (vs_in_raw s) rest /\
  strbuf_holds (vs_vstring s) (trim_crlf line) /\
  vs_protoversion s = Some theirs /\ vs_softwareversion s = Some software /\
  (forall k, Z.testbit (vs_remote_bugs s) k = true <->
     exists opt d msg, (opt, k, d, msg) ∈ bug_table /\ flagged setting software opt d) /\
  verdicts (vs_events s) = [verdict ours theirs] /\
  chain_holds (vs_out_raw s) (o ++ if early then [] else sent_line sshver pre ours impl false theirs).

Definition outcome (stream : list Z) (r : res (ssh_verstring_state U)) : Prop :=
  exists s, r = Ok s /\
    match lrun pre (L_START []) stream with
    | L_DONE line rest => concluded line rest s
    | _ => waiting stream s
    end.

Lemma steady_upd s cr fp v b evs :
  steady s -> frozen_checks evs -> notify b = notify (vs_in_raw s) -> steady (upd s cr fp v b evs).
Proof.
  intros [] Hf Hb. split; try done.
  - cbn [upd vs_events]. rewrite verdicts_app, (verdicts_frozen evs) by done. by rewrite app_nil_r.
  - by eapply ready_notify; [exact Hb|].
Qed.

Lemma pre_not_nil : pre <> [].
Proof using. unfold pre. by destruct pre'. Qed.

  Hypothesis Hnl : 10 ∉ pre.

Lemma run_ok s st l fuel stream :
  steady s -> located s st l -> lrun pre st l = lrun pre (L_START []) stream ->
  Z.of_nat (kept st + length l) <= strbuf_limit -> Z.of_nat (length stream) <= strbuf_limit ->
  (need st l <= fuel)%nat ->
  outcome stream (run_rounds sshver fuel s).
Proof using Hnl.
  intros Hs Hloc Est Hk Hlen Hf. pose proof (run_rounds_ok sshver fuel s st l Hloc) as Hrun.
  rewrite (st_prefix _ Hs), (st_eof _ Hs), Est in Hrun.
  specialize (Hrun eq_refl pre_not_nil Hk Hf). unfold outcome, run_result in *.
  destruct (lrun pre (L_START []) stream) as [l'| |acc|line rest] eqn:El.
  1-3: destruct Hrun as (cr & fp & v & b & evs & He & Hn & Hw & ->);
    eexists; (split; [done|]); (split; [by apply steady_upd|by rewrite El]).
  destruct Hrun as (fp & v & b & evs & He & Hn & Hv & Hb & ->).
  pose proof (steady_upd s CR_GREETING fp v b evs Hs He Hn) as Hu.
  pose proof (lrun_size pre stream (L_START [])) as Hsz. rewrite El in Hsz. cbn [lsize length] in Hsz.
  apply (greets_iff pre pre_not_nil Hnl) in El. pose proof (greets_line pre _ _ _ El) as (body & Eline & _).
  assert (Hll : Z.of_nat (length line) <= strbuf_limit).
  { lia. }
  set (s' := upd s CR_GREETING fp v b evs) in *.
  destruct (finish_ok sshver setting s' o pre' body line) as (s2 & -> & Hg);
    [apply Hu|by rewrite (st_prefix _ Hu)|exact Hv|done|apply Hu|apply Hu|apply Hu|].
  exists s2. split; [done|]. unfold greeted in Hg. unfold concluded.
  rewrite (st_prefix _ Hu), (st_ours _ Hu), (st_verdicts _ Hu), (st_early _ Hu), (st_impl _ Hu) in Hg.
  destruct (remote_versions pre line) as [theirs software]. destruct Hg as (-> & Hg).
  split; [exact Hb|]. exact Hg.
Qed.

(** The call for more input: what is kept and what is new, read on from a state of
    the automaton. *)
Lemma waiting_located s stream data b w :
  waiting stream s ->
  (forall bytes, chain_holds (vs_in_raw s) bytes -> chain_holds b (bytes ++ data)) ->
  exists st l, located (set_input s (b, w)) st l /\
    lrun pre st l = lrun pre (L_START []) (stream ++ data) /\
    (kept st + length l <= length stream + length data)%nat.
Proof using.
  intros [Hs Hw] Hb. pose proof (lrun_size pre stream (L_START [])) as Hsz. rewrite foldl_app.
  destruct (lrun pre (L_START []) stream) as [l| |acc|line rest]; cbn [lsize length] in Hsz.
  - destruct Hw as [(Hch & Hcr & Hv) Hlt]. rewrite (st_prefix _ Hs) in Hlt.
    exists (L_START []), (l ++ data). split_and!; [by split; [apply Hb|]| |cbn; rewrite length_app; lia].
    by rewrite foldl_app, lrun_start.
  - destruct Hw as (Hch & Hcr & Hv). exists L_SKIP, data. split_and!; [|done|cbn; lia].
    split; [by apply (Hb [])|done].
  - destruct Hw as (Hch & Hcr & Hv). exists (L_LINE acc), data. split_and!; [|done|cbn; lia].
    split; [by apply (Hb [])|done].
  - by destruct Hw.
Qed.

Lemma handle_input_fuel s st l :
  located s st l -> Z.of_nat (length l) <= strbuf_limit ->
  (need st l < 2 * Z.to_nat (bufchain_size (vs_in_raw s)) + 3)%nat.
Proof using.
  intros [Hch _] Hl. unfold strbuf_limit in Hl. rewrite (chain_size _ _ Hch) by (unfold SIZE_T; lia).
  rewrite Nat2Z.id. destruct st; cbn [need]; lia.
Qed.

Lemma handle_input_fuel2 s : exists n,
  ssh_verstring_handle_input sshver s = run_rounds sshver (S (S n)) s.
Proof using. unfold ssh_verstring_handle_input. rewrite Nat.add_comm. cbn [Nat.add]. eauto. Qed.

Lemma chain_holds_ex s stream : waiting stream s -> exists bytes, chain_holds (vs_in_raw s) bytes.
Proof using.
  intros [_ Hw]. destruct (lrun pre (L_START []) stream); cbn in Hw; unfold located in Hw; naive_solver.
Qed.

Lemma deliver_ok s stream data :
  waiting stream s -> Z.of_nat (length (stream ++ data)) <= strbuf_limit ->
  outcome (stream ++ data) (deliver s data).
Proof using Hnl.
  intros Hw Hl. pose proof Hw as [Hs _]. destruct (chain_holds_ex s stream Hw) as [bytes Hch].
  destruct (ready_add (vs_in_raw s) bytes data (vs_world s) Hch (st_in_ready _ Hs)) as (b & w & E & Hb & Hr & Hm).
  unfold deliver. rewrite E. cbn [res_bind].
  destruct (waiting_located s stream data b w Hw) as (st & l & Hloc & Est & Hk).
  { intros bytes2 Hch2. destruct Hch as (_ & <- & _), Hch2 as (_ & <- & _). exact Hb. }
  rewrite length_app in Hl. pose proof (handle_input_fuel _ _ _ Hloc).
  apply (run_ok _ st l); [|done|done|lia|rewrite length_app; lia|lia].
  destruct Hs. split; try done. cbn. by apply Hm.
Qed.

Lemma feed_ok chunks : forall s stream,
  waiting stream s -> Z.of_nat (length (stream ++ concat chunks)) <= strbuf_limit ->
  (forall line rest, ~ greets pre (stream ++ concat chunks) line rest) ->
  exists s', feed s chunks = Ok s' /\ waiting (stream ++ concat chunks) s'.
Proof using Hnl.
  induction chunks as [|c chunks IH]; intros s stream Hw Hl Hg; cbn [feed concat] in *.
  { rewrite app_nil_r. eauto. }
  rewrite app_assoc in *. assert (Z.of_nat (length (stream ++ c)) <= strbuf_limit)
    by (rewrite (length_app (stream ++ c)) in Hl; lia).
  destruct (deliver_ok s stream c Hw) as (s1 & -> & Ho); [done|]. cbn [res_bind].
  assert (Hw1 : waiting (stream ++ c) s1).
  { destruct (lrun pre (L_START []) (stream ++ c)) as [| | |line rest] eqn:El; try exact Ho.
    destruct (Hg line (rest ++ concat chunks)).
    apply (greets_iff pre pre_not_nil Hnl). by rewrite foldl_app, El, lrun_done. }
  by apply IH.
Qed.

(** ** The first call, and the end of the input *)

(** A new state, and the line it sends at once if it does not wait. *)
Record fresh s (o0 : list Z) : Prop := {
  fr_start : vs_crState s = CR_START;
  fr_prefix : vs_prefix_wanted s = pre;
  fr_ours : vs_our_protoversion s = ours;
  fr_early : vs_send_early s = early;
  fr_impl : vs_impl_name s = impl;
  fr_settings : settings_are (vs_conf s) setting;
  fr_events : vs_events s = [];
  fr_vstring : strbuf_holds (vs_vstring s) [];
  fr_out : chain_holds (vs_out_raw s) o0;
  fr_out_ready : ready (vs_out_raw s) (vs_world s);
  fr_in_ready : ready (vs_in_raw s) (vs_world s);
  fr_sent : o = o0 ++ if early then version_line sshver pre ours impl else []
}.

Lemma first_round s o0 bytes fuel :
  fresh s o0 -> chain_holds (vs_in_raw s) bytes ->
  exists s1, run_rounds sshver (S fuel) s = run_rounds sshver fuel s1 /\ located s1 (L_START []) bytes /\
    vs_input_eof s1 = vs_input_eof s /\ (vs_input_eof s = false -> steady s1) /\ verdicts (vs_events s1) = [] /\
    vs_prefix_wanted s1 = pre.
Proof using.
  intros [] Hb. cbn [run_rounds]. unfold one_round. rewrite fr_start0.
  pose proof fr_sent0 as Ho. rewrite <-fr_early0 in Ho.
  destruct (vs_send_early s) eqn:Ee.
  - destruct (send_ok sshver s o0 fr_out0 fr_out_ready0) as (v & r & -> & H1 & H2 & H3). cbn [res_bind].
    rewrite fr_prefix0, fr_ours0, fr_impl0, <-Ho in H1.
    eexists. split_and!; [done|by split|done| |by cbn; rewrite fr_events0|done].
    intros He. split; try done; [by rewrite <-fr_early0|by cbn; rewrite fr_events0|by apply H3].
  - cbn [res_bind]. rewrite app_nil_r in Ho. rewrite <-Ho in fr_out0.
    eexists. split_and!; [done|by split|done| |by cbn; rewrite fr_events0|done].
    intros He. split; try done; [by rewrite <-fr_early0|by cbn; rewrite fr_events0].
Qed.

Lemma first_deliver s o0 data :
  fresh s o0 -> chain_holds (vs_in_raw s) [] -> vs_input_eof s = false ->
  Z.of_nat (length data) <= strbuf_limit -> outcome data (deliver s data).
Proof using Hnl.
  intros Hf Hch He Hl. unfold strbuf_limit in Hl.
  destruct (ready_add (vs_in_raw s) [] data (vs_world s) Hch (fr_in_ready _ _ Hf)) as (b & w & E & Hb & Hr & Hm).
  unfold deliver. rewrite E. cbn [res_bind app] in *. unfold ssh_verstring_handle_input.
  replace (2 * _ + 3)%nat with (S (2 * Z.to_nat (bufchain_size b) + 2)) by (cbn; lia).
  rewrite (chain_size _ _ Hb) by (unfold SIZE_T; lia). rewrite Nat2Z.id.
  destruct (first_round (set_input s (b, w)) o0 data (2 * length data + 2)) as (s1 & -> & Hloc & _ & Hs1 & _);
    [|done|].
  { destruct Hf. split; try done. cbn. by apply Hm. }
  apply (run_ok _ (L_START []) data); [by apply Hs1|done|done|cbn; unfold strbuf_limit; lia..].
Qed.

Lemma feed_new s o0 c chunks :
  fresh s o0 -> chain_holds (vs_in_raw s) [] -> vs_input_eof s = false ->
  Z.of_nat (length (concat (c :: chunks))) <= strbuf_limit ->
  (forall line rest, ~ greets pre (concat (c :: chunks)) line rest) ->
  exists s', feed s (c :: chunks) = Ok s' /\ waiting (concat (c :: chunks)) s'.
Proof using Hnl.
  intros Hf Hch He Hl Hg. cbn [feed concat] in *.
  destruct (first_deliver s o0 c Hf Hch He) as (s1 & -> & Ho); [rewrite length_app in Hl; lia|]. cbn [res_bind].
  assert (Hw1 : waiting c s1).
  { destruct (lrun pre (L_START []) c) as [| | |line rest] eqn:El; try exact Ho.
    destruct (Hg line (rest ++ concat chunks)).
    apply (greets_iff pre pre_not_nil Hnl). by rewrite foldl_app, El, lrun_done. }
  by apply feed_ok.
Qed.

(** Any number of reads that do not complete a greeting, and one that does. *)
Lemma last_deliver (r : res (ssh_verstring_state U)) stream c line rest :
  (forall s, r = Ok s -> outcome (stream ++ c) (deliver s c)) -> (exists s, r = Ok s) ->
  greets pre (stream ++ c) line rest ->
  exists s', (let! s := r in feed s [c]) = Ok s' /\ concluded line rest s'.
Proof using Hnl.
  intros H [s ->] Hgreet. apply (greets_iff pre pre_not_nil Hnl) in Hgreet. cbn [res_bind feed].
  destruct (H s eq_refl) as (s' & -> & Ho). rewrite Hgreet in Ho. cbn. eauto.
Qed.

Lemma feed_greeting s o0 chunks c line rest :
  fresh s o0 -> chain_holds (vs_in_raw s) [] -> vs_input_eof s = false ->
  Z.of_nat (length (concat chunks ++ c)) <= strbuf_limit ->
  (forall l r, ~ greets pre (concat chunks) l r) -> greets pre (concat chunks ++ c) line rest ->
  exists s', feed s (chunks ++ [c]) = Ok s' /\ concluded line rest s'.
Proof using Hnl.
  intros Hf Hch He Hl Hg. rewrite feed_app. destruct chunks as [|c0 chunks].
  - apply last_deliver; [|by eexists]. intros s1 [= <-]. by apply (first_deliver s o0).
  - destruct (feed_new s o0 c0 chunks) as (s1 & -> & Hw); [done..|rewrite length_app in Hl; lia|done|].
    apply last_deliver; [|by eexists]. intros s2 [= <-]. by apply deliver_ok.
Qed.

Lemma feed_waiting s chunks c line rest :
  waiting [] s -> Z.of_nat (length (concat chunks ++ c)) <= strbuf_limit ->
  (forall l r, ~ greets pre (concat chunks) l r) -> greets pre (concat chunks ++ c) line rest ->
  exists s', feed s (chunks ++ [c]) = Ok s' /\ concluded line rest s'.
Proof using Hnl.
  intros Hw Hl Hg. rewrite feed_app.
  destruct (feed_ok chunks s [] Hw) as (s1 & -> & Hw1); [rewrite length_app in Hl; cbn; lia|done|].
  apply last_deliver; [|by eexists]. intros s2 [= <-]. by apply deliver_ok.
Qed.

(** The end of the input while the handler waits. *)
Lemma eof_round s fuel st :
  vs_input_eof s = true -> at_wait s st -> Z.of_nat (lsize st) <= strbuf_limit ->
  exists s', run_rounds sshver (S fuel) s = Ok s' /\
    vs_events s' = vs_events s ++ [Ev_remote_error "Remote side unexpectedly closed network connection"].
Proof using.
  intros He Hw Hsz. unfold strbuf_limit in Hsz. cbn [run_rounds]. unfold one_round.
  destruct st as [l| |acc|]; [destruct Hw as [Hw Hlt]|..|by destruct Hw]; destruct Hw as (Hch & -> & _);
    cbn [lsize] in Hsz; unfold round_prefix, round_skip, round_greeting, BPP_WAITFOR;
    cbn [vs_in_raw set_crState vs_input_eof];
    rewrite (chain_size _ _ Hch) by (unfold SIZE_T; cbn; lia);
    rewrite (proj2 (Z.leb_gt _ _)), He by (cbn; lia); cbn; eauto.
Qed.

End feed.
