(* ===== verification/VerStringTheorems.v ===== *)
(** * The guarantees of the version exchange

    From a new state, over any split of the input: the first line with the prefix is
    read, the versions and bugs are those of that line, one decision is reported, and
    two ends of a connection that talk to each other decide the same. *)

From Stdlib Require Import String.
From stdpp Require Import gmap.
From S2P Require Import Prelude Callback Bufchain Marshal Strbuf Wildcard WildcardSpec Ptrlen ConfData Filename Conf ConfInv ConfSpec ConfList ConfTheorems VerString VerStringRun VerStringBugs VerStringSpec VerStringFeed.
Local Open Scope string_scope.
Local Open Scope cmodel_scope.
Local Open Scope list_scope.
Local Open Scope Z_scope.

#[local] Notation CONF s := (config_primary_key s%string).

(** ** A new state *)

Definition wanted_prefix (bare : bool) : list Z :=
  if bare then lit "SSHCONNECTION@putty.projects.tartarus.org-" else lit "SSH-".

Lemma wanted_prefix_snoc bare : exists pre', wanted_prefix bare = pre' ++ [45].
Proof.
  destruct bare; [exists (lit "SSHCONNECTION@putty.projects.tartarus.org")|exists (lit "SSH")]; reflexivity.
Qed.

Lemma wanted_prefix_nl bare : 10 ∉ wanted_prefix bare.
Proof. destruct bare; apply (bool_decide_unpack _); vm_compute; exact I. Qed.

(** The options the exchange reads, all of them numbers. *)
Definition bug_options : list string := "sshbug_dropstart" :: map (fun r => r.1.1.1) bug_table.

Definition options_set (m : gmap conf_key value) (setting : string -> Z) : Prop :=
  Forall (fun opt => m !! (CONF opt, None) = Some (Val_int (setting opt))) bug_options.

Lemma bug_options_types : Forall (fun opt => has_types (CONF opt) CONF_TYPE_NONE [CONF_TYPE_INT]) bug_options.
Proof.
  apply Forall_forall. intros opt Hin. apply has_types_b_true. revert opt Hin. apply Forall_forall.
  apply (bool_decide_unpack _). vm_compute. exact I.
Qed.

Lemma options_read f h conf m setting : rep f h conf m -> options_set m setting ->
  Forall (fun opt => conf_get_int conf (CONF opt) = Ok (setting opt)) bug_options.
Proof.
  intros Hrep Hset. pose proof bug_options_types as Ht. unfold options_set in Hset.
  rewrite Forall_forall in *. intros opt Hin. specialize (Hset opt Hin). specialize (Ht opt Hin).
  pose proof (conf_get_int_ok f h conf m Hrep _ Ht) as Hr. rewrite Hset in Hr.
  destruct Hr as (i & -> & [= ->]). done.
Qed.

(** Whether the version is sent without waiting for the other side's. *)
Definition sends_early (server : bool) (ours : list Z) (dropstart : Z) : bool :=
  if dropstart =? FORCE_ON then false else server || negb (speaks_v1 ours).

Section exchange.
  Context {U : Type} `{Allocator}.
  Variable sshver : list Z.
  Implicit Types (s a b : ssh_verstring_state U) (ch : bufchain U).

Lemma new_ok f h conf m setting bare ours server impl in_raw out_raw w o pre' :
  wanted_prefix bare = pre' ++ [45] ->
  rep f h conf m -> options_set m setting ->
  chain_holds out_raw o -> ready in_raw w -> ready out_raw w ->
  let early := sends_early server ours (setting "sshbug_dropstart") in
  exists s h', ssh_verstring_new conf h bare ours server impl in_raw out_raw w = Ok (s, h') /\
    fresh sshver setting pre' ours impl early
      (o ++ if early then version_line sshver (pre' ++ [45]) ours impl else []) s o /\
    vs_in_raw s = in_raw /\ vs_input_eof s = false.
Proof.
  intros Epre Hrep Hset Ho Hri Hro early. unfold ssh_verstring_new. fold (wanted_prefix bare). cbv zeta.
  rewrite c_assert_true by (by destruct bare).
  destruct (conf_copy_into_ok h h conf_new conf ∅ (conf_new_rep h) (proj1 Hrep)) as (conf2 & h2 & E & Hrep2).
  unfold conf_copy. rewrite E. cbn [res_bind].
  destruct (strbuf_new_holds false) as (v & Ev & Hv). unfold strbuf_new. rewrite Ev. cbn [res_bind].
  rewrite (proj2 (proj2 Hrep)) in Hrep2.
  pose proof (options_read h h2 conf2 m setting Hrep2 Hset) as Hread. unfold bug_options in Hread.
  apply Forall_cons in Hread as [Hd Hread]. rewrite Hd, includes_v1_eq. cbn [res_bind].
  do 2 eexists. split; [done|]. split; [|done]. split; try done.
  unfold settings_are. cbn [vs_conf]. by rewrite Forall_map in Hread.
Qed.

(** ** One side *)

(** C6. For a configuration that sets the options, a new state and any split of the input
    into reads: if the last read completes the first line that starts with the wanted
    prefix, every call returns, and in the end the lines before the greeting are gone
    and what follows it is left in the input for the next layer; the recorded strings
    are those of the greeting; a bug flag is set exactly if its option says so or the
    software version matches its table; exactly one decision is reported, for the
    newest protocol that both version numbers stand for or, if there is none, the end
    of the connection; and one version line is sent, at once or, if the version
    depends on the other side's, after the greeting, except that nothing at all is
    sent where it was to be sent after the greeting and there is no common protocol. *)
Theorem version_exchange_ok f h conf m setting bare ours server impl in_raw out_raw w o chunks c line rest :
  let pre := wanted_prefix bare in
  let early := sends_early server ours (setting "sshbug_dropstart") in
  rep f h conf m -> options_set m setting ->
  chain_holds in_raw [] -> chain_holds out_raw o -> ready in_raw w -> ready out_raw w ->
  Z.of_nat (length (concat chunks ++ c)) <= strbuf_limit ->
  (forall l r, ~ greets pre (concat chunks) l r) -> greets pre (concat chunks ++ c) line rest ->
  let theirs := (remote_versions pre line).1 in
  let software := (remote_versions pre line).2 in
  exists s h' s', ssh_verstring_new conf h bare ours server impl in_raw out_raw w = Ok (s, h') /\
    feed sshver s (chunks ++ [c]) = Ok s' /\
    chain_holds (vs_in_raw s') rest /\
    ssh_verstring_get_remote s' = Ok (trim_crlf line ++ [0]) /\
    vs_protoversion s' = Some theirs /\ vs_softwareversion s' = Some software /\
    (forall k, Z.testbit (ssh_verstring_get_bugs s') k = true <->
       exists opt d msg, (opt, k, d, msg) ∈ bug_table /\ flagged setting software opt d) /\
    verdicts (vs_events s') = [verdict ours theirs] /\
    chain_holds (vs_out_raw s') (o ++ sent_line sshver pre ours impl early theirs).
Proof.
  intros pre early Hrep Hset Hin Hout Hri Hro Hlen Hg Hgreet theirs software.
  destruct (wanted_prefix_snoc bare) as [pre' Epre].
  destruct (new_ok f h conf m setting bare ours server impl in_raw out_raw w o pre' Epre) as
    (s & h' & Enew & Hf & Ein & He); [done..|].
  pose proof (wanted_prefix_nl bare) as Hnl. unfold theirs, software, pre in *. rewrite Epre in *.
  rewrite <-Ein in Hin. destruct (feed_greeting sshver setting pre' ours impl early
    (o ++ if early then version_line sshver (pre' ++ [45]) ours impl else []) Hnl s o chunks c line rest)
    as (s' & Efeed & Hc); [done..|].
  exists s, h', s'. split; [done|]. split; [done|]. unfold concluded in Hc.
  destruct (remote_versions (pre' ++ [45]) line) as [tv sv]. cbn [fst snd].
  destruct Hc as (H1 & H2 & H3 & H4 & H5 & H6 & H7). split_and!; try done.
  - by apply strbuf_to_str_ok.
  - rewrite <-app_assoc in H7. unfold sent_line in *. destruct early; [by rewrite app_nil_r in H7|done].
Qed.


(** The call after the end of the input, in a new state or a later one. *)
Lemma close_ok setting pre' ours impl early o o0 s chunks :
  10 ∉ pre' ++ [45] ->
  fresh sshver setting pre' ours impl early o s o0 -> chain_holds (vs_in_raw s) [] -> vs_input_eof s = false ->
  Z.of_nat (length (concat chunks)) <= strbuf_limit ->
  (forall l r, ~ greets (pre' ++ [45]) (concat chunks) l r) ->
  exists s1 s', feed sshver s chunks = Ok s1 /\ verdicts (vs_events s1) = [] /\ close sshver s1 = Ok s' /\
    verdicts (vs_events s') = [Ev_remote_error "Remote side unexpectedly closed network connection"].
Proof.
  intros Hnl Hf Hch He Hl Hg. unfold close. destruct chunks as [|c chunks].
  - exists s. destruct (handle_input_fuel2 sshver (set_input_eof s)) as [n ->].
    destruct (first_round sshver setting pre' ours impl early o (set_input_eof s) o0 [] (S n))
      as (s1 & E1 & Hloc & E2 & _ & Hv & Ep); [destruct Hf; by split|done|].
    destruct (eof_round sshver s1 n (L_START [])) as (s' & E & Hev);
      [done|split; [done|rewrite Ep, length_app; cbn; lia]|done|].
    exists s'. cbn [feed]. split_and!; [done|by rewrite (fr_events _ _ _ _ _ _ _ _ _ Hf)|by rewrite E1, <-E|].
    by rewrite Hev, verdicts_app, Hv.
  - destruct (feed_new sshver setting pre' ours impl early o Hnl s o0 c chunks Hf Hch He Hl Hg) as (s1 & -> & Hs1 & Hw).
    exists s1. pose proof (lrun_size (pre' ++ [45]) (concat (c :: chunks)) (L_START [])) as Hsz.
    destruct (handle_input_fuel2 sshver (set_input_eof s1)) as [n ->].
    destruct (eof_round sshver (set_input_eof s1) (S n)
      (lrun (pre' ++ [45]) (L_START []) (concat (c :: chunks)))) as (s' & E & Hev);
      [done|exact Hw|cbn [lsize length] in Hsz; lia|].
    exists s'. pose proof (st_verdicts _ _ _ _ _ _ _ Hs1) as Hv1.
    split_and!; [done|done|exact E|]. rewrite Hev, verdicts_app. cbn [set_input_eof vs_events]. by rewrite Hv1.
Qed.

(** C8. If the other side closes the connection before it has sent a complete greeting,
    in whatever reads the bytes came, nothing was decided before, and the call after
    the end reports exactly one error. *)
Theorem version_exchange_closed f h conf m setting bare ours server impl in_raw out_raw w o chunks :
  rep f h conf m -> options_set m setting ->
  chain_holds in_raw [] -> chain_holds out_raw o -> ready in_raw w -> ready out_raw w ->
  Z.of_nat (length (concat chunks)) <= strbuf_limit ->
  (forall l r, ~ greets (wanted_prefix bare) (concat chunks) l r) ->
  exists s h' s1 s', ssh_verstring_new conf h bare ours server impl in_raw out_raw w = Ok (s, h') /\
    feed sshver s chunks = Ok s1 /\ verdicts (vs_events s1) = [] /\ close sshver s1 = Ok s' /\
    verdicts (vs_events s') = [Ev_remote_error "Remote side unexpectedly closed network connection"].
Proof.
  intros Hrep Hset Hin Hout Hri Hro Hlen Hg. destruct (wanted_prefix_snoc bare) as [pre' Epre].
  destruct (new_ok f h conf m setting bare ours server impl in_raw out_raw w o pre' Epre) as
    (s & h' & Enew & Hf & Ein & He); [done..|].
  pose proof (wanted_prefix_nl bare) as Hnl. rewrite Epre in *. rewrite <-Ein in Hin.
  destruct (close_ok _ _ _ _ _ _ _ s chunks Hnl Hf Hin He Hlen Hg) as (s1 & s' & Hc).
  by exists s, h', s1, s'.
Qed.

(** ** Both sides *)

(** A state that [ssh_verstring_new] returned, with the options set and the buffers
    empty. *)
Inductive opened setting bare ours server impl s : Prop :=
| Opened f h conf m in_raw out_raw w h' :
    rep f h conf m -> options_set m setting ->
    chain_holds in_raw [] -> chain_holds out_raw [] -> ready in_raw w -> ready out_raw w ->
    ssh_verstring_new conf h bare ours server impl in_raw out_raw w = Ok (s, h') ->
    opened setting bare ours server impl s.

Lemma opened_fresh setting bare ours server impl s pre' :
  wanted_prefix bare = pre' ++ [45] -> opened setting bare ours server impl s ->
  let early := vs_send_early s in
  fresh sshver setting pre' ours impl early
    (if early then version_line sshver (pre' ++ [45]) ours impl else []) s [] /\
  chain_holds (vs_in_raw s) [] /\ vs_input_eof s = false.
Proof.
  intros Epre [f h conf m in_raw out_raw w h' Hrep Hset Hin Hout Hri Hro E].
  destruct (new_ok f h conf m setting bare ours server impl in_raw out_raw w [] pre' Epre) as
    (s2 & h2 & E2 & Hf & Ein & He); [done..|].
  rewrite E in E2. injection E2 as <- <-. rewrite Ein. cbv zeta. pose proof Hf as [].
  rewrite fr_early. done.
Qed.

Lemma line_length bare p i : plain p -> plain i -> plain sshver ->
  Z.of_nat (length (version_line sshver (wanted_prefix bare) p i)) <= strbuf_limit.
Proof.
  intros [Hp _] [Hi _] [Hv _]. unfold version_line, strbuf_limit. rewrite !length_app, length_map, length_app.
  assert (length (wanted_prefix bare) <= 64)%nat by (destruct bare; vm_compute; lia).
  change (length (lit "-")) with 1%nat. destruct (speaks_v2 p); cbn [length]; lia.
Qed.

(** C7. The two ends of a connection, of which [b] sends its version at once while [a] may
    wait for it: [b] puts its line in its output; when [a] gets these bytes, in any
    reads, it decides; and if the versions have a protocol in common, then when [b]
    gets [a]'s bytes, in any reads, it decides on the same protocol, also where [a] lowered
    its version to [b]'s. *)
Theorem version_exchange_agrees set_a set_b bare ours_a ours_b server_a server_b impl_a impl_b a b :
  opened set_a bare ours_a server_a impl_a a -> opened set_b bare ours_b server_b impl_b b ->
  vs_send_early b = true ->
  plain sshver -> plain impl_a -> plain impl_b -> plain ours_a -> plain ours_b ->
  45 ∉ ours_a -> 45 ∉ ours_b ->
  exists b1 line_b, deliver sshver b [] = Ok b1 /\ chain_holds (vs_out_raw b1) line_b /\
    forall chunks c, c <> [] -> concat chunks ++ c = line_b ->
      exists a1 line_a, feed sshver a (chunks ++ [c]) = Ok a1 /\
        verdicts (vs_events a1) = [verdict ours_a ours_b] /\ chain_holds (vs_out_raw a1) line_a /\
        forall v, agree ours_a ours_b = Some v ->
          forall chunks2 c2, c2 <> [] -> concat chunks2 ++ c2 = line_a ->
            exists b2, feed sshver b1 (chunks2 ++ [c2]) = Ok b2 /\
              verdicts (vs_events b2) = [Ev_got_ssh_version v].
Proof.
  intros Ha Hb Hearly Hsv Hia Hib Hoa Hob Hda Hdb.
  destruct (wanted_prefix_snoc bare) as [pre' Epre]. pose proof (wanted_prefix_nl bare) as Hnl.
  destruct (opened_fresh _ _ _ _ _ _ _ Epre Ha) as (Hfa & Hina & Hea).
  destruct (opened_fresh _ _ _ _ _ _ _ Epre Hb) as (Hfb & Hinb & Heb).
  pose proof (line_length bare) as Hlen. rewrite Epre in Hnl, Hlen. set (pre := pre' ++ [45]) in *.
  rewrite Hearly in Hfb. set (line_b := version_line sshver pre ours_b impl_b) in *.
  destruct (first_deliver sshver _ _ _ _ _ _ Hnl b [] [] Hfb Hinb Heb) as (b1 & -> & Hw); [done|].
  cbn [foldl] in Hw. exists b1, line_b. split_and!; [done|apply Hw|]. intros chunks c Hc Ec.
  pose proof (version_line_read sshver pre' ours_b impl_b Hob Hdb Hib Hsv) as Hrb. fold pre line_b in Hrb.
  destruct (feed_greeting sshver _ _ _ _ _ _ Hnl a [] chunks c line_b [] Hfa Hina Hea) as (a1 & -> & Hca).
  { rewrite Ec. by apply Hlen. }
  { by apply (no_greeting sshver _ ours_b impl_b chunks c). }
  { rewrite Ec. by apply version_line_greets. }
  unfold concluded in Hca. fold pre in Hca. rewrite Hrb in Hca. destruct Hca as (_ & _ & _ & _ & _ & Hva & Hla).
  eexists a1, _. split_and!; [done|done|exact Hla|]. intros v Ev chunks2 c2 Hc2 Ec2.
  assert (Hv2 : exists p, plain p /\ 45 ∉ p /\ concat chunks2 ++ c2 = version_line sshver pre p impl_a /\
                          agree ours_b p = Some v).
  { destruct (vs_send_early a).
    - exists ours_a. rewrite app_nil_r in Ec2. by rewrite agree_comm.
    - exists (answered_version ours_a ours_b v). unfold sent_line in Ec2. rewrite Ev in Ec2.
      split_and!; [by destruct (answered_cases ours_a ours_b v) as [-> | ->]..|done|by apply agree_answered]. }
  destruct Hv2 as (p & Hp & Hdp & El & Hagree).
  destruct (feed_waiting sshver _ _ _ _ _ _ Hnl b1 chunks2 c2 (version_line sshver pre p impl_a) [] Hw)
    as (b2 & -> & Hcb).
  { rewrite El. by apply Hlen. }
  { by apply (no_greeting sshver _ p impl_a chunks2 c2). }
  { rewrite El. by apply version_line_greets. }
  unfold concluded in Hcb. fold pre in Hcb.
  pose proof (version_line_read sshver pre' p impl_a Hp Hdp Hia Hsv) as Hra. fold pre in Hra. rewrite Hra in Hcb.
  destruct Hcb as (_ & _ & _ & _ & _ & Hvb & _). exists b2. split; [done|]. rewrite Hvb.
  unfold verdict. by rewrite Hagree.
Qed.

End exchange.

(** ** Samples *)

Definition bug_ops : list conf_op := map (fun opt => SetInt (CONF opt) AUTO) bug_options.

Definition bug_map : gmap conf_key value := fold_left (fun m op => op_spec op m) bug_ops ∅.

Definition bug_conf : Conf * heap :=
  match run_ops conf_new ∅ bug_ops with Ok r => r | Crash _ => (conf_new, ∅) end.

Lemma bug_ops_typed : Forall op_typed bug_ops.
Proof.
  unfold bug_ops. apply Forall_map. eapply Forall_impl; [exact bug_options_types|].
  intros opt Ht. split; [exact Ht|done].
Qed.

Lemma bug_conf_rep : rep ∅ bug_conf.2 bug_conf.1 bug_map.
Proof.
  destruct (run_ops_ok ∅ bug_ops ∅ conf_new ∅ (conf_new_rep ∅) bug_ops_typed) as (conf & h & E & Hr).
  unfold bug_conf. rewrite E. exact Hr.
Qed.

Lemma bug_map_set : options_set bug_map (fun _ => AUTO).
Proof. unfold options_set, bug_options. repeat constructor; vm_compute; reflexivity. Qed.

Definition no_world : world unit := World ∅ ∅ tt.
Definition no_chain : bufchain unit := bufchain_init.

Lemma no_chain_ready : ready no_chain no_world.
Proof. by left. Qed.

Definition crlf : list Z := [13; 10].
Definition sample_reads : list (list Z) := [lit "hello" ++ crlf ++ lit "SS"; lit "H-2.0-OpenSS"].
Definition sample_last : list Z := lit "H_5.1p1 Debian" ++ crlf ++ lit "abc".

Lemma sample_reads_none l r : ~ greets (wanted_prefix false) (concat sample_reads) l r.
Proof. intros Hg%greets_iff; [vm_compute in Hg; discriminate|done|apply wanted_prefix_nl]. Qed.

Lemma sample_greets : greets (wanted_prefix false) (concat sample_reads ++ sample_last)
  (lit "SSH-2.0-OpenSSH_5.1p1 Debian" ++ crlf) (lit "abc").
Proof. apply greets_iff; [done|apply wanted_prefix_nl|vm_compute; reflexivity]. Qed.

Lemma version_exchange_ok_witness :
  exists s h' s', ssh_verstring_new bug_conf.1 bug_conf.2 false (lit "2.0") false (lit "Win SCP-x")
      no_chain no_chain no_world = Ok (s, h') /\
    feed (lit "_release") s (sample_reads ++ [sample_last]) = Ok s' /\
    chain_holds (vs_in_raw s') (lit "abc") /\
    vs_softwareversion s' = Some (lit "OpenSSH_5.1p1 Debian") /\
    verdicts (vs_events s') = [Ev_got_ssh_version 2] /\
    chain_holds (vs_out_raw s') (lit "SSH-2.0-Win_SCP_x_release" ++ crlf).
Proof.
  destruct (version_exchange_ok (lit "_release") ∅ bug_conf.2 bug_conf.1 bug_map (fun _ => AUTO) false (lit "2.0")
    false (lit "Win SCP-x") no_chain no_chain no_world [] sample_reads sample_last
    (lit "SSH-2.0-OpenSSH_5.1p1 Debian" ++ crlf) (lit "abc") bug_conf_rep bug_map_set chain_init chain_init
    no_chain_ready no_chain_ready ltac:(vm_compute; discriminate) sample_reads_none sample_greets)
    as (s & h' & s' & E1 & E2 & H1 & _ & _ & H2 & _ & H3 & H4).
  exists s, h', s'. split_and!; [exact E1|exact E2|exact H1|exact H2|exact H3|exact H4].
Defined.

Lemma version_exchange_closed_witness :
  exists s h' s1 s', ssh_verstring_new bug_conf.1 bug_conf.2 false (lit "2.0") false (lit "Win SCP-x")
      no_chain no_chain no_world = Ok (s, h') /\
    feed (lit "_release") s sample_reads = Ok s1 /\ verdicts (vs_events s1) = [] /\
    close (lit "_release") s1 = Ok s' /\
    verdicts (vs_events s') = [Ev_remote_error "Remote side unexpectedly closed network connection"].
Proof.
  apply (version_exchange_closed (lit "_release") ∅ bug_conf.2 bug_conf.1 bug_map (fun _ => AUTO) false (lit "2.0")
    false (lit "Win SCP-x") no_chain no_chain no_world [] sample_reads bug_conf_rep bug_map_set chain_init chain_init
    no_chain_ready no_chain_ready ltac:(vm_compute; discriminate) sample_reads_none).
Defined.

Lemma sample_opened ours server :
  exists s, opened (fun _ => AUTO) false ours server (lit "Win SCP-x") s /\
    vs_send_early (U := unit) s = (server || negb (speaks_v1 ours)).
Proof.
  destruct (new_ok [] ∅ bug_conf.2 bug_conf.1 bug_map (fun _ => AUTO) false ours server (lit "Win SCP-x")
    no_chain no_chain no_world [] (lit "SSH") eq_refl bug_conf_rep bug_map_set chain_init
    no_chain_ready no_chain_ready) as (s & h' & E & Hf & _).
  exists s. split; [|exact (fr_early _ _ _ _ _ _ _ _ _ Hf)].
  eapply Opened; [exact bug_conf_rep|exact bug_map_set|exact chain_init|exact chain_init|
    exact no_chain_ready|exact no_chain_ready|exact E].
Qed.

(** A client that speaks both protocols and a server of protocol 1. *)
Lemma version_exchange_agrees_witness :
  exists a b : ssh_verstring_state unit, vs_send_early a = false /\ vs_send_early b = true /\
  exists b1 line_b, deliver (lit "_release") b [] = Ok b1 /\ chain_holds (vs_out_raw b1) line_b /\
    forall chunks c, c <> [] -> concat chunks ++ c = line_b ->
      exists a1 line_a, feed (lit "_release") a (chunks ++ [c]) = Ok a1 /\
        verdicts (vs_events a1) = [Ev_got_ssh_version 1] /\ chain_holds (vs_out_raw a1) line_a /\
        forall v, agree (lit "1.99") (lit "1.5") = Some v ->
          forall chunks2 c2, c2 <> [] -> concat chunks2 ++ c2 = line_a ->
            exists b2, feed (lit "_release") b1 (chunks2 ++ [c2]) = Ok b2 /\
              verdicts (vs_events b2) = [Ev_got_ssh_version v].
Proof.
  destruct (sample_opened (lit "1.99") false) as (a & Ha & Ea).
  destruct (sample_opened (lit "1.5") true) as (b & Hb & Eb).
  exists a, b. split; [exact Ea|]. split; [exact Eb|].
  apply (version_exchange_agrees (lit "_release") (fun _ => AUTO) (fun _ => AUTO) false (lit "1.99") (lit "1.5")
    false true (lit "Win SCP-x") (lit "Win SCP-x") a b Ha Hb Eb);
    try (split; [vm_compute; discriminate|]); apply (bool_decide_unpack _); vm_compute; exact I.
Defined.
