(* ===== verification/Packet.v ===== *)
(** * SSH packets and their queues (putty ssh.h, ssh/common_p.c, utils/smemeq.c)

    An outgoing packet is a growing array of bytes that is filled as a sink; an incoming
    one is a source.  Queues of packets keep the sum of the sizes of their packets and may
    have a callback.  The links between the packets of a queue are a list. *)

From stdpp Require Import gmap.
From S2P Require Import Prelude Bufchain Marshal Strbuf Ptrlen.
Local Open Scope cmodel_scope.
Local Open Scope Z_scope.

(** ** Packets *)

(** [sequence] is an unsigned long of 32 bits; [formal_size] is that of the queue node. *)
Record PktIn := MkPktIn {
  pi_type : Z;
  pi_sequence : Z;
  pi_src : BinarySource;
  pi_formal_size : Z
}.

Record PktOut := MkPktOut {
  po_prefix : Z;
  po_length : Z;
  po_type : Z;
  po_minlen : Z;
  po_data : memory;
  po_maxlen : Z;
  po_formal_size : Z
}.

Definition ssh_new_packet : PktOut := MkPktOut 0 0 0 0 [] 0 0.

Definition ssh_pkt_adddata (pkt : PktOut) (data : list Z) : res PktOut :=
  let len := to_int (Z.of_nat (length data)) in
  if len <? 0 then Crash UndefinedBehaviour
  else
    let! g := safegrowarray (po_data pkt) (po_maxlen pkt) 1 (po_length pkt) len true in
    let! mem := memcpy g.1 (po_length pkt) (Some <$> data) in
    let length := wrap_size (po_length pkt + len) in
    Ok (MkPktOut (po_prefix pkt) length (po_type pkt) (po_minlen pkt) mem g.2 length).

#[export] Instance pkt_sink : BinarySink PktOut := ssh_pkt_adddata.

(** The bytes [pkt->data[0 .. pkt->length)]. *)
Definition pkt_bytes (pkt : PktOut) : res (list Z) :=
  if Z.of_nat (length (po_data pkt)) <? po_length pkt then Crash UndefinedBehaviour
  else match mapM id (take (Z.to_nat (po_length pkt)) (po_data pkt)) with
       | Some bytes => Ok bytes
       | None => Crash UndefinedBehaviour
       end.

(** [memcpy(pkt->data + off, bytes, length bytes)] *)
Definition pkt_store (pkt : PktOut) (off : Z) (bytes : list Z) : res PktOut :=
  let! mem := memcpy (po_data pkt) off (Some <$> bytes) in
  Ok (MkPktOut (po_prefix pkt) (po_length pkt) (po_type pkt) (po_minlen pkt) mem (po_maxlen pkt)
        (po_formal_size pkt)).

(** [pkt->length = len] *)
Definition pkt_set_length (pkt : PktOut) (len : Z) : PktOut :=
  MkPktOut (po_prefix pkt) len (po_type pkt) (po_minlen pkt) (po_data pkt) (po_maxlen pkt)
    (po_formal_size pkt).

(** ** Comparison in constant time *)

Fixpoint smemeq_loop (a b : list Z) (len : nat) (val : Z) : res Z :=
  match len with
  | O => Ok val
  | S len =>
      match a, b with
      | x :: a, y :: b => smemeq_loop a b len (Z.lor val (Z.lxor x y))
      | _, _ => Crash UndefinedBehaviour
      end
  end.

Definition smemeq (a b : list Z) (len : Z) : res bool :=
  let! val := smemeq_loop a b (Z.to_nat len) 0 in
  Ok (negb (Z.shiftr (0x100 - val) 8 =? 0)).

(** ** Queues *)

(** What a packet of type [P] adds to the size of its queue. *)
Class Sized (P : Type) := formal_size : P -> Z.
#[export] Instance PktIn_sized : Sized PktIn := pi_formal_size.
#[export] Instance PktOut_sized : Sized PktOut := po_formal_size.

(** The packets in order, from [end.next] on. *)
Record PacketQueue (P : Type) := MkPacketQueue {
  pq_packets : list P;
  pq_total_size : Z;
  pq_ic : option nat
}.
Arguments MkPacketQueue {P} _ _ _.
Arguments pq_packets {P} _.
Arguments pq_total_size {P} _.
Arguments pq_ic {P} _.

(** The operations return the queue and the idempotent callback that they queue, if any. *)
Section queues.
  Context {P : Type} `{Sized P}.
  Implicit Types pq : PacketQueue P.

Definition pq_init : PacketQueue P := MkPacketQueue [] 0 None.

Definition pq_push pq (pkt : P) : PacketQueue P * option nat :=
  (MkPacketQueue (pq_packets pq ++ [pkt]) (wrap_size (pq_total_size pq + formal_size pkt)) (pq_ic pq),
   pq_ic pq).

Definition pq_push_front pq (pkt : P) : PacketQueue P * option nat :=
  (MkPacketQueue (pkt :: pq_packets pq) (wrap_size (pq_total_size pq + formal_size pkt)) (pq_ic pq),
   pq_ic pq).

Definition pq_peek pq : option P := head (pq_packets pq).

Definition pq_pop pq : res (option P * PacketQueue P) :=
  match pq_packets pq with
  | [] => Ok (None, pq)
  | pkt :: rest =>
      c_assert (formal_size pkt <=? pq_total_size pq) (
        let total := pq_total_size pq - formal_size pkt in
        c_assert (bool_decide (rest <> []) || (total =? 0))
          (Ok (Some pkt, MkPacketQueue rest total (pq_ic pq))))
  end.

(** [pq_concatenate(q1, q1, q2)]: both queues. *)
Definition pq_concatenate (q1 q2 : PacketQueue P) : PacketQueue P * PacketQueue P * option nat :=
  let packets := pq_packets q1 ++ pq_packets q2 in
  (MkPacketQueue packets (wrap_size (pq_total_size q1 + pq_total_size q2)) (pq_ic q1),
   MkPacketQueue [] 0 (pq_ic q2),
   match packets with [] => None | _ => pq_ic q1 end).

End queues.

(** ** A packet is a sink *)

Definition pkt_limit : Z := 2 ^ 30.

(** The packet has been started and has the bytes [c]. *)
Definition pkt_holds (pkt : PktOut) (c : list Z) : Prop :=
  c <> [] /\ po_length pkt = Z.of_nat (length c) /\
  po_maxlen pkt = Z.of_nat (length (po_data pkt)) /\ po_maxlen pkt <= pkt_limit + 2 ^ 27 /\
  exists tail, po_data pkt = (Some <$> c) ++ tail.

(** What writing leaves alone. *)
Definition same_kind (p q : PktOut) : Prop :=
  po_type q = po_type p /\ po_minlen q = po_minlen p /\ po_prefix q = po_prefix p.

Lemma adddata_ok pkt c d :
  pkt_holds pkt c -> Z.of_nat (length (c ++ d)) <= pkt_limit ->
  exists pkt', ssh_pkt_adddata pkt d = Ok pkt' /\ pkt_holds pkt' (c ++ d) /\ same_kind pkt pkt' /\
    po_formal_size pkt' = Z.of_nat (length (c ++ d)).
Proof.
  intros (Hne & Hlen & Hsize & Hb & tail & Hs) Hl. rewrite length_app in Hl. unfold pkt_limit in *.
  assert (0 < Z.of_nat (length c)) by (destruct c; [done|cbn; lia]).
  unfold ssh_pkt_adddata. rewrite to_int_small by lia. rewrite (proj2 (Z.ltb_ge _ _)) by lia.
  rewrite Hlen, wrap_size_small by (unfold SIZE_T; lia).
  destruct (safegrowarray_ok (po_data pkt) (po_maxlen pkt) 1 (Z.of_nat (length c)) (Z.of_nat (length d)) true)
    as (mem & size & -> & Hm & Hneed & Ht & Hsz);
    [lia|lia|lia|lia|apply small_growth; lia|unfold INT_MAX; lia..|].
  rewrite Z.mul_1_r in Hm. cbn [res_bind fst snd].
  rewrite memcpy_ok by (rewrite ?length_fmap; lia). cbn [res_bind].
  eexists. split; [done|]. rewrite Nat2Z.id, length_fmap.
  assert (Hc : take (length c) mem = Some <$> c).
  { assert (Hle : (length c <= length (po_data pkt))%nat) by (rewrite Hs, length_app, length_fmap; lia).
    rewrite <-(take_app_length' (Some <$> c) tail (length c)), <-Hs, <-Ht, take_take by (by rewrite length_fmap).
    by rewrite Nat.min_l. }
  split_and!; [|by split_and!|cbn; rewrite length_app; lia].
  assert (Hll : length (Some <$> c ++ d) = (length c + length d)%nat) by (by rewrite length_fmap, length_app).
  split_and!; [by destruct c| | | |]; cbn [po_length po_maxlen po_data].
  - rewrite length_app. lia.
  - rewrite !length_app, length_take, length_fmap, length_drop. lia.
  - unfold pkt_limit. destruct Hsz as [->|[Hle ->]]; [lia|]. apply growth_bound; lia.
  - exists (drop (length c + length d) mem). by rewrite Hc, fmap_app, <-app_assoc.
Qed.

Lemma pkt_write_ok pkt c d :
  pkt_holds pkt c -> Z.of_nat (length (c ++ d)) <= pkt_limit ->
  exists pkt', bs_write pkt d = Ok pkt' /\ pkt_holds pkt' (c ++ d).
Proof. intros Hc Hl. destruct (adddata_ok pkt c d Hc Hl) as (pkt' & E & H & _). eauto. Qed.

#[export] Instance pkt_lawful : LawfulSink PktOut := {|
  sink_limit := pkt_limit;
  sink_holds := pkt_holds;
  sink_write := pkt_write_ok
|}.

Lemma pkt_bytes_ok pkt c : pkt_holds pkt c -> pkt_bytes pkt = Ok c.
Proof.
  intros (_ & Hl & _ & _ & tail & Hs). unfold pkt_bytes. rewrite Hl, Hs, length_app, length_fmap.
  rewrite (proj2 (Z.ltb_ge _ _)), Nat2Z.id, take_app_length' by (rewrite ?length_fmap; lia).
  by rewrite mapM_id_Some.
Qed.

Lemma pkt_store_ok pkt c off d :
  pkt_holds pkt c -> 0 <= off -> off + Z.of_nat (length d) <= Z.of_nat (length c) ->
  exists pkt', pkt_store pkt off d = Ok pkt' /\ same_kind pkt pkt' /\
    pkt_holds pkt' (take (Z.to_nat off) c ++ d ++ drop (Z.to_nat off + length d) c).
Proof.
  intros (Hne & Hl & Hm & Hb & tail & Hs) Ho Hd. unfold pkt_store.
  assert (Hfit : Z.of_nat (length d) + off <= Z.of_nat (length (po_data pkt)))
    by (rewrite Hs, length_app, length_fmap; lia).
  rewrite memcpy_ok by (rewrite ?length_fmap; lia). cbn [res_bind].
  eexists. split; [done|]. split; [by split_and!|].
  set (c' := take (Z.to_nat off) c ++ d ++ drop (Z.to_nat off + length d) c).
  assert (Hll : length c' = length c).
  { unfold c'. rewrite !length_app, length_take, length_drop. lia. }
  split_and!; [|by cbn; rewrite Hll| |done|]; cbn [po_maxlen po_data].
  - intros E. rewrite E in Hll. destruct c; done.
  - rewrite Hm, !length_app, length_take, length_drop, length_fmap, Hs, length_app, length_fmap. lia.
  - exists tail. unfold c'. rewrite Hs, !fmap_app, fmap_take, fmap_drop, length_fmap.
    rewrite take_app_le, drop_app_le by (rewrite length_fmap; lia). by rewrite <-!app_assoc.
Qed.

Lemma pkt_set_length_ok pkt c n :
  pkt_holds pkt c -> (0 < n <= length c)%nat -> pkt_holds (pkt_set_length pkt (Z.of_nat n)) (take n c).
Proof.
  intros (Hne & Hl & Hm & Hb & tail & Hs) Hn. split_and!; cbn.
  - destruct c, n; cbn in *; try done; lia.
  - rewrite length_take. lia.
  - done.
  - done.
  - exists ((Some <$> drop n c) ++ tail). rewrite Hs, app_assoc, <-fmap_app, take_drop. done.
Qed.

(** ** Comparison *)

Lemma lor_zero a b : 0 <= a -> Z.lor a b = 0 <-> a = 0 /\ b = 0.
Proof. intros Ha. split; [apply Z.lor_eq_0_iff|]. by intros [-> ->]. Qed.

Lemma smemeq_loop_ok a : forall b val, length a = length b -> bytesOK a -> bytesOK b -> 0 <= val < 256 ->
  exists v, smemeq_loop a b (length a) val = Ok v /\ 0 <= v < 256 /\ (v = 0 <-> val = 0 /\ a = b).
Proof.
  induction a as [|x a IH]; intros [|y b] val Hl Ha Hb Hv; try done; cbn [smemeq_loop length].
  { exists val. split_and!; try done; try lia. naive_solver. }
  apply Forall_cons in Ha as [Hx Ha], Hb as [Hy Hb]. injection Hl as Hl.
  assert (Hlx : 0 <= Z.lor val (Z.lxor x y) < 256).
  { change 256 with (2 ^ 8) in *. apply lor_bound; [lia|lia|]. apply lxor_bound; [lia|exact Hx|exact Hy]. }
  destruct (IH b (Z.lor val (Z.lxor x y)) Hl Ha Hb Hlx) as (v & E & Hr & Hz). exists v.
  split_and!; [done|lia|lia|]. rewrite Hz, lor_zero, Z.lxor_eq_0_iff by lia. naive_solver.
Qed.

(** The result is that of the obvious comparison. *)
Lemma smemeq_ok a b : length a = length b -> bytesOK a -> bytesOK b ->
  smemeq a b (Z.of_nat (length a)) = Ok (bool_decide (a = b)).
Proof.
  intros Hl Ha Hb. unfold smemeq. rewrite Nat2Z.id.
  destruct (smemeq_loop_ok a b 0 Hl Ha Hb) as (v & -> & Hv & Hz); [lia|]. cbn [res_bind]. f_equal.
  rewrite Z.shiftr_div_pow2 by lia. change (2 ^ 8) with 256. case_bool_decide as E.
  - assert (v = 0) as -> by tauto. done.
  - assert (v <> 0) by tauto. rewrite Z.div_small by lia. done.
Qed.

(** ** Queues in order *)

Section queue_laws.
  Context {P : Type} `{Sized P}.
  Implicit Types pq : PacketQueue P.

Definition sizes (l : list P) : Z := foldr (fun p n => formal_size p + n) 0 l.

Lemma sizes_app l1 l2 : sizes (l1 ++ l2) = sizes l1 + sizes l2.
Proof.
  induction l1 as [|p l1 IH]; [done|].
  change (formal_size p + sizes (l1 ++ l2) = formal_size p + sizes l1 + sizes l2). lia.
Qed.

(** The queue's size is the sum of the sizes of its packets. *)
Definition queue_holds pq (l : list P) : Prop :=
  pq_packets pq = l /\ pq_total_size pq = sizes l /\
  Forall (fun p => 0 <= formal_size p) l /\ sizes l < SIZE_T.

Lemma sizes_nonneg l : Forall (fun p => 0 <= formal_size p) l -> 0 <= sizes l.
Proof. induction 1 as [|p l Hp _ IH]; [done|]. change (0 <= formal_size p + sizes l). lia. Qed.

Lemma pq_push_ok pq l pkt :
  queue_holds pq l -> 0 <= formal_size pkt -> sizes l + formal_size pkt < SIZE_T ->
  queue_holds (pq_push pq pkt).1 (l ++ [pkt]).
Proof.
  intros (Hl & Ht & Hf & Hs) Hp Hb. pose proof (sizes_nonneg l Hf).
  split_and!; cbn [pq_push fst pq_packets pq_total_size].
  - by rewrite Hl.
  - rewrite Ht, wrap_size_small, sizes_app by lia. cbn. lia.
  - apply Forall_app. by repeat constructor.
  - rewrite sizes_app. cbn. lia.
Qed.

Lemma pq_concatenate_ok q1 q2 l1 l2 :
  queue_holds q1 l1 -> queue_holds q2 l2 -> sizes l1 + sizes l2 < SIZE_T ->
  queue_holds (pq_concatenate q1 q2).1.1 (l1 ++ l2) /\ queue_holds (pq_concatenate q1 q2).1.2 [].
Proof.
  intros (Hl1 & Ht1 & Hf1 & Hs1) (Hl2 & Ht2 & Hf2 & Hs2) Hb.
  pose proof (sizes_nonneg l1 Hf1). pose proof (sizes_nonneg l2 Hf2).
  split; split_and!; cbn [pq_concatenate fst snd pq_packets pq_total_size]; try done.
  - by rewrite Hl1, Hl2.
  - by rewrite Ht1, Ht2, wrap_size_small, sizes_app by lia.
  - by apply Forall_app.
  - by rewrite sizes_app.
Qed.

Lemma pq_pop_ok pq p l : queue_holds pq (p :: l) ->
  exists pq', pq_pop pq = Ok (Some p, pq') /\ queue_holds pq' l /\ pq_ic pq' = pq_ic pq.
Proof.
  intros (Hl & Ht & Hf & Hs). unfold pq_pop. rewrite Hl. apply Forall_cons in Hf as [Hp Hf].
  pose proof (sizes_nonneg l Hf) as Hn. change (sizes (p :: l)) with (formal_size p + sizes l) in *.
  rewrite c_assert_true by (apply Z.leb_le; lia). rewrite c_assert_true.
  2: { apply orb_true_iff. destruct l; [right|left; by apply bool_decide_eq_true].
       apply Z.eqb_eq. cbn in Ht. lia. }
  eexists. split; [done|]. split; [|done]. split_and!; cbn [pq_packets pq_total_size]; [done|lia|done|lia].
Qed.

End queue_laws.
