(* ===== verification/Bpp.v ===== *)
(** * Binary packet protocols: the common part (putty ssh/bpp.h, ssh/common_p.c, ssh.h)

    What the packet layers of SSH share: the queues of packets, the statistics, the answer to
    unknown packets, and the way they read.  The input handlers are coroutines whose waits
    are reads of a number of bytes that succeed as a whole or not at all; [reader] is a
    coroutine of this kind in general.  Calls to the rest of the program are events. *)

From Stdlib Require Import String.
From stdpp Require Import gmap.
From S2P Require Import Prelude Callback Bufchain Marshal Strbuf Ptrlen Packet.
Local Open Scope string_scope.
Local Open Scope cmodel_scope.
Local Open Scope list_scope.
Local Open Scope Z_scope.

(** ** Message numbers *)

Definition SSH2_MSG_DISCONNECT : Z := 1.
Definition SSH2_MSG_IGNORE : Z := 2.
Definition SSH2_MSG_UNIMPLEMENTED : Z := 3.
Definition SSH2_MSG_EXT_INFO : Z := 7.
Definition SSH2_MSG_NEWKEYS : Z := 21.
Definition SSH2_MSG_USERAUTH_SUCCESS : Z := 52.
Definition SSH_MSG_NO_TYPE_CODE : Z := 256.

Definition SSH2_MESSAGE_TYPES : list Z :=
  [1; 2; 3; 4; 5; 6; 7; 20; 21; 30; 31; 30; 34; 31; 32; 33; 30; 31; 32; 33; 34; 40; 41; 30; 31; 32;
   30; 31; 30; 31; 50; 51; 52; 53; 60; 60; 60; 61; 60; 61; 63; 64; 65; 66; 80; 81; 82; 90; 91; 92;
   93; 94; 95; 96; 97; 98; 99; 100].

Definition SSH2_BITMAP_WORD (y : Z) : Z :=
  foldl (fun word value =>
           Z.lor word (if (32 * y <=? value) && (value <? 32 * y + 32) then Z.shiftl 1 (value - 32 * y) else 0))
    0 SSH2_MESSAGE_TYPES.

Definition valid_bitmap : list Z := SSH2_BITMAP_WORD <$> [0; 1; 2; 3; 4; 5; 6; 7].

Definition OUR_V2_PACKETLIMIT : Z := 0x9000.

(** [(unsigned)(pkttype - 50) < 20] *)
Definition userauth_range (pkttype : Z) : bool := (pkttype - 50) mod 2 ^ 32 <? 20.

(** ** Statistics *)

Record DataTransferStatsDirection := DTS {
  dts_running : bool;
  dts_expired : bool;
  dts_remaining : Z
}.

Definition dts_consume (s : DataTransferStatsDirection) (size_consumed : Z) : DataTransferStatsDirection :=
  if dts_running s then
    if dts_remaining s <=? size_consumed then DTS false true (dts_remaining s)
    else DTS true (dts_expired s) (dts_remaining s - size_consumed)
  else s.

Definition dts_reset (starting_size : Z) : DataTransferStatsDirection :=
  DTS (negb (starting_size =? 0)) false starting_size.

(** ** The protocol object *)

Inductive bpp_event :=
| Ev_check_frozen
| Ev_sw_abort (msg : string)
| Ev_proto_error (msg : string)
| Ev_remote_error (msg : string)
| Ev_remote_eof (msg : string)
| Ev_queue_callback (ic : nat)
| Ev_sendbuffer_changed.

(** The raw buffers are kept beside it. *)
Record BinaryPacketProtocol := MkBpp {
  b_input_eof : bool;
  b_in_pq : PacketQueue PktIn;
  b_out_pq : PacketQueue PktOut;
  b_ic_in_raw : nat;
  b_ic_out_pq : nat;
  b_remote_bugs : Z;
  b_expect_close : bool;
  b_events : list bpp_event
}.

Implicit Types b : BinaryPacketProtocol.

Definition ssh_bpp_common_setup (ic_in_raw ic_out_pq : nat) : BinaryPacketProtocol :=
  MkBpp false pq_init (MkPacketQueue [] 0 (Some ic_out_pq)) ic_in_raw ic_out_pq 0 false [].

Definition b_emit b (evs : list bpp_event) : BinaryPacketProtocol :=
  MkBpp (b_input_eof b) (b_in_pq b) (b_out_pq b) (b_ic_in_raw b) (b_ic_out_pq b) (b_remote_bugs b)
    (b_expect_close b) (b_events b ++ evs).

Definition callback_event (ic : option nat) : list bpp_event :=
  match ic with Some ic => [Ev_queue_callback ic] | None => [] end.

Definition b_push_in b (pkt : PktIn) : BinaryPacketProtocol :=
  let r := pq_push (b_in_pq b) pkt in
  MkBpp (b_input_eof b) r.1 (b_out_pq b) (b_ic_in_raw b) (b_ic_out_pq b) (b_remote_bugs b)
    (b_expect_close b) (b_events b ++ callback_event r.2).

Definition b_push_out b (pkt : PktOut) : BinaryPacketProtocol :=
  let r := pq_push (b_out_pq b) pkt in
  MkBpp (b_input_eof b) (b_in_pq b) r.1 (b_ic_in_raw b) (b_ic_out_pq b) (b_remote_bugs b)
    (b_expect_close b) (b_events b ++ callback_event r.2).

Definition b_pop_out b : res (option PktOut * BinaryPacketProtocol) :=
  let! r := pq_pop (b_out_pq b) in
  Ok (r.1, MkBpp (b_input_eof b) (b_in_pq b) r.2 (b_ic_in_raw b) (b_ic_out_pq b) (b_remote_bugs b)
             (b_expect_close b) (b_events b)).

Definition b_set_eof b : BinaryPacketProtocol :=
  MkBpp true (b_in_pq b) (b_out_pq b) (b_ic_in_raw b) (b_ic_out_pq b) (b_remote_bugs b)
    (b_expect_close b) (b_events b).

Definition set_pi_formal_size (pkt : PktIn) (n : Z) : PktIn :=
  MkPktIn (pi_type pkt) (pi_sequence pkt) (pi_src pkt) n.

Section common.
  Variable new_pktout : Z -> res PktOut.

Definition ssh2_bpp_queue_disconnect b (msg : list Z) (category : Z) : res BinaryPacketProtocol :=
  let! pkt := new_pktout SSH2_MSG_DISCONNECT in
  let! pkt := BinarySink_put_uint32 pkt category in
  let! pkt := BinarySink_put_stringz pkt msg in
  let! pkt := BinarySink_put_stringz pkt [101; 110; 0] in
  Ok (b_push_out b pkt).

(** The result and the protocol object. *)
Definition ssh2_bpp_check_unimplemented b (pktin : PktIn) : res (bool * BinaryPacketProtocol) :=
  let! bad :=
    if pi_type pktin <? 0x100 then
      match valid_bitmap !! Z.to_nat (Z.shiftr (pi_type pktin) 5) with
      | Some word => Ok (Z.land (Z.shiftr word (Z.land (pi_type pktin) 0x1F)) 1 =? 0)
      | None => Crash UndefinedBehaviour
      end
    else Ok false in
  if bad : bool then
    let! pkt := new_pktout SSH2_MSG_UNIMPLEMENTED in
    let! pkt := BinarySink_put_uint32 pkt (pi_sequence pktin) in
    Ok (true, b_push_out b pkt)
  else Ok (false, b).

End common.

(** The report at the label [eof]. *)
Definition report_eof b : BinaryPacketProtocol :=
  b_emit b [if b_expect_close b then Ev_remote_eof "Remote side closed network connection"
            else Ev_remote_error "Remote side unexpectedly closed network connection"].

(** ** Blocks of memory *)

(** A block of [bl_size] bytes of which the first ones have been written. *)
Record block := Block { bl_size : Z; bl_bytes : list Z }.

Definition block_write (bl : block) (off : Z) (data : list Z) : res block :=
  if (0 <=? off) && (off <=? Z.of_nat (length (bl_bytes bl))) && (off + Z.of_nat (length data) <=? bl_size bl)
  then Ok (Block (bl_size bl)
             (take (Z.to_nat off) (bl_bytes bl) ++ data ++ drop (Z.to_nat off + length data) (bl_bytes bl)))
  else Crash UndefinedBehaviour.

(** ** Coroutines that read *)

(** What a piece of a coroutine does: return, or go on at the next wait. *)
Inductive round (C : Type) := Return (c : C) | Continue (c : C).
Arguments Return {C} c.
Arguments Continue {C} c.

Section reader.
  Context {U C : Type}.
  (** Where the coroutine is: at a [BPP_READ] of a number of bytes, or elsewhere. *)
  Variable read_len : C -> option Z.
  (** It has seen the end of the input. *)
  Variable at_eof : C -> bool.
  (** [ssh_check_frozen], and what follows the read. *)
  Variable after_read : C -> list Z -> res (round C).
  (** [goto eof] *)
  Variable goto_eof : C -> res (round C).
  (** What is done where it does not read. *)
  Variable no_read : C -> res (round C).

Definition one_round (in_raw : bufchain U) (c : C) : res (bufchain U * round C) :=
  match read_len c with
  | Some len =>
      let! r := bufchain_try_fetch_consume in_raw len in
      match r.1 with
      | Some data => let! x := after_read c data in Ok (r.2, x)
      | None => if at_eof c then let! x := goto_eof c in Ok (r.2, x) else Ok (r.2, Return c)
      end
  | None => let! x := no_read c in Ok (in_raw, x)
  end.

Fixpoint run_rounds (fuel : nat) (in_raw : bufchain U) (c : C) : res (bufchain U * C) :=
  match fuel with
  | O => Crash OutOfFuel
  | S fuel =>
      let! r := one_round in_raw c in
      match r.2 with Return c => Ok (r.1, c) | Continue c => run_rounds fuel r.1 c end
  end.

End reader.

(** ** Known message types *)

Definition bitmap_bit (t : Z) : bool :=
  match valid_bitmap !! Z.to_nat (Z.shiftr t 5) with
  | Some word => negb (Z.land (Z.shiftr word (Z.land t 0x1F)) 1 =? 0)
  | None => false
  end.

Lemma bitmap_types : Forall (fun t => bitmap_bit t = bool_decide (t ∈ SSH2_MESSAGE_TYPES)) (seqZ 0 256).
Proof. apply (bool_decide_unpack _). vm_compute. exact I. Qed.

Lemma check_known new_pktout b pktin : pi_type pktin ∈ SSH2_MESSAGE_TYPES ->
  ssh2_bpp_check_unimplemented new_pktout b pktin = Ok (false, b).
Proof.
  intros H. assert (Hr : 0 <= pi_type pktin < 256).
  { revert H. generalize (pi_type pktin). apply Forall_forall. apply (bool_decide_unpack _). vm_compute. exact I. }
  pose proof bitmap_types as Hb. rewrite Forall_forall in Hb.
  specialize (Hb (pi_type pktin) (proj2 (elem_of_seqZ 0 256 _) Hr)).
  rewrite bool_decide_eq_true_2 in Hb by done. unfold bitmap_bit in Hb.
  unfold ssh2_bpp_check_unimplemented. change 0x100 with 256. rewrite (proj2 (Z.ltb_lt _ _)) by lia.
  destruct (valid_bitmap !! _); [|done]. cbn [res_bind]. by destruct (_ =? 0).
Qed.

(** An unknown type is answered with its sequence number. *)
Lemma check_unknown new_pktout b pktin : 0 <= pi_type pktin < 256 -> pi_type pktin ∉ SSH2_MESSAGE_TYPES ->
  ssh2_bpp_check_unimplemented new_pktout b pktin =
    let! pkt := new_pktout SSH2_MSG_UNIMPLEMENTED in
    let! pkt := BinarySink_put_uint32 pkt (pi_sequence pktin) in
    Ok (true, b_push_out b pkt).
Proof.
  intros Hr H. pose proof bitmap_types as Hb. rewrite Forall_forall in Hb.
  specialize (Hb (pi_type pktin) (proj2 (elem_of_seqZ 0 256 _) Hr)).
  rewrite bool_decide_eq_false_2 in Hb by done. unfold bitmap_bit in Hb.
  unfold ssh2_bpp_check_unimplemented. change 0x100 with 256. rewrite (proj2 (Z.ltb_lt _ _)) by lia.
  assert (Hi : (Z.to_nat (Z.shiftr (pi_type pktin) 5) < length valid_bitmap)%nat).
  { change (length valid_bitmap) with 8%nat. rewrite Z.shiftr_div_pow2 by lia. change (2 ^ 5) with 32.
    pose proof (Z.div_lt_upper_bound (pi_type pktin) 32 8). lia. }
  apply lookup_lt_is_Some in Hi as [word Hw]. rewrite Hw in *. cbn [res_bind].
  by destruct (_ =? 0).
Qed.

Lemma check_no_type new_pktout b pktin : pi_type pktin = SSH_MSG_NO_TYPE_CODE ->
  ssh2_bpp_check_unimplemented new_pktout b pktin = Ok (false, b).
Proof. intros E. unfold ssh2_bpp_check_unimplemented. by rewrite E. Qed.

(** ** Blocks *)

Lemma read_at_ok l pos n : 0 <= pos -> 0 <= n -> pos + n <= Z.of_nat (length l) ->
  read_at l pos n = Ok (take (Z.to_nat n) (drop (Z.to_nat pos) l)).
Proof. intros. unfold read_at. by rewrite !(proj2 (Z.leb_le _ _)) by lia. Qed.

Lemma block_write_end size l d : Z.of_nat (length (l ++ d)) <= size ->
  block_write (Block size l) (Z.of_nat (length l)) d = Ok (Block size (l ++ d)).
Proof.
  rewrite length_app. intros H. unfold block_write. cbn [bl_bytes bl_size].
  rewrite !(proj2 (Z.leb_le _ _)) by lia. cbn [andb]. rewrite Nat2Z.id, take_ge, drop_ge, app_nil_r by lia. done.
Qed.

(** ** Independence of the split of the input

    Reading from a list of bytes, [arun], is what the rounds of a coroutine do on a buffer
    chain that holds them.  If the state keeps an invariant and a rank decreases, the rounds
    end; and what is done with a stream of bytes does not depend on the reads of the network
    it arrives in. *)

Lemma chain_take {U} (ch : bufchain U) l n : chain_holds ch l -> 0 <= n <= Z.of_nat (length l) ->
  Z.of_nat (length l) < 2 ^ 31 ->
  exists ch', bufchain_try_fetch_consume ch n = Ok (Some (take (Z.to_nat n) l), ch') /\
    chain_holds ch' (drop (Z.to_nat n) l) /\ notify ch' = notify ch.
Proof.
  intros Hch Hn Hl. assert (Hs : Z.of_nat (length l) < SIZE_T) by (unfold SIZE_T; lia).
  unfold bufchain_try_fetch_consume, bufchain_fetch_consume.
  change (bc_buffersize ch) with (bufchain_size ch).
  rewrite (chain_size _ _ Hch Hs), (proj2 (Z.leb_le _ _)), (chain_fetch _ _ Hch) by lia. cbn [res_bind].
  destruct (chain_consume _ _ Hch n Hs) as (ch' & -> & Hd & Hq & Hi); [lia|lia|]. cbn [res_bind fst snd].
  exists ch'. unfold notify. by rewrite Hq, Hi.
Qed.

Definition state_of {C} (r : round C) : C := match r with Return c | Continue c => c end.

Section reading.
  Context {U C : Type}.
  Variable read_len : C -> option Z.
  Variable at_eof : C -> bool.
  Variable after_read : C -> list Z -> res (round C).
  Variable goto_eof : C -> res (round C).
  Variable no_read : C -> res (round C).
  Implicit Types (c : C) (l : list Z) (in_raw : bufchain U).

(** The whole call, with fuel for three rounds for a byte. *)
Definition handle_input (in_raw : bufchain U) (c : C) : res (bufchain U * C) :=
  run_rounds read_len at_eof after_read goto_eof no_read
    (3 * Z.to_nat (bufchain_size in_raw) + 5) in_raw c.

(** One read from the network after the other, each followed by the call. *)
Fixpoint feed (in_raw : bufchain U) (w : world U) (c : C) (chunks : list (list Z))
  : res (bufchain U * world U * C) :=
  match chunks with
  | [] => Ok (in_raw, w, c)
  | d :: chunks =>
      let! r := bufchain_add in_raw d w in
      let! x := handle_input r.1 c in
      feed x.1 r.2 x.2 chunks
  end.

(** The rounds on a list. *)
Fixpoint arun (fuel : nat) (c : C) (l : list Z) : res (C * list Z) :=
  match fuel with
  | O => Crash OutOfFuel
  | S fuel =>
      match read_len c with
      | Some n =>
          if n <=? Z.of_nat (length l) then
            let! r := after_read c (take (Z.to_nat n) l) in
            match r with
            | Return c => Ok (c, drop (Z.to_nat n) l)
            | Continue c => arun fuel c (drop (Z.to_nat n) l)
            end
          else Ok (c, l)
      | None =>
          let! r := no_read c in
          match r with Return c => Ok (c, l) | Continue c => arun fuel c l end
      end
  end.

(** More bytes are needed. *)
Definition awaits (c : C) (l : list Z) : Prop :=
  exists n, read_len c = Some n /\ Z.of_nat (length l) < n.

(** The state and the bytes that some rounds lead to. *)
Definition leads (c : C) (l : list Z) (c' : C) (l' : list Z) : Prop :=
  exists k, forall f, arun (k + f) c l = arun f c' l'.

Lemma leads_refl c l : leads c l c l.
Proof. by exists O. Qed.

Lemma leads_trans c1 l1 c2 l2 c3 l3 : leads c1 l1 c2 l2 -> leads c2 l2 c3 l3 -> leads c1 l1 c3 l3.
Proof. intros [k1 E1] [k2 E2]. exists (k1 + k2)%nat. intros f. by rewrite <-Nat.add_assoc, E1, E2. Qed.

Lemma leads_read c d l c' : read_len c = Some (Z.of_nat (length d)) -> after_read c d = Ok (Continue c') ->
  leads c (d ++ l) c' l.
Proof.
  intros En Ea. exists 1%nat. intros f. cbn [arun Nat.add]. rewrite En, (proj2 (Z.leb_le _ _)) by (rewrite length_app; lia).
  rewrite Nat2Z.id, take_app_length, drop_app_length. by rewrite Ea.
Qed.

Lemma leads_no_read c l c' : read_len c = None -> no_read c = Ok (Continue c') -> leads c l c' l.
Proof. intros En Ea. exists 1%nat. intros f. cbn [arun Nat.add]. by rewrite En, Ea. Qed.

  Variable Inv : C -> Prop.
  Variable rank : C -> nat.
  Hypothesis rank_bound : forall c, (rank c <= 3)%nat.
  Hypothesis Inv_len : forall c n, Inv c -> read_len c = Some n -> 0 <= n < 2 ^ 31.
  Hypothesis Inv_read : forall c d r, Inv c -> read_len c = Some (Z.of_nat (length d)) ->
    after_read c d = Ok r ->
    Inv (state_of r) /\ at_eof (state_of r) = at_eof c /\
    match r with Continue c' => (rank c' < rank c + 3 * length d)%nat | Return _ => True end.
  Hypothesis Inv_no_read : forall c r, Inv c -> read_len c = None -> no_read c = Ok r ->
    Inv (state_of r) /\ at_eof (state_of r) = at_eof c /\
    match r with Continue c' => (rank c' < rank c)%nat | Return _ => True end.

Lemma take_len c l n : Inv c -> read_len c = Some n -> n <= Z.of_nat (length l) ->
  read_len c = Some (Z.of_nat (length (take (Z.to_nat n) l))).
Proof using Inv_len. intros Hi Hn Hl. pose proof (Inv_len c n Hi Hn). rewrite length_take, Hn. f_equal. lia. Qed.

Lemma run_arun fuel : forall c in_raw l,
  Inv c -> at_eof c = false -> chain_holds in_raw l -> Z.of_nat (length l) < 2 ^ 31 ->
  match arun fuel c l with
  | Ok (c', l') => exists in_raw', run_rounds read_len at_eof after_read goto_eof no_read fuel in_raw c =
      Ok (in_raw', c') /\ chain_holds in_raw' l' /\ notify in_raw' = notify in_raw
  | Crash e => run_rounds read_len at_eof after_read goto_eof no_read fuel in_raw c = Crash e
  end.
Proof using Inv_len Inv_read Inv_no_read.
  induction fuel as [|fuel IH]; intros c in_raw l Hi He Hch Hl; [done|]. cbn [arun run_rounds]. unfold one_round.
  destruct (read_len c) as [n|] eqn:En.
  - pose proof (Inv_len c n Hi En) as Hn. destruct (Z.leb_spec n (Z.of_nat (length l))) as [Hle|Hgt].
    + destruct (chain_take in_raw l n Hch) as (in2 & -> & Hch2 & Hnot); [lia|lia|]. cbn [res_bind fst snd].
      pose proof (take_len c l n Hi En Hle) as Ht.
      destruct (after_read c (take (Z.to_nat n) l)) as [r|e] eqn:Er; cbn [res_bind fst snd]; [|done].
      destruct (Inv_read c _ r Hi Ht Er) as (Hi2 & He2 & _).
      destruct r as [c2|c2]; cbn [state_of] in *; [by exists in2|].
      assert (Hd : Z.of_nat (length (drop (Z.to_nat n) l)) < 2 ^ 31) by (rewrite length_drop; lia).
      specialize (IH c2 in2 _ Hi2 (eq_trans He2 He) Hch2 Hd).
      destruct (arun fuel c2 _) as [[c' l']|e]; [|done].
      destruct IH as (in3 & E & H3 & H4). exists in3. by rewrite H4.
    + destruct (chain_too_short in_raw l Hch n) as (_ & _ & _ & _ & _ & E); [unfold SIZE_T; lia|lia|]. rewrite E.
      cbn [res_bind fst snd]. rewrite He. by exists in_raw.
  - destruct (no_read c) as [r|e] eqn:Er; cbn [res_bind fst snd]; [|done].
    destruct (Inv_no_read c r Hi En Er) as (Hi2 & He2 & _).
    destruct r as [c2|c2]; cbn [state_of] in *; [by exists in_raw|].
    by apply (IH c2 in_raw l Hi2 (eq_trans He2 He) Hch Hl).
Qed.

Lemma arun_inv fuel : forall c l c' (l' : list Z), Inv c -> arun fuel c l = Ok (c', l') ->
  Inv c' /\ at_eof c' = at_eof c /\ (length l' <= length l)%nat.
Proof using Inv_len Inv_read Inv_no_read.
  induction fuel as [|fuel IH]; intros c l c' l' Hi E; [done|]. cbn [arun] in E.
  destruct (read_len c) as [n|] eqn:En.
  - destruct (Z.leb_spec n (Z.of_nat (length l))) as [Hle|Hgt]; [|by injection E as <- <-].
    pose proof (take_len c l n Hi En Hle) as Ht.
    destruct (after_read c (take (Z.to_nat n) l)) as [r|e] eqn:Er; cbn [res_bind] in E; [|done].
    destruct (Inv_read c _ r Hi Ht Er) as (Hi2 & He2 & _).
    pose proof (length_drop l (Z.to_nat n)) as Hd.
    destruct r as [c2|c2]; cbn [state_of] in *; [injection E as <- <-; split_and!; [done|done|lia]|].
    destruct (IH _ _ _ _ Hi2 E) as (H1 & H2 & H3). split_and!; [done|congruence|lia].
  - destruct (no_read c) as [r|e] eqn:Er; cbn [res_bind] in E; [|done].
    destruct (Inv_no_read c r Hi En Er) as (Hi2 & He2 & _).
    destruct r as [c2|c2]; cbn [state_of] in *; [by injection E as <- <-|].
    destruct (IH _ _ _ _ Hi2 E) as (H1 & H2 & H3). split_and!; [done|congruence|lia].
Qed.

(** Enough fuel is as good as any. *)
Lemma arun_fuel f1 : forall f2 c l, Inv c ->
  (3 * length l + rank c < f1)%nat -> (3 * length l + rank c < f2)%nat -> arun f1 c l = arun f2 c l.
Proof using Inv_len Inv_read Inv_no_read.
  induction f1 as [|f1 IH]; intros f2 c l Hi H1 H2; [lia|]. destruct f2 as [|f2]; [lia|]. cbn [arun].
  destruct (read_len c) as [n|] eqn:En.
  - destruct (Z.leb_spec n (Z.of_nat (length l))) as [Hle|Hgt]; [|done].
    pose proof (take_len c l n Hi En Hle) as Ht.
    destruct (after_read c (take (Z.to_nat n) l)) as [r|e] eqn:Er; cbn [res_bind]; [|done].
    destruct (Inv_read c _ r Hi Ht Er) as (Hi2 & _ & Hr).
    destruct r as [c2|c2]; cbn [state_of] in *; [done|].
    rewrite length_take in Hr. pose proof (Inv_len _ _ Hi En).
    apply IH; [done|rewrite length_drop; lia..].
  - destruct (no_read c) as [r|e] eqn:Er; cbn [res_bind]; [|done].
    destruct (Inv_no_read c r Hi En Er) as (Hi2 & _ & Hr).
    destruct r as [c2|c2]; cbn [state_of] in *; [done|]. apply IH; [done|lia..].
Qed.

(** A stream in two parts: the first one leads to a state that waits, from which the rest
    leads on, or to a return that the whole stream leads to as well. *)
Lemma arun_app f : forall c (l1 l2 : list Z) c1 (r1 : list Z), Inv c -> (3 * length (l1 ++ l2) + rank c < f)%nat ->
  arun f c l1 = Ok (c1, r1) ->
  (awaits c1 r1 /\ exists f', (3 * length (r1 ++ l2) + rank c1 < f')%nat /\
     arun f c (l1 ++ l2) = arun f' c1 (r1 ++ l2)) \/
  arun f c (l1 ++ l2) = Ok (c1, r1 ++ l2).
Proof using Inv_len Inv_read Inv_no_read.
  induction f as [|f IH]; intros c l1 l2 c1 r1 Hi Hf E; [done|]. cbn [arun] in E.
  destruct (read_len c) as [n|] eqn:En.
  - pose proof (Inv_len _ _ Hi En) as Hn. destruct (Z.leb_spec n (Z.of_nat (length l1))) as [Hle|Hgt].
    + pose proof (take_len c l1 n Hi En Hle) as Ht.
      destruct (after_read c (take (Z.to_nat n) l1)) as [r|e] eqn:Er; cbn [res_bind] in E; [|done].
      destruct (Inv_read c _ r Hi Ht Er) as (Hi2 & _ & Hr).
      assert (Es : arun (S f) c (l1 ++ l2) =
        match r with Return c => Ok (c, drop (Z.to_nat n) l1 ++ l2) | Continue c => arun f c (drop (Z.to_nat n) l1 ++ l2) end).
      { cbn [arun]. rewrite En, (proj2 (Z.leb_le _ _)) by (rewrite length_app; lia).
        rewrite take_app_le, drop_app_le by lia. rewrite Er. done. }
      destruct r as [c2|c2]; cbn [state_of] in *; [right; rewrite Es; by injection E as <- <-|].
      rewrite length_take in Hr.
      assert (Hf2 : (3 * length (drop (Z.to_nat n) l1 ++ l2) + rank c2 < f)%nat).
      { rewrite length_app in *. rewrite length_drop. lia. }
      rewrite Es. by apply IH.
    + injection E as <- <-. left. split; [by exists n|]. by exists (S f).
  - destruct (no_read c) as [r|e] eqn:Er; cbn [res_bind] in E; [|done].
    destruct (Inv_no_read c r Hi En Er) as (Hi2 & _ & Hr).
    assert (Es : arun (S f) c (l1 ++ l2) =
      match r with Return c => Ok (c, l1 ++ l2) | Continue c => arun f c (l1 ++ l2) end).
    { cbn [arun]. by rewrite En, Er. }
    destruct r as [c2|c2]; cbn [state_of] in *; [right; rewrite Es; by injection E as <- <-|].
    rewrite Es. apply IH; [done|lia|done].
Qed.

(** A crash stays one when more bytes follow. *)
Lemma arun_crash f : forall c (l1 l2 : list Z) e, Inv c -> (3 * length (l1 ++ l2) + rank c < f)%nat ->
  arun f c l1 = Crash e -> arun f c (l1 ++ l2) = Crash e.
Proof using Inv_len Inv_read Inv_no_read.
  induction f as [|f IH]; intros c l1 l2 e Hi Hf E; [lia|]. cbn [arun] in *.
  destruct (read_len c) as [n|] eqn:En.
  - pose proof (Inv_len _ _ Hi En) as Hn. destruct (Z.leb_spec n (Z.of_nat (length l1))) as [Hle|Hgt]; [|done].
    pose proof (take_len c l1 n Hi En Hle) as Ht.
    rewrite (proj2 (Z.leb_le _ _)) by (rewrite length_app; lia). rewrite take_app_le, drop_app_le by lia.
    destruct (after_read c (take (Z.to_nat n) l1)) as [r|e'] eqn:Er; cbn [res_bind] in *; [|done].
    destruct (Inv_read c _ r Hi Ht Er) as (Hi2 & _ & Hr). destruct r as [c2|c2]; cbn [state_of] in *; [done|].
    rewrite length_take in Hr. apply IH; [done| |done]. rewrite length_app in *. rewrite length_drop. lia.
  - destruct (no_read c) as [r|e'] eqn:Er; cbn [res_bind] in *; [|done].
    destruct (Inv_no_read c r Hi En Er) as (Hi2 & _ & Hr). destruct r as [c2|c2]; cbn [state_of] in *; [done|].
    apply IH; [done|lia|done].
Qed.

Lemma enough_fuel in_raw c l : chain_holds in_raw l -> Z.of_nat (length l) < 2 ^ 31 ->
  (3 * length l + rank c < 3 * Z.to_nat (bufchain_size in_raw) + 5)%nat.
Proof using rank_bound.
  intros Hch Hl. rewrite (chain_size _ _ Hch) by (unfold SIZE_T; lia). rewrite Nat2Z.id.
  pose proof (rank_bound c). lia.
Qed.

(** Any split of a stream that leads to a state that waits leads there. *)
Lemma reader_feed_ok chunks : forall in_raw w c l d f c' l',
  Inv c -> at_eof c = false -> chain_holds in_raw l -> ready in_raw w ->
  Z.of_nat (length (l ++ concat (d :: chunks))) < 2 ^ 31 ->
  (3 * length (l ++ concat (d :: chunks)) + rank c < f)%nat ->
  arun f c (l ++ concat (d :: chunks)) = Ok (c', l') -> awaits c' l' ->
  exists in_raw' w', feed in_raw w c (d :: chunks) = Ok (in_raw', w', c') /\
    chain_holds in_raw' l' /\ ready in_raw' w'.
Proof using rank_bound Inv_len Inv_read Inv_no_read.
  induction chunks as [|d2 chunks IH]; intros in_raw w c l d f c' l' Hi He Hch Hr Hl Hf E Ha.
  all: assert (Hl1 : Z.of_nat (length (l ++ d)) < 2 ^ 31) by (cbn [concat] in Hl; rewrite !length_app in *; lia).
  all: cbn [feed]; destruct (ready_add in_raw l d w Hch Hr) as (in1 & w1 & -> & Hch1 & Hr1 & _); cbn [res_bind fst snd].
  all: pose proof (enough_fuel in1 c _ Hch1 Hl1) as Hfuel;
    pose proof (run_arun (3 * Z.to_nat (bufchain_size in1) + 5) c in1 (l ++ d) Hi He Hch1 Hl1) as Hrun;
    unfold handle_input.
  - cbn [concat] in *. rewrite app_nil_r in *.
    rewrite (arun_fuel _ f) in Hrun by done. rewrite E in Hrun.
    destruct Hrun as (in2 & -> & Hch2 & Hn). cbn [res_bind fst snd]. exists in2, w1. split_and!; [done|done|].
    by eapply ready_notify.
  - change (concat (d :: d2 :: chunks)) with (d ++ concat (d2 :: chunks)) in *.
    set (tl := concat (d2 :: chunks)) in *. rewrite app_assoc in E, Hf, Hl.
    rewrite (arun_fuel _ f) in Hrun by (done || (rewrite !length_app in *; lia)).
    destruct (arun f c (l ++ d)) as [[c1 r1]|e] eqn:E1.
    2: { exfalso. apply (arun_crash f c (l ++ d) tl e Hi Hf) in E1. congruence. }
    destruct Hrun as (in2 & -> & Hch2 & Hn). cbn [res_bind fst snd].
    destruct (arun_inv _ _ _ _ _ Hi E1) as (Hi1 & He1 & Hlen1).
    assert (Hr2 : ready in2 w1) by (by eapply ready_notify).
    assert (Hl2 : Z.of_nat (length (r1 ++ tl)) < 2 ^ 31) by (rewrite !length_app in *; lia).
    assert (Hnext : exists f', (3 * length (r1 ++ tl) + rank c1 < f')%nat /\ arun f' c1 (r1 ++ tl) = Ok (c', l')).
    { destruct (arun_app f c (l ++ d) tl c1 r1 Hi Hf E1) as [[_ (f' & Hf' & Ew)]|Ew].
      - exists f'. by rewrite <-Ew.
      - rewrite Ew in E. injection E as -> <-. exists (S (3 * length (r1 ++ tl) + rank c')). split; [lia|].
        cbn [arun]. destruct Ha as (m & -> & Hm). by rewrite (proj2 (Z.leb_gt _ _)). }
    destruct Hnext as (f' & Hf' & Ef). rewrite He in He1.
    by apply (IH in2 w1 c1 r1 d2 f' c' l').
Qed.

(** A piece of the coroutine ends, and goes on only in a state that is alive. *)
Definition goes_on (alive : C -> bool) (q : res (round C)) : Prop :=
  exists r, q = Ok r /\ match r with Continue c' => alive c' = true | Return _ => True end.

(** If no piece of the coroutine crashes in a state that is alive, no split of any input
    does, as long as the call is not repeated in a state that is not. *)
Lemma feed_safe (alive : C -> bool) chunks : forall in_raw w c l,
  (forall c d, Inv c -> at_eof c = false -> alive c = true -> read_len c = Some (Z.of_nat (length d)) -> bytesOK d ->
     goes_on alive (after_read c d)) ->
  (forall c, Inv c -> at_eof c = false -> alive c = true -> read_len c = None -> goes_on alive (no_read c)) ->
  Inv c -> at_eof c = false -> alive c = true -> chain_holds in_raw l -> ready in_raw w ->
  bytesOK (l ++ concat chunks) -> Z.of_nat (length (l ++ concat chunks)) < 2 ^ 31 ->
  exists chunks1 chunks2 in_raw' w' c', chunks = chunks1 ++ chunks2 /\
    feed in_raw w c chunks1 = Ok (in_raw', w', c') /\ (chunks2 = [] \/ alive c' = false) /\ Inv c' /\ ready in_raw' w'.
Proof using rank_bound Inv_len Inv_read Inv_no_read.
  intros in_raw w c l Hread Hno. revert in_raw w c l.
  assert (Hok : forall f c l, Inv c -> at_eof c = false -> alive c = true -> bytesOK l -> (3 * length l + rank c < f)%nat ->
    exists c' l', arun f c l = Ok (c', l') /\ bytesOK l').
  { induction f as [|f IHf]; intros c l Hi He Hal Hby Hf; [lia|]. cbn [arun]. destruct (read_len c) as [n|] eqn:En.
    - destruct (Z.leb_spec n (Z.of_nat (length l))) as [Hle|Hgt]; [|eauto].
      pose proof (take_len c l n Hi En Hle) as Ht. pose proof (Inv_len _ _ Hi En).
      pose proof (Forall_take _ (Z.to_nat n) _ Hby) as Hbt.
      pose proof (Forall_drop _ (Z.to_nat n) _ Hby) as Hbd.
      destruct (Hread c _ Hi He Hal Ht Hbt) as (r & Er & Hal2). rewrite Er. cbn [res_bind].
      destruct (Inv_read c _ r Hi Ht Er) as (Hi2 & He2 & Hr). destruct r as [c2|c2]; cbn [state_of] in *; [eauto|].
      rewrite length_take in Hr. apply IHf; [done|congruence|done|done|rewrite length_drop; lia].
    - destruct (Hno c Hi He Hal En) as (r & Er & Hal2). rewrite Er. cbn [res_bind].
      destruct (Inv_no_read c r Hi En Er) as (Hi2 & He2 & Hr). destruct r as [c2|c2]; cbn [state_of] in *; [eauto|].
      apply IHf; [done|congruence|done|done|lia]. }
  induction chunks as [|d chunks IH]; intros in_raw w c l Hi He Hal Hch Hr Hby Hl; cbn [concat] in *.
  { exists [], [], in_raw, w, c. split_and!; [done|done|by left|done|done]. }
  rewrite app_assoc in Hl, Hby. assert (Hl1 : Z.of_nat (length (l ++ d)) < 2 ^ 31) by (rewrite !length_app in *; lia).
  apply Forall_app in Hby as [Hby1 Hby2].
  destruct (ready_add in_raw l d w Hch Hr) as (in1 & w1 & Ead & Hch1 & Hr1 & _).
  pose proof (enough_fuel in1 c _ Hch1 Hl1) as Hfuel.
  pose proof (run_arun (3 * Z.to_nat (bufchain_size in1) + 5) c in1 (l ++ d) Hi He Hch1 Hl1) as Hrun.
  destruct (Hok _ c (l ++ d) Hi He Hal Hby1 Hfuel) as (c2 & l2 & E & Hbl2). rewrite E in Hrun.
  destruct Hrun as (in2 & Erun & Hch2 & Hn).
  destruct (arun_inv _ _ _ _ _ Hi E) as (Hi2 & He2 & Hlen2).
  assert (Hr2 : ready in2 w1) by (by eapply ready_notify).
  assert (Hfeed : forall more, feed in_raw w c (d :: more) = feed in2 w1 c2 more).
  { intros more. cbn [feed]. rewrite Ead. cbn [res_bind fst snd]. unfold handle_input. by rewrite Erun. }
  destruct (alive c2) eqn:Eal2.
  - destruct (IH in2 w1 c2 l2) as (c1 & c3 & in3 & w3 & c' & -> & E3 & H3);
      [done|congruence|done|done|done|by apply Forall_app|rewrite !length_app in *; lia|].
    exists (d :: c1), c3, in3, w3, c'. by rewrite Hfeed.
  - exists [d], chunks, in2, w1, c2. rewrite Hfeed. split_and!; try done. by right.
Qed.

End reading.
