(* ===== verification/BppBare.v ===== *)
(** * The bare packet protocol (putty ssh/bpp-bare.c)

    The protocol between processes that share a connection: packets with a length field and
    nothing else. *)

From Stdlib Require Import String.
From stdpp Require Import gmap.
From S2P Require Import Prelude Callback Bufchain Marshal Strbuf Ptrlen ConfData Filename Packet Bpp.
Local Open Scope string_scope.
Local Open Scope cmodel_scope.
Local Open Scope list_scope.
Local Open Scope Z_scope.

(** The two reads of the coroutine.  At the second one the length of the packet is known, and
    its sequence number.  A protocol error leaves the coroutine there, with [data] moved on by
    a byte and the length, which is also the room that is left, less by one. *)
Inductive bare_point := BARE_LENGTH | BARE_DATA (packetlen sequence : Z).

Record ssh2_bare_bpp_state := MkBare {
  br_crState : bare_point;
  br_incoming_sequence : Z;
  br_outgoing_sequence : Z;
  br_bpp : BinaryPacketProtocol
}.

Implicit Types s : ssh2_bare_bpp_state.

(** [sequence++] of an unsigned long *)
Definition next_sequence (n : Z) : Z := (n + 1) mod 2 ^ 32.

Definition ssh2_bare_bpp_new (ic_in_raw ic_out_pq : nat) : ssh2_bare_bpp_state :=
  MkBare BARE_LENGTH 0 0 (ssh_bpp_common_setup ic_in_raw ic_out_pq).

Definition ssh2_bare_bpp_new_pktout (pkt_type : Z) : res PktOut :=
  let pkt := pkt_set_length ssh_new_packet 4 in
  let pkt := MkPktOut (po_prefix pkt) (po_length pkt) pkt_type (po_minlen pkt) (po_data pkt) (po_maxlen pkt)
               (po_formal_size pkt) in
  BinarySink_put_byte pkt pkt_type.

(** ** Receiving *)

Definition br_set s (p : bare_point) (b : BinaryPacketProtocol) : ssh2_bare_bpp_state :=
  MkBare p (br_incoming_sequence s) (br_outgoing_sequence s) b.

Definition bare_read_len s : option Z :=
  match br_crState s with BARE_LENGTH => Some 4 | BARE_DATA packetlen _ => Some packetlen end.

Definition bare_after_read s (data : list Z) : res (round ssh2_bare_bpp_state) :=
  let b := b_emit (br_bpp s) [Ev_check_frozen] in
  match br_crState s with
  | BARE_LENGTH =>
      let packetlen := toint (GET_32BIT_MSB_FIRST data) in
      if (packetlen <=? 0) || (OUR_V2_PACKETLIMIT <=? packetlen) then
        Ok (Return (br_set s BARE_LENGTH (b_emit b [Ev_sw_abort "Invalid packet length received"])))
      else
        Ok (Continue (MkBare (BARE_DATA packetlen (br_incoming_sequence s))
                        (next_sequence (br_incoming_sequence s)) (br_outgoing_sequence s) b))
  | BARE_DATA packetlen sequence =>
      let! pktdata := block_write (Block packetlen []) 0 data in
      let! type := read_at (bl_bytes pktdata) 0 1 in
      let! rest := read_at (bl_bytes pktdata) 1 (packetlen - 1) in
      let src := BinarySource_INIT rest in
      let pktin := MkPktIn (nth 0 type 0) sequence src 0 in
      if pi_type pktin =? SSH2_MSG_EXT_INFO then
        Ok (Return (br_set s (BARE_DATA (packetlen - 1) sequence) (b_emit b
              [Ev_proto_error "Remote side sent SSH2_MSG_EXT_INFO in bare connection protocol"])))
      else
        let! r := ssh2_bpp_check_unimplemented ssh2_bare_bpp_new_pktout b pktin in
        if r.1 : bool then Ok (Continue (br_set s BARE_LENGTH r.2))
        else Ok (Continue (br_set s BARE_LENGTH (b_push_in r.2 (set_pi_formal_size pktin (get_avail src)))))
  end.

Definition bare_goto_eof s : res (round ssh2_bare_bpp_state) :=
  Ok (Return (br_set s (br_crState s) (report_eof (br_bpp s)))).

(** Every wait is a read. *)
Definition bare_no_read s : res (round ssh2_bare_bpp_state) := Ok (Return s).

Definition bare_at_eof s : bool := b_input_eof (br_bpp s).

Section transport.
  Context {U : Type}.
  Implicit Types (ch : bufchain U) (w : world U).

Definition ssh2_bare_bpp_handle_input ch s : res (bufchain U * ssh2_bare_bpp_state) :=
  handle_input bare_read_len bare_at_eof bare_after_read bare_goto_eof bare_no_read ch s.

Definition bare_feed ch w s (chunks : list (list Z)) : res (bufchain U * world U * ssh2_bare_bpp_state) :=
  feed bare_read_len bare_at_eof bare_after_read bare_goto_eof bare_no_read ch w s chunks.

(** ** Sending *)

Definition ssh2_bare_bpp_format_packet (out_raw : bufchain U) w s (pkt : PktOut)
  : res (bufchain U * world U * ssh2_bare_bpp_state) :=
  let s := MkBare (br_crState s) (br_incoming_sequence s) (next_sequence (br_outgoing_sequence s)) (br_bpp s) in
  let! pkt := pkt_store pkt 0 (PUT_32BIT_MSB_FIRST (wrap_size (po_length pkt - 4))) in
  let! bytes := pkt_bytes pkt in
  let! r := bufchain_add out_raw bytes w in
  Ok (r, s).

Fixpoint bare_output_loop (fuel : nat) (out_raw : bufchain U) w s
  : res (bufchain U * world U * ssh2_bare_bpp_state) :=
  let! r := b_pop_out (br_bpp s) in
  let s := br_set s (br_crState s) r.2 in
  match r.1 with
  | None => Ok (out_raw, w, s)
  | Some pkt =>
      match fuel with
      | O => Crash OutOfFuel
      | S fuel =>
          let! x := ssh2_bare_bpp_format_packet out_raw w s pkt in
          bare_output_loop fuel x.1.1 x.1.2 x.2
      end
  end.

Definition ssh2_bare_bpp_handle_output (out_raw : bufchain U) w s
  : res (bufchain U * world U * ssh2_bare_bpp_state) :=
  let! x := bare_output_loop (length (pq_packets (b_out_pq (br_bpp s)))) out_raw w s in
  Ok (x.1, br_set x.2 (br_crState x.2) (b_emit (br_bpp x.2) [Ev_sendbuffer_changed])).

End transport.
