(* ===== verification/BppBareSpec.v ===== *)
(** * The bare packet protocol: what is sent is received *)

From Stdlib Require Import String.
From stdpp Require Import gmap.
From S2P Require Import Prelude Callback Bufchain Marshal Strbuf Ptrlen ConfData Filename Packet Bpp BppBare.
Local Open Scope cmodel_scope.
Local Open Scope Z_scope.

(** ** The reading discipline *)

Definition bare_inv (s : ssh2_bare_bpp_state) : Prop :=
  match br_crState s with BARE_LENGTH => True | BARE_DATA n _ => 0 <= n < OUR_V2_PACKETLIMIT end.

Definition bare_rank (s : ssh2_bare_bpp_state) : nat :=
  match br_crState s with BARE_LENGTH => 1 | BARE_DATA _ _ => 0 end.

Lemma bare_rank_bound s : (bare_rank s <= 3)%nat.
Proof. unfold bare_rank. destruct (br_crState s); lia. Qed.

Lemma bare_inv_len s n : bare_inv s -> bare_read_len s = Some n -> 0 <= n < 2 ^ 31.
Proof.
  unfold bare_inv, bare_read_len. destruct (br_crState s); intros Hi [= <-]; unfold OUR_V2_PACKETLIMIT in *; lia.
Qed.

Lemma check_eof new_pktout b p x : ssh2_bpp_check_unimplemented new_pktout b p = Ok x ->
  b_input_eof x.2 = b_input_eof b.
Proof.
  unfold ssh2_bpp_check_unimplemented.
  intros (bad & _ & E)%res_bind_Ok. destruct bad; [|by injection E as <-].
  apply res_bind_Ok in E as (p1 & _ & E). apply res_bind_Ok in E as (p2 & _ & E). by injection E as <-.
Qed.

Lemma block_first n d pd : block_write (Block n []) 0 d = Ok pd -> bl_bytes pd = d.
Proof.
  unfold block_write. cbn [bl_bytes bl_size]. destruct (_ && _); [|done]. intros [= <-]. cbn [bl_bytes].
  by rewrite drop_nil, app_nil_r.
Qed.

Lemma bare_inv_read s d r : bare_inv s -> bare_read_len s = Some (Z.of_nat (length d)) ->
  bare_after_read s d = Ok r ->
  bare_inv (state_of r) /\ bare_at_eof (state_of r) = bare_at_eof s /\
  match r with Continue c' => (bare_rank c' < bare_rank s + 3 * length d)%nat | Return _ => True end.
Proof.
  unfold bare_inv, bare_read_len, bare_after_read, bare_at_eof, bare_rank.
  destruct (br_crState s) as [|n sq] eqn:Ec; intros Hi [= Hd] E.
  - destruct ((_ <=? 0) || _) eqn:Eb; injection E as <-; cbn; [done|].
    apply orb_false_iff in Eb as [H1 H2]. apply Z.leb_gt in H1, H2. split_and!; [lia|lia|done|lia].
  - apply res_bind_Ok in E as (pd & Epd & E). apply res_bind_Ok in E as (ty & Ety & E).
    assert (0 < n).
    { apply block_first in Epd. rewrite Epd in Ety. destruct d; [done|cbn in Hd; lia]. }
    apply res_bind_Ok in E as (rest & _ & E). destruct (_ =? SSH2_MSG_EXT_INFO).
    { injection E as <-. cbn. split_and!; (done || lia). }
    apply res_bind_Ok in E as (x & Ex & E). apply check_eof in Ex.
    destruct x.1; injection E as <-; cbn; split_and!; try done; lia.
Qed.

(** ** One packet *)

(** Type and contents of a packet, and its form on the wire. *)
Notation message := (Z * list Z)%type.

Definition bare_frame (m : message) : list Z :=
  PUT_32BIT_MSB_FIRST (1 + Z.of_nat (length m.2)) ++ m.1 :: m.2.

(** Types that the layer passes on. *)
Definition ordinary (m : message) : Prop := m.1 ∈ SSH2_MESSAGE_TYPES /\ m.1 <> SSH2_MSG_EXT_INFO.

Definition bare_fits (m : message) : Prop := 1 + Z.of_nat (length m.2) < OUR_V2_PACKETLIMIT.

Definition received (m : message) (sequence : Z) : PktIn :=
  MkPktIn m.1 sequence (BinarySource_INIT m.2) (Z.of_nat (length m.2)).

Definition bare_next (s : ssh2_bare_bpp_state) (m : message) : ssh2_bare_bpp_state :=
  MkBare BARE_LENGTH (next_sequence (br_incoming_sequence s)) (br_outgoing_sequence s)
    (b_push_in (b_emit (b_emit (br_bpp s) [Ev_check_frozen]) [Ev_check_frozen]) (received m (br_incoming_sequence s))).

Lemma length_put_32 v : length (PUT_32BIT_MSB_FIRST v) = 4%nat.
Proof. done. Qed.

Lemma get_put_small v : 0 <= v < 2 ^ 31 -> toint (GET_32BIT_MSB_FIRST (PUT_32BIT_MSB_FIRST v)) = v.
Proof.
  intros Hv. rewrite get_put_32, Z.mod_small by lia. unfold toint. by rewrite (proj2 (Z.leb_le _ _)) by (unfold INT_MAX; lia).
Qed.

Lemma get_avail_init l : Z.of_nat (length l) < SIZE_T -> get_avail (BinarySource_INIT l) = Z.of_nat (length l).
Proof.
  intros Hl. unfold get_avail, src_len, BinarySource_INIT. cbn [src_data src_pos].
  rewrite Z.sub_0_r. apply wrap_size_small. lia.
Qed.

Lemma bare_read_packet s m : br_crState s = BARE_LENGTH -> ordinary m -> bare_fits m ->
  bare_after_read s (PUT_32BIT_MSB_FIRST (1 + Z.of_nat (length m.2))) =
    Ok (Continue (MkBare (BARE_DATA (1 + Z.of_nat (length m.2)) (br_incoming_sequence s))
      (next_sequence (br_incoming_sequence s)) (br_outgoing_sequence s) (b_emit (br_bpp s) [Ev_check_frozen]))) /\
  bare_after_read (MkBare (BARE_DATA (1 + Z.of_nat (length m.2)) (br_incoming_sequence s))
      (next_sequence (br_incoming_sequence s)) (br_outgoing_sequence s) (b_emit (br_bpp s) [Ev_check_frozen]))
    (m.1 :: m.2) = Ok (Continue (bare_next s m)).
Proof.
  intros Ec [Ht Hx] Hf. destruct m as [t p]. unfold bare_fits, OUR_V2_PACKETLIMIT in Hf. cbn [fst snd] in *.
  unfold bare_after_read. rewrite Ec. cbn [br_crState]. split.
  - rewrite get_put_small by lia.
    by rewrite (proj2 (Z.leb_gt _ _)), (proj2 (Z.leb_gt _ _)) by (unfold OUR_V2_PACKETLIMIT; lia).
  - rewrite (block_write_end _ [] (t :: p)) by (cbn [app length]; lia). cbn [res_bind bl_bytes app].
    rewrite !read_at_ok by (cbn [length]; lia). cbn [res_bind].
    change (take (Z.to_nat 1) (drop (Z.to_nat 0) (t :: p))) with [t]. cbn [nth].
    change (drop (Z.to_nat 1) (t :: p)) with p. rewrite take_ge by lia. cbn [pi_type].
    rewrite (proj2 (Z.eqb_neq _ _)) by done. rewrite check_known by done. cbn [res_bind fst snd].
    rewrite get_avail_init by (unfold SIZE_T; lia). done.
Qed.

Notation bare_arun := (arun bare_read_len bare_after_read bare_no_read).

Lemma arun_packet f s m rest : br_crState s = BARE_LENGTH -> ordinary m -> bare_fits m ->
  bare_arun (S (S f)) s (bare_frame m ++ rest) = bare_arun f (bare_next s m) rest.
Proof.
  intros Ec Ho Hf. destruct (bare_read_packet s m Ec Ho Hf) as [E1 E2].
  unfold bare_frame. rewrite <-app_assoc. cbn [arun]. unfold bare_read_len at 1. rewrite Ec.
  rewrite (proj2 (Z.leb_le _ _)) by (rewrite length_app, length_put_32; lia).
  change (Z.to_nat 4) with (length (PUT_32BIT_MSB_FIRST (1 + Z.of_nat (length m.2)))).
  rewrite take_app_length, drop_app_length, E1. cbn [res_bind]. unfold bare_read_len at 1. cbn [br_crState].
  change ((m.1 :: m.2) ++ rest) with (m.1 :: m.2 ++ rest).
  rewrite (proj2 (Z.leb_le _ _)) by (cbn [length]; rewrite length_app; lia).
  replace (Z.to_nat (1 + Z.of_nat (length m.2))) with (length (m.1 :: m.2)) by (cbn; lia).
  change (m.1 :: m.2 ++ rest) with ((m.1 :: m.2) ++ rest).
  by rewrite take_app_length, drop_app_length, E2.
Qed.

Definition bare_stream (ms : list message) : list Z := concat (bare_frame <$> ms).

Lemma bare_frame_length m : length (bare_frame m) = (5 + length m.2)%nat.
Proof. unfold bare_frame. rewrite length_app, length_put_32. done. Qed.

Lemma arun_packets ms : forall f s, br_crState s = BARE_LENGTH -> Forall ordinary ms -> Forall bare_fits ms ->
  (3 * length (bare_stream ms) < f)%nat ->
  bare_arun f s (bare_stream ms) = Ok (foldl bare_next s ms, []).
Proof.
  induction ms as [|m ms IH]; intros f s Ec Ho Hf Hl.
  - destruct f as [|f]; [lia|]. cbn [arun]. unfold bare_read_len. by rewrite Ec.
  - apply Forall_cons in Ho as [Hm Ho], Hf as [Hfm Hf].
    change (bare_stream (m :: ms)) with (bare_frame m ++ bare_stream ms) in *.
    rewrite length_app, bare_frame_length in Hl. destruct f as [|[|f]]; [lia|lia|].
    rewrite arun_packet by done. apply IH; (done || lia).
Qed.

(** The packets as they arrive, with their sequence numbers. *)
Fixpoint arrivals (ms : list message) (sequence : Z) : list PktIn :=
  match ms with
  | [] => []
  | m :: ms => received m sequence :: arrivals ms (next_sequence sequence)
  end.

Lemma bare_next_all ms : forall s, br_crState s = BARE_LENGTH ->
  pq_packets (b_in_pq (br_bpp (foldl bare_next s ms))) =
    pq_packets (b_in_pq (br_bpp s)) ++ arrivals ms (br_incoming_sequence s) /\
  br_crState (foldl bare_next s ms) = BARE_LENGTH.
Proof.
  induction ms as [|m ms IH]; intros s Ec; cbn [foldl arrivals]; [by rewrite app_nil_r|].
  destruct (IH (bare_next s m) eq_refl) as [-> ->]. cbn. by rewrite <-app_assoc.
Qed.

(** ** Sending *)

(** A packet that was started by [ssh2_bare_bpp_new_pktout] and filled. *)
Definition bare_packet (pkt : PktOut) (m : message) : Prop :=
  pkt_holds pkt (replicate 4 0 ++ m.1 :: m.2).

Lemma bare_new_pktout_ok t : is_byte t ->
  exists pkt, ssh2_bare_bpp_new_pktout t = Ok pkt /\ bare_packet pkt (t, []).
Proof.
  intros Ht. assert (Hu : u8 t = t) by (apply Z.mod_small; exact Ht).
  unfold ssh2_bare_bpp_new_pktout, BinarySink_put_byte. rewrite Hu.
  eexists. split; [vm_compute; reflexivity|].
  split_and!; [done|done|done|done|]. eexists. reflexivity.
Qed.

Section sending.
  Context {U : Type}.
  Implicit Types (ch : bufchain U) (w : world U) (s : ssh2_bare_bpp_state).

Lemma bare_format_ok ch w s pkt m o :
  bare_packet pkt m -> bare_fits m -> chain_holds ch o -> ready ch w ->
  exists ch' w' s', ssh2_bare_bpp_format_packet ch w s pkt = Ok (ch', w', s') /\
    chain_holds ch' (o ++ bare_frame m) /\ ready ch' w' /\ br_bpp s' = br_bpp s.
Proof.
  intros Hp Hf Hch Hr. unfold bare_fits, OUR_V2_PACKETLIMIT in Hf. unfold ssh2_bare_bpp_format_packet.
  pose proof Hp as (_ & Hl & _). rewrite length_app, length_replicate in Hl. cbn [length] in Hl.
  rewrite Hl, wrap_size_small by (unfold SIZE_T; lia).
  replace (Z.of_nat (4 + S (length m.2)) - 4) with (1 + Z.of_nat (length m.2)) by lia.
  destruct (pkt_store_ok pkt _ 0 (PUT_32BIT_MSB_FIRST (1 + Z.of_nat (length m.2))) Hp) as (pkt' & -> & _ & Hp');
    [lia|rewrite length_app, length_replicate, length_put_32; cbn; lia|]. cbn [res_bind].
  rewrite length_put_32 in Hp'. rewrite (pkt_bytes_ok _ _ Hp'). cbn [res_bind].
  match type of Hp' with pkt_holds _ ?c => change c with (bare_frame m) in Hp' |- * end.
  destruct (ready_add ch o (bare_frame m) w Hch Hr) as (ch' & w' & -> & Hch' & Hr' & _). cbn [res_bind].
  by exists ch', w', (MkBare (br_crState s) (br_incoming_sequence s) (next_sequence (br_outgoing_sequence s)) (br_bpp s)).
Qed.

Lemma bare_output_ok pkts : forall ms fuel ch w s o,
  Forall2 bare_packet pkts ms -> Forall bare_fits ms -> queue_holds (b_out_pq (br_bpp s)) pkts ->
  chain_holds ch o -> ready ch w -> (length pkts <= fuel)%nat ->
  exists ch' w' s', bare_output_loop fuel ch w s = Ok (ch', w', s') /\
    chain_holds ch' (o ++ bare_stream ms) /\ ready ch' w' /\ queue_holds (b_out_pq (br_bpp s')) [].
Proof.
  induction pkts as [|pkt pkts IH]; intros ms fuel ch w s o Hp Hf Hq Hch Hr Hl.
  - apply Forall2_nil_inv_l in Hp as ->. destruct Hq as (Hn & Hq).
    assert (E : b_pop_out (br_bpp s) = Ok (None, br_bpp s)).
    { unfold b_pop_out, pq_pop. rewrite Hn. cbn. by destruct (br_bpp s). }
    exists ch, w, s. cbn. rewrite app_nil_r.
    destruct fuel; cbn [bare_output_loop]; rewrite E; cbn [res_bind fst snd]; (split_and!; [by destruct s|done|done|by split]).
  - apply Forall2_cons_inv_l in Hp as (m & ms' & Hpm & Hp & ->). apply Forall_cons in Hf as [Hfm Hf].
    destruct fuel as [|fuel]; [cbn in Hl; lia|]. cbn [bare_output_loop]. unfold b_pop_out.
    destruct (pq_pop_ok _ _ _ Hq) as (pq' & -> & Hq' & _). cbn [res_bind fst snd].
    set (s1 := br_set s _ _).
    destruct (bare_format_ok ch w s1 pkt m o Hpm Hfm Hch Hr) as (ch1 & w1 & s2 & -> & Hch1 & Hr1 & Eb).
    cbn [res_bind fst snd].
    destruct (IH ms' fuel ch1 w1 s2 (o ++ bare_frame m)) as (ch' & w' & s' & E & H1 & H2 & H3);
      [done|done|by rewrite Eb|done|done|cbn in Hl; lia|].
    exists ch', w', s'. split_and!; [exact E| |done|done]. by rewrite <-app_assoc in H1.
Qed.

End sending.

(** C4. Packets in the output queue of one end, of known types and within the size limit, are
    sent as a stream of bytes that leaves its queue empty; the other end, whatever reads of
    the network this stream arrives in, queues exactly these packets in this order, with
    consecutive sequence numbers, and then waits with no byte left. *)
Theorem bare_packets_roundtrip {U} (s r : ssh2_bare_bpp_state) pkts ms (out_raw in_raw : bufchain U) w o :
  Forall2 bare_packet pkts ms -> Forall ordinary ms -> Forall bare_fits ms ->
  Z.of_nat (length ms) <= 2 ^ 14 ->
  queue_holds (b_out_pq (br_bpp s)) pkts -> chain_holds out_raw o -> ready out_raw w ->
  br_crState r = BARE_LENGTH -> bare_at_eof r = false -> chain_holds in_raw [] -> ready in_raw w ->
  exists out_raw' w' s' stream, ssh2_bare_bpp_handle_output out_raw w s = Ok (out_raw', w', s') /\
    pq_packets (b_out_pq (br_bpp s')) = [] /\ chain_holds out_raw' (o ++ stream) /\
    forall d chunks, concat (d :: chunks) = stream ->
      exists in_raw' w'' r', bare_feed in_raw w r (d :: chunks) = Ok (in_raw', w'', r') /\
        chain_holds in_raw' [] /\ br_crState r' = BARE_LENGTH /\
        pq_packets (b_in_pq (br_bpp r')) =
          pq_packets (b_in_pq (br_bpp r)) ++ arrivals ms (br_incoming_sequence r).
Proof.
  intros Hp Ho Hf Hn Hq Hout Hro Ec He Hin Hri. unfold ssh2_bare_bpp_handle_output.
  pose proof Hq as (-> & _).
  destruct (bare_output_ok pkts ms (length pkts) out_raw w s o) as (out2 & w2 & s2 & -> & H1 & _ & Hq2); [done..|].
  cbn [res_bind fst snd]. exists out2, w2. eexists _, (bare_stream ms). split_and!; [done|apply Hq2|done|].
  intros d chunks Hs. destruct (bare_next_all ms r Ec) as [Hpk Hst].
  assert (Hlen : Z.of_nat (length (bare_stream ms)) < 2 ^ 31).
  { enough (Z.of_nat (length (bare_stream ms)) <= Z.of_nat (length ms) * 2 ^ 16) by lia.
    clear -Hf. induction Hf as [|m ms Hm _ IH]; [done|].
    change (bare_stream (m :: ms)) with (bare_frame m ++ bare_stream ms).
    rewrite length_app, bare_frame_length. unfold bare_fits, OUR_V2_PACKETLIMIT in Hm. cbn [length]. lia. }
  destruct (reader_feed_ok bare_read_len bare_at_eof bare_after_read bare_goto_eof bare_no_read bare_inv bare_rank
    bare_rank_bound bare_inv_len bare_inv_read ltac:(intros c x _ E; unfold bare_read_len in E; destruct (br_crState c); done)
    chunks in_raw w r [] d (3 * length (bare_stream ms) + 5) (foldl bare_next r ms) [])
    as (in2 & w3 & E & H2 & _).
  - unfold bare_inv. by rewrite Ec.
  - done.
  - done.
  - done.
  - cbn [app]. by rewrite Hs.
  - cbn [app]. rewrite Hs. pose proof (bare_rank_bound r). lia.
  - cbn [app]. rewrite Hs. apply arun_packets; (done || lia).
  - exists 4. unfold bare_read_len. by rewrite Hst.
  - exists in2, w3, (foldl bare_next r ms). by split_and!.
Qed.

(** Packets of the types CHANNEL_DATA and CHANNEL_EOF. *)
Definition bare_sample_pkts : list PktOut :=
  [MkPktOut 0 7 94 0 (Some <$> [0; 0; 0; 0; 94; 1; 2]) 7 7; MkPktOut 0 5 96 0 (Some <$> [0; 0; 0; 0; 96]) 5 5].
Definition bare_sample_msgs : list message := [(94, [1; 2]); (96, [])].
Definition bare_sample (out : list PktOut) : ssh2_bare_bpp_state :=
  MkBare BARE_LENGTH 7 0 (MkBpp false pq_init (MkPacketQueue out (sizes out) None) 0 1 0 false []).

Lemma bare_sample_packets : Forall2 bare_packet bare_sample_pkts bare_sample_msgs.
Proof. repeat constructor; try done; by exists []. Qed.

Lemma bare_packets_roundtrip_witness :
  exists out_raw' w' s' stream,
    ssh2_bare_bpp_handle_output (U := unit) bufchain_init (World ∅ ∅ tt) (bare_sample bare_sample_pkts) = Ok (out_raw', w', s') /\
    pq_packets (b_out_pq (br_bpp s')) = [] /\ chain_holds out_raw' ([] ++ stream) /\
    forall d chunks, concat (d :: chunks) = stream ->
      exists in_raw' w'' r', bare_feed (U := unit) bufchain_init (World ∅ ∅ tt) (bare_sample []) (d :: chunks) = Ok (in_raw', w'', r') /\
        chain_holds in_raw' [] /\ br_crState r' = BARE_LENGTH /\
        pq_packets (b_in_pq (br_bpp r')) = [] ++ arrivals bare_sample_msgs 7.
Proof.
  apply (bare_packets_roundtrip (bare_sample bare_sample_pkts) (bare_sample []) bare_sample_pkts bare_sample_msgs
    bufchain_init bufchain_init (World ∅ ∅ tt) []).
  - exact bare_sample_packets.
  - apply (bool_decide_unpack _). vm_compute. exact I.
  - apply (bool_decide_unpack _). vm_compute. exact I.
  - discriminate.
  - split_and!; [reflexivity|reflexivity| |reflexivity]. apply (bool_decide_unpack _). vm_compute. exact I.
  - exact chain_init.
  - left. reflexivity.
  - reflexivity.
  - reflexivity.
  - exact chain_init.
  - left. reflexivity.
Defined.
