(* ===== verification/Bpp2.v ===== *)
(** * The binary packet protocol of SSH-2 (putty ssh/bpp2.c, crypto/mac.c)

    Packets are compressed, padded, authenticated and encrypted on the way out, and found in
    the stream of bytes, decrypted, checked and decompressed on the way in.  Ciphers, message
    authentication codes and compression methods are tables of functions, as in the source.

    The input handler is a coroutine (file Bpp).  Its variables that live across a wait are
    arguments of the wait; the other fields of [ssh2_bpp_state] are grouped by direction.
    The log is left out. *)

From Stdlib Require Import String.
From stdpp Require Import gmap.
From S2P Require Import VerString.
From S2P Require Import Prelude Callback Bufchain Marshal Strbuf Ptrlen ConfData Filename Packet Bpp BppBare.
Local Open Scope string_scope.
Local Open Scope cmodel_scope.
Local Open Scope list_scope.
Local Open Scope Z_scope.

Definition SSH_CIPHER_IS_CBC : Z := 1.
Definition SSH_CIPHER_SEPARATE_LENGTH : Z := 2.

Section protocol.
  (** The state of the cipher and the code of a direction, which may share parts (the code
      of an authenticated cipher lives in the context of the cipher); that of no cipher and no
      code; the states of compressors, decompressors and of the generator of random numbers. *)
  Context {X ZC ZD R : Type}.
  Variable no_crypto : X.

(** ** Tables of functions *)

Record ssh_cipheralg := MkCipherAlg {
  ca_new : X -> X;
  ca_setkey : list Z -> X -> X;
  ca_setiv : list Z -> X -> X;
  ca_encrypt : list Z -> X -> list Z * X;
  ca_decrypt : list Z -> X -> list Z * X;
  ca_encrypt_length : list Z -> Z -> X -> list Z * X;
  ca_decrypt_length : list Z -> Z -> X -> list Z * X;
  ca_next_message : X -> X;
  ca_blksize : Z;
  ca_flags : Z
}.

Definition cipher_flag (c : ssh_cipheralg) (flag : Z) : bool := negb (Z.land (ca_flags c) flag =? 0).

Record ssh2_macalg := MkMacAlg {
  ma_new : X -> X;
  ma_setkey : list Z -> X -> X;
  ma_start : X -> X;
  ma_put : list Z -> X -> X;
  ma_genresult : X -> list Z * X;
  ma_next_message : X -> X;
  ma_len : Z
}.

(** The constructors return a null pointer for the method that does nothing. *)
Record ssh_compression_alg := MkCompAlg {
  za_compress_new : option ZC;
  za_compress : ZC -> list Z -> Z -> res (list Z * ZC);
  za_decompress_new : option ZD;
  za_decompress : ZD -> list Z -> res (option (list Z) * ZD)
}.

Record ssh_compressor := MkCompressor { co_vt : ssh_compression_alg; co_state : ZC }.
Record ssh_decompressor := MkDecompressor { de_vt : ssh_compression_alg; de_state : ZD }.

Definition ssh_compressor_new (alg : ssh_compression_alg) : option ssh_compressor :=
  MkCompressor alg <$> za_compress_new alg.
Definition ssh_decompressor_new (alg : ssh_compression_alg) : option ssh_decompressor :=
  MkDecompressor alg <$> za_decompress_new alg.

Definition ssh2_mac_verresult (m : ssh2_macalg) (x : X) (candidate : list Z) : res (bool * X) :=
  c_assert (ma_len m <=? 64) (
    let '(correct, x) := ma_genresult m x in
    let! ok := smemeq correct candidate (ma_len m) in
    Ok (ok, x)).

Definition ssh2_mac_prepare (m : ssh2_macalg) (x : X) (blk : list Z) (seq : Z) : X :=
  ma_put m blk (ma_put m (PUT_32BIT_MSB_FIRST seq) (ma_start m x)).

(** The code that is written behind the block. *)
Definition ssh2_mac_generate (m : ssh2_macalg) (x : X) (blk : list Z) (seq : Z) : list Z * X :=
  ma_genresult m (ssh2_mac_prepare m x blk seq).

(** [candidate] is what stands behind the block. *)
Definition ssh2_mac_verify (m : ssh2_macalg) (x : X) (blk candidate : list Z) (seq : Z) : res (bool * X) :=
  ssh2_mac_verresult m (ssh2_mac_prepare m x blk seq) candidate.

(** ** The state *)

Record ssh2_bpp_direction := MkDirection {
  d_sequence : Z;
  d_cipher : option ssh_cipheralg;
  d_mac : option ssh2_macalg;
  d_crypto : X;
  d_etm_mode : bool;
  d_pending_compression : option ssh_compression_alg
}.

(** [cipherblk] and [maclen] of the packet being read *)
Record framing := MkFraming { fr_cipherblk : Z; fr_maclen : Z }.

(** The reads of the coroutine, in the order of the source, and its other waits.  [len] is the
    length field of the packet; [buf] and [data] are what has been read of it.  [CR_STALE] is
    the read that a protocol error leaves the coroutine at: the packet has been handed over,
    [pktin] is null and [data] has moved on, and what a further call does is undefined. *)
Inductive bpp2_point :=
| CR_START
| CR_CBC_MAC (fr : framing)
| CR_CBC_BLOCK (fr : framing) (buf : block) (packetlen : Z)
| CR_ETM_LENGTH (fr : framing)
| CR_ETM_REST (fr : framing) (len : Z) (data : block)
| CR_STD_FIRST (fr : framing)
| CR_STD_REST (fr : framing) (len : Z) (data : block)
| CR_NEWKEYS
| CR_STALE
| CR_EOF.

Record bpp2_rx := MkRx {
  rx_crState : bpp2_point;
  rx_bufsize : Z;
  rx_stats : DataTransferStatsDirection;
  rx_in : ssh2_bpp_direction;
  rx_in_decomp : option ssh_decompressor
}.

Record bpp2_tx := MkTx {
  tx_stats : DataTransferStatsDirection;
  tx_cbc_ignore_workaround : bool;
  tx_out : ssh2_bpp_direction;
  tx_out_comp : option ssh_compressor;
  tx_random : R
}.

Record bpp2_flags := MkFlags {
  fl_is_server : bool;
  fl_pending_newkeys : bool;
  fl_pending_compression : bool;
  fl_seen_userauth_success : bool;
  fl_enforce_next_packet_is_userauth_success : bool;
  fl_nnewkeys : Z;
  fl_prev_type : Z
}.

Record ssh2_bpp_state := MkBpp2 {
  s2_rx : bpp2_rx;
  s2_tx : bpp2_tx;
  s2_flags : bpp2_flags;
  s2_bpp : BinaryPacketProtocol
}.

Implicit Types (s : ssh2_bpp_state) (rx : bpp2_rx) (tx : bpp2_tx) (fl : bpp2_flags).

Definition no_direction : ssh2_bpp_direction := MkDirection 0 None None no_crypto false None.

Definition ssh2_bpp_new (stats_in stats_out : DataTransferStatsDirection) (is_server : bool)
    (random : R) (ic_in_raw ic_out_pq : nat) : ssh2_bpp_state :=
  MkBpp2 (MkRx CR_START 0 stats_in no_direction None) (MkTx stats_out false no_direction None random)
    (MkFlags is_server false false false false 0 0) (ssh_bpp_common_setup ic_in_raw ic_out_pq).

Definition set_rx s rx := MkBpp2 rx (s2_tx s) (s2_flags s) (s2_bpp s).
Definition set_tx s tx := MkBpp2 (s2_rx s) tx (s2_flags s) (s2_bpp s).
Definition set_flags s fl := MkBpp2 (s2_rx s) (s2_tx s) fl (s2_bpp s).
Definition set_bpp s b := MkBpp2 (s2_rx s) (s2_tx s) (s2_flags s) b.

Definition rx_at rx (p : bpp2_point) := MkRx p (rx_bufsize rx) (rx_stats rx) (rx_in rx) (rx_in_decomp rx).
Definition rx_set_in rx d := MkRx (rx_crState rx) (rx_bufsize rx) (rx_stats rx) d (rx_in_decomp rx).
Definition at_point s (p : bpp2_point) := set_rx s (rx_at (s2_rx s) p).

Definition dir_set_crypto (d : ssh2_bpp_direction) (x : X) :=
  MkDirection (d_sequence d) (d_cipher d) (d_mac d) x (d_etm_mode d) (d_pending_compression d).

(** The sequence number, the cipher and the code after a packet. *)
Definition dir_next_message (d : ssh2_bpp_direction) : ssh2_bpp_direction :=
  let x := match d_cipher d with Some c => ca_next_message c (d_crypto d) | None => d_crypto d end in
  let x := match d_mac d with Some m => ma_next_message m x | None => x end in
  MkDirection (next_sequence (d_sequence d)) (d_cipher d) (d_mac d) x (d_etm_mode d) (d_pending_compression d).

(** ** New keys *)

(** The state of a new cipher and of a new code that is made for it. *)
Definition new_crypto (cipher : option ssh_cipheralg) (ckey iv : list Z)
    (mac : option ssh2_macalg) (mac_key : list Z) : X :=
  let x := match cipher with Some c => ca_setiv c iv (ca_setkey c ckey (ca_new c no_crypto)) | None => no_crypto end in
  match mac with Some m => ma_setkey m mac_key (ma_new m x) | None => x end.

Definition ssh2_bpp_new_outgoing_crypto s (cipher : option ssh_cipheralg) (ckey iv : list Z)
    (mac : option ssh2_macalg) (etm_mode : bool) (mac_key : list Z)
    (compression : ssh_compression_alg) (delayed_compression reset_sequence_number : bool) : ssh2_bpp_state :=
  let tx := s2_tx s in
  let x := new_crypto cipher ckey iv mac mac_key in
  let workaround :=
    match cipher with
    | Some c => cipher_flag c SSH_CIPHER_IS_CBC && (Z.land (b_remote_bugs (s2_bpp s)) BUG_CHOKES_ON_SSH2_IGNORE =? 0)
    | None => false
    end in
  let sequence := if reset_sequence_number then 0 else d_sequence (tx_out tx) in
  if delayed_compression && negb (fl_seen_userauth_success (s2_flags s)) then
    set_tx s (MkTx (tx_stats tx) workaround (MkDirection sequence cipher mac x etm_mode (Some compression)) None (tx_random tx))
  else
    set_tx s (MkTx (tx_stats tx) workaround (MkDirection sequence cipher mac x etm_mode None)
                (ssh_compressor_new compression) (tx_random tx)).

Definition ssh2_bpp_new_incoming_crypto s (cipher : option ssh_cipheralg) (ckey iv : list Z)
    (mac : option ssh2_macalg) (etm_mode : bool) (mac_key : list Z)
    (compression : ssh_compression_alg) (delayed_compression reset_sequence_number : bool) : ssh2_bpp_state :=
  let rx := s2_rx s in
  let fl := s2_flags s in
  let x := new_crypto cipher ckey iv mac mac_key in
  let '(pending, decomp) :=
    if delayed_compression && negb (fl_seen_userauth_success fl) then (Some compression, None)
    else (None, ssh_decompressor_new compression) in
  let sequence := if reset_sequence_number then 0 else d_sequence (rx_in rx) in
  MkBpp2 (MkRx (rx_crState rx) (rx_bufsize rx) (rx_stats rx) (MkDirection sequence cipher mac x etm_mode pending) decomp)
    (s2_tx s)
    (MkFlags (fl_is_server fl) false (fl_pending_compression fl) (fl_seen_userauth_success fl)
       (fl_enforce_next_packet_is_userauth_success fl) (fl_nnewkeys fl) (fl_prev_type fl))
    (b_emit (s2_bpp s) [Ev_queue_callback (b_ic_in_raw (s2_bpp s))]).

Definition ssh2_bpp_rekey_inadvisable s : bool := fl_pending_compression (s2_flags s).

(** The log names the new compressor, which is undefined if there is none. *)
Definition ssh2_bpp_enable_pending_compression s : res ssh2_bpp_state :=
  let! s :=
    match d_pending_compression (rx_in (s2_rx s)) with
    | None => Ok s
    | Some alg =>
        match ssh_decompressor_new alg with
        | None => Crash UndefinedBehaviour
        | Some dc =>
            let rx := s2_rx s in
            let d := rx_in rx in
            Ok (set_rx s (MkRx (rx_crState rx) (rx_bufsize rx) (rx_stats rx)
                  (MkDirection (d_sequence d) (d_cipher d) (d_mac d) (d_crypto d) (d_etm_mode d) None) (Some dc)))
        end
    end in
  match d_pending_compression (tx_out (s2_tx s)) with
  | None => Ok s
  | Some alg =>
      match ssh_compressor_new alg with
      | None => Crash UndefinedBehaviour
      | Some co =>
          let tx := s2_tx s in
          let d := tx_out tx in
          Ok (set_tx s (MkTx (tx_stats tx) (tx_cbc_ignore_workaround tx)
                (MkDirection (d_sequence d) (d_cipher d) (d_mac d) (d_crypto d) (d_etm_mode d) None) (Some co) (tx_random tx)))
      end
  end.

Definition ssh2_bpp_new_pktout (pkt_type : Z) : res PktOut :=
  let pkt := pkt_set_length ssh_new_packet 5 in
  let pkt := MkPktOut (po_prefix pkt) (po_length pkt) pkt_type 0 (po_data pkt) (po_maxlen pkt)
               (po_formal_size pkt) in
  let! pkt := BinarySink_put_byte pkt pkt_type in
  Ok (MkPktOut (po_length pkt) (po_length pkt) (po_type pkt) (po_minlen pkt) (po_data pkt) (po_maxlen pkt)
        (po_formal_size pkt)).

(** ** Receiving *)

(** [ssh_sw_abort(msg); crStopV] *)
Definition abort s (msg : string) : res (round ssh2_bpp_state) :=
  Ok (Return (set_bpp (at_point s CR_START) (b_emit (s2_bpp s) [Ev_sw_abort msg]))).

(** [ssh_proto_error(msg); return]: the place of the last read is kept. *)
Definition proto_error s (msg : string) : res (round ssh2_bpp_state) :=
  Ok (Return (set_bpp (at_point s CR_STALE) (b_emit (s2_bpp s) [Ev_proto_error msg]))).

(** The start of the loop, up to the first read of a packet. *)
Definition start_packet s : res (round ssh2_bpp_state) :=
  let rx := s2_rx s in
  let d := rx_in rx in
  let blk := match d_cipher d with Some c => ca_blksize c | None => 8 end in
  let blk := if blk <? 8 then 8 else blk in
  let maclen := match d_mac d with Some m => ma_len m | None => 0 end in
  let fr := MkFraming blk maclen in
  let with_buf size p :=
    Ok (Continue (set_rx s (MkRx p (if rx_bufsize rx <? size then size else rx_bufsize rx)
                              (rx_stats rx) d (rx_in_decomp rx)))) in
  match d_cipher d, d_mac d, d_etm_mode d with
  | c, Some _, true => with_buf 4 (CR_ETM_LENGTH fr)
  | Some c, Some _, false =>
      if cipher_flag c SSH_CIPHER_IS_CBC then with_buf (OUR_V2_PACKETLIMIT + maclen) (CR_CBC_MAC fr)
      else with_buf blk (CR_STD_FIRST fr)
  | _, _, _ => with_buf blk (CR_STD_FIRST fr)
  end.

(** The end of the loop: a userauth message releases the packets that are held back. *)
Definition finish_type s (type : Z) (enforce : bool) : res (round ssh2_bpp_state) :=
  let fl := s2_flags s in
  let pc := fl_pending_compression fl && negb (userauth_range type) in
  let s := set_flags s (MkFlags (fl_is_server fl) (fl_pending_newkeys fl) pc (fl_seen_userauth_success fl)
                          enforce (fl_nnewkeys fl) (fl_prev_type fl)) in
  let s := if fl_pending_compression fl && userauth_range type
           then set_bpp s (b_emit (s2_bpp s) [Ev_queue_callback (b_ic_out_pq (s2_bpp s))]) else s in
  Ok (Continue (at_point s CR_START)).

(** After a packet was queued: what depends on its type and the one before. *)
Definition packet_queued s (type : Z) : res (round ssh2_bpp_state) :=
  let fl := s2_flags s in
  let prev_type := fl_prev_type fl in
  let put_prev e nn pn := MkFlags (fl_is_server fl) pn (fl_pending_compression fl) (fl_seen_userauth_success fl)
                            e nn type in
  let s := set_flags s (put_prev (fl_enforce_next_packet_is_userauth_success fl) (fl_nnewkeys fl)
                          (fl_pending_newkeys fl)) in
  if fl_enforce_next_packet_is_userauth_success fl && negb (type =? SSH2_MSG_USERAUTH_SUCCESS) then
    proto_error s "Remote side sent SSH2_MSG_EXT_INFO not either preceded by NEWKEYS or followed by USERAUTH_SUCCESS"
  else if type =? SSH2_MSG_NEWKEYS then
    let nn := if fl_nnewkeys fl <? 2 then fl_nnewkeys fl + 1 else fl_nnewkeys fl in
    Ok (Return (at_point (set_flags s (put_prev false nn true)) CR_NEWKEYS))
  else
    let s := set_flags s (put_prev false (fl_nnewkeys fl) (fl_pending_newkeys fl)) in
    let! s :=
      if (type =? SSH2_MSG_USERAUTH_SUCCESS) && negb (fl_is_server fl) then
        let! s := ssh2_bpp_enable_pending_compression s in
        let fl := s2_flags s in
        Ok (set_flags s (MkFlags (fl_is_server fl) (fl_pending_newkeys fl) (fl_pending_compression fl) true
                           (fl_enforce_next_packet_is_userauth_success fl) (fl_nnewkeys fl) (fl_prev_type fl)))
      else Ok s in
    let fl := s2_flags s in
    let enforce := fl_enforce_next_packet_is_userauth_success fl in
    if type =? SSH2_MSG_EXT_INFO then
      if (prev_type =? SSH2_MSG_NEWKEYS) && (fl_nnewkeys fl =? 1) then finish_type s type enforce
      else if fl_is_server fl then
        proto_error s "Remote side sent SSH2_MSG_EXT_INFO that was not immediately after the initial NEWKEYS"
      else if (0 <? fl_nnewkeys fl) && fl_seen_userauth_success fl then
        proto_error s "Remote side sent SSH2_MSG_EXT_INFO after USERAUTH_SUCCESS"
      else finish_type s type true
    else finish_type s type enforce.

(** From the padding length on.  [data] holds the decrypted packet. *)
Definition packet_read s (len packetlen : Z) (data : block) : res (round ssh2_bpp_state) :=
  let! pad := read_at (bl_bytes data) 4 1 in
  let pad := nth 0 pad 0 in
  if (pad <? 4) || (len - pad <? 1) then abort s "Invalid padding length on received packet"
  else
    let rx := s2_rx s in
    let sequence := d_sequence (rx_in rx) in
    let rx := MkRx (rx_crState rx) (rx_bufsize rx) (dts_consume (rx_stats rx) packetlen)
                (dir_next_message (rx_in rx)) (rx_in_decomp rx) in
    let length := packetlen - pad in
    c_assert (0 <=? length) (
      let! payload := read_at (bl_bytes data) 5 (length - 5) in
      let! x :=
        match rx_in_decomp rx with
        | None => Ok (payload, None)
        | Some dc =>
            let! r := za_decompress (de_vt dc) (de_state dc) payload in
            Ok (match r.1 with Some newpayload => newpayload | None => payload end,
                Some (MkDecompressor (de_vt dc) r.2))
        end in
      let '(payload, decomp) := x in
      let s := set_rx s (MkRx (rx_crState rx) (rx_bufsize rx) (rx_stats rx) (rx_in rx) decomp) in
      let '(type, contents) :=
        match payload with [] => (SSH_MSG_NO_TYPE_CODE, []) | t :: c => (t, c) end in
      let src := BinarySource_INIT contents in
      let pktin := MkPktIn type sequence src 0 in
      let! r := ssh2_bpp_check_unimplemented ssh2_bpp_new_pktout (s2_bpp s) pktin in
      if r.1 : bool then Ok (Continue (at_point (set_bpp s r.2) CR_START))
      else packet_queued (set_bpp s (b_push_in r.2 (set_pi_formal_size pktin (get_avail src)))) type).

Definition set_in_crypto s (x : X) : ssh2_bpp_state :=
  set_rx s (rx_set_in (s2_rx s) (dir_set_crypto (rx_in (s2_rx s)) x)).

(** [ssh_cipher_decrypt(s->in.cipher, bytes)], if there is a cipher *)
Definition in_decrypt s (bytes : list Z) : list Z * ssh2_bpp_state :=
  match d_cipher (rx_in (s2_rx s)) with
  | None => (bytes, s)
  | Some c =>
      let '(plain, x) := ca_decrypt c bytes (d_crypto (rx_in (s2_rx s))) in
      (plain, set_in_crypto s x)
  end.

(** The check of the code behind the first [len + 4] bytes, if there is one. *)
Definition in_verify s (data : block) (len maclen : Z) : res (bool * ssh2_bpp_state) :=
  match d_mac (rx_in (s2_rx s)) with
  | None => Ok (true, s)
  | Some m =>
      let! blk := read_at (bl_bytes data) 0 (len + 4) in
      let! candidate := read_at (bl_bytes data) (len + 4) maclen in
      let d := rx_in (s2_rx s) in
      let! r := ssh2_mac_verify m (d_crypto d) blk candidate (d_sequence d) in
      Ok (r.1, set_in_crypto s r.2)
  end.

Definition cbc_mac s (fr : framing) (data : list Z) : res (round ssh2_bpp_state) :=
  match d_mac (rx_in (s2_rx s)) with
  | None => Crash UndefinedBehaviour
  | Some m =>
      let! buf := block_write (Block (rx_bufsize (s2_rx s)) []) 0 data in
      let d := rx_in (s2_rx s) in
      let x := ma_put m (PUT_32BIT_MSB_FIRST (d_sequence d)) (ma_start m (d_crypto d)) in
      Ok (Continue (at_point (set_in_crypto s x) (CR_CBC_BLOCK fr buf 0)))
  end.

Definition cbc_block s (fr : framing) (buf : block) (packetlen : Z) (data : list Z)
  : res (round ssh2_bpp_state) :=
  let blk := fr_cipherblk fr in
  let! buf := block_write buf (packetlen + fr_maclen fr) data in
  let! piece := read_at (bl_bytes buf) packetlen blk in
  let '(piece, s) := in_decrypt s piece in
  let! buf := block_write buf packetlen piece in
  match d_mac (rx_in (s2_rx s)) with
  | None => Crash UndefinedBehaviour
  | Some m =>
      let x := ma_put m piece (d_crypto (rx_in (s2_rx s))) in
      let packetlen := packetlen + blk in
      let! candidate := read_at (bl_bytes buf) packetlen (fr_maclen fr) in
      let! r := ssh2_mac_verresult m x candidate in
      let '(ok, x) := r in
      let s := set_in_crypto s x in
      let! field := read_at (bl_bytes buf) 0 4 in
      let len := toint (GET_32BIT_MSB_FIRST field) in
      if ok && (len =? packetlen - 4) then
        let maxlen := packetlen + fr_maclen fr in
        let! all := read_at (bl_bytes buf) 0 maxlen in
        packet_read s len packetlen (Block maxlen all)
      else if OUR_V2_PACKETLIMIT <=? packetlen then abort s "No valid incoming packet found"
      else Ok (Continue (at_point s (CR_CBC_BLOCK fr buf packetlen)))
  end.

Definition etm_length s (fr : framing) (data : list Z) : res (round ssh2_bpp_state) :=
  let d := rx_in (s2_rx s) in
  let '(field, s) :=
    match d_cipher d with
    | Some c =>
        if cipher_flag c SSH_CIPHER_SEPARATE_LENGTH then
          let '(field, x) := ca_decrypt_length c data (d_sequence d) (d_crypto d) in
          (field, set_in_crypto s x)
        else (data, s)
    | None => (data, s)
    end in
  let len := toint (GET_32BIT_MSB_FIRST field) in
  if (len <? 0) || (OUR_V2_PACKETLIMIT <? len) || negb (len mod fr_cipherblk fr =? 0) then
    abort s "Incoming packet length field was garbled"
  else
    let! pktdata := block_write (Block (OUR_V2_PACKETLIMIT + fr_maclen fr) []) 0 data in
    Ok (Continue (at_point s (CR_ETM_REST fr len pktdata))).

Definition etm_rest s (fr : framing) (len : Z) (pktdata : block) (data : list Z) : res (round ssh2_bpp_state) :=
  let packetlen := len + 4 in
  let! pktdata := block_write pktdata 4 data in
  let! v := in_verify s pktdata len (fr_maclen fr) in
  let '(ok, s) := v in
  if negb ok then abort s "Incorrect MAC received on packet"
  else
    let! cipher := read_at (bl_bytes pktdata) 4 (packetlen - 4) in
    let '(plain, s) := in_decrypt s cipher in
    let! pktdata := block_write pktdata 4 plain in
    packet_read s len packetlen pktdata.

Definition std_first s (fr : framing) (data : list Z) : res (round ssh2_bpp_state) :=
  let blk := fr_cipherblk fr in
  let! buf := block_write (Block (rx_bufsize (s2_rx s)) []) 0 data in
  let '(plain, s) := in_decrypt s (bl_bytes buf) in
  let! field := read_at plain 0 4 in
  let len := toint (GET_32BIT_MSB_FIRST field) in
  if (len <? 0) || (OUR_V2_PACKETLIMIT <? len) || negb ((len + 4) mod blk =? 0) then
    abort s "Incoming packet was garbled on decryption"
  else
    let! pktdata := block_write (Block (len + 4 + fr_maclen fr) []) 0 plain in
    Ok (Continue (at_point s (CR_STD_REST fr len pktdata))).

Definition std_rest s (fr : framing) (len : Z) (pktdata : block) (data : list Z) : res (round ssh2_bpp_state) :=
  let packetlen := len + 4 in
  let blk := fr_cipherblk fr in
  let! pktdata := block_write pktdata blk data in
  let! cipher := read_at (bl_bytes pktdata) blk (packetlen - blk) in
  let '(plain, s) := in_decrypt s cipher in
  let! pktdata := block_write pktdata blk plain in
  let! v := in_verify s pktdata len (fr_maclen fr) in
  let '(ok, s) := v in
  if negb ok then abort s "Incorrect MAC received on packet"
  else packet_read s len packetlen pktdata.

(** The lengths of the reads. *)
Definition bpp2_read_len s : option Z :=
  match rx_crState (s2_rx s) with
  | CR_CBC_MAC fr => Some (fr_maclen fr)
  | CR_CBC_BLOCK fr _ _ => Some (fr_cipherblk fr)
  | CR_ETM_LENGTH _ => Some 4
  | CR_ETM_REST fr len _ => Some (len + 4 + fr_maclen fr - 4)
  | CR_STD_FIRST fr => Some (fr_cipherblk fr)
  | CR_STD_REST fr len _ => Some (len + 4 + fr_maclen fr - fr_cipherblk fr)
  | CR_START | CR_NEWKEYS | CR_STALE | CR_EOF => None
  end.

Definition bpp2_after_read s (data : list Z) : res (round ssh2_bpp_state) :=
  let s := set_bpp s (b_emit (s2_bpp s) [Ev_check_frozen]) in
  match rx_crState (s2_rx s) with
  | CR_CBC_MAC fr => cbc_mac s fr data
  | CR_CBC_BLOCK fr buf packetlen => cbc_block s fr buf packetlen data
  | CR_ETM_LENGTH fr => etm_length s fr data
  | CR_ETM_REST fr len pktdata => etm_rest s fr len pktdata data
  | CR_STD_FIRST fr => std_first s fr data
  | CR_STD_REST fr len pktdata => std_rest s fr len pktdata data
  | CR_START | CR_NEWKEYS | CR_STALE | CR_EOF => Crash UndefinedBehaviour
  end.

Definition bpp2_no_read s : res (round ssh2_bpp_state) :=
  match rx_crState (s2_rx s) with
  | CR_START => start_packet s
  | CR_NEWKEYS => if fl_pending_newkeys (s2_flags s) then Ok (Return s) else Ok (Continue (at_point s CR_START))
  | CR_EOF =>
      match pq_peek (b_in_pq (s2_bpp s)) with
      | Some _ => Ok (Return s)
      | None => Ok (Return (set_bpp s (report_eof (s2_bpp s))))
      end
  | _ => Crash UndefinedBehaviour
  end.

Definition bpp2_goto_eof s : res (round ssh2_bpp_state) := Ok (Continue (at_point s CR_EOF)).

Definition bpp2_at_eof s : bool := b_input_eof (s2_bpp s).

(** ** Sending *)

  Variable random_read : Z -> R -> list Z * R.

(** Replaces the [n] bytes from [off] by what [f] makes of them, and gives its other result. *)
Definition pkt_update {A} (pkt : PktOut) (off n : Z) (f : list Z -> list Z * A) : res (PktOut * A) :=
  let! bytes := pkt_bytes pkt in
  let! old := read_at bytes off n in
  let '(new, a) := f old in
  let! pkt := pkt_store pkt off new in
  Ok (pkt, a).

(** [for (i = 0; i < n; i++) put_byte(pkt, 0)] *)
Fixpoint put_zeros (n : nat) (pkt : PktOut) : res PktOut :=
  match n with
  | O => Ok pkt
  | S n => let! pkt := BinarySink_put_byte pkt 0 in put_zeros n pkt
  end.

(** [n] bytes of room, filled with random bytes *)
Definition put_random tx (pkt : PktOut) (n : Z) : res (PktOut * bpp2_tx) :=
  let origlen := po_length pkt in
  let! pkt := put_zeros (Z.to_nat n) pkt in
  let '(bytes, random) := random_read n (tx_random tx) in
  let! pkt := pkt_store pkt origlen bytes in
  Ok (pkt, MkTx (tx_stats tx) (tx_cbc_ignore_workaround tx) (tx_out tx) (tx_out_comp tx) random).

Definition out_mac_len tx : Z := match d_mac (tx_out tx) with Some m => ma_len m | None => 0 end.

Definition set_out tx (d : ssh2_bpp_direction) : bpp2_tx :=
  MkTx (tx_stats tx) (tx_cbc_ignore_workaround tx) d (tx_out_comp tx) (tx_random tx).

Definition compress_payload tx (pkt : PktOut) : res (PktOut * bpp2_tx) :=
  match tx_out_comp tx with
  | None => Ok (pkt, tx)
  | Some co =>
      let minlen := to_int (po_minlen pkt) in
      let minlen := if minlen =? 0 then 0 else minlen - out_mac_len tx - 8 in
      let! bytes := pkt_bytes pkt in
      let! payload := read_at bytes 5 (po_length pkt - 5) in
      let! r := za_compress (co_vt co) (co_state co) payload minlen in
      let! pkt := BinarySink_put_data (pkt_set_length pkt 5) r.1 in
      Ok (pkt, MkTx (tx_stats tx) (tx_cbc_ignore_workaround tx) (tx_out tx)
                 (Some (MkCompressor (co_vt co) r.2)) (tx_random tx))
  end.

(** [ssh_cipher_encrypt] on [n] bytes of the packet, if there is a cipher *)
Definition out_encrypt tx (pkt : PktOut) (off n : Z) : res (PktOut * bpp2_tx) :=
  match d_cipher (tx_out tx) with
  | None => Ok (pkt, tx)
  | Some c =>
      let! r := pkt_update pkt off n (fun old => ca_encrypt c old (d_crypto (tx_out tx))) in
      Ok (r.1, set_out tx (dir_set_crypto (tx_out tx) r.2))
  end.

(** [ssh_cipher_encrypt_length], if the cipher wants it *)
Definition out_encrypt_length tx (pkt : PktOut) : res (PktOut * bpp2_tx) :=
  match d_cipher (tx_out tx) with
  | Some c =>
      if cipher_flag c SSH_CIPHER_SEPARATE_LENGTH then
        let! r := pkt_update pkt 0 4 (fun old =>
                    ca_encrypt_length c old (d_sequence (tx_out tx)) (d_crypto (tx_out tx))) in
        Ok (r.1, set_out tx (dir_set_crypto (tx_out tx) r.2))
      else Ok (pkt, tx)
  | None => Ok (pkt, tx)
  end.

(** [ssh2_mac_generate(s->out.mac, pkt->data, len, s->out.sequence)], if there is a code *)
Definition out_generate tx (pkt : PktOut) (len : Z) : res (PktOut * bpp2_tx) :=
  match d_mac (tx_out tx) with
  | None => Ok (pkt, tx)
  | Some m =>
      let! bytes := pkt_bytes pkt in
      let! blk := read_at bytes 0 len in
      let d := tx_out tx in
      let '(tag, x) := ssh2_mac_generate m (d_crypto d) blk (d_sequence d) in
      let! pkt := pkt_store pkt len tag in
      Ok (pkt, set_out tx (dir_set_crypto d x))
  end.

Definition ssh2_bpp_format_packet_inner tx (pkt : PktOut) : res (PktOut * bpp2_tx) :=
  let blk := match d_cipher (tx_out tx) with Some c => ca_blksize c | None => 8 end in
  let cipherblk := if blk <? 8 then 8 else blk in
  let! x := compress_payload tx pkt in
  let '(pkt, tx) := x in
  let etm := match d_mac (tx_out tx) with Some _ => d_etm_mode (tx_out tx) | None => false end in
  let unencrypted_prefix := if etm then 4 else 0 in
  let padding := 4 + (cipherblk - (po_length pkt - unencrypted_prefix + 4) mod cipherblk) mod cipherblk in
  c_assert (padding <=? 255) (
    let maclen := out_mac_len tx in
    let origlen := po_length pkt in
    let! x := put_random tx pkt padding in
    let '(pkt, tx) := x in
    let! pkt := pkt_store pkt 4 [u8 padding] in
    let! pkt := pkt_store pkt 0 (PUT_32BIT_MSB_FIRST (origlen + padding - 4)) in
    let! x := out_encrypt_length tx pkt in
    let '(pkt, tx) := x in
    let! pkt := BinarySink_put_padding pkt maclen 0 in
    let! x :=
      if etm then
        let! x := out_encrypt tx pkt 4 (origlen + padding - 4) in
        out_generate x.2 x.1 (origlen + padding)
      else
        let! x := out_generate tx pkt (origlen + padding) in
        out_encrypt x.2 x.1 0 (origlen + padding) in
    let '(pkt, tx) := x in
    Ok (pkt, MkTx (dts_consume (tx_stats tx) (origlen + padding)) (tx_cbc_ignore_workaround tx)
               (dir_next_message (tx_out tx)) (tx_out_comp tx) (tx_random tx))).

Section output.
  Context {U : Type}.
  Implicit Types (out_raw : bufchain U) (w : world U).

Definition add_packet out_raw w (pkt : PktOut) : res (bufchain U * world U) :=
  let! bytes := pkt_bytes pkt in bufchain_add out_raw bytes w.

(** The length of the string in an IGNORE message that makes up for [pkt], if one is needed. *)
Definition ignore_length tx (pkt : PktOut) : option Z :=
  let block := match d_cipher (tx_out tx) with Some c => ca_blksize c | None => 0 end in
  let block := if block <? 8 then 8 else block in
  let length := po_length pkt + 4 + (block - 1) in
  let length := length - length mod block in
  let length := length + out_mac_len tx in
  if length <? po_minlen pkt then
    let length := po_minlen pkt - length - out_mac_len tx - 8 - 5 in
    Some (if length <? 0 then 0 else length)
  else None.

Definition ssh2_bpp_format_packet out_raw w tx (pkt : PktOut) : res (bufchain U * world U * bpp2_tx) :=
  let! x :=
    if (0 <? po_minlen pkt) && match tx_out_comp tx with None => true | Some _ => false end then
      match ignore_length tx pkt with
      | None => Ok (out_raw, w, tx)
      | Some length =>
          let! ignore_pkt := ssh2_bpp_new_pktout SSH2_MSG_IGNORE in
          let! ignore_pkt := BinarySink_put_uint32 ignore_pkt length in
          let! x := put_random tx ignore_pkt length in
          let! x := ssh2_bpp_format_packet_inner x.2 x.1 in
          let! r := add_packet out_raw w x.1 in
          Ok (r, x.2)
      end
    else Ok (out_raw, w, tx) in
  let '(out_raw, w, tx) := x in
  let! x := ssh2_bpp_format_packet_inner tx pkt in
  let! r := add_packet out_raw w x.1 in
  Ok (r, x.2).

(** [if (userauth_range(pkt->type)) n_userauth++] over the queue *)
Definition count_userauth (pkts : list PktOut) : Z :=
  foldl (fun n pkt => if userauth_range (po_type pkt) then n + 1 else n) 0 pkts.

(** The loop over the queue; the result says if it was left by [return]. *)
Fixpoint output_loop (fuel : nat) (n_userauth : Z) out_raw w s
  : res (bool * (bufchain U * world U * ssh2_bpp_state)) :=
  let! r := b_pop_out (s2_bpp s) in
  let s := set_bpp s r.2 in
  match r.1 with
  | None => Ok (false, (out_raw, w, s))
  | Some pkt =>
      match fuel with
      | O => Crash OutOfFuel
      | S fuel =>
          let type := po_type pkt in
          let n_userauth := if userauth_range type then n_userauth - 1 else n_userauth in
          let! x := ssh2_bpp_format_packet out_raw w (s2_tx s) pkt in
          let '(out_raw, w, tx) := x in
          let s := set_tx s tx in
          let pending := match d_pending_compression (tx_out tx) with Some _ => true | None => false end in
          if (n_userauth =? 0) && pending && negb (fl_is_server (s2_flags s)) then
            let fl := s2_flags s in
            Ok (true, (out_raw, w, set_flags s (MkFlags (fl_is_server fl) (fl_pending_newkeys fl) true
                  (fl_seen_userauth_success fl) (fl_enforce_next_packet_is_userauth_success fl)
                  (fl_nnewkeys fl) (fl_prev_type fl))))
          else
            let! s := if (type =? SSH2_MSG_USERAUTH_SUCCESS) && fl_is_server (s2_flags s)
                      then ssh2_bpp_enable_pending_compression s else Ok s in
            output_loop fuel n_userauth out_raw w s
      end
  end.

(** The IGNORE message in front of the packets of a CBC cipher. *)
Definition cbc_ignore out_raw w s : res (bufchain U * world U * ssh2_bpp_state) :=
  if tx_cbc_ignore_workaround (s2_tx s) then
    match d_cipher (tx_out (s2_tx s)), d_mac (tx_out (s2_tx s)) with
    | Some c, Some m =>
        if bufchain_size out_raw <? ca_blksize c + ma_len m then
          let! pkt := ssh2_bpp_new_pktout SSH2_MSG_IGNORE in
          let! pkt := BinarySink_put_stringz pkt [0] in
          let! x := ssh2_bpp_format_packet out_raw w (s2_tx s) pkt in
          Ok (x.1, set_tx s x.2)
        else Ok (out_raw, w, s)
    | _, _ => Crash UndefinedBehaviour
    end
  else Ok (out_raw, w, s).

Definition ssh2_bpp_handle_output out_raw w s : res (bufchain U * world U * ssh2_bpp_state) :=
  let pkts := pq_packets (b_out_pq (s2_bpp s)) in
  let n_userauth := count_userauth pkts in
  if fl_pending_compression (s2_flags s) && (n_userauth =? 0) then Ok (out_raw, w, s)
  else
    let! x := cbc_ignore out_raw w s in
    let! y := output_loop (length pkts) n_userauth x.1.1 x.1.2 x.2 in
    if y.1 : bool then Ok y.2
    else Ok (y.2.1, set_bpp y.2.2 (b_emit (s2_bpp y.2.2) [Ev_sendbuffer_changed])).

(** ** The calls *)

Definition ssh2_bpp_handle_input (in_raw : bufchain U) s : res (bufchain U * ssh2_bpp_state) :=
  handle_input bpp2_read_len bpp2_at_eof bpp2_after_read bpp2_goto_eof bpp2_no_read in_raw s.

Definition bpp2_feed (in_raw : bufchain U) w s (chunks : list (list Z)) : res (bufchain U * world U * ssh2_bpp_state) :=
  feed bpp2_read_len bpp2_at_eof bpp2_after_read bpp2_goto_eof bpp2_no_read in_raw w s chunks.

End output.

End protocol.

Arguments ssh_cipheralg : clear implicits.
Arguments ssh2_macalg : clear implicits.
Arguments ssh_compression_alg : clear implicits.
Arguments ssh_compressor : clear implicits.
Arguments ssh_decompressor : clear implicits.
Arguments ssh2_bpp_direction : clear implicits.
Arguments bpp2_rx : clear implicits.
Arguments bpp2_tx : clear implicits.
Arguments ssh2_bpp_state : clear implicits.
