(* ===== verification/Bpp2Crypto.v ===== *)
(** * What the packet protocol relies on: ciphers, codes and compression

    The laws of the methods that the protocol is given, as classes.  Two states of a cipher
    are in step when one decrypts what the other encrypts; the state of a code is its key and
    the data it has been given.  The laws of a cipher with a code say that neither disturbs
    the other, which the authenticated ciphers do not satisfy. *)

From stdpp Require Import gmap.
From S2P Require Import Prelude Marshal Packet Bpp Bpp2.
Local Open Scope cmodel_scope.
Local Open Scope Z_scope.

(** The size of a block: [cipherblk] *)
Definition cipher_block {X} (cipher : option (ssh_cipheralg X)) : Z :=
  let blk := match cipher with Some c => ca_blksize c | None => 8 end in if blk <? 8 then 8 else blk.

Definition mac_length {X} (mac : option (ssh2_macalg X)) : Z := match mac with Some m => ma_len m | None => 0 end.

Definition blocks (blk : Z) (l : list Z) : Prop := Z.of_nat (length l) mod blk = 0.

Lemma option_cases {A} (o : option A) : (exists a, o = Some a) \/ o = None.
Proof. destruct o; eauto. Qed.

Section classes.
  Context {X : Type}.

(** [keyed x y]: what [x] encrypts next, [y] decrypts. *)
Class CipherLaws (c : ssh_cipheralg X) (keyed : X -> X -> Prop) : Prop := {
  c_block : ca_blksize c <= 252;
  c_encrypt x y l : keyed x y -> bytesOK l -> blocks (cipher_block (Some c)) l ->
    exists e x' y', ca_encrypt c l x = (e, x') /\ length e = length l /\ bytesOK e /\
      ca_decrypt c e y = (l, y') /\ keyed x' y';
  (** A call for several blocks is as good as several calls. *)
  c_split x l1 l2 : blocks (cipher_block (Some c)) l1 -> blocks (cipher_block (Some c)) l2 ->
    ca_encrypt c (l1 ++ l2) x =
      let '(e1, x1) := ca_encrypt c l1 x in let '(e2, x2) := ca_encrypt c l2 x1 in (e1 ++ e2, x2);
  c_length x y l seq : cipher_flag c SSH_CIPHER_SEPARATE_LENGTH = true -> keyed x y -> bytesOK l ->
    length l = 4%nat ->
    exists e x' y', ca_encrypt_length c l seq x = (e, x') /\ length e = 4%nat /\ bytesOK e /\
      ca_decrypt_length c e seq y = (l, y') /\ keyed x' y';
  c_next x y : keyed x y -> keyed (ca_next_message c x) (ca_next_message c y)
}.

Class MacLaws (m : ssh2_macalg X) {K} (key : X -> K) (data : X -> list Z) (tag : K -> list Z -> list Z) : Prop := {
  m_len : 0 < ma_len m <= 64;
  m_tag k l : bytesOK l -> Z.of_nat (length (tag k l)) = ma_len m /\ bytesOK (tag k l);
  m_start x : key (ma_start m x) = key x /\ data (ma_start m x) = [];
  m_put x l : key (ma_put m l x) = key x /\ data (ma_put m l x) = data x ++ l;
  m_gen x : exists x', ma_genresult m x = (tag (key x) (data x), x') /\ key x' = key x /\ data x' = data x;
  m_next x y : key x = key y -> key (ma_next_message m x) = key (ma_next_message m y)
}.

(** Cipher and code do not disturb each other. *)
Class Independent (c : ssh_cipheralg X) (m : ssh2_macalg X) (keyed : X -> X -> Prop)
    {K} (key : X -> K) (data : X -> list Z) : Prop := {
  i_encrypt l x : key (ca_encrypt c l x).2 = key x /\ data (ca_encrypt c l x).2 = data x;
  i_decrypt l x : key (ca_decrypt c l x).2 = key x /\ data (ca_decrypt c l x).2 = data x;
  i_encrypt_length l seq x : key (ca_encrypt_length c l seq x).2 = key x;
  i_decrypt_length l seq x : key (ca_decrypt_length c l seq x).2 = key x;
  i_next_cipher x : key (ca_next_message c x) = key x;
  i_left f x y : f ∈ [ma_start m; fun x => (ma_genresult m x).2; ma_next_message m] \/ (exists l, f = ma_put m l) ->
    keyed x y -> keyed (f x) y;
  i_right f x y : f ∈ [ma_start m; fun x => (ma_genresult m x).2; ma_next_message m] \/ (exists l, f = ma_put m l) ->
    keyed x y -> keyed x (f y)
}.

End classes.

(** Compression: what one state makes of a packet, the other one undoes, whatever the packets
    before; the size is bounded. *)
Class CompressionLaws {ZC ZD} (za : ssh_compression_alg ZC ZD) (linked : ZC -> ZD -> Prop) : Prop := {
  z_packet co de p minlen : linked co de -> bytesOK p -> Z.of_nat (length p) <= 2 ^ 20 -> 0 <= minlen <= 2 ^ 20 ->
    exists z co' de', za_compress za co p minlen = Ok (z, co') /\ za_decompress za de z = Ok (Some p, de') /\
      bytesOK z /\ minlen <= Z.of_nat (length z) /\
      0 < Z.of_nat (length z) <= 2 * Z.of_nat (length p) + minlen + 8 /\ linked co' de'
}.

(** ** A cipher and a code that may be absent *)

(** The methods of one direction with their laws. *)
Class Methods {X} (cipher : option (ssh_cipheralg X)) (mac : option (ssh2_macalg X)) (etm : bool)
    (keyed : X -> X -> Prop) {K} (key : X -> K) (data : X -> list Z) (tag : K -> list Z -> list Z) : Prop := {
  me_cipher c : cipher = Some c -> CipherLaws c keyed;
  me_mac m : mac = Some m -> MacLaws m key data tag;
  me_independent c m : cipher = Some c -> mac = Some m -> Independent c m keyed key data;
  (** A cipher that encrypts the length by itself has a code that covers the encrypted bytes. *)
  me_separate c : cipher = Some c -> cipher_flag c SSH_CIPHER_SEPARATE_LENGTH = true ->
    etm = true /\ is_Some mac
}.

Section methods.
  Context {X K : Type} {cipher : option (ssh_cipheralg X)} {mac : option (ssh2_macalg X)} {etm : bool}
    {keyed : X -> X -> Prop} {key : X -> K} {data : X -> list Z} {tag : K -> list Z -> list Z}
    `{HM : !Methods cipher mac etm keyed key data tag}.
  Implicit Types (x y : X) (l : list Z).

Definition o_encrypt l x : list Z * X := match cipher with Some c => ca_encrypt c l x | None => (l, x) end.
Definition o_decrypt l x : list Z * X := match cipher with Some c => ca_decrypt c l x | None => (l, x) end.
Definition o_separate : bool :=
  match cipher with Some c => cipher_flag c SSH_CIPHER_SEPARATE_LENGTH | None => false end.
Definition o_encrypt_length l seq x : list Z * X :=
  match cipher with
  | Some c => if cipher_flag c SSH_CIPHER_SEPARATE_LENGTH then ca_encrypt_length c l seq x else (l, x)
  | None => (l, x)
  end.
Definition o_decrypt_length l seq x : list Z * X :=
  match cipher with
  | Some c => if cipher_flag c SSH_CIPHER_SEPARATE_LENGTH then ca_decrypt_length c l seq x else (l, x)
  | None => (l, x)
  end.
Definition o_generate l seq x : list Z * X :=
  match mac with Some m => ssh2_mac_generate m x l seq | None => ([], x) end.
Definition o_verify l candidate seq x : res (bool * X) :=
  match mac with Some m => ssh2_mac_verify m x l candidate seq | None => Ok (true, x) end.
Definition o_next x : X :=
  let x := match cipher with Some c => ca_next_message c x | None => x end in
  match mac with Some m => ma_next_message m x | None => x end.

(** The ciphers are in step, and the codes have the same key. *)
Definition in_step x y : Prop := is_Some cipher -> keyed x y.
Definition same_key x y : Prop := is_Some mac -> key x = key y.

Definition o_tag l seq x : list Z :=
  match mac with Some _ => tag (key x) (PUT_32BIT_MSB_FIRST seq ++ l) | None => [] end.

Lemma cipher_block_bound : 8 <= cipher_block cipher <= 252.
Proof using HM.
  unfold cipher_block. destruct cipher as [c|]; [|done].
  destruct (me_cipher c eq_refl) as [Hb _ _ _ _]. destruct (Z.ltb_spec (ca_blksize c) 8); lia.
Qed.

Lemma mac_length_bound : 0 <= mac_length mac <= 64.
Proof using HM.
  unfold mac_length. destruct mac as [m|]; [|done]. destruct (me_mac m eq_refl) as [Hb _ _ _ _ _]. lia.
Qed.

Lemma encrypt_ok x y l : in_step x y -> bytesOK l -> blocks (cipher_block cipher) l ->
  exists e x' y', o_encrypt l x = (e, x') /\ length e = length l /\ bytesOK e /\
    o_decrypt e y = (l, y') /\ in_step x' y' /\ same_key x x' /\ same_key y y'.
Proof using HM.
  unfold o_encrypt, o_decrypt, in_step, same_key. destruct cipher as [c|] eqn:Ec.
  2: { intros _ Hb _. exists l, x, y. by split_and!; try intros []. }
  intros Hs Hb Hl. destruct (me_cipher c eq_refl) as [_ Henc _ _ _].
  destruct (Henc x y l (Hs (mk_is_Some _ c eq_refl)) Hb Hl) as (e & x' & y' & E1 & Hle & Hbe & E2 & Hk).
  exists e, x', y'. split_and!; try done; intros [m Em];
    destruct (me_independent c m eq_refl Em) as [He Hd _ _ _ _ _].
  - destruct (He l x) as [E _]. by rewrite E1 in E.
  - destruct (Hd e y) as [E _]. by rewrite E2 in E.
Qed.

Lemma encrypt_split x l1 l2 : blocks (cipher_block cipher) l1 -> blocks (cipher_block cipher) l2 ->
  o_encrypt (l1 ++ l2) x =
    let '(e1, x1) := o_encrypt l1 x in let '(e2, x2) := o_encrypt l2 x1 in (e1 ++ e2, x2).
Proof using HM.
  unfold o_encrypt. destruct cipher as [c|]; [|done].
  destruct (me_cipher c eq_refl) as [_ _ Hs _ _]. apply Hs.
Qed.

Lemma encrypt_length_ok x y l seq : in_step x y -> bytesOK l -> length l = 4%nat ->
  exists e x' y', o_encrypt_length l seq x = (e, x') /\ length e = 4%nat /\ bytesOK e /\
    o_decrypt_length e seq y = (l, y') /\ in_step x' y' /\ same_key x x' /\ same_key y y'.
Proof using HM.
  unfold o_encrypt_length, o_decrypt_length, in_step, same_key. destruct cipher as [c|] eqn:Ec.
  2: { intros _ Hb Hl. exists l, x, y. by split_and!; try intros []. }
  destruct (cipher_flag c _) eqn:Ef; [|intros Hs Hb Hl; by exists l, x, y].
  intros Hs Hb Hl. destruct (me_cipher c eq_refl) as [_ _ _ Hlen _].
  destruct (Hlen x y l seq Ef (Hs (mk_is_Some _ c eq_refl)) Hb Hl) as (e & x' & y' & E1 & Hle & Hbe & E2 & Hk).
  exists e, x', y'. split_and!; try done; intros [m Em];
    destruct (me_independent c m eq_refl Em) as [_ _ He Hd _ _ _].
  - specialize (He l seq x). by rewrite E1 in He.
  - specialize (Hd e seq y). by rewrite E2 in Hd.
Qed.

(** The operations of the code keep the ciphers in step. *)
Lemma mac_left m f x y : mac = Some m ->
  f ∈ [ma_start m; fun x => (ma_genresult m x).2; ma_next_message m] \/ (exists l, f = ma_put m l) ->
  in_step x y -> in_step (f x) y.
Proof using HM.
  intros Em Hf Hs [c Ec]. destruct (me_independent c m Ec Em) as [_ _ _ _ _ Hl _].
  apply Hl; [done|]. by apply Hs.
Qed.

Lemma mac_right m f x y : mac = Some m ->
  f ∈ [ma_start m; fun x => (ma_genresult m x).2; ma_next_message m] \/ (exists l, f = ma_put m l) ->
  in_step x y -> in_step x (f y).
Proof using HM.
  intros Em Hf Hs [c Ec]. destruct (me_independent c m Ec Em) as [_ _ _ _ _ _ Hr].
  apply Hr; [done|]. by apply Hs.
Qed.

Lemma gen_left m x y : mac = Some m -> in_step x y -> in_step (ma_genresult m x).2 y.
Proof using HM. intros Em. apply (mac_left m (fun x => (ma_genresult m x).2)); [done|left; set_solver]. Qed.

Lemma gen_right m x y : mac = Some m -> in_step x y -> in_step x (ma_genresult m y).2.
Proof using HM. intros Em. apply (mac_right m (fun x => (ma_genresult m x).2)); [done|left; set_solver]. Qed.

(** What the code of a block is, on both sides. *)
Lemma prepare_ok m l seq x : mac = Some m ->
  exists x', ma_genresult m (ssh2_mac_prepare m x l seq) = (o_tag l seq x, x') /\ same_key x x' /\
    (forall y, in_step x y -> in_step x' y) /\ (forall y, in_step y x -> in_step y x').
Proof using HM.
  intros Em. unfold ssh2_mac_prepare, o_tag, same_key. rewrite Em.
  destruct (me_mac m Em) as [_ _ Hs Hp Hg _].
  set (z := ma_put m l _). destruct (Hg z) as (x' & E & Hk & Hd).
  assert (Hz : key z = key x /\ data z = PUT_32BIT_MSB_FIRST seq ++ l).
  { unfold z. destruct (Hp (ma_put m (PUT_32BIT_MSB_FIRST seq) (ma_start m x)) l) as [-> ->].
    destruct (Hp (ma_start m x) (PUT_32BIT_MSB_FIRST seq)) as [-> ->]. by destruct (Hs x) as [-> ->]. }
  destruct Hz as [Hzk Hzd]. rewrite Hzk, Hzd in E. exists x'. rewrite Hzk in Hk.
  assert (Ex : x' = (ma_genresult m z).2) by (by rewrite E).
  split_and!; [done|by intros _| |]; intros y Hy; rewrite Ex.
  - apply gen_left; [done|]. unfold z. do 2 (apply (mac_left m (ma_put m _)); [done|eauto|]).
    apply (mac_left m (ma_start m)); [done|left; set_solver|done].
  - apply gen_right; [done|]. unfold z. do 2 (apply (mac_right m (ma_put m _)); [done|eauto|]).
    apply (mac_right m (ma_start m)); [done|left; set_solver|done].
Qed.

Lemma generate_ok l seq x : exists x', o_generate l seq x = (o_tag l seq x, x') /\ same_key x x' /\
  forall y, in_step x y -> in_step x' y.
Proof using HM.
  destruct (option_cases mac) as [[m Em]|Em].
  - destruct (prepare_ok m l seq x Em) as (x' & E & Hk & Hl & _). exists x'. split_and!; [|done..].
    unfold o_generate, ssh2_mac_generate. by rewrite Em.
  - exists x. split_and!; [|done..]. unfold o_generate, o_tag. by rewrite Em.
Qed.

Lemma tag_length l seq x : bytesOK l ->
  Z.of_nat (length (o_tag l seq x)) = mac_length mac /\ bytesOK (o_tag l seq x).
Proof using HM.
  unfold o_tag, mac_length. destruct mac as [m|]; [|intros _; split; [done|constructor]].
  intros Hb. destruct (me_mac m eq_refl) as [_ Ht _ _ _ _]. apply Ht. apply Forall_app. split; [|done]. unfold PUT_32BIT_MSB_FIRST. repeat constructor; apply Z.mod_pos_bound; lia.
Qed.

Lemma tag_same l seq x y : same_key x y -> o_tag l seq x = o_tag l seq y.
Proof. unfold same_key, o_tag. destruct mac; [|done]. intros H. by rewrite H. Qed.

Lemma verify_ok l seq x y : bytesOK l -> same_key x y ->
  exists y', o_verify l (o_tag l seq x) seq y = Ok (true, y') /\ same_key y y' /\
    forall z, in_step z y -> in_step z y'.
Proof using HM.
  intros Hb Hk. rewrite (tag_same l seq x y Hk). destruct (tag_length l seq y Hb) as [Hl Hbt].
  pose proof mac_length_bound as Hm. destruct (option_cases mac) as [[m Em]|Em].
  - destruct (prepare_ok m l seq y Em) as (y' & E & Hk' & _ & Hr). exists y'. split_and!; [|done..].
    unfold o_verify, ssh2_mac_verify, ssh2_mac_verresult. rewrite Em.
    unfold mac_length in *. rewrite Em in Hl, Hm.
    rewrite c_assert_true by (apply Z.leb_le; lia). rewrite E, <-Hl, smemeq_ok by done. cbn [res_bind].
    by rewrite bool_decide_eq_true_2.
  - exists y. split_and!; [|done..]. unfold o_verify. by rewrite Em.
Qed.

(** The check of a code in the middle of the data leaves its state as it is. *)
Lemma verresult_ok m x l : mac = Some m -> bytesOK l -> Z.of_nat (length l) = ma_len m -> bytesOK (data x) ->
  exists x', ssh2_mac_verresult m x l = Ok (bool_decide (tag (key x) (data x) = l), x') /\
    key x' = key x /\ data x' = data x /\ forall y, in_step y x -> in_step y x'.
Proof using HM.
  intros Em Hb Hl Hd. destruct (me_mac m Em) as [Hlen Ht _ _ Hg _]. destruct (Hg x) as (x' & E & Hk & Hx).
  destruct (Ht (key x) (data x) Hd) as [Hlt Hbt]. exists x'. unfold ssh2_mac_verresult.
  rewrite c_assert_true by (apply Z.leb_le; lia). rewrite E, <-Hlt, smemeq_ok by (done || lia). cbn [res_bind].
  split_and!; [done..|]. intros y Hy. replace x' with (ma_genresult m x).2 by (by rewrite E). by apply gen_right.
Qed.

(** The same for one more piece of the data. *)
Lemma decrypt_put_ok m x y l e x' : mac = Some m -> in_step x y -> bytesOK l -> blocks (cipher_block cipher) l ->
  o_encrypt l x = (e, x') ->
  exists y', o_decrypt e y = (l, y') /\ length e = length l /\ bytesOK e /\ in_step x' (ma_put m l y') /\
    key (ma_put m l y') = key y /\ data (ma_put m l y') = data y ++ l.
Proof using HM.
  intros Em Hs Hb Hl E. destruct (encrypt_ok x y l Hs Hb Hl) as (e' & x2 & y' & E' & Hle & Hbe & D & Hs' & _ & Hk).
  rewrite E in E'. injection E' as <- <-. exists y'. destruct (me_mac m Em) as [_ _ _ Hp _ _].
  destruct (Hp y' l) as [-> ->]. split_and!; try done.
  - apply (mac_right m (ma_put m l)); [done|eauto|done].
  - symmetry. apply Hk. by exists m.
  - f_equal. unfold o_decrypt in D. destruct (option_cases cipher) as [[c Ec]|Ec]; rewrite Ec in D.
    + destruct (me_independent c m Ec Em) as [_ Hd _ _ _ _ _]. destruct (Hd e y) as [_ E2]. by rewrite D in E2.
    + by injection D as _ ->.
Qed.

Lemma next_ok x y : in_step x y -> same_key x y -> in_step (o_next x) (o_next y) /\ same_key (o_next x) (o_next y).
Proof using HM.
  intros Hs Hk. unfold o_next.
  set (x1 := match cipher with Some c => ca_next_message c x | None => x end).
  set (y1 := match cipher with Some c => ca_next_message c y | None => y end).
  assert (H1 : in_step x1 y1).
  { unfold x1, y1, in_step in *. destruct cipher as [c|]; [|by intros []]. intros Hc.
    destruct (me_cipher c eq_refl) as [_ _ _ _ Hn]. by apply Hn, Hs. }
  assert (H2 : same_key x1 y1).
  { intros Hm. unfold x1, y1. destruct cipher as [c|] eqn:Ec; [|by apply Hk]. destruct Hm as [m Em].
    destruct (me_independent c m eq_refl Em) as [_ _ _ _ Hn _ _]. rewrite !Hn. apply Hk. by exists m. }
  destruct (option_cases mac) as [[m Em]|Em]; rewrite Em; [|by split]. split.
  - apply (mac_left m (ma_next_message m)); [done|left; set_solver|].
    apply (mac_right m (ma_next_message m)); [done|left; set_solver|done].
  - intros Hm. destruct (me_mac m Em) as [_ _ _ _ _ Hn]. by apply Hn, H2.
Qed.

End methods.
