(* ===== verification/Bpp2Send.v ===== *)
(** * The binary packet protocol of SSH-2: the form of a packet on the wire *)

From stdpp Require Import gmap.
From S2P Require Import Prelude Callback Bufchain Marshal Strbuf Packet Bpp BppBare BppBareSpec Bpp2 Bpp2Crypto.
Local Open Scope cmodel_scope.
Local Open Scope Z_scope.

(** A packet that was started by [ssh2_bpp_new_pktout] and filled. *)
Definition bpp2_packet (pkt : PktOut) (payload : list Z) : Prop :=
  pkt_holds pkt (replicate 5 0 ++ payload) /\ bytesOK payload.

Lemma bpp2_new_pktout_ok t : is_byte t ->
  exists pkt, ssh2_bpp_new_pktout t = Ok pkt /\ bpp2_packet pkt [t] /\ po_type pkt = t /\ po_minlen pkt = 0.
Proof.
  intros Ht. assert (Hu : u8 t = t) by (apply Z.mod_small; exact Ht).
  unfold ssh2_bpp_new_pktout, BinarySink_put_byte. rewrite Hu.
  eexists. split; [vm_compute; reflexivity|].
  split_and!; [|done|done]. split; [|by apply Forall_singleton].
  split_and!; [done|done|done|done|]. eexists. reflexivity.
Qed.

(** ** Pieces of a packet *)

Lemma put_32_bytes v : bytesOK (PUT_32BIT_MSB_FIRST v).
Proof. unfold PUT_32BIT_MSB_FIRST. repeat constructor; apply Z.mod_pos_bound; lia. Qed.

Lemma store_at pkt a old b new : pkt_holds pkt (a ++ old ++ b) -> length new = length old ->
  exists pkt', pkt_store pkt (Z.of_nat (length a)) new = Ok pkt' /\ pkt_holds pkt' (a ++ new ++ b).
Proof.
  intros Hp Hl. destruct (pkt_store_ok pkt _ (Z.of_nat (length a)) new Hp) as (pkt' & E & _ & H);
    [lia|rewrite !length_app; lia|]. exists pkt'. split; [done|]. rewrite Nat2Z.id, Hl in H.
  rewrite take_app_length in H. rewrite <-drop_drop, drop_app_length, drop_app_length in H. exact H.
Qed.

Lemma update_at {A} pkt a old b (f : list Z -> list Z * A) : pkt_holds pkt (a ++ old ++ b) ->
  length (f old).1 = length old ->
  exists pkt', pkt_update pkt (Z.of_nat (length a)) (Z.of_nat (length old)) f = Ok (pkt', (f old).2) /\
    pkt_holds pkt' (a ++ (f old).1 ++ b).
Proof.
  intros Hp Hl. unfold pkt_update. rewrite (pkt_bytes_ok _ _ Hp). cbn [res_bind].
  rewrite read_at_ok by (rewrite ?length_app; lia). cbn [res_bind]. rewrite !Nat2Z.id, drop_app_length, take_app_length.
  destruct (f old) as [new r]. cbn [fst snd] in *.
  destruct (store_at pkt a old b new Hp Hl) as (pkt' & -> & H). cbn [res_bind]. eauto.
Qed.

Lemma pkt_appends (op : PktOut -> res PktOut) enc pkt c : appends op enc -> pkt_holds pkt c ->
  Z.of_nat (length (c ++ enc)) <= pkt_limit -> exists pkt', op pkt = Ok pkt' /\ pkt_holds pkt' (c ++ enc).
Proof. intros H. exact (H pkt c). Qed.

Lemma put_zeros_ok n : forall pkt c, pkt_holds pkt c -> Z.of_nat (length c + n) <= pkt_limit ->
  exists pkt', put_zeros n pkt = Ok pkt' /\ pkt_holds pkt' (c ++ replicate n 0).
Proof.
  induction n as [|n IH]; intros pkt c Hp Hl; cbn [put_zeros replicate].
  { exists pkt. by rewrite app_nil_r. }
  destruct (pkt_appends _ _ pkt c (appends_byte 0) Hp) as (pkt1 & -> & Hp1); [rewrite length_app; cbn; unfold pkt_limit in *; lia|].
  cbn [res_bind]. destruct (IH pkt1 (c ++ [0]) Hp1) as (pkt2 & -> & Hp2); [rewrite length_app; cbn; lia|].
  exists pkt2. split; [done|]. by rewrite <-app_assoc in Hp2.
Qed.

Lemma put_padding_ok pkt c n : pkt_holds pkt c -> 0 <= n -> Z.of_nat (length c) + n <= pkt_limit ->
  exists pkt', BinarySink_put_padding pkt n 0 = Ok pkt' /\ pkt_holds pkt' (c ++ replicate (Z.to_nat n) 0).
Proof.
  intros Hp Hn Hl. apply (pkt_appends _ _ pkt c (put_padding_appends n 0) Hp). rewrite length_app, length_replicate. lia.
Qed.

(** ** The parts of the formatting *)

(** The generator gives as many bytes as it is asked for. *)
Class RandomLaws {R} (random_read : Z -> R -> list Z * R) : Prop :=
  r_read n r : 0 <= n -> Z.of_nat (length (random_read n r).1) = n /\ bytesOK (random_read n r).1.

Section sending.
  Context {X ZC ZD R : Type} (random_read : Z -> R -> list Z * R) `{HR : !RandomLaws random_read}.
  Implicit Types (tx : @bpp2_tx X ZC ZD R).

Definition tx_crypto tx (x : X) := set_out tx (dir_set_crypto (tx_out tx) x).
Definition tx_rand tx (r : R) := MkTx (tx_stats tx) (tx_cbc_ignore_workaround tx) (tx_out tx) (tx_out_comp tx) r.

Lemma tx_crypto_same tx : tx_crypto tx (d_crypto (tx_out tx)) = tx.
Proof. by destruct tx as [? ? [] ? ?]. Qed.

Lemma put_random_ok tx pkt c n : pkt_holds pkt c -> 0 <= n -> Z.of_nat (length c) + n <= pkt_limit ->
  exists pkt', put_random random_read tx pkt n = Ok (pkt', tx_rand tx (random_read n (tx_random tx)).2) /\
    pkt_holds pkt' (c ++ (random_read n (tx_random tx)).1).
Proof using HR.
  intros Hp Hn Hl. unfold put_random.
  destruct (put_zeros_ok (Z.to_nat n) pkt c Hp) as (pkt1 & -> & Hp1); [lia|]. cbn [res_bind].
  destruct (r_read n (tx_random tx) Hn) as [Hlr _]. destruct (random_read n (tx_random tx)) as [bytes r].
  cbn [fst snd] in *. pose proof Hp as (_ & -> & _).
  rewrite <-(app_nil_r (replicate _ _)) in Hp1.
  destruct (store_at pkt1 c (replicate (Z.to_nat n) 0) [] bytes Hp1) as (pkt2 & -> & Hp2);
    [rewrite length_replicate; lia|]. cbn [res_bind]. rewrite app_nil_r in Hp2. by exists pkt2.
Qed.

Lemma out_encrypt_at tx pkt a old b e x' : pkt_holds pkt (a ++ old ++ b) ->
  o_encrypt (cipher := d_cipher (tx_out tx)) old (d_crypto (tx_out tx)) = (e, x') -> length e = length old ->
  exists pkt', out_encrypt tx pkt (Z.of_nat (length a)) (Z.of_nat (length old)) = Ok (pkt', tx_crypto tx x') /\
    pkt_holds pkt' (a ++ e ++ b).
Proof.
  intros Hp E Hl. unfold out_encrypt, o_encrypt in *. destruct (d_cipher (tx_out tx)) as [c|].
  - destruct (update_at pkt a old b (fun old => ca_encrypt c old (d_crypto (tx_out tx))) Hp) as (pkt' & E' & H);
      [by rewrite E|]. rewrite E' in *. rewrite E in *. cbn [res_bind fst snd] in *. by exists pkt'.
  - injection E as <- <-. exists pkt. by rewrite tx_crypto_same.
Qed.

Lemma out_encrypt_length_at tx pkt old b e x' : pkt_holds pkt (old ++ b) -> length old = 4%nat ->
  o_encrypt_length (cipher := d_cipher (tx_out tx)) old (d_sequence (tx_out tx)) (d_crypto (tx_out tx)) = (e, x') ->
  length e = 4%nat ->
  exists pkt', out_encrypt_length tx pkt = Ok (pkt', tx_crypto tx x') /\ pkt_holds pkt' (e ++ b).
Proof.
  intros Hp Hl E He. unfold out_encrypt_length, o_encrypt_length in *. destruct (d_cipher (tx_out tx)) as [c|].
  2: { injection E as <- <-. exists pkt. by rewrite tx_crypto_same. }
  destruct (cipher_flag c _).
  - destruct (update_at pkt [] old b (fun old => ca_encrypt_length c old (d_sequence (tx_out tx)) (d_crypto (tx_out tx))) Hp)
      as (pkt' & E' & H); [rewrite E; cbn; congruence|]. rewrite Hl in E'.
    change (Z.of_nat 4) with 4 in E'. change (Z.of_nat (length [])) with 0 in E'. rewrite E' in *. rewrite E in *.
    cbn [res_bind fst snd app] in *. by exists pkt'.
  - injection E as <- <-. exists pkt. by rewrite tx_crypto_same.
Qed.

Lemma out_generate_at tx pkt blk old tg x' : pkt_holds pkt (blk ++ old) ->
  o_generate (mac := d_mac (tx_out tx)) blk (d_sequence (tx_out tx)) (d_crypto (tx_out tx)) = (tg, x') ->
  length tg = length old ->
  exists pkt', out_generate tx pkt (Z.of_nat (length blk)) = Ok (pkt', tx_crypto tx x') /\ pkt_holds pkt' (blk ++ tg).
Proof.
  intros Hp E Hl. unfold out_generate, o_generate in *. destruct (d_mac (tx_out tx)) as [m|].
  - rewrite (pkt_bytes_ok _ _ Hp). cbn [res_bind]. rewrite read_at_ok by (rewrite ?length_app; lia). cbn [res_bind].
    rewrite Nat2Z.id. change (drop (Z.to_nat 0) (blk ++ old)) with (blk ++ old). rewrite take_app_length, E.
    rewrite <-(app_nil_r old) in Hp. destruct (store_at pkt blk old [] tg Hp Hl) as (pkt' & -> & H).
    cbn [res_bind]. rewrite app_nil_r in H. by exists pkt'.
  - injection E as <- <-. destruct old; [|done]. exists pkt. by rewrite tx_crypto_same.
Qed.

(** ** The whole packet *)

(** The code covers the encrypted packet. *)
Definition dir_etm (d : ssh2_bpp_direction X ZC ZD) : bool :=
  match d_mac d with Some _ => d_etm_mode d | None => false end.

(** How many random bytes follow a payload of [n] bytes. *)
Definition pad_length (blk : Z) (etm : bool) (n : nat) : Z :=
  4 + (blk - (5 + Z.of_nat n - (if etm then 4 else 0) + 4) mod blk) mod blk.

Definition frame_field (z r : list Z) : list Z := PUT_32BIT_MSB_FIRST (1 + Z.of_nat (length z) + Z.of_nat (length r)).
Definition frame_body (z r : list Z) : list Z := Z.of_nat (length r) :: z ++ r.

(** What is sent for the length field and the rest of a packet. *)
Definition seal (d : ssh2_bpp_direction X ZC ZD) (field body : list Z) : list Z * X :=
  if dir_etm d then
    let '(lf, x) := o_encrypt_length (cipher := d_cipher d) field (d_sequence d) (d_crypto d) in
    let '(c, x) := o_encrypt (cipher := d_cipher d) body x in
    let '(tg, x) := o_generate (mac := d_mac d) (lf ++ c) (d_sequence d) x in
    (lf ++ c ++ tg, x)
  else
    let '(tg, x) := o_generate (mac := d_mac d) (field ++ body) (d_sequence d) (d_crypto d) in
    let '(c, x) := o_encrypt (cipher := d_cipher d) (field ++ body) x in
    (c ++ tg, x).

Lemma pad_length_ok blk etm n : 8 <= blk ->
  4 <= pad_length blk etm n <= blk + 3 /\
  (5 + Z.of_nat n + pad_length blk etm n - (if etm then 4 else 0)) mod blk = 0.
Proof.
  intros Hb. unfold pad_length. set (a := 5 + Z.of_nat n - (if etm then 4 else 0) + 4).
  pose proof (Z.mod_pos_bound (blk - a mod blk) blk ltac:(lia)). split; [lia|].
  replace (5 + Z.of_nat n + (4 + (blk - a mod blk) mod blk) - (if etm then 4 else 0))
    with (a + (blk - a mod blk) mod blk) by (unfold a; lia).
  rewrite Zplus_mod_idemp_r. replace (a + (blk - a mod blk)) with (blk * (1 + a / blk)).
  - rewrite Z.mul_comm. apply Z_mod_mult.
  - pose proof (Z.div_mod a blk ltac:(lia)). lia.
Qed.

Lemma frame_length z r : length (frame_field z r ++ frame_body z r) = (5 + length z + length r)%nat.
Proof. unfold frame_body. rewrite length_app. cbn [length]. rewrite length_app. cbn. lia. Qed.

Lemma frame_bytes z r : bytesOK z -> bytesOK r -> Z.of_nat (length r) < 256 ->
  bytesOK (frame_field z r) /\ bytesOK (frame_body z r).
Proof.
  intros Hz Hr Hl. split; [apply put_32_bytes|]. constructor; [unfold is_byte; lia|]. by apply Forall_app.
Qed.

(** The packet with its padding and its length fields, before it is encrypted. *)
Lemma frame_ok tx pkt z padding : bpp2_packet pkt z -> 0 <= padding < 256 -> Z.of_nat (length z) < 2 ^ 20 ->
  let r := (random_read padding (tx_random tx)).1 in
  exists pkt1 pkt2 pkt3, put_random random_read tx pkt padding =
      Ok (pkt1, tx_rand tx (random_read padding (tx_random tx)).2) /\
    pkt_store pkt1 4 [u8 padding] = Ok pkt2 /\
    pkt_store pkt2 0 (PUT_32BIT_MSB_FIRST (5 + Z.of_nat (length z) + padding - 4)) = Ok pkt3 /\
    pkt_holds pkt3 (frame_field z r ++ frame_body z r) /\ Z.of_nat (length r) = padding /\ bytesOK r.
Proof using HR.
  intros [Hp _] Hpad Hz r. destruct (r_read padding (tx_random tx)) as [Hlr Hbr]; [lia|]. fold r in Hlr, Hbr.
  destruct (put_random_ok tx pkt _ padding Hp) as (pkt1 & -> & Hp1);
    [lia|rewrite length_app, length_replicate; unfold pkt_limit; lia|]. fold r in Hp1.
  rewrite <-app_assoc in Hp1. change (replicate 5 0 ++ z ++ r) with (replicate 4 0 ++ [0] ++ z ++ r) in Hp1.
  destruct (store_at pkt1 (replicate 4 0) [0] (z ++ r) [u8 padding] Hp1) as (pkt2 & E2 & Hp2); [done|].
  destruct (store_at pkt2 [] (replicate 4 0) ([u8 padding] ++ z ++ r) (frame_field z r) Hp2) as (pkt3 & E3 & Hp3); [done|].
  assert (Eu : u8 padding = Z.of_nat (length r)) by (rewrite Hlr; by apply Z.mod_small).
  exists pkt1, pkt2, pkt3. split_and!; [done|exact E2| |by rewrite Eu in Hp3|done|done].
  unfold frame_field in E3. rewrite Hlr in E3. replace (5 + Z.of_nat (length z) + padding - 4) with
    (1 + Z.of_nat (length z) + padding) by lia. exact E3.
Qed.

  Context {K : Type} (keyed : X -> X -> Prop) (key : X -> K) (data : X -> list Z) (tag : K -> list Z -> list Z).

(** A direction whose methods satisfy their laws. *)
Definition lawful (d : ssh2_bpp_direction X ZC ZD) : Prop :=
  Methods (d_cipher d) (d_mac d) (d_etm_mode d) keyed key data tag.

(** A sending and a receiving direction in step. *)
Definition dirs_in_step (dx dy : ssh2_bpp_direction X ZC ZD) : Prop :=
  d_cipher dy = d_cipher dx /\ d_mac dy = d_mac dx /\ d_etm_mode dy = d_etm_mode dx /\
  d_sequence dy = d_sequence dx /\
  in_step (cipher := d_cipher dx) (keyed := keyed) (d_crypto dx) (d_crypto dy) /\
  same_key (mac := d_mac dx) (key := key) (d_crypto dx) (d_crypto dy).

Definition dir_block (d : ssh2_bpp_direction X ZC ZD) : Z := cipher_block (d_cipher d).

Lemma no_separate d l seq x : lawful d -> dir_etm d = false ->
  o_encrypt_length (cipher := d_cipher d) l seq x = (l, x).
Proof.
  intros HM He. unfold lawful in HM. unfold o_encrypt_length. destruct (d_cipher d) as [c|] eqn:Ec; [|done].
  rewrite <-Ec in HM.
  destruct (cipher_flag c _) eqn:Ef; [|done]. exfalso. unfold dir_etm in He.
  destruct (me_separate c Ec Ef) as [E [m Em]]. rewrite Em in He. congruence.
Qed.

(** Encryption and code of a packet that has its length fields. *)
Lemma seal_ok tx pkt field body dy :
  let d := tx_out tx in let total := Z.of_nat (length (field ++ body)) in
  lawful d -> dirs_in_step d dy -> pkt_holds pkt (field ++ body) -> length field = 4%nat ->
  bytesOK field -> bytesOK body -> total < 2 ^ 21 ->
  blocks (dir_block d) (if dir_etm d then body else field ++ body) ->
  exists pkt', (let! x := out_encrypt_length tx pkt in
    let '(pkt, tx) := x in
    let! pkt := BinarySink_put_padding pkt (mac_length (d_mac d)) 0 in
    if dir_etm d then
      let! x := out_encrypt tx pkt 4 (total - 4) in out_generate x.2 x.1 total
    else
      let! x := out_generate tx pkt total in out_encrypt x.2 x.1 0 total) =
      Ok (pkt', tx_crypto tx (seal d field body).2) /\ pkt_holds pkt' (seal d field body).1.
Proof.
  intros d total HM (_ & _ & _ & _ & Hst & _) Hp Hf Hbf Hbb Hl Hblk. unfold lawful in HM.
  pose proof (mac_length_bound (HM := HM)) as Hmac. unfold seal. unfold total in *. clear total.
  destruct (dir_etm d) eqn:Ee.
  - destruct (encrypt_length_ok (HM := HM) _ _ field (d_sequence d) Hst Hbf Hf)
      as (lf & x1 & y1 & E1 & Hl1 & Hb1 & _ & Hst1 & _).
    destruct (encrypt_ok (HM := HM) x1 y1 body Hst1 Hbb Hblk) as (c & x2 & y2 & E2 & Hl2 & Hb2 & _).
    destruct (generate_ok (HM := HM) (lf ++ c) (d_sequence d) x2) as (x3 & E3 & _).
    rewrite E1, E2, E3. cbn [fst snd].
    destruct (out_encrypt_length_at tx pkt field body lf x1 Hp Hf E1 Hl1) as (p1 & -> & Hp1). cbn [res_bind].
    destruct (put_padding_ok p1 _ (mac_length (d_mac d)) Hp1) as (p2 & -> & Hp2);
      [lia|rewrite length_app in *; unfold pkt_limit; lia|]. cbn [res_bind]. rewrite <-app_assoc in Hp2.
    destruct (out_encrypt_at (tx_crypto tx x1) p2 lf body _ c x2 Hp2 E2 Hl2) as (p3 & E & Hp3).
    rewrite Hl1 in E. rewrite length_app, Hf in *. replace (Z.of_nat (4 + length body) - 4) with (Z.of_nat (length body)) by lia.
    change (Z.of_nat 4) with 4 in E. rewrite E. cbn [res_bind fst snd]. rewrite app_assoc in Hp3.
    destruct (tag_length (HM := HM) (lf ++ c) (d_sequence d) x2) as [Hlt _]; [by apply Forall_app|].
    destruct (out_generate_at (tx_crypto (tx_crypto tx x1) x2) p3 (lf ++ c) _ _ x3 Hp3 E3) as (p4 & E' & Hp4);
      [rewrite length_replicate; lia|]. rewrite length_app, Hl1, Hl2 in E'. rewrite E'. exists p4.
    split; [done|]. by rewrite app_assoc.
  - pose proof (no_separate d field (d_sequence d) (d_crypto d) HM Ee) as E1.
    destruct (generate_ok (HM := HM) (field ++ body) (d_sequence d) (d_crypto d)) as (x2 & E2 & _ & Hst2).
    destruct (encrypt_ok (HM := HM) x2 (d_crypto dy) (field ++ body)) as (c & x3 & y3 & E3 & Hl3 & _);
      [by apply Hst2|by apply Forall_app|done|]. rewrite E2, E3. cbn [fst snd].
    destruct (out_encrypt_length_at tx pkt field body field (d_crypto d) Hp Hf E1 Hf) as (p1 & -> & Hp1). cbn [res_bind].
    rewrite tx_crypto_same.
    destruct (put_padding_ok p1 _ (mac_length (d_mac d)) Hp1) as (p2 & -> & Hp2); [lia|unfold pkt_limit; lia|].
    cbn [res_bind]. destruct (tag_length (HM := HM) (field ++ body) (d_sequence d) (d_crypto d)) as [Hlt _]; [by apply Forall_app|].
    destruct (out_generate_at tx p2 (field ++ body) _ _ x2 Hp2 E2) as (p3 & -> & Hp3); [rewrite length_replicate; lia|].
    cbn [res_bind fst snd].
    destruct (out_encrypt_at (tx_crypto tx x2) p3 [] (field ++ body) _ c x3 Hp3 E3 Hl3) as (p4 & E & Hp4).
    change (Z.of_nat (length [])) with 0 in E. rewrite E. by exists p4.
Qed.

(** What is sent for a payload after compression, and the state of the sender. *)
Lemma format_inner_ok tx tx1 pkt pkt1 z dy : compress_payload tx pkt = Ok (pkt1, tx1) ->
  tx_out tx1 = tx_out tx -> bpp2_packet pkt1 z -> Z.of_nat (length z) < 2 ^ 20 ->
  lawful (tx_out tx) -> dirs_in_step (tx_out tx) dy ->
  let d := tx_out tx in
  let padding := pad_length (dir_block d) (dir_etm d) (length z) in
  let r := (random_read padding (tx_random tx1)).1 in
  let w := seal d (frame_field z r) (frame_body z r) in
  exists pkt', ssh2_bpp_format_packet_inner random_read tx pkt =
      Ok (pkt', MkTx (dts_consume (tx_stats tx1) (5 + Z.of_nat (length z) + padding))
                  (tx_cbc_ignore_workaround tx1) (dir_next_message (dir_set_crypto d w.2)) (tx_out_comp tx1)
                  (random_read padding (tx_random tx1)).2) /\
    pkt_holds pkt' w.1 /\ Z.of_nat (length r) = padding /\ bytesOK r.
Proof using HR.
  intros Hc Hout Hp Hz HM Hdir d padding r w. unfold lawful in HM.
  pose proof (cipher_block_bound (cipher := d_cipher d) (HM := HM)) as Hblk. pose proof (mac_length_bound (HM := HM)) as Hmac.
  destruct (pad_length_ok (dir_block d) (dir_etm d) (length z)) as [Hpad Hmod]; [unfold dir_block; lia|].
  fold padding in Hpad, Hmod. unfold dir_block in Hpad.
  unfold ssh2_bpp_format_packet_inner. rewrite Hc. cbn [res_bind]. rewrite Hout. fold d.
  pose proof (proj1 Hp) as (_ & Hlen & _). rewrite length_app, length_replicate, Nat2Z.inj_add in Hlen.
  change (Z.of_nat 5) with 5 in Hlen. rewrite Hlen. fold (dir_etm d).
  change (if match d_cipher d with Some c => ca_blksize c | None => 8 end <? 8 then 8
    else match d_cipher d with Some c => ca_blksize c | None => 8 end) with (dir_block d).
  change (4 + (dir_block d - (5 + Z.of_nat (length z) - (if dir_etm d then 4 else 0) + 4) mod dir_block d) mod dir_block d)
    with padding.
  rewrite c_assert_true by (apply Z.leb_le; lia).
  destruct (frame_ok tx1 pkt1 z padding Hp) as (p1 & p2 & p3 & -> & E2 & E3 & Hp3 & Hlr & Hbr); [lia|lia|].
  fold r in Hp3, Hlr, Hbr. cbn [res_bind]. rewrite E2. cbn [res_bind]. rewrite E3. cbn [res_bind].
  pose proof (frame_length z r) as Hfl. pose proof (proj2 Hp) as Hbz.
  destruct (frame_bytes z r Hbz Hbr) as [Hbf Hbb]; [lia|].
  set (tx2 := tx_rand tx1 _). assert (Ed : tx_out tx2 = d) by exact Hout.
  destruct (seal_ok tx2 p3 (frame_field z r) (frame_body z r) dy) as (pkt' & E & Hp'); rewrite ?Ed;
    [done|done|done|done|done|done|lia| |].
  { unfold blocks, frame_field in *. rewrite length_app in Hfl. destruct (dir_etm d); rewrite ?length_app; rewrite <-Hmod; f_equal;
      change (length (PUT_32BIT_MSB_FIRST _)) with 4%nat in *; lia. }
  rewrite Ed in E, Hp'. rewrite Hfl in E.
  replace (Z.of_nat (5 + length z + length r)) with (5 + Z.of_nat (length z) + padding) in E by lia.
  replace (out_mac_len tx1) with (mac_length (d_mac d)) by (unfold out_mac_len; by rewrite Hout).
  exists pkt'. split_and!; [|exact Hp'|done|done].
  apply res_bind_Ok in E as ([p4 tx4] & -> & E). cbn [res_bind]. apply res_bind_Ok in E as (p5 & -> & E).
  cbn [res_bind]. rewrite E. cbn [res_bind]. unfold tx_crypto. by rewrite Ed.
Qed.

End sending.
