(* ===== verification/Bpp2Recv.v ===== *)
(** * The binary packet protocol of SSH-2: how a packet is received *)

From Stdlib Require Import String.
From stdpp Require Import gmap.
From S2P Require Import Prelude Callback Bufchain Marshal Strbuf ConfData Filename Ptrlen Packet Bpp BppBare.
From S2P Require Import BppBareSpec Bpp2 Bpp2Crypto Bpp2Send.
Local Open Scope string_scope.
Local Open Scope cmodel_scope.
Local Open Scope list_scope.
Local Open Scope Z_scope.

(** ** Blocks of memory *)

Lemma block_write_at size a old b new off : off = Z.of_nat (length a) -> length new = length old ->
  Z.of_nat (length (a ++ old)) <= size ->
  block_write (Block size (a ++ old ++ b)) off new = Ok (Block size (a ++ new ++ b)).
Proof.
  intros -> Hl Hs. unfold block_write. cbn [bl_bytes bl_size]. rewrite length_app in Hs.
  rewrite !(proj2 (Z.leb_le _ _)) by (rewrite ?length_app; lia). cbn [andb].
  by rewrite Nat2Z.id, Hl, take_app_length, <-drop_drop, !drop_app_length.
Qed.

Lemma block_append size l d off : off = Z.of_nat (length l) -> Z.of_nat (length (l ++ d)) <= size ->
  block_write (Block size l) off d = Ok (Block size (l ++ d)).
Proof. intros ->. apply block_write_end. Qed.

Lemma read_at_app a m b p n : p = Z.of_nat (length a) -> n = Z.of_nat (length m) ->
  read_at (a ++ m ++ b) p n = Ok m.
Proof. intros -> ->. rewrite read_at_ok by (rewrite ?length_app; lia). by rewrite !Nat2Z.id, drop_app_length, take_app_length. Qed.

(** Types that are passed on and nothing else. *)
Definition plain_type (t : Z) : Prop :=
  t ∈ SSH2_MESSAGE_TYPES /\ t <> SSH2_MSG_EXT_INFO /\ t <> SSH2_MSG_NEWKEYS /\ t <> SSH2_MSG_USERAUTH_SUCCESS.

Section receiving.
  Context {X ZC ZD R : Type}.
  Implicit Types (s : ssh2_bpp_state X ZC ZD R) (d : ssh2_bpp_direction X ZC ZD) (x : X).

Notation rx_dir s := (rx_in (s2_rx s)).

(** [de] makes [p] of the bytes [z]. *)
Definition inflates (de : option (ssh_decompressor ZC ZD)) (z p : list Z) (de' : option (ssh_decompressor ZC ZD)) : Prop :=
  match de with
  | None => z = p /\ de' = None
  | Some dc => exists st, za_decompress (de_vt dc) (de_state dc) z = Ok (Some p, st) /\
                 de' = Some (MkDecompressor (de_vt dc) st)
  end.

(** The message [m] has been queued, and the next packet is awaited. *)
Definition took s s' (m : message) d' de' : Prop :=
  rx_crState (s2_rx s') = CR_START /\ rx_dir s' = d' /\ rx_in_decomp (s2_rx s') = de' /\
  pq_packets (b_in_pq (s2_bpp s')) = pq_packets (b_in_pq (s2_bpp s)) ++ [received m (d_sequence (rx_dir s))] /\
  fl_enforce_next_packet_is_userauth_success (s2_flags s') = false /\ bpp2_at_eof s' = bpp2_at_eof s.

Lemma queued_ok s t : plain_type t -> fl_enforce_next_packet_is_userauth_success (s2_flags s) = false ->
  exists s', packet_queued s t = Ok (Continue s') /\ rx_crState (s2_rx s') = CR_START /\ rx_dir s' = rx_dir s /\
    rx_in_decomp (s2_rx s') = rx_in_decomp (s2_rx s) /\ b_in_pq (s2_bpp s') = b_in_pq (s2_bpp s) /\
    fl_enforce_next_packet_is_userauth_success (s2_flags s') = false /\ bpp2_at_eof s' = bpp2_at_eof s.
Proof.
  intros (_ & Hx & Hn & Hu) He. unfold packet_queued. rewrite He. cbn [andb].
  rewrite !(proj2 (Z.eqb_neq _ _)) by done. cbn [andb res_bind set_flags s2_flags fl_pending_compression].
  eexists. split; [reflexivity|]. by destruct (_ && _).
Qed.

(** The message has been queued; what depends on its type follows. *)
Definition queued s s1 (m : message) de' : Prop :=
  rx_dir s1 = dir_next_message (rx_dir s) /\ rx_in_decomp (s2_rx s1) = de' /\
  pq_packets (b_in_pq (s2_bpp s1)) = pq_packets (b_in_pq (s2_bpp s)) ++ [received m (d_sequence (rx_dir s))] /\
  s2_flags s1 = s2_flags s /\ bpp2_at_eof s1 = bpp2_at_eof s.

(** What is done with a decrypted packet. *)
Lemma packet_read_ok s field z r extra size m de' :
  length field = 4%nat -> 4 <= Z.of_nat (length r) < 256 -> z <> [] -> Z.of_nat (length z) < 2 ^ 20 ->
  inflates (rx_in_decomp (s2_rx s)) z (m.1 :: m.2) de' -> Z.of_nat (length m.2) < SIZE_T -> m.1 ∈ SSH2_MESSAGE_TYPES ->
  let len := 1 + Z.of_nat (length z) + Z.of_nat (length r) in
  exists s1, packet_read s len (len + 4) (Block size (field ++ frame_body z r ++ extra)) = packet_queued s1 m.1 /\
    queued s s1 m de'.
Proof.
  intros Hf Hr Hz Hlz Hinf Hm Ht len. assert (0 < Z.of_nat (length z)) by (destruct z; [done|cbn; lia]).
  unfold packet_read. cbn [bl_bytes]. unfold frame_body.
  change (field ++ (Z.of_nat (length r) :: z ++ r) ++ extra) with (field ++ [Z.of_nat (length r)] ++ (z ++ r) ++ extra).
  rewrite read_at_app by (done || lia). cbn [res_bind nth].
  rewrite (proj2 (Z.ltb_ge _ _)), (proj2 (Z.ltb_ge _ _)) by lia. cbn [orb].
  rewrite c_assert_true by (apply Z.leb_le; lia).
  replace (len + 4 - Z.of_nat (length r) - 5) with (Z.of_nat (length z)) by lia.
  rewrite app_assoc, <-(app_assoc z), read_at_app by (done || rewrite length_app; cbn; lia). cbn [res_bind rx_in_decomp].
  set (x := match rx_in_decomp (s2_rx s) with None => _ | Some _ => _ end).
  assert (Ex : x = Ok (m.1 :: m.2, de')).
  { unfold x, inflates in *. destruct (rx_in_decomp (s2_rx s)) as [dc|].
    - destruct Hinf as (st & -> & ->). done.
    - by destruct Hinf as [-> ->]. }
  rewrite Ex. cbn [res_bind]. rewrite check_known by done. cbn [res_bind fst snd].
  rewrite get_avail_init by done. eexists. split; [done|]. by split_and!.
Qed.

(** A NEWKEYS message: nothing more is read until there are new keys. *)
Lemma newkeys_ok s : fl_enforce_next_packet_is_userauth_success (s2_flags s) = false ->
  exists s', packet_queued s SSH2_MSG_NEWKEYS = Ok (Return s') /\ rx_crState (s2_rx s') = CR_NEWKEYS /\
    fl_pending_newkeys (s2_flags s') = true /\ rx_dir s' = rx_dir s /\
    rx_in_decomp (s2_rx s') = rx_in_decomp (s2_rx s) /\ b_in_pq (s2_bpp s') = b_in_pq (s2_bpp s) /\
    fl_enforce_next_packet_is_userauth_success (s2_flags s') = false /\ bpp2_at_eof s' = bpp2_at_eof s /\
    fl_seen_userauth_success (s2_flags s') = fl_seen_userauth_success (s2_flags s).
Proof. intros He. unfold packet_queued. rewrite He. cbn [andb]. eexists. split; [reflexivity|]. by split_and!. Qed.

Lemma set_in_crypto_same s : set_in_crypto s (d_crypto (rx_dir s)) = s.
Proof. by destruct s as [[? ? ? [] ?] ? ? ?]. Qed.

Lemma in_decrypt_ok s l : in_decrypt s l =
  ((o_decrypt (cipher := d_cipher (rx_dir s)) l (d_crypto (rx_dir s))).1,
   set_in_crypto s (o_decrypt (cipher := d_cipher (rx_dir s)) l (d_crypto (rx_dir s))).2).
Proof.
  unfold in_decrypt, o_decrypt. destruct (d_cipher _) as [c|]; cbn [fst snd].
  - by destruct (ca_decrypt _ _ _).
  - by rewrite set_in_crypto_same.
Qed.

Lemma in_verify_ok s size blk tg rest len y' : len + 4 = Z.of_nat (length blk) ->
  o_verify (mac := d_mac (rx_dir s)) blk tg (d_sequence (rx_dir s)) (d_crypto (rx_dir s)) = Ok (true, y') ->
  in_verify s (Block size (blk ++ tg ++ rest)) len (Z.of_nat (length tg)) = Ok (true, set_in_crypto s y').
Proof.
  intros Hl E. unfold in_verify, o_verify in *. destruct (d_mac (rx_dir s)) as [m|].
  - cbn [bl_bytes]. rewrite Hl. change 0 with (Z.of_nat (length (@nil Z))).
    change (blk ++ tg ++ rest) with ([] ++ blk ++ (tg ++ rest)) at 1. rewrite read_at_app by done. cbn [res_bind].
    rewrite read_at_app by done. cbn [res_bind]. rewrite E. done.
  - injection E as <-. by rewrite set_in_crypto_same.
Qed.

End receiving.

(** ** The three ways to find a packet in the stream *)

Notation rx_dir s := (rx_in (s2_rx s)).
Notation bpp2_leads := (leads bpp2_read_len bpp2_after_read bpp2_no_read).

Section modes.
  Context {X ZC ZD R K : Type}.
  Context (keyed : X -> X -> Prop) (key : X -> K) (data : X -> list Z) (tag : K -> list Z -> list Z).
  Implicit Types (s : ssh2_bpp_state X ZC ZD R) (d dx : ssh2_bpp_direction X ZC ZD) (x y : X).

(** The length of a packet is found by looking for its code. *)
Definition dir_cbc d : bool :=
  match d_cipher d, d_mac d with Some c, Some _ => cipher_flag c SSH_CIPHER_IS_CBC | _, _ => false end.

Definition dir_framing d : framing := MkFraming (dir_block d) (mac_length (d_mac d)).

(** The first read of a packet. *)
Definition first_point d : bpp2_point :=
  if dir_etm d then CR_ETM_LENGTH (dir_framing d)
  else if dir_cbc d then CR_CBC_MAC (dir_framing d) else CR_STD_FIRST (dir_framing d).

Definition first_size d : Z :=
  if dir_etm d then 4 else if dir_cbc d then OUR_V2_PACKETLIMIT + mac_length (d_mac d) else dir_block d.

Definition started s : ssh2_bpp_state X ZC ZD R :=
  set_rx s (MkRx (first_point (rx_dir s)) (Z.max (rx_bufsize (s2_rx s)) (first_size (rx_dir s)))
              (rx_stats (s2_rx s)) (rx_dir s) (rx_in_decomp (s2_rx s))).

Lemma start_ok s : start_packet s = Ok (Continue (started s)).
Proof.
  assert (Hmax : forall a b, (if a <? b then b else a) = Z.max a b).
  { intros a b. destruct (Z.ltb_spec a b); lia. }
  unfold start_packet, started, first_point, first_size, dir_etm, dir_cbc, dir_framing, dir_block, cipher_block, mac_length.
  destruct (d_cipher (rx_dir s)) as [c|], (d_mac (rx_dir s)) as [m|], (d_etm_mode (rx_dir s)); rewrite ?Hmax; try done.
  by destruct (cipher_flag c SSH_CIPHER_IS_CBC); rewrite ?Hmax.
Qed.

Lemma leads_start s l : rx_crState (s2_rx s) = CR_START -> bpp2_leads s l (started s) l.
Proof.
  intros Hc. apply leads_no_read; [unfold bpp2_read_len|unfold bpp2_no_read]; rewrite Hc; [done|apply start_ok].
Qed.

(** A packet of [z] with the padding [r] that the receiver can find in the stream. *)
Record framed d (z r : list Z) : Prop := {
  fm_bytes : bytesOK z /\ bytesOK r;
  fm_nonempty : z <> [];
  fm_padding : 4 <= Z.of_nat (length r) < 256;
  fm_blocks : blocks (dir_block d) (if dir_etm d then frame_body z r else frame_field z r ++ frame_body z r);
  fm_limit : Z.of_nat (length (frame_field z r ++ frame_body z r)) <= OUR_V2_PACKETLIMIT
}.

Lemma framed_sizes d z r : framed d z r ->
  length (frame_field z r) = 4%nat /\ Z.of_nat (length (frame_body z r)) = 1 + Z.of_nat (length z) + Z.of_nat (length r) /\
  Z.of_nat (length z) < 2 ^ 20 /\ 5 + Z.of_nat (length z) + Z.of_nat (length r) <= OUR_V2_PACKETLIMIT /\
  bytesOK (frame_field z r) /\ bytesOK (frame_body z r).
Proof.
  intros [[Hbz Hbr] _ Hr _ Hl]. rewrite frame_length in Hl. destruct (frame_bytes z r Hbz Hbr) as [Hf Hb]; [lia|].
  split_and!; [done| | |lia|done|done].
  - unfold frame_body. cbn [length]. rewrite length_app. lia.
  - unfold OUR_V2_PACKETLIMIT in Hl. lia.
Qed.

(** The rounds up to the last read of a packet, after which [s4] has it decrypted and checked. *)
Definition finds s (w rest z r : list Z) (y : X) s4 : Prop :=
  let len := 1 + Z.of_nat (length z) + Z.of_nat (length r) in
  exists sk last f4 extra size, bpp2_leads s (w ++ rest) sk (last ++ rest) /\
    bpp2_read_len sk = Some (Z.of_nat (length last)) /\
    bpp2_after_read sk last = packet_read s4 len (len + 4) (Block size (f4 ++ frame_body z r ++ extra)) /\
    length f4 = 4%nat /\ rx_dir s4 = dir_set_crypto (rx_dir s) y /\
    rx_in_decomp (s2_rx s4) = rx_in_decomp (s2_rx s) /\ b_in_pq (s2_bpp s4) = b_in_pq (s2_bpp s) /\
    s2_flags s4 = s2_flags s /\ bpp2_at_eof s4 = bpp2_at_eof s.

(** The packet is found, and the sender's state is in step with the receiver's. *)
Definition delivers s dx (z r : list Z) (rest : list Z) : Prop :=
  let w := seal dx (frame_field z r) (frame_body z r) in
  exists s4 y', finds s w.1 rest z r y' s4 /\
    in_step (cipher := d_cipher dx) (keyed := keyed) w.2 y' /\ same_key (mac := d_mac dx) (key := key) w.2 y'.

Lemma field_value z r : 1 + Z.of_nat (length z) + Z.of_nat (length r) < 2 ^ 31 ->
  toint (GET_32BIT_MSB_FIRST (frame_field z r)) = 1 + Z.of_nat (length z) + Z.of_nat (length r).
Proof. intros H. apply get_put_small. lia. Qed.

(** *** The code covers the encrypted packet *)

Lemma etm_length_ok s fr lf y1 field len : length lf = 4%nat ->
  o_decrypt_length (cipher := d_cipher (rx_dir s)) lf (d_sequence (rx_dir s)) (d_crypto (rx_dir s)) = (field, y1) ->
  toint (GET_32BIT_MSB_FIRST field) = len -> 0 <= len <= OUR_V2_PACKETLIMIT -> len mod fr_cipherblk fr = 0 ->
  0 <= fr_maclen fr ->
  etm_length s fr lf = Ok (Continue (at_point (set_in_crypto s y1)
    (CR_ETM_REST fr len (Block (OUR_V2_PACKETLIMIT + fr_maclen fr) lf)))).
Proof.
  intros Hl E Hlen Hb Hm Hmac. unfold etm_length.
  assert (Ex : match d_cipher (rx_dir s) with
    | Some c => if cipher_flag c SSH_CIPHER_SEPARATE_LENGTH
                then let '(field, x) := ca_decrypt_length c lf (d_sequence (rx_dir s)) (d_crypto (rx_dir s)) in (field, set_in_crypto s x)
                else (lf, s)
    | None => (lf, s) end = (field, set_in_crypto s y1)).
  { unfold o_decrypt_length in E. destruct (d_cipher (rx_dir s)) as [c|].
    - destruct (cipher_flag c _); [by rewrite E|]. injection E as <- <-. by rewrite set_in_crypto_same.
    - injection E as <- <-. by rewrite set_in_crypto_same. }
  rewrite Ex, Hlen, (proj2 (Z.ltb_ge _ _)), (proj2 (Z.ltb_ge _ _)), Hm by lia. cbn [orb negb Z.eqb].
  rewrite (block_write_end _ [] lf) by (cbn [app]; unfold OUR_V2_PACKETLIMIT; lia). done.
Qed.

Lemma etm_rest_ok s fr lf c tg y2 body y3 len : length lf = 4%nat -> len = Z.of_nat (length c) -> length body = length c ->
  len + 4 <= OUR_V2_PACKETLIMIT -> fr_maclen fr = Z.of_nat (length tg) ->
  o_verify (mac := d_mac (rx_dir s)) (lf ++ c) tg (d_sequence (rx_dir s)) (d_crypto (rx_dir s)) = Ok (true, y2) ->
  o_decrypt (cipher := d_cipher (rx_dir s)) c y2 = (body, y3) ->
  etm_rest s fr len (Block (OUR_V2_PACKETLIMIT + fr_maclen fr) lf) (c ++ tg) =
    packet_read (set_in_crypto (set_in_crypto s y2) y3) len (len + 4)
      (Block (OUR_V2_PACKETLIMIT + fr_maclen fr) (lf ++ body ++ tg)).
Proof.
  intros Hl Hlen Hlb Hlim Hmac Ev Ed. unfold etm_rest.
  rewrite block_append by (rewrite ?length_app; lia). cbn [res_bind].
  assert (Ev' : in_verify s (Block (OUR_V2_PACKETLIMIT + fr_maclen fr) (lf ++ c ++ tg)) len (fr_maclen fr) =
    Ok (true, set_in_crypto s y2)).
  { replace (lf ++ c ++ tg) with ((lf ++ c) ++ tg ++ []) by (by rewrite app_nil_r, app_assoc). rewrite Hmac.
    apply in_verify_ok; [rewrite length_app; lia|done]. }
  rewrite Ev'. cbn [res_bind negb bl_bytes]. rewrite read_at_app by lia. cbn [res_bind].
  rewrite in_decrypt_ok. change (d_crypto (rx_dir (set_in_crypto s y2))) with y2.
  change (d_cipher (rx_dir (set_in_crypto s y2))) with (d_cipher (rx_dir s)). rewrite Ed. cbn [fst snd].
  rewrite block_write_at by (done || rewrite ?length_app; lia). done.
Qed.

(** What both sides do with the bytes. *)
Lemma etm_sealed dx y field body : lawful keyed key data tag dx -> dir_etm dx = true ->
  in_step (cipher := d_cipher dx) (keyed := keyed) (d_crypto dx) y ->
  same_key (mac := d_mac dx) (key := key) (d_crypto dx) y ->
  length field = 4%nat -> bytesOK field -> bytesOK body -> blocks (dir_block dx) body ->
  exists lf c tg x y1 y2 y3, seal dx field body = (lf ++ c ++ tg, x) /\ length lf = 4%nat /\ length c = length body /\
    Z.of_nat (length tg) = mac_length (d_mac dx) /\
    o_decrypt_length (cipher := d_cipher dx) lf (d_sequence dx) y = (field, y1) /\
    o_verify (mac := d_mac dx) (lf ++ c) tg (d_sequence dx) y1 = Ok (true, y2) /\
    o_decrypt (cipher := d_cipher dx) c y2 = (body, y3) /\
    in_step (cipher := d_cipher dx) (keyed := keyed) x y3 /\ same_key (mac := d_mac dx) (key := key) x y3.
Proof.
  intros HM Ee Hst Hk Hlf Hbf Hbb Hbl. unfold lawful in HM. unfold seal. rewrite Ee.
  destruct (encrypt_length_ok (HM := HM) _ _ field (d_sequence dx) Hst Hbf Hlf)
    as (lf & x1 & y1 & E1 & Hl1 & Hb1 & D1 & Hst1 & Hk1x & Hk1y).
  destruct (encrypt_ok (HM := HM) x1 y1 body Hst1 Hbb Hbl) as (c & x2 & _ & E2 & Hl2 & Hb2 & _ & _ & Hk2x & _).
  destruct (generate_ok (HM := HM) (lf ++ c) (d_sequence dx) x2) as (x3 & E3 & Hk3x & Hst3).
  assert (Hkey : same_key (mac := d_mac dx) (key := key) x2 y1).
  { intros Hs. rewrite <-(Hk2x Hs), <-(Hk1x Hs), <-(Hk1y Hs). by apply Hk. }
  assert (Hblc : bytesOK (lf ++ c)) by (by apply Forall_app).
  destruct (verify_ok (HM := HM) (lf ++ c) (d_sequence dx) x2 y1 Hblc Hkey) as (y2 & V & Hk2y & Hst2y).
  destruct (encrypt_ok (HM := HM) x1 y2 body) as (c' & x2' & y3 & E2' & _ & _ & D2 & Hst4 & _ & Hk3y); [by apply Hst2y|done|done|].
  rewrite E2 in E2'. injection E2' as <- <-.
  destruct (tag_length (HM := HM) (lf ++ c) (d_sequence dx) x2 Hblc) as [Hlt _]. rewrite E1, E2, E3.
  eexists lf, c, _, x3, y1, y2, y3. split_and!; try done; [by apply Hst3|].
  intros Hs. rewrite <-(Hk3x Hs), <-(Hk3y Hs), <-(Hk2y Hs). by apply Hkey.
Qed.

Lemma recv_etm s dx z r rest : rx_crState (s2_rx s) = CR_START -> dirs_in_step keyed key dx (rx_dir s) ->
  lawful keyed key data tag dx -> dir_etm dx = true -> framed dx z r -> delivers s dx z r rest.
Proof.
  intros Hc (Edc & Edm & Ede & Eds & Hst & Hk) HM Ee Hac.
  destruct (framed_sizes _ _ _ Hac) as (Hlf & Hlb & Hlz & Hlim & Hbf & Hbb).
  destruct Hac as [[Hbz Hbr] Hne Hr Hbl _]. rewrite Ee in Hbl. unfold delivers.
  set (field := frame_field z r) in *. set (body := frame_body z r) in *.
  destruct (etm_sealed dx (d_crypto (rx_dir s)) field body HM Ee Hst Hk Hlf Hbf Hbb Hbl)
    as (lf & c & tg & x & y1 & y2 & y3 & -> & Hl1 & Hl2 & Hlt & D1 & V & D2 & Hs' & Hk').
  set (len := 1 + Z.of_nat (length z) + Z.of_nat (length r)) in *.
  set (fr := dir_framing (rx_dir s)). assert (Hfm : fr_maclen fr = Z.of_nat (length tg)) by (cbn; by rewrite Edm).
  assert (Hfb : fr_cipherblk fr = dir_block dx) by (cbn; unfold dir_block; by rewrite Edc).
  assert (Efp : first_point (rx_dir s) = CR_ETM_LENGTH fr).
  { unfold first_point, dir_etm in *. by rewrite Edm, Ede, Ee. }
  set (s1 := set_bpp (started s) (b_emit (s2_bpp s) [Ev_check_frozen])).
  assert (A1 : bpp2_after_read (started s) lf = Ok (Continue (at_point (set_in_crypto s1 y1)
    (CR_ETM_REST fr len (Block (OUR_V2_PACKETLIMIT + fr_maclen fr) lf))))).
  { unfold bpp2_after_read. change (rx_crState (s2_rx (set_bpp _ _))) with (first_point (rx_dir s)). rewrite Efp.
    apply (etm_length_ok s1 fr lf y1 field len); [done| | |lia| |lia].
    - change (rx_dir s1) with (rx_dir s). rewrite Edc, Eds. exact D1.
    - apply field_value. unfold OUR_V2_PACKETLIMIT in *. lia.
    - rewrite Hfb, <-Hlb. exact Hbl. }
  set (s2 := at_point (set_in_crypto s1 y1) _) in A1.
  set (s3 := set_bpp s2 (b_emit (s2_bpp s2) [Ev_check_frozen])).
  assert (A2 : bpp2_after_read s2 (c ++ tg) = packet_read (set_in_crypto (set_in_crypto s3 y2) y3) len (len + 4)
    (Block (OUR_V2_PACKETLIMIT + fr_maclen fr) (lf ++ body ++ tg))).
  { apply (etm_rest_ok s3 fr lf c tg y2 body y3 len); try done; try lia;
      change (rx_dir s3) with (dir_set_crypto (rx_dir s) y1); cbn [dir_set_crypto d_mac d_cipher d_sequence d_crypto];
      rewrite ?Edm, ?Eds, ?Edc; done. }
  set (s4 := set_in_crypto (set_in_crypto s3 y2) y3) in A2.
  exists s4, y3. split; [|by split]. exists s2, (c ++ tg), lf, tg, (OUR_V2_PACKETLIMIT + fr_maclen fr).
  split_and!; try done.
  - eapply leads_trans; [by apply leads_start|]. cbn [fst]. rewrite <-!app_assoc. apply leads_read; [|exact A1].
    unfold bpp2_read_len. change (rx_crState (s2_rx (started s))) with (first_point (rx_dir s)). by rewrite Efp, Hl1.
  - cbn. f_equal. rewrite length_app, Edm. lia.
Qed.

(** *** The first block holds the length *)

Lemma std_first_ok s fr c1 p1 y1 field p1' len : Z.of_nat (length c1) = fr_cipherblk fr -> 4 <= fr_cipherblk fr <= rx_bufsize (s2_rx s) ->
  o_decrypt (cipher := d_cipher (rx_dir s)) c1 (d_crypto (rx_dir s)) = (p1, y1) -> p1 = field ++ p1' ->
  length field = 4%nat -> length p1 = length c1 ->
  toint (GET_32BIT_MSB_FIRST field) = len -> 0 <= len <= OUR_V2_PACKETLIMIT -> (len + 4) mod fr_cipherblk fr = 0 ->
  0 <= fr_maclen fr ->
  std_first s fr c1 = Ok (Continue (at_point (set_in_crypto s y1) (CR_STD_REST fr len (Block (len + 4 + fr_maclen fr) p1)))).
Proof.
  intros Hl Hbl E Ep Hf Hp Hlen Hb Hm Hmac. unfold std_first.
  rewrite (block_append _ [] c1) by (done || (cbn [app]; lia)). cbn [res_bind bl_bytes app].
  rewrite in_decrypt_ok, E. cbn [fst snd].
  assert (Er : read_at p1 0 4 = Ok field).
  { rewrite Ep. apply (read_at_app [] field p1'); [done|lia]. }
  rewrite Er. cbn [res_bind]. rewrite Hlen, (proj2 (Z.ltb_ge _ _)), (proj2 (Z.ltb_ge _ _)), Hm by lia. cbn [orb negb Z.eqb].
  assert (fr_cipherblk fr <= len + 4).
  { apply Z.mod_divide in Hm; [|lia]. apply Z.divide_pos_le; [lia|done]. }
  rewrite (block_append _ [] p1) by (done || (cbn [app]; lia)). done.
Qed.

Lemma std_rest_ok s fr p1 c2 tg y1 p2 y2 len : Z.of_nat (length p1) = fr_cipherblk fr ->
  len + 4 = Z.of_nat (length (p1 ++ c2)) -> length p2 = length c2 -> fr_maclen fr = Z.of_nat (length tg) ->
  o_decrypt (cipher := d_cipher (rx_dir s)) c2 (d_crypto (rx_dir s)) = (p2, y1) ->
  o_verify (mac := d_mac (rx_dir s)) (p1 ++ p2) tg (d_sequence (rx_dir s)) y1 = Ok (true, y2) ->
  std_rest s fr len (Block (len + 4 + fr_maclen fr) p1) (c2 ++ tg) =
    packet_read (set_in_crypto (set_in_crypto s y1) y2) len (len + 4) (Block (len + 4 + fr_maclen fr) ((p1 ++ p2) ++ tg)).
Proof.
  intros Hl Hlen Hlp Hmac Ed Ev. unfold std_rest. rewrite length_app in Hlen.
  rewrite block_append by (rewrite ?length_app; lia). cbn [res_bind bl_bytes].
  rewrite read_at_app by lia. cbn [res_bind]. rewrite in_decrypt_ok, Ed. cbn [fst snd].
  rewrite block_write_at by (rewrite ?length_app; lia). cbn [res_bind]. rewrite app_assoc, Hmac.
  replace ((p1 ++ p2) ++ tg) with ((p1 ++ p2) ++ tg ++ []) at 1 by (by rewrite app_nil_r).
  rewrite (in_verify_ok (set_in_crypto s y1) _ (p1 ++ p2) tg [] len y2) by (done || rewrite length_app; lia). done.
Qed.

Lemma std_sealed dx y field body : lawful keyed key data tag dx -> dir_etm dx = false ->
  in_step (cipher := d_cipher dx) (keyed := keyed) (d_crypto dx) y ->
  same_key (mac := d_mac dx) (key := key) (d_crypto dx) y ->
  bytesOK (field ++ body) -> forall p1 p2, field ++ body = p1 ++ p2 -> blocks (dir_block dx) p1 -> blocks (dir_block dx) p2 ->
  exists c1 c2 tg x y1 y2 y3, seal dx field body = ((c1 ++ c2) ++ tg, x) /\ length c1 = length p1 /\ length c2 = length p2 /\
    Z.of_nat (length tg) = mac_length (d_mac dx) /\
    o_decrypt (cipher := d_cipher dx) c1 y = (p1, y1) /\ o_decrypt (cipher := d_cipher dx) c2 y1 = (p2, y2) /\
    o_verify (mac := d_mac dx) (p1 ++ p2) tg (d_sequence dx) y2 = Ok (true, y3) /\
    in_step (cipher := d_cipher dx) (keyed := keyed) x y3 /\ same_key (mac := d_mac dx) (key := key) x y3.
Proof.
  intros HM Ee Hst Hk Hb p1 p2 Ep Hbl1 Hbl2. unfold lawful in HM. unfold seal. rewrite Ee, Ep in *.
  destruct (generate_ok (HM := HM) (p1 ++ p2) (d_sequence dx) (d_crypto dx)) as (x1 & E1 & Hk1 & Hst1).
  pose proof Hb as [Hb1 Hb2]%Forall_app.
  destruct (encrypt_ok (HM := HM) x1 y p1 (Hst1 y Hst) Hb1 Hbl1) as (c1 & x2 & y1 & E2 & Hl1 & _ & D1 & Hst2 & Hk2x & Hk2y).
  destruct (encrypt_ok (HM := HM) x2 y1 p2 Hst2 Hb2 Hbl2) as (c2 & x3 & y2 & E3 & Hl2 & _ & D2 & Hst3 & Hk3x & Hk3y).
  pose proof (encrypt_split (HM := HM) x1 p1 p2 Hbl1 Hbl2) as Es. rewrite E2, E3 in Es.
  assert (Hkey : same_key (mac := d_mac dx) (key := key) (d_crypto dx) y2).
  { intros Hs. rewrite <-(Hk3y Hs), <-(Hk2y Hs). by apply Hk. }
  destruct (verify_ok (HM := HM) (p1 ++ p2) (d_sequence dx) (d_crypto dx) y2 Hb Hkey) as (y3 & V & Hk4y & Hst4).
  destruct (tag_length (HM := HM) (p1 ++ p2) (d_sequence dx) (d_crypto dx) Hb) as [Hlt _]. rewrite E1, Es.
  eexists c1, c2, _, x3, y1, y2, y3. split_and!; try done; [by apply Hst4|].
  intros Hs. rewrite <-(Hk4y Hs), <-(Hk3x Hs), <-(Hk2x Hs), <-(Hk1 Hs). by apply Hkey.
Qed.

Lemma blocks_split blk l : 0 < blk -> blocks blk l -> l <> [] ->
  blocks blk (take (Z.to_nat blk) l) /\ blocks blk (drop (Z.to_nat blk) l) /\ Z.of_nat (length (take (Z.to_nat blk) l)) = blk.
Proof.
  unfold blocks. intros Hb Hl Hn. assert (Hge : blk <= Z.of_nat (length l)).
  { apply Z.mod_divide in Hl; [|lia]. apply Z.divide_pos_le; [destruct l; [done|cbn; lia]|done]. }
  rewrite length_take, length_drop, Nat2Z.inj_min, Z2Nat.id, Z.min_l by lia. split_and!; [apply Z_mod_same_full| |done].
  replace (Z.of_nat (length l - Z.to_nat blk)) with (Z.of_nat (length l) + (-1) * blk) by lia. by rewrite Z_mod_plus_full.
Qed.

Lemma recv_std s dx z r rest : rx_crState (s2_rx s) = CR_START -> dirs_in_step keyed key dx (rx_dir s) ->
  lawful keyed key data tag dx -> dir_etm dx = false -> dir_cbc dx = false -> framed dx z r -> delivers s dx z r rest.
Proof.
  intros Hc (Edc & Edm & Ede & Eds & Hst & Hk) HM Ee Ecb Hac.
  destruct (framed_sizes _ _ _ Hac) as (Hlf & Hlb & Hlz & Hlim & Hbf & Hbb).
  pose proof (cipher_block_bound (HM := HM)) as Hblk. fold (dir_block dx) in Hblk.
  destruct Hac as [[Hbz Hbr] Hne Hr Hbl _]. rewrite Ee in Hbl. unfold delivers.
  pose proof (frame_length z r) as Hfl.
  set (field := frame_field z r) in *. set (body := frame_body z r) in *. set (plain := field ++ body) in *.
  destruct (blocks_split (dir_block dx) plain) as (Hb1 & Hb2 & Hl1); [lia|done|by destruct plain|].
  set (p1 := take _ plain) in *. set (p2 := drop _ plain) in *. assert (Ep : plain = p1 ++ p2) by (symmetry; apply take_drop).
  assert (Hbp : bytesOK plain) by (by apply Forall_app).
  destruct (std_sealed dx (d_crypto (rx_dir s)) field body HM Ee Hst Hk Hbp p1 p2 Ep Hb1 Hb2)
    as (c1 & c2 & tg & x & y1 & y2 & y3 & -> & Hlc1 & Hlc2 & Hlt & D1 & D2 & V & Hs' & Hk').
  set (len := 1 + Z.of_nat (length z) + Z.of_nat (length r)) in *.
  set (fr := dir_framing (rx_dir s)). assert (Hfm : fr_maclen fr = Z.of_nat (length tg)) by (cbn; by rewrite Edm).
  assert (Hfb : fr_cipherblk fr = dir_block dx) by (cbn; unfold dir_block; by rewrite Edc).
  assert (Efp : first_point (rx_dir s) = CR_STD_FIRST fr).
  { unfold first_point, dir_etm, dir_cbc in *. by rewrite Edm, Ede, Edc, Ee, Ecb. }
  assert (Epf : p1 = field ++ take (Z.to_nat (dir_block dx) - 4) body).
  { unfold p1, plain. by rewrite take_app_ge, Hlf by lia. }
  assert (Htot : len + 4 = Z.of_nat (length (p1 ++ c2))).
  { rewrite length_app, Hlc2, <-length_app, <-Ep, Hfl. unfold len. lia. }
  set (s1 := set_bpp (started s) (b_emit (s2_bpp s) [Ev_check_frozen])).
  assert (A1 : bpp2_after_read (started s) c1 = Ok (Continue (at_point (set_in_crypto s1 y1)
    (CR_STD_REST fr len (Block (len + 4 + fr_maclen fr) p1))))).
  { unfold bpp2_after_read. change (rx_crState (s2_rx (set_bpp _ _))) with (first_point (rx_dir s)). rewrite Efp.
    apply (std_first_ok s1 fr c1 p1 y1 field (take (Z.to_nat (dir_block dx) - 4) body) len); try done; try lia.
    - cbn. unfold first_size, dir_etm, dir_cbc, dir_block in *. rewrite Edm, Ede, Edc, Ee, Ecb. lia.
    - change (rx_dir s1) with (rx_dir s). by rewrite Edc.
    - apply field_value. unfold OUR_V2_PACKETLIMIT in *. lia.
    - rewrite Hfb, Htot, length_app, Hlc2, <-length_app, <-Ep. exact Hbl. }
  set (s2 := at_point (set_in_crypto s1 y1) _) in A1.
  set (s3 := set_bpp s2 (b_emit (s2_bpp s2) [Ev_check_frozen])).
  assert (A2 : bpp2_after_read s2 (c2 ++ tg) = packet_read (set_in_crypto (set_in_crypto s3 y2) y3) len (len + 4)
    (Block (len + 4 + fr_maclen fr) ((p1 ++ p2) ++ tg))).
  { apply (std_rest_ok s3 fr p1 c2 tg y2 p2 y3 len); try done; try lia;
      change (rx_dir s3) with (dir_set_crypto (rx_dir s) y1); cbn [dir_set_crypto d_mac d_cipher d_sequence d_crypto];
      rewrite ?Edm, ?Eds, ?Edc; done. }
  set (s4 := set_in_crypto (set_in_crypto s3 y2) y3) in A2.
  exists s4, y3. split; [|by split]. exists s2, (c2 ++ tg), field, tg, (len + 4 + fr_maclen fr).
  split_and!; try done.
  - eapply leads_trans; [by apply leads_start|]. cbn [fst]. rewrite <-!app_assoc. apply leads_read; [|exact A1].
    unfold bpp2_read_len. change (rx_crState (s2_rx (started s))) with (first_point (rx_dir s)). rewrite Efp. f_equal. lia.
  - change (Some (len + 4 + fr_maclen fr - fr_cipherblk fr) = Some (Z.of_nat (length (c2 ++ tg)))).
    f_equal. rewrite length_app in *. lia.
  - rewrite A2, <-Ep. unfold plain. by rewrite <-app_assoc.
Qed.

(** *** The code marks the end *)

(** One block: the window of the bytes that may be the code moves on. *)
Lemma cbc_block_ok s fr size before win block e win' b y1 m y2 ok field tl packetlen :
  packetlen = Z.of_nat (length before) -> Z.of_nat (length win) = fr_maclen fr -> win ++ block = e ++ win' ->
  Z.of_nat (length e) = fr_cipherblk fr -> length b = length e -> Z.of_nat (length win') = fr_maclen fr ->
  packetlen + fr_maclen fr + fr_cipherblk fr <= size ->
  o_decrypt (cipher := d_cipher (rx_dir s)) e (d_crypto (rx_dir s)) = (b, y1) -> d_mac (rx_dir s) = Some m ->
  ssh2_mac_verresult m (ma_put m b y1) win' = Ok (ok, y2) -> before ++ b = field ++ tl -> length field = 4%nat ->
  let s' := set_in_crypto (set_in_crypto s y1) y2 in
  let len := toint (GET_32BIT_MSB_FIRST field) in
  cbc_block s fr (Block size (before ++ win)) packetlen block =
    if ok && (len =? packetlen + fr_cipherblk fr - 4) then
      packet_read s' len (packetlen + fr_cipherblk fr)
        (Block (packetlen + fr_cipherblk fr + fr_maclen fr) ((before ++ b) ++ win'))
    else if OUR_V2_PACKETLIMIT <=? packetlen + fr_cipherblk fr then abort s' "No valid incoming packet found"
    else Ok (Continue (at_point s' (CR_CBC_BLOCK fr (Block size ((before ++ b) ++ win')) (packetlen + fr_cipherblk fr)))).
Proof.
  intros Hpl Hwin Ew He Hb Hwin' Hsize D Em V Ef Hf s' len. unfold cbc_block.
  assert (Hlb : Z.of_nat (length block) = fr_cipherblk fr).
  { apply (f_equal length) in Ew. rewrite !length_app in Ew. lia. }
  rewrite block_append by (rewrite ?length_app; lia). cbn [res_bind bl_bytes]. rewrite <-app_assoc, Ew.
  rewrite read_at_app by lia. cbn [res_bind]. rewrite in_decrypt_ok, D. cbn [fst snd].
  rewrite block_write_at by (rewrite ?length_app; lia). cbn [res_bind bl_bytes].
  change (d_mac (rx_dir (set_in_crypto s y1))) with (d_mac (rx_dir s)). rewrite Em. rewrite app_assoc.
  rewrite <-(app_nil_r win'), (read_at_app (before ++ b) win' []) by (rewrite ?length_app; lia). cbn [res_bind].
  change (d_crypto (rx_dir (set_in_crypto s y1))) with y1. rewrite V. cbn [res_bind].
  rewrite Ef, <-app_assoc. change (field ++ tl ++ win' ++ []) with ([] ++ field ++ tl ++ win' ++ []).
  rewrite (read_at_app [] field) by (done || lia). cbn [res_bind app]. fold len.
  rewrite (app_assoc field tl), <-Ef, app_nil_r. destruct (ok && _); [|done].
  rewrite read_at_ok by (rewrite ?length_app; lia). rewrite drop_0, take_ge by (rewrite !length_app; lia). done.
Qed.

Lemma window_moves (e w : list Z) n : n <= Z.of_nat (length w) -> 0 <= n ->
  exists block, take (Z.to_nat n) (e ++ w) ++ block = e ++ take (Z.to_nat n) w /\
    drop (Z.to_nat n) (e ++ w) = block ++ drop (Z.to_nat n) w /\ length block = length e.
Proof.
  intros Hn H0. exists (take (length e) (drop (Z.to_nat n) (e ++ w))). split_and!.
  - rewrite take_take_drop, Nat.add_comm, take_app_add. done.
  - rewrite <-(take_drop (length e) (drop (Z.to_nat n) (e ++ w))) at 1. f_equal.
    by rewrite drop_drop, Nat.add_comm, drop_app_add.
  - rewrite length_take, length_drop, length_app. lia.
Qed.

(** The steps of both sides for one block; [w] is what follows it in the stream. *)
Lemma cbc_step s dx ma size before b e w x x1 field tl :
  lawful keyed key data tag dx -> d_mac dx = Some ma ->
  d_cipher (rx_dir s) = d_cipher dx -> d_mac (rx_dir s) = Some ma ->
  rx_crState (s2_rx s) = CR_CBC_BLOCK (dir_framing dx)
    (Block size (before ++ take (Z.to_nat (ma_len ma)) (e ++ w))) (Z.of_nat (length before)) ->
  in_step (cipher := d_cipher dx) (keyed := keyed) x (d_crypto (rx_dir s)) ->
  o_encrypt (cipher := d_cipher dx) b x = (e, x1) -> bytesOK b -> Z.of_nat (length b) = dir_block dx ->
  bytesOK w -> ma_len ma <= Z.of_nat (length w) -> bytesOK (data (d_crypto (rx_dir s))) ->
  before ++ b = field ++ tl -> length field = 4%nat ->
  Z.of_nat (length (before ++ b)) + ma_len ma <= size ->
  let s1 := set_bpp s (b_emit (s2_bpp s) [Ev_check_frozen]) in
  let len := toint (GET_32BIT_MSB_FIRST field) in
  let total := Z.of_nat (length (before ++ b)) in
  let win := take (Z.to_nat (ma_len ma)) w in
  exists y1 y2 block, drop (Z.to_nat (ma_len ma)) (e ++ w) = block ++ drop (Z.to_nat (ma_len ma)) w /\
    bpp2_read_len s = Some (Z.of_nat (length block)) /\
    (let s2 := set_in_crypto (set_in_crypto s1 y1) y2 in
     bpp2_after_read s block =
       if bool_decide (tag (key (d_crypto (rx_dir s))) (data (d_crypto (rx_dir s)) ++ b) = win) && (len =? total - 4) then
         packet_read s2 len total (Block (total + ma_len ma) ((before ++ b) ++ win))
       else if OUR_V2_PACKETLIMIT <=? total then abort s2 "No valid incoming packet found"
       else Ok (Continue (at_point s2 (CR_CBC_BLOCK (dir_framing dx) (Block size ((before ++ b) ++ win)) total)))) /\
    in_step (cipher := d_cipher dx) (keyed := keyed) x1 y2 /\ key y2 = key (d_crypto (rx_dir s)) /\
    data y2 = data (d_crypto (rx_dir s)) ++ b.
Proof.
  intros HM Em Edc Edm Ec Hst E Hb Hlb Hbw Hlw Hbd Ef Hf Hsize s1 len total win. unfold lawful in HM.
  pose proof (mac_length_bound (HM := HM)) as Hmac. unfold mac_length in Hmac. rewrite Em in Hmac.
  pose proof (cipher_block_bound (HM := HM)) as Hblk.
  destruct (decrypt_put_ok (HM := HM) ma x (d_crypto (rx_dir s)) b e x1 Em Hst Hb) as (y1 & D & Hle & Hbe & Hst1 & Hk1 & Hd1);
    [unfold blocks; rewrite Hlb; apply Z_mod_same_full|done|].
  destruct (verresult_ok (HM := HM) ma (ma_put ma b y1) win Em) as (y2 & V & Hk2 & Hd2 & Hst2);
    [by apply Forall_take|unfold win; rewrite length_take; lia|rewrite Hd1; by apply Forall_app|].
  destruct (window_moves e w (ma_len ma) Hlw) as (block & Ew & Ed & Hlbk); [lia|].
  rewrite Hk1, Hd1 in *. exists y1, y2, block.
  assert (Hfb : fr_cipherblk (dir_framing dx) = Z.of_nat (length b)) by (by cbn).
  assert (Hfm : fr_maclen (dir_framing dx) = ma_len ma) by (cbn; by rewrite Em).
  split_and!; [done| | |by apply Hst2|done|done].
  - unfold bpp2_read_len. rewrite Ec, Hfb. f_equal. lia.
  - unfold bpp2_after_read. change (rx_crState (s2_rx (set_bpp _ _))) with (rx_crState (s2_rx s)). rewrite Ec. fold s1.
    assert (Et : Z.of_nat (length before) + fr_cipherblk (dir_framing dx) = total) by (rewrite Hfb; unfold total; rewrite length_app; lia).
    set (ok := bool_decide _) in *.
    rewrite (cbc_block_ok s1 (dir_framing dx) size before _ block e win b y1 ma y2 ok field tl); rewrite ?Hfm, ?Hfb;
      try done; try (rewrite length_app in Hsize; lia).
    + rewrite <-Hfb, Et. done.
    + rewrite length_take, length_app. lia.
    + unfold win. rewrite length_take. lia.
    + change (rx_dir s1) with (rx_dir s). by rewrite Edc.
Qed.

Lemma prefix_field (before b p2 field body : list Z) : (before ++ b) ++ p2 = field ++ body -> length field = 4%nat ->
  (4 <= length (before ++ b))%nat -> before ++ b = field ++ drop 4 (before ++ b).
Proof.
  intros E Hf Hl. rewrite <-(take_drop 4 (before ++ b)) at 1. f_equal.
  rewrite <-(take_app_le (before ++ b) p2 4) by done. by rewrite E, take_app_le, take_ge by lia.
Qed.

Section cbc.
  Variables (dx : ssh2_bpp_direction X ZC ZD) (ma : ssh2_macalg X) (size : Z) (z r rest : list Z).
  Hypotheses (HM : lawful keyed key data tag dx) (Em : d_mac dx = Some ma)
    (Hsize : OUR_V2_PACKETLIMIT + ma_len ma <= size)
    (Hlim : Z.of_nat (length (frame_field z r ++ frame_body z r)) <= OUR_V2_PACKETLIMIT).

Let field := frame_field z r.
Let plain := frame_field z r ++ frame_body z r.

(** The receiver has decrypted [before]; the sender, in the state [x], was to encrypt [p], and the code [tg] follows. *)
Record cbc_at s (before p : list Z) x (c : list Z) (x' : X) (tg : list Z) : Prop := {
  cb_cipher : d_cipher (rx_dir s) = d_cipher dx;
  cb_mac : d_mac (rx_dir s) = Some ma;
  cb_point : rx_crState (s2_rx s) = CR_CBC_BLOCK (dir_framing dx)
    (Block size (before ++ take (Z.to_nat (ma_len ma)) (c ++ tg))) (Z.of_nat (length before));
  cb_step : in_step (cipher := d_cipher dx) (keyed := keyed) x (d_crypto (rx_dir s));
  cb_encrypt : o_encrypt (cipher := d_cipher dx) p x = (c, x');
  cb_bytes : bytesOK p /\ bytesOK (data (d_crypto (rx_dir s)));
  cb_tag : tg = tag (key (d_crypto (rx_dir s))) (data (d_crypto (rx_dir s)) ++ p);
  cb_plain : before ++ p = plain
}.

Definition cbc_done s (c : list Z) (x' : X) (tg : list Z) : Prop :=
  exists s4 y', finds s (drop (Z.to_nat (ma_len ma)) (c ++ tg)) rest z r y' s4 /\
    in_step (cipher := d_cipher dx) (keyed := keyed) x' y' /\ key y' = key (d_crypto (rx_dir s)).

Lemma cbc_bounds : 8 <= dir_block dx <= 252 /\ 0 <= ma_len ma <= 64 /\
  length plain = (5 + length z + length r)%nat /\ toint (GET_32BIT_MSB_FIRST field) = Z.of_nat (length plain) - 4.
Proof using All.
  pose proof (mac_length_bound (HM := HM)) as Hmac. unfold mac_length in Hmac. rewrite Em in Hmac.
  split_and!; [apply (cipher_block_bound (HM := HM))..|lia|lia|apply frame_length|].
  unfold plain, field. rewrite frame_length in *. rewrite field_value; unfold OUR_V2_PACKETLIMIT in *; lia.
Qed.

Lemma cbc_tag s before p x c x' tg : cbc_at s before p x c x' tg -> Z.of_nat (length tg) = ma_len ma /\ bytesOK tg.
Proof using All.
  intros H. destruct (me_mac (Methods := HM) ma Em) as [_ Htag _ _ _ _]. rewrite (cb_tag _ _ _ _ _ _ _ H).
  apply Htag, Forall_app. destruct (cb_bytes _ _ _ _ _ _ _ H). by split.
Qed.

Lemma cbc_last s before p x c x' tg : cbc_at s before p x c x' tg -> Z.of_nat (length p) = dir_block dx ->
  cbc_done s c x' tg.
Proof using All.
  intros Hat Hlp. destruct cbc_bounds as (Hblk & Hmac & Hfl & Hval). destruct (cbc_tag _ _ _ _ _ _ _ Hat) as [Hlt Hbt].
  destruct Hat as [Edc Edm Ec Hst E [Hbp Hbd] Etg Epl].
  assert (Hpf : before ++ p = field ++ drop 4 (before ++ p)).
  { apply (prefix_field before p [] _ (frame_body z r)); [by rewrite app_nil_r|done|rewrite length_app; lia]. }
  destruct (cbc_step s dx ma size before p c tg x x' field (drop 4 (before ++ p)) HM Em Edc Edm Ec Hst E Hbp) as
    (y1 & y2 & block & Ed & En & A & Hst' & Hk' & Hd'); [lia|done|lia|done|exact Hpf|done|rewrite Epl; unfold plain; lia|].
  rewrite (take_ge tg), bool_decide_eq_true_2 in A by (done || lia). rewrite (drop_ge tg), app_nil_r in Ed by lia.
  rewrite Epl, Hval, Z.eqb_refl in A. cbn [andb] in A.
  set (s2 := set_in_crypto (set_in_crypto _ y1) y2) in A.
  rewrite Hfl in A. exists s2, y2. split; [|by split].
  exists s, block, field, tg, (Z.of_nat (5 + length z + length r) + ma_len ma).
  split_and!; try done.
  - rewrite Ed. apply leads_refl.
  - rewrite A. unfold plain. rewrite <-app_assoc. f_equal; lia.
Qed.

Lemma cbc_next s before p x c x' tg : cbc_at s before p x c x' tg -> dir_block dx < Z.of_nat (length p) -> blocks (dir_block dx) p ->
  exists s2 b p2 x1 c2 block, p = b ++ p2 /\ Z.of_nat (length b) = dir_block dx /\ cbc_at s2 (before ++ b) p2 x1 c2 x' tg /\
    drop (Z.to_nat (ma_len ma)) (c ++ tg) = block ++ drop (Z.to_nat (ma_len ma)) (c2 ++ tg) /\
    bpp2_read_len s = Some (Z.of_nat (length block)) /\ bpp2_after_read s block = Ok (Continue s2) /\
    rx_in_decomp (s2_rx s2) = rx_in_decomp (s2_rx s) /\ b_in_pq (s2_bpp s2) = b_in_pq (s2_bpp s) /\
    s2_flags s2 = s2_flags s /\ bpp2_at_eof s2 = bpp2_at_eof s /\
    (forall y, dir_set_crypto (rx_dir s2) y = dir_set_crypto (rx_dir s) y) /\
    key (d_crypto (rx_dir s2)) = key (d_crypto (rx_dir s)).
Proof using All.
  intros Hat Hlp Hblp. destruct cbc_bounds as (Hblk & Hmac & Hfl & Hval). destruct (cbc_tag _ _ _ _ _ _ _ Hat) as [Hlt Hbt].
  destruct Hat as [Edc Edm Ec Hst E [Hbp Hbd] Etg Epl].
  destruct (blocks_split (dir_block dx) p) as (Hb1 & Hb2 & Hl1); [lia|done|intros ->; cbn in Hlp; lia|].
  set (b := take _ p) in *. set (p2 := drop _ p) in *. assert (Ep : p = b ++ p2) by (symmetry; apply take_drop).
  clearbody b p2. subst p. apply Forall_app in Hbp as [Hbb Hbp2]. rewrite length_app in Hlp.
  rewrite (encrypt_split (HM := HM)) in E by done.
  destruct (o_encrypt b x) as [e x1] eqn:E1. destruct (o_encrypt p2 x1) as [c2 x2] eqn:E2. injection E as <- <-.
  rewrite app_assoc in Epl.
  assert (Hpf : before ++ b = field ++ drop 4 (before ++ b)).
  { apply (prefix_field before b p2 _ (frame_body z r)); [done|done|rewrite length_app; lia]. }
  assert (Htot : Z.of_nat (length (before ++ b)) + Z.of_nat (length p2) = Z.of_nat (length plain)).
  { rewrite <-Epl, (length_app (before ++ b)). lia. }
  destruct (encrypt_ok (HM := HM) x (d_crypto (rx_dir s)) b Hst Hbb Hb1) as (e' & x1' & ye & E1' & _ & _ & _ & Hst1 & _).
  rewrite E1 in E1'. injection E1' as <- <-.
  destruct (encrypt_ok (HM := HM) x1 ye p2 Hst1 Hbp2 Hb2) as (c' & x2' & _ & E2' & Hlc2 & Hbc2 & _).
  rewrite E2 in E2'. injection E2' as <- <-. rewrite <-app_assoc in Ec. fold plain in Hlim.
  destruct (cbc_step s dx ma size before b e (c2 ++ tg) x x1 field (drop 4 (before ++ b)) HM Em Edc Edm Ec Hst E1 Hbb) as
    (y1 & y2 & block & Ed & En & A & Hst' & Hk' & Hd');
    [lia|by apply Forall_app|rewrite length_app; lia|done|exact Hpf|done|lia|].
  rewrite Hval, (proj2 (Z.eqb_neq _ (Z.of_nat (length (before ++ b)) - 4))), andb_false_r, (proj2 (Z.leb_gt _ _)) in A by lia.
  cbv zeta in A. match type of A with _ = Ok (Continue ?s0) => set (s2 := s0) in A end.
  exists s2, b, p2, x1, c2, block. rewrite <-app_assoc. split_and!; try done.
  split; try done; change (d_crypto (rx_dir s2)) with y2; rewrite ?Hd', ?Hk'.
  - split; [done|by apply Forall_app].
  - by rewrite <-app_assoc.
Qed.

Lemma cbc_loop n : forall s before p x c x' tg, cbc_at s before p x c x' tg ->
  Z.of_nat (length p) = Z.of_nat (S n) * dir_block dx -> cbc_done s c x' tg.
Proof using All.
  destruct cbc_bounds as (Hblk & _).
  induction n as [|n IH]; intros s before p x c x' tg Hat Hlp; [apply (cbc_last _ _ _ _ _ _ _ Hat); lia|].
  destruct (cbc_next s before p x c x' tg Hat) as
    (s2 & b & p2 & x1 & c2 & block & -> & Hlb & Hat2 & Ed & En & A & H1 & H2 & H3 & H4 & H5 & H6);
    [lia|unfold blocks; rewrite Hlp; apply Z_mod_mult|].
  destruct (IH s2 _ _ _ _ _ _ Hat2) as (s4 & y' & Hf & Hin & Hkey); [rewrite length_app in Hlp; lia|].
  destruct Hf as (sk & last & f4 & extra & sz & Hlead & F1 & F2 & F3 & F4 & F5 & F6 & F7 & F8).
  exists s4, y'. split_and!; [|done|by rewrite Hkey]. exists sk, last, f4, extra, sz. split_and!; try congruence.
  rewrite Ed, <-app_assoc. eapply leads_trans; [|exact Hlead]. by apply leads_read.
Qed.

End cbc.

Lemma started_code dx ma y seq x : lawful keyed key data tag dx -> d_mac dx = Some ma ->
  in_step (cipher := d_cipher dx) (keyed := keyed) x y ->
  let y' := ma_put ma (PUT_32BIT_MSB_FIRST seq) (ma_start ma y) in
  in_step (cipher := d_cipher dx) (keyed := keyed) x y' /\ key y' = key y /\ data y' = PUT_32BIT_MSB_FIRST seq.
Proof.
  intros HM Em Hst y'. unfold lawful in HM. unfold y'. destruct (me_mac (Methods := HM) ma Em) as [_ _ Hs Hp _ _].
  destruct (Hp (ma_start ma y) (PUT_32BIT_MSB_FIRST seq)) as [-> ->]. destruct (Hs y) as [-> ->]. split_and!; [|done|done].
  apply (mac_right (HM := HM) ma (ma_put ma _)); [done|eauto|].
  apply (mac_right (HM := HM) ma (ma_start ma)); [done|left; set_solver|done].
Qed.

Lemma cbc_mac_ok s fr ma (d : list Z) : d_mac (rx_dir s) = Some ma -> Z.of_nat (length d) <= rx_bufsize (s2_rx s) ->
  cbc_mac s fr d = Ok (Continue (at_point
    (set_in_crypto s (ma_put ma (PUT_32BIT_MSB_FIRST (d_sequence (rx_dir s))) (ma_start ma (d_crypto (rx_dir s)))))
    (CR_CBC_BLOCK fr (Block (rx_bufsize (s2_rx s)) d) 0))).
Proof.
  intros Em Hl. unfold cbc_mac. rewrite Em, (block_append _ [] d) by (done || (cbn [app]; lia)). done.
Qed.

Lemma recv_cbc s dx z r rest : rx_crState (s2_rx s) = CR_START -> dirs_in_step keyed key dx (rx_dir s) ->
  lawful keyed key data tag dx -> dir_etm dx = false -> dir_cbc dx = true -> framed dx z r -> delivers s dx z r rest.
Proof.
  intros Hc (Edc & Edm & Ede & Eds & Hst & Hk) HM Ee Ecb Hac.
  destruct (framed_sizes _ _ _ Hac) as (Hlf & Hlb & Hlz & Hlim & Hbf & Hbb).
  destruct Hac as [[Hbz Hbr] Hne Hr Hbl Hlim']. rewrite Ee in Hbl. unfold delivers.
  pose proof (cipher_block_bound (HM := HM)) as Hblk. fold (dir_block dx) in Hblk.
  assert (exists ma, d_mac dx = Some ma) as [ma Em].
  { unfold dir_cbc in Ecb. destruct (d_cipher dx), (d_mac dx); eauto; done. }
  set (plain := frame_field z r ++ frame_body z r) in *.
  assert (Hbp : bytesOK plain) by (by apply Forall_app).
  unfold seal. rewrite Ee. fold plain.
  destruct (generate_ok (HM := HM) plain (d_sequence dx) (d_crypto dx)) as (x1 & -> & Hk1 & Hst1).
  destruct (encrypt_ok (HM := HM) x1 (d_crypto (rx_dir s)) plain (Hst1 _ Hst) Hbp Hbl) as (c & x2 & _ & Ee2 & Hlc & _ & _ & _ & Hk2 & _).
  destruct (tag_length (HM := HM) plain (d_sequence dx) (d_crypto dx) Hbp) as [Hlt _].
  rewrite Ee2. set (tg := o_tag _ _ _) in *. cbn [fst snd]. unfold mac_length in Hlt. rewrite Em in Hlt.
  assert (Efr : dir_framing (rx_dir s) = dir_framing dx) by (unfold dir_framing, dir_block; by rewrite Edc, Edm).
  assert (Efp : first_point (rx_dir s) = CR_CBC_MAC (dir_framing dx)).
  { rewrite <-Efr. unfold first_point, dir_etm, dir_cbc in *. by rewrite Edm, Ede, Edc, Ee, Ecb. }
  assert (Hbuf : OUR_V2_PACKETLIMIT + ma_len ma <= rx_bufsize (s2_rx (started s))).
  { cbn. unfold first_size, dir_etm, dir_cbc, mac_length in *. rewrite Edm, Ede, Edc, Ee, Ecb, Em. lia. }
  set (win := take (Z.to_nat (ma_len ma)) (c ++ tg)).
  assert (Hlw : Z.of_nat (length win) = ma_len ma) by (unfold win; rewrite length_take, length_app; lia).
  set (s1 := set_bpp (started s) (b_emit (s2_bpp s) [Ev_check_frozen])).
  pose proof (cbc_mac_ok s1 (dir_framing dx) ma win (eq_trans Edm Em)) as A.
  change (rx_bufsize (s2_rx s1)) with (rx_bufsize (s2_rx (started s))) in A.
  specialize (A ltac:(unfold OUR_V2_PACKETLIMIT in *; lia)).
  destruct (started_code dx ma (d_crypto (rx_dir s)) (d_sequence dx) x1 HM Em (Hst1 _ Hst)) as (Hs2 & Hk3 & Hd3).
  change (rx_dir s1) with (rx_dir s) in A. rewrite Eds in A.
  set (y2 := ma_put ma _ _) in *. set (s2 := at_point (set_in_crypto s1 y2) _) in A.
  assert (Hkey : key (d_crypto dx) = key y2) by (rewrite Hk3; apply Hk; by exists ma).
  destruct (cbc_loop dx ma (rx_bufsize (s2_rx (started s))) z r rest HM Em Hbuf Hlim'
    (Z.to_nat (Z.of_nat (length plain) / dir_block dx) - 1) s2 [] plain x1 c x2 tg) as (s4 & y' & Hf & Hin & Hkey').
  - split; try done; change (d_crypto (rx_dir s2)) with y2; [by rewrite <-Em|split; [done|]|].
    + rewrite Hd3. apply put_32_bytes.
    + unfold tg, o_tag. by rewrite Em, Hkey, Hd3.
  - apply Z.mod_divide in Hbl as [q Hq]; [|lia]. rewrite Hq, Z.div_mul by lia.
    assert (length plain = 5 + length z + length r)%nat by apply frame_length. nia.
  - destruct Hf as (sk & last & f4 & extra & sz & Hlead & F1 & F2 & F3 & F4 & F5 & F6 & F7 & F8).
    exists s4, y'. split_and!; [|done|].
    + exists sk, last, f4, extra, sz. split_and!; try done.
      eapply leads_trans; [by apply leads_start|]. rewrite <-(take_drop (Z.to_nat (ma_len ma)) (c ++ tg)). fold win.
      rewrite <-app_assoc. eapply leads_trans; [|exact Hlead]. apply leads_read.
      * unfold bpp2_read_len. change (rx_crState (s2_rx (started s))) with (first_point (rx_dir s)).
        rewrite Efp. cbn. by rewrite Em, Hlw.
      * unfold bpp2_after_read. change (rx_crState (s2_rx (set_bpp _ _))) with (first_point (rx_dir s)). by rewrite Efp.
    + intros Hs. rewrite <-(Hk2 Hs), <-(Hk1 Hs), Hkey. by rewrite Hkey'.
Qed.

(** In every mode the packet is delivered. *)
Lemma recv_ok s dx z r rest : rx_crState (s2_rx s) = CR_START -> dirs_in_step keyed key dx (rx_dir s) ->
  lawful keyed key data tag dx -> framed dx z r -> delivers s dx z r rest.
Proof.
  intros. destruct (dir_etm dx) eqn:Ee; [by apply recv_etm|]. destruct (dir_cbc dx) eqn:Ec; [by apply recv_cbc|by apply recv_std].
Qed.

(** A message of an ordinary type is taken, and the next packet awaited. *)
Lemma finds_plain s w rest z r y s4 m de' : finds s w rest z r y s4 -> 4 <= Z.of_nat (length r) < 256 -> z <> [] ->
  Z.of_nat (length z) < 2 ^ 20 -> inflates (rx_in_decomp (s2_rx s)) z (m.1 :: m.2) de' ->
  Z.of_nat (length m.2) < SIZE_T -> plain_type m.1 -> fl_enforce_next_packet_is_userauth_success (s2_flags s) = false ->
  exists s', bpp2_leads s (w ++ rest) s' rest /\ took s s' m (dir_next_message (dir_set_crypto (rx_dir s) y)) de'.
Proof.
  intros (sk & last & f4 & extra & sz & Hlead & En & A & F3 & F4 & F5 & F6 & F7 & F8) Hr Hz Hlz Hinf Hm Ht He.
  rewrite <-F5 in Hinf. destruct (packet_read_ok s4 f4 z r extra sz m de' F3 Hr Hz Hlz Hinf Hm (proj1 Ht))
    as (s1 & P & Q1 & Q2 & Q3 & Q4 & Q5).
  destruct (queued_ok s1 m.1 Ht) as (s' & E & H1 & H2 & H3 & H4 & H5 & H6); [by rewrite Q4, F7|].
  exists s'. split.
  - eapply leads_trans; [exact Hlead|]. apply leads_read; [done|]. by rewrite A, P.
  - rewrite F4 in *. split_and!; [done|by rewrite H2|congruence|by rewrite H4, Q3, F6|done|congruence].
Qed.

End modes.
