(* ===== verification/Bpp2Safe.v ===== *)
(** * The binary packet protocol of SSH-2: the reads end, and arbitrary input is safe

    Whatever bytes arrive, the lengths of the reads stay within bounds, and a rank decreases
    from round to round: the coroutine waits again after finitely many rounds. *)

From Stdlib Require Import String.
From stdpp Require Import gmap.
From S2P Require Import Prelude Callback Bufchain Marshal Strbuf ConfData Filename Ptrlen Packet Bpp BppBare.
From S2P Require Import BppBareSpec Bpp2 Bpp2Crypto Bpp2Send Bpp2Recv.
Local Open Scope cmodel_scope.
Local Open Scope Z_scope.

Section invariant.
  Context {X ZC ZD R : Type}.
  Implicit Types (s : ssh2_bpp_state X ZC ZD R) (d : ssh2_bpp_direction X ZC ZD) (x : X).

(** Blocks and codes of reasonable sizes. *)
Definition sizes_ok d : Prop := 8 <= dir_block d <= 252 /\ 0 <= mac_length (d_mac d) <= 64.

Definition framing_ok (fr : framing) : Prop := 8 <= fr_cipherblk fr <= 252 /\ 0 <= fr_maclen fr <= 64.

Definition point_ok (p : bpp2_point) : Prop :=
  match p with
  | CR_CBC_MAC fr | CR_CBC_BLOCK fr _ _ | CR_ETM_LENGTH fr | CR_STD_FIRST fr => framing_ok fr
  | CR_ETM_REST fr len _ => framing_ok fr /\ 0 <= len <= OUR_V2_PACKETLIMIT
  | CR_STD_REST fr len _ => framing_ok fr /\ fr_cipherblk fr <= len + 4 /\ len <= OUR_V2_PACKETLIMIT
  | CR_START | CR_NEWKEYS | CR_STALE | CR_EOF => True
  end.

Definition bpp2_inv s : Prop := sizes_ok (rx_dir s) /\ point_ok (rx_crState (s2_rx s)).

Definition point_rank (p : bpp2_point) : nat :=
  match p with
  | CR_START => 2
  | CR_CBC_MAC _ | CR_ETM_LENGTH _ | CR_STD_FIRST _ => 1
  | CR_ETM_REST _ _ _ | CR_STD_REST _ _ _ | CR_NEWKEYS => 3
  | CR_CBC_BLOCK _ _ _ | CR_STALE | CR_EOF => 0
  end.

Definition bpp2_rank s : nat := point_rank (rx_crState (s2_rx s)).

Lemma bpp2_rank_bound s : (bpp2_rank s <= 3)%nat.
Proof. unfold bpp2_rank. destruct (rx_crState (s2_rx s)); cbn; lia. Qed.

Lemma bpp2_inv_len s n : bpp2_inv s -> bpp2_read_len s = Some n -> 0 <= n < 2 ^ 31.
Proof.
  intros [_ Hp]. unfold bpp2_read_len. unfold point_ok, framing_ok, OUR_V2_PACKETLIMIT in Hp.
  destruct (rx_crState (s2_rx s)); intros [= <-]; lia.
Qed.

(** The methods and the end of the input are the same. *)
Definition keeps s s' : Prop :=
  d_cipher (rx_dir s') = d_cipher (rx_dir s) /\ d_mac (rx_dir s') = d_mac (rx_dir s) /\ bpp2_at_eof s' = bpp2_at_eof s.

Lemma keeps_trans s1 s2 s3 : keeps s1 s2 -> keeps s2 s3 -> keeps s1 s3.
Proof. intros (? & ? & ?) (? & ? & ?). split_and!; congruence. Qed.

Lemma enable_keeps s s' : ssh2_bpp_enable_pending_compression s = Ok s' ->
  keeps s s' /\ rx_crState (s2_rx s') = rx_crState (s2_rx s).
Proof.
  unfold ssh2_bpp_enable_pending_compression. intros (s1 & E1 & E2)%res_bind_Ok.
  assert (keeps s s1 /\ rx_crState (s2_rx s1) = rx_crState (s2_rx s)) as [H1 H2].
  { destruct (d_pending_compression (rx_dir s)); [|by injection E1 as <-].
    destruct (ssh_decompressor_new _); [|done]. by injection E1 as <-. }
  rewrite <-H2. destruct (d_pending_compression (tx_out (s2_tx s1))); [|by injection E2 as <-].
  destruct (ssh_compressor_new _); [|done]. injection E2 as <-. by split.
Qed.

(** Where a packet leads: a new packet is awaited, or new keys; or it was an error. *)
Definition ends s (r : round (ssh2_bpp_state X ZC ZD R)) : Prop :=
  keeps s (state_of r) /\
  match r with
  | Continue s' => rx_crState (s2_rx s') = CR_START
  | Return s' => rx_crState (s2_rx s') ∈ [CR_START; CR_NEWKEYS; CR_STALE]
  end.

Lemma queued_ends s t r : packet_queued s t = Ok r -> ends s r.
Proof.
  unfold packet_queued, ends. destruct (_ && negb (t =? SSH2_MSG_USERAUTH_SUCCESS)).
  { intros [= <-]. split; [done|]. right; right; left. }
  destruct (t =? SSH2_MSG_NEWKEYS). { intros [= <-]. split; [done|]. right; left. }
  intros (s1 & E1 & E)%res_bind_Ok.
  assert (keeps s s1 /\ rx_crState (s2_rx s1) = rx_crState (s2_rx s)) as [H1 H2].
  { destruct ((t =? SSH2_MSG_USERAUTH_SUCCESS) && _); [|by injection E1 as <-].
    apply res_bind_Ok in E1 as (s2 & E2 & E1). apply enable_keeps in E2. by injection E1 as <-. }
  assert (Hfin : forall b, finish_type s1 t b = Ok r -> ends s r).
  { intros b. unfold finish_type. intros [= <-]. split; [|done]. cbn [state_of]. destruct (fl_pending_compression (s2_flags s1) && userauth_range t); exact H1. }
  destruct (t =? SSH2_MSG_EXT_INFO); [|by apply (Hfin _ E)].
  destruct (_ && (fl_nnewkeys (s2_flags s1) =? 1)); [by apply (Hfin _ E)|].
  destruct (fl_is_server (s2_flags s1)); [injection E as <-; split; [done|]; right; right; left|].
  destruct ((0 <? fl_nnewkeys (s2_flags s1)) && _); [injection E as <-; split; [done|]; right; right; left|by apply (Hfin _ E)].
Qed.

Lemma read_ends s len packetlen data r : packet_read s len packetlen data = Ok r -> ends s r.
Proof.
  unfold packet_read. intros (pad & _ & E)%res_bind_Ok. destruct (_ || _).
  { injection E as <-. split; [done|]. left. }
  unfold c_assert in E. destruct (0 <=? _); [|done].
  apply res_bind_Ok in E as (payload & _ & E). apply res_bind_Ok in E as ([p de] & _ & E).
  destruct (match p with [] => _ | t :: c => _ end) as [t c]. apply res_bind_Ok in E as (u & Eu & E).
  pose proof (check_eof _ _ _ _ Eu) as He. destruct u.1.
  - injection E as <-. by split.
  - apply queued_ends in E as [H1 H2]. split; [|done].
    eapply keeps_trans; [|exact H1]. by split_and!.
Qed.

Lemma verify_keeps s data len maclen v : in_verify s data len maclen = Ok v ->
  keeps s v.2 /\ rx_crState (s2_rx v.2) = rx_crState (s2_rx s).
Proof.
  unfold in_verify. destruct (d_mac _); [|by intros [= <-]].
  intros (b & _ & E)%res_bind_Ok. apply res_bind_Ok in E as (c & _ & E). apply res_bind_Ok in E as (u & _ & E).
  by injection E as <-.
Qed.

Lemma decrypt_keeps s l : keeps s (in_decrypt s l).2 /\ rx_crState (s2_rx (in_decrypt s l).2) = rx_crState (s2_rx s).
Proof. by rewrite in_decrypt_ok. Qed.

(** What a read does to the invariant and the rank. *)
Definition good_read s (n : nat) (r : round (ssh2_bpp_state X ZC ZD R)) : Prop :=
  keeps s (state_of r) /\ point_ok (rx_crState (s2_rx (state_of r))) /\
  match r with
  | Continue s' => (bpp2_rank s' < bpp2_rank s + 3 * n)%nat /\ rx_crState (s2_rx s') <> CR_STALE
  | Return _ => True
  end.

Lemma ends_good s s0 n r : ends s0 r -> keeps s s0 ->
  (2 < bpp2_rank s + 3 * n)%nat -> good_read s n r.
Proof.
  intros [Hk Hr] Hk0 Hn. split; [by eapply keeps_trans|]. destruct r as [s'|s']; cbn [state_of] in *.
  - split; [|done]. rewrite !elem_of_cons, elem_of_nil in Hr. by destruct Hr as [->|[->|[->|[]]]].
  - unfold bpp2_rank at 1. by rewrite Hr.
Qed.

Lemma abort_good s s0 n msg : keeps s s0 -> good_read s n (Return (set_bpp (at_point s0 CR_START) (b_emit (s2_bpp s0) [Ev_sw_abort msg]))).
Proof. intros H. by split_and!. Qed.

Lemma cbc_mac_good s fr (d : list Z) r : rx_crState (s2_rx s) = CR_CBC_MAC fr -> framing_ok fr -> cbc_mac s fr d = Ok r ->
  good_read s (length d) r.
Proof.
  intros Ec Hf. unfold cbc_mac. destruct (d_mac _) as [m|]; [|done]. intros (buf & _ & [= <-])%res_bind_Ok.
  split_and!; try done. unfold bpp2_rank. rewrite Ec. cbn. lia.
Qed.

Lemma cbc_block_good s fr buf packetlen (d : list Z) r : rx_crState (s2_rx s) = CR_CBC_BLOCK fr buf packetlen -> framing_ok fr ->
  Z.of_nat (length d) = fr_cipherblk fr -> cbc_block s fr buf packetlen d = Ok r -> good_read s (length d) r.
Proof.
  intros Ec Hf Hd. unfold cbc_block. intros (buf1 & _ & E)%res_bind_Ok. apply res_bind_Ok in E as (piece & _ & E).
  destruct (decrypt_keeps s piece) as [Hk1 Hc1]. destruct (in_decrypt s piece) as [p1 s1]. cbn [snd] in *.
  apply res_bind_Ok in E as (buf2 & _ & E). destruct (d_mac _) as [m|]; [|done].
  apply res_bind_Ok in E as (cand & _ & E). apply res_bind_Ok in E as ([ok x] & _ & E).
  apply res_bind_Ok in E as (field & _ & E). unfold framing_ok in Hf. set (s2 := set_in_crypto s1 x) in E.
  assert (Hk2 : keeps s s2) by exact Hk1.
  destruct (ok && _).
  - apply res_bind_Ok in E as (all & _ & E). apply read_ends in E.
    apply (ends_good s s2); [done|done|]. unfold bpp2_rank. rewrite Ec. cbn. lia.
  - destruct (_ <=? _); injection E as <-; [exact (abort_good s s2 _ _ Hk2)|]. split_and!; try done.
    unfold bpp2_rank. rewrite Ec. cbn. lia.
Qed.

Lemma etm_length_good s fr (d : list Z) r : rx_crState (s2_rx s) = CR_ETM_LENGTH fr -> framing_ok fr -> length d = 4%nat ->
  etm_length s fr d = Ok r -> good_read s (length d) r.
Proof.
  intros Ec Hf Hd. unfold etm_length.
  set (fs := match d_cipher (rx_dir s) with Some _ => _ | None => _ end).
  assert (Hk : keeps s fs.2).
  { unfold fs. destruct (d_cipher (rx_dir s)) as [c|]; [|done]. destruct (cipher_flag c _); [|done].
    by destruct (ca_decrypt_length _ _ _ _). }
  destruct fs as [field s1]. cbn [snd] in Hk. set (len := toint _). intros E.
  destruct ((len <? 0) || _ || _) eqn:Eb; [injection E as <-; by apply abort_good|].
  apply orb_false_iff in Eb as [[H1 H2]%orb_false_iff _]. apply Z.ltb_ge in H1, H2.
  apply res_bind_Ok in E as (pd & _ & [= <-]). split_and!; try done.
  unfold bpp2_rank. rewrite Ec, Hd. cbn. lia.
Qed.

Lemma etm_rest_good s fr len pd (d : list Z) r : rx_crState (s2_rx s) = CR_ETM_REST fr len pd -> point_ok (CR_ETM_REST fr len pd) ->
  etm_rest s fr len pd d = Ok r -> good_read s (length d) r.
Proof.
  intros Ec Hp. unfold etm_rest. intros (pd1 & _ & E)%res_bind_Ok. apply res_bind_Ok in E as ([ok s1] & Ev & E).
  apply verify_keeps in Ev as [Hk1 Hc1]. cbn [snd] in *.
  destruct ok; cbn [negb] in E; [|injection E as <-; by apply abort_good].
  apply res_bind_Ok in E as (ci & _ & E). destruct (decrypt_keeps s1 ci) as [Hk2 Hc2].
  destruct (in_decrypt s1 ci) as [p s2]. cbn [snd] in *. apply res_bind_Ok in E as (pd2 & _ & E). apply read_ends in E.
  apply (ends_good s s2); [done|by eapply keeps_trans|]. unfold bpp2_rank. rewrite Ec. cbn. lia.
Qed.

Lemma std_first_good s fr (d : list Z) r : rx_crState (s2_rx s) = CR_STD_FIRST fr -> framing_ok fr ->
  Z.of_nat (length d) = fr_cipherblk fr -> std_first s fr d = Ok r -> good_read s (length d) r.
Proof.
  intros Ec Hf Hd. unfold std_first. intros (buf & _ & E)%res_bind_Ok.
  destruct (decrypt_keeps s (bl_bytes buf)) as [Hk1 Hc1]. destruct (in_decrypt s _) as [p s1]. cbn [snd] in *.
  apply res_bind_Ok in E as (field & _ & E). set (len := toint _) in E. unfold framing_ok in Hf.
  destruct ((len <? 0) || _ || _) eqn:Eb; [injection E as <-; by apply abort_good|].
  apply orb_false_iff in Eb as [[H1 H2]%orb_false_iff H3]. apply Z.ltb_ge in H1, H2.
  apply negb_false_iff, Z.eqb_eq, Z.mod_divide in H3; [|lia]. apply Z.divide_pos_le in H3; [|lia].
  apply res_bind_Ok in E as (pd & _ & [= <-]). split_and!; try done.
  unfold bpp2_rank. rewrite Ec. cbn. lia.
Qed.

Lemma std_rest_good s fr len pd (d : list Z) r : rx_crState (s2_rx s) = CR_STD_REST fr len pd -> point_ok (CR_STD_REST fr len pd) ->
  std_rest s fr len pd d = Ok r -> good_read s (length d) r.
Proof.
  intros Ec Hp. unfold std_rest. intros (pd1 & _ & E)%res_bind_Ok. apply res_bind_Ok in E as (ci & _ & E).
  destruct (decrypt_keeps s ci) as [Hk1 Hc1]. destruct (in_decrypt s ci) as [p s1]. cbn [snd] in *.
  apply res_bind_Ok in E as (pd2 & _ & E). apply res_bind_Ok in E as ([ok s2] & Ev & E).
  apply verify_keeps in Ev as [Hk2 Hc2]. cbn [snd] in *.
  destruct ok; cbn [negb] in E; [|injection E as <-; apply abort_good; by eapply keeps_trans].
  apply read_ends in E.
  apply (ends_good s s2); [done|by eapply keeps_trans|]. unfold bpp2_rank. rewrite Ec. cbn. lia.
Qed.

Lemma keeps_sizes s s' : keeps s s' -> sizes_ok (rx_dir s) -> sizes_ok (rx_dir s').
Proof. intros (H1 & H2 & _). unfold sizes_ok, dir_block. by rewrite H1, H2. Qed.

Lemma after_read_good s (d : list Z) r : bpp2_inv s -> bpp2_read_len s = Some (Z.of_nat (length d)) ->
  bpp2_after_read s d = Ok r -> good_read s (length d) r.
Proof.
  intros [Hs Hp] En E. unfold bpp2_read_len, bpp2_after_read in *. set (s0 := set_bpp s _) in E.
  change (rx_crState (s2_rx s0)) with (rx_crState (s2_rx s)) in E.
  change (good_read s0 (length d) r).
  destruct (rx_crState (s2_rx s)) eqn:Ec; try done; injection En as En; cbn [point_ok] in Hp.
  - by apply (cbc_mac_good s0 fr).
  - by apply (cbc_block_good s0 fr buf packetlen).
  - apply (etm_length_good s0 fr); (done || lia).
  - by apply (etm_rest_good s0 fr len data).
  - by apply (std_first_good s0 fr).
  - by apply (std_rest_good s0 fr len data).
Qed.

Lemma bpp2_inv_read s (d : list Z) r : bpp2_inv s -> bpp2_read_len s = Some (Z.of_nat (length d)) ->
  bpp2_after_read s d = Ok r ->
  bpp2_inv (state_of r) /\ bpp2_at_eof (state_of r) = bpp2_at_eof s /\
  match r with Continue s' => (bpp2_rank s' < bpp2_rank s + 3 * length d)%nat | Return _ => True end.
Proof.
  intros Hi En E. destruct (after_read_good s d r Hi En E) as (Hk & Hpt & Hr). destruct Hi as [Hs _].
  split; [split; [by eapply keeps_sizes|done]|]. split; [apply Hk|]. destruct r; [done|apply Hr].
Qed.

Lemma first_point_ok s : sizes_ok (rx_dir s) -> point_ok (first_point (rx_dir s)).
Proof. intros H. unfold first_point. by destruct (dir_etm (rx_dir s)), (dir_cbc (rx_dir s)). Qed.

Lemma bpp2_inv_no_read s r : bpp2_inv s -> bpp2_read_len s = None -> bpp2_no_read s = Ok r ->
  bpp2_inv (state_of r) /\ bpp2_at_eof (state_of r) = bpp2_at_eof s /\
  match r with Continue s' => (bpp2_rank s' < bpp2_rank s)%nat | Return _ => True end.
Proof.
  intros [Hs Hp] En E. unfold bpp2_read_len, bpp2_no_read, bpp2_inv in *.
  destruct (rx_crState (s2_rx s)) eqn:Ec; try done.
  - rewrite start_ok in E. injection E as <-. cbn [state_of].
    split_and!; [done..|by apply first_point_ok|done|]. unfold bpp2_rank. rewrite Ec.
    change (rx_crState (s2_rx (started s))) with (first_point (rx_dir s)). unfold first_point.
    destruct (dir_etm (rx_dir s)), (dir_cbc (rx_dir s)); cbn; lia.
  - destruct (fl_pending_newkeys _); injection E as <-; cbn [state_of]; [by rewrite Ec|].
    split_and!; try done. unfold bpp2_rank. rewrite Ec. cbn. lia.
  - destruct (pq_peek _); injection E as <-; cbn [state_of]; [by rewrite Ec|]. cbn. by rewrite Ec.
Qed.

End invariant.

(** ** Arbitrary input

    Without the mode in which the code covers the encrypted packet, and without compression,
    no input makes the receiver read or write outside of its buffers or fail an assertion. *)

Section safety.
  Context {X ZC ZD R : Type}.
  Implicit Types (s : ssh2_bpp_state X ZC ZD R) (d : ssh2_bpp_direction X ZC ZD) (x : X).

(** A cipher keeps the length of what it decrypts, and a code has its length; a maximal packet
    consists of blocks. *)
Record safe_dir d : Prop := {
  sd_sizes : sizes_ok d;
  sd_etm : dir_etm d = false;
  sd_limit : OUR_V2_PACKETLIMIT mod dir_block d = 0;
  sd_decrypt c : d_cipher d = Some c -> forall l x, length (ca_decrypt c l x).1 = length l;
  sd_gen m : d_mac d = Some m -> forall x, Z.of_nat (length (ma_genresult m x).1) = ma_len m;
  sd_pending : d_pending_compression d = None
}.

Definition safe_point d (bufsize : Z) (p : bpp2_point) : Prop :=
  match p with
  | CR_START | CR_NEWKEYS | CR_STALE | CR_EOF => True
  | CR_CBC_MAC fr => fr = dir_framing d /\ OUR_V2_PACKETLIMIT + fr_maclen fr <= bufsize /\ is_Some (d_mac d)
  | CR_CBC_BLOCK fr buf packetlen => fr = dir_framing d /\ is_Some (d_mac d) /\
      OUR_V2_PACKETLIMIT + fr_maclen fr <= bl_size buf /\ Z.of_nat (length (bl_bytes buf)) = packetlen + fr_maclen fr /\
      0 <= packetlen < OUR_V2_PACKETLIMIT /\ packetlen mod fr_cipherblk fr = 0
  | CR_STD_FIRST fr => fr = dir_framing d /\ fr_cipherblk fr <= bufsize
  | CR_STD_REST fr len pd => fr = dir_framing d /\ bl_size pd = len + 4 + fr_maclen fr /\
      Z.of_nat (length (bl_bytes pd)) = fr_cipherblk fr /\ fr_cipherblk fr <= len + 4 /\ len <= OUR_V2_PACKETLIMIT
  | CR_ETM_LENGTH _ | CR_ETM_REST _ _ _ => False
  end.

Definition safe_inv s : Prop :=
  safe_dir (rx_dir s) /\ rx_in_decomp (s2_rx s) = None /\ d_pending_compression (tx_out (s2_tx s)) = None /\
  safe_point (rx_dir s) (rx_bufsize (s2_rx s)) (rx_crState (s2_rx s)).

(** The same but for the position and the states of the methods. *)
Definition alike s s' : Prop :=
  d_cipher (rx_dir s') = d_cipher (rx_dir s) /\ d_mac (rx_dir s') = d_mac (rx_dir s) /\
  d_etm_mode (rx_dir s') = d_etm_mode (rx_dir s) /\
  d_pending_compression (rx_dir s') = d_pending_compression (rx_dir s) /\
  rx_in_decomp (s2_rx s') = rx_in_decomp (s2_rx s) /\ s2_tx s' = s2_tx s /\ rx_bufsize (s2_rx s') = rx_bufsize (s2_rx s).

Lemma alike_trans s1 s2 s3 : alike s1 s2 -> alike s2 s3 -> alike s1 s3.
Proof. intros (? & ? & ? & ? & ? & ? & ?) (? & ? & ? & ? & ? & ? & ?). split_and!; congruence. Qed.

Lemma alike_dir s s' : alike s s' -> safe_dir (rx_dir s) -> safe_dir (rx_dir s') /\ dir_framing (rx_dir s') = dir_framing (rx_dir s).
Proof.
  intros (H1 & H2 & H3 & H4 & _) [S1 S2 S3 S4 S5 S6].
  assert (E : dir_framing (rx_dir s') = dir_framing (rx_dir s)) by (unfold dir_framing, dir_block; by rewrite H1, H2).
  split; [|done]. split; rewrite ?H1, ?H2, ?H4; try done; unfold sizes_ok, dir_etm, dir_block in *; by rewrite ?H1, ?H2, ?H3.
Qed.

Lemma alike_point s s' p : alike s s' -> safe_dir (rx_dir s) -> safe_point (rx_dir s) (rx_bufsize (s2_rx s)) p ->
  safe_point (rx_dir s') (rx_bufsize (s2_rx s')) p.
Proof.
  intros Ha Hd. destruct (alike_dir s s' Ha Hd) as [_ E]. destruct Ha as (_ & H2 & _ & _ & _ & _ & H7).
  unfold safe_point. rewrite E, H2, H7. done.
Qed.

Lemma alike_inv s s' : alike s s' -> safe_inv s -> safe_point (rx_dir s) (rx_bufsize (s2_rx s)) (rx_crState (s2_rx s')) -> safe_inv s'.
Proof.
  intros Ha (Hd & H1 & H2 & _) Hp. pose proof (alike_point s s' _ Ha Hd Hp). destruct (alike_dir s s' Ha Hd) as [Hd' _].
  destruct Ha as (_ & _ & _ & _ & E5 & E6 & _). split_and!; [done|congruence|by rewrite E6|done].
Qed.

(** ** The pieces never fail *)

Lemma check_total b pktin : exists u, ssh2_bpp_check_unimplemented ssh2_bpp_new_pktout b pktin = Ok u.
Proof.
  unfold ssh2_bpp_check_unimplemented. set (bad := if pi_type pktin <? 0x100 then _ else _).
  assert (exists v, bad = Ok v) as [v ->].
  { unfold bad. destruct (Z.ltb_spec (pi_type pktin) 0x100); [|eauto].
    destruct (valid_bitmap !! _) eqn:Ev; [eauto|]. exfalso. apply lookup_ge_None in Ev.
    change (length valid_bitmap) with 8%nat in Ev. rewrite Z.shiftr_div_pow2 in Ev by lia.
    pose proof (Z.div_lt_upper_bound (pi_type pktin) (2 ^ 5) 8). lia. }
  cbn [res_bind]. destruct v; [|eauto].
  destruct (bpp2_new_pktout_ok SSH2_MSG_UNIMPLEMENTED ltac:(done)) as (p1 & -> & [Hp1 _] & _). cbn [res_bind].
  destruct (pkt_appends (fun p => BinarySink_put_uint32 p (pi_sequence pktin)) _ _ _ (appends_write _) Hp1) as (p2 & E & _);
    [cbn; unfold pkt_limit; lia|]. rewrite E. cbn [res_bind]. eauto.
Qed.

(** An outcome that keeps the invariant. *)
Definition safe_end s (q : res (round (ssh2_bpp_state X ZC ZD R))) : Prop :=
  exists r, q = Ok r /\ alike s (state_of r) /\
    rx_crState (s2_rx (state_of r)) ∈ [CR_START; CR_NEWKEYS; CR_STALE].

Lemma end_inv s s0 q : safe_inv s -> alike s s0 -> safe_end s0 q ->
  exists r, q = Ok r /\ safe_inv (state_of r).
Proof.
  intros Hi Ha (r & -> & Hr & Hp). exists r. split; [done|]. apply (alike_inv s); [by eapply alike_trans|done|].
  rewrite !elem_of_cons, elem_of_nil in Hp. by destruct Hp as [->|[->|[->|[]]]].
Qed.

Lemma abort_safe s s0 msg : safe_inv s -> alike s s0 -> exists r, abort s0 msg = Ok r /\ safe_inv (state_of r).
Proof. intros Hi Ha. eexists. split; [done|]. by apply (alike_inv s). Qed.

Lemma queued_safe s t : d_pending_compression (rx_dir s) = None -> d_pending_compression (tx_out (s2_tx s)) = None ->
  safe_end s (packet_queued s t).
Proof.
  intros H1 H2. unfold packet_queued, safe_end. destruct (_ && negb (t =? SSH2_MSG_USERAUTH_SUCCESS)).
  { eexists. split; [done|]. split; [by split_and!|]. right; right; left. }
  destruct (t =? SSH2_MSG_NEWKEYS). { eexists. split; [done|]. split; [by split_and!|]. right; left. }
  set (s0 := set_flags (set_flags s _) _). set (q := if _ && negb _ then _ else Ok s0).
  assert (Hq : exists s1, q = Ok s1 /\ alike s s1 /\ rx_crState (s2_rx s1) = rx_crState (s2_rx s)).
  { unfold q. destruct (_ && _); [|exists s0; by split_and!].
    unfold ssh2_bpp_enable_pending_compression. change (rx_dir s0) with (rx_dir s). rewrite H1. cbn [res_bind].
    change (s2_tx s0) with (s2_tx s). rewrite H2. cbn [res_bind]. eexists. by split_and!. }
  destruct Hq as (s1 & -> & Ha & Ep). cbn [res_bind].
  assert (Hfin : forall b, exists r, finish_type s1 t b = Ok r /\ alike s (state_of r) /\
    rx_crState (s2_rx (state_of r)) ∈ [CR_START; CR_NEWKEYS; CR_STALE]).
  { intros b. unfold finish_type. eexists. split; [done|]. cbn [state_of]. split; [|left].
    destruct (fl_pending_compression (s2_flags s1) && userauth_range t); exact Ha. }
  assert (Herr : forall msg, exists r, proto_error s1 msg = Ok r /\ alike s (state_of r) /\
    rx_crState (s2_rx (state_of r)) ∈ [CR_START; CR_NEWKEYS; CR_STALE]).
  { intros msg. eexists. split; [done|]. split; [exact Ha|]. right; right; left. }
  repeat case_match; auto.
Qed.

Lemma read_safe s len pd : safe_inv s -> 0 <= len -> len + 4 <= Z.of_nat (length (bl_bytes pd)) -> 5 <= len + 4 ->
  safe_end s (packet_read s len (len + 4) pd).
Proof.
  intros (Hd & Hde & Htx & _) Hlen Hl H5. unfold packet_read. rewrite read_at_ok by lia. cbn [res_bind].
  set (pad := nth 0 _ 0). destruct ((pad <? 4) || _) eqn:Eb.
  { eexists. split; [done|]. split; [by split_and!|]. left. }
  apply orb_false_iff in Eb as [H1 H2]. apply Z.ltb_ge in H1, H2.
  rewrite c_assert_true by (apply Z.leb_le; lia). rewrite read_at_ok by lia. cbn [res_bind rx_in_decomp]. rewrite Hde. cbn [res_bind].
  destruct (match take _ _ with [] => _ | t :: c => _ end) as [t c].
  match goal with |- context [ssh2_bpp_check_unimplemented _ ?b ?p] => destruct (check_total b p) as [u ->] end. cbn [res_bind].
  destruct u.1; [eexists; split; [done|]; split; [by split_and!|left]|].
  match goal with |- safe_end s (packet_queued ?s1 t) => destruct (queued_safe s1 t) as (r & E & Ha & Hp) end;
    [apply (sd_pending _ Hd)|done|]. exists r. split; [exact E|]. split; [|exact Hp]. eapply alike_trans; [|exact Ha]. split_and!; (done || (symmetry; exact Hde)).
Qed.

Lemma decrypt_safe s l : safe_dir (rx_dir s) ->
  exists p s', in_decrypt s l = (p, s') /\ length p = length l /\ alike s s' /\ rx_crState (s2_rx s') = rx_crState (s2_rx s).
Proof.
  intros Hd. rewrite in_decrypt_ok. eexists _, _. split; [done|]. split; [|by split_and!].
  unfold o_decrypt. destruct (d_cipher (rx_dir s)) as [c|] eqn:Ec; [|done]. by apply (sd_decrypt _ Hd).
Qed.

Lemma smemeq_total a b n : (n <= length a)%nat -> (n <= length b)%nat -> forall v, exists u, smemeq_loop a b n v = Ok u.
Proof.
  revert a b. induction n as [|n IH]; intros [|x a] [|y b] Ha Hb v; cbn [length] in *; try lia; cbn [smemeq_loop]; eauto.
  apply IH; lia.
Qed.

Lemma verresult_safe d m x l : safe_dir d -> d_mac d = Some m -> Z.of_nat (length l) = ma_len m ->
  exists u, ssh2_mac_verresult m x l = Ok u.
Proof.
  intros Hd Em Hl. destruct (sd_sizes _ Hd) as [_ Hm]. unfold mac_length in Hm. rewrite Em in Hm.
  unfold ssh2_mac_verresult. rewrite c_assert_true by (apply Z.leb_le; lia).
  pose proof (sd_gen _ Hd m Em x) as Hg. destruct (ma_genresult m x) as [c x']. cbn [fst] in Hg. unfold smemeq.
  destruct (smemeq_total c l (Z.to_nat (ma_len m)) ltac:(lia) ltac:(lia) 0) as [u ->]. cbn [res_bind]. eauto.
Qed.

Lemma verify_safe s pd len : safe_dir (rx_dir s) -> 0 <= len ->
  Z.of_nat (length (bl_bytes pd)) = len + 4 + fr_maclen (dir_framing (rx_dir s)) ->
  exists ok s', in_verify s pd len (fr_maclen (dir_framing (rx_dir s))) = Ok (ok, s') /\ alike s s' /\ rx_crState (s2_rx s') = rx_crState (s2_rx s).
Proof.
  intros Hd Hlen Hl. unfold in_verify. cbn [dir_framing fr_maclen] in *. destruct (sd_sizes _ Hd) as [_ Hm].
  destruct (d_mac (rx_dir s)) as [m|] eqn:Em; [|exists true, s; by split_and!]. cbn [mac_length] in *.
  rewrite !read_at_ok by lia. cbn [res_bind]. unfold ssh2_mac_verify.
  match goal with |- context [ssh2_mac_verresult m ?x ?l] => destruct (verresult_safe (rx_dir s) m x l Hd Em) as [u ->] end.
  { rewrite length_take, length_drop. lia. }
  cbn [res_bind]. eexists _, _. by split_and!.
Qed.

Lemma block_overwrite bl off (l : list Z) : 0 <= off -> off + Z.of_nat (length l) <= Z.of_nat (length (bl_bytes bl)) ->
  Z.of_nat (length (bl_bytes bl)) <= bl_size bl ->
  exists bl', block_write bl off l = Ok bl' /\ bl_size bl' = bl_size bl /\ length (bl_bytes bl') = length (bl_bytes bl).
Proof.
  intros H1 H2 H3. unfold block_write. rewrite !(proj2 (Z.leb_le _ _)) by lia. eexists. split; [done|]. split; [done|].
  cbn [bl_bytes]. rewrite !length_app, length_take, length_drop. lia.
Qed.

Lemma block_extend bl off (l : list Z) : off = Z.of_nat (length (bl_bytes bl)) -> off + Z.of_nat (length l) <= bl_size bl ->
  block_write bl off l = Ok (Block (bl_size bl) (bl_bytes bl ++ l)).
Proof. intros -> H. destruct bl as [sz by_]. apply block_append; [done|]. cbn in *. rewrite length_app. lia. Qed.

(** The invariant after a read. *)
Definition safe_read s (q : res (round (ssh2_bpp_state X ZC ZD R))) : Prop := exists r, q = Ok r /\ safe_inv (state_of r).

Lemma cbc_mac_safe s fr (d : list Z) : safe_inv s -> rx_crState (s2_rx s) = CR_CBC_MAC fr -> Z.of_nat (length d) = fr_maclen fr ->
  safe_read s (cbc_mac s fr d).
Proof.
  intros Hi Ec Hl. pose proof Hi as (Hd & _ & _ & Hp). rewrite Ec in Hp. destruct Hp as (Efr & Hb & [m Em]).
  unfold OUR_V2_PACKETLIMIT in Hb. rewrite (cbc_mac_ok s fr m d Em) by lia. eexists. split; [done|]. cbn [state_of].
  apply (alike_inv s); [by split_and!|done|]. cbn. split_and!; try done; eauto.
Qed.

Lemma blocks_below a b blk : 0 < blk -> a mod blk = 0 -> b mod blk = 0 -> a < b -> a + blk <= b.
Proof.
  intros Hb [q ->]%Z.mod_divide [p ->]%Z.mod_divide Hlt; try lia. assert (q < p) by nia. nia.
Qed.

Lemma cbc_block_safe s fr buf packetlen (d : list Z) : safe_inv s -> rx_crState (s2_rx s) = CR_CBC_BLOCK fr buf packetlen ->
  Z.of_nat (length d) = fr_cipherblk fr -> safe_read s (cbc_block s fr buf packetlen d).
Proof.
  intros Hi Ec Hl. pose proof Hi as (Hd & _ & _ & Hp). rewrite Ec in Hp. destruct Hp as (Efr & [m Em] & Hsz & Hby & Hpl & Hmod).
  destruct (sd_sizes _ Hd) as [Hblk Hmac]. pose proof (sd_limit _ Hd) as Hlim.
  assert (Hfb : fr_cipherblk fr = dir_block (rx_dir s)) by (by rewrite Efr). assert (Hfm : fr_maclen fr = ma_len m) by (rewrite Efr; cbn; by rewrite Em).
  unfold mac_length in Hmac. rewrite Em in Hmac.
  assert (Hle : packetlen + fr_cipherblk fr <= OUR_V2_PACKETLIMIT) by (rewrite Hfb in *; apply blocks_below; (done || lia)).
  unfold cbc_block. rewrite (block_extend buf) by lia. cbn [res_bind bl_bytes].
  rewrite read_at_ok by (rewrite ?length_app; lia). cbn [res_bind].
  set (piece := take _ _). assert (Hlp : Z.of_nat (length piece) = fr_cipherblk fr).
  { unfold piece. rewrite length_take, length_drop, length_app. lia. }
  destruct (decrypt_safe s piece Hd) as (p1 & s1 & -> & Hlp1 & Ha1 & Hc1).
  destruct (block_overwrite (Block (bl_size buf) (bl_bytes buf ++ d)) packetlen p1) as (buf2 & -> & Hsz2 & Hl2);
    [lia|cbn; rewrite length_app; lia|cbn; rewrite length_app; lia|]. cbn [res_bind bl_size bl_bytes] in *. rewrite length_app in Hl2.
  pose proof Ha1 as (_ & Em1 & _). rewrite Em1, Em. cbn zeta. rewrite read_at_ok by lia. cbn [res_bind].
  match goal with |- context [ssh2_mac_verresult m ?x ?l] => destruct (verresult_safe (rx_dir s) m x l Hd Em) as [[ok y] ->] end.
  { rewrite length_take, length_drop. lia. }
  cbn [res_bind]. rewrite read_at_ok by lia. cbn [res_bind].
  set (s2 := set_in_crypto s1 y). assert (Ha2 : alike s s2) by (eapply alike_trans; [exact Ha1|by split_and!]).
  destruct (ok && _) eqn:Eok.
  - apply andb_true_iff in Eok as [_ Ek%Z.eqb_eq]. rewrite read_at_ok by lia. cbn [res_bind].
    assert (Hi2 : safe_inv s2).
    { apply (alike_inv s); [done|done|]. change (rx_crState (s2_rx s2)) with (rx_crState (s2_rx s1)). rewrite Hc1. apply Hi. }
    apply (end_inv s s2); [done|done|]. rewrite Ek. replace (packetlen + fr_cipherblk fr) with (packetlen + fr_cipherblk fr - 4 + 4) at 2 by lia.
    apply read_safe; [done|lia|cbn; rewrite length_take, length_drop; lia|lia].
  - destruct (Z.leb_spec OUR_V2_PACKETLIMIT (packetlen + fr_cipherblk fr)) as [Hge|Hlt]; [by apply (abort_safe s s2)|].
    eexists. split; [done|]. cbn [state_of]. apply (alike_inv s); [exact Ha2|done|]. cbn.
    split_and!; try done; try lia; try (by exists m). rewrite <-Zplus_mod_idemp_l, Hmod. apply Z_mod_same_full.
Qed.

Lemma std_first_safe s fr (d : list Z) : safe_inv s -> rx_crState (s2_rx s) = CR_STD_FIRST fr -> Z.of_nat (length d) = fr_cipherblk fr ->
  safe_read s (std_first s fr d).
Proof.
  intros Hi Ec Hl. pose proof Hi as (Hd & _ & _ & Hp). rewrite Ec in Hp. destruct Hp as (Efr & Hb).
  destruct (sd_sizes _ Hd) as [Hblk Hmac]. assert (Hfb : fr_cipherblk fr = dir_block (rx_dir s)) by (by rewrite Efr).
  assert (Hfm : fr_maclen fr = mac_length (d_mac (rx_dir s))) by (by rewrite Efr).
  unfold std_first. rewrite (block_extend (Block _ [])) by (cbn; lia). cbn [res_bind bl_bytes bl_size app].
  destruct (decrypt_safe s d Hd) as (p1 & s1 & -> & Hlp1 & Ha1 & Hc1). rewrite read_at_ok by lia. cbn [res_bind].
  set (len := toint _). destruct ((len <? 0) || _ || _) eqn:Eb; [by apply (abort_safe s s1)|].
  apply orb_false_iff in Eb as [[H1 H2]%orb_false_iff H3]. apply Z.ltb_ge in H1, H2.
  apply negb_false_iff, Z.eqb_eq, Z.mod_divide in H3; [|lia]. apply Z.divide_pos_le in H3; [|lia].
  rewrite (block_extend (Block _ [])) by (cbn; lia). cbn [res_bind bl_bytes bl_size app].
  eexists. split; [done|]. cbn [state_of]. apply (alike_inv s); [exact Ha1|done|]. cbn. split_and!; (done || lia).
Qed.

Lemma std_rest_safe s fr len pd (d : list Z) : safe_inv s -> rx_crState (s2_rx s) = CR_STD_REST fr len pd ->
  Z.of_nat (length d) = len + 4 + fr_maclen fr - fr_cipherblk fr -> safe_read s (std_rest s fr len pd d).
Proof.
  intros Hi Ec Hl. pose proof Hi as (Hd & _ & _ & Hp). rewrite Ec in Hp. destruct Hp as (Efr & Hsz & Hby & Hb1 & Hb2).
  destruct (sd_sizes _ Hd) as [Hblk Hmac]. assert (Hfb : fr_cipherblk fr = dir_block (rx_dir s)) by (by rewrite Efr).
  assert (Hfm : fr_maclen fr = mac_length (d_mac (rx_dir s))) by (by rewrite Efr).
  unfold std_rest. rewrite (block_extend pd) by lia. cbn [res_bind bl_bytes].
  rewrite read_at_ok by (rewrite ?length_app; lia). cbn [res_bind].
  set (ci := take _ _). assert (Hlc : Z.of_nat (length ci) = len + 4 - fr_cipherblk fr).
  { unfold ci. rewrite length_take, length_drop, length_app. lia. }
  destruct (decrypt_safe s ci Hd) as (p1 & s1 & -> & Hlp1 & Ha1 & Hc1).
  destruct (block_overwrite (Block (bl_size pd) (bl_bytes pd ++ d)) (fr_cipherblk fr) p1) as (pd2 & -> & Hsz2 & Hl2);
    [lia|cbn; rewrite length_app; lia|cbn; rewrite length_app; lia|]. cbn [res_bind bl_size bl_bytes] in *. rewrite length_app in Hl2.
  destruct (alike_dir s s1 Ha1 Hd) as [Hd1 Ef1].
  destruct (verify_safe s1 pd2 len Hd1) as (ok & s2 & Ev & Ha2 & Hc2); [lia|rewrite Ef1, <-Efr; lia|].
  rewrite Ef1, <-Efr in Ev. rewrite Ev. cbn [res_bind]. assert (Ha : alike s s2) by (by eapply alike_trans).
  destruct ok; cbn [negb]; [|by apply (abort_safe s s2)].
  assert (Hi2 : safe_inv s2) by (apply (alike_inv s); [done|done|rewrite Hc2, Hc1; apply Hi]).
  apply (end_inv s s2); [done|done|]. apply read_safe; (done || lia).
Qed.

Lemma after_read_safe s (d : list Z) : safe_inv s -> bpp2_read_len s = Some (Z.of_nat (length d)) -> safe_read s (bpp2_after_read s d).
Proof.
  intros Hi En. unfold bpp2_read_len, bpp2_after_read in *. set (s0 := set_bpp s _).
  change (rx_crState (s2_rx s0)) with (rx_crState (s2_rx s)). assert (Hi0 : safe_inv s0) by exact Hi.
  pose proof Hi as (_ & _ & _ & Hp). destruct (rx_crState (s2_rx s)) eqn:Ec; try done; injection En as En.
  - by apply (cbc_mac_safe s0).
  - by apply (cbc_block_safe s0).
  - by apply (std_first_safe s0).
  - by apply (std_rest_safe s0).
Qed.

Lemma started_safe s : safe_inv s -> safe_inv (started s).
Proof.
  intros (Hd & Hde & Htx & _). split_and!; try done. unfold started. cbn [set_rx s2_rx rx_in rx_bufsize rx_crState].
  unfold first_point, first_size. rewrite (sd_etm _ Hd). destruct (dir_cbc (rx_dir s)) eqn:Ec; cbn; split_and!; try done; try lia.
  unfold dir_cbc in Ec. destruct (d_cipher (rx_dir s)), (d_mac (rx_dir s)); done.
Qed.

(** No protocol error has been reported. *)
Definition alive s : bool := match rx_crState (s2_rx s) with CR_STALE => false | _ => true end.

Lemma no_read_safe s : safe_inv s -> alive s = true -> bpp2_read_len s = None -> safe_read s (bpp2_no_read s).
Proof.
  unfold alive. intros Hi Ha En. unfold bpp2_read_len, bpp2_no_read in *. destruct (rx_crState (s2_rx s)) eqn:Ec; try done.
  - rewrite start_ok. eexists. split; [done|]. by apply started_safe.
  - destruct (fl_pending_newkeys _); (eexists; split; [done|]); [done|]. by apply (alike_inv s).
  - destruct (pq_peek _); (eexists; split; [done|]); [done|]. apply (alike_inv s); [by split_and!|done|]. cbn. by rewrite Ec.
Qed.

Lemma no_read_alive s s' : bpp2_no_read s = Ok (Continue s') -> alive s' = true.
Proof.
  unfold bpp2_no_read. destruct (rx_crState (s2_rx s)) eqn:Ec; try done.
  - rewrite start_ok. intros [= <-]. unfold alive. cbn. unfold first_point. by destruct (dir_etm (rx_dir s)), (dir_cbc (rx_dir s)).
  - destruct (fl_pending_newkeys _); [done|]. by intros [= <-].
  - by destruct (pq_peek _).
Qed.

Lemma safe_bpp2_inv s : safe_inv s -> bpp2_inv s.
Proof.
  intros (Hd & _ & _ & Hp). destruct (sd_sizes _ Hd) as [H1 H2]. split; [done|]. unfold safe_point, point_ok in *.
  assert (Hf : framing_ok (dir_framing (rx_dir s))) by done.
  destruct (rx_crState (s2_rx s)); try done; destruct Hp as (-> & Hp); split_and!; try apply Hf; lia.
Qed.

End safety.
