(* ===== verification/Bpp2Spec.v ===== *)
(** * The binary packet protocol of SSH-2: what is sent is received

    The sender's and the receiver's states stay in step from packet to packet, in every mode
    and with or without compression. *)

From Stdlib Require Import String.
From stdpp Require Import gmap.
From S2P Require Import Prelude Callback Bufchain Marshal Strbuf ConfData Filename Lz77 Zlib ZlibSpec Ptrlen.
From S2P Require Import Packet Bpp BppBare BppBareSpec Bpp2 Bpp2Crypto Bpp2Send Bpp2Recv Bpp2Safe.
Local Open Scope cmodel_scope.
Local Open Scope Z_scope.

Section spec.
  Context {X ZC ZD R K : Type} (random_read : Z -> R -> list Z * R) `{HR : !RandomLaws random_read}.
  Context (keyed : X -> X -> Prop) (key : X -> K) (data : X -> list Z) (tag : K -> list Z -> list Z).
  Context (linked : ZC -> ZD -> Prop).
  Implicit Types (s : ssh2_bpp_state X ZC ZD R) (tx : @bpp2_tx X ZC ZD R).

(** The compressor and the decompressor, if there are any. *)
Definition comp_in_step (co : option (ssh_compressor ZC ZD)) (de : option (ssh_decompressor ZC ZD)) : Prop :=
  match co, de with
  | None, None => True
  | Some co, Some de => CompressionLaws (co_vt co) linked /\ de_vt de = co_vt co /\ linked (co_state co) (de_state de)
  | _, _ => False
  end.

(** The receiver [s] awaits the next packet of the sender [tx]. *)
Record synced tx s : Prop := {
  sy_point : rx_crState (s2_rx s) = CR_START;
  sy_dirs : dirs_in_step keyed key (tx_out tx) (rx_dir s);
  sy_lawful : lawful keyed key data tag (tx_out tx);
  sy_comp : comp_in_step (tx_out_comp tx) (rx_in_decomp (s2_rx s));
  sy_flag : fl_enforce_next_packet_is_userauth_success (s2_flags s) = false
}.

(** The bytes [w] carry the messages [ms]. *)
Definition carries tx (w : list Z) (ms : list message) tx' : Prop :=
  forall s rest, synced tx s -> exists s', bpp2_leads s (w ++ rest) s' rest /\ synced tx' s' /\
    pq_packets (b_in_pq (s2_bpp s')) = pq_packets (b_in_pq (s2_bpp s)) ++ arrivals ms (d_sequence (rx_dir s)) /\
    bpp2_at_eof s' = bpp2_at_eof s /\ d_sequence (rx_dir s') = foldl (fun n _ => next_sequence n) (d_sequence (rx_dir s)) ms.

Lemma arrivals_app ms1 : forall ms2 sq, arrivals (ms1 ++ ms2) sq =
  arrivals ms1 sq ++ arrivals ms2 (foldl (fun n _ => next_sequence n) sq ms1).
Proof. induction ms1 as [|m ms1 IH]; intros ms2 sq; [done|]. cbn [app arrivals foldl]. by rewrite IH. Qed.

Lemma carries_nil tx : carries tx [] [] tx.
Proof. intros s rest Hs. exists s. split_and!; [apply leads_refl|done|by rewrite app_nil_r|done|done]. Qed.

Lemma carries_app tx1 w1 ms1 tx2 w2 ms2 tx3 : carries tx1 w1 ms1 tx2 -> carries tx2 w2 ms2 tx3 ->
  carries tx1 (w1 ++ w2) (ms1 ++ ms2) tx3.
Proof.
  intros H1 H2 s rest Hs. destruct (H1 s (w2 ++ rest) Hs) as (s1 & L1 & Hs1 & Q1 & E1 & N1).
  destruct (H2 s1 rest Hs1) as (s2 & L2 & Hs2 & Q2 & E2 & N2). exists s2. rewrite <-app_assoc. split_and!.
  - by eapply leads_trans.
  - done.
  - by rewrite Q2, Q1, N1, arrivals_app, app_assoc.
  - congruence.
  - by rewrite N2, N1, foldl_app.
Qed.

Lemma next_dirs (dx dy : ssh2_bpp_direction X ZC ZD) x y : dirs_in_step keyed key dx dy -> lawful keyed key data tag dx ->
  in_step (cipher := d_cipher dx) (keyed := keyed) x y -> same_key (mac := d_mac dx) (key := key) x y ->
  dirs_in_step keyed key (dir_next_message (dir_set_crypto dx x)) (dir_next_message (dir_set_crypto dy y)).
Proof.
  intros (E1 & E2 & E3 & E4 & _) HM Hs Hk. destruct (next_ok (HM := HM) x y Hs Hk) as [H1 H2].
  split_and!; cbn [dir_next_message dir_set_crypto d_cipher d_mac d_etm_mode d_sequence d_crypto]; try done.
  - by rewrite E4.
  - by rewrite E1, E2.
  - by rewrite E1, E2.
Qed.

(** ** One packet *)

(** How large the payload is on the wire at most. *)
Definition wire_bound tx (n minlen : Z) : Z :=
  match tx_out_comp tx with None => n | Some _ => 2 * n + minlen + 8 end.

(** The smallest size that the compressor is asked for. *)
Definition comp_minlen tx (minlen : Z) : Z := if minlen =? 0 then 0 else minlen - out_mac_len tx - 8.

(** Room for the header and the padding. *)
Definition payload_limit : Z := OUR_V2_PACKETLIMIT - 260.

(** A message that fits, with the minimal length of its packet. *)
Definition sized tx (m : message) (minlen : Z) : Prop :=
  bytesOK (m.1 :: m.2) /\ 0 <= minlen /\ (minlen <> 0 -> out_mac_len tx + 8 <= minlen) /\
  wire_bound tx (1 + Z.of_nat (length m.2)) minlen <= payload_limit /\ 1 + Z.of_nat (length m.2) <= payload_limit /\
  minlen + 8 <= payload_limit.

Definition sendable tx (m : message) (minlen : Z) : Prop := sized tx m minlen /\ plain_type m.1.

(** What compression makes of the payload, and what the receiver makes of that. *)
Lemma compress_ok tx pkt m s : synced tx s -> bpp2_packet pkt (m.1 :: m.2) -> sized tx m (po_minlen pkt) ->
  exists z pkt1 tx1 de', compress_payload tx pkt = Ok (pkt1, tx1) /\ bpp2_packet pkt1 z /\ z <> [] /\
    Z.of_nat (length z) <= payload_limit /\ tx_out tx1 = tx_out tx /\ tx_random tx1 = tx_random tx /\
    tx_cbc_ignore_workaround tx1 = tx_cbc_ignore_workaround tx /\
    inflates (rx_in_decomp (s2_rx s)) z (m.1 :: m.2) de' /\ comp_in_step (tx_out_comp tx1) de' /\
    (is_Some (tx_out_comp tx1) <-> is_Some (tx_out_comp tx)).
Proof.
  intros Hs Hp (Hb & Hm0 & Hm & Hw & Hl & Hml). pose proof (sy_comp _ _ Hs) as Hc.
  unfold compress_payload, comp_in_step, wire_bound, inflates, payload_limit, OUR_V2_PACKETLIMIT in *.
  destruct (tx_out_comp tx) as [co|] eqn:Eco, (rx_in_decomp (s2_rx s)) as [dc|]; try done.
  2: { exists (m.1 :: m.2), pkt, tx, None. rewrite Eco. split_and!; try done; cbn [length]; try lia. }
  destruct Hc as (HC & Evt & Hlk). rewrite to_int_small by lia.
  change (if po_minlen pkt =? 0 then 0 else po_minlen pkt - out_mac_len tx - 8) with (comp_minlen tx (po_minlen pkt)).
  assert (Hom : 0 <= out_mac_len tx) by (apply (mac_length_bound (HM := sy_lawful _ _ Hs))).
  assert (Hcm : 0 <= comp_minlen tx (po_minlen pkt) <= po_minlen pkt).
  { unfold comp_minlen. destruct (Z.eqb_spec (po_minlen pkt) 0); lia. }
  destruct Hp as [Hp _]. rewrite (pkt_bytes_ok _ _ Hp). cbn [res_bind]. pose proof Hp as (_ & Hlen & _).
  rewrite length_app, length_replicate in Hlen.
  rewrite <-(app_nil_r (replicate 5 0 ++ _)), <-app_assoc, read_at_app by (done || lia). cbn [res_bind].
  destruct (z_packet (co_state co) (de_state dc) (m.1 :: m.2) (comp_minlen tx (po_minlen pkt)) Hlk Hb) as
    (z & co' & de' & -> & D & Hbz & _ & Hlz & Hlk'); [cbn [length]; lia|lia|]. cbn [res_bind fst snd length] in *.
  assert (Hp5 : pkt_holds (pkt_set_length pkt 5) (replicate 5 0)).
  { pose proof (pkt_set_length_ok pkt _ 5 Hp) as H. rewrite length_app, length_replicate, take_app_le, take_ge in H
      by (rewrite ?length_replicate; lia). apply H. lia. }
  destruct (pkt_appends (fun p => BinarySink_put_data p z) z _ _ (appends_write z) Hp5) as (pkt' & E & Hp');
    [rewrite length_app, length_replicate; unfold pkt_limit; lia|]. rewrite E. cbn [res_bind].
  eexists z, pkt', _, (Some (MkDecompressor (de_vt dc) de')). split_and!; try done.
  - intros ->. cbn in Hlz. lia.
  - lia.
  - rewrite Evt. eauto.
Qed.

(** What does not change from packet to packet. *)
Definition same_methods tx tx' : Prop :=
  d_cipher (tx_out tx') = d_cipher (tx_out tx) /\ d_mac (tx_out tx') = d_mac (tx_out tx) /\
  d_pending_compression (tx_out tx') = d_pending_compression (tx_out tx) /\
  tx_cbc_ignore_workaround tx' = tx_cbc_ignore_workaround tx /\
  (is_Some (tx_out_comp tx') <-> is_Some (tx_out_comp tx)).

Lemma same_methods_refl tx : same_methods tx tx.
Proof. by split_and!. Qed.

Lemma same_methods_trans tx1 tx2 tx3 : same_methods tx1 tx2 -> same_methods tx2 tx3 -> same_methods tx1 tx3.
Proof. intros (? & ? & ? & ? & ?) (? & ? & ? & ? & ?). split_and!; try congruence. tauto. Qed.

Lemma sendable_same tx tx' m minlen : same_methods tx tx' -> sendable tx m minlen -> sendable tx' m minlen.
Proof.
  intros (_ & Em & _ & _ & Hc) [(? & ? & ? & Hw & ? & ?) ?]. unfold sendable, sized, out_mac_len in *. rewrite Em.
  split_and!; try done. unfold wire_bound in *. destruct (tx_out_comp tx), (tx_out_comp tx'); try done.
  by destruct (proj1 Hc ltac:(eauto)).
Qed.

Lemma packet_inj pkt z z' : bpp2_packet pkt z -> bpp2_packet pkt z' -> z = z'.
Proof.
  intros [H _] [H' _]. apply pkt_bytes_ok in H, H'. rewrite H in H'. by injection H'.
Qed.

Lemma padded_framed (d : ssh2_bpp_direction X ZC ZD) z r : lawful keyed key data tag d ->
  bytesOK z -> z <> [] -> Z.of_nat (length z) <= payload_limit -> bytesOK r ->
  Z.of_nat (length r) = pad_length (dir_block d) (dir_etm d) (length z) -> framed d z r.
Proof.
  intros HM Hbz Hz Hlz Hbr Hlr. pose proof (cipher_block_bound (HM := HM)) as Hblk. fold (dir_block d) in Hblk.
  destruct (pad_length_ok (dir_block d) (dir_etm d) (length z)) as [Hpad Hmod]; [lia|]. rewrite <-Hlr in *.
  unfold payload_limit in Hlz. split; try done; [lia| |rewrite frame_length; lia].
  pose proof (frame_length z r) as Hfl. rewrite length_app in Hfl. change (length (frame_field z r)) with 4%nat in Hfl.
  unfold blocks. destruct (dir_etm d); rewrite ?length_app; change (length (frame_field z r)) with 4%nat;
    rewrite <-Hmod; f_equal; lia.
Qed.

Lemma seal_length (dx dy : ssh2_bpp_direction X ZC ZD) z r : lawful keyed key data tag dx -> dirs_in_step keyed key dx dy -> framed dx z r ->
  Z.of_nat (length (seal dx (frame_field z r) (frame_body z r)).1) <= OUR_V2_PACKETLIMIT + 64.
Proof.
  intros HM (_ & _ & _ & _ & Hst & Hk) Hac. pose proof (mac_length_bound (HM := HM)) as Hmac.
  destruct (framed_sizes _ _ _ Hac) as (Hlf & Hlb & Hlz & Hlim & Hbf & Hbb).
  pose proof (fm_blocks _ _ _ Hac) as Hbl. destruct (dir_etm dx) eqn:Ee.
  - destruct (etm_sealed keyed key data tag dx _ _ _ HM Ee Hst Hk Hlf Hbf Hbb Hbl) as (lf & c & tg & x & _ & _ & _ & -> & H1 & H2 & H3 & _).
    cbn [fst]. rewrite !length_app. lia.
  - assert (Hb : bytesOK (frame_field z r ++ frame_body z r)) by (by apply Forall_app).
    destruct (std_sealed keyed key data tag dx _ _ _ HM Ee Hst Hk Hb _ [] (eq_sym (app_nil_r _)) Hbl) as
      (c1 & c2 & tg & x & _ & _ & _ & -> & H1 & H2 & H3 & _); [unfold blocks; apply Z.mod_0_l; pose proof (cipher_block_bound (HM := HM)); unfold dir_block; lia|].
    cbn [fst]. rewrite !length_app, H1, H2, length_app. cbn [length]. lia.
Qed.

(** The form of any packet on the wire, and what the receiver of it sees. *)
Lemma inner_finds tx pkt payload z pkt1 tx1 s0 : synced tx s0 -> bpp2_packet pkt payload ->
  compress_payload tx pkt = Ok (pkt1, tx1) -> bpp2_packet pkt1 z -> z <> [] -> Z.of_nat (length z) <= payload_limit ->
  tx_out tx1 = tx_out tx -> tx_cbc_ignore_workaround tx1 = tx_cbc_ignore_workaround tx ->
  (is_Some (tx_out_comp tx1) <-> is_Some (tx_out_comp tx)) ->
  exists pkt' tx' w r, ssh2_bpp_format_packet_inner random_read tx pkt = Ok (pkt', tx') /\ pkt_holds pkt' w /\
    same_methods tx tx' /\ Z.of_nat (length w) <= OUR_V2_PACKETLIMIT + 64 /\ framed (tx_out tx) z r /\
    tx_out_comp tx' = tx_out_comp tx1 /\ lawful keyed key data tag (tx_out tx') /\
    forall s rest, synced tx s -> exists y s4, finds s w rest z r y s4 /\
      dirs_in_step keyed key (tx_out tx') (dir_next_message (dir_set_crypto (rx_dir s) y)).
Proof using HR.
  intros Hs0 Hp Ec Hp1 Hz Hlz Eo Ew Hcs. pose proof (sy_lawful _ _ Hs0) as HM.
  destruct (format_inner_ok random_read keyed key data tag tx tx1 pkt pkt1 z (rx_dir s0) Ec Eo Hp1) as (pkt' & E & Hp' & Hlr & Hbr);
    [unfold payload_limit, OUR_V2_PACKETLIMIT in Hlz; lia|done|apply (sy_dirs _ _ Hs0)|].
  set (r := (random_read _ _).1) in *. set (w := seal _ _ _) in *.
  assert (Hfr : framed (tx_out tx) z r) by (apply padded_framed; try done; apply Hp1).
  eexists pkt', _, w.1, r. split_and!; [exact E|exact Hp'|done..| |done|done|exact HM|].
  - by apply (seal_length (tx_out tx) (rx_dir s0) z r HM (sy_dirs _ _ Hs0)).
  - intros s rest Hs.
    destruct (recv_ok keyed key data tag s (tx_out tx) z r rest (sy_point _ _ Hs) (sy_dirs _ _ Hs) HM Hfr) as (s4 & y' & Hf & Hst & Hk).
    exists y', s4. split; [exact Hf|]. cbn [tx_out]. apply next_dirs; [apply (sy_dirs _ _ Hs)|done..].
Qed.

Lemma inner_carries tx pkt m s0 : synced tx s0 -> bpp2_packet pkt (m.1 :: m.2) -> sendable tx m (po_minlen pkt) ->
  exists pkt' tx' w, ssh2_bpp_format_packet_inner random_read tx pkt = Ok (pkt', tx') /\ pkt_holds pkt' w /\
    carries tx w [m] tx' /\ same_methods tx tx' /\ Z.of_nat (length w) <= OUR_V2_PACKETLIMIT + 64.
Proof using HR.
  intros Hs0 Hp [Hm Ht]. pose proof Hm as (Hb & _ & _ & _ & Hl & _).
  assert (Hlm : Z.of_nat (length m.2) < SIZE_T) by (unfold payload_limit, OUR_V2_PACKETLIMIT, SIZE_T in *; lia).
  destruct (compress_ok tx pkt m s0 Hs0 Hp Hm) as (z & pkt1 & tx1 & de0 & Ec & Hp1 & Hz & Hlz & Eo & _ & Ew & Hinf0 & _ & Hcs).
  destruct (inner_finds tx pkt _ z pkt1 tx1 s0 Hs0 Hp Ec Hp1 Hz Hlz Eo Ew Hcs)
    as (pkt' & tx' & w & r & E & Hp' & Hsm & Hlw & Hfr & Ecm & HM' & Hfind).
  exists pkt', tx', w. split_and!; try done. intros s rest Hs.
  destruct (compress_ok tx pkt m s Hs Hp Hm) as (z' & pkt1' & tx1' & de' & Ec' & Hp1' & _ & _ & _ & _ & _ & Hinf & Hcp & _).
  rewrite Ec in Ec'. injection Ec' as <- <-. assert (z' = z) as -> by (by eapply packet_inj).
  destruct (Hfind s rest Hs) as (y & s4 & Hf & Hdirs).
  destruct (finds_plain s w rest z r y s4 m de' Hf (fm_padding _ _ _ Hfr) Hz) as (s' & Hlead & H1 & Hdir & Hde & Hq & Hfl & He);
    [unfold payload_limit, OUR_V2_PACKETLIMIT in Hlz; lia|done|done|done|apply (sy_flag _ _ Hs)|].
  exists s'. split_and!; [exact Hlead| |by rewrite Hq|done|by rewrite Hdir].
  split; [done|by rewrite Hdir|done|by rewrite Ecm, Hde|done].
Qed.

(** ** IGNORE messages *)

(** The messages of [ms] in order, with IGNORE messages between them. *)
Inductive padded : list message -> list message -> Prop :=
| padded_nil : padded [] []
| padded_ignore p ms' ms : padded ms' ms -> padded ((SSH2_MSG_IGNORE, p) :: ms') ms
| padded_message m ms' ms : padded ms' ms -> padded (m :: ms') (m :: ms).

Lemma padded_app ms1' ms1 ms2' ms2 : padded ms1' ms1 -> padded ms2' ms2 -> padded (ms1' ++ ms2') (ms1 ++ ms2).
Proof. induction 1; intros H2; cbn [app]; [done|constructor; auto..]. Qed.

Lemma padded_drop ms' p ms : padded ms' ((SSH2_MSG_IGNORE, p) :: ms) -> padded ms' ms.
Proof.
  remember ((SSH2_MSG_IGNORE, p) :: ms) as l eqn:E. intros H. revert p ms E.
  induction H as [|q ms' l H IH|m ms' l H IH]; intros p ms E; [done| |]; [constructor; eauto|].
  injection E as -> ->. by constructor.
Qed.

Lemma write_minlen (pkt pkt' : PktOut) d : bs_write pkt d = Ok pkt' -> po_minlen pkt' = po_minlen pkt.
Proof.
  unfold bs_write, pkt_sink, ssh_pkt_adddata. destruct (_ <? 0); [done|].
  intros (g & _ & E)%res_bind_Ok. apply res_bind_Ok in E as (mem & _ & E). by injection E as <-.
Qed.

Lemma zeros_minlen n : forall pkt pkt', put_zeros n pkt = Ok pkt' -> po_minlen pkt' = po_minlen pkt.
Proof.
  induction n as [|n IH]; intros pkt pkt' E; cbn [put_zeros] in E; [by injection E as <-|].
  apply res_bind_Ok in E as (p & E1 & E). apply write_minlen in E1. rewrite <-E1. by apply IH.
Qed.

Lemma random_minlen tx pkt n x : put_random random_read tx pkt n = Ok x -> po_minlen x.1 = po_minlen pkt.
Proof.
  unfold put_random. intros (p & E1 & E)%res_bind_Ok. apply zeros_minlen in E1. destruct (random_read n _).
  apply res_bind_Ok in E as (p2 & E2 & E). injection E as <-. unfold pkt_store in E2.
  apply res_bind_Ok in E2 as (mem & _ & E2). by injection E2 as <-.
Qed.

Lemma ignore_plain : plain_type SSH2_MSG_IGNORE.
Proof. unfold plain_type. split_and!; try done. unfold SSH2_MESSAGE_TYPES. set_solver. Qed.

(** The message that makes up for a short packet. *)
Lemma ignore_carries tx s0 n : synced tx s0 -> 0 <= n <= payload_limit - 8 -> tx_out_comp tx = None ->
  exists p1 p2 x pkt' tx' bytes, ssh2_bpp_new_pktout SSH2_MSG_IGNORE = Ok p1 /\ BinarySink_put_uint32 p1 n = Ok p2 /\
    put_random random_read tx p2 n = Ok x /\ ssh2_bpp_format_packet_inner random_read x.2 x.1 = Ok (pkt', tx') /\
    pkt_holds pkt' bytes /\ same_methods tx tx' /\ Z.of_nat (length bytes) <= OUR_V2_PACKETLIMIT + 64 /\
    exists p, carries tx bytes [(SSH2_MSG_IGNORE, p)] tx'.
Proof using HR.
  intros Hs Hn Hcomp. destruct (bpp2_new_pktout_ok SSH2_MSG_IGNORE ltac:(done)) as (p1 & E1 & [Hp1 _] & _ & Hm1).
  unfold payload_limit, OUR_V2_PACKETLIMIT in Hn.
  destruct (pkt_appends (fun p => BinarySink_put_uint32 p n) _ _ _ (appends_write _) Hp1) as (p2 & E2 & Hp2); [cbn; unfold pkt_limit; lia|].
  destruct (put_random_ok random_read tx p2 _ n Hp2) as (p3 & E3 & Hp3); [lia|rewrite length_app; cbn; unfold pkt_limit; lia|].
  destruct (r_read n (tx_random tx)) as [Hlr Hbr]; [lia|]. set (rnd := (random_read n (tx_random tx)).1) in *.
  rewrite <-!app_assoc in Hp3. set (body := PUT_32BIT_MSB_FIRST n ++ rnd) in *.
  assert (Hb : bytesOK (SSH2_MSG_IGNORE :: body)).
  { constructor; [done|]. apply Forall_app. split; [apply put_32_bytes|done]. }
  assert (Hm3 : po_minlen p3 = 0).
  { pose proof (random_minlen _ _ _ _ E3) as H. cbn [fst] in H. apply write_minlen in E2. congruence. }
  set (tx1 := tx_rand tx _) in *. assert (Hs1 : synced tx1 s0) by (destruct Hs; by split).
  destruct (inner_carries tx1 p3 (SSH2_MSG_IGNORE, body) s0 Hs1) as (pkt' & tx' & bytes & E4 & Hp4 & Hc & Hsm & Hl4).
  - by split.
  - rewrite Hm3. unfold sendable, sized, wire_bound, payload_limit, OUR_V2_PACKETLIMIT. change (tx_out_comp tx1) with (tx_out_comp tx). rewrite Hcomp.
    assert (Z.of_nat (length body) = 4 + n) by (unfold body; rewrite length_app; cbn; lia). cbn [snd].
    split_and!; (exact Hb || exact ignore_plain || done || lia).
  - exists p1, p2, (p3, tx1), pkt', tx', bytes. split_and!; try done. exists body.
    intros s rest Hs'. apply Hc. destruct Hs'. by split.
Qed.

Lemma ignore_length_bound tx s0 pkt m c n : synced tx s0 -> bpp2_packet pkt c -> sendable tx m (po_minlen pkt) ->
  ignore_length tx pkt = Some n -> 0 <= n <= payload_limit - 8.
Proof.
  intros Hs [(_ & Hlp & _) _] [(_ & H0 & _ & _ & _ & Hml) _]. unfold ignore_length.
  pose proof (mac_length_bound (HM := sy_lawful _ _ Hs)) as Hmb. change (mac_length (d_mac (tx_out tx))) with (out_mac_len tx) in Hmb.
  set (bs := match d_cipher (tx_out tx) with Some _ => _ | None => _ end).
  set (blk := if bs <? 8 then 8 else bs). assert (Hblk : 8 <= blk) by (unfold blk; destruct (Z.ltb_spec bs 8); lia).
  set (l := po_length pkt + 4 + (blk - 1)). pose proof (Z.mod_pos_bound l blk ltac:(lia)) as Hmod.
  destruct (_ <? po_minlen pkt); [|done]. intros [= <-].
  destruct (Z.ltb_spec (po_minlen pkt - (l - l mod blk + out_mac_len tx) - out_mac_len tx - 8 - 5) 0);
    unfold payload_limit, OUR_V2_PACKETLIMIT in *; lia.
Qed.

Section chains.
  Context {U : Type}.
  Implicit Types (ch : bufchain U) (w : world U).

(** A packet of the output queue. *)
Definition outgoing (pkt : PktOut) (m : message) : Prop := bpp2_packet pkt (m.1 :: m.2) /\ po_type pkt = m.1.

(** What an operation of the sender has added to the stream. *)
Definition sends tx ch w o (ms : list message) (bound : Z) ch' w' tx' : Prop :=
  exists bytes ms', chain_holds ch' (o ++ bytes) /\ ready ch' w' /\ carries tx bytes ms' tx' /\ padded ms' ms /\
    same_methods tx tx' /\ Z.of_nat (length bytes) <= bound.

Lemma add_packet_ok ch w o pkt bytes : pkt_holds pkt bytes -> chain_holds ch o -> ready ch w ->
  exists ch' w', add_packet ch w pkt = Ok (ch', w') /\ chain_holds ch' (o ++ bytes) /\ ready ch' w'.
Proof.
  intros Hp Hch Hr. unfold add_packet. rewrite (pkt_bytes_ok _ _ Hp). cbn [res_bind].
  destruct (ready_add ch o bytes w Hch Hr) as (ch' & w' & E & H1 & H2 & _). eauto.
Qed.

Lemma sends_packet tx s0 ch w o pkt m : synced tx s0 -> bpp2_packet pkt (m.1 :: m.2) -> sendable tx m (po_minlen pkt) ->
  chain_holds ch o -> ready ch w ->
  exists ch' w' tx', ssh2_bpp_format_packet random_read ch w tx pkt = Ok (ch', w', tx') /\
    sends tx ch w o [m] (2 * (OUR_V2_PACKETLIMIT + 64)) ch' w' tx'.
Proof using HR.
  intros Hs Hp Hm Hch Hr. unfold ssh2_bpp_format_packet.
  set (pre := if _ && _ then _ else _).
  assert (Hpre : exists ch1 w1 tx1 s1, pre = Ok (ch1, w1, tx1) /\ synced tx1 s1 /\
    sends tx ch w o [] (OUR_V2_PACKETLIMIT + 64) ch1 w1 tx1).
  { assert (Hnone : exists s1, synced tx s1 /\ sends tx ch w o [] (OUR_V2_PACKETLIMIT + 64) ch w tx).
    { exists s0. split; [done|]. exists [], []. rewrite app_nil_r. split_and!; try done; [apply carries_nil|constructor]. }
    unfold pre. destruct (_ && _) eqn:Eb; [|destruct Hnone as (s1 & ? & ?); by exists ch, w, tx, s1].
    apply andb_true_iff in Eb as [_ Hc]. destruct (tx_out_comp tx) eqn:Ecomp; [done|].
    destruct (ignore_length tx pkt) as [n|] eqn:En; [|destruct Hnone as (s1 & ? & ?); by exists ch, w, tx, s1].
    assert (Hn : 0 <= n <= payload_limit - 8).
    { by apply (ignore_length_bound tx s0 pkt m (m.1 :: m.2)). }
    destruct (ignore_carries tx s0 n Hs Hn Ecomp) as (p1 & p2 & x & pkt' & tx' & bytes & -> & E2 & E3 & E4 & Hp' & Hsm & Hlb & p & Hc1).
    cbn [res_bind]. rewrite E2. cbn [res_bind]. rewrite E3. cbn [res_bind]. rewrite E4. cbn [res_bind fst snd].
    destruct (add_packet_ok ch w o pkt' bytes Hp' Hch Hr) as (ch1 & w1 & -> & Hch1 & Hr1). cbn [res_bind].
    destruct (Hc1 s0 [] Hs) as (s1 & _ & Hs1 & _). exists ch1, w1, tx', s1. split_and!; [done|done|].
    exists bytes, [(SSH2_MSG_IGNORE, p)]. split_and!; try done. apply padded_ignore, padded_nil. }
  destruct Hpre as (ch1 & w1 & tx1 & s1 & -> & Hs1 & by1 & ms1 & Hch1 & Hr1 & Hc1 & Hpad1 & Hsm1 & Hlb1). cbn [res_bind].
  destruct (inner_carries tx1 pkt m s1 Hs1 Hp) as (pkt' & tx2 & by2 & -> & Hp' & Hc2 & Hsm2 & Hlb2); [by eapply sendable_same|].
  cbn [res_bind fst snd]. destruct (add_packet_ok ch1 w1 _ pkt' by2 Hp' Hch1 Hr1) as (ch2 & w2 & -> & Hch2 & Hr2). cbn [res_bind].
  exists ch2, w2, tx2. split; [done|]. exists (by1 ++ by2), (ms1 ++ [m]). rewrite app_assoc. split_and!; try done.
  - by eapply carries_app.
  - apply (padded_app ms1 [] [m] [m]); [done|]. apply padded_message, padded_nil.
  - by eapply same_methods_trans.
  - rewrite length_app. lia.
Qed.

Lemma sends_nil tx ch w o bound : chain_holds ch o -> ready ch w -> 0 <= bound -> sends tx ch w o [] bound ch w tx.
Proof.
  intros. exists [], []. rewrite app_nil_r. split_and!; try done; [apply carries_nil|constructor].
Qed.

(** A sender that holds back nothing. *)
Definition unheld s : Prop :=
  fl_pending_compression (s2_flags s) = false /\ d_pending_compression (tx_out (s2_tx s)) = None /\
  (tx_cbc_ignore_workaround (s2_tx s) = true -> is_Some (d_cipher (tx_out (s2_tx s))) /\ is_Some (d_mac (tx_out (s2_tx s)))).

Definition frame_bound : Z := 2 * (OUR_V2_PACKETLIMIT + 64).

Lemma output_loop_ok pkts : forall ms fuel n ch w s s0 o,
  synced (s2_tx s) s0 -> Forall2 (fun pkt m => outgoing pkt m /\ sendable (s2_tx s) m (po_minlen pkt)) pkts ms ->
  queue_holds (b_out_pq (s2_bpp s)) pkts -> d_pending_compression (tx_out (s2_tx s)) = None ->
  chain_holds ch o -> ready ch w -> (length pkts <= fuel)%nat ->
  exists ch' w' s', output_loop random_read fuel n ch w s = Ok (false, (ch', w', s')) /\
    pq_packets (b_out_pq (s2_bpp s')) = [] /\
    sends (s2_tx s) ch w o ms (Z.of_nat (length pkts) * frame_bound) ch' w' (s2_tx s').
Proof using HR.
  induction pkts as [|pkt pkts IH]; intros ms fuel n ch w s s0 o Hs Hp Hq Hpc Hch Hr Hl.
  - apply Forall2_nil_inv_l in Hp as ->. destruct Hq as (Hn & Hq).
    assert (E : b_pop_out (s2_bpp s) = Ok (None, s2_bpp s)).
    { unfold b_pop_out, pq_pop. rewrite Hn. cbn. by destruct (s2_bpp s). }
    exists ch, w, s. split_and!; [|done|by apply sends_nil].
    destruct fuel; cbn [output_loop]; rewrite E; cbn [res_bind fst snd]; by destruct s.
  - apply Forall2_cons_inv_l in Hp as (m & ms' & [[Hpm Hty] Hsend] & Hp & ->).
    destruct fuel as [|fuel]; [cbn in Hl; lia|]. cbn [output_loop]. unfold b_pop_out.
    destruct (pq_pop_ok _ _ _ Hq) as (pq' & -> & Hq' & _). cbn [res_bind fst snd].
    set (s1 := set_bpp s _).
    destruct (sends_packet (s2_tx s) s0 ch w o pkt m Hs Hpm Hsend Hch Hr) as (ch1 & w1 & tx1 & E1 & Hsd).
    change (s2_tx s1) with (s2_tx s). rewrite E1. cbn [res_bind].
    destruct Hsd as (by1 & ms1 & Hch1 & Hr1 & Hc1 & Hpad1 & Hsm & Hlb1). pose proof Hsm as (_ & _ & Epc & _). rewrite Epc, Hpc, andb_false_r. cbn [andb].
    destruct Hsend as [_ (_ & _ & _ & Hus)]. rewrite Hty, (proj2 (Z.eqb_neq _ _) Hus). cbn [andb res_bind].
    destruct (Hc1 s0 [] Hs) as (s2 & _ & Hs2 & _).
    destruct (IH ms' fuel (if userauth_range m.1 then n - 1 else n) ch1 w1 (set_tx s1 tx1) s2 (o ++ by1)) as (ch' & w' & s' & E & Hq2 & Hsd2); try done.
    + eapply Forall2_impl; [exact Hp|]. intros p q [? ?]. split; [done|]. by eapply sendable_same.
    + by rewrite <-Hpc.
    + cbn in Hl. lia.
    + exists ch', w', s'. split_and!; [exact E|done|].
      destruct Hsd2 as (by2 & ms2 & G1 & G2 & G3 & G4 & G5 & G6). exists (by1 ++ by2), (ms1 ++ ms2). rewrite app_assoc.
      split_and!; [done|done|by eapply carries_app|by apply (padded_app _ [m])|by eapply same_methods_trans|].
      rewrite length_app. cbn [length]. unfold frame_bound in *. lia.
Qed.

Lemma cbc_ignore_ok ch w s s0 o : synced (s2_tx s) s0 -> unheld s -> chain_holds ch o -> ready ch w ->
  exists ch' w' tx', cbc_ignore random_read ch w s = Ok (ch', w', set_tx s tx') /\
    sends (s2_tx s) ch w o [] frame_bound ch' w' tx'.
Proof using HR.
  intros Hs (_ & _ & Hw) Hch Hr.
  assert (Hnone : exists ch' w' tx', Ok (ch, w, s) = Ok (ch', w', set_tx s tx') /\ sends (s2_tx s) ch w o [] frame_bound ch' w' tx').
  { exists ch, w, (s2_tx s). split; [by destruct s|]. by apply sends_nil. }
  unfold cbc_ignore. destruct (tx_cbc_ignore_workaround (s2_tx s)); [|exact Hnone].
  destruct (Hw eq_refl) as [[c ->] [m ->]]. destruct (_ <? _); [|exact Hnone].
  destruct (bpp2_new_pktout_ok SSH2_MSG_IGNORE ltac:(done)) as (p1 & -> & [Hp1 _] & _ & Hm1). cbn [res_bind].
  change (BinarySink_put_stringz p1 [0]) with (BinarySink_put_string p1 []).
  destruct (pkt_appends (fun p => BinarySink_put_string p []) _ _ _ (put_string_appends [] ltac:(done)) Hp1) as (p2 & E2 & Hp2);
    [cbn; unfold pkt_limit; lia|]. rewrite E2. cbn [res_bind].
  assert (Hm2 : po_minlen p2 = 0).
  { rewrite <-Hm1. unfold BinarySink_put_string in E2. rewrite c_assert_true in E2 by done.
    apply res_bind_Ok in E2 as (p3 & E3 & E2). apply write_minlen in E3, E2. congruence. }
  destruct (sends_packet (s2_tx s) s0 ch w o p2 (SSH2_MSG_IGNORE, [0; 0; 0; 0]) Hs) as (ch1 & w1 & tx1 & E & Hsd); [| |done|done|].
  - split; [exact Hp2|]. by repeat (constructor; [done|]).
  - rewrite Hm2. unfold sendable, sized, wire_bound. destruct (tx_out_comp (s2_tx s));
      split_and!; (exact ignore_plain || (by repeat (constructor; [done|])) || done).
  - rewrite E. cbn [res_bind fst snd]. exists ch1, w1, tx1. split; [done|].
    destruct Hsd as (by1 & ms1 & F1 & F2 & F3 & F4 & F5 & F6). exists by1, ms1. split_and!; try done.
    by eapply padded_drop.
Qed.

Lemma handle_output_ok pkts ms ch w s s0 o :
  synced (s2_tx s) s0 -> unheld s -> Forall2 (fun pkt m => outgoing pkt m /\ sendable (s2_tx s) m (po_minlen pkt)) pkts ms ->
  queue_holds (b_out_pq (s2_bpp s)) pkts -> chain_holds ch o -> ready ch w ->
  exists ch' w' s', ssh2_bpp_handle_output random_read ch w s = Ok (ch', w', s') /\
    pq_packets (b_out_pq (s2_bpp s')) = [] /\
    sends (s2_tx s) ch w o ms (Z.of_nat (length pkts) * frame_bound + frame_bound) ch' w' (s2_tx s').
Proof using HR.
  intros Hs Hun Hp Hq Hch Hr. unfold ssh2_bpp_handle_output. pose proof Hun as (Hf & Hpc & _). rewrite Hf. cbn [andb].
  destruct (cbc_ignore_ok ch w s s0 o Hs Hun Hch Hr) as (ch1 & w1 & tx1 & -> & by1 & ms1 & F1 & F2 & F3 & F4 & F5 & F6).
  cbn [res_bind fst snd]. pose proof Hq as (-> & _). destruct (F3 s0 [] Hs) as (s1 & _ & Hs1 & _).
  destruct (output_loop_ok pkts ms (length pkts) (count_userauth pkts) ch1 w1 (set_tx s tx1) s1 (o ++ by1))
    as (ch2 & w2 & s2 & -> & Hq2 & by2 & ms2 & G1 & G2 & G3 & G4 & G5 & G6); try done.
  { eapply Forall2_impl; [exact Hp|]. intros p q [? ?]. split; [done|]. by eapply sendable_same. }
  { destruct F5 as (_ & _ & E & _). by rewrite <-Hpc. }
  cbn [res_bind fst snd]. eexists _, _, _. split_and!; [done|done|]. exists (by1 ++ by2), (ms1 ++ ms2).
  rewrite app_assoc. split_and!; [done|done|by eapply carries_app|by apply (padded_app _ [])|by eapply same_methods_trans|].
  rewrite length_app. lia.
Qed.

(** The receiver awaits the next packet: at the start of its loop, at the first read, or with
    new keys behind a NEWKEYS message. *)
Definition rests_at s0 s : Prop :=
  s = s0 \/ s = started s0 \/
  rx_crState (s2_rx s) = CR_NEWKEYS /\ fl_pending_newkeys (s2_flags s) = false /\ s0 = at_point s CR_START.

Definition at_rest tx s : Prop := exists s0, synced tx s0 /\ rests_at s0 s.

Lemma rests_same s0 s : rests_at s0 s -> rx_dir s = rx_dir s0 /\ s2_bpp s = s2_bpp s0 /\ s2_flags s = s2_flags s0 /\
  rx_in_decomp (s2_rx s) = rx_in_decomp (s2_rx s0).
Proof. by intros [->|[->|(_ & _ & ->)]]. Qed.

Lemma rests_run s0 s f l : rests_at s0 s -> rx_crState (s2_rx s0) = CR_START ->
  exists f', (f <= f')%nat /\ arun bpp2_read_len bpp2_after_read bpp2_no_read f' s l =
    arun bpp2_read_len bpp2_after_read bpp2_no_read (S f) s0 l.
Proof.
  intros Hc H0. destruct Hc as [->|[->|(Hp & Hn & ->)]].
  - exists (S f). split; [lia|done].
  - exists f. split; [lia|]. assert (E : bpp2_read_len s0 = None /\ bpp2_no_read s0 = Ok (Continue (started s0))).
    { unfold bpp2_read_len, bpp2_no_read. rewrite H0, start_ok. done. }
    cbn [arun]. by rewrite (proj1 E), (proj2 E).
  - exists (S (S f)). split; [lia|].
    assert (E : bpp2_read_len s = None /\ bpp2_no_read s = Ok (Continue (at_point s CR_START))).
    { unfold bpp2_read_len, bpp2_no_read. rewrite Hp, Hn. done. }
    change (S (S f)) with (1 + S f)%nat. cbn [Nat.add]. remember (S f) as g. cbn [arun]. by rewrite (proj1 E), (proj2 E).
Qed.

Lemma synced_sizes tx s : synced tx s -> sizes_ok (rx_dir s).
Proof.
  intros [_ (E1 & E2 & _) HM _ _]. unfold sizes_ok, dir_block. rewrite E1, E2.
  split; [apply (cipher_block_bound (HM := HM))|apply (mac_length_bound (HM := HM))].
Qed.

Lemma started_awaits tx s : synced tx s -> awaits bpp2_read_len (started s) [].
Proof.
  intros Hs. destruct (synced_sizes _ _ Hs) as [Hb Hm]. unfold awaits, bpp2_read_len.
  change (rx_crState (s2_rx (started s))) with (first_point (rx_dir s)). unfold first_point.
  destruct (dir_etm (rx_dir s)); [by exists 4|]. destruct (dir_cbc (rx_dir s)) eqn:Ec; (eexists; split; [done|]); cbn [dir_framing fr_maclen fr_cipherblk length]; [|lia].
  unfold dir_cbc in Ec. destruct Hs as [_ (_ & E2 & _) HM _ _]. unfold mac_length. rewrite E2 in *.
  destruct (d_cipher (rx_dir s)); [|done]. destruct (d_mac (tx_out tx)) as [ma|] eqn:Em; [|done].
  destruct (me_mac (Methods := HM) ma Em) as [Hl _ _ _ _ _]. lia.
Qed.

Lemma rests_inv tx s0 s : synced tx s0 -> rests_at s0 s -> bpp2_inv s.
Proof.
  intros Hs Hr. pose proof (synced_sizes _ _ Hs) as Hz. destruct (rests_same _ _ Hr) as (Ed & _). split; [by rewrite Ed|].
  destruct Hr as [->|[->|(-> & _)]]; [by rewrite (sy_point _ _ Hs)| |done]. by apply first_point_ok.
Qed.

(** The stream, in whatever pieces, leads the receiver to the state after the packets. *)
Lemma carries_feed tx tx' bytes ms s (in_raw : bufchain U) w d chunks :
  carries tx bytes ms tx' -> at_rest tx s -> bpp2_at_eof s = false -> chain_holds in_raw [] -> ready in_raw w ->
  Z.of_nat (length bytes) < 2 ^ 31 -> concat (d :: chunks) = bytes ->
  exists in_raw' w' s', bpp2_feed in_raw w s (d :: chunks) = Ok (in_raw', w', s') /\ chain_holds in_raw' [] /\
    at_rest tx' s' /\ pq_packets (b_in_pq (s2_bpp s')) = pq_packets (b_in_pq (s2_bpp s)) ++ arrivals ms (d_sequence (rx_dir s)).
Proof.
  intros Hc (s0 & Hs0 & Hrest) He Hin Hr Hl Eb. destruct (rests_same _ _ Hrest) as (Ed & Ebp & _).
  destruct (Hc s0 [] Hs0) as (s1 & [k Hk] & Hs1 & Hq & He1 & _). rewrite app_nil_r in Hk.
  destruct (started_awaits tx' s1 Hs1) as (n & En & Hn).
  assert (Hrun : forall f, exists f', (f <= f')%nat /\ arun bpp2_read_len bpp2_after_read bpp2_no_read f' s bytes = Ok (started s1, [])).
  { intros f. destruct (rests_run s0 s (k + S f) bytes Hrest (sy_point _ _ Hs0)) as (f' & Hf & Ef). exists f'. split; [lia|]. rewrite Ef.
    replace (S (k + S f)) with (k + S (S f))%nat by lia. rewrite Hk. cbn [arun]. unfold bpp2_read_len at 1, bpp2_no_read.
    rewrite (sy_point _ _ Hs1), start_ok. cbn [res_bind]. by rewrite En, (proj2 (Z.leb_gt _ _)). }
  destruct (Hrun (S (3 * length bytes + 3))) as (f & Hf & Ef). pose proof (bpp2_rank_bound s).
  destruct (reader_feed_ok bpp2_read_len bpp2_at_eof bpp2_after_read bpp2_goto_eof bpp2_no_read bpp2_inv bpp2_rank
    bpp2_rank_bound bpp2_inv_len bpp2_inv_read bpp2_inv_no_read chunks in_raw w s [] d f (started s1) [])
    as (in2 & w2 & E & Hin2 & _); cbn [app]; rewrite ?Eb; try done; [by apply (rests_inv tx s0)|lia|by exists n|].
  exists in2, w2, (started s1). split_and!; [exact E|done|exists s1; unfold rests_at; auto|]. by rewrite Ebp, Ed.
Qed.

End chains.

End spec.

(** ** The compression methods (transport2.c, zlib.c) *)

(** No compression: there are no states, and the functions are never called. *)
Definition ssh_comp_none {ZC ZD} : ssh_compression_alg ZC ZD :=
  MkCompAlg None (fun _ _ _ => Crash UndefinedBehaviour) None (fun st _ => Ok (None, st)).

(** The tables of the decompressor can be made: lemma [linked_init]. *)
Definition ssh_zlib : ssh_compression_alg ssh_zlib_compressor zlib_decompress_ctx :=
  MkCompAlg (Some zlib_compress_init) zlib_compress_block
    (match zlib_decompress_init with Ok d => Some d | Crash _ => None end) zlib_decompress_block.

#[export] Instance zlib_laws : CompressionLaws ssh_zlib linked.
Proof.
  constructor. intros co de p minlen Hl Hb Hp Hm.
  destruct (packet_ok co de p minlen Hl Hb) as (z & co' & de' & E1 & E2 & H1 & H2 & H3 & H4); [lia|lia|].
  exists z, co', de'. exact (conj E1 (conj E2 (conj H3 (conj H1 (conj H2 H4))))).
Qed.

(** The states that a method starts with. *)
Definition compression_starts {ZC ZD} (za : ssh_compression_alg ZC ZD) (linked : ZC -> ZD -> Prop) : Prop :=
  match za_compress_new za, za_decompress_new za with
  | None, None => True
  | Some co, Some de => CompressionLaws za linked /\ linked co de
  | _, _ => False
  end.

Lemma none_starts {ZC ZD} (linked : ZC -> ZD -> Prop) : compression_starts ssh_comp_none linked.
Proof. done. Qed.

Lemma zlib_starts : compression_starts ssh_zlib linked.
Proof.
  unfold compression_starts. cbn [ssh_zlib za_compress_new za_decompress_new].
  destruct linked_init as (d & -> & Hl). split; [apply zlib_laws|done].
Qed.

(** ** New keys *)

Section rekey.
  Context {X ZC ZD R K : Type} (random_read : Z -> R -> list Z * R) `{HR : !RandomLaws random_read}.
  Context (keyed : X -> X -> Prop) (key : X -> K) (data : X -> list Z) (tag : K -> list Z -> list Z).
  Context (linked : ZC -> ZD -> Prop) (no_crypto : X).
  Implicit Types (s r : ssh2_bpp_state X ZC ZD R).

Notation synced := (synced keyed key data tag linked).
Notation at_rest := (at_rest keyed key data tag linked).

(** Both sides of a connection have made the same new keys. *)
Lemma new_keys_in_step s r cipher ckey iv mac etm mac_key comp delayed reset :
  Methods cipher mac etm keyed key data tag ->
  (is_Some cipher -> let x := new_crypto no_crypto cipher ckey iv mac mac_key in keyed x x) ->
  compression_starts comp linked ->
  fl_seen_userauth_success (s2_flags r) = fl_seen_userauth_success (s2_flags s) ->
  d_sequence (rx_dir r) = d_sequence (tx_out (s2_tx s)) -> rx_crState (s2_rx r) = CR_NEWKEYS ->
  fl_enforce_next_packet_is_userauth_success (s2_flags r) = false ->
  at_rest (s2_tx (ssh2_bpp_new_outgoing_crypto no_crypto s cipher ckey iv mac etm mac_key comp delayed reset))
    (ssh2_bpp_new_incoming_crypto no_crypto r cipher ckey iv mac etm mac_key comp delayed reset).
Proof.
  intros HM Hk Hc Eseen Eseq Ep Ef.
  unfold ssh2_bpp_new_outgoing_crypto, ssh2_bpp_new_incoming_crypto. rewrite Eseen, Eseq.
  destruct (delayed && negb (fl_seen_userauth_success (s2_flags s))); eexists; (split; [|right; right; split_and!; [exact Ep|done|done]]);
    (split; cbn; [done|split_and!; try done|exact HM|..]); try done.
  unfold comp_in_step, compression_starts, ssh_compressor_new, ssh_decompressor_new in *.
  destruct (za_compress_new comp), (za_decompress_new comp); try done. cbn. destruct Hc. by split_and!.
Qed.

Section transport.
  Context {U : Type}.

(** A NEWKEYS packet with whatever bytes behind it. *)
Lemma newkeys_stops s r pkt :
  at_rest (s2_tx s) r -> bpp2_at_eof r = false -> bpp2_packet pkt [SSH2_MSG_NEWKEYS] -> po_minlen pkt = 0 ->
  exists pkt' tx' bytes, ssh2_bpp_format_packet_inner random_read (s2_tx s) pkt = Ok (pkt', tx') /\ pkt_holds pkt' bytes /\
    (forall (in_raw : bufchain U) rest, chain_holds in_raw (bytes ++ rest) -> Z.of_nat (length (bytes ++ rest)) < 2 ^ 31 ->
     exists in_raw' r', ssh2_bpp_handle_input in_raw r = Ok (in_raw', r') /\ chain_holds in_raw' rest /\
       pq_packets (b_in_pq (s2_bpp r')) =
         pq_packets (b_in_pq (s2_bpp r)) ++ [received (SSH2_MSG_NEWKEYS, []) (d_sequence (rx_dir r))] /\
       rx_crState (s2_rx r') = CR_NEWKEYS /\ fl_pending_newkeys (s2_flags r') = true /\ bpp2_at_eof r' = false /\
       d_sequence (rx_dir r') = d_sequence (tx_out tx') /\
       fl_enforce_next_packet_is_userauth_success (s2_flags r') = false /\
       fl_seen_userauth_success (s2_flags r') = fl_seen_userauth_success (s2_flags r)).
Proof using HR.
  intros (r0 & Hs & Hrest) He Hp Hml. destruct (rests_same _ _ Hrest) as (Ed & Eb & Efl & Ede).
  assert (Hsz : sized (s2_tx s) (SSH2_MSG_NEWKEYS, []) (po_minlen pkt)).
  { rewrite Hml. unfold sized, wire_bound. destruct (tx_out_comp (s2_tx s));
      split_and!; try done; (by apply Forall_singleton). }
  destruct (compress_ok keyed key data tag linked (s2_tx s) pkt (SSH2_MSG_NEWKEYS, []) r0 Hs Hp Hsz)
    as (z & pkt1 & tx1 & de' & Ec & Hp1 & Hz & Hlz & Eo & _ & Ew & Hinf & _ & Hcs).
  destruct (inner_finds random_read keyed key data tag linked (s2_tx s) pkt _ z pkt1 tx1 r0 Hs Hp Ec Hp1 Hz Hlz Eo Ew Hcs)
    as (pkt' & tx' & bytes & pad & E & Hp' & _ & _ & Hfr & _ & _ & Hfind).
  exists pkt', tx', bytes. split_and!; [done|done|]. intros in_raw rest Hch Hlen.
  destruct (Hfind r0 rest Hs) as (y & s4 & (sk & last & f4 & extra & sz & [k Hk] & En & A & F3 & F4 & F5 & F6 & F7 & F8) & Hdirs).
  rewrite <-F5 in Hinf.
  destruct (packet_read_ok s4 f4 z pad extra sz (SSH2_MSG_NEWKEYS, []) de' F3 (fm_padding _ _ _ Hfr) Hz) as (s1 & P & Q1 & Q2 & Q3 & Q4 & Q5);
    [unfold payload_limit, OUR_V2_PACKETLIMIT in Hlz; lia|done|done|unfold SSH2_MESSAGE_TYPES; set_solver|].
  destruct (newkeys_ok s1) as (r' & E' & H1 & H2 & H3 & H4 & H5 & H6 & H7 & H8); [rewrite Q4, F7; apply (sy_flag _ _ _ _ _ _ _ Hs)|].
  assert (Hrun : forall f, exists f', (f <= f')%nat /\ arun bpp2_read_len bpp2_after_read bpp2_no_read f' r (bytes ++ rest) = Ok (r', rest)).
  { intros f. destruct (rests_run r0 r (k + f) (bytes ++ rest) Hrest (sy_point _ _ _ _ _ _ _ Hs)) as (f' & Hf & Ef). exists f'. split; [lia|].
    rewrite Ef. replace (S (k + f)) with (k + S f)%nat by lia. rewrite Hk. cbn [arun]. rewrite En, (proj2 (Z.leb_le _ _)) by (rewrite length_app; lia).
    rewrite Nat2Z.id, take_app_length, drop_app_length, A, P. cbn [fst] in *. by rewrite E'. }
  set (fuel := (3 * Z.to_nat (bufchain_size in_raw) + 5)%nat).
  pose proof (rests_inv keyed key data tag linked _ _ _ Hs Hrest) as Hinv.
  pose proof (enough_fuel bpp2_rank bpp2_rank_bound in_raw r _ Hch Hlen) as Hfuel. fold fuel in Hfuel.
  destruct (Hrun fuel) as (f' & Hf' & Ef').
  pose proof (run_arun bpp2_read_len bpp2_at_eof bpp2_after_read bpp2_goto_eof bpp2_no_read bpp2_inv bpp2_rank bpp2_inv_len
    bpp2_inv_read bpp2_inv_no_read fuel r in_raw _ Hinv He Hch Hlen) as Hr.
  rewrite (arun_fuel _ _ _ _ _ _ bpp2_inv_len bpp2_inv_read bpp2_inv_no_read fuel f'), Ef' in Hr by (done || lia).
  destruct Hr as (in2 & Er & Hch2 & _). exists in2, r'. unfold ssh2_bpp_handle_input, handle_input. fold fuel. rewrite Er.
  split_and!; try done.
  - by rewrite H5, Q3, F6, F4, Eb, Ed.
  - unfold bpp2_at_eof in *. congruence.
  - rewrite H3, Q1, F4. by destruct Hdirs as (_ & _ & _ & -> & _).
  - by rewrite H8, Q4, F7, Efl.
Qed.

(** Without new keys nothing is read. *)
Lemma newkeys_waits r (in_raw : bufchain U) : rx_crState (s2_rx r) = CR_NEWKEYS -> fl_pending_newkeys (s2_flags r) = true ->
  ssh2_bpp_handle_input in_raw r = Ok (in_raw, r).
Proof.
  intros Hp Hn. unfold ssh2_bpp_handle_input, handle_input. rewrite Nat.add_comm. cbn [Nat.add run_rounds].
  unfold one_round, bpp2_read_len, bpp2_no_read. by rewrite Hp, Hn.
Qed.

End transport.

End rekey.
