(* ===== verification/Bpp2Theorems.v ===== *)
(** * The binary packet protocol of SSH-2: the properties

    After an instance of the laws: a chaining cipher on bytes, with the flag of the CBC
    ciphers, and a sum as code. *)

From Stdlib Require Import String.
From stdpp Require Import gmap.
From S2P Require Import Prelude Callback Bufchain Marshal Strbuf ConfData Filename Lz77 Zlib ZlibSpec Ptrlen.
From S2P Require Import Packet Bpp BppBare BppBareSpec Bpp2 Bpp2Crypto Bpp2Send Bpp2Recv Bpp2Safe Bpp2Spec.
Local Open Scope cmodel_scope.
Local Open Scope Z_scope.

(** The last encrypted byte, the key of the code, and the data given to it. *)
Record toy := Toy { toy_last : Z; toy_key : Z; toy_data : list Z }.

Fixpoint toy_encrypt (l : list Z) (p : Z) : list Z * Z :=
  match l with
  | [] => ([], p)
  | b :: l => let e := (b + p) mod 256 in let '(c, p) := toy_encrypt l e in (e :: c, p)
  end.

Fixpoint toy_decrypt (l : list Z) (p : Z) : list Z * Z :=
  match l with
  | [] => ([], p)
  | e :: l => let '(c, p') := toy_decrypt l e in ((e - p) mod 256 :: c, p')
  end.

Definition toy_set (x : toy) (r : list Z * Z) : list Z * toy := (r.1, Toy r.2 (toy_key x) (toy_data x)).

Definition toy_cipher : ssh_cipheralg toy :=
  MkCipherAlg id (fun k x => Toy (nth 0 k 0) (toy_key x) (toy_data x)) (fun _ x => x)
    (fun l x => toy_set x (toy_encrypt l (toy_last x))) (fun l x => toy_set x (toy_decrypt l (toy_last x)))
    (fun l _ x => (l, x)) (fun l _ x => (l, x)) id 8 SSH_CIPHER_IS_CBC.

Definition toy_tag (k : Z) (l : list Z) : list Z := [(foldr Z.add k l) mod 256].

Definition toy_mac : ssh2_macalg toy :=
  MkMacAlg id (fun k x => Toy (toy_last x) (nth 0 k 0) (toy_data x)) (fun x => Toy (toy_last x) (toy_key x) [])
    (fun l x => Toy (toy_last x) (toy_key x) (toy_data x ++ l))
    (fun x => (toy_tag (toy_key x) (toy_data x), x)) id 1.

Definition toy_keyed (x y : toy) : Prop := toy_last x = toy_last y.

Definition toy_random (n : Z) (r : unit) : list Z * unit := (replicate (Z.to_nat n) 7, r).

#[export] Instance toy_random_laws : RandomLaws toy_random.
Proof. intros n r Hn. cbn. rewrite length_replicate. split; [lia|]. by apply Forall_replicate. Qed.

Lemma toy_encrypt_ok l : forall p, bytesOK l ->
  exists e p', toy_encrypt l p = (e, p') /\ length e = length l /\ bytesOK e /\ toy_decrypt e p = (l, p').
Proof.
  induction l as [|b l IH]; intros p Hb; cbn [toy_encrypt]; [by exists [], p|]. apply Forall_cons in Hb as [Hb1 Hb].
  destruct (IH ((b + p) mod 256) Hb) as (e & p' & -> & Hl & Hbe & Hd). eexists _, p'. split; [done|]. cbn [length toy_decrypt].
  split_and!; [by f_equal|constructor; [apply Z.mod_pos_bound; lia|done]|]. rewrite Hd. do 2 f_equal.
  rewrite Zminus_mod_idemp_l. replace (b + p - p) with b by lia. apply Z.mod_small. exact Hb1.
Qed.

Lemma toy_encrypt_app l1 l2 : forall p, toy_encrypt (l1 ++ l2) p =
  ((toy_encrypt l1 p).1 ++ (toy_encrypt l2 (toy_encrypt l1 p).2).1, (toy_encrypt l2 (toy_encrypt l1 p).2).2).
Proof.
  induction l1 as [|b l1 IH]; intros p; cbn [app toy_encrypt]; [cbn [fst snd]; by destruct (toy_encrypt l2 p)|].
  rewrite IH. by destruct (toy_encrypt l1 _).
Qed.

#[export] Instance toy_cipher_laws : CipherLaws toy_cipher toy_keyed.
Proof.
  split; cbn; [done| | |done|done].
  - unfold toy_keyed. intros x y l Hk Hb _. rewrite <-Hk. destruct (toy_encrypt_ok l (toy_last x) Hb) as (e & p & E & Hl & Hbe & Hd).
    rewrite E. eexists e, _, _. split; [done|]. rewrite Hd. by split_and!.
  - intros x l1 l2 _ _. unfold toy_set. by rewrite toy_encrypt_app.
Qed.

#[export] Instance toy_mac_laws : MacLaws toy_mac toy_key toy_data toy_tag.
Proof.
  split; cbn; [done| |done|done|eauto|done]. intros k l _. split; [done|]. apply Forall_singleton, Z.mod_pos_bound. lia.
Qed.

#[export] Instance toy_independent : Independent toy_cipher toy_mac toy_keyed toy_key toy_data.
Proof.
  split; try done; intros f x y [Hf|[l ->]] Hk; try done; rewrite !elem_of_cons, elem_of_nil in Hf;
    by destruct Hf as [->|[->|[->|[]]]].
Qed.

#[export] Instance toy_methods etm : Methods (Some toy_cipher) (Some toy_mac) etm toy_keyed toy_key toy_data toy_tag.
Proof.
  split.
  - intros c [= <-]. apply toy_cipher_laws.
  - intros m [= <-]. apply toy_mac_laws.
  - intros c m [= <-] [= <-]. apply toy_independent.
  - by intros c [= <-].
Qed.

(** ** The properties *)

(** C1. Whatever lawful cipher, code and compression both ends of a connection use, and in
    each of the three ways to frame packets (length in the first block, code over the
    encrypted packet, length found by the code), the packets in the output queue of one end
    are sent as a stream of bytes; the other end, whatever reads of the network this stream
    arrives in, queues these packets, in order, unchanged and with consecutive sequence
    numbers, apart from IGNORE messages that the sender adds, and then awaits the next
    packet of the sender with no byte left.  This is about packets between the events that
    change the protocol's state: the queue holds up to 16384 packets whose types are known
    and are neither NEWKEYS (a change of keys is the subject of [rekey_barrier]) nor
    EXT_INFO or USERAUTH_SUCCESS, and whose messages fit into a packet; the sender holds
    back no packet for a delayed compression and has none pending; and the receiver is not
    expecting a USERAUTH_SUCCESS. *)
Theorem bpp2_packets_roundtrip {X ZC ZD R K U} (random_read : Z -> R -> list Z * R)
    (keyed : X -> X -> Prop) (key : X -> K) (data : X -> list Z) (tag : K -> list Z -> list Z)
    (linked : ZC -> ZD -> Prop) (s r : ssh2_bpp_state X ZC ZD R) pkts ms (out_raw in_raw : bufchain U) w o :
  RandomLaws random_read -> at_rest keyed key data tag linked (s2_tx s) r -> unheld s ->
  Forall2 (fun pkt m => outgoing pkt m /\ sendable (s2_tx s) m (po_minlen pkt)) pkts ms ->
  Z.of_nat (length pkts) <= 2 ^ 14 -> queue_holds (b_out_pq (s2_bpp s)) pkts ->
  chain_holds out_raw o -> ready out_raw w ->
  bpp2_at_eof r = false -> chain_holds in_raw [] -> ready in_raw w ->
  exists out_raw' w' s' stream ms', ssh2_bpp_handle_output random_read out_raw w s = Ok (out_raw', w', s') /\
    pq_packets (b_out_pq (s2_bpp s')) = [] /\ chain_holds out_raw' (o ++ stream) /\ padded ms' ms /\
    forall d chunks, concat (d :: chunks) = stream ->
      exists in_raw' w'' r', bpp2_feed in_raw w r (d :: chunks) = Ok (in_raw', w'', r') /\
        chain_holds in_raw' [] /\ at_rest keyed key data tag linked (s2_tx s') r' /\
        pq_packets (b_in_pq (s2_bpp r')) =
          pq_packets (b_in_pq (s2_bpp r)) ++ arrivals ms' (d_sequence (rx_in (s2_rx r))).
Proof.
  intros HR Hrest Hun Hp Hn Hq Hout Hro He Hin Hri. pose proof Hrest as (r0 & Hs & _).
  destruct (handle_output_ok random_read keyed key data tag linked pkts ms out_raw w s r0 o Hs Hun Hp Hq Hout Hro)
    as (out2 & w2 & s2 & E & Hq2 & bytes & ms' & H1 & _ & Hc & Hpad & _ & Hl).
  exists out2, w2, s2, bytes, ms'. split_and!; try done. intros d chunks Ed.
  assert (Hl2 : Z.of_nat (length bytes) < 2 ^ 31) by (unfold frame_bound, OUR_V2_PACKETLIMIT in Hl; lia).
  exact (carries_feed keyed key data tag linked (s2_tx s) (s2_tx s2) bytes ms' r in_raw w d chunks Hc Hrest He Hin Hri Hl2 Ed).
Qed.

(** C2. A NEWKEYS packet stops the input: whatever bytes have arrived behind it stay unread,
    also when the input handler is called again, until [ssh2_bpp_new_incoming_crypto]
    installs new keys; if the sender has installed the same keys behind its NEWKEYS packet,
    both ends are then in step again, so that the bytes left are those of packets under the
    new keys. *)
Theorem rekey_barrier {X ZC ZD R K U} (random_read : Z -> R -> list Z * R)
    (keyed : X -> X -> Prop) (key : X -> K) (data : X -> list Z) (tag : K -> list Z -> list Z)
    (linked : ZC -> ZD -> Prop) (no_crypto : X) (s r : ssh2_bpp_state X ZC ZD R) pkt
    cipher ckey iv mac etm mac_key comp delayed reset :
  RandomLaws random_read -> at_rest keyed key data tag linked (s2_tx s) r -> bpp2_at_eof r = false ->
  bpp2_packet pkt [SSH2_MSG_NEWKEYS] -> po_minlen pkt = 0 ->
  Methods cipher mac etm keyed key data tag ->
  (is_Some cipher -> let x := new_crypto no_crypto cipher ckey iv mac mac_key in keyed x x) ->
  compression_starts comp linked ->
  fl_seen_userauth_success (s2_flags r) = fl_seen_userauth_success (s2_flags s) ->
  exists pkt' tx' bytes, ssh2_bpp_format_packet_inner random_read (s2_tx s) pkt = Ok (pkt', tx') /\ pkt_holds pkt' bytes /\
    (forall (in_raw : bufchain U) rest, chain_holds in_raw (bytes ++ rest) -> Z.of_nat (length (bytes ++ rest)) < 2 ^ 31 ->
     exists in_raw' r', ssh2_bpp_handle_input in_raw r = Ok (in_raw', r') /\ chain_holds in_raw' rest /\
       pq_packets (b_in_pq (s2_bpp r')) =
         pq_packets (b_in_pq (s2_bpp r)) ++ [received (SSH2_MSG_NEWKEYS, []) (d_sequence (rx_in (s2_rx r)))] /\
       ssh2_bpp_handle_input in_raw' r' = Ok (in_raw', r') /\
       at_rest keyed key data tag linked
         (s2_tx (ssh2_bpp_new_outgoing_crypto no_crypto (set_tx s tx') cipher ckey iv mac etm mac_key comp delayed reset))
         (ssh2_bpp_new_incoming_crypto no_crypto r' cipher ckey iv mac etm mac_key comp delayed reset)).
Proof.
  intros HR Hrest He Hp Hml HM Hk Hc Hseen.
  destruct (newkeys_stops (U := U) random_read keyed key data tag linked s r pkt Hrest He Hp Hml)
    as (pkt' & tx' & bytes & E & Hp' & Hin). exists pkt', tx', bytes. split_and!; [done|done|]. intros in_raw rest Hch Hl.
  destruct (Hin in_raw rest Hch Hl) as (in2 & r' & E2 & Hch2 & Hq & Hpt & Hpend & _ & Hsq & Hfl & Hsn). exists in2, r'.
  split_and!; try done; [by apply newkeys_waits|].
  apply new_keys_in_step; try done. cbn [set_tx s2_flags]. congruence.
Qed.

(** C3. No input from the network, in whatever reads it arrives, makes the receiver of packets
    read or write outside of its buffers, fail an assertion or loop for ever, up to the call
    that reports a protocol error, unless the mode is the one in which the code covers the
    encrypted packet, or packets are compressed. *)
Theorem bpp2_input_safe {X ZC ZD R U} (s : ssh2_bpp_state X ZC ZD R) (in_raw : bufchain U) w l chunks :
  safe_inv s -> bpp2_at_eof s = false -> alive s = true -> chain_holds in_raw l -> ready in_raw w ->
  bytesOK (l ++ concat chunks) -> Z.of_nat (length (l ++ concat chunks)) < 2 ^ 31 ->
  exists chunks1 chunks2 in_raw' w' s', chunks = chunks1 ++ chunks2 /\
    bpp2_feed in_raw w s chunks1 = Ok (in_raw', w', s') /\ (chunks2 = [] \/ alive s' = false) /\ safe_inv s'.
Proof.
  intros Hi He Ha Hch Hr Hb Hl. set (Inv := fun s : ssh2_bpp_state X ZC ZD R => bpp2_inv s /\ safe_inv s).
  destruct (feed_safe (U := U) bpp2_read_len bpp2_at_eof bpp2_after_read bpp2_goto_eof bpp2_no_read Inv bpp2_rank bpp2_rank_bound)
    with (alive := alive (X := X) (ZC := ZC) (ZD := ZD) (R := R)) (chunks := chunks) (in_raw := in_raw) (w := w) (c := s) (l := l)
    as (c1 & c2 & in2 & w2 & s2 & Ec & E & Hc & [_ Hi2] & _); try done.
  - intros c n [Hc _]. by apply bpp2_inv_len.
  - intros c d r [Hc Hs] En Er. destruct (bpp2_inv_read c d r Hc En Er) as (H1 & H2 & H3). split; [split; [exact H1|]|by split].
    destruct (after_read_safe c d Hs En) as (r' & Er' & H4); rewrite Er in Er'; injection Er' as <-; apply H4.
  - intros c r [Hc Hs] En Er. destruct (bpp2_inv_no_read c r Hc En Er) as (H1 & H2 & H3). split; [split; [exact H1|]|by split].
    destruct (alive c) eqn:Eal; [|unfold alive, bpp2_no_read in *; by destruct (rx_crState (s2_rx c))].
    destruct (no_read_safe c Hs Eal En) as (r' & Er' & H4); rewrite Er in Er'; injection Er' as <-; apply H4.
  - intros c d [Hc Hs] _ _ En _. destruct (after_read_safe c d Hs En) as (r & Er & _). exists r. split; [done|].
    pose proof (after_read_good c d r Hc En Er) as (_ & _ & Hg). destruct r as [|c']; [done|].
    unfold alive. by destruct (rx_crState (s2_rx c')), Hg.
  - intros c [_ Hs] _ Hal En. destruct (no_read_safe c Hs Hal En) as (r & Er & _). exists r. split; [done|].
    destruct r; [done|by apply (no_read_alive c)].
  - split; [by apply safe_bpp2_inv|done].
  - exists c1, c2, in2, w2, s2. by split_and!.
Qed.

(** C5. In the mode in which the code covers the encrypted packet, a length field of the
    largest accepted value makes the receiver write four bytes behind its packet buffer, before
    any check of the code. *)
Theorem etm_length_overflow {X ZC ZD R U} (s : ssh2_bpp_state X ZC ZD R) (in_raw : bufchain U) body :
  let d := rx_in (s2_rx s) in
  rx_crState (s2_rx s) = CR_START -> bpp2_at_eof s = false -> dir_etm d = true -> sizes_ok d ->
  o_separate (cipher := d_cipher d) = false -> OUR_V2_PACKETLIMIT mod dir_block d = 0 ->
  Z.of_nat (length body) = OUR_V2_PACKETLIMIT + mac_length (d_mac d) ->
  chain_holds in_raw (PUT_32BIT_MSB_FIRST OUR_V2_PACKETLIMIT ++ body) ->
  ssh2_bpp_handle_input in_raw s = Crash UndefinedBehaviour.
Proof.
  intros d Hc He Ee Hz Hsep Hmod Hlb Hch. unfold ssh2_bpp_handle_input, handle_input.
  set (l := PUT_32BIT_MSB_FIRST OUR_V2_PACKETLIMIT ++ body) in *. destruct Hz as [Hblk Hmac].
  assert (Hll : Z.of_nat (length l) < 2 ^ 31) by (unfold l, OUR_V2_PACKETLIMIT in *; rewrite length_app; cbn; lia).
  assert (Hinv : bpp2_inv s) by (split; [done|by rewrite Hc]).
  pose proof (run_arun bpp2_read_len bpp2_at_eof bpp2_after_read bpp2_goto_eof bpp2_no_read bpp2_inv bpp2_rank bpp2_inv_len
    bpp2_inv_read bpp2_inv_no_read (3 * Z.to_nat (bufchain_size in_raw) + 5) s in_raw l Hinv He Hch Hll) as Hrun.
  set (fr := dir_framing d). set (s1 := set_bpp (started s) (b_emit (s2_bpp s) [Ev_check_frozen])).
  set (s2 := at_point (set_in_crypto s1 (d_crypto d))
    (CR_ETM_REST fr OUR_V2_PACKETLIMIT (Block (OUR_V2_PACKETLIMIT + fr_maclen fr) (PUT_32BIT_MSB_FIRST OUR_V2_PACKETLIMIT)))).
  assert (Efp : first_point d = CR_ETM_LENGTH fr) by (unfold first_point; by rewrite Ee).
  assert (A : bpp2_after_read (started s) (PUT_32BIT_MSB_FIRST OUR_V2_PACKETLIMIT) = Ok (Continue s2)).
  { unfold bpp2_after_read. change (rx_crState (s2_rx (set_bpp _ _))) with (first_point d). rewrite Efp.
    apply (etm_length_ok s1 fr _ (d_crypto d) (PUT_32BIT_MSB_FIRST OUR_V2_PACKETLIMIT)); [done| |by vm_compute|by vm_compute|done|apply Hmac].
    change (rx_in (s2_rx s1)) with d. unfold o_separate, o_decrypt_length in *. destruct (d_cipher d) as [c|]; [|done]. by rewrite Hsep. }
  assert (B : bpp2_after_read s2 body = Crash UndefinedBehaviour).
  { unfold bpp2_after_read. change (rx_crState _) with (rx_crState (s2_rx s2)). cbn [s2 at_point set_rx rx_at s2_rx rx_crState].
    unfold etm_rest, block_write. cbn [bl_bytes bl_size]. rewrite (proj2 (Z.leb_gt (4 + Z.of_nat (length body)) _)) by (cbn; lia).
    by rewrite andb_false_r. }
  assert (Hle : leads bpp2_read_len bpp2_after_read bpp2_no_read s l s2 body).
  { eapply leads_trans; [by apply leads_start|]. apply leads_read; [|exact A]. unfold bpp2_read_len.
    change (rx_crState (s2_rx (started s))) with (first_point d). by rewrite Efp. }
  destruct Hle as [k Hk]. pose proof (bpp2_rank_bound s). pose proof (enough_fuel bpp2_rank bpp2_rank_bound in_raw s l Hch Hll).
  rewrite (arun_fuel _ _ _ _ _ _ bpp2_inv_len bpp2_inv_read bpp2_inv_no_read _ (k + S (3 * length l + 4))) in Hrun by (done || lia).
  rewrite Hk in Hrun. cbn [arun] in Hrun.
  assert (En : bpp2_read_len s2 = Some (Z.of_nat (length body))) by (cbn; f_equal; lia).
  rewrite En, Z.leb_refl, Nat2Z.id, take_ge in Hrun by lia. rewrite B in Hrun. exact Hrun.
Qed.

(** ** Witnesses *)

Definition quiet_chain : bufchain unit := bufchain_init.
Definition quiet_world : world unit := World ∅ ∅ tt.

Definition toy_direction : ssh2_bpp_direction toy ssh_zlib_compressor zlib_decompress_ctx :=
  MkDirection 3 (Some toy_cipher) (Some toy_mac) (Toy 5 9 []) false None.

Definition toy_state (out : list PktOut) : ssh2_bpp_state toy ssh_zlib_compressor zlib_decompress_ctx unit :=
  MkBpp2 (MkRx CR_START 0 (dts_reset 0) toy_direction None) (MkTx (dts_reset 0) true toy_direction None tt)
    (MkFlags false false false false false 1 0)
    (MkBpp false pq_init (MkPacketQueue out (sizes out) None) 0 1 0 false []).

(** Packets of the types CHANNEL_DATA and CHANNEL_EOF, the first one padded to 64 bytes, and NEWKEYS. *)
Definition sample_pkts : list PktOut :=
  [MkPktOut 6 9 94 64 (Some <$> [0; 0; 0; 0; 0; 94; 1; 2; 3]) 9 9; MkPktOut 6 6 96 0 (Some <$> [0; 0; 0; 0; 0; 96]) 6 6].
Definition sample_newkeys : PktOut := MkPktOut 6 6 21 0 (Some <$> [0; 0; 0; 0; 0; 21]) 6 6.
Definition sample_msgs : list message := [(94, [1; 2; 3]); (96, [])].

Lemma toy_at_rest out : at_rest toy_keyed toy_key toy_data toy_tag linked (s2_tx (toy_state out)) (toy_state out).
Proof.
  exists (toy_state out). split; [|by left]. split; [done| |apply toy_methods|done|done].
  by split_and!.
Qed.

Lemma sample_packet pkt c : po_data pkt = Some <$> (replicate 5 0 ++ c) -> po_length pkt = Z.of_nat (5 + length c) ->
  po_maxlen pkt = po_length pkt -> Z.of_nat (length c) < 100 -> c <> [] -> bytesOK c -> bpp2_packet pkt c.
Proof.
  intros Hd Hl Hm Hs Hc Hb. split; [|done]. split_and!.
  - by destruct c.
  - by rewrite Hl.
  - by rewrite Hm, Hl, Hd, length_fmap, length_app.
  - rewrite Hm, Hl. unfold pkt_limit. lia.
  - exists []. by rewrite app_nil_r.
Qed.

Lemma sample_sendable : Forall2 (fun pkt m => outgoing pkt m /\ sendable (s2_tx (toy_state sample_pkts)) m (po_minlen pkt))
  sample_pkts sample_msgs.
Proof.
  assert (Hp1 : plain_type 94 /\ plain_type 96).
  { split; (split; [unfold SSH2_MESSAGE_TYPES; set_solver|done]). }
  assert (Hb1 : bytesOK [94; 1; 2; 3]) by (apply (bool_decide_unpack _); vm_compute; exact I).
  assert (Hb2 : bytesOK [96]) by (apply (bool_decide_unpack _); vm_compute; exact I).
  destruct Hp1. apply Forall2_cons. split; [|apply Forall2_cons; split; [|constructor]].
  all: split; [split; [by apply sample_packet|done]|split; [split; [done|]|done]]; by vm_compute.
Qed.

Lemma sample_queue : queue_holds (b_out_pq (s2_bpp (toy_state sample_pkts))) sample_pkts.
Proof. split_and!; [done|done| |done]. apply (bool_decide_unpack _). vm_compute. exact I. Qed.

Lemma bpp2_packets_roundtrip_witness :
  exists out_raw' w' s' stream ms', ssh2_bpp_handle_output toy_random quiet_chain quiet_world (toy_state sample_pkts) = Ok (out_raw', w', s') /\
    pq_packets (b_out_pq (s2_bpp s')) = [] /\ chain_holds out_raw' ([] ++ stream) /\ padded ms' sample_msgs /\
    forall d chunks, concat (d :: chunks) = stream ->
      exists in_raw' w'' r', bpp2_feed quiet_chain quiet_world (toy_state []) (d :: chunks) = Ok (in_raw', w'', r') /\
        chain_holds in_raw' [] /\ at_rest toy_keyed toy_key toy_data toy_tag linked (s2_tx s') r' /\
        pq_packets (b_in_pq (s2_bpp r')) = [] ++ arrivals ms' 3.
Proof.
  apply (bpp2_packets_roundtrip toy_random toy_keyed toy_key toy_data toy_tag linked (toy_state sample_pkts) (toy_state [])
    sample_pkts sample_msgs quiet_chain quiet_chain quiet_world [] toy_random_laws (toy_at_rest [])).
  - split; [reflexivity|split; [reflexivity|]]. intros _. split; eexists; reflexivity.
  - exact sample_sendable.
  - vm_compute. discriminate.
  - exact sample_queue.
  - exact chain_init.
  - left. reflexivity.
  - reflexivity.
  - exact chain_init.
  - left. reflexivity.
Defined.

(** The new keys turn compression on and use encrypted packets under the code. *)
Lemma rekey_barrier_witness :
  exists pkt' tx' bytes, ssh2_bpp_format_packet_inner toy_random (s2_tx (toy_state [])) sample_newkeys = Ok (pkt', tx') /\
    pkt_holds pkt' bytes /\
    (forall (in_raw : bufchain unit) rest, chain_holds in_raw (bytes ++ rest) -> Z.of_nat (length (bytes ++ rest)) < 2 ^ 31 ->
     exists in_raw' r', ssh2_bpp_handle_input in_raw (toy_state []) = Ok (in_raw', r') /\ chain_holds in_raw' rest /\
       pq_packets (b_in_pq (s2_bpp r')) =
         pq_packets (b_in_pq (s2_bpp (toy_state []))) ++ [received (SSH2_MSG_NEWKEYS, []) 3] /\
       ssh2_bpp_handle_input in_raw' r' = Ok (in_raw', r') /\
       at_rest toy_keyed toy_key toy_data toy_tag linked
         (s2_tx (ssh2_bpp_new_outgoing_crypto (Toy 0 0 []) (set_tx (toy_state []) tx') (Some toy_cipher) [17] [] (Some toy_mac) true [4]
            ssh_zlib false false))
         (ssh2_bpp_new_incoming_crypto (Toy 0 0 []) r' (Some toy_cipher) [17] [] (Some toy_mac) true [4] ssh_zlib false false)).
Proof.
  apply (rekey_barrier (U := unit) toy_random toy_keyed toy_key toy_data toy_tag linked (Toy 0 0 []) (toy_state []) (toy_state [])
    sample_newkeys (Some toy_cipher) [17] [] (Some toy_mac) true [4] ssh_zlib false false
    toy_random_laws (toy_at_rest [])).
  - reflexivity.
  - apply sample_packet; try reflexivity; [discriminate|]. apply Forall_singleton. split; [discriminate|reflexivity].
  - reflexivity.
  - apply toy_methods.
  - intros _. reflexivity.
  - exact zlib_starts.
  - reflexivity.
Defined.

Lemma toy_decrypt_length l : forall p, length (toy_decrypt l p).1 = length l.
Proof.
  induction l as [|e l IH]; intros p; [done|]. cbn [toy_decrypt]. specialize (IH e).
  destruct (toy_decrypt l e). cbn [fst length] in *. by rewrite IH.
Qed.

Lemma toy_safe : safe_inv (toy_state []).
Proof.
  split; [|by split_and!]. split; [by split|done|done| |by intros m [= <-]|done].
  intros c [= <-] l x. apply toy_decrypt_length.
Qed.

Lemma bpp2_input_safe_witness :
  exists chunks1 chunks2 in_raw' w' s', [[1; 2; 3]; [255; 0; 7; 9; 200; 11; 0; 0]] = chunks1 ++ chunks2 /\
    bpp2_feed quiet_chain quiet_world (toy_state []) chunks1 = Ok (in_raw', w', s') /\ (chunks2 = [] \/ alive s' = false) /\ safe_inv s'.
Proof.
  apply (bpp2_input_safe (toy_state []) quiet_chain quiet_world [] [[1; 2; 3]; [255; 0; 7; 9; 200; 11; 0; 0]] toy_safe).
  - reflexivity.
  - reflexivity.
  - exact chain_init.
  - left. reflexivity.
  - apply (bool_decide_unpack _). vm_compute. exact I.
  - vm_compute. reflexivity.
Defined.

(** The same state with the code over the encrypted packet. *)
Definition toy_etm_state : ssh2_bpp_state toy ssh_zlib_compressor zlib_decompress_ctx unit :=
  set_rx (toy_state []) (MkRx CR_START 0 (dts_reset 0)
    (MkDirection 3 (Some toy_cipher) (Some toy_mac) (Toy 5 9 []) true None) None).

Lemma etm_length_overflow_witness :
  exists in_raw : bufchain unit, chain_holds in_raw (PUT_32BIT_MSB_FIRST OUR_V2_PACKETLIMIT ++ replicate (Z.to_nat (OUR_V2_PACKETLIMIT + 1)) 0) /\
    ssh2_bpp_handle_input in_raw toy_etm_state = Crash UndefinedBehaviour.
Proof.
  destruct (ready_add quiet_chain [] (PUT_32BIT_MSB_FIRST OUR_V2_PACKETLIMIT ++ replicate (Z.to_nat (OUR_V2_PACKETLIMIT + 1)) 0)
    quiet_world chain_init (or_introl eq_refl)) as (ch & _ & _ & Hch & _). exists ch. split; [exact Hch|].
  apply (etm_length_overflow toy_etm_state ch (replicate (Z.to_nat (OUR_V2_PACKETLIMIT + 1)) 0)).
  - reflexivity.
  - reflexivity.
  - reflexivity.
  - split; split; discriminate.
  - reflexivity.
  - reflexivity.
  - rewrite length_replicate. reflexivity.
  - exact Hch.
Defined.
